(* ===== verification/_CoqProject ===== *)
-Q . S2P
Prelude.v
KState.v
SchedUp.v
DList.v
RtList.v
Object.v
TimerCore.v
SchedComm.v
SuspList.v
Sem.v
Timer.v
Thread.v
Demo.v
RoundRobin.v
SemTake.v
Mutex.v
MutexInv.v
MutexTake.v
MutexRel.v
Event.v
IpcWait.v
Ring.v
DataQueue.v
Completion.v
WaitQueue.v
Workqueue.v
WorkqueueProp.v
Mailbox.v
MsgQueue.v
MsgQueueSteps.v
MsgQueueProp.v
TimerProp.v
RingBuffer.v
Tick.v
MemPool.v
SList.v
RingBlk.v
RingBlkProp.v
RingBlkUse.v
SmallMem.v
Blocks.v
SmallMemInv.v
SmallMemProp.v
MemHeap.v
MemHeapInv.v
MemHeapInit.v
MemHeapProp.v
MemHeapFree.v
MemHeapShrink.v
MemHeapRealloc.v
ByteMem.v
KString.v
KPrintf.v
KPrintfProp.v
Format.v
Condvar.v
Avl.v
AvlTree.v
AvlRep.v
AvlRebalance.v
AvlProp.v
Aspace.v
AspaceFind.v
AspaceUnmap.v
AspaceUnmapProp.v
AspaceMap.v
AspaceMapProp.v
AspaceWalk.v
AspaceDemo.v
Buddy.v
BuddyInv.v
BuddyRep.v
BuddyProp.v
BuddyInstall.v
BuddyUse.v
MemBlock.v
MemBlockProp.v
MemBlockUse.v
MemBlockFree.v
Calendar.v
