(* ===== verification/Prelude.v ===== *)
(** * A model of the RT-Thread kernel

    This library models the kernel of RT-Thread 5.1.0 (rt-thread/src) as the
    board support package rt-thread/bsp/arm/AVH-FVP_MPS2_Cortex-M85-AI configures
    it (rtconfig.h): one processor, 32 priorities, soft timers, semaphores, mutexes,
    events, mailboxes and message queues, [RT_USING_DEBUG] with context checks, a
    timer list of one skip level, no signals, no modules, hooks left NULL.

    ** The parts and how they interact

    The kernel is one shared state.  Threads are linked in a ready queue per
    priority or in the suspend list of the object they wait for; each thread has
    an embedded timer that ends its wait.  The scheduler picks the head of the most
    urgent ready queue.  An IPC call that must wait puts the caller on a suspend
    list, starts its timer and calls the scheduler; the call that makes the
    condition true takes a thread off the list and makes it ready; the tick
    interrupt fires the timers, and the timer of a thread takes it off the list
    with an error.  Mutexes change the priority of their owners, and of the owners
    these wait for.

    ** Files

    - Prelude: the state monad [M] (a failed [RT_ASSERT] or a NULL dereference is
      [None]), its weakest precondition [wp] and the liberal one [wlp] with their tactic,
      machine widths, flag arithmetic, list lemmas.
    - KState: the record [kernel] with the control blocks of include/rtdef.h, the
      lists, the scheduler's variables, the tick and the object containers.
    - SchedUp: src/scheduler_up.c and [__rt_ffs] of src/kservice.c; the ready-queue
      invariant [kinv].
    - DList, RtList: the circular doubly linked lists of include/rtservice.h as pointer
      structures, and their refinement of the lists of KState.
    - Object: src/object.c.
    - TimerCore, Timer, TimerProp: src/timer.c; operations on a timer, start and
      check, and their properties.
    - SchedComm: src/scheduler_comm.c.
    - SuspList: the suspend lists of src/ipc.c.
    - Sem, SemTake: semaphores of src/ipc.c, with refinement of a counting semaphore
      with a queue of waiters.
    - Thread: src/thread.c and the tick conversion of src/clock.c.
    - Demo: a concrete kernel state with running, ready and waiting threads, shown to
      satisfy the invariants; the theorems are exercised on it.
    - RoundRobin: time slices and turns among threads of one priority.
    - Mutex, MutexInv, MutexTake, MutexRel: mutexes of src/ipc.c with inheritance and
      ceiling, the mutex part of src/thread.c, the invariant of inheritance and the
      behaviour of take and release.
    - Event: events of src/ipc.c.
    - IpcWait: the waiting loop the mailbox and the message queue share.
    - Ring: contents of a circular array.
    - Mailbox: mailboxes of src/ipc.c.
    - MsgQueue, MsgQueueSteps, MsgQueueProp: message queues of src/ipc.c; the slot
      structure, the interleavings of the atomic sections, the calls as a whole.
    - RingBuffer: components/drivers/ipc/ringbuffer.c.
    - SList: the singly linked lists of include/rtservice.h, and lists they stand for.
    - RingBlk, RingBlkProp, RingBlkUse: components/drivers/ipc/ringblk_buf.c on SList; the
      operations, the layout of blocks in the buffer, and what clients can rely on.
    - DataQueue: components/drivers/ipc/dataqueue.c.
    - Completion: components/drivers/ipc/completion_up.c and completion_comm.c.
    - WaitQueue: components/drivers/ipc/waitqueue.c.
    - Condvar: components/drivers/ipc/condvar.c, on wait queues and mutexes.
    - Workqueue, WorkqueueProp: components/drivers/ipc/workqueue.c; the operations, and
      their properties with the steps of users, timer and thread of a queue.
    - Tick: src/irq.c, [rt_tick_increase] of src/clock.c, and the timeout functions
      of the kernel.
    - MemPool: src/mempool.c.
    - SmallMem, Blocks, SmallMemInv, SmallMemProp: src/mem.c; the operations on block
      headers, lists of blocks with a size and a used mark, the invariant between the
      two, and the properties of allocation, release and reallocation.
    - MemHeap, MemHeapInv, MemHeapInit, MemHeapProp, MemHeapFree, MemHeapShrink,
      MemHeapRealloc: src/memheap.c; headers in a list by address and a list of free
      blocks, the invariant that relates both to a list of blocks (of Blocks), a heap
      after initialisation, and allocation, release, shrinking and reallocation.
    - ByteMem, KString: byte-addressed memory and src/klibc/kstring.c.
    - KPrintf, KPrintfProp, Format: [rt_vsnprintf] of src/klibc/kstdio.c, the text of a
      field, the text of a format.
    - Avl, AvlTree, AvlRep, AvlRebalance, AvlProp: components/utilities/libadt/avl; the
      operations on the pointers of the nodes, trees and their balance, the trees that
      pointers stand for (a whole tree, or one around a node worked on), one round of
      rebalancing, and inserting, removing and walking.
    - Aspace: components/mm/avl_adpt.c, the tree of the regions of an address space.
    - AspaceFind, AspaceUnmap, AspaceUnmapProp, AspaceMap, AspaceMapProp, AspaceWalk,
      AspaceDemo: components/mm/mm_aspace.c; the search for room, removing a range of
      pages, mapping with expansion and merging, walking over all regions, and spaces on
      which calls go wrong.
    - Buddy, BuddyInv, BuddyRep, BuddyProp, BuddyInstall, BuddyUse: components/mm/mm_page.c;
      the page records and operations, maps of blocks of pages with splitting and joining,
      the free lists that stand for a map, the loops, the installation of a region, and
      the allocator as its clients see it.
    - MemBlock, MemBlockProp, MemBlockUse, MemBlockFree: components/mm/mm_memblock.c on
      SList; the operations, the two lists of regions, adding, merging and flagging, and
      the regions left for the page allocator.
    - Calendar: the conversions of components/libc/compilers/common/ctime.c
      between seconds, broken-down times and text, and the dates they stand for.

    ** Conventions of the translation

    Every C function that touches kernel state is a computation [K A] over
    [kernel].  Identifiers are positive numbers: [tid] of threads, [timid] of timers,
    [oid] of IPC objects; [thread_timer t] is the timer embedded in thread [t].  A
    list node belongs to one thread, timer or mutex, so [rt_list_remove] of a node
    unlinks it from whatever list holds it.  Integers keep their C width: [u8], [u16],
    [u32] and [s32] are applied where the C type wraps.  An exception is the nesting of
    the scheduler lock, an rt_int16_t in scheduler_up.c, which is an unbounded number: the
    model is faithful up to 32767 nested calls of [rt_enter_critical].  [__rt_ffs] is the
    table version of kservice.c, the reference for the one of the CPU port that
    RT_USING_CPU_FFS selects in this configuration; both give the number of the lowest set
    bit, counted from 1, and 0 for 0.

    A section of code under masked interrupts is atomic.  On one processor
    [rt_sched_lock] masks interrupts and has no counterpart; a spin lock is the
    scheduler lock, and its release reschedules when the nesting reaches zero.  A
    context switch is the assignment of the current thread.  A call that can block
    is two definitions: [_begin] runs up to the switch, and returns a result when it
    did not block; [_end] is what the thread does when it runs again.  The loops of
    mailboxes and message queues carry their locals from [_begin] to [_end] in the
    type [wait].  The copies of a message queue run with the lock released:
    MsgQueueSteps has one step per atomic section and any number of concurrent
    callers, and says what every interleaving keeps.

    Memory is addressed by [Z].  A pool of MemPool has its header words in one map; the
    header of a block in use holds the address of its control block, written
    [mp_ptr m].  A small-memory heap keeps headers (by offset) and bytes (by address) in
    two maps; that the headers of distinct blocks do not overlap is part of its
    invariant.  A memory heap of MemHeap keeps the fields of its headers in maps by
    address; one heap is modelled, and what happens while a caller waits for its lock is
    the argument [wait] of the operations; the unlock is that of a semaphore without
    waiters (with some, the unit goes to the first of them and the count stays, as the
    theorems on [rt_sem_release] say).  The routines of src/klibc work on a finite map
    from addresses to bytes (ByteMem); an access outside the map fails.

    The objects of components/drivers/ipc are the field [k_dev] of the kernel state; a
    thread that waits in a data queue is in one of its two lists, a thread that waits
    for a completion or in a wait queue is in no list and is found through the object.
    A wait for a condition variable has several unlocks; each part between two of them is a
    definition of its own, and the call is their sequence when no unlock switches away.

    The AVL nodes and the address spaces of components/mm are states of their own ([avl],
    [aspace]): a node is an element of any type with decidable equality, a pointer to a
    child field is a [place], and every pointer write is one update in the order of the
    code.  A region of an address space is identified with its tree node.  The tree is
    used through two predicates: [represents h t] (the pointers stand for the tree [t])
    and, one level up, [holds s l] (the tree of [s] holds the regions [l] in order), so
    that nothing above Aspace mentions pointers.

    The page records of the page allocator are fields by the number of the page.  What they
    stand for is a map from the first page of each block to its order and status
    ([blocks]); pages in the hands of the running operation are [Held] blocks, and maps that
    differ in these only are equivalent ([held_eq]).  Above BuddyUse only the set of free
    pages and the blocks in use with their holders are left ([page_spec]).  A ring block
    buffer reads the pointer of a NULL node in one case: [null_next] is what that gives,
    [None] when it faults.

    The memory and the reserved regions of start-up are two singly linked lists over one
    array of records; what they say is which addresses are [mapped] with which flags.
    The walk over the free regions treats the head of a list as a region, so the flags and
    bounds of the head are unknowns of the state, which [head_harmless] restricts.  A calendar time is a record of integers; valid
    times ([valid_tm]) are numbered by the years since 1970.

    Outside the sources, and therefore arguments: RT_PAGE_MAX_ORDER, PV_OFFSET and the
    mapping of the page records of the CPU port, the callbacks of memory objects and
    [rt_hw_mmu_map], the memory [RT_KERNEL_MALLOC] and
    [rt_malloc] return, the timeout functions of the application, the notification
    function of a data queue, the wake-up functions of wait queues, the functions of
    works, and the messages.

    ** What the theorems show

    - Scheduling: [rt_schedule] keeps the ready-queue invariant and runs a thread of
      the highest priority; [__rt_ffs] finds the lowest set bit.
    - Semaphores: take and release refine a counting semaphore with waiters; a
      release hands over to the first waiter, whose take succeeds, and touches no other
      thread, list or semaphore; a wait that expires ends in
      [-RT_ETIMEOUT]; a release that meets an expired timer is lost.
    - Mutexes: every branch of take and release, with inheritance along the whole
      chain of blocked owners, hand-over to the most urgent waiter and return to the
      priority the former owner still owes; a hand-over ignores the ceiling, and a
      detached thread keeps the mutexes it holds.
    - Events: which waiters a send serves and which bits it clears; the branches of a
      receive.
    - Mailboxes and message queues: send, urgent send and receive refine a bounded
      queue with waiters; sequences are first-in first-out; in all interleavings the
      slots of a message queue are partitioned into queue, free list and slots in use.
    - Timers: the order of the list, which timers a check fires, which threads the
      tick wakes up (and that all others keep their place) when only threads have
      interrupt timers, and a zero period, on which the check does not end.
    - Data queues: push and pop refine a bounded queue with waiting writers and readers and
      a low water mark; a reset wakes everybody.
    - Completions: wait and wake-up refine a machine of three states; a wait and the
      wake-up for it always meet.
    - Wait queues: who is served by a wake-up, and that a wake-up before or after the
      wait ends it.
    - Condition variables: a wait sleeps in the queue and gives up the mutex in one step; a
      signal serves the first waiter that sleeps, a broadcast leaves none asleep.
    - Work queues: works run first-in first-out; the thread of a queue never sleeps while
      a work is pending, whatever is submitted (with or without delay) and cancelled; the end of a work releases everybody who waits for it; a work
      whose delay ends while it runs is dropped, and one submitted twice trips an assertion.
    - Ring buffers: put, forced put, get and peek refine a bounded byte queue.
    - Lists: the pointer operations of [rt_list_t] implement the functional lists of the
      kernel state.
    - Turns: threads of one priority get the processor in turn, each for its time slice.
    - Memory pools: allocation and release on every branch; blocks handed out lie inside
      the pool and do not overlap.
    - Small-memory heap: allocation is first fit on the list of blocks, release merges
      with the free neighbours, a release undoes an allocation, reallocation keeps the
      bytes.
    - Memory heap: allocation takes the first large enough block of the free list,
      release merges on both sides and undoes an allocation, reallocation works in place
      or moves the block with its bytes; the free list always holds exactly the free
      blocks and no two of them are neighbours.
    - Memory and strings: the word-wise [rt_memcpy] and [rt_memset] are the byte-wise
      ones, [rt_memmove] copies overlapping ranges, comparisons are the lexicographic
      order, searches find the first occurrence, copies write the string and nothing else;
      [rt_strnlen] reads one byte too many.
    - AVL trees: inserting and removing keep the order of the nodes, the balance, the
      heights and every pointer; next, previous, first and last follow the order.
    - Address spaces: searching finds what a search in the sorted list of regions finds;
      the search for room returns room in a space of less than 2 GiB whose regions are
      aligned at least as the flags ask; unmapping a range removes exactly its pages, by
      splitting, shrinking and removing regions; under the same conditions, mapping an
      object whose regions are not expanded adds exactly the pages asked for,
      and at a fixed address replaces what was there, when the callbacks and the allocation
      succeed.  Merging with a neighbour
      behind the new region moves pages, an alignment above the page size and regions
      2 GiB apart let the search return occupied addresses, and a fixed mapping ignores a
      failed unmapping.
    - Page allocator: a request gets aligned pages that were free, or NULL only when there
      is no such range; the last release of a block makes exactly its pages free and
      joins them with their free buddies; blocks in use never overlap; a region installed
      where the allocator has no block yet is cut into aligned blocks, also when its size is no
      multiple of the largest block; [rt_page_bits] is the least order.
    - Memory blocks: adding refuses overlapping regions; merging keeps what is mapped; a
      reserved range gets its flags exactly, except when it starts where the memory was
      cut, or when all records are in use; the regions left for the page allocator are exactly
      the memory that is not reserved, unless the memory in front of the list head looks like
      a region.
    - Calendar time: seconds and valid Gregorian dates are in one-to-one correspondence;
      dates that are not normal, and times before 1970, are converted wrongly.
    - Ring block buffer: blocks in use stay inside the buffer and apart, as long as no first
      block is larger than the buffer; which blocks a queue takes; a failed request loses a block structure, a first block larger than
      the buffer is accepted, and a queue may have a hole or read at NULL.
    - Formatted output: [rt_vsnprintf] writes the text of the format cut off at its buffer
      and nothing else, and returns the length of the whole text (not, as its comment says,
      the number of characters written); and decimal numbers are read back.

    ** Fuel

    Loops over a suspend list have the length of the list as fuel, which each turn
    shortens.  The walk of inheritance along blocked owners takes its fuel as an
    argument; the theorems assume the chain ends within it ([chain]), which is the
    absence of a deadlock cycle.  [_timer_check] ends within one turn more than the
    number of expired timers (proved for one-shot timers).  The reset of a message
    queue has one turn per slot.  [rt_list_len] and the walks over a heap have one turn
    per node or header, a walk over a string one turn per accessible byte; the theorems
    show that they end within it.  The acknowledgement of a work has one turn per thread
    that waits and one more.  The loops along a path of an AVL tree have the fuel 66
    ([AVL_FUEL]), one turn more than the height of a balanced tree of fewer than 2^32 nodes
    can need ([balanced_small]); the loops over regions take their fuel as an argument, and
    for searches, unmapping and walks the number of regions is enough.  The loops of a
    ring block buffer have two turns more than there are blocks; those of the page allocator
    one turn per order, and the installation one turn per page of the ranges touched.
    The loops over memory blocks have a few turns more than there are records, twice as
    many where a step may split a region; the loop over the years of a date one turn per day.
    Running out of fuel is [None], which no theorem that promises a result allows.

    ** Not modelled

    The symmetric-multiprocessing scheduler and spin locks, signals, loadable modules,
    the idle thread and its hooks, stacks and
    register contexts, the console and the services of src/kservice.c, the allocator
    of src/slab.c, device drivers apart from the objects of components/drivers/ipc named
    above, file systems, network stack and the CMSIS packages;
    board start-up code.  Of components/mm: page tables and the MMU, the early phase
    of the page allocator and addresses above 4 GiB, anonymous and physical mappings, and
    reading and writing pages.  Of the C library: everything but the conversions of
    calendar time. *)
From stdpp Require Export base numbers sets list.

#[global] Open Scope Z_scope.

(** * A state monad with assertions

    Kernel code reads and writes shared state and stops in [RT_ASSERT] when an
    assertion fails.  [M S A] is a computation over states [S]; [None] is a
    failed assertion (the target then loops in [rt_assert_handler]). *)

Definition M (S A : Type) : Type := S -> option (A * S).

#[global] Instance M_ret {S} : MRet (M S) := fun A a s => Some (a, s).
#[global] Instance M_bind {S} : MBind (M S) :=
  fun A B f m s => match m s with Some (a, s') => f a s' | None => None end.

Definition get {S} : M S S := fun s => Some (s, s).
Definition gets {S A} (f : S -> A) : M S A := fun s => Some (f s, s).
Definition modify {S} (f : S -> S) : M S unit := fun s => Some (tt, f s).

(** [RT_ASSERT(b)]: the computation stops when the condition is false. *)
Definition RT_ASSERT {S} (b : bool) : M S unit :=
  fun s => if b then Some (tt, s) else None.

(** Lift a partial value: [None] is the dereference of a NULL pointer. *)
Definition deref {S A} (o : option A) : M S A :=
  fun s => match o with Some a => Some (a, s) | None => None end.

(** [wp m Q s]: [m] started in [s] fails no assertion, and its result and
    final state satisfy [Q]. *)
Definition wp {S A} (m : M S A) (Q : A -> S -> Prop) (s : S) : Prop :=
  match m s with Some (a, s') => Q a s' | None => False end.

Section wp.
Context {S : Type}.
Implicit Types s : S.

Lemma wp_ret {A} (a : A) Q s : Q a s -> wp (mret a : M S A) Q s.
Proof. done. Qed.

Lemma wp_bind {A B} (m : M S A) (f : A -> M S B) Q s :
  wp m (fun a => wp (f a) Q) s -> wp (mbind f m) Q s.
Proof. unfold wp, mbind, M_bind. destruct (m s) as [[a s']|]; done. Qed.

Lemma wp_bind_inv {A B} (m : M S A) (f : A -> M S B) Q s :
  wp (mbind f m) Q s -> wp m (fun a => wp (f a) Q) s.
Proof. unfold wp, mbind, M_bind. destruct (m s) as [[a s']|]; done. Qed.

Lemma wp_get Q s : Q s s -> wp get Q s.
Proof. done. Qed.

Lemma wp_gets {A} (f : S -> A) Q s : Q (f s) s -> wp (gets f) Q s.
Proof. done. Qed.

Lemma wp_modify (f : S -> S) Q s : Q tt (f s) -> wp (modify f) Q s.
Proof. done. Qed.

Lemma wp_assert (b : bool) Q s : b = true -> Q tt s -> wp (RT_ASSERT b) Q s.
Proof. intros ->. done. Qed.

Lemma wp_deref {A} (o : option A) a Q s : o = Some a -> Q a s -> wp (deref o) Q s.
Proof. intros ->. done. Qed.

Lemma wp_mono {A} (m : M S A) (Q R : A -> S -> Prop) s :
  wp m Q s -> (forall a s', Q a s' -> R a s') -> wp m R s.
Proof. unfold wp. destruct (m s) as [[a s']|]; eauto. Qed.

Lemma wp_conj {A} (m : M S A) (Q R : A -> S -> Prop) s :
  wp m Q s -> wp m R s -> wp m (fun a s' => Q a s' /\ R a s') s.
Proof. unfold wp. destruct (m s) as [[a s']|]; eauto. Qed.

Lemma wp_exists {A} (m : M S A) (Q : A -> S -> Prop) s :
  wp m Q s <-> exists a s', m s = Some (a, s') /\ Q a s'.
Proof.
  unfold wp. destruct (m s) as [[a s']|]; split; [eauto|..].
  - by intros (? & ? & [= <- <-] & ?).
  - done.
  - by intros (? & ? & ? & _).
Qed.

Lemma wp_elim {A} (m : M S A) (Q : A -> S -> Prop) s a s' :
  wp m Q s -> m s = Some (a, s') -> Q a s'.
Proof. unfold wp. intros H E. by rewrite E in H. Qed.

(** The final state of a run. *)
Definition run {A} (m : M S A) (s : S) : S := match m s with Some (_, s') => s' | None => s end.

Lemma wp_run {A} (m : M S A) (Q : A -> S -> Prop) s : wp m Q s -> exists a, Q a (run m s).
Proof. unfold wp, run. destruct (m s) as [[a s']|]; [eauto|done]. Qed.
End wp.

(** [wlp m Q s]: if [m] started in [s] fails no assertion, its result and final state
    satisfy [Q]. *)
Definition wlp {S A} (m : M S A) (Q : A -> S -> Prop) (s : S) : Prop :=
  match m s with Some (a, s') => Q a s' | None => True end.

Section wlp.
Context {S : Type}.
Implicit Types s : S.

Lemma wp_wlp {A} (m : M S A) (Q : A -> S -> Prop) s : wp m Q s -> wlp m Q s.
Proof. unfold wp, wlp. by destruct (m s) as [[a s']|]. Qed.

Lemma wlp_elim {A} (m : M S A) (Q : A -> S -> Prop) s a s' : wlp m Q s -> m s = Some (a, s') -> Q a s'.
Proof. unfold wlp. intros H E. by rewrite E in H. Qed.

Lemma wlp_bind {A B} (m : M S A) (f : A -> M S B) Q s :
  wlp m (fun a => wlp (f a) Q) s -> wlp (mbind f m) Q s.
Proof. unfold wlp, mbind, M_bind. destruct (m s) as [[a s']|]; done. Qed.

Lemma wlp_mono {A} (m : M S A) (Q R : A -> S -> Prop) s :
  wlp m Q s -> (forall a s', Q a s' -> R a s') -> wlp m R s.
Proof. unfold wlp. destruct (m s) as [[a s']|]; eauto. Qed.

Lemma wlp_ret {A} (a : A) Q s : Q a s -> wlp (mret a : M S A) Q s.
Proof. done. Qed.

Lemma wlp_gets {A} (f : S -> A) Q s : Q (f s) s -> wlp (gets f) Q s.
Proof. done. Qed.

Lemma wlp_modify (f : S -> S) Q s : Q tt (f s) -> wlp (modify f) Q s.
Proof. done. Qed.

Lemma wlp_assert (b : bool) Q s : (b = true -> Q tt s) -> wlp (RT_ASSERT b) Q s.
Proof. unfold wlp, RT_ASSERT. destruct b; [intros H; by apply H|done]. Qed.

Lemma wlp_deref {A} (o : option A) Q s : (forall a, o = Some a -> Q a s) -> wlp (deref o) Q s.
Proof. unfold wlp, deref. destruct o; [intros H; by apply H|done]. Qed.
End wlp.

(** One step of symbolic execution of a monadic program. *)
Ltac wp_step :=
  lazymatch goal with
  | |- wp (mbind _ _) _ _ => apply wp_bind
  | |- wp (mret _) _ _ => apply wp_ret
  | |- wp get _ _ => apply wp_get
  | |- wp (gets _) _ _ => apply wp_gets
  | |- wp (modify _) _ _ => apply wp_modify
  | |- wp (RT_ASSERT _) _ _ => apply wp_assert
  | |- wp (deref _) _ _ => eapply wp_deref
  | |- wlp (mbind _ _) _ _ => apply wlp_bind
  | |- wlp (mret _) _ _ => apply wlp_ret
  | |- wlp (gets _) _ _ => apply wlp_gets
  | |- wlp (modify _) _ _ => apply wlp_modify
  | |- wlp (RT_ASSERT _) _ _ => apply wlp_assert; intros
  | |- wlp (deref _) _ _ => apply wlp_deref; intros
  end.

(** * Machine integers *)

#[global] Arguments Z.testbit : simpl never.
#[global] Arguments Z.land : simpl never.
#[global] Arguments Z.lor : simpl never.
#[global] Arguments Z.lnot : simpl never.

(** Unsigned wrap-around at [w] bits, and the two's-complement reading. *)
Definition uwrap (w z : Z) : Z := z mod 2 ^ w.
Definition u8 (z : Z) : Z := uwrap 8 z.
Definition u16 (z : Z) : Z := uwrap 16 z.
Definition u32 (z : Z) : Z := uwrap 32 z.
Definition i32 (z : Z) : Z := (z + 2 ^ 31) mod 2 ^ 32 - 2 ^ 31.

Lemma uwrap_range w z : 0 <= w -> 0 <= uwrap w z < 2 ^ w.
Proof. intros. apply Z.mod_pos_bound. lia. Qed.

Lemma u8_range z : 0 <= u8 z < 256.
Proof. apply (uwrap_range 8). lia. Qed.

Lemma u16_range z : 0 <= u16 z < 65536.
Proof. apply (uwrap_range 16). lia. Qed.

Lemma u32_range z : 0 <= u32 z < 4294967296.
Proof. apply (uwrap_range 32). lia. Qed.

Lemma u8_id z : 0 <= z < 256 -> u8 z = z.
Proof. apply Z.mod_small. Qed.

Lemma u16_id z : 0 <= z < 65536 -> u16 z = z.
Proof. apply Z.mod_small. Qed.

Lemma u32_id z : 0 <= z < 4294967296 -> u32 z = z.
Proof. apply Z.mod_small. Qed.

Lemma i32_id z : - 2 ^ 31 <= z < 2 ^ 31 -> i32 z = z.
Proof. intros. unfold i32. rewrite Z.mod_small; lia. Qed.

(** * Alignment macros of rtdef.h *)

Definition RT_ALIGN_SIZE : Z := 8.

(** [RT_ALIGN(size, align)] on a 32-bit [rt_size_t]. *)
Definition RT_ALIGN (size align : Z) : Z :=
  Z.land (u32 (size + align - 1)) (Z.lnot (align - 1)).

Definition RT_ALIGN_DOWN (size align : Z) : Z := Z.land size (Z.lnot (align - 1)).

Lemma land_lnot_7 z : Z.land z (Z.lnot 7) = z - z mod 8.
Proof.
  rewrite <- Z.ldiff_land. change 7 with (Z.ones 3).
  rewrite Z.ldiff_ones_r, Z.shiftl_mul_pow2, Z.shiftr_div_pow2 by lia.
  change (2 ^ 3) with 8. pose proof (Z.div_mod z 8). lia.
Qed.

Lemma land_7 z : Z.land z 7 = z mod 8.
Proof. change 7 with (Z.ones 3). by rewrite Z.land_ones. Qed.

(** Replacing the three low bits of [z], as in [c | (z & ~7)]. *)
Lemma lor_low3 c z : 0 <= c < 8 -> Z.lor c (Z.land z (Z.lnot 7)) = c + (z - z mod 8).
Proof.
  intros Hc. rewrite <- Z.add_nocarry_lor, land_lnot_7; [done|].
  rewrite Z.land_assoc, (Z.land_comm c z), <- Z.land_assoc.
  replace (Z.land c (Z.lnot 7)) with 0 by (rewrite land_lnot_7, Z.mod_small; lia).
  apply Z.land_0_r.
Qed.

Lemma RT_ALIGN_8 z : 0 <= z < 2 ^ 32 - 8 ->
  RT_ALIGN z 8 = 8 * ((z + 7) / 8).
Proof.
  intros. unfold RT_ALIGN. rewrite u32_id by lia.
  change (8 - 1) with 7. rewrite land_lnot_7.
  replace (z + 8 - 1) with (z + 7) by lia.
  pose proof (Z.div_mod (z + 7) 8). lia.
Qed.

Lemma RT_ALIGN_8_bounds z : 0 <= z < 2 ^ 32 - 8 ->
  z <= RT_ALIGN z 8 <= z + 7 /\ RT_ALIGN z 8 mod 8 = 0.
Proof.
  intros. rewrite RT_ALIGN_8 by done. split.
  - pose proof (Z.div_mod (z + 7) 8). pose proof (Z.mod_pos_bound (z + 7) 8). lia.
  - rewrite Z.mul_comm. apply Z.mod_mul. lia.
Qed.

Lemma RT_ALIGN_DOWN_8 z : RT_ALIGN_DOWN z 8 = z - z mod 8.
Proof. apply land_lnot_7. Qed.

(** * Error codes of rtdef.h (without libc errno) *)

Definition RT_EOK : Z := 0.
Definition RT_ERROR : Z := 1.
Definition RT_ETIMEOUT : Z := 2.
Definition RT_EFULL : Z := 3.
Definition RT_EEMPTY : Z := 4.
Definition RT_ENOMEM : Z := 5.
Definition RT_EBUSY : Z := 7.
Definition RT_EINTR : Z := 9.
Definition RT_EINVAL : Z := 10.

(** * Total maps as updatable functions *)

Definition fupd {K V} `{EqDecision K} (k : K) (v : V) (f : K -> V) : K -> V :=
  fun x => if decide (x = k) then v else f x.

Lemma fupd_eq {K V} `{EqDecision K} (k : K) (v : V) f : fupd k v f k = v.
Proof. unfold fupd. by rewrite decide_True. Qed.

Lemma fupd_ne {K V} `{EqDecision K} (k x : K) (v : V) f : x <> k -> fupd k v f x = f x.
Proof. intros. unfold fupd. by rewrite decide_False. Qed.

(** * Filtering lists *)

Lemma filter_all {A} (P : A -> Prop) `{!forall x, Decision (P x)} (l : list A) :
  (forall x, x ∈ l -> P x) -> filter P l = l.
Proof.
  induction l as [|x l IH]; [done|]. intros HP. rewrite filter_cons_True by (apply HP; left).
  rewrite IH; [done|]. intros; apply HP; by right.
Qed.

Lemma filter_in {A} (P R : A -> Prop) `{!forall x, Decision (P x), !forall x, Decision (R x)}
    (l : list A) : (forall x, x ∈ l -> (P x <-> R x)) -> filter P l = filter R l.
Proof.
  induction l as [|x l IH]; [done|]. intros HP. assert (Hx : P x <-> R x) by (apply HP; left).
  assert (IHl : filter P l = filter R l) by (apply IH; intros; apply HP; by right).
  destruct (decide (P x)); [rewrite !filter_cons_True by naive_solver; by rewrite IHl|].
  by rewrite !filter_cons_False by naive_solver.
Qed.

(** * Automation *)

Create HintDb rtt.
Create Rewrite HintDb rttw.
#[export] Hint Rewrite @fupd_eq : rttw.
#[export] Hint Rewrite @fupd_ne using done : rttw.

(** Case analysis on a boolean test of a program and its arithmetic meaning. *)
Ltac zbool :=
  repeat match goal with
  | H : (_ =? _) = true |- _ => apply Z.eqb_eq in H
  | H : (_ =? _) = false |- _ => apply Z.eqb_neq in H
  | H : (_ <? _) = true |- _ => apply Z.ltb_lt in H
  | H : (_ <? _) = false |- _ => apply Z.ltb_ge in H
  | H : (_ <=? _) = true |- _ => apply Z.leb_le in H
  | H : (_ <=? _) = false |- _ => apply Z.leb_gt in H
  | H : (_ && _)%bool = true |- _ => apply andb_true_iff in H as [? ?]
  | H : (_ || _)%bool = false |- _ => apply orb_false_iff in H as [? ?]
  | H : negb _ = true |- _ => apply negb_true_iff in H
  | H : negb _ = false |- _ => apply negb_false_iff in H
  end.

Ltac case_bool :=
  match goal with
  | |- context [if ?b then _ else _] =>
      lazymatch type of b with
      | bool => let E := fresh "E" in destruct b eqn:E; zbool
      end
  end.
