(* ===== verification/KState.v ===== *)
(** Kernel state.

    The shared state of the uniprocessor kernel as one record: the control
    blocks of threads, timers and IPC objects (include/rtdef.h), the lists they
    are linked in, the scheduler's variables (src/scheduler_up.c), the tick
    (src/clock.c) and the object containers (src/object.c).

    Control blocks are storage addressed by pointer: a total function from
    identifiers to records.  A [rt_list_t] of threads is a list of thread
    identifiers; a thread has ONE list node ([tlist]), so [rt_list_remove] of
    that node takes the thread out of whatever list holds it ([list_unlink]).
    RtList.v proves that the pointer operations of rtservice.h implement these
    list operations. *)
From S2P Require Import Prelude.
#[local] Open Scope Z_scope.

Abbreviation tid := positive (only parsing).
Abbreviation oid := positive (only parsing).
Abbreviation timid := positive (only parsing).

(** * Constants of rtdef.h and rtconfig.h *)

Definition RT_THREAD_PRIORITY_MAX : Z := 32.

Definition RT_THREAD_INIT : Z := 0.
Definition RT_THREAD_CLOSE : Z := 1.
Definition RT_THREAD_READY : Z := 2.
Definition RT_THREAD_RUNNING : Z := 3.
Definition RT_THREAD_SUSPEND_MASK : Z := 4.
Definition RT_THREAD_SUSPEND_INTERRUPTIBLE : Z := 4.
Definition RT_THREAD_SUSPEND : Z := 4.
Definition RT_THREAD_SUSPEND_KILLABLE : Z := 6.
Definition RT_THREAD_SUSPEND_UNINTERRUPTIBLE : Z := 7.
Definition RT_THREAD_STAT_MASK : Z := 7.
Definition RT_THREAD_STAT_YIELD : Z := 8.
Definition RT_THREAD_STAT_YIELD_MASK : Z := 8.

(** [enum] of suspend flags (rtdef.h). *)
Inductive suspend_flag := RT_INTERRUPTIBLE | RT_KILLABLE | RT_UNINTERRUPTIBLE.

Definition RT_TICK_MAX : Z := 4294967295.
Definition RT_TICK_PER_SECOND : Z := 1.

Definition RT_TIMER_FLAG_DEACTIVATED : Z := 0.
Definition RT_TIMER_FLAG_ACTIVATED : Z := 1.
Definition RT_TIMER_FLAG_PROCESSING : Z := 2.
Definition RT_TIMER_FLAG_ONE_SHOT : Z := 0.
Definition RT_TIMER_FLAG_PERIODIC : Z := 4.
Definition RT_TIMER_FLAG_HARD_TIMER : Z := 0.
Definition RT_TIMER_FLAG_SOFT_TIMER : Z := 8.
Definition RT_TIMER_FLAG_THREAD_TIMER : Z := 16.

Definition RT_SEM_VALUE_MAX : Z := 65535.
Definition RT_MUTEX_HOLD_MAX : Z := 255.
Definition RT_MB_ENTRY_MAX : Z := 65535.
Definition RT_MQ_ENTRY_MAX : Z := 65535.

Definition RT_IPC_FLAG_FIFO : Z := 0.
Definition RT_IPC_FLAG_PRIO : Z := 1.
Definition RT_IPC_CMD_RESET : Z := 1.
Definition RT_IPC_CMD_SET_VLIMIT : Z := 3.

Definition RT_EVENT_FLAG_AND : Z := 1.
Definition RT_EVENT_FLAG_OR : Z := 2.
Definition RT_EVENT_FLAG_CLEAR : Z := 4.

Definition RT_Object_Class_Thread : Z := 1.
Definition RT_Object_Class_Semaphore : Z := 2.
Definition RT_Object_Class_Mutex : Z := 3.
Definition RT_Object_Class_Event : Z := 4.
Definition RT_Object_Class_MailBox : Z := 5.
Definition RT_Object_Class_MessageQueue : Z := 6.
Definition RT_Object_Class_MemPool : Z := 8.
Definition RT_Object_Class_Timer : Z := 10.
Definition RT_Object_Class_Static : Z := 128.

(** * Control blocks *)

(** A kernel object (a [struct rt_object] pointer), by class. *)
Inductive objref :=
  | OThread (t : tid) | OSem (s : oid) | OMutex (m : oid) | OEvent (e : oid)
  | OMailBox (b : oid) | OMsgQueue (q : oid) | OTimer (i : timid)
  | OMemPool (p : oid).

#[global] Instance objref_eq_dec : EqDecision objref.
Proof. solve_decision. Defined.

(** What a timer calls: [_thread_timeout] on a thread, or a function of the
    application with its parameter. *)
Inductive timeout_func :=
  | TF_thread (t : tid)
  | TF_user (f arg : Z).

(** The list heads a thread node can be linked in. *)
Inductive dev_list :=
  | DPush (q : oid)  (* suspended_push_list of a data queue *)
  | DPop (q : oid).  (* suspended_pop_list *)

#[global] Instance dev_list_eq_dec : EqDecision dev_list.
Proof. solve_decision. Defined.

Inductive lid :=
  | LReady (p : Z)      (* rt_thread_priority_table[p] *)
  | LSusp (o : objref)  (* ipc->suspend_thread *)
  | LSender (o : objref) (* suspend_sender_thread of a mailbox or message queue *)
  | LDefunct            (* _rt_thread_defunct *)
  | LDev (d : dev_list).

#[global] Instance lid_eq_dec : EqDecision lid.
Proof. solve_decision. Defined.

(** [struct rt_thread]: scheduling context (stat, timer flag, ticks, priorities,
    priority mask), error number, the mutex it is pending on and its event wait. *)
Record rt_thread := mk_thread {
  t_stat : Z;
  t_ttmr : bool;
  t_init_tick : Z;
  t_remaining_tick : Z;
  t_cur_prio : Z;
  t_init_prio : Z;
  t_mask : Z;
  t_error : Z;
  t_pending : option oid;
  t_event_set : Z;
  t_event_info : Z
}.

Definition set_t_stat (v : Z) (r : rt_thread) : rt_thread :=
  mk_thread v (r.(t_ttmr)) (r.(t_init_tick)) (r.(t_remaining_tick)) (r.(t_cur_prio)) (r.(t_init_prio)) (r.(t_mask)) (r.(t_error)) (r.(t_pending)) (r.(t_event_set)) (r.(t_event_info)).
Definition set_t_ttmr (v : bool) (r : rt_thread) : rt_thread :=
  mk_thread (r.(t_stat)) v (r.(t_init_tick)) (r.(t_remaining_tick)) (r.(t_cur_prio)) (r.(t_init_prio)) (r.(t_mask)) (r.(t_error)) (r.(t_pending)) (r.(t_event_set)) (r.(t_event_info)).
Definition set_t_init_tick (v : Z) (r : rt_thread) : rt_thread :=
  mk_thread (r.(t_stat)) (r.(t_ttmr)) v (r.(t_remaining_tick)) (r.(t_cur_prio)) (r.(t_init_prio)) (r.(t_mask)) (r.(t_error)) (r.(t_pending)) (r.(t_event_set)) (r.(t_event_info)).
Definition set_t_remaining_tick (v : Z) (r : rt_thread) : rt_thread :=
  mk_thread (r.(t_stat)) (r.(t_ttmr)) (r.(t_init_tick)) v (r.(t_cur_prio)) (r.(t_init_prio)) (r.(t_mask)) (r.(t_error)) (r.(t_pending)) (r.(t_event_set)) (r.(t_event_info)).
Definition set_t_cur_prio (v : Z) (r : rt_thread) : rt_thread :=
  mk_thread (r.(t_stat)) (r.(t_ttmr)) (r.(t_init_tick)) (r.(t_remaining_tick)) v (r.(t_init_prio)) (r.(t_mask)) (r.(t_error)) (r.(t_pending)) (r.(t_event_set)) (r.(t_event_info)).
Definition set_t_init_prio (v : Z) (r : rt_thread) : rt_thread :=
  mk_thread (r.(t_stat)) (r.(t_ttmr)) (r.(t_init_tick)) (r.(t_remaining_tick)) (r.(t_cur_prio)) v (r.(t_mask)) (r.(t_error)) (r.(t_pending)) (r.(t_event_set)) (r.(t_event_info)).
Definition set_t_mask (v : Z) (r : rt_thread) : rt_thread :=
  mk_thread (r.(t_stat)) (r.(t_ttmr)) (r.(t_init_tick)) (r.(t_remaining_tick)) (r.(t_cur_prio)) (r.(t_init_prio)) v (r.(t_error)) (r.(t_pending)) (r.(t_event_set)) (r.(t_event_info)).
Definition set_t_error (v : Z) (r : rt_thread) : rt_thread :=
  mk_thread (r.(t_stat)) (r.(t_ttmr)) (r.(t_init_tick)) (r.(t_remaining_tick)) (r.(t_cur_prio)) (r.(t_init_prio)) (r.(t_mask)) v (r.(t_pending)) (r.(t_event_set)) (r.(t_event_info)).
Definition set_t_pending (v : option oid) (r : rt_thread) : rt_thread :=
  mk_thread (r.(t_stat)) (r.(t_ttmr)) (r.(t_init_tick)) (r.(t_remaining_tick)) (r.(t_cur_prio)) (r.(t_init_prio)) (r.(t_mask)) (r.(t_error)) v (r.(t_event_set)) (r.(t_event_info)).
Definition set_t_event_set (v : Z) (r : rt_thread) : rt_thread :=
  mk_thread (r.(t_stat)) (r.(t_ttmr)) (r.(t_init_tick)) (r.(t_remaining_tick)) (r.(t_cur_prio)) (r.(t_init_prio)) (r.(t_mask)) (r.(t_error)) (r.(t_pending)) v (r.(t_event_info)).
Definition set_t_event_info (v : Z) (r : rt_thread) : rt_thread :=
  mk_thread (r.(t_stat)) (r.(t_ttmr)) (r.(t_init_tick)) (r.(t_remaining_tick)) (r.(t_cur_prio)) (r.(t_init_prio)) (r.(t_mask)) (r.(t_error)) (r.(t_pending)) (r.(t_event_set)) v.

(** [struct rt_timer]; [tm_func] is [timeout_func] with its [parameter]. *)
Record rt_timer := mk_timer {
  tm_flag : Z;
  tm_init_tick : Z;
  tm_timeout_tick : Z;
  tm_func : timeout_func
}.

Definition set_tm_flag (v : Z) (r : rt_timer) : rt_timer :=
  mk_timer v (r.(tm_init_tick)) (r.(tm_timeout_tick)) (r.(tm_func)).
Definition set_tm_init_tick (v : Z) (r : rt_timer) : rt_timer :=
  mk_timer (r.(tm_flag)) v (r.(tm_timeout_tick)) (r.(tm_func)).
Definition set_tm_timeout_tick (v : Z) (r : rt_timer) : rt_timer :=
  mk_timer (r.(tm_flag)) (r.(tm_init_tick)) v (r.(tm_func)).
Definition set_tm_func (v : timeout_func) (r : rt_timer) : rt_timer :=
  mk_timer (r.(tm_flag)) (r.(tm_init_tick)) (r.(tm_timeout_tick)) v.

(** [struct rt_semaphore] *)
Record rt_semaphore := mk_sem {
  sem_flag : Z;
  sem_value : Z;
  sem_max_value : Z
}.

Definition set_sem_flag (v : Z) (r : rt_semaphore) : rt_semaphore :=
  mk_sem v (r.(sem_value)) (r.(sem_max_value)).
Definition set_sem_value (v : Z) (r : rt_semaphore) : rt_semaphore :=
  mk_sem (r.(sem_flag)) v (r.(sem_max_value)).
Definition set_sem_max_value (v : Z) (r : rt_semaphore) : rt_semaphore :=
  mk_sem (r.(sem_flag)) (r.(sem_value)) v.

(** [struct rt_mutex] *)
Record rt_mutex := mk_mutex {
  mtx_flag : Z;
  mtx_ceiling : Z;
  mtx_priority : Z;
  mtx_hold : Z;
  mtx_owner : option tid
}.

Definition set_mtx_flag (v : Z) (r : rt_mutex) : rt_mutex :=
  mk_mutex v (r.(mtx_ceiling)) (r.(mtx_priority)) (r.(mtx_hold)) (r.(mtx_owner)).
Definition set_mtx_ceiling (v : Z) (r : rt_mutex) : rt_mutex :=
  mk_mutex (r.(mtx_flag)) v (r.(mtx_priority)) (r.(mtx_hold)) (r.(mtx_owner)).
Definition set_mtx_priority (v : Z) (r : rt_mutex) : rt_mutex :=
  mk_mutex (r.(mtx_flag)) (r.(mtx_ceiling)) v (r.(mtx_hold)) (r.(mtx_owner)).
Definition set_mtx_hold (v : Z) (r : rt_mutex) : rt_mutex :=
  mk_mutex (r.(mtx_flag)) (r.(mtx_ceiling)) (r.(mtx_priority)) v (r.(mtx_owner)).
Definition set_mtx_owner (v : option tid) (r : rt_mutex) : rt_mutex :=
  mk_mutex (r.(mtx_flag)) (r.(mtx_ceiling)) (r.(mtx_priority)) (r.(mtx_hold)) v.

(** [struct rt_event] *)
Record rt_event := mk_event {
  ev_flag : Z;
  ev_set : Z
}.

Definition set_ev_flag (v : Z) (r : rt_event) : rt_event :=
  mk_event v (r.(ev_set)).
Definition set_ev_set (v : Z) (r : rt_event) : rt_event :=
  mk_event (r.(ev_flag)) v.

(** [struct rt_mailbox]; [mb_pool] is the array [msg_pool]. *)
Record rt_mailbox := mk_mailbox {
  mb_flag : Z;
  mb_pool : list Z;
  mb_size : Z;
  mb_entry : Z;
  mb_in : Z;
  mb_out : Z
}.

Definition set_mb_flag (v : Z) (r : rt_mailbox) : rt_mailbox :=
  mk_mailbox v (r.(mb_pool)) (r.(mb_size)) (r.(mb_entry)) (r.(mb_in)) (r.(mb_out)).
Definition set_mb_pool (v : list Z) (r : rt_mailbox) : rt_mailbox :=
  mk_mailbox (r.(mb_flag)) v (r.(mb_size)) (r.(mb_entry)) (r.(mb_in)) (r.(mb_out)).
Definition set_mb_size (v : Z) (r : rt_mailbox) : rt_mailbox :=
  mk_mailbox (r.(mb_flag)) (r.(mb_pool)) v (r.(mb_entry)) (r.(mb_in)) (r.(mb_out)).
Definition set_mb_entry (v : Z) (r : rt_mailbox) : rt_mailbox :=
  mk_mailbox (r.(mb_flag)) (r.(mb_pool)) (r.(mb_size)) v (r.(mb_in)) (r.(mb_out)).
Definition set_mb_in (v : Z) (r : rt_mailbox) : rt_mailbox :=
  mk_mailbox (r.(mb_flag)) (r.(mb_pool)) (r.(mb_size)) (r.(mb_entry)) v (r.(mb_out)).
Definition set_mb_out (v : Z) (r : rt_mailbox) : rt_mailbox :=
  mk_mailbox (r.(mb_flag)) (r.(mb_pool)) (r.(mb_size)) (r.(mb_entry)) (r.(mb_in)) v.

(** [struct rt_mq_message] and the message bytes behind it; a message is named by
    its slot in the pool. *)
Record rt_mq_message := mk_msg {
  msg_next : option nat;
  msg_length : Z;
  msg_data : list Z
}.

Definition set_msg_next (v : option nat) (r : rt_mq_message) : rt_mq_message :=
  mk_msg v (r.(msg_length)) (r.(msg_data)).
Definition set_msg_length (v : Z) (r : rt_mq_message) : rt_mq_message :=
  mk_msg (r.(msg_next)) v (r.(msg_data)).
Definition set_msg_data (v : list Z) (r : rt_mq_message) : rt_mq_message :=
  mk_msg (r.(msg_next)) (r.(msg_length)) v.

(** [struct rt_messagequeue] *)
Record rt_messagequeue := mk_mq {
  mq_flag : Z;
  mq_pool : nat -> rt_mq_message;
  mq_msg_size : Z;
  mq_max_msgs : Z;
  mq_entry : Z;
  mq_head : option nat;
  mq_tail : option nat;
  mq_free : option nat
}.

Definition set_mq_flag (v : Z) (r : rt_messagequeue) : rt_messagequeue :=
  mk_mq v (r.(mq_pool)) (r.(mq_msg_size)) (r.(mq_max_msgs)) (r.(mq_entry)) (r.(mq_head)) (r.(mq_tail)) (r.(mq_free)).
Definition set_mq_pool (v : nat -> rt_mq_message) (r : rt_messagequeue) : rt_messagequeue :=
  mk_mq (r.(mq_flag)) v (r.(mq_msg_size)) (r.(mq_max_msgs)) (r.(mq_entry)) (r.(mq_head)) (r.(mq_tail)) (r.(mq_free)).
Definition set_mq_msg_size (v : Z) (r : rt_messagequeue) : rt_messagequeue :=
  mk_mq (r.(mq_flag)) (r.(mq_pool)) v (r.(mq_max_msgs)) (r.(mq_entry)) (r.(mq_head)) (r.(mq_tail)) (r.(mq_free)).
Definition set_mq_max_msgs (v : Z) (r : rt_messagequeue) : rt_messagequeue :=
  mk_mq (r.(mq_flag)) (r.(mq_pool)) (r.(mq_msg_size)) v (r.(mq_entry)) (r.(mq_head)) (r.(mq_tail)) (r.(mq_free)).
Definition set_mq_entry (v : Z) (r : rt_messagequeue) : rt_messagequeue :=
  mk_mq (r.(mq_flag)) (r.(mq_pool)) (r.(mq_msg_size)) (r.(mq_max_msgs)) v (r.(mq_head)) (r.(mq_tail)) (r.(mq_free)).
Definition set_mq_head (v : option nat) (r : rt_messagequeue) : rt_messagequeue :=
  mk_mq (r.(mq_flag)) (r.(mq_pool)) (r.(mq_msg_size)) (r.(mq_max_msgs)) (r.(mq_entry)) v (r.(mq_tail)) (r.(mq_free)).
Definition set_mq_tail (v : option nat) (r : rt_messagequeue) : rt_messagequeue :=
  mk_mq (r.(mq_flag)) (r.(mq_pool)) (r.(mq_msg_size)) (r.(mq_max_msgs)) (r.(mq_entry)) (r.(mq_head)) v (r.(mq_free)).
Definition set_mq_free (v : option nat) (r : rt_messagequeue) : rt_messagequeue :=
  mk_mq (r.(mq_flag)) (r.(mq_pool)) (r.(mq_msg_size)) (r.(mq_max_msgs)) (r.(mq_entry)) (r.(mq_head)) (r.(mq_tail)) v.

(** [struct rt_mempool]; [mp_block_list] is an address, 0 for NULL. *)
Record rt_mempool := mk_mp {
  mp_start : Z;
  mp_size : Z;
  mp_block_size : Z;
  mp_block_list : Z;
  mp_total : Z;
  mp_free : Z
}.

Definition set_mp_start (v : Z) (r : rt_mempool) : rt_mempool :=
  mk_mp v (r.(mp_size)) (r.(mp_block_size)) (r.(mp_block_list)) (r.(mp_total)) (r.(mp_free)).
Definition set_mp_size (v : Z) (r : rt_mempool) : rt_mempool :=
  mk_mp (r.(mp_start)) v (r.(mp_block_size)) (r.(mp_block_list)) (r.(mp_total)) (r.(mp_free)).
Definition set_mp_block_size (v : Z) (r : rt_mempool) : rt_mempool :=
  mk_mp (r.(mp_start)) (r.(mp_size)) v (r.(mp_block_list)) (r.(mp_total)) (r.(mp_free)).
Definition set_mp_block_list (v : Z) (r : rt_mempool) : rt_mempool :=
  mk_mp (r.(mp_start)) (r.(mp_size)) (r.(mp_block_size)) v (r.(mp_total)) (r.(mp_free)).
Definition set_mp_total (v : Z) (r : rt_mempool) : rt_mempool :=
  mk_mp (r.(mp_start)) (r.(mp_size)) (r.(mp_block_size)) (r.(mp_block_list)) v (r.(mp_free)).
Definition set_mp_free (v : Z) (r : rt_mempool) : rt_mempool :=
  mk_mp (r.(mp_start)) (r.(mp_size)) (r.(mp_block_size)) (r.(mp_block_list)) (r.(mp_total)) v.

(** [struct rt_data_queue]; an item is a pointer and a size, and [dq_notify] says whether
    [evt_notify] is set. *)
Record rt_data_queue := mk_dq {
  dq_magic : Z;
  dq_size : Z;
  dq_lwm : Z;
  dq_get : Z;
  dq_put : Z;
  dq_empty : bool;
  dq_full : bool;
  dq_items : list (Z * Z);
  dq_notify : bool
}.

Definition set_dq_magic (v : Z) (r : rt_data_queue) : rt_data_queue :=
  mk_dq v (r.(dq_size)) (r.(dq_lwm)) (r.(dq_get)) (r.(dq_put)) (r.(dq_empty)) (r.(dq_full)) (r.(dq_items)) (r.(dq_notify)).
Definition set_dq_size (v : Z) (r : rt_data_queue) : rt_data_queue :=
  mk_dq (r.(dq_magic)) v (r.(dq_lwm)) (r.(dq_get)) (r.(dq_put)) (r.(dq_empty)) (r.(dq_full)) (r.(dq_items)) (r.(dq_notify)).
Definition set_dq_lwm (v : Z) (r : rt_data_queue) : rt_data_queue :=
  mk_dq (r.(dq_magic)) (r.(dq_size)) v (r.(dq_get)) (r.(dq_put)) (r.(dq_empty)) (r.(dq_full)) (r.(dq_items)) (r.(dq_notify)).
Definition set_dq_get (v : Z) (r : rt_data_queue) : rt_data_queue :=
  mk_dq (r.(dq_magic)) (r.(dq_size)) (r.(dq_lwm)) v (r.(dq_put)) (r.(dq_empty)) (r.(dq_full)) (r.(dq_items)) (r.(dq_notify)).
Definition set_dq_put (v : Z) (r : rt_data_queue) : rt_data_queue :=
  mk_dq (r.(dq_magic)) (r.(dq_size)) (r.(dq_lwm)) (r.(dq_get)) v (r.(dq_empty)) (r.(dq_full)) (r.(dq_items)) (r.(dq_notify)).
Definition set_dq_empty (v : bool) (r : rt_data_queue) : rt_data_queue :=
  mk_dq (r.(dq_magic)) (r.(dq_size)) (r.(dq_lwm)) (r.(dq_get)) (r.(dq_put)) v (r.(dq_full)) (r.(dq_items)) (r.(dq_notify)).
Definition set_dq_full (v : bool) (r : rt_data_queue) : rt_data_queue :=
  mk_dq (r.(dq_magic)) (r.(dq_size)) (r.(dq_lwm)) (r.(dq_get)) (r.(dq_put)) (r.(dq_empty)) v (r.(dq_items)) (r.(dq_notify)).
Definition set_dq_items (v : list (Z * Z)) (r : rt_data_queue) : rt_data_queue :=
  mk_dq (r.(dq_magic)) (r.(dq_size)) (r.(dq_lwm)) (r.(dq_get)) (r.(dq_put)) (r.(dq_empty)) (r.(dq_full)) v (r.(dq_notify)).
Definition set_dq_notify (v : bool) (r : rt_data_queue) : rt_data_queue :=
  mk_dq (r.(dq_magic)) (r.(dq_size)) (r.(dq_lwm)) (r.(dq_get)) (r.(dq_put)) (r.(dq_empty)) (r.(dq_full)) (r.(dq_items)) v.

(** [struct rt_completion]: [susp_thread_n_flag] packs a thread pointer and a flag in bit 0. *)
Record rt_completion := mk_comp {
  cp_thread : option tid;
  cp_flag : Z
}.

Definition set_cp_thread (v : option tid) (r : rt_completion) : rt_completion :=
  mk_comp v (r.(cp_flag)).
Definition set_cp_flag (v : Z) (r : rt_completion) : rt_completion :=
  mk_comp (r.(cp_thread)) v.

(** [struct rt_wqueue]: the nodes that wait, in order. *)
Record rt_wqueue := mk_wqueue {
  wq_flag : Z;
  wq_nodes : list oid
}.

Definition set_wq_flag (v : Z) (r : rt_wqueue) : rt_wqueue :=
  mk_wqueue v (r.(wq_nodes)).
Definition set_wq_nodes (v : list oid) (r : rt_wqueue) : rt_wqueue :=
  mk_wqueue (r.(wq_flag)) v.

(** [struct rt_wqueue_node] *)
Record rt_wqueue_node := mk_wnode {
  wn_thread : tid;
  wn_queue : option oid;
  wn_key : Z
}.

Definition set_wn_thread (v : tid) (r : rt_wqueue_node) : rt_wqueue_node :=
  mk_wnode v (r.(wn_queue)) (r.(wn_key)).
Definition set_wn_queue (v : option oid) (r : rt_wqueue_node) : rt_wqueue_node :=
  mk_wnode (r.(wn_thread)) v (r.(wn_key)).
Definition set_wn_key (v : Z) (r : rt_wqueue_node) : rt_wqueue_node :=
  mk_wnode (r.(wn_thread)) (r.(wn_queue)) v.

(** [struct rt_workqueue] *)
Record rt_workqueue := mk_workq {
  wk_list : list oid;
  wk_delayed : list oid;
  wk_current : option oid;
  wk_sem : oid;
  wk_thread : tid
}.

Definition set_wk_list (v : list oid) (r : rt_workqueue) : rt_workqueue :=
  mk_workq v (r.(wk_delayed)) (r.(wk_current)) (r.(wk_sem)) (r.(wk_thread)).
Definition set_wk_delayed (v : list oid) (r : rt_workqueue) : rt_workqueue :=
  mk_workq (r.(wk_list)) v (r.(wk_current)) (r.(wk_sem)) (r.(wk_thread)).
Definition set_wk_current (v : option oid) (r : rt_workqueue) : rt_workqueue :=
  mk_workq (r.(wk_list)) (r.(wk_delayed)) v (r.(wk_sem)) (r.(wk_thread)).
Definition set_wk_sem (v : oid) (r : rt_workqueue) : rt_workqueue :=
  mk_workq (r.(wk_list)) (r.(wk_delayed)) (r.(wk_current)) v (r.(wk_thread)).
Definition set_wk_thread (v : tid) (r : rt_workqueue) : rt_workqueue :=
  mk_workq (r.(wk_list)) (r.(wk_delayed)) (r.(wk_current)) (r.(wk_sem)) v.

(** [struct rt_work]; [w_timer] is the address of the embedded timer. *)
Record rt_work := mk_work {
  w_func : Z;
  w_data : Z;
  w_flags : Z;
  w_timer : timid;
  w_queue : option oid
}.

Definition set_w_func (v : Z) (r : rt_work) : rt_work :=
  mk_work v (r.(w_data)) (r.(w_flags)) (r.(w_timer)) (r.(w_queue)).
Definition set_w_data (v : Z) (r : rt_work) : rt_work :=
  mk_work (r.(w_func)) v (r.(w_flags)) (r.(w_timer)) (r.(w_queue)).
Definition set_w_flags (v : Z) (r : rt_work) : rt_work :=
  mk_work (r.(w_func)) (r.(w_data)) v (r.(w_timer)) (r.(w_queue)).
Definition set_w_timer (v : timid) (r : rt_work) : rt_work :=
  mk_work (r.(w_func)) (r.(w_data)) (r.(w_flags)) v (r.(w_queue)).
Definition set_w_queue (v : option oid) (r : rt_work) : rt_work :=
  mk_work (r.(w_func)) (r.(w_data)) (r.(w_flags)) (r.(w_timer)) v.

(** [struct rt_condvar]; [cv_event] is the wait queue that is part of it. *)
Record rt_condvar := mk_condvar {
  cv_waiters : Z;
  cv_mutex : option oid;
  cv_event : oid
}.

Definition set_cv_waiters (v : Z) (r : rt_condvar) : rt_condvar :=
  mk_condvar v (r.(cv_mutex)) (r.(cv_event)).
Definition set_cv_mutex (v : option oid) (r : rt_condvar) : rt_condvar :=
  mk_condvar (r.(cv_waiters)) v (r.(cv_event)).

(** The objects of components/drivers/ipc. *)
Record devices := mk_devices {
  d_dq : oid -> rt_data_queue;
  d_comp : oid -> rt_completion;
  d_wqueue : oid -> rt_wqueue;
  d_wnode : oid -> rt_wqueue_node;
  d_workq : oid -> rt_workqueue;
  d_work : oid -> rt_work;
  d_cond : oid -> rt_condvar
}.

Definition set_d_dq (v : oid -> rt_data_queue) (r : devices) : devices :=
  mk_devices v (r.(d_comp)) (r.(d_wqueue)) (r.(d_wnode)) (r.(d_workq)) (r.(d_work)) (r.(d_cond)).
Definition set_d_comp (v : oid -> rt_completion) (r : devices) : devices :=
  mk_devices (r.(d_dq)) v (r.(d_wqueue)) (r.(d_wnode)) (r.(d_workq)) (r.(d_work)) (r.(d_cond)).
Definition set_d_wqueue (v : oid -> rt_wqueue) (r : devices) : devices :=
  mk_devices (r.(d_dq)) (r.(d_comp)) v (r.(d_wnode)) (r.(d_workq)) (r.(d_work)) (r.(d_cond)).
Definition set_d_wnode (v : oid -> rt_wqueue_node) (r : devices) : devices :=
  mk_devices (r.(d_dq)) (r.(d_comp)) (r.(d_wqueue)) v (r.(d_workq)) (r.(d_work)) (r.(d_cond)).
Definition set_d_workq (v : oid -> rt_workqueue) (r : devices) : devices :=
  mk_devices (r.(d_dq)) (r.(d_comp)) (r.(d_wqueue)) (r.(d_wnode)) v (r.(d_work)) (r.(d_cond)).
Definition set_d_work (v : oid -> rt_work) (r : devices) : devices :=
  mk_devices (r.(d_dq)) (r.(d_comp)) (r.(d_wqueue)) (r.(d_wnode)) (r.(d_workq)) v (r.(d_cond)).
Definition set_d_cond (v : oid -> rt_condvar) (r : devices) : devices :=
  mk_devices (r.(d_dq)) (r.(d_comp)) (r.(d_wqueue)) (r.(d_wnode)) (r.(d_workq)) (r.(d_work)) v.

(** The kernel's global state.  [k_group] is [rt_thread_ready_priority_group],
    [k_lock_nest] [rt_scheduler_lock_nest], [k_irq_nest] [rt_interrupt_nest],
    [k_cur] [rt_current_thread], [k_hard] and [k_soft] the rows of [_timer_list]
    and [_soft_timer_list], [k_htmp] and [k_stmp] the local list
    of a running [_timer_check] on each, [k_random] the static counter of [_timer_start], [k_mem] the words of
    the memory-pool storage, [k_type] and [k_name] the [type] and [name] of an object,
    [k_objs] the object container of a class and [k_dev] the objects of the device
    drivers. *)
Record kernel := mk_kernel {
  k_thr : tid -> rt_thread;
  k_list : lid -> list tid;
  k_taken : tid -> list oid;
  k_group : Z;
  k_lock_nest : Z;
  k_irq_nest : Z;
  k_cur : option tid;
  k_cur_prio : Z;
  k_tick : Z;
  k_tim : timid -> rt_timer;
  k_hard : list timid;
  k_soft : list timid;
  k_htmp : list timid;
  k_stmp : list timid;
  k_random : Z;
  k_sem : oid -> rt_semaphore;
  k_mutex : oid -> rt_mutex;
  k_event : oid -> rt_event;
  k_mb : oid -> rt_mailbox;
  k_mq : oid -> rt_messagequeue;
  k_mp : oid -> rt_mempool;
  k_mem : Z -> Z;
  k_type : objref -> Z;
  k_name : objref -> list Z;
  k_objs : Z -> list objref;
  k_dev : devices
}.

Definition set_k_thr (v : tid -> rt_thread) (r : kernel) : kernel :=
  mk_kernel v (r.(k_list)) (r.(k_taken)) (r.(k_group)) (r.(k_lock_nest)) (r.(k_irq_nest)) (r.(k_cur)) (r.(k_cur_prio)) (r.(k_tick)) (r.(k_tim)) (r.(k_hard)) (r.(k_soft)) (r.(k_htmp)) (r.(k_stmp)) (r.(k_random)) (r.(k_sem)) (r.(k_mutex)) (r.(k_event)) (r.(k_mb)) (r.(k_mq)) (r.(k_mp)) (r.(k_mem)) (r.(k_type)) (r.(k_name)) (r.(k_objs)) (r.(k_dev)).
Definition set_k_list (v : lid -> list tid) (r : kernel) : kernel :=
  mk_kernel (r.(k_thr)) v (r.(k_taken)) (r.(k_group)) (r.(k_lock_nest)) (r.(k_irq_nest)) (r.(k_cur)) (r.(k_cur_prio)) (r.(k_tick)) (r.(k_tim)) (r.(k_hard)) (r.(k_soft)) (r.(k_htmp)) (r.(k_stmp)) (r.(k_random)) (r.(k_sem)) (r.(k_mutex)) (r.(k_event)) (r.(k_mb)) (r.(k_mq)) (r.(k_mp)) (r.(k_mem)) (r.(k_type)) (r.(k_name)) (r.(k_objs)) (r.(k_dev)).
Definition set_k_taken (v : tid -> list oid) (r : kernel) : kernel :=
  mk_kernel (r.(k_thr)) (r.(k_list)) v (r.(k_group)) (r.(k_lock_nest)) (r.(k_irq_nest)) (r.(k_cur)) (r.(k_cur_prio)) (r.(k_tick)) (r.(k_tim)) (r.(k_hard)) (r.(k_soft)) (r.(k_htmp)) (r.(k_stmp)) (r.(k_random)) (r.(k_sem)) (r.(k_mutex)) (r.(k_event)) (r.(k_mb)) (r.(k_mq)) (r.(k_mp)) (r.(k_mem)) (r.(k_type)) (r.(k_name)) (r.(k_objs)) (r.(k_dev)).
Definition set_k_group (v : Z) (r : kernel) : kernel :=
  mk_kernel (r.(k_thr)) (r.(k_list)) (r.(k_taken)) v (r.(k_lock_nest)) (r.(k_irq_nest)) (r.(k_cur)) (r.(k_cur_prio)) (r.(k_tick)) (r.(k_tim)) (r.(k_hard)) (r.(k_soft)) (r.(k_htmp)) (r.(k_stmp)) (r.(k_random)) (r.(k_sem)) (r.(k_mutex)) (r.(k_event)) (r.(k_mb)) (r.(k_mq)) (r.(k_mp)) (r.(k_mem)) (r.(k_type)) (r.(k_name)) (r.(k_objs)) (r.(k_dev)).
Definition set_k_lock_nest (v : Z) (r : kernel) : kernel :=
  mk_kernel (r.(k_thr)) (r.(k_list)) (r.(k_taken)) (r.(k_group)) v (r.(k_irq_nest)) (r.(k_cur)) (r.(k_cur_prio)) (r.(k_tick)) (r.(k_tim)) (r.(k_hard)) (r.(k_soft)) (r.(k_htmp)) (r.(k_stmp)) (r.(k_random)) (r.(k_sem)) (r.(k_mutex)) (r.(k_event)) (r.(k_mb)) (r.(k_mq)) (r.(k_mp)) (r.(k_mem)) (r.(k_type)) (r.(k_name)) (r.(k_objs)) (r.(k_dev)).
Definition set_k_irq_nest (v : Z) (r : kernel) : kernel :=
  mk_kernel (r.(k_thr)) (r.(k_list)) (r.(k_taken)) (r.(k_group)) (r.(k_lock_nest)) v (r.(k_cur)) (r.(k_cur_prio)) (r.(k_tick)) (r.(k_tim)) (r.(k_hard)) (r.(k_soft)) (r.(k_htmp)) (r.(k_stmp)) (r.(k_random)) (r.(k_sem)) (r.(k_mutex)) (r.(k_event)) (r.(k_mb)) (r.(k_mq)) (r.(k_mp)) (r.(k_mem)) (r.(k_type)) (r.(k_name)) (r.(k_objs)) (r.(k_dev)).
Definition set_k_cur (v : option tid) (r : kernel) : kernel :=
  mk_kernel (r.(k_thr)) (r.(k_list)) (r.(k_taken)) (r.(k_group)) (r.(k_lock_nest)) (r.(k_irq_nest)) v (r.(k_cur_prio)) (r.(k_tick)) (r.(k_tim)) (r.(k_hard)) (r.(k_soft)) (r.(k_htmp)) (r.(k_stmp)) (r.(k_random)) (r.(k_sem)) (r.(k_mutex)) (r.(k_event)) (r.(k_mb)) (r.(k_mq)) (r.(k_mp)) (r.(k_mem)) (r.(k_type)) (r.(k_name)) (r.(k_objs)) (r.(k_dev)).
Definition set_k_cur_prio (v : Z) (r : kernel) : kernel :=
  mk_kernel (r.(k_thr)) (r.(k_list)) (r.(k_taken)) (r.(k_group)) (r.(k_lock_nest)) (r.(k_irq_nest)) (r.(k_cur)) v (r.(k_tick)) (r.(k_tim)) (r.(k_hard)) (r.(k_soft)) (r.(k_htmp)) (r.(k_stmp)) (r.(k_random)) (r.(k_sem)) (r.(k_mutex)) (r.(k_event)) (r.(k_mb)) (r.(k_mq)) (r.(k_mp)) (r.(k_mem)) (r.(k_type)) (r.(k_name)) (r.(k_objs)) (r.(k_dev)).
Definition set_k_tick (v : Z) (r : kernel) : kernel :=
  mk_kernel (r.(k_thr)) (r.(k_list)) (r.(k_taken)) (r.(k_group)) (r.(k_lock_nest)) (r.(k_irq_nest)) (r.(k_cur)) (r.(k_cur_prio)) v (r.(k_tim)) (r.(k_hard)) (r.(k_soft)) (r.(k_htmp)) (r.(k_stmp)) (r.(k_random)) (r.(k_sem)) (r.(k_mutex)) (r.(k_event)) (r.(k_mb)) (r.(k_mq)) (r.(k_mp)) (r.(k_mem)) (r.(k_type)) (r.(k_name)) (r.(k_objs)) (r.(k_dev)).
Definition set_k_tim (v : timid -> rt_timer) (r : kernel) : kernel :=
  mk_kernel (r.(k_thr)) (r.(k_list)) (r.(k_taken)) (r.(k_group)) (r.(k_lock_nest)) (r.(k_irq_nest)) (r.(k_cur)) (r.(k_cur_prio)) (r.(k_tick)) v (r.(k_hard)) (r.(k_soft)) (r.(k_htmp)) (r.(k_stmp)) (r.(k_random)) (r.(k_sem)) (r.(k_mutex)) (r.(k_event)) (r.(k_mb)) (r.(k_mq)) (r.(k_mp)) (r.(k_mem)) (r.(k_type)) (r.(k_name)) (r.(k_objs)) (r.(k_dev)).
Definition set_k_hard (v : list timid) (r : kernel) : kernel :=
  mk_kernel (r.(k_thr)) (r.(k_list)) (r.(k_taken)) (r.(k_group)) (r.(k_lock_nest)) (r.(k_irq_nest)) (r.(k_cur)) (r.(k_cur_prio)) (r.(k_tick)) (r.(k_tim)) v (r.(k_soft)) (r.(k_htmp)) (r.(k_stmp)) (r.(k_random)) (r.(k_sem)) (r.(k_mutex)) (r.(k_event)) (r.(k_mb)) (r.(k_mq)) (r.(k_mp)) (r.(k_mem)) (r.(k_type)) (r.(k_name)) (r.(k_objs)) (r.(k_dev)).
Definition set_k_soft (v : list timid) (r : kernel) : kernel :=
  mk_kernel (r.(k_thr)) (r.(k_list)) (r.(k_taken)) (r.(k_group)) (r.(k_lock_nest)) (r.(k_irq_nest)) (r.(k_cur)) (r.(k_cur_prio)) (r.(k_tick)) (r.(k_tim)) (r.(k_hard)) v (r.(k_htmp)) (r.(k_stmp)) (r.(k_random)) (r.(k_sem)) (r.(k_mutex)) (r.(k_event)) (r.(k_mb)) (r.(k_mq)) (r.(k_mp)) (r.(k_mem)) (r.(k_type)) (r.(k_name)) (r.(k_objs)) (r.(k_dev)).
Definition set_k_htmp (v : list timid) (r : kernel) : kernel :=
  mk_kernel (r.(k_thr)) (r.(k_list)) (r.(k_taken)) (r.(k_group)) (r.(k_lock_nest)) (r.(k_irq_nest)) (r.(k_cur)) (r.(k_cur_prio)) (r.(k_tick)) (r.(k_tim)) (r.(k_hard)) (r.(k_soft)) v (r.(k_stmp)) (r.(k_random)) (r.(k_sem)) (r.(k_mutex)) (r.(k_event)) (r.(k_mb)) (r.(k_mq)) (r.(k_mp)) (r.(k_mem)) (r.(k_type)) (r.(k_name)) (r.(k_objs)) (r.(k_dev)).
Definition set_k_stmp (v : list timid) (r : kernel) : kernel :=
  mk_kernel (r.(k_thr)) (r.(k_list)) (r.(k_taken)) (r.(k_group)) (r.(k_lock_nest)) (r.(k_irq_nest)) (r.(k_cur)) (r.(k_cur_prio)) (r.(k_tick)) (r.(k_tim)) (r.(k_hard)) (r.(k_soft)) (r.(k_htmp)) v (r.(k_random)) (r.(k_sem)) (r.(k_mutex)) (r.(k_event)) (r.(k_mb)) (r.(k_mq)) (r.(k_mp)) (r.(k_mem)) (r.(k_type)) (r.(k_name)) (r.(k_objs)) (r.(k_dev)).
Definition set_k_random (v : Z) (r : kernel) : kernel :=
  mk_kernel (r.(k_thr)) (r.(k_list)) (r.(k_taken)) (r.(k_group)) (r.(k_lock_nest)) (r.(k_irq_nest)) (r.(k_cur)) (r.(k_cur_prio)) (r.(k_tick)) (r.(k_tim)) (r.(k_hard)) (r.(k_soft)) (r.(k_htmp)) (r.(k_stmp)) v (r.(k_sem)) (r.(k_mutex)) (r.(k_event)) (r.(k_mb)) (r.(k_mq)) (r.(k_mp)) (r.(k_mem)) (r.(k_type)) (r.(k_name)) (r.(k_objs)) (r.(k_dev)).
Definition set_k_sem (v : oid -> rt_semaphore) (r : kernel) : kernel :=
  mk_kernel (r.(k_thr)) (r.(k_list)) (r.(k_taken)) (r.(k_group)) (r.(k_lock_nest)) (r.(k_irq_nest)) (r.(k_cur)) (r.(k_cur_prio)) (r.(k_tick)) (r.(k_tim)) (r.(k_hard)) (r.(k_soft)) (r.(k_htmp)) (r.(k_stmp)) (r.(k_random)) v (r.(k_mutex)) (r.(k_event)) (r.(k_mb)) (r.(k_mq)) (r.(k_mp)) (r.(k_mem)) (r.(k_type)) (r.(k_name)) (r.(k_objs)) (r.(k_dev)).
Definition set_k_mutex (v : oid -> rt_mutex) (r : kernel) : kernel :=
  mk_kernel (r.(k_thr)) (r.(k_list)) (r.(k_taken)) (r.(k_group)) (r.(k_lock_nest)) (r.(k_irq_nest)) (r.(k_cur)) (r.(k_cur_prio)) (r.(k_tick)) (r.(k_tim)) (r.(k_hard)) (r.(k_soft)) (r.(k_htmp)) (r.(k_stmp)) (r.(k_random)) (r.(k_sem)) v (r.(k_event)) (r.(k_mb)) (r.(k_mq)) (r.(k_mp)) (r.(k_mem)) (r.(k_type)) (r.(k_name)) (r.(k_objs)) (r.(k_dev)).
Definition set_k_event (v : oid -> rt_event) (r : kernel) : kernel :=
  mk_kernel (r.(k_thr)) (r.(k_list)) (r.(k_taken)) (r.(k_group)) (r.(k_lock_nest)) (r.(k_irq_nest)) (r.(k_cur)) (r.(k_cur_prio)) (r.(k_tick)) (r.(k_tim)) (r.(k_hard)) (r.(k_soft)) (r.(k_htmp)) (r.(k_stmp)) (r.(k_random)) (r.(k_sem)) (r.(k_mutex)) v (r.(k_mb)) (r.(k_mq)) (r.(k_mp)) (r.(k_mem)) (r.(k_type)) (r.(k_name)) (r.(k_objs)) (r.(k_dev)).
Definition set_k_mb (v : oid -> rt_mailbox) (r : kernel) : kernel :=
  mk_kernel (r.(k_thr)) (r.(k_list)) (r.(k_taken)) (r.(k_group)) (r.(k_lock_nest)) (r.(k_irq_nest)) (r.(k_cur)) (r.(k_cur_prio)) (r.(k_tick)) (r.(k_tim)) (r.(k_hard)) (r.(k_soft)) (r.(k_htmp)) (r.(k_stmp)) (r.(k_random)) (r.(k_sem)) (r.(k_mutex)) (r.(k_event)) v (r.(k_mq)) (r.(k_mp)) (r.(k_mem)) (r.(k_type)) (r.(k_name)) (r.(k_objs)) (r.(k_dev)).
Definition set_k_mq (v : oid -> rt_messagequeue) (r : kernel) : kernel :=
  mk_kernel (r.(k_thr)) (r.(k_list)) (r.(k_taken)) (r.(k_group)) (r.(k_lock_nest)) (r.(k_irq_nest)) (r.(k_cur)) (r.(k_cur_prio)) (r.(k_tick)) (r.(k_tim)) (r.(k_hard)) (r.(k_soft)) (r.(k_htmp)) (r.(k_stmp)) (r.(k_random)) (r.(k_sem)) (r.(k_mutex)) (r.(k_event)) (r.(k_mb)) v (r.(k_mp)) (r.(k_mem)) (r.(k_type)) (r.(k_name)) (r.(k_objs)) (r.(k_dev)).
Definition set_k_mp (v : oid -> rt_mempool) (r : kernel) : kernel :=
  mk_kernel (r.(k_thr)) (r.(k_list)) (r.(k_taken)) (r.(k_group)) (r.(k_lock_nest)) (r.(k_irq_nest)) (r.(k_cur)) (r.(k_cur_prio)) (r.(k_tick)) (r.(k_tim)) (r.(k_hard)) (r.(k_soft)) (r.(k_htmp)) (r.(k_stmp)) (r.(k_random)) (r.(k_sem)) (r.(k_mutex)) (r.(k_event)) (r.(k_mb)) (r.(k_mq)) v (r.(k_mem)) (r.(k_type)) (r.(k_name)) (r.(k_objs)) (r.(k_dev)).
Definition set_k_mem (v : Z -> Z) (r : kernel) : kernel :=
  mk_kernel (r.(k_thr)) (r.(k_list)) (r.(k_taken)) (r.(k_group)) (r.(k_lock_nest)) (r.(k_irq_nest)) (r.(k_cur)) (r.(k_cur_prio)) (r.(k_tick)) (r.(k_tim)) (r.(k_hard)) (r.(k_soft)) (r.(k_htmp)) (r.(k_stmp)) (r.(k_random)) (r.(k_sem)) (r.(k_mutex)) (r.(k_event)) (r.(k_mb)) (r.(k_mq)) (r.(k_mp)) v (r.(k_type)) (r.(k_name)) (r.(k_objs)) (r.(k_dev)).
Definition set_k_type (v : objref -> Z) (r : kernel) : kernel :=
  mk_kernel (r.(k_thr)) (r.(k_list)) (r.(k_taken)) (r.(k_group)) (r.(k_lock_nest)) (r.(k_irq_nest)) (r.(k_cur)) (r.(k_cur_prio)) (r.(k_tick)) (r.(k_tim)) (r.(k_hard)) (r.(k_soft)) (r.(k_htmp)) (r.(k_stmp)) (r.(k_random)) (r.(k_sem)) (r.(k_mutex)) (r.(k_event)) (r.(k_mb)) (r.(k_mq)) (r.(k_mp)) (r.(k_mem)) v (r.(k_name)) (r.(k_objs)) (r.(k_dev)).
Definition set_k_name (v : objref -> list Z) (r : kernel) : kernel :=
  mk_kernel (r.(k_thr)) (r.(k_list)) (r.(k_taken)) (r.(k_group)) (r.(k_lock_nest)) (r.(k_irq_nest)) (r.(k_cur)) (r.(k_cur_prio)) (r.(k_tick)) (r.(k_tim)) (r.(k_hard)) (r.(k_soft)) (r.(k_htmp)) (r.(k_stmp)) (r.(k_random)) (r.(k_sem)) (r.(k_mutex)) (r.(k_event)) (r.(k_mb)) (r.(k_mq)) (r.(k_mp)) (r.(k_mem)) (r.(k_type)) v (r.(k_objs)) (r.(k_dev)).
Definition set_k_objs (v : Z -> list objref) (r : kernel) : kernel :=
  mk_kernel (r.(k_thr)) (r.(k_list)) (r.(k_taken)) (r.(k_group)) (r.(k_lock_nest)) (r.(k_irq_nest)) (r.(k_cur)) (r.(k_cur_prio)) (r.(k_tick)) (r.(k_tim)) (r.(k_hard)) (r.(k_soft)) (r.(k_htmp)) (r.(k_stmp)) (r.(k_random)) (r.(k_sem)) (r.(k_mutex)) (r.(k_event)) (r.(k_mb)) (r.(k_mq)) (r.(k_mp)) (r.(k_mem)) (r.(k_type)) (r.(k_name)) v (r.(k_dev)).
Definition set_k_dev (v : devices) (r : kernel) : kernel :=
  mk_kernel (r.(k_thr)) (r.(k_list)) (r.(k_taken)) (r.(k_group)) (r.(k_lock_nest)) (r.(k_irq_nest)) (r.(k_cur)) (r.(k_cur_prio)) (r.(k_tick)) (r.(k_tim)) (r.(k_hard)) (r.(k_soft)) (r.(k_htmp)) (r.(k_stmp)) (r.(k_random)) (r.(k_sem)) (r.(k_mutex)) (r.(k_event)) (r.(k_mb)) (r.(k_mq)) (r.(k_mp)) (r.(k_mem)) (r.(k_type)) (r.(k_name)) (r.(k_objs)) v.

(** * Access *)

Abbreviation K := (M kernel).

Definition upd_thr (t : tid) (f : rt_thread -> rt_thread) : K unit :=
  modify (fun k => set_k_thr (fupd t (f (k_thr k t)) (k_thr k)) k).
Definition upd_tim (i : timid) (f : rt_timer -> rt_timer) : K unit :=
  modify (fun k => set_k_tim (fupd i (f (k_tim k i)) (k_tim k)) k).
Definition upd_sem (o : oid) (f : rt_semaphore -> rt_semaphore) : K unit :=
  modify (fun k => set_k_sem (fupd o (f (k_sem k o)) (k_sem k)) k).
Definition upd_mutex (o : oid) (f : rt_mutex -> rt_mutex) : K unit :=
  modify (fun k => set_k_mutex (fupd o (f (k_mutex k o)) (k_mutex k)) k).
Definition upd_event (o : oid) (f : rt_event -> rt_event) : K unit :=
  modify (fun k => set_k_event (fupd o (f (k_event k o)) (k_event k)) k).
Definition upd_mb (o : oid) (f : rt_mailbox -> rt_mailbox) : K unit :=
  modify (fun k => set_k_mb (fupd o (f (k_mb k o)) (k_mb k)) k).
Definition upd_mq (o : oid) (f : rt_messagequeue -> rt_messagequeue) : K unit :=
  modify (fun k => set_k_mq (fupd o (f (k_mq k o)) (k_mq k)) k).

Definition upd_mp (o : oid) (f : rt_mempool -> rt_mempool) : K unit :=
  modify (fun k => set_k_mp (fupd o (f (k_mp k o)) (k_mp k)) k).
Definition upd_dq (o : oid) (f : rt_data_queue -> rt_data_queue) : K unit :=
  modify (fun k => set_k_dev (set_d_dq (fupd o (f (d_dq (k_dev k) o)) (d_dq (k_dev k))) (k_dev k)) k).
Definition upd_comp (o : oid) (f : rt_completion -> rt_completion) : K unit :=
  modify (fun k => set_k_dev (set_d_comp (fupd o (f (d_comp (k_dev k) o)) (d_comp (k_dev k))) (k_dev k)) k).
Definition upd_wqueue (o : oid) (f : rt_wqueue -> rt_wqueue) : K unit :=
  modify (fun k => set_k_dev (set_d_wqueue (fupd o (f (d_wqueue (k_dev k) o)) (d_wqueue (k_dev k))) (k_dev k)) k).
Definition upd_wnode (o : oid) (f : rt_wqueue_node -> rt_wqueue_node) : K unit :=
  modify (fun k => set_k_dev (set_d_wnode (fupd o (f (d_wnode (k_dev k) o)) (d_wnode (k_dev k))) (k_dev k)) k).
Definition upd_workq (o : oid) (f : rt_workqueue -> rt_workqueue) : K unit :=
  modify (fun k => set_k_dev (set_d_workq (fupd o (f (d_workq (k_dev k) o)) (d_workq (k_dev k))) (k_dev k)) k).
Definition upd_work (o : oid) (f : rt_work -> rt_work) : K unit :=
  modify (fun k => set_k_dev (set_d_work (fupd o (f (d_work (k_dev k) o)) (d_work (k_dev k))) (k_dev k)) k).
Definition upd_cond (o : oid) (f : rt_condvar -> rt_condvar) : K unit :=
  modify (fun k => set_k_dev (set_d_cond (fupd o (f (d_cond (k_dev k) o)) (d_cond (k_dev k))) (k_dev k)) k).

Definition thr (t : tid) : K rt_thread := gets (fun k => k_thr k t).
Definition tim (i : timid) : K rt_timer := gets (fun k => k_tim k i).
Definition lst (l : lid) : K (list tid) := gets (fun k => k_list k l).

(** [thread->thread_timer] is embedded in the thread: its address and the
    thread's determine each other ([rt_container_of]).  Timers of their own have
    the odd names. *)
Definition thread_timer (t : tid) : timid := xO t.
Definition timer_container (i : timid) : option tid :=
  match i with xO t => Some t | _ => None end.

(** [rt_list_remove(&RT_THREAD_LIST_NODE(thread))] *)
Definition list_unlink (t : tid) (f : lid -> list tid) : lid -> list tid :=
  fun l => filter (fun x => x <> t) (f l).

Definition rt_list_remove_thread (t : tid) : K unit :=
  modify (fun k => set_k_list (list_unlink t (k_list k)) k).

(** [rt_list_insert_after(head, node)]: the node becomes the first element. *)
Definition rt_list_push_front (l : lid) (t : tid) : K unit :=
  modify (fun k => set_k_list (fupd l (t :: k_list k l) (k_list k)) k).

(** [rt_list_insert_before(head, node)]: the node becomes the last element. *)
Definition rt_list_push_back (l : lid) (t : tid) : K unit :=
  modify (fun k => set_k_list (fupd l (k_list k l ++ [t]) (k_list k)) k).

(** [rt_list_isempty] *)
Definition is_nil {A} (l : list A) : bool := match l with [] => true | _ => false end.

(** [rt_object_get_type] and [rt_object_is_systemobject] (src/object.c) *)
Definition rt_object_get_type (o : objref) : K Z :=
  gets (fun k => Z.land (k_type k o) (Z.lnot RT_Object_Class_Static)).
Definition rt_object_is_systemobject (o : objref) : K bool :=
  gets (fun k => negb (Z.land (k_type k o) RT_Object_Class_Static =? 0)).

(** [RT_ASSERT(rt_object_get_type(object) == class)] *)
Definition assert_type (o : objref) (cls : Z) : K unit :=
  ty ← rt_object_get_type o; RT_ASSERT (ty =? cls).

(** * The state at reset: zeroed storage, empty lists, no current thread *)

Definition thread0 : rt_thread := mk_thread 0 false 0 0 0 0 0 0 None 0 0.
Definition timer0 : rt_timer := mk_timer 0 0 0 (TF_thread 1).
Definition msg0 : rt_mq_message := mk_msg None 0 [].

Definition kernel0 : kernel := {|
  k_thr := fun _ => thread0; k_list := fun _ => []; k_taken := fun _ => [];
  k_group := 0; k_lock_nest := 0; k_irq_nest := 0; k_cur := None; k_cur_prio := 0;
  k_tick := 0; k_tim := fun _ => timer0; k_hard := []; k_soft := []; k_htmp := []; k_stmp := [];
  k_random := 0; k_sem := fun _ => mk_sem 0 0 0;
  k_mutex := fun _ => mk_mutex 0 0 0 0 None; k_event := fun _ => mk_event 0 0;
  k_mb := fun _ => mk_mailbox 0 [] 0 0 0 0;
  k_mq := fun _ => mk_mq 0 (fun _ => msg0) 0 0 0 None None None;
  k_mp := fun _ => mk_mp 0 0 0 0 0 0; k_mem := fun _ => 0;
  k_type := fun _ => 0; k_name := fun _ => []; k_objs := fun _ => [];
  k_dev := {| d_dq := fun _ => mk_dq 0 0 0 0 0 false false [] false;
    d_comp := fun _ => mk_comp None 0; d_wqueue := fun _ => mk_wqueue 0 [];
    d_wnode := fun _ => mk_wnode 1 None 0; d_workq := fun _ => mk_workq [] [] None 1 1;
    d_work := fun _ => mk_work 0 0 0 1 None; d_cond := fun _ => mk_condvar 0 None 1 |} |}.
