(* ===== verification/SchedUp.v ===== *)
(** The uniprocessor scheduler, src/scheduler_up.c, with [__rt_ffs] of
    src/kservice.c and the lock nesting of src/cpu_up.c.  The nesting, an rt_int16_t in the
    code, is an unbounded number here.

    Interrupt masking ([rt_hw_interrupt_disable]/[enable]) has no counterpart:
    every modelled operation runs with no other one interleaved.  Hooks are the
    NULL default; [RT_SCHEDULER_STACK_CHECK] (stack contents) and the register
    context switch are outside the model: after [rt_schedule] the running
    thread is [k_cur]. *)
From S2P Require Import Prelude KState.
#[local] Open Scope Z_scope.

(** * [__rt_ffs]: the table version

    The configuration selects the version of the CPU port (RT_USING_CPU_FFS), which gives
    the same results; this one is the reference in the kernel's own sources. *)

Definition __lowest_bit_bitmap : list Z := [
  0; 0; 1; 0; 2; 0; 1; 0; 3; 0; 1; 0; 2; 0; 1; 0;
  4; 0; 1; 0; 2; 0; 1; 0; 3; 0; 1; 0; 2; 0; 1; 0;
  5; 0; 1; 0; 2; 0; 1; 0; 3; 0; 1; 0; 2; 0; 1; 0;
  4; 0; 1; 0; 2; 0; 1; 0; 3; 0; 1; 0; 2; 0; 1; 0;
  6; 0; 1; 0; 2; 0; 1; 0; 3; 0; 1; 0; 2; 0; 1; 0;
  4; 0; 1; 0; 2; 0; 1; 0; 3; 0; 1; 0; 2; 0; 1; 0;
  5; 0; 1; 0; 2; 0; 1; 0; 3; 0; 1; 0; 2; 0; 1; 0;
  4; 0; 1; 0; 2; 0; 1; 0; 3; 0; 1; 0; 2; 0; 1; 0;
  7; 0; 1; 0; 2; 0; 1; 0; 3; 0; 1; 0; 2; 0; 1; 0;
  4; 0; 1; 0; 2; 0; 1; 0; 3; 0; 1; 0; 2; 0; 1; 0;
  5; 0; 1; 0; 2; 0; 1; 0; 3; 0; 1; 0; 2; 0; 1; 0;
  4; 0; 1; 0; 2; 0; 1; 0; 3; 0; 1; 0; 2; 0; 1; 0;
  6; 0; 1; 0; 2; 0; 1; 0; 3; 0; 1; 0; 2; 0; 1; 0;
  4; 0; 1; 0; 2; 0; 1; 0; 3; 0; 1; 0; 2; 0; 1; 0;
  5; 0; 1; 0; 2; 0; 1; 0; 3; 0; 1; 0; 2; 0; 1; 0;
  4; 0; 1; 0; 2; 0; 1; 0; 3; 0; 1; 0; 2; 0; 1; 0 ].

Definition lowest_bit (b : Z) : Z := nth (Z.to_nat b) __lowest_bit_bitmap 0.

(** [value] is the 32-bit pattern of the argument. *)
Definition __rt_ffs (value : Z) : Z :=
  if value =? 0 then 0
  else if negb (Z.land value 0xff =? 0) then lowest_bit (Z.land value 0xff) + 1
  else if negb (Z.land value 0xff00 =? 0) then
    lowest_bit (Z.shiftr (Z.land value 0xff00) 8) + 9
  else if negb (Z.land value 0xff0000 =? 0) then
    lowest_bit (Z.shiftr (Z.land value 0xff0000) 16) + 17
  else lowest_bit (Z.shiftr (Z.land value 0xff000000) 24) + 25.

(** * Ready queue *)

Definition _scheduler_get_highest_priority_thread : K (tid * Z) :=
  group ← gets k_group;
  let highest_ready_priority := __rt_ffs group - 1 in
  l ← lst (LReady highest_ready_priority);
  highest_priority_thread ← deref (head l);
  mret (highest_priority_thread, highest_ready_priority).

(** [stat | (old & ~RT_THREAD_STAT_MASK)] *)
Definition with_stat (stat : Z) (th : rt_thread) : rt_thread :=
  set_t_stat (Z.lor stat (Z.land (t_stat th) (Z.lnot RT_THREAD_STAT_MASK))) th.

Definition rt_sched_insert_thread (thread : tid) : K unit :=
  cur ← gets k_cur;
  if decide (cur = Some thread) then
    (* it's current thread, it should be RUNNING thread *)
    upd_thr thread (with_stat RT_THREAD_RUNNING)
  else
    upd_thr thread (with_stat RT_THREAD_READY);;
    th ← thr thread;
    (if negb (Z.land (t_stat th) RT_THREAD_STAT_YIELD_MASK =? 0)
     then rt_list_push_back (LReady (t_cur_prio th)) thread
     else rt_list_push_front (LReady (t_cur_prio th)) thread);;
    modify (fun k => set_k_group (Z.lor (k_group k) (t_mask th)) k).

Definition rt_sched_remove_thread (thread : tid) : K unit :=
  rt_list_remove_thread thread;;
  th ← thr thread;
  l ← lst (LReady (t_cur_prio th));
  if is_nil l
  then modify (fun k => set_k_group (Z.land (k_group k) (Z.lnot (t_mask th))) k)
  else mret tt.

(** * Scheduling *)

(** The thread to run and whether the current one goes back to the ready
    queue, from the current thread and the highest ready one. *)
Definition schedule_select (ct : rt_thread) (cur hi : tid) (highest : Z) : tid * bool :=
  if Z.land (t_stat ct) RT_THREAD_STAT_MASK =? RT_THREAD_RUNNING then
    if t_cur_prio ct <? highest then (cur, false)
    else if (t_cur_prio ct =? highest) &&
            (Z.land (t_stat ct) RT_THREAD_STAT_YIELD_MASK =? 0) then (cur, false)
    else (hi, true)
  else (hi, false).

(** The switch to [to_thread] of [rt_schedule]. *)
Definition schedule_switch (from_thread to_thread : tid) (highest : Z)
    (need_insert_from_thread : bool) : K unit :=
  modify (set_k_cur_prio (u8 highest));;
  modify (set_k_cur (Some to_thread));;
  (if need_insert_from_thread then rt_sched_insert_thread from_thread else mret tt);;
  fr ← thr from_thread;
  (if negb (Z.land (t_stat fr) RT_THREAD_STAT_YIELD_MASK =? 0)
   then upd_thr from_thread
          (fun th => set_t_stat (Z.land (t_stat th) (Z.lnot RT_THREAD_STAT_YIELD_MASK)) th)
   else mret tt);;
  rt_sched_remove_thread to_thread;;
  upd_thr to_thread (with_stat RT_THREAD_RUNNING).

Definition rt_schedule : K unit :=
  nest ← gets k_lock_nest;
  if nest =? 0 then
    group ← gets k_group;
    if negb (group =? 0) then
      '(hi, highest) ← _scheduler_get_highest_priority_thread;
      curp ← gets k_cur;
      cur ← deref curp;
      ct ← thr cur;
      let '(to_thread, need_insert) := schedule_select ct cur hi highest in
      if decide (to_thread <> cur) then
        schedule_switch cur to_thread highest need_insert
      else
        rt_sched_remove_thread cur;;
        upd_thr cur (with_stat RT_THREAD_RUNNING)
    else mret tt
  else mret tt.

Definition rt_sched_unlock_n_resched : K unit :=
  self ← gets k_cur;
  match self with Some _ => rt_schedule | None => mret tt end.

Definition rt_system_scheduler_init : K unit :=
  modify (set_k_lock_nest 0);;
  modify (fun k => set_k_list
            (fun l => match l with LReady _ => [] | _ => k_list k l end) k);;
  modify (set_k_group 0).

Definition rt_system_scheduler_start : K unit :=
  '(to_thread, _) ← _scheduler_get_highest_priority_thread;
  modify (set_k_cur (Some to_thread));;
  rt_sched_remove_thread to_thread;;
  upd_thr to_thread (set_t_stat RT_THREAD_RUNNING).

(** * Scheduler lock *)

Definition rt_enter_critical : K Z :=
  modify (fun k => set_k_lock_nest (k_lock_nest k + 1) k);;
  gets k_lock_nest.

Definition rt_exit_critical : K unit :=
  modify (fun k => set_k_lock_nest (k_lock_nest k - 1) k);;
  nest ← gets k_lock_nest;
  if nest <=? 0 then
    modify (set_k_lock_nest 0);;
    cur ← gets k_cur;
    match cur with Some _ => rt_schedule | None => mret tt end
  else mret tt.

Definition rt_exit_critical_safe (critical_level : Z) : K unit := rt_exit_critical.
Definition rt_critical_level : K Z := gets k_lock_nest.

(** src/cpu_up.c: on one core a spinlock is the scheduler lock (with
    interrupts masked for the [_irqsave] variants). *)
Definition rt_spin_lock : K unit := rt_enter_critical;; mret tt.
Definition rt_spin_unlock : K unit := rt_exit_critical_safe 0.
Definition rt_spin_lock_irqsave : K unit := rt_enter_critical;; mret tt.
Definition rt_spin_unlock_irqrestore : K unit := rt_exit_critical_safe 0.

(** * Thread scheduling context *)

Definition rt_sched_thread_startup (thread : tid) : K unit :=
  upd_thr thread (fun th =>
    set_t_stat RT_THREAD_SUSPEND (set_t_mask (u32 (Z.shiftl 1 (t_cur_prio th))) th)).

Definition rt_sched_thread_init_priv (thread : tid) (tick priority : Z) : K unit :=
  rt_list_remove_thread thread;; (* rt_list_init of the node *)
  RT_ASSERT (priority <? RT_THREAD_PRIORITY_MAX);;
  upd_thr thread (fun th =>
    set_t_remaining_tick tick (set_t_init_tick tick
      (set_t_mask 0 (set_t_cur_prio priority (set_t_init_prio priority th))))).

Definition rt_thread_self : K (option tid) := gets k_cur.

(** * [__rt_ffs] finds the lowest set bit *)

(** [i] is the lowest set bit of [v]. *)
Definition is_lowest_bit (v i : Z) : Prop :=
  0 <= i /\ Z.testbit v i = true /\ forall j, 0 <= j < i -> Z.testbit v j = false.

Definition lowest_bit_check (b : Z) : bool :=
  (b =? 0) || (Z.testbit b (lowest_bit b) && (0 <=? lowest_bit b) && (lowest_bit b <? 8) &&
    forallb (fun j => (lowest_bit b <=? j) || negb (Z.testbit b j)) (seqZ 0 8)).

Lemma lowest_bit_all : forallb lowest_bit_check (seqZ 0 256) = true.
Proof. vm_compute. reflexivity. Qed.

Lemma lowest_bit_spec b : 0 < b < 256 -> lowest_bit b < 8 /\ is_lowest_bit b (lowest_bit b).
Proof.
  intros Hb. pose proof lowest_bit_all as H. rewrite forallb_forall in H.
  specialize (H b). ospecialize* H; [apply list_elem_of_In, elem_of_seqZ; lia|].
  unfold lowest_bit_check in H. apply orb_true_iff in H as [H|H]; zbool; [lia|].
  split; [lia|]. split; [lia|]. split; [done|]. intros j Hj.
  match goal with H : forallb _ _ = true |- _ => rewrite forallb_forall in H; specialize (H j) end.
  ospecialize* H0; [apply list_elem_of_In, elem_of_seqZ; lia|].
  apply orb_true_iff in H0 as [?|?]; zbool; [lia|done].
Qed.

(** The byte of [v] at bit [s]; a lowest bit found in it is the lowest bit of
    [v] when the bytes below are zero. *)
Lemma byte_bits v s : 0 <= s -> Z.shiftr (Z.land v (Z.shiftl 255 s)) s = Z.land (Z.shiftr v s) 255.
Proof.
  intros. apply Z.bits_inj'. intros n Hn.
  rewrite Z.shiftr_spec, !Z.land_spec, Z.shiftl_spec, Z.shiftr_spec by lia.
  by replace (n + s - s) with n by lia.
Qed.

Lemma land_255_bit v j : 0 <= j -> Z.testbit (Z.land v 255) j = Z.testbit v j && (j <? 8).
Proof.
  intros. change 255 with (Z.ones 8). rewrite Z.land_spec.
  destruct (Z.ltb_spec j 8); [by rewrite Z.ones_spec_low by lia|by rewrite Z.ones_spec_high by lia].
Qed.

Lemma land_255_range v : 0 <= Z.land v 255 < 256.
Proof. change 255 with (Z.ones 8). rewrite Z.land_ones by lia. apply Z.mod_pos_bound. lia. Qed.

Lemma lowest_bit_byte v s :
  0 <= s -> Z.land (Z.shiftr v s) 255 <> 0 ->
  (forall j, 0 <= j < s -> Z.testbit v j = false) ->
  is_lowest_bit v (lowest_bit (Z.land (Z.shiftr v s) 255) + s).
Proof.
  intros Hs Hnz Hlow. set (b := Z.land (Z.shiftr v s) 255) in *.
  destruct (lowest_bit_spec b) as (H8 & H0 & Hbit & Hmin).
  { pose proof (land_255_range (Z.shiftr v s)). unfold b in *. lia. }
  split; [lia|]. split.
  - unfold b in Hbit at 1. rewrite land_255_bit, Z.shiftr_spec in Hbit by lia.
    by apply andb_true_iff in Hbit as [? _].
  - intros j Hj. destruct (decide (j < s)); [apply Hlow; lia|].
    specialize (Hmin (j - s)). ospecialize* Hmin; [lia|].
    unfold b in Hmin at 1. rewrite land_255_bit, Z.shiftr_spec in Hmin by lia.
    replace (j - s + s) with j in Hmin by lia.
    apply andb_false_iff in Hmin as [?|?]; [done|zbool; lia].
Qed.

Lemma land_byte_zero v s j :
  Z.land (Z.shiftr v s) 255 = 0 -> 0 <= s <= j -> j < s + 8 -> Z.testbit v j = false.
Proof.
  intros H ??. assert (Z.testbit (Z.land (Z.shiftr v s) 255) (j - s) = false) as Hb.
  { rewrite H. apply Z.bits_0. }
  rewrite land_255_bit, Z.shiftr_spec in Hb by lia. replace (j - s + s) with j in Hb by lia.
  apply andb_false_iff in Hb as [?|?]; [done|zbool; lia].
Qed.

Lemma land_shift_zero v s : 0 <= s ->
  (Z.land v (Z.shiftl 255 s) =? 0) = (Z.land (Z.shiftr v s) 255 =? 0).
Proof.
  intros. apply eq_true_iff_eq. rewrite !Z.eqb_eq, <- byte_bits by done. split.
  - intros ->. apply Z.shiftr_0_l.
  - intros H1. apply Z.bits_inj'. intros n Hn. rewrite Z.bits_0, Z.land_spec, Z.shiftl_spec by lia.
    destruct (decide (n < s)).
    + rewrite (Z.testbit_neg_r 255) by lia. apply andb_false_r.
    + replace n with (n - s + s) by lia. rewrite <- (Z.shiftl_spec 255), <- Z.land_spec by lia.
      rewrite <- Z.shiftr_spec by lia. by rewrite H1, Z.bits_0.
Qed.

Lemma rt_ffs_lowest v : 0 < v < 2 ^ 32 -> is_lowest_bit v (__rt_ffs v - 1).
Proof.
  intros Hv. unfold __rt_ffs.
  change 0xff00 with (Z.shiftl 255 8). change 0xff0000 with (Z.shiftl 255 16).
  change 0xff000000 with (Z.shiftl 255 24). rewrite !byte_bits, !land_shift_zero by lia.
  change (Z.land v 255) with (Z.land (Z.shiftr v 0) 255).
  destruct (Z.eqb_spec v 0); [lia|].
  destruct (Z.eqb_spec (Z.land (Z.shiftr v 0) 255) 0) as [E0|]; cbn [negb].
  2:{ replace (lowest_bit (Z.land (v ≫ 0) 255) + 1 - 1)
        with (lowest_bit (Z.land (v ≫ 0) 255) + 0) by lia. apply lowest_bit_byte; lia || done. }
  destruct (Z.eqb_spec (Z.land (Z.shiftr v 8) 255) 0) as [E1|]; cbn [negb].
  2:{ replace (lowest_bit (Z.land (v ≫ 8) 255) + 9 - 1)
        with (lowest_bit (Z.land (v ≫ 8) 255) + 8) by lia. apply lowest_bit_byte; [lia|done|].
      intros. eapply land_byte_zero; [exact E0|lia..]. }
  destruct (Z.eqb_spec (Z.land (Z.shiftr v 16) 255) 0) as [E2|]; cbn [negb].
  2:{ replace (lowest_bit (Z.land (v ≫ 16) 255) + 17 - 1)
        with (lowest_bit (Z.land (v ≫ 16) 255) + 16) by lia. apply lowest_bit_byte; [lia|done|].
      intros j ?. destruct (decide (j < 8));
        [eapply land_byte_zero; [exact E0|lia..]|eapply land_byte_zero; [exact E1|lia..]]. }
  replace (lowest_bit (Z.land (v ≫ 24) 255) + 25 - 1)
    with (lowest_bit (Z.land (v ≫ 24) 255) + 24) by lia.
  assert (forall j, 0 <= j < 24 -> Z.testbit v j = false) as Hlow.
  { intros j ?. destruct (decide (j < 8)); [eapply land_byte_zero; [exact E0|lia..]|].
    destruct (decide (j < 16)); [eapply land_byte_zero; [exact E1|lia..]|].
    eapply land_byte_zero; [exact E2|lia..]. }
  apply lowest_bit_byte; [lia| |done]. intros E3.
  assert (v = 0); [|lia]. apply Z.bits_inj'. intros j Hj. rewrite Z.bits_0.
  destruct (decide (j < 24)); [apply Hlow; lia|].
  destruct (decide (j < 32)); [eapply land_byte_zero; [exact E3|lia..]|].
  apply Z.bits_above_log2; [lia|]. apply Z.log2_lt_pow2; [lia|].
  eapply Z.lt_le_trans; [apply Hv|]. apply Z.pow_le_mono_r; lia.
Qed.

(** * Thread states *)

Definition tstat (th : rt_thread) : Z := Z.land (t_stat th) RT_THREAD_STAT_MASK.

Lemma tstat_range th : 0 <= tstat th < 8.
Proof. unfold tstat, RT_THREAD_STAT_MASK. rewrite land_7. apply Z.mod_pos_bound. lia. Qed.

Lemma tstat_with_stat c th : 0 <= c < 8 -> tstat (with_stat c th) = c.
Proof.
  intros. unfold tstat, with_stat, RT_THREAD_STAT_MASK. simpl.
  rewrite lor_low3, land_7 by done. rewrite (Z.mod_eq (t_stat th) 8) by lia.
  replace (c + (t_stat th - (t_stat th - 8 * (t_stat th / 8))))
    with (c + (t_stat th / 8) * 8) by lia.
  rewrite Z.mod_add by lia. apply Z.mod_small. lia.
Qed.

Lemma tstat_clear_yield th v :
  t_stat v = Z.land (t_stat th) (Z.lnot RT_THREAD_STAT_YIELD_MASK) -> tstat v = tstat th.
Proof.
  unfold tstat. intros ->. rewrite <- Z.land_assoc. f_equal.
Qed.

(** What being linked in a list says of a thread. *)
Definition lid_ok (l : lid) (th : rt_thread) : Prop :=
  match l with
  | LReady p => tstat th = RT_THREAD_READY /\ t_cur_prio th = p
  | LSusp _ | LSender _ | LDev _ => RT_THREAD_SUSPEND_MASK <= tstat th
  | LDefunct => tstat th = RT_THREAD_CLOSE
  end.

(** * The ready-queue invariant

    [E] is a thread in transit: taken out of every list, its control block in
    the middle of an update. *)
Record rqwf (E : option tid) (k : kernel) : Prop := mk_rqwf {
  rq_nodup : forall l, NoDup (k_list k l);
  rq_disj : forall l1 l2 t, t ∈ k_list k l1 -> t ∈ k_list k l2 -> l1 = l2;
  rq_out : forall t l, E = Some t -> t ∉ k_list k l;
  rq_in : forall l t, t ∈ k_list k l -> lid_ok l (k_thr k t);
  rq_ready : forall t, E <> Some t -> tstat (k_thr k t) = RT_THREAD_READY ->
      t ∈ k_list k (LReady (t_cur_prio (k_thr k t)));
  rq_prio : forall t, E <> Some t -> 0 <= t_cur_prio (k_thr k t) < RT_THREAD_PRIORITY_MAX;
  rq_mask : forall t, E <> Some t -> tstat (k_thr k t) <> RT_THREAD_INIT ->
      t_mask (k_thr k t) = 2 ^ t_cur_prio (k_thr k t);
  rq_group : forall p, 0 <= p ->
      Z.testbit (k_group k) p = negb (is_nil (k_list k (LReady p)));
  rq_group_nonneg : 0 <= k_group k
}.

(** The current thread is the one running thread and is not in the queue. *)
Record curwf (k : kernel) : Prop := mk_curwf {
  cur_not_ready : forall t, k_cur k = Some t -> tstat (k_thr k t) <> RT_THREAD_READY;
  cur_running : forall t, tstat (k_thr k t) = RT_THREAD_RUNNING -> k_cur k = Some t
}.

Record kwf (k : kernel) : Prop := mk_kwf { kwf_rq : rqwf None k; kwf_cur : curwf k }.

(** [rqwf] depends on the lists, the group and the scheduling fields only. *)
Lemma rqwf_ext E k k' :
  (forall l, k_list k' l = k_list k l) -> k_group k' = k_group k ->
  (forall t, E <> Some t -> tstat (k_thr k' t) = tstat (k_thr k t) /\
     t_cur_prio (k_thr k' t) = t_cur_prio (k_thr k t) /\
     (tstat (k_thr k t) <> RT_THREAD_INIT -> t_mask (k_thr k' t) = t_mask (k_thr k t))) ->
  rqwf E k -> rqwf E k'.
Proof.
  intros Hl Hg Ht [nd dj out inn rdy pr mk gr gn]. split; try setoid_rewrite Hl; auto.
  - intros l t Hin. specialize (inn l t Hin).
    destruct (Ht t) as (Hs & Hp & _); [intros ->; by eapply out|].
    destruct l; simpl in *; rewrite ?Hs, ?Hp; done.
  - intros t HE. destruct (Ht t HE) as (-> & -> & _). auto.
  - intros t HE. destruct (Ht t HE) as (_ & -> & _). auto.
  - intros t HE. destruct (Ht t HE) as (-> & -> & Hm). intros Hi. rewrite Hm by done. auto.
  - by rewrite Hg.
  - by rewrite Hg.
Qed.

Lemma curwf_ext k k' :
  k_cur k' = k_cur k -> (forall t, tstat (k_thr k' t) = tstat (k_thr k t)) ->
  curwf k -> curwf k'.
Proof. intros Hc Ht [a b]. split; intros t; rewrite Hc, Ht; auto. Qed.

(** Updating the thread in transit preserves the invariant. *)
Lemma rqwf_transit_upd t th k :
  rqwf (Some t) k -> rqwf (Some t) (set_k_thr (fupd t th (k_thr k)) k).
Proof.
  intros W. eapply rqwf_ext; [..|exact W]; [done|done|].
  intros t' Hne. simpl. rewrite fupd_ne by congruence. auto.
Qed.

(** A thread in no list may be taken in transit... *)
Lemma rqwf_begin t k : rqwf None k -> (forall l, t ∉ k_list k l) -> rqwf (Some t) k.
Proof. intros [] Hout. split; auto. intros t' l [= <-]. auto. Qed.

(** ... and leaves it when it is not READY and its priority is in order. *)
Lemma rqwf_end t k :
  rqwf (Some t) k -> tstat (k_thr k t) <> RT_THREAD_READY ->
  0 <= t_cur_prio (k_thr k t) < RT_THREAD_PRIORITY_MAX ->
  (tstat (k_thr k t) <> RT_THREAD_INIT -> t_mask (k_thr k t) = 2 ^ t_cur_prio (k_thr k t)) ->
  rqwf None k.
Proof.
  intros [nd dj out inn rdy pr mk gr gn] Hs Hp Hm. split; auto.
  - intros t' l. done.
  - intros t' _. destruct (decide (t' = t)) as [->|]; [done|]. apply rdy. congruence.
  - intros t' _. destruct (decide (t' = t)) as [->|]; [done|]. apply pr. congruence.
  - intros t' _. destruct (decide (t' = t)) as [->|]; [done|]. apply mk. congruence.
Qed.

(** A non-READY, non-suspended, non-closed thread is in no list. *)
Lemma rqwf_not_linked k t :
  rqwf None k -> tstat (k_thr k t) = RT_THREAD_RUNNING \/ tstat (k_thr k t) = RT_THREAD_INIT ->
  forall l, t ∉ k_list k l.
Proof.
  intros W Hs l Hin. apply (rq_in _ _ W) in Hin. destruct l; simpl in Hin;
    unfold RT_THREAD_RUNNING, RT_THREAD_INIT, RT_THREAD_READY, RT_THREAD_CLOSE,
      RT_THREAD_SUSPEND_MASK in *; lia.
Qed.

Lemma list_unlink_in t f l x : x ∈ list_unlink t f l <-> x <> t /\ x ∈ f l.
Proof. unfold list_unlink. by rewrite list_elem_of_filter. Qed.

Lemma list_unlink_id t (f : lid -> list tid) l : t ∉ f l -> list_unlink t f l = f l.
Proof.
  intros H. unfold list_unlink. revert H. induction (f l) as [|x xs IH]; [done|].
  intros [Hn Hx]%not_elem_of_cons. rewrite filter_cons_True by congruence. by rewrite IH.
Qed.

Lemma is_nil_spec {A} (l : list A) : is_nil l = true <-> l = [].
Proof. by destruct l. Qed.

Lemma testbit_pow2 p q : 0 <= p -> 0 <= q -> Z.testbit (2 ^ p) q = bool_decide (p = q).
Proof.
  intros. destruct (decide (p = q)) as [->|].
  - rewrite Z.pow2_bits_true by lia. by rewrite bool_decide_true.
  - rewrite Z.pow2_bits_false by lia. by rewrite bool_decide_false.
Qed.

(** * Queue operations preserve the invariant *)

(** [rt_sched_remove_thread]: the thread leaves every list and the group bit of
    its priority is cleared exactly when its queue is empty. *)
Lemma remove_thread_wp E k t :
  rqwf E k -> E = None \/ E = Some t ->
  0 <= t_cur_prio (k_thr k t) < RT_THREAD_PRIORITY_MAX ->
  t_mask (k_thr k t) = 2 ^ t_cur_prio (k_thr k t) ->
  wp (rt_sched_remove_thread t) (fun _ k' => rqwf (Some t) k' /\
     exists g, k' = set_k_group g (set_k_list (list_unlink t (k_list k)) k)) k.
Proof.
  intros [nd dj out inn rdy pr mk gr gn] HE Hp Hm.
  assert (Hoth : forall p, p <> t_cur_prio (k_thr k t) -> t ∉ k_list k (LReady p)).
  { intros p Hne Hin. apply inn in Hin as [_ ?]. congruence. }
  assert (Hbits : forall g, 0 <= g ->
    (forall p, 0 <= p -> Z.testbit g p =
       negb (is_nil (list_unlink t (k_list k) (LReady p)))) ->
    rqwf (Some t) (set_k_group g (set_k_list (list_unlink t (k_list k)) k))).
  { intros g Hg Hbit. split; simpl; auto.
    - intros l. by apply NoDup_filter.
    - intros l1 l2 x [_ H1]%list_unlink_in [_ H2]%list_unlink_in. eauto.
    - intros x l [= <-] [? _]%list_unlink_in. done.
    - intros l x [_ Hx]%list_unlink_in. auto.
    - intros x Hx Hs. apply list_unlink_in. split; [congruence|].
      apply rdy; [|done]. destruct HE; congruence.
    - intros x Hx. apply pr. destruct HE; congruence.
    - intros x Hx. apply mk. destruct HE; congruence. }
  assert (Hunl : forall p, p <> t_cur_prio (k_thr k t) ->
    list_unlink t (k_list k) (LReady p) = k_list k (LReady p)).
  { intros p Hne. apply list_unlink_id. auto. }
  unfold rt_sched_remove_thread, rt_list_remove_thread, thr, lst. repeat wp_step. simpl.
  destruct (is_nil _) eqn:En; wp_step; (split; [apply Hbits|eexists; reflexivity]); simpl; auto.
  - rewrite Z.land_nonneg. auto.
  - intros p Hp0. rewrite Z.land_spec, Z.lnot_spec, Hm, testbit_pow2, gr by lia.
    destruct (decide (t_cur_prio (k_thr k t) = p)) as [<-|Hne].
    + rewrite bool_decide_true by done. rewrite En. by rewrite andb_false_r.
    + rewrite bool_decide_false by done. rewrite Hunl by congruence. by rewrite andb_true_r.
  - intros p Hp0. rewrite gr by done.
    destruct (decide (t_cur_prio (k_thr k t) = p)) as [<-|Hne].
    + rewrite En. destruct (is_nil (k_list k _)) eqn:E2; [|done].
      apply is_nil_spec in E2. unfold list_unlink in En. by rewrite E2 in En.
    + by rewrite Hunl by congruence.
Qed.

(** [rt_sched_insert_thread] of a thread that is not the current one: it is
    READY, in the queue of its priority, first or last by the yield flag. *)
Lemma insert_thread_wp k t :
  rqwf (Some t) k -> k_cur k <> Some t ->
  0 <= t_cur_prio (k_thr k t) < RT_THREAD_PRIORITY_MAX ->
  t_mask (k_thr k t) = 2 ^ t_cur_prio (k_thr k t) ->
  wp (rt_sched_insert_thread t) (fun _ k' => rqwf None k' /\
     exists g q, k' = set_k_group g (set_k_list
         (fupd (LReady (t_cur_prio (k_thr k t))) q (k_list k))
         (set_k_thr (fupd t (with_stat RT_THREAD_READY (k_thr k t)) (k_thr k)) k)) /\
       (q = t :: k_list k (LReady (t_cur_prio (k_thr k t))) \/
        q = k_list k (LReady (t_cur_prio (k_thr k t))) ++ [t])) k.
Proof.
  intros [nd dj out inn rdy pr mk gr gn] Hcur Hp Hm.
  set (p0 := t_cur_prio (k_thr k t)) in *.
  assert (Hst : tstat (with_stat RT_THREAD_READY (k_thr k t)) = RT_THREAD_READY)
    by (apply tstat_with_stat; done).
  assert (Hmain : forall q, q = t :: k_list k (LReady p0) \/ q = k_list k (LReady p0) ++ [t] ->
    rqwf None (set_k_group (Z.lor (k_group k) (2 ^ p0)) (set_k_list
       (fupd (LReady p0) q (k_list k))
       (set_k_thr (fupd t (with_stat RT_THREAD_READY (k_thr k t)) (k_thr k)) k)))).
  { intros q Hq.
    assert (Hqin : forall x, x ∈ q <-> x = t \/ x ∈ k_list k (LReady p0)).
    { intros x. destruct Hq as [->| ->]; set_solver. }
    assert (Hl : forall l x, x ∈ fupd (LReady p0) q (k_list k) l <->
                 (x = t /\ l = LReady p0) \/ x ∈ k_list k l).
    { intros l x. destruct (decide (l = LReady p0)) as [->|Hne].
      - rewrite fupd_eq, Hqin. naive_solver.
      - rewrite fupd_ne by done. naive_solver. }
    split; simpl.
    - intros l. destruct (decide (l = LReady p0)) as [->|Hne]; [|rewrite fupd_ne; auto].
      rewrite fupd_eq. destruct Hq as [->| ->].
      + apply NoDup_cons. eauto.
      + apply NoDup_app. split; [done|]. split; [|apply NoDup_singleton].
        intros x Hx ->%list_elem_of_singleton. by eapply out.
    - intros l1 l2 x. rewrite !Hl. intros [[-> ->]|H1] [[E2 ->]|H2]; try subst; eauto;
        exfalso; by eapply out.
    - done.
    - intros l x. rewrite Hl. destruct (decide (x = t)) as [->|Hne].
      + rewrite fupd_eq. intros [[_ ->]|?]; [done|]. exfalso. by eapply out.
      + rewrite fupd_ne by done. intros [[? _]|?]; [done|]. auto.
    - intros x _. destruct (decide (x = t)) as [->|Hne].
      + rewrite fupd_eq. intros _. simpl. apply Hl. auto.
      + rewrite fupd_ne by done. intros. apply Hl. right. apply rdy; congruence.
    - intros x _. destruct (decide (x = t)) as [->|Hne]; [by rewrite fupd_eq|].
      rewrite fupd_ne by done. apply pr. congruence.
    - intros x _. destruct (decide (x = t)) as [->|Hne]; [by rewrite fupd_eq|].
      rewrite fupd_ne by done. apply mk. congruence.
    - intros p Hp0. rewrite Z.lor_spec, testbit_pow2, gr by lia.
      destruct (decide (p0 = p)) as [<-|Hne].
      + rewrite bool_decide_true, fupd_eq, orb_true_r by done.
        destruct Hq as [->| ->]; [done|]. by destruct (k_list k (LReady p0)).
      + rewrite bool_decide_false, orb_false_r by done. rewrite fupd_ne by congruence. done.
    - apply Z.lor_nonneg. split; [done|]. apply Z.pow_nonneg. lia. }
  unfold rt_sched_insert_thread, upd_thr, thr. do 2 wp_step. rewrite decide_False by done.
  do 4 wp_step. simpl. rewrite fupd_eq. wp_step. simpl.
  case_bool; unfold rt_list_push_back, rt_list_push_front; repeat wp_step; simpl;
    fold p0; rewrite Hm;
    (split; [apply Hmain; auto|]); do 2 eexists; (split; [reflexivity|auto]).
Qed.

(** * What scheduling leaves unchanged *)

Definition active (th : rt_thread) : Prop :=
  tstat th = RT_THREAD_READY \/ tstat th = RT_THREAD_RUNNING.

(** Only [stat] changes, and only between READY and RUNNING (or in flags). *)
Definition th_frame (a b : rt_thread) : Prop :=
  b = set_t_stat (t_stat b) a /\ (tstat b = tstat a \/ (active a /\ active b)).

(** The kernel state without the scheduler's variables. *)
Definition krest (k : kernel) : kernel :=
  set_k_thr (k_thr kernel0) (set_k_list (k_list kernel0)
    (set_k_group 0 (set_k_cur None (set_k_cur_prio 0 k)))).

Record sched_frame (k k' : kernel) : Prop := mk_sched_frame {
  sf_thr : forall t, th_frame (k_thr k t) (k_thr k' t);
  sf_list : forall l, (forall p, l <> LReady p) -> k_list k' l = k_list k l;
  sf_rest : krest k' = krest k
}.

#[global] Instance th_frame_preorder : PreOrder th_frame.
Proof.
  split.
  - intros th. split; [by destruct th|auto].
  - intros a b c [H1 S1] [H2 S2]. split.
    + rewrite H2, H1. by destruct a.
    + destruct S1 as [S1|[A1 B1]], S2 as [S2|[A2 B2]]; unfold active in *; rewrite ?S1, ?S2 in *;
        auto.
Qed.

#[global] Instance sched_frame_preorder : PreOrder sched_frame.
Proof.
  split.
  - intros k. split; done || auto.
  - intros a b c [T1 L1 R1] [T2 L2 R2]. split.
    + intros t. by transitivity (k_thr b t).
    + intros l Hl. rewrite L2, L1; done.
    + congruence.
Qed.

Section frame_fields.
Context {k k' : kernel} (F : sched_frame k k').

Lemma sf_sem : k_sem k' = k_sem k. Proof. exact (f_equal k_sem (sf_rest _ _ F)). Qed.
Lemma sf_mutex : k_mutex k' = k_mutex k. Proof. exact (f_equal k_mutex (sf_rest _ _ F)). Qed.
Lemma sf_event : k_event k' = k_event k. Proof. exact (f_equal k_event (sf_rest _ _ F)). Qed.
Lemma sf_mb : k_mb k' = k_mb k. Proof. exact (f_equal k_mb (sf_rest _ _ F)). Qed.
Lemma sf_mq : k_mq k' = k_mq k. Proof. exact (f_equal k_mq (sf_rest _ _ F)). Qed.
Lemma sf_tim : k_tim k' = k_tim k. Proof. exact (f_equal k_tim (sf_rest _ _ F)). Qed.
Lemma sf_hard : k_hard k' = k_hard k. Proof. exact (f_equal k_hard (sf_rest _ _ F)). Qed.
Lemma sf_soft : k_soft k' = k_soft k. Proof. exact (f_equal k_soft (sf_rest _ _ F)). Qed.
Lemma sf_tick : k_tick k' = k_tick k. Proof. exact (f_equal k_tick (sf_rest _ _ F)). Qed.
Lemma sf_nest : k_lock_nest k' = k_lock_nest k. Proof. exact (f_equal k_lock_nest (sf_rest _ _ F)). Qed.
Lemma sf_irq : k_irq_nest k' = k_irq_nest k. Proof. exact (f_equal k_irq_nest (sf_rest _ _ F)). Qed.
Lemma sf_taken : k_taken k' = k_taken k. Proof. exact (f_equal k_taken (sf_rest _ _ F)). Qed.
Lemma sf_type : k_type k' = k_type k. Proof. exact (f_equal k_type (sf_rest _ _ F)). Qed.

Lemma sf_error t : t_error (k_thr k' t) = t_error (k_thr k t).
Proof. destruct (sf_thr _ _ F t) as [-> _]. done. Qed.
Lemma sf_prio t : t_cur_prio (k_thr k' t) = t_cur_prio (k_thr k t).
Proof. destruct (sf_thr _ _ F t) as [-> _]. done. Qed.
Lemma sf_mask t : t_mask (k_thr k' t) = t_mask (k_thr k t).
Proof. destruct (sf_thr _ _ F t) as [-> _]. done. Qed.
Lemma sf_pending t : t_pending (k_thr k' t) = t_pending (k_thr k t).
Proof. destruct (sf_thr _ _ F t) as [-> _]. done. Qed.
Lemma sf_ttmr t : t_ttmr (k_thr k' t) = t_ttmr (k_thr k t).
Proof. destruct (sf_thr _ _ F t) as [-> _]. done. Qed.
Lemma sf_init_prio t : t_init_prio (k_thr k' t) = t_init_prio (k_thr k t).
Proof. destruct (sf_thr _ _ F t) as [-> _]. done. Qed.

Lemma sf_not_active t : ~ active (k_thr k t) -> tstat (k_thr k' t) = tstat (k_thr k t).
Proof. destruct (sf_thr _ _ F t) as [_ [?|[? _]]]; naive_solver. Qed.
Lemma sf_active t : active (k_thr k t) -> active (k_thr k' t).
Proof. destruct (sf_thr _ _ F t) as [_ [E|[_ ?]]]; [unfold active; by rewrite E|done]. Qed.
End frame_fields.

Lemma th_frame_stat a v :
  tstat (set_t_stat v a) = tstat a \/ (active a /\ active (set_t_stat v a)) ->
  th_frame a (set_t_stat v a).
Proof. intros H. by split. Qed.

(** Restating the status of one thread. *)
Lemma sched_frame_stat k t v :
  tstat (set_t_stat v (k_thr k t)) = tstat (k_thr k t) \/
    (active (k_thr k t) /\ active (set_t_stat v (k_thr k t))) ->
  sched_frame k (set_k_thr (fupd t (set_t_stat v (k_thr k t)) (k_thr k)) k).
Proof.
  intros H. split; [|done|done]. intros x. simpl. destruct (decide (x = t)) as [->|].
  - rewrite fupd_eq. by apply th_frame_stat.
  - by rewrite fupd_ne.
Qed.

(** * [rt_schedule] *)

Lemma rqwf_group_range k : rqwf None k -> 0 <= k_group k < 2 ^ 32.
Proof.
  intros W. pose proof (rq_group_nonneg _ _ W). split; [done|].
  destruct (decide (k_group k = 0)) as [->|]; [done|].
  apply Z.log2_lt_pow2; [lia|]. apply Z.nle_gt. intros Hge.
  assert (Z.testbit (k_group k) (Z.log2 (k_group k)) = true) as Hb by (apply Z.bit_log2; lia).
  rewrite (rq_group _ _ W) in Hb by lia.
  destruct (k_list k (LReady (Z.log2 (k_group k)))) as [|t l] eqn:El; [done|].
  assert (Hin : t ∈ k_list k (LReady (Z.log2 (k_group k)))) by (rewrite El; left).
  apply (rq_in _ _ W) in Hin as [_ Hp]. pose proof (rq_prio _ _ W t ltac:(done)).
  unfold RT_THREAD_PRIORITY_MAX in *. lia.
Qed.

(** The highest ready thread is the head of the lowest nonempty queue. *)
Lemma get_highest_wp k :
  rqwf None k -> k_group k <> 0 ->
  wp _scheduler_get_highest_priority_thread (fun r k' => k' = k /\
     tstat (k_thr k r.1) = RT_THREAD_READY /\ t_cur_prio (k_thr k r.1) = r.2 /\
     head (k_list k (LReady r.2)) = Some r.1 /\
     forall t, tstat (k_thr k t) = RT_THREAD_READY -> r.2 <= t_cur_prio (k_thr k t)) k.
Proof.
  intros W Hg. pose proof (rqwf_group_range k W).
  destruct (rt_ffs_lowest (k_group k)) as (H0 & Hbit & Hmin); [lia|].
  rewrite (rq_group _ _ W) in Hbit by done.
  destruct (k_list k (LReady (__rt_ffs (k_group k) - 1))) as [|t l] eqn:El; [done|].
  unfold _scheduler_get_highest_priority_thread, lst. do 4 wp_step.
  rewrite El. simpl. wp_step. wp_step. { reflexivity. } wp_step. simpl.
  assert (Hin : t ∈ k_list k (LReady (__rt_ffs (k_group k) - 1))) by (rewrite El; left).
  apply (rq_in _ _ W) in Hin as [Hs Hp]. rewrite El. repeat split; auto.
  intros x Hx. apply Z.nlt_ge. intros Hlt.
  pose proof (rq_ready _ _ W x ltac:(done) Hx) as Hxin.
  pose proof (rq_prio _ _ W x ltac:(done)).
  specialize (Hmin (t_cur_prio (k_thr k x)) ltac:(lia)).
  rewrite (rq_group _ _ W) in Hmin by lia.
  by destruct (k_list k (LReady (t_cur_prio (k_thr k x)))); [apply elem_of_nil in Hxin|].
Qed.

(** No ready thread is more urgent than the running current thread. *)
Definition sched_best (k : kernel) : Prop :=
  forall c t, k_cur k = Some c -> tstat (k_thr k t) = RT_THREAD_READY ->
    tstat (k_thr k c) = RT_THREAD_RUNNING /\ t_cur_prio (k_thr k c) <= t_cur_prio (k_thr k t).

Ltac stat_lia :=
  unfold active, RT_THREAD_READY, RT_THREAD_RUNNING, RT_THREAD_INIT, RT_THREAD_CLOSE,
    RT_THREAD_SUSPEND_MASK, RT_THREAD_SUSPEND, RT_THREAD_SUSPEND_INTERRUPTIBLE,
    RT_THREAD_SUSPEND_KILLABLE, RT_THREAD_SUSPEND_UNINTERRUPTIBLE,
    RT_THREAD_PRIORITY_MAX in *; lia.

(** Removing a queued thread and marking it RUNNING as the current one. *)
Lemma take_thread_wp k t :
  rqwf None k -> tstat (k_thr k t) <> RT_THREAD_INIT ->
  wp (rt_sched_remove_thread t;; upd_thr t (with_stat RT_THREAD_RUNNING))
     (fun _ k' => rqwf None k' /\ k_cur k' = k_cur k /\ k_lock_nest k' = k_lock_nest k /\
        krest k' = krest k /\
        (forall l, k_list k' l = list_unlink t (k_list k) l) /\
        (forall x, k_thr k' x = if decide (x = t) then with_stat RT_THREAD_RUNNING (k_thr k t)
                                else k_thr k x)) k.
Proof.
  intros W Hs. pose proof (rq_prio _ _ W t ltac:(done)) as Hp.
  pose proof (rq_mask _ _ W t ltac:(done) Hs) as Hm.
  wp_step. eapply wp_mono; [apply (remove_thread_wp None); auto|].
  intros _ k' [W' [g ->]]. unfold upd_thr. wp_step. simpl.
  pose proof (rqwf_transit_upd t (with_stat RT_THREAD_RUNNING (k_thr k t)) _ W') as W2.
  simpl in W2. split; [|done].
  apply (rqwf_end t _ W2); simpl; rewrite fupd_eq; [rewrite tstat_with_stat; done|done|done].
Qed.

Lemma schedule_switch_wp k c hi p b :
  kwf k -> k_cur k = Some c -> hi <> c -> tstat (k_thr k hi) = RT_THREAD_READY ->
  t_cur_prio (k_thr k hi) = p ->
  (b = true -> tstat (k_thr k c) = RT_THREAD_RUNNING) ->
  (b = false -> tstat (k_thr k c) <> RT_THREAD_RUNNING) ->
  wp (schedule_switch c hi p b)
     (fun _ k' => kwf k' /\ sched_frame k k' /\ k_cur k' = Some hi /\
        tstat (k_thr k' hi) = RT_THREAD_RUNNING /\
        (b = true -> tstat (k_thr k' c) = RT_THREAD_READY) /\
        forall x, x <> hi -> x <> c -> k_thr k' x = k_thr k x) k.
Proof.
  intros [W [C1 C2]] Hcur Hne Hhi Hp Hbt Hbf. unfold schedule_switch. do 4 wp_step.
  set (k1 := set_k_cur (Some hi) _).
  assert (W1 : rqwf None k1) by (eapply rqwf_ext; [..|exact W]; auto).
  wp_step.
  (* the current thread goes back to the queue *)
  apply (wp_mono _ (fun _ k2 => rqwf None k2 /\ k_cur k2 = Some hi /\ sched_frame k k2 /\
     tstat (k_thr k2 c) <> RT_THREAD_RUNNING /\
     (b = true -> tstat (k_thr k2 c) = RT_THREAD_READY) /\
     forall x, x <> c -> k_thr k2 x = k_thr k x)).
  { destruct b.
    - specialize (Hbt eq_refl). pose proof (rqwf_not_linked k1 c W1 (or_introl Hbt)) as Hout.
      pose proof (rqwf_begin c k1 W1 Hout) as W1'.
      pose proof (rq_prio _ _ W c ltac:(done)). 
      assert (t_mask (k_thr k c) = 2 ^ t_cur_prio (k_thr k c))
        by (apply (rq_mask _ _ W); [done|stat_lia]).
      eapply wp_mono; [apply (insert_thread_wp k1 c W1'); simpl; [congruence|done|done]|].
      intros _ k2 (W2 & g & q & -> & Hq). simpl. split; [done|]. split; [done|].
      assert (Hst : tstat (with_stat RT_THREAD_READY (k_thr k c)) = RT_THREAD_READY)
        by (by rewrite tstat_with_stat).
      split; [|split; [rewrite fupd_eq; stat_lia|split; [by rewrite fupd_eq|]]].
      2:{ intros x ?. by rewrite fupd_ne. }
      split; [|intros l Hl; simpl; by rewrite fupd_ne by auto|done].
      intros x. simpl. destruct (decide (x = c)) as [->|]; [|by rewrite fupd_ne].
      rewrite fupd_eq. apply th_frame_stat. right. fold (with_stat RT_THREAD_READY (k_thr k c)).
      split; [right|left]; done.
    - wp_step. split; [done|]. split; [done|]. split; [split; done|].
      split; [by apply Hbf|done]. }
  intros _ k2 (W2 & Hc2 & F2 & Hnr & Hrdy & Hoth). unfold thr. do 3 wp_step.
  (* its yield flag is cleared *)
  apply (wp_mono _ (fun _ k3 => rqwf None k3 /\ k_cur k3 = Some hi /\ sched_frame k k3 /\
     tstat (k_thr k3 c) = tstat (k_thr k2 c) /\
     forall x, x <> c -> k_thr k3 x = k_thr k x)).
  { case_bool; unfold upd_thr; wp_step; [|auto].
    match goal with |- rqwf _ (set_k_thr (fupd c ?v _) _) /\ _ => set (v2 := v) end.
    assert (Hv : tstat v2 = tstat (k_thr k2 c)) by (by apply tstat_clear_yield).
    split; [|split; [done|split; [|split; [simpl; by rewrite fupd_eq|]]]].
    - eapply rqwf_ext; [..|exact W2]; [done|done|]. intros x _. simpl.
      destruct (decide (x = c)) as [->|]; [rewrite fupd_eq, Hv; auto|rewrite fupd_ne; auto].
    - etransitivity; [exact F2|]. apply sched_frame_stat. auto.
    - intros x ?. simpl. rewrite fupd_ne; auto. }
  intros _ k3 (W3 & Hc3 & F3 & Hs3 & Hoth3).
  eapply wp_mono; [apply take_thread_wp; [done|rewrite Hoth3 by done; stat_lia]|].
  intros _ k4 (W4 & Hc4 & Hn4 & R4 & L4 & T4).
  assert (Hhi4 : tstat (k_thr k4 hi) = RT_THREAD_RUNNING).
  { rewrite T4, decide_True by done. by apply tstat_with_stat. }
  assert (Hcc : tstat (k_thr k4 c) = tstat (k_thr k2 c)) by (by rewrite T4, decide_False).
  split; [split; [done|]|split].
  - split; intros x; rewrite Hc4, Hc3; [intros [= <-]; stat_lia|].
    destruct (decide (x = hi)) as [->|]; [done|]. rewrite T4, decide_False by done.
    destruct (decide (x = c)) as [->|]; [rewrite Hs3; done|]. rewrite Hoth3 by done.
    intros Hr%C2. congruence.
  - etransitivity; [exact F3|]. split; [|intros l Hl; rewrite L4; apply list_unlink_id|done].
    + intros x. rewrite T4. case_decide; [|done]. subst. apply th_frame_stat. right.
      rewrite Hoth3 by done. split; [by left|right]. by apply tstat_with_stat.
    + intros Hin%(rq_in _ _ W3). rewrite Hoth3 in Hin by done. destruct l; simpl in Hin; [|stat_lia..].
      by eapply Hl.
  - split; [congruence|]. split; [done|]. split; [intros ->; rewrite Hcc; auto|].
    intros x ??. rewrite T4, decide_False by done. auto.
Qed.

Lemma group_zero_no_ready k t :
  rqwf None k -> k_group k = 0 -> tstat (k_thr k t) <> RT_THREAD_READY.
Proof.
  intros W Hg Hs. pose proof (rq_ready _ _ W t ltac:(done) Hs) as Hin.
  pose proof (rq_prio _ _ W t ltac:(done)).
  pose proof (rq_group _ _ W (t_cur_prio (k_thr k t)) ltac:(lia)) as Hb.
  rewrite Hg, Z.bits_0 in Hb. destruct (k_list k _); [by apply elem_of_nil in Hin|done].
Qed.

(** Keeping the current thread: it is unlinked and marked RUNNING. *)
Lemma schedule_keep_wp k c :
  kwf k -> k_cur k = Some c -> tstat (k_thr k c) = RT_THREAD_RUNNING ->
  wp (rt_sched_remove_thread c;; upd_thr c (with_stat RT_THREAD_RUNNING))
     (fun _ k' => kwf k' /\ sched_frame k k' /\ k_cur k' = Some c /\
        forall x, tstat (k_thr k' x) = tstat (k_thr k x)) k.
Proof.
  intros [W [C1 C2]] Hc Hs.
  eapply wp_mono; [apply take_thread_wp; [done|stat_lia]|].
  intros _ k' (W' & Hc' & Hn & R & L & T).
  assert (Hst : forall x, tstat (k_thr k' x) = tstat (k_thr k x)).
  { intros x. rewrite T. case_decide; [subst|done]. rewrite tstat_with_stat; [done|stat_lia]. }
  split; [split; [done|]|split; [split|split; [congruence|done]]]; [| | |done].
  - split; intros x; rewrite Hst, Hc'; auto.
  - intros x. rewrite T. case_decide; [subst|done]. apply th_frame_stat. left.
    specialize (Hst c). by rewrite T, decide_True in Hst.
  - intros l _. rewrite L. apply list_unlink_id. by apply rqwf_not_linked; auto.
Qed.

(** [rt_schedule] keeps the kernel well formed, changes only the scheduling
    state, and with the scheduler unlocked leaves the most urgent thread running. *)
Lemma rt_schedule_wp k c :
  kwf k -> k_cur k = Some c ->
  wp rt_schedule (fun _ k' => kwf k' /\ sched_frame k k' /\ is_Some (k_cur k') /\
     (k_lock_nest k = 0 -> sched_best k')) k.
Proof.
  intros Hk Hc. pose proof (kwf_rq _ Hk) as W. destruct (kwf_cur _ Hk) as [C1 C2].
  assert (Hid : (k_lock_nest k = 0 -> k_group k = 0) ->
    kwf k /\ sched_frame k k /\ is_Some (k_cur k) /\ (k_lock_nest k = 0 -> sched_best k)).
  { intros Hg. split; [done|]. split; [done|]. split; [by eexists|]. intros H0 x t _ Ht.
    by apply (group_zero_no_ready k t) in W; auto. }
  unfold rt_schedule. do 2 wp_step. case_bool; [|wp_step; apply Hid; intros; lia].
  do 2 wp_step. case_bool; [|wp_step; auto]. wp_step.
  eapply wp_mono; [by apply get_highest_wp|].
  intros [hi p] k0 (-> & Hhi & Hp & _ & Hmin). simpl in *.
  do 2 wp_step. wp_step. eapply wp_deref; [exact Hc|]. unfold thr. do 2 wp_step.
  assert (Hne : hi <> c) by (intros ->; by apply (C1 c)).
  unfold schedule_select. fold (tstat (k_thr k c)).
  assert (Hkeep : tstat (k_thr k c) = RT_THREAD_RUNNING -> t_cur_prio (k_thr k c) <= p ->
    wp (rt_sched_remove_thread c;; upd_thr c (with_stat RT_THREAD_RUNNING))
       (fun _ k' => kwf k' /\ sched_frame k k' /\ is_Some (k_cur k') /\
         (k_lock_nest k = 0 -> sched_best k')) k).
  { intros Hr Hle. eapply wp_mono; [by apply schedule_keep_wp|].
    intros _ k' (Hk' & F & Hc' & Hst). split; [done|]. split; [done|].
    split; [by eexists|]. intros _ x t. rewrite Hc'. intros [= <-]. rewrite Hst, !(sf_prio F).
    rewrite Hst. intros Ht. specialize (Hmin t Ht). split; [done|lia]. }
  assert (Hsw : forall b, (b = true -> tstat (k_thr k c) = RT_THREAD_RUNNING /\
        p <= t_cur_prio (k_thr k c)) ->
      (b = false -> tstat (k_thr k c) <> RT_THREAD_RUNNING) ->
    wp (schedule_switch c hi p b)
       (fun _ k' => kwf k' /\ sched_frame k k' /\ is_Some (k_cur k') /\
         (k_lock_nest k = 0 -> sched_best k')) k).
  { intros b Hb1 Hb2. eapply wp_mono; [apply schedule_switch_wp; naive_solver|].
    intros _ k' (Hk' & F & Hc' & Hr & Hb & Ho). split; [done|]. split; [done|].
    split; [by eexists|]. intros _ x t. rewrite Hc'. intros [= <-] Ht.
    split; [done|]. rewrite !(sf_prio F), Hp.
    destruct (decide (t = hi)) as [->|]; [lia|]. destruct (decide (t = c)) as [->|].
    - destruct b; [apply Hb1; done|]. exfalso.
      destruct (sf_thr _ _ F c) as [_ [Hs|[[?|?] _]]]; [|naive_solver..].
      rewrite Hs in Ht. by apply (C1 c).
    - rewrite Ho in Ht by done. auto. }
  case_bool; [case_bool; [|case_bool]|]; simpl.
  - rewrite decide_False by naive_solver. apply Hkeep; [done|lia].
  - rewrite decide_False by naive_solver. apply Hkeep; [done|lia].
  - rewrite decide_True by done. apply Hsw; [split; [done|lia]|done].
  - rewrite decide_True by done. apply Hsw; done.
Qed.

(** C1: [rt_schedule] is a priority scheduler.  From every well-formed state with a
    current thread it stops in no assertion, keeps the ready-queue invariant,
    changes nothing but the scheduling state, and, unless the scheduler is locked,
    leaves a current thread such that no ready thread has a more urgent priority
    (and that is RUNNING whenever some thread is ready). *)
Theorem rt_schedule_highest_priority k c :
  kwf k -> k_cur k = Some c ->
  wp rt_schedule (fun _ k' => kwf k' /\ sched_frame k k' /\
     exists c', k_cur k' = Some c' /\
       (k_lock_nest k = 0 -> forall t, tstat (k_thr k' t) = RT_THREAD_READY ->
          tstat (k_thr k' c') = RT_THREAD_RUNNING /\
          t_cur_prio (k_thr k' c') <= t_cur_prio (k_thr k' t))) k.
Proof.
  intros Hk Hc. eapply wp_mono; [by apply (rt_schedule_wp k c)|].
  intros _ k' (H1 & H2 & [c' Hc'] & H4). split; [done|]. split; [done|]. exists c'.
  split; [done|]. intros H0 t Ht. by apply (H4 H0 c' t).
Qed.

(** [__rt_ffs] with the byte table returns one more than the index of the lowest
    set bit of every nonzero 32-bit word, so priority [__rt_ffs(group) - 1] is the
    smallest one with a ready thread. *)
Lemma rt_ffs_correct v :
  0 < v < 2 ^ 32 ->
  Z.testbit v (__rt_ffs v - 1) = true /\ 1 <= __rt_ffs v <= 32 /\
  forall j, 0 <= j < __rt_ffs v - 1 -> Z.testbit v j = false.
Proof.
  intros Hv. destruct (rt_ffs_lowest v Hv) as (H0 & Hb & Hm). split; [done|]. split; [|done].
  split; [lia|]. apply Z.nlt_ge. intros Hlt.
  assert (Z.testbit v (__rt_ffs v - 1) = false); [|congruence].
  apply Z.bits_above_log2; [lia|]. apply Z.log2_lt_pow2; [lia|].
  eapply Z.lt_le_trans; [apply Hv|]. apply Z.pow_le_mono_r; lia.
Qed.

Lemma rt_ffs_correct_witness :
  Z.testbit 0x00500000 (__rt_ffs 0x00500000 - 1) = true /\ 1 <= __rt_ffs 0x00500000 <= 32 /\
  forall j, 0 <= j < __rt_ffs 0x00500000 - 1 -> Z.testbit 0x00500000 j = false.
Proof. apply (rt_ffs_correct 0x00500000). lia. Defined.

(** * The scheduler lock *)

(** What every unlock of the scheduler leaves: a well-formed kernel in which
    only scheduling happened; nothing at all before the first switch or while
    the scheduler stays locked; the most urgent thread when it is unlocked. *)
Record unlocked (k k' : kernel) : Prop := mk_unlocked {
  un_wf : kwf k';
  un_frame : sched_frame k k';
  un_same : k_cur k = None \/ k_lock_nest k <> 0 -> k' = k;
  un_cur : is_Some (k_cur k) -> is_Some (k_cur k');
  un_best : k_lock_nest k = 0 -> sched_best k'
}.

Lemma kwf_ext k k' :
  (forall t, k_thr k' t = k_thr k t) -> (forall l, k_list k' l = k_list k l) ->
  k_group k' = k_group k -> k_cur k' = k_cur k -> kwf k -> kwf k'.
Proof.
  intros Ht Hl Hg Hc [W C]. split.
  - eapply rqwf_ext; [exact Hl|exact Hg|intros; by rewrite Ht|exact W].
  - eapply curwf_ext; [exact Hc|intros; by rewrite Ht|exact C].
Qed.

Lemma kwf_nest k n : kwf k -> kwf (set_k_lock_nest n k).
Proof. by apply kwf_ext. Qed.

Lemma sched_best_no_cur k : k_cur k = None -> sched_best k.
Proof. intros H c t. by rewrite H. Qed.

Lemma unlocked_refl k : kwf k -> k_cur k = None \/ k_lock_nest k <> 0 -> unlocked k k.
Proof.
  intros Hk Hs. split; [done|done|done|done|].
  destruct Hs; [intros; by apply sched_best_no_cur|done].
Qed.

(** The state after [rt_enter_critical], and before the scheduler runs in
    [rt_exit_critical]. *)
Definition lock1 (k : kernel) : kernel := set_k_lock_nest (k_lock_nest k + 1) k.
Definition unlock1 (k : kernel) : kernel := set_k_lock_nest (k_lock_nest k - 1) k.

Lemma unlock1_lock1 k : unlock1 (lock1 k) = k.
Proof. destruct k. unfold unlock1, lock1, set_k_lock_nest. simpl. f_equal. lia. Qed.

(** A state change that does not look at the nesting, made between lock and
    unlock. *)
Lemma unlock1_between (f : kernel -> kernel) k :
  (forall n k, f (set_k_lock_nest n k) = set_k_lock_nest n (f k)) -> unlock1 (f (lock1 k)) = f k.
Proof.
  intros Hf. assert (Hself : forall x, set_k_lock_nest (k_lock_nest x) x = x) by (by intros []).
  assert (Hn : k_lock_nest (f k) = k_lock_nest k).
  { pose proof (Hf (k_lock_nest k) k) as H. rewrite Hself in H. rewrite H at 1. done. }
  unfold lock1. rewrite Hf. unfold unlock1. simpl.
  replace (k_lock_nest k + 1 - 1) with (k_lock_nest k) by lia.
  rewrite <- Hn. etransitivity; [|apply Hself]. done.
Qed.

(** [rt_schedule] through the guard on the current thread that its callers have. *)
Lemma resched_wp k :
  kwf k ->
  wp (cur ← gets k_cur; match cur with Some _ => rt_schedule | None => mret tt end)
     (fun _ k' => unlocked k k') k.
Proof.
  intros Hk. do 2 wp_step. destruct (k_cur k) as [c|] eqn:Hc.
  - destruct (decide (k_lock_nest k = 0)) as [H0|Hn].
    + eapply wp_mono; [by apply (rt_schedule_wp k c)|].
      intros _ k' (H1 & H2 & H3 & H4). split; auto. rewrite Hc. by intros [|].
    + unfold rt_schedule. do 2 wp_step. case_bool; [lia|]. wp_step. apply unlocked_refl; auto.
  - wp_step. apply unlocked_refl; auto.
Qed.

(** [rt_exit_critical] at nesting [n >= 1]: the nesting drops by one and at zero
    the scheduler runs. *)
Lemma rt_exit_critical_wp k :
  kwf k -> 1 <= k_lock_nest k ->
  wp rt_exit_critical (fun _ k' => unlocked (unlock1 k) k') k.
Proof.
  intros Hk Hn. unfold rt_exit_critical. do 4 wp_step. simpl.
  pose proof (kwf_nest k (k_lock_nest k - 1) Hk) as Hk'. case_bool.
  - wp_step. wp_step. replace (set_k_lock_nest 0 _) with (unlock1 k).
    + by apply resched_wp.
    + unfold unlock1, set_k_lock_nest. simpl. f_equal. lia.
  - wp_step. apply unlocked_refl; [done|]. right. simpl. lia.
Qed.

(** The lock operations as rules of symbolic execution. *)
Lemma spin_lock_wp Q k : Q tt (lock1 k) -> wp rt_spin_lock_irqsave Q k.
Proof. done. Qed.

Lemma spin_unlock_wp Q k :
  kwf k -> 1 <= k_lock_nest k -> (forall k', unlocked (unlock1 k) k' -> Q tt k') ->
  wp rt_spin_unlock_irqrestore Q k.
Proof. intros Hk Hn HQ. eapply wp_mono; [by apply rt_exit_critical_wp|]. intros []. auto. Qed.

(** A state change [f] between lock and unlock. *)
Lemma spin_unlock_between_wp Q f k :
  (forall n k, f (set_k_lock_nest n k) = set_k_lock_nest n (f k)) ->
  0 <= k_lock_nest k -> kwf (f k) -> (forall k', unlocked (f k) k' -> Q tt k') ->
  wp rt_spin_unlock_irqrestore Q (f (lock1 k)).
Proof.
  intros Hf Hn Hk HQ. assert (E : f (lock1 k) = set_k_lock_nest (k_lock_nest k + 1) (f k))
    by apply Hf.
  apply spin_unlock_wp; [rewrite E; by apply kwf_nest|rewrite E; simpl; lia|].
  by rewrite unlock1_between.
Qed.

Lemma unlock_n_resched_wp Q k :
  kwf k -> (forall k', unlocked k k' -> Q tt k') -> wp rt_sched_unlock_n_resched Q k.
Proof. intros Hk HQ. eapply wp_mono; [by apply resched_wp|]. intros []. auto. Qed.

Lemma rt_schedule_unlocked_wp Q k :
  kwf k -> is_Some (k_cur k) \/ k_lock_nest k <> 0 ->
  (forall k', unlocked k k' -> Q tt k') -> wp rt_schedule Q k.
Proof.
  intros Hk Hc HQ. pose proof (resched_wp k Hk) as H. apply wp_bind_inv in H.
  unfold wp, gets in H. destruct (k_cur k) as [c|] eqn:Ec.
  - eapply wp_mono; [exact H|]. intros []. auto.
  - destruct Hc as [[? ?]|Hn]; [done|]. unfold rt_schedule. do 2 wp_step. case_bool; [done|].
    wp_step. apply HQ. by apply unlocked_refl; auto.
Qed.
