(* ===== verification/DList.v ===== *)
(** Circular doubly linked lists, include/rtservice.h: the pointer operations on
    [rt_list_t] and what they do to the list of nodes.  The nodes are of any type, so
    that other lists with two pointers can use the lemmas. *)
From S2P Require Import Prelude.
#[local] Open Scope Z_scope.

(** * The pointer operations *)

(** [struct rt_list_node] of every node. *)
Record nodes (A : Type) := mk_nodes { next : A -> A; prev : A -> A }.
Arguments mk_nodes {A} next prev.
Arguments next {A} n.
Arguments prev {A} n.

(** Evaluate a few pointer writes. *)
Ltac ptr := simpl; unfold fupd; repeat case_decide; congruence.

Section dlist.
Context {A : Type} `{EqDecision A}.
Implicit Types x y z n p a v : A.
Implicit Types h : nodes A.


Definition set_next (x v : A) (h : nodes A) : nodes A := mk_nodes (fupd x v (next h)) (prev h).
Definition set_prev (x v : A) (h : nodes A) : nodes A := mk_nodes (next h) (fupd x v (prev h)).

Definition rt_list_init (l : A) (h : nodes A) : nodes A :=
  set_next l l (set_prev l l h).

Definition rt_list_insert_after (l n : A) (h : nodes A) : nodes A :=
  let h := set_prev (next h l) n h in
  let h := set_next n (next h l) h in
  let h := set_next l n h in
  set_prev n l h.

Definition rt_list_insert_before (l n : A) (h : nodes A) : nodes A :=
  let h := set_next (prev h l) n h in
  let h := set_prev n (prev h l) h in
  let h := set_prev l n h in
  set_next n l h.

Definition rt_list_remove (n : A) (h : nodes A) : nodes A :=
  let h := set_prev (next h n) (prev h n) h in
  let h := set_next (prev h n) (next h n) h in
  set_next n n (set_prev n n h).

Definition rt_list_isempty (l : A) (h : nodes A) : bool := bool_decide (next h l = l).

(** [rt_list_len]: the loop from [p], with fuel; [None] is a loop that goes on. *)
Fixpoint rt_list_len_loop (fuel : nat) (l p : A) (len : Z) (h : nodes A) : option Z :=
  match fuel with
  | O => None
  | S fuel => if decide (next h p <> l) then rt_list_len_loop fuel l (next h p) (u32 (len + 1)) h
              else Some len
  end.

Definition rt_list_len (fuel : nat) (l : A) (h : nodes A) : option Z := rt_list_len_loop fuel l l 0 h.

(** * Shape *)

(** From [x] the next pointers lead along [ys] and the previous pointers back. *)
Fixpoint links (h : nodes A) (x : A) (ys : list A) : Prop :=
  match ys with
  | [] => True
  | y :: ys => next h x = y /\ prev h y = x /\ links h y ys
  end.

(** A circular list with head [x] and elements [l]. *)
Definition dlist (h : nodes A) (x : A) (l : list A) : Prop :=
  NoDup (x :: l) /\ links h x (l ++ [x]).

Definition same_nodes (h h' : nodes A) : Prop :=
  (forall z, next h' z = next h z) /\ (forall z, prev h' z = prev h z).

Lemma links_same h h' x l : same_nodes h h' -> links h x l -> links h' x l.
Proof.
  intros [Hn Hp]. revert x. induction l as [|y l IH]; intros x; simpl; [done|].
  intros (<- & H2 & H3). rewrite Hn, Hp. auto.
Qed.

Lemma links_app h x l1 y l2 : links h x (l1 ++ y :: l2) <-> links h x (l1 ++ [y]) /\ links h y l2.
Proof. revert x. induction l1 as [|z l1 IH]; intros x; simpl; [tauto|]. rewrite IH. tauto. Qed.

Lemma links_set_prev a v h x ys : a ∉ ys -> links h x ys -> links (set_prev a v h) x ys.
Proof.
  revert x. induction ys as [|y ys IH]; intros x; simpl; [done|].
  intros [Ha1 Ha2]%not_elem_of_cons (H1 & H2 & H3). rewrite fupd_ne by done. auto.
Qed.

Lemma links_set_next a v h x l y :
  a ∉ x :: l -> links h x (l ++ [y]) -> links (set_next a v h) x (l ++ [y]).
Proof.
  revert x. induction l as [|z l IH]; intros x; simpl.
  - intros [Ha _]%not_elem_of_cons (H1 & H2 & _). by rewrite fupd_ne.
  - intros [Ha1 Ha2]%not_elem_of_cons (H1 & H2 & H3). rewrite fupd_ne by done. auto.
Qed.

(** Any element can be seen as the head. *)
Lemma dlist_rotate h x l1 y l2 : dlist h x (l1 ++ y :: l2) -> dlist h y (l2 ++ x :: l1).
Proof.
  intros [Hnd Hl]. split.
  - assert (P : y :: l2 ++ x :: l1 ≡ₚ x :: l1 ++ y :: l2) by solve_Permutation. by rewrite P.
  - rewrite <- app_assoc in *. simpl in *. apply links_app in Hl as [H1 H2]. by apply links_app.
Qed.

Lemma dlist_links h x l : dlist h x l -> links h x (l ++ [x]).
Proof. by intros [_ ?]. Qed.

Lemma dlist_frame h h' x l :
  (forall z, z ∈ x :: l -> next h' z = next h z /\ prev h' z = prev h z) -> dlist h x l -> dlist h' x l.
Proof.
  intros He [Hnd Hl]. split; [done|].
  assert (G : forall z ys, z ∈ x :: l -> (forall y, y ∈ ys -> y ∈ x :: l) -> links h z ys -> links h' z ys).
  { intros z ys. revert z. induction ys as [|y ys IH]; intros z Hz Hys; simpl; [done|].
    intros (H1 & H2 & H3). destruct (He z Hz) as [-> _]. destruct (He y (Hys y ltac:(left))) as [_ ->].
    split; [done|]. split; [done|]. apply IH; [apply Hys; left|intros; apply Hys; by right|done]. }
  apply G; [left|set_solver|done].
Qed.

(** * The operations on one list *)

Lemma init_dlist x h : dlist (rt_list_init x h) x [].
Proof. split; [apply NoDup_singleton|]. simpl. by rewrite !fupd_eq. Qed.

Lemma insert_after_dlist h x l n :
  dlist h x l -> n ∉ x :: l -> dlist (rt_list_insert_after x n h) x (n :: l).
Proof.
  intros [Hnd Hl] Hn. pose proof Hn as [Hnx Hnl]%not_elem_of_cons.
  pose proof Hnd as [Hxl Hnd']%NoDup_cons.
  split; [apply NoDup_cons; split; [set_solver|by apply NoDup_cons]|].
  unfold rt_list_insert_after. destruct l as [|y l]; simpl in *.
  - destruct Hl as (E & _ & _). rewrite E. repeat split; ptr.
  - destruct Hl as (E & E2 & Hl). rewrite E.
    apply not_elem_of_cons in Hnl as [Hny Hnl]. apply not_elem_of_cons in Hxl as [Hxy Hxl].
    apply NoDup_cons in Hnd' as [Hyl _].
    split; [by rewrite fupd_eq|]. split; [by rewrite fupd_eq|].
    split; [by rewrite fupd_ne, fupd_eq|]. split; [by rewrite fupd_ne, fupd_eq|].
    apply links_set_prev; [set_solver|]. apply links_set_next; [set_solver|].
    apply links_set_next; [set_solver|]. apply links_set_prev; [set_solver|done].
Qed.

Lemma insert_before_after h x n :
  next h (prev h x) = x -> n <> x -> n <> prev h x ->
  same_nodes (rt_list_insert_after (prev h x) n h) (rt_list_insert_before x n h).
Proof.
  intros E Hx Hp. unfold rt_list_insert_before, rt_list_insert_after. simpl. rewrite E.
  split; intros z; ptr.
Qed.

Lemma dlist_same h h' x l : same_nodes h h' -> dlist h x l -> dlist h' x l.
Proof. intros H [Hnd Hl]. split; [done|]. by eapply links_same. Qed.

Lemma insert_before_dlist h x l n :
  dlist h x l -> n ∉ x :: l -> dlist (rt_list_insert_before x n h) x (l ++ [n]).
Proof.
  intros H Hn. destruct l as [|p l _] using rev_ind.
  - destruct (dlist_links _ _ _ H) as (E1 & E2 & _).
    eapply dlist_same; [apply insert_before_after; rewrite ?E2; [done|set_solver..]|].
    rewrite E2. by apply (insert_after_dlist h x []).
  - pose proof (dlist_links _ _ _ H) as Hl. rewrite <- app_assoc in Hl. apply links_app in Hl as [_ (E1 & E2 & _)].
    apply dlist_rotate in H. simpl in H.
    eapply dlist_same; [apply insert_before_after; rewrite ?E2; [done|set_solver..]|]. rewrite E2.
    apply (insert_after_dlist _ _ _ n) in H; [|set_solver].
    apply (dlist_rotate _ _ [n] x l) in H. by rewrite <- app_assoc.
Qed.

(** Removing the head of the cycle leaves the rest, and the node alone. *)
Lemma remove_rotated h n y l :
  dlist h n (y :: l) -> dlist (rt_list_remove n h) y l /\ dlist (rt_list_remove n h) n [].
Proof.
  intros [Hnd Hl]. apply NoDup_cons in Hnd as [Hn Hnd].
  apply not_elem_of_cons in Hn as [Hny Hn]. pose proof Hnd as [Hy Hnd']%NoDup_cons.
  split; [|split; [apply NoDup_singleton|simpl; by rewrite !fupd_eq]]. split; [done|].
  unfold rt_list_remove. destruct Hl as (E1 & E2 & Hl). rewrite E1.
  destruct l as [|z l _] using rev_ind.
  - simpl in *. destruct Hl as (E3 & E4 & _). rewrite fupd_ne, E4, E1 by done.
    repeat split; ptr.
  - simpl. rewrite <- app_assoc in Hl. apply links_app in Hl as [Hl (E3 & E4 & _)].
    rewrite fupd_ne, E4, E1 by done.
    rewrite <- app_assoc. apply links_app. split.
    + apply links_set_next; [set_solver|]. apply links_set_prev; [set_solver|].
      apply links_set_next; [|apply links_set_prev; [set_solver|done]].
      apply NoDup_app in Hnd' as (_ & Hd & _). intros Hin. set_solver.
    + simpl. assert (z <> n) by set_solver. repeat split; ptr.
Qed.

Lemma remove_dlist h x l1 n l2 :
  dlist h x (l1 ++ n :: l2) ->
  dlist (rt_list_remove n h) x (l1 ++ l2) /\ dlist (rt_list_remove n h) n [].
Proof.
  intros H%dlist_rotate. destruct l2 as [|y l2]; simpl in H.
  - rewrite app_nil_r. by apply remove_rotated in H.
  - apply remove_rotated in H as [H ?]. split; [|done]. by apply dlist_rotate in H.
Qed.

(** A node that is alone stays alone. *)
Lemma remove_alone h n : dlist h n [] -> same_nodes h (rt_list_remove n h).
Proof.
  intros [_ (E1 & E2 & _)]. unfold rt_list_remove. split; intros z; ptr.
Qed.

(** Outside a few nodes nothing changes. *)
Definition only_on (S : list A) (h h' : nodes A) : Prop :=
  forall z, z ∉ S -> next h' z = next h z /\ prev h' z = prev h z.

Lemma insert_after_only x n h : only_on [x; n; next h x] h (rt_list_insert_after x n h).
Proof. intros z Hz. rewrite !not_elem_of_cons in Hz. unfold rt_list_insert_after. destruct_and! Hz. split; ptr. Qed.

Lemma insert_before_only x n h : only_on [x; n; prev h x] h (rt_list_insert_before x n h).
Proof. intros z Hz. rewrite !not_elem_of_cons in Hz. unfold rt_list_insert_before. destruct_and! Hz. split; ptr. Qed.

Lemma remove_only n h : only_on [n; next h n; prev h n] h (rt_list_remove n h).
Proof. intros z Hz. rewrite !not_elem_of_cons in Hz. unfold rt_list_remove. destruct_and! Hz. split; ptr. Qed.

Lemma dlist_next h x l : dlist h x l -> next h x ∈ x :: l /\ (l <> [] -> next h x <> x).
Proof.
  intros [[Hx _]%NoDup_cons Hl]. destruct l as [|y l]; destruct Hl as (-> & _); [split; [left|done]|].
  split; [set_solver|]. intros _ ->. set_solver.
Qed.

Lemma dlist_prev h x l : dlist h x l -> prev h x ∈ x :: l.
Proof.
  intros [_ Hl]. destruct l as [|p l _] using rev_ind.
  - destruct Hl as (_ & -> & _). left.
  - rewrite <- app_assoc in Hl. apply links_app in Hl as [_ (_ & -> & _)]. set_solver.
Qed.

Lemma len_loop_spec h x l p len fuel :
  links h p (l ++ [x]) -> x ∉ l -> (length l < fuel)%nat ->
  rt_list_len_loop fuel x p len h = Some (match l with [] => len | _ => u32 (len + Z.of_nat (length l)) end).
Proof.
  revert p len fuel. induction l as [|y l IH]; intros p len [|fuel] Hl Hx Hf; simpl in Hf; try lia.
  - destruct Hl as (E & _). simpl. by rewrite decide_False by naive_solver.
  - destruct Hl as (E & _ & Hl). apply not_elem_of_cons in Hx as [Hxy Hx]. simpl.
    rewrite E, decide_True, (IH _ _ _ Hl Hx) by (congruence || lia). f_equal. destruct l as [|z l]; [done|].
    unfold u32, uwrap. rewrite Zplus_mod_idemp_l. f_equal. cbn [length]. lia.
Qed.

(** * Insertion and removal in other orders *)

(** Removal that leaves the pointers of the node as they are. *)
Definition unlink (n : A) (h : nodes A) : nodes A :=
  let h := set_prev (next h n) (prev h n) h in
  set_next (prev h n) (next h n) h.

Lemma unlink_dlist h x l1 n l2 : dlist h x (l1 ++ n :: l2) -> dlist (unlink n h) x (l1 ++ l2).
Proof.
  intros H. pose proof H as [Hnd _]. destruct (remove_dlist _ _ _ _ _ H) as [Hr _].
  eapply dlist_frame; [|exact Hr]. intros z Hz.
  assert (z <> n).
  { intros ->. assert (P : x :: l1 ++ n :: l2 ≡ₚ n :: x :: l1 ++ l2) by solve_Permutation.
    rewrite P in Hnd. by apply NoDup_cons in Hnd as [? _]. }
  unfold unlink, rt_list_remove. split; ptr.
Qed.

(** Insertion behind any node. *)
Lemma insert_mid_dlist h x l1 y l2 n :
  dlist h x (l1 ++ y :: l2) -> n ∉ x :: l1 ++ y :: l2 ->
  dlist (rt_list_insert_after y n h) x (l1 ++ y :: n :: l2).
Proof.
  intros H%dlist_rotate Hn. apply (insert_after_dlist _ _ _ n) in H; [|set_solver].
  change (dlist (rt_list_insert_after y n h) y ((n :: l2) ++ x :: l1)) in H.
  by apply dlist_rotate in H.
Qed.

Lemma dlist_ext h h' x l : dlist h x l -> same_nodes h h' -> dlist h' x l.
Proof. intros. by eapply dlist_same. Qed.

Lemma dlist_not_in h x l z : dlist h x l -> z ∉ x :: l -> forall v, dlist (set_next z v h) x l /\ dlist (set_prev z v h) x l.
Proof. intros H Hz v. split; (eapply dlist_frame; [|exact H]; intros y Hy; split; ptr). Qed.

End dlist.
