(* ===== verification/RtList.v ===== *)
(** The lists of threads of the kernel state (KState) are implemented by the circular
    doubly linked lists of include/rtservice.h (DList). *)
From S2P Require Import Prelude KState SchedUp DList.
#[local] Open Scope Z_scope.

(** A node is the [tlist] member of a thread or the head of a list. *)
Inductive node := NThread (t : tid) | NHead (l : lid).

#[global] Instance node_eq_dec : EqDecision node.
Proof. solve_decision. Defined.

(** * The lists of threads of the kernel *)

(** Every list of the kernel state is a circular list from its head, and a thread in
    no list has a node that points to itself. *)
Record repr (f : lid -> list tid) (h : nodes node) : Prop := mk_repr {
  rp_list : forall l, dlist h (NHead l) (NThread <$> f l);
  rp_disj : forall l1 l2 t, t ∈ f l1 -> t ∈ f l2 -> l1 = l2;
  rp_node : forall t, (exists l, t ∈ f l) \/ dlist h (NThread t) []
}.

Lemma in_nodes t l (ts : list tid) : NThread t ∈ NHead l :: (NThread <$> ts) <-> t ∈ ts.
Proof. rewrite elem_of_cons, list_elem_of_fmap. naive_solver. Qed.

Lemma head_in_nodes l l' (ts : list tid) : NHead l' ∈ NHead l :: (NThread <$> ts) <-> l' = l.
Proof. rewrite elem_of_cons, list_elem_of_fmap. naive_solver. Qed.

Lemma repr_insert f h h' S l t L :
  repr f h -> (forall l', t ∉ f l') -> L ≡ₚ t :: f l -> dlist h' (NHead l) (NThread <$> L) ->
  only_on S h h' -> (forall z, z ∈ S -> z = NThread t \/ z ∈ NHead l :: (NThread <$> f l)) ->
  repr (fupd l L f) h'.
Proof.
  intros [Rl Rd Rn] Ht HL Hd Ho HS.
  assert (Hin : forall l' x, x ∈ fupd l L f l' <-> x ∈ f l' \/ (l' = l /\ x = t)).
  { intros l' x. destruct (decide (l' = l)) as [->|]; [rewrite fupd_eq, HL|rewrite fupd_ne by done]; set_solver. }
  assert (Hout : forall l' x, l' <> l -> x ∈ f l' -> NThread x ∉ S).
  { intros l' x Hl' Hx [[= ->]|Hz%in_nodes]%HS; [by apply (Ht l')|]. by apply Hl', (Rd _ _ x). }
  split.
  - intros l'. destruct (decide (l' = l)) as [->|Hl']; [by rewrite fupd_eq|]. rewrite fupd_ne by done.
    eapply dlist_frame; [|apply Rl]. intros [x|l''] Hz; apply Ho.
    + apply in_nodes in Hz. by eapply Hout.
    + apply head_in_nodes in Hz as ->. intros [?|Hz%head_in_nodes]%HS; done.
  - intros l1 l2 x. rewrite !Hin. intros [H1|[-> ->]] [H2|[-> E]]; subst; try done; [by eapply Rd| |];
      by edestruct Ht.
  - intros x. destruct (decide (x = t)) as [->|Hx]; [left; exists l; rewrite Hin; auto|].
    destruct (Rn x) as [[l' Hl']|Ha]; [left; exists l'; rewrite Hin; auto|].
    destruct (decide (x ∈ f l)) as [Hi|Hni]; [left; exists l; rewrite Hin; auto|]. right.
    eapply dlist_frame; [|exact Ha]. intros z ->%list_elem_of_singleton. apply Ho.
    intros [?|Hz%in_nodes]%HS; [congruence|done].
Qed.

Lemma alone_not_in f h t l : repr f h -> dlist h (NThread t) [] -> t ∉ f l.
Proof.
  intros R [_ (E & _)] (l1 & l2 & Hl)%list_elem_of_split. pose proof (rp_list _ _ R l) as H.
  rewrite Hl, fmap_app, fmap_cons in H. apply dlist_rotate, dlist_next in H as [_ H].
  apply H; [|done]. by destruct (NThread <$> l2).
Qed.

Lemma repr_remove f h t : repr f h -> repr (list_unlink t f) (rt_list_remove (NThread t) h).
Proof.
  intros R. pose proof R as [Rl Rd Rn]. destruct (Rn t) as [[l Hl]|Ha].
  - pose proof (remove_only (NThread t) h) as Ho. pose proof (Rl l) as Hd.
    destruct (list_elem_of_split _ _ Hl) as (l1 & l2 & El). rewrite El, fmap_app, fmap_cons in Hd.
    pose proof (dlist_rotate _ _ _ _ _ Hd) as Hr.
    assert (HS : forall z, z ∈ [NThread t; next h (NThread t); prev h (NThread t)] ->
      z ∈ NHead l :: (NThread <$> f l)).
    { pose proof (dlist_next _ _ _ Hr) as [H1 _]. pose proof (dlist_prev _ _ _ Hr) as H2.
      rewrite El, fmap_app, fmap_cons. set_solver. }
    apply remove_dlist in Hd as [Hd1 Hd2]. split.
    + intros l'. destruct (decide (l' = l)) as [->|Hl'].
      * replace (list_unlink t f l) with (l1 ++ l2); [by rewrite fmap_app|]. unfold list_unlink.
        assert (Hnd : NoDup (f l)) by (apply (NoDup_fmap_1 NThread); destruct (Rl l) as [Hnd _];
          by apply NoDup_cons in Hnd as [_ ?]).
        rewrite El in Hnd |- *. apply NoDup_app in Hnd as (_ & Hd12 & Hnd2).
        apply NoDup_cons in Hnd2 as [Ht2 _].
        rewrite filter_app, filter_cons_False by (intros Ht; by apply Ht).
        rewrite !filter_all; [done|by intros x Hx ->|]. intros x Hx ->. apply (Hd12 t Hx). left.
      * rewrite list_unlink_id by (intros ?; by apply Hl', (Rd _ _ t)).
        eapply dlist_frame; [|apply Rl]. intros [x|l''] Hz; apply Ho; intros Hi%HS.
        -- apply in_nodes in Hz, Hi. by apply Hl', (Rd _ _ x).
        -- apply head_in_nodes in Hz, Hi. congruence.
    + intros l1' l2' x [_ H1]%list_unlink_in [_ H2]%list_unlink_in. by eapply Rd.
    + intros x. destruct (decide (x = t)) as [->|Hx]; [by right|].
      destruct (Rn x) as [[l' Hl']|Ha]; [left; exists l'; by apply list_unlink_in|].
      destruct (decide (x ∈ f l)) as [Hi|Hni]; [left; exists l; by apply list_unlink_in|]. right.
      eapply dlist_frame; [|exact Ha]. intros z ->%list_elem_of_singleton. apply Ho.
      by intros ?%HS%in_nodes.
  - pose proof (remove_alone _ _ Ha) as Hs.
    assert (Hid : forall l, list_unlink t f l = f l) by (intros l; by apply list_unlink_id, (alone_not_in f h)).
    split.
    + intros l. rewrite Hid. by eapply dlist_same.
    + intros l1 l2 x. rewrite !Hid. apply Rd.
    + intros x. destruct (Rn x) as [[l Hl]|Hx]; [left; exists l; by rewrite Hid|right].
      by eapply dlist_same.
Qed.

Lemma repr_insert_before f h l l1 u l2 t :
  repr f h -> (forall l', t ∉ f l') -> f l = l1 ++ u :: l2 ->
  repr (fupd l (l1 ++ t :: u :: l2) f) (rt_list_insert_before (NThread u) (NThread t) h).
Proof.
  intros R Ht El. pose proof (rp_list _ _ R l) as Hd.
  assert (Hn : NThread t ∉ NHead l :: (NThread <$> f l)) by (rewrite in_nodes; apply Ht).
  rewrite El, fmap_app, fmap_cons in Hd, Hn. pose proof (dlist_rotate _ _ _ _ _ Hd) as Hr.
  eapply repr_insert; [exact R|exact Ht| | |apply insert_before_only|].
  - rewrite El. solve_Permutation.
  - rewrite fmap_app, !fmap_cons. apply (insert_before_dlist _ _ _ (NThread t)) in Hr; [|set_solver].
    rewrite <- app_assoc in Hr. apply dlist_rotate in Hr. by rewrite <- app_assoc in Hr.
  - pose proof (dlist_prev _ _ _ Hr). rewrite El, fmap_app, fmap_cons. set_solver.
Qed.

Lemma repr_push_front f h l t :
  repr f h -> (forall l', t ∉ f l') ->
  repr (fupd l (t :: f l) f) (rt_list_insert_after (NHead l) (NThread t) h).
Proof.
  intros R Ht. pose proof (rp_list _ _ R l) as Hd.
  eapply repr_insert; [exact R|exact Ht|done| |apply insert_after_only|].
  - rewrite fmap_cons. apply insert_after_dlist; [done|]. by rewrite in_nodes.
  - pose proof (dlist_next _ _ _ Hd) as [? _]. set_solver.
Qed.

Lemma repr_push_back f h l t :
  repr f h -> (forall l', t ∉ f l') ->
  repr (fupd l (f l ++ [t]) f) (rt_list_insert_before (NHead l) (NThread t) h).
Proof.
  intros R Ht. pose proof (rp_list _ _ R l) as Hd.
  eapply repr_insert; [exact R|exact Ht|solve_Permutation| |apply insert_before_only|].
  - rewrite fmap_app. apply insert_before_dlist; [done|]. by rewrite in_nodes.
  - pose proof (dlist_prev _ _ _ Hd). set_solver.
Qed.

Lemma repr_isempty f h l : repr f h -> rt_list_isempty (NHead l) h = is_nil (f l).
Proof.
  intros R. pose proof (rp_list _ _ R l) as Hd. unfold rt_list_isempty.
  destruct (f l) as [|t ts]; [destruct Hd as [_ (E & _)]; by rewrite bool_decide_eq_true_2|].
  apply bool_decide_eq_false_2. by apply (dlist_next _ _ _ Hd).
Qed.

Lemma repr_len f h l fuel :
  repr f h -> (length (f l) < fuel)%nat ->
  rt_list_len fuel (NHead l) h = Some (u32 (Z.of_nat (length (f l)))).
Proof.
  intros R Hf. destruct (rp_list _ _ R l) as [[Hx _]%NoDup_cons Hl]. unfold rt_list_len.
  rewrite (len_loop_spec h (NHead l) (NThread <$> f l)); [|done|done|by rewrite length_fmap].
  by destruct (f l) as [|t ts]; [|simpl; rewrite length_fmap].
Qed.

(** the pointer operations of rtservice.h implement the lists of the kernel
    state.  When the nodes represent the lists of [k], inserting the node of an
    unlinked thread after or before a list head, or before a thread that is linked,
    removing the node of any thread, linked or not, and the tests for emptiness and
    length give exactly the effect and the result of the list operations with which
    the kernel state is modelled. *)
Lemma rt_list_refines k h :
  repr (k_list k) h ->
  (forall l t, (forall l', t ∉ k_list k l') ->
     wp (rt_list_push_front l t)
       (fun _ k' => repr (k_list k') (rt_list_insert_after (NHead l) (NThread t) h)) k /\
     wp (rt_list_push_back l t)
       (fun _ k' => repr (k_list k') (rt_list_insert_before (NHead l) (NThread t) h)) k /\
     forall l1 u l2, k_list k l = l1 ++ u :: l2 ->
       repr (fupd l (l1 ++ t :: u :: l2) (k_list k)) (rt_list_insert_before (NThread u) (NThread t) h)) /\
  (forall t, wp (rt_list_remove_thread t)
     (fun _ k' => repr (k_list k') (rt_list_remove (NThread t) h)) k) /\
  (forall l, rt_list_isempty (NHead l) h = is_nil (k_list k l) /\
     forall fuel, (length (k_list k l) < fuel)%nat ->
       rt_list_len fuel (NHead l) h = Some (u32 (Z.of_nat (length (k_list k l))))).
Proof.
  intros R. split; [|split].
  - intros l t Ht. split; [by apply wp_modify, repr_push_front|].
    split; [by apply wp_modify, repr_push_back|]. intros l1 u l2. by apply repr_insert_before.
  - intros t. by apply wp_modify, repr_remove.
  - intros l. split; [by apply repr_isempty|]. intros fuel. by apply repr_len.
Qed.

(** At start-up every head and every node points to itself. *)
Definition nodes0 : nodes node := mk_nodes (fun x => x) (fun x => x).

Lemma nodes0_repr : repr (k_list kernel0) nodes0.
Proof. split; [intros l|by intros l1 l2 t ?%elem_of_nil|intros t; right]; (split; [apply NoDup_singleton|done]). Qed.

Lemma rt_list_refines_witness :
  wp (rt_list_push_front (LReady 5) 1) (fun _ k' =>
    repr (k_list k') (rt_list_insert_after (NHead (LReady 5)) (NThread 1) nodes0)) kernel0.
Proof.
  destruct (rt_list_refines kernel0 nodes0 nodes0_repr) as [H _].
  apply (H (LReady 5) 1%positive). intros l' H'. by apply elem_of_nil in H'.
Defined.
