(* ===== verification/Object.v ===== *)
(** Kernel objects, src/object.c: the object containers by class, the [type]
    and [name] fields, attach and detach, and look-up by name.

    The heap behind [rt_object_allocate] and [rt_object_delete] is a parameter:
    the result of [RT_KERNEL_MALLOC] is an argument. *)
From S2P Require Import Prelude KState SchedUp.
#[local] Open Scope Z_scope.

Definition RT_NAME_MAX : nat := 12.
Definition RT_Object_Class_Null : Z := 0.

(** The classes [_object_container] has a row for in this configuration. *)
Definition _object_container : list Z :=
  [1; 2; 3; 4; 5; 6; 7; 8; 9; 10; 12; 16].

(** [rt_object_get_information]: the row is named by its class. *)
Definition rt_object_get_information (type : Z) : option Z :=
  let type := Z.land type (Z.lnot RT_Object_Class_Static) in
  if bool_decide (type ∈ _object_container) then Some type else None.

Definition rt_object_get_length (type : Z) : K Z :=
  match rt_object_get_information type with
  | None => mret 0
  | Some c =>
      rt_spin_lock_irqsave;;
      l ← gets (fun k => k_objs k c);
      rt_spin_unlock_irqrestore;;
      mret (Z.of_nat (length l))
  end.

(** The pointers copied out, at most [maxlen] of them. *)
Definition rt_object_get_pointers (type maxlen : Z) : K (list objref) :=
  if maxlen <=? 0 then mret [] else
  match rt_object_get_information type with
  | None => mret []
  | Some c =>
      rt_spin_lock_irqsave;;
      l ← gets (fun k => k_objs k c);
      rt_spin_unlock_irqrestore;;
      mret (take (Z.to_nat maxlen) l)
  end.

Definition set_type (o : objref) (type : Z) : K unit :=
  modify (fun k => set_k_type (fupd o type (k_type k)) k).

Definition set_name (o : objref) (name : list Z) : K unit :=
  modify (fun k => set_k_name (fupd o name (k_name k)) k).

Definition objs_push (c : Z) (o : objref) : K unit :=
  modify (fun k => set_k_objs (fupd c (o :: k_objs k c) (k_objs k)) k).

(** [rt_list_remove(&(object->list))]: out of whatever container holds it. *)
Definition objs_remove (o : objref) : K unit :=
  modify (fun k => set_k_objs (fun c => filter (fun x => x <> o) (k_objs k c)) k).

Definition rt_object_init (object : objref) (type : Z) (name : list Z) : K unit :=
  information ← deref (rt_object_get_information type);
  (* RT_USING_DEBUG: the object is not in the container yet *)
  rt_spin_lock_irqsave;;
  l ← gets (fun k => k_objs k information);
  RT_ASSERT (forallb (fun obj => bool_decide (obj <> object)) l);;
  rt_spin_unlock_irqrestore;;
  set_type object (Z.lor type RT_Object_Class_Static);;
  set_name object (take RT_NAME_MAX name);;
  rt_spin_lock_irqsave;;
  objs_push information object;;
  rt_spin_unlock_irqrestore.

Definition rt_object_detach (object : objref) : K unit :=
  ty ← gets (fun k => k_type k object);
  information ← deref (rt_object_get_information ty);
  rt_spin_lock_irqsave;;
  objs_remove object;;
  rt_spin_unlock_irqrestore;;
  set_type object 0.

(** [memory] is what [RT_KERNEL_MALLOC] returned. *)
Definition rt_object_allocate (type : Z) (name : list Z) (memory : option objref)
    : K (option objref) :=
  nest ← gets k_irq_nest;
  RT_ASSERT (nest =? 0);;
  information ← deref (rt_object_get_information type);
  match memory with
  | None => mret None
  | Some object =>
      set_type object type;;
      set_name object (take (RT_NAME_MAX - 1) name);;
      rt_spin_lock_irqsave;;
      objs_push information object;;
      rt_spin_unlock_irqrestore;;
      mret (Some object)
  end.

Definition rt_object_delete (object : objref) : K unit :=
  sys ← rt_object_is_systemobject object;
  RT_ASSERT (negb sys);;
  ty ← gets (fun k => k_type k object);
  information ← deref (rt_object_get_information ty);
  rt_spin_lock_irqsave;;
  objs_remove object;;
  rt_spin_unlock_irqrestore;;
  set_type object RT_Object_Class_Null.

(** [rt_strncmp(object->name, name, RT_NAME_MAX) == 0] on the stored name. *)
Definition name_match (stored name : list Z) : bool :=
  bool_decide (take RT_NAME_MAX stored = take RT_NAME_MAX name).

Definition rt_object_find (name : list Z) (type : Z) : K (option objref) :=
  match rt_object_get_information type with
  | None => mret None
  | Some c =>
      nest ← gets k_irq_nest;
      RT_ASSERT (nest =? 0);;
      rt_spin_lock_irqsave;;
      l ← gets (fun k => k_objs k c);
      names ← gets k_name;
      rt_spin_unlock_irqrestore;;
      mret (List.find (fun o => name_match (names o) name) l)
  end.
