(* ===== verification/TimerCore.v ===== *)
(** Timers, src/timer.c: the timer lists and the operations on one timer.

    [RT_TIMER_SKIP_LIST_LEVEL] is 1: a list of timers is one row.  A timer has
    one row node, so [_timer_remove] takes it out of whatever list holds it.
    [rt_timer_start] is in Timer.v (it releases a semaphore for soft timers). *)
From stdpp Require Import sorting.
From S2P Require Import Prelude KState SchedUp Object.
#[local] Open Scope Z_scope.

Definition tick_half : Z := RT_TICK_MAX / 2.

Definition flag_set (flag bit : Z) : bool := negb (Z.land flag bit =? 0).
Definition flag_clear (flag bit : Z) : Z := Z.land flag (Z.lnot bit).

Definition rt_tick_get : K Z := gets k_tick.

(** [_timerlock_idx] chooses between two spinlocks; on one core both are the
    scheduler lock, and the choice also names the list of the timer. *)
Definition tim_is_soft (tm : rt_timer) : bool := flag_set (tm_flag tm) RT_TIMER_FLAG_SOFT_TIMER.

(** * Lists of timers *)

(** [rt_list_remove(&timer->row[0])] *)
Definition tim_unlink (i : timid) (l : list timid) : list timid := filter (fun x => x <> i) l.

Definition _timer_remove (timer : timid) : K unit :=
  modify (fun k =>
    set_k_hard (tim_unlink timer (k_hard k)) (set_k_soft (tim_unlink timer (k_soft k))
      (set_k_htmp (tim_unlink timer (k_htmp k)) (set_k_stmp (tim_unlink timer (k_stmp k)) k)))).

Definition _timer_init (timer : timid) (timeout : timeout_func) (time flag : Z) : K unit :=
  upd_tim timer (fun tm =>
    set_tm_init_tick time (set_tm_timeout_tick 0 (set_tm_func timeout
      (set_tm_flag (flag_clear flag RT_TIMER_FLAG_ACTIVATED) tm))));;
  _timer_remove timer. (* rt_list_init of a node that is in no list *)

(** The tick of the first timer of a list; [None] is [-RT_ERROR]. *)
Definition _timer_list_next_timeout (soft : bool) : K (option Z) :=
  l ← gets (fun k => if soft then k_soft k else k_hard k);
  match l with
  | [] => mret None
  | i :: _ => tm ← tim i; mret (Some (tm_timeout_tick tm))
  end.

(** The walk of [_timer_start] along the row: past the timers that expire at the
    same tick or before, the differences taken modulo 2^32. *)
Fixpoint timer_insert (timeout_tick : timid -> Z) (x : timid) (l : list timid) : list timid :=
  match l with
  | [] => [x]
  | t :: r =>
      let d := u32 (timeout_tick t - timeout_tick x) in
      if d =? 0 then t :: timer_insert timeout_tick x r
      else if d <? tick_half then x :: t :: r
      else t :: timer_insert timeout_tick x r
  end.

Definition _timer_start (soft : bool) (timer : timid) : K Z :=
  tm ← tim timer;
  if flag_set (tm_flag tm) RT_TIMER_FLAG_PROCESSING then mret (- RT_ERROR) else
  _timer_remove timer;;
  upd_tim timer (fun tm => set_tm_flag (flag_clear (tm_flag tm) RT_TIMER_FLAG_ACTIVATED) tm);;
  now ← rt_tick_get;
  upd_tim timer (fun tm => set_tm_timeout_tick (u32 (now + tm_init_tick tm)) tm);;
  modify (fun k => set_k_random (u32 (k_random k + 1)) k);;
  ticks ← gets (fun k i => tm_timeout_tick (k_tim k i));
  modify (fun k => if soft then set_k_soft (timer_insert ticks timer (k_soft k)) k
                   else set_k_hard (timer_insert ticks timer (k_hard k)) k);;
  upd_tim timer (fun tm => set_tm_flag (Z.lor (tm_flag tm) RT_TIMER_FLAG_ACTIVATED) tm);;
  mret RT_EOK.

(** * Operations *)

Definition assert_timer (timer : timid) : K unit := assert_type (OTimer timer) RT_Object_Class_Timer.

Definition rt_timer_init (timer : timid) (name : list Z) (timeout : timeout_func)
    (time flag : Z) : K unit :=
  RT_ASSERT (time <? tick_half);;
  rt_object_init (OTimer timer) RT_Object_Class_Timer name;;
  _timer_init timer timeout time flag.

Definition timer_deactivate (timer : timid) : K unit :=
  _timer_remove timer;;
  upd_tim timer (fun tm => set_tm_flag (flag_clear (tm_flag tm) RT_TIMER_FLAG_ACTIVATED) tm).

Definition rt_timer_detach (timer : timid) : K Z :=
  assert_timer timer;;
  sys ← rt_object_is_systemobject (OTimer timer);
  RT_ASSERT sys;;
  rt_spin_lock_irqsave;;
  timer_deactivate timer;;
  rt_spin_unlock_irqrestore;;
  rt_object_detach (OTimer timer);;
  mret RT_EOK.

(** [memory] is the allocation made for the timer, if it succeeded. *)
Definition rt_timer_create (name : list Z) (timeout : timeout_func) (time flag : Z)
    (memory : option timid) : K (option timid) :=
  RT_ASSERT (time <? tick_half);;
  timer ← rt_object_allocate RT_Object_Class_Timer name (OTimer <$> memory);
  match timer, memory with
  | Some _, Some i => _timer_init i timeout time flag;; mret (Some i)
  | _, _ => mret None
  end.

Definition rt_timer_delete (timer : timid) : K Z :=
  assert_timer timer;;
  sys ← rt_object_is_systemobject (OTimer timer);
  RT_ASSERT (negb sys);;
  rt_spin_lock_irqsave;;
  timer_deactivate timer;;
  rt_spin_unlock_irqrestore;;
  rt_object_delete (OTimer timer);;
  mret RT_EOK.

Definition rt_timer_stop (timer : timid) : K Z :=
  assert_timer timer;;
  rt_spin_lock_irqsave;;
  tm ← tim timer;
  if negb (flag_set (tm_flag tm) RT_TIMER_FLAG_ACTIVATED) then
    rt_spin_unlock_irqrestore;; mret (- RT_ERROR)
  else
    timer_deactivate timer;;
    rt_spin_unlock_irqrestore;;
    mret RT_EOK.

(** The two fields [timeout_func] and [parameter]: the function ([None] is
    [_thread_timeout]) and the pointer passed to it. *)
Definition timeout_fields (f : timeout_func) : option Z * Z :=
  match f with TF_thread t => (None, Z.pos t) | TF_user fn parameter => (Some fn, parameter) end.
Definition timeout_of (fn : option Z) (parameter : Z) : timeout_func :=
  match fn with None => TF_thread (Z.to_pos parameter) | Some fn => TF_user fn parameter end.

(** [rt_timer_control]: the command with [arg] or the value behind it; the result is
    what the get commands store there. *)
Inductive timer_out := Out_value (v : Z) | Out_func (fn : option Z).

Inductive timer_cmd :=
  | RT_TIMER_CTRL_GET_TIME
  | RT_TIMER_CTRL_SET_TIME (tick : Z)
  | RT_TIMER_CTRL_SET_ONESHOT
  | RT_TIMER_CTRL_SET_PERIODIC
  | RT_TIMER_CTRL_GET_STATE
  | RT_TIMER_CTRL_GET_REMAIN_TIME
  | RT_TIMER_CTRL_GET_FUNC
  | RT_TIMER_CTRL_SET_FUNC (fn : option Z)
  | RT_TIMER_CTRL_GET_PARM
  | RT_TIMER_CTRL_SET_PARM (parameter : Z).

Definition rt_timer_control (timer : timid) (cmd : timer_cmd) : K (option timer_out) :=
  assert_timer timer;;
  rt_spin_lock_irqsave;;
  tm ← tim timer;
  r ← match cmd with
      | RT_TIMER_CTRL_GET_TIME => mret (Some (Out_value (tm_init_tick tm)))
      | RT_TIMER_CTRL_SET_TIME tick =>
          RT_ASSERT (tick <? tick_half);;
          (if flag_set (tm_flag tm) RT_TIMER_FLAG_ACTIVATED
           then timer_deactivate timer else mret tt);;
          upd_tim timer (set_tm_init_tick tick);;
          mret None
      | RT_TIMER_CTRL_SET_ONESHOT =>
          upd_tim timer (fun tm => set_tm_flag (flag_clear (tm_flag tm) RT_TIMER_FLAG_PERIODIC) tm);;
          mret None
      | RT_TIMER_CTRL_SET_PERIODIC =>
          upd_tim timer (fun tm => set_tm_flag (Z.lor (tm_flag tm) RT_TIMER_FLAG_PERIODIC) tm);;
          mret None
      | RT_TIMER_CTRL_GET_STATE =>
          mret (Some (Out_value
            (if flag_set (tm_flag tm) RT_TIMER_FLAG_ACTIVATED
             then RT_TIMER_FLAG_ACTIVATED else RT_TIMER_FLAG_DEACTIVATED)))
      | RT_TIMER_CTRL_GET_REMAIN_TIME => mret (Some (Out_value (tm_timeout_tick tm)))
      | RT_TIMER_CTRL_GET_FUNC => mret (Some (Out_func (fst (timeout_fields (tm_func tm)))))
      | RT_TIMER_CTRL_SET_FUNC fn =>
          upd_tim timer (fun tm => set_tm_func (timeout_of fn (snd (timeout_fields (tm_func tm)))) tm);;
          mret None
      | RT_TIMER_CTRL_GET_PARM => mret (Some (Out_value (snd (timeout_fields (tm_func tm)))))
      | RT_TIMER_CTRL_SET_PARM parameter =>
          upd_tim timer (fun tm => set_tm_func (timeout_of (fst (timeout_fields (tm_func tm))) parameter) tm);;
          mret None
      end;
  rt_spin_unlock_irqrestore;;
  mret r.

Definition rt_timer_next_timeout_tick : K Z :=
  rt_spin_lock_irqsave;;
  r ← _timer_list_next_timeout false;
  rt_spin_unlock_irqrestore;;
  mret (match r with Some t => t | None => RT_TICK_MAX end).

Definition rt_system_timer_init : K unit := modify (set_k_hard []).

(** * Order of a timer list

    Ticks are compared on the 32-bit circle: relative to a base tick [b], the
    distance of a timer is how far ahead its timeout lies. *)

Definition dist (b t : Z) : Z := u32 (t - b).

(** In timeout order from base [b], every timer less than half a turn ahead. *)
Record tsorted (b : Z) (ticks : timid -> Z) (l : list timid) : Prop := mk_tsorted {
  ts_sorted : StronglySorted (fun i j => dist b (ticks i) <= dist b (ticks j)) l;
  ts_window : Forall (fun i => dist b (ticks i) < tick_half) l
}.

(** The difference the walk tests, from the distances. *)
Lemma u32_dist b x y :
  u32 (x - y) = u32 (dist b x - dist b y).
Proof.
  unfold dist, u32, uwrap. rewrite <- Zminus_mod. f_equal. lia.
Qed.

Lemma walk_test b x y :
  dist b x < tick_half -> dist b y < tick_half ->
  (u32 (x - y) =? 0) = (dist b x =? dist b y) /\
  (u32 (x - y) <? tick_half) = (dist b y <=? dist b x).
Proof.
  intros Hx Hy. rewrite (u32_dist b).
  pose proof (u32_range (x - b)) as Rx. pose proof (u32_range (y - b)) as Ry.
  fold (dist b x) in Rx. fold (dist b y) in Ry.
  assert (tick_half = 2147483647) as Eh by done. rewrite Eh in *.
  destruct (decide (dist b y <= dist b x)).
  - rewrite u32_id by lia. split; lia.
  - replace (u32 (dist b x - dist b y)) with (dist b x - dist b y + 4294967296).
    + split; lia.
    + unfold u32, uwrap. rewrite <- (Z.mod_add _ 1) by done.
      rewrite Z.mod_small; change (2 ^ 32) with 4294967296; lia.
Qed.

(** The walk splits the list: what it passes expires no later, what it stops at
    expires strictly later. *)
Lemma timer_insert_split b ticks x l :
  tsorted b ticks l -> dist b (ticks x) < tick_half ->
  exists l1 l2, l = l1 ++ l2 /\ timer_insert ticks x l = l1 ++ x :: l2 /\
    Forall (fun i => dist b (ticks i) <= dist b (ticks x)) l1 /\
    Forall (fun i => dist b (ticks x) < dist b (ticks i)) l2.
Proof.
  intros [S Wn] Hx. induction l as [|t r IH]; [exists [], []; by repeat split|].
  apply StronglySorted_inv in S as [S1 S2]. apply Forall_cons in Wn as [Wt Wr].
  destruct (walk_test b (ticks t) (ticks x) Wt Hx) as [H1 H2].
  simpl. rewrite H1, H2.
  assert (Hpass : dist b (ticks t) <= dist b (ticks x) -> exists l1 l2,
    t :: r = l1 ++ l2 /\ t :: timer_insert ticks x r = l1 ++ x :: l2 /\
    Forall (fun i => dist b (ticks i) <= dist b (ticks x)) l1 /\
    Forall (fun i => dist b (ticks x) < dist b (ticks i)) l2).
  { intros Hle. destruct (IH S1 Wr) as (l1 & l2 & -> & -> & F1 & F2).
    exists (t :: l1), l2. repeat split; auto. }
  case_bool; [apply Hpass; lia|]. case_bool; [|apply Hpass; lia].
  exists [], (t :: r). repeat split; auto. constructor; [lia|].
  eapply Forall_impl; [exact S2|]. simpl. lia.
Qed.

Lemma timer_insert_sorted b ticks x l :
  tsorted b ticks l -> dist b (ticks x) < tick_half -> tsorted b ticks (timer_insert ticks x l).
Proof.
  intros T Hx. destruct (timer_insert_split b ticks x l T Hx) as (l1 & l2 & -> & -> & F1 & F2).
  destruct T as [S Wn]. apply StronglySorted_app in S as (Hc & S1 & S2).
  rewrite Forall_forall in F1, F2. apply Forall_app in Wn as [W1 W2].
  split.
  - apply StronglySorted_app. split; [|split; [done|]].
    + intros i j Hi [->|Hj]%elem_of_cons; [auto|]. by apply Hc.
    + apply StronglySorted_cons. split; [|done]. apply Forall_forall. intros j Hj.
      specialize (F2 j Hj). simpl in F2. lia.
  - apply Forall_app. split; [done|]. by constructor.
Qed.

Lemma timer_insert_perm ticks x l : timer_insert ticks x l ≡ₚ x :: l.
Proof.
  induction l as [|t r IH]; simpl; [done|].
  repeat case_bool; [|done|]; rewrite IH; constructor.
Qed.

Lemma timer_insert_ext f g x l :
  f x = g x -> (forall i, i ∈ l -> f i = g i) -> timer_insert f x l = timer_insert g x l.
Proof.
  intros Hx. induction l as [|t r IH]; simpl; [done|]. intros Hl.
  rewrite (Hl t) by left. rewrite Hx, IH; [done|]. intros; apply Hl; by right.
Qed.

Lemma tsorted_ext b f g l : (forall i, i ∈ l -> f i = g i) -> tsorted b f l -> tsorted b g l.
Proof.
  intros He [S Wn]. split.
  - induction S as [|i r S IH F]; [constructor|]. apply Forall_cons in Wn as [_ Wr].
    constructor; [apply IH; [intros; apply He; by right|done]|].
    rewrite Forall_forall in *. intros j Hj. rewrite <- !He; [auto|by right|left].
  - rewrite Forall_forall in *. intros i Hi. rewrite <- He by done. auto.
Qed.

Lemma tsorted_filter b f l (P : timid -> Prop) `{!forall i, Decision (P i)} :
  tsorted b f l -> tsorted b f (filter P l).
Proof.
  intros [S Wn]. split.
  - induction S as [|i r S IH F]; [constructor|]. apply Forall_cons in Wn as [_ Wr].
    rewrite filter_cons. case_decide; [|auto]. constructor; [auto|].
    rewrite Forall_forall in *. intros j [_ ?]%list_elem_of_filter. auto.
  - rewrite Forall_forall in *. intros i [_ ?]%list_elem_of_filter. auto.
Qed.

(** * Flags *)

Lemma flag_set_testbit f i : 0 <= i -> flag_set f (2 ^ i) = Z.testbit f i.
Proof.
  intros Hi. unfold flag_set. destruct (Z.testbit f i) eqn:E.
  - apply negb_true_iff, Z.eqb_neq. intros H0.
    assert (Z.testbit (Z.land f (2 ^ i)) i = false) as Hb by (rewrite H0; apply Z.bits_0).
    rewrite Z.land_spec, Z.pow2_bits_true, E in Hb by done. done.
  - apply negb_false_iff, Z.eqb_eq, Z.bits_inj'. intros j Hj.
    rewrite Z.bits_0, Z.land_spec. destruct (decide (i = j)) as [<-|]; [by rewrite E|].
    rewrite Z.pow2_bits_false by done. apply andb_false_r.
Qed.

Lemma flag_clear_testbit f i j : 0 <= i -> 0 <= j ->
  Z.testbit (flag_clear f (2 ^ i)) j = Z.testbit f j && negb (bool_decide (i = j)).
Proof. intros. unfold flag_clear. by rewrite Z.land_spec, Z.lnot_spec, testbit_pow2. Qed.

Lemma flag_or_testbit f i j : 0 <= i -> 0 <= j ->
  Z.testbit (Z.lor f (2 ^ i)) j = Z.testbit f j || bool_decide (i = j).
Proof. intros. by rewrite Z.lor_spec, testbit_pow2. Qed.

(** Rewrite every flag test to a bit test. *)
Lemma flag_activated f : flag_set f RT_TIMER_FLAG_ACTIVATED = Z.testbit f 0.
Proof. by apply (flag_set_testbit f 0). Qed.
Lemma flag_processing f : flag_set f RT_TIMER_FLAG_PROCESSING = Z.testbit f 1.
Proof. by apply (flag_set_testbit f 1). Qed.
Lemma flag_periodic f : flag_set f RT_TIMER_FLAG_PERIODIC = Z.testbit f 2.
Proof. by apply (flag_set_testbit f 2). Qed.
Lemma flag_soft f : flag_set f RT_TIMER_FLAG_SOFT_TIMER = Z.testbit f 3.
Proof. by apply (flag_set_testbit f 3). Qed.
Lemma flag_thread f : flag_set f RT_TIMER_FLAG_THREAD_TIMER = Z.testbit f 4.
Proof. by apply (flag_set_testbit f 4). Qed.
Lemma clear_activated f j : 0 <= j ->
  Z.testbit (flag_clear f RT_TIMER_FLAG_ACTIVATED) j = Z.testbit f j && negb (bool_decide (0 = j)).
Proof. by apply (flag_clear_testbit f 0). Qed.
Lemma clear_processing f j : 0 <= j ->
  Z.testbit (flag_clear f RT_TIMER_FLAG_PROCESSING) j = Z.testbit f j && negb (bool_decide (1 = j)).
Proof. by apply (flag_clear_testbit f 1). Qed.
Lemma or_activated f j : 0 <= j ->
  Z.testbit (Z.lor f RT_TIMER_FLAG_ACTIVATED) j = Z.testbit f j || bool_decide (0 = j).
Proof. by apply (flag_or_testbit f 0). Qed.
Lemma or_processing f j : 0 <= j ->
  Z.testbit (Z.lor f RT_TIMER_FLAG_PROCESSING) j = Z.testbit f j || bool_decide (1 = j).
Proof. by apply (flag_or_testbit f 1). Qed.

#[export] Hint Rewrite flag_activated flag_processing flag_periodic flag_soft flag_thread : rttw.
#[export] Hint Rewrite clear_activated clear_processing or_activated or_processing using lia : rttw.

(** * Effects of the operations *)

(** The object [o] is of class [cls]: what the type assertions check. *)
Definition typed (k : kernel) (o : objref) (cls : Z) : Prop :=
  Z.land (k_type k o) (Z.lnot RT_Object_Class_Static) = cls.

Lemma assert_type_wp Q k o cls : typed k o cls -> Q tt k -> wp (assert_type o cls) Q k.
Proof.
  intros Ht HQ. unfold assert_type, rt_object_get_type. do 3 wp_step; [|done].
  by apply Z.eqb_eq.
Qed.

(** The state after a timer has been taken out of its list and deactivated. *)
Definition tim_off (i : timid) (k : kernel) : kernel :=
  set_k_tim (fupd i (set_tm_flag (flag_clear (tm_flag (k_tim k i)) RT_TIMER_FLAG_ACTIVATED)
                       (k_tim k i)) (k_tim k))
    (set_k_hard (tim_unlink i (k_hard k)) (set_k_soft (tim_unlink i (k_soft k))
      (set_k_htmp (tim_unlink i (k_htmp k)) (set_k_stmp (tim_unlink i (k_stmp k)) k)))).

Lemma timer_deactivate_wp Q k i : Q tt (tim_off i k) -> wp (timer_deactivate i) Q k.
Proof. done. Qed.

Lemma kwf_tim_off k i : kwf k -> kwf (tim_off i k).
Proof. by apply kwf_ext. Qed.

Lemma tim_off_lock1 k i : unlock1 (tim_off i (lock1 k)) = tim_off i k.
Proof. by apply (unlock1_between (tim_off i)). Qed.

(** [rt_timer_stop]: an active timer is taken out and deactivated; otherwise
    [-RT_ERROR] and nothing but a possible reschedule. *)
Lemma rt_timer_stop_wp k i :
  kwf k -> 0 <= k_lock_nest k -> typed k (OTimer i) RT_Object_Class_Timer ->
  wp (rt_timer_stop i) (fun r k' =>
    if Z.testbit (tm_flag (k_tim k i)) 0
    then r = RT_EOK /\ unlocked (tim_off i k) k'
    else r = - RT_ERROR /\ unlocked k k') k.
Proof.
  intros Hk Hn Ht. unfold rt_timer_stop, assert_timer. wp_step.
  apply assert_type_wp; [done|]. wp_step. apply spin_lock_wp. unfold tim. do 2 wp_step.
  simpl. rewrite flag_activated. destruct (Z.testbit _ 0) eqn:E; cbn [negb].
  - wp_step. apply timer_deactivate_wp. wp_step. apply spin_unlock_wp.
    { by apply kwf_tim_off, kwf_nest. } { simpl. lia. }
    intros k'. rewrite tim_off_lock1. intros U. by wp_step.
  - wp_step. apply spin_unlock_wp.
    { by apply kwf_nest. } { simpl. lia. }
    intros k'. rewrite unlock1_lock1. intros U. by wp_step.
Qed.

(** The kernel state without the timers. *)
Definition ktimless (k : kernel) : kernel :=
  set_k_tim (k_tim kernel0) (set_k_hard [] (set_k_soft [] (set_k_htmp [] (set_k_stmp []
    (set_k_random 0 k))))).

(** What [_timer_start] does with a timer that is not being processed: it is
    ACTIVATED, expires [init_tick] from now and is in its list in order. *)
Record started (soft : bool) (i : timid) (k k' : kernel) : Prop := mk_started {
  st_other : forall j, j <> i -> k_tim k' j = k_tim k j;
  st_tim : k_tim k' i =
    set_tm_flag (Z.lor (flag_clear (tm_flag (k_tim k i)) RT_TIMER_FLAG_ACTIVATED)
                   RT_TIMER_FLAG_ACTIVATED)
      (set_tm_timeout_tick (u32 (k_tick k + tm_init_tick (k_tim k i))) (k_tim k i));
  st_hard : k_hard k' = if soft then tim_unlink i (k_hard k)
    else timer_insert (fun j => tm_timeout_tick (k_tim k' j)) i (tim_unlink i (k_hard k));
  st_soft : k_soft k' = if soft
    then timer_insert (fun j => tm_timeout_tick (k_tim k' j)) i (tim_unlink i (k_soft k))
    else tim_unlink i (k_soft k);
  st_htmp : k_htmp k' = tim_unlink i (k_htmp k);
  st_stmp : k_stmp k' = tim_unlink i (k_stmp k);
  st_rest : ktimless k' = ktimless k
}.

Lemma _timer_start_wp soft i k :
  Z.testbit (tm_flag (k_tim k i)) 1 = false ->
  wp (_timer_start soft i) (fun r k' => r = RT_EOK /\ started soft i k k') k.
Proof.
  intros Hp. unfold _timer_start, tim, rt_tick_get, upd_tim, _timer_remove.
  do 2 wp_step. rewrite flag_processing, Hp. repeat wp_step. split; [done|].
  destruct soft; split; simpl; rewrite ?fupd_eq; simpl; try done;
    try (intros j Hj; by rewrite !fupd_ne by done);
    (apply timer_insert_ext; [|intros j _]; unfold fupd; by repeat case_decide).
Qed.
