(* ===== verification/SchedComm.v ===== *)
(** Scheduling operations on a thread, src/scheduler_comm.c.

    [rt_sched_lock]/[rt_sched_unlock] of the uniprocessor build mask interrupts
    and have no counterpart; the [RT_SCHED_DEBUG_IS_LOCKED] checks are empty. *)
From S2P Require Import Prelude KState SchedUp Object TimerCore.
#[local] Open Scope Z_scope.

Definition rt_sched_thread_init_ctx (thread : tid) (tick priority : Z) : K unit :=
  upd_thr thread (set_t_stat RT_THREAD_INIT);;
  rt_sched_thread_init_priv thread tick priority.

Definition rt_sched_thread_timer_start (thread : tid) : K Z :=
  upd_thr thread (set_t_ttmr true);;
  mret RT_EOK.

Definition rt_sched_thread_timer_stop (thread : tid) : K Z :=
  th ← thr thread;
  if t_ttmr th then
    error ← rt_timer_stop (thread_timer thread);
    upd_thr thread (set_t_ttmr false);;
    mret error
  else mret RT_EOK.

Definition rt_sched_thread_get_stat (thread : tid) : K Z :=
  th ← thr thread; mret (Z.land (t_stat th) RT_THREAD_STAT_MASK).

Definition rt_sched_thread_get_curr_prio (thread : tid) : K Z :=
  th ← thr thread; mret (t_cur_prio th).

Definition rt_sched_thread_get_init_prio (thread : tid) : K Z :=
  th ← thr thread; mret (t_init_prio th).

Definition rt_sched_thread_is_suspended (thread : tid) : K bool :=
  th ← thr thread;
  mret (Z.land (t_stat th) RT_THREAD_SUSPEND_MASK =? RT_THREAD_SUSPEND_MASK).

Definition rt_sched_thread_close (thread : tid) : K Z :=
  upd_thr thread (set_t_stat RT_THREAD_CLOSE);;
  mret RT_EOK.

Definition rt_sched_thread_yield (thread : tid) : K Z :=
  upd_thr thread (fun th =>
    set_t_stat (Z.lor (t_stat th) RT_THREAD_STAT_YIELD)
      (set_t_remaining_tick (t_init_tick th) th));;
  mret RT_EOK.

Definition rt_sched_thread_ready (thread : tid) : K Z :=
  susp ← rt_sched_thread_is_suspended thread;
  if negb susp then mret (- RT_EINVAL) else
  th ← thr thread;
  error ← (if t_ttmr th then rt_sched_thread_timer_stop thread else mret RT_EOK);
  if error =? 0 then
    rt_list_remove_thread thread;;
    rt_sched_insert_thread thread;;
    mret error
  else mret error.

Definition rt_sched_tick_increase : K Z :=
  self ← rt_thread_self;
  thread ← deref self;
  upd_thr thread (fun th => set_t_remaining_tick (u32 (t_remaining_tick th - 1)) th);;
  th ← thr thread;
  (if negb (t_remaining_tick th =? 0) then mret tt
   else rt_sched_thread_yield thread;; rt_sched_unlock_n_resched);;
  mret RT_EOK.

Definition rt_sched_thread_change_priority (thread : tid) (priority : Z) : K Z :=
  RT_ASSERT (priority <? RT_THREAD_PRIORITY_MAX);;
  th ← thr thread;
  let setp := upd_thr thread (fun th =>
    set_t_mask (u32 (Z.shiftl 1 priority)) (set_t_cur_prio priority th)) in
  (if Z.land (t_stat th) RT_THREAD_STAT_MASK =? RT_THREAD_READY then
     rt_sched_remove_thread thread;;
     setp;;
     upd_thr thread (set_t_stat RT_THREAD_INIT);;
     rt_sched_insert_thread thread
   else setp);;
  mret RT_EOK.

(** * Invariants under a thread in transit *)

(** [curwf] with the thread [t] left out. *)
Record curwf_but (t : tid) (k : kernel) : Prop := mk_curwf_but {
  cb_not_ready : forall x, x <> t -> k_cur k = Some x -> tstat (k_thr k x) <> RT_THREAD_READY;
  cb_running : forall x, x <> t -> tstat (k_thr k x) = RT_THREAD_RUNNING -> k_cur k = Some x
}.

Lemma curwf_but_of k t : curwf k -> curwf_but t k.
Proof. intros [a b]. split; auto. Qed.

Lemma curwf_but_upd k t th : curwf_but t k -> curwf_but t (set_k_thr (fupd t th (k_thr k)) k).
Proof.
  intros [a b]. split; intros x Hx; simpl; rewrite fupd_ne by done; auto.
Qed.

Lemma curwf_of_but k t :
  curwf_but t k -> (k_cur k = Some t -> tstat (k_thr k t) <> RT_THREAD_READY) ->
  (tstat (k_thr k t) = RT_THREAD_RUNNING -> k_cur k = Some t) -> curwf k.
Proof.
  intros [a b] H1 H2. split; intros x; destruct (decide (x = t)) as [->|]; auto.
Qed.

(** Unlinking a thread that is not READY leaves the queue in order. *)
Lemma rqwf_unlink k t :
  rqwf None k -> tstat (k_thr k t) <> RT_THREAD_READY ->
  rqwf (Some t) (set_k_list (list_unlink t (k_list k)) k).
Proof.
  intros [nd dj out inn rdy pr mk gr gn] Hs.
  assert (Hr : forall p, list_unlink t (k_list k) (LReady p) = k_list k (LReady p)).
  { intros p. apply list_unlink_id. intros [? _]%inn. done. }
  split; simpl; auto.
  - intros l. by apply NoDup_filter.
  - intros l1 l2 x [_ H1]%list_unlink_in [_ H2]%list_unlink_in. eauto.
  - intros x l [= <-] [? _]%list_unlink_in. done.
  - intros l x [_ Hx]%list_unlink_in. auto.
  - intros x Hx Hst. rewrite Hr. by apply rdy.
  - intros p Hp. rewrite Hr. auto.
Qed.

(** Inserting the thread in transit restores the kernel invariant. *)
Lemma insert_kwf k t :
  rqwf (Some t) k -> curwf_but t k ->
  0 <= t_cur_prio (k_thr k t) < RT_THREAD_PRIORITY_MAX ->
  t_mask (k_thr k t) = 2 ^ t_cur_prio (k_thr k t) ->
  wp (rt_sched_insert_thread t) (fun _ k' => kwf k' /\ k_cur k' = k_cur k /\
     (forall l, (forall p, l <> LReady p) -> k_list k' l = k_list k l) /\
     krest k' = krest k /\
     (forall x, x <> t -> k_thr k' x = k_thr k x) /\
     k_thr k' t = with_stat (if decide (k_cur k = Some t) then RT_THREAD_RUNNING
                             else RT_THREAD_READY) (k_thr k t)) k.
Proof.
  intros W C Hp Hm. case_decide as Hcur.
  - unfold rt_sched_insert_thread, upd_thr. do 2 wp_step. rewrite decide_True by done. wp_step.
    set (th := with_stat _ _).
    assert (Hst : tstat th = RT_THREAD_RUNNING) by (by apply tstat_with_stat).
    pose proof (rqwf_transit_upd t th _ W) as W'. pose proof (curwf_but_upd k t th C) as C'.
    split; [split|].
    + apply (rqwf_end t); simpl; rewrite ?fupd_eq; auto. stat_lia.
    + apply (curwf_of_but _ t C'); simpl; rewrite ?fupd_eq; [stat_lia|done].
    + simpl. repeat split; auto; [intros x ?; by rewrite fupd_ne|by rewrite fupd_eq].
  - eapply wp_mono; [by apply insert_thread_wp|]. intros _ k' (W' & g & q & -> & _).
    assert (Hst : tstat (with_stat RT_THREAD_READY (k_thr k t)) = RT_THREAD_READY)
      by (by apply tstat_with_stat).
    split; [split; [done|]|].
    + apply (curwf_of_but _ t); [|done|simpl; rewrite fupd_eq; stat_lia].
      destruct C as [a b]. split; intros x Hx; simpl; rewrite fupd_ne by done; auto.
    + simpl. repeat split; auto.
      * intros l Hl. by rewrite fupd_ne.
      * intros x ?. by rewrite fupd_ne.
      * by rewrite fupd_eq.
Qed.

(** * [rt_sched_thread_ready] *)

(** The SUSPEND bit of [stat] is set for the suspended states, 4 to 7. *)
Lemma suspend_test s :
  (Z.land s RT_THREAD_SUSPEND_MASK =? RT_THREAD_SUSPEND_MASK) = (4 <=? Z.land s RT_THREAD_STAT_MASK).
Proof.
  unfold RT_THREAD_SUSPEND_MASK, RT_THREAD_STAT_MASK. replace (Z.land s 4) with (Z.land (Z.land s 7) 4).
  2:{ by rewrite <- Z.land_assoc. }
  rewrite land_7. pose proof (Z.mod_pos_bound s 8 ltac:(lia)) as Hr.
  remember (s mod 8) as m. clear Heqm s.
  assert (m = 0 \/ m = 1 \/ m = 2 \/ m = 3 \/ m = 4 \/ m = 5 \/ m = 6 \/ m = 7) as H by lia.
  by destruct H as [->|[->|[->|[->|[->|[->|[->| ->]]]]]]].
Qed.

Definition suspended (th : rt_thread) : Prop := RT_THREAD_SUSPEND_MASK <= tstat th.

(** Thread and timer state apart, the objects and the tick. *)
Definition kobj (k : kernel) : kernel := ktimless (krest k).

(** The timers after a thread's timer has been stopped if it was set. *)
Definition quiet (t : tid) (k : kernel) : kernel :=
  if t_ttmr (k_thr k t) then tim_off (thread_timer t) k else k.

(** Timer tables and lists agree. *)
Record same_timers (k k' : kernel) : Prop := mk_same_timers {
  tm_tim : k_tim k' = k_tim k;
  tm_hard : k_hard k' = k_hard k;
  tm_soft : k_soft k' = k_soft k;
  tm_htmp : k_htmp k' = k_htmp k;
  tm_stmp : k_stmp k' = k_stmp k
}.

(** The control block of a resumed thread: its timer mark cleared, its error
    set unless [e] is negative. *)
Definition wake (e : Z) (th : rt_thread) : rt_thread :=
  let th := set_t_ttmr false th in if 0 <=? e then set_t_error e th else th.

(** The thread [t] was suspended in [k] and has been made runnable in [k'], with
    error [e]. *)
Record resumed (e : Z) (t : tid) (k k' : kernel) : Prop := mk_resumed {
  rs_other : forall x, x <> t -> th_frame (k_thr k x) (k_thr k' x);
  rs_self : k_thr k' t = set_t_stat (t_stat (k_thr k' t)) (wake e (k_thr k t));
  rs_active : active (k_thr k' t);
  rs_list : forall l, (forall p, l <> LReady p) -> k_list k' l = list_unlink t (k_list k) l;
  rs_timers : same_timers (quiet t k) k';
  rs_obj : kobj k' = kobj k;
  rs_cur : is_Some (k_cur k) -> is_Some (k_cur k');
  rs_locked : k_lock_nest k <> 0 -> k_cur k' = k_cur k /\
    forall x, x <> t -> k_thr k' x = k_thr k x
}.

(** Its timer has expired but its timeout function has not run yet: the thread
    stays suspended, with its timer mark cleared. *)
Record resume_raced (t : tid) (k k' : kernel) : Prop := mk_resume_raced {
  rr_other : forall x, x <> t -> th_frame (k_thr k x) (k_thr k' x);
  rr_self : th_frame (set_t_ttmr false (k_thr k t)) (k_thr k' t);
  rr_list : forall l, (forall p, l <> LReady p) -> k_list k' l = k_list k l;
  rr_rest : krest k' = krest k;
  rr_cur : is_Some (k_cur k) -> is_Some (k_cur k')
}.

Lemma kwf_upd_thr k t f :
  (forall th, tstat (f th) = tstat th /\ t_cur_prio (f th) = t_cur_prio th /\
     t_mask (f th) = t_mask th) ->
  kwf k -> kwf (set_k_thr (fupd t (f (k_thr k t)) (k_thr k)) k).
Proof.
  intros Hf [W C]. assert (Heq : forall x, let th := fupd t (f (k_thr k t)) (k_thr k) x in
    tstat th = tstat (k_thr k x) /\ t_cur_prio th = t_cur_prio (k_thr k x) /\
    t_mask th = t_mask (k_thr k x)).
  { intros x. simpl. destruct (decide (x = t)) as [->|]; [rewrite fupd_eq|rewrite fupd_ne]; auto. }
  split.
  - eapply rqwf_ext; [..|exact W]; [done|done|]. intros x _. simpl.
    destruct (Heq x) as (-> & -> & ->). auto.
  - eapply curwf_ext; [..|exact C]; [done|]. intros x. simpl. by destruct (Heq x).
Qed.

(** The tail of [rt_sched_thread_ready]: out of the suspend list, into the
    ready queue. *)
Lemma ready_tail_wp k t :
  kwf k -> suspended (k_thr k t) ->
  wp (rt_list_remove_thread t;; rt_sched_insert_thread t) (fun _ k' => kwf k' /\
     k_cur k' = k_cur k /\
     (forall l, (forall p, l <> LReady p) -> k_list k' l = list_unlink t (k_list k) l) /\
     krest k' = krest k /\
     (forall x, x <> t -> k_thr k' x = k_thr k x) /\
     k_thr k' t = set_t_stat (t_stat (k_thr k' t)) (k_thr k t) /\ active (k_thr k' t)) k.
Proof.
  intros [W C] Hs. wp_step. unfold rt_list_remove_thread. wp_step.
  assert (W1 : rqwf (Some t) (set_k_list (list_unlink t (k_list k)) k))
    by (apply rqwf_unlink; [done|unfold suspended in *; stat_lia]).
  eapply wp_mono; [apply insert_kwf; [done|by apply curwf_but_of; eapply curwf_ext; [..|exact C]| |]|].
  - by apply (rq_prio _ _ W).
  - apply (rq_mask _ _ W); [done|unfold suspended in *; simpl; stat_lia].
  - intros _ k' (Hk' & Hc & Hl & Hr & Ho & Ht). simpl in *.
    do 5 (split; [done|]). rewrite Ht.
    split; [done|]. case_decide; [right|left]; by apply tstat_with_stat.
Qed.

Lemma kobj_sched k k' : krest k' = krest k -> kobj k' = kobj k.
Proof. intros H. unfold kobj. by rewrite H. Qed.

Lemma same_timers_rest k k' : krest k' = krest k -> same_timers k k'.
Proof.
  intros H. split; [exact (f_equal k_tim H)|exact (f_equal k_hard H)|exact (f_equal k_soft H)
    |exact (f_equal k_htmp H)|exact (f_equal k_stmp H)].
Qed.

Lemma kobj_tim_off i k : kobj (tim_off i k) = kobj k.
Proof. done. Qed.

Lemma suspended_frame k k' t :
  sched_frame k k' -> suspended (k_thr k t) -> suspended (k_thr k' t).
Proof.
  intros F Hs. unfold suspended in *. rewrite (sf_not_active F t); [done|].
  unfold active. stat_lia.
Qed.

Lemma list_unlink_ext t f g l : f l = g l -> list_unlink t f l = list_unlink t g l.
Proof. unfold list_unlink. by intros ->. Qed.

(** [resumed] composed of stopping the timer, a reschedule and the requeue. *)
Lemma resumed_compose t k km k1 k' :
  (km = k \/ km = tim_off (thread_timer t) k) -> km = quiet t k ->
  unlocked km k1 ->
  k_cur k' = k_cur k1 ->
  (forall l, (forall p, l <> LReady p) -> k_list k' l = list_unlink t (k_list k1) l) ->
  krest k' = krest k1 ->
  (forall x, x <> t -> k_thr k' x = k_thr k1 x) ->
  k_thr k' t = set_t_stat (t_stat (k_thr k' t)) (set_t_ttmr false (k_thr k1 t)) ->
  active (k_thr k' t) ->
  resumed (-1) t k k'.
Proof.
  intros Hkm Hq U Hc Hl Hr Ho Ht Ha.
  assert (Hthr : k_thr km = k_thr k) by (by destruct Hkm as [->| ->]).
  assert (Hlst : k_list km = k_list k) by (by destruct Hkm as [->| ->]).
  assert (Hcur : k_cur km = k_cur k) by (by destruct Hkm as [->| ->]).
  assert (Hnst : k_lock_nest km = k_lock_nest k) by (by destruct Hkm as [->| ->]).
  assert (Hob : kobj km = kobj k) by (by destruct Hkm as [->| ->]).
  pose proof (un_frame _ _ U) as F. split.
  - intros x Hx. rewrite Ho by done. rewrite <- Hthr. apply (sf_thr _ _ F).
  - rewrite Ht. destruct (sf_thr _ _ F t) as [E _]. rewrite E, Hthr. done.
  - done.
  - intros l Hnr. rewrite Hl by done. apply list_unlink_ext.
    rewrite (sf_list _ _ F) by done. by rewrite Hlst.
  - rewrite <- Hq. apply same_timers_rest. rewrite Hr. apply (sf_rest _ _ F).
  - rewrite <- Hob. apply kobj_sched. rewrite Hr. apply (sf_rest _ _ F).
  - rewrite Hc, <- Hcur. apply (un_cur _ _ U).
  - rewrite <- Hnst. intros Hn. rewrite (un_same _ _ U) in Ho, Hc by auto.
    split; [congruence|]. intros x Hx. rewrite Ho by done. by rewrite Hthr.
Qed.

Lemma suspended_upd t f k :
  (forall th, tstat (f th) = tstat th) -> suspended (k_thr k t) ->
  suspended (fupd t (f (k_thr k t)) (k_thr k) t).
Proof. intros Hf Hs. unfold suspended. by rewrite fupd_eq, Hf. Qed.

(** Success: the thread was suspended and its timer, if set, is still active. *)
Lemma ready_ok_wp k t :
  kwf k -> 0 <= k_lock_nest k -> suspended (k_thr k t) ->
  (t_ttmr (k_thr k t) = true ->
     typed k (OTimer (thread_timer t)) RT_Object_Class_Timer /\
     Z.testbit (tm_flag (k_tim k (thread_timer t))) 0 = true) ->
  wp (rt_sched_thread_ready t) (fun r k' => r = RT_EOK /\ kwf k' /\ resumed (-1) t k k') k.
Proof.
  intros Hk Hn Hs Htm. unfold rt_sched_thread_ready, rt_sched_thread_is_suspended, thr.
  do 4 wp_step. rewrite suspend_test. fold (tstat (k_thr k t)).
  case_bool; [unfold suspended in Hs; stat_lia|]. do 2 wp_step.
  destruct (t_ttmr (k_thr k t)) eqn:Ett.
  - destruct (Htm eq_refl) as [Hty Hact].
    unfold rt_sched_thread_timer_stop, thr. do 3 wp_step. rewrite Ett. wp_step.
    eapply wp_mono; [by apply rt_timer_stop_wp|]. intros r k1. rewrite Hact. intros [-> U].
    unfold upd_thr. do 3 wp_step. cbn [Z.eqb].
    pose proof (suspended_frame _ _ t (un_frame _ _ U) Hs) as Hs1.
    change (RT_EOK =? 0) with true. cbn iota.
    wp_step. unfold rt_list_remove_thread. wp_step. wp_step.
    pose proof (ready_tail_wp (set_k_thr (fupd t (set_t_ttmr false (k_thr k1 t)) (k_thr k1)) k1) t
      (kwf_upd_thr k1 t (set_t_ttmr false) ltac:(done) (un_wf _ _ U))
      (suspended_upd t (set_t_ttmr false) k1 ltac:(done) Hs1)) as Htail.
    apply wp_bind_inv in Htail. unfold rt_list_remove_thread in Htail.
    eapply wp_mono; [exact Htail|]. simpl. intros _ k' (Hk' & Hc & Hl & Hr & Ho & Ht & Ha).
    wp_step. rewrite fupd_eq in Ht. split; [done|]. split; [done|].
    apply (resumed_compose t k (tim_off (thread_timer t) k) k1); auto.
    + unfold quiet. by rewrite Ett.
    + intros x Hx. rewrite Ho by done. by rewrite fupd_ne.
  - wp_step. wp_step. change (RT_EOK =? 0) with true. cbn iota. wp_step.
    pose proof (ready_tail_wp k t Hk Hs) as Htail. apply wp_bind_inv in Htail.
    eapply wp_mono; [exact Htail|]. intros [] k1 Hins. wp_step.
    eapply wp_mono; [exact Hins|]. simpl. intros _ k' (Hk' & Hc & Hl & Hr & Ho & Ht & Ha).
    wp_step. split; [done|]. split; [done|].
    assert (Htt : set_t_ttmr false (k_thr k t) = k_thr k t)
      by (destruct (k_thr k t); simpl in *; by subst).
    split; auto.
    + intros x Hx. by rewrite Ho.
    + unfold wake. simpl. by rewrite Htt.
    + unfold quiet. rewrite Ett. by apply same_timers_rest.
    + by apply kobj_sched.
    + by rewrite Hc.
Qed.

Lemma ready_not_suspended_wp k t :
  ~ suspended (k_thr k t) ->
  wp (rt_sched_thread_ready t) (fun r k' => r = - RT_EINVAL /\ k' = k) k.
Proof.
  intros Hs. unfold rt_sched_thread_ready, rt_sched_thread_is_suspended, thr.
  do 4 wp_step. rewrite suspend_test. fold (tstat (k_thr k t)).
  case_bool; [by wp_step|]. unfold suspended in Hs. stat_lia.
Qed.

(** The race with an expired timer: [-RT_ERROR], and the thread stays where it is. *)
Lemma ready_raced_wp k t :
  kwf k -> 0 <= k_lock_nest k -> suspended (k_thr k t) -> t_ttmr (k_thr k t) = true ->
  typed k (OTimer (thread_timer t)) RT_Object_Class_Timer ->
  Z.testbit (tm_flag (k_tim k (thread_timer t))) 0 = false ->
  wp (rt_sched_thread_ready t) (fun r k' => r = - RT_ERROR /\ kwf k' /\ resume_raced t k k') k.
Proof.
  intros Hk Hn Hs Ett Hty Hact. unfold rt_sched_thread_ready, rt_sched_thread_is_suspended, thr.
  do 4 wp_step. rewrite suspend_test. fold (tstat (k_thr k t)).
  case_bool; [unfold suspended in Hs; stat_lia|]. do 2 wp_step. rewrite Ett.
  unfold rt_sched_thread_timer_stop, thr. do 3 wp_step. rewrite Ett. wp_step.
  eapply wp_mono; [by apply rt_timer_stop_wp|]. intros r k1. rewrite Hact. intros [-> U].
  unfold upd_thr. do 3 wp_step. change (- RT_ERROR =? 0) with false. cbn iota. wp_step.
  pose proof (un_frame _ _ U) as F. split; [done|].
  split; [apply (kwf_upd_thr k1 t (set_t_ttmr false)); [done|apply U]|].
  split; simpl.
  - intros x Hx. rewrite fupd_ne by done. apply (sf_thr _ _ F).
  - rewrite fupd_eq. destruct (sf_thr _ _ F t) as [Es Hst]. split; [by rewrite Es|done].
  - intros l Hl. by apply (sf_list _ _ F).
  - apply (sf_rest _ _ F).
  - apply (un_cur _ _ U).
Qed.

(** * Priority change *)

Lemma shiftl_1 p : 0 <= p < RT_THREAD_PRIORITY_MAX -> u32 (Z.shiftl 1 p) = 2 ^ p.
Proof.
  intros Hp. unfold RT_THREAD_PRIORITY_MAX in Hp. rewrite Z.shiftl_1_l. apply u32_id.
  split; [apply Z.pow_nonneg; lia|]. change 4294967296 with (2 ^ 32). apply Z.pow_lt_mono_r; lia.
Qed.

(** [rt_sched_thread_change_priority]: only the priority of [t] changes, a READY
    thread moving to the queue of its new priority. *)
Lemma change_priority_wp k t p :
  kwf k -> 0 <= p < RT_THREAD_PRIORITY_MAX ->
  wp (rt_sched_thread_change_priority t p) (fun r k' => r = RT_EOK /\ kwf k' /\
     k_cur k' = k_cur k /\ krest k' = krest k /\
     (forall l, (forall p, l <> LReady p) -> k_list k' l = k_list k l) /\
     (forall x, x <> t -> k_thr k' x = k_thr k x) /\
     tstat (k_thr k' t) = tstat (k_thr k t) /\
     k_thr k' t = set_t_stat (t_stat (k_thr k' t))
       (set_t_mask (2 ^ p) (set_t_cur_prio p (k_thr k t)))) k.
Proof.
  intros [W C] Hp. unfold rt_sched_thread_change_priority, thr. rewrite shiftl_1 by done.
  do 2 wp_step; [by apply Z.ltb_lt, Hp|]. do 2 wp_step. fold (tstat (k_thr k t)).
  wp_step. case_bool.
  - wp_step. eapply wp_mono; [apply (remove_thread_wp None)|]; auto.
    { by apply (rq_prio _ _ W). } { apply (rq_mask _ _ W); [done|stat_lia]. }
    intros _ k1 [W1 [g ->]]. unfold upd_thr. do 4 wp_step.
    set (k2 := set_k_thr _ _).
    assert (W2 : rqwf (Some t) k2) by (by do 2 apply rqwf_transit_upd).
    assert (C2 : curwf_but t k2).
    { do 2 apply curwf_but_upd. destruct C as [a b]. split; simpl; auto. }
    assert (Hth : k_thr k2 t = set_t_stat RT_THREAD_INIT
      (set_t_mask (2 ^ p) (set_t_cur_prio p (k_thr k t)))) by (simpl; by rewrite !fupd_eq).
    eapply wp_mono; [apply insert_kwf; [done|done|by rewrite Hth|by rewrite Hth]|].
    intros _ k' (Hk' & Hc & Hl & Hr & Ho & Ht). wp_step.
    assert (Hcur : k_cur k2 <> Some t) by (intros Hcc; by apply (cur_not_ready _ C t)).
    rewrite decide_False in Ht by done. do 4 (split; [done|]). split; [|split].
    + intros l Hnr. rewrite Hl by done. simpl. apply list_unlink_id.
      intros Hin%(rq_in _ _ W). destruct l; simpl in Hin; [by eapply Hnr|stat_lia..].
    + intros x Hx. rewrite Ho by done. simpl. by rewrite !fupd_ne.
    + split; [|by rewrite Ht, Hth]. rewrite Ht. rewrite tstat_with_stat by done. done.
  - unfold upd_thr. do 2 wp_step. simpl. set (th := set_t_mask _ _).
    split; [done|]. split; [split|].
    + destruct W as [nd dj out inn rdy pr mk gr gn]. split; simpl; auto.
      * intros l x Hin. pose proof (inn l x Hin) as Hok.
        destruct (decide (x = t)) as [->|]; [|by rewrite fupd_ne]. rewrite fupd_eq.
        destruct l; simpl in *; [naive_solver|done..].
      * intros x _. destruct (decide (x = t)) as [->|]; [rewrite fupd_eq|rewrite fupd_ne]; auto.
        intros Hrd. by destruct E.
      * intros x _. destruct (decide (x = t)) as [->|]; [rewrite fupd_eq|rewrite fupd_ne]; auto.
      * intros x _. destruct (decide (x = t)) as [->|]; [rewrite fupd_eq|rewrite fupd_ne]; auto.
    + eapply curwf_ext; [..|exact C]; [done|]. intros x. simpl.
      destruct (decide (x = t)) as [->|]; [by rewrite fupd_eq|by rewrite fupd_ne].
    + do 3 (split; [done|]). rewrite fupd_eq. split; [intros x ?; by rewrite fupd_ne|]. done.
Qed.

(** * Yield and time slices *)

Lemma tstat_or_yield th : tstat (set_t_stat (Z.lor (t_stat th) RT_THREAD_STAT_YIELD) th) = tstat th.
Proof.
  unfold tstat. simpl. rewrite Z.land_lor_distr_l.
  change (Z.land RT_THREAD_STAT_YIELD RT_THREAD_STAT_MASK) with 0. apply Z.lor_0_r.
Qed.

(** [rt_sched_thread_yield] sets the yield flag and reloads the time slice. *)
Lemma thread_yield_wp k t :
  kwf k ->
  wp (rt_sched_thread_yield t) (fun r k' => r = RT_EOK /\ kwf k' /\ k_cur k' = k_cur k /\
    krest k' = krest k /\ (forall l, k_list k' l = k_list k l) /\
    (forall x, x <> t -> k_thr k' x = k_thr k x) /\
    k_thr k' t = set_t_stat (Z.lor (t_stat (k_thr k t)) RT_THREAD_STAT_YIELD)
                   (set_t_remaining_tick (t_init_tick (k_thr k t)) (k_thr k t))) k.
Proof.
  intros Hk. unfold rt_sched_thread_yield, upd_thr. do 3 wp_step. split; [done|].
  split; [|simpl; rewrite fupd_eq; split; [done|]; split; [done|]; split; [done|]; split; [|done];
           intros x ?; by rewrite fupd_ne].
  apply (kwf_upd_thr k t (fun th => set_t_stat (Z.lor (t_stat th) RT_THREAD_STAT_YIELD)
      (set_t_remaining_tick (t_init_tick th) th))); [|done].
  intros th. split; [|done]. exact (tstat_or_yield (set_t_remaining_tick (t_init_tick th) th)).
Qed.

(** [rt_sched_tick_increase] keeps the kernel well formed on every tick. *)
Lemma tick_increase_wp k c :
  kwf k -> k_cur k = Some c ->
  wp rt_sched_tick_increase (fun r k' => r = RT_EOK /\ kwf k' /\ krest k' = krest k /\
    is_Some (k_cur k') /\
    (forall l, (forall p, l <> LReady p) -> k_list k' l = k_list k l)) k.
Proof.
  intros Hk Hc. unfold rt_sched_tick_increase, rt_thread_self, upd_thr, thr. do 3 wp_step.
  eapply wp_deref; [exact Hc|]. do 4 wp_step. simpl. rewrite fupd_eq. simpl.
  set (k1 := set_k_thr _ k). assert (Hk1 : kwf k1).
  { by apply (kwf_upd_thr k c (fun th => set_t_remaining_tick (u32 (t_remaining_tick th - 1)) th)). }
  wp_step. case_bool.
  - do 2 wp_step. split; [done|]. split; [done|]. split; [done|]. split; [by exists c|done].
  - wp_step. eapply wp_mono; [by apply thread_yield_wp|].
    intros _ k2 (_ & Hk2 & Hc2 & Hr2 & Hl2 & _). apply unlock_n_resched_wp; [done|].
    intros k3 U. wp_step. pose proof (un_frame _ _ U) as F. split; [done|]. split; [apply U|].
    split; [by rewrite (sf_rest _ _ F), Hr2|]. split; [apply (un_cur _ _ U); rewrite Hc2; by exists c|].
    intros l Hl. rewrite (sf_list _ _ F) by done. apply Hl2.
Qed.

(** * The kernel invariant

    Between operations, a suspended thread whose timer mark is set has an active
    timer: a wake-up can always stop it. *)

Definition armed (k : kernel) : Prop :=
  forall t, suspended (k_thr k t) -> t_ttmr (k_thr k t) = true ->
    typed k (OTimer (thread_timer t)) RT_Object_Class_Timer /\
    Z.testbit (tm_flag (k_tim k (thread_timer t))) 0 = true.

Record kinv (k : kernel) : Prop := mk_kinv {
  ki_wf : kwf k;
  ki_armed : armed k;
  ki_nest : 0 <= k_lock_nest k
}.

Lemma kinv_ext k k' :
  (forall t, k_thr k' t = k_thr k t) -> (forall l, k_list k' l = k_list k l) ->
  k_group k' = k_group k -> k_cur k' = k_cur k ->
  k_tim k' = k_tim k -> k_type k' = k_type k -> 0 <= k_lock_nest k' -> kinv k -> kinv k'.
Proof.
  intros Ht Hl Hg Hc Hti Hty Hn [W A _]. split; [by eapply kwf_ext|..|done].
  intros t. unfold typed. rewrite Ht, Hti, Hty. apply A.
Qed.

Lemma kinv_lock1 k : kinv k -> kinv (lock1 k).
Proof. intros H. eapply kinv_ext; [..|exact H]; try done. destruct H. simpl. lia. Qed.

Lemma kinv_unlock1 k : 1 <= k_lock_nest k -> kinv k -> kinv (unlock1 k).
Proof. intros Hn H. eapply kinv_ext; [..|exact H]; try done. simpl. lia. Qed.

(** A thread suspended after a scheduling step was so before. *)
Lemma th_frame_suspended a b : th_frame a b -> suspended b -> suspended a /\ t_ttmr b = t_ttmr a.
Proof.
  intros [E S] Hs. split; [|by rewrite E]. unfold suspended, active in *.
  destruct S as [<-|[_ ?]]; [done|stat_lia].
Qed.

Lemma kinv_unlocked k k' : kinv k -> unlocked k k' -> kinv k'.
Proof.
  intros [W A N] U. pose proof (un_frame _ _ U) as F. split; [apply U| |by rewrite (sf_nest F)].
  intros t Hs Ht. destruct (th_frame_suspended _ _ (sf_thr _ _ F t) Hs) as [Hs' Ht'].
  unfold typed. rewrite (sf_tim F), (sf_type F). apply A; [done|by rewrite <- Ht'].
Qed.

Lemma active_not_suspended th : active th -> ~ suspended th.
Proof. unfold active, suspended. stat_lia. Qed.

Lemma kobj_type k k' : kobj k' = kobj k -> k_type k' = k_type k.
Proof. intros H. exact (f_equal k_type H). Qed.
Lemma kobj_nest k k' : kobj k' = kobj k -> k_lock_nest k' = k_lock_nest k.
Proof. intros H. exact (f_equal k_lock_nest H). Qed.

Lemma kinv_resumed e t k k' : kinv k -> kwf k' -> resumed e t k k' -> kinv k'.
Proof.
  intros [W A N] Hk R. split; [done| |by rewrite (kobj_nest _ _ (rs_obj _ _ _ _ R))].
  intros x Hs Ht. destruct (decide (x = t)) as [->|Hx].
  { by apply active_not_suspended in Hs; [|apply R]. }
  destruct (th_frame_suspended _ _ (rs_other _ _ _ _ R x Hx) Hs) as [Hs' Ht'].
  destruct (A x Hs') as [A1 A2]; [by rewrite <- Ht'|].
  unfold typed. rewrite (kobj_type _ _ (rs_obj _ _ _ _ R)). split; [done|].
  rewrite (tm_tim _ _ (rs_timers _ _ _ _ R)). unfold quiet.
  destruct (t_ttmr (k_thr k t)); [|done]. simpl. rewrite fupd_ne; [done|].
  intros [= ->]. done.
Qed.

(** Under the invariant a suspended thread can be made ready. *)
Lemma ready_inv_wp k t :
  kinv k -> suspended (k_thr k t) ->
  wp (rt_sched_thread_ready t) (fun r k' => r = RT_EOK /\ kinv k' /\ resumed (-1) t k k') k.
Proof.
  intros Hk Hs. eapply wp_mono; [apply ready_ok_wp; [apply Hk|apply Hk|done|by apply (ki_armed _ Hk)]|].
  intros r k' (-> & Hw & R). split; [done|]. split; [by eapply kinv_resumed|done].
Qed.

(** A wake-up followed by scheduling. *)
Lemma resumed_sched e t k k1 k2 : resumed e t k k1 -> unlocked k1 k2 -> resumed e t k k2.
Proof.
  intros R U. pose proof (un_frame _ _ U) as F. split.
  - intros x Hx. etransitivity; [by apply (rs_other _ _ _ _ R)|apply (sf_thr _ _ F)].
  - destruct (sf_thr _ _ F t) as [E _]. rewrite E, (rs_self _ _ _ _ R). done.
  - apply (sf_active F), (rs_active _ _ _ _ R).
  - intros l Hl. rewrite (sf_list _ _ F) by done. by apply (rs_list _ _ _ _ R).
  - destruct (rs_timers _ _ _ _ R) as [a b c d f].
    destruct (same_timers_rest _ _ (sf_rest _ _ F)) as [a' b' c' d' f'].
    split; congruence.
  - rewrite (kobj_sched _ _ (sf_rest _ _ F)). apply R.
  - intros Hc. by apply (un_cur _ _ U), (rs_cur _ _ _ _ R).
  - intros Hn. destruct (rs_locked _ _ _ _ R Hn) as [Hc Ho].
    rewrite (un_same _ _ U); [done|]. right. by rewrite (kobj_nest _ _ (rs_obj _ _ _ _ R)).
Qed.

(** A wake-up made under the scheduler lock, and the unlock after it. *)
Lemma resumed_unlock1 e t k k1 :
  0 <= k_lock_nest k -> resumed e t (lock1 k) k1 -> resumed e t k (unlock1 k1).
Proof.
  intros Hn [a b c d [t1 t2 t3 t4 t5] f g h]. split; try done.
  - split; unfold quiet in *; simpl in *; by destruct (t_ttmr (k_thr k t)).
  - transitivity (unlock1 (kobj k1)); [done|]. rewrite f. apply (unlock1_between kobj). done.
  - intros _. apply h. simpl. lia.
Qed.

Lemma resumed_nest e t k k' : resumed e t k k' -> k_lock_nest k' = k_lock_nest k.
Proof. intros R. apply kobj_nest, R. Qed.
