(* ===== verification/SuspList.v ===== *)
(** Suspend lists of IPC objects, src/ipc.c: [rt_susp_list_dequeue],
    [rt_susp_list_resume_all], [rt_susp_list_resume_all_irq],
    [rt_susp_list_enqueue] and [_ipc_object_init]. *)
From stdpp Require Import sorting.
From S2P Require Import Prelude KState SchedUp Object TimerCore SchedComm.
#[local] Open Scope Z_scope.

Definition _ipc_object_init (l : lid) : K Z :=
  modify (fun k => set_k_list (fupd l [] (k_list k)) k);;
  mret RT_EOK.

Definition rt_susp_list_dequeue (susp_list : lid) (thread_error : Z) : K (option tid) :=
  l ← lst susp_list;
  match l with
  | [] => mret None
  | thread :: _ =>
      error ← rt_sched_thread_ready thread;
      if negb (error =? 0) then mret None
      else
        (if 0 <=? thread_error then upd_thr thread (set_t_error thread_error) else mret tt);;
        mret (Some thread)
  end.

(** The loop stops at the first failed dequeue; [fuel] bounds its iterations. *)
Fixpoint susp_list_resume_loop (fuel : nat) (susp_list : lid) (thread_error : Z) : K unit :=
  match fuel with
  | O => deref None
  | S n =>
      thread ← rt_susp_list_dequeue susp_list thread_error;
      match thread with
      | Some _ => susp_list_resume_loop n susp_list thread_error
      | None => mret tt
      end
  end.

Definition rt_susp_list_resume_all (susp_list : lid) (thread_error : Z) : K Z :=
  l ← lst susp_list;
  susp_list_resume_loop (S (length l)) susp_list thread_error;;
  mret RT_EOK.

Fixpoint susp_list_resume_irq_loop (fuel : nat) (susp_list : lid) (thread_error : Z) : K unit :=
  match fuel with
  | O => deref None
  | S n =>
      rt_spin_lock_irqsave;;
      thread ← rt_susp_list_dequeue susp_list thread_error;
      rt_spin_unlock_irqrestore;;
      match thread with
      | Some _ => susp_list_resume_irq_loop n susp_list thread_error
      | None => mret tt
      end
  end.

Definition rt_susp_list_resume_all_irq (susp_list : lid) (thread_error : Z) : K Z :=
  l ← lst susp_list;
  susp_list_resume_irq_loop (S (length l)) susp_list thread_error;;
  mret RT_EOK.

(** The walk of the priority case: before the first less urgent thread. *)
Fixpoint prio_insert (prio : tid -> Z) (x : tid) (l : list tid) : list tid :=
  match l with
  | [] => [x]
  | s :: r => if prio x <? prio s then x :: s :: r else s :: prio_insert prio x r
  end.

Definition rt_susp_list_enqueue (susp_list : lid) (thread : tid) (ipc_flags : Z) : K Z :=
  (if ipc_flags =? RT_IPC_FLAG_FIFO then rt_list_push_back susp_list thread
   else if ipc_flags =? RT_IPC_FLAG_PRIO then
     prio ← gets (fun k t => t_cur_prio (k_thr k t));
     modify (fun k => set_k_list
       (fupd susp_list (prio_insert prio thread (k_list k susp_list)) (k_list k)) k)
   else RT_ASSERT false);;
  mret RT_EOK.

(** * Enqueueing *)

Definition enqueue (flag : Z) (prio : tid -> Z) (x : tid) (l : list tid) : list tid :=
  if flag =? RT_IPC_FLAG_FIFO then l ++ [x] else prio_insert prio x l.

Lemma prio_insert_perm prio x l : prio_insert prio x l ≡ₚ x :: l.
Proof.
  induction l as [|s r IH]; simpl; [done|]. case_bool; [done|]. rewrite IH. constructor.
Qed.

Lemma enqueue_ext flag f g x l :
  (forall y, f y = g y) -> enqueue flag f x l = enqueue flag g x l.
Proof.
  intros H. unfold enqueue. case_bool; [done|]. induction l as [|y l IH]; [done|].
  simpl. rewrite !H, IH. done.
Qed.

Lemma enqueue_perm flag prio x l : enqueue flag prio x l ≡ₚ x :: l.
Proof.
  unfold enqueue. case_bool; [|apply prio_insert_perm]. by rewrite Permutation_app_comm.
Qed.

(** Order of a priority list: most urgent first. *)
Definition prio_sorted (prio : tid -> Z) (l : list tid) : Prop :=
  StronglySorted (fun a b => prio a <= prio b) l.

(** A thread joins a priority list behind the equally urgent ones. *)
Lemma prio_insert_split prio x l :
  prio_sorted prio l ->
  exists l1 l2, l = l1 ++ l2 /\ prio_insert prio x l = l1 ++ x :: l2 /\
    Forall (fun a => prio a <= prio x) l1 /\ Forall (fun b => prio x < prio b) l2.
Proof.
  induction 1 as [|s r S IH F]; [exists [], []; repeat split; constructor|]. simpl. case_bool.
  - exists [], (s :: r). repeat split; [constructor|]. constructor; [done|].
    eapply Forall_impl; [exact F|]. simpl. lia.
  - destruct IH as (l1 & l2 & -> & -> & F1 & F2). exists (s :: l1), l2. repeat split; auto.
Qed.

Lemma prio_insert_sorted prio x l :
  prio_sorted prio l -> prio_sorted prio (prio_insert prio x l).
Proof.
  intros S. destruct (prio_insert_split prio x l S) as (l1 & l2 & -> & -> & F1 & F2).
  unfold prio_sorted in *. apply StronglySorted_app in S as (Hc & S1 & S2).
  rewrite Forall_forall in F1, F2. apply StronglySorted_app. split; [|split; [done|]].
  - intros a b Ha [->|Hb]%elem_of_cons; [auto|]. by apply Hc.
  - apply StronglySorted_cons. split; [|done]. apply Forall_forall. intros b Hb.
    specialize (F2 b Hb). simpl in F2. lia.
Qed.

Lemma susp_enqueue_wp Q k l t flag :
  flag = RT_IPC_FLAG_FIFO \/ flag = RT_IPC_FLAG_PRIO ->
  Q RT_EOK (set_k_list (fupd l (enqueue flag (fun x => t_cur_prio (k_thr k x)) t (k_list k l))
              (k_list k)) k) ->
  wp (rt_susp_list_enqueue l t flag) Q k.
Proof.
  intros Hf HQ. unfold rt_susp_list_enqueue. wp_step. unfold enqueue in HQ.
  destruct Hf as [->| ->]; simpl in *; [unfold rt_list_push_back|]; by repeat wp_step.
Qed.

(** * Dequeueing *)

Definition is_wait (l : lid) : Prop :=
  match l with LSusp _ | LSender _ | LDev _ => True | _ => False end.

Lemma is_wait_not_ready l p : is_wait l -> l <> LReady p.
Proof. by intros Hw ->. Qed.

Lemma waiting_suspended k l t :
  kinv k -> is_wait l -> t ∈ k_list k l -> suspended (k_thr k t).
Proof.
  intros Hk Hw Hin. apply (rq_in _ _ (kwf_rq _ (ki_wf _ Hk))) in Hin. by destruct l.
Qed.

(** Setting the error of a thread that has just been resumed. *)
Lemma resumed_error e t k k1 :
  0 <= e -> resumed (-1) t k k1 ->
  resumed e t k (set_k_thr (fupd t (set_t_error e (k_thr k1 t)) (k_thr k1)) k1).
Proof.
  intros He R. destruct R as [a b c d ti f g h]. split; simpl; auto.
  - intros x Hx. rewrite fupd_ne by done. auto.
  - rewrite fupd_eq, b. unfold wake. simpl. by case_bool; [|lia].
  - by rewrite fupd_eq.
  - by destruct ti; split.
  - intros Hn. destruct (h Hn) as [? Ho]. split; [done|]. intros x Hx. rewrite fupd_ne; auto.
Qed.

(** [rt_susp_list_dequeue] wakes the first waiter, with error [e]. *)
Lemma dequeue_wp k l e :
  kinv k -> is_wait l ->
  wp (rt_susp_list_dequeue l e) (fun r k' => kinv k' /\
    match k_list k l with
    | [] => r = None /\ k' = k
    | t :: _ => r = Some t /\ resumed e t k k'
    end) k.
Proof.
  intros Hk Hw. unfold rt_susp_list_dequeue, lst. do 2 wp_step.
  destruct (k_list k l) as [|t q] eqn:El; [by wp_step|].
  assert (Hs : suspended (k_thr k t)).
  { eapply waiting_suspended; [done|exact Hw|rewrite El; left]. }
  wp_step. eapply wp_mono; [by apply ready_inv_wp|]. intros r k1 (-> & Hk1 & R). simpl.
  wp_step. case_bool; unfold upd_thr; do 2 wp_step.
  - pose proof (resumed_error e t k k1 ltac:(lia) R) as R2. split; [|done].
    eapply kinv_resumed; [exact Hk| |exact R2]. by apply (kwf_upd_thr k1 t (set_t_error e)), Hk1.
  - split; [done|]. split; [done|]. destruct R as [a b c d ti f g h]. split; try done.
    rewrite b at 1. unfold wake. simpl. case_bool; [lia|done].
Qed.

(** Every thread of [ts] was resumed with error [e]. *)
Record resumed_all (e : Z) (ts : list tid) (k k' : kernel) : Prop := mk_resumed_all {
  ra_other : forall x, x ∉ ts -> th_frame (k_thr k x) (k_thr k' x);
  ra_in : forall x, x ∈ ts -> active (k_thr k' x) /\
    k_thr k' x = set_t_stat (t_stat (k_thr k' x)) (wake e (k_thr k x));
  ra_list : forall l, (forall p, l <> LReady p) -> k_list k' l = filter (.∉ ts) (k_list k l);
  ra_obj : kobj k' = kobj k;
  ra_cur : is_Some (k_cur k) -> is_Some (k_cur k')
}.

Lemma filter_notin_nil (l : list tid) : filter (.∉ []) l = l.
Proof. induction l as [|x l IH]; [done|]. rewrite filter_cons_True, IH; set_solver. Qed.

Lemma filter_filter_cons t ts (l : list tid) :
  filter (.∉ ts) (filter (fun x => x <> t) l) = filter (.∉ t :: ts) l.
Proof.
  induction l as [|x l IH]; [done|]. destruct (decide (x = t)) as [->|Hx].
  - rewrite (filter_cons_False (fun y => y <> t)) by naive_solver.
    rewrite filter_cons_False by set_solver. done.
  - rewrite (filter_cons_True (fun y => y <> t)) by done. destruct (decide (x ∈ ts)).
    + rewrite !filter_cons_False by set_solver. done.
    + rewrite !filter_cons_True by set_solver. by rewrite IH.
Qed.

Lemma resumed_all_nil e k : resumed_all e [] k k.
Proof. split; try done; [intros; set_solver|intros; by rewrite filter_notin_nil]. Qed.

Lemma resumed_all_cons e t ts k k1 k2 :
  t ∉ ts -> resumed e t k k1 -> resumed_all e ts k1 k2 -> resumed_all e (t :: ts) k k2.
Proof.
  intros Hn R A. split.
  - intros x [Hx Hxs]%not_elem_of_cons.
    etransitivity; [by apply (rs_other _ _ _ _ R)|by apply (ra_other _ _ _ _ A)].
  - intros x [->|Hx]%elem_of_cons.
    + destruct (ra_other _ _ _ _ A t Hn) as [E S]. split.
      * pose proof (rs_active _ _ _ _ R). destruct S as [S|[_ ?]]; [|done].
        unfold active in *. by rewrite S.
      * by rewrite E, (rs_self _ _ _ _ R).
    + destruct (ra_in _ _ _ _ A x Hx) as [Ha E]. split; [done|].
      assert (Hxt : x <> t) by congruence. rewrite E.
      destruct (rs_other _ _ _ _ R x Hxt) as [E1 _]. rewrite E1. unfold wake. by case_bool.
  - intros l Hl. rewrite (ra_list _ _ _ _ A), (rs_list _ _ _ _ R) by done.
    apply filter_filter_cons.
  - rewrite (ra_obj _ _ _ _ A). apply R.
  - intros Hc. apply (ra_cur _ _ _ _ A), (rs_cur _ _ _ _ R), Hc.
Qed.

Lemma resume_loop_wp n l e k :
  kinv k -> is_wait l -> (length (k_list k l) < n)%nat ->
  wp (susp_list_resume_loop n l e)
     (fun _ k' => kinv k' /\ resumed_all e (k_list k l) k k') k.
Proof.
  revert k. induction n as [|n IH]; intros k Hk Hw Hn; [lia|]. simpl. wp_step.
  eapply wp_mono; [by apply dequeue_wp|]. intros r k1 [Hk1 Hr].
  destruct (k_list k l) as [|t q] eqn:El.
  - destruct Hr as [-> ->]. wp_step. split; [done|]. apply resumed_all_nil.
  - destruct Hr as [-> R].
    assert (Hnd : NoDup (t :: q)) by (rewrite <- El; apply (rq_nodup _ _ (kwf_rq _ (ki_wf _ Hk)))).
    apply NoDup_cons in Hnd as [Htq _].
    assert (El1 : k_list k1 l = q).
    { rewrite (rs_list _ _ _ _ R) by (intros; by apply is_wait_not_ready).
      unfold list_unlink. rewrite El, filter_cons_False by naive_solver.
      exact (list_unlink_id t (fun _ => q) l Htq). }
    eapply wp_mono; [apply IH; [done|done|rewrite El1; simpl in Hn; lia]|].
    rewrite El1. intros _ k2 [Hk2 A]. split; [done|]. by eapply resumed_all_cons.
Qed.

(** [rt_susp_list_resume_all] wakes every waiter. *)
Lemma resume_all_wp l e k :
  kinv k -> is_wait l ->
  wp (rt_susp_list_resume_all l e)
     (fun r k' => r = RT_EOK /\ kinv k' /\ resumed_all e (k_list k l) k k') k.
Proof.
  intros Hk Hw. unfold rt_susp_list_resume_all, lst. do 3 wp_step.
  eapply wp_mono; [apply resume_loop_wp; auto|]. intros _ k' [? ?]. by wp_step.
Qed.

(** * Wake-ups under the lock, then unlock and reschedule *)

(** When [rt_schedule] may be called: threads run, or the scheduler is locked. *)
Definition can_sched (k : kernel) : Prop := is_Some (k_cur k) \/ k_lock_nest k <> 0.

Lemma wake_unlock_wp e t k k1 :
  kinv k -> kinv k1 -> resumed e t (lock1 k) k1 ->
  wp rt_spin_unlock_irqrestore (fun _ k2 => kinv k2 /\ resumed e t k k2) k1.
Proof.
  intros Hk Hk1 R. pose proof (ki_nest _ Hk). pose proof (resumed_nest _ _ _ _ R) as Hn.
  simpl in Hn. apply spin_unlock_wp; [apply Hk1|lia|]. intros k2 U.
  split; [eapply kinv_unlocked; [|exact U]; apply kinv_unlock1; [lia|done]|].
  eapply resumed_sched; [|exact U]. by apply resumed_unlock1.
Qed.

Lemma wake_sched_wp e t k k1 :
  kinv k1 -> can_sched k -> resumed e t k k1 ->
  wp rt_schedule (fun _ k2 => kinv k2 /\ resumed e t k k2) k1.
Proof.
  intros Hk1 Hc R. apply rt_schedule_unlocked_wp; [apply Hk1| |].
  - destruct Hc as [Hc|Hn]; [left; by apply (rs_cur _ _ _ _ R)|right].
    by rewrite (resumed_nest _ _ _ _ R).
  - intros k2 U. split; [by eapply kinv_unlocked|by eapply resumed_sched].
Qed.

Lemma resumed_all_sched e ts k k1 k2 : resumed_all e ts k k1 -> unlocked k1 k2 -> resumed_all e ts k k2.
Proof.
  intros R U. pose proof (un_frame _ _ U) as F. split.
  - intros x Hx. etransitivity; [by apply (ra_other _ _ _ _ R)|apply (sf_thr _ _ F)].
  - intros x Hx. destruct (ra_in _ _ _ _ R x Hx) as [Ha E]. split; [by apply (sf_active F)|].
    destruct (sf_thr _ _ F x) as [E2 _]. by rewrite E2, E.
  - intros l Hl. rewrite (sf_list _ _ F) by done. by apply (ra_list _ _ _ _ R).
  - rewrite (kobj_sched _ _ (sf_rest _ _ F)). apply R.
  - intros Hc. by apply (un_cur _ _ U), (ra_cur _ _ _ _ R).
Qed.

Lemma resumed_all_nest e ts k k' : resumed_all e ts k k' -> k_lock_nest k' = k_lock_nest k.
Proof. intros R. apply kobj_nest, R. Qed.

Lemma resumed_all_unlock1 e ts k k1 :
  resumed_all e ts (lock1 k) k1 -> resumed_all e ts k (unlock1 k1).
Proof.
  intros [a b c d f]. split; try done.
  transitivity (unlock1 (kobj k1)); [done|]. rewrite d. apply (unlock1_between kobj). done.
Qed.

(** Resuming all and unlocking. *)
Lemma wake_all_unlock_wp e ts k k1 :
  kinv k -> kinv k1 -> resumed_all e ts (lock1 k) k1 ->
  wp rt_spin_unlock_irqrestore (fun _ k2 => kinv k2 /\ resumed_all e ts k k2) k1.
Proof.
  intros Hk Hk1 R. pose proof (ki_nest _ Hk). pose proof (resumed_all_nest _ _ _ _ R) as Hn.
  simpl in Hn. apply spin_unlock_wp; [apply Hk1|lia|]. intros k2 U.
  split; [eapply kinv_unlocked; [|exact U]; apply kinv_unlock1; [lia|done]|].
  eapply resumed_all_sched; [|exact U]. by apply resumed_all_unlock1.
Qed.

Lemma can_sched_resumed_all e ts k k1 : resumed_all e ts k k1 -> can_sched k -> can_sched k1.
Proof.
  intros R [Hc|Hn]; [left; by apply (ra_cur _ _ _ _ R)|right].
  by rewrite (resumed_all_nest _ _ _ _ R).
Qed.

Lemma sched_inv_wp Q k :
  kinv k -> can_sched k -> (forall k', kinv k' -> unlocked k k' -> Q tt k') -> wp rt_schedule Q k.
Proof.
  intros Hk Hc HQ. apply rt_schedule_unlocked_wp; [apply Hk|done|].
  intros k' U. apply HQ; [by eapply kinv_unlocked|done].
Qed.

(** A state change [f] between lock and unlock that leaves the invariant. *)
Lemma unlock_between_wp Q f k :
  (forall n k, f (set_k_lock_nest n k) = set_k_lock_nest n (f k)) ->
  0 <= k_lock_nest k -> kinv (f k) ->
  (forall k', kinv k' -> unlocked (f k) k' -> Q tt k') ->
  wp rt_spin_unlock_irqrestore Q (f (lock1 k)).
Proof.
  intros Hf Hn Hk HQ. apply spin_unlock_between_wp; [done|done|apply Hk|].
  intros k' U. apply HQ; [by eapply kinv_unlocked|done].
Qed.

Lemma unlock_plain_wp Q k :
  kinv k -> (forall k', kinv k' -> unlocked k k' -> Q tt k') ->
  wp rt_spin_unlock_irqrestore Q (lock1 k).
Proof. intros Hk HQ. apply (unlock_between_wp Q id); auto. apply Hk. Qed.

(** ** Waking all with a lock per thread, under a lock that is held already *)

Lemma resume_irq_loop_wp n l e k :
  kinv k -> 1 <= k_lock_nest k -> is_wait l -> (length (k_list k l) < n)%nat ->
  wp (susp_list_resume_irq_loop n l e)
     (fun _ k' => kinv k' /\ resumed_all e (k_list k l) k k') k.
Proof.
  revert k. induction n as [|n IH]; intros k Hk Hne Hw Hn; [lia|]. cbn [susp_list_resume_irq_loop].
  wp_step. apply spin_lock_wp. wp_step. pose proof (ki_nest _ Hk).
  eapply wp_mono; [apply dequeue_wp; [by apply kinv_lock1|done]|]. change (k_list (lock1 k)) with (k_list k).
  intros r k1 [Hk1 Hr].
  destruct (k_list k l) as [|t q] eqn:El.
  - destruct Hr as [-> ->]. wp_step. apply unlock_plain_wp; [done|]. intros k' Hk' U. wp_step.
    rewrite (un_same _ _ U) by (right; lia). split; [done|]. apply resumed_all_nil.
  - destruct Hr as [-> R]. pose proof (resumed_nest _ _ _ _ R) as Hn1. simpl in Hn1.
    wp_step. apply spin_unlock_wp; [apply Hk1|lia|]. intros k2 U.
    rewrite (un_same _ _ U) by (right; simpl; lia). apply resumed_unlock1 in R; [|done].
    assert (Hk2 : kinv (unlock1 k1)) by (apply kinv_unlock1; [lia|done]).
    assert (Hnd : NoDup (t :: q)) by (rewrite <- El; apply (rq_nodup _ _ (kwf_rq _ (ki_wf _ Hk)))).
    apply NoDup_cons in Hnd as [Htq _].
    assert (El1 : k_list (unlock1 k1) l = q).
    { rewrite (rs_list _ _ _ _ R) by (intros; by apply is_wait_not_ready).
      unfold list_unlink. rewrite El, filter_cons_False by naive_solver.
      exact (list_unlink_id t (fun _ => q) l Htq). }
    eapply wp_mono; [apply IH; [done|simpl; lia|done|rewrite El1; simpl in Hn; lia]|].
    rewrite El1. intros _ k3 [Hk3 A]. split; [done|]. by eapply resumed_all_cons.
Qed.

Lemma resume_all_irq_wp l e k :
  kinv k -> 1 <= k_lock_nest k -> is_wait l ->
  wp (rt_susp_list_resume_all_irq l e)
     (fun r k' => r = RT_EOK /\ kinv k' /\ resumed_all e (k_list k l) k k') k.
Proof.
  intros Hk Hn Hw. unfold rt_susp_list_resume_all_irq, lst. do 3 wp_step.
  eapply wp_mono; [apply resume_irq_loop_wp; auto|]. intros _ k' [? ?]. by wp_step.
Qed.

(** Two groups of threads, one after the other. *)
Lemma resumed_all_app e ts1 ts2 k k1 k2 :
  (forall x, x ∈ ts1 -> x ∈ ts2 -> False) ->
  resumed_all e ts1 k k1 -> resumed_all e ts2 k1 k2 -> resumed_all e (ts1 ++ ts2) k k2.
Proof.
  intros Hd A1 A2. split.
  - intros x [H1 H2]%not_elem_of_app. etransitivity; [by apply (ra_other _ _ _ _ A1)|by apply (ra_other _ _ _ _ A2)].
  - intros x [Hx|Hx]%elem_of_app.
    + assert (Hn : x ∉ ts2) by (intros ?; by eapply Hd).
      destruct (ra_in _ _ _ _ A1 x Hx) as [Ha E1], (ra_other _ _ _ _ A2 x Hn) as [E2 S]. split.
      * destruct S as [S|[_ ?]]; [|done]. unfold active in *. by rewrite S.
      * by rewrite E2, E1.
    + assert (Hn : x ∉ ts1) by (intros ?; by eapply Hd).
      destruct (ra_in _ _ _ _ A2 x Hx) as [Ha E2], (ra_other _ _ _ _ A1 x Hn) as [E1 _]. split; [done|].
      rewrite E1 in E2. rewrite E2. unfold wake. destruct (0 <=? e); reflexivity.
  - intros l Hl. rewrite (ra_list _ _ _ _ A2), (ra_list _ _ _ _ A1) by done.
    rewrite list_filter_filter. apply list_filter_iff. intros x. rewrite not_elem_of_app. tauto.
  - by rewrite (ra_obj _ _ _ _ A2), (ra_obj _ _ _ _ A1).
  - intros Hc. by apply (ra_cur _ _ _ _ A2), (ra_cur _ _ _ _ A1).
Qed.
