(* ===== verification/Sem.v ===== *)
(** Semaphores, src/ipc.c: initialisation, deletion, release and control.
    Taking, which can block, is in SemTake.v. *)
From S2P Require Import Prelude KState SchedUp Object TimerCore SchedComm SuspList.
#[local] Open Scope Z_scope.

Definition ipc_flag_ok (flag : Z) : bool :=
  (flag =? RT_IPC_FLAG_FIFO) || (flag =? RT_IPC_FLAG_PRIO).

Definition RT_DEBUG_NOT_IN_INTERRUPT : K unit :=
  nest ← gets k_irq_nest; RT_ASSERT (nest =? 0).

Definition sem (s : oid) : K rt_semaphore := gets (fun k => k_sem k s).

Definition _sem_object_init (s : oid) (value flag max_value : Z) : K unit :=
  _ipc_object_init (LSusp (OSem s));;
  upd_sem s (fun r => set_sem_flag flag (set_sem_value value (set_sem_max_value max_value r))).

Definition rt_sem_init (s : oid) (name : list Z) (value flag : Z) : K Z :=
  RT_ASSERT (value <? 65536);;
  RT_ASSERT (ipc_flag_ok flag);;
  rt_object_init (OSem s) RT_Object_Class_Semaphore name;;
  _sem_object_init s value flag RT_SEM_VALUE_MAX;;
  mret RT_EOK.

Definition rt_sem_detach (s : oid) : K Z :=
  assert_type (OSem s) RT_Object_Class_Semaphore;;
  sys ← rt_object_is_systemobject (OSem s);
  RT_ASSERT sys;;
  rt_spin_lock_irqsave;;
  rt_susp_list_resume_all (LSusp (OSem s)) RT_ERROR;;
  rt_spin_unlock_irqrestore;;
  rt_object_detach (OSem s);;
  mret RT_EOK.

(** [memory] is the allocation made for the object, if it succeeded. *)
Definition rt_sem_create (name : list Z) (value flag : Z) (memory : option oid) : K (option oid) :=
  RT_ASSERT (value <? 65536);;
  RT_ASSERT (ipc_flag_ok flag);;
  RT_DEBUG_NOT_IN_INTERRUPT;;
  o ← rt_object_allocate RT_Object_Class_Semaphore name (OSem <$> memory);
  match o, memory with
  | Some _, Some s => _sem_object_init s value flag RT_SEM_VALUE_MAX;; mret (Some s)
  | _, _ => mret None
  end.

Definition rt_sem_delete (s : oid) : K Z :=
  assert_type (OSem s) RT_Object_Class_Semaphore;;
  sys ← rt_object_is_systemobject (OSem s);
  RT_ASSERT (negb sys);;
  RT_DEBUG_NOT_IN_INTERRUPT;;
  rt_spin_lock_irqsave;;
  rt_susp_list_resume_all (LSusp (OSem s)) RT_ERROR;;
  rt_spin_unlock_irqrestore;;
  rt_object_delete (OSem s);;
  mret RT_EOK.

Definition rt_sem_release (s : oid) : K Z :=
  assert_type (OSem s) RT_Object_Class_Semaphore;;
  rt_spin_lock_irqsave;;
  l ← lst (LSusp (OSem s));
  if negb (is_nil l) then
    rt_susp_list_dequeue (LSusp (OSem s)) RT_EOK;;
    rt_spin_unlock_irqrestore;;
    rt_schedule;;
    mret RT_EOK
  else
    sm ← sem s;
    if sem_value sm <? sem_max_value sm then
      upd_sem s (fun r => set_sem_value (u16 (sem_value r + 1)) r);;
      rt_spin_unlock_irqrestore;;
      mret RT_EOK
    else
      rt_spin_unlock_irqrestore;;
      mret (- RT_EFULL).

(** [arg] is the pointer-sized argument. *)
Definition rt_sem_control (s : oid) (cmd arg : Z) : K Z :=
  assert_type (OSem s) RT_Object_Class_Semaphore;;
  if cmd =? RT_IPC_CMD_RESET then
    rt_spin_lock_irqsave;;
    rt_susp_list_resume_all (LSusp (OSem s)) RT_ERROR;;
    upd_sem s (set_sem_value (u16 arg));;
    rt_spin_unlock_irqrestore;;
    rt_schedule;;
    mret RT_EOK
  else if cmd =? RT_IPC_CMD_SET_VLIMIT then
    let max_value := u16 arg in
    if (RT_SEM_VALUE_MAX <? max_value) || (max_value <? 1) then mret (- RT_EINVAL) else
    rt_spin_lock_irqsave;;
    sm ← sem s;
    l ← lst (LSusp (OSem s));
    let need_schedule := (max_value <? sem_value sm) && negb (is_nil l) in
    (if need_schedule then rt_susp_list_resume_all (LSusp (OSem s)) RT_ERROR else mret 0);;
    upd_sem s (set_sem_max_value max_value);;
    rt_spin_unlock_irqrestore;;
    (if need_schedule then rt_schedule else mret tt);;
    mret RT_EOK
  else mret (- RT_ERROR).

(** * Release *)

(** The value of a semaphore as an update of the state. *)
Definition put_sem (s : oid) (r : rt_semaphore) (k : kernel) : kernel :=
  set_k_sem (fupd s r (k_sem k)) k.

Lemma kinv_put_sem s r k : kinv k -> kinv (put_sem s r k).
Proof. intros H. eapply kinv_ext; [..|exact H]; try done. apply H. Qed.

(** What a semaphore keeps: its value within its limit, and threads wait only
    when it is zero. *)
Definition sem_ok (s : oid) (k : kernel) : Prop :=
  0 <= sem_value (k_sem k s) <= sem_max_value (k_sem k s) /\
  sem_max_value (k_sem k s) <= RT_SEM_VALUE_MAX /\
  (k_list k (LSusp (OSem s)) <> [] -> sem_value (k_sem k s) = 0).

(** [rt_sem_release] on each branch: the first waiter is resumed with the value
    unchanged; else the value goes up by one, or is at its limit. *)
Lemma rt_sem_release_wp k s :
  kinv k -> typed k (OSem s) RT_Object_Class_Semaphore -> can_sched k ->
  wp (rt_sem_release s) (fun r k' => kinv k' /\
    match k_list k (LSusp (OSem s)) with
    | t :: _ => r = RT_EOK /\ resumed RT_EOK t k k'
    | [] => if sem_value (k_sem k s) <? sem_max_value (k_sem k s)
            then r = RT_EOK /\ unlocked (put_sem s
                   (set_sem_value (u16 (sem_value (k_sem k s) + 1)) (k_sem k s)) k) k'
            else r = - RT_EFULL /\ unlocked k k'
    end) k.
Proof.
  intros Hk Hty Hcur. pose proof (ki_nest _ Hk). unfold rt_sem_release, lst, sem. wp_step.
  apply assert_type_wp; [done|]. wp_step. apply spin_lock_wp. do 2 wp_step. simpl.
  destruct (k_list k (LSusp (OSem s))) as [|t q] eqn:El; simpl.
  - do 2 wp_step. simpl. case_bool.
    + unfold upd_sem. do 3 wp_step.
      apply (unlock_between_wp _
        (put_sem s (set_sem_value (u16 (sem_value (k_sem k s) + 1)) (k_sem k s))));
        [done|done|by apply kinv_put_sem|].
      intros k' Hk' U. by wp_step.
    + wp_step. apply unlock_plain_wp; [done|]. intros k' Hk' U. by wp_step.
  - wp_step. eapply wp_mono; [apply dequeue_wp; [by apply kinv_lock1|done]|].
    simpl. rewrite El. intros _ k1 (Hk1 & _ & R).
    wp_step. eapply wp_mono; [by apply (wake_unlock_wp RT_EOK t k)|]. intros _ k2 [Hk2 R2].
    wp_step. eapply wp_mono; [by apply (wake_sched_wp RT_EOK t k)|]. intros _ k3 [Hk3 R3].
    by wp_step.
Qed.

(** C20: the race of a release with an expired timer.  When the timer of the first
    waiter has already expired (deactivated, its timeout function not yet run),
    [rt_sem_release] returns [RT_EOK] although no thread was resumed and the value
    did not grow: the released unit is lost. *)
Theorem sem_release_lost k s t q :
  kwf k -> 0 <= k_lock_nest k -> typed k (OSem s) RT_Object_Class_Semaphore -> can_sched k ->
  k_list k (LSusp (OSem s)) = t :: q -> t_ttmr (k_thr k t) = true ->
  typed k (OTimer (thread_timer t)) RT_Object_Class_Timer ->
  Z.testbit (tm_flag (k_tim k (thread_timer t))) 0 = false ->
  wp (rt_sem_release s) (fun r k' => r = RT_EOK /\ k_sem k' = k_sem k /\
    k_list k' (LSusp (OSem s)) = t :: q /\ suspended (k_thr k' t)) k.
Proof.
  intros Hk Hn Hty Hc El Ett Htty Hact.
  assert (Hs : suspended (k_thr k t)).
  { assert (Hin : t ∈ k_list k (LSusp (OSem s))) by (rewrite El; left).
    exact (rq_in _ _ (kwf_rq _ Hk) _ _ Hin). }
  unfold rt_sem_release, rt_susp_list_dequeue, lst. wp_step. apply assert_type_wp; [done|].
  wp_step. apply spin_lock_wp. do 2 wp_step. simpl. rewrite El. simpl. do 2 wp_step. wp_step.
  simpl. rewrite El. wp_step.
  eapply wp_mono; [apply (ready_raced_wp (lock1 k) t); try done; [by apply kwf_nest|simpl; lia]|].
  intros r k1 (-> & Hk1 & R). simpl. do 2 wp_step.
  assert (Hn1 : k_lock_nest k1 = k_lock_nest k + 1)
    by exact (f_equal k_lock_nest (rr_rest _ _ _ R)).
  assert (Hs1 : suspended (k_thr k1 t)).
  { destruct (rr_self _ _ _ R) as [_ [E|[Ha _]]]; [unfold suspended; by rewrite E|].
    by apply active_not_suspended in Ha. }
  apply spin_unlock_wp; [done|lia|]. intros k2 U. wp_step.
  assert (Hsame : forall x y, unlocked x y -> k_sem y = k_sem x /\
    k_list y (LSusp (OSem s)) = k_list x (LSusp (OSem s)) /\ 
    (suspended (k_thr x t) -> suspended (k_thr y t))).
  { intros x y V. pose proof (un_frame _ _ V) as F. split; [apply (sf_sem F)|].
    split; [by apply (sf_list _ _ F)|by apply suspended_frame]. }
  assert (E1 : k_list k1 (LSusp (OSem s)) = t :: q) by (rewrite (rr_list _ _ _ R) by done; exact El).
  destruct (Hsame _ _ U) as (A1 & A2 & A3).
  apply rt_schedule_unlocked_wp; [apply U| |].
  { destruct Hc as [Hc|Hc]; [|right; rewrite (sf_nest (un_frame _ _ U)); simpl; lia].
    destruct (decide (k_lock_nest k2 = 0)); [left|auto]. apply (un_cur _ _ U). simpl.
    by apply (rr_cur _ _ _ R). }
  intros k3 U3. wp_step. destruct (Hsame _ _ U3) as (B1 & B2 & B3).
  split; [done|]. split; [|split].
  - rewrite B1, A1. exact (f_equal k_sem (rr_rest _ _ _ R)).
  - rewrite B2, A2. exact E1.
  - auto.
Qed.
