(* ===== verification/Timer.v ===== *)
(** Starting and checking timers, src/timer.c: [rt_timer_start], [_timer_check],
    [rt_timer_check], and the step of the timer thread. *)
From stdpp Require Import sorting.
From S2P Require Import Prelude KState SchedUp Object TimerCore SchedComm SuspList Sem.
#[local] Open Scope Z_scope.

(** The static semaphore of the timer thread. *)
Definition _soft_timer_sem : oid := 1.

Definition rt_timer_start (timer : timid) : K Z :=
  assert_timer timer;;
  tm ← tim timer;
  let soft := flag_set (tm_flag tm) RT_TIMER_FLAG_SOFT_TIMER in
  (if flag_set (tm_flag tm) RT_TIMER_FLAG_THREAD_TIMER then
     thread ← deref (timer_container timer);
     assert_type (OThread thread) RT_Object_Class_Thread;;
     rt_sched_thread_timer_start thread;;
     mret tt
   else mret tt);;
  rt_spin_lock_irqsave;;
  err ← _timer_start soft timer;
  tm ← tim timer;
  (if (err =? RT_EOK) && flag_set (tm_flag tm) RT_TIMER_FLAG_SOFT_TIMER
   then rt_sem_release _soft_timer_sem;; mret tt else mret tt);;
  rt_spin_unlock_irqrestore;;
  mret err.

(** * Expiry *)

Section check.
(** What a timeout function does: [_thread_timeout], or application code. *)
Context (timeout_call : timeout_func -> K unit).

Definition tmp_push (soft : bool) (i : timid) : K unit :=
  modify (fun k => if soft then set_k_stmp (i :: k_stmp k) k else set_k_htmp (i :: k_htmp k) k).

(** The expiry of one timer, up to the unlock before its timeout function. *)
Definition timer_fire_begin (soft : bool) (t : timid) : K unit :=
  _timer_remove t;;
  tm ← tim t;
  (if negb (flag_set (tm_flag tm) RT_TIMER_FLAG_PERIODIC)
   then upd_tim t (fun tm => set_tm_flag (flag_clear (tm_flag tm) RT_TIMER_FLAG_ACTIVATED) tm)
   else mret tt);;
  upd_tim t (fun tm => set_tm_flag (Z.lor (tm_flag tm) RT_TIMER_FLAG_PROCESSING) tm);;
  tmp_push soft t.

(** After the timeout function: a periodic timer that is still active restarts. *)
Definition timer_fire_end (soft : bool) (t : timid) : K unit :=
  upd_tim t (fun tm => set_tm_flag (flag_clear (tm_flag tm) RT_TIMER_FLAG_PROCESSING) tm);;
  tmp ← gets (fun k => if soft then k_stmp k else k_htmp k);
  if is_nil tmp then mret tt else
  _timer_remove t;;
  tm ← tim t;
  if flag_set (tm_flag tm) RT_TIMER_FLAG_PERIODIC &&
     flag_set (tm_flag tm) RT_TIMER_FLAG_ACTIVATED then
    upd_tim t (fun tm => set_tm_flag (flag_clear (tm_flag tm) RT_TIMER_FLAG_ACTIVATED) tm);;
    _timer_start soft t;; mret tt
  else mret tt.

Fixpoint timer_check_loop (fuel : nat) (soft : bool) : K unit :=
  match fuel with
  | O => deref None
  | S n =>
      l ← gets (fun k => if soft then k_soft k else k_hard k);
      match l with
      | [] => mret tt
      | t :: _ =>
          current_tick ← rt_tick_get;
          tm ← tim t;
          if u32 (current_tick - tm_timeout_tick tm) <? tick_half then
            timer_fire_begin soft t;;
            rt_spin_unlock_irqrestore;;
            timeout_call (tm_func tm);;
            rt_spin_lock_irqsave;;
            timer_fire_end soft t;;
            timer_check_loop n soft
          else mret tt
      end
  end.

Definition _timer_check (fuel : nat) (soft : bool) : K unit :=
  rt_spin_lock_irqsave;;
  timer_check_loop fuel soft;;
  rt_spin_unlock_irqrestore.

Definition rt_timer_check (fuel : nat) : K unit :=
  nest ← gets k_irq_nest;
  RT_ASSERT (0 <? nest);;
  _timer_check fuel false.
End check.

(** How long [_timer_thread_entry] waits on its semaphore: [None] for ever,
    [Some 0] not at all, else the ticks to the next timeout. *)
Definition timer_thread_wait : K (option Z) :=
  rt_spin_lock_irqsave;;
  ret ← _timer_list_next_timeout true;
  rt_spin_unlock_irqrestore;;
  match ret with
  | None => mret None
  | Some next_timeout =>
      current_tick ← rt_tick_get;
      if u32 (next_timeout - current_tick) <? tick_half
      then mret (Some (u32 (next_timeout - current_tick)))
      else mret (Some 0)
  end.

(** * Starting *)

(** [started] as kernel invariant: the timer tables are outside [kwf]. *)
Lemma started_kwf soft i k k' : started soft i k k' -> kwf k -> kwf k'.
Proof.
  intros S. pose proof (st_rest _ _ _ _ S) as E. apply kwf_ext.
  - intros t. exact (f_equal (fun x => k_thr x t) E).
  - intros l. exact (f_equal (fun x => k_list x l) E).
  - exact (f_equal k_group E).
  - exact (f_equal k_cur E).
Qed.

Lemma started_unlock1 soft i k k' :
  started soft i (lock1 k) k' -> started soft i k (unlock1 k').
Proof.
  intros [a b c d e f g]. split; try done.
  transitivity (unlock1 (ktimless k')); [done|]. rewrite g. by apply (unlock1_between ktimless).
Qed.

Lemma started_nest soft i k k' : started soft i k k' -> k_lock_nest k' = k_lock_nest k.
Proof. intros S. exact (f_equal k_lock_nest (st_rest _ _ _ _ S)). Qed.

(** The flags of a thread's timer: a hard thread timer, not being processed. *)
Record thread_ok (k : kernel) (t : tid) : Prop := mk_thread_ok {
  tk_thread : typed k (OThread t) RT_Object_Class_Thread;
  tk_timer : typed k (OTimer (thread_timer t)) RT_Object_Class_Timer;
  tk_processing : Z.testbit (tm_flag (k_tim k (thread_timer t))) 1 = false;
  tk_hard : Z.testbit (tm_flag (k_tim k (thread_timer t))) 3 = false;
  tk_mark : Z.testbit (tm_flag (k_tim k (thread_timer t))) 4 = true
}.

Definition mark_ttmr (t : tid) (k : kernel) : kernel :=
  set_k_thr (fupd t (set_t_ttmr true (k_thr k t)) (k_thr k)) k.

(** Arming the timer of a thread. *)
Lemma thread_timer_start_wp k t :
  kwf k -> 0 <= k_lock_nest k -> thread_ok k t ->
  wp (rt_timer_start (thread_timer t)) (fun r k' => r = RT_EOK /\
    exists k1, started false (thread_timer t) (mark_ttmr t k) k1 /\ unlocked k1 k') k.
Proof.
  intros Hk Hn [T1 T2 T3 T4 T5]. unfold rt_timer_start, assert_timer, tim. wp_step.
  apply assert_type_wp; [done|]. do 3 wp_step. rewrite flag_soft, flag_thread, T4, T5.
  wp_step. eapply wp_deref; [done|]. wp_step. apply assert_type_wp; [done|].
  unfold rt_sched_thread_timer_start, upd_thr. do 5 wp_step. wp_step. apply spin_lock_wp.
  wp_step. eapply wp_mono; [by apply _timer_start_wp|]. intros r k1 [-> S]. do 2 wp_step.
  assert (Hsoft : flag_set (tm_flag (k_tim k1 (thread_timer t))) RT_TIMER_FLAG_SOFT_TIMER = false).
  { rewrite flag_soft, (st_tim _ _ _ _ S). simpl. rewrite or_activated, clear_activated by lia.
    simpl. by rewrite T4. }
  rewrite Hsoft, andb_false_r. do 3 wp_step. fold (mark_ttmr t k) in S.
  assert (Hk1 : kwf k1).
  { eapply started_kwf; [exact S|]. apply kwf_nest.
    by apply (kwf_upd_thr k t (set_t_ttmr true)). }
  apply spin_unlock_wp; [done|rewrite (started_nest _ _ _ _ S); simpl; lia|].
  intros k' U. wp_step. split; [done|]. exists (unlock1 k1). split; [|done].
  by apply started_unlock1.
Qed.
