(* ===== verification/Thread.v ===== *)
(** Threads, src/thread.c, with the tick conversions of src/clock.c.

    A call that blocks is two definitions: the part up to the unlock that
    switches away ([_begin]), and the rest, which runs when the thread is current
    again ([_end]). *)
From S2P Require Import Prelude KState SchedUp Object TimerCore SchedComm SuspList Sem Timer.
#[local] Open Scope Z_scope.

(** * Context checks *)

Definition RT_DEBUG_IN_THREAD_CONTEXT : K unit :=
  self ← rt_thread_self;
  RT_ASSERT (match self with Some _ => true | None => false end);;
  RT_DEBUG_NOT_IN_INTERRUPT.

Definition RT_DEBUG_SCHEDULER_AVAILABLE (need_check : bool) : K unit :=
  if need_check then
    lvl ← rt_critical_level;
    RT_ASSERT (lvl =? 0);;
    RT_DEBUG_IN_THREAD_CONTEXT
  else mret tt.

(** * Suspending and resuming *)

Definition suspend_state (flag : suspend_flag) : Z :=
  match flag with
  | RT_INTERRUPTIBLE => RT_THREAD_SUSPEND_INTERRUPTIBLE
  | RT_KILLABLE => RT_THREAD_SUSPEND_KILLABLE
  | RT_UNINTERRUPTIBLE => RT_THREAD_SUSPEND_UNINTERRUPTIBLE
  end.

Definition _thread_set_suspend_state (thread : tid) (flag : suspend_flag) : K unit :=
  upd_thr thread (with_stat (suspend_state flag)).

Definition rt_thread_suspend_to_list (thread : tid) (susp_list : option lid) (ipc_flags : Z)
    (flag : suspend_flag) : K Z :=
  assert_type (OThread thread) RT_Object_Class_Thread;;
  self ← rt_thread_self;
  RT_ASSERT (bool_decide (self = Some thread));;
  stat ← rt_sched_thread_get_stat thread;
  if negb (stat =? RT_THREAD_READY) && negb (stat =? RT_THREAD_RUNNING) then mret (- RT_ERROR)
  else
    rt_sched_remove_thread thread;;
    _thread_set_suspend_state thread flag;;
    match susp_list with
    | Some l => rt_susp_list_enqueue l thread ipc_flags;; mret tt
    | None => mret tt
    end;;
    rt_sched_thread_timer_stop thread;;
    mret RT_EOK.

Definition rt_thread_suspend_with_flag (thread : tid) (flag : suspend_flag) : K Z :=
  rt_thread_suspend_to_list thread None 0 flag.

Definition rt_thread_suspend (thread : tid) : K Z :=
  rt_thread_suspend_with_flag thread RT_UNINTERRUPTIBLE.

Definition rt_thread_resume (thread : tid) : K Z :=
  assert_type (OThread thread) RT_Object_Class_Thread;;
  error ← rt_sched_thread_ready thread;
  (if error =? 0 then rt_sched_unlock_n_resched else mret tt);;
  mret error.

Definition rt_thread_startup (thread : tid) : K Z :=
  th ← thr thread;
  RT_ASSERT (Z.land (t_stat th) RT_THREAD_STAT_MASK =? RT_THREAD_INIT);;
  assert_type (OThread thread) RT_Object_Class_Thread;;
  rt_sched_thread_startup thread;;
  rt_thread_resume thread;;
  mret RT_EOK.

(** The timeout function of a thread's timer. *)
Definition _thread_timeout (thread : tid) : K unit :=
  assert_type (OThread thread) RT_Object_Class_Thread;;
  susp ← rt_sched_thread_is_suspended thread;
  RT_ASSERT susp;;
  upd_thr thread (set_t_error (- RT_ETIMEOUT));;
  rt_list_remove_thread thread;;
  rt_sched_insert_thread thread;;
  rt_sched_unlock_n_resched.

Definition rt_thread_yield : K Z :=
  self ← rt_thread_self;
  thread ← deref self;
  rt_sched_thread_yield thread;;
  rt_sched_unlock_n_resched;;
  mret RT_EOK.

(** The two calls with which every blocking operation arms the thread timer. *)
Definition arm_timeout (thread : tid) (timeout : Z) : K unit :=
  rt_timer_control (thread_timer thread) (RT_TIMER_CTRL_SET_TIME timeout);;
  rt_timer_start (thread_timer thread);;
  mret tt.

(** * Sleeping *)

(** [Some r]: returned [r]; [None]: asleep. *)
Definition _thread_sleep_begin (tick : Z) : K (option Z) :=
  if tick =? 0 then mret (Some (- RT_EINVAL)) else
  self ← rt_thread_self;
  thread ← deref self;
  assert_type (OThread thread) RT_Object_Class_Thread;;
  RT_DEBUG_SCHEDULER_AVAILABLE true;;
  upd_thr thread (set_t_error RT_EOK);;
  rt_enter_critical;;
  err ← rt_thread_suspend_with_flag thread RT_INTERRUPTIBLE;
  if err =? RT_EOK then
    arm_timeout thread tick;;
    upd_thr thread (set_t_error (- RT_EINTR));;
    rt_schedule;;
    rt_exit_critical_safe 0;;
    mret None
  else
    rt_exit_critical_safe 0;;
    mret (Some err).

Definition _thread_sleep_end (thread : tid) : K Z :=
  th ← thr thread;
  (if t_error th =? - RT_ETIMEOUT then upd_thr thread (set_t_error RT_EOK) else mret tt);;
  mret RT_EOK.

Definition rt_thread_delay (tick : Z) : K (option Z) := _thread_sleep_begin tick.

(** [tick] is the value behind the pointer; the new value is returned. *)
Definition rt_thread_delay_until_begin (tick inc_tick : Z) : K (Z * option Z) :=
  self ← rt_thread_self;
  thread ← deref self;
  assert_type (OThread thread) RT_Object_Class_Thread;;
  upd_thr thread (set_t_error RT_EOK);;
  rt_enter_critical;;
  cur_tick ← rt_tick_get;
  if u32 (cur_tick - tick) <? inc_tick then
    let tick' := u32 (tick + inc_tick) in
    let left_tick := u32 (tick' - cur_tick) in
    rt_thread_suspend_with_flag thread RT_UNINTERRUPTIBLE;;
    arm_timeout thread left_tick;;
    rt_exit_critical_safe 0;;
    mret (tick', None)
  else
    rt_exit_critical_safe 0;;
    th ← thr thread;
    mret (cur_tick, Some (t_error th)).

Definition rt_thread_delay_until_end (thread : tid) : K Z :=
  rt_schedule;;
  th ← thr thread;
  (if t_error th =? - RT_ETIMEOUT then upd_thr thread (set_t_error RT_EOK) else mret tt);;
  th ← thr thread;
  mret (t_error th).

(** src/clock.c.  [ms / 1000] and [ms % 1000] of a non-negative [ms]. *)
Definition rt_tick_from_millisecond (ms : Z) : Z :=
  if ms <? 0 then RT_TICK_MAX (* (rt_tick_t)RT_WAITING_FOREVER *)
  else u32 (u32 (RT_TICK_PER_SECOND * (ms / 1000)) +
            (RT_TICK_PER_SECOND * (ms mod 1000) + 999) / 1000).

Definition rt_tick_set (tick : Z) : K unit := modify (set_k_tick tick).

Definition rt_tick_get_millisecond : K Z :=
  t ← rt_tick_get; mret (u32 (t * (1000 / RT_TICK_PER_SECOND))).

Definition rt_thread_mdelay (ms : Z) : K (option Z) :=
  _thread_sleep_begin (rt_tick_from_millisecond ms).

(** * Life cycle *)

(** The scheduling context, IPC fields and timer; entry point, stack and user
    data are outside the model. *)
Definition _thread_init (thread : tid) (name : list Z) (priority tick : Z) : K Z :=
  rt_sched_thread_init_ctx thread tick priority;;
  modify (fun k => set_k_taken (fupd thread [] (k_taken k)) k);;
  upd_thr thread (fun th => set_t_pending None (set_t_event_set 0 (set_t_event_info 0
    (set_t_error RT_EOK th))));;
  rt_timer_init (thread_timer thread) name (TF_thread thread) 0
    (Z.lor RT_TIMER_FLAG_ONE_SHOT RT_TIMER_FLAG_THREAD_TIMER);;
  mret RT_EOK.

Definition rt_thread_init (thread : tid) (name : list Z) (priority tick : Z) : K Z :=
  RT_ASSERT (negb (tick =? 0));;
  rt_object_init (OThread thread) RT_Object_Class_Thread name;;
  _thread_init thread name priority tick.

(** [memory] and [stack]: the results of the two allocations. *)
Definition rt_thread_create (name : list Z) (priority tick : Z) (memory : option tid)
    (stack : bool) : K (option tid) :=
  RT_ASSERT (negb (tick =? 0));;
  o ← rt_object_allocate RT_Object_Class_Thread name (OThread <$> memory);
  match o, memory with
  | Some _, Some thread =>
      if stack then _thread_init thread name priority tick;; mret (Some thread)
      else rt_object_delete (OThread thread);; mret None
  | _, _ => mret None
  end.

Definition rt_thread_close (thread : tid) : K Z :=
  self ← rt_thread_self;
  lvl ← rt_critical_level;
  RT_ASSERT (bool_decide (self <> Some thread) || negb (lvl =? 0));;
  thread_status ← rt_sched_thread_get_stat thread;
  (if negb (thread_status =? RT_THREAD_CLOSE) then
     (if negb (thread_status =? RT_THREAD_INIT) then rt_sched_remove_thread thread else mret tt);;
     rt_timer_detach (thread_timer thread);;
     rt_sched_thread_close thread;; mret tt
   else mret tt);;
  mret RT_EOK.

(** src/idle.c *)
Definition rt_thread_defunct_enqueue (thread : tid) : K unit :=
  rt_spin_lock_irqsave;;
  rt_list_push_front LDefunct thread;;
  rt_spin_unlock_irqrestore.

Definition rt_thread_defunct_dequeue : K (option tid) :=
  l ← lst LDefunct;
  match l with
  | [] => mret None
  | thread :: _ => rt_list_remove_thread thread;; mret (Some thread)
  end.

(** [rt_defunct_execute]: a static thread is detached, a created one deleted with
    its memory; the [cleanup] callback is the application's.  The loop ends when
    the list is empty, after at most as many rounds as it is long. *)
Fixpoint defunct_loop (fuel : nat) : K unit :=
  match fuel with
  | O => deref None
  | S n =>
      thread ← rt_thread_defunct_dequeue;
      match thread with
      | None => mret tt
      | Some t =>
          sys ← rt_object_is_systemobject (OThread t);
          (if (sys : bool) then rt_object_detach (OThread t) else rt_object_delete (OThread t));;
          defunct_loop n
      end
  end.

Definition rt_defunct_execute : K unit :=
  l ← lst LDefunct;
  defunct_loop (S (length l)).

Definition _thread_exit : K unit :=
  self ← rt_thread_self;
  thread ← deref self;
  rt_enter_critical;;
  rt_thread_close thread;;
  rt_thread_defunct_enqueue thread;;
  rt_exit_critical_safe 0;;
  rt_schedule.

Definition rt_thread_find (name : list Z) : K (option objref) :=
  rt_object_find name RT_Object_Class_Thread.

(** * Blocking *)

(** A thread in transit, suspended, joins a wait list. *)
Lemma rqwf_enqueue k t l q :
  rqwf (Some t) k -> is_wait l -> suspended (k_thr k t) ->
  0 <= t_cur_prio (k_thr k t) < RT_THREAD_PRIORITY_MAX ->
  t_mask (k_thr k t) = 2 ^ t_cur_prio (k_thr k t) ->
  q ≡ₚ t :: k_list k l -> rqwf None (set_k_list (fupd l q (k_list k)) k).
Proof.
  intros [nd dj out inn rdy pr mk gr gn] Hw Hs Hp Hm Hq.
  assert (Hin : forall l' x, x ∈ fupd l q (k_list k) l' <-> (x = t /\ l' = l) \/ x ∈ k_list k l').
  { intros l' x. destruct (decide (l' = l)) as [->|Hne].
    - rewrite fupd_eq, Hq, elem_of_cons. naive_solver.
    - rewrite fupd_ne by done. naive_solver. }
  assert (Hr : forall p, fupd l q (k_list k) (LReady p) = k_list k (LReady p)).
  { intros p. rewrite fupd_ne; [done|]. intros <-. done. }
  split; simpl.
  - intros l'. destruct (decide (l' = l)) as [->|]; [|by rewrite fupd_ne].
    rewrite fupd_eq, Hq. apply NoDup_cons. split; [by apply out|done].
  - intros l1 l2 x. rewrite !Hin. intros [[-> ->]|H1] [[E2 ->]|H2]; try subst; eauto;
      exfalso; by eapply out.
  - done.
  - intros l' x. rewrite Hin. intros [[-> ->]|H1]; [|auto]. by destruct l.
  - intros x _. rewrite Hr. destruct (decide (x = t)) as [->|]; [|apply rdy; congruence].
    unfold suspended in Hs. stat_lia.
  - intros x _. destruct (decide (x = t)) as [->|]; [done|apply pr; congruence].
  - intros x _. destruct (decide (x = t)) as [->|]; [done|apply mk; congruence].
  - intros p Hp0. rewrite Hr. auto.
  - done.
Qed.

(** The running thread [t] was put to sleep, on list [l] if there is one; [s] is
    the suspend state, [ttmr] says whether its timer is armed. *)
Record blocked (l : option lid) (flag s : Z) (ttmr : bool) (t : tid) (k k' : kernel) : Prop :=
  mk_blocked {
  bl_other : forall x, x <> t -> k_thr k' x = k_thr k x;
  bl_self : k_thr k' t = set_t_ttmr ttmr (with_stat s (k_thr k t));
  bl_list : forall l', (forall p, l' <> LReady p) -> k_list k' l' =
    if decide (l = Some l') then enqueue flag (fun x => t_cur_prio (k_thr k x)) t (k_list k l')
    else k_list k l';
  bl_cur : k_cur k' = k_cur k;
  bl_obj : kobj k' = kobj k;
  bl_tim : forall i, i <> thread_timer t -> k_tim k' i = k_tim k i
}.

(** Stopping the thread timer under the scheduler lock, whether or not it is
    still active. *)
Lemma timer_stop_locked_wp k t :
  kwf k -> 1 <= k_lock_nest k -> typed k (OTimer (thread_timer t)) RT_Object_Class_Timer ->
  wp (rt_sched_thread_timer_stop t) (fun _ k' => kwf k' /\
    (forall x, x <> t -> k_thr k' x = k_thr k x) /\
    k_thr k' t = set_t_ttmr false (k_thr k t) /\
    (forall l, k_list k' l = k_list k l) /\ k_cur k' = k_cur k /\ kobj k' = kobj k /\
    (forall i, i <> thread_timer t -> k_tim k' i = k_tim k i) /\
    (forall j, 1 <= j -> Z.testbit (tm_flag (k_tim k' (thread_timer t))) j =
               Z.testbit (tm_flag (k_tim k (thread_timer t))) j)) k.
Proof.
  intros Hk Hn Hty. unfold rt_sched_thread_timer_stop, thr. do 2 wp_step.
  destruct (t_ttmr (k_thr k t)) eqn:Ett.
  - wp_step. eapply wp_mono; [apply rt_timer_stop_wp; auto; lia|]. intros r k1 H1.
    assert (Hk1 : k1 = tim_off (thread_timer t) k \/ k1 = k).
    { destruct (Z.testbit _ 0); destruct H1 as [_ U]; apply un_same in U; auto; right; simpl; lia. }
    unfold upd_thr. do 3 wp_step.
    assert (Hw : kwf k1) by (destruct Hk1 as [->| ->]; [by apply kwf_tim_off|done]).
    split; [by apply (kwf_upd_thr k1 t (set_t_ttmr false))|]. simpl.
    destruct Hk1 as [->| ->]; simpl; rewrite ?fupd_eq;
      (split; [intros x ?; by rewrite fupd_ne|]; do 4 (split; [done|])); [|done].
    split; [intros i ?; by rewrite fupd_ne|]. intros j Hj. simpl. rewrite clear_activated by lia.
    rewrite bool_decide_false by lia. apply andb_true_r.
  - wp_step. split; [done|]. split; [done|]. split; [|done].
    destruct (k_thr k t). simpl in *. by subst.
Qed.

Lemma suspend_state_range flag : 4 <= suspend_state flag < 8.
Proof. destruct flag; done. Qed.

Lemma kinv_blocked l flag s ttmr t k k' :
  kinv k -> kwf k' -> blocked l flag s ttmr t k k' ->
  (ttmr = true -> typed k (OTimer (thread_timer t)) RT_Object_Class_Timer /\
     Z.testbit (tm_flag (k_tim k' (thread_timer t))) 0 = true) -> kinv k'.
Proof.
  intros [W A N] Hk B Ht. split; [done| |by rewrite (kobj_nest _ _ (bl_obj _ _ _ _ _ _ _ B))].
  intros x. unfold typed. rewrite (kobj_type _ _ (bl_obj _ _ _ _ _ _ _ B)).
  destruct (decide (x = t)) as [->|Hx].
  - rewrite (bl_self _ _ _ _ _ _ _ B). simpl. auto.
  - rewrite (bl_other _ _ _ _ _ _ _ B) by done. rewrite (bl_tim _ _ _ _ _ _ _ B); [apply A|].
    intros [= ->]. done.
Qed.

(** What the caller of a blocking operation is: the running thread. *)
Definition running (k : kernel) (t : tid) : Prop :=
  k_cur k = Some t /\ tstat (k_thr k t) = RT_THREAD_RUNNING.

(** Where the suspended thread goes. *)
Definition wait_ok (l : option lid) (flag : Z) : Prop :=
  match l with Some l => is_wait l /\ ipc_flag_ok flag = true | None => True end.

(** The middle of [rt_thread_suspend_to_list]: from the ready queue's hands to
    the wait list. *)
Lemma suspend_move_wp k t l flag sf :
  kwf k -> running k t -> wait_ok l flag ->
  wp (rt_sched_remove_thread t;; _thread_set_suspend_state t sf;;
      match l with
      | Some l => rt_susp_list_enqueue l t flag;; mret tt
      | None => mret tt
      end) (fun _ k' => kwf k' /\
    (forall x, x <> t -> k_thr k' x = k_thr k x) /\
    k_thr k' t = with_stat (suspend_state sf) (k_thr k t) /\
    (forall l', (forall p, l' <> LReady p) -> k_list k' l' =
      if decide (l = Some l') then enqueue flag (fun x => t_cur_prio (k_thr k' x)) t (k_list k l')
      else k_list k l') /\ k_cur k' = k_cur k /\ krest k' = krest k) k.
Proof.
  intros [W C] [Hcur Hrun] Hl. pose proof (rq_prio _ _ W t ltac:(done)) as Hp.
  pose proof (rq_mask _ _ W t ltac:(done) ltac:(stat_lia)) as Hm.
  pose proof (suspend_state_range sf) as Hsf.
  wp_step. eapply wp_mono; [apply (remove_thread_wp None); auto|]. intros _ k1 [W1 [g ->]].
  unfold _thread_set_suspend_state, upd_thr. do 2 wp_step. simpl.
  set (k2 := set_k_thr _ _).
  assert (W2 : rqwf (Some t) k2)
    by exact (rqwf_transit_upd t (with_stat (suspend_state sf) (k_thr k t)) _ W1).
  assert (Ht2 : k_thr k2 t = with_stat (suspend_state sf) (k_thr k t)) by (simpl; by rewrite fupd_eq).
  assert (Hs2 : tstat (k_thr k2 t) = suspend_state sf) by (rewrite Ht2; apply tstat_with_stat; lia).
  assert (Ho2 : forall x, x <> t -> k_thr k2 x = k_thr k x) by (intros; simpl; by rewrite fupd_ne).
  assert (C2 : curwf k2).
  { destruct C as [a b]. split; intros x; destruct (decide (x = t)) as [->|].
    - intros _. rewrite Hs2. stat_lia.
    - rewrite Ho2 by done. apply a.
    - rewrite Hs2. stat_lia.
    - rewrite Ho2 by done. apply b. }
  assert (Hnl : forall l', k_list k2 l' = k_list k l').
  { intros l'. apply list_unlink_id. apply rqwf_not_linked; auto. }
  destruct l as [l|].
  - destruct Hl as [Hw Hf]. wp_step.
    apply susp_enqueue_wp; [unfold ipc_flag_ok in Hf; apply orb_true_iff in Hf as [?|?]; zbool; auto|].
    wp_step. set (q := enqueue _ _ _ _). split; [split|].
    + apply (rqwf_enqueue k2 t l q); [done|done| | | |apply enqueue_perm].
      * unfold suspended. rewrite Hs2. stat_lia.
      * by rewrite Ht2.
      * by rewrite Ht2.
    + eapply curwf_ext; [..|exact C2]; done.
    + split; [done|]. split; [done|]. split; [|done]. intros l' Hnr.
      destruct (decide (l' = l)) as [->|Hne].
      * simpl. rewrite fupd_eq, decide_True by done. unfold q. by rewrite Hnl.
      * simpl. rewrite fupd_ne, decide_False by congruence. apply Hnl.
  - wp_step. split; [split; [|done]|].
    + apply (rqwf_end t); [done|..]; rewrite ?Hs2, ?Ht2; auto. stat_lia.
    + split; [done|]. split; [done|]. split; [|done]. intros l' Hnr. apply Hnl.
Qed.

(** [rt_thread_suspend_to_list] under the scheduler lock. *)
Lemma suspend_wp k t l flag sf :
  kinv k -> 1 <= k_lock_nest k -> running k t -> thread_ok k t -> wait_ok l flag ->
  wp (rt_thread_suspend_to_list t l flag sf) (fun r k' => r = RT_EOK /\ kinv k' /\
    blocked l flag (suspend_state sf) false t k k' /\ thread_ok k' t) k.
Proof.
  intros Hk Hn Hrun Htk Hl. unfold rt_thread_suspend_to_list, rt_thread_self,
    rt_sched_thread_get_stat, thr. wp_step. apply assert_type_wp; [apply Htk|].
  do 4 wp_step; [by apply bool_decide_eq_true, Hrun|]. do 4 wp_step.
  fold (tstat (k_thr k t)). rewrite (proj2 Hrun). simpl.
  pose proof (suspend_move_wp k t l flag sf (ki_wf _ Hk) Hrun Hl) as Hmv.
  apply wp_bind_inv in Hmv. wp_step. eapply wp_mono; [exact Hmv|]. clear Hmv. intros [] k1 Hmv.
  apply wp_bind_inv in Hmv. wp_step. eapply wp_mono; [exact Hmv|]. clear Hmv. intros [] k2 Hmv.
  wp_step. eapply wp_mono; [exact Hmv|]. clear Hmv k1.
  intros _ k1 (Hk1 & Ho1 & Ht1 & Hl1 & Hc1 & Hr1). wp_step.
  assert (Hty : k_type k1 = k_type k) by exact (f_equal k_type Hr1).
  assert (Hti : k_tim k1 = k_tim k) by exact (f_equal k_tim Hr1).
  assert (Hne : k_lock_nest k1 = k_lock_nest k) by exact (f_equal k_lock_nest Hr1).
  eapply wp_mono; [apply timer_stop_locked_wp; [done|lia|unfold typed; rewrite Hty; apply Htk]|].
  intros _ k' (Hk' & Ho & Ht & Hlk & Hc & Hob & Hoti & Hbits). wp_step.
  assert (B : blocked l flag (suspend_state sf) false t k k').
  { assert (Hpr : forall x, t_cur_prio (k_thr k1 x) = t_cur_prio (k_thr k x)).
    { intros x. destruct (decide (x = t)) as [->|]; [by rewrite Ht1|by rewrite Ho1]. }
    split.
    - intros x Hx. by rewrite Ho, Ho1.
    - by rewrite Ht, Ht1.
    - intros l' Hnr. rewrite Hlk, Hl1 by done. case_decide; [|done]. by apply enqueue_ext.
    - congruence.
    - rewrite Hob. by apply kobj_sched.
    - intros i Hi. by rewrite Hoti, Hti. }
  split; [done|]. split; [by eapply kinv_blocked|]. split; [done|].
  destruct Htk as [T1 T2 T3 T4 T5].
  split; unfold typed; rewrite ?(kobj_type _ _ (bl_obj _ _ _ _ _ _ _ B)); auto;
    rewrite Hbits, Hti by lia; done.
Qed.

(** [RT_TIMER_CTRL_SET_TIME]: an active timer is stopped first. *)
Definition set_time (i : timid) (tick : Z) (k : kernel) : kernel :=
  let k1 := if Z.testbit (tm_flag (k_tim k i)) 0 then tim_off i k else k in
  set_k_tim (fupd i (set_tm_init_tick tick (k_tim k1 i)) (k_tim k1)) k1.

Lemma set_time_wp k i tick :
  kwf k -> 0 <= k_lock_nest k -> typed k (OTimer i) RT_Object_Class_Timer -> tick < tick_half ->
  wp (rt_timer_control i (RT_TIMER_CTRL_SET_TIME tick)) (fun _ k' => unlocked (set_time i tick k) k') k.
Proof.
  intros Hk Hn Hty Htick. unfold rt_timer_control, assert_timer, tim, upd_tim. wp_step.
  apply assert_type_wp; [done|]. wp_step. apply spin_lock_wp. do 5 wp_step; [by apply Z.ltb_lt|].
  wp_step.
  assert (Hfin : forall k1, set_time i tick (lock1 k) =
     set_k_tim (fupd i (set_tm_init_tick tick (k_tim k1 i)) (k_tim k1)) k1 ->
    wp (modify (fun k => set_k_tim (fupd i (set_tm_init_tick tick (k_tim k i)) (k_tim k)) k);;
        mret (None : option timer_out)) (fun r => wp (rt_spin_unlock_irqrestore;; mret r)
          (fun _ k' => unlocked (set_time i tick k) k')) k1).
  { intros k1 E. do 3 wp_step. wp_step. rewrite <- E.
    apply spin_unlock_between_wp; [|done| |intros k' U; by wp_step].
    - intros n x. unfold set_time. simpl. by destruct (Z.testbit (tm_flag (k_tim x i)) 0).
    - eapply kwf_ext; [..|exact Hk]; unfold set_time; by destruct (Z.testbit _ 0). }
  rewrite flag_activated. unfold set_time in *.
  destruct (Z.testbit _ 0); [apply timer_deactivate_wp|wp_step]; by apply Hfin.
Qed.

(** Arming the timer of the suspended thread [t] under the scheduler lock. *)
Lemma arm_wp k t tick :
  kwf k -> 1 <= k_lock_nest k -> thread_ok k t -> tick < tick_half ->
  wp (arm_timeout t tick) (fun _ k' => kwf k' /\
    (forall x, x <> t -> k_thr k' x = k_thr k x) /\
    k_thr k' t = set_t_ttmr true (k_thr k t) /\
    k_list k' = k_list k /\ k_cur k' = k_cur k /\ kobj k' = kobj k /\
    (forall i, i <> thread_timer t -> k_tim k' i = k_tim k i) /\
    Z.testbit (tm_flag (k_tim k' (thread_timer t))) 0 = true /\
    tm_timeout_tick (k_tim k' (thread_timer t)) = u32 (k_tick k + tick) /\
    thread_timer t ∈ k_hard k') k.
Proof.
  intros Hk Hn Htk Htick. unfold arm_timeout. wp_step.
  eapply wp_mono; [apply set_time_wp; [done|lia|apply Htk|done]|]. intros ? k1 U.
  pose proof (un_wf _ _ U) as Hk1.
  assert (Ek1 : k1 = set_time (thread_timer t) tick k).
  { apply (un_same _ _ U). right. unfold set_time. destruct (Z.testbit _ 0); simpl; lia. }
  set (i := thread_timer t) in *.
  assert (H1 : k_thr k1 = k_thr k /\ k_list k1 = k_list k /\ k_cur k1 = k_cur k /\
    kobj k1 = kobj k /\ k_lock_nest k1 = k_lock_nest k /\ k_tick k1 = k_tick k /\
    k_type k1 = k_type k /\
    (forall j, j <> i -> k_tim k1 j = k_tim k j) /\ tm_init_tick (k_tim k1 i) = tick /\
    (forall j, 1 <= j -> Z.testbit (tm_flag (k_tim k1 i)) j = Z.testbit (tm_flag (k_tim k i)) j)).
  { rewrite Ek1. unfold set_time. fold i. destruct (Z.testbit _ 0); simpl; rewrite ?fupd_eq; simpl;
      do 7 (split; [done|]); (split; [intros j ?; by rewrite !fupd_ne|]); split; try done.
    intros j Hj. rewrite clear_activated, bool_decide_false by lia. apply andb_true_r. }
  clear U Ek1. destruct H1 as (E1 & E2 & E3 & E4 & E5 & E6 & E7 & E8 & E9 & E10).
  wp_step. eapply wp_mono; [apply thread_timer_start_wp; [done|lia|]|].
  { destruct Htk. split; unfold typed; rewrite ?E7; auto; rewrite E10 by lia; done. }
  intros _ k' (_ & k2 & S & U). wp_step.
  assert (Hk' : k' = k2).
  { apply (un_same _ _ U). right. rewrite (started_nest _ _ _ _ S). simpl. lia. }
  subst k'. split; [apply U|]. pose proof (st_rest _ _ _ _ S) as R.
  assert (Ht : forall x, k_thr k2 x = k_thr (mark_ttmr t k1) x)
    by (intros x; exact (f_equal (fun k => k_thr k x) R)).
  split; [intros x Hx; rewrite Ht; simpl; by rewrite fupd_ne, E1|].
  split; [rewrite Ht; simpl; by rewrite fupd_eq, E1|].
  split; [rewrite <- E2; exact (f_equal k_list R)|].
  split; [rewrite <- E3; exact (f_equal k_cur R)|].
  split; [rewrite <- E4; exact (f_equal krest R)|].
  split; [intros j Hj; rewrite (st_other _ _ _ _ S j Hj); by apply E8|].
  unfold i in *. rewrite (st_tim _ _ _ _ S). simpl. split; [by rewrite or_activated, orb_true_r|].
  split; [by rewrite E6, E9|]. rewrite (st_hard _ _ _ _ S), timer_insert_perm. left.
Qed.

(** When its timer is armed, a blocked thread wakes up at this tick at the latest. *)
Definition deadline (t : tid) (timeout : Z) (k k' : kernel) : Prop :=
  0 < timeout -> tm_timeout_tick (k_tim k' (thread_timer t)) = u32 (k_tick k + timeout) /\
    Z.testbit (tm_flag (k_tim k' (thread_timer t))) 0 = true /\ thread_timer t ∈ k_hard k'.

(** The tail of every blocking operation, under the scheduler lock: suspend, and
    arm the timer for a positive timeout. *)
Definition block_on (t : tid) (l : option lid) (flag : Z) (sf : suspend_flag) (timeout : Z) : K Z :=
  ret ← rt_thread_suspend_to_list t l flag sf;
  if negb (ret =? RT_EOK) then mret ret else
  (if 0 <? timeout then arm_timeout t timeout else mret tt);;
  mret RT_EOK.

(** Arming the timer of a thread just suspended. *)
Lemma arm_blocked_wp k k1 t l flag sf timeout :
  kinv k -> 1 <= k_lock_nest k -> kinv k1 -> thread_ok k t -> thread_ok k1 t -> timeout < tick_half ->
  blocked l flag (suspend_state sf) false t k k1 ->
  wp (if 0 <? timeout then arm_timeout t timeout else mret tt) (fun _ k' => kinv k' /\
    blocked l flag (suspend_state sf) (0 <? timeout) t k k' /\ deadline t timeout k k') k1.
Proof.
  intros Hk Hn Hk1 Htk Htk1 Hto B. case_bool.
  - assert (Hn1 : k_lock_nest k1 = k_lock_nest k) by apply kobj_nest, B.
    eapply wp_mono; [apply arm_wp; [apply Hk1|lia|done|done]|].
    intros _ k' (Hk' & Ho & Ht & Hlst & Hc & Hob & Hti & Hact & Htk' & Hin).
    assert (B' : blocked l flag (suspend_state sf) true t k k').
    { destruct B as [a b c d e f]. split.
      - intros x Hx. by rewrite Ho, a.
      - by rewrite Ht, b.
      - intros l' Hl'. rewrite Hlst. auto.
      - congruence.
      - congruence.
      - intros i Hi. by rewrite Hti, f. }
    split; [|split; [done|]].
    + eapply kinv_blocked; [exact Hk|done|exact B'|]. intros _. split; [apply Htk|done].
    + intros _. rewrite Htk'. split; [|done].
      by rewrite (f_equal k_tick (bl_obj _ _ _ _ _ _ _ B) : k_tick k1 = k_tick k).
  - wp_step. split; [done|]. split; [done|]. intros ?; lia.
Qed.

Lemma block_on_wp k t l flag sf timeout :
  kinv k -> 1 <= k_lock_nest k -> running k t -> thread_ok k t -> wait_ok l flag ->
  timeout < tick_half ->
  wp (block_on t l flag sf timeout) (fun r k' => r = RT_EOK /\ kinv k' /\
    blocked l flag (suspend_state sf) (0 <? timeout) t k k' /\ deadline t timeout k k') k.
Proof.
  intros Hk Hn Hrun Htk Hl Hto. unfold block_on. wp_step.
  eapply wp_mono; [by apply suspend_wp|]. intros r k1 (-> & Hk1 & B & Htk1).
  change (RT_EOK =? RT_EOK) with true. cbn [negb]. wp_step.
  eapply wp_mono; [exact (arm_blocked_wp k k1 t l flag sf timeout Hk Hn Hk1 Htk Htk1 Hto B)|].
  intros v k' H. by wp_step.
Qed.

(** * Timeouts *)

(** The invariant while the expired timer of [t] is being handled. *)
Record kinv_but (t : tid) (k : kernel) : Prop := mk_kinv_but {
  kb_wf : kwf k;
  kb_armed : forall x, x <> t -> suspended (k_thr k x) -> t_ttmr (k_thr k x) = true ->
    typed k (OTimer (thread_timer x)) RT_Object_Class_Timer /\
    Z.testbit (tm_flag (k_tim k (thread_timer x))) 0 = true;
  kb_nest : 0 <= k_lock_nest k
}.

Lemma kinv_kinv_but t k : kinv k -> kinv_but t k.
Proof. intros [W A N]. split; auto. Qed.

Lemma kinv_of_but t k : kinv_but t k -> ~ suspended (k_thr k t) -> kinv k.
Proof.
  intros [W A N] Hs. split; [done| |done]. intros x Hx. destruct (decide (x = t)) as [->|]; [done|].
  by apply A.
Qed.

(** The thread [t] timed out: runnable with error [-RT_ETIMEOUT], off its list. *)
Record timed_out (t : tid) (k k' : kernel) : Prop := mk_timed_out {
  to_other : forall x, x <> t -> th_frame (k_thr k x) (k_thr k' x);
  to_self : k_thr k' t = set_t_stat (t_stat (k_thr k' t)) (set_t_error (- RT_ETIMEOUT) (k_thr k t));
  to_active : active (k_thr k' t);
  to_list : forall l, (forall p, l <> LReady p) -> k_list k' l = list_unlink t (k_list k) l;
  to_rest : krest k' = krest k;
  to_cur : is_Some (k_cur k) -> is_Some (k_cur k')
}.

Lemma thread_timeout_wp k t :
  kinv_but t k -> typed k (OThread t) RT_Object_Class_Thread -> suspended (k_thr k t) ->
  wp (_thread_timeout t) (fun _ k' => kinv k' /\ timed_out t k k') k.
Proof.
  intros Hk Hty Hs. unfold _thread_timeout, rt_sched_thread_is_suspended, thr, upd_thr. wp_step.
  apply assert_type_wp; [done|]. do 6 wp_step.
  { rewrite suspend_test. fold (tstat (k_thr k t)). by apply Z.leb_le. }
  do 3 wp_step. set (k1 := set_k_thr _ k).
  assert (Hk1 : kwf k1) by (by apply (kwf_upd_thr k t (set_t_error (- RT_ETIMEOUT))), Hk).
  assert (Hs1 : suspended (k_thr k1 t)) by (by apply (suspended_upd t (set_t_error (- RT_ETIMEOUT)))).
  pose proof (ready_tail_wp k1 t Hk1 Hs1) as H. apply wp_bind_inv in H.
  eapply wp_mono; [exact H|]. clear H. intros [] k2 H. wp_step. eapply wp_mono; [exact H|]. clear H k2.
  intros _ k2 (Hk2 & Hc & Hl & Hr & Ho & Ht & Ha). apply unlock_n_resched_wp; [done|].
  intros k' U. pose proof (un_frame _ _ U) as F.
  assert (T : timed_out t k k').
  { split.
    - intros x Hx. etransitivity; [|apply (sf_thr _ _ F)]. rewrite Ho by done. simpl.
      by rewrite fupd_ne.
    - destruct (sf_thr _ _ F t) as [E _]. rewrite E, Ht. simpl. by rewrite fupd_eq.
    - by apply (sf_active F).
    - intros l Hnr. by rewrite (sf_list _ _ F), Hl.
    - by rewrite (sf_rest _ _ F), Hr.
    - intros Hcur. apply (un_cur _ _ U). by rewrite Hc. }
  split; [|done]. apply (kinv_of_but t); [|by apply active_not_suspended, T].
  split; [apply U| |].
  - intros x Hx Hsx Htx. destruct (th_frame_suspended _ _ (to_other _ _ _ T x Hx) Hsx) as [Hs' Ht'].
    unfold typed. rewrite (f_equal k_type (to_rest _ _ _ T) : k_type k' = k_type k).
    rewrite (f_equal k_tim (to_rest _ _ _ T) : k_tim k' = k_tim k).
    apply (kb_armed _ _ Hk); [done|done|by rewrite <- Ht'].
  - rewrite (f_equal k_lock_nest (to_rest _ _ _ T) : k_lock_nest k' = k_lock_nest k). apply Hk.
Qed.
