(* ===== verification/Demo.v ===== *)
(** A concrete kernel state on which the theorems are exercised, at tick 40:
    thread 1 runs at priority 10 and holds mutex 2; thread 3 is ready at priority
    20 and holds mutex 1; thread 2 (priority 5) waits on semaphore 1 with its timer
    armed for tick 100; thread 4 (priority 12) waits for mutex 2.  Every object is
    initialised with its class. *)
From S2P Require Import Prelude KState SchedUp Object TimerCore SchedComm SuspList Sem Timer Thread.
#[local] Open Scope Z_scope.

Definition demo_thr (t : tid) : rt_thread :=
  match t with
  | 1%positive => mk_thread 3 false 10 7 10 10 (2 ^ 10) 0 None 0 0
  | 2%positive => mk_thread 7 true 10 10 5 5 (2 ^ 5) 9 None 0 0
  | 3%positive => mk_thread 2 false 10 10 20 20 (2 ^ 20) 0 None 0 0
  | 4%positive => mk_thread 7 false 10 10 12 12 (2 ^ 12) 0 (Some 2%positive) 0 0
  | _ => thread0
  end.

Definition demo_list (l : lid) : list tid :=
  match l with
  | LReady p => if p =? 20 then [3%positive] else []
  | LSusp (OSem 1%positive) => [2%positive]
  | LSusp (OMutex 2%positive) => [4%positive]
  | _ => []
  end.

Definition demo_type (o : objref) : Z :=
  128 + match o with
        | OThread _ => 1 | OSem _ => 2 | OMutex _ => 3 | OEvent _ => 4 | OMailBox _ => 5
        | OMsgQueue _ => 6 | OMemPool _ => 8 | OTimer _ => 10
        end.

Definition demo_tim (i : timid) : rt_timer :=
  match i with
  | 4%positive => mk_timer 17 60 100 (TF_thread 2)
  | xO t => mk_timer 16 0 0 (TF_thread t)
  | _ => mk_timer 0 25 0 (TF_user 0 0)
  end.

Definition demo_sem (s : oid) : rt_semaphore :=
  match s with 1%positive => mk_sem 0 0 65535 | _ => mk_sem 0 2 65535 end.

Definition demo_mutex (m : oid) : rt_mutex :=
  match m with
  | 1%positive => mk_mutex RT_IPC_FLAG_PRIO 255 255 1 (Some 3%positive)
  | 2%positive => mk_mutex RT_IPC_FLAG_PRIO 255 12 1 (Some 1%positive)
  | _ => mk_mutex RT_IPC_FLAG_PRIO 255 255 0 None
  end.

Definition demo_taken (t : tid) : list oid :=
  match t with 1%positive => [2%positive] | 3%positive => [1%positive] | _ => [] end.

Definition kdemo : kernel :=
  set_k_thr demo_thr (set_k_list demo_list (set_k_group (2 ^ 20) (set_k_cur (Some 1%positive)
    (set_k_cur_prio 10 (set_k_tick 40 (set_k_tim demo_tim (set_k_hard [4%positive]
      (set_k_mutex demo_mutex (set_k_taken demo_taken
        (set_k_sem demo_sem (set_k_type demo_type kernel0))))))))))).

Lemma demo_cases t : t = 1%positive \/ t = 2%positive \/ t = 3%positive \/ t = 4%positive \/
  demo_thr t = thread0.
Proof. destruct t as [[| |]|[| [| |] |]|]; auto 10. Qed.

Lemma demo_list_in l t : t ∈ demo_list l ->
  (l = LReady 20 /\ t = 3%positive) \/ (l = LSusp (OSem 1%positive) /\ t = 2%positive) \/
  (l = LSusp (OMutex 2%positive) /\ t = 4%positive).
Proof.
  destruct l as [p|o|o| |d]; simpl; try (by intros ?%elem_of_nil).
  - case_bool; [|by intros ?%elem_of_nil]. intros ->%list_elem_of_singleton. subst. auto.
  - destruct o as [| [s|s|] | [s|[s|s|]|] | | | | | ]; try (by intros ?%elem_of_nil);
      intros ->%list_elem_of_singleton; auto 10.
Qed.

Lemma demo_list_nodup l : NoDup (demo_list l).
Proof.
  destruct l as [p|[| [s|s|] | [s|[s|s|]|] | | | | |]|o| |d]; simpl;
    try (case_bool); try apply NoDup_singleton; apply NoDup_nil_2.
Qed.

Lemma kdemo_inv : kinv kdemo.
Proof.
  split; [split|..|done].
  - split; simpl.
    + apply demo_list_nodup.
    + intros l1 l2 t H1%demo_list_in H2%demo_list_in. naive_solver.
    + done.
    + intros l t [[-> ->]|[[-> ->]|[-> ->]]]%demo_list_in; done.
    + intros t _. destruct (demo_cases t) as [->|[->|[->|[->|H]]]]; rewrite ?H; try done.
      intros _. simpl. left.
    + intros t _. destruct (demo_cases t) as [->|[->|[->|[->|H]]]]; rewrite ?H; done.
    + intros t _. destruct (demo_cases t) as [->|[->|[->|[->|H]]]]; rewrite ?H; done.
    + intros p Hp. rewrite testbit_pow2 by lia. destruct (Z.eqb_spec p 20) as [->|]; [done|].
      by rewrite bool_decide_false.
    + done.
  - split; simpl; [by intros t [= <-]|]. intros t.
    destruct (demo_cases t) as [->|[->|[->|[->|H]]]]; rewrite ?H; done.
  - intros t. simpl. destruct (demo_cases t) as [->|[->|[->|[->|H]]]]; rewrite ?H; done.
Qed.

Lemma kdemo_thread_ok t : thread_ok kdemo t.
Proof. destruct t as [[| |]|[| |]|]; by split. Qed.

Lemma kdemo_running : running kdemo 1.
Proof. done. Qed.

Lemma kdemo_can_sched : can_sched kdemo.
Proof. left. by eexists. Qed.

Lemma rt_schedule_highest_priority_witness :
  wp rt_schedule (fun _ k' => kwf k' /\ sched_frame kdemo k' /\
     exists c', k_cur k' = Some c' /\
       (k_lock_nest kdemo = 0 -> forall t, tstat (k_thr k' t) = RT_THREAD_READY ->
          tstat (k_thr k' c') = RT_THREAD_RUNNING /\
          t_cur_prio (k_thr k' c') <= t_cur_prio (k_thr k' t))) kdemo.
Proof. by apply (rt_schedule_highest_priority kdemo 1 (ki_wf _ kdemo_inv)). Defined.
