(* ===== verification/RoundRobin.v ===== *)
(** Time slices: threads of one priority take turns.  The tick
    ([rt_sched_tick_increase], src/scheduler_comm.c) and the switch of
    src/scheduler_up.c together rotate the ready queue of the running priority. *)
From S2P Require Import Prelude KState SchedUp Object TimerCore SchedComm SuspList Sem Timer Thread Demo.
#[local] Open Scope Z_scope.

(** * The order of the ready queue after a switch *)

(** A preempted thread goes back to the front of its queue, one that yields to the
    back; the thread that runs next leaves its queue. *)
Lemma schedule_switch_order k c hi p :
  c <> hi ->
  wp (schedule_switch c hi p true) (fun _ k' => forall l, k_list k' l =
    list_unlink hi (fupd (LReady (t_cur_prio (k_thr k c)))
      (if Z.land (t_stat (with_stat RT_THREAD_READY (k_thr k c))) RT_THREAD_STAT_YIELD_MASK =? 0
       then c :: k_list k (LReady (t_cur_prio (k_thr k c)))
       else k_list k (LReady (t_cur_prio (k_thr k c))) ++ [c]) (k_list k)) l) k.
Proof.
  intros Hne. unfold schedule_switch, rt_sched_insert_thread, rt_sched_remove_thread, rt_list_remove_thread, upd_thr, thr, lst.
  do 7 wp_step. rewrite decide_False by (simpl; congruence). do 4 wp_step. simpl. rewrite fupd_eq.
  set (yf := Z.land _ _). apply wp_bind.
  apply (wp_mono _ (fun _ s => forall l, k_list s l = fupd (LReady (t_cur_prio (k_thr k c)))
      (if yf =? 0 then c :: k_list k (LReady (t_cur_prio (k_thr k c)))
       else k_list k (LReady (t_cur_prio (k_thr k c))) ++ [c]) (k_list k) l)).
  { unfold rt_list_push_back, rt_list_push_front. destruct (yf =? 0); simpl; wp_step; done. }
  intros _ s Hs. do 4 wp_step.
  apply (wp_mono _ (fun _ s' => k_list s' = k_list s)); [by case_bool; wp_step|].
  intros _ s' Hs'. do 7 wp_step. simpl.
  apply (wp_mono _ (fun _ s'' => k_list s'' = list_unlink hi (k_list s))).
  { case_bool; wp_step; simpl; by rewrite Hs'. }
  intros _ s'' Hs''. wp_step. intros l. simpl. rewrite Hs''. unfold list_unlink. by rewrite Hs.
Qed.

(** * One turn *)

(** The threads [l] share priority [p]: the first runs with a full slice, the others
    wait in this order for theirs, and nobody more urgent is ready. *)
Record taking_turns (p : Z) (l : list tid) (k : kernel) : Prop := mk_taking_turns {
  tt_wf : kwf k;
  tt_open : k_lock_nest k = 0;
  tt_top : forall t, tstat (k_thr k t) = RT_THREAD_READY -> p <= t_cur_prio (k_thr k t);
  tt_queue : exists c q, l = c :: q /\ running k c /\ k_list k (LReady p) = q;
  tt_slice : forall t, t ∈ l -> t_cur_prio (k_thr k t) = p /\
    t_remaining_tick (k_thr k t) = t_init_tick (k_thr k t) /\ 1 <= t_init_tick (k_thr k t) < 2 ^ 32
}.

(** [n] ticks of the interrupt, as the scheduler sees them. *)
Fixpoint ticks (n : nat) : K unit :=
  match n with
  | O => mret tt
  | S n => rt_sched_tick_increase;; ticks n
  end.

Lemma ticks_app n m Q k : wp (ticks n) (fun _ k' => wp (ticks m) Q k') k -> wp (ticks (n + m)) Q k.
Proof.
  revert k. induction n as [|n IH]; intros k H; [exact H|]. simpl in *. wp_step.
  apply wp_bind_inv in H. eapply wp_mono; [exact H|]. intros r k' H'. by apply IH.
Qed.

Lemma yield_bit x : (Z.land x RT_THREAD_STAT_YIELD_MASK =? 0) = negb (Z.testbit x 3).
Proof.
  change RT_THREAD_STAT_YIELD_MASK with (2 ^ 3).
  destruct (Z.testbit x 3) eqn:E; simpl; [apply Z.eqb_neq|apply Z.eqb_eq].
  - intros H. apply (f_equal (fun z => Z.testbit z 3)) in H.
    rewrite Z.land_spec, E, Z.pow2_bits_true, Z.bits_0 in H by lia. done.
  - apply Z.bits_inj'. intros n Hn. rewrite Z.land_spec, Z.bits_0.
    destruct (decide (n = 3)) as [->|]; [by rewrite E|].
    by rewrite Z.pow2_bits_false, andb_false_r by lia.
Qed.

Lemma yield_set st : Z.testbit (Z.lor st RT_THREAD_STAT_YIELD) 3 = true.
Proof. rewrite Z.lor_spec. apply orb_true_r. Qed.

Lemma with_stat_yield st th :
  Z.testbit (t_stat th) 3 = true -> Z.testbit (t_stat (with_stat st th)) 3 = true.
Proof.
  intros H. simpl. rewrite Z.lor_spec, Z.land_spec, H, Z.lnot_spec by lia.
  apply orb_true_r.
Qed.

(** The scheduler after a yield: the first thread of the same priority runs, the
    one that yielded is the last of the queue. *)
Lemma yield_switch_wp p c a q k :
  kwf k -> k_lock_nest k = 0 -> running k c -> t_cur_prio (k_thr k c) = p ->
  (forall t, tstat (k_thr k t) = RT_THREAD_READY -> p <= t_cur_prio (k_thr k t)) ->
  k_list k (LReady p) = a :: q -> Z.testbit (t_stat (k_thr k c)) 3 = true ->
  wp rt_sched_unlock_n_resched (fun _ k' => kwf k' /\ sched_frame k k' /\ running k' a /\
    tstat (k_thr k' c) = RT_THREAD_READY /\ (forall x, x <> a -> x <> c -> k_thr k' x = k_thr k x) /\
    k_list k' (LReady p) = q ++ [c] /\
    forall p', p' <> p -> k_list k' (LReady p') = k_list k (LReady p')) k.
Proof.
  intros Hk Hn [Hc Hr] Hp Htop Hl Hy. pose proof (kwf_rq _ Hk) as W.
  assert (Ha : a ∈ k_list k (LReady p)) by (rewrite Hl; left).
  destruct (rq_in _ _ W _ _ Ha) as [Has Hap]. pose proof (rq_prio _ _ W a ltac:(done)) as Hpr.
  assert (Hg : k_group k <> 0).
  { intros E. pose proof (rq_group _ _ W p ltac:(lia)) as Hb. by rewrite E, Z.bits_0, Hl in Hb. }
  assert (Hne : c <> a) by (intros ->; rewrite Hr in Has; done).
  unfold rt_sched_unlock_n_resched, rt_schedule, thr. do 2 wp_step. rewrite Hc. do 2 wp_step.
  rewrite Hn, Z.eqb_refl. do 2 wp_step. rewrite (proj2 (Z.eqb_neq _ _) Hg). simpl. wp_step.
  eapply wp_mono; [by apply get_highest_wp|]. intros [hi hp] k0 (-> & Hs & Hhp & Hhd & Hmin). simpl in *.
  assert (hp = p) as -> by (pose proof (Hmin a Has); pose proof (Htop hi Hs); lia).
  rewrite Hl in Hhd. injection Hhd as <-. do 2 wp_step. wp_step. eapply wp_deref; [exact Hc|]. do 2 wp_step.
  unfold schedule_select. fold (tstat (k_thr k c)). rewrite Hr, Hp, Z.ltb_irrefl, !Z.eqb_refl, yield_bit, Hy.
  simpl. rewrite decide_True by congruence.
  eapply wp_mono; [apply wp_conj; [by apply schedule_switch_wp|by apply schedule_switch_order]|].
  intros _ k' [(Hk' & F & Hc' & Hr' & Hcr & Ho) Hord]. split; [done|]. split; [done|]. split; [done|].
  split; [auto|]. split; [auto|]. rewrite Hp in Hord.
  rewrite yield_bit, with_stat_yield in Hord by done. simpl in Hord. split.
  - rewrite Hord. unfold list_unlink. rewrite fupd_eq, Hl, <- app_comm_cons, filter_cons_False by naive_solver.
    rewrite filter_app, filter_all; [by rewrite filter_cons_True by done|].
    intros x Hx ->. pose proof (rq_nodup _ _ W (LReady p)) as Hnd. rewrite Hl in Hnd.
    by apply NoDup_cons in Hnd as [? _].
  - intros p' Hp'. rewrite Hord. unfold list_unlink. rewrite fupd_ne by congruence.
    apply (list_unlink_id a (k_list k)). intros Hin. by destruct (rq_in _ _ W _ _ Hin); congruence.
Qed.

(** Within its slice the running thread keeps the processor. *)
Lemma slice_go_wp c k n :
  kwf k -> k_cur k = Some c -> t_remaining_tick (k_thr k c) = Z.of_nat n + 1 -> (0 < n)%nat ->
  Z.of_nat n < 2 ^ 32 ->
  wp rt_sched_tick_increase (fun r k' => r = RT_EOK /\
    k' = set_k_thr (fupd c (set_t_remaining_tick (Z.of_nat n) (k_thr k c)) (k_thr k)) k /\ kwf k') k.
Proof.
  intros Hk Hc Hrem Hn Hn32. unfold rt_sched_tick_increase, rt_thread_self, upd_thr, thr. do 3 wp_step.
  eapply wp_deref; [exact Hc|]. do 4 wp_step. simpl. rewrite fupd_eq. simpl.
  rewrite Hrem, Z.add_simpl_r, u32_id by lia. rewrite (proj2 (Z.eqb_neq _ 0)) by lia. simpl. do 2 wp_step.
  wp_step. split; [done|]. split; [done|].
  by apply (kwf_upd_thr k c (fun th => set_t_remaining_tick (Z.of_nat n) th)).
Qed.

(** The last tick of a slice. *)
Lemma slice_end_wp p c a q k :
  kwf k -> k_lock_nest k = 0 -> running k c -> t_cur_prio (k_thr k c) = p ->
  (forall t, tstat (k_thr k t) = RT_THREAD_READY -> p <= t_cur_prio (k_thr k t)) ->
  k_list k (LReady p) = a :: q -> t_remaining_tick (k_thr k c) = 1 ->
  wp rt_sched_tick_increase (fun _ k' => kwf k' /\ k_lock_nest k' = 0 /\ running k' a /\
    k_list k' (LReady p) = q ++ [c] /\
    (forall t, tstat (k_thr k' t) = RT_THREAD_READY -> p <= t_cur_prio (k_thr k' t)) /\
    (forall x, t_cur_prio (k_thr k' x) = t_cur_prio (k_thr k x) /\
       t_init_tick (k_thr k' x) = t_init_tick (k_thr k x) /\
       t_remaining_tick (k_thr k' x) =
         if decide (x = c) then t_init_tick (k_thr k x) else t_remaining_tick (k_thr k x))) k.
Proof.
  intros Hk Hn [Hc Hr] Hp Htop Hl Hrem.
  unfold rt_sched_tick_increase, rt_thread_self, upd_thr, thr. do 3 wp_step.
  eapply wp_deref; [exact Hc|]. do 4 wp_step. simpl. rewrite fupd_eq. simpl. rewrite Hrem. simpl. wp_step.
  set (k1 := set_k_thr _ k).
  assert (Hk1 : kwf k1) by (by apply (kwf_upd_thr k c (fun th => set_t_remaining_tick (u32 0) th))).
  wp_step. eapply wp_mono; [by apply thread_yield_wp|].
  intros _ k2 (_ & Hk2 & Hc2 & Hr2 & Hl2 & Ho2 & Hs2). simpl in Hs2. rewrite fupd_eq in Hs2. simpl in Hs2.
  assert (Hall : forall x, tstat (k_thr k2 x) = tstat (k_thr k x) /\
    t_cur_prio (k_thr k2 x) = t_cur_prio (k_thr k x) /\ t_init_tick (k_thr k2 x) = t_init_tick (k_thr k x) /\
    t_remaining_tick (k_thr k2 x) = if decide (x = c) then t_init_tick (k_thr k x) else t_remaining_tick (k_thr k x)).
  { intros x. destruct (decide (x = c)) as [->|Hx]; [|by rewrite Ho2 by done; simpl; rewrite fupd_ne].
    rewrite Hs2. split; [exact (tstat_or_yield (k_thr k c))|done]. }
  assert (Hn2 : k_lock_nest k2 = 0) by (by rewrite (f_equal k_lock_nest Hr2 : k_lock_nest k2 = k_lock_nest k1)).
  eapply wp_mono; [apply (yield_switch_wp p c a q k2)|]; try done.
  - split; [by rewrite Hc2|]. destruct (Hall c) as [-> _]. done.
  - destruct (Hall c) as (_ & -> & _). done.
  - intros t. destruct (Hall t) as (-> & -> & _). apply Htop.
  - by rewrite Hl2.
  - rewrite Hs2. apply yield_set.
  - intros _ k' (Hk' & F & Hrun & Hcr & Hoth & Hq & _). wp_step. split; [done|].
    split; [by rewrite (sf_nest F)|]. split; [done|]. split; [done|].
    assert (Hsame : forall x, t_cur_prio (k_thr k' x) = t_cur_prio (k_thr k x) /\
       t_init_tick (k_thr k' x) = t_init_tick (k_thr k x) /\
       t_remaining_tick (k_thr k' x) = t_remaining_tick (k_thr k2 x)).
    { intros x. destruct (sf_thr _ _ F x) as [-> _]. simpl. by destruct (Hall x) as (_ & -> & -> & _). }
    split.
    + intros t Ht. destruct (Hsame t) as (-> & _). destruct (decide (t = c)) as [->|Htc]; [by rewrite Hp|].
      destruct (decide (t = a)) as [->|Hta]; [destruct Hrun as [_ Hra]; by rewrite Hra in Ht|].
      apply Htop. rewrite <- Ht, Hoth by done. by destruct (Hall t) as [-> _].
    + intros x. destruct (Hsame x) as (H1 & H2 & H3). split; [done|]. split; [done|].
      rewrite H3. apply Hall.
Qed.

(** * Rotation *)

Definition slice (k : kernel) (t : tid) : nat := Z.to_nat (t_init_tick (k_thr k t)).

(** The ticks the threads of a list use up, one slice each. *)
Fixpoint slices (k : kernel) (l : list tid) : nat :=
  match l with [] => 0 | t :: l => slice k t + slices k l end.

Definition same_slices (k k' : kernel) : Prop :=
  forall x, t_init_tick (k_thr k' x) = t_init_tick (k_thr k x).

Lemma slices_same k k' l : same_slices k k' -> slices k' l = slices k l.
Proof. intros H. induction l as [|x l IH]; [done|]. simpl. unfold slice. by rewrite IH, H. Qed.

(** The rest of the turn of [c], with [n + 1] ticks left of its slice. *)
Lemma turn_rest n p c q k :
  q <> [] -> kwf k -> k_lock_nest k = 0 -> running k c -> k_list k (LReady p) = q ->
  (forall t, tstat (k_thr k t) = RT_THREAD_READY -> p <= t_cur_prio (k_thr k t)) ->
  (forall t, t ∈ c :: q -> t_cur_prio (k_thr k t) = p /\ 1 <= t_init_tick (k_thr k t) < 2 ^ 32 /\
    t_remaining_tick (k_thr k t) = if decide (t = c) then Z.of_nat n + 1 else t_init_tick (k_thr k t)) ->
  Z.of_nat n + 1 < 2 ^ 32 ->
  wp (ticks (S n)) (fun _ k' => taking_turns p (q ++ [c]) k' /\ same_slices k k') k.
Proof.
  revert k. induction n as [|n IH]; intros k Hq Hk Hn Hrun Hl Htop Hsl H32; cbn [ticks]; wp_step.
  - destruct q as [|a q]; [done|]. destruct (Hsl c ltac:(left)) as (Hp & _ & Hrem).
    rewrite decide_True in Hrem by done.
    eapply wp_mono; [by apply (slice_end_wp p c a q)|].
    intros _ k' (Hk' & Hn' & Hrun' & Hl' & Htop' & Hsame). wp_step. split; [|intros x; apply Hsame].
    split; [done|done|done|by exists a, (q ++ [c])|]. intros t Ht.
    destruct (Hsame t) as (-> & -> & ->). destruct (Hsl t ltac:(set_solver)) as (H1 & H2 & H3).
    split; [done|]. split; [by destruct (decide (t = c))|done].
  - destruct (Hsl c ltac:(left)) as (_ & _ & Hrem). rewrite decide_True in Hrem by done.
    eapply wp_mono; [apply (slice_go_wp c k (S n)); [done|apply Hrun|lia..]|].
    intros r k' (_ & -> & Hk'). set (k' := set_k_thr _ k) in *.
    assert (Hsame : forall x, tstat (k_thr k' x) = tstat (k_thr k x) /\
      t_cur_prio (k_thr k' x) = t_cur_prio (k_thr k x) /\ t_init_tick (k_thr k' x) = t_init_tick (k_thr k x) /\
      t_remaining_tick (k_thr k' x) = if decide (x = c) then Z.of_nat n + 1 else t_remaining_tick (k_thr k x)).
    { intros x. unfold k'. simpl. destruct (decide (x = c)) as [->|Hx].
      - rewrite fupd_eq. repeat split. simpl. lia.
      - by rewrite fupd_ne. }
    eapply wp_mono; [apply (IH k'); try done|].
    + split; [apply Hrun|]. destruct (Hsame c) as [-> _]. apply Hrun.
    + intros t. destruct (Hsame t) as (-> & -> & _). apply Htop.
    + intros t Ht. destruct (Hsame t) as (_ & -> & -> & ->). destruct (Hsl t Ht) as (H1 & H2 & H3).
      split; [done|]. split; [done|]. by destruct (decide (t = c)).
    + lia.
    + intros _ k2 [Ht2 Hs2]. split; [done|]. intros x. rewrite Hs2. apply Hsame.
Qed.

Lemma turn_wp p c q k :
  q <> [] -> taking_turns p (c :: q) k ->
  wp (ticks (slice k c)) (fun _ k' => taking_turns p (q ++ [c]) k' /\ same_slices k k') k.
Proof.
  intros Hq [Hk Hn Htop (c' & q' & [= <- <-] & Hrun & Hl) Hsl].
  destruct (Hsl c ltac:(left)) as (_ & Hrem & Hinit). unfold slice.
  replace (Z.to_nat _) with (S (Z.to_nat (t_init_tick (k_thr k c) - 1))) by lia.
  apply turn_rest; auto; [|lia]. intros t Ht. destruct (Hsl t Ht) as (H1 & H2 & H3).
  split; [done|]. split; [done|]. destruct (decide (t = c)) as [->|]; [lia|done].
Qed.

(** C4: round robin.  When at least two threads share the priority of the running one
    and nobody more urgent is ready, the ticks give each thread its own time slice in
    the order of the queue: after the slices of the threads [l1] the first thread of
    [l2] runs and those of [l1] queue behind [l2], all with a full slice again; after
    one slice of everybody ([l2] empty) the order is what it was. *)
Theorem round_robin p l1 l2 k :
  taking_turns p (l1 ++ l2) k -> (2 <= length (l1 ++ l2))%nat ->
  wp (ticks (slices k l1)) (fun _ k' => taking_turns p (l2 ++ l1) k' /\ same_slices k k') k.
Proof.
  revert l2 k. induction l1 as [|c l1 IH]; intros l2 k H Hlen; simpl.
  - wp_step. by rewrite app_nil_r.
  - apply ticks_app. eapply wp_mono; [apply turn_wp; [|exact H]|].
    + intros [-> ->]%app_nil. simpl in Hlen. lia.
    + intros _ k1 [H1 S1]. rewrite <- (slices_same k k1) by done. rewrite <- app_assoc in H1.
      eapply wp_mono; [apply (IH (l2 ++ [c])); [done|]|].
      * rewrite <- app_comm_cons in Hlen. cbn [length] in Hlen. rewrite !length_app in *. simpl. lia.
      * intros _ k2 [H2 S2]. rewrite <- app_assoc in H2. split; [done|]. intros x. by rewrite S2, S1.
Qed.

(** Threads 1 and 3 share priority 10; thread 1 runs with a slice of 3 ticks, thread 3
    has one of 2. *)
Definition kturns : kernel :=
  set_k_thr (fun t => match t with
    | 1%positive => mk_thread 3 false 3 3 10 10 (2 ^ 10) 0 None 0 0
    | 3%positive => mk_thread 2 false 2 2 10 10 (2 ^ 10) 0 None 0 0
    | _ => demo_thr t end)
  (set_k_list (fun l => match l with LReady p => if p =? 10 then [3%positive] else [] | _ => demo_list l end)
  (set_k_group (2 ^ 10) kdemo)).

Definition turns_thr (t : tid) : rt_thread := k_thr kturns t.

Lemma turns_cases t : t = 1%positive \/ t = 2%positive \/ t = 3%positive \/ t = 4%positive \/
  turns_thr t = thread0.
Proof. destruct t as [[| |]|[| [| |] |]|]; auto 10. Qed.

Lemma turns_list_in l t : t ∈ k_list kturns l ->
  (l = LReady 10 /\ t = 3%positive) \/ (l = LSusp (OSem 1%positive) /\ t = 2%positive) \/
  (l = LSusp (OMutex 2%positive) /\ t = 4%positive).
Proof.
  destruct l as [p|o|o| |d]; simpl; try (by intros ?%elem_of_nil).
  - case_bool; [|by intros ?%elem_of_nil]. intros ->%list_elem_of_singleton. subst. auto.
  - intros [[? _]|[[? ->]|[? ->]]]%(demo_list_in (LSusp o)); naive_solver.
Qed.

Lemma kturns_wf : kwf kturns.
Proof.
  split; [split|split]; cbn [k_cur k_group].
  - intros [p| | | |]; [simpl; case_bool; [apply NoDup_singleton|apply NoDup_nil_2]|apply demo_list_nodup..].
  - intros l1 l2 t H1%turns_list_in H2%turns_list_in. naive_solver.
  - done.
  - intros l t [[-> ->]|[[-> ->]|[-> ->]]]%turns_list_in; done.
  - intros t _. change (k_thr kturns t) with (turns_thr t).
    destruct (turns_cases t) as [->|[->|[->|[->|H]]]]; rewrite ?H; try done. intros _. simpl. left.
  - intros t _. change (k_thr kturns t) with (turns_thr t).
    destruct (turns_cases t) as [->|[->|[->|[->|H]]]]; rewrite ?H; done.
  - intros t _. change (k_thr kturns t) with (turns_thr t).
    destruct (turns_cases t) as [->|[->|[->|[->|H]]]]; rewrite ?H; done.
  - intros p Hp. change (k_group kturns) with (2 ^ 10). rewrite testbit_pow2 by lia. simpl.
    destruct (Z.eqb_spec p 10) as [->|]; [done|]. by rewrite bool_decide_false.
  - done.
  - by intros t [= <-].
  - intros t. change (k_thr kturns t) with (turns_thr t).
    destruct (turns_cases t) as [->|[->|[->|[->|H]]]]; rewrite ?H; done.
Qed.

Lemma kturns_turns : taking_turns 10 [1%positive; 3%positive] kturns.
Proof.
  split; [apply kturns_wf|done| |by exists 1%positive, [3%positive]|].
  - intros t. change (k_thr kturns t) with (turns_thr t).
    destruct (turns_cases t) as [->|[->|[->|[->|H]]]]; rewrite ?H; done.
  - intros t [->| ->%list_elem_of_singleton]%elem_of_cons; done.
Qed.

Lemma round_robin_witness :
  wp (ticks (slices kturns [1%positive])) (fun _ k' =>
    taking_turns 10 [3%positive; 1%positive] k' /\ same_slices kturns k') kturns.
Proof. apply (round_robin 10 [1%positive] [3%positive]); [apply kturns_turns|simpl; lia]. Defined.
