(* ===== verification/SemTake.v ===== *)
(** Taking a semaphore, src/ipc.c [_rt_sem_take] and its wrappers, and the
    properties of semaphores. *)
From S2P Require Import Prelude KState SchedUp Object TimerCore SchedComm SuspList Sem Timer Thread Demo.
#[local] Open Scope Z_scope.

(** Up to the unlock that switches away.  [Some r]: returned [r]; [None]: the
    caller is asleep. *)
Definition _rt_sem_take_begin (s : oid) (timeout : Z) (sf : suspend_flag) : K (option Z) :=
  assert_type (OSem s) RT_Object_Class_Semaphore;;
  RT_DEBUG_SCHEDULER_AVAILABLE true;;
  rt_spin_lock_irqsave;;
  sm ← sem s;
  if 0 <? sem_value sm then
    upd_sem s (fun r => set_sem_value (u16 (sem_value r - 1)) r);;
    rt_spin_unlock_irqrestore;;
    mret (Some RT_EOK)
  else if timeout =? 0 then
    rt_spin_unlock_irqrestore;;
    mret (Some (- RT_ETIMEOUT))
  else
    self ← rt_thread_self;
    thread ← deref self;
    upd_thr thread (set_t_error RT_EINTR);;
    ret ← block_on thread (Some (LSusp (OSem s))) (sem_flag sm) sf timeout;
    rt_spin_unlock_irqrestore;;
    mret (if negb (ret =? RT_EOK) then Some ret else None).

(** The rest, when the thread runs again: its error, made negative. *)
Definition take_result (thread : tid) : K Z :=
  th ← thr thread;
  mret (if negb (t_error th =? RT_EOK)
        then (if 0 <? t_error th then - t_error th else t_error th) else RT_EOK).

Definition _rt_sem_take_end (thread : tid) : K Z :=
  rt_schedule;; take_result thread.

Definition rt_sem_take (s : oid) (time : Z) : K (option Z) :=
  _rt_sem_take_begin s time RT_UNINTERRUPTIBLE.
Definition rt_sem_take_interruptible (s : oid) (time : Z) : K (option Z) :=
  _rt_sem_take_begin s time RT_INTERRUPTIBLE.
Definition rt_sem_take_killable (s : oid) (time : Z) : K (option Z) :=
  _rt_sem_take_begin s time RT_KILLABLE.
Definition rt_sem_trytake (s : oid) : K (option Z) := rt_sem_take s 0.

(** * Taking *)

(** The calling context [RT_DEBUG_SCHEDULER_AVAILABLE] asks for. *)
Record callable (k : kernel) (t : tid) : Prop := mk_callable {
  ca_run : running k t;
  ca_ok : thread_ok k t;
  ca_nest : k_lock_nest k = 0;
  ca_irq : k_irq_nest k = 0
}.

Lemma scheduler_available_wp Q k t :
  callable k t -> Q tt k -> wp (RT_DEBUG_SCHEDULER_AVAILABLE true) Q k.
Proof.
  intros C HQ. unfold RT_DEBUG_SCHEDULER_AVAILABLE, rt_critical_level, RT_DEBUG_IN_THREAD_CONTEXT,
    RT_DEBUG_NOT_IN_INTERRUPT, rt_thread_self.
  do 4 wp_step; [by rewrite (ca_nest _ _ C)|]. do 4 wp_step; [by rewrite (proj1 (ca_run _ _ C))|].
  do 3 wp_step; [by rewrite (ca_irq _ _ C)|done].
Qed.

(** The state with the error number of [t] set. *)
Definition put_error (t : tid) (e : Z) (k : kernel) : kernel :=
  set_k_thr (fupd t (set_t_error e (k_thr k t)) (k_thr k)) k.

(** Updates of a thread that keep what the scheduler and the timers look at. *)
Definition put_thr (t : tid) (f : rt_thread -> rt_thread) (k : kernel) : kernel :=
  set_k_thr (fupd t (f (k_thr k t)) (k_thr k)) k.

Definition keeps (f : rt_thread -> rt_thread) : Prop :=
  forall th, (tstat (f th) = tstat th /\ t_cur_prio (f th) = t_cur_prio th /\
    t_mask (f th) = t_mask th) /\ t_ttmr (f th) = t_ttmr th.

Lemma put_thr_prio t f k x : keeps f -> t_cur_prio (k_thr (put_thr t f k) x) = t_cur_prio (k_thr k x).
Proof.
  intros Hf. simpl. destruct (decide (x = t)) as [->|]; [rewrite fupd_eq|by rewrite fupd_ne]. apply Hf.
Qed.

Lemma kinv_put_thr t f k : keeps f -> kinv k -> kinv (put_thr t f k).
Proof.
  intros Hf [W A N]. split; [apply (kwf_upd_thr k t f); [apply Hf|done]| |done].
  intros x. unfold put_thr, suspended. simpl. destruct (decide (x = t)) as [->|].
  - rewrite fupd_eq. destruct (Hf (k_thr k t)) as [(-> & _) ->]. apply A.
  - rewrite fupd_ne by done. apply A.
Qed.

Lemma running_put_thr t x f k : keeps f -> running k t -> running (put_thr x f k) t.
Proof.
  intros Hf [Hc Hr]. split; [done|]. unfold put_thr. simpl.
  destruct (decide (t = x)) as [->|]; [rewrite fupd_eq|by rewrite fupd_ne].
  by destruct (Hf (k_thr k x)) as [(-> & _) _].
Qed.

Lemma kinv_put_error t e k : kinv k -> kinv (put_error t e k).
Proof. by apply (kinv_put_thr t (set_t_error e)). Qed.

(** A thread blocked under the lock, and the switch away at the unlock. *)
Definition fell_asleep (l : option lid) (flag : Z) (sf : suspend_flag) (timeout : Z) (t : tid)
    (k k' : kernel) : Prop :=
  exists k1, blocked l flag (suspend_state sf) (0 <? timeout) t k k1 /\
    deadline t timeout k k1 /\ unlocked k1 k'.

(** In a waiting list. *)
Abbreviation went_to_sleep l := (fell_asleep (Some l)).

Lemma blocked_unlock1 l flag s b t k k1 :
  blocked l flag s b t (lock1 k) k1 -> blocked l flag s b t k (unlock1 k1).
Proof.
  intros [a c d e f g]. split; try done.
  transitivity (unlock1 (kobj k1)); [done|]. rewrite f. by apply (unlock1_between kobj).
Qed.

(** The blocking branch shared by the IPC objects: suspended, timer armed, unlocked. *)
Lemma block_sleep_wp {A} (r0 : A) (ex : Z -> A) k t l flag sf timeout :
  kinv k -> running k t -> thread_ok k t -> is_wait l -> ipc_flag_ok flag = true ->
  timeout < tick_half ->
  wp (ret ← block_on t (Some l) flag sf timeout;
      rt_spin_unlock_irqrestore;; mret (if negb (ret =? RT_EOK) then ex ret else r0))
     (fun r k' => r = r0 /\ kinv k' /\ went_to_sleep l flag sf timeout t k k') (lock1 k).
Proof.
  intros Hk [Hc Hr] Htk Hw Hf Hto. pose proof (ki_nest _ Hk). wp_step.
  eapply wp_mono; [apply block_on_wp; [by apply kinv_lock1|simpl; lia|done|by destruct Htk|done|done]|].
  intros r k1 (-> & Hk1 & B & D). wp_step.
  assert (Hn1 : k_lock_nest k1 = k_lock_nest k + 1) 
    by exact (kobj_nest _ _ (bl_obj _ _ _ _ _ _ _ B)).
  apply spin_unlock_wp; [apply Hk1|lia|]. intros k' U. wp_step. split; [done|].
  split; [eapply kinv_unlocked; [|exact U]; apply kinv_unlock1; [lia|done]|].
  exists (unlock1 k1). split; [by apply blocked_unlock1|done].
Qed.

(** The same with the error number stored first. *)
Lemma block_unlock_wp k t e l flag sf timeout :
  kinv k -> running k t -> thread_ok k t -> is_wait l -> ipc_flag_ok flag = true ->
  timeout < tick_half ->
  wp (upd_thr t (set_t_error e);; ret ← block_on t (Some l) flag sf timeout;
      rt_spin_unlock_irqrestore;; mret (if negb (ret =? RT_EOK) then Some ret else None))
     (fun r k' => r = None /\ kinv k' /\ went_to_sleep l flag sf timeout t (put_error t e k) k')
     (lock1 k).
Proof.
  intros Hk Hr Htk Hw Hf Hto. unfold upd_thr. do 2 wp_step.
  change (wp _ _ _) with (wp (ret ← block_on t (Some l) flag sf timeout;
    rt_spin_unlock_irqrestore;; mret (if negb (ret =? RT_EOK) then Some ret else None))
    (fun r k' => r = None /\ kinv k' /\ went_to_sleep l flag sf timeout t (put_error t e k) k')
    (lock1 (put_error t e k))).
  apply (block_sleep_wp None); [by apply kinv_put_error|by apply (running_put_thr _ _ (set_t_error e))|by destruct Htk|done..].
Qed.

(** [_rt_sem_take] on each branch. *)
Lemma sem_take_begin_wp k s t timeout sf :
  kinv k -> callable k t -> typed k (OSem s) RT_Object_Class_Semaphore ->
  ipc_flag_ok (sem_flag (k_sem k s)) = true -> timeout < tick_half ->
  wp (_rt_sem_take_begin s timeout sf) (fun r k' => kinv k' /\
    if 0 <? sem_value (k_sem k s) then
      r = Some RT_EOK /\ unlocked (put_sem s
        (set_sem_value (u16 (sem_value (k_sem k s) - 1)) (k_sem k s)) k) k'
    else if timeout =? 0 then r = Some (- RT_ETIMEOUT) /\ unlocked k k'
    else r = None /\ went_to_sleep (LSusp (OSem s)) (sem_flag (k_sem k s)) sf timeout t
                       (put_error t RT_EINTR k) k') k.
Proof.
  intros Hk C Hty Hf Hto. unfold _rt_sem_take_begin, sem, rt_thread_self. wp_step.
  apply assert_type_wp; [done|]. wp_step. eapply scheduler_available_wp; [exact C|].
  wp_step. apply spin_lock_wp. do 2 wp_step. simpl. case_bool.
  - unfold upd_sem. do 3 wp_step.
    apply (unlock_between_wp _
      (put_sem s (set_sem_value (u16 (sem_value (k_sem k s) - 1)) (k_sem k s))));
      [done|apply Hk|by apply kinv_put_sem|]. intros k' Hk' U. by wp_step.
  - case_bool; [wp_step; apply unlock_plain_wp; [done|]; intros k' Hk' U; by wp_step|].
    do 3 wp_step. eapply wp_deref; [apply C|].
    eapply wp_mono; [apply block_unlock_wp; [done|apply C|apply C|done|done|done]|]. naive_solver.
Qed.

(** * Refinement of a counting semaphore

    The abstract semaphore is its value, its limit and the queue of waiting
    threads; an operation returns its code, [None] when the caller waits. *)

Record asem := mk_asem { a_value : Z; a_max : Z; a_queue : list tid }.

Definition sem_abs (s : oid) (k : kernel) : asem :=
  mk_asem (sem_value (k_sem k s)) (sem_max_value (k_sem k s)) (k_list k (LSusp (OSem s))).

Definition asem_release (a : asem) : Z * asem :=
  match a_queue a with
  | t :: q => (RT_EOK, mk_asem (a_value a) (a_max a) q)
  | [] => if a_value a <? a_max a then (RT_EOK, mk_asem (a_value a + 1) (a_max a) [])
          else (- RT_EFULL, a)
  end.

(** [enq] adds the caller to the queue in the order of the semaphore's flag. *)
Definition asem_take (enq : list tid -> list tid) (timeout : Z) (a : asem) : option Z * asem :=
  if 0 <? a_value a then (Some RT_EOK, mk_asem (a_value a - 1) (a_max a) (a_queue a))
  else if timeout =? 0 then (Some (- RT_ETIMEOUT), a)
  else (None, mk_asem (a_value a) (a_max a) (enq (a_queue a))).

Lemma sem_abs_unlocked s k k' : unlocked k k' -> sem_abs s k' = sem_abs s k.
Proof.
  intros U. pose proof (un_frame _ _ U) as F. unfold sem_abs.
  by rewrite (sf_sem F), (sf_list _ _ F).
Qed.

Lemma sem_abs_put s r k :
  sem_abs s (put_sem s r k) = mk_asem (sem_value r) (sem_max_value r) (k_list k (LSusp (OSem s))).
Proof. unfold sem_abs, put_sem. simpl. by rewrite fupd_eq. Qed.

Lemma sem_abs_resumed s e t q k k' :
  kinv k -> resumed e t k k' -> k_list k (LSusp (OSem s)) = t :: q ->
  sem_abs s k' = mk_asem (sem_value (k_sem k s)) (sem_max_value (k_sem k s)) q.
Proof.
  intros Hk R El. unfold sem_abs. rewrite (rs_list _ _ _ _ R) by done.
  rewrite (f_equal k_sem (rs_obj _ _ _ _ R) : k_sem k' = k_sem k). f_equal.
  pose proof (rq_nodup _ _ (kwf_rq _ (ki_wf _ Hk)) (LSusp (OSem s))) as Hnd.
  rewrite El in Hnd. apply NoDup_cons in Hnd as [Hn _].
  unfold list_unlink. rewrite El, filter_cons_False by naive_solver.
  exact (list_unlink_id t (fun _ => q) LDefunct Hn).
Qed.

(** What a release does beside the semaphore itself: the first waiter is runnable
    again with error [RT_EOK] and its timer stopped; every other thread keeps its
    block, up to a switch between runnable threads, and the other lists and
    semaphores are as they were. *)
Record sem_released (s : oid) (k k' : kernel) : Prop := mk_sem_released {
  sr_first : forall t, head (k_list k (LSusp (OSem s))) = Some t ->
    active (k_thr k' t) /\ t_error (k_thr k' t) = RT_EOK /\ same_timers (quiet t k) k';
  sr_thr : forall x, head (k_list k (LSusp (OSem s))) <> Some x -> th_frame (k_thr k x) (k_thr k' x);
  sr_list : forall l, (forall p, l <> LReady p) -> l <> LSusp (OSem s) -> k_list k' l = k_list k l;
  sr_sem : forall s', s' <> s -> k_sem k' s' = k_sem k s'
}.

Lemma sem_released_resumed s t q k k' :
  kinv k -> k_list k (LSusp (OSem s)) = t :: q -> resumed RT_EOK t k k' -> sem_released s k k'.
Proof.
  intros Hk El R. split.
  - rewrite El. intros x [= <-]. split; [apply R|]. split; [by rewrite (rs_self _ _ _ _ R)|apply R].
  - rewrite El. intros x Hx. apply (rs_other _ _ _ _ R). by intros ->.
  - intros l Hnr Hl. rewrite (rs_list _ _ _ _ R) by done. apply (list_unlink_id t (k_list k) l). intros Hin.
    apply Hl, (rq_disj _ _ (kwf_rq _ (ki_wf _ Hk)) _ _ t); [done|]. rewrite El. left.
  - intros s' _. by rewrite (f_equal k_sem (rs_obj _ _ _ _ R) : k_sem k' = k_sem k).
Qed.

Lemma sem_released_unlocked s k k1 k' :
  k_list k (LSusp (OSem s)) = [] -> k_thr k1 = k_thr k -> k_list k1 = k_list k ->
  (forall s', s' <> s -> k_sem k1 s' = k_sem k s') -> unlocked k1 k' -> sem_released s k k'.
Proof.
  intros El Et Ell Es U. pose proof (un_frame _ _ U) as F. split.
  - by rewrite El.
  - intros x _. rewrite <- Et. apply (sf_thr _ _ F).
  - intros l Hnr _. rewrite <- Ell. by apply (sf_list _ _ F).
  - intros s' Hs. rewrite (sf_sem F). by apply Es.
Qed.

(** C6: [rt_sem_release] implements the abstract release: on every well-formed
    kernel state it stops in no assertion, its return code and the new value and
    queue are those of the counting semaphore (a waiter is served before the value
    grows, and [-RT_EFULL] is returned only at the limit).  The waiter taken off the
    queue is made runnable with error [RT_EOK], so that its pending take succeeds,
    and its timer is stopped; all other threads, waiting lists and semaphores are
    untouched, and the kernel invariant is kept. *)
Theorem rt_sem_release_refines k s :
  kinv k -> typed k (OSem s) RT_Object_Class_Semaphore -> can_sched k -> sem_ok s k ->
  wp (rt_sem_release s) (fun r k' => kinv k' /\ sem_ok s k' /\
    (r, sem_abs s k') = asem_release (sem_abs s k) /\ sem_released s k k') k.
Proof.
  intros Hk Hty Hc (Hv & Hm & Hz). eapply wp_mono; [by apply rt_sem_release_wp|].
  intros r k' [Hk' Hr]. split; [done|]. unfold asem_release. simpl.
  destruct (k_list k (LSusp (OSem s))) as [|t q] eqn:El.
  - destruct (sem_value _ <? _) eqn:E; zbool; destruct Hr as [-> U].
    + pose proof (sem_abs_unlocked s _ _ U) as Ha. rewrite sem_abs_put in Ha. simpl in Ha.
      rewrite u16_id, El in Ha by (unfold RT_SEM_VALUE_MAX in *; lia). rewrite Ha.
      injection Ha as Hv' Hm' Hq'. split; [unfold sem_ok; rewrite Hv', Hm', Hq'; split; [lia|done]|].
      split; [done|]. refine (sem_released_unlocked s k _ k' El _ _ _ U); [done..|]. intros s' Hs. by apply fupd_ne.
    + rewrite (sem_abs_unlocked _ _ _ U). pose proof (sem_abs_unlocked s _ _ U) as Ha. 
      injection Ha as Hv' Hm' Hq'. split; [unfold sem_ok; by rewrite Hv', Hm', Hq', El|].
      split; [by unfold sem_abs; rewrite El|]. by refine (sem_released_unlocked s k _ k' El _ _ _ U).
  - destruct Hr as [-> R]. pose proof (sem_abs_resumed s _ t q k k' Hk R El) as Ha.
    rewrite Ha. injection Ha as Hv' Hm' Hq'.
    split; [|split; [done|by eapply sem_released_resumed]]. unfold sem_ok.
    rewrite Hv', Hm', Hq'. split; [done|]. split; [done|]. intros _. by apply Hz.
Qed.

Lemma rt_sem_release_refines_witness :
  sem_ok 1 kdemo /\ wp (rt_sem_release 1) (fun r k' => kinv k' /\ sem_ok 1 k' /\
    (r, sem_abs 1 k') = asem_release (sem_abs 1 kdemo) /\ sem_released 1 kdemo k') kdemo.
Proof.
  split; [done|]. apply (rt_sem_release_refines kdemo 1 kdemo_inv eq_refl kdemo_can_sched). done.
Defined.

Lemma list_unlocked_susp k k' o : unlocked k k' -> k_list k' (LSusp o) = k_list k (LSusp o).
Proof. intros U. by apply (sf_list _ _ (un_frame _ _ U)). Qed.

(** The queue of an object its caller went to sleep on. *)
Lemma slept_list l flag sf timeout t k k' :
  is_wait l -> went_to_sleep l flag sf timeout t k k' ->
  k_list k' l = enqueue flag (fun x => t_cur_prio (k_thr k x)) t (k_list k l).
Proof.
  intros Hw (k1 & B & _ & U). rewrite (sf_list _ _ (un_frame _ _ U)).
  - rewrite (bl_list _ _ _ _ _ _ _ B); [by rewrite decide_True|]. by intros p ->.
  - by intros p ->.
Qed.

Lemma slept_other l flag sf timeout t k k' x :
  fell_asleep l flag sf timeout t k k' -> x <> t -> th_frame (k_thr k x) (k_thr k' x).
Proof.
  intros (k1 & B & _ & U) Hx. rewrite <- (bl_other _ _ _ _ _ _ _ B x Hx). apply (un_frame _ _ U).
Qed.

Lemma slept_self l flag sf timeout t k k' :
  fell_asleep l flag sf timeout t k k' -> suspended (k_thr k' t) /\
  k_thr k' t = set_t_stat (t_stat (k_thr k' t)) (set_t_ttmr (0 <? timeout) (k_thr k t)).
Proof.
  intros (k1 & B & _ & U). pose proof (bl_self _ _ _ _ _ _ _ B) as Hs.
  destruct (sf_thr _ _ (un_frame _ _ U) t) as [E _]. split.
  - apply (suspended_frame k1 k' t (un_frame _ _ U)). pose proof (suspend_state_range sf).
    unfold suspended. rewrite Hs. change (tstat (set_t_ttmr _ ?th)) with (tstat th).
    rewrite tstat_with_stat by lia. unfold RT_THREAD_SUSPEND_MASK. lia.
  - rewrite E at 1. by rewrite Hs.
Qed.

Lemma slept_kobj l flag sf timeout t k k' :
  fell_asleep l flag sf timeout t k k' -> kobj k' = kobj k.
Proof.
  intros (k1 & B & _ & U). rewrite (kobj_sched _ _ (sf_rest _ _ (un_frame _ _ U))). apply B.
Qed.

(** C5: [rt_sem_take] implements the abstract take: with a positive value it
    returns at once and the value drops by one; without, a zero timeout gives
    [-RT_ETIMEOUT], and any other timeout queues the caller (in FIFO or priority
    order, by the flag) and leaves it asleep.  The kernel and semaphore invariants
    are kept. *)
Theorem rt_sem_take_refines k s t timeout sf :
  kinv k -> callable k t -> typed k (OSem s) RT_Object_Class_Semaphore ->
  ipc_flag_ok (sem_flag (k_sem k s)) = true -> timeout < tick_half -> sem_ok s k ->
  wp (_rt_sem_take_begin s timeout sf) (fun r k' => kinv k' /\ sem_ok s k' /\
    (r, sem_abs s k') = asem_take
      (enqueue (sem_flag (k_sem k s)) (fun x => t_cur_prio (k_thr k x)) t) timeout
      (sem_abs s k)) k.
Proof.
  intros Hk C Hty Hf Hto (Hv & Hm & Hz). eapply wp_mono; [by apply sem_take_begin_wp|].
  intros r k' [Hk' Hr]. split; [done|]. unfold asem_take. simpl.
  assert (Hab : forall v q, sem_abs s k' = mk_asem v (sem_max_value (k_sem k s)) q ->
     0 <= v <= sem_max_value (k_sem k s) -> (q <> [] -> v = 0) -> sem_ok s k').
  { intros v q Ha H1 H2. injection Ha as E1 E2 E3. unfold sem_ok. rewrite E1, E2, E3. auto. }
  destruct (0 <? sem_value _) eqn:E; zbool; [|destruct (timeout =? 0)].
  - destruct Hr as [-> U]. pose proof (sem_abs_unlocked s _ _ U) as Ha. rewrite sem_abs_put in Ha.
    simpl in Ha. rewrite u16_id in Ha by (unfold RT_SEM_VALUE_MAX in *; lia). rewrite Ha.
    split; [|done]. eapply Hab; [exact Ha|lia|]. intros Hq. specialize (Hz Hq). lia.
  - destruct Hr as [-> U]. pose proof (sem_abs_unlocked s _ _ U) as Ha. rewrite Ha.
    split; [|done]. eapply Hab; [exact Ha|lia|done].
  - destruct Hr as [-> S]. pose proof (slept_list (LSusp (OSem s)) _ _ _ _ _ _ I S) as Hl.
    pose proof (slept_kobj _ _ _ _ _ _ _ S) as Ho.
    assert (Hs : k_sem k' = k_sem k) by exact (f_equal k_sem Ho).
    assert (Ha : sem_abs s k' = mk_asem (sem_value (k_sem k s)) (sem_max_value (k_sem k s))
      (enqueue (sem_flag (k_sem k s)) (fun x => t_cur_prio (k_thr k x)) t
         (k_list k (LSusp (OSem s))))).
    { unfold sem_abs. rewrite Hs, Hl. f_equal. apply enqueue_ext. intros x. simpl.
      destruct (decide (x = t)) as [->|]; [by rewrite fupd_eq|by rewrite fupd_ne]. }
    rewrite Ha. split; [|done]. eapply Hab; [exact Ha|lia|]. intros _. lia.
Qed.

Lemma kdemo_callable : callable kdemo 1.
Proof. split; [done|apply kdemo_thread_ok|done|done]. Qed.

Lemma rt_sem_take_refines_witness :
  wp (_rt_sem_take_begin 1 25 RT_UNINTERRUPTIBLE) (fun r k' => kinv k' /\ sem_ok 1 k' /\
    (r, sem_abs 1 k') = asem_take
      (enqueue 0 (fun x => t_cur_prio (k_thr kdemo x)) 1) 25 (sem_abs 1 kdemo)) kdemo.
Proof.
  by apply (rt_sem_take_refines kdemo 1 1 25 RT_UNINTERRUPTIBLE kdemo_inv kdemo_callable).
Defined.

(** * Both ends of a wait *)

Lemma take_result_wp Q k t :
  Q (if negb (t_error (k_thr k t) =? RT_EOK)
     then (if 0 <? t_error (k_thr k t) then - t_error (k_thr k t) else t_error (k_thr k t))
     else RT_EOK) k ->
  wp (take_result t) Q k.
Proof. done. Qed.

(** a release hands its unit to the first waiter: the waiter becomes runnable,
    its pending [rt_sem_take] returns [RT_EOK], the value is unchanged, and the
    waiters behind it keep their order. *)
Lemma sem_release_handoff k s t q :
  kinv k -> typed k (OSem s) RT_Object_Class_Semaphore -> can_sched k ->
  k_list k (LSusp (OSem s)) = t :: q ->
  wp (rt_sem_release s;; take_result t) (fun r k' => r = RT_EOK /\ kinv k' /\
    active (k_thr k' t) /\ k_sem k' = k_sem k /\ k_list k' (LSusp (OSem s)) = q) k.
Proof.
  intros Hk Hty Hc El. wp_step. eapply wp_mono; [by apply rt_sem_release_wp|].
  intros r k' [Hk' Hr]. rewrite El in Hr. destruct Hr as [-> R]. apply take_result_wp.
  rewrite (rs_self _ _ _ _ R). simpl. split; [done|]. split; [done|]. split; [apply R|].
  split; [exact (f_equal k_sem (rs_obj _ _ _ _ R))|].
  exact (f_equal a_queue (sem_abs_resumed s _ t q k k' Hk R El)).
Qed.

Lemma sem_release_handoff_witness :
  wp (rt_sem_release 1;; take_result 2) (fun r k' => r = RT_EOK /\ kinv k' /\
    active (k_thr k' 2%positive) /\ k_sem k' = k_sem kdemo /\
    k_list k' (LSusp (OSem 1)) = []) kdemo.
Proof. by apply (sem_release_handoff kdemo 1 2 [] kdemo_inv eq_refl kdemo_can_sched). Defined.

(** when the timer of a waiting thread expires, the thread leaves the queue
    and its pending [rt_sem_take] returns [-RT_ETIMEOUT]; the semaphore's value is
    unchanged and the other waiters keep their order. *)
Lemma sem_take_timeout k s t :
  kinv_but t k -> typed k (OThread t) RT_Object_Class_Thread ->
  t ∈ k_list k (LSusp (OSem s)) ->
  wp (_thread_timeout t;; take_result t) (fun r k' => r = - RT_ETIMEOUT /\ kinv k' /\
    active (k_thr k' t) /\ k_sem k' = k_sem k /\
    k_list k' (LSusp (OSem s)) = filter (fun x => x <> t) (k_list k (LSusp (OSem s)))) k.
Proof.
  intros Hk Hty Hin. wp_step.
  assert (Hs : suspended (k_thr k t)) by exact (rq_in _ _ (kwf_rq _ (kb_wf _ _ Hk)) _ _ Hin).
  eapply wp_mono; [by apply thread_timeout_wp|]. intros _ k' [Hk' T]. apply take_result_wp.
  rewrite (to_self _ _ _ T). simpl. split; [done|]. split; [done|]. split; [apply T|].
  split; [exact (f_equal k_sem (to_rest _ _ _ T))|]. by apply (to_list _ _ _ T).
Qed.

Lemma sem_take_timeout_witness :
  wp (_thread_timeout 2;; take_result 2) (fun r k' => r = - RT_ETIMEOUT /\ kinv k' /\
    active (k_thr k' 2%positive) /\ k_sem k' = k_sem kdemo /\
    k_list k' (LSusp (OSem 1)) = []) kdemo.
Proof.
  apply (sem_take_timeout kdemo 1 2 (kinv_kinv_but _ _ kdemo_inv)); [done|]. simpl. left.
Defined.

Definition kexpired : kernel :=
  set_k_tim (fupd 4%positive (mk_timer 16 60 40 (TF_thread 2)) demo_tim) (set_k_hard [] kdemo).

Lemma sem_release_lost_witness :
  wp (rt_sem_release 1) (fun r k' => r = RT_EOK /\ k_sem k' = k_sem kexpired /\
    k_list k' (LSusp (OSem 1)) = [2%positive] /\ suspended (k_thr k' 2%positive)) kexpired.
Proof.
  apply (sem_release_lost kexpired 1 2 []
    (kwf_ext kdemo kexpired (fun _ => eq_refl) (fun _ => eq_refl) eq_refl eq_refl (ki_wf _ kdemo_inv)));
    [simpl; lia|reflexivity|left; by eexists|reflexivity..].
Defined.
