(* ===== verification/Mutex.v ===== *)
(** Mutexes with priority inheritance and priority ceiling, src/ipc.c, and the
    part of src/thread.c that releases the mutexes of a dying thread.

    [k_taken] of a thread is its [taken_object_list]; a mutex has one
    [taken_list] node, so removing it takes the mutex out of whatever list holds
    it.  The walk of [_thread_update_priority] along the chain of blocked owners
    carries a fuel argument; running out is a failure ([None]). *)
From S2P Require Import Prelude KState SchedUp Object TimerCore SchedComm SuspList Sem Timer Thread Demo SemTake.
#[local] Open Scope Z_scope.

Definition mutex (m : oid) : K rt_mutex := gets (fun k => k_mutex k m).

Definition _mutex_update_priority (m : oid) : K Z :=
  l ← lst (LSusp (OMutex m));
  p ← match l with
      | thread :: _ => rt_sched_thread_get_curr_prio thread
      | [] => mret 0xff
      end;
  upd_mutex m (set_mtx_priority p);;
  mret p.

(** One round of the loop of [_thread_get_mutex_priority]. *)
Definition min_mutex_prio (mx : oid -> rt_mutex) (priority : Z) (m : oid) : Z :=
  let mutex_prio := mtx_priority (mx m) in
  let mutex_prio := if mutex_prio <? mtx_ceiling (mx m) then mutex_prio else mtx_ceiling (mx m) in
  if mutex_prio <? priority then mutex_prio else priority.

Definition _thread_get_mutex_priority (thread : tid) : K Z :=
  priority ← rt_sched_thread_get_init_prio thread;
  taken ← gets (fun k => k_taken k thread);
  mx ← gets k_mutex;
  mret (fold_left (min_mutex_prio mx) taken priority).

(** The loop of [_thread_update_priority], entered with [ret == RT_EOK]. *)
Fixpoint update_priority_loop (fuel : nat) (thread : tid) : K unit :=
  match fuel with
  | O => deref None
  | S n =>
      susp ← rt_sched_thread_is_suspended thread;
      if negb susp then mret tt else
      th ← thr thread;
      match t_pending th with
      | None => mret tt
      | Some pm =>
          ty ← rt_object_get_type (OMutex pm);
          if negb (ty =? RT_Object_Class_Mutex) then mret tt else
          rt_list_remove_thread thread;;
          mx ← mutex pm;
          ret ← rt_susp_list_enqueue (LSusp (OMutex pm)) thread (mtx_flag mx);
          if negb (ret =? RT_EOK) then mret tt else
          _mutex_update_priority pm;;
          owner ← deref (mtx_owner mx);
          mutex_priority ← _thread_get_mutex_priority owner;
          cur ← rt_sched_thread_get_curr_prio owner;
          if negb (mutex_priority =? cur) then
            rt_sched_thread_change_priority owner mutex_priority;;
            update_priority_loop n owner
          else mret tt
      end
  end.

Definition _thread_update_priority (fuel : nat) (thread : tid) (priority : Z) : K unit :=
  rt_sched_thread_change_priority thread priority;;
  update_priority_loop fuel thread.

Definition _check_and_update_prio (thread : tid) (m : oid) : K bool :=
  mx ← mutex m;
  cur ← rt_sched_thread_get_curr_prio thread;
  if negb (mtx_ceiling mx =? 0xff) || (cur =? mtx_priority mx) then
    priority ← _thread_get_mutex_priority thread;
    rt_sched_thread_change_priority thread priority;;
    mret true
  else mret false.

(** [rt_list_remove(&mutex->taken_list)] *)
Definition taken_remove (m : oid) : K unit :=
  modify (fun k => set_k_taken (fun t => filter (fun x => x <> m) (k_taken k t)) k).

(** [rt_list_insert_after(&thread->taken_object_list, &mutex->taken_list)] *)
Definition taken_push (thread : tid) (m : oid) : K unit :=
  modify (fun k => set_k_taken (fupd thread (m :: k_taken k thread) (k_taken k)) k).

Definition _mutex_before_delete_detach (m : oid) : K unit :=
  rt_spin_lock;;
  rt_susp_list_resume_all (LSusp (OMutex m)) RT_ERROR;;
  taken_remove m;;
  mx ← mutex m;
  match mtx_owner mx with
  | Some owner =>
      need_schedule ← _check_and_update_prio owner m;
      if (need_schedule : bool) then rt_sched_unlock_n_resched else mret tt
  | None => mret tt
  end;;
  rt_spin_unlock.

(** The fields set by [rt_mutex_init] and [rt_mutex_create]. *)
Definition mutex_object_init (m : oid) : K unit :=
  _ipc_object_init (LSusp (OMutex m));;
  upd_mutex m (fun _ => mk_mutex RT_IPC_FLAG_PRIO 0xff 0xff 0 None);;
  taken_remove m.

Definition rt_mutex_init (m : oid) (name : list Z) (flag : Z) : K Z :=
  rt_object_init (OMutex m) RT_Object_Class_Mutex name;;
  mutex_object_init m;;
  mret RT_EOK.

Definition rt_mutex_detach (m : oid) : K Z :=
  assert_type (OMutex m) RT_Object_Class_Mutex;;
  sys ← rt_object_is_systemobject (OMutex m);
  RT_ASSERT sys;;
  _mutex_before_delete_detach m;;
  rt_object_detach (OMutex m);;
  mret RT_EOK.

(** The recomputation after a waiter has left: the mutex priority from the new
    head, and the owner's when the waiter had its priority. *)
Definition waiter_left (fuel : nat) (m : oid) (thread : tid) : K unit :=
  mx ← mutex m;
  tp ← rt_sched_thread_get_curr_prio thread;
  need_update ← match mtx_owner mx with
                | Some o => op ← rt_sched_thread_get_curr_prio o; mret (op =? tp)
                | None => mret false
                end;
  _mutex_update_priority m;;
  (if (need_update : bool) then
     owner ← deref (mtx_owner mx);
     priority ← _thread_get_mutex_priority owner;
     cur ← rt_sched_thread_get_curr_prio owner;
     if negb (priority =? cur) then _thread_update_priority fuel owner priority else mret tt
   else mret tt).

Definition rt_mutex_drop_thread (fuel : nat) (m : oid) (thread : tid) : K unit :=
  RT_DEBUG_IN_THREAD_CONTEXT;;
  rt_spin_lock;;
  th ← thr thread;
  RT_ASSERT (bool_decide (t_pending th = Some m));;
  rt_list_remove_thread thread;;
  waiter_left fuel m thread;;
  rt_spin_unlock.

Definition rt_mutex_setprioceiling (fuel : nat) (m : oid) (priority : Z) : K Z :=
  RT_DEBUG_IN_THREAD_CONTEXT;;
  if priority <? RT_THREAD_PRIORITY_MAX then
    rt_spin_lock;;
    mx ← mutex m;
    upd_mutex m (set_mtx_ceiling priority);;
    match mtx_owner mx with
    | Some owner =>
        highest_prio ← _thread_get_mutex_priority owner;
        cur ← rt_sched_thread_get_curr_prio owner;
        if negb (highest_prio =? cur) then _thread_update_priority fuel owner highest_prio
        else mret tt
    | None => mret tt
    end;;
    rt_spin_unlock;;
    mret (mtx_ceiling mx)
  else mret 0xff.

Definition rt_mutex_getprioceiling (m : oid) : K Z :=
  RT_DEBUG_IN_THREAD_CONTEXT;;
  rt_spin_lock;;
  mx ← mutex m;
  rt_spin_unlock;;
  mret (mtx_ceiling mx).

Definition rt_mutex_create (name : list Z) (flag : Z) (memory : option oid) : K (option oid) :=
  RT_DEBUG_NOT_IN_INTERRUPT;;
  o ← rt_object_allocate RT_Object_Class_Mutex name (OMutex <$> memory);
  match o, memory with
  | Some _, Some m => mutex_object_init m;; mret (Some m)
  | _, _ => mret None
  end.

Definition rt_mutex_delete (m : oid) : K Z :=
  assert_type (OMutex m) RT_Object_Class_Mutex;;
  sys ← rt_object_is_systemobject (OMutex m);
  RT_ASSERT (negb sys);;
  RT_DEBUG_NOT_IN_INTERRUPT;;
  _mutex_before_delete_detach m;;
  rt_object_delete (OMutex m);;
  mret RT_EOK.

(** * Take *)

(** A free mutex becomes the caller's. *)
Definition mutex_take_free (fuel : nat) (m : oid) (thread : tid) : K unit :=
  upd_mutex m (fun mx => set_mtx_owner (Some thread) (set_mtx_priority 0xff (set_mtx_hold 1 mx)));;
  mx ← mutex m;
  (if negb (mtx_ceiling mx =? 0xff) then
     cur ← rt_sched_thread_get_curr_prio thread;
     if mtx_ceiling mx <? cur then _thread_update_priority fuel thread (mtx_ceiling mx)
     else mret tt
   else mret tt);;
  taken_push thread m.

(** The suspended caller passes its priority on to the owner. *)
Definition mutex_inherit (fuel : nat) (m : oid) (thread : tid) : K unit :=
  priority ← rt_sched_thread_get_curr_prio thread;
  mx ← mutex m;
  if priority <? mtx_priority mx then
    upd_mutex m (set_mtx_priority priority);;
    owner ← deref (mtx_owner mx);
    cur ← rt_sched_thread_get_curr_prio owner;
    if priority <? cur then _thread_update_priority fuel owner priority else mret tt
  else mret tt.

(** [_rt_mutex_take] up to the unlock that switches away. *)
Definition _rt_mutex_take_begin (fuel : nat) (m : oid) (timeout : Z) (sf : suspend_flag)
    : K (option Z) :=
  RT_DEBUG_SCHEDULER_AVAILABLE true;;
  assert_type (OMutex m) RT_Object_Class_Mutex;;
  self ← rt_thread_self;
  thread ← deref self;
  rt_spin_lock;;
  upd_thr thread (set_t_error RT_EOK);;
  mx ← mutex m;
  if decide (mtx_owner mx = Some thread) then
    if mtx_hold mx <? RT_MUTEX_HOLD_MAX then
      upd_mutex m (fun mx => set_mtx_hold (mtx_hold mx + 1) mx);;
      rt_spin_unlock;;
      mret (Some RT_EOK)
    else
      rt_spin_unlock;;
      mret (Some (- RT_EFULL))
  else
  match mtx_owner mx with
  | None =>
      mutex_take_free fuel m thread;;
      rt_spin_unlock;;
      mret (Some RT_EOK)
  | Some _ =>
      if timeout =? 0 then
        upd_thr thread (set_t_error RT_ETIMEOUT);;
        rt_spin_unlock;;
        mret (Some (- RT_ETIMEOUT))
      else
        ret ← rt_thread_suspend_to_list thread (Some (LSusp (OMutex m))) (mtx_flag mx) sf;
        if negb (ret =? RT_EOK) then rt_spin_unlock;; mret (Some ret) else
        upd_thr thread (set_t_pending (Some m));;
        mutex_inherit fuel m thread;;
        (if 0 <? timeout then arm_timeout thread timeout else mret tt);;
        rt_spin_unlock;;
        mret None
  end.

(** The rest, when the caller runs again. *)
Definition _rt_mutex_take_end (fuel : nat) (m : oid) (thread : tid) : K Z :=
  rt_schedule;;
  rt_spin_lock;;
  th ← thr thread;
  mx ← mutex m;
  if t_error th =? RT_EOK then
    RT_ASSERT (bool_decide (mtx_owner mx = Some thread));;
    rt_spin_unlock;;
    mret RT_EOK
  else
    RT_ASSERT (bool_decide (mtx_owner mx <> Some thread));;
    let ret := t_error th in
    waiter_left fuel m thread;;
    rt_spin_unlock;;
    upd_thr thread (set_t_pending None);;
    mret (if 0 <? ret then - ret else ret).

Definition rt_mutex_take (fuel : nat) (m : oid) (time : Z) : K (option Z) :=
  _rt_mutex_take_begin fuel m time RT_UNINTERRUPTIBLE.
Definition rt_mutex_take_interruptible (fuel : nat) (m : oid) (time : Z) : K (option Z) :=
  _rt_mutex_take_begin fuel m time RT_INTERRUPTIBLE.
Definition rt_mutex_take_killable (fuel : nat) (m : oid) (time : Z) : K (option Z) :=
  _rt_mutex_take_begin fuel m time RT_KILLABLE.
Definition rt_mutex_trytake (fuel : nat) (m : oid) : K (option Z) := rt_mutex_take fuel m 0.

(** * Release *)

(** The [do ... while] loop: the first waiter that can be made ready.  A waiter
    whose timer has expired is only taken off the list. *)
Fixpoint mutex_wake_loop (fuel : nat) (m : oid) : K (option tid) :=
  match fuel with
  | O => deref None
  | S n =>
      l ← lst (LSusp (OMutex m));
      next_thread ← deref (head l);
      susp ← rt_sched_thread_is_suspended next_thread;
      RT_ASSERT susp;;
      rt_list_remove_thread next_thread;;
      err ← rt_sched_thread_ready next_thread;
      if err =? RT_EOK then mret (Some next_thread) else
      l ← lst (LSusp (OMutex m));
      if is_nil l then mret None else mutex_wake_loop n m
  end.

(** Passing the released mutex on, or freeing it. *)
Definition mutex_pass_on (m : oid) : K bool :=
  l ← lst (LSusp (OMutex m));
  if negb (is_nil l) then
    next ← mutex_wake_loop (length l) m;
    match next with
    | Some next_thread =>
        upd_mutex m (fun mx => set_mtx_owner (Some next_thread) (set_mtx_hold 1 mx));;
        taken_push next_thread m;;
        upd_thr next_thread (set_t_pending None);;
        _mutex_update_priority m;;
        mret true
    | None =>
        upd_mutex m (fun mx => set_mtx_owner None (set_mtx_priority 0xff mx));;
        mret false
    end
  else
    upd_mutex m (fun mx => set_mtx_owner None (set_mtx_priority 0xff mx));;
    mret false.

Definition rt_mutex_release (m : oid) : K Z :=
  assert_type (OMutex m) RT_Object_Class_Mutex;;
  RT_DEBUG_IN_THREAD_CONTEXT;;
  self ← rt_thread_self;
  thread ← deref self;
  rt_spin_lock;;
  mx ← mutex m;
  if decide (mtx_owner mx <> Some thread) then
    upd_thr thread (set_t_error (- RT_ERROR));;
    rt_spin_unlock;;
    mret (- RT_ERROR)
  else
    upd_mutex m (fun mx => set_mtx_hold (u8 (mtx_hold mx - 1)) mx);;
    mx ← mutex m;
    need_schedule ←
      (if mtx_hold mx =? 0 then
         taken_remove m;;
         upd ← _check_and_update_prio thread m;
         passed ← mutex_pass_on m;
         mret (upd || passed)
       else mret false);
    rt_spin_unlock;;
    (if (need_schedule : bool) then rt_schedule else mret tt);;
    mret RT_EOK.

(** * A dying thread, src/thread.c *)

(** [rt_list_for_each_safe] over the taken mutexes: the list as it was, each
    release made in the context of the caller. *)
Fixpoint release_all (ms : list oid) : K unit :=
  match ms with
  | [] => mret tt
  | m :: r => rt_mutex_release m;; release_all r
  end.

Definition _thread_detach_from_mutex (fuel : nat) (thread : tid) : K unit :=
  rt_spin_lock_irqsave;;
  th ← thr thread;
  match t_pending th with
  | Some m =>
      ty ← rt_object_get_type (OMutex m);
      if ty =? RT_Object_Class_Mutex then
        rt_mutex_drop_thread fuel m thread;;
        upd_thr thread (set_t_pending None)
      else mret tt
  | None => mret tt
  end;;
  taken ← gets (fun k => k_taken k thread);
  release_all taken;;
  rt_spin_unlock_irqrestore.

Definition _thread_detach (fuel : nat) (thread : tid) : K Z :=
  rt_enter_critical;;
  error ← rt_thread_close thread;
  _thread_detach_from_mutex fuel thread;;
  rt_thread_defunct_enqueue thread;;
  rt_exit_critical_safe 0;;
  mret error.

Definition rt_thread_detach (fuel : nat) (thread : tid) : K Z :=
  assert_type (OThread thread) RT_Object_Class_Thread;;
  sys ← rt_object_is_systemobject (OThread thread);
  RT_ASSERT sys;;
  _thread_detach fuel thread.

Definition rt_thread_delete (fuel : nat) (thread : tid) : K Z :=
  assert_type (OThread thread) RT_Object_Class_Thread;;
  sys ← rt_object_is_systemobject (OThread thread);
  RT_ASSERT (negb sys);;
  _thread_detach fuel thread.

(** [rt_thread_control] *)
Inductive thread_cmd :=
  | RT_THREAD_CTRL_CHANGE_PRIORITY (priority : Z)
  | RT_THREAD_CTRL_STARTUP
  | RT_THREAD_CTRL_CLOSE
  | RT_THREAD_CTRL_INFO.

Definition rt_thread_control (fuel : nat) (thread : tid) (cmd : thread_cmd) : K Z :=
  assert_type (OThread thread) RT_Object_Class_Thread;;
  match cmd with
  | RT_THREAD_CTRL_CHANGE_PRIORITY priority => rt_sched_thread_change_priority thread priority
  | RT_THREAD_CTRL_STARTUP => rt_thread_startup thread
  | RT_THREAD_CTRL_CLOSE =>
      sys ← rt_object_is_systemobject (OThread thread);
      rt_err ← (if (sys : bool) then rt_thread_detach fuel thread else rt_thread_delete fuel thread);
      rt_schedule;;
      mret rt_err
  | RT_THREAD_CTRL_INFO => mret RT_EOK
  end.
