(* ===== verification/MutexInv.v ===== *)
(** Priority inheritance: the invariant of the mutexes and its preservation by
    priority changes and by the walk along blocked owners. *)
From stdpp Require Import sorting.
From S2P Require Import Prelude KState SchedUp Object TimerCore SchedComm SuspList Sem Timer Thread Demo SemTake Mutex.
#[local] Open Scope Z_scope.

Abbreviation waiters k m := (k_list k (LSusp (OMutex m))) (only parsing).
Abbreviation cur k t := (t_cur_prio (k_thr k t)) (only parsing).

Definition drop_opt (x : option tid) (l : list tid) : list tid :=
  match x with Some x => filter (fun w => w <> x) l | None => l end.

(** [x] is a thread whose priority has just changed: it may be out of order in
    the list it waits in.  [b] is a thread whose priority has yet to be
    recomputed from the mutexes it holds. *)
Record minv_ex (x b : option tid) (k : kernel) : Prop := mk_minv {
  mi_wait : forall m w, w ∈ waiters k m -> t_pending (k_thr k w) = Some m;
  mi_susp : forall m w, suspended (k_thr k w) -> t_pending (k_thr k w) = Some m ->
    w ∈ waiters k m;
  mi_sorted : forall m, prio_sorted (fun t => cur k t) (drop_opt x (waiters k m));
  mi_low : forall m w, Some w <> x -> w ∈ waiters k m -> mtx_priority (k_mutex k m) <= cur k w;
  mi_boost : forall m o, Some o <> b -> mtx_owner (k_mutex k m) = Some o ->
    cur k o <= mtx_priority (k_mutex k m);
  mi_taken : forall m o, mtx_owner (k_mutex k m) = Some o <-> m ∈ k_taken k o;
  mi_owned : forall m, waiters k m <> [] -> is_Some (mtx_owner (k_mutex k m));
  mi_flag : forall m, mtx_flag (k_mutex k m) = RT_IPC_FLAG_PRIO;
  mi_prio : forall m, 0 <= mtx_priority (k_mutex k m) <= 255;
  mi_ceil : forall m, 0 <= mtx_ceiling (k_mutex k m) <= 255;
  mi_init : forall t, 0 <= t_init_prio (k_thr k t) < RT_THREAD_PRIORITY_MAX;
  mi_typed : forall m w, t_pending (k_thr k w) = Some m -> typed k (OMutex m) RT_Object_Class_Mutex
}.

Abbreviation minv := (minv_ex None None) (only parsing).

(** Everything a priority walk leaves alone: states, owners, holds, who waits
    where.  Only priorities, and positions in mutex wait lists, change. *)
Record pframe (k k' : kernel) : Prop := mk_pframe {
  pf_stat : forall t, tstat (k_thr k' t) = tstat (k_thr k t);
  pf_thr : forall t, k_thr k' t = set_t_stat (t_stat (k_thr k' t))
    (set_t_mask (t_mask (k_thr k' t)) (set_t_cur_prio (cur k' t) (k_thr k t)));
  pf_list : forall l, (forall p, l <> LReady p) -> k_list k' l ≡ₚ k_list k l;
  pf_same : forall l, (forall p, l <> LReady p) -> (forall m, l <> LSusp (OMutex m)) ->
    k_list k' l = k_list k l;
  pf_mutex : forall m, k_mutex k' m =
    set_mtx_priority (mtx_priority (k_mutex k' m)) (k_mutex k m);
  pf_cur : k_cur k' = k_cur k;
  pf_rest : krest (set_k_mutex (k_mutex kernel0) k') = krest (set_k_mutex (k_mutex kernel0) k)
}.

#[global] Instance pframe_preorder : PreOrder pframe.
Proof.
  split.
  - intros k. split; auto; intros x; [by destruct (k_thr k x)|by destruct (k_mutex k x)].
  - intros a b c [S1 T1 L1 E1 M1 C1 R1] [S2 T2 L2 E2 M2 C2 R2]. split.
    + intros t. by rewrite S2, S1.
    + intros t. rewrite T2. rewrite T1. by destruct (k_thr a t).
    + intros l Hl. by rewrite L2, L1.
    + intros l H1 H2. by rewrite E2, E1.
    + intros m. rewrite M2, M1. by destruct (k_mutex a m).
    + congruence.
    + congruence.
Qed.

Section pframe_fields.
Context {k k' : kernel} (F : pframe k k').
Lemma pf_owner m : mtx_owner (k_mutex k' m) = mtx_owner (k_mutex k m).
Proof. by rewrite (pf_mutex _ _ F). Qed.
Lemma pf_hold m : mtx_hold (k_mutex k' m) = mtx_hold (k_mutex k m).
Proof. by rewrite (pf_mutex _ _ F). Qed.
Lemma pf_ceiling m : mtx_ceiling (k_mutex k' m) = mtx_ceiling (k_mutex k m).
Proof. by rewrite (pf_mutex _ _ F). Qed.
Lemma pf_pending t : t_pending (k_thr k' t) = t_pending (k_thr k t).
Proof. by rewrite (pf_thr _ _ F). Qed.
Lemma pf_ttmr t : t_ttmr (k_thr k' t) = t_ttmr (k_thr k t).
Proof. by rewrite (pf_thr _ _ F). Qed.
Lemma pf_error t : t_error (k_thr k' t) = t_error (k_thr k t).
Proof. by rewrite (pf_thr _ _ F). Qed.
Lemma pf_init t : t_init_prio (k_thr k' t) = t_init_prio (k_thr k t).
Proof. by rewrite (pf_thr _ _ F). Qed.
Lemma pf_suspended t : suspended (k_thr k' t) <-> suspended (k_thr k t).
Proof. unfold suspended. by rewrite (pf_stat _ _ F). Qed.
Lemma pf_taken : k_taken k' = k_taken k. Proof. exact (f_equal k_taken (pf_rest _ _ F)). Qed.
Lemma pf_tim : k_tim k' = k_tim k. Proof. exact (f_equal k_tim (pf_rest _ _ F)). Qed.
Lemma pf_type : k_type k' = k_type k. Proof. exact (f_equal k_type (pf_rest _ _ F)). Qed.
Lemma pf_nest : k_lock_nest k' = k_lock_nest k.
Proof. exact (f_equal k_lock_nest (pf_rest _ _ F)). Qed.

Lemma pf_kinv : kwf k' -> kinv k -> kinv k'.
Proof.
  intros W [_ A N]. split; [done| |by rewrite pf_nest]. intros t. unfold typed.
  rewrite pf_suspended, pf_ttmr, pf_tim, pf_type. apply A.
Qed.
End pframe_fields.

(** * The chain of blocked owners *)

(** Following "waits for a mutex owned by" from [t], a thread that does not wait
    for a mutex is reached within [n] steps. *)
Inductive chain (k : kernel) : tid -> nat -> Prop :=
  | chain_end t n :
      ~ (suspended (k_thr k t) /\ is_Some (t_pending (k_thr k t))) -> chain k t n
  | chain_next t m o n :
      suspended (k_thr k t) -> t_pending (k_thr k t) = Some m ->
      mtx_owner (k_mutex k m) = Some o -> chain k o n -> chain k t (S n).

Lemma chain_pframe k k' t n : pframe k k' -> chain k t n -> chain k' t n.
Proof.
  intros F. induction 1 as [t n H|t m o n Hs Hp Ho _ IH].
  - apply chain_end. by rewrite (pf_suspended F), (pf_pending F).
  - eapply chain_next; [by apply (pf_suspended F)|by rewrite (pf_pending F)
      |by rewrite (pf_owner F)|done].
Qed.

(** * Changing a priority *)

Lemma change_prio_pframe k t p :
  kinv k -> 0 <= p < RT_THREAD_PRIORITY_MAX ->
  wp (rt_sched_thread_change_priority t p) (fun r k' => r = RT_EOK /\ kinv k' /\ pframe k k' /\
    cur k' t = p /\ k_mutex k' = k_mutex k /\
    (forall l, (forall p, l <> LReady p) -> k_list k' l = k_list k l) /\
    (forall x, x <> t -> k_thr k' x = k_thr k x)) k.
Proof.
  intros Hk Hp. eapply wp_mono; [by apply change_priority_wp; [apply Hk|]|].
  intros r k' (-> & W & Hc & Hr & Hl & Ho & Hst & Ht).
  assert (F : pframe k k').
  { split; try done.
    - intros x. destruct (decide (x = t)) as [->|]; [done|by rewrite Ho].
    - intros x. destruct (decide (x = t)) as [->|].
      + rewrite Ht. simpl. by destruct (k_thr k t).
      + rewrite Ho by done. by destruct (k_thr k x).
    - intros l Hnr. by rewrite Hl.
    - intros l Hnr _. by apply Hl.
    - intros m. rewrite (f_equal k_mutex Hr : k_mutex k' = k_mutex k). by destruct (k_mutex k m).
    - exact (f_equal (fun z => set_k_mutex (k_mutex kernel0) z) Hr). }
  split; [done|]. split; [by eapply pf_kinv|]. split; [done|].
  split; [by rewrite Ht|]. split; [exact (f_equal k_mutex Hr)|done].
Qed.

Lemma prio_sorted_ext f g l :
  (forall x, x ∈ l -> f x = g x) -> prio_sorted f l -> prio_sorted g l.
Proof.
  intros H S. unfold prio_sorted in *. induction S as [|a l S IH F]; [constructor|].
  constructor; [apply IH; intros; apply H; by right|].
  rewrite Forall_forall in *. intros b Hb. rewrite <- !H; [auto|by right|left].
Qed.

Lemma prio_sorted_filter f (P : tid -> Prop) `{!forall x, Decision (P x)} l :
  prio_sorted f l -> prio_sorted f (filter P l).
Proof.
  unfold prio_sorted. induction 1 as [|a l S IH G]; [constructor|]. rewrite filter_cons.
  case_decide; [|done]. constructor; [done|]. rewrite Forall_forall in *.
  intros b [_ ?]%list_elem_of_filter. auto.
Qed.

(** Changing the priority of [t] to one that honours the mutexes it holds. *)
Lemma change_prio_minv k t p :
  kinv k -> minv_ex None (Some t) k -> 0 <= p < RT_THREAD_PRIORITY_MAX ->
  (forall m, mtx_owner (k_mutex k m) = Some t -> p <= mtx_priority (k_mutex k m)) ->
  wp (rt_sched_thread_change_priority t p) (fun r k' => r = RT_EOK /\ kinv k' /\ pframe k k' /\
    minv_ex (Some t) None k' /\ cur k' t = p /\
    (forall x, x <> t -> k_thr k' x = k_thr k x)) k.
Proof.
  intros Hk I Hp Hb. eapply wp_mono; [by apply change_prio_pframe|].
  intros r k' (-> & Hk' & F & Hc & Hm & Hl & Ho). do 3 (split; [done|]).
  assert (Hw : forall m, waiters k' m = waiters k m) by (intros; by apply Hl).
  destruct I as [i1 i2 i3 i4 i5 i6 i7 i8 i9 i10 i11 i12]. split; [|done].
  split.
  - intros m w. rewrite Hw, (pf_pending F). apply i1.
  - intros m w. rewrite Hw, (pf_pending F), (pf_suspended F). apply i2.
  - intros m. rewrite Hw. eapply prio_sorted_ext; [|apply prio_sorted_filter, (i3 m)].
    intros x [Hx _]%list_elem_of_filter. by rewrite Ho.
  - intros m w Hx. rewrite Hw, Hm, Ho by congruence. by apply i4.
  - intros m o _. rewrite Hm. intros Hm'. destruct (decide (o = t)) as [->|]; [rewrite Hc; auto|].
    rewrite Ho by done. apply i5; congruence.
  - intros m o. rewrite Hm, (pf_taken F). apply i6.
  - intros m. rewrite Hw, Hm. apply i7.
  - intros m. rewrite Hm. apply i8.
  - intros m. rewrite Hm. apply i9.
  - intros m. rewrite Hm. apply i10.
  - intros x. rewrite (pf_init F). apply i11.
  - intros m w. unfold typed. rewrite (pf_pending F), (pf_type F). apply i12.
Qed.

(** * The priority a thread owes to its mutexes *)

Lemma min_mutex_prio_min mx p m :
  min_mutex_prio mx p m = Z.min p (Z.min (mtx_priority (mx m)) (mtx_ceiling (mx m))).
Proof.
  unfold min_mutex_prio. destruct (mtx_priority (mx m) <? mtx_ceiling (mx m)) eqn:E1; zbool;
    case_bool; lia.
Qed.

Lemma min_mutex_prio_le mx p m : min_mutex_prio mx p m <= p.
Proof. rewrite min_mutex_prio_min. lia. Qed.

Lemma min_mutex_prio_mtx mx p m : min_mutex_prio mx p m <= mtx_priority (mx m).
Proof. rewrite min_mutex_prio_min. lia. Qed.

Lemma fold_min_le mx ms p : fold_left (min_mutex_prio mx) ms p <= p.
Proof.
  revert p. induction ms as [|m ms IH]; intros p; simpl; [lia|].
  specialize (IH (min_mutex_prio mx p m)). pose proof (min_mutex_prio_le mx p m). lia.
Qed.

Lemma fold_min_mtx mx ms p m : m ∈ ms -> fold_left (min_mutex_prio mx) ms p <= mtx_priority (mx m).
Proof.
  revert p. induction ms as [|a ms IH]; intros p; [by intros ?%elem_of_nil|].
  intros [->|Hm]%elem_of_cons; simpl; [|by apply IH].
  etransitivity; [apply fold_min_le|apply min_mutex_prio_mtx].
Qed.

Lemma fold_min_nonneg mx ms p :
  (forall m, 0 <= mtx_priority (mx m) /\ 0 <= mtx_ceiling (mx m)) -> 0 <= p ->
  0 <= fold_left (min_mutex_prio mx) ms p.
Proof.
  intros H. revert p. induction ms as [|a ms IH]; intros p Hp; simpl; [done|]. apply IH.
  rewrite min_mutex_prio_min. pose proof (H a). lia.
Qed.

(** What a thread owes: the most urgent of its own priority and those of the
    mutexes it holds and their ceilings. *)
Definition owed (k : kernel) (t : tid) : Z :=
  fold_left (min_mutex_prio (k_mutex k)) (k_taken k t) (t_init_prio (k_thr k t)).

Lemma get_mutex_priority_wp Q k t : Q (owed k t) k -> wp (_thread_get_mutex_priority t) Q k.
Proof. done. Qed.

Lemma owed_range x b k t : minv_ex x b k -> 0 <= owed k t < RT_THREAD_PRIORITY_MAX.
Proof.
  intros I. pose proof (mi_init _ _ _ I t). split.
  - apply fold_min_nonneg; [|lia]. intros m. pose proof (mi_prio _ _ _ I m).
    pose proof (mi_ceil _ _ _ I m). lia.
  - eapply Z.le_lt_trans; [apply fold_min_le|lia].
Qed.

Lemma owed_boost x b k t m :
  minv_ex x b k -> mtx_owner (k_mutex k m) = Some t -> owed k t <= mtx_priority (k_mutex k m).
Proof. intros I Hm. by apply fold_min_mtx, (mi_taken _ _ _ I). Qed.

(** A thread that waits nowhere is in order everywhere. *)
Lemma minv_drop_x x b k : minv_ex (Some x) b k -> (forall m, x ∉ waiters k m) -> minv_ex None b k.
Proof.
  intros [i1 i2 i3 i4 i5 i6 i7 i8 i9 i10 i11 i12] Hn. split; auto.
  - intros m. pose proof (list_unlink_id x (k_list k) (LSusp (OMutex m)) (Hn m)) as E.
    unfold list_unlink in E. specialize (i3 m). unfold drop_opt in *. by rewrite E in i3.
  - intros m w _ Hin. apply i4; [|done]. intros [= ->]. by eapply Hn.
Qed.

Lemma minv_not_waiting x b k :
  kinv k -> minv_ex (Some x) b k ->
  ~ (suspended (k_thr k x) /\ is_Some (t_pending (k_thr k x))) -> minv_ex None b k.
Proof.
  intros Hk I Hn. apply (minv_drop_x x); [done|]. intros m Hin. apply Hn. split.
  - eapply waiting_suspended; [done| |exact Hin]. done.
  - exists m. by apply (mi_wait _ _ _ I).
Qed.

(** The recorded priority of a mutex from the head of its list. *)
Definition head_prio (k : kernel) (m : oid) : Z :=
  match waiters k m with [] => 255 | w :: _ => cur k w end.

Definition put_mutex (m : oid) (r : rt_mutex) (k : kernel) : kernel :=
  set_k_mutex (fupd m r (k_mutex k)) k.

Lemma mutex_update_priority_wp Q k m :
  Q (head_prio k m) (put_mutex m (set_mtx_priority (head_prio k m) (k_mutex k m)) k) ->
  wp (_mutex_update_priority m) Q k.
Proof.
  intros HQ. unfold _mutex_update_priority, lst, upd_mutex, head_prio in *.
  do 2 wp_step. destruct (waiters k m) as [|w l];
    unfold rt_sched_thread_get_curr_prio, thr; by repeat wp_step.
Qed.

(** * One step of the walk: the waiter [x] is put in its new place *)

Lemma perm_take_out (x : tid) l :
  NoDup l -> x ∈ l -> x :: filter (fun w => w <> x) l ≡ₚ l.
Proof.
  intros Hnd Hin. apply NoDup_Permutation; [|done|].
  - apply NoDup_cons. split; [|by apply NoDup_filter]. by intros [? _]%list_elem_of_filter.
  - intros y. rewrite elem_of_cons, list_elem_of_filter. destruct (decide (y = x)); naive_solver.
Qed.

Definition requeued (x : tid) (m : oid) (k : kernel) : kernel :=
  set_k_list (fupd (LSusp (OMutex m))
    (prio_insert (fun t => cur k t) x (list_unlink x (k_list k) (LSusp (OMutex m))))
    (list_unlink x (k_list k))) k.

Section requeue.
Context (k : kernel) (x : tid) (m : oid).
Context (Hk : kinv k) (Hs : suspended (k_thr k x)) (Hin : x ∈ waiters k m).

Lemma requeued_list l : l <> LSusp (OMutex m) -> k_list (requeued x m k) l = k_list k l.
Proof.
  intros Hl. simpl. rewrite fupd_ne by done. apply list_unlink_id. intros Hx.
  apply Hl. by apply (rq_disj _ _ (kwf_rq _ (ki_wf _ Hk)) _ _ x).
Qed.

Lemma requeued_waiters :
  waiters (requeued x m k) m =
    prio_insert (fun t => cur k t) x (filter (fun w => w <> x) (waiters k m)).
Proof. simpl. by rewrite fupd_eq. Qed.

Lemma requeued_perm l : k_list (requeued x m k) l ≡ₚ k_list k l.
Proof.
  destruct (decide (l = LSusp (OMutex m))) as [->|Hl]; [|by rewrite requeued_list].
  rewrite requeued_waiters, prio_insert_perm. apply perm_take_out; [|done].
  apply (rq_nodup _ _ (kwf_rq _ (ki_wf _ Hk))).
Qed.

Lemma requeued_kwf : kwf (requeued x m k).
Proof.
  destruct (ki_wf _ Hk) as [W C]. split; [|by eapply curwf_ext; [..|exact C]].
  assert (W1 : rqwf (Some x) (set_k_list (list_unlink x (k_list k)) k))
    by (apply rqwf_unlink; [done|unfold suspended in Hs; stat_lia]).
  apply (rqwf_enqueue _ x (LSusp (OMutex m)) _ W1); simpl; [done|done| | |apply prio_insert_perm].
  - by apply (rq_prio _ _ W).
  - apply (rq_mask _ _ W); [done|]. unfold suspended in Hs. stat_lia.
Qed.
End requeue.

(** The head of a priority list is at least as urgent as the rest. *)
Lemma head_prio_low k m w :
  prio_sorted (fun t => cur k t) (waiters k m) -> w ∈ waiters k m -> head_prio k m <= cur k w.
Proof.
  unfold head_prio. destruct (waiters k m) as [|h l]; [by intros _ ?%elem_of_nil|].
  intros S. apply StronglySorted_inv in S as [_ F]. rewrite Forall_forall in F.
  intros [->|Hw]%elem_of_cons; [done|]. by apply F.
Qed.

Lemma head_prio_range k m : kinv k -> 0 <= head_prio k m <= 255.
Proof.
  intros Hk. unfold head_prio. destruct (waiters k m) as [|h l]; [lia|].
  pose proof (rq_prio _ _ (kwf_rq _ (ki_wf _ Hk)) h ltac:(done)).
  unfold RT_THREAD_PRIORITY_MAX in *. lia.
Qed.

(** The state after the waiter has moved and the mutex's priority is updated. *)
Definition rewalked (x : tid) (m : oid) (k : kernel) : kernel :=
  let k1 := requeued x m k in
  put_mutex m (set_mtx_priority (head_prio k1 m) (k_mutex k m)) k1.

Lemma rewalked_inv k x m o :
  kinv k -> minv_ex (Some x) None k -> suspended (k_thr k x) ->
  t_pending (k_thr k x) = Some m -> mtx_owner (k_mutex k m) = Some o ->
  kinv (rewalked x m k) /\ pframe k (rewalked x m k) /\ minv_ex None (Some o) (rewalked x m k).
Proof.
  intros Hk I Hs Hp Ho. pose proof (mi_susp _ _ _ I m x Hs Hp) as Hin.
  assert (Hkw : kwf (rewalked x m k)) by (by eapply kwf_ext; [..|apply (requeued_kwf k x m)]).
  assert (Hw : forall l, k_list (rewalked x m k) l = k_list (requeued x m k) l) by done.
  assert (F : pframe k (rewalked x m k)).
  { split; try done.
    - intros t. simpl. by destruct (k_thr k t).
    - intros l _. rewrite Hw. by apply requeued_perm.
    - intros l _ Hl. rewrite Hw. by apply requeued_list.
    - intros m'. simpl. unfold fupd. destruct (decide (m' = m)) as [->|]; [done|].
      by destruct (k_mutex k m'). }
  pose proof (pf_kinv F Hkw Hk) as Hk2. split; [done|]. split; [done|].
  assert (Hel : forall m' w, w ∈ waiters (rewalked x m k) m' <-> w ∈ waiters k m').
  { intros m' w. rewrite Hw, requeued_perm by done. done. }
  assert (Hsort : forall m', prio_sorted (fun t => cur k t) (waiters (requeued x m k) m')).
  { intros m'. destruct (decide (m' = m)) as [->|Hm'].
    - rewrite requeued_waiters. apply prio_insert_sorted, (mi_sorted _ _ _ I m).
    - rewrite requeued_list by (done || congruence).
      pose proof (mi_sorted _ _ _ I m') as S. unfold drop_opt in S.
      pose proof (list_unlink_id x (k_list k) (LSusp (OMutex m'))) as E. unfold list_unlink in E.
      rewrite E in S; [done|]. intros Hx%(mi_wait _ _ _ I). congruence. }
  split.
  - intros m' w. rewrite Hel. apply (mi_wait _ _ _ I).
  - intros m' w. rewrite Hel. apply (mi_susp _ _ _ I).
  - intros m'. apply Hsort.
  - intros m' w _ Hin'. simpl. destruct (decide (m' = m)) as [->|Hm'].
    + rewrite fupd_eq. exact (head_prio_low (requeued x m k) m w (Hsort m) Hin').
    + rewrite fupd_ne by done. apply Hel in Hin'. apply (mi_low _ _ _ I); [|done].
      intros [= ->]. apply (mi_wait _ _ _ I) in Hin'. congruence.
  - intros m' o' Hne. rewrite (pf_owner F). intros Ho'. simpl.
    rewrite fupd_ne by congruence. by apply (mi_boost _ _ _ I).
  - intros m' o'. rewrite (pf_owner F). apply (mi_taken _ _ _ I).
  - intros m' Hne. rewrite (pf_owner F). apply (mi_owned _ _ _ I). intros E. apply Hne.
    apply Permutation_nil_r. by rewrite (pf_list _ _ F), E.
  - intros m'. rewrite (pf_mutex _ _ F). apply (mi_flag _ _ _ I).
  - intros m'. simpl. destruct (decide (m' = m)) as [->|].
    + rewrite fupd_eq. apply (head_prio_range (rewalked x m k) m Hk2).
    + rewrite fupd_ne by done. apply (mi_prio _ _ _ I).
  - intros m'. rewrite (pf_ceiling F). apply (mi_ceil _ _ _ I).
  - apply (mi_init _ _ _ I).
  - apply (mi_typed _ _ _ I).
Qed.

(** * The walk *)

Lemma is_suspended_wp Q k t : Q (4 <=? tstat (k_thr k t)) k -> wp (rt_sched_thread_is_suspended t) Q k.
Proof.
  intros HQ. unfold rt_sched_thread_is_suspended, thr. do 3 wp_step. by rewrite suspend_test.
Qed.

(** When nothing is left to recompute. *)
Lemma minv_settled b k :
  minv_ex None (Some b) k -> (forall m, mtx_owner (k_mutex k m) = Some b ->
    cur k b <= mtx_priority (k_mutex k m)) -> minv k.
Proof.
  intros [i1 i2 i3 i4 i5 i6 i7 i8 i9 i10 i11 i12] Hb. split; auto.
  intros m o _ Ho. destruct (decide (o = b)) as [->|]; [auto|]. apply i5; congruence.
Qed.

(** The walk restores the invariant: whoever waits anywhere along the chain is no
    more urgent than the owner it waits for. *)
Lemma update_loop_wp fuel k x n :
  kinv k -> minv_ex (Some x) None k -> chain k x n -> (n < fuel)%nat ->
  wp (update_priority_loop fuel x) (fun _ k' => kinv k' /\ pframe k k' /\ minv k') k.
Proof.
  revert k x n. induction fuel as [|fuel IH]; intros k x n Hk I Hch Hn; [lia|].
  cbn [update_priority_loop]. wp_step. apply is_suspended_wp.
  assert (Hstop : ~ (suspended (k_thr k x) /\ is_Some (t_pending (k_thr k x))) ->
    kinv k /\ pframe k k /\ minv k).
  { intros Hno. split; [done|]. split; [done|]. by eapply minv_not_waiting. }
  case_bool; [wp_step; apply Hstop; unfold suspended; stat_lia|].
  unfold thr. do 2 wp_step. destruct (t_pending (k_thr k x)) as [m|] eqn:Hp.
  2:{ wp_step. apply Hstop. by intros [_ [? ?]]. }
  inversion Hch as [? ? Hno|? m' o n' Hs Hp' Ho Hch' E1 E2]; subst.
  { exfalso. apply Hno. rewrite Hp. split; [unfold suspended; stat_lia|by eexists]. }
  assert (m' = m) as -> by congruence.
  wp_step. unfold rt_object_get_type. wp_step.
  rewrite (mi_typed _ _ _ I m x Hp : Z.land _ _ = _). simpl.
  unfold rt_list_remove_thread, mutex. do 5 wp_step.
  apply susp_enqueue_wp; [right; apply (mi_flag _ _ _ I)|].
  change (RT_EOK =? RT_EOK) with true. cbn [negb]. wp_step. simpl.
  rewrite (mi_flag _ _ _ I m). unfold enqueue at 1. simpl.
  fold (requeued x m k). apply mutex_update_priority_wp.
  destruct (rewalked_inv k x m o Hk I Hs Hp Ho) as (Hk1 & F1 & I1).
  change (put_mutex m _ (requeued x m k)) with (rewalked x m k).
  set (k1 := rewalked x m k) in *.
  do 1 wp_step. eapply wp_deref; [exact Ho|]. wp_step. apply get_mutex_priority_wp. wp_step.
  unfold rt_sched_thread_get_curr_prio, thr. do 3 wp_step.
  pose proof (owed_range _ _ _ o I1) as Hr.
  case_bool.
  - wp_step. eapply wp_mono; [apply change_prio_minv; [done|done|done|]|].
    { intros m' Hm'. by apply (owed_boost _ _ _ _ _ I1). }
    intros r k2 (_ & Hk2 & F2 & I2 & _). assert (F : pframe k k2) by (by transitivity k1).
    eapply wp_mono; [apply (IH k2 o n' Hk2 I2); [by eapply chain_pframe|lia]|].
    intros _ k3 (Hk3 & F3 & I3). split; [done|]. split; [by transitivity k2|done].
  - wp_step. split; [done|]. split; [done|]. apply (minv_settled o); [done|].
    intros m' Hm'. rewrite <- E0. by apply (owed_boost _ _ _ _ _ I1).
Qed.

(** Raising the owner to a waiter's priority, and the walk. *)
Lemma update_priority_wp fuel k t p n :
  kinv k -> minv_ex None (Some t) k -> 0 <= p < RT_THREAD_PRIORITY_MAX ->
  (forall m, mtx_owner (k_mutex k m) = Some t -> p <= mtx_priority (k_mutex k m)) ->
  chain k t n -> (n < fuel)%nat ->
  wp (_thread_update_priority fuel t p) (fun _ k' => kinv k' /\ pframe k k' /\ minv k') k.
Proof.
  intros Hk I Hp Hb Hch Hn. unfold _thread_update_priority. wp_step.
  eapply wp_mono; [by apply change_prio_minv|]. intros r k1 (_ & Hk1 & F1 & I1 & _).
  eapply wp_mono; [apply (update_loop_wp fuel k1 t n); auto; by eapply chain_pframe|].
  intros _ k2 (Hk2 & F2 & I2). split; [done|]. split; [by transitivity k1|done].
Qed.

(** * What leaves the mutex invariant alone *)

Lemma minv_ext x b k k' :
  (forall t, cur k' t = cur k t) -> (forall t, t_pending (k_thr k' t) = t_pending (k_thr k t)) ->
  (forall t, t_init_prio (k_thr k' t) = t_init_prio (k_thr k t)) ->
  (forall t, suspended (k_thr k' t) -> suspended (k_thr k t)) ->
  (forall m, waiters k' m = waiters k m) -> (forall m, k_mutex k' m = k_mutex k m) ->
  (forall t, k_taken k' t = k_taken k t) -> k_type k' = k_type k ->
  minv_ex x b k -> minv_ex x b k'.
Proof.
  intros Hc Hp Hi Hs Hw Hm Ht Hty [i1 i2 i3 i4 i5 i6 i7 i8 i9 i10 i11 i12]. split.
  - intros m w. rewrite Hw, Hp. apply i1.
  - intros m w. rewrite Hw, Hp. intros Hsw. by apply i2, Hs.
  - intros m. rewrite Hw. eapply prio_sorted_ext; [|apply i3]. intros; by rewrite Hc.
  - intros m w. rewrite Hw, Hm, Hc. apply i4.
  - intros m o. rewrite Hm, Hc. apply i5.
  - intros m o. rewrite Hm, Ht. apply i6.
  - intros m. rewrite Hw, Hm. apply i7.
  - intros m. rewrite Hm. apply i8.
  - intros m. rewrite Hm. apply i9.
  - intros m. rewrite Hm. apply i10.
  - intros t. rewrite Hi. apply i11.
  - intros m w. unfold typed. rewrite Hp, Hty. apply i12.
Qed.

Lemma minv_unlocked x b k k' : minv_ex x b k -> unlocked k k' -> minv_ex x b k'.
Proof.
  intros I U. pose proof (un_frame _ _ U) as F. eapply minv_ext; [..|exact I].
  - apply (sf_prio F).
  - apply (sf_pending F).
  - apply (sf_init_prio F).
  - intros t Hs. by destruct (th_frame_suspended _ _ (sf_thr _ _ F t) Hs).
  - intros m. by apply (sf_list _ _ F).
  - intros m. by rewrite (sf_mutex F).
  - intros t. by rewrite (sf_taken F).
  - apply (sf_type F).
Qed.

Lemma minv_thr_upd x b k t f :
  (forall th, t_cur_prio (f th) = t_cur_prio th /\ t_pending (f th) = t_pending th /\
     t_init_prio (f th) = t_init_prio th /\ tstat (f th) = tstat th) ->
  minv_ex x b k -> minv_ex x b (set_k_thr (fupd t (f (k_thr k t)) (k_thr k)) k).
Proof.
  intros Hf I. eapply minv_ext; [..|exact I]; try done; intros y; simpl;
    (destruct (decide (y = t)) as [->|]; [rewrite fupd_eq|rewrite fupd_ne by done; done]);
    destruct (Hf (k_thr k t)) as (H1 & H2 & H3 & H4); unfold suspended; congruence.
Qed.

Lemma minv_nest x b k n : minv_ex x b k -> minv_ex x b (set_k_lock_nest n k).
Proof. by apply minv_ext. Qed.

(** The chain of blocked owners from [t] does not lead to [a]. *)
Inductive chain_avoiding (a : tid) (k : kernel) : tid -> nat -> Prop :=
  | av_end t n : t <> a ->
      ~ (suspended (k_thr k t) /\ is_Some (t_pending (k_thr k t))) -> chain_avoiding a k t n
  | av_next t m o n : t <> a ->
      suspended (k_thr k t) -> t_pending (k_thr k t) = Some m ->
      mtx_owner (k_mutex k m) = Some o -> chain_avoiding a k o n -> chain_avoiding a k t (S n).

Lemma chain_avoiding_chain a k k' t n :
  (forall x, x <> a -> (suspended (k_thr k' x) <-> suspended (k_thr k x)) /\
     t_pending (k_thr k' x) = t_pending (k_thr k x)) ->
  (forall m, mtx_owner (k_mutex k' m) = mtx_owner (k_mutex k m)) ->
  chain_avoiding a k t n -> chain k' t n.
Proof.
  intros Hx Hm. induction 1 as [t n Ha H|t m o n Ha Hs Hp Ho _ IH].
  - apply chain_end. destruct (Hx t Ha) as [Hs Hp]. by rewrite Hs, Hp.
  - destruct (Hx t Ha) as [Hs' Hp']. eapply chain_next; [by apply Hs'|by rewrite Hp'
      |by rewrite Hm|done].
Qed.

(** * A new waiter *)

(** The running thread [t] has been suspended on mutex [m] and marked as pending
    there; the mutex's priority is lowered to its own if it is more urgent. *)
Lemma minv_new_waiter k k1 k2 t m o s :
  kinv k -> minv k -> running k t -> typed k (OMutex m) RT_Object_Class_Mutex ->
  mtx_owner (k_mutex k m) = Some o ->
  blocked (Some (LSusp (OMutex m))) RT_IPC_FLAG_PRIO s false t k k1 -> 4 <= s < 8 ->
  (forall l, k_list k2 l = k_list k1 l) ->
  (forall x, x <> t -> k_thr k2 x = k_thr k1 x) ->
  k_thr k2 t = set_t_pending (Some m) (k_thr k1 t) ->
  (forall m', m' <> m -> k_mutex k2 m' = k_mutex k1 m') ->
  k_mutex k2 m = set_mtx_priority (Z.min (cur k t) (mtx_priority (k_mutex k m))) (k_mutex k m) ->
  k_taken k2 = k_taken k1 -> k_type k2 = k_type k1 ->
  minv_ex None (Some o) k2.
Proof.
  intros Hk I [_ Hrun] Hty Ho B Hs Hl Hox Hot Hm' Hm Htk Htp.
  pose proof (bl_obj _ _ _ _ _ _ _ B) as Hob.
  assert (Hm1 : k_mutex k1 = k_mutex k) by exact (f_equal k_mutex Hob).
  assert (Htk1 : k_taken k1 = k_taken k) by exact (f_equal k_taken Hob).
  assert (Hcur : forall x, cur k2 x = cur k x).
  { intros x. destruct (decide (x = t)) as [->|Hx].
    - by rewrite Hot, (bl_self _ _ _ _ _ _ _ B).
    - by rewrite Hox, (bl_other _ _ _ _ _ _ _ B). }
  assert (Hpend : forall x, x <> t -> t_pending (k_thr k2 x) = t_pending (k_thr k x)).
  { intros x Hx. by rewrite Hox, (bl_other _ _ _ _ _ _ _ B). }
  assert (Hnt : forall m', t ∉ waiters k m').
  { intros m' Hin. assert (suspended (k_thr k t)) by (eapply waiting_suspended; [done| |exact Hin]; done).
    unfold suspended in *. stat_lia. }
  assert (Hw : forall m', m' <> m -> waiters k2 m' = waiters k m').
  { intros m' Hne. rewrite Hl, (bl_list _ _ _ _ _ _ _ B) by done. by rewrite decide_False by congruence. }
  assert (Hwm : waiters k2 m = prio_insert (fun x => cur k x) t (waiters k m)).
  { rewrite Hl, (bl_list _ _ _ _ _ _ _ B) by done. by rewrite decide_True. }
  assert (Hin : forall m' w, w ∈ waiters k2 m' <-> (w = t /\ m' = m) \/ w ∈ waiters k m').
  { intros m' w. destruct (decide (m' = m)) as [->|Hne]; [|rewrite Hw by done; naive_solver].
    rewrite Hwm, prio_insert_perm, elem_of_cons. naive_solver. }
  assert (Hown : forall m', mtx_owner (k_mutex k2 m') = mtx_owner (k_mutex k m')).
  { intros m'. destruct (decide (m' = m)) as [->|Hne]; [by rewrite Hm|by rewrite Hm', Hm1]. }
  assert (Hpt : t_pending (k_thr k2 t) = Some m) by (by rewrite Hot).
  split.
  - intros m' w. rewrite Hin. intros [[-> ->]|Hw']; [done|].
    rewrite Hpend; [by apply (mi_wait _ _ _ I)|]. intros ->. by eapply Hnt.
  - intros m' w Hsw Hpw. rewrite Hin. destruct (decide (w = t)) as [->|Hwt]; [left; split; congruence|].
    right. rewrite Hpend in Hpw by done. apply (mi_susp _ _ _ I); [|done].
    by rewrite Hox, (bl_other _ _ _ _ _ _ _ B) in Hsw.
  - intros m'. simpl. apply (prio_sorted_ext (fun x => cur k x)); [intros; by rewrite Hcur|].
    destruct (decide (m' = m)) as [->|Hne]; [|rewrite Hw by done; apply (mi_sorted _ _ _ I)].
    rewrite Hwm. apply prio_insert_sorted, (mi_sorted _ _ _ I m).
  - intros m' w _. rewrite Hin, Hcur. intros [[-> ->]|Hw']; [rewrite Hm; simpl; lia|].
    pose proof (mi_low _ _ _ I m' w ltac:(done) Hw').
    destruct (decide (m' = m)) as [->|Hne]; [rewrite Hm; simpl; lia|by rewrite Hm', Hm1].
  - intros m' o' Hne. rewrite Hown, Hcur. intros Ho'.
    rewrite Hm', Hm1 by congruence. by apply (mi_boost _ _ _ I).
  - intros m' o'. rewrite Hown, Htk, Htk1. apply (mi_taken _ _ _ I).
  - intros m' Hne. rewrite Hown. destruct (decide (m' = m)) as [->|]; [by eexists|].
    rewrite Hw in Hne by done. by apply (mi_owned _ _ _ I).
  - intros m'. destruct (decide (m' = m)) as [->|Hne]; [rewrite Hm|rewrite Hm', Hm1 by done];
      apply (mi_flag _ _ _ I).
  - intros m'. destruct (decide (m' = m)) as [->|Hne].
    + rewrite Hm. simpl. pose proof (mi_prio _ _ _ I m).
      pose proof (rq_prio _ _ (kwf_rq _ (ki_wf _ Hk)) t ltac:(done)). lia.
    + rewrite Hm', Hm1 by done. apply (mi_prio _ _ _ I).
  - intros m'. destruct (decide (m' = m)) as [->|Hne]; [rewrite Hm|rewrite Hm', Hm1 by done];
      apply (mi_ceil _ _ _ I).
  - intros x. destruct (decide (x = t)) as [->|Hx].
    + rewrite Hot, (bl_self _ _ _ _ _ _ _ B). apply (mi_init _ _ _ I).
    + rewrite Hox, (bl_other _ _ _ _ _ _ _ B) by done. apply (mi_init _ _ _ I).
  - intros m' w. unfold typed. rewrite Htp, (kobj_type _ _ Hob).
    destruct (decide (w = t)) as [->|Hwt]; [rewrite Hpt; intros [= <-]; done|].
    rewrite Hpend by done. apply (mi_typed _ _ _ I).
Qed.
