(* ===== verification/MutexTake.v ===== *)
(** Taking and releasing a mutex: mutual exclusion, ownership transfer and the
    preservation of priority inheritance. *)
From stdpp Require Import sorting.
From S2P Require Import Prelude KState SchedUp Object TimerCore SchedComm SuspList Sem Timer Thread Demo SemTake Mutex MutexInv.
#[local] Open Scope Z_scope.

(** * Taking a free mutex *)

Lemma minv_take_free k k' t m mx :
  minv k -> mtx_owner (k_mutex k m) = None -> mx = k_mutex k m ->
  (forall x, x <> t -> cur k' x = cur k x) -> cur k' t <= cur k t ->
  (forall x, t_pending (k_thr k' x) = t_pending (k_thr k x)) ->
  (forall x, t_init_prio (k_thr k' x) = t_init_prio (k_thr k x)) ->
  (forall x, suspended (k_thr k' x) <-> suspended (k_thr k x)) ->
  ~ suspended (k_thr k t) -> kinv k ->
  0 <= cur k' t < RT_THREAD_PRIORITY_MAX ->
  (forall m', waiters k' m' = waiters k m') ->
  (forall m', m' <> m -> k_mutex k' m' = k_mutex k m') ->
  k_mutex k' m = set_mtx_owner (Some t) (set_mtx_priority 0xff (set_mtx_hold 1 mx)) ->
  (forall x, x <> t -> k_taken k' x = k_taken k x) -> k_taken k' t = m :: k_taken k t ->
  k_type k' = k_type k -> minv k'.
Proof.
  intros I Hfree -> Hcx Hct Hp Hi Hs Hns Hk Hct2 Hw Hmo Hmm Htx Htt Hty.
  assert (Hnt : forall m', t ∉ waiters k m').
  { intros m' Hin. apply Hns. eapply waiting_suspended; [done| |exact Hin]. done. }
  assert (Hnw : waiters k m = []).
  { destruct (waiters k m) eqn:E; [done|]. destruct (mi_owned _ _ _ I m) as [? ?]; [by rewrite E|].
    congruence. }
  assert (Hcw : forall m' w, w ∈ waiters k m' -> cur k' w = cur k w).
  { intros m' w Hin. apply Hcx. intros ->. by eapply Hnt. }
  split.
  - intros m' w. rewrite Hw, Hp. apply (mi_wait _ _ _ I).
  - intros m' w. rewrite Hw, Hp, Hs. apply (mi_susp _ _ _ I).
  - intros m'. rewrite Hw. simpl. apply (prio_sorted_ext (fun x => cur k x)); [|apply (mi_sorted _ _ _ I m')].
    intros x Hx. symmetry. by eapply Hcw.
  - intros m' w _. rewrite Hw. intros Hin. rewrite (Hcw m' w Hin).
    destruct (decide (m' = m)) as [->|Hne]; [rewrite Hnw in Hin; by apply elem_of_nil in Hin|].
    rewrite Hmo by done. by apply (mi_low _ _ _ I).
  - intros m' o _. destruct (decide (m' = m)) as [->|Hne].
    + rewrite Hmm. simpl. intros [= <-]. unfold RT_THREAD_PRIORITY_MAX in *. lia.
    + rewrite Hmo by done. intros Ho. pose proof (mi_boost _ _ _ I m' o ltac:(done) Ho).
      destruct (decide (o = t)) as [->|]; [lia|by rewrite Hcx].
  - intros m' o. destruct (decide (m' = m)) as [->|Hne].
    + rewrite Hmm. simpl. destruct (decide (o = t)) as [->|Hot].
      * rewrite Htt. split; [intros _; left|done].
      * rewrite Htx by done. split; [congruence|]. intros Hin%(mi_taken _ _ _ I). congruence.
    + rewrite Hmo by done. destruct (decide (o = t)) as [->|Hot].
      * rewrite Htt, elem_of_cons, (mi_taken _ _ _ I). naive_solver.
      * rewrite Htx by done. apply (mi_taken _ _ _ I).
  - intros m'. rewrite Hw. destruct (decide (m' = m)) as [->|Hne]; [by rewrite Hnw|].
    rewrite Hmo by done. apply (mi_owned _ _ _ I).
  - intros m'. destruct (decide (m' = m)) as [->|Hne]; [rewrite Hmm|rewrite Hmo by done];
      apply (mi_flag _ _ _ I).
  - intros m'. destruct (decide (m' = m)) as [->|Hne]; [rewrite Hmm; simpl; lia|rewrite Hmo by done];
      apply (mi_prio _ _ _ I).
  - intros m'. destruct (decide (m' = m)) as [->|Hne]; [rewrite Hmm|rewrite Hmo by done];
      apply (mi_ceil _ _ _ I).
  - intros x. rewrite Hi. apply (mi_init _ _ _ I).
  - intros m' w. unfold typed. rewrite Hp, Hty. apply (mi_typed _ _ _ I).
Qed.

(** The state of the mutex after a free take, and who holds it. *)
Definition taken_by (t : tid) (m : oid) (k k' : kernel) : Prop :=
  k_mutex k' m = set_mtx_owner (Some t) (set_mtx_priority 0xff (set_mtx_hold 1 (k_mutex k m))) /\
  (forall m', m' <> m -> k_mutex k' m' = k_mutex k m').

Lemma update_loop_stop fuel k t :
  (0 < fuel)%nat -> ~ suspended (k_thr k t) ->
  forall Q : unit -> kernel -> Prop, Q tt k -> wp (update_priority_loop fuel t) Q k.
Proof.
  intros Hf Hs Q HQ. destruct fuel as [|n]; [lia|]. cbn [update_priority_loop]. wp_step.
  apply is_suspended_wp. case_bool; [by wp_step|]. unfold suspended in Hs. stat_lia.
Qed.

Lemma take_free_wp fuel k t m :
  kinv k -> minv k -> running k t -> mtx_owner (k_mutex k m) = None -> (0 < fuel)%nat ->
  wp (mutex_take_free fuel m t) (fun _ k' => kinv k' /\ minv k' /\ taken_by t m k k' /\
    k_lock_nest k' = k_lock_nest k) k.
Proof.
  intros Hk I [Hc Hr] Hfree Hf. assert (Hns : ~ suspended (k_thr k t)) by (unfold suspended; stat_lia).
  pose proof (rq_prio _ _ (kwf_rq _ (ki_wf _ Hk)) t ltac:(done)) as Hpr.
  unfold mutex_take_free, upd_mutex, mutex, rt_sched_thread_get_curr_prio, thr, taken_push.
  do 4 wp_step. simpl. rewrite fupd_eq. simpl.
  set (k1 := set_k_mutex _ k).
  assert (Hk1 : kinv k1) by (eapply kinv_ext; [..|exact Hk]; try done; apply Hk).
  assert (Hdone : forall k2, kinv k2 -> pframe k1 k2 -> k_mutex k2 = k_mutex k1 ->
    (forall l, (forall p, l <> LReady p) -> k_list k2 l = k_list k1 l) ->
    (forall x, x <> t -> k_thr k2 x = k_thr k1 x) -> cur k2 t <= cur k1 t ->
    let k' := set_k_taken (fupd t (m :: k_taken k2 t) (k_taken k2)) k2 in
    kinv k' /\ minv k' /\ taken_by t m k k' /\ k_lock_nest k' = k_lock_nest k).
  { intros k2 Hk2 F Hm2 Hl2 Ho2 Hct k'.
    assert (Hk' : kinv k') by (eapply kinv_ext; [..|exact Hk2]; try done; apply Hk2).
    assert (Htk : k_taken k2 = k_taken k) by apply (pf_taken F).
    split; [done|]. split; [|split; [split|apply (pf_nest F)]].
    - apply (minv_take_free k k' t m (k_mutex k m)); auto.
      + intros x Hx. simpl. by rewrite Ho2.
      + intros x. apply (pf_pending F).
      + intros x. apply (pf_init F).
      + intros x. apply (pf_suspended F).
      + by apply (rq_prio _ _ (kwf_rq _ (ki_wf _ Hk2))).
      + intros m'. by apply Hl2.
      + intros m' Hne. simpl. rewrite Hm2. simpl. by rewrite fupd_ne.
      + simpl. rewrite Hm2. simpl. by rewrite fupd_eq.
      + intros x Hx. simpl. by rewrite fupd_ne, Htk.
      + simpl. by rewrite fupd_eq, Htk.
      + apply (pf_type F).
    - simpl. rewrite Hm2. simpl. by rewrite fupd_eq.
    - intros m' Hne. simpl. rewrite Hm2. simpl. by rewrite fupd_ne. }
  wp_step. case_bool; [|do 2 wp_step; by apply Hdone].
  do 4 wp_step. simpl. case_bool; [|do 2 wp_step; by apply Hdone].
  unfold _thread_update_priority. wp_step.
  pose proof (mi_ceil _ _ _ I m) as Hcl.
  eapply wp_mono; [apply change_prio_pframe; [done|lia]|].
  intros r k2 (_ & Hk2 & F & Hc2 & Hm2 & Hl2 & Ho2).
  apply update_loop_stop; [done|rewrite (pf_suspended F); done|].
  wp_step. apply Hdone; auto. rewrite Hc2. simpl. lia.
Qed.

(** * Blocking on an owned mutex *)

(** Arming the timer of a suspended thread keeps both invariants. *)
Lemma arm_inv_wp k t tick :
  kinv k -> 1 <= k_lock_nest k -> thread_ok k t -> tick < tick_half ->
  wp (arm_timeout t tick) (fun _ k' => kinv k' /\ k_list k' = k_list k /\
    k_mutex k' = k_mutex k /\ k_lock_nest k' = k_lock_nest k /\
    (forall x, cur k' x = cur k x /\ tstat (k_thr k' x) = tstat (k_thr k x)) /\
    (minv k -> minv k') /\ kobj k' = kobj k /\ k_cur k' = k_cur k /\ t_ttmr (k_thr k' t) = true) k.
Proof.
  intros Hk Hn Htk Ht. eapply wp_mono; [by apply arm_wp; [apply Hk|..]|].
  intros _ k' (W & Ho & Hs & Hl & Hc & Hob & Hti & Hact & _ & _).
  assert (Hth : forall x (P : rt_thread -> Prop), (forall b, P (set_t_ttmr b (k_thr k x)) <-> P (k_thr k x)) ->
     (P (k_thr k' x) <-> P (k_thr k x))).
  { intros x P HP. destruct (decide (x = t)) as [->|Hx]; [by rewrite Hs|by rewrite Ho]. }
  assert (Hf : forall x, cur k' x = cur k x /\ tstat (k_thr k' x) = tstat (k_thr k x)).
  { intros x. destruct (decide (x = t)) as [->|Hx]; [by rewrite Hs|by rewrite Ho]. }
  split; [split|].
  - done.
  - intros x Hsx Htx. unfold typed. rewrite (kobj_type _ _ Hob).
    destruct (decide (x = t)) as [->|Hx]; [split; [apply Htk|done]|].
    rewrite Ho in Hsx, Htx by done. rewrite Hti; [by apply (ki_armed _ Hk)|]. intros [= ->]. done.
  - rewrite (kobj_nest _ _ Hob). apply Hk.
  - do 2 (split; [done || exact (f_equal k_mutex Hob)|]).
    split; [exact (kobj_nest _ _ Hob)|]. split; [done|]. split; [|by rewrite Hs]. intros I.
    eapply minv_ext; [..|exact I].
    + apply Hf.
    + intros x. destruct (decide (x = t)) as [->|Hx]; [by rewrite Hs|by rewrite Ho].
    + intros x. destruct (decide (x = t)) as [->|Hx]; [by rewrite Hs|by rewrite Ho].
    + intros x. unfold suspended. destruct (Hf x) as [_ ->]. done.
    + intros m. by rewrite Hl.
    + intros m. by rewrite (f_equal k_mutex Hob : k_mutex k' = k_mutex k).
    + intros x. by rewrite (f_equal k_taken Hob : k_taken k' = k_taken k).
    + apply (kobj_type _ _ Hob).
Qed.

(** The inheritance step of a new waiter. *)
Lemma inherit_wp fuel k k1 t m o s n :
  kinv k -> minv k -> running k t -> typed k (OMutex m) RT_Object_Class_Mutex ->
  mtx_owner (k_mutex k m) = Some o -> chain_avoiding t k o n -> (n < fuel)%nat ->
  blocked (Some (LSusp (OMutex m))) RT_IPC_FLAG_PRIO s false t k k1 -> 4 <= s < 8 -> kinv k1 ->
  wp (upd_thr t (set_t_pending (Some m));; mutex_inherit fuel m t)
     (fun _ k' => kinv k' /\ minv k' /\ t ∈ waiters k' m /\
        (forall x, tstat (k_thr k' x) = tstat (k_thr k1 x)) /\ k_tim k' = k_tim k1 /\
        k_type k' = k_type k1 /\ k_lock_nest k' = k_lock_nest k1 /\
        mtx_owner (k_mutex k' m) = Some o) k1.
Proof.
  intros Hk I Hrun Hty Ho Hch Hn B Hs Hk1. unfold upd_thr. do 2 wp_step.
  set (k2 := set_k_thr _ k1).
  assert (Hk2 : kinv k2).
  { destruct Hk1 as [W A N]. split; [by apply (kwf_upd_thr k1 t (set_t_pending (Some m)))| |done].
    intros x. simpl. destruct (decide (x = t)) as [->|]; [rewrite fupd_eq|rewrite fupd_ne by done];
      apply A. }
  assert (Hob : k_mutex k1 = k_mutex k) by exact (f_equal k_mutex (bl_obj _ _ _ _ _ _ _ B)).
  assert (Hct : cur k2 t = cur k t).
  { simpl. rewrite fupd_eq. simpl. by rewrite (bl_self _ _ _ _ _ _ _ B). }
  assert (Hco : o <> t -> cur k2 o = cur k o).
  { intros Hne. simpl. rewrite fupd_ne by done. by rewrite (bl_other _ _ _ _ _ _ _ B). }
  assert (Hot : o <> t) by (by inversion Hch).
  pose proof (mi_boost _ _ _ I m o ltac:(done) Ho) as Hbo.
  (* the state after the mutex's priority has been lowered if need be *)
  assert (Hk3 : forall k3, (forall l, k_list k3 l = k_list k2 l) -> k_thr k3 = k_thr k2 ->
    (forall m', m' <> m -> k_mutex k3 m' = k_mutex k1 m') ->
    k_mutex k3 m = set_mtx_priority (Z.min (cur k t) (mtx_priority (k_mutex k m))) (k_mutex k m) ->
    k_taken k3 = k_taken k1 -> k_type k3 = k_type k1 -> minv_ex None (Some o) k3).
  { intros k3 L3 T3 M3 M3m K3 Y3. apply (minv_new_waiter k k1 k3 t m o s); auto.
    - intros x Hx. rewrite T3. simpl. by rewrite fupd_ne.
    - rewrite T3. simpl. by rewrite fupd_eq. }
  assert (Hchain : forall k3, k_thr k3 = k_thr k2 ->
    (forall m', mtx_owner (k_mutex k3 m') = mtx_owner (k_mutex k m')) -> chain k3 o n).
  { intros k3 T3 M3. apply (chain_avoiding_chain t k); [|done|done]. intros x Hx. rewrite T3. simpl.
    rewrite fupd_ne by done. by rewrite (bl_other _ _ _ _ _ _ _ B). }
  assert (Htin : t ∈ waiters k2 m).
  { simpl. rewrite (bl_list _ _ _ _ _ _ _ B) by done. rewrite decide_True by done.
    rewrite enqueue_perm. left. }
  assert (Hst2 : forall x, tstat (k_thr k2 x) = tstat (k_thr k1 x)).
  { intros x. simpl. destruct (decide (x = t)) as [->|]; [by rewrite fupd_eq|by rewrite fupd_ne]. }
  unfold mutex_inherit, rt_sched_thread_get_curr_prio, thr, mutex, upd_mutex. do 6 wp_step.
  rewrite Hct. change (k_mutex k2 m) with (k_mutex k1 m). rewrite Hob. case_bool.
  - do 2 wp_step. set (k3 := set_k_mutex _ k2).
    assert (Hm3 : k_mutex k3 m = set_mtx_priority (cur k t) (k_mutex k m))
      by (simpl; by rewrite fupd_eq, Hob).
    assert (Hm3' : forall m', m' <> m -> k_mutex k3 m' = k_mutex k1 m')
      by (intros; simpl; by rewrite fupd_ne).
    assert (Hown3 : forall m', mtx_owner (k_mutex k3 m') = mtx_owner (k_mutex k m')).
    { intros m'. destruct (decide (m' = m)) as [->|]; [by rewrite Hm3|by rewrite Hm3', Hob]. }
    assert (I3 : minv_ex None (Some o) k3) by (apply Hk3; try done; rewrite Hm3, Z.min_l by lia; done).
    assert (Hki3 : kinv k3) by (eapply kinv_ext; [..|exact Hk2]; try done; apply Hk2).
    wp_step. eapply wp_deref; [exact Ho|]. do 4 wp_step. change (cur k3 o) with (cur k2 o).
    rewrite Hco by done. case_bool.
    + eapply wp_mono; [apply (update_priority_wp fuel k3 o (cur k t) n); auto|].
      * by apply (rq_prio _ _ (kwf_rq _ (ki_wf _ Hk))).
      * intros m' Hm'. rewrite Hown3 in Hm'. pose proof (mi_boost _ _ _ I m' o ltac:(done) Hm').
        destruct (decide (m' = m)) as [->|]; [rewrite Hm3; simpl; lia|rewrite Hm3', Hob by done; lia].
      * intros _ k4 (Hk4 & F4 & I4). do 2 (split; [done|]).
        split; [by rewrite (pf_list _ _ F4)|].
        split; [intros x; rewrite (pf_stat _ _ F4); apply Hst2|].
        split; [by rewrite (pf_tim F4)|]. split; [by rewrite (pf_type F4)|].
        split; [by rewrite (pf_nest F4)|]. by rewrite (pf_owner F4), Hown3.
    + wp_step. split; [done|]. split; [|do 5 (split; [done|]); by rewrite Hown3].
      apply (minv_settled o); [done|]. intros m' Hm'. rewrite Hown3 in Hm'.
      change (cur k3 o) with (cur k2 o). rewrite Hco by done.
      pose proof (mi_boost _ _ _ I m' o ltac:(done) Hm').
      destruct (decide (m' = m)) as [->|]; [rewrite Hm3; simpl; lia|rewrite Hm3', Hob by done; lia].
  - wp_step. split; [done|].
    assert (I2 : minv_ex None (Some o) k2).
    { apply Hk3; try done. change (k_mutex k2 m) with (k_mutex k1 m). rewrite Hob, Z.min_r by lia.
      by destruct (k_mutex k m). }
    split; [|do 5 (split; [done|]); change (k_mutex k2 m) with (k_mutex k1 m); by rewrite Hob].
    apply (minv_settled o); [done|]. intros m'. change (k_mutex k2 m') with (k_mutex k1 m').
    rewrite Hob, Hco by done. by apply (mi_boost _ _ _ I).
Qed.

(** * [rt_mutex_take] *)

Lemma unlock_minv_wp k :
  kinv k -> minv k -> 1 <= k_lock_nest k ->
  wp rt_spin_unlock (fun _ k' => kinv k' /\ minv k' /\ unlocked (unlock1 k) k') k.
Proof.
  intros Hk I Hn. apply spin_unlock_wp; [apply Hk|done|]. intros k' U.
  split; [eapply kinv_unlocked; [by apply kinv_unlock1|done]|]. split; [|done].
  eapply minv_unlocked; [|exact U]. by apply minv_nest.
Qed.

Lemma unlocked_mutex k k' : unlocked (unlock1 k) k' -> k_mutex k' = k_mutex k.
Proof. intros U. apply (sf_mutex (un_frame _ _ U)). Qed.

Lemma unlocked_tstat k k' t :
  unlocked (unlock1 k) k' -> suspended (k_thr k t) -> suspended (k_thr k' t).
Proof. intros U. apply (suspended_frame (unlock1 k) k' t (un_frame _ _ U)). Qed.

Lemma kinv_put_mutex m r k : kinv k -> kinv (put_mutex m r k).
Proof. intros H. eapply kinv_ext; [..|exact H]; try done. apply H. Qed.

(** A change of the hold count only. *)
Lemma minv_hold m h k : minv k -> minv (put_mutex m (set_mtx_hold h (k_mutex k m)) k).
Proof.
  assert (E : forall m', let mx := fupd m (set_mtx_hold h (k_mutex k m)) (k_mutex k) m' in
    mtx_owner mx = mtx_owner (k_mutex k m') /\ mtx_priority mx = mtx_priority (k_mutex k m') /\
    mtx_flag mx = mtx_flag (k_mutex k m') /\ mtx_ceiling mx = mtx_ceiling (k_mutex k m')).
  { intros m'. destruct (decide (m' = m)) as [->|]; [by rewrite fupd_eq|by rewrite fupd_ne]. }
  intros [i1 i2 i3 i4 i5 i6 i7 i8 i9 i10 i11 i12]. unfold put_mutex.
  split; simpl; auto; intros m'; destruct (E m') as (E1 & E2 & E3 & E4); simpl in *;
    rewrite ?E1, ?E2, ?E3, ?E4; auto.
Qed.

(** The result of a take that does not block. *)
Definition held (m : oid) (t : tid) (h : Z) (k' : kernel) : Prop :=
  mtx_owner (k_mutex k' m) = Some t /\ mtx_hold (k_mutex k' m) = h.

Lemma unlock_ret_wp {A} (r : A) (Q : A -> kernel -> Prop) k :
  kinv k -> minv k -> 1 <= k_lock_nest k ->
  (forall k', kinv k' -> minv k' -> unlocked (unlock1 k) k' -> Q r k') ->
  wp (rt_spin_unlock;; mret r) Q k.
Proof.
  intros Hk I Hn HQ. wp_step. eapply wp_mono; [by apply unlock_minv_wp|].
  intros _ k' (Hk' & I' & U). wp_step. by apply HQ.
Qed.

(** A thread that already owns the mutex takes it once more. *)
Lemma take_again_wp k t m :
  kinv k -> minv k -> 1 <= k_lock_nest k -> mtx_owner (k_mutex k m) = Some t ->
  wp (if mtx_hold (k_mutex k m) <? RT_MUTEX_HOLD_MAX then
        upd_mutex m (fun mx => set_mtx_hold (mtx_hold mx + 1) mx);; rt_spin_unlock;; mret (Some RT_EOK)
      else rt_spin_unlock;; mret (Some (- RT_EFULL)))
    (fun r k' => kinv k' /\ minv k' /\
      if mtx_hold (k_mutex k m) <? RT_MUTEX_HOLD_MAX
      then r = Some RT_EOK /\ held m t (mtx_hold (k_mutex k m) + 1) k'
      else r = Some (- RT_EFULL) /\ k_mutex k' = k_mutex k) k.
Proof.
  intros Hk I Hn Ho. case_bool.
  - unfold upd_mutex. do 2 wp_step.
    apply unlock_ret_wp; [by apply kinv_put_mutex|by apply minv_hold|simpl; lia|].
    intros k' Hk' I' U. do 3 (split; [done|]). unfold held.
    rewrite (unlocked_mutex _ _ U). simpl. by rewrite fupd_eq.
  - apply unlock_ret_wp; [done..|]. intros k' Hk' I' U. do 3 (split; [done|]).
    by rewrite (unlocked_mutex _ _ U).
Qed.

(** The end of a take that sleeps: the caller is on the queue of the mutex, whose
    owner is at least as urgent. *)
Lemma sleep_unlock_wp k t m o :
  kinv k -> minv k -> 1 <= k_lock_nest k -> t ∈ waiters k m -> mtx_owner (k_mutex k m) = Some o ->
  wp (rt_spin_unlock;; mret (None : option Z)) (fun r k' => kinv k' /\ minv k' /\ r = None /\
    suspended (k_thr k' t) /\ t ∈ waiters k' m /\ mtx_owner (k_mutex k' m) = Some o /\
    cur k' o <= cur k' t) k.
Proof.
  intros Hk I Hn Hin Ho. apply unlock_ret_wp; [done..|]. intros k' Hk' I' U. do 3 (split; [done|]).
  assert (Hin' : t ∈ waiters k' m) by (rewrite (sf_list _ _ (un_frame _ _ U)) by done; exact Hin).
  split; [eapply waiting_suspended; [done| |exact Hin']; done|]. split; [done|].
  assert (Ho' : mtx_owner (k_mutex k' m) = Some o) by (rewrite (unlocked_mutex _ _ U); exact Ho).
  split; [done|]. etransitivity; [by apply (mi_boost _ _ _ I' m o)|]. by apply (mi_low _ _ _ I').
Qed.

(** A take that must wait: suspension, inheritance along the chain, timer. *)
Lemma take_blocks_wp fuel k t m timeout sf o n :
  kinv k -> minv k -> 1 <= k_lock_nest k -> running k t -> thread_ok k t ->
  typed k (OMutex m) RT_Object_Class_Mutex -> mtx_owner (k_mutex k m) = Some o ->
  chain_avoiding t k o n -> (n < fuel)%nat -> timeout < tick_half ->
  wp (ret ← rt_thread_suspend_to_list t (Some (LSusp (OMutex m))) (mtx_flag (k_mutex k m)) sf;
      if negb (ret =? RT_EOK) then rt_spin_unlock;; mret (Some ret) else
      upd_thr t (set_t_pending (Some m));;
      mutex_inherit fuel m t;;
      (if 0 <? timeout then arm_timeout t timeout else mret tt);;
      rt_spin_unlock;; mret None)
    (fun r k' => kinv k' /\ minv k' /\ r = None /\ suspended (k_thr k' t) /\ t ∈ waiters k' m /\
       mtx_owner (k_mutex k' m) = Some o /\ cur k' o <= cur k' t) k.
Proof.
  intros Hk I Hnn Hrun Htk Hty Ho Hch Hn Hto. rewrite (mi_flag _ _ _ I m). wp_step.
  eapply wp_mono; [apply (suspend_wp k t (Some (LSusp (OMutex m)))); [done|lia|done|done|done]|].
  intros r k1 (-> & Hk1 & B & Htk1). change (RT_EOK =? RT_EOK) with true. cbn [negb].
  pose proof (inherit_wp fuel k k1 t m o (suspend_state sf) n Hk I Hrun Hty Ho Hch Hn B
    (suspend_state_range sf) Hk1) as H.
  apply wp_bind_inv in H. wp_step. eapply wp_mono; [exact H|]. clear H. intros [] k2 H.
  wp_step. eapply wp_mono; [exact H|]. clear H k2.
  intros _ k2 (Hk2 & I2 & Htin & Hst & Hti & Htp & Hn2 & Ho2).
  assert (Hn1 : k_lock_nest k1 = k_lock_nest k) by (apply kobj_nest, B).
  wp_step. case_bool; [|wp_step; apply sleep_unlock_wp; auto; lia].
  eapply wp_mono; [apply arm_inv_wp; [done|lia| |done]|].
  { destruct Htk1. split; unfold typed; rewrite ?Htp, ?Hti; done. }
  intros _ k3 (Hk3 & Hl3 & Hm3 & Hn3 & _ & I3 & _).
  apply sleep_unlock_wp; auto; [lia|by rewrite Hl3|by rewrite Hm3].
Qed.

Lemma chain_avoiding_thr t f k o n :
  chain_avoiding t k o n -> chain_avoiding t (set_k_thr (fupd t (f (k_thr k t)) (k_thr k)) k) o n.
Proof.
  induction 1 as [x n Hx Hno|x m' o' n Hx Hs Hp Ho' _ IH].
  - apply av_end; [done|]. simpl. by rewrite fupd_ne.
  - eapply av_next; [done|simpl; by rewrite fupd_ne|simpl; rewrite fupd_ne by done; exact Hp|exact Ho'|done].
Qed.

(** C2: [rt_mutex_take] on every branch, with priority inheritance.  A free mutex
    becomes the caller's with hold 1; its owner takes it again with hold + 1, up to
    255, then [-RT_EFULL]; on a mutex owned by another thread a zero timeout gives
    [-RT_ETIMEOUT] and changes no mutex, and any other leaves the caller suspended
    on it with the owner, and through it every owner that owner waits for, at least
    as urgent as all their waiters ([minv]).  The hypothesis excludes a deadlock:
    the chain of blocked owners does not lead back to the caller. *)
Theorem rt_mutex_take_spec fuel k t m timeout sf n :
  kinv k -> minv k -> callable k t -> typed k (OMutex m) RT_Object_Class_Mutex ->
  timeout < tick_half -> (n < fuel)%nat ->
  (forall o, mtx_owner (k_mutex k m) = Some o -> o <> t -> chain_avoiding t k o n) ->
  wp (_rt_mutex_take_begin fuel m timeout sf) (fun r k' => kinv k' /\ minv k' /\
    match mtx_owner (k_mutex k m) with
    | None => r = Some RT_EOK /\ held m t 1 k'
    | Some o =>
        if decide (o = t) then
          if mtx_hold (k_mutex k m) <? RT_MUTEX_HOLD_MAX
          then r = Some RT_EOK /\ held m t (mtx_hold (k_mutex k m) + 1) k'
          else r = Some (- RT_EFULL) /\ k_mutex k' = k_mutex k
        else if timeout =? 0 then r = Some (- RT_ETIMEOUT) /\ k_mutex k' = k_mutex k
        else r = None /\ suspended (k_thr k' t) /\ t ∈ waiters k' m /\
             mtx_owner (k_mutex k' m) = Some o /\ cur k' o <= cur k' t
    end) k.
Proof.
  intros Hk I C Hty Hto Hn Hch. pose proof (ki_nest _ Hk) as Hnn.
  unfold _rt_mutex_take_begin, rt_thread_self, mutex. wp_step.
  eapply scheduler_available_wp; [exact C|]. wp_step. apply assert_type_wp; [done|].
  do 3 wp_step. eapply wp_deref; [apply C|]. wp_step. apply spin_lock_wp. unfold upd_thr. do 4 wp_step.
  set (ke := set_k_thr _ (lock1 k)).
  assert (Hke : kinv ke) by (apply (kinv_put_error t RT_EOK (lock1 k)); by apply kinv_lock1).
  assert (Ie : minv ke) by (apply (minv_thr_upd None None (lock1 k) t (set_t_error RT_EOK));
    [done|by apply minv_nest]).
  assert (Hne : 1 <= k_lock_nest ke) by (simpl; lia).
  assert (Hrun : running ke t) by (split; [apply C|simpl; rewrite fupd_eq; apply C]).
  assert (Htk : thread_ok ke t) by (by destruct (ca_ok _ _ C)).
  change (k_mutex k) with (k_mutex ke) in *. destruct (mtx_owner (k_mutex ke m)) as [o|] eqn:Ho.
  2:{ rewrite decide_False by done. wp_step.
      eapply wp_mono; [apply (take_free_wp fuel ke t m); auto; lia|].
      intros _ k1 (Hk1 & I1 & [Hm1 _] & Hn1). apply unlock_ret_wp; [done..|lia|].
      intros k' Hk' I' U. do 3 (split; [done|]). unfold held. by rewrite (unlocked_mutex _ _ U), Hm1. }
  destruct (decide (o = t)) as [->|Hot].
  { rewrite decide_True by done. by apply take_again_wp. }
  rewrite decide_False by congruence. case_bool.
  - do 2 wp_step. apply unlock_ret_wp; [|by apply (minv_thr_upd None None ke t (set_t_error RT_ETIMEOUT))|done|].
    + by apply (kinv_put_error t RT_ETIMEOUT ke).
    + intros k' Hk' I' U. do 3 (split; [done|]). by rewrite (unlocked_mutex _ _ U).
  - apply (take_blocks_wp _ _ _ _ _ _ _ n); auto.
    apply (chain_avoiding_thr t (set_t_error RT_EOK) (lock1 k)). specialize (Hch o eq_refl Hot).
    clear -Hch. induction Hch; [by apply av_end|by eapply av_next].
Qed.

(** The waiter that was handed the mutex: its [_rt_mutex_take], running again
    with error [RT_EOK], finds itself the owner (the [RT_ASSERT] holds) and returns
    [RT_EOK]. *)
Lemma rt_mutex_take_end_owner fuel k t m :
  kinv k -> minv k -> k_cur k = Some t -> held m t 1 k -> t_error (k_thr k t) = RT_EOK ->
  wp (_rt_mutex_take_end fuel m t) (fun r k' => r = RT_EOK /\ kinv k' /\ minv k' /\ held m t 1 k') k.
Proof.
  intros Hk I Hc [Ho Hh] He. pose proof (ki_nest _ Hk) as Hn.
  unfold _rt_mutex_take_end, thr, mutex. wp_step.
  apply rt_schedule_unlocked_wp; [apply Hk|left; rewrite Hc; by eexists|]. intros k1 U.
  pose proof (un_frame _ _ U) as F. pose proof (kinv_unlocked _ _ Hk U) as Hk1.
  pose proof (minv_unlocked _ _ _ _ I U) as I1.
  wp_step. apply spin_lock_wp. do 4 wp_step. simpl. rewrite (sf_error F), He. simpl.
  wp_step. wp_step; [by rewrite (sf_mutex F), bool_decide_eq_true|]. wp_step.
  eapply wp_mono; [apply unlock_minv_wp; [by apply kinv_lock1|by apply minv_nest|]|].
  { simpl. rewrite (sf_nest F). lia. }
  intros _ k' (Hk' & I' & U'). wp_step. split; [done|]. split; [done|]. split; [done|].
  unfold held. rewrite (unlocked_mutex _ _ U'). simpl. by rewrite (sf_mutex F).
Qed.
