(* ===== verification/MutexRel.v ===== *)
(** Releasing a mutex: hand-over to the most urgent waiter and return to the
    priority the thread owes. *)
From stdpp Require Import sorting.
From S2P Require Import Prelude KState SchedUp Object TimerCore SchedComm SuspList Sem Timer Thread Demo SemTake Mutex MutexInv MutexTake.
#[local] Open Scope Z_scope.

(** The mutex invariant while [m] is between two owners. *)
Record minv_rel (m : oid) (k : kernel) : Prop := mk_minv_rel {
  mr_wait : forall m' w, w ∈ waiters k m' -> t_pending (k_thr k w) = Some m';
  mr_susp : forall m' w, suspended (k_thr k w) -> t_pending (k_thr k w) = Some m' ->
    w ∈ waiters k m';
  mr_sorted : forall m', prio_sorted (fun t => cur k t) (waiters k m');
  mr_low : forall m' w, w ∈ waiters k m' -> mtx_priority (k_mutex k m') <= cur k w;
  mr_boost : forall m' o, m' <> m -> mtx_owner (k_mutex k m') = Some o ->
    cur k o <= mtx_priority (k_mutex k m');
  mr_taken : forall m' o, m' <> m -> (mtx_owner (k_mutex k m') = Some o <-> m' ∈ k_taken k o);
  mr_free : forall o, m ∉ k_taken k o;
  mr_owned : forall m', m' <> m -> waiters k m' <> [] -> is_Some (mtx_owner (k_mutex k m'));
  mr_flag : forall m', mtx_flag (k_mutex k m') = RT_IPC_FLAG_PRIO;
  mr_prio : forall m', 0 <= mtx_priority (k_mutex k m') <= 255;
  mr_ceil : forall m', 0 <= mtx_ceiling (k_mutex k m') <= 255;
  mr_init : forall t, 0 <= t_init_prio (k_thr k t) < RT_THREAD_PRIORITY_MAX;
  mr_typed : forall m' w, t_pending (k_thr k w) = Some m' ->
    typed k (OMutex m') RT_Object_Class_Mutex
}.

(** Letting go: the hold count drops and the mutex leaves its owner's list. *)
Definition let_go (m : oid) (h : Z) (k : kernel) : kernel :=
  let k1 := put_mutex m (set_mtx_hold h (k_mutex k m)) k in
  set_k_taken (fun t => filter (fun x => x <> m) (k_taken k1 t)) k1.

Lemma let_go_mutex m h k m' :
  mtx_owner (k_mutex (let_go m h k) m') = mtx_owner (k_mutex k m') /\
  mtx_priority (k_mutex (let_go m h k) m') = mtx_priority (k_mutex k m') /\
  mtx_flag (k_mutex (let_go m h k) m') = mtx_flag (k_mutex k m') /\
  mtx_ceiling (k_mutex (let_go m h k) m') = mtx_ceiling (k_mutex k m').
Proof.
  simpl. destruct (decide (m' = m)) as [->|]; [by rewrite fupd_eq|by rewrite fupd_ne].
Qed.

Lemma let_go_inv m h k : kinv k -> minv k -> kinv (let_go m h k) /\ minv_rel m (let_go m h k).
Proof.
  intros Hk [i1 i2 i3 i4 i5 i6 i7 i8 i9 i10 i11 i12].
  split; [eapply kinv_ext; [..|exact Hk]; try done; apply Hk|].
  pose proof (let_go_mutex m h k) as E.
  split.
  - apply i1.
  - apply i2.
  - apply i3.
  - intros m' w. destruct (E m') as (_ & -> & _). by apply i4.
  - intros m' o _. destruct (E m') as (-> & -> & _). by apply i5.
  - intros m' o Hne. destruct (E m') as (-> & _). rewrite i6. simpl.
    rewrite list_elem_of_filter. naive_solver.
  - intros o. simpl. rewrite list_elem_of_filter. naive_solver.
  - intros m' _. destruct (E m') as (-> & _). apply i7.
  - intros m'. destruct (E m') as (_ & _ & -> & _). apply i8.
  - intros m'. destruct (E m') as (_ & -> & _). apply i9.
  - intros m'. destruct (E m') as (_ & _ & _ & ->). apply i10.
  - apply i11.
  - apply i12.
Qed.

(** A priority change of a thread that does not wait for a mutex, asleep or not. *)
Lemma minv_rel_prio m k k' t :
  kinv k -> minv_rel m k -> pframe k k' -> k_mutex k' = k_mutex k ->
  (forall l, (forall p, l <> LReady p) -> k_list k' l = k_list k l) ->
  (forall x, x <> t -> k_thr k' x = k_thr k x) -> (forall m', t ∉ waiters k m') ->
  (forall m', m' <> m -> mtx_owner (k_mutex k m') = Some t -> cur k' t <= mtx_priority (k_mutex k m')) ->
  minv_rel m k'.
Proof.
  intros Hk [i1 i2 i3 i4 i5 i6 i6f i7 i8 i9 i10 i11 i12] F Hm Hl Ho Hs Hb.
  assert (Hw : forall m', waiters k' m' = waiters k m') by (intros; by apply Hl).
  assert (Hc : forall m' w, w ∈ waiters k m' -> cur k' w = cur k w).
  { intros m' w Hin. rewrite Ho; [done|]. intros ->. by apply Hs in Hin. }
  split.
  - intros m' w. rewrite Hw, (pf_pending F). apply i1.
  - intros m' w. rewrite Hw, (pf_pending F), (pf_suspended F). apply i2.
  - intros m'. rewrite Hw. eapply prio_sorted_ext; [|apply i3]. intros x Hx. symmetry. by eapply Hc.
  - intros m' w. rewrite Hw, Hm. intros Hin. rewrite (Hc m' w Hin). auto.
  - intros m' o Hne. rewrite Hm. intros Hown. destruct (decide (o = t)) as [->|]; [auto|].
    rewrite Ho by done. auto.
  - intros m' o. rewrite Hm, (pf_taken F). apply i6.
  - intros o. rewrite (pf_taken F). apply i6f.
  - intros m'. rewrite Hw, Hm. apply i7.
  - intros m'. rewrite Hm. apply i8.
  - intros m'. rewrite Hm. apply i9.
  - intros m'. rewrite Hm. apply i10.
  - intros x. rewrite (pf_init F). apply i11.
  - intros m' w. unfold typed. rewrite (pf_pending F), (pf_type F). apply i12.
Qed.

Lemma owed_rel m k t :
  minv_rel m k -> 0 <= owed k t < RT_THREAD_PRIORITY_MAX /\
  forall m', m' <> m -> mtx_owner (k_mutex k m') = Some t -> owed k t <= mtx_priority (k_mutex k m').
Proof.
  intros I. pose proof (mr_init _ _ I t). split; [split|].
  - apply fold_min_nonneg; [|lia]. intros m'. pose proof (mr_prio _ _ I m').
    pose proof (mr_ceil _ _ I m'). lia.
  - eapply Z.le_lt_trans; [apply fold_min_le|lia].
  - intros m' Hne Hm'. by apply fold_min_mtx, (mr_taken _ _ I).
Qed.

(** [_check_and_update_prio] of the releasing thread. *)
Lemma check_update_wp k t m :
  kinv k -> minv_rel m k -> (forall m', t ∉ waiters k m') ->
  wp (_check_and_update_prio t m) (fun b k' => kinv k' /\ minv_rel m k' /\ pframe k k' /\
    k_mutex k' = k_mutex k /\ (forall m', waiters k' m' = waiters k m') /\
    (forall x, x <> t -> k_thr k' x = k_thr k x) /\
    (if b then cur k' t = owed k t
     else cur k' t = cur k t /\ mtx_ceiling (k_mutex k m) = 255 /\
          cur k t <> mtx_priority (k_mutex k m))) k.
Proof.
  intros Hk I Hs. unfold _check_and_update_prio, mutex, rt_sched_thread_get_curr_prio, thr.
  do 6 wp_step. destruct (owed_rel m k t I) as [Hr Hb]. case_bool.
  - wp_step. apply get_mutex_priority_wp. wp_step.
    eapply wp_mono; [by apply change_prio_pframe|].
    intros r k' (_ & Hk' & F & Hc & Hm & Hl & Ho). wp_step. split; [done|].
    split; [apply (minv_rel_prio m k k' t); auto; intros; rewrite Hc; auto|].
    split; [done|]. split; [done|]. split; [intros; by apply Hl|]. by split.
  - wp_step. split; [done|]. split; [done|]. split; [done|]. by repeat split.
Qed.

(** Without waiters the mutex becomes free. *)
Lemma minv_rel_free m k :
  minv_rel m k -> waiters k m = [] ->
  minv (put_mutex m (set_mtx_owner None (set_mtx_priority 255 (k_mutex k m))) k).
Proof.
  intros [i1 i2 i3 i4 i5 i6 i6f i7 i8 i9 i10 i11 i12] Hw. unfold put_mutex. split; simpl; auto.
  - intros m' w _. destruct (decide (m' = m)) as [->|]; [|rewrite fupd_ne by done; auto].
    rewrite Hw. by intros ?%elem_of_nil.
  - intros m' o _. destruct (decide (m' = m)) as [->|]; [by rewrite fupd_eq|rewrite fupd_ne by done; auto].
  - intros m' o. destruct (decide (m' = m)) as [->|]; [|rewrite fupd_ne by done; auto].
    rewrite fupd_eq. split; [done|]. by intros ?%i6f.
  - intros m'. destruct (decide (m' = m)) as [->|]; [by rewrite Hw|rewrite fupd_ne by done; auto].
  - intros m'. destruct (decide (m' = m)) as [->|]; [rewrite fupd_eq|rewrite fupd_ne by done]; apply i8.
  - intros m'. destruct (decide (m' = m)) as [->|]; [rewrite fupd_eq; simpl; lia|rewrite fupd_ne by done; apply i9].
  - intros m'. destruct (decide (m' = m)) as [->|]; [rewrite fupd_eq|rewrite fupd_ne by done]; apply i10.
Qed.

(** * Hand-over to the first waiter *)

(** Taking a suspended thread off its list. *)
Lemma kinv_unlink k t :
  kinv k -> suspended (k_thr k t) -> kinv (set_k_list (list_unlink t (k_list k)) k).
Proof.
  intros [[W C] A N] Hs. split; [split|done|done].
  - apply (rqwf_end t); simpl.
    + apply rqwf_unlink; [done|unfold suspended in Hs; stat_lia].
    + unfold suspended in Hs. stat_lia.
    + by apply (rq_prio _ _ W).
    + by apply (rq_mask _ _ W).
  - by eapply curwf_ext; [..|exact C].
Qed.

Lemma list_unlink_twice t f l : list_unlink t (list_unlink t f) l = list_unlink t f l.
Proof. apply list_unlink_id. by intros [? _]%list_unlink_in. Qed.

(** Under the kernel invariant the loop succeeds with the first waiter. *)
Lemma wake_loop_wp k m w q n :
  kinv k -> waiters k m = w :: q ->
  wp (mutex_wake_loop (S n) m) (fun r k' => r = Some w /\ kinv k' /\ resumed (-1) w k k') k.
Proof.
  intros Hk Hw. assert (Hs : suspended (k_thr k w)).
  { assert (Hin : w ∈ waiters k m) by (rewrite Hw; left).
    eapply waiting_suspended; [done| |exact Hin]. done. }
  cbn [mutex_wake_loop]. unfold lst. do 3 wp_step. rewrite Hw. eapply wp_deref; [done|].
  wp_step. apply is_suspended_wp. do 2 wp_step; [unfold suspended in Hs; apply Z.leb_le; stat_lia|].
  unfold rt_list_remove_thread. do 2 wp_step. wp_step.
  eapply wp_mono; [apply ready_inv_wp; [by apply kinv_unlink|done]|].
  intros r k' (-> & Hk' & R). change (RT_EOK =? RT_EOK) with true. cbn iota. wp_step.
  split; [done|]. split; [done|]. destruct R as [a b c d [t1 t2 t3 t4 t5] f g h].
  split; try done.
  - intros l Hl. rewrite d by done. apply list_unlink_twice.
  - split; unfold quiet in *; simpl in *; by destruct (t_ttmr (k_thr k w)).
Qed.

Lemma waiters_unlink k w q m' m :
  kinv k -> minv_rel m k -> waiters k m = w :: q ->
  list_unlink w (k_list k) (LSusp (OMutex m')) =
    if decide (m' = m) then q else waiters k m'.
Proof.
  intros Hk I Hw. case_decide as Hm.
  - subst. pose proof (rq_nodup _ _ (kwf_rq _ (ki_wf _ Hk)) (LSusp (OMutex m))) as Hnd.
    rewrite Hw in Hnd. apply NoDup_cons in Hnd as [Hn _].
    unfold list_unlink. rewrite Hw, filter_cons_False by naive_solver.
    exact (list_unlink_id w (fun _ => q) LDefunct Hn).
  - apply list_unlink_id. intros Hin%(mr_wait _ _ I).
    assert (Hin2 : w ∈ waiters k m) by (rewrite Hw; left). apply (mr_wait _ _ I) in Hin2. congruence.
Qed.

(** The new owner holds the mutex, is runnable, and is at least as urgent as
    those still waiting. *)
Lemma minv_handover k k' m w q :
  kinv k -> minv_rel m k -> waiters k m = w :: q -> kinv k' ->
  (forall x, x <> w -> th_frame (k_thr k x) (k_thr k' x)) ->
  cur k' w = cur k w -> t_pending (k_thr k' w) = None ->
  t_init_prio (k_thr k' w) = t_init_prio (k_thr k w) -> ~ suspended (k_thr k' w) ->
  (forall m', waiters k' m' = if decide (m' = m) then q else waiters k m') ->
  (forall m', m' <> m -> k_mutex k' m' = k_mutex k m') ->
  k_mutex k' m = set_mtx_priority (head_prio k' m) (set_mtx_owner (Some w) (set_mtx_hold 1 (k_mutex k m))) ->
  (forall x, k_taken k' x = if decide (x = w) then m :: k_taken k w else k_taken k x) ->
  k_type k' = k_type k -> minv k'.
Proof.
  intros Hk [i1 i2 i3 i4 i5 i6 i6f i7 i8 i9 i10 i11 i12] Hw Hk' Ho Hcw Hpw Hiw Hsw Hws Hmo Hmm Htk Hty.
  assert (Hc : forall x, cur k' x = cur k x).
  { intros x. destruct (decide (x = w)) as [->|Hx]; [done|]. destruct (Ho x Hx) as [-> _]. done. }
  assert (Hp : forall x, x <> w -> t_pending (k_thr k' x) = t_pending (k_thr k x)).
  { intros x Hx. destruct (Ho x Hx) as [-> _]. done. }
  assert (Hsub : forall m' x, x ∈ waiters k' m' -> x ∈ waiters k m' /\ x <> w).
  { intros m' x. rewrite Hws. intros Hin.
    assert (Hin' : x ∈ waiters k m') by (case_decide; [subst; rewrite Hw; by right|done]).
    split; [done|]. intros ->. case_decide as Hm.
    - subst. pose proof (rq_nodup _ _ (kwf_rq _ (ki_wf _ Hk)) (LSusp (OMutex m))) as Hnd.
      rewrite Hw in Hnd. by apply NoDup_cons in Hnd as [? _].
    - assert (Hin2 : w ∈ waiters k m) by (rewrite Hw; left).
      apply i1 in Hin', Hin2. congruence. }
  assert (Hsort : forall m', prio_sorted (fun t => cur k' t) (waiters k' m')).
  { intros m'. apply (prio_sorted_ext (fun t => cur k t)); [intros; by rewrite Hc|].
    rewrite Hws. case_decide; [subst|apply i3]. pose proof (i3 m) as S. rewrite Hw in S.
    by apply StronglySorted_inv in S as [? _]. }
  split.
  - intros m' x Hin. destruct (Hsub _ _ Hin) as [Hin' Hx]. rewrite Hp by done. auto.
  - intros m' x Hs Hpx. destruct (decide (x = w)) as [->|Hx]; [done|].
    destruct (th_frame_suspended _ _ (Ho x Hx) Hs) as [Hs' _]. rewrite Hp in Hpx by done.
    pose proof (i2 m' x Hs' Hpx) as Hin. rewrite Hws. case_decide; [|done]. subst.
    rewrite Hw in Hin. by apply elem_of_cons in Hin as [->|?].
  - apply Hsort.
  - intros m' x _ Hin. destruct (decide (m' = m)) as [->|Hne].
    + rewrite Hmm. simpl. by apply head_prio_low.
    + rewrite Hmo by done. rewrite Hc. apply i4. by apply Hsub in Hin as [? _].
  - intros m' o _. destruct (decide (m' = m)) as [->|Hne].
    + rewrite Hmm. simpl. intros [= <-]. unfold head_prio. rewrite Hws, decide_True by done.
      pose proof (rq_prio _ _ (kwf_rq _ (ki_wf _ Hk)) w ltac:(done)).
      destruct q as [|h q]; [rewrite Hc; unfold RT_THREAD_PRIORITY_MAX in *; lia|]. rewrite !Hc.
      pose proof (i3 m) as S. rewrite Hw in S. apply StronglySorted_inv in S as [_ F].
      by inversion F.
    + rewrite Hmo, Hc by done. auto.
  - intros m' o. rewrite Htk. destruct (decide (m' = m)) as [->|Hne].
    + rewrite Hmm. simpl. case_decide; [subst; split; [left|done]|].
      split; [congruence|]. by intros ?%i6f.
    + rewrite Hmo by done. case_decide; [subst|by apply i6]. rewrite elem_of_cons, i6 by done. naive_solver.
  - intros m'. rewrite Hws. destruct (decide (m' = m)) as [->|Hne].
    + intros _. rewrite Hmm. by eexists.
    + rewrite Hmo by done. auto.
  - intros m'. destruct (decide (m' = m)) as [->|Hne]; [rewrite Hmm|rewrite Hmo by done]; apply i8.
  - intros m'. destruct (decide (m' = m)) as [->|Hne]; [rewrite Hmm; simpl; by apply head_prio_range
      |rewrite Hmo by done; apply i9].
  - intros m'. destruct (decide (m' = m)) as [->|Hne]; [rewrite Hmm|rewrite Hmo by done]; apply i10.
  - intros x. destruct (decide (x = w)) as [->|Hx]; [rewrite Hiw; apply i11|].
    destruct (Ho x Hx) as [-> _]. apply i11.
  - intros m' x. unfold typed. rewrite Hty. destruct (decide (x = w)) as [->|Hx]; [by rewrite Hpw|].
    rewrite Hp by done. apply i12.
Qed.

(** Who holds the mutex after a complete release. *)
Definition passed_on (m : oid) (k k' : kernel) : Prop :=
  match waiters k m with
  | [] => mtx_owner (k_mutex k' m) = None
  | w :: q => held m w 1 k' /\ waiters k' m = q /\ active (k_thr k' w) /\
      t_pending (k_thr k' w) = None /\ t_error (k_thr k' w) = t_error (k_thr k w)
  end.

Lemma pass_on_wp k m :
  kinv k -> minv_rel m k ->
  wp (mutex_pass_on m) (fun _ k' => kinv k' /\ minv k' /\ passed_on m k k' /\
    k_lock_nest k' = k_lock_nest k /\ (is_Some (k_cur k) -> is_Some (k_cur k')) /\
    k_dev k' = k_dev k /\ (forall x, x ∉ waiters k m -> th_frame (k_thr k x) (k_thr k' x))) k.
Proof.
  intros Hk I. unfold mutex_pass_on, lst, upd_mutex. do 2 wp_step. unfold passed_on.
  destruct (waiters k m) as [|w q] eqn:Hw; cbn [is_nil negb].
  - do 3 wp_step. split; [by apply kinv_put_mutex|]. split; [by apply minv_rel_free|].
    simpl. rewrite fupd_eq. done.
  - wp_step. eapply wp_mono; [by apply (wake_loop_wp k m w q)|]. intros r k1 (-> & Hk1 & R).
    unfold taken_push, upd_thr. do 6 wp_step. wp_step. apply mutex_update_priority_wp. wp_step.
    set (k2 := set_k_thr _ _). set (k' := put_mutex m _ k2).
    assert (Ekm : k_mutex k1 = k_mutex k) by exact (f_equal k_mutex (rs_obj _ _ _ _ R)).
    assert (Ekt : k_taken k1 = k_taken k) by exact (f_equal k_taken (rs_obj _ _ _ _ R)).
    assert (Etw : k_thr k' w = set_t_pending None (k_thr k1 w)) by (simpl; by rewrite fupd_eq).
    assert (Eto : forall x, x <> w -> k_thr k' x = k_thr k1 x) by (intros; simpl; by rewrite fupd_ne).
    assert (Ew : forall m', waiters k' m' = if decide (m' = m) then q else waiters k m').
    { intros m'. rewrite <- (waiters_unlink k w q m' m Hk I Hw). by apply (rs_list _ _ _ _ R). }
    assert (Hact : active (k_thr k' w)) by (rewrite Etw; apply (rs_active _ _ _ _ R)).
    assert (Hk2 : kinv k').
    { destruct Hk1 as [W A N]. split; [|intros x|done].
      - eapply kwf_ext; [..|exact (kwf_upd_thr k1 w (set_t_pending None) ltac:(done) W)]; done.
      - destruct (decide (x = w)) as [->|Hx]; [rewrite Etw|rewrite Eto by done]; apply A. }
    assert (Emm : k_mutex k' m = set_mtx_priority (head_prio k' m)
       (set_mtx_owner (Some w) (set_mtx_hold 1 (k_mutex k m)))).
    { simpl. rewrite !fupd_eq. by rewrite Ekm. }
    split; [done|]. split; [|split; [|split; [exact (kobj_nest _ _ (rs_obj _ _ _ _ R))|split; [apply R|split]]]].
    + apply (minv_handover k k' m w q); auto.
      * intros x Hx. rewrite Eto by done. by apply (rs_other _ _ _ _ R).
      * by rewrite Etw, (rs_self _ _ _ _ R).
      * by rewrite Etw.
      * by rewrite Etw, (rs_self _ _ _ _ R).
      * by apply active_not_suspended.
      * intros m' Hne. simpl. by rewrite !fupd_ne, Ekm.
      * intros x. simpl. unfold fupd. rewrite Ekt. by case_decide.
      * exact (kobj_type _ _ (rs_obj _ _ _ _ R)).
    + split; [split; by rewrite Emm|]. split; [by rewrite Ew, decide_True|]. split; [done|].
      rewrite Etw. split; [done|]. simpl. by rewrite (rs_self _ _ _ _ R).
    + exact (f_equal k_dev (rs_obj _ _ _ _ R)).
    + intros x Hx. assert (x <> w) by (intros ->; apply Hx; left). rewrite Eto by done. by apply (rs_other _ _ _ _ R).
Qed.

(** * [rt_mutex_release] *)

(** Scheduling keeps what a hand-over established. *)
Lemma passed_on_frame m k1 x y :
  k_mutex y = k_mutex x -> waiters y m = waiters x m ->
  (forall z, th_frame (k_thr x z) (k_thr y z)) -> passed_on m k1 x -> passed_on m k1 y.
Proof.
  intros E1 E2 E3. unfold passed_on, held. rewrite E1, E2. destruct (waiters k1 m) as [|w q]; [done|].
  destruct (E3 w) as [Ew Sw]. intros (H1 & H2 & H3 & H4 & H5). split; [done|]. split; [done|].
  split; [destruct Sw as [Sw|[_ ?]]; [unfold active in *; by rewrite Sw|done]|].
  rewrite Ew. by split.
Qed.

Lemma passed_on_sched m k1 x y : sched_frame x y -> passed_on m k1 x -> passed_on m k1 y.
Proof. intros F. apply passed_on_frame; [exact (sf_mutex F)|by apply (sf_list _ _ F)|apply (sf_thr _ _ F)]. Qed.

Lemma passed_on_unlock1 m k1 x : passed_on m k1 x -> passed_on m k1 (unlock1 x).
Proof. done. Qed.

(** A sleeping thread sleeps on, and its timer is as before. *)
Definition still (t : tid) (k k' : kernel) : Prop :=
  (suspended (k_thr k t) -> suspended (k_thr k' t)) /\ t_ttmr (k_thr k' t) = t_ttmr (k_thr k t).

Lemma still_frame t k k1 k' : still t k k1 -> th_frame (k_thr k1 t) (k_thr k' t) -> still t k k'.
Proof.
  intros [S1 S2] F. split.
  - intros Hs%S1. destruct F as [_ [E|[E _]]]; [unfold suspended in *; by rewrite E|].
    by apply active_not_suspended in E.
  - rewrite <- S2. by destruct F as [-> _].
Qed.

(** The last release, up to the unlock: back to the owed priority, then hand-over. *)
Lemma last_release_wp k t m :
  kinv k -> minv k -> k_cur k = Some t -> (forall m', t ∉ waiters k m') -> mtx_owner (k_mutex k m) = Some t ->
  1 <= k_lock_nest k ->
  wp (upd ← _check_and_update_prio t m; passed ← mutex_pass_on m; mret (upd || passed))
    (fun _ k' => kinv k' /\ minv k' /\ k_lock_nest k' = k_lock_nest k /\ is_Some (k_cur k') /\
      k_dev k' = k_dev k /\ still t k k' /\
      exists k1, passed_on m k1 k' /\ waiters k1 m = waiters k m /\
        (forall x, x <> t -> k_thr k1 x = k_thr k x) /\
        (cur k t = mtx_priority (k_mutex k m) -> cur k1 t = owed (let_go m 0 k) t))
    (let_go m 0 k).
Proof.
  intros Hk I Hcur Hns Hyes Hn. destruct (let_go_inv m 0 k Hk I) as [Hk0 I0].
  wp_step. eapply wp_mono; [by apply (check_update_wp (let_go m 0 k) t m Hk0 I0)|].
  intros b k1 (Hk1 & I1 & F1 & Hm1 & Hw1 & Ho1 & Hb).
  wp_step. eapply wp_mono; [by apply pass_on_wp|]. intros b2 k2 (Hk2 & I2 & P2 & Hn2 & Hc2 & Ed2 & Ht2).
  wp_step. split; [done|]. split; [done|]. split; [by rewrite Hn2, (pf_nest F1)|].
  split; [apply Hc2; rewrite (pf_cur _ _ F1); simpl; rewrite Hcur; by eexists|].
  split; [rewrite Ed2; exact (f_equal k_dev (pf_rest _ _ F1))|].
  split.
  { apply (still_frame t _ k1); [|apply Ht2; rewrite Hw1; apply Hns].
    split; [by apply (pf_suspended F1)|exact (pf_ttmr F1 t)]. }
  exists k1. split; [done|]. split; [apply Hw1|]. split; [apply Ho1|].
  intros Hcp. destruct b; [exact Hb|]. destruct Hb as (_ & _ & Hb). exfalso. apply Hb.
  destruct (let_go_mutex m 0 k m) as (_ & -> & _). exact Hcp.
Qed.

(** What else a release leaves alone: the drivers' objects, the lock, and the sleep of the
    caller. *)
Definition released (t : tid) (k k' : kernel) : Prop :=
  k_dev k' = k_dev k /\ k_lock_nest k' = k_lock_nest k /\ is_Some (k_cur k') /\ still t k k'.

Lemma released_unlock t k k1 k' :
  k_dev k1 = k_dev k -> k_lock_nest k1 = k_lock_nest k + 1 -> is_Some (k_cur k1) -> still t k k1 ->
  unlocked (unlock1 k1) k' -> released t k k'.
Proof.
  intros Ed En Ec S U. pose proof (un_frame _ _ U) as F. split.
  - exact (eq_trans (f_equal k_dev (kobj_sched _ _ (sf_rest _ _ F))) Ed).
  - split; [rewrite (sf_nest F); simpl; lia|]. split; [by apply (un_cur _ _ U)|].
    eapply still_frame; [exact S|apply (sf_thr _ _ F)].
Qed.

Lemma released_resched t k k1 k' : released t k k1 -> unlocked k1 k' -> released t k k'.
Proof.
  intros (Ed & En & Ec & S) U. pose proof (un_frame _ _ U) as F. split.
  - exact (eq_trans (f_equal k_dev (kobj_sched _ _ (sf_rest _ _ F))) Ed).
  - split; [by rewrite (sf_nest F)|]. split; [by apply (un_cur _ _ U)|].
    eapply still_frame; [exact S|apply (sf_thr _ _ F)].
Qed.

(** The release by the current thread, which may be about to sleep. *)
Lemma mutex_release_wp k t m :
  kinv k -> minv k -> k_cur k = Some t -> (forall m', t ∉ waiters k m') -> k_irq_nest k = 0 ->
  typed k (OMutex m) RT_Object_Class_Mutex -> 1 <= mtx_hold (k_mutex k m) <= RT_MUTEX_HOLD_MAX ->
  wp (rt_mutex_release m) (fun r k' => kinv k' /\ minv k' /\ released t k k' /\
    if decide (mtx_owner (k_mutex k m) = Some t) then
      r = RT_EOK /\
      if mtx_hold (k_mutex k m) =? 1
      then exists k1, passed_on m k1 k' /\ waiters k1 m = waiters k m /\
             (forall x, x <> t -> k_thr k1 x = k_thr k x) /\
             (cur k t = mtx_priority (k_mutex k m) -> cur k1 t = owed (let_go m 0 k) t)
      else held m t (mtx_hold (k_mutex k m) - 1) k'
    else r = - RT_ERROR /\ k_mutex k' = k_mutex k) k.
Proof.
  intros Hk I Hcur Hns Hirq Hty Hh. pose proof (ki_nest _ Hk) as Hnn.
  unfold rt_mutex_release, RT_DEBUG_IN_THREAD_CONTEXT, RT_DEBUG_NOT_IN_INTERRUPT, rt_thread_self, mutex.
  wp_step. apply assert_type_wp; [done|]. do 5 wp_step; [by rewrite Hcur|].
  do 3 wp_step; [by rewrite Hirq|]. do 3 wp_step. eapply wp_deref; [exact Hcur|]. wp_step.
  apply spin_lock_wp. do 2 wp_step. simpl.
  assert (Hkl : kinv (lock1 k)) by (by apply kinv_lock1).
  assert (Il : minv (lock1 k)) by (by apply minv_nest).
  assert (Hsc : is_Some (k_cur k)) by (rewrite Hcur; by eexists).
  destruct (decide (mtx_owner (k_mutex k m) = Some t)) as [Hyes|Hno].
  2:{ rewrite decide_True by done. unfold upd_thr. do 2 wp_step. apply unlock_ret_wp.
    - by apply (kinv_put_error t (- RT_ERROR) (lock1 k)).
    - by apply (minv_thr_upd None None (lock1 k) t (set_t_error (- RT_ERROR))).
    - simpl. lia.
    - intros k' Hk' I' U. do 2 (split; [done|]). split; [|split; [done|by rewrite (unlocked_mutex _ _ U)]].
      eapply released_unlock; [..|exact U]; try done. split; simpl; by rewrite fupd_eq. }
  rewrite decide_False by naive_solver.
  unfold upd_mutex. do 4 wp_step. simpl. rewrite fupd_eq. simpl.
  rewrite u8_id by (unfold RT_MUTEX_HOLD_MAX in Hh; lia).
  replace (mtx_hold (k_mutex k m) - 1 =? 0) with (mtx_hold (k_mutex k m) =? 1)
    by (destruct (Z.eqb_spec (mtx_hold (k_mutex k m)) 1); symmetry; [apply Z.eqb_eq|apply Z.eqb_neq]; lia).
  wp_step. case_bool.
  - unfold taken_remove. do 2 wp_step. rewrite E. change (1 - 1) with 0.
    match goal with |- wp _ _ ?s => change s with (let_go m 0 (lock1 k)) end.
    eapply wp_mono; [apply (last_release_wp (lock1 k) t m); auto; simpl; lia|].
    intros b k2 (Hk2 & I2 & Hn2 & Hc2 & Ed2 & St2 & k1 & P2 & Hw1 & Ho1 & Hb).
    wp_step. eapply wp_mono; [apply unlock_minv_wp; auto; rewrite Hn2; simpl; lia|]. intros _ k3 (Hk3 & I3 & U3).
    assert (P3 : passed_on m k1 k3) by (eapply passed_on_sched; [apply U3|by apply passed_on_unlock1]).
    assert (R3 : released t k k3) by (by eapply released_unlock; [exact Ed2|exact Hn2|..]).
    wp_step. case_bool; [|do 2 wp_step; do 4 (split; [done|]); by exists k1].
    apply rt_schedule_unlocked_wp; [apply Hk3|left; by apply (un_cur _ _ U3)|].
    intros k4 U4. wp_step. split; [by eapply kinv_unlocked|]. split; [by eapply minv_unlocked|].
    split; [by eapply released_resched|]. split; [done|]. exists k1. split; [by eapply passed_on_sched; [apply U4|]|done].
  - do 2 wp_step. eapply wp_mono; [apply unlock_minv_wp;
      [by apply (kinv_put_mutex m _ (lock1 k))|exact (minv_hold m _ (lock1 k) Il)|simpl; lia]|].
    intros _ k' (Hk' & I' & U). do 3 wp_step. do 2 (split; [done|]). split; [by eapply released_unlock; [..|exact U]|].
    split; [done|]. unfold held. rewrite (unlocked_mutex _ _ U). simpl. by rewrite fupd_eq.
Qed.

(** C3: [rt_mutex_release] on every branch.  A thread that does not own the mutex
    gets [-RT_ERROR] and changes no mutex; the owner's release lowers the hold
    count; the last one returns the thread to the priority it owes to the mutexes
    it still holds when this mutex had raised it (or has a ceiling), and passes the
    mutex with hold 1 to the most urgent waiter, which becomes runnable, or leaves
    it free.  Kernel and priority-inheritance invariants are kept. *)
Theorem rt_mutex_release_spec k t m :
  kinv k -> minv k -> running k t -> k_irq_nest k = 0 -> typed k (OMutex m) RT_Object_Class_Mutex ->
  1 <= mtx_hold (k_mutex k m) <= RT_MUTEX_HOLD_MAX ->
  wp (rt_mutex_release m) (fun r k' => kinv k' /\ minv k' /\
    if decide (mtx_owner (k_mutex k m) = Some t) then
      r = RT_EOK /\
      if mtx_hold (k_mutex k m) =? 1
      then exists k1, passed_on m k1 k' /\ waiters k1 m = waiters k m /\
             (forall x, x <> t -> k_thr k1 x = k_thr k x) /\
             (cur k t = mtx_priority (k_mutex k m) -> cur k1 t = owed (let_go m 0 k) t)
      else held m t (mtx_hold (k_mutex k m) - 1) k'
    else r = - RT_ERROR /\ k_mutex k' = k_mutex k) k.
Proof.
  intros Hk I [Hcur Hrun] Hirq Hty Hh. eapply wp_mono; [apply (mutex_release_wp k t m); auto|].
  - intros m' Hin. assert (suspended (k_thr k t)) by (eapply waiting_suspended; [done| |exact Hin]; done).
    unfold suspended in *. stat_lia.
  - intros r k' (? & ? & _ & ?). done.
Qed.

(** * Witnesses *)

Lemma kdemo_minv : minv kdemo.
Proof.
  split; simpl.
  - intros m w Hin. apply (demo_list_in (LSusp (OMutex m))) in Hin as [[? ->]|[[? ->]|[[= ->] ->]]]; done.
  - intros m w. destruct (demo_cases w) as [->|[->|[->|[->|H]]]]; rewrite ?H; try done.
    intros _ [= <-]. left.
  - intros m. destruct m as [m|[m|m|]|]; simpl; repeat constructor.
  - intros m w _ Hin. apply (demo_list_in (LSusp (OMutex m))) in Hin as [[? ->]|[[? ->]|[[= ->] ->]]]; done.
  - intros m o _. destruct m as [m|[m|m|]|]; simpl; try done; by intros [= <-].
  - intros m o. split.
    + destruct m as [m|[m|m|]|]; simpl; try done; intros [= <-]; left.
    + destruct o as [[o|o|]|o|]; simpl; try (by intros ?%elem_of_nil);
        by intros ->%list_elem_of_singleton.
  - intros m. destruct m as [m|[m|m|]|]; simpl; done.
  - intros m. by destruct m as [m|[m|m|]|].
  - intros m. destruct m as [m|[m|m|]|]; simpl; lia.
  - intros m. destruct m as [m|[m|m|]|]; simpl; lia.
  - intros t. destruct (demo_cases t) as [->|[->|[->|[->|H]]]]; rewrite ?H; done.
  - done.
Qed.

(** The running thread takes the mutex of thread 3, which inherits its priority. *)
Lemma rt_mutex_take_spec_witness :
  wp (_rt_mutex_take_begin 4 1 25 RT_UNINTERRUPTIBLE) (fun r k' => kinv k' /\ minv k' /\
    (r = None /\ suspended (k_thr k' 1%positive) /\ 1%positive ∈ waiters k' 1%positive /\
     mtx_owner (k_mutex k' 1%positive) = Some 3%positive /\ cur k' 3%positive <= cur k' 1%positive)) kdemo.
Proof.
  apply (rt_mutex_take_spec 4 kdemo 1 1 25 RT_UNINTERRUPTIBLE 0 kdemo_inv kdemo_minv kdemo_callable);
    [done|done|lia|].
  intros o [= <-] _. apply av_end; [done|]. by intros [? [? ?]].
Defined.

Lemma rt_mutex_release_spec_witness :
  wp (rt_mutex_release 2) (fun r k' => kinv k' /\ minv k' /\ r = RT_EOK /\
    exists k1, passed_on 2%positive k1 k' /\ waiters k1 2%positive = [4%positive] /\
      (forall x, x <> 1%positive -> k_thr k1 x = k_thr kdemo x) /\
      (cur kdemo 1%positive = 12 -> cur k1 1%positive = owed (let_go 2 0 kdemo) 1)) kdemo.
Proof.
  by apply (rt_mutex_release_spec kdemo 1 2 kdemo_inv kdemo_minv kdemo_running).
Defined.

(** * The end of a blocking take *)

Lemma rt_mutex_take_end_owner_witness :
  wp (_rt_mutex_take_end 1 2 1) (fun r k' => r = RT_EOK /\ kinv k' /\ minv k' /\ held 2 1 1 k') kdemo.
Proof. by apply (rt_mutex_take_end_owner 1 kdemo 1 2 kdemo_inv kdemo_minv). Defined.

(** * What the ceiling does not do *)

(** [kdemo] with a priority ceiling of 3 on the mutex of the running thread. *)
Definition kceiling : kernel :=
  put_mutex 2 (set_mtx_ceiling 3 (demo_mutex 2)) kdemo.

(** The owner, its priority, and the ceiling of mutex 2 after an operation. *)
Definition mutex2_after {A} (op : K A) (k : kernel) : option (option tid * Z * Z) :=
  match op k with
  | Some (_, k') =>
      Some (mtx_owner (k_mutex k' 2%positive),
            match mtx_owner (k_mutex k' 2%positive) with
            | Some o => t_cur_prio (k_thr k' o) | None => 255
            end, mtx_ceiling (k_mutex k' 2%positive))
  | None => None
  end.

(** the priority ceiling is not applied when a mutex is handed over.  In
    [kceiling] the release passes mutex 2, whose ceiling is 3, to thread 4, which
    keeps its own priority 12; a take of the free mutex, here by thread 1 (priority
    10), raises the new owner to 3. *)
Lemma mutex_handover_ignores_ceiling :
  mutex2_after (rt_mutex_release 2) kceiling = Some (Some 4%positive, 12, 3) /\
  mutex2_after (mutex_take_free 1 2 1)
    (put_mutex 2 (set_mtx_ceiling 3 (mk_mutex 1 255 255 0 None)) kceiling)
  = Some (Some 1%positive, 3, 3).
Proof. split; vm_compute; reflexivity. Qed.

(** The result of detaching a thread, the thread's state, and a mutex's owner and hold. *)
Definition after_detach (t : tid) (m : oid) (k : kernel) : option (Z * Z * option tid * Z) :=
  match rt_thread_detach 4 t k with
  | Some (r, k') => Some (r, tstat (k_thr k' t), mtx_owner (k_mutex k' m), mtx_hold (k_mutex k' m))
  | None => None
  end.

(** deleting a thread that holds a mutex.  [rt_thread_detach] of thread 3 by the
    running thread 1 closes thread 3 but calls [rt_mutex_release] in the context of
    thread 1, which is not the owner: the call fails and mutex 1 stays owned, with
    hold 1, by the closed thread. *)
Lemma detach_leaves_mutex_owned :
  mtx_owner (k_mutex kdemo 1%positive) = Some 3%positive /\
  after_detach 3 1 kdemo = Some (RT_EOK, RT_THREAD_CLOSE, Some 3%positive, 1).
Proof. split; vm_compute; reflexivity. Qed.
