(* ===== verification/Event.v ===== *)
(** Event sets, src/ipc.c: [rt_event_send], [_rt_event_recv] and their wrappers,
    initialisation and control. *)
From S2P Require Import Prelude KState SchedUp Object TimerCore SchedComm SuspList Sem Timer Thread Demo SemTake.
#[local] Open Scope Z_scope.

Definition event (e : oid) : K rt_event := gets (fun k => k_event k e).

(** The fields set by [rt_event_init] and [rt_event_create]. *)
Definition event_object_init (e : oid) (flag : Z) : K unit :=
  upd_event e (set_ev_flag flag);;
  _ipc_object_init (LSusp (OEvent e));;
  upd_event e (set_ev_set 0).

Definition rt_event_init (e : oid) (name : list Z) (flag : Z) : K Z :=
  RT_ASSERT (ipc_flag_ok flag);;
  rt_object_init (OEvent e) RT_Object_Class_Event name;;
  event_object_init e flag;;
  mret RT_EOK.

Definition rt_event_detach (e : oid) : K Z :=
  assert_type (OEvent e) RT_Object_Class_Event;;
  sys ← rt_object_is_systemobject (OEvent e);
  RT_ASSERT sys;;
  rt_spin_lock_irqsave;;
  rt_susp_list_resume_all (LSusp (OEvent e)) RT_ERROR;;
  rt_spin_unlock_irqrestore;;
  rt_object_detach (OEvent e);;
  mret RT_EOK.

Definition rt_event_create (name : list Z) (flag : Z) (memory : option oid) : K (option oid) :=
  RT_ASSERT (ipc_flag_ok flag);;
  RT_DEBUG_NOT_IN_INTERRUPT;;
  o ← rt_object_allocate RT_Object_Class_Event name (OEvent <$> memory);
  match o, memory with
  | Some _, Some e => event_object_init e flag;; mret (Some e)
  | _, _ => mret None
  end.

Definition rt_event_delete (e : oid) : K Z :=
  assert_type (OEvent e) RT_Object_Class_Event;;
  sys ← rt_object_is_systemobject (OEvent e);
  RT_ASSERT (negb sys);;
  RT_DEBUG_NOT_IN_INTERRUPT;;
  rt_spin_lock;;
  rt_susp_list_resume_all (LSusp (OEvent e)) RT_ERROR;;
  rt_spin_unlock;;
  rt_object_delete (OEvent e);;
  mret RT_EOK.

(** * Send *)

(** The walk over the waiting threads: the bits to clear and whether a thread was
    resumed, or [None] for a waiter with neither AND nor OR. *)
Fixpoint event_wake (e : oid) (ts : list tid) (need_clear_set : Z) (need_schedule : bool)
    : K (option (Z * bool)) :=
  match ts with
  | [] => mret (Some (need_clear_set, need_schedule))
  | thread :: rest =>
      th ← thr thread;
      ev ← event e;
      status ←
        (if flag_set (t_event_info th) RT_EVENT_FLAG_AND then
           mret (Some (Z.land (t_event_set th) (ev_set ev) =? t_event_set th))
         else if flag_set (t_event_info th) RT_EVENT_FLAG_OR then
           if negb (Z.land (t_event_set th) (ev_set ev) =? 0) then
             upd_thr thread (fun th => set_t_event_set (Z.land (t_event_set th) (ev_set ev)) th);;
             mret (Some true)
           else mret (Some false)
         else mret None);
      match status with
      | None => mret None
      | Some true =>
          th ← thr thread;
          let need_clear_set := if flag_set (t_event_info th) RT_EVENT_FLAG_CLEAR
                                then Z.lor need_clear_set (t_event_set th) else need_clear_set in
          rt_sched_thread_ready thread;;
          upd_thr thread (set_t_error RT_EOK);;
          event_wake e rest need_clear_set true
      | Some false => event_wake e rest need_clear_set need_schedule
      end
  end.

Definition rt_event_send (e : oid) (set : Z) : K Z :=
  assert_type (OEvent e) RT_Object_Class_Event;;
  if set =? 0 then mret (- RT_ERROR) else
  rt_spin_lock_irqsave;;
  upd_event e (fun ev => set_ev_set (Z.lor (ev_set ev) set) ev);;
  l ← lst (LSusp (OEvent e));
  r ← event_wake e l 0 false;
  match r with
  | None => rt_spin_unlock_irqrestore;; mret (- RT_EINVAL)
  | Some (need_clear_set, need_schedule) =>
      (if negb (need_clear_set =? 0)
       then upd_event e (fun ev => set_ev_set (Z.land (ev_set ev) (Z.lnot need_clear_set)) ev)
       else mret tt);;
      rt_spin_unlock_irqrestore;;
      (if (need_schedule : bool) then rt_schedule else mret tt);;
      mret RT_EOK
  end.

(** * Receive *)

(** Up to the unlock that switches away; on success the received bits. *)
Definition _rt_event_recv_begin (e : oid) (set opt timeout : Z) (sf : suspend_flag)
    : K (option (Z * option Z)) :=
  assert_type (OEvent e) RT_Object_Class_Event;;
  RT_DEBUG_SCHEDULER_AVAILABLE true;;
  if set =? 0 then mret (Some (- RT_ERROR, None)) else
  self ← rt_thread_self;
  thread ← deref self;
  upd_thr thread (set_t_error (- RT_EINTR));;
  rt_spin_lock_irqsave;;
  ev ← event e;
  status ← (if flag_set opt RT_EVENT_FLAG_AND then mret (Z.land (ev_set ev) set =? set)
            else if flag_set opt RT_EVENT_FLAG_OR then mret (negb (Z.land (ev_set ev) set =? 0))
            else RT_ASSERT false;; mret false);
  if (status : bool) then
    let recved := Z.land (ev_set ev) set in
    upd_thr thread (fun th => set_t_event_info opt (set_t_event_set recved
      (set_t_error RT_EOK th)));;
    (if flag_set opt RT_EVENT_FLAG_CLEAR
     then upd_event e (fun ev => set_ev_set (Z.land (ev_set ev) (Z.lnot set)) ev) else mret tt);;
    rt_spin_unlock_irqrestore;;
    mret (Some (RT_EOK, Some recved))
  else if timeout =? 0 then
    upd_thr thread (set_t_error (- RT_ETIMEOUT));;
    rt_spin_unlock_irqrestore;;
    mret (Some (- RT_ETIMEOUT, None))
  else
    upd_thr thread (fun th => set_t_event_info opt (set_t_event_set set th));;
    ret ← block_on thread (Some (LSusp (OEvent e))) (ev_flag ev) sf timeout;
    rt_spin_unlock_irqrestore;;
    mret (if negb (ret =? RT_EOK) then Some (ret, None) else None).

Definition _rt_event_recv_end (thread : tid) : K (Z * option Z) :=
  rt_schedule;;
  th ← thr thread;
  if negb (t_error th =? RT_EOK) then mret (t_error th, None) else
  rt_spin_lock_irqsave;;
  th ← thr thread;
  rt_spin_unlock_irqrestore;;
  mret (t_error th, Some (t_event_set th)).

Definition rt_event_recv (e : oid) (set opt timeout : Z) :=
  _rt_event_recv_begin e set opt timeout RT_UNINTERRUPTIBLE.
Definition rt_event_recv_interruptible (e : oid) (set opt timeout : Z) :=
  _rt_event_recv_begin e set opt timeout RT_INTERRUPTIBLE.
Definition rt_event_recv_killable (e : oid) (set opt timeout : Z) :=
  _rt_event_recv_begin e set opt timeout RT_KILLABLE.

Definition rt_event_control (e : oid) (cmd : Z) : K Z :=
  assert_type (OEvent e) RT_Object_Class_Event;;
  if cmd =? RT_IPC_CMD_RESET then
    rt_spin_lock_irqsave;;
    rt_susp_list_resume_all (LSusp (OEvent e)) RT_ERROR;;
    upd_event e (set_ev_set 0);;
    rt_spin_unlock_irqrestore;;
    rt_schedule;;
    mret RT_EOK
  else mret (- RT_ERROR).

(** * What a send does *)

(** A waiter's condition on the event set. *)
Definition satisfied (evset : Z) (th : rt_thread) : bool :=
  if flag_set (t_event_info th) RT_EVENT_FLAG_AND
  then Z.land (t_event_set th) evset =? t_event_set th
  else negb (Z.land (t_event_set th) evset =? 0).

(** The same condition for a request that is being made. *)
Definition request_met (opt set evset : Z) : bool :=
  if flag_set opt RT_EVENT_FLAG_AND then Z.land evset set =? set
  else negb (Z.land evset set =? 0).

(** The bits a waiter receives, and those it asks to clear. *)
Definition received (evset : Z) (th : rt_thread) : Z :=
  if flag_set (t_event_info th) RT_EVENT_FLAG_AND then t_event_set th
  else Z.land (t_event_set th) evset.

Definition clears (evset : Z) (th : rt_thread) : Z :=
  if satisfied evset th && flag_set (t_event_info th) RT_EVENT_FLAG_CLEAR
  then received evset th else 0.

Definition cleared (evset : Z) (thr : tid -> rt_thread) (ts : list tid) : Z :=
  fold_left (fun c t => Z.lor c (clears evset (thr t))) ts 0.

(** Every waiter asks for AND or OR: [_rt_event_recv] asserts it. *)
Definition event_ok (e : oid) (k : kernel) : Prop :=
  forall t, t ∈ k_list k (LSusp (OEvent e)) ->
    flag_set (t_event_info (k_thr k t)) RT_EVENT_FLAG_AND = true \/
    flag_set (t_event_info (k_thr k t)) RT_EVENT_FLAG_OR = true.

(** The waiters [ts] have been looked at with the event set [ev]. *)
Record woke (ev : Z) (ts : list tid) (k k' : kernel) : Prop := mk_woke {
  wk_other : forall x, x ∉ ts \/ satisfied ev (k_thr k x) = false -> k_thr k' x = k_thr k x;
  wk_in : forall x, x ∈ ts -> satisfied ev (k_thr k x) = true -> active (k_thr k' x) /\
    t_error (k_thr k' x) = RT_EOK /\ t_event_set (k_thr k' x) = received ev (k_thr k x);
  wk_list : forall l, (forall p, l <> LReady p) -> k_list k' l =
    filter (fun x => ~ (x ∈ ts /\ satisfied ev (k_thr k x) = true)) (k_list k l);
  wk_obj : kobj k' = kobj k;
  wk_cur : is_Some (k_cur k) -> is_Some (k_cur k')
}.

Lemma woke_nil ev k : woke ev [] k k.
Proof.
  split; auto; [intros ? ?%elem_of_nil; done|]. intros l _. symmetry. apply filter_all.
  intros x _ [?%elem_of_nil _]. done.
Qed.

(** Resuming one waiter whose condition holds, under the scheduler lock; [k1] is
    [k] with the waiter's received bits stored. *)
Lemma event_resume_wp ev e k k1 t :
  kinv k1 -> k_lock_nest k <> 0 -> t ∈ k_list k (LSusp (OEvent e)) ->
  satisfied ev (k_thr k t) = true ->
  (forall x, x <> t -> k_thr k1 x = k_thr k x) ->
  k_thr k1 t = set_t_event_set (received ev (k_thr k t)) (k_thr k t) ->
  k_list k1 = k_list k -> kobj k1 = kobj k -> k_cur k1 = k_cur k ->
  wp (rt_sched_thread_ready t;; upd_thr t (set_t_error RT_EOK))
     (fun _ k' => kinv k' /\ woke ev [t] k k') k1.
Proof.
  intros Hk1 Hn Hin Hsat Hoth Hself Hlst Hobj Hcur. unfold upd_thr. wp_step.
  assert (Hs : suspended (k_thr k1 t)).
  { rewrite <- Hlst in Hin. eapply waiting_suspended; [done| |exact Hin]. done. }
  assert (Hn1 : k_lock_nest k1 <> 0) by (by rewrite (kobj_nest _ _ Hobj)).
  eapply wp_mono; [by apply ready_inv_wp|].
  intros r k2 (_ & Hk2 & R). wp_step. destruct (rs_locked _ _ _ _ R Hn1) as [Hc Ho].
  pose proof (resumed_error RT_EOK t k1 k2 ltac:(done) R) as R3. set (k3 := set_k_thr _ k2) in *.
  assert (Hk3 : kinv k3) by (eapply kinv_resumed;
    [exact Hk1|by apply (kwf_upd_thr k2 t (set_t_error RT_EOK)), Hk2|exact R3]).
  split; [done|]. split.
  - intros x Hx. assert (Hxt : x <> t).
    { intros ->. destruct Hx as [Hx|Hx]; [apply Hx; left|congruence]. }
    simpl. by rewrite fupd_ne, Ho, Hoth.
  - intros x ->%list_elem_of_singleton _. split; [apply (rs_active _ _ _ _ R3)|].
    rewrite (rs_self _ _ _ _ R3). simpl. by rewrite Hself.
  - intros l Hl. rewrite (rs_list _ _ _ _ R3) by done. unfold list_unlink. rewrite Hlst.
    apply list_filter_iff. intros x. rewrite list_elem_of_singleton. naive_solver.
  - by rewrite (rs_obj _ _ _ _ R3).
  - rewrite <- Hcur. apply (rs_cur _ _ _ _ R3).
Qed.

Lemma woke_cons ev t ts k k1 k2 :
  t ∉ ts -> woke ev [t] k k1 -> woke ev ts k1 k2 -> woke ev (t :: ts) k k2.
Proof.
  intros Hn A B.
  assert (Hsame : forall x, x <> t -> k_thr k1 x = k_thr k x).
  { intros x Hx. apply (wk_other _ _ _ _ A). left. by rewrite list_elem_of_singleton. }
  split.
  - intros x Hx. assert (Hx1 : k_thr k1 x = k_thr k x).
    { destruct (decide (x = t)) as [->|]; [|by apply Hsame]. apply (wk_other _ _ _ _ A).
      right. destruct Hx as [Hx|]; [|done]. exfalso. apply Hx. left. }
    rewrite <- Hx1. apply (wk_other _ _ _ _ B). rewrite Hx1. set_solver.
  - intros x [->|Hx]%elem_of_cons Hsat.
    + destruct (wk_in _ _ _ _ A t ltac:(left) Hsat) as (H1 & H2 & H3).
      rewrite (wk_other _ _ _ _ B t) by auto. done.
    + assert (x <> t) by congruence. rewrite <- (Hsame x) by done.
      apply (wk_in _ _ _ _ B); [done|by rewrite Hsame].
  - intros l Hl. rewrite (wk_list _ _ _ _ B), (wk_list _ _ _ _ A) by done.
    rewrite list_filter_filter. apply list_filter_iff. intros x.
    rewrite list_elem_of_singleton, elem_of_cons. destruct (decide (x = t)) as [->|Hx].
    + naive_solver.
    + rewrite (Hsame x) by done. naive_solver.
  - rewrite (wk_obj _ _ _ _ B). apply A.
  - intros Hc. by apply (wk_cur _ _ _ _ B), (wk_cur _ _ _ _ A).
Qed.

Lemma woke_skip ev t ts k k' : satisfied ev (k_thr k t) = false -> woke ev ts k k' -> woke ev (t :: ts) k k'.
Proof.
  intros Hs A. split; [| | |apply A|apply A].
  - intros x Hx. apply (wk_other _ _ _ _ A). destruct Hx as [Hx|Hx]; [left; set_solver|auto].
  - intros x Hx Hsat. apply elem_of_cons in Hx as [->|Hx]; [congruence|]. by apply (wk_in _ _ _ _ A).
  - intros l Hl. rewrite (wk_list _ _ _ _ A) by done. apply list_filter_iff. intros x.
    rewrite elem_of_cons. split; intros H.
    + intros [[->|?] ?]; [congruence|auto].
    + intros [? ?]; apply H; auto.
Qed.

(** * The walk *)

Definition clear_of (ev : Z) (k : kernel) (ts : list tid) (c : Z) : Z :=
  fold_left (fun c t => Z.lor c (clears ev (k_thr k t))) ts c.

Lemma clear_of_ext ev k k' ts c :
  (forall t, t ∈ ts -> k_thr k' t = k_thr k t) -> clear_of ev k' ts c = clear_of ev k ts c.
Proof.
  revert c. induction ts as [|t ts IH]; intros c H; [done|]. unfold clear_of in *. simpl.
  rewrite (H t) by left. apply IH. intros; apply H; by right.
Qed.

Lemma event_wake_wp e ev ts : forall k c b,
  kinv k -> k_lock_nest k <> 0 -> NoDup ts -> ev_set (k_event k e) = ev ->
  (forall t, t ∈ ts -> t ∈ k_list k (LSusp (OEvent e)) /\
     (flag_set (t_event_info (k_thr k t)) RT_EVENT_FLAG_AND = true \/
      flag_set (t_event_info (k_thr k t)) RT_EVENT_FLAG_OR = true)) ->
  wp (event_wake e ts c b) (fun r k' => kinv k' /\ woke ev ts k k' /\
    exists b', r = Some (clear_of ev k ts c, b')) k.
Proof.
  induction ts as [|t ts IH]; intros k c b Hk Hn Hnd Hev Hts; cbn [event_wake].
  { wp_step. split; [done|]. split; [apply woke_nil|]. by eexists. }
  apply NoDup_cons in Hnd as [Htn Hnd]. destruct (Hts t ltac:(left)) as [Hin Hao].
  unfold thr, event. do 4 wp_step. rewrite Hev.
  (* the waiter is resumed *)
  assert (Hgo : satisfied ev (k_thr k t) = true -> forall k1,
    k_thr k1 t = set_t_event_set (received ev (k_thr k t)) (k_thr k t) ->
    wp (rt_sched_thread_ready t;; upd_thr t (set_t_error RT_EOK)) (fun _ k2 =>
      kinv k2 /\ woke ev [t] k k2) k1 ->
    wp (th ← gets (fun k0 => k_thr k0 t);
        rt_sched_thread_ready t;; upd_thr t (set_t_error RT_EOK);;
        event_wake e ts (if flag_set (t_event_info th) RT_EVENT_FLAG_CLEAR
                         then Z.lor c (t_event_set th) else c) true)
      (fun r k' => kinv k' /\ woke ev (t :: ts) k k' /\
         exists b', r = Some (clear_of ev k (t :: ts) c, b')) k1).
  { intros Hsat k1 Ht1 H1. do 2 wp_step. rewrite Ht1. simpl.
    apply wp_bind_inv in H1. wp_step. eapply wp_mono; [exact H1|]. clear H1. intros r k2 H2.
    wp_step. eapply wp_mono; [exact H2|]. clear H2. intros [] k3 [Hk3 W3].
    assert (Hsame : forall x, x ∈ ts -> k_thr k3 x = k_thr k x).
    { intros x Hx. apply (wk_other _ _ _ _ W3). left. rewrite list_elem_of_singleton. congruence. }
    eapply wp_mono; [apply IH; [done| |done| |]|].
    - by rewrite (kobj_nest _ _ (wk_obj _ _ _ _ W3)).
    - rewrite (f_equal k_event (wk_obj _ _ _ _ W3) : k_event k3 = k_event k). done.
    - intros x Hx. rewrite Hsame by done. destruct (Hts x ltac:(by right)) as [H1 H2].
      split; [|done]. rewrite (wk_list _ _ _ _ W3) by done. apply list_elem_of_filter.
      split; [|done]. rewrite list_elem_of_singleton. naive_solver.
    - intros r' k' (Hk' & W' & [b' ->]). split; [done|].
      split; [by eapply woke_cons|]. exists b'. do 2 f_equal.
      rewrite (clear_of_ext ev k) by done. unfold clear_of. simpl. f_equal. unfold clears.
      rewrite Hsat. simpl. by destruct (flag_set _ RT_EVENT_FLAG_CLEAR); [|rewrite Z.lor_0_r]. }
  (* the waiter stays *)
  assert (Hstay : satisfied ev (k_thr k t) = false ->
    wp (event_wake e ts c b) (fun r k' => kinv k' /\ woke ev (t :: ts) k k' /\
         exists b', r = Some (clear_of ev k (t :: ts) c, b')) k).
  { intros Hsat. eapply wp_mono; [apply IH; auto; intros; apply Hts; by right|].
    intros r k' (Hk' & W' & [b' ->]). split; [done|]. split; [by apply woke_skip|].
    exists b'. do 2 f_equal. unfold clear_of. simpl. f_equal. unfold clears. rewrite Hsat. simpl.
    by rewrite Z.lor_0_r. }
  wp_step. destruct (flag_set (t_event_info (k_thr k t)) RT_EVENT_FLAG_AND) eqn:Eand.
  - wp_step. assert (Hsd : satisfied ev (k_thr k t) =
      (Z.land (t_event_set (k_thr k t)) ev =? t_event_set (k_thr k t)))
      by (unfold satisfied; by rewrite Eand).
    rewrite <- Hsd. destruct (satisfied ev (k_thr k t)) eqn:Hsat; [|by apply Hstay].
    assert (Hself : k_thr k t = set_t_event_set (received ev (k_thr k t)) (k_thr k t))
      by (unfold received; rewrite Eand; by destruct (k_thr k t)).
    apply Hgo; [done|done|]. by apply (event_resume_wp ev e k k t).
  - destruct Hao as [?|Hor]; [congruence|]. rewrite Hor.
    assert (Hsd : satisfied ev (k_thr k t) = negb (Z.land (t_event_set (k_thr k t)) ev =? 0))
      by (unfold satisfied; by rewrite Eand).
    rewrite <- Hsd. destruct (satisfied ev (k_thr k t)) eqn:Hsat; [|wp_step; by apply Hstay].
    unfold upd_thr at 1. do 3 wp_step. set (k1 := set_k_thr _ k).
    assert (Hself : k_thr k1 t = set_t_event_set (received ev (k_thr k t)) (k_thr k t))
      by (simpl; rewrite fupd_eq; unfold received; by rewrite Eand).
    apply Hgo; [done|done|]. apply (event_resume_wp ev e k k1 t); try done.
    + destruct Hk as [W A N]. split; [by apply (kwf_upd_thr k t (fun th => set_t_event_set
        (Z.land (t_event_set th) ev) th))| |done].
      intros x. simpl. destruct (decide (x = t)) as [->|]; [rewrite fupd_eq|rewrite fupd_ne by done]; apply A.
    + intros x Hx. simpl. by rewrite fupd_ne.
Qed.

(** * Properties *)

Definition put_event (e : oid) (r : rt_event) (k : kernel) : kernel :=
  set_k_event (fupd e r (k_event k)) k.

Lemma kinv_put_event e r k : kinv k -> kinv (put_event e r k).
Proof. intros Hk. by eapply kinv_ext; [..|apply Hk|exact Hk]. Qed.

(** Unlocking and rescheduling after the walk. *)
Lemma event_finish_wp (b : bool) k :
  kinv k -> 1 <= k_lock_nest k -> is_Some (k_cur k) \/ 1 < k_lock_nest k ->
  wp (rt_spin_unlock_irqrestore;; (if b then rt_schedule else mret tt);; mret RT_EOK)
     (fun r k' => r = RT_EOK /\ kinv k' /\ sched_frame k (lock1 k')) k.
Proof.
  intros Hk Hn Hc. wp_step. apply spin_unlock_wp; [apply Hk|done|]. intros k1 U. wp_step.
  assert (Hk1 : kinv k1) by (eapply kinv_unlocked; [|exact U]; by apply kinv_unlock1).
  assert (Hgo : forall k', sched_frame (unlock1 k) k' -> sched_frame k (lock1 k')).
  { intros k' F. split; [apply F|apply F|]. change (krest (lock1 k')) with (lock1 (krest k')).
    rewrite (sf_rest _ _ F). change (krest (unlock1 k)) with (unlock1 (krest k)).
    unfold lock1, unlock1. simpl. replace (_ - 1 + 1) with (k_lock_nest k) by lia. by destruct k. }
  destruct b; [|do 2 wp_step; split; [done|]; split; [done|]; apply Hgo, U].
  apply rt_schedule_unlocked_wp; [apply U| |].
  - destruct Hc as [Hc|Hc]; [left; by apply (un_cur _ _ U)|right].
    rewrite (sf_nest (un_frame _ _ U)). simpl. lia.
  - intros k2 U2. wp_step. split; [done|]. split; [by eapply kinv_unlocked|].
    apply Hgo. etransitivity; [apply U|apply U2].
Qed.

(** C16: [rt_event_send] adds the bits and serves every waiter against the same
    set: exactly the waiters whose AND or OR condition then holds become runnable,
    each with error [RT_EOK] and its received bits recorded; the others stay queued
    in order with nothing changed; and the bits asked for by the served waiters
    with the clear option are removed from the set at the end. *)
Theorem rt_event_send_spec k e set :
  kinv k -> typed k (OEvent e) RT_Object_Class_Event -> can_sched k -> event_ok e k -> set <> 0 ->
  let ev := Z.lor (ev_set (k_event k e)) set in
  let q := k_list k (LSusp (OEvent e)) in
  wp (rt_event_send e set) (fun r k' => r = RT_EOK /\ kinv k' /\
    ev_set (k_event k' e) = Z.land ev (Z.lnot (cleared ev (k_thr k) q)) /\
    k_list k' (LSusp (OEvent e)) = filter (fun x => satisfied ev (k_thr k x) = false) q /\
    (forall x, x ∈ q -> satisfied ev (k_thr k x) = true ->
       active (k_thr k' x) /\ t_error (k_thr k' x) = RT_EOK /\
       t_event_set (k_thr k' x) = received ev (k_thr k x)) /\
    (forall x, x ∉ q \/ satisfied ev (k_thr k x) = false ->
       th_frame (k_thr k x) (k_thr k' x)) /\ event_ok e k') k.
Proof.
  intros Hk Hty Hc Hok Hset ev q. pose proof (ki_nest _ Hk). unfold rt_event_send, lst, upd_event.
  wp_step. apply assert_type_wp; [done|]. case_bool; [done|]. wp_step. apply spin_lock_wp.
  do 4 wp_step. set (k1 := set_k_event _ (lock1 k)).
  assert (Hk1 : kinv k1) by (by apply (kinv_put_event e _ (lock1 k)), kinv_lock1).
  change (k_list k1 (LSusp (OEvent e))) with q. wp_step.
  eapply wp_mono; [apply (event_wake_wp e ev q); [done|simpl; lia| | |]|].
  { apply (rq_nodup _ _ (kwf_rq _ (ki_wf _ Hk))). }
  { simpl. by rewrite fupd_eq. }
  { intros t Ht. split; [done|]. by apply Hok. }
  intros r k2 (Hk2 & W & [b ->]). simpl. fold (clear_of ev k1 q 0).
  set (cl := clear_of ev k1 q 0). wp_step.
  assert (Hev2 : ev_set (k_event k2 e) = ev).
  { rewrite (f_equal k_event (wk_obj _ _ _ _ W) : k_event k2 = k_event k1). simpl. by rewrite fupd_eq. }
  eapply (wp_mono _ (fun _ k3 => kinv k3 /\ k_thr k3 = k_thr k2 /\ k_list k3 = k_list k2 /\
    k_lock_nest k3 = k_lock_nest k2 /\ k_cur k3 = k_cur k2 /\
    ev_set (k_event k3 e) = Z.land ev (Z.lnot cl))).
  { case_bool; wp_step.
    - split; [by apply (kinv_put_event e _ k2)|]. simpl. by rewrite fupd_eq, <- Hev2.
    - replace cl with 0 by done. by rewrite Z.land_m1_r. }
  intros _ k3 (Hk3 & Ht & Hl & Hn & Hcu & Hev).
  assert (Hn3 : k_lock_nest k3 = k_lock_nest k + 1)
    by (rewrite Hn; exact (kobj_nest _ _ (wk_obj _ _ _ _ W))).
  eapply wp_mono; [apply event_finish_wp; [done|lia|]|].
  { destruct Hc as [Hc|Hc]; [left; rewrite Hcu; by apply (wk_cur _ _ _ _ W)|right; lia]. }
  intros r k' (-> & Hk' & F). split; [done|]. split; [done|].
  change (k_event k') with (k_event (lock1 k')). change (k_thr k') with (k_thr (lock1 k')).
  change (k_list k') with (k_list (lock1 k')).
  rewrite (f_equal k_event (sf_rest _ _ F) : k_event (lock1 k') = k_event k3), Hev.
  assert (Hrest : forall x, x ∉ q \/ satisfied ev (k_thr k x) = false ->
    th_frame (k_thr k x) (k_thr (lock1 k') x)).
  { intros x Hx. pose proof (sf_thr _ _ F x) as Hf. by rewrite Ht, (wk_other _ _ _ _ W) in Hf. }
  assert (Hq : k_list (lock1 k') (LSusp (OEvent e)) =
    filter (fun x => satisfied ev (k_thr k x) = false) q).
  { rewrite (sf_list _ _ F), Hl, (wk_list _ _ _ _ W) by done. apply filter_in. intros x Hx.
    destruct (satisfied ev (k_thr k1 x)) eqn:Es; fold q in Hx; simpl in Es; rewrite Es; naive_solver. }
  split; [done|]. split; [done|]. split; [|split; [done|]].
  - intros x Hx Hsat. destruct (wk_in _ _ _ _ W x Hx Hsat) as (H1 & H2 & H3).
    rewrite <- Ht in H1, H2, H3. split; [by apply (sf_active F)|].
    destruct (sf_thr _ _ F x) as [-> _]. done.
  - intros x. change (k_list k') with (k_list (lock1 k')). rewrite Hq.
    intros [Hsat Hx]%list_elem_of_filter. destruct (Hrest x (or_intror Hsat)) as [E1 _].
    change (k_thr k') with (k_thr (lock1 k')). rewrite E1. by apply Hok.
Qed.

Lemma event_ok_frame e k k' :
  event_ok e k -> (forall x, th_frame (k_thr k x) (k_thr k' x)) ->
  k_list k' (LSusp (OEvent e)) = k_list k (LSusp (OEvent e)) -> event_ok e k'.
Proof. intros Hok F Hl x. rewrite Hl. intros Hx. destruct (F x) as [-> _]. by apply Hok. Qed.

Lemma event_ok_put_thr e t f k :
  event_ok e k -> (forall x, x ∈ k_list k (LSusp (OEvent e)) -> x <> t) -> event_ok e (put_thr t f k).
Proof. intros Hok Hne x Hx. simpl. rewrite fupd_ne by auto. by apply Hok. Qed.

(** Returning from the locked region. *)
Lemma event_return_wp {A} (r : A) e k :
  kinv k -> event_ok e k ->
  wp (rt_spin_unlock_irqrestore;; mret r) (fun r' k' => kinv k' /\ event_ok e k' /\ r' = r /\
    k_event k' = k_event k /\ k_list k' (LSusp (OEvent e)) = k_list k (LSusp (OEvent e))) (lock1 k).
Proof.
  intros Hk Hok. wp_step. apply unlock_plain_wp; [done|]. intros k' Hk' U. wp_step.
  pose proof (un_frame _ _ U) as F. split; [done|].
  assert (Hl : k_list k' (LSusp (OEvent e)) = k_list k (LSusp (OEvent e))) by (by apply (sf_list _ _ F)).
  split; [by eapply event_ok_frame; [exact Hok|apply F|]|]. split; [done|].
  split; [exact (f_equal k_event (sf_rest _ _ F))|done].
Qed.

(** [rt_event_recv] returns at once with the requested bits that are set when
    the AND or OR condition holds, removing the requested bits with the clear
    option; otherwise a zero timeout gives [-RT_ETIMEOUT] with the set unchanged,
    and any other timeout records the request, queues the caller in the order of
    the event's flag and leaves it asleep. *)
Lemma rt_event_recv_spec k e t set opt timeout sf :
  kinv k -> callable k t -> typed k (OEvent e) RT_Object_Class_Event -> event_ok e k ->
  ipc_flag_ok (ev_flag (k_event k e)) = true -> set <> 0 -> timeout < tick_half ->
  flag_set opt RT_EVENT_FLAG_AND = true \/ flag_set opt RT_EVENT_FLAG_OR = true ->
  let ev := ev_set (k_event k e) in
  let q := k_list k (LSusp (OEvent e)) in
  wp (_rt_event_recv_begin e set opt timeout sf) (fun r k' => kinv k' /\ event_ok e k' /\
    if request_met opt set ev then
      r = Some (RT_EOK, Some (Z.land ev set)) /\ k_list k' (LSusp (OEvent e)) = q /\
      ev_set (k_event k' e) =
        if flag_set opt RT_EVENT_FLAG_CLEAR then Z.land ev (Z.lnot set) else ev
    else ev_set (k_event k' e) = ev /\
      if timeout =? 0 then r = Some (- RT_ETIMEOUT, None) /\ k_list k' (LSusp (OEvent e)) = q
      else r = None /\ suspended (k_thr k' t) /\
        t_event_set (k_thr k' t) = set /\ t_event_info (k_thr k' t) = opt /\
        k_list k' (LSusp (OEvent e)) =
          enqueue (ev_flag (k_event k e)) (fun x => t_cur_prio (k_thr k x)) t q) k.
Proof.
  intros Hk C Hty Hok Hf Hset Hto Hopt ev q.
  assert (Hne : forall x, x ∈ q -> x <> t).
  { intros x Hx ->. pose proof (waiting_suspended k (LSusp (OEvent e)) t Hk I Hx) as Hs.
    unfold suspended in Hs. by rewrite (proj2 (ca_run _ _ C)) in Hs. }
  unfold _rt_event_recv_begin, event, upd_thr, upd_event, rt_thread_self. wp_step.
  apply assert_type_wp; [done|]. wp_step. eapply scheduler_available_wp; [exact C|]. case_bool; [done|].
  do 3 wp_step. eapply wp_deref; [apply C|]. do 3 wp_step. apply spin_lock_wp. do 3 wp_step.
  simpl. fold ev. set (k1 := put_thr t (set_t_error (- RT_EINTR)) k).
  apply (wp_mono _ (fun r s => r = request_met opt set ev /\ s = lock1 k1)).
  { unfold request_met. destruct (flag_set opt RT_EVENT_FLAG_AND); [by wp_step|].
    destruct Hopt as [?| ->]; [done|by wp_step]. }
  intros r s [-> ->]. destruct (request_met opt set ev) eqn:Em.
  - do 2 wp_step. set (k2 := put_thr t (fun th => set_t_event_info opt (set_t_event_set
      (Z.land ev set) (set_t_error RT_EOK th))) k1). wp_step.
    assert (Hk2 : kinv k2) by (apply kinv_put_thr; [done|]; by apply kinv_put_thr).
    assert (Hok2 : event_ok e k2) by (apply event_ok_put_thr; [by apply event_ok_put_thr|done]).
    destruct (flag_set opt RT_EVENT_FLAG_CLEAR); wp_step.
    + set (kx := put_event e (set_ev_set (Z.land ev (Z.lnot set)) (k_event k2 e)) k2).
      eapply wp_mono; [apply (event_return_wp _ e kx); [by apply kinv_put_event|done]|].
      intros r k' (Hk' & Hok' & -> & He & Hl). rewrite He. simpl. by rewrite fupd_eq.
    + eapply wp_mono; [by apply (event_return_wp _ e k2)|].
      intros r k' (Hk' & Hok' & -> & He & Hl). by rewrite He.
  - case_bool.
    + do 2 wp_step. set (k2 := put_thr t (set_t_error (- RT_ETIMEOUT)) k1).
      eapply wp_mono; [apply (event_return_wp _ e k2)|].
      * apply kinv_put_thr; [done|]; by apply kinv_put_thr.
      * apply event_ok_put_thr; [by apply event_ok_put_thr|done].
      * intros r k' (Hk' & Hok' & -> & He & Hl). by rewrite He.
    + do 2 wp_step. set (k2 := put_thr t (fun th => set_t_event_info opt (set_t_event_set set th)) k1).
      eapply wp_mono; [apply (block_sleep_wp None _ k2); try done|].
      * apply kinv_put_thr; [done|]; by apply kinv_put_thr.
      * apply running_put_thr; [done|]; apply running_put_thr; [done|apply C].
      * by destruct (ca_ok _ _ C).
      * intros r k' (-> & Hk' & S). split; [done|]. destruct (slept_self _ _ _ _ _ _ _ S) as [Hs E1].
        pose proof (slept_list (LSusp (OEvent e)) _ _ _ _ _ _ I S) as Hl.
        rewrite (enqueue_ext _ _ (fun x => t_cur_prio (k_thr k x))) in Hl
          by (intros x; unfold k2, k1; by rewrite !put_thr_prio).
        rewrite (f_equal k_event (slept_kobj _ _ _ _ _ _ _ S) : k_event k' = k_event k2).
        rewrite E1. simpl. rewrite fupd_eq. simpl.
        split; [|split; [done|]; split; [done|]; split; [by rewrite E1 in Hs|done]].
        intros x. rewrite Hl, enqueue_perm, elem_of_cons. destruct (decide (x = t)) as [->|Hx].
        { intros _. rewrite E1. simpl. by rewrite fupd_eq. }
        intros [?|Hin]; [done|]. destruct (slept_other _ _ _ _ _ _ _ _ S Hx) as [-> _].
        simpl. rewrite !fupd_ne by done. by apply Hok.
Qed.

Lemma kdemo_event_ok e : event_ok e kdemo.
Proof. intros t Hin%demo_list_in. naive_solver. Qed.

(** Thread 1 of the sample state asks for bits 1 and 2 of event 1, which is empty. *)
Lemma rt_event_recv_spec_witness :
  wp (_rt_event_recv_begin 1 6 (Z.lor RT_EVENT_FLAG_AND RT_EVENT_FLAG_CLEAR) (-1) RT_UNINTERRUPTIBLE)
    (fun r k' => kinv k' /\ event_ok 1 k' /\ ev_set (k_event k' 1%positive) = 0 /\ r = None /\
      suspended (k_thr k' 1%positive) /\ t_event_set (k_thr k' 1%positive) = 6 /\
      t_event_info (k_thr k' 1%positive) = 5 /\ k_list k' (LSusp (OEvent 1)) = [1%positive]) kdemo.
Proof.
  by apply (rt_event_recv_spec kdemo 1 1 6 5 (-1) RT_UNINTERRUPTIBLE kdemo_inv kdemo_callable eq_refl
    (kdemo_event_ok 1)); [..|left].
Defined.

(** The sample state after that call: thread 3 runs and thread 1 waits. *)
Definition kwait : kernel := run (_rt_event_recv_begin 1 6 5 (-1) RT_UNINTERRUPTIBLE) kdemo.

Lemma kwait_ok : kinv kwait /\ event_ok 1 kwait.
Proof.
  destruct (wp_run _ _ _ (rt_event_recv_spec kdemo 1 1 6 5 (-1) RT_UNINTERRUPTIBLE kdemo_inv
    kdemo_callable eq_refl (kdemo_event_ok 1) eq_refl ltac:(done) ltac:(done) ltac:(by left)))
    as (r & Hk & Hok & _).
  done.
Qed.

Lemma rt_event_send_spec_witness :
  wp (rt_event_send 1 14) (fun r k' => r = RT_EOK /\ kinv k' /\ ev_set (k_event k' 1%positive) = 8 /\
    k_list k' (LSusp (OEvent 1)) = [] /\
    (forall x, x ∈ [1%positive] -> satisfied 14 (k_thr kwait x) = true ->
       active (k_thr k' x) /\ t_error (k_thr k' x) = RT_EOK /\
       t_event_set (k_thr k' x) = received 14 (k_thr kwait x)) /\
    (forall x, x ∉ [1%positive] \/ satisfied 14 (k_thr kwait x) = false ->
       th_frame (k_thr kwait x) (k_thr k' x)) /\ event_ok 1 k') kwait.
Proof.
  apply (rt_event_send_spec kwait 1 14 (proj1 kwait_ok) eq_refl); [|apply kwait_ok|done].
  left. by eexists.
Defined.
