(* ===== verification/IpcWait.v ===== *)
(** What the blocking calls of mailboxes and message queues share, src/ipc.c: one
    turn of the waiting loop, the return from the wait with the time that is left,
    and the wake-up of the first thread of a list before the unlock. *)
From S2P Require Import Prelude KState SchedUp Object TimerCore SchedComm SuspList Sem Timer Thread Demo SemTake.
#[local] Open Scope Z_scope.

(** A call that may wait: it returned, or its caller sleeps with the loop's local
    variables [timeout] and [tick_delta]. *)
Inductive wait (A : Type) :=
  | Done (a : A)
  | Asleep (timeout tick_delta : Z).
Arguments Done {A} a.
Arguments Asleep {A} timeout tick_delta.

(** The body of the [while] loop up to the unlock that switches away; [expired] is
    what the loop does at [timeout == 0] and [ret] how it returns an error. *)
Definition wait_turn {A} (self : option tid) (l : lid) (flag : Z) (sf : suspend_flag)
    (timeout tick_delta : Z) (expired : tid -> K A) (ret : Z -> A) : K (wait A) :=
  thread ← deref self;
  upd_thr thread (set_t_error (- RT_EINTR));;
  if timeout =? 0 then r ← expired thread; mret (Done r) else
  r ← block_on thread (Some l) flag sf timeout;
  if negb (r =? RT_EOK) then rt_spin_unlock_irqrestore;; mret (Done (ret r)) else
  now ← rt_tick_get;
  rt_spin_unlock_irqrestore;;
  mret (Asleep timeout (if 0 <? timeout then now else tick_delta)).

(** The time left after a wait that started at [tick_delta]. *)
Definition time_left (timeout tick_delta now : Z) : Z :=
  if 0 <? timeout then
    let t := i32 (timeout - u32 (now - tick_delta)) in if t <? 0 then 0 else t
  else timeout.

(** From the switch back to the lock: the thread's error, or the new timeout. *)
Definition after_wait (thread : tid) (timeout tick_delta : Z) : K (Z + Z) :=
  rt_schedule;;
  th ← thr thread;
  if negb (t_error th =? RT_EOK) then mret (inl (t_error th)) else
  rt_spin_lock_irqsave;;
  now ← rt_tick_get;
  mret (inr (time_left timeout tick_delta now)).

(** Waking the first thread of a list, then the unlock. *)
Definition wake_first_unlock (l : lid) : K unit :=
  q ← lst l;
  if negb (is_nil q) then
    rt_susp_list_dequeue l RT_EOK;;
    rt_spin_unlock_irqrestore;;
    rt_schedule
  else rt_spin_unlock_irqrestore.

Definition finished {A} (r : wait A) : option A := match r with Done a => Some a | Asleep _ _ => None end.

(** * Rules *)

(** The first thread of the list was resumed with error [e]. *)
Definition woke (e : Z) (l : lid) (k k' : kernel) : Prop :=
  match k_list k l with
  | t :: _ => resumed e t k k'
  | [] => unlocked k k'
  end.

(** After [wake_first_unlock]. *)
Abbreviation woke_first := (woke RT_EOK).

Lemma wake_first_wp l k :
  kinv k -> can_sched k -> is_wait l ->
  wp (wake_first_unlock l) (fun _ k' => kinv k' /\ woke_first l k k') (lock1 k).
Proof.
  intros Hk Hc Hw. unfold wake_first_unlock, lst, woke. do 2 wp_step. simpl.
  destruct (k_list k l) as [|t q] eqn:El; simpl; [by apply unlock_plain_wp|].
  wp_step. eapply wp_mono; [apply dequeue_wp; [by apply kinv_lock1|done]|].
  simpl. rewrite El. intros _ k1 (Hk1 & _ & R).
  wp_step. eapply wp_mono; [by apply (wake_unlock_wp RT_EOK t k)|]. intros _ k2 [Hk2 R2].
  by apply (wake_sched_wp RT_EOK t k).
Qed.

(** The first thread of a list has been served. *)
Definition served (l : lid) (k k' : kernel) : Prop :=
  forall t, head (k_list k l) = Some t -> active (k_thr k' t) /\ t_error (k_thr k' t) = RT_EOK.

Lemma woke_first_served l k k' : woke_first l k k' -> served l k k'.
Proof.
  unfold woke, served. intros W t. destruct (k_list k l) as [|x q]; [done|].
  intros [= <-]. split; [apply W|]. by rewrite (rs_self _ _ _ _ W).
Qed.

Lemma woke_first_obj {e} l k k' : woke e l k k' -> kobj k' = kobj k.
Proof.
  unfold woke. destruct (k_list k l); [intros U; apply kobj_sched, U|intros R; apply R].
Qed.

Lemma can_sched_obj k k' :
  kobj k' = kobj k -> (is_Some (k_cur k) -> is_Some (k_cur k')) -> can_sched k -> can_sched k'.
Proof. intros Ho Hc [H|H]; [left; auto|right; by rewrite (kobj_nest _ _ Ho)]. Qed.

Lemma woke_first_sched {e} l k k' : woke e l k k' -> can_sched k -> can_sched k'.
Proof.
  intros W. apply can_sched_obj; [by eapply woke_first_obj|]. unfold woke in W.
  destruct (k_list k l); apply W.
Qed.

Lemma unlocked_sched k k' : unlocked k k' -> can_sched k -> can_sched k'.
Proof. intros U. apply can_sched_obj; [apply kobj_sched, U|apply U]. Qed.

Lemma unlocked_trans k k1 k2 : unlocked k k1 -> unlocked k1 k2 -> unlocked k k2.
Proof.
  intros U1 U2. pose proof (un_frame _ _ U1) as F1. split; [apply U2| | |by intros ?; apply (un_cur _ _ U2), (un_cur _ _ U1)|].
  - etransitivity; [exact F1|apply U2].
  - intros Hs. assert (k1 = k) as -> by by apply (un_same _ _ U1). by apply (un_same _ _ U2).
  - intros Hn. apply (un_best _ _ U2). by rewrite (sf_nest F1).
Qed.

Lemma slept_sched l flag sf timeout t k k' :
  fell_asleep l flag sf timeout t k k' -> can_sched k -> can_sched k'.
Proof.
  intros S. apply can_sched_obj; [by eapply slept_kobj|]. destruct S as (k1 & B & _ & U).
  rewrite <- (bl_cur _ _ _ _ _ _ _ B). apply U.
Qed.

(** The waiting lists after it: the first thread is gone from its list. *)
Lemma woke_first_list {e} l k k' l' :
  kinv k -> woke e l k k' -> is_wait l -> is_wait l' ->
  k_list k' l' = if decide (l' = l) then tail (k_list k l) else k_list k l'.
Proof.
  intros Hk W Hw Hw'. assert (Hnr : forall p, l' <> LReady p) by (by intros p ->).
  unfold woke in W. destruct (k_list k l) as [|t q] eqn:El.
  - rewrite (sf_list _ _ (un_frame _ _ W)) by done. case_decide; [by subst|done].
  - rewrite (rs_list _ _ _ _ W) by done. unfold list_unlink.
    pose proof (kwf_rq _ (ki_wf _ Hk)) as Wf. case_decide as Hd.
    + subst. pose proof (rq_nodup _ _ Wf l) as Hnd. rewrite El in Hnd |- *.
      apply NoDup_cons in Hnd as [Hn _]. rewrite filter_cons_False by naive_solver.
      exact (list_unlink_id t (fun _ => q) LDefunct Hn).
    + apply (list_unlink_id t (k_list k) l'). intros Hin. apply Hd.
      eapply (rq_disj _ _ Wf); [exact Hin|]. rewrite El. left.
Qed.

(** Writing a component of the device drivers. *)
Lemma kinv_set_dev d k : kinv k -> kinv (set_k_dev d k).
Proof. intros Hk. by eapply kinv_ext; [..|apply Hk|exact Hk]. Qed.

Lemma dev_kobj k k' : kobj k' = kobj k -> k_dev k' = k_dev k.
Proof. intros H. exact (f_equal k_dev H). Qed.

Lemma enter_critical_wp {A} Q (m : K A) k : wp m Q (lock1 k) -> wp (rt_enter_critical;; m) Q k.
Proof. done. Qed.

(** A caller that suspended itself and stored something in the drivers' objects arms its
    timer and switches away. *)
Lemma arm_and_sleep_wp {A} (r : A) k k1 d t timeout sf :
  kinv k -> kinv k1 -> thread_ok k t -> thread_ok k1 t -> timeout < tick_half ->
  blocked None 0 (suspend_state sf) false t (lock1 k) k1 ->
  wp ((if 0 <? timeout then arm_timeout t timeout else mret tt);; rt_spin_unlock_irqrestore;; mret r)
     (fun res k' => res = r /\ kinv k' /\ fell_asleep None 0 sf timeout t (set_k_dev d k) k') (set_k_dev d k1).
Proof.
  intros Hk Hk1 Ht Ht1 Hto B. pose proof (ki_nest _ Hk) as Hn. wp_step.
  assert (B1 : blocked None 0 (suspend_state sf) false t (lock1 (set_k_dev d k)) (set_k_dev d k1)).
  { destruct B as [b1 b2 b3 b4 b5 b6]. split; try done. exact (f_equal (set_k_dev d) b5). }
  eapply wp_mono; [apply (arm_blocked_wp (lock1 (set_k_dev d k)) (set_k_dev d k1) t None 0 sf timeout);
    [by apply kinv_lock1, kinv_set_dev|simpl; lia|by apply kinv_set_dev|by destruct Ht|by destruct Ht1|done|done]|].
  intros v k2 (Hk2 & B2 & D). wp_step.
  assert (Hn2 : k_lock_nest k2 = k_lock_nest k + 1) by exact (kobj_nest _ _ (bl_obj _ _ _ _ _ _ _ B2)).
  apply spin_unlock_wp; [apply Hk2|lia|]. intros k' U. wp_step. split; [done|].
  split; [eapply kinv_unlocked; [|exact U]; apply kinv_unlock1; [lia|done]|].
  exists (unlock1 k2). split; [by apply blocked_unlock1|done].
Qed.

(** The checks of a call that may wait. *)
Lemma scheduler_checked_wp Q k t timeout :
  (timeout <> 0 -> callable k t) ->
  Q tt k -> wp (RT_DEBUG_SCHEDULER_AVAILABLE (negb (timeout =? 0))) Q k.
Proof.
  intros Hcall HQ. destruct (Z.eqb_spec timeout 0); [by unfold RT_DEBUG_SCHEDULER_AVAILABLE; simpl; wp_step|].
  eapply scheduler_available_wp; [by apply Hcall|done].
Qed.

Lemma caller_is_current k t timeout : (timeout <> 0 -> callable k t) -> timeout <> 0 -> k_cur k = Some t.
Proof. intros Hcall Hz. apply (ca_run _ _ (Hcall Hz)). Qed.

(** The waiting lists of a caller that went to sleep. *)
Lemma slept_lists l flag sf timeout t e k k' l' :
  is_wait l -> is_wait l' -> went_to_sleep l flag sf timeout t (put_error t e k) k' ->
  k_list k' l' =
    if decide (l' = l) then enqueue flag (fun x => t_cur_prio (k_thr k x)) t (k_list k l) else k_list k l'.
Proof.
  intros Hw Hw' S. case_decide as Hd.
  - subst. rewrite (slept_list l _ _ _ _ _ _ Hw S). apply enqueue_ext. intros x.
    by apply (put_thr_prio t (set_t_error e)).
  - destruct S as (k1 & B & _ & U). rewrite (sf_list _ _ (un_frame _ _ U)) by (by intros p ->).
    rewrite (bl_list _ _ _ _ _ _ _ B) by (by intros p ->). rewrite decide_False by congruence. done.
Qed.

(** One turn of the loop with a timeout that is not zero puts the caller to
    sleep. *)
Lemma wait_turn_wp {A} k t l flag sf timeout delta (expired : tid -> K A) ret :
  kinv k -> running k t -> thread_ok k t -> is_wait l -> ipc_flag_ok flag = true ->
  timeout < tick_half -> timeout <> 0 ->
  wp (wait_turn (Some t) l flag sf timeout delta expired ret)
     (fun r k' => r = Asleep timeout (if 0 <? timeout then k_tick k else delta) /\ kinv k' /\
        went_to_sleep l flag sf timeout t (put_error t (- RT_EINTR) k) k') (lock1 k).
Proof.
  intros Hk Hr Htk Hw Hf Hto Hz. unfold wait_turn, upd_thr. wp_step. eapply wp_deref; [done|].
  do 2 wp_step.
  case_bool; [done|]. set (ke := put_error t (- RT_EINTR) k).
  set (D := if 0 <? timeout then k_tick k else delta).
  assert (Hke : kinv ke) by (by apply kinv_put_error).
  change (set_k_thr _ (lock1 k)) with (lock1 ke). wp_step. pose proof (ki_nest _ Hk).
  assert (Hrun : running ke t) by (by apply (running_put_thr t t (set_t_error (- RT_EINTR)))).
  eapply wp_mono; [apply block_on_wp; [by apply kinv_lock1|simpl; lia|done|by destruct Htk|done|done]|].
  intros r k1 (-> & Hk1 & B & Dl). change (RT_EOK =? RT_EOK) with true. cbn [negb].
  unfold rt_tick_get. do 3 wp_step.
  assert (Ho : kobj k1 = kobj (lock1 ke)) by apply B.
  assert (Hn1 : k_lock_nest k1 = k_lock_nest k + 1) by exact (kobj_nest _ _ Ho).
  apply spin_unlock_wp; [apply Hk1|lia|]. intros k' U. wp_step. split.
  - by rewrite (f_equal k_tick Ho : k_tick k1 = k_tick k).
  - split; [eapply kinv_unlocked; [|exact U]; apply kinv_unlock1; [lia|done]|].
    exists (unlock1 k1). split; [by apply blocked_unlock1|done].
Qed.

(** The time left never exceeds the timeout and is never negative for a timed
    wait. *)
Lemma time_left_bounds timeout delta now :
  0 < timeout < 2 ^ 31 -> 0 <= u32 (now - delta) < 2 ^ 31 ->
  time_left timeout delta now = Z.max 0 (timeout - u32 (now - delta)).
Proof.
  intros Ht Hd. unfold time_left. rewrite (proj2 (Z.ltb_lt 0 timeout)) by lia.
  rewrite i32_id by lia. case_bool; lia.
Qed.
