(* ===== verification/Ring.v ===== *)
(** The contents of a circular array, shared by the mailbox and the ring buffer:
    [n] elements from index [out] on, modulo [size]. *)
From S2P Require Import Prelude.
#[local] Open Scope Z_scope.

(** One turn around the circle at most. *)
Lemma mod_once a size : 0 <= a < 2 * size ->
  (a < size /\ a mod size = a) \/ (size <= a /\ a mod size = a - size).
Proof.
  intros H. destruct (Z.lt_ge_cases a size); [left; by rewrite Z.mod_small by lia|right]. split; [done|].
  rewrite <- (Z.mod_small (a - size) size) by lia.
  replace a with (a - size + 1 * size) at 1 by lia. apply Z.mod_add. lia.
Qed.

Section ring.
Context {A : Type} `{!Inhabited A} (size : Z).

Definition ring_at (pool : list A) (i : Z) : A := pool !!! Z.to_nat (i mod size).

Definition ring (pool : list A) (out : Z) (n : nat) : list A :=
  map (fun i => ring_at pool (out + Z.of_nat i)) (seq 0 n).

Lemma ring_length pool out n : length (ring pool out n) = n.
Proof. unfold ring. by rewrite length_map, length_seq. Qed.

Lemma ring_ext pool1 pool2 out n :
  (forall i, (i < n)%nat -> ring_at pool1 (out + Z.of_nat i) = ring_at pool2 (out + Z.of_nat i)) ->
  ring pool1 out n = ring pool2 out n.
Proof.
  intros H. apply map_ext_in. intros i Hi. apply H. apply in_seq in Hi. lia.
Qed.

Lemma ring_mod pool out n : ring pool (out mod size) n = ring pool out n.
Proof.
  apply map_ext. intros i. unfold ring_at. by rewrite Zplus_mod_idemp_l.
Qed.

Lemma ring_S pool out n : ring pool out (S n) = ring_at pool out :: ring pool (out + 1) n.
Proof.
  unfold ring. simpl. rewrite Z.add_0_r. f_equal. rewrite <- seq_shift, map_map.
  apply map_ext. intros i. f_equal. lia.
Qed.

Lemma ring_app pool out n m :
  ring pool out (n + m) = ring pool out n ++ ring pool (out + Z.of_nat n) m.
Proof.
  revert out. induction n as [|n IH]; intros out; [by rewrite Z.add_0_r|].
  change (S n + m)%nat with (S (n + m)). rewrite !ring_S, IH. by replace (out + 1 + Z.of_nat n) with (out + Z.of_nat (S n)) by lia.
Qed.

(** Distinct offsets below [size] are distinct cells. *)
Lemma ring_cell_ne out i j :
  0 <= i < size -> 0 <= j < size -> i <> j -> (out + i) mod size <> (out + j) mod size.
Proof.
  intros Hi Hj Hne E. apply Hne. rewrite <- (Z.mod_small i size), <- (Z.mod_small j size) by lia.
  replace i with (out + i - out) by lia. replace j with (out + j - out) by lia.
  rewrite (Zminus_mod (out + i)), (Zminus_mod (out + j)). by rewrite E.
Qed.

Lemma ring_at_insert_eq pool i v :
  0 < size <= Z.of_nat (length pool) -> ring_at (<[Z.to_nat (i mod size) := v]> pool) i = v.
Proof.
  intros Hs. unfold ring_at. apply list_lookup_total_insert_eq.
  pose proof (Z.mod_pos_bound i size). lia.
Qed.

Lemma ring_at_insert_ne pool i j v :
  0 < size -> i mod size <> j mod size ->
  ring_at (<[Z.to_nat (j mod size) := v]> pool) i = ring_at pool i.
Proof.
  intros Hs Hne. unfold ring_at. apply list_lookup_total_insert_ne.
  pose proof (Z.mod_pos_bound i size). pose proof (Z.mod_pos_bound j size). lia.
Qed.

(** Writing at the end of the contents appends. *)
Lemma ring_push pool out n v :
  0 < size <= Z.of_nat (length pool) -> Z.of_nat n < size ->
  ring (<[Z.to_nat ((out + Z.of_nat n) mod size) := v]> pool) out (S n) = ring pool out n ++ [v].
Proof.
  intros Hs Hn. replace (S n) with (n + 1)%nat by lia. rewrite ring_app. f_equal.
  - apply ring_ext. intros i Hi. apply ring_at_insert_ne; [lia|]. apply ring_cell_ne; lia.
  - unfold ring. simpl. by rewrite Z.add_0_r, ring_at_insert_eq.
Qed.

(** Writing just before the contents prepends. *)
Lemma ring_push_front pool out n v :
  0 < size <= Z.of_nat (length pool) -> Z.of_nat n < size ->
  ring (<[Z.to_nat ((out - 1) mod size) := v]> pool) (out - 1) (S n) = v :: ring pool out n.
Proof.
  intros Hs Hn. rewrite ring_S, ring_at_insert_eq by done. f_equal.
  replace (out - 1 + 1) with out by lia. apply ring_ext. intros i Hi.
  apply ring_at_insert_ne; [lia|]. replace (out + Z.of_nat i) with (out - 1 + (Z.of_nat i + 1)) by lia.
  rewrite <- (Z.add_0_r (out - 1)) at 2. apply ring_cell_ne; lia.
Qed.
End ring.
