(* ===== verification/DataQueue.v ===== *)
(** Data queues, components/drivers/ipc/dataqueue.c: a ring of pointers with waiting
    writers and readers, a low water mark and a notification, and its refinement of a
    bounded queue. *)
From S2P Require Import Prelude KState SchedUp Object TimerCore SchedComm SuspList Sem Timer Thread Demo SemTake IpcWait Ring.
#[local] Open Scope Z_scope.

Definition DATAQUEUE_MAGIC : Z := 0xbead0e0e.
Definition RT_DATAQUEUE_EVENT_POP : Z := 1.
Definition RT_DATAQUEUE_EVENT_PUSH : Z := 2.
Definition RT_DATAQUEUE_EVENT_LWM : Z := 3.
Definition RT_THREAD_RESUME_RES_THR_ERR : Z := -1.

Abbreviation item := (Z * Z)%type.

Definition dq (q : oid) : K rt_data_queue := gets (fun k => d_dq (k_dev k) q).

(** A value stored in a bit field of 15 bits *)
Definition u15 (z : Z) : Z := uwrap 15 z.

Definition item_set (r : rt_data_queue) (i : Z) (v : item) : option (list item) :=
  if i <? Z.of_nat (length (dq_items r)) then Some (<[Z.to_nat i := v]> (dq_items r)) else None.
Definition item_get (r : rt_data_queue) (i : Z) : option item := dq_items r !! Z.to_nat i.

Definition dq_checked (q : oid) : K unit := r ← dq q; RT_ASSERT (dq_magic r =? DATAQUEUE_MAGIC).

(** Both indices at the start, the queue empty. *)
Definition dq_clear (r : rt_data_queue) : rt_data_queue :=
  set_dq_full false (set_dq_empty true (set_dq_put 0 (set_dq_get 0 r))).

(** [memory] is what [rt_malloc] returns for the items; [notify] says whether
    [evt_notify] is not NULL. *)
Definition rt_data_queue_init (q : oid) (size lwm : Z) (notify : bool) (memory : option (list item)) : K Z :=
  RT_ASSERT (0 <? u16 size);;
  upd_dq q (set_dq_notify notify);;
  upd_dq q (fun r => set_dq_lwm (u16 lwm) (set_dq_size (u16 size) (set_dq_magic DATAQUEUE_MAGIC r)));;
  upd_dq q dq_clear;;
  _ipc_object_init (LDev (DPush q));;
  _ipc_object_init (LDev (DPop q));;
  match memory with
  | None => mret (- RT_ENOMEM)
  | Some items => upd_dq q (set_dq_items items);; mret RT_EOK
  end.

Definition rt_data_queue_len (q : oid) : K Z :=
  dq_checked q;;
  r ← dq q;
  if dq_empty r then mret 0
  else
    rt_spin_lock_irqsave;;
    r ← dq q;
    let len := if dq_get r <? dq_put r then dq_put r - dq_get r else dq_size r + dq_put r - dq_get r in
    rt_spin_unlock_irqrestore;;
    mret (u16 len).

Definition rt_data_queue_peek (q : oid) : K (Z * option item) :=
  dq_checked q;;
  r ← dq q;
  if dq_empty r then mret (- RT_EEMPTY, None)
  else
    rt_spin_lock_irqsave;;
    r ← dq q;
    v ← deref (item_get r (dq_get r));
    rt_spin_unlock_irqrestore;;
    mret (RT_EOK, Some v).

Definition rt_data_queue_reset (q : oid) : K unit :=
  dq_checked q;;
  rt_spin_lock_irqsave;;
  upd_dq q dq_clear;;
  rt_spin_unlock_irqrestore;;
  rt_enter_critical;;
  rt_susp_list_resume_all_irq (LDev (DPop q)) RT_ERROR;;
  rt_susp_list_resume_all_irq (LDev (DPush q)) RT_ERROR;;
  rt_exit_critical;;
  rt_schedule.

Definition rt_data_queue_deinit (q : oid) : K Z :=
  dq_checked q;;
  rt_data_queue_reset q;;
  rt_spin_lock_irqsave;;
  upd_dq q (set_dq_magic 0);;
  rt_spin_unlock_irqrestore;;
  mret RT_EOK.

Section operations.
(** The notification function of the application. *)
Variable evt_notify : oid -> Z -> K unit.

Definition notify (q : oid) (event : Z) : K unit :=
  r ← dq q; if dq_notify r then evt_notify q event else mret tt.

(** The part of a push after the waiting loop. *)
Definition dq_put_item (q : oid) (v : item) : K Z :=
  r ← dq q;
  items ← deref (item_set r (dq_put r) v);
  upd_dq q (set_dq_items items);;
  upd_dq q (fun r => set_dq_put (u15 (dq_put r + 1)) r);;
  upd_dq q (fun r => if dq_put r =? dq_size r then set_dq_put 0 r else r);;
  upd_dq q (set_dq_empty false);;
  upd_dq q (fun r => if dq_put r =? dq_get r then set_dq_full true r else r);;
  woken ← rt_susp_list_dequeue (LDev (DPop q)) RT_THREAD_RESUME_RES_THR_ERR;
  match woken with
  | Some _ => rt_spin_unlock_irqrestore;; rt_schedule;; mret RT_EOK
  | None => rt_spin_unlock_irqrestore;; notify q RT_DATAQUEUE_EVENT_PUSH;; mret RT_EOK
  end.

(** The waiting loop from its test, under the lock. *)
Definition dq_push_loop (q : oid) (v : item) (self : option tid) (timeout : Z) : K (wait Z) :=
  r ← dq q;
  if dq_full r then
    if timeout =? 0 then rt_spin_unlock_irqrestore;; mret (Done (- RT_ETIMEOUT))
    else
      thread ← deref self;
      upd_thr thread (set_t_error RT_EOK);;
      result ← block_on thread (Some (LDev (DPush q))) RT_IPC_FLAG_FIFO RT_UNINTERRUPTIBLE timeout;
      rt_spin_unlock_irqrestore;;
      mret (if negb (result =? RT_EOK) then Done result else Asleep timeout 0)
  else result ← dq_put_item q v; mret (Done result).

Definition rt_data_queue_push_begin (q : oid) (v : item) (timeout : Z) : K (wait Z) :=
  dq_checked q;;
  RT_DEBUG_SCHEDULER_AVAILABLE (negb (timeout =? 0));;
  thread ← rt_thread_self;
  rt_spin_lock_irqsave;;
  dq_push_loop q v thread timeout.

(** When the writer runs again: the wait starts anew with the whole timeout. *)
Definition rt_data_queue_push_end (q : oid) (v : item) (timeout : Z) (thread : tid) : K (wait Z) :=
  rt_schedule;;
  rt_spin_lock_irqsave;;
  th ← thr thread;
  if negb (t_error th =? RT_EOK) then rt_spin_unlock_irqrestore;; mret (Done (t_error th))
  else dq_push_loop q v (Some thread) timeout.

(** The part of a pop after the waiting loop. *)
Definition dq_get_item (q : oid) : K (Z * option item) :=
  r ← dq q;
  v ← deref (item_get r (dq_get r));
  upd_dq q (fun r => set_dq_get (u15 (dq_get r + 1)) r);;
  upd_dq q (fun r => if dq_get r =? dq_size r then set_dq_get 0 r else r);;
  upd_dq q (set_dq_full false);;
  upd_dq q (fun r => if dq_put r =? dq_get r then set_dq_empty true r else r);;
  len ← rt_data_queue_len q;
  r ← dq q;
  if len <=? dq_lwm r then
    woken ← rt_susp_list_dequeue (LDev (DPush q)) RT_THREAD_RESUME_RES_THR_ERR;
    (match woken with
     | Some _ => rt_spin_unlock_irqrestore;; rt_schedule
     | None => rt_spin_unlock_irqrestore
     end);;
    notify q RT_DATAQUEUE_EVENT_LWM;;
    mret (RT_EOK, Some v)
  else
    rt_spin_unlock_irqrestore;;
    notify q RT_DATAQUEUE_EVENT_POP;;
    mret (RT_EOK, Some v).

(** A caller that cannot be suspended tries again, with the lock held; [fuel] bounds its
    turns. *)
Fixpoint dq_pop_loop (fuel : nat) (q : oid) (self : option tid) (timeout : Z) : K (wait (Z * option item)) :=
  r ← dq q;
  if dq_empty r then
    if timeout =? 0 then rt_spin_unlock_irqrestore;; mret (Done (- RT_ETIMEOUT, None))
    else
      thread ← deref self;
      upd_thr thread (set_t_error RT_EOK);;
      result ← block_on thread (Some (LDev (DPop q))) RT_IPC_FLAG_FIFO RT_UNINTERRUPTIBLE timeout;
      if result =? RT_EOK then rt_spin_unlock_irqrestore;; mret (Asleep timeout 0)
      else match fuel with O => deref None | S fuel => dq_pop_loop fuel q self timeout end
  else result ← dq_get_item q; mret (Done result).

Definition rt_data_queue_pop_begin (fuel : nat) (q : oid) (timeout : Z) : K (wait (Z * option item)) :=
  dq_checked q;;
  RT_DEBUG_SCHEDULER_AVAILABLE (negb (timeout =? 0));;
  thread ← rt_thread_self;
  rt_spin_lock_irqsave;;
  dq_pop_loop fuel q thread timeout.

Definition rt_data_queue_pop_end (fuel : nat) (q : oid) (timeout : Z) (thread : tid) : K (wait (Z * option item)) :=
  rt_schedule;;
  rt_spin_lock_irqsave;;
  th ← thr thread;
  if negb (t_error th =? RT_EOK) then rt_spin_unlock_irqrestore;; mret (Done (t_error th, None))
  else dq_pop_loop fuel q (Some thread) timeout.
End operations.

(** * The contents *)

(** The fields of a data queue in use. *)
Definition dq_count (r : rt_data_queue) : Z :=
  if dq_full r then dq_size r else (dq_put r - dq_get r) mod dq_size r.

Record dq_ok (r : rt_data_queue) : Prop := mk_dq_ok {
  do_magic : dq_magic r = DATAQUEUE_MAGIC;
  do_size : 0 < dq_size r <= 2 ^ 15;
  do_items : dq_size r <= Z.of_nat (length (dq_items r));
  do_get : 0 <= dq_get r < dq_size r;
  do_put : dq_put r = (dq_get r + dq_count r) mod dq_size r;
  do_empty : dq_empty r = (dq_count r =? 0)
}.

Definition dq_contents (r : rt_data_queue) : list item :=
  ring (dq_size r) (dq_items r) (dq_get r) (Z.to_nat (dq_count r)).

(** The abstract queue: capacity, low water mark, items in order, waiting threads. *)
Record adq := mk_adq { q_cap : nat; q_lwm : Z; q_items : list item; q_readers : list tid; q_writers : list tid }.

Definition dq_abs (q : oid) (k : kernel) : adq :=
  let r := d_dq (k_dev k) q in
  mk_adq (Z.to_nat (dq_size r)) (dq_lwm r) (dq_contents r) (k_list k (LDev (DPop q))) (k_list k (LDev (DPush q))).

(** A push serves the first reader; a pop serves the first writer when no more items than
    the low water mark are left. *)
Definition adq_push (t : tid) (timeout : Z) (v : item) (a : adq) : option Z * adq :=
  if bool_decide (length (q_items a) = q_cap a) then
    if timeout =? 0 then (Some (- RT_ETIMEOUT), a)
    else (None, mk_adq (q_cap a) (q_lwm a) (q_items a) (q_readers a) (q_writers a ++ [t]))
  else (Some RT_EOK, mk_adq (q_cap a) (q_lwm a) (q_items a ++ [v]) (tail (q_readers a)) (q_writers a)).

Definition adq_pop (t : tid) (timeout : Z) (a : adq) : option (Z * option item) * adq :=
  match q_items a with
  | v :: rest => (Some (RT_EOK, Some v), mk_adq (q_cap a) (q_lwm a) rest (q_readers a)
      (if Z.of_nat (length rest) <=? q_lwm a then tail (q_writers a) else q_writers a))
  | [] => if timeout =? 0 then (Some (- RT_ETIMEOUT, None), a)
          else (None, mk_adq (q_cap a) (q_lwm a) [] (q_readers a ++ [t]) (q_writers a))
  end.

Lemma dq_count_range r : dq_ok r -> 0 <= dq_count r <= dq_size r.
Proof.
  intros []. unfold dq_count. destruct (dq_full r); [lia|].
  pose proof (Z.mod_pos_bound (dq_put r - dq_get r) (dq_size r)). lia.
Qed.

Lemma dq_full_count r : dq_ok r -> dq_full r = (dq_count r =? dq_size r).
Proof.
  intros []. unfold dq_count. destruct (dq_full r); [by rewrite Z.eqb_refl|].
  pose proof (Z.mod_pos_bound (dq_put r - dq_get r) (dq_size r)). symmetry. apply Z.eqb_neq. lia.
Qed.

Lemma dq_contents_length r : dq_ok r -> Z.of_nat (length (dq_contents r)) = dq_count r.
Proof. intros H. unfold dq_contents. rewrite ring_length. pose proof (dq_count_range r H). lia. Qed.

Lemma u15_id z : 0 <= z < 2 ^ 15 -> u15 z = z.
Proof. intros. by apply Z.mod_small. Qed.

(** The step of an index in a bit field, also when the size is that of the bit field. *)
Lemma index_step size i : 0 < size <= 2 ^ 15 -> 0 <= i < size ->
  (if u15 (i + 1) =? size then 0 else u15 (i + 1)) = (i + 1) mod size.
Proof.
  intros Hs Hi. destruct (decide (i + 1 = size)) as [E|Hne].
  - rewrite E, Z_mod_same_full. destruct (decide (size = 2 ^ 15)) as [->|]; [done|].
    by rewrite u15_id, Z.eqb_refl by lia.
  - rewrite u15_id, (proj2 (Z.eqb_neq _ _)), Z.mod_small; lia.
Qed.

(** The bytes after a push and after a pop. *)
Definition dq_pushed (v : item) (r : rt_data_queue) : rt_data_queue :=
  let put := (dq_put r + 1) mod dq_size r in
  set_dq_full (if put =? dq_get r then true else dq_full r) (set_dq_empty false (set_dq_put put
    (set_dq_items (<[Z.to_nat (dq_put r) := v]> (dq_items r)) r))).

Definition dq_popped (r : rt_data_queue) : rt_data_queue :=
  let get := (dq_get r + 1) mod dq_size r in
  set_dq_empty (if dq_put r =? get then true else dq_empty r) (set_dq_full false (set_dq_get get r)).

Lemma dq_pushed_ok v r : dq_ok r -> dq_full r = false ->
  dq_ok (dq_pushed v r) /\ dq_contents (dq_pushed v r) = dq_contents r ++ [v].
Proof.
  intros Hok Hf. pose proof (dq_count_range r Hok) as Hc. pose proof (dq_full_count r Hok) as Hfc.
  rewrite Hf in Hfc. symmetry in Hfc. apply Z.eqb_neq in Hfc.
  destruct Hok as [H1 H2 H3 H4 H5 H6]. set (n := dq_count r) in *. set (sz := dq_size r) in *.
  assert (Ep : (dq_put r + 1) mod sz = (dq_get r + (n + 1)) mod sz).
  { rewrite H5, Zplus_mod_idemp_l. f_equal. lia. }
  assert (Ec : dq_count (dq_pushed v r) = n + 1).
  { unfold dq_count, dq_pushed. cbn [dq_full dq_put dq_get dq_size set_dq_full set_dq_empty set_dq_put set_dq_items].
    fold sz. rewrite Ep, Hf. destruct (Z.eqb_spec ((dq_get r + (n + 1)) mod sz) (dq_get r)) as [E|E].
    - destruct (mod_once (dq_get r + (n + 1)) sz ltac:(lia)) as [[? E2]|[? E2]]; rewrite E2 in E; simpl; lia.
    - rewrite Zminus_mod_idemp_l. replace (dq_get r + (n + 1) - dq_get r) with (n + 1) by lia.
      apply Z.mod_small. destruct (mod_once (dq_get r + (n + 1)) sz ltac:(lia)) as [[? E2]|[? E2]]; rewrite E2 in E; lia. }
  split.
  - constructor; rewrite ?Ec; cbn; fold sz; rewrite ?length_insert; try done.
    symmetry. apply Z.eqb_neq. lia.
  - unfold dq_contents. rewrite Ec. unfold dq_pushed.
    cbn [dq_items dq_get dq_size set_dq_full set_dq_empty set_dq_put set_dq_items].
    fold sz n. rewrite H5. replace (Z.to_nat (n + 1)) with (S (Z.to_nat n)) by lia.
    rewrite <- (ring_push sz (dq_items r) (dq_get r) (Z.to_nat n) v) by lia. do 4 f_equal. lia.
Qed.

Lemma dq_popped_ok r : dq_ok r -> dq_empty r = false ->
  dq_ok (dq_popped r) /\ exists v, dq_contents r = v :: dq_contents (dq_popped r) /\ item_get r (dq_get r) = Some v.
Proof.
  intros Hok He. pose proof (dq_count_range r Hok) as Hc.
  destruct Hok as [H1 H2 H3 H4 H5 H6]. rewrite He in H6. symmetry in H6. apply Z.eqb_neq in H6.
  set (n := dq_count r) in *. set (sz := dq_size r) in *.
  assert (Ec : dq_count (dq_popped r) = n - 1).
  { unfold dq_count, dq_popped. cbn. fold sz. rewrite H5, <- Zminus_mod.
    replace (dq_get r + n - (dq_get r + 1)) with (n - 1) by lia. apply Z.mod_small. lia. }
  split.
  - constructor; rewrite ?Ec; cbn; fold sz; try done; [apply Z.mod_pos_bound; lia| |].
    + rewrite H5, Zplus_mod_idemp_l. f_equal. lia.
    + rewrite He, H5. destruct (Z.eqb_spec ((dq_get r + n) mod sz) ((dq_get r + 1) mod sz)) as [E|E].
      * symmetry. apply Z.eqb_eq. destruct (mod_once (dq_get r + n) sz ltac:(lia)) as [[? E2]|[? E2]], (mod_once (dq_get r + 1) sz ltac:(lia)) as [[? E3]|[? E3]];
          rewrite E2, E3 in E; lia.
      * symmetry. apply Z.eqb_neq. intros E2. apply E. f_equal. lia.
  - exists (ring_at sz (dq_items r) (dq_get r)). unfold dq_contents. rewrite Ec. cbn [dq_popped dq_items dq_get dq_size set_dq_empty set_dq_full set_dq_get].
    fold sz n. rewrite ring_mod. replace (Z.to_nat n) with (S (Z.to_nat (n - 1))) by lia.
    rewrite ring_S. split; [done|]. unfold item_get, ring_at. rewrite Z.mod_small by lia.
    apply list_lookup_lookup_total_lt. lia.
Qed.

Lemma dq_len_value r : dq_ok r -> dq_empty r = false ->
  u16 (if dq_get r <? dq_put r then dq_put r - dq_get r else dq_size r + dq_put r - dq_get r) = dq_count r.
Proof.
  intros Hok He. pose proof (dq_count_range r Hok) as Hc. destruct Hok as [H1 H2 H3 H4 H5 H6].
  rewrite He in H6. symmetry in H6. apply Z.eqb_neq in H6. rewrite H5. set (n := dq_count r) in *.
  destruct (mod_once (dq_get r + n) (dq_size r) ltac:(lia)) as [[? E]|[? E]]; rewrite E, u16_id; repeat case_bool; lia.
Qed.

(** * The operations *)

(** Unlock and reschedule after a wake-up. *)
Lemma wake_keep_wp e t k k1 :
  kinv k -> can_sched k -> kinv k1 -> resumed e t (lock1 k) k1 ->
  wp (rt_spin_unlock_irqrestore;; rt_schedule) (fun _ k2 => kinv k2 /\ resumed e t k k2) k1.
Proof.
  intros Hk Hc Hk1 R. wp_step. eapply wp_mono; [by apply (wake_unlock_wp e t k)|]. intros _ k2 [Hk2 R2].
  by apply (wake_sched_wp e t k).
Qed.

Lemma wake_keep_then_wp {A} e t k k1 (m : K A) Q :
  kinv k -> can_sched k -> kinv k1 -> resumed e t (lock1 k) k1 ->
  (forall k2, kinv k2 -> resumed e t k k2 -> wp m Q k2) ->
  wp (rt_spin_unlock_irqrestore;; rt_schedule;; m) Q k1.
Proof.
  intros Hk Hc Hk1 R HQ. pose proof (wake_keep_wp e t k k1 Hk Hc Hk1 R) as W. apply wp_bind_inv in W.
  wp_step. eapply wp_mono; [exact W|]. intros [] k2 W2. wp_step. eapply wp_mono; [exact W2|].
  intros _ k3 [? ?]. by apply HQ.
Qed.

(** What a notification may do to a queue and the threads. *)
Record harmless (q : oid) (k k' : kernel) : Prop := mk_harmless {
  hl_queue : d_dq (k_dev k') q = d_dq (k_dev k) q;
  hl_lists : forall d, k_list k' (LDev d) = k_list k (LDev d);
  hl_active : forall t, active (k_thr k t) -> active (k_thr k' t)
}.

Lemma harmless_refl q k : harmless q k k.
Proof. done. Qed.

Lemma dq_abs_harmless q k k' : harmless q k k' -> dq_abs q k' = dq_abs q k.
Proof. intros [E1 E2 _]. unfold dq_abs. by rewrite E1, !E2. Qed.

Lemma harmless_unlocked q k k' : unlocked k k' -> harmless q k k'.
Proof.
  intros U. pose proof (un_frame _ _ U) as F. split.
  - by rewrite (dev_kobj _ _ (kobj_sched _ _ (sf_rest _ _ F))).
  - intros d. by apply (sf_list _ _ F).
  - intros t. apply (sf_active F).
Qed.

Section operations.
Context (evt_notify : oid -> Z -> K unit) (q : oid).
Hypothesis notify_ok : forall ev k Q, kinv k -> (forall k', kinv k' -> harmless q k k' -> Q tt k') ->
  wp (evt_notify q ev) Q k.

Lemma notify_wp ev k Q : kinv k -> (forall k', kinv k' -> harmless q k k' -> Q tt k') ->
  wp (notify evt_notify q ev) Q k.
Proof using notify_ok.
  intros Hk HQ. unfold notify, dq. do 2 wp_step. destruct (dq_notify _); [by apply notify_ok|].
  wp_step. apply HQ; [done|apply harmless_refl].
Qed.

(** The queue and its waiting threads after an operation that returned. *)
Definition dq_result (a : adq) (woken : option tid) (k' : kernel) : Prop :=
  dq_ok (d_dq (k_dev k') q) /\ dq_abs q k' = a /\ (forall t, woken = Some t -> active (k_thr k' t)).

Lemma dq_result_harmless a w k k' : harmless q k k' -> dq_result a w k -> dq_result a w k'.
Proof.
  intros Hh (H2 & H3 & H4). unfold dq_result. rewrite (hl_queue _ _ _ Hh), (dq_abs_harmless _ _ _ Hh).
  split; [done|]. split; [done|]. intros t Ht. by apply (hl_active _ _ _ Hh), H4.
Qed.

(** The queue after the wake-up of the first thread of [l]. *)
Lemma dq_result_woken l t d k k' r :
  kinv k -> is_wait l -> head (k_list k l) = Some t -> d_dq d q = r -> dq_ok r ->
  resumed (-1) t (set_k_dev d k) k' ->
  dq_result (mk_adq (Z.to_nat (dq_size r)) (dq_lwm r) (dq_contents r)
    (if decide (LDev (DPop q) = l) then tail (k_list k l) else k_list k (LDev (DPop q)))
    (if decide (LDev (DPush q) = l) then tail (k_list k l) else k_list k (LDev (DPush q)))) (Some t) k'.
Proof.
  intros Hk Hw Hh Er Hok R. assert (W : woke (-1) l (set_k_dev d k) k').
  { unfold woke. change (k_list (set_k_dev d k) l) with (k_list k l). destruct (k_list k l); [done|]. by injection Hh as ->. }
  assert (Ed : k_dev k' = d) by exact (dev_kobj _ _ (rs_obj _ _ _ _ R)).
  unfold dq_result. rewrite Ed, Er. split; [done|]. split.
  - unfold dq_abs. rewrite Ed, Er. pose proof (kinv_set_dev d k Hk) as Hkd.
    by rewrite !(woke_first_list l _ _ _ Hkd W Hw).
  - intros x [= <-]. apply R.
Qed.

Lemma dq_result_kept d k k' r :
  d_dq d q = r -> dq_ok r -> unlocked (set_k_dev d k) k' ->
  dq_result (mk_adq (Z.to_nat (dq_size r)) (dq_lwm r) (dq_contents r)
    (k_list k (LDev (DPop q))) (k_list k (LDev (DPush q)))) None k'.
Proof.
  intros Er Hok U. eapply dq_result_harmless; [by apply harmless_unlocked|].
  split; [by simpl; rewrite Er|]. split; [|done]. unfold dq_abs. simpl. by rewrite Er.
Qed.

Section one_call.
Context (k : kernel).
Let r : rt_data_queue := d_dq (k_dev k) q.
Hypothesis (Hk : kinv k) (Hc : can_sched k) (Hok : dq_ok r).

(** The state after the item is stored. *)
Lemma dq_put_item_wp v : dq_full r = false ->
  wp (dq_put_item evt_notify q v) (fun res k' => res = RT_EOK /\ kinv k' /\
    dq_result (mk_adq (Z.to_nat (dq_size r)) (dq_lwm r) (dq_contents r ++ [v])
      (tail (k_list k (LDev (DPop q)))) (k_list k (LDev (DPush q)))) (head (k_list k (LDev (DPop q)))) k') (lock1 k).
Proof using All.
  intros Hf. destruct (dq_pushed_ok v r Hok Hf) as [Hok' Hm]. pose proof Hok as [H1 H2 H3 H4 H5 H6].
  pose proof (Z.mod_pos_bound (dq_get r + dq_count r) (dq_size r)).
  unfold dq_put_item, dq, upd_dq. do 3 wp_step. simpl. fold r.
  eapply wp_deref; [unfold item_set; rewrite (proj2 (Z.ltb_lt (dq_put r) _)) by lia; reflexivity|].
  do 10 wp_step. wp_step. match goal with |- wp _ _ (set_k_dev ?x _) => set (d := x) end.
  assert (Ed : d_dq d q = dq_pushed v r).
  { unfold d. simpl. rewrite !fupd_eq. fold r. unfold dq_pushed. rewrite <- index_step by lia.
    destruct r; simpl in *. repeat case_bool; done. }
  clearbody d. change (set_k_dev d _) with (lock1 (set_k_dev d k)). pose proof (kinv_set_dev d k Hk) as Hkd.
  eapply wp_mono; [apply dequeue_wp; [by apply kinv_lock1|done]|].
  change (k_list (lock1 (set_k_dev d k))) with (k_list k). intros w k1 [Hk1 Hw].
  destruct (k_list k (LDev (DPop q))) as [|t l] eqn:El.
  - destruct Hw as [-> ->]. wp_step. apply unlock_plain_wp; [done|]. intros k2 Hk2 U. wp_step.
    apply notify_wp; [done|]. intros k3 Hk3 Hh. wp_step. split; [done|]. split; [done|].
    eapply dq_result_harmless; [done|]. rewrite <- Hm. pose proof (dq_result_kept d k k2 _ Ed Hok' U) as Hres.
    by rewrite El in Hres.
  - destruct Hw as [-> R]. apply (wake_keep_then_wp (-1) t (set_k_dev d k)); [done..|]. intros k2 Hk2 R2. wp_step. split; [done|]. split; [done|]. rewrite <- Hm.
    pose proof (dq_result_woken (LDev (DPop q)) t d k k2 (dq_pushed v r) Hk I) as Hres.
    rewrite El in Hres. specialize (Hres eq_refl Ed Hok' R2). by repeat case_decide.
Qed.

(** A lock taken and released by a caller that holds one already. *)
Lemma nested_lock_wp {A} (k1 : kernel) (v : A) Q :
  kwf k1 -> 1 <= k_lock_nest k1 -> Q v k1 -> wp (rt_spin_unlock_irqrestore;; mret v) Q (lock1 k1).
Proof using Type.
  intros Hk1 Hn HQ. wp_step. apply spin_unlock_wp; [by eapply kwf_ext; [..|exact Hk1]|simpl; lia|].
  intros k' U. wp_step. rewrite (un_same _ _ U); [|right; simpl; lia].
  by rewrite unlock1_lock1.
Qed.

Lemma len_nested_wp k1 Q :
  kwf k1 -> 1 <= k_lock_nest k1 -> dq_ok (d_dq (k_dev k1) q) -> Q (dq_count (d_dq (k_dev k1) q)) k1 ->
  wp (rt_data_queue_len q) Q k1.
Proof using Type.
  intros Hk1 Hn Hok1 HQ. unfold rt_data_queue_len, dq_checked, dq. do 3 wp_step.
  wp_step; [by rewrite (do_magic _ Hok1)|]. do 2 wp_step. destruct (dq_empty _) eqn:He.
  - wp_step. rewrite (do_empty _ Hok1) in He. apply Z.eqb_eq in He. by rewrite He in HQ.
  - wp_step. apply spin_lock_wp. do 2 wp_step. change (k_dev (lock1 k1)) with (k_dev k1). cbv zeta.
    apply nested_lock_wp; [done..|]. by rewrite dq_len_value.
Qed.

(** The state after an item is taken out. *)
Lemma dq_get_item_wp : dq_empty r = false ->
  exists v rest, dq_contents r = v :: rest /\
  let low := Z.of_nat (length rest) <=? dq_lwm r in
  wp (dq_get_item evt_notify q) (fun res k' => res = (RT_EOK, Some v) /\ kinv k' /\
    dq_result (mk_adq (Z.to_nat (dq_size r)) (dq_lwm r) rest (k_list k (LDev (DPop q)))
        (if low then tail (k_list k (LDev (DPush q))) else k_list k (LDev (DPush q))))
      (if low then head (k_list k (LDev (DPush q))) else None) k') (lock1 k).
Proof using All.
  intros He. destruct (dq_popped_ok r Hok He) as (Hok' & v & Hm & Hv). exists v, (dq_contents (dq_popped r)). split; [done|].
  pose proof Hok as [H1 H2 H3 H4 H5 H6]. cbv zeta. rewrite dq_contents_length by done.
  unfold dq_get_item, dq, upd_dq. do 3 wp_step. simpl. fold r. eapply wp_deref; [exact Hv|].
  do 8 wp_step. wp_step. match goal with |- wp _ _ (set_k_dev ?x _) => set (d := x) end.
  assert (Ed : d_dq d q = dq_popped r).
  { unfold d. simpl. rewrite !fupd_eq. fold r. unfold dq_popped. rewrite <- index_step by lia.
    destruct r; simpl in *. repeat case_bool; done. }
  clearbody d. change (set_k_dev d _) with (lock1 (set_k_dev d k)). pose proof (kinv_set_dev d k Hk) as Hkd.
  pose proof (ki_nest _ Hk). apply len_nested_wp; [by apply kinv_lock1|simpl; lia|by simpl; rewrite Ed|].
  do 2 wp_step. change (d_dq (k_dev (lock1 (set_k_dev d k)))) with (d_dq d). rewrite Ed. change (dq_lwm (dq_popped r)) with (dq_lwm r). case_bool.
  - wp_step. eapply wp_mono; [apply dequeue_wp; [by apply kinv_lock1|done]|].
    change (k_list (lock1 (set_k_dev d k))) with (k_list k). intros w k1 [Hk1 Hw].
    destruct (k_list k (LDev (DPush q))) as [|t l] eqn:El.
    + destruct Hw as [-> ->]. wp_step. apply unlock_plain_wp; [done|]. intros k2 Hk2 U. wp_step.
      apply notify_wp; [done|]. intros k3 Hk3 Hh. wp_step. split; [done|]. split; [done|].
      eapply dq_result_harmless; [done|]. pose proof (dq_result_kept d k k2 _ Ed Hok' U) as Hres.
      by rewrite El in Hres.
    + destruct Hw as [-> R]. wp_step. eapply wp_mono; [by apply (wake_keep_wp (-1) t (set_k_dev d k))|].
      intros _ k2 [Hk2 R2]. wp_step. apply notify_wp; [done|]. intros k3 Hk3 Hh. wp_step. split; [done|]. split; [done|].
      eapply dq_result_harmless; [done|].
      pose proof (dq_result_woken (LDev (DPush q)) t d k k2 (dq_popped r) Hk I) as Hres.
      rewrite El in Hres. specialize (Hres eq_refl Ed Hok' R2). by repeat case_decide.
  - wp_step. apply unlock_plain_wp; [done|]. intros k2 Hk2 U. wp_step. apply notify_wp; [done|].
    intros k3 Hk3 Hh. wp_step. split; [done|]. split; [done|]. eapply dq_result_harmless; [done|].
    exact (dq_result_kept d k k2 _ Ed Hok' U).
Qed.

(** ** The calls *)

Context (t : tid) (timeout : Z).
Hypothesis (Hcall : timeout <> 0 -> callable k t) (Hto : timeout < tick_half).

Lemma dq_slept l k' :
  went_to_sleep (LDev l) RT_IPC_FLAG_FIFO RT_UNINTERRUPTIBLE timeout t (put_error t RT_EOK k) k' ->
  dq_ok (d_dq (k_dev k') q) /\ dq_abs q k' = mk_adq (Z.to_nat (dq_size r)) (dq_lwm r) (dq_contents r)
    (if decide (l = DPop q) then k_list k (LDev l) ++ [t] else k_list k (LDev (DPop q)))
    (if decide (l = DPush q) then k_list k (LDev l) ++ [t] else k_list k (LDev (DPush q))).
Proof using Hok.
  intros S. assert (Ed : d_dq (k_dev k') q = r) by exact (f_equal (fun x => d_dq (k_dev x) q) (slept_kobj _ _ _ _ _ _ _ S)).
  unfold dq_abs. rewrite Ed. split; [done|].
  rewrite (slept_lists (LDev l) _ _ _ _ _ k k' (LDev (DPop q)) I I S), (slept_lists (LDev l) _ _ _ _ _ k k' (LDev (DPush q)) I I S).
  unfold enqueue. simpl. repeat case_decide; congruence.
Qed.

Lemma dq_is_full : bool_decide (length (dq_contents r) = Z.to_nat (dq_size r)) = dq_full r.
Proof using Hok.
  rewrite (dq_full_count r Hok). pose proof (dq_contents_length r Hok). pose proof (dq_count_range r Hok).
  destruct (Z.eqb_spec (dq_count r) (dq_size r)); case_bool_decide; lia.
Qed.

Definition pushed (v : item) (res : wait Z) (k' : kernel) : Prop :=
  kinv k' /\ dq_ok (d_dq (k_dev k') q) /\ (finished res, dq_abs q k') = adq_push t timeout v (dq_abs q k) /\
  (res = Done RT_EOK -> forall x, head (k_list k (LDev (DPop q))) = Some x -> active (k_thr k' x)).

Definition popped (res : wait (Z * option item)) (k' : kernel) : Prop :=
  kinv k' /\ dq_ok (d_dq (k_dev k') q) /\ (finished res, dq_abs q k') = adq_pop t timeout (dq_abs q k) /\
  (forall v rest, dq_contents r = v :: rest -> Z.of_nat (length rest) <= dq_lwm r ->
    forall x, head (k_list k (LDev (DPush q))) = Some x -> active (k_thr k' x)).

Lemma dq_push_loop_wp v self : (timeout <> 0 -> self = Some t) ->
  wp (dq_push_loop evt_notify q v self timeout) (pushed v) (lock1 k).
Proof using All.
  intros Hself. unfold dq_push_loop, dq. do 2 wp_step. simpl. fold r. unfold pushed, adq_push.
  change (q_items (dq_abs q k)) with (dq_contents r). change (q_cap (dq_abs q k)) with (Z.to_nat (dq_size r)).
  rewrite dq_is_full. destruct (dq_full r) eqn:Hf.
  - case_bool.
    + wp_step. apply unlock_plain_wp; [done|]. intros k' Hk' U. wp_step. split; [done|].
      pose proof (harmless_unlocked q _ _ U) as Hh. rewrite (hl_queue _ _ _ Hh), (dq_abs_harmless _ _ _ Hh). done.
    + rewrite Hself by done. destruct (Hcall E) as [C1 C2 C3 C4]. wp_step. eapply wp_deref; [done|]. unfold upd_thr. do 2 wp_step.
      change (set_k_thr _ (lock1 k)) with (lock1 (put_error t RT_EOK k)).
      eapply wp_mono; [apply (block_sleep_wp (Asleep timeout 0) Done);
        [by apply kinv_put_error|by apply (running_put_thr _ _ (set_t_error RT_EOK))|by destruct C2|done..]|].
      intros res k' (-> & Hk' & S). split; [done|]. destruct (dq_slept _ _ S) as [Hok' ->]. split; [done|]. split; [|done].
      by repeat case_decide.
  - wp_step. eapply wp_mono; [by apply dq_put_item_wp|]. intros res k' (-> & Hk' & Hok' & Ha & Hact). wp_step.
    split; [done|]. split; [done|]. split; [by rewrite Ha|]. intros _ x Hx. by apply Hact.
Qed.

Lemma pop_sleep_wp {A} l (again : K (wait A)) : timeout <> 0 ->
  wp (result ← block_on t (Some (LDev l)) RT_IPC_FLAG_FIFO RT_UNINTERRUPTIBLE timeout;
      if result =? RT_EOK then rt_spin_unlock_irqrestore;; mret (Asleep timeout 0) else again)
     (fun res k' => res = Asleep timeout 0 /\ kinv k' /\
        went_to_sleep (LDev l) RT_IPC_FLAG_FIFO RT_UNINTERRUPTIBLE timeout t (put_error t RT_EOK k) k')
     (lock1 (put_error t RT_EOK k)).
Proof using Hk Hcall Hto.
  intros Hz. destruct (Hcall Hz) as [C1 C2 C3 C4]. set (ke := put_error t RT_EOK k).
  assert (Hke : kinv ke) by (by apply kinv_put_error). pose proof (ki_nest _ Hke).
  assert (Hrun : running ke t) by (by apply (running_put_thr t t (set_t_error RT_EOK))). wp_step.
  eapply wp_mono; [apply block_on_wp; [by apply kinv_lock1|simpl in *; lia|done|by destruct C2|done|done]|].
  intros res k1 (-> & Hk1 & B & D). simpl. wp_step.
  assert (Hn1 : k_lock_nest k1 = k_lock_nest ke + 1) by exact (kobj_nest _ _ (bl_obj _ _ _ _ _ _ _ B)).
  apply spin_unlock_wp; [apply Hk1|lia|]. intros k' U. wp_step. split; [done|].
  split; [eapply kinv_unlocked; [|exact U]; apply kinv_unlock1; [lia|done]|].
  exists (unlock1 k1). split; [by apply blocked_unlock1|done].
Qed.

(** One turn of the waiting loop of a pop suffices. *)
Lemma dq_pop_turn_wp (again : K (wait (Z * option item))) self : (timeout <> 0 -> self = Some t) ->
  wp (if dq_empty r then
        if timeout =? 0 then rt_spin_unlock_irqrestore;; mret (Done (- RT_ETIMEOUT, None))
        else
          thread ← deref self;
          upd_thr thread (set_t_error RT_EOK);;
          result ← block_on thread (Some (LDev (DPop q))) RT_IPC_FLAG_FIFO RT_UNINTERRUPTIBLE timeout;
          if result =? RT_EOK then rt_spin_unlock_irqrestore;; mret (Asleep timeout 0) else again
      else result ← dq_get_item evt_notify q; mret (Done result)) popped (lock1 k).
Proof using All.
  intros Hself. unfold popped, adq_pop. change (q_items (dq_abs q k)) with (dq_contents r).
  pose proof (dq_contents_length r Hok) as Hlen. pose proof (do_empty _ Hok) as Hemp. destruct (dq_empty r) eqn:He.
  - symmetry in Hemp. apply Z.eqb_eq in Hemp. rewrite Hemp in Hlen.
    assert (Enil : dq_contents r = []) by (by apply nil_length_inv, Nat2Z.inj). rewrite Enil. case_bool.
    + wp_step. apply unlock_plain_wp; [done|]. intros k' Hk' U. wp_step. split; [done|].
      pose proof (harmless_unlocked q _ _ U) as Hh. by rewrite (hl_queue _ _ _ Hh), (dq_abs_harmless _ _ _ Hh).
    + rewrite Hself by done. wp_step. eapply wp_deref; [done|]. unfold upd_thr. do 2 wp_step.
      change (set_k_thr _ (lock1 k)) with (lock1 (put_error t RT_EOK k)).
      eapply wp_mono; [by apply pop_sleep_wp|].
      intros res k' (-> & Hk' & S). split; [done|]. destruct (dq_slept _ _ S) as [Hok' ->]. split; [done|].
      rewrite Enil. by repeat case_decide.
  - wp_step. destruct (dq_get_item_wp He) as (v & rest & Em & W). eapply wp_mono; [exact W|]. rewrite Em.
    intros res k' (-> & Hk' & Hok' & Ha & Hact). wp_step. split; [done|]. split; [done|]. split; [by rewrite Ha|].
    intros v' rest' [= <- <-] Hle x Hx. apply Hact. by rewrite (proj2 (Z.leb_le _ _)).
Qed.

Lemma dq_pop_loop_wp fuel self : (timeout <> 0 -> self = Some t) ->
  wp (dq_pop_loop evt_notify fuel q self timeout) popped (lock1 k).
Proof using All.
  intros Hself. destruct fuel; cbn [dq_pop_loop]; unfold dq at 1; do 2 wp_step; by apply dq_pop_turn_wp.
Qed.

Lemma dq_checked_wp Q : Q tt k -> wp (dq_checked q) Q k.
Proof using Hok. intros HQ. unfold dq_checked, dq. do 2 wp_step. apply wp_assert; [|done]. fold r. by rewrite (do_magic _ Hok). Qed.

Lemma dq_push_begin_wp v : wp (rt_data_queue_push_begin evt_notify q v timeout) (pushed v) k.
Proof using All.
  unfold rt_data_queue_push_begin, rt_thread_self. wp_step. apply dq_checked_wp. wp_step.
  eapply scheduler_checked_wp; [exact Hcall|]. do 3 wp_step. apply spin_lock_wp.
  apply dq_push_loop_wp. by eapply caller_is_current.
Qed.

Lemma dq_pop_begin_wp fuel : wp (rt_data_queue_pop_begin evt_notify fuel q timeout) popped k.
Proof using All.
  unfold rt_data_queue_pop_begin, rt_thread_self. wp_step. apply dq_checked_wp. wp_step.
  eapply scheduler_checked_wp; [exact Hcall|]. do 3 wp_step. apply spin_lock_wp.
  apply dq_pop_loop_wp. by eapply caller_is_current.
Qed.
End one_call.
End operations.

(** C25: [rt_data_queue_push] implements the push of a bounded queue: with room the item
    goes to the end, the call returns [RT_EOK] and the first waiting reader becomes
    runnable; on a full queue a zero timeout gives [-RT_ETIMEOUT] and changes nothing,
    any other timeout queues the writer and leaves it asleep. *)
Theorem rt_data_queue_push_refines evt_notify q k t timeout v :
  (forall ev k Q, kinv k -> (forall k', kinv k' -> harmless q k k' -> Q tt k') -> wp (evt_notify q ev) Q k) ->
  kinv k -> can_sched k -> dq_ok (d_dq (k_dev k) q) -> (timeout <> 0 -> callable k t) -> timeout < tick_half ->
  wp (rt_data_queue_push_begin evt_notify q v timeout) (fun res k' =>
    kinv k' /\ dq_ok (d_dq (k_dev k') q) /\ (finished res, dq_abs q k') = adq_push t timeout v (dq_abs q k) /\
    (res = Done RT_EOK -> forall x, head (k_list k (LDev (DPop q))) = Some x -> active (k_thr k' x))) k.
Proof. intros. by apply dq_push_begin_wp. Qed.

(** [rt_data_queue_pop] implements the pop of a bounded queue: the oldest item is
    returned and removed, and when no more items than the low water mark are left the
    first waiting writer becomes runnable; on an empty queue a zero timeout gives
    [-RT_ETIMEOUT], any other timeout queues the reader and leaves it asleep.  The loop
    needs one turn. *)
Lemma rt_data_queue_pop_refines evt_notify fuel q k t timeout :
  (forall ev k Q, kinv k -> (forall k', kinv k' -> harmless q k k' -> Q tt k') -> wp (evt_notify q ev) Q k) ->
  kinv k -> can_sched k -> dq_ok (d_dq (k_dev k) q) -> (timeout <> 0 -> callable k t) -> timeout < tick_half ->
  wp (rt_data_queue_pop_begin evt_notify fuel q timeout) (fun res k' =>
    kinv k' /\ dq_ok (d_dq (k_dev k') q) /\ (finished res, dq_abs q k') = adq_pop t timeout (dq_abs q k) /\
    (forall v rest, dq_contents (d_dq (k_dev k) q) = v :: rest -> Z.of_nat (length rest) <= dq_lwm (d_dq (k_dev k) q) ->
      forall x, head (k_list k (LDev (DPush q))) = Some x -> active (k_thr k' x))) k.
Proof. intros. by apply dq_pop_begin_wp. Qed.

(** * Reset *)

Lemma dq_clear_ok r : dq_ok r -> dq_ok (dq_clear r) /\ dq_contents (dq_clear r) = [].
Proof.
  intros [H1 H2 H3 H4 H5 H6]. assert (Ec : dq_count (dq_clear r) = 0) by (unfold dq_count; simpl; by rewrite Z.mod_0_l by lia).
  split; [|unfold dq_contents; by rewrite Ec]. constructor; rewrite ?Ec; simpl; try done; lia.
Qed.

(** Both lists of waiting threads are emptied. *)
Lemma resume_both_wp q e k :
  kinv k -> 1 <= k_lock_nest k ->
  wp (rt_susp_list_resume_all_irq (LDev (DPop q)) e;; rt_susp_list_resume_all_irq (LDev (DPush q)) e)
    (fun _ k' => kinv k' /\ resumed_all e (k_list k (LDev (DPop q)) ++ k_list k (LDev (DPush q))) k k') k.
Proof.
  intros Hk Hn. wp_step. eapply wp_mono; [by apply resume_all_irq_wp|]. intros _ k1 (_ & Hk1 & A1).
  pose proof (resumed_all_nest _ _ _ _ A1) as Hn1.
  eapply wp_mono; [apply resume_all_irq_wp; [done|lia|done]|]. intros _ k2 (_ & Hk2 & A2). split; [done|].
  assert (Hd : forall x, x ∈ k_list k (LDev (DPop q)) -> x ∈ k_list k (LDev (DPush q)) -> False).
  { intros x H1 H2. by pose proof (rq_disj _ _ (kwf_rq _ (ki_wf _ Hk)) _ _ _ H1 H2). }
  eapply resumed_all_app; [exact Hd|exact A1|]. replace (k_list k (LDev (DPush q))) with (k_list k1 (LDev (DPush q))); [done|].
  rewrite (ra_list _ _ _ _ A1) by done. apply filter_all. intros x Hx Hin. by apply (Hd x).
Qed.

(** The critical section of [rt_data_queue_reset] and the reschedule after it. *)
Lemma resume_both_then_wp q e k Q :
  kinv k -> can_sched k ->
  (forall k', kinv k' -> resumed_all e (k_list k (LDev (DPop q)) ++ k_list k (LDev (DPush q))) k k' -> Q tt k') ->
  wp (rt_susp_list_resume_all_irq (LDev (DPop q)) e;; rt_susp_list_resume_all_irq (LDev (DPush q)) e;;
      rt_exit_critical;; rt_schedule) Q (lock1 k).
Proof.
  intros Hk Hc HQ. pose proof (ki_nest _ Hk).
  assert (W : wp (rt_susp_list_resume_all_irq (LDev (DPop q)) e;; rt_susp_list_resume_all_irq (LDev (DPush q)) e)
    (fun _ k' => kinv k' /\ resumed_all e (k_list k (LDev (DPop q)) ++ k_list k (LDev (DPush q))) (lock1 k) k') (lock1 k)).
  { apply (resume_both_wp q e (lock1 k)); [by apply kinv_lock1|simpl; lia]. }
  apply wp_bind_inv in W. wp_step. eapply wp_mono; [exact W|]. intros v k1 W1. wp_step. eapply wp_mono; [exact W1|].
  intros _ k2 [Hk2 A]. wp_step. eapply wp_mono; [exact (wake_all_unlock_wp _ _ _ _ Hk Hk2 A)|]. intros _ k3 [Hk3 A3].
  apply sched_inv_wp; [done|by eapply can_sched_resumed_all|]. intros k4 Hk4 U. apply HQ; [done|]. by eapply resumed_all_sched.
Qed.

(** [rt_data_queue_reset] empties the queue and both lists of waiting threads, and
    makes every waiting thread runnable with the error [RT_ERROR], which is positive: the
    interrupted [rt_data_queue_push] and [rt_data_queue_pop] return it as it is. *)
Lemma rt_data_queue_reset_spec q k :
  kinv k -> can_sched k -> dq_ok (d_dq (k_dev k) q) ->
  wp (rt_data_queue_reset q) (fun _ k' => kinv k' /\ dq_ok (d_dq (k_dev k') q) /\
    dq_abs q k' = mk_adq (Z.to_nat (dq_size (d_dq (k_dev k) q))) (dq_lwm (d_dq (k_dev k) q)) [] [] [] /\
    forall x, x ∈ k_list k (LDev (DPop q)) ++ k_list k (LDev (DPush q)) ->
      active (k_thr k' x) /\ t_error (k_thr k' x) = RT_ERROR) k.
Proof.
  intros Hk Hc Hok. unfold rt_data_queue_reset. wp_step. apply (dq_checked_wp q k Hok). wp_step. apply spin_lock_wp.
  unfold upd_dq. do 2 wp_step. match goal with |- wp _ _ (set_k_dev ?x _) => set (d := x) end.
  assert (Ed : d_dq d q = dq_clear (d_dq (k_dev k) q)) by (unfold d; simpl; by rewrite fupd_eq). clearbody d.
  destruct (dq_clear_ok _ Hok) as [Hok' Hm]. pose proof (kinv_set_dev d k Hk) as Hkd. pose proof (ki_nest _ Hk).
  wp_step. change (set_k_dev d _) with (lock1 (set_k_dev d k)). apply unlock_plain_wp; [done|]. intros k1 Hk1 U1.
  assert (Hc1 : can_sched k1) by (by eapply unlocked_sched; [exact U1|]).
  assert (El : forall l, k_list k1 (LDev l) = k_list k (LDev l)) by (intros l; by apply (sf_list _ _ (un_frame _ _ U1))).
  assert (Ed1 : k_dev k1 = d) by exact (dev_kobj _ _ (kobj_sched _ _ (sf_rest _ _ (un_frame _ _ U1)))).
  apply enter_critical_wp. apply resume_both_then_wp; [done..|]. rewrite !El. intros k2 Hk2 A.
  assert (Ed2 : k_dev k2 = d) by (by rewrite (dev_kobj _ _ (ra_obj _ _ _ _ A))).
  split; [done|]. unfold dq_abs. rewrite Ed2, Ed. split; [done|]. rewrite Hm, !(ra_list _ _ _ _ A) by done. rewrite !El. split.
  - f_equal; apply elem_of_nil_inv; intros x; rewrite list_elem_of_filter; set_solver.
  - intros x Hx. destruct (ra_in _ _ _ _ A x Hx) as [Ha E]. split; [done|by rewrite E].
Qed.

(** A call interrupted by the reset returns that number. *)
Lemma dq_end_error_wp {A} (done : Z -> A) (again : K (wait A)) q k t :
  kinv k -> can_sched k -> t_error (k_thr k t) <> RT_EOK ->
  wp (rt_schedule;; rt_spin_lock_irqsave;; th ← thr t;
      if negb (t_error th =? RT_EOK) then rt_spin_unlock_irqrestore;; mret (Done (done (t_error th))) else again)
    (fun res k' => res = Done (done (t_error (k_thr k t))) /\ kinv k' /\ dq_abs q k' = dq_abs q k) k.
Proof.
  intros Hk Hc He. wp_step. apply sched_inv_wp; [done..|]. intros k1 Hk1 U1.
  assert (E1 : t_error (k_thr k1 t) = t_error (k_thr k t)) by (by destruct (sf_thr _ _ (un_frame _ _ U1) t) as [-> _]).
  unfold thr. wp_step. apply spin_lock_wp. do 2 wp_step. change (k_thr (lock1 k1)) with (k_thr k1). rewrite E1.
  rewrite (proj2 (Z.eqb_neq _ _) He). simpl. wp_step. apply unlock_plain_wp; [done|]. intros k2 Hk2 U2. wp_step.
  split; [done|]. split; [done|]. rewrite (dq_abs_harmless _ _ _ (harmless_unlocked q _ _ U2)).
  apply (dq_abs_harmless _ _ _ (harmless_unlocked q _ _ U1)).
Qed.

Lemma rt_data_queue_push_end_error evt_notify q v timeout k t :
  kinv k -> can_sched k -> t_error (k_thr k t) <> RT_EOK ->
  wp (rt_data_queue_push_end evt_notify q v timeout t)
    (fun res k' => res = Done (t_error (k_thr k t)) /\ kinv k' /\ dq_abs q k' = dq_abs q k) k.
Proof. exact (dq_end_error_wp (fun e => e) _ q k t). Qed.

Lemma rt_data_queue_pop_end_error evt_notify fuel q timeout k t :
  kinv k -> can_sched k -> t_error (k_thr k t) <> RT_EOK ->
  wp (rt_data_queue_pop_end evt_notify fuel q timeout t)
    (fun res k' => res = Done (t_error (k_thr k t), None) /\ kinv k' /\ dq_abs q k' = dq_abs q k) k.
Proof. exact (dq_end_error_wp (fun e => (e, None)) _ q k t). Qed.

(** [rt_data_queue_init] makes an empty queue. *)
Lemma rt_data_queue_init_spec q size lwm b items k :
  0 < size <= 2 ^ 15 -> 0 <= lwm < 2 ^ 16 -> size <= Z.of_nat (length items) ->
  wp (rt_data_queue_init q size lwm b (Some items)) (fun res k' => res = RT_EOK /\ dq_ok (d_dq (k_dev k') q) /\
    dq_abs q k' = mk_adq (Z.to_nat size) lwm [] [] []) k.
Proof.
  intros Hs Hl Hi. unfold rt_data_queue_init, upd_dq, _ipc_object_init. rewrite !u16_id by lia.
  wp_step. wp_step; [lia|]. do 12 wp_step. wp_step. split; [done|]. unfold dq_abs. simpl. rewrite !fupd_eq.
  set (r' := set_dq_items items _).
  assert (E : r' = mk_dq DATAQUEUE_MAGIC size lwm 0 0 true false items b) by (unfold r'; by destruct (d_dq _ _)).
  rewrite E. assert (Ec : dq_count (mk_dq DATAQUEUE_MAGIC size lwm 0 0 true false items b) = 0)
    by (unfold dq_count; simpl; by rewrite Z.mod_0_l by lia).
  split; [constructor; rewrite ?Ec; simpl; done || lia|]. unfold dq_contents. rewrite Ec.
  rewrite fupd_ne by done. by rewrite fupd_eq.
Qed.

(** [rt_data_queue_peek] reads the first item and leaves it. *)
Lemma rt_data_queue_peek_spec q k :
  kinv k -> dq_ok (d_dq (k_dev k) q) ->
  wp (rt_data_queue_peek q) (fun res k' => kinv k' /\ dq_abs q k' = dq_abs q k /\
    res = match dq_contents (d_dq (k_dev k) q) with v :: _ => (RT_EOK, Some v) | [] => (- RT_EEMPTY, None) end) k.
Proof.
  intros Hk Hok. unfold rt_data_queue_peek. wp_step. apply (dq_checked_wp q k Hok). unfold dq. do 2 wp_step.
  pose proof (dq_contents_length _ Hok) as Hlen. destruct (dq_empty (d_dq (k_dev k) q)) eqn:He.
  - wp_step. rewrite (do_empty _ Hok) in He. apply Z.eqb_eq in He. rewrite He in Hlen.
    by destruct (dq_contents _).
  - destruct (dq_popped_ok _ Hok He) as (_ & v & -> & Hv). wp_step. apply spin_lock_wp. do 3 wp_step.
    eapply wp_deref; [exact Hv|]. wp_step. apply unlock_plain_wp; [done|]. intros k' Hk' U. wp_step. split; [done|].
    split; [|done]. apply (dq_abs_harmless _ _ _ (harmless_unlocked q _ _ U)).
Qed.

(** * At concrete inputs: a queue of three with two items around the end *)

Definition kdataq : kernel :=
  set_k_dev (set_d_dq (fun _ => mk_dq DATAQUEUE_MAGIC 3 1 2 1 false false [(11, 1); (22, 2); (33, 3)] true) (k_dev kdemo)) kdemo.

Lemma kdataq_inv : kinv kdataq.
Proof. apply kinv_set_dev, kdemo_inv. Qed.

Lemma kdataq_can_sched : can_sched kdataq.
Proof. exact kdemo_can_sched. Qed.

Lemma kdataq_ok : dq_ok (d_dq (k_dev kdataq) 1%positive).
Proof. split; simpl; done || lia. Qed.

Lemma kdataq_callable : callable kdataq 1.
Proof. destruct kdemo_callable as [A [] C D]. by split. Qed.

(** A notification that does nothing to the kernel. *)
Definition no_notify (q : oid) (event : Z) : K unit := mret tt.

Lemma no_notify_ok q ev k Q : kinv k -> (forall k', kinv k' -> harmless q k k' -> Q tt k') -> wp (no_notify q ev) Q k.
Proof. intros Hk HQ. apply HQ; [done|apply harmless_refl]. Qed.

Lemma rt_data_queue_push_refines_witness :
  wp (rt_data_queue_push_begin no_notify 1 (44, 4) 5) (fun res k' => kinv k' /\ dq_ok (d_dq (k_dev k') 1%positive) /\
    (finished res, dq_abs 1 k') = (Some RT_EOK, mk_adq 3 1 [(33, 3); (11, 1); (44, 4)] [] []) /\
    (res = Done RT_EOK -> forall x, head (k_list kdataq (LDev (DPop 1))) = Some x -> active (k_thr k' x))) kdataq.
Proof.
  by apply (rt_data_queue_push_refines no_notify 1 kdataq 1 5 (44, 4) (no_notify_ok 1) kdataq_inv kdataq_can_sched
    kdataq_ok (fun _ => kdataq_callable)).
Defined.

Lemma rt_data_queue_pop_refines_witness :
  wp (rt_data_queue_pop_begin no_notify 0 1 5) (fun res k' => kinv k' /\ dq_ok (d_dq (k_dev k') 1%positive) /\
    (finished res, dq_abs 1 k') = (Some (RT_EOK, Some (33, 3)), mk_adq 3 1 [(11, 1)] [] []) /\
    (forall v rest, [(33, 3); (11, 1)] = v :: rest -> Z.of_nat (length rest) <= 1 ->
      forall x, head (k_list kdataq (LDev (DPush 1))) = Some x -> active (k_thr k' x))) kdataq.
Proof.
  by apply (rt_data_queue_pop_refines no_notify 0 1 kdataq 1 5 (no_notify_ok 1) kdataq_inv kdataq_can_sched
    kdataq_ok (fun _ => kdataq_callable)).
Defined.

Lemma rt_data_queue_reset_spec_witness :
  wp (rt_data_queue_reset 1) (fun _ k' => kinv k' /\ dq_ok (d_dq (k_dev k') 1%positive) /\
    dq_abs 1 k' = mk_adq 3 1 [] [] [] /\
    forall x, x ∈ k_list kdataq (LDev (DPop 1)) ++ k_list kdataq (LDev (DPush 1)) ->
      active (k_thr k' x) /\ t_error (k_thr k' x) = RT_ERROR) kdataq.
Proof. exact (rt_data_queue_reset_spec 1 kdataq kdataq_inv kdataq_can_sched kdataq_ok). Defined.
