(* ===== verification/Completion.v ===== *)
(** Completions, components/drivers/ipc/completion_up.c and completion_comm.c: one word
    that holds the waiting thread and a completed flag, as a machine of three states. *)
From S2P Require Import Prelude KState SchedUp Object TimerCore SchedComm SuspList Sem Timer Thread Demo SemTake IpcWait.
#[local] Open Scope Z_scope.

Definition RT_COMPLETED : Z := 1.
Definition RT_UNCOMPLETED : Z := 0.

Definition RT_COMPLETION_FLAG (r : rt_completion) : Z := cp_flag r.
Definition RT_COMPLETION_THREAD (r : rt_completion) : option tid := cp_thread r.
Definition RT_COMPLETION_NEW_STAT (thread : option tid) (flag : Z) : rt_completion := mk_comp thread (Z.land flag 1).

Definition comp (c : oid) : K rt_completion := gets (fun k => d_comp (k_dev k) c).
Definition set_comp (c : oid) (r : rt_completion) : K unit := upd_comp c (fun _ => r).

#[global] Instance rt_completion_eq_dec : EqDecision rt_completion.
Proof. solve_decision. Defined.

Definition rt_completion_init (c : oid) : K unit := set_comp c (RT_COMPLETION_NEW_STAT None RT_UNCOMPLETED).

(** The end of a wait: the flag is cleared and the waiting thread removed. *)
Definition completion_clear (c : oid) (result : Z) : K (wait Z) :=
  set_comp c (RT_COMPLETION_NEW_STAT None RT_UNCOMPLETED);;
  rt_spin_unlock_irqrestore;;
  mret (Done result).

(** From [__try_again], under the lock, to the switch away. *)
Definition completion_try (c : oid) (self : option tid) (timeout : Z) (sf : suspend_flag) : K (wait Z) :=
  r ← comp c;
  if negb (RT_COMPLETION_FLAG r =? RT_COMPLETED) then
    RT_ASSERT (bool_decide (RT_COMPLETION_THREAD r = None));;
    if timeout =? 0 then rt_spin_unlock_irqrestore;; mret (Done (- RT_ETIMEOUT))
    else
      thread ← deref self;
      upd_thr thread (set_t_error RT_EOK);;
      result ← rt_thread_suspend_with_flag thread sf;
      if result =? RT_EOK then
        set_comp c (RT_COMPLETION_NEW_STAT (Some thread) RT_UNCOMPLETED);;
        RT_DEBUG_NOT_IN_INTERRUPT;;
        (if 0 <? timeout then arm_timeout thread timeout else mret tt);;
        rt_spin_unlock_irqrestore;;
        mret (Asleep timeout 0)
      else completion_clear c result
  else completion_clear c RT_EOK.

Definition rt_completion_wait_flags_begin (c : oid) (timeout : Z) (sf : suspend_flag) : K (wait Z) :=
  RT_DEBUG_SCHEDULER_AVAILABLE (negb (timeout =? 0));;
  thread ← rt_thread_self;
  rt_spin_lock_irqsave;;
  completion_try c thread timeout sf.

(** When the thread runs again. *)
Definition rt_completion_wait_flags_end (c : oid) (thread : tid) (sf : suspend_flag) : K (wait Z) :=
  rt_schedule;;
  rt_spin_lock_irqsave;;
  r ← comp c;
  if negb (bool_decide (r = RT_COMPLETION_NEW_STAT (Some thread) RT_UNCOMPLETED)) then
    completion_try c (Some thread) 0 sf
  else
    th ← thr thread;
    let result := if 0 <? t_error th then - t_error th else t_error th in
    RT_ASSERT (negb (result =? RT_EOK));;
    completion_clear c result.

Definition rt_completion_wait (c : oid) (timeout : Z) : K (wait Z) :=
  rt_completion_wait_flags_begin c timeout RT_UNINTERRUPTIBLE.

Definition rt_completion_wakeup_by_errno (c : oid) (thread_errno : Z) : K Z :=
  rt_spin_lock_irqsave;;
  r ← comp c;
  if RT_COMPLETION_FLAG r =? RT_COMPLETED then rt_spin_unlock_irqrestore;; mret (- RT_EBUSY)
  else
    error ← match RT_COMPLETION_THREAD r with
            | Some suspend_thread =>
                (if 0 <=? thread_errno then upd_thr suspend_thread (set_t_error thread_errno) else mret tt);;
                error ← rt_thread_resume suspend_thread;
                mret (if negb (error =? 0) then - RT_EEMPTY else error)
            | None => mret (- RT_EEMPTY)
            end;
    set_comp c (RT_COMPLETION_NEW_STAT None RT_COMPLETED);;
    rt_spin_unlock_irqrestore;;
    mret error.

Definition rt_completion_done (c : oid) : K unit := rt_completion_wakeup_by_errno c (-1);; mret tt.
Definition rt_completion_wakeup (c : oid) : K Z := rt_completion_wakeup_by_errno c (-1).

(** * The machine *)

Inductive completion_state := Idle | Waiting (t : tid) | Completed.

#[global] Instance completion_state_eq_dec : EqDecision completion_state.
Proof. solve_decision. Defined.

(** The word never holds a thread together with the flag. *)
Definition comp_word (s : completion_state) : rt_completion :=
  match s with
  | Idle => mk_comp None 0
  | Waiting t => mk_comp (Some t) 0
  | Completed => mk_comp None 1
  end.

Definition comp_is (c : oid) (s : completion_state) (k : kernel) : Prop := d_comp (k_dev k) c = comp_word s.

(** What a wait does in each state; waiting together is refused by an assertion. *)
Definition acomp_wait (t : tid) (timeout : Z) (s : completion_state) : option (option Z * completion_state) :=
  match s with
  | Completed => Some (Some RT_EOK, Idle)
  | Idle => if timeout =? 0 then Some (Some (- RT_ETIMEOUT), Idle) else Some (None, Waiting t)
  | Waiting _ => None
  end.

(** The same when the waiter runs again; [e] is its error. *)
Definition acomp_resume (t : tid) (e : Z) (s : completion_state) : option (option Z * completion_state) :=
  if bool_decide (s = Waiting t) then
    if e =? 0 then None else Some (Some (- Z.abs e), Idle)
  else acomp_wait t 0 s.

(** A wake-up; [asleep] says whether the waiter is still suspended. *)
Definition acomp_wakeup (asleep : tid -> bool) (s : completion_state) : Z * completion_state :=
  match s with
  | Completed => (- RT_EBUSY, Completed)
  | Idle => (- RT_EEMPTY, Completed)
  | Waiting t => (if asleep t then RT_EOK else - RT_EEMPTY, Completed)
  end.

(** * The operations *)

Definition put_comp (c : oid) (r : rt_completion) (k : kernel) : kernel :=
  set_k_dev (set_d_comp (fupd c r (d_comp (k_dev k))) (k_dev k)) k.

Lemma comp_is_kobj c s k k' : kobj k' = kobj k -> comp_is c s k -> comp_is c s k'.
Proof. intros E. unfold comp_is. by rewrite (dev_kobj _ _ E). Qed.

Lemma comp_is_unlocked c s k k' : unlocked k k' -> comp_is c s k -> comp_is c s k'.
Proof. intros U. apply comp_is_kobj, kobj_sched, U. Qed.

Lemma comp_is_put c s k : comp_is c s (put_comp c (comp_word s) k).
Proof. unfold comp_is, put_comp. simpl. by rewrite fupd_eq. Qed.

Lemma kinv_put_comp c r k : kinv k -> kinv (put_comp c r k).
Proof. apply kinv_set_dev. Qed.

Lemma completion_clear_wp c e k :
  kinv k -> wp (completion_clear c e) (fun res k' => res = Done e /\ kinv k' /\ comp_is c Idle k') (lock1 k).
Proof.
  intros Hk. unfold completion_clear, set_comp, upd_comp. do 3 wp_step.
  change (set_k_dev _ (lock1 k)) with (lock1 (put_comp c (comp_word Idle) k)).
  apply unlock_plain_wp; [by apply kinv_put_comp|]. intros k' Hk' U. wp_step. split; [done|]. split; [done|].
  eapply comp_is_unlocked; [exact U|apply comp_is_put].
Qed.

(** Suspension, with the word written before the timer is armed. *)
Lemma suspend_store_wp c k t timeout sf {A} (other : Z -> K (wait A)) :
  kinv k -> running k t -> thread_ok k t -> k_irq_nest k = 0 -> timeout < tick_half ->
  wp (result ← rt_thread_suspend_with_flag t sf;
      if result =? RT_EOK then
        set_comp c (RT_COMPLETION_NEW_STAT (Some t) RT_UNCOMPLETED);;
        RT_DEBUG_NOT_IN_INTERRUPT;;
        (if 0 <? timeout then arm_timeout t timeout else mret tt);;
        rt_spin_unlock_irqrestore;;
        mret (Asleep timeout 0)
      else other result)
     (fun res k' => res = Asleep timeout 0 /\ kinv k' /\ comp_is c (Waiting t) k' /\
        fell_asleep None 0 sf timeout t (put_comp c (comp_word (Waiting t)) k) k') (lock1 k).
Proof.
  intros Hk Hr Ht Hi Hto. pose proof (ki_nest _ Hk) as Hn. set (w := comp_word (Waiting t)).
  assert (Htl : thread_ok (lock1 k) t) by (by destruct Ht). unfold rt_thread_suspend_with_flag. wp_step.
  eapply wp_mono; [apply (suspend_wp (lock1 k) t None 0 sf); [by apply kinv_lock1|simpl; lia|done|done|done]|].
  intros r k1 (-> & Hk1 & B & Ht1). change (RT_EOK =? RT_EOK) with true.
  unfold set_comp, upd_comp, RT_DEBUG_NOT_IN_INTERRUPT. do 6 wp_step.
  { assert (Ei : k_irq_nest k1 = k_irq_nest k) by exact (f_equal k_irq_nest (bl_obj _ _ _ _ _ _ _ B)). simpl. by rewrite Ei, Hi. }
  pose proof (dev_kobj _ _ (bl_obj _ _ _ _ _ _ _ B)) as Ed. change (k_dev (lock1 k)) with (k_dev k) in Ed.
  rewrite Ed. eapply wp_mono; [by apply (arm_and_sleep_wp (Asleep timeout 0) k)|].
  intros res k' (-> & Hk' & F). split; [done|]. split; [done|]. split; [|done].
  eapply comp_is_kobj; [by eapply slept_kobj|apply comp_is_put].
Qed.

(** [s'] is the state after the call and the call returned or sleeps. *)
Definition waited (c : oid) (t : tid) (timeout : Z) (sf : suspend_flag)
    (a : option (option Z * completion_state)) (k : kernel) (res : wait Z) (k' : kernel) : Prop :=
  kinv k' /\ exists s', a = Some (finished res, s') /\ comp_is c s' k' /\
    (finished res = None -> fell_asleep None 0 sf timeout t (put_comp c (comp_word s') (put_error t RT_EOK k)) k').

Lemma completion_try_wp c k self t timeout sf s :
  kinv k -> comp_is c s k -> (forall x, s <> Waiting x) -> timeout < tick_half ->
  (timeout <> 0 -> self = Some t /\ running k t /\ thread_ok k t /\ k_irq_nest k = 0) ->
  wp (completion_try c self timeout sf) (waited c t timeout sf (acomp_wait t timeout s) k) (lock1 k).
Proof.
  intros Hk Hs Hnw Hto Hcall. unfold completion_try, comp, RT_COMPLETION_FLAG, RT_COMPLETION_THREAD. do 2 wp_step.
  simpl. pose proof Hs as Hs1. unfold comp_is in Hs1. rewrite Hs1. destruct s as [|x|]; [|by destruct (Hnw x)|]; simpl.
  - wp_step. apply wp_assert; [done|]. case_bool.
    + wp_step. apply unlock_plain_wp; [done|]. intros k' Hk' U. wp_step. split; [done|]. exists Idle. split; [done|].
      split; [by eapply comp_is_unlocked|done].
    + destruct Hcall as (-> & Hr & Ht & Hi); [done|]. wp_step. eapply wp_deref; [done|]. unfold upd_thr. do 2 wp_step.
      change (set_k_thr _ (lock1 k)) with (lock1 (put_error t RT_EOK k)).
      eapply wp_mono; [apply suspend_store_wp; [by apply kinv_put_error|by apply (running_put_thr _ _ (set_t_error RT_EOK))|by destruct Ht|done..]|].
      intros res k' (-> & Hk' & Hs' & F). split; [done|]. by exists (Waiting t).
  - eapply wp_mono; [by apply completion_clear_wp|]. intros res k' (-> & Hk' & Hs'). split; [done|]. by exists Idle.
Qed.

Lemma wait_begin_wp c k t timeout sf s :
  kinv k -> comp_is c s k -> (forall x, s <> Waiting x) -> timeout < tick_half -> (timeout <> 0 -> callable k t) ->
  wp (rt_completion_wait_flags_begin c timeout sf) (waited c t timeout sf (acomp_wait t timeout s) k) k.
Proof.
  intros Hk Hs Hnw Hto Hcall. unfold rt_completion_wait_flags_begin, rt_thread_self. wp_step.
  eapply scheduler_checked_wp; [exact Hcall|]. do 3 wp_step. apply spin_lock_wp. apply completion_try_wp; try done.
  intros Hz. destruct (Hcall Hz) as [C1 C2 C3 C4]. split; [apply C1|done].
Qed.

Lemma wait_end_wp c k t sf s :
  kinv k -> can_sched k -> comp_is c s k -> (forall x, s = Waiting x -> x = t /\ t_error (k_thr k t) <> 0) ->
  wp (rt_completion_wait_flags_end c t sf) (fun res k' => kinv k' /\
    exists s', acomp_resume t (t_error (k_thr k t)) s = Some (finished res, s') /\ comp_is c s' k') k.
Proof.
  intros Hk Hc Hs Hw. unfold rt_completion_wait_flags_end. wp_step. apply sched_inv_wp; [done..|]. intros k1 Hk1 U.
  pose proof (comp_is_unlocked c s _ _ U Hs) as Hs1.
  assert (Ee : t_error (k_thr k1 t) = t_error (k_thr k t)) by (by destruct (sf_thr _ _ (un_frame _ _ U) t) as [-> _]).
  unfold comp. wp_step. apply spin_lock_wp. do 2 wp_step. simpl. pose proof Hs1 as Hd. unfold comp_is in Hd. rewrite Hd.
  unfold acomp_resume. case_bool_decide as Hb.
  - assert (Es : s = Waiting t) by (unfold comp_word, RT_COMPLETION_NEW_STAT in Hb; destruct s; congruence). subst s. rewrite bool_decide_true by done.
    destruct (Hw t eq_refl) as [_ Hz]. simpl. unfold thr. do 2 wp_step. simpl. rewrite Ee.
    rewrite (proj2 (Z.eqb_neq _ _) Hz). wp_step. wp_step; [case_bool; destruct (Z.eqb_spec (t_error (k_thr k t)) RT_EOK), (Z.eqb_spec (- t_error (k_thr k t)) RT_EOK); unfold RT_EOK in *; simpl; try done; lia|].
    eapply wp_mono; [by apply completion_clear_wp|]. intros res k' (-> & Hk' & Hs'). split; [done|]. exists Idle.
    split; [|done]. simpl. do 3 f_equal. case_bool; lia.
  - assert (Es : s <> Waiting t) by (by intros ->). rewrite bool_decide_false by done.
    simpl. eapply wp_mono; [apply (completion_try_wp c k1 _ t 0 sf s); try done|].
    + intros x ->. destruct (Hw x eq_refl). congruence.
    + intros res k' (Hk' & s' & H1 & H2 & _). eauto.
Qed.

(** A thread that is still asleep. *)
Definition asleep (k : kernel) (t : tid) : bool := RT_THREAD_SUSPEND_MASK <=? tstat (k_thr k t).

Lemma resume_locked_wp k t :
  kinv k -> typed k (OThread t) RT_Object_Class_Thread ->
  wp (rt_thread_resume t) (fun r k' => kinv k' /\
    if asleep k t then r = RT_EOK /\ resumed (-1) t k k' else r = - RT_EINVAL /\ k' = k) k.
Proof.
  intros Hk Hty. unfold rt_thread_resume. wp_step. apply assert_type_wp; [done|]. wp_step. unfold asleep.
  case_bool.
  - eapply wp_mono; [by apply ready_inv_wp|]. intros r k1 (-> & Hk1 & R). simpl. wp_step.
    apply unlock_n_resched_wp; [apply Hk1|]. intros k' U. wp_step. split; [by eapply kinv_unlocked|].
    split; [done|]. by eapply resumed_sched.
  - eapply wp_mono; [apply ready_not_suspended_wp; unfold suspended; lia|]. intros r k1 [-> ->]. simpl. wp_step. by wp_step.
Qed.

(** The waiter in the wake-up: its error, and it runs if it slept. *)
Definition waiter_woken (e : Z) (t : tid) (k k' : kernel) : Prop :=
  t_error (k_thr k' t) = (if 0 <=? e then e else t_error (k_thr k t)) /\ (asleep k t = true -> active (k_thr k' t)).

Lemma wake_waiter_wp e t k :
  kinv k -> typed k (OThread t) RT_Object_Class_Thread ->
  wp ((if 0 <=? e then upd_thr t (set_t_error e) else mret tt);; rt_thread_resume t)
     (fun r k' => kinv k' /\ r = (if asleep k t then RT_EOK else - RT_EINVAL) /\ waiter_woken e t k k' /\
        kobj k' = kobj k /\ (is_Some (k_cur k) -> is_Some (k_cur k'))) k.
Proof.
  intros Hk Hty. set (ke := if 0 <=? e then put_error t e k else k).
  assert (Hke : kinv ke) by (unfold ke; case_bool; [by apply kinv_put_error|done]).
  assert (Ea : asleep ke t = asleep k t) by (unfold ke; case_bool; [unfold asleep; simpl; by rewrite fupd_eq|done]).
  assert (Ee : t_error (k_thr ke t) = if 0 <=? e then e else t_error (k_thr k t))
    by (unfold ke; case_bool; [simpl; by rewrite fupd_eq|done]).
  assert (Eo : kobj ke = kobj k) by (unfold ke; by case_bool).
  assert (Ec : k_cur ke = k_cur k) by (unfold ke; by case_bool).
  assert (Hty' : typed ke (OThread t) RT_Object_Class_Thread) by (unfold ke; by case_bool).
  wp_step. eapply (wp_mono _ (fun _ k1 => k1 = ke)).
  { unfold ke, upd_thr. case_bool; by wp_step. }
  intros _ k1 ->. eapply wp_mono; [by apply resume_locked_wp|]. intros r k' (Hk' & Hr). split; [done|].
  rewrite Ea in Hr. destruct (asleep k t) eqn:Es; destruct Hr as [-> R].
  - split; [done|]. rewrite <- Eo, <- Ec. split; [|split; apply R]. split; [|intros _; apply R]. rewrite (rs_self _ _ _ _ R). exact Ee.
  - subst k'. split; [done|]. split; [split; [exact Ee|congruence]|]. split; [done|]. by rewrite Ec.
Qed.

Lemma comp_wakeup_wp c e k s :
  kinv k -> comp_is c s k -> (forall t, s = Waiting t -> typed k (OThread t) RT_Object_Class_Thread) ->
  wp (rt_completion_wakeup_by_errno c e) (fun r k' => kinv k' /\
    exists s', acomp_wakeup (asleep k) s = (r, s') /\ comp_is c s' k' /\ (can_sched k -> can_sched k') /\
      forall t, s = Waiting t -> waiter_woken e t k k') k.
Proof.
  intros Hk Hs Hty. pose proof (ki_nest _ Hk). unfold rt_completion_wakeup_by_errno, comp, RT_COMPLETION_FLAG, RT_COMPLETION_THREAD.
  wp_step. apply spin_lock_wp. do 2 wp_step. simpl. pose proof Hs as Hd. unfold comp_is in Hd. rewrite Hd.
  assert (Hfin : forall r k1, kinv k1 -> kobj k1 = kobj (lock1 k) -> (is_Some (k_cur k) -> is_Some (k_cur k1)) ->
    (forall t, s = Waiting t -> waiter_woken e t k k1) -> acomp_wakeup (asleep k) s = (r, Completed) ->
    wp (set_comp c (RT_COMPLETION_NEW_STAT None RT_COMPLETED);; rt_spin_unlock_irqrestore;; mret r)
      (fun r k' => kinv k' /\ exists s', acomp_wakeup (asleep k) s = (r, s') /\ comp_is c s' k' /\ (can_sched k -> can_sched k') /\
        forall t, s = Waiting t -> waiter_woken e t k k') k1).
  { intros r k1 Hk1 Ho Hcur Hw Er. unfold set_comp, upd_comp. do 3 wp_step.
    change (set_k_dev _ k1) with (put_comp c (comp_word Completed) k1).
    assert (Hn1 : k_lock_nest k1 = k_lock_nest k + 1) by exact (kobj_nest _ _ Ho).
    apply spin_unlock_wp; [by apply kinv_put_comp|simpl; lia|]. intros k' U. wp_step.
    split; [eapply kinv_unlocked; [|exact U]; apply kinv_unlock1; [simpl; lia|by apply kinv_put_comp]|].
    exists Completed. split; [done|]. pose proof (un_frame _ _ U) as F. split; [eapply comp_is_unlocked; [exact U|apply comp_is_put]|]. split.
    - intros Hc. eapply unlocked_sched; [exact U|]. destruct Hc as [Hc|Hc]; [left; by apply Hcur|right; simpl; lia].
    - intros t Et. destruct (Hw t Et) as [W1 W2]. destruct (sf_thr _ _ F t) as [E1 _]. split; [by rewrite E1|].
      intros Ha. by apply (sf_active F), W2. }
  destruct s as [|t|]; simpl.
  - do 2 wp_step. by apply (Hfin _ (lock1 k)); [apply kinv_lock1|..].
  - wp_step. pose proof (wake_waiter_wp e t (lock1 k) (kinv_lock1 _ Hk) (Hty t eq_refl)) as W. apply wp_bind_inv in W.
    wp_step. eapply wp_mono; [exact W|]. clear W. intros v k1 W. wp_step. eapply wp_mono; [exact W|]. clear W.
    intros r k2 (Hk2 & -> & Hw & Ho & Hcur). wp_step. apply Hfin; [done|done|done| |].
    + by intros x [= <-].
    + unfold acomp_wakeup. change (asleep (lock1 k) t) with (asleep k t). by destruct (asleep k t).
  - wp_step. apply unlock_plain_wp; [done|]. intros k' Hk' U. wp_step. split; [done|]. exists Completed. split; [done|].
    split; [by eapply comp_is_unlocked|]. split; [by apply unlocked_sched|done].
Qed.

(** * The contract *)

(** [rt_completion_wait_flags] up to the switch away implements the wait of the
    machine: a completed word is cleared and [RT_EOK] returned; an idle word with a zero
    timeout gives [-RT_ETIMEOUT]; any other timeout records the caller in the word and
    leaves it asleep, with error [RT_EOK] and its timer armed when the timeout is
    positive. *)
Lemma rt_completion_wait_refines c k t timeout sf s :
  kinv k -> comp_is c s k -> (forall x, s <> Waiting x) -> timeout < tick_half -> (timeout <> 0 -> callable k t) ->
  wp (rt_completion_wait_flags_begin c timeout sf) (fun res k' => kinv k' /\
    exists s', acomp_wait t timeout s = Some (finished res, s') /\ comp_is c s' k' /\
      (finished res = None ->
        fell_asleep None 0 sf timeout t (put_comp c (comp_word s') (put_error t RT_EOK k)) k')) k.
Proof. intros. by apply wait_begin_wp. Qed.

(** [rt_completion_wakeup_by_errno] implements the wake-up of the machine: an idle or
    waited-for word becomes completed, a completed one gives [-RT_EBUSY] and stays.  The
    waiter's error is set unless the number is negative, and a waiter still asleep becomes
    runnable and the call returns [RT_EOK]; one whose wait timed out already makes it
    return [-RT_EEMPTY]. *)
Lemma rt_completion_wakeup_refines c e k s :
  kinv k -> comp_is c s k -> (forall t, s = Waiting t -> typed k (OThread t) RT_Object_Class_Thread) ->
  wp (rt_completion_wakeup_by_errno c e) (fun r k' => kinv k' /\
    exists s', acomp_wakeup (asleep k) s = (r, s') /\ comp_is c s' k' /\ (can_sched k -> can_sched k') /\
      forall t, s = Waiting t ->
        t_error (k_thr k' t) = (if 0 <=? e then e else t_error (k_thr k t)) /\
        (asleep k t = true -> active (k_thr k' t))) k.
Proof. intros. by apply comp_wakeup_wp. Qed.

(** A second waiter fails the assertion that only one thread waits. *)
Lemma second_waiter_refused c k x timeout sf :
  comp_is c (Waiting x) k -> rt_completion_wait_flags_begin c timeout sf k = None.
Proof.
  intros Hs. unfold comp_is in Hs. unfold rt_completion_wait_flags_begin.
  assert (Hd : forall b, RT_DEBUG_SCHEDULER_AVAILABLE b k = None \/ RT_DEBUG_SCHEDULER_AVAILABLE b k = Some (tt, k)).
  { intros []; [|by right]. unfold RT_DEBUG_SCHEDULER_AVAILABLE, RT_DEBUG_IN_THREAD_CONTEXT, RT_DEBUG_NOT_IN_INTERRUPT,
      rt_critical_level, rt_thread_self. cbv [mbind M_bind gets RT_ASSERT mret M_ret]. simpl.
    repeat case_match; auto; simplify_eq; auto. }
  unfold mbind, M_bind. destruct (Hd (negb (timeout =? 0))) as [-> | ->]; [done|].
  cbn -[completion_try]. unfold completion_try, comp, RT_COMPLETION_FLAG, RT_COMPLETION_THREAD, mbind, M_bind, gets.
  simpl. rewrite Hs. done.
Qed.

Lemma fell_asleep_typed l flag sf timeout t k k' o cls :
  fell_asleep l flag sf timeout t k k' -> typed k o cls -> typed k' o cls.
Proof. intros F. unfold typed. by rewrite (f_equal k_type (slept_kobj _ _ _ _ _ _ _ F) : k_type k' = k_type k). Qed.

(** the handshake of a waiter with whoever completes: a wait on an idle completion that
    is not zero puts the caller to sleep, [rt_completion_wakeup] then makes it runnable and
    returns [RT_EOK], and when it runs again the wait returns [RT_EOK] and the completion
    is idle: nothing is lost and nothing is left over. *)
Lemma completion_handshake c k t timeout sf :
  kinv k -> comp_is c Idle k -> callable k t -> timeout <> 0 -> timeout < tick_half ->
  wp (r ← rt_completion_wait_flags_begin c timeout sf;
      e ← rt_completion_wakeup c;
      active ← gets (fun k => negb (asleep k t));
      r' ← rt_completion_wait_flags_end c t sf;
      mret (finished r, e, active, finished r'))
     (fun res k' => res = (None, RT_EOK, true, Some RT_EOK) /\ kinv k' /\ comp_is c Idle k') k.
Proof.
  intros Hk Hs Hcall Hz Hto. wp_step. eapply wp_mono; [by apply (wait_begin_wp c k t timeout sf Idle)|].
  intros r k1 (Hk1 & s1 & E1 & Hs1 & F). simpl in E1. rewrite (proj2 (Z.eqb_neq _ _) Hz) in E1. injection E1 as E1 <-.
  symmetry in E1. specialize (F E1). destruct (slept_self _ _ _ _ _ _ _ F) as [Hsu Hself].
  assert (Hty : typed k1 (OThread t) RT_Object_Class_Thread) by (eapply fell_asleep_typed; [exact F|apply (ca_ok _ _ Hcall)]).
  assert (Hc1 : can_sched k1) by (eapply slept_sched; [exact F|left; exists t; apply (ca_run _ _ Hcall)]).
  assert (Ha : asleep k1 t = true) by by apply Z.leb_le.
  wp_step. unfold rt_completion_wakeup. eapply wp_mono; [apply (comp_wakeup_wp c (-1) k1 (Waiting t)); try done; by intros x [= <-]|].
  intros e k2 (Hk2 & s2 & E2 & Hs2 & Hc2 & Hw). simpl in E2. rewrite Ha in E2. injection E2 as <- <-.
  destruct (Hw t eq_refl) as [_ Hact]. specialize (Hact Ha). do 3 wp_step.
  assert (Ea : asleep k2 t = false) by (apply Z.leb_gt, Z.nle_gt; exact (active_not_suspended _ Hact)).
  rewrite Ea. eapply wp_mono; [by apply (wait_end_wp c k2 t sf Completed); auto|].
  intros r' k3 (Hk3 & s3 & E3 & Hs3). wp_step. unfold acomp_resume in E3. rewrite bool_decide_false in E3 by done.
  injection E3 as E3 <-. by rewrite E1, <- E3.
Qed.

(** When another thread has taken the completion in between, the waiter gets
    [-RT_ETIMEOUT], whatever its timeout was. *)
Lemma completion_stolen c k t sf :
  kinv k -> can_sched k -> comp_is c Idle k ->
  wp (rt_completion_wait_flags_end c t sf) (fun res k' => finished res = Some (- RT_ETIMEOUT) /\ comp_is c Idle k') k.
Proof.
  intros Hk Hc Hs. eapply wp_mono; [by apply (wait_end_wp c k t sf Idle)|]. intros res k' (_ & s' & E & Hs').
  unfold acomp_resume in E. rewrite bool_decide_false in E by done. by injection E as <- <-.
Qed.

(** * At concrete inputs *)

Lemma kdemo_comp_idle : comp_is 1 Idle kdemo.
Proof. done. Qed.

(** The completion is completed, or its waiter has timed out. *)
Definition kcompleted : kernel := put_comp 1 (comp_word Completed) kdemo.
Definition kexpired : kernel := put_comp 1 (comp_word (Waiting 1)) kdemo.

Lemma rt_completion_wait_refines_witness :
  wp (rt_completion_wait_flags_begin 1 0 RT_UNINTERRUPTIBLE) (fun res k' => kinv k' /\
    exists s', Some (Some RT_EOK, Idle) = Some (finished res, s') /\ comp_is 1 s' k' /\
      (finished res = None ->
        fell_asleep None 0 RT_UNINTERRUPTIBLE 0 1 (put_comp 1 (comp_word s') (put_error 1 RT_EOK kcompleted)) k')) kcompleted.
Proof.
  by apply (rt_completion_wait_refines 1 kcompleted 1 0 RT_UNINTERRUPTIBLE Completed (kinv_put_comp 1 _ _ kdemo_inv)).
Defined.

Lemma rt_completion_wakeup_refines_witness :
  wp (rt_completion_wakeup_by_errno 1 7) (fun r k' => kinv k' /\
    exists s', (- RT_EEMPTY, Completed) = (r, s') /\ comp_is 1 s' k' /\ (can_sched kexpired -> can_sched k') /\
      forall t, Waiting 1 = Waiting t -> t_error (k_thr k' t) = 7 /\ (asleep kexpired t = true -> active (k_thr k' t))) kexpired.
Proof.
  apply (rt_completion_wakeup_refines 1 7 kexpired (Waiting 1) (kinv_put_comp 1 _ _ kdemo_inv) eq_refl).
  by intros t [= <-].
Defined.

Lemma completion_handshake_witness :
  wp (r ← rt_completion_wait_flags_begin 1 5 RT_INTERRUPTIBLE;
      e ← rt_completion_wakeup 1;
      active ← gets (fun k => negb (asleep k 1%positive));
      r' ← rt_completion_wait_flags_end 1 1 RT_INTERRUPTIBLE;
      mret (finished r, e, active, finished r'))
     (fun res k' => res = (None, RT_EOK, true, Some RT_EOK) /\ kinv k' /\ comp_is 1 Idle k') kdemo.
Proof. by apply (completion_handshake 1 kdemo 1 5 RT_INTERRUPTIBLE kdemo_inv kdemo_comp_idle kdemo_callable). Defined.
