(* ===== verification/WaitQueue.v ===== *)
(** Wait queues, components/drivers/ipc/waitqueue.c: nodes of waiting threads, a flag that
    remembers a wake-up, and who is woken. *)
From S2P Require Import Prelude KState SchedUp Object TimerCore SchedComm SuspList Sem Timer Thread Demo SemTake IpcWait Completion.
#[local] Open Scope Z_scope.

Definition RT_WQ_FLAG_CLEAN : Z := 0.
Definition RT_WQ_FLAG_WAKEUP : Z := 1.

Definition wqueue (q : oid) : K rt_wqueue := gets (fun k => d_wqueue (k_dev k) q).
Definition wnode (n : oid) : K rt_wqueue_node := gets (fun k => d_wnode (k_dev k) n).

(** [rt_list_remove(&node->list)] *)
Definition node_unlink (n : oid) (r : rt_wqueue) : rt_wqueue := set_wq_nodes (filter (.≠ n) (wq_nodes r)) r.
Definition list_remove_node (n : oid) : K unit :=
  modify (fun k => set_k_dev (set_d_wqueue (fun q => node_unlink n (d_wqueue (k_dev k) q)) (k_dev k)) k).
Definition node_push_back (q n : oid) : K unit := upd_wqueue q (fun r => set_wq_nodes (wq_nodes r ++ [n]) r).

Definition rt_wqueue_init (q : oid) : K unit := upd_wqueue q (fun _ => mk_wqueue RT_WQ_FLAG_CLEAN []).

Definition rt_wqueue_add (q n : oid) : K unit :=
  rt_spin_lock_irqsave;;
  upd_wnode n (set_wn_queue (Some q));;
  node_push_back q n;;
  rt_spin_unlock_irqrestore.

Definition rt_wqueue_remove (n : oid) : K unit :=
  wn ← wnode n;
  RT_ASSERT (bool_decide (wn_queue wn <> None));;
  rt_spin_lock_irqsave;;
  list_remove_node n;;
  rt_spin_unlock_irqrestore.

Definition __wqueue_default_wake (wait : oid) (key : Z) : K Z := mret 0.

Section wake.
(** [entry->wakeup(entry, key)], set for each node by its owner. *)
Variable wakeup : oid -> Z -> K Z.

(** The loop of [rt_wqueue_wakeup] over the nodes, up to the first thread resumed. *)
Fixpoint wqueue_wake_loop (nodes : list oid) (key : Z) : K bool :=
  match nodes with
  | [] => mret false
  | entry :: nodes =>
      r ← wakeup entry key;
      if r =? 0 then
        wn ← wnode entry;
        upd_thr (wn_thread wn) (set_t_error RT_EOK);;
        err ← rt_thread_resume (wn_thread wn);
        if err =? 0 then list_remove_node entry;; mret true
        else wqueue_wake_loop nodes key
      else wqueue_wake_loop nodes key
  end.

Definition rt_wqueue_wakeup (q : oid) (key : Z) : K unit :=
  rt_spin_lock_irqsave;;
  upd_wqueue q (set_wq_flag RT_WQ_FLAG_WAKEUP);;
  r ← wqueue q;
  need_schedule ← wqueue_wake_loop (wq_nodes r) key;
  rt_spin_unlock_irqrestore;;
  if (need_schedule : bool) then rt_schedule else mret tt.

(** The loop of [rt_wqueue_wakeup_all]; the nodes stay in the queue. *)
Fixpoint wqueue_wake_all_loop (nodes : list oid) (key : Z) (need_schedule : bool) : K bool :=
  match nodes with
  | [] => mret need_schedule
  | entry :: nodes =>
      r ← wakeup entry key;
      if r =? 0 then
        wn ← wnode entry;
        upd_thr (wn_thread wn) (set_t_error RT_EOK);;
        err ← rt_thread_resume (wn_thread wn);
        wqueue_wake_all_loop nodes key (need_schedule || (err =? 0))
      else wqueue_wake_all_loop nodes key need_schedule
  end.

Definition rt_wqueue_wakeup_all (q : oid) (key : Z) : K unit :=
  rt_spin_lock_irqsave;;
  upd_wqueue q (set_wq_flag RT_WQ_FLAG_WAKEUP);;
  r ← wqueue q;
  need_schedule ← wqueue_wake_all_loop (wq_nodes r) key false;
  rt_spin_unlock_irqrestore;;
  if (need_schedule : bool) then rt_schedule else mret tt.
End wake.

(** [__exit_wakeup], under the lock. *)
Definition wqueue_exit (q n : oid) (thread : tid) : K (wait Z) :=
  upd_wqueue q (set_wq_flag RT_WQ_FLAG_CLEAN);;
  rt_spin_unlock_irqrestore;;
  rt_wqueue_remove n;;
  th ← thr thread;
  mret (Done (if 0 <? t_error th then - t_error th else t_error th)).

(** [n] is the address of the node [__wait] on the stack of the caller. *)
Definition _rt_wqueue_wait_begin (q n : oid) (condition msec : Z) (sf : suspend_flag) : K (wait Z) :=
  self ← rt_thread_self;
  RT_DEBUG_SCHEDULER_AVAILABLE true;;
  let tick := i32 (rt_tick_from_millisecond msec) in
  if negb (condition =? 0) || (tick =? 0) then mret (Done 0)
  else
    thread ← deref self;
    list_remove_node n;; (* rt_list_init of the node *)
    upd_wnode n (fun _ => mk_wnode thread (Some q) 0);;
    rt_spin_lock_irqsave;;
    upd_thr thread (set_t_error RT_EOK);;
    r ← wqueue q;
    if wq_flag r =? RT_WQ_FLAG_WAKEUP then wqueue_exit q n thread
    else
      ret ← rt_thread_suspend_with_flag thread sf;
      if negb (ret =? RT_EOK) then rt_spin_unlock_irqrestore;; mret (Done (- RT_EINTR))
      else
        node_push_back q n;;
        (if negb (tick =? -1) then arm_timeout thread tick else mret tt);;
        rt_spin_unlock_irqrestore;;
        mret (Asleep tick 0).

(** When the thread runs again. *)
Definition _rt_wqueue_wait_end (q n : oid) (thread : tid) : K (wait Z) :=
  rt_schedule;;
  rt_spin_lock_irqsave;;
  wqueue_exit q n thread.

Definition rt_wqueue_wait (q n : oid) (condition msec : Z) : K (wait Z) :=
  _rt_wqueue_wait_begin q n condition msec RT_UNINTERRUPTIBLE.
Definition rt_wqueue_wait_killable (q n : oid) (condition msec : Z) : K (wait Z) :=
  _rt_wqueue_wait_begin q n condition msec RT_KILLABLE.
Definition rt_wqueue_wait_interruptible (q n : oid) (condition msec : Z) : K (wait Z) :=
  _rt_wqueue_wait_begin q n condition msec RT_INTERRUPTIBLE.

(** * Waking *)

Definition wqueue_of (q : oid) (k : kernel) : rt_wqueue := d_wqueue (k_dev k) q.
Definition node_thread (n : oid) (k : kernel) : tid := wn_thread (d_wnode (k_dev k) n).

Lemma asleep_th_frame k k' x : th_frame (k_thr k x) (k_thr k' x) -> asleep k' x = asleep k x.
Proof.
  intros [_ [E|[H1 H2]]]; [unfold asleep; by rewrite E|].
  unfold asleep. apply active_not_suspended in H1, H2. unfold suspended in *.
  rewrite !(proj2 (Z.leb_gt _ _)) by lia. done.
Qed.

(** Only error numbers differ. *)
Record errs (k k' : kernel) : Prop := mk_errs {
  er_obj : kobj k' = kobj k;
  er_cur : k_cur k' = k_cur k;
  er_thr : forall x, exists e, k_thr k' x = set_t_error e (k_thr k x)
}.

Lemma errs_refl k : errs k k.
Proof. split; [done|done|]. intros x. exists (t_error (k_thr k x)). by destruct (k_thr k x). Qed.

Lemma errs_put t e k k' : errs k k' -> errs k (put_error t e k').
Proof.
  intros [A B C]. split; [done|done|]. intros x. destruct (C x) as [e' E]. simpl.
  destruct (decide (x = t)) as [->|Hne]; [|rewrite fupd_ne by done; eauto].
  rewrite fupd_eq, E. exists e. by destruct (k_thr k t).
Qed.

Lemma errs_asleep k k' x : errs k k' -> asleep k' x = asleep k x.
Proof. intros H. destruct (er_thr _ _ H x) as [e E]. unfold asleep. by rewrite E. Qed.

Section waking.
Context (wakeup : oid -> Z -> K Z) (ready : oid -> Z -> bool).
(** The wake-up functions look at the node and the key only. *)
Hypothesis wakeup_ok : forall n key k, wp (wakeup n key) (fun r k' => k' = k /\ (r =? 0) = ready n key) k.

(** The node served: the first that is ready and whose thread sleeps. *)
Definition served_node (nodes : list oid) (key : Z) (k : kernel) : option oid :=
  head (filter (fun n => ready n key && asleep k (node_thread n k) = true) nodes).

(** The thread of the served node runs, with error [RT_EOK]. *)
Definition node_served (n : oid) (k k' : kernel) : Prop :=
  exists ke, errs k ke /\ t_error (k_thr ke (node_thread n k)) = RT_EOK /\ resumed (-1) (node_thread n k) ke k'.

Lemma node_thread_kobj n k k' : kobj k' = kobj k -> node_thread n k' = node_thread n k.
Proof. intros O. unfold node_thread. by rewrite (dev_kobj _ _ O). Qed.

(** A node that is not served costs at most an error number. *)
Lemma wqueue_wake_loop_wp nodes key k0 : forall k,
  kinv k -> errs k0 k -> (forall n, n ∈ nodes -> typed k0 (OThread (node_thread n k0)) RT_Object_Class_Thread) ->
  wp (wqueue_wake_loop wakeup nodes key) (fun r k' =>
    match served_node nodes key k0 with
    | Some n => r = true /\ exists k1, kinv k1 /\ node_served n k0 k1 /\
        k' = set_k_dev (set_d_wqueue (fun q => node_unlink n (d_wqueue (k_dev k0) q)) (k_dev k0)) k1
    | None => r = false /\ kinv k' /\ errs k0 k'
    end) k.
Proof using wakeup_ok.
  induction nodes as [|n nodes IH]; intros k Hk He Hty; cbn [wqueue_wake_loop]; [by wp_step|].
  assert (Hn : node_thread n k = node_thread n k0) by (apply node_thread_kobj, He).
  assert (Htn : forall k1, kobj k1 = kobj k0 -> typed k1 (OThread (node_thread n k0)) RT_Object_Class_Thread).
  { intros k1 O. unfold typed. rewrite (f_equal k_type O : k_type k1 = k_type k0). apply Hty. left. }
  assert (Hnx : forall n', n' ∈ nodes -> typed k0 (OThread (node_thread n' k0)) RT_Object_Class_Thread)
    by (intros n' Hn'; apply Hty; by right).
  wp_step. eapply wp_mono; [apply wakeup_ok|]. intros r kx [-> Hr]. rewrite Hr. unfold served_node. simpl.
  destruct (ready n key) eqn:Erd; [|rewrite filter_cons_False by (rewrite Erd; discriminate); by apply IH].
  unfold wnode, upd_thr. do 4 wp_step. fold (node_thread n k). rewrite Hn.
  change (set_k_thr _ k) with (put_error (node_thread n k0) RT_EOK k). wp_step.
  pose proof (errs_put (node_thread n k0) RT_EOK _ _ He) as He1.
  eapply wp_mono; [apply resume_locked_wp; [by apply kinv_put_error|apply Htn, He1]|]. intros err k1 [Hk1 Hr1].
  rewrite (errs_asleep _ _ _ He1) in Hr1. destruct (asleep k0 (node_thread n k0)) eqn:Ea; destruct Hr1 as [-> R]; simpl.
  - rewrite filter_cons_True by (by rewrite Erd, Ea). unfold list_remove_node. do 2 wp_step. wp_step. split; [done|].
    exists k1. split; [done|]. split.
    + exists (put_error (node_thread n k0) RT_EOK k). split; [done|]. split; [simpl; by rewrite fupd_eq|done].
    + assert (Ed : k_dev k1 = k_dev k0) by exact (eq_trans (dev_kobj _ _ (rs_obj _ _ _ _ R)) (dev_kobj _ _ (er_obj _ _ He1))).
      by rewrite Ed.
  - subst k1. rewrite filter_cons_False by (rewrite Ea, andb_false_r; done). by apply IH.
Qed.

(** The end of a wake-up: unlock, and reschedule if a thread was resumed. *)
Lemma wake_end_wp (need : bool) k k1 Q :
  kinv k1 -> k_lock_nest k1 = k_lock_nest k + 1 -> 0 <= k_lock_nest k -> (need = true -> can_sched (unlock1 k1)) ->
  (forall k', kinv k' -> unlocked (unlock1 k1) k' -> Q tt k') ->
  wp (rt_spin_unlock_irqrestore;; if need then rt_schedule else mret tt) Q k1.
Proof using Type.
  intros Hk1 En Hn Hc HQ. wp_step. apply spin_unlock_wp; [apply Hk1|lia|]. intros k2 U.
  assert (Hk2 : kinv k2) by (eapply kinv_unlocked; [|exact U]; apply kinv_unlock1; [lia|done]).
  destruct need; [|wp_step; by apply HQ]. apply sched_inv_wp; [done|eapply unlocked_sched; [exact U|by apply Hc]|].
  intros k3 Hk3 U3. apply HQ; [done|]. by eapply unlocked_trans.
Qed.

(** Who sleeps after a wake-up: everybody but the thread served. *)
Definition only_woken (t : option tid) (k k' : kernel) : Prop :=
  (forall x, t = Some x -> active (k_thr k' x) /\ t_error (k_thr k' x) = RT_EOK) /\
  (forall x, t <> Some x -> asleep k' x = asleep k x).

Lemma wakeup_wp q key k :
  kinv k -> can_sched k ->
  (forall n, n ∈ wq_nodes (wqueue_of q k) -> typed k (OThread (node_thread n k)) RT_Object_Class_Thread) ->
  wp (rt_wqueue_wakeup wakeup q key) (fun _ k' => kinv k' /\ (can_sched k') /\ d_wnode (k_dev k') = d_wnode (k_dev k) /\ d_cond (k_dev k') = d_cond (k_dev k) /\
    let served := served_node (wq_nodes (wqueue_of q k)) key k in
    wqueue_of q k' = mk_wqueue RT_WQ_FLAG_WAKEUP
      (match served with Some n => filter (.≠ n) (wq_nodes (wqueue_of q k)) | None => wq_nodes (wqueue_of q k) end) /\
    only_woken (served ≫= fun n => Some (node_thread n k)) k k') k.
Proof using wakeup_ok.
  intros Hk Hc Hty. pose proof (ki_nest _ Hk) as Hn. unfold rt_wqueue_wakeup, upd_wqueue, wqueue. wp_step. apply spin_lock_wp. do 4 wp_step.
  match goal with |- wp _ _ (set_k_dev ?x _) => set (d := x) end. change (set_k_dev d _) with (lock1 (set_k_dev d k)).
  change (k_dev (lock1 (set_k_dev d k))) with d.
  assert (E : d_wqueue d q = mk_wqueue RT_WQ_FLAG_WAKEUP (wq_nodes (wqueue_of q k))) by (unfold d; simpl; by rewrite fupd_eq).
  assert (En : d_wnode d = d_wnode (k_dev k)) by done. assert (Ec : d_cond d = d_cond (k_dev k)) by done.
  rewrite E. simpl. clearbody d. set (k0 := lock1 (set_k_dev d k)). set (nodes := wq_nodes (wqueue_of q k)) in *.
  assert (Hnt : forall n, node_thread n k0 = node_thread n k) by (intros n; unfold node_thread; simpl; by rewrite En).
  assert (Hsv : served_node nodes key k0 = served_node nodes key k).
  { unfold served_node. f_equal. apply list_filter_iff. intros n. by rewrite Hnt. }
  wp_step. eapply wp_mono; [apply (wqueue_wake_loop_wp nodes key k0 k0); [by apply kinv_lock1, kinv_set_dev|apply errs_refl|]|].
  { intros n Hin. rewrite Hnt. by apply Hty. }
  intros r k1 Hr. rewrite Hsv in Hr. destruct (served_node nodes key k) as [n|] eqn:Es.
  - destruct Hr as (-> & kr & Hkr & (ke & He & Eerr & R) & ->). rewrite Hnt in Eerr, R.
    pose proof (rs_obj _ _ _ _ R) as O. pose proof (er_obj _ _ He) as Oe.
    assert (En1 : k_lock_nest kr = k_lock_nest k + 1) by (rewrite (kobj_nest _ _ O), (kobj_nest _ _ Oe); done).
    apply (wake_end_wp true k); [by apply kinv_set_dev|done|done| |].
    { intros _. destruct Hc as [Hc|Hc]; [left|right; simpl; lia]. apply (rs_cur _ _ _ _ R). by rewrite (er_cur _ _ He). }
    intros k' Hk' U. split; [done|]. split.
    { eapply unlocked_sched; [exact U|]. destruct Hc as [Hc|Hc]; [left|right; simpl; lia]. apply (rs_cur _ _ _ _ R). by rewrite (er_cur _ _ He). }
    pose proof (un_frame _ _ U) as F. unfold wqueue_of. rewrite (dev_kobj _ _ (kobj_sched _ _ (sf_rest _ _ F))). simpl. rewrite E.
    split; [done|]. split; [done|]. split; [done|]. split.
    + intros x [= <-]. destruct (sf_thr _ _ F (node_thread n k)) as [E1 _]. split; [by apply (sf_active F), R|].
      rewrite E1. simpl. by rewrite (rs_self _ _ _ _ R).
    + intros x Hx. rewrite (asleep_th_frame _ _ _ (sf_thr _ _ F x)). change (asleep kr x = asleep k x).
      rewrite (asleep_th_frame ke kr) by (apply (rs_other _ _ _ _ R); intros ->; done). exact (errs_asleep _ _ x He).
  - destruct Hr as (-> & Hk1 & He). pose proof (er_obj _ _ He) as Oe.
    apply (wake_end_wp false k); [done|exact (kobj_nest _ _ Oe)|done|done|]. intros k' Hk' U. split; [done|]. split.
    { eapply unlocked_sched; [exact U|]. destruct Hc as [Hc|Hc]; [left; simpl; by rewrite (er_cur _ _ He)|right; simpl; rewrite (kobj_nest _ _ Oe); simpl; lia]. }
    pose proof (un_frame _ _ U) as F. unfold wqueue_of. rewrite (dev_kobj _ _ (kobj_sched _ _ (sf_rest _ _ F))). simpl. rewrite (dev_kobj _ _ Oe). simpl. rewrite E.
    split; [done|]. split; [done|]. split; [done|]. split; [done|].
    intros x _. rewrite (asleep_th_frame _ _ _ (sf_thr _ _ F x)). exact (errs_asleep _ _ x He).
Qed.

(** After [rt_wqueue_wakeup_all] no thread of a ready node sleeps. *)
Record awakened (ts : list tid) (k k' : kernel) : Prop := mk_awakened {
  aw_inv : kinv k';
  aw_obj : kobj k' = kobj k;
  aw_cur : is_Some (k_cur k) -> is_Some (k_cur k');
  aw_kept : forall x, asleep k x = false -> asleep k' x = false;
  aw_ts : forall x, x ∈ ts -> asleep k' x = false
}.

Lemma awakened_cons t ts k k1 k' :
  kobj k1 = kobj k -> (is_Some (k_cur k) -> is_Some (k_cur k1)) -> (forall x, asleep k x = false -> asleep k1 x = false) ->
  asleep k1 t = false -> awakened ts k1 k' -> awakened (t :: ts) k k'.
Proof using Type.
  intros O C A T [B1 B2 B3 B4 B5]. split; [done|congruence|auto|auto|].
  intros x [->|Hx]%elem_of_cons; auto.
Qed.

Definition ready_threads (nodes : list oid) (key : Z) (k : kernel) : list tid :=
  map (fun n => node_thread n k) (filter (fun n => ready n key = true) nodes).

Lemma wake_all_loop_wp nodes key : forall need k,
  kinv k -> (forall n, n ∈ nodes -> typed k (OThread (node_thread n k)) RT_Object_Class_Thread) ->
  wp (wqueue_wake_all_loop wakeup nodes key need) (fun _ k' => awakened (ready_threads nodes key k) k k') k.
Proof using wakeup_ok.
  unfold ready_threads. induction nodes as [|n nodes IH]; intros need k Hk Hty; cbn [wqueue_wake_all_loop].
  { wp_step. split; try done. by intros x ?%elem_of_nil. }
  assert (Hnx : forall n', n' ∈ nodes -> typed k (OThread (node_thread n' k)) RT_Object_Class_Thread)
    by (intros n' Hn'; apply Hty; by right).
  wp_step. eapply wp_mono; [apply wakeup_ok|]. intros r kx [-> Hr]. rewrite Hr.
  destruct (ready n key) eqn:Erd; [|rewrite filter_cons_False by (rewrite Erd; discriminate); by apply IH].
  rewrite filter_cons_True by done. unfold wnode, upd_thr. do 4 wp_step. fold (node_thread n k).
  set (t := node_thread n k). change (set_k_thr _ k) with (put_error t RT_EOK k). wp_step.
  pose proof (errs_put t RT_EOK _ _ (errs_refl k)) as He.
  eapply wp_mono; [apply resume_locked_wp; [by apply kinv_put_error|apply Hty; left]|]. intros err k1 [Hk1 Hr1].
  rewrite (errs_asleep _ _ _ He) in Hr1.
  assert (S : kobj k1 = kobj k /\ (is_Some (k_cur k) -> is_Some (k_cur k1)) /\ (forall x, asleep k x = false -> asleep k1 x = false) /\
    asleep k1 t = false).
  { destruct (asleep k t) eqn:Ea; destruct Hr1 as [_ R].
    - assert (At : asleep k1 t = false) by (apply Z.leb_gt, Z.nle_gt; exact (active_not_suspended _ (rs_active _ _ _ _ R))).
      split; [exact (rs_obj _ _ _ _ R)|]. split; [apply R|]. split; [|done]. intros x Hx. destruct (decide (x = t)) as [->|Hne]; [done|].
      rewrite (asleep_th_frame _ _ _ (rs_other _ _ _ _ R x Hne)). by rewrite (errs_asleep _ _ _ He).
    - subst k1. split; [done|]. split; [done|]. split; [intros x Hx|]; by rewrite (errs_asleep _ _ _ He). }
  destruct S as (O & C & A & T). cbn [map]. fold t.
  eapply wp_mono; [apply IH; [done|]|].
  { intros n' Hn'. unfold typed. rewrite (node_thread_kobj _ _ _ O), (f_equal k_type O : k_type k1 = k_type k). by apply Hnx. }
  intros v k' A'. eapply awakened_cons; [done..|].
  erewrite map_ext; [exact A'|]. intros n'. symmetry. by apply node_thread_kobj.
Qed.

Lemma rt_wqueue_wakeup_all_spec q key k :
  kinv k -> can_sched k ->
  (forall n, n ∈ wq_nodes (wqueue_of q k) -> typed k (OThread (node_thread n k)) RT_Object_Class_Thread) ->
  wp (rt_wqueue_wakeup_all wakeup q key) (fun _ k' => kinv k' /\
    wqueue_of q k' = mk_wqueue RT_WQ_FLAG_WAKEUP (wq_nodes (wqueue_of q k)) /\
    forall x, x ∈ ready_threads (wq_nodes (wqueue_of q k)) key k -> asleep k' x = false) k.
Proof using wakeup_ok.
  intros Hk Hc Hty. pose proof (ki_nest _ Hk) as Hn. unfold rt_wqueue_wakeup_all, upd_wqueue, wqueue. wp_step. apply spin_lock_wp. do 4 wp_step.
  match goal with |- wp _ _ (set_k_dev ?x _) => set (d := x) end. change (set_k_dev d _) with (lock1 (set_k_dev d k)).
  change (k_dev (lock1 (set_k_dev d k))) with d.
  assert (E : d_wqueue d q = mk_wqueue RT_WQ_FLAG_WAKEUP (wq_nodes (wqueue_of q k))) by (unfold d; simpl; by rewrite fupd_eq).
  assert (Et : forall n, node_thread n (lock1 (set_k_dev d k)) = node_thread n k) by done.
  rewrite E. simpl. clearbody d. wp_step. eapply wp_mono; [apply wake_all_loop_wp; [by apply kinv_lock1, kinv_set_dev|]|].
  { intros n Hin. rewrite Et. by apply Hty. }
  intros r k1 A. unfold ready_threads in A. erewrite map_ext in A by exact Et. pose proof (aw_obj _ _ _ A) as O.
  assert (Hc1 : can_sched (unlock1 k1)).
  { destruct Hc as [Hc|Hc]; [left; by apply (aw_cur _ _ _ A)|right; simpl; rewrite (kobj_nest _ _ O); simpl; lia]. }
  apply (wake_end_wp r k); [apply A|exact (kobj_nest _ _ O)|done|done|]. intros k' Hk' U. pose proof (un_frame _ _ U) as F.
  split; [done|]. split.
  - unfold wqueue_of. rewrite (dev_kobj _ _ (kobj_sched _ _ (sf_rest _ _ F))). simpl. rewrite (dev_kobj _ _ O). simpl. by rewrite E.
  - intros x Hx. rewrite (asleep_th_frame _ _ _ (sf_thr _ _ F x)). exact (aw_ts _ _ _ A x Hx).
Qed.
End waking.

(** * Waiting *)

Lemma exit_wp q n t k :
  kinv k -> can_sched k -> wn_queue (d_wnode (k_dev k) n) <> None ->
  wp (wqueue_exit q n t) (fun res k' => res = Done (- Z.abs (t_error (k_thr k t))) /\ kinv k' /\ can_sched k' /\
    wqueue_of q k' = mk_wqueue RT_WQ_FLAG_CLEAN (filter (.≠ n) (wq_nodes (wqueue_of q k))) /\
    forall x, asleep k' x = asleep k x) (lock1 k).
Proof.
  intros Hk Hc Hq. unfold wqueue_exit, upd_wqueue. do 2 wp_step.
  match goal with |- wp _ _ (set_k_dev ?x _) => set (d := x) end. change (set_k_dev d _) with (lock1 (set_k_dev d k)).
  assert (E : d_wqueue d q = mk_wqueue RT_WQ_FLAG_CLEAN (wq_nodes (wqueue_of q k))) by (unfold d; simpl; by rewrite fupd_eq).
  assert (En : d_wnode d n = d_wnode (k_dev k) n) by done. clearbody d.
  wp_step. apply unlock_plain_wp; [by apply kinv_set_dev|]. intros k1 Hk1 U1. pose proof (un_frame _ _ U1) as F1.
  assert (Ed1 : k_dev k1 = d) by exact (dev_kobj _ _ (kobj_sched _ _ (sf_rest _ _ F1))).
  unfold rt_wqueue_remove, wnode, list_remove_node. do 4 wp_step. rewrite Ed1, En. apply wp_assert; [by apply bool_decide_eq_true|].
  wp_step. apply spin_lock_wp. do 2 wp_step. change (k_dev (lock1 k1)) with (k_dev k1). rewrite Ed1.
  match goal with |- wp _ _ (set_k_dev ?x _) => set (d2 := x) end. change (set_k_dev d2 _) with (lock1 (set_k_dev d2 k1)).
  assert (E2 : d_wqueue d2 q = mk_wqueue RT_WQ_FLAG_CLEAN (filter (.≠ n) (wq_nodes (wqueue_of q k))))
    by (unfold d2; simpl; unfold node_unlink; by rewrite E).
  clearbody d2. apply unlock_plain_wp; [by apply kinv_set_dev|]. intros k2 Hk2 U2. pose proof (un_frame _ _ U2) as F2.
  unfold thr. do 2 wp_step. wp_step.
  assert (Ee : t_error (k_thr k2 t) = t_error (k_thr k t)).
  { destruct (sf_thr _ _ F2 t) as [-> _], (sf_thr _ _ F1 t) as [E1 _]. simpl. by rewrite E1. }
  split; [rewrite Ee; f_equal; case_bool; lia|]. split; [done|].
  split; [eapply unlocked_sched; [exact U2|]; by eapply (unlocked_sched _ k1 U1)|].
  split; [unfold wqueue_of; by rewrite (dev_kobj _ _ (kobj_sched _ _ (sf_rest _ _ F2)))|].
  intros x. rewrite (asleep_th_frame _ _ _ (sf_thr _ _ F2 x)). change (asleep k1 x = asleep k x).
  exact (asleep_th_frame (set_k_dev d k) k1 x (sf_thr _ _ F1 x)).
Qed.

(** The ticks of a wait: -1 for ever, else below half the range. *)
Lemma wait_ticks msec : - 2 ^ 31 <= msec < 2 ^ 31 ->
  i32 (rt_tick_from_millisecond msec) = -1 \/ 0 <= i32 (rt_tick_from_millisecond msec) < tick_half.
Proof.
  intros Hm. unfold rt_tick_from_millisecond, RT_TICK_PER_SECOND. case_bool; [by left|]. right.
  assert (0 <= msec / 1000 < 2147484) by (Z.to_euclidean_division_equations; lia).
  assert (0 <= (1 * (msec mod 1000) + 999) / 1000 < 2) by (Z.to_euclidean_division_equations; lia).
  rewrite !u32_id by (rewrite ?u32_id by lia; lia). rewrite i32_id by lia. change tick_half with 2147483647. lia.
Qed.

(** What a wait stores before it looks at the flag. *)
Definition wait_node_dev (q n : oid) (t : tid) (d : devices) : devices :=
  set_d_wnode (fupd n (mk_wnode t (Some q) 0) (d_wnode d)) (set_d_wqueue (fun q => node_unlink n (d_wqueue d q)) d).

Definition wait_sleep_dev (q n : oid) (t : tid) (d : devices) : devices :=
  let d := wait_node_dev q n t d in
  set_d_wqueue (fupd q (set_wq_nodes (wq_nodes (d_wqueue d q) ++ [n]) (d_wqueue d q)) (d_wqueue d)) d.

Lemma wq_wait_begin_wp q n k t msec sf :
  kinv k -> callable k t -> - 2 ^ 31 <= msec < 2 ^ 31 -> i32 (rt_tick_from_millisecond msec) <> 0 ->
  wp (_rt_wqueue_wait_begin q n 0 msec sf) (fun res k' => kinv k' /\ can_sched k' /\
    if wq_flag (wqueue_of q k) =? RT_WQ_FLAG_WAKEUP then
      res = Done 0 /\ wqueue_of q k' = mk_wqueue RT_WQ_FLAG_CLEAN (filter (.≠ n) (wq_nodes (wqueue_of q k)))
    else
      let tick := i32 (rt_tick_from_millisecond msec) in
      res = Asleep tick 0 /\
      fell_asleep None 0 sf tick t (set_k_dev (wait_sleep_dev q n t (k_dev k)) (put_error t RT_EOK k)) k') k.
Proof.
  intros Hk Hcall Hm Hz. pose proof (wait_ticks msec Hm) as Ht. set (tick := i32 (rt_tick_from_millisecond msec)) in *.
  destruct Hcall as [C1 C2 C3 C4] eqn:EC. unfold _rt_wqueue_wait_begin, rt_thread_self. do 3 wp_step.
  eapply scheduler_available_wp; [exact Hcall|]. fold tick. change (0 =? 0) with true. rewrite (proj2 (Z.eqb_neq _ _) Hz). cbn [negb orb].
  wp_step. eapply wp_deref; [apply C1|]. unfold list_remove_node, upd_wnode, wqueue, upd_thr. do 5 wp_step. apply spin_lock_wp. do 4 wp_step.
  match goal with |- wp _ _ (set_k_thr ?f (lock1 (set_k_dev ?x _))) => set (d := x) end.
  change (set_k_thr _ (lock1 (set_k_dev d _))) with (lock1 (set_k_dev d (put_error t RT_EOK k))).
  set (ke := set_k_dev d (put_error t RT_EOK k)).
  assert (Ed : d = wait_node_dev q n t (k_dev k)) by done.
  assert (Ef : wq_flag (d_wqueue d q) = wq_flag (wqueue_of q k)) by done.
  assert (Eq : wn_queue (d_wnode d n) = Some q) by (rewrite Ed; simpl; by rewrite fupd_eq).
  assert (Hke : kinv ke) by (by apply kinv_set_dev, kinv_put_error).
  assert (Hcs : can_sched ke) by (left; exists t; apply C1).
  change (k_dev (lock1 ke)) with d. rewrite Ef. case_bool.
  - eapply wp_mono; [apply (exit_wp q n t ke); [done|done|by change (k_dev ke) with d; rewrite Eq]|]. intros res k' (-> & Hk' & Hc' & Ew & _).
    split; [done|]. split; [done|]. split; [by simpl; rewrite fupd_eq|]. rewrite Ew. f_equal.
    change (wq_nodes (wqueue_of q ke)) with (wq_nodes (d_wqueue d q)). rewrite Ed. simpl.
    rewrite list_filter_filter. apply list_filter_iff. naive_solver.
  - clearbody d. pose proof (ki_nest _ Hke) as Hn. unfold rt_thread_suspend_with_flag. wp_step.
    assert (Htk : thread_ok ke t) by (by destruct C2).
    assert (Hrun : running ke t) by (by apply (running_put_thr t t (set_t_error RT_EOK))).
    eapply wp_mono; [apply (suspend_wp (lock1 ke) t None 0 sf); [by apply kinv_lock1|simpl; lia|done|by destruct Htk|done]|].
    intros r k1 (-> & Hk1 & B & Ht1). change (RT_EOK =? RT_EOK) with true. cbn [negb].
    unfold node_push_back, upd_wqueue. do 2 wp_step.
    pose proof (dev_kobj _ _ (bl_obj _ _ _ _ _ _ _ B)) as Ed1. change (k_dev (lock1 ke)) with d in Ed1. rewrite Ed1, Ed.
    replace (negb (tick =? -1)) with (0 <? tick) by (destruct (Z.eqb_spec tick (-1)); simpl; [apply Z.ltb_ge|apply Z.ltb_lt]; lia).
    assert (Hto : tick < tick_half) by (destruct Ht as [-> | ?]; [done|lia]).
    eapply wp_mono; [exact (arm_and_sleep_wp (Asleep tick 0) ke k1 _ t tick sf Hke Hk1 Htk Ht1 Hto B)|].
    intros res k' (-> & Hk' & F). split; [done|]. split; [by eapply slept_sched|]. split; [done|]. exact F.
Qed.

(** * The contract *)

(** [rt_wqueue_wakeup] sets the flag, and of the nodes whose wake-up function agrees
    it serves the first whose thread still sleeps: that thread becomes runnable with error
    [RT_EOK] and its node leaves the queue; no other thread starts or stops sleeping. *)
Lemma rt_wqueue_wakeup_serves_first wakeup ready q key k :
  (forall n key k, wp (wakeup n key) (fun r k' => k' = k /\ (r =? 0) = ready n key) k) ->
  kinv k -> can_sched k ->
  (forall n, n ∈ wq_nodes (wqueue_of q k) -> typed k (OThread (node_thread n k)) RT_Object_Class_Thread) ->
  wp (rt_wqueue_wakeup wakeup q key) (fun _ k' => kinv k' /\
    let served := served_node ready (wq_nodes (wqueue_of q k)) key k in
    wqueue_of q k' = mk_wqueue RT_WQ_FLAG_WAKEUP
      (match served with Some n => filter (.≠ n) (wq_nodes (wqueue_of q k)) | None => wq_nodes (wqueue_of q k) end) /\
    (forall n, served = Some n -> active (k_thr k' (node_thread n k)) /\ t_error (k_thr k' (node_thread n k)) = RT_EOK) /\
    (forall x, (forall n, served = Some n -> node_thread n k <> x) -> asleep k' x = asleep k x)) k.
Proof.
  intros Hw Hk Hc Hty. eapply wp_mono; [by apply (wakeup_wp wakeup ready)|].
  intros _ k' (Hk' & _ & _ & _ & E & W1 & W2). split; [done|]. split; [done|]. cbv zeta. split.
  - intros n Es. apply W1. by rewrite Es.
  - intros x Hx. apply W2. destruct (served_node _ _ _ _) as [n|]; [|done]. simpl. intros [= E2]. by apply (Hx n).
Qed.

(** The default function serves every node. *)
Lemma default_wake_ok n key k : wp (__wqueue_default_wake n key) (fun r k' => k' = k /\ (r =? 0) = true) k.
Proof. done. Qed.

(** a wake-up is never lost, whether it comes before the wait or after: on an empty
    queue, a wake-up followed by a wait makes the wait return 0 at once, and a wait followed
    by a wake-up makes the caller runnable and the wait return 0; both leave the queue empty
    with its flag clear. *)
Lemma wqueue_handshake q n k t msec sf :
  kinv k -> callable k t -> - 2 ^ 31 <= msec < 2 ^ 31 -> i32 (rt_tick_from_millisecond msec) <> 0 ->
  wqueue_of q k = mk_wqueue RT_WQ_FLAG_CLEAN [] ->
  wp (rt_wqueue_wakeup __wqueue_default_wake q 0)
     (fun _ k1 => forall t, callable k1 t ->
        wp (_rt_wqueue_wait_begin q n 0 msec sf)
          (fun res k2 => res = Done 0 /\ kinv k2 /\ wqueue_of q k2 = mk_wqueue RT_WQ_FLAG_CLEAN []) k1) k /\
  wp (r ← _rt_wqueue_wait_begin q n 0 msec sf;
      rt_wqueue_wakeup __wqueue_default_wake q 0;;
      awake ← gets (fun k => negb (asleep k t));
      r' ← _rt_wqueue_wait_end q n t;
      mret (finished r, awake, finished r'))
     (fun res k2 => res = (None, true, Some 0) /\ kinv k2 /\ wqueue_of q k2 = mk_wqueue RT_WQ_FLAG_CLEAN []) k.
Proof.
  intros Hk Hcall Hm Hz Eq. assert (Hc : can_sched k) by (left; exists t; apply (ca_run _ _ Hcall)). split.
  - eapply wp_mono; [apply (wakeup_wp __wqueue_default_wake (fun _ _ => true)); [apply default_wake_ok|done|done|]|].
    { rewrite Eq. by intros ? ?%elem_of_nil. }
    intros _ k1 (Hk1 & _ & _ & _ & Eq1 & _). rewrite Eq in Eq1. simpl in Eq1. intros t' Hcall'.
    eapply wp_mono; [by apply (wq_wait_begin_wp q n k1 t' msec sf)|]. rewrite Eq1. simpl. intros res k2 (Hk2 & _ & -> & E2). done.
  - wp_step. eapply wp_mono; [by apply (wq_wait_begin_wp q n k t msec sf)|]. rewrite Eq. simpl.
    intros r k1 (Hk1 & Hc1 & -> & F). destruct (slept_self _ _ _ _ _ _ _ F) as [Hsu Hself].
    pose proof (slept_kobj _ _ _ _ _ _ _ F) as O.
    assert (Ew : wqueue_of q k1 = mk_wqueue RT_WQ_FLAG_CLEAN [n]).
    { unfold wqueue_of. rewrite (dev_kobj _ _ O). simpl. rewrite fupd_eq. unfold node_unlink. fold (wqueue_of q k). by rewrite Eq. }
    assert (En : d_wnode (k_dev k1) n = mk_wnode t (Some q) 0) by (rewrite (dev_kobj _ _ O); simpl; by rewrite fupd_eq).
    assert (Ent : node_thread n k1 = t) by (unfold node_thread; by rewrite En).
    assert (Ha : asleep k1 t = true) by by apply Z.leb_le.
    wp_step. eapply wp_mono; [apply (wakeup_wp __wqueue_default_wake (fun _ _ => true)); [apply default_wake_ok|done|done|]|].
    { rewrite Ew. intros n' ->%list_elem_of_singleton. rewrite Ent. eapply fell_asleep_typed; [exact F|apply (ca_ok _ _ Hcall)]. }
    assert (Es : served_node (fun _ _ => true) [n] 0 k1 = Some n).
    { unfold served_node. rewrite filter_cons_True; [done|]. by rewrite Ent, Ha. }
    rewrite Ew. simpl. rewrite Es. simpl. rewrite Ent, filter_cons_False by naive_solver.
    intros _ k2 (Hk2 & Hc2 & En2 & _ & Ew2 & W1 & _). destruct (W1 t eq_refl) as [Hact Herr].
    do 3 wp_step. assert (Ea : asleep k2 t = false) by (apply Z.leb_gt, Z.nle_gt; exact (active_not_suspended _ Hact)). rewrite Ea.
    unfold _rt_wqueue_wait_end. wp_step. apply sched_inv_wp; [done..|]. intros k3 Hk3 U3. pose proof (un_frame _ _ U3) as F3.
    pose proof (dev_kobj _ _ (kobj_sched _ _ (sf_rest _ _ F3))) as Ed3.
    wp_step. apply spin_lock_wp. eapply wp_mono; [apply exit_wp; [done|by eapply unlocked_sched|by rewrite Ed3, En2, En]|].
    intros r' k4 (-> & Hk4 & _ & Ew4 & _). wp_step. split; [|split; [done|]].
    + destruct (sf_thr _ _ F3 t) as [E3 _]. rewrite E3. simpl. by rewrite Herr.
    + rewrite Ew4. unfold wqueue_of. rewrite Ed3. unfold wqueue_of in Ew2. by rewrite Ew2.
Qed.

(** * At concrete inputs: nodes 1 and 2 of the running thread 1 and the sleeping thread 2 *)

Definition kwaitq : kernel :=
  set_k_dev (set_d_wqueue (fun q => if decide (q = 1%positive) then mk_wqueue 0 [1; 2; 3]%positive else mk_wqueue 0 [])
    (set_d_wnode (fun n => mk_wnode n (Some 1%positive) 0) (k_dev kdemo))) kdemo.

Lemma kwaitq_inv : kinv kwaitq.
Proof. apply kinv_set_dev, kdemo_inv. Qed.

Lemma kwaitq_callable : callable kwaitq 1.
Proof. destruct kdemo_callable as [A [] C D]. by split. Qed.

Lemma rt_wqueue_wakeup_serves_first_witness :
  wp (rt_wqueue_wakeup __wqueue_default_wake 1 0) (fun _ k' => kinv k' /\
    wqueue_of 1 k' = mk_wqueue RT_WQ_FLAG_WAKEUP [1; 3]%positive /\
    (forall n, Some 2%positive = Some n -> active (k_thr k' n) /\ t_error (k_thr k' n) = RT_EOK) /\
    (forall x, (forall n, Some 2%positive = Some n -> n <> x) -> asleep k' x = asleep kwaitq x)) kwaitq.
Proof.
  exact (rt_wqueue_wakeup_serves_first __wqueue_default_wake (fun _ _ => true) 1 0 kwaitq default_wake_ok kwaitq_inv kdemo_can_sched
    (fun n _ => eq_refl)).
Defined.

Lemma wqueue_handshake_witness :
  wp (rt_wqueue_wakeup __wqueue_default_wake 5 0)
     (fun _ k1 => forall t, callable k1 t ->
        wp (_rt_wqueue_wait_begin 5 9 0 1500 RT_KILLABLE)
          (fun res k2 => res = Done 0 /\ kinv k2 /\ wqueue_of 5 k2 = mk_wqueue RT_WQ_FLAG_CLEAN []) k1) kwaitq /\
  wp (r ← _rt_wqueue_wait_begin 5 9 0 1500 RT_KILLABLE;
      rt_wqueue_wakeup __wqueue_default_wake 5 0;;
      awake ← gets (fun k => negb (asleep k 1%positive));
      r' ← _rt_wqueue_wait_end 5 9 1;
      mret (finished r, awake, finished r'))
     (fun res k2 => res = (None, true, Some 0) /\ kinv k2 /\ wqueue_of 5 k2 = mk_wqueue RT_WQ_FLAG_CLEAN []) kwaitq.
Proof.
  apply (wqueue_handshake 5 9 kwaitq 1 1500 RT_KILLABLE kwaitq_inv kwaitq_callable); [lia|by vm_compute|reflexivity].
Defined.
