(* ===== verification/Workqueue.v ===== *)
(** Work queues, components/drivers/ipc/workqueue.c: works queued for one thread, at once
    or after a delay, their cancellation, and the loop of the thread. *)
From S2P Require Import Prelude KState SchedUp Object TimerCore SchedComm SuspList Sem Timer Thread Demo SemTake Mutex IpcWait.
#[local] Open Scope Z_scope.

Definition RT_WORK_STATE_PENDING : Z := 1.
Definition RT_WORK_STATE_SUBMITTING : Z := 2.

(** The function of a work's timer, [_delayed_work_timeout_handler] on the work. *)
Definition delayed_work_timeout (w : oid) : timeout_func := TF_user 1 (Z.pos w).

(** The names "work" and "wqueue" *)
Definition work_name : list Z := [119; 111; 114; 107].
Definition wqueue_name : list Z := [119; 113; 117; 101; 117; 101].

Definition workq (q : oid) : K rt_workqueue := gets (fun k => d_workq (k_dev k) q).
Definition work (w : oid) : K rt_work := gets (fun k => d_work (k_dev k) w).

(** [rt_list_remove(&work->list)]: the node leaves whatever list it is in. *)
Definition work_unlink (w : oid) (r : rt_workqueue) : rt_workqueue :=
  set_wk_list (filter (.≠ w) (wk_list r)) (set_wk_delayed (filter (.≠ w) (wk_delayed r)) r).
Definition list_remove_work (w : oid) : K unit :=
  modify (fun k => set_k_dev (set_d_workq (fun q => work_unlink w (d_workq (k_dev k) q)) (k_dev k)) k).

Definition work_push_back (q w : oid) : K unit := upd_workq q (fun r => set_wk_list (wk_list r ++ [w]) r).
Definition work_push_front (q w : oid) : K unit := upd_workq q (fun r => set_wk_list (w :: wk_list r) r).
Definition work_push_delayed (q w : oid) : K unit := upd_workq q (fun r => set_wk_delayed (wk_delayed r ++ [w]) r).

Definition flag_on (w : oid) (flag : Z) : K unit := upd_work w (fun r => set_w_flags (Z.lor (w_flags r) flag) r).
Definition flag_off (w : oid) (flag : Z) : K unit := upd_work w (fun r => set_w_flags (flag_clear (w_flags r) flag) r).

(** The tail of a submission: the work thread is resumed unless a work is running. *)
Definition wake_worker (q : oid) : K unit :=
  r ← workq q;
  match wk_current r with
  | None => rt_thread_resume (wk_thread r);; rt_spin_unlock_irqrestore
  | Some _ => rt_spin_unlock_irqrestore
  end.

Definition rt_work_init (w : oid) (func data : Z) : K unit :=
  list_remove_work w;; (* rt_list_init of the node *)
  upd_work w (fun r => mk_work func data 0 (w_timer r) None).

Definition _workqueue_submit_work (q w : oid) (ticks : Z) : K Z :=
  rt_spin_lock_irqsave;;
  list_remove_work w;;
  flag_off w RT_WORK_STATE_PENDING;;
  if ticks =? 0 then
    work_push_back q w;;
    flag_on w RT_WORK_STATE_PENDING;;
    upd_work w (set_w_queue (Some q));;
    wake_worker q;;
    mret RT_EOK
  else if ticks <? tick_half then
    wr ← work w;
    (if flag_set (w_flags wr) RT_WORK_STATE_SUBMITTING then
       rt_timer_control (w_timer wr) (RT_TIMER_CTRL_SET_TIME ticks);; mret tt
     else
       rt_timer_init (w_timer wr) work_name (delayed_work_timeout w) ticks
         (Z.lor RT_TIMER_FLAG_ONE_SHOT RT_TIMER_FLAG_SOFT_TIMER);;
       flag_on w RT_WORK_STATE_SUBMITTING);;
    upd_work w (set_w_queue (Some q));;
    work_push_delayed q w;;
    err ← rt_timer_start (w_timer wr);
    rt_spin_unlock_irqrestore;;
    mret err
  else
    rt_spin_unlock_irqrestore;;
    mret (- RT_ERROR).

Definition _workqueue_cancel_work (q w : oid) : K Z :=
  rt_spin_lock_irqsave;;
  list_remove_work w;;
  flag_off w RT_WORK_STATE_PENDING;;
  wr ← work w;
  err ← (if flag_set (w_flags wr) RT_WORK_STATE_SUBMITTING then
           err ← rt_timer_stop (w_timer wr);
           if negb (err =? RT_EOK) then mret err
           else rt_timer_detach (w_timer wr);; flag_off w RT_WORK_STATE_SUBMITTING;; mret RT_EOK
         else mret RT_EOK);
  if negb (err =? RT_EOK) then rt_spin_unlock_irqrestore;; mret err
  else
    r ← workq q;
    upd_work w (set_w_queue None);;
    rt_spin_unlock_irqrestore;;
    mret (if bool_decide (wk_current r <> Some w) then RT_EOK else - RT_EBUSY).

Definition _delayed_work_timeout_handler (w : oid) : K unit :=
  wr ← work w;
  RT_ASSERT (flag_set (w_flags wr) RT_WORK_STATE_SUBMITTING);;
  q ← deref (w_queue wr);
  rt_spin_lock_irqsave;;
  rt_timer_detach (w_timer wr);;
  flag_off w RT_WORK_STATE_SUBMITTING;;
  list_remove_work w;;
  r ← workq q;
  (if bool_decide (wk_current r <> Some w) then
     work_push_back q w;; flag_on w RT_WORK_STATE_PENDING
   else mret tt);;
  wake_worker q.

Definition rt_workqueue_dowork (q w : oid) : K Z := _workqueue_submit_work q w 0.

Definition rt_workqueue_submit_work (q w : oid) (ticks : Z) : K Z :=
  RT_ASSERT (ticks <? tick_half);;
  _workqueue_submit_work q w ticks.

Definition rt_workqueue_urgent_work (q w : oid) : K Z :=
  rt_spin_lock_irqsave;;
  list_remove_work w;;
  work_push_front q w;;
  wake_worker q;;
  mret RT_EOK.

Definition rt_workqueue_cancel_work (q w : oid) : K Z := _workqueue_cancel_work q w.

(** [None]: the caller waits on the semaphore for the end of the work. *)
Definition rt_workqueue_cancel_work_sync (q w : oid) : K (option Z) :=
  r ← workq q;
  if bool_decide (wk_current r = Some w) then
    res ← rt_sem_take (wk_sem r) (-1);
    match res with Some _ => mret (Some RT_EOK) | None => mret None end
  else _workqueue_cancel_work q w;; mret (Some RT_EOK).

Fixpoint cancel_all_loop (fuel : nat) (q : oid) (list_of : rt_workqueue -> list oid) : K unit :=
  r ← workq q;
  match list_of r with
  | [] => mret tt
  | w :: _ =>
      match fuel with
      | O => deref None
      | S fuel => _workqueue_cancel_work q w;; cancel_all_loop fuel q list_of
      end
  end.

Definition rt_workqueue_cancel_all_work (fuel : nat) (q : oid) : K Z :=
  rt_enter_critical;;
  cancel_all_loop fuel q wk_list;;
  cancel_all_loop fuel q wk_delayed;;
  rt_exit_critical;;
  mret RT_EOK.

(** [memory] is the allocation of the queue, with the semaphore inside it; [thread] and
    [stack] are those of [rt_thread_create]. *)
Definition rt_workqueue_create (name : list Z) (priority : Z) (memory : option (oid * oid))
    (thread : option tid) (stack : bool) : K (option oid) :=
  match memory with
  | None => mret None
  | Some (q, s) =>
      upd_workq q (fun r => mk_workq [] [] None s (wk_thread r));;
      rt_sem_init s wqueue_name 0 RT_IPC_FLAG_FIFO;;
      work_thread ← rt_thread_create name priority 10 thread stack;
      match work_thread with
      | None => rt_sem_detach s;; mret None
      | Some t => upd_workq q (set_wk_thread t);; rt_thread_startup t;; mret (Some q)
      end
  end.

Definition rt_workqueue_destroy (fuel : nat) (q : oid) : K Z :=
  rt_workqueue_cancel_all_work fuel q;;
  r ← workq q;
  rt_thread_delete fuel (wk_thread r);;
  rt_sem_detach (wk_sem r);;
  mret RT_EOK.

(** * The thread of the queue *)

(** Every caller of [rt_workqueue_cancel_work_sync] is released and the semaphore is left
    at zero; [fuel] bounds the turns. *)
Fixpoint _workqueue_work_completion (fuel : nat) (q : oid) : K Z :=
  r ← workq q;
  result ← rt_sem_trytake (wk_sem r);
  if bool_decide (result = Some (- RT_ETIMEOUT)) then
    rt_sem_release (wk_sem r);;
    match fuel with O => deref None | S fuel => _workqueue_work_completion fuel q end
  else if bool_decide (result = Some RT_EOK) then mret RT_EOK
  else mret (- RT_ERROR).

(** A turn of [_workqueue_thread_entry] up to the call of the work's function: the work,
    or [None] when the thread suspended itself. *)
Definition workqueue_thread_next (q : oid) : K (option oid) :=
  rt_spin_lock_irqsave;;
  r ← workq q;
  match wk_list r with
  | [] =>
      self ← rt_thread_self;
      thread ← deref self;
      rt_thread_suspend_with_flag thread RT_UNINTERRUPTIBLE;;
      rt_spin_unlock_irqrestore;;
      mret None
  | w :: _ =>
      list_remove_work w;;
      upd_workq q (set_wk_current (Some w));;
      flag_off w RT_WORK_STATE_PENDING;;
      upd_work w (set_w_queue None);;
      rt_spin_unlock_irqrestore;;
      mret (Some w)
  end.

(** The rest of the turn after the function has returned. *)
Definition workqueue_thread_done (fuel : nat) (q : oid) : K Z :=
  upd_workq q (set_wk_current None);;
  _workqueue_work_completion fuel q.

Section entry.
(** What the function of a work does. *)
Variable work_func : Z -> oid -> Z -> K unit.

(** A whole turn, and [rt_schedule] when the thread runs again after it slept. *)
Definition _workqueue_thread_entry (fuel : nat) (q : oid) : K unit :=
  next ← workqueue_thread_next q;
  match next with
  | None => rt_schedule
  | Some w =>
      wr ← work w;
      work_func (w_func wr) w (w_data wr);;
      workqueue_thread_done fuel q;;
      mret tt
  end.
End entry.

Section system.
(** The system work queue. *)
Variable sys_workq : oid.

Definition rt_work_submit (w : oid) (ticks : Z) : K Z := rt_workqueue_submit_work sys_workq w ticks.
Definition rt_work_urgent (w : oid) : K Z := rt_workqueue_urgent_work sys_workq w.
Definition rt_work_cancel (w : oid) : K Z := rt_workqueue_cancel_work sys_workq w.
End system.
