(* ===== verification/WorkqueueProp.v ===== *)
(** Work queues: the operations as steps of a first-in first-out queue of works with a
    running work, and the invariant that the thread of the queue never sleeps while a work
    is waiting. *)
From stdpp Require Import relations.
From S2P Require Import Prelude KState SchedUp Object TimerCore SchedComm SuspList Sem Timer Thread Demo SemTake Mutex IpcWait Completion Workqueue.
#[local] Open Scope Z_scope.

(** * The abstract queue *)

Record awq := mk_awq { aw_pending : list oid; aw_delayed : list oid; aw_current : option oid }.

Definition awq_of (r : rt_workqueue) : awq := mk_awq (wk_list r) (wk_delayed r) (wk_current r).
Definition wq_of (q : oid) (k : kernel) : rt_workqueue := d_workq (k_dev k) q.
Definition wq_abs (q : oid) (k : kernel) : awq := awq_of (wq_of q k).

Definition awq_remove (w : oid) (a : awq) : awq :=
  mk_awq (filter (.≠ w) (aw_pending a)) (filter (.≠ w) (aw_delayed a)) (aw_current a).

(** A work submitted goes behind those that wait; an urgent one in front. *)
Definition awq_dowork (w : oid) (a : awq) : awq :=
  let a := awq_remove w a in mk_awq (aw_pending a ++ [w]) (aw_delayed a) (aw_current a).
Definition awq_urgent (w : oid) (a : awq) : awq :=
  let a := awq_remove w a in mk_awq (w :: aw_pending a) (aw_delayed a) (aw_current a).

(** The work whose delay is over is queued, unless it is the running one. *)
Definition awq_timeout (w : oid) (a : awq) : awq :=
  if bool_decide (aw_current a = Some w) then awq_remove w a else awq_dowork w a.

Definition awq_cancel (w : oid) (a : awq) : Z * awq :=
  (if bool_decide (aw_current a = Some w) then - RT_EBUSY else RT_EOK, awq_remove w a).

(** The next work becomes the running one. *)
Definition awq_next (a : awq) : option oid * awq :=
  match aw_pending a with
  | [] => (None, a)
  | w :: _ => (Some w, let a := awq_remove w a in mk_awq (aw_pending a) (aw_delayed a) (Some w))
  end.

(** The thread of the queue is awake when there is something to do. *)
Definition wq_live (q : oid) (k : kernel) : Prop :=
  wk_current (wq_of q k) = None -> wk_list (wq_of q k) <> [] -> asleep k (wk_thread (wq_of q k)) = false.

(** The thread of the queue is a thread object. *)
Definition wq_thread_ok (q : oid) (k : kernel) : Prop :=
  typed k (OThread (wk_thread (wq_of q k))) RT_Object_Class_Thread.

(** The steps on the record of a queue, in the order of the code. *)
Lemma awq_of_unlink w r : awq_of (work_unlink w r) = awq_remove w (awq_of r).
Proof. done. Qed.

(** * Waking the thread of the queue *)

(** A timer of its own, not that of a thread. *)
Definition user_timer (i : timid) : Prop := forall t, thread_timer t <> i.

Lemma asleep_frame k k' t : th_frame (k_thr k t) (k_thr k' t) -> asleep k t = false -> asleep k' t = false.
Proof.
  unfold asleep. intros F H. apply Z.leb_gt in H. apply Z.leb_gt. apply Z.nle_gt. intros Hs.
  destruct (th_frame_suspended _ _ F Hs) as [Hs' _]. unfold suspended in Hs'. lia.
Qed.

Lemma active_asleep k t : active (k_thr k t) -> asleep k t = false.
Proof. intros Ha. apply Z.leb_gt, Z.nle_gt. exact (active_not_suspended _ Ha). Qed.

(** What the tail of a submission leaves: the drivers' objects as they were stored, the
    other threads as they were, the thread of the queue awake unless a work is running. *)
Record woken_queue (q : oid) (d : devices) (k k' : kernel) : Prop := mk_woken_queue {
  wo_inv : kinv k';
  wo_dev : k_dev k' = d;
  wo_type : k_type k' = k_type k;
  wo_sched : can_sched k -> can_sched k';
  wo_awake : forall t, asleep k t = false -> asleep k' t = false;
  wo_worker : wk_current (d_workq d q) = None -> asleep k' (wk_thread (d_workq d q)) = false;
  wo_tim : forall i, user_timer i -> k_tim k' i = k_tim k i
}.

Lemma woken_unlocked q d k k' :
  kinv k' -> unlocked (set_k_dev d k) k' ->
  (wk_current (d_workq d q) = None -> asleep k (wk_thread (d_workq d q)) = false) -> woken_queue q d k k'.
Proof.
  intros Hk' U Hw. pose proof (un_frame _ _ U) as F. pose proof (kobj_sched _ _ (sf_rest _ _ F)) as O. split; [done|..].
  - by rewrite (dev_kobj _ _ O).
  - exact (f_equal k_type O).
  - intros Hc. by eapply unlocked_sched; [exact U|].
  - intros t. apply asleep_frame. apply (sf_thr _ _ F).
  - intros Hn. eapply asleep_frame; [apply (sf_thr _ _ F)|]. by apply Hw.
  - intros i _. by rewrite (f_equal k_tim (sf_rest _ _ F) : k_tim k' = k_tim k).
Qed.

Lemma woken_resumed q d k k' :
  kinv k' -> resumed (-1) (wk_thread (d_workq d q)) (set_k_dev d k) k' -> woken_queue q d k k'.
Proof.
  intros Hk' R. pose proof (rs_obj _ _ _ _ R) as O. split; [done|..].
  - by rewrite (dev_kobj _ _ O).
  - exact (f_equal k_type O).
  - intros Hc. eapply can_sched_obj; [exact O|apply R|exact Hc].
  - intros t Ht. destruct (decide (t = wk_thread (d_workq d q))) as [->|Hne].
    + apply active_asleep, R.
    + eapply asleep_frame; [by apply (rs_other _ _ _ _ R)|done].
  - intros _. apply active_asleep, R.
  - intros i Hi. rewrite (tm_tim _ _ (rs_timers _ _ _ _ R)). unfold quiet. case_match; [|done]. simpl. by rewrite fupd_ne by (intros ->; by eapply Hi).
Qed.

Lemma wake_worker_wp q d k :
  kinv k -> typed k (OThread (wk_thread (d_workq d q))) RT_Object_Class_Thread ->
  wp (wake_worker q) (fun _ k' => woken_queue q d k k') (lock1 (set_k_dev d k)).
Proof.
  intros Hk Hty. unfold wake_worker, workq. do 2 wp_step. simpl. pose proof (kinv_set_dev d k Hk) as Hkd.
  destruct (wk_current (d_workq d q)) as [w|] eqn:Ec.
  - apply unlock_plain_wp; [done|]. intros k' Hk' U. apply woken_unlocked; [done..|]. by rewrite Ec.
  - wp_step. eapply wp_mono; [apply (resume_locked_wp (lock1 (set_k_dev d k))); [by apply kinv_lock1|exact Hty]|].
    intros r k1 [Hk1 Hr]. change (asleep (lock1 (set_k_dev d k)) ?t) with (asleep k t) in Hr.
    destruct (asleep k (wk_thread (d_workq d q))) eqn:Ea; destruct Hr as [-> R].
    + eapply wp_mono; [by apply (wake_unlock_wp (-1) (wk_thread (d_workq d q)) (set_k_dev d k))|]. intros _ k' [Hk' R'].
      by apply woken_resumed.
    + subst k1. apply unlock_plain_wp; [done|]. intros k' Hk' U. by apply woken_unlocked.
Qed.

(** * Submission and cancellation *)

Definition submitting (w : oid) (k : kernel) : bool := flag_set (w_flags (d_work (k_dev k) w)) RT_WORK_STATE_SUBMITTING.
Definition pending (w : oid) (k : kernel) : bool := flag_set (w_flags (d_work (k_dev k) w)) RT_WORK_STATE_PENDING.

Lemma submitting_clear f : flag_set (flag_clear f RT_WORK_STATE_PENDING) RT_WORK_STATE_SUBMITTING = flag_set f RT_WORK_STATE_SUBMITTING.
Proof.
  change RT_WORK_STATE_PENDING with (2 ^ 0). change RT_WORK_STATE_SUBMITTING with (2 ^ 1).
  rewrite !flag_set_testbit, flag_clear_testbit, bool_decide_false by lia. apply andb_true_r.
Qed.

Lemma submitting_or f : flag_set (Z.lor f RT_WORK_STATE_PENDING) RT_WORK_STATE_SUBMITTING = flag_set f RT_WORK_STATE_SUBMITTING.
Proof.
  change RT_WORK_STATE_PENDING with (2 ^ 0). change RT_WORK_STATE_SUBMITTING with (2 ^ 1).
  rewrite !flag_set_testbit, flag_or_testbit, bool_decide_false by lia. apply orb_false_r.
Qed.

(** A queue after an operation on [w]: its abstract state and thread. *)
Definition wq_after (q : oid) (a : awq) (k k' : kernel) : Prop :=
  wq_abs q k' = a /\ wk_thread (wq_of q k') = wk_thread (wq_of q k) /\ kinv k' /\ wq_thread_ok q k' /\
  (can_sched k -> can_sched k') /\ (forall t, asleep k t = false -> asleep k' t = false).

Lemma woken_after q d k k' a :
  awq_of (d_workq d q) = a -> wk_thread (d_workq d q) = wk_thread (wq_of q k) -> wq_thread_ok q k ->
  woken_queue q d k k' -> wq_after q a k k' /\ wq_live q k'.
Proof.
  intros Ha Ht Hty [W1 W2 W3 W4 W5 W6 _]. unfold wq_after, wq_live, wq_abs, wq_thread_ok, wq_of in *. rewrite W2. split.
  - split; [done|]. split; [done|]. split; [done|]. split; [|done]. unfold typed. rewrite W3, Ht. exact Hty.
  - intros Hn _. by apply W6.
Qed.

Lemma kept_after q d k k' a :
  awq_of (d_workq d q) = a -> wk_thread (d_workq d q) = wk_thread (wq_of q k) -> wq_thread_ok q k ->
  kinv k' -> unlocked (set_k_dev d k) k' -> wq_after q a k k' /\ k_dev k' = d.
Proof.
  intros Ha Ht Hty Hk' U. pose proof (un_frame _ _ U) as F. pose proof (kobj_sched _ _ (sf_rest _ _ F)) as O.
  assert (Ed : k_dev k' = d) by (by rewrite (dev_kobj _ _ O)).
  unfold wq_after, wq_abs, wq_thread_ok, wq_of in *. rewrite Ed. split; [|done]. split; [done|]. split; [done|]. split; [done|].
  split; [unfold typed; rewrite (f_equal k_type O : k_type k' = k_type k), Ht; exact Hty|]. split.
  - intros Hc. by eapply unlocked_sched; [exact U|].
  - intros t. apply asleep_frame. apply (sf_thr _ _ F).
Qed.

(** The state of a step on the drivers' objects under the lock. *)
Ltac take_dev d k :=
  match goal with |- wp _ _ (set_k_dev ?x _) => set (d := x) end;
  change (set_k_dev d _) with (lock1 (set_k_dev d k)).

Lemma dowork_wp q w k :
  kinv k -> wq_thread_ok q k ->
  wp (rt_workqueue_dowork q w) (fun r k' => r = RT_EOK /\
    wq_after q (awq_dowork w (wq_abs q k)) k k' /\ wq_live q k' /\
    w_queue (d_work (k_dev k') w) = Some q /\ pending w k' = true /\ submitting w k' = submitting w k /\
    forall i, user_timer i -> k_tim k' i = k_tim k i) k.
Proof.
  intros Hk Hty. unfold rt_workqueue_dowork, _workqueue_submit_work. wp_step. apply spin_lock_wp.
  unfold list_remove_work, flag_off, flag_on, work_push_back, upd_work, upd_workq. do 4 wp_step.
  change (0 =? 0) with true. cbn [negb]. do 6 wp_step. wp_step. take_dev d k.
  assert (E : d_workq d q = set_wk_list (filter (.≠ w) (wk_list (wq_of q k)) ++ [w]) (work_unlink w (wq_of q k)))
    by (unfold d; simpl; by rewrite fupd_eq).
  assert (Ew : w_queue (d_work d w) = Some q) by (unfold d; simpl; by rewrite fupd_eq).
  assert (Ef : flag_set (w_flags (d_work d w)) RT_WORK_STATE_PENDING = true).
  { unfold d. simpl. rewrite !fupd_eq. simpl. change RT_WORK_STATE_PENDING with (2 ^ 0).
    by rewrite flag_set_testbit, flag_or_testbit, orb_comm by lia. }
  assert (Es : flag_set (w_flags (d_work d w)) RT_WORK_STATE_SUBMITTING = submitting w k).
  { unfold d, submitting. simpl. rewrite !fupd_eq. simpl. by rewrite submitting_or, submitting_clear. }
  clearbody d. eapply wp_mono; [apply wake_worker_wp; [done|rewrite E; exact Hty]|]. intros [] k' W. wp_step. split; [done|].
  unfold pending, submitting at 1. rewrite (wo_dev _ _ _ _ W).
  destruct (woken_after q d k k' (awq_dowork w (wq_abs q k))) as [A L]; [by rewrite E|by rewrite E|done..|].
  split; [done|]. split; [done|]. split; [done|]. split; [done|]. split; [done|]. by apply W.
Qed.

Lemma urgent_wp q w k :
  kinv k -> wq_thread_ok q k ->
  wp (rt_workqueue_urgent_work q w) (fun r k' => r = RT_EOK /\
    wq_after q (awq_urgent w (wq_abs q k)) k k' /\ wq_live q k' /\ d_work (k_dev k') = d_work (k_dev k)) k.
Proof.
  intros Hk Hty. unfold rt_workqueue_urgent_work. wp_step. apply spin_lock_wp.
  unfold list_remove_work, work_push_front, upd_workq. do 4 wp_step. wp_step. take_dev d k.
  assert (E : d_workq d q = set_wk_list (w :: filter (.≠ w) (wk_list (wq_of q k))) (work_unlink w (wq_of q k)))
    by (unfold d; simpl; by rewrite fupd_eq).
  assert (Ew : d_work d = d_work (k_dev k)) by done.
  clearbody d. eapply wp_mono; [apply wake_worker_wp; [done|rewrite E; exact Hty]|]. intros [] k' W. wp_step. split; [done|].
  rewrite (wo_dev _ _ _ _ W).
  destruct (woken_after q d k k' (awq_urgent w (wq_abs q k))) as [A L]; [by rewrite E|by rewrite E|done..].
Qed.

(** * The timer of a delayed work *)

(** The timer after [rt_timer_detach]. *)
Definition timer_detached (i : timid) (k : kernel) : kernel :=
  set_k_type (fupd (OTimer i) 0 (k_type k))
    (set_k_objs (fun c => filter (.≠ OTimer i) (k_objs k c)) (tim_off i k)).

Lemma kinv_detached i k : user_timer i -> kinv k -> kinv (timer_detached i k).
Proof.
  intros Hi [W A N]. split; [by eapply kwf_ext; [..|exact W]| |exact N].
  intros t Hs Ht. destruct (A t Hs Ht) as [T1 T2]. unfold typed, timer_detached. simpl.
  rewrite !fupd_ne by (by intros [=]; apply (Hi t)). done.
Qed.

(** A timer as [rt_timer_init] leaves it. *)
Definition static_timer (k : kernel) (i : timid) : Prop :=
  k_type k (OTimer i) = Z.lor RT_Object_Class_Timer RT_Object_Class_Static.

Lemma user_timer_stop_wp i k Q :
  kwf k -> 1 <= k_lock_nest k -> static_timer k i -> Z.testbit (tm_flag (k_tim k i)) 0 = true ->
  Q RT_EOK (tim_off i k) -> wp (rt_timer_stop i) Q k.
Proof.
  intros Hk Hn Hs Ha HQ. eapply wp_mono; [apply rt_timer_stop_wp; [done|lia|unfold typed; by rewrite Hs]|].
  intros r k'. rewrite Ha. intros [-> U]. by rewrite (un_same _ _ U) by (right; simpl; lia).
Qed.

Lemma timer_detach_locked_wp i k Q :
  kwf k -> 1 <= k_lock_nest k -> static_timer k i -> Q RT_EOK (timer_detached i k) -> wp (rt_timer_detach i) Q k.
Proof.
  intros Hk Hn Hs HQ. unfold rt_timer_detach, assert_timer, rt_object_is_systemobject, rt_object_detach.
  wp_step. apply assert_type_wp; [unfold typed; by rewrite Hs|]. do 4 wp_step; [by rewrite Hs|].
  wp_step. apply spin_lock_wp. wp_step. apply timer_deactivate_wp. wp_step.
  assert (Hun : forall (f : kernel -> kernel) R, (forall n k, f (set_k_lock_nest n k) = set_k_lock_nest n (f k)) ->
    (forall k, kwf k -> kwf (f k)) -> k_lock_nest (f k) = k_lock_nest k -> R tt (f k) -> wp rt_spin_unlock_irqrestore R (f (lock1 k))).
  { intros f R Hf Hw En HR. apply spin_unlock_between_wp; [done|lia|by apply Hw|]. intros k' U.
    by rewrite (un_same _ _ U) by (right; lia). }
  apply (Hun (tim_off i)); [done|intros; by apply kwf_tim_off|done|]. do 3 wp_step.
  change (k_type (tim_off i k) (OTimer i)) with (k_type k (OTimer i)). rewrite Hs.
  wp_step. eapply wp_deref; [reflexivity|]. wp_step. apply spin_lock_wp. unfold objs_remove, set_type. do 3 wp_step.
  apply (Hun (fun k => set_k_objs (fun c => filter (.≠ OTimer i) (k_objs k c)) (tim_off i k))); [done| |done|].
  { intros x Hx. by eapply kwf_ext; [..|exact Hx]. }
  repeat wp_step. exact HQ.
Qed.

Lemma flag_cleared f i : 0 <= i -> flag_set (flag_clear f (2 ^ i)) (2 ^ i) = false.
Proof. intros. rewrite flag_set_testbit, flag_clear_testbit, bool_decide_true by done. apply andb_false_r. Qed.

(** The timer of a work that is being delayed. *)
Record delayed_ok (w : oid) (k : kernel) : Prop := mk_delayed_ok {
  de_user : user_timer (w_timer (d_work (k_dev k) w));
  de_static : static_timer k (w_timer (d_work (k_dev k) w));
  de_active : Z.testbit (tm_flag (k_tim k (w_timer (d_work (k_dev k) w)))) 0 = true
}.

(** A work taken off every list, its timer stopped. *)
Definition work_idle (w : oid) (k : kernel) : Prop :=
  w_queue (d_work (k_dev k) w) = None /\ submitting w k = false /\ pending w k = false.

Lemma kinv_tim_off i k : user_timer i -> kinv k -> kinv (tim_off i k).
Proof.
  intros Hi [W A N]. split; [by apply kwf_tim_off| |exact N].
  intros t Hs Ht. destruct (A t Hs Ht) as [T1 T2]. split; [done|]. simpl. by rewrite fupd_ne by apply Hi.
Qed.

(** The timer stopped and detached. *)
Definition stopped (i : timid) (k : kernel) : kernel := timer_detached i (tim_off i k).

Lemma cancel_wp q w k :
  kinv k -> wq_thread_ok q k -> (submitting w k = true -> delayed_ok w k) ->
  wp (rt_workqueue_cancel_work q w) (fun r k' => r = fst (awq_cancel w (wq_abs q k)) /\
    wq_after q (snd (awq_cancel w (wq_abs q k))) k k' /\ work_idle w k' /\
    (submitting w k = true -> let i := w_timer (d_work (k_dev k) w) in
       Z.testbit (tm_flag (k_tim k' i)) 0 = false /\ i ∉ k_soft k')) k.
Proof.
  intros Hk Hty Hde. pose proof (ki_nest _ Hk) as Hn. unfold rt_workqueue_cancel_work, _workqueue_cancel_work. wp_step. apply spin_lock_wp.
  unfold list_remove_work, flag_off, work, workq, upd_work. do 6 wp_step. simpl. rewrite fupd_eq. simpl.
  rewrite submitting_clear. fold (submitting w k).
  assert (Hfin : forall (kx : kernel) d, kinv kx -> kx = k \/ kx = stopped (w_timer (d_work (k_dev k) w)) k ->
    d_workq d q = work_unlink w (wq_of q k) -> w_queue (d_work d w) = None ->
    flag_set (w_flags (d_work d w)) RT_WORK_STATE_SUBMITTING = false -> flag_set (w_flags (d_work d w)) RT_WORK_STATE_PENDING = false ->
    (submitting w k = true -> kx = stopped (w_timer (d_work (k_dev k) w)) k) ->
    wp (rt_spin_unlock_irqrestore;; mret (if bool_decide (wk_current (d_workq d q) <> Some w) then RT_EOK else - RT_EBUSY))
      (fun r k' => r = fst (awq_cancel w (wq_abs q k)) /\
        wq_after q (snd (awq_cancel w (wq_abs q k))) k k' /\ work_idle w k' /\
        (submitting w k = true -> let i := w_timer (d_work (k_dev k) w) in
          Z.testbit (tm_flag (k_tim k' i)) 0 = false /\ i ∉ k_soft k')) (lock1 (set_k_dev d kx))).
  { intros kx d Hkx Ex E Eq Es Ep Et. wp_step. apply unlock_plain_wp; [by apply kinv_set_dev|]. intros k' Hk' U. wp_step.
    assert (Ht : wk_thread (d_workq d q) = wk_thread (wq_of q kx)) by (rewrite E; by destruct Ex as [-> | ->]).
    assert (Htx : wq_thread_ok q kx).
    { destruct Ex as [-> | ->]; [done|]. unfold wq_thread_ok, typed, stopped, timer_detached. simpl. by rewrite fupd_ne by done. }
    destruct (kept_after q d kx k' (snd (awq_cancel w (wq_abs q k)))) as [A Ed]; [by rewrite E|done..|].
    split; [rewrite E; simpl; unfold wq_abs; repeat case_bool_decide; done|].
    split; [by destruct Ex as [-> | ->]|]. split; [unfold work_idle, submitting, pending; by rewrite Ed|].
    intros Hs. rewrite (Et Hs) in U. pose proof (sf_rest _ _ (un_frame _ _ U)) as Er. cbv zeta.
    rewrite (f_equal k_tim Er : k_tim k' = _), (f_equal k_soft Er : k_soft k' = _). simpl. rewrite fupd_eq. simpl.
    split; [by rewrite clear_activated, bool_decide_true, andb_false_r by done|]. unfold tim_unlink. rewrite list_elem_of_filter. by intros [? _]. }
  destruct (submitting w k) eqn:Hs.
  - destruct (Hde eq_refl) as [D1 D2 D3]. do 2 wp_step. match goal with |- wp _ _ (set_k_dev ?x _) => set (d0 := x) end.
    set (i := w_timer (d_work (k_dev k) w)) in *. change (set_k_dev d0 _) with (lock1 (set_k_dev d0 k)).
    assert (Hw : kwf (lock1 (set_k_dev d0 k))) by apply kinv_lock1, kinv_set_dev, Hk.
    apply user_timer_stop_wp; [done|simpl; lia|done|done|]. change (RT_EOK =? RT_EOK) with true. cbn [negb].
    wp_step. apply timer_detach_locked_wp; [by apply kwf_tim_off|simpl; lia|done|]. do 3 wp_step.
    change (RT_EOK =? RT_EOK) with true. cbn [negb]. do 4 wp_step.
    match goal with |- wp _ _ (set_k_dev ?x _) => set (d := x) end.
    assert (E1 : w_queue (d_work d w) = None) by (unfold d; simpl; by rewrite !fupd_eq).
    assert (E2 : flag_set (w_flags (d_work d w)) RT_WORK_STATE_SUBMITTING = false)
      by (unfold d; simpl; rewrite !fupd_eq; simpl; by apply (flag_cleared _ 1)).
    assert (E3 : flag_set (w_flags (d_work d w)) RT_WORK_STATE_PENDING = false).
    { unfold d. simpl. rewrite !fupd_eq. simpl. change RT_WORK_STATE_SUBMITTING with (2 ^ 1). change RT_WORK_STATE_PENDING with (2 ^ 0).
      rewrite flag_set_testbit, !flag_clear_testbit, (bool_decide_true (0 = 0)), andb_false_r by lia. done. }
    assert (Hks : kinv (stopped i k)) by (by apply kinv_detached, kinv_tim_off).
    pose proof (Hfin (stopped i k) d Hks (or_intror eq_refl) eq_refl E1 E2 E3 (fun _ => eq_refl)) as H. exact H.
  - do 2 wp_step. change (RT_EOK =? RT_EOK) with true. cbn [negb]. do 4 wp_step.
    match goal with |- wp _ _ (set_k_dev ?x _) => set (d := x) end.
    assert (E1 : w_queue (d_work d w) = None) by (unfold d; simpl; by rewrite !fupd_eq).
    assert (E2 : flag_set (w_flags (d_work d w)) RT_WORK_STATE_SUBMITTING = false)
      by (unfold d; simpl; rewrite !fupd_eq; simpl; by rewrite submitting_clear).
    assert (E3 : flag_set (w_flags (d_work d w)) RT_WORK_STATE_PENDING = false)
      by (unfold d; simpl; rewrite !fupd_eq; simpl; by apply (flag_cleared _ 0)).
    pose proof (Hfin k d Hk (or_introl eq_refl) eq_refl E1 E2 E3) as H. apply H. done.
Qed.

Lemma bool_decide_neq {A} `{EqDecision A} (a b : A) {B} (x y : B) :
  (if bool_decide (a <> b) then x else y) = if bool_decide (a = b) then y else x.
Proof. by repeat case_bool_decide. Qed.

(** The end of a work's delay. *)
Lemma timeout_wp q w k :
  kinv k -> wq_thread_ok q k -> submitting w k = true -> w_queue (d_work (k_dev k) w) = Some q ->
  user_timer (w_timer (d_work (k_dev k) w)) -> static_timer k (w_timer (d_work (k_dev k) w)) ->
  wp (_delayed_work_timeout_handler w) (fun _ k' =>
    wq_after q (awq_timeout w (wq_abs q k)) k k' /\ wq_live q k' /\ submitting w k' = false) k.
Proof.
  intros Hk Hty Hs Hq D1 D2. pose proof (ki_nest _ Hk) as Hn. unfold _delayed_work_timeout_handler, work. do 3 wp_step.
  apply wp_assert; [exact Hs|]. wp_step. eapply wp_deref; [exact Hq|]. wp_step. apply spin_lock_wp. wp_step.
  set (i := w_timer (d_work (k_dev k) w)) in *.
  apply timer_detach_locked_wp; [by apply kinv_lock1|simpl; lia|done|].
  unfold list_remove_work, flag_off, flag_on, work_push_back, workq, upd_work, upd_workq. do 5 wp_step. wp_step.
  change (wk_current (d_workq _ q)) with (wk_current (wq_of q k)).
  set (kx := timer_detached i k). assert (Hkx : kinv kx) by (by apply kinv_detached).
  assert (Htx : wq_thread_ok q kx) by (unfold wq_thread_ok, typed, kx, timer_detached; simpl; by rewrite fupd_ne).
  assert (Hfin : forall d, awq_of (d_workq d q) = awq_timeout w (wq_abs q k) -> wk_thread (d_workq d q) = wk_thread (wq_of q k) ->
    flag_set (w_flags (d_work d w)) RT_WORK_STATE_SUBMITTING = false ->
    wp (wake_worker q) (fun _ k' => wq_after q (awq_timeout w (wq_abs q k)) k k' /\ wq_live q k' /\ submitting w k' = false)
      (lock1 (set_k_dev d kx))).
  { intros d E Et Es. eapply wp_mono; [apply (wake_worker_wp q d kx); [done|rewrite Et; exact Htx]|]. intros [] k' W.
    destruct (woken_after q d kx k' (awq_timeout w (wq_abs q k))) as [A L]; [done..|]. split; [exact A|]. split; [done|].
    unfold submitting. by rewrite (wo_dev _ _ _ _ W). }
  wp_step. rewrite bool_decide_neq. unfold awq_timeout in Hfin |- *.
  change (aw_current (wq_abs q k)) with (wk_current (wq_of q k)) in Hfin |- *.
  case_bool_decide as Hcur.
  - wp_step. match goal with |- wp _ _ (set_k_dev ?x _) => set (d := x) end.
    assert (Es : flag_set (w_flags (d_work d w)) RT_WORK_STATE_SUBMITTING = false)
      by (unfold d; simpl; rewrite !fupd_eq; simpl; by apply (flag_cleared _ 1)).
    pose proof (Hfin d eq_refl eq_refl Es) as H. exact H.
  - do 3 wp_step. match goal with |- wp _ _ (set_k_dev ?x _) => set (d := x) end.
    assert (E : d_workq d q = set_wk_list (filter (.≠ w) (wk_list (wq_of q k)) ++ [w]) (work_unlink w (wq_of q k)))
      by (unfold d; simpl; by rewrite fupd_eq).
    assert (Es : flag_set (w_flags (d_work d w)) RT_WORK_STATE_SUBMITTING = false).
    { unfold d. simpl. rewrite !fupd_eq. simpl. change RT_WORK_STATE_SUBMITTING with (2 ^ 1). change RT_WORK_STATE_PENDING with (2 ^ 0).
      rewrite flag_set_testbit, flag_or_testbit, flag_clear_testbit, (bool_decide_true (1 = 1)), andb_false_r by lia. done. }
    pose proof (Hfin d ltac:(by rewrite E) ltac:(by rewrite E) Es) as H. exact H.
Qed.

(** A work taken up by the thread has no queue any more: when its delay ends then, the
    handler fails its assertion. *)
Lemma timeout_without_queue w k : w_queue (d_work (k_dev k) w) = None -> _delayed_work_timeout_handler w k = None.
Proof.
  intros Hq. unfold _delayed_work_timeout_handler, work, mbind, M_bind, gets. simpl. rewrite Hq. unfold RT_ASSERT. by destruct (flag_set _ _).
Qed.

(** * The thread of the queue *)

Lemma next_wp q k t :
  kinv k -> running k t -> thread_ok k t -> wk_thread (wq_of q k) = t -> wk_current (wq_of q k) = None ->
  wp (workqueue_thread_next q) (fun res k' => res = fst (awq_next (wq_abs q k)) /\
    wq_abs q k' = snd (awq_next (wq_abs q k)) /\ wk_thread (wq_of q k') = t /\ kinv k' /\ wq_thread_ok q k' /\
    (can_sched k -> can_sched k') /\ wq_live q k' /\
    match res with
    | Some w => w_queue (d_work (k_dev k') w) = None /\ pending w k' = false /\ submitting w k' = submitting w k /\ (forall x, asleep k x = false -> asleep k' x = false)
    | None => suspended (k_thr k' t)
    end) k.
Proof.
  intros Hk Hr Ht Et Hcur. pose proof (ki_nest _ Hk) as Hn. unfold workqueue_thread_next, workq. wp_step. apply spin_lock_wp. do 2 wp_step.
  change (d_workq (k_dev (lock1 k)) q) with (wq_of q k). unfold awq_next. change (aw_pending (wq_abs q k)) with (wk_list (wq_of q k)).
  destruct (wk_list (wq_of q k)) as [|w l] eqn:El.
  - unfold rt_thread_self, rt_thread_suspend_with_flag. do 3 wp_step. eapply wp_deref; [apply Hr|]. wp_step.
    eapply wp_mono; [apply (suspend_wp (lock1 k) t None 0 RT_UNINTERRUPTIBLE); [by apply kinv_lock1|simpl; lia|done|by destruct Ht|done]|].
    intros r k1 (-> & Hk1 & B & _). wp_step.
    assert (Hn1 : k_lock_nest k1 = k_lock_nest k + 1) by exact (kobj_nest _ _ (bl_obj _ _ _ _ _ _ _ B)).
    apply spin_unlock_wp; [apply Hk1|lia|]. intros k' U. wp_step.
    assert (F : fell_asleep None 0 RT_UNINTERRUPTIBLE 0 t k k').
    { exists (unlock1 k1). split; [by apply blocked_unlock1|]. split; [|done]. intros ?; lia. }
    pose proof (slept_kobj _ _ _ _ _ _ _ F) as O. assert (Ed : wq_of q k' = wq_of q k) by (unfold wq_of; by rewrite (dev_kobj _ _ O)).
    split; [done|]. unfold wq_abs, wq_live, wq_thread_ok, typed. rewrite Ed, (f_equal k_type O : k_type k' = k_type k), Et, El.
    split; [done|]. split; [done|]. split; [eapply kinv_unlocked; [|exact U]; apply kinv_unlock1; [lia|done]|].
    split; [apply Ht|]. split; [by eapply slept_sched|]. split; [done|]. by eapply slept_self.
  - unfold list_remove_work, flag_off, upd_work, upd_workq. do 8 wp_step. wp_step. take_dev d k.
    assert (E : d_workq d q = set_wk_current (Some w) (work_unlink w (wq_of q k))) by (unfold d; simpl; by rewrite fupd_eq).
    assert (E1 : w_queue (d_work d w) = None) by (unfold d; simpl; by rewrite !fupd_eq).
    assert (E2 : flag_set (w_flags (d_work d w)) RT_WORK_STATE_PENDING = false)
      by (unfold d; simpl; rewrite !fupd_eq; simpl; by apply (flag_cleared _ 0)).
    assert (E3 : flag_set (w_flags (d_work d w)) RT_WORK_STATE_SUBMITTING = submitting w k)
      by (unfold d, submitting; simpl; rewrite !fupd_eq; simpl; by rewrite submitting_clear).
    clearbody d. apply unlock_plain_wp; [by apply kinv_set_dev|]. intros k' Hk' U. wp_step.
    destruct (kept_after q d k k' (awq_of (d_workq d q))) as [(A1 & A2 & A3 & A4 & A5 & A6) Ed];
      [done|by rewrite E|unfold wq_thread_ok; rewrite Et; apply Ht|done|done|].
    split; [done|]. split; [by rewrite A1, E|]. split; [by rewrite A2|]. split; [done|]. split; [done|]. split; [done|].
    split; [unfold wq_live, wq_of; by rewrite Ed, E|]. unfold pending, submitting at 1. by rewrite Ed.
Qed.

(** * The end of a work *)

(** Where [rt_sem_trytake] may be called. *)
Record try_env (s : oid) (k : kernel) : Prop := mk_try_env {
  te_inv : kinv k;
  te_nest : k_lock_nest k = 0;
  te_irq : k_irq_nest k = 0;
  te_cur : is_Some (k_cur k);
  te_type : typed k (OSem s) RT_Object_Class_Semaphore;
  te_max : 0 < sem_max_value (k_sem k s)
}.

Lemma try_env_kobj s k k' :
  kobj k' = kobj k -> kinv k' -> (is_Some (k_cur k) -> is_Some (k_cur k')) -> try_env s k -> try_env s k'.
Proof.
  intros O Hk' Hc [A B C D E F]. split; [done|..|by apply Hc| |].
  - by rewrite (f_equal k_lock_nest O : k_lock_nest k' = k_lock_nest k).
  - by rewrite (f_equal k_irq_nest O : k_irq_nest k' = k_irq_nest k).
  - unfold typed. by rewrite (f_equal k_type O : k_type k' = k_type k).
  - by rewrite (f_equal k_sem O : k_sem k' = k_sem k).
Qed.

Lemma trytake_wp s k :
  try_env s k ->
  wp (rt_sem_trytake s) (fun r k' => kinv k' /\
    if 0 <? sem_value (k_sem k s) then
      r = Some RT_EOK /\ unlocked (put_sem s (set_sem_value (u16 (sem_value (k_sem k s) - 1)) (k_sem k s)) k) k'
    else r = Some (- RT_ETIMEOUT) /\ unlocked k k') k.
Proof.
  intros [A B C D E F]. unfold rt_sem_trytake, rt_sem_take, _rt_sem_take_begin, sem. wp_step.
  apply assert_type_wp; [done|]. wp_step. unfold RT_DEBUG_SCHEDULER_AVAILABLE, rt_critical_level, RT_DEBUG_IN_THREAD_CONTEXT,
    RT_DEBUG_NOT_IN_INTERRUPT, rt_thread_self.
  do 4 wp_step; [by rewrite B|]. do 4 wp_step; [by destruct D as [? ->]|]. do 3 wp_step; [by rewrite C|].
  wp_step. apply spin_lock_wp. do 2 wp_step. simpl. case_bool.
  - unfold upd_sem. do 3 wp_step.
    apply (unlock_between_wp _ (put_sem s (set_sem_value (u16 (sem_value (k_sem k s) - 1)) (k_sem k s))));
      [done|by rewrite B|by apply kinv_put_sem|]. intros k' Hk' U. by wp_step.
  - wp_step. apply unlock_plain_wp; [done|]. intros k' Hk' U. by wp_step.
Qed.

Lemma active_th_frame a b : th_frame a b -> active a -> active b.
Proof. intros [_ [E|[_ H]]] Ha; [|done]. unfold active in *. by rewrite E. Qed.

(** What the acknowledgement of a work leaves. *)
Record acknowledged (s : oid) (l : list tid) (k k' : kernel) : Prop := mk_acknowledged {
  ak_env : try_env s k';
  ak_value : sem_value (k_sem k' s) = 0;
  ak_waiters : k_list k' (LSusp (OSem s)) = [];
  ak_woken : forall x, x ∈ l -> active (k_thr k' x);
  ak_active : forall x, active (k_thr k x) -> active (k_thr k' x);
  ak_dev : k_dev k' = k_dev k
}.

Lemma acknowledged_step s l t k k1 k' :
  active (k_thr k1 t) -> (forall x, active (k_thr k x) -> active (k_thr k1 x)) -> k_dev k1 = k_dev k ->
  acknowledged s l k1 k' -> acknowledged s (t :: l) k k'.
Proof.
  intros Ht Ha Hd [A B C D E F]. split; try done; [|by auto|congruence].
  intros x [->|Hx]%elem_of_cons; auto.
Qed.

Lemma completion_unfold fuel q :
  _workqueue_work_completion fuel q =
    (r ← workq q;
     result ← rt_sem_trytake (wk_sem r);
     if bool_decide (result = Some (- RT_ETIMEOUT)) then
       rt_sem_release (wk_sem r);;
       match fuel with O => deref None | S fuel => _workqueue_work_completion fuel q end
     else if bool_decide (result = Some RT_EOK) then mret RT_EOK
     else mret (- RT_ERROR)).
Proof. by destruct fuel. Qed.

(** One unit in the semaphore and nobody waiting: the last turn. *)
Lemma completion_last_wp fuel q s k :
  try_env s k -> wk_sem (wq_of q k) = s -> sem_value (k_sem k s) = 1 -> k_list k (LSusp (OSem s)) = [] ->
  wp (_workqueue_work_completion fuel q) (fun r k' => r = RT_EOK /\ acknowledged s [] k k') k.
Proof.
  intros Hk Es Hv Hl. assert (W : wp (rt_sem_trytake s) (fun r k' => r = Some RT_EOK /\ acknowledged s [] k k') k).
  { eapply wp_mono; [by apply trytake_wp|]. rewrite Hv. simpl. intros r k' (Hk' & -> & U). split; [done|].
    pose proof (un_frame _ _ U) as F. pose proof (kobj_sched _ _ (sf_rest _ _ F)) as O. change (u16 (1 - 1)) with 0 in *.
    assert (Ese : k_sem k' s = set_sem_value 0 (k_sem k s)) by (rewrite (sf_sem F); simpl; by rewrite fupd_eq). split.
    - apply (try_env_kobj s (put_sem s (set_sem_value 0 (k_sem k s)) k)); [done|done|apply U|]. destruct Hk as [A B C D E G].
      split; try done; [by apply kinv_put_sem|]. simpl. by rewrite fupd_eq.
    - by rewrite Ese.
    - by rewrite (sf_list _ _ F).
    - by intros x ?%elem_of_nil.
    - intros x. apply (active_th_frame _ _ (sf_thr _ _ F x)).
    - by rewrite (dev_kobj _ _ O). }
  rewrite completion_unfold. unfold workq. do 3 wp_step. fold (wq_of q k). rewrite Es. eapply wp_mono; [exact W|].
  intros r k' [-> A]. rewrite bool_decide_false, bool_decide_true by done. by wp_step.
Qed.

(** The acknowledgement of the end of a work wakes every thread that waits for it and
    leaves the semaphore at zero. *)
Lemma completion_wp q s l : forall fuel k,
  try_env s k -> wk_sem (wq_of q k) = s -> sem_value (k_sem k s) = 0 -> k_list k (LSusp (OSem s)) = l ->
  (length l < fuel)%nat ->
  wp (_workqueue_work_completion fuel q) (fun r k' => r = RT_EOK /\ acknowledged s l k k') k.
Proof.
  induction l as [|t l IH]; intros fuel k Hk Es Hv Hl Hf.
  all: destruct fuel as [|fuel]; [simpl in Hf; lia|]; rewrite completion_unfold; unfold workq; do 3 wp_step; fold (wq_of q k); rewrite Es;
    eapply wp_mono; [by apply trytake_wp|]; rewrite Hv; intros r k1 (Hk1 & -> & U);
    pose proof (un_frame _ _ U) as F; pose proof (kobj_sched _ _ (sf_rest _ _ F)) as O;
    assert (He1 : try_env s k1) by (by apply (try_env_kobj s k); [..|apply U|]);
    assert (El1 : k_list k1 (LSusp (OSem s)) = k_list k (LSusp (OSem s))) by (by apply (sf_list _ _ F));
    assert (Ev1 : k_sem k1 = k_sem k) by (exact (f_equal k_sem O));
    rewrite bool_decide_true by done; wp_step;
    eapply wp_mono; [apply rt_sem_release_wp; [done|apply He1|left; apply He1]|];
    rewrite El1, Hl, ?Ev1, ?Hv; intros r k2 (Hk2 & Hr).
  - rewrite (proj2 (Z.ltb_lt _ _)) in Hr by apply Hk. destruct Hr as [-> U2].
    pose proof (un_frame _ _ U2) as F2. pose proof (kobj_sched _ _ (sf_rest _ _ F2)) as O2. change (u16 (0 + 1)) with 1 in *.
    assert (Ese : k_sem k2 s = set_sem_value 1 (k_sem k s)) by (rewrite (sf_sem F2); simpl; by rewrite fupd_eq).
    eapply wp_mono; [apply (completion_last_wp fuel q s k2)|].
    + apply (try_env_kobj s (put_sem s (set_sem_value 1 (k_sem k s)) k1)); [done|done|apply U2|]. destruct He1 as [A B C D E G].
      split; try done; [by apply kinv_put_sem|]. simpl. rewrite fupd_eq. apply Hk.
    + unfold wq_of. assert (Ed : k_dev k2 = k_dev k) by (transitivity (k_dev k1); [exact (dev_kobj _ _ O2)|exact (dev_kobj _ _ O)]). by rewrite Ed.
    + by rewrite Ese.
    + rewrite (sf_list _ _ F2) by done. by rewrite <- Hl, <- El1.
    + intros r k3 [-> [A B C D E G]]. split; [done|]. split; try done.
      * intros x Hx. apply E, (active_th_frame _ _ (sf_thr _ _ F2 x)), (active_th_frame _ _ (sf_thr _ _ F x)), Hx.
      * rewrite G. transitivity (k_dev k1); [exact (dev_kobj _ _ O2)|exact (dev_kobj _ _ O)].
  - destruct Hr as [-> R]. pose proof (rs_obj _ _ _ _ R) as O2.
    eapply wp_mono; [apply (IH fuel k2); [by apply (try_env_kobj s k1); [..|apply R|]| | | |simpl in Hf; lia]|].
    + unfold wq_of. by rewrite (dev_kobj _ _ O2), (dev_kobj _ _ O).
    + by rewrite (f_equal k_sem O2 : k_sem k2 = k_sem k1), Ev1.
    + rewrite (rs_list _ _ _ _ R) by done. unfold list_unlink. rewrite El1, Hl.
      pose proof (rq_nodup _ _ (kwf_rq _ (ki_wf _ (te_inv _ _ Hk))) (LSusp (OSem s))) as Hnd. rewrite Hl in Hnd.
      apply NoDup_cons in Hnd as [Hn _]. rewrite filter_cons_False by naive_solver. by apply filter_all; intros x Hx ->.
    + intros r k3 [-> A]. split; [done|]. apply (acknowledged_step s l t k k2); [apply R|..|done].
      * intros x Hx. destruct (decide (x = t)) as [->|Hne]; [apply R|].
        apply (active_th_frame _ _ (rs_other _ _ _ _ R x Hne)), (active_th_frame _ _ (sf_thr _ _ F x)), Hx.
      * by rewrite (dev_kobj _ _ O2), (dev_kobj _ _ O).
Qed.

Lemma done_wp fuel q k t s :
  try_env s k -> running k t -> wk_thread (wq_of q k) = t -> wk_sem (wq_of q k) = s ->
  sem_value (k_sem k s) = 0 -> (length (k_list k (LSusp (OSem s))) < fuel)%nat ->
  wp (workqueue_thread_done fuel q) (fun r k' => r = RT_EOK /\
    wq_abs q k' = mk_awq (wk_list (wq_of q k)) (wk_delayed (wq_of q k)) None /\
    sem_value (k_sem k' s) = 0 /\ k_list k' (LSusp (OSem s)) = [] /\
    (forall x, x ∈ k_list k (LSusp (OSem s)) -> active (k_thr k' x)) /\ try_env s k' /\ wq_live q k') k.
Proof.
  intros Hk Hr Et Es Hv Hf. unfold workqueue_thread_done, upd_workq. do 2 wp_step.
  match goal with |- wp _ _ (set_k_dev ?x _) => set (d := x) end.
  assert (E : d_workq d q = set_wk_current None (wq_of q k)) by (unfold d; simpl; by rewrite fupd_eq).
  assert (Hk1 : try_env s (set_k_dev d k)) by (destruct Hk; split; [by apply kinv_set_dev|done..]).
  clearbody d. eapply wp_mono; [apply (completion_wp q s (k_list k (LSusp (OSem s))) fuel (set_k_dev d k)); try done|].
  - unfold wq_of. simpl. by rewrite E.
  - intros r k' [-> [A B C D F G]]. simpl in G. split; [done|].
    unfold wq_abs, wq_live, wq_of. rewrite G, E. split; [done|]. split; [done|]. split; [done|]. split; [done|]. split; [done|].
    intros _ _. simpl. rewrite Et. apply active_asleep, F. right. apply Hr.
Qed.

(** * The contract *)

(** [rt_workqueue_dowork] moves the work to the end of the queue, marks it pending
    there and returns [RT_EOK]; the thread of the queue is awake afterwards unless a work is
    running, and no other thread falls asleep. *)
Lemma rt_workqueue_dowork_refines q w k :
  kinv k -> wq_thread_ok q k ->
  wp (rt_workqueue_dowork q w) (fun r k' => r = RT_EOK /\ wq_abs q k' = awq_dowork w (wq_abs q k) /\
    kinv k' /\ wq_live q k' /\ w_queue (d_work (k_dev k') w) = Some q /\ pending w k' = true /\
    (forall t, asleep k t = false -> asleep k' t = false)) k.
Proof.
  intros Hk Hty. eapply wp_mono; [by apply dowork_wp|].
  intros r k' (-> & (A & _ & B & _ & _ & D) & L & Eq & Ep & _). done.
Qed.

(** [rt_workqueue_cancel_work] takes the work off its list and stops and detaches its
    timer; it returns [-RT_EBUSY] exactly when the work is the running one, which it does
    not stop. *)
Lemma rt_workqueue_cancel_work_refines q w k :
  kinv k -> wq_thread_ok q k -> (submitting w k = true -> delayed_ok w k) ->
  wp (rt_workqueue_cancel_work q w) (fun r k' => (r, wq_abs q k') = awq_cancel w (wq_abs q k) /\ kinv k' /\
    w_queue (d_work (k_dev k') w) = None /\ submitting w k' = false /\ pending w k' = false /\
    (submitting w k = true -> let i := w_timer (d_work (k_dev k) w) in
       Z.testbit (tm_flag (k_tim k' i)) 0 = false /\ i ∉ k_soft k')) k.
Proof.
  intros Hk Hty Hd. eapply wp_mono; [by apply cancel_wp|].
  intros r k' (-> & (A & _ & B & _) & (I1 & I2 & I3) & T). by rewrite A.
Qed.

(** the end of a work's delay queues the work and wakes the thread of the queue, except
    that a work that is running at that moment is not queued: its resubmission is lost. *)
Lemma delayed_work_timeout_refines q w k :
  kinv k -> wq_thread_ok q k -> submitting w k = true -> w_queue (d_work (k_dev k) w) = Some q ->
  user_timer (w_timer (d_work (k_dev k) w)) -> static_timer k (w_timer (d_work (k_dev k) w)) ->
  wp (_delayed_work_timeout_handler w) (fun _ k' => wq_abs q k' = awq_timeout w (wq_abs q k) /\ kinv k' /\
    wq_live q k' /\ submitting w k' = false /\
    (wk_current (wq_of q k) = Some w -> ~ w ∈ wk_list (wq_of q k') /\ ~ w ∈ wk_delayed (wq_of q k'))) k.
Proof.
  intros Hk Hty Hs Hq D1 D2. eapply wp_mono; [by apply (timeout_wp q)|].
  intros _ k' ((A & _ & B & _) & L & S). split; [done|]. split; [done|]. split; [done|]. split; [done|].
  intros Hc. unfold awq_timeout in A. change (aw_current (wq_abs q k)) with (wk_current (wq_of q k)) in A.
  rewrite bool_decide_true in A by done. injection A as A1 A2 _. rewrite A1, A2, !list_elem_of_filter. tauto.
Qed.

(** C24: when a work ends, [_workqueue_work_completion] wakes every thread that waits for it
    in [rt_workqueue_cancel_work_sync], however many they are, and leaves the semaphore at
    zero; the loop ends after one turn per waiter and one more. *)
Theorem workqueue_work_completion_releases fuel q k t s :
  try_env s k -> running k t -> wk_thread (wq_of q k) = t -> wk_sem (wq_of q k) = s ->
  sem_value (k_sem k s) = 0 -> (length (k_list k (LSusp (OSem s))) < fuel)%nat ->
  wp (workqueue_thread_done fuel q) (fun r k' => r = RT_EOK /\ wk_current (wq_of q k') = None /\
    sem_value (k_sem k' s) = 0 /\ k_list k' (LSusp (OSem s)) = [] /\
    (forall x, x ∈ k_list k (LSusp (OSem s)) -> active (k_thr k' x)) /\ wq_live q k') k.
Proof.
  intros Hk Hr Et Es Hv Hf. eapply wp_mono; [by apply (done_wp fuel q k t s)|].
  intros r k' (-> & A & B & C & D & _ & L). by injection A as _ _ A.
Qed.

(** * Steps under the lock, whatever the state of the timers

    A step that ends in a failed assertion leaves no state to speak of; these lemmas
    are about the states that are reached ([wlp]). *)

Record calm (k k' : kernel) : Prop := mk_calm {
  cm_inv : kinv k';
  cm_nest : k_lock_nest k' = k_lock_nest k;
  cm_type : forall t, k_type k' (OThread t) = k_type k (OThread t);
  cm_awake : forall t, asleep k t = false -> asleep k' t = false
}.

Lemma calm_refl k : kinv k -> calm k k.
Proof. done. Qed.

Lemma calm_trans k k1 k2 : calm k k1 -> calm k1 k2 -> calm k k2.
Proof. intros [a b c d] [a' b' c' d']. split; [done|congruence|congruence|auto]. Qed.

Lemma calm_dev d k : kinv k -> calm k (set_k_dev d k).
Proof. intros Hk. split; [by apply kinv_set_dev|done..]. Qed.

Lemma calm_unlocked k k' : kinv k -> unlocked k k' -> calm k k' /\ k_dev k' = k_dev k.
Proof.
  intros Hk U. pose proof (un_frame _ _ U) as F. pose proof (kobj_sched _ _ (sf_rest _ _ F)) as O.
  split; [|by apply dev_kobj]. split; [by eapply kinv_unlocked|by rewrite (sf_nest F)|..].
  - intros t. by rewrite (f_equal k_type O : k_type k' = k_type k).
  - intros t. apply asleep_frame, (sf_thr _ _ F).
Qed.

(** The unlock at the end of an operation. *)
Lemma calm_unlock_wp k k1 :
  kinv k -> calm (lock1 k) k1 ->
  wp rt_spin_unlock_irqrestore (fun _ k' => calm k k' /\ k_dev k' = k_dev k1) k1.
Proof.
  intros Hk C. pose proof (ki_nest _ Hk) as Hn. pose proof (cm_nest _ _ C) as En. simpl in En.
  apply spin_unlock_wp; [apply C|lia|]. intros k' U.
  assert (Hk1 : kinv (unlock1 k1)) by (apply kinv_unlock1; [lia|apply C]).
  destruct (calm_unlocked _ _ Hk1 U) as [[a b c d] Ed]. split; [|exact Ed]. split; [done|..].
  - rewrite b. simpl. lia.
  - intros t. rewrite c. apply (cm_type _ _ C).
  - intros t Ht. apply d, (cm_awake _ _ C), Ht.
Qed.

(** Only timers of the application are written. *)
Lemma calm_timers k k' :
  kinv k -> k_thr k' = k_thr k -> k_list k' = k_list k -> k_group k' = k_group k -> k_cur k' = k_cur k ->
  k_lock_nest k' = k_lock_nest k -> (forall t, k_tim k' (thread_timer t) = k_tim k (thread_timer t)) ->
  (forall t, k_type k' (OThread t) = k_type k (OThread t)) ->
  (forall t, k_type k' (OTimer (thread_timer t)) = k_type k (OTimer (thread_timer t))) -> calm k k'.
Proof.
  intros [W A N] Et El Eg Ec En Eti Ety Etm. split; [|done|done|].
  - split; [|intros t; unfold typed; rewrite Et, Eti, Etm; apply A|by rewrite En].
    eapply kwf_ext; [..|exact W]; try done; [intros t; by rewrite Et|intros l; by rewrite El].
  - intros t. unfold asleep. by rewrite Et.
Qed.

Lemma user_timer_ne i t : user_timer i -> thread_timer t = i -> False.
Proof. intros Hi. apply Hi. Qed.

(** An operation on a timer of the application. *)
Definition timer_op {A} (m : K A) (k : kernel) : Prop :=
  wlp m (fun _ k' => calm k k' /\ k_dev k' = k_dev k) k.

Ltac calm_tac := apply calm_timers; [done|reflexivity..| | |];
  intros ?; simpl; rewrite ?fupd_ne; try done; try (intros [= E]; by eapply user_timer_ne); auto.

Lemma calm_tim_off i k : kinv k -> user_timer i -> calm k (tim_off i k).
Proof. intros Hk Hi. calm_tac. Qed.

Lemma calm_detached i k : kinv k -> user_timer i -> calm k (timer_detached i k).
Proof.
  intros Hk Hi. apply calm_timers; try done; intros t; simpl; rewrite fupd_ne; try done.
  intros [= E]. by apply (Hi t).
Qed.

(** A program that begins with a type assertion. *)
Lemma wlp_typed {A} (m : K A) (f : unit -> K A) o cls Q k :
  m = (mbind f (assert_type o cls)) -> (typed k o cls -> wlp m Q k) -> wlp m Q k.
Proof.
  intros -> H. destruct (Z.eq_dec (Z.land (k_type k o) (Z.lnot RT_Object_Class_Static)) cls) as [E|E]; [by apply H|].
  apply wlp_bind. unfold assert_type, rt_object_get_type. do 3 wp_step. by zbool.
Qed.

Lemma timer_stop_op i k : kinv k -> user_timer i -> timer_op (rt_timer_stop i) k.
Proof.
  intros Hk Hi. eapply wlp_typed; [reflexivity|]. intros Hty. apply wp_wlp.
  eapply wp_mono; [apply rt_timer_stop_wp; [apply Hk|apply Hk|exact Hty]|]. intros r k' Hr.
  pose proof (calm_tim_off i k Hk Hi) as C. destruct (Z.testbit _ 0); destruct Hr as [_ U].
  - destruct (calm_unlocked _ _ (cm_inv _ _ C) U) as [C' E]. split; [by eapply calm_trans|exact E].
  - by apply calm_unlocked.
Qed.

Lemma static_bits ty :
  Z.land ty (Z.lnot RT_Object_Class_Static) = RT_Object_Class_Timer ->
  negb (Z.land ty RT_Object_Class_Static =? 0) = true -> ty = Z.lor RT_Object_Class_Timer RT_Object_Class_Static.
Proof.
  intros E S. change (flag_set ty (2 ^ 7) = true) in S. change (flag_clear ty (2 ^ 7) = RT_Object_Class_Timer) in E.
  rewrite flag_set_testbit in S by lia. apply Z.bits_inj'. intros n Hn. rewrite Z.lor_spec.
  change RT_Object_Class_Static with (2 ^ 7). rewrite <- E, flag_clear_testbit, Z.pow2_bits_eqb by lia.
  destruct (Z.eqb_spec 7 n) as [<-|Hne]; [by rewrite S, orb_true_r|].
  rewrite bool_decide_false by done. simpl. by rewrite andb_true_r, orb_false_r.
Qed.

Lemma timer_detach_op i k : kinv k -> 1 <= k_lock_nest k -> user_timer i -> timer_op (rt_timer_detach i) k.
Proof.
  intros Hk Hn Hi. destruct (Z.eq_dec (k_type k (OTimer i)) (Z.lor RT_Object_Class_Timer RT_Object_Class_Static)) as [Hs|Hs].
  - apply wp_wlp, timer_detach_locked_wp; [apply Hk|done|done|]. split; [by apply calm_detached|done].
  - unfold timer_op. eapply wlp_typed; [reflexivity|]. intros Hty. unfold rt_timer_detach, rt_object_is_systemobject.
    wp_step. apply wp_wlp, assert_type_wp; [exact Hty|]. do 4 wp_step.
    destruct Hs. by apply static_bits.
Qed.

Lemma timer_set_time_op i tick k :
  kinv k -> user_timer i -> tick < tick_half -> timer_op (rt_timer_control i (RT_TIMER_CTRL_SET_TIME tick)) k.
Proof.
  intros Hk Hi Ht. eapply wlp_typed; [reflexivity|]. intros Hty. apply wp_wlp.
  eapply wp_mono; [apply set_time_wp; [apply Hk|apply Hk|exact Hty|exact Ht]|]. intros r k' U.
  assert (C : calm k (set_time i tick k)).
  { unfold set_time. destruct (Z.testbit _ 0); calm_tac. }
  destruct (calm_unlocked _ _ (cm_inv _ _ C) U) as [C' E]. split; [by eapply calm_trans|].
  rewrite E. unfold set_time. by destruct (Z.testbit _ 0).
Qed.

(** A change of state between an inner lock and unlock. *)
Lemma inner_unlock_wp f k R :
  (forall n k, f (set_k_lock_nest n k) = set_k_lock_nest n (f k)) -> kwf (f k) -> 1 <= k_lock_nest k ->
  k_lock_nest (f k) = k_lock_nest k -> R tt (f k) -> wp rt_spin_unlock_irqrestore R (f (lock1 k)).
Proof.
  intros Hf Hw Hn En HR. apply spin_unlock_between_wp; [done|lia|done|]. intros k' U.
  by rewrite (un_same _ _ U) by (right; lia).
Qed.

Lemma timer_init_op i name f time flag k :
  kinv k -> 1 <= k_lock_nest k -> user_timer i -> timer_op (rt_timer_init i name f time flag) k.
Proof.
  intros Hk Hn Hi. unfold timer_op, rt_timer_init, rt_object_init, _timer_init, set_type, set_name, objs_push, upd_tim, _timer_remove.
  do 6 wp_step. apply wp_wlp, spin_lock_wp. do 5 wp_step.
  apply wp_wlp, (inner_unlock_wp id k); [done|apply Hk|done|done|]. do 4 wp_step. simpl.
  match goal with |- wlp _ _ ?x => set (k1 := x) end. assert (C : calm k k1) by calm_tac.
  wp_step. apply wp_wlp, spin_lock_wp. do 2 wp_step.
  refine (wp_wlp _ _ _ (inner_unlock_wp (fun k => set_k_objs (fupd _ (OTimer i :: k_objs k _) (k_objs k)) k) k1 _ _ _ _ _ _));
    [done|by eapply kwf_ext; [..|apply (cm_inv _ _ C)]|done|done|].
  do 3 wp_step. split; [|done]. calm_tac.
Qed.

(** A semaphore released under the lock. *)
Lemma sem_release_calm s k : kinv k -> 1 <= k_lock_nest k -> timer_op (rt_sem_release s) k.
Proof.
  intros Hk Hn. eapply wlp_typed; [reflexivity|]. intros Hty. apply wp_wlp.
  eapply wp_mono; [apply rt_sem_release_wp; [done|exact Hty|right; lia]|]. intros r k' [Hk' Hr].
  destruct (k_list k (LSusp (OSem s))) as [|t q].
  - destruct (_ <? _); destruct Hr as [_ U]; [|by apply calm_unlocked].
    destruct (calm_unlocked _ _ (kinv_put_sem _ _ _ Hk) U) as [[A B C D] E]. done.
  - destruct Hr as [_ R]. pose proof (rs_obj _ _ _ _ R) as O. split; [|by apply dev_kobj]. split; [done|..].
    + by apply kobj_nest.
    + intros x. by rewrite (f_equal k_type O : k_type k' = k_type k).
    + intros x Hx. destruct (decide (x = t)) as [->|Hne]; [apply active_asleep, R|].
      eapply asleep_frame; [by apply (rs_other _ _ _ _ R)|done].
Qed.

Lemma timer_container_user i : user_timer i -> timer_container i = None.
Proof. intros Hi. destruct i as [i|i|]; [done| |done]. by destruct (Hi i). Qed.

Lemma timer_start_op i k : kinv k -> 1 <= k_lock_nest k -> user_timer i -> timer_op (rt_timer_start i) k.
Proof.
  intros Hk Hn Hi. unfold timer_op. eapply wlp_typed; [reflexivity|]. intros Hty. unfold rt_timer_start, assert_timer, tim.
  wp_step. apply wp_wlp, assert_type_wp; [exact Hty|]. do 3 wp_step.
  set (soft := flag_set _ RT_TIMER_FLAG_SOFT_TIMER). destruct (flag_set _ RT_TIMER_FLAG_THREAD_TIMER).
  { wp_step. rewrite timer_container_user by done. by wp_step. }
  do 2 wp_step. apply wp_wlp, spin_lock_wp.
  assert (S : wp (_timer_start soft i) (fun _ k1 => calm (lock1 k) k1 /\ k_dev k1 = k_dev k) (lock1 k)).
  { destruct (Z.testbit (tm_flag (k_tim k i)) 1) eqn:E1.
    - unfold _timer_start, tim. do 2 wp_step. simpl. rewrite flag_processing, E1. wp_step.
      split; [by apply calm_refl, kinv_lock1|done].
    - eapply wp_mono; [by apply _timer_start_wp|]. intros r k1 [_ [A B C D E F G]]. 
      split; [|exact (f_equal k_dev G)]. apply calm_timers; [by apply kinv_lock1|..].
      + exact (f_equal k_thr G). + exact (f_equal k_list G). + exact (f_equal k_group G).
      + exact (f_equal k_cur G). + exact (f_equal k_lock_nest G).
      + intros t. apply A, Hi.
      + intros t. by rewrite (f_equal k_type G : k_type k1 = _).
      + intros t. by rewrite (f_equal k_type G : k_type k1 = _). }
  wp_step. eapply wlp_mono; [apply wp_wlp, S|]. cbv beta. intros r k1 [C1 E1]. do 3 wp_step.
  assert (W : wlp (if (r =? RT_EOK) && flag_set (tm_flag (k_tim k1 i)) RT_TIMER_FLAG_SOFT_TIMER
      then rt_sem_release _soft_timer_sem;; mret tt else mret tt)
    (fun _ k2 => calm (lock1 k) k2 /\ k_dev k2 = k_dev k) k1).
  { pose proof (cm_nest _ _ C1) as N1. simpl in N1.
    destruct (_ && _); [|by wp_step]. wp_step.
    eapply wlp_mono; [apply sem_release_calm; [apply C1|lia]|]. intros _ k2 [C2 E2]. wp_step.
    split; [by eapply calm_trans|congruence]. }
  eapply wlp_mono; [exact W|]. cbv beta. intros _ k2 [C2 E2]. wp_step.
  eapply wlp_mono; [apply wp_wlp, calm_unlock_wp; [exact Hk|exact C2]|]. intros _ k3 [C3 E3]. wp_step. split; [done|congruence].
Qed.

(** * Submissions with a delay and cancellations, whatever the state of the timers *)

Definition wq_inv (q : oid) (k : kernel) : Prop := kinv k /\ wq_thread_ok q k /\ wq_live q k.

(** Inside an operation on [w] that began in [k]: the queue has lost the work, the timers
    of the works are where they were. *)
Record cut (q w : oid) (k k1 : kernel) : Prop := mk_cut {
  ct_calm : calm (lock1 k) k1;
  ct_list : wk_list (wq_of q k1) = filter (.≠ w) (wk_list (wq_of q k));
  ct_current : wk_current (wq_of q k1) = wk_current (wq_of q k);
  ct_thread : wk_thread (wq_of q k1) = wk_thread (wq_of q k);
  ct_timer : forall x, w_timer (d_work (k_dev k1) x) = w_timer (d_work (k_dev k) x)
}.

Definition work_timers_kept (k k' : kernel) : Prop :=
  k_lock_nest k' = k_lock_nest k /\ forall x, w_timer (d_work (k_dev k') x) = w_timer (d_work (k_dev k) x).

Lemma cut_begin q w k : kinv k -> wlp (list_remove_work w) (fun _ k1 => cut q w k k1) (lock1 k).
Proof. intros Hk. unfold list_remove_work. wp_step. split; try done. apply calm_dev. by apply kinv_lock1. Qed.

Lemma cut_timer_op {A} (m : K A) q w k k1 :
  cut q w k k1 -> timer_op m k1 -> wlp m (fun _ k2 => cut q w k k2) k1.
Proof.
  intros [a b c d e] H. eapply wlp_mono; [exact H|]. cbv beta. intros r k2 [C E].
  split; unfold wq_of in *; rewrite ?E; try done. by eapply calm_trans.
Qed.

Lemma cut_upd_work x f q w k k1 :
  (forall r, w_timer (f r) = w_timer r) -> cut q w k k1 -> wlp (upd_work x f) (fun _ k2 => cut q w k k2) k1.
Proof.
  intros Hf [a b c d e]. unfold upd_work. wp_step. split; try done.
  - eapply calm_trans; [exact a|]. apply calm_dev, a.
  - intros y. simpl. destruct (decide (y = x)) as [->|]; [by rewrite fupd_eq, Hf|by rewrite fupd_ne].
Qed.

Lemma cut_push_delayed q w k k1 : cut q w k k1 -> wlp (work_push_delayed q w) (fun _ k2 => cut q w k k2) k1.
Proof.
  intros [a b c d e]. unfold work_push_delayed, upd_workq. wp_step.
  split; unfold wq_of in *; simpl; rewrite ?fupd_eq; try done.
  eapply calm_trans; [exact a|]. apply calm_dev, a.
Qed.

(** The unlock: a queue that had nothing to do still has nothing to do. *)
Lemma cut_end q w k k1 :
  wq_inv q k -> cut q w k k1 ->
  wp rt_spin_unlock_irqrestore (fun _ k' => wq_inv q k' /\ work_timers_kept k k') k1.
Proof.
  intros (Hk & Hty & L) [a b c d e]. eapply wp_mono; [by apply calm_unlock_wp|]. cbv beta.
  intros _ k' [[I N T A] E]. unfold work_timers_kept. rewrite E. split; [|by split]. split; [done|].
  unfold wq_thread_ok, wq_live, wq_of, typed in *. rewrite E, T, b, c, d. split; [exact Hty|].
  intros Hn Hl. apply A, L; [done|]. intros El. by rewrite El in Hl.
Qed.

Lemma cut_in_lock q w k k1 : kinv k -> cut q w k k1 -> kinv k1 /\ 1 <= k_lock_nest k1.
Proof.
  intros Hk C. pose proof (ki_nest _ Hk). pose proof (cm_nest _ _ (ct_calm _ _ _ _ C)) as N. simpl in N.
  split; [apply C|lia].
Qed.

Lemma cancel_wlp q w k :
  wq_inv q k -> user_timer (w_timer (d_work (k_dev k) w)) ->
  wlp (_workqueue_cancel_work q w) (fun _ k' => wq_inv q k' /\ work_timers_kept k k') k.
Proof.
  intros I Hi. assert (Hk : kinv k) by apply I. unfold _workqueue_cancel_work, flag_off, work, workq. wp_step.
  apply wp_wlp, spin_lock_wp. wp_step.
  eapply wlp_mono; [by apply (cut_begin q)|]. cbv beta. intros _ k1 C. wp_step.
  eapply wlp_mono; [by apply (cut_upd_work w _ q w k k1)|]. cbv beta. intros _ k2 C2. do 3 wp_step.
  assert (W : wlp (if flag_set (w_flags (d_work (k_dev k2) w)) RT_WORK_STATE_SUBMITTING
     then err ← rt_timer_stop (w_timer (d_work (k_dev k2) w));
          if negb (err =? RT_EOK) then mret err
          else rt_timer_detach (w_timer (d_work (k_dev k2) w));;
               upd_work w (fun r => set_w_flags (flag_clear (w_flags r) RT_WORK_STATE_SUBMITTING) r);; mret RT_EOK
     else mret RT_EOK) (fun _ k3 => cut q w k k3) k2).
  { rewrite (ct_timer _ _ _ _ C2). destruct (flag_set _ _); [|by wp_step]. wp_step.
    destruct (cut_in_lock _ _ _ _ Hk C2) as [K2 N2].
    eapply wlp_mono; [apply cut_timer_op; [exact C2|by apply timer_stop_op]|]. cbv beta. intros err k3 C3.
    destruct (negb _); [by wp_step|]. wp_step. destruct (cut_in_lock _ _ _ _ Hk C3) as [K3 N3].
    eapply wlp_mono; [apply cut_timer_op; [exact C3|by apply timer_detach_op]|]. cbv beta. intros _ k4 C4. wp_step.
    eapply wlp_mono; [by apply (cut_upd_work w _ q w k k4)|]. cbv beta. intros _ k5 C5. by wp_step. }
  eapply wlp_mono; [exact W|]. cbv beta. intros err k3 C3. destruct (negb _).
  - wp_step. eapply wlp_mono; [by apply wp_wlp, (cut_end q w k k3)|]. cbv beta. intros _ k4 H. by wp_step.
  - do 3 wp_step. eapply wlp_mono; [by apply (cut_upd_work w _ q w k k3)|]. cbv beta. intros _ k4 C4. wp_step.
    eapply wlp_mono; [by apply wp_wlp, (cut_end q w k k4)|]. cbv beta. intros _ k5 H. by wp_step.
Qed.

(** A submission with any delay. *)
Lemma submit_wlp q w ticks k :
  wq_inv q k -> user_timer (w_timer (d_work (k_dev k) w)) ->
  wlp (rt_workqueue_submit_work q w ticks) (fun _ k' => wq_inv q k') k.
Proof.
  intros I Hi. assert (Hk : kinv k) by apply I. unfold rt_workqueue_submit_work. do 2 wp_step.
  destruct (Z.eqb_spec ticks 0) as [->|Hne].
  { apply wp_wlp. eapply wp_mono; [apply (dowork_wp q w k); apply I|].
    intros r k' (_ & (_ & _ & B & C & _) & L & _). done. }
  apply Z.eqb_neq in Hne. unfold _workqueue_submit_work, flag_off, flag_on, work. rewrite Hne, H. wp_step.
  apply wp_wlp, spin_lock_wp. wp_step.
  eapply wlp_mono; [by apply (cut_begin q)|]. cbv beta. intros _ k1 C. wp_step.
  eapply wlp_mono; [by apply (cut_upd_work w _ q w k k1)|]. cbv beta. intros _ k2 C2. do 3 wp_step.
  rewrite (ct_timer _ _ _ _ C2). destruct (cut_in_lock _ _ _ _ Hk C2) as [K2 N2].
  match goal with |- wlp ?m _ _ => assert (W : wlp m (fun _ k3 => cut q w k k3) k2) end.
  { destruct (flag_set _ _); wp_step.
    - eapply wlp_mono; [apply cut_timer_op; [exact C2|apply timer_set_time_op; [done..|by apply Z.ltb_lt]]|].
      cbv beta. intros _ k3 C3. by wp_step.
    - eapply wlp_mono; [apply cut_timer_op; [exact C2|by apply timer_init_op]|].
      cbv beta. intros _ k3 C3. by apply (cut_upd_work w _ q w k k3). }
  eapply wlp_mono; [exact W|]. cbv beta. intros _ k3 C3. wp_step.
  eapply wlp_mono; [by apply (cut_upd_work w _ q w k k3)|]. cbv beta. intros _ k4 C4. wp_step.
  eapply wlp_mono; [by apply cut_push_delayed|]. cbv beta. intros _ k5 C5. wp_step.
  destruct (cut_in_lock _ _ _ _ Hk C5) as [K5 N5].
  eapply wlp_mono; [apply cut_timer_op; [exact C5|by apply timer_start_op]|]. cbv beta. intros err k6 C6. wp_step.
  eapply wlp_mono; [by apply wp_wlp, (cut_end q w k k6)|]. cbv beta. intros _ k7 [J _]. by wp_step.
Qed.

(** Every work is cancelled, one after the other. *)
Lemma cancel_all_loop_wlp q list_of fuel : forall k,
  wq_inv q k -> (forall w, user_timer (w_timer (d_work (k_dev k) w))) ->
  wlp (cancel_all_loop fuel q list_of) (fun _ k' => wq_inv q k' /\ work_timers_kept k k') k.
Proof.
  induction fuel as [|fuel IH]; intros k I Hi; cbn [cancel_all_loop]; unfold workq; do 2 wp_step;
    (destruct (list_of _) as [|w l]; [by wp_step|]).
  - by wp_step.
  - wp_step. eapply wlp_mono; [by apply cancel_wlp|]. cbv beta. intros _ k1 [I1 [N1 T1]].
    eapply wlp_mono; [apply IH; [done|intros x; rewrite T1; apply Hi]|]. cbv beta. intros _ k2 [I2 [N2 T2]].
    split; [done|]. split; [congruence|]. intros x. by rewrite T2.
Qed.

(** Only the drivers' objects and the types of threads count. *)
Lemma wq_inv_calm q k k' : wq_inv q k -> calm k k' /\ k_dev k' = k_dev k -> wq_inv q k'.
Proof.
  intros (Hk & Hty & L) [[I _ T A] E]. split; [done|].
  unfold wq_thread_ok, wq_live, wq_of, typed in *. rewrite E, T. auto.
Qed.

Lemma cancel_all_wlp q fuel k :
  wq_inv q k -> (forall w, user_timer (w_timer (d_work (k_dev k) w))) ->
  wlp (rt_workqueue_cancel_all_work fuel q) (fun _ k' => wq_inv q k') k.
Proof.
  intros I Hi. unfold rt_workqueue_cancel_all_work, rt_enter_critical. do 5 wp_step. fold (lock1 k).
  assert (Hk : kinv k) by apply I. pose proof (ki_nest _ Hk).
  assert (I1 : wq_inv q (lock1 k)) by (destruct I as (A & B & C); split; [by apply kinv_lock1|done]).
  eapply wlp_mono; [by apply cancel_all_loop_wlp|]. cbv beta. intros _ k2 [I2 [N2 T2]]. wp_step.
  eapply wlp_mono; [apply cancel_all_loop_wlp; [done|intros x; rewrite T2; apply Hi]|]. cbv beta.
  intros _ k3 [I3 [N3 _]]. wp_step. rewrite N2 in N3. simpl in N3.
  assert (K3 : kinv k3) by apply I3.
  eapply wlp_mono; [apply wp_wlp, rt_exit_critical_wp; [apply K3|lia]|]. cbv beta. intros _ k4 U. wp_step.
  assert (I4 : wq_inv q (unlock1 k3)) by (destruct I3 as (A & B & C); split; [apply kinv_unlock1; [lia|done]|done]).
  eapply wq_inv_calm; [exact I4|]. apply calm_unlocked; [apply I4|exact U].
Qed.

(** The caller waits for the end of the running work, or cancels. *)
Lemma cancel_sync_wlp q w k :
  wq_inv q k -> user_timer (w_timer (d_work (k_dev k) w)) ->
  (wk_current (wq_of q k) = Some w -> exists t, callable k t /\
     ipc_flag_ok (sem_flag (k_sem k (wk_sem (wq_of q k)))) = true) ->
  wlp (rt_workqueue_cancel_work_sync q w) (fun _ k' => wq_inv q k') k.
Proof.
  intros I Hi Hw. unfold rt_workqueue_cancel_work_sync, workq. do 2 wp_step. fold (wq_of q k).
  case_bool_decide as Hc.
  - destruct (Hw Hc) as (t & Hca & Hf). wp_step. unfold rt_sem_take. destruct I as (Hk & Hty & L).
    eapply wlp_typed; [reflexivity|]. intros Hs.
    eapply wlp_mono; [apply wp_wlp, (sem_take_begin_wp k _ t); [done..|reflexivity]|]. cbv beta. intros r k' [Hk' Hr].
    assert (E : k_dev k' = k_dev k /\ k_type k' = k_type k).
    { destruct (0 <? _).
      - destruct Hr as [_ U]. pose proof (kobj_sched _ _ (sf_rest _ _ (un_frame _ _ U))) as O.
        split; [by rewrite (dev_kobj _ _ O)|exact (f_equal k_type O)].
      - destruct Hr as [_ S]. pose proof (slept_kobj _ _ _ _ _ _ _ S) as O.
        split; [by rewrite (dev_kobj _ _ O)|exact (f_equal k_type O)]. }
    destruct E as [E1 E2]. assert (J : wq_inv q k').
    { split; [done|]. unfold wq_thread_ok, wq_live, wq_of, typed in *. rewrite E1, E2. split; [done|]. by rewrite Hc. }
    destruct r; by wp_step.
  - wp_step. eapply wlp_mono; [by apply cancel_wlp|]. cbv beta. intros r k' [J _]. by wp_step.
Qed.

(** The end of a work's delay. *)
Lemma timeout_wlp q w k :
  wq_inv q k -> w_queue (d_work (k_dev k) w) = Some q -> user_timer (w_timer (d_work (k_dev k) w)) ->
  wlp (_delayed_work_timeout_handler w) (fun _ k' => wq_inv q k') k.
Proof.
  intros (Hk & Hty & _) Hq Hi. set (i := w_timer (d_work (k_dev k) w)) in *.
  destruct (submitting w k) eqn:Hs.
  - destruct (Z.eq_dec (k_type k (OTimer i)) (Z.lor RT_Object_Class_Timer RT_Object_Class_Static)) as [Ht|Ht].
    + apply wp_wlp. eapply wp_mono; [by apply (timeout_wp q w k)|]. cbv beta.
      intros _ k' ((_ & _ & B & C & _) & L' & _). done.
    + unfold _delayed_work_timeout_handler, work. do 7 wp_step. apply wp_wlp, spin_lock_wp. wp_step. fold i.
      eapply wlp_typed; [reflexivity|]. intros Hty'. unfold rt_timer_detach, rt_object_is_systemobject. wp_step.
      apply wp_wlp, assert_type_wp; [exact Hty'|]. do 4 wp_step. destruct Ht. by apply static_bits.
  - unfold _delayed_work_timeout_handler, work. do 4 wp_step. unfold submitting in Hs. congruence.
Qed.

(** The steps of the users of a queue, of its thread and of the rest of the system.  An
    operation that fails an assertion is no step.  A caller of
    [rt_workqueue_cancel_work_sync] that finds the work running waits on the semaphore of
    the queue; it is a running thread then. *)
Inductive wq_step (q : oid) (k : kernel) : kernel -> Prop :=
  | ws_submit w ticks r k' : user_timer (w_timer (d_work (k_dev k) w)) ->
      rt_workqueue_submit_work q w ticks k = Some (r, k') -> wq_step q k k'
  | ws_dowork w r k' : rt_workqueue_dowork q w k = Some (r, k') -> wq_step q k k'
  | ws_urgent w r k' : rt_workqueue_urgent_work q w k = Some (r, k') -> wq_step q k k'
  | ws_cancel w r k' : user_timer (w_timer (d_work (k_dev k) w)) ->
      rt_workqueue_cancel_work q w k = Some (r, k') -> wq_step q k k'
  | ws_cancel_sync w r k' : user_timer (w_timer (d_work (k_dev k) w)) ->
      (wk_current (wq_of q k) = Some w -> exists t, callable k t /\
         ipc_flag_ok (sem_flag (k_sem k (wk_sem (wq_of q k)))) = true) ->
      rt_workqueue_cancel_work_sync q w k = Some (r, k') -> wq_step q k k'
  | ws_cancel_all fuel r k' : (forall w, user_timer (w_timer (d_work (k_dev k) w))) ->
      rt_workqueue_cancel_all_work fuel q k = Some (r, k') -> wq_step q k k'
  | ws_timeout w r k' : w_queue (d_work (k_dev k) w) = Some q -> user_timer (w_timer (d_work (k_dev k) w)) ->
      _delayed_work_timeout_handler w k = Some (r, k') -> wq_step q k k'
  | ws_next t r k' : running k t -> thread_ok k t -> wk_thread (wq_of q k) = t -> wk_current (wq_of q k) = None ->
      workqueue_thread_next q k = Some (r, k') -> wq_step q k k'
  | ws_done t k' : running k t -> wk_thread (wq_of q k) = t ->
      upd_workq q (set_wk_current None) k = Some (tt, k') -> wq_step q k k'
  | ws_other k' : kinv k' -> wq_of q k' = wq_of q k -> wq_thread_ok q k' ->
      (asleep k (wk_thread (wq_of q k)) = false -> asleep k' (wk_thread (wq_of q k)) = false) -> wq_step q k k'.

Lemma wq_step_inv q k k' : wq_step q k k' -> wq_inv q k -> wq_inv q k'.
Proof.
  intros S I. assert (J := I). destruct J as (Hk & Hty & L).
  destruct S as [w ticks r k' H1 E|w r k' E|w r k' E|w r k' H1 E|w r k' H1 H2 E|fuel r k' H1 E|w r k' H1 H2 E|
    t r k' H1 H2 H3 H4 E|t k' H1 H2 E|k' H1 H2 H3 H4].
  - exact (wlp_elim _ _ _ _ _ (submit_wlp q w ticks k I H1) E).
  - destruct (wp_elim _ _ _ _ _ (dowork_wp q w k Hk Hty) E) as (_ & (_ & _ & B & C & _) & L' & _). done.
  - destruct (wp_elim _ _ _ _ _ (urgent_wp q w k Hk Hty) E) as (_ & (_ & _ & B & C & _) & L' & _). done.
  - exact (proj1 (wlp_elim _ _ _ _ _ (cancel_wlp q w k I H1) E)).
  - exact (wlp_elim _ _ _ _ _ (cancel_sync_wlp q w k I H1 H2) E).
  - exact (wlp_elim _ _ _ _ _ (cancel_all_wlp q fuel k I H1) E).
  - exact (wlp_elim _ _ _ _ _ (timeout_wlp q w k I H1 H2) E).
  - by destruct (wp_elim _ _ _ _ _ (next_wp q k t Hk H1 H2 H3 H4) E) as (_ & _ & _ & B & C & _ & L' & _).
  - injection E as <-. split; [by apply kinv_set_dev|]. unfold wq_thread_ok, wq_live, wq_of in *. simpl. rewrite fupd_eq. split; [done|].
    intros _ _. simpl. rewrite H2. apply active_asleep. right. apply H1.
  - split; [done|]. split; [done|]. unfold wq_live in *. rewrite H2. auto.
Qed.

(** C23: no wake-up of a work queue is lost: in every interleaving of submissions (at once,
    urgent, with a delay, and those whose delay ends), cancellations (of one work, of all,
    and those that wait for the running work), turns of the queue's thread and other
    activity that neither touches the queue nor puts its thread to sleep, the thread is
    never asleep while a work is pending and none is running.  The steps are operations
    that fail no assertion; the timers of the works are application timers, not those of
    threads. *)
Theorem workqueue_live q k k' :
  kinv k -> wq_thread_ok q k -> wq_live q k -> rtc (wq_step q) k k' ->
  wk_current (wq_of q k') = None -> wk_list (wq_of q k') <> [] -> asleep k' (wk_thread (wq_of q k')) = false.
Proof.
  intros Hk Hty L S. assert (I : wq_inv q k) by done. clear Hk Hty L.
  assert (I' : wq_inv q k') by (revert I; induction S; eauto using wq_step_inv). apply I'.
Qed.

(** submitting a delayed work for immediate execution leaves its timer running.  When
    the queue was empty, the thread takes the work up and clears its queue, and the handler
    of the timer then fails its assertion that the work has one. *)
Lemma dowork_leaves_delay_running q w k :
  kinv k -> wq_thread_ok q k -> submitting w k = true -> wk_list (wq_of q k) = [] ->
  wp (rt_workqueue_dowork q w) (fun _ k1 =>
    (forall i, user_timer i -> k_tim k1 i = k_tim k i) /\
    forall k2 t, kinv k2 -> k_dev k2 = k_dev k1 -> running k2 t -> thread_ok k2 t ->
      wk_thread (wq_of q k2) = t -> wk_current (wq_of q k2) = None ->
      wp (workqueue_thread_next q) (fun res k3 => res = Some w /\ submitting w k3 = true /\
        _delayed_work_timeout_handler w k3 = None) k2) k.
Proof.
  intros Hk Hty Hs Hl. eapply wp_mono; [by apply dowork_wp|].
  intros r k1 (_ & (A & _) & _ & _ & _ & Hs1 & Ht). split; [done|]. intros k2 t Hk2 Ed Hr Htk Et Hc.
  eapply wp_mono; [by apply (next_wp q k2 t)|]. intros res k3 (-> & _ & _ & _ & _ & _ & _ & W).
  assert (E2 : wq_abs q k2 = wq_abs q k1) by (unfold wq_abs, wq_of; by rewrite Ed).
  assert (Ep : aw_pending (wq_abs q k1) = [w]) by (rewrite A; simpl; by rewrite Hl).
  rewrite E2 in *. unfold awq_next in *. rewrite Ep in *. simpl in *. split; [done|].
  destruct W as (Hq & _ & Hs3 & _). split; [|by apply timeout_without_queue].
  rewrite Hs3. unfold submitting in *. by rewrite Ed, Hs1.
Qed.

(** * At concrete inputs: two works pending, a third delayed, two threads that wait *)

Definition demo_work (w : oid) : rt_work :=
  match w with
  | 7%positive => mk_work 0 0 RT_WORK_STATE_SUBMITTING 3 (Some 1%positive)
  | 8%positive => mk_work 0 0 RT_WORK_STATE_SUBMITTING 3 (Some 2%positive)
  | _ => mk_work 0 0 RT_WORK_STATE_PENDING 5 (Some 1%positive)
  end.
Definition demo_workq (q : oid) : rt_workqueue :=
  match q with
  | 1%positive => mk_workq [5; 6]%positive [7]%positive None 1 1
  | 3%positive => mk_workq [10]%positive [] (Some 9%positive) 1 1
  | _ => mk_workq [] [8]%positive None 1 1
  end.
Definition kwork : kernel :=
  set_k_dev (set_d_workq demo_workq (set_d_work demo_work (k_dev kdemo))) kdemo.

Lemma kwork_inv : kinv kwork.
Proof. apply kinv_set_dev, kdemo_inv. Qed.

Lemma odd_user_timer p : user_timer p~1.
Proof. by intros t. Qed.

Lemma rt_workqueue_dowork_refines_witness :
  wp (rt_workqueue_dowork 1 5) (fun r k' => r = RT_EOK /\ wq_abs 1 k' = mk_awq [6; 5]%positive [7]%positive None /\
    kinv k' /\ wq_live 1 k' /\ w_queue (d_work (k_dev k') 5%positive) = Some 1%positive /\ pending 5 k' = true /\
    (forall t, asleep kwork t = false -> asleep k' t = false)) kwork.
Proof. exact (rt_workqueue_dowork_refines 1 5 kwork kwork_inv eq_refl). Defined.

Lemma rt_workqueue_cancel_work_refines_witness :
  wp (rt_workqueue_cancel_work 1 5) (fun r k' => (r, wq_abs 1 k') = (RT_EOK, mk_awq [6]%positive [7]%positive None) /\ kinv k' /\
    w_queue (d_work (k_dev k') 5%positive) = None /\ submitting 5 k' = false /\ pending 5 k' = false /\
    (submitting 5 kwork = true -> let i := 5%positive in
       Z.testbit (tm_flag (k_tim k' i)) 0 = false /\ i ∉ k_soft k')) kwork.
Proof. apply (rt_workqueue_cancel_work_refines 1 5 kwork kwork_inv eq_refl). discriminate. Defined.

Lemma delayed_work_timeout_refines_witness :
  wp (_delayed_work_timeout_handler 7) (fun _ k' => wq_abs 1 k' = mk_awq [5; 6; 7]%positive [] None /\ kinv k' /\
    wq_live 1 k' /\ submitting 7 k' = false /\
    (wk_current (wq_of 1 kwork) = Some 7%positive ->
      ~ (7%positive ∈ wk_list (wq_of 1 k')) /\ ~ (7%positive ∈ wk_delayed (wq_of 1 k')))) kwork.
Proof. exact (delayed_work_timeout_refines 1 7 kwork kwork_inv eq_refl eq_refl eq_refl (odd_user_timer 1) eq_refl). Defined.

Lemma kwork_try_env : try_env 1 kwork.
Proof. split; [apply kwork_inv|done|done|by eexists|done|done]. Qed.

Lemma workqueue_work_completion_releases_witness :
  wp (workqueue_thread_done 2 1) (fun r k' => r = RT_EOK /\ wk_current (wq_of 1 k') = None /\
    sem_value (k_sem k' 1%positive) = 0 /\ k_list k' (LSusp (OSem 1)) = [] /\
    (forall x, x ∈ [2%positive] -> active (k_thr k' x)) /\ wq_live 1 k') kwork.
Proof.
  apply (workqueue_work_completion_releases 2 1 kwork 1 1 kwork_try_env kdemo_running eq_refl eq_refl eq_refl).
  vm_compute. lia.
Defined.

(** The running work of queue 3 ends; then work 11 is submitted with a delay of 5 ticks,
    which wakes the timer thread and switches to it. *)
Definition kwork_done : kernel := run (upd_workq 3 (set_wk_current None)) kwork.
Definition kwork_delayed : kernel := run (rt_workqueue_submit_work 3 11 5) kwork_done.

Lemma kwork_delayed_step : wq_step 3 kwork_done kwork_delayed.
Proof. apply (ws_submit 3 kwork_done 11 5 RT_EOK kwork_delayed (odd_user_timer 2)). vm_compute. reflexivity. Qed.

Lemma workqueue_live_witness :
  wk_list (wq_of 3 kwork_delayed) = [10%positive] /\ wk_delayed (wq_of 3 kwork_delayed) = [11%positive] /\
  asleep kwork_delayed (wk_thread (wq_of 3 kwork_delayed)) = false.
Proof.
  split; [reflexivity|]. split; [reflexivity|].
  exact (workqueue_live 3 kwork kwork_delayed kwork_inv eq_refl (fun H _ => ltac:(discriminate H))
    (rtc_l _ _ _ _ (ws_done 3 kwork 1 kwork_done kdemo_running eq_refl eq_refl) (rtc_once _ _ kwork_delayed_step))
    eq_refl ltac:(discriminate)).
Defined.

Lemma dowork_leaves_delay_running_witness :
  wp (rt_workqueue_dowork 2 8) (fun _ k1 =>
    (forall i, user_timer i -> k_tim k1 i = k_tim kwork i) /\
    forall k2 t, kinv k2 -> k_dev k2 = k_dev k1 -> running k2 t -> thread_ok k2 t ->
      wk_thread (wq_of 2 k2) = t -> wk_current (wq_of 2 k2) = None ->
      wp (workqueue_thread_next 2) (fun res k3 => res = Some 8%positive /\ submitting 8 k3 = true /\
        _delayed_work_timeout_handler 8 k3 = None) k2) kwork.
Proof. exact (dowork_leaves_delay_running 2 8 kwork kwork_inv eq_refl eq_refl eq_refl). Defined.
