(* ===== verification/Mailbox.v ===== *)
(** Mailboxes, src/ipc.c: a ring of word-sized messages with waiting senders and
    receivers, and its refinement of a bounded queue. *)
From S2P Require Import Prelude KState SchedUp Object TimerCore SchedComm SuspList Sem Timer Thread Demo SemTake IpcWait Ring.
#[local] Open Scope Z_scope.

Definition RT_MB_ENTRY_MAX : Z := 65535.

Definition mb (m : oid) : K rt_mailbox := gets (fun k => k_mb k m).

(** The message array: an access outside it has no defined result. *)
Definition pool_set (r : rt_mailbox) (i v : Z) : option (list Z) :=
  if i <? Z.of_nat (length (mb_pool r)) then Some (<[Z.to_nat i := v]> (mb_pool r)) else None.
Definition pool_get (r : rt_mailbox) (i : Z) : option Z := mb_pool r !! Z.to_nat i.

(** * Initialisation, removal, control *)

Definition rt_mb_init (m : oid) (name : list Z) (msgpool : list Z) (size flag : Z) : K Z :=
  RT_ASSERT (ipc_flag_ok flag);;
  rt_object_init (OMailBox m) RT_Object_Class_MailBox name;;
  upd_mb m (set_mb_flag flag);;
  _ipc_object_init (LSusp (OMailBox m));;
  upd_mb m (fun r => set_mb_out 0 (set_mb_in 0 (set_mb_entry 0 (set_mb_size (u16 size)
    (set_mb_pool msgpool r)))));;
  _ipc_object_init (LSender (OMailBox m));;
  mret RT_EOK.

Definition rt_mb_detach (m : oid) : K Z :=
  assert_type (OMailBox m) RT_Object_Class_MailBox;;
  sys ← rt_object_is_systemobject (OMailBox m);
  RT_ASSERT sys;;
  rt_spin_lock_irqsave;;
  rt_susp_list_resume_all (LSusp (OMailBox m)) RT_ERROR;;
  rt_susp_list_resume_all (LSender (OMailBox m)) RT_ERROR;;
  rt_spin_unlock_irqrestore;;
  rt_object_detach (OMailBox m);;
  mret RT_EOK.

(** [pool] is what [RT_KERNEL_MALLOC] returns for the messages. *)
Definition rt_mb_create (name : list Z) (size flag : Z) (memory : option oid)
    (pool : option (list Z)) : K (option oid) :=
  RT_ASSERT (ipc_flag_ok flag);;
  RT_DEBUG_NOT_IN_INTERRUPT;;
  o ← rt_object_allocate RT_Object_Class_MailBox name (OMailBox <$> memory);
  match o, memory with
  | Some _, Some m =>
      upd_mb m (set_mb_flag flag);;
      _ipc_object_init (LSusp (OMailBox m));;
      upd_mb m (set_mb_size (u16 size));;
      match pool with
      | None => rt_object_delete (OMailBox m);; mret None
      | Some msgs =>
          upd_mb m (fun r => set_mb_out 0 (set_mb_in 0 (set_mb_entry 0 (set_mb_pool msgs r))));;
          _ipc_object_init (LSender (OMailBox m));;
          mret (Some m)
      end
  | _, _ => mret None
  end.

(** The message array goes back to the heap. *)
Definition rt_mb_delete (m : oid) : K Z :=
  assert_type (OMailBox m) RT_Object_Class_MailBox;;
  sys ← rt_object_is_systemobject (OMailBox m);
  RT_ASSERT (negb sys);;
  RT_DEBUG_NOT_IN_INTERRUPT;;
  rt_spin_lock;;
  rt_susp_list_resume_all (LSusp (OMailBox m)) RT_ERROR;;
  rt_susp_list_resume_all (LSender (OMailBox m)) RT_ERROR;;
  rt_spin_unlock;;
  rt_object_delete (OMailBox m);;
  mret RT_EOK.

Definition rt_mb_control (m : oid) (cmd : Z) : K Z :=
  assert_type (OMailBox m) RT_Object_Class_MailBox;;
  if cmd =? RT_IPC_CMD_RESET then
    rt_spin_lock_irqsave;;
    rt_susp_list_resume_all (LSusp (OMailBox m)) RT_ERROR;;
    rt_susp_list_resume_all (LSender (OMailBox m)) RT_ERROR;;
    upd_mb m (fun r => set_mb_out 0 (set_mb_in 0 (set_mb_entry 0 r)));;
    rt_spin_unlock_irqrestore;;
    rt_schedule;;
    mret RT_EOK
  else mret (- RT_ERROR).

(** * Send *)

(** The part after the waiting loop: store the message, wake a receiver. *)
Definition mb_put (m : oid) (value : Z) : K Z :=
  r ← mb m;
  pool ← deref (pool_set r (mb_in r) value);
  upd_mb m (set_mb_pool pool);;
  let in_offset := u16 (mb_in r + 1) in
  upd_mb m (set_mb_in (if mb_size r <=? in_offset then 0 else in_offset));;
  if mb_entry r <? RT_MB_ENTRY_MAX then
    upd_mb m (fun r => set_mb_entry (u16 (mb_entry r + 1)) r);;
    wake_first_unlock (LSusp (OMailBox m));;
    mret RT_EOK
  else
    rt_spin_unlock_irqrestore;;
    mret (- RT_EFULL).

(** The waiting loop, from its test. *)
Definition mb_send_loop (m : oid) (value : Z) (self : option tid) (timeout tick_delta : Z)
    (sf : suspend_flag) : K (wait Z) :=
  r ← mb m;
  if mb_entry r =? mb_size r then
    wait_turn self (LSender (OMailBox m)) (mb_flag r) sf timeout tick_delta
      (fun _ => rt_spin_unlock_irqrestore;; mret (- RT_EFULL)) (fun ret => ret)
  else ret ← mb_put m value; mret (Done ret).

Definition _rt_mb_send_wait_begin (m : oid) (value timeout : Z) (sf : suspend_flag) : K (wait Z) :=
  assert_type (OMailBox m) RT_Object_Class_MailBox;;
  RT_DEBUG_SCHEDULER_AVAILABLE (negb (timeout =? 0));;
  thread ← rt_thread_self;
  rt_spin_lock_irqsave;;
  r ← mb m;
  if (mb_entry r =? mb_size r) && (timeout =? 0) then
    rt_spin_unlock_irqrestore;; mret (Done (- RT_EFULL))
  else mb_send_loop m value thread timeout 0 sf.

(** When the sender runs again. *)
Definition _rt_mb_send_wait_end (m : oid) (value timeout tick_delta : Z) (thread : tid)
    (sf : suspend_flag) : K (wait Z) :=
  r ← after_wait thread timeout tick_delta;
  match r with
  | inl e => mret (Done e)
  | inr timeout => mb_send_loop m value (Some thread) timeout tick_delta sf
  end.

Definition rt_mb_send_wait (m : oid) (value timeout : Z) :=
  _rt_mb_send_wait_begin m value timeout RT_UNINTERRUPTIBLE.
Definition rt_mb_send_wait_interruptible (m : oid) (value timeout : Z) :=
  _rt_mb_send_wait_begin m value timeout RT_INTERRUPTIBLE.
Definition rt_mb_send_wait_killable (m : oid) (value timeout : Z) :=
  _rt_mb_send_wait_begin m value timeout RT_KILLABLE.
Definition rt_mb_send (m : oid) (value : Z) := rt_mb_send_wait m value 0.
Definition rt_mb_send_interruptible (m : oid) (value : Z) := rt_mb_send_wait_interruptible m value 0.
Definition rt_mb_send_killable (m : oid) (value : Z) := rt_mb_send_wait_killable m value 0.

Definition rt_mb_urgent (m : oid) (value : Z) : K Z :=
  assert_type (OMailBox m) RT_Object_Class_MailBox;;
  rt_spin_lock_irqsave;;
  r ← mb m;
  if mb_entry r =? mb_size r then
    rt_spin_unlock_irqrestore;; mret (- RT_EFULL)
  else
    let out_offset := if 0 <? mb_out r then mb_out r - 1 else u16 (mb_size r - 1) in
    upd_mb m (set_mb_out out_offset);;
    pool ← deref (pool_set r out_offset value);
    upd_mb m (set_mb_pool pool);;
    upd_mb m (fun r => set_mb_entry (u16 (mb_entry r + 1)) r);;
    wake_first_unlock (LSusp (OMailBox m));;
    mret RT_EOK.

(** * Receive *)

Definition mb_get (m : oid) : K (Z * option Z) :=
  r ← mb m;
  value ← deref (pool_get r (mb_out r));
  let out_offset := u16 (mb_out r + 1) in
  upd_mb m (set_mb_out (if mb_size r <=? out_offset then 0 else out_offset));;
  (if 0 <? mb_entry r then upd_mb m (set_mb_entry (mb_entry r - 1)) else mret tt);;
  wake_first_unlock (LSender (OMailBox m));;
  mret (RT_EOK, Some value).

Definition mb_recv_loop (m : oid) (self : option tid) (timeout tick_delta : Z)
    (sf : suspend_flag) : K (wait (Z * option Z)) :=
  r ← mb m;
  if mb_entry r =? 0 then
    wait_turn self (LSusp (OMailBox m)) (mb_flag r) sf timeout tick_delta
      (fun thread => rt_spin_unlock_irqrestore;; upd_thr thread (set_t_error (- RT_ETIMEOUT));;
         mret (- RT_ETIMEOUT, None)) (fun ret => (ret, None))
  else ret ← mb_get m; mret (Done ret).

(** On success the message is stored through the caller's pointer. *)
Definition _rt_mb_recv_begin (m : oid) (timeout : Z) (sf : suspend_flag) : K (wait (Z * option Z)) :=
  assert_type (OMailBox m) RT_Object_Class_MailBox;;
  RT_DEBUG_SCHEDULER_AVAILABLE (negb (timeout =? 0));;
  thread ← rt_thread_self;
  rt_spin_lock_irqsave;;
  r ← mb m;
  if (mb_entry r =? 0) && (timeout =? 0) then
    rt_spin_unlock_irqrestore;; mret (Done (- RT_ETIMEOUT, None))
  else mb_recv_loop m thread timeout 0 sf.

Definition _rt_mb_recv_end (m : oid) (timeout tick_delta : Z) (thread : tid) (sf : suspend_flag)
    : K (wait (Z * option Z)) :=
  r ← after_wait thread timeout tick_delta;
  match r with
  | inl e => mret (Done (e, None))
  | inr timeout => mb_recv_loop m (Some thread) timeout tick_delta sf
  end.

Definition rt_mb_recv (m : oid) (timeout : Z) := _rt_mb_recv_begin m timeout RT_UNINTERRUPTIBLE.
Definition rt_mb_recv_interruptible (m : oid) (timeout : Z) :=
  _rt_mb_recv_begin m timeout RT_INTERRUPTIBLE.
Definition rt_mb_recv_killable (m : oid) (timeout : Z) := _rt_mb_recv_begin m timeout RT_KILLABLE.

(** * Refinement of a bounded queue *)

(** The fields of a mailbox in use. *)
Record mb_ok (r : rt_mailbox) : Prop := mk_mb_ok {
  mo_size : 0 < mb_size r <= 65535;
  mo_pool : mb_size r <= Z.of_nat (length (mb_pool r));
  mo_entry : 0 <= mb_entry r <= mb_size r;
  mo_out : 0 <= mb_out r < mb_size r;
  mo_in : mb_in r = (mb_out r + mb_entry r) mod mb_size r
}.

(** The abstract mailbox: capacity, messages in order, and the waiting threads. *)
Record amb := mk_amb { b_cap : nat; b_msgs : list Z; b_receivers : list tid; b_senders : list tid }.

Definition mb_msgs (r : rt_mailbox) : list Z :=
  ring (mb_size r) (mb_pool r) (mb_out r) (Z.to_nat (mb_entry r)).

Definition mb_abs (m : oid) (k : kernel) : amb :=
  mk_amb (Z.to_nat (mb_size (k_mb k m))) (mb_msgs (k_mb k m)) (k_list k (LSusp (OMailBox m)))
    (k_list k (LSender (OMailBox m))).

(** [enq] queues the caller in the order of the mailbox's flag. *)
Definition amb_send (enq : list tid -> list tid) (timeout v : Z) (a : amb) : option Z * amb :=
  if bool_decide (length (b_msgs a) = b_cap a) then
    if timeout =? 0 then (Some (- RT_EFULL), a)
    else (None, mk_amb (b_cap a) (b_msgs a) (b_receivers a) (enq (b_senders a)))
  else (Some RT_EOK, mk_amb (b_cap a) (b_msgs a ++ [v]) (tail (b_receivers a)) (b_senders a)).

Definition amb_urgent (v : Z) (a : amb) : Z * amb :=
  if bool_decide (length (b_msgs a) = b_cap a) then (- RT_EFULL, a)
  else (RT_EOK, mk_amb (b_cap a) (v :: b_msgs a) (tail (b_receivers a)) (b_senders a)).

Definition amb_recv (enq : list tid -> list tid) (timeout : Z) (a : amb)
    : option (Z * option Z) * amb :=
  match b_msgs a with
  | v :: rest => (Some (RT_EOK, Some v), mk_amb (b_cap a) rest (b_receivers a) (tail (b_senders a)))
  | [] => if timeout =? 0 then (Some (- RT_ETIMEOUT, None), a)
          else (None, mk_amb (b_cap a) [] (enq (b_receivers a)) (b_senders a))
  end.

Lemma kinv_set_mb g k : kinv k -> kinv (set_k_mb g k).
Proof. intros Hk. by eapply kinv_ext; [..|apply Hk|exact Hk]. Qed.

Lemma mb_full r : mb_ok r ->
  bool_decide (length (mb_msgs r) = Z.to_nat (mb_size r)) = (mb_entry r =? mb_size r).
Proof.
  intros [H1 H2 H3 H4 H5]. unfold mb_msgs. rewrite ring_length.
  destruct (Z.eqb_spec (mb_entry r) (mb_size r)); case_bool_decide; lia.
Qed.

(** ** The three updates of the ring *)

Definition mb_appended (v : Z) (r r' : rt_mailbox) : Prop :=
  mb_pool r' = <[Z.to_nat (mb_in r) := v]> (mb_pool r) /\ mb_size r' = mb_size r /\
  mb_out r' = mb_out r /\ mb_entry r' = mb_entry r + 1 /\
  mb_in r' = (if mb_size r <=? mb_in r + 1 then 0 else mb_in r + 1) /\ mb_flag r' = mb_flag r.

Lemma next_offset size i : 0 <= i < size -> (if size <=? i + 1 then 0 else i + 1) = (i + 1) mod size.
Proof.
  intros Hi. case_bool; [|rewrite Z.mod_small; lia].
  replace (i + 1) with size by lia. by rewrite Z_mod_same_full.
Qed.

Lemma mb_append_ok v r r' :
  mb_ok r -> mb_entry r <> mb_size r -> mb_appended v r r' ->
  mb_ok r' /\ mb_msgs r' = mb_msgs r ++ [v].
Proof.
  intros [H1 H2 H3 H4 H5] Hne (Hp & Hs & Ho & He & Hi & Hfl).
  pose proof (Z.mod_pos_bound (mb_out r + mb_entry r) (mb_size r)).
  rewrite next_offset in Hi by (rewrite H5; lia). split.
  - split; rewrite ?Hp, ?Hs, ?Ho, ?He, ?length_insert; [done|done|lia|done|].
    rewrite Hi, H5, Zplus_mod_idemp_l. f_equal. lia.
  - unfold mb_msgs. rewrite Hs, Ho, He, Hp, H5.
    rewrite <- (ring_push (mb_size r) (mb_pool r) (mb_out r) (Z.to_nat (mb_entry r)) v) by lia.
    replace (Z.of_nat (Z.to_nat (mb_entry r))) with (mb_entry r) by lia.
    f_equal. lia.
Qed.

Definition mb_prepended (v : Z) (r r' : rt_mailbox) : Prop :=
  mb_out r' = (if 0 <? mb_out r then mb_out r - 1 else mb_size r - 1) /\
  mb_pool r' = <[Z.to_nat (mb_out r') := v]> (mb_pool r) /\ mb_size r' = mb_size r /\
  mb_entry r' = mb_entry r + 1 /\ mb_in r' = mb_in r /\ mb_flag r' = mb_flag r.

Lemma mb_prepend_ok v r r' :
  mb_ok r -> mb_entry r <> mb_size r -> mb_prepended v r r' ->
  mb_ok r' /\ mb_msgs r' = v :: mb_msgs r.
Proof.
  intros [H1 H2 H3 H4 H5] Hne (Ho & Hp & Hs & He & Hi & Hfl).
  assert (Ho' : mb_out r' = (mb_out r - 1) mod mb_size r).
  { rewrite Ho. case_bool; [rewrite Z.mod_small; lia|].
    replace (mb_out r - 1) with (mb_size r - 1 + (-1) * mb_size r) by lia.
    rewrite Z.mod_add, Z.mod_small; lia. }
  pose proof (Z.mod_pos_bound (mb_out r - 1) (mb_size r)). split.
  - split; rewrite ?Hp, ?Hs, ?He, ?length_insert; [done|done|lia|lia|].
    rewrite Hi, H5, Ho', Zplus_mod_idemp_l. f_equal. lia.
  - unfold mb_msgs. rewrite Hp, Hs, He, Ho', ring_mod.
    rewrite <- (ring_push_front (mb_size r) (mb_pool r) (mb_out r) (Z.to_nat (mb_entry r)) v) by lia.
    f_equal. lia.
Qed.

Definition mb_removed (r r' : rt_mailbox) : Prop :=
  mb_pool r' = mb_pool r /\ mb_size r' = mb_size r /\ mb_entry r' = mb_entry r - 1 /\
  mb_in r' = mb_in r /\ mb_out r' = (if mb_size r <=? mb_out r + 1 then 0 else mb_out r + 1) /\
  mb_flag r' = mb_flag r.

Lemma mb_remove_ok r r' :
  mb_ok r -> mb_entry r <> 0 -> mb_removed r r' ->
  mb_ok r' /\ exists v, mb_msgs r = v :: mb_msgs r' /\ pool_get r (mb_out r) = Some v.
Proof.
  intros [H1 H2 H3 H4 H5] Hne (Hp & Hs & He & Hi & Ho & Hfl). rewrite next_offset in Ho by lia.
  pose proof (Z.mod_pos_bound (mb_out r + 1) (mb_size r)). split.
  - split; rewrite ?Hp, ?Hs, ?He; [done|done|lia|lia|].
    rewrite Hi, H5, Ho, Zplus_mod_idemp_l. f_equal. lia.
  - exists (ring_at (mb_size r) (mb_pool r) (mb_out r)). unfold mb_msgs. rewrite Hp, Hs, He, Ho, ring_mod.
    replace (Z.to_nat (mb_entry r)) with (S (Z.to_nat (mb_entry r - 1))) by lia.
    rewrite ring_S. split; [done|]. unfold pool_get, ring_at. rewrite Z.mod_small by lia.
    apply list_lookup_lookup_total_lt. lia.
Qed.

(** ** The operations under the lock *)

Lemma mb_wake_wp {A} (ret : A) l g k :
  kinv k -> can_sched k -> is_wait l ->
  wp (wake_first_unlock l;; mret ret) (fun r k' => r = ret /\ kinv k' /\
    woke_first l (set_k_mb g k) k') (set_k_mb g (lock1 k)).
Proof.
  intros Hk Hc Hw. wp_step. change (set_k_mb g (lock1 k)) with (lock1 (set_k_mb g k)).
  eapply wp_mono; [apply wake_first_wp; [by apply kinv_set_mb|done|done]|].
  intros _ k' [Hk' W]. by wp_step.
Qed.

Lemma mb_put_wp k m v :
  kinv k -> can_sched k -> mb_ok (k_mb k m) -> mb_entry (k_mb k m) <> mb_size (k_mb k m) ->
  wp (mb_put m v) (fun r k' => r = RT_EOK /\ kinv k' /\ exists g,
    mb_appended v (k_mb k m) (g m) /\ woke_first (LSusp (OMailBox m)) (set_k_mb g k) k') (lock1 k).
Proof.
  intros Hk Hc Hok Hne. unfold mb_put, mb, upd_mb. do 3 wp_step. simpl.
  destruct Hok as [H1 H2 H3 H4 H5]. set (r := k_mb k m) in *.
  pose proof (Z.mod_pos_bound (mb_out r + mb_entry r) (mb_size r)).
  eapply wp_deref; [unfold pool_set; rewrite (proj2 (Z.ltb_lt (mb_in r) _)) by lia; reflexivity|].
  do 4 wp_step. unfold RT_MB_ENTRY_MAX. rewrite (proj2 (Z.ltb_lt (mb_entry r) _)) by lia.
  do 2 wp_step. simpl.
  eapply wp_mono; [apply (mb_wake_wp RT_EOK); done|].
  intros ? k' (-> & Hk' & W). split; [done|]. split; [done|]. eexists. split; [|exact W].
  rewrite !fupd_eq. fold r. unfold mb_appended. simpl. by rewrite !u16_id by lia.
Qed.

Lemma mb_urgent_wp k m v :
  kinv k -> can_sched k -> typed k (OMailBox m) RT_Object_Class_MailBox -> mb_ok (k_mb k m) ->
  wp (rt_mb_urgent m v) (fun r k' => kinv k' /\
    if mb_entry (k_mb k m) =? mb_size (k_mb k m) then r = - RT_EFULL /\ unlocked k k'
    else r = RT_EOK /\ exists g, mb_prepended v (k_mb k m) (g m) /\
      woke_first (LSusp (OMailBox m)) (set_k_mb g k) k') k.
Proof.
  intros Hk Hc Hty Hok. unfold rt_mb_urgent, mb, upd_mb. wp_step. apply assert_type_wp; [done|].
  wp_step. apply spin_lock_wp. do 2 wp_step. simpl.
  destruct Hok as [H1 H2 H3 H4 H5]. set (r := k_mb k m) in *. case_bool.
  { wp_step. apply unlock_plain_wp; [done|]. intros k' Hk' U. by wp_step. }
  do 3 wp_step. set (o := if 0 <? mb_out r then _ else _).
  assert (Ho : o = if 0 <? mb_out r then mb_out r - 1 else mb_size r - 1)
    by (unfold o; by rewrite u16_id by lia).
  eapply wp_deref.
  { unfold pool_set. rewrite (proj2 (Z.ltb_lt o _)); [reflexivity|]. rewrite Ho. case_bool; lia. }
  do 4 wp_step. simpl.
  eapply wp_mono; [apply (mb_wake_wp RT_EOK); done|].
  intros ? k' (-> & Hk' & W). split; [done|]. split; [done|]. eexists. split; [|exact W].
  rewrite !fupd_eq. fold r. unfold mb_prepended. simpl. rewrite u16_id by lia. by rewrite Ho.
Qed.

Lemma mb_get_wp k m :
  kinv k -> can_sched k -> mb_ok (k_mb k m) -> mb_entry (k_mb k m) <> 0 ->
  wp (mb_get m) (fun r k' => kinv k' /\ exists g v, r = (RT_EOK, Some v) /\
    mb_removed (k_mb k m) (g m) /\ pool_get (k_mb k m) (mb_out (k_mb k m)) = Some v /\
    woke_first (LSender (OMailBox m)) (set_k_mb g k) k') (lock1 k).
Proof.
  intros Hk Hc Hok Hne. unfold mb_get, mb, upd_mb. do 3 wp_step. simpl.
  destruct Hok as [H1 H2 H3 H4 H5]. set (r := k_mb k m) in *.
  destruct (lookup_lt_is_Some_2 (mb_pool r) (Z.to_nat (mb_out r)) ltac:(lia)) as [v Hv].
  eapply wp_deref; [exact Hv|]. do 3 wp_step.
  rewrite (proj2 (Z.ltb_lt 0 (mb_entry r))) by lia. wp_step. simpl.
  eapply wp_mono; [apply (mb_wake_wp (RT_EOK, Some v)); done|].
  intros ? k' (-> & Hk' & W). split; [done|]. eexists _, v. split; [done|].
  split; [|split; [exact Hv|exact W]].
  rewrite !fupd_eq. fold r. unfold mb_removed. simpl. by rewrite !u16_id by lia.
Qed.

(** ** The theorems *)

(** What every call leaves as it was. *)
Record mb_frame (m : oid) (k k' : kernel) : Prop := mk_mb_frame {
  mf_sched : can_sched k -> can_sched k';
  mf_type : k_type k' = k_type k;
  mf_flag : mb_flag (k_mb k' m) = mb_flag (k_mb k m)
}.

Lemma mb_frame_woke l g m k k' :
  mb_flag (g m) = mb_flag (k_mb k m) -> woke_first l (set_k_mb g k) k' -> mb_frame m k k'.
Proof.
  intros Hf W. pose proof (woke_first_obj _ _ _ W) as Ho. split.
  - intros Hc. by eapply woke_first_sched.
  - exact (kobj_type _ _ Ho).
  - by rewrite (f_equal k_mb Ho : k_mb k' = g).
Qed.

Lemma mb_frame_unlocked m k k' : unlocked k k' -> mb_frame m k k'.
Proof.
  intros U. pose proof (sf_rest _ _ (un_frame _ _ U)) as Ho. split.
  - by apply unlocked_sched.
  - exact (f_equal k_type Ho).
  - by rewrite (f_equal k_mb Ho : k_mb k' = k_mb k).
Qed.

Lemma mb_frame_slept l flag sf timeout t e m k k' :
  went_to_sleep l flag sf timeout t (put_error t e k) k' -> mb_frame m k k'.
Proof.
  intros S. pose proof (slept_kobj _ _ _ _ _ _ _ S) as Ho. split.
  - intros Hc. by eapply slept_sched.
  - exact (kobj_type _ _ Ho).
  - by rewrite (f_equal k_mb Ho : k_mb k' = k_mb k).
Qed.

Lemma mb_abs_woke l g m k k' :
  kinv k -> is_wait l -> woke_first l (set_k_mb g k) k' -> k_mb k' m = g m /\
  mb_abs m k' = mk_amb (Z.to_nat (mb_size (g m))) (mb_msgs (g m))
    (if decide (LSusp (OMailBox m) = l) then tail (k_list k l) else k_list k (LSusp (OMailBox m)))
    (if decide (LSender (OMailBox m) = l) then tail (k_list k l) else k_list k (LSender (OMailBox m))).
Proof.
  intros Hk Hw W. assert (Hkg : kinv (set_k_mb g k)) by (by apply kinv_set_mb).
  pose proof (f_equal k_mb (woke_first_obj _ _ _ W)) as Hg.
  change (k_mb k' = g) in Hg. unfold mb_abs. rewrite Hg.
  by rewrite !(woke_first_list l _ k' _ Hkg W Hw).
Qed.

Lemma mb_abs_unlocked m k k' : unlocked k k' -> k_mb k' m = k_mb k m /\ mb_abs m k' = mb_abs m k.
Proof.
  intros U. pose proof (un_frame _ _ U) as F.
  assert (Hg : k_mb k' = k_mb k) by exact (f_equal k_mb (sf_rest _ _ F)).
  unfold mb_abs. by rewrite Hg, !(sf_list _ _ F).
Qed.

Lemma mb_abs_slept l flag sf timeout t e m k k' :
  is_wait l -> went_to_sleep l flag sf timeout t (put_error t e k) k' -> k_mb k' m = k_mb k m /\
  forall l', is_wait l' -> k_list k' l' =
    if decide (l' = l) then enqueue flag (fun x => t_cur_prio (k_thr k x)) t (k_list k l) else k_list k l'.
Proof.
  intros Hw S. split; [exact (f_equal (fun x => k_mb x m) (slept_kobj _ _ _ _ _ _ _ S))|].
  intros l' Hw'. by eapply slept_lists.
Qed.

Lemma served_woke l g k k' : woke_first l (set_k_mb g k) k' -> served l k k'.
Proof. intros W t Ht. by apply (woke_first_served l (set_k_mb g k) k' W). Qed.

Section send.
Context (k : kernel) (m : oid) (t : tid) (timeout : Z) (sf : suspend_flag).
Hypothesis (Hk : kinv k) (Hc : can_sched k) (Hok : mb_ok (k_mb k m)).
Hypothesis (Hcall : timeout <> 0 -> callable k t).
Hypothesis (Hflag : ipc_flag_ok (mb_flag (k_mb k m)) = true) (Hto : timeout < tick_half).

Let enq := enqueue (mb_flag (k_mb k m)) (fun x => t_cur_prio (k_thr k x)) t.

Definition sent (v : Z) (r : wait Z) (k' : kernel) : Prop :=
  kinv k' /\ mb_ok (k_mb k' m) /\ (finished r, mb_abs m k') = amb_send enq timeout v (mb_abs m k) /\
  (r = Done RT_EOK -> served (LSusp (OMailBox m)) k k') /\ mb_frame m k k'.

Definition recvd (r : wait (Z * option Z)) (k' : kernel) : Prop :=
  kinv k' /\ mb_ok (k_mb k' m) /\ (finished r, mb_abs m k') = amb_recv enq timeout (mb_abs m k) /\
  (forall v, r = Done (RT_EOK, v) -> served (LSender (OMailBox m)) k k') /\ mb_frame m k k'.

(** The loop of [_rt_mb_send_wait], entered with the lock held. *)
Lemma mb_send_loop_wp v self delta :
  (timeout <> 0 -> self = Some t) ->
  (mb_entry (k_mb k m) = mb_size (k_mb k m) -> timeout <> 0) ->
  wp (mb_send_loop m v self timeout delta sf) (sent v) (lock1 k).
Proof.
  intros Hs Hz. unfold mb_send_loop, mb. do 2 wp_step. simpl. unfold sent, amb_send. simpl.
  rewrite mb_full by done. case_bool.
  - specialize (Hz E). destruct (Z.eqb_spec timeout 0); [done|]. rewrite Hs by done. destruct (Hcall Hz) as [C1 C2 C3 C4].
    eapply wp_mono; [by apply wait_turn_wp|]. intros r k' (-> & Hk' & S). split; [done|].
    destruct (mb_abs_slept (LSender (OMailBox m)) _ _ _ _ _ m _ _ I S) as [Hm Hl]. rewrite Hm. split; [done|].
    split; [|split; [done|by eapply mb_frame_slept]].
    unfold mb_abs. rewrite Hm, !Hl by done. by repeat case_decide.
  - wp_step. eapply wp_mono; [by apply mb_put_wp|]. intros r k' (-> & Hk' & g & Ha & W). wp_step.
    split; [done|]. destruct (mb_abs_woke (LSusp (OMailBox m)) g m k k' Hk I W) as [Hm Habs]. rewrite Hm, Habs.
    destruct (mb_append_ok v _ _ Hok E Ha) as [Hok' Hmsgs]. split; [done|].
    split; [|split; [intros _; by eapply served_woke|eapply mb_frame_woke; [apply Ha|exact W]]].
    rewrite Hmsgs. destruct Ha as (_ & -> & _). by repeat case_decide.
Qed.

Lemma mb_recv_loop_wp self delta :
  (timeout <> 0 -> self = Some t) ->
  (mb_entry (k_mb k m) = 0 -> timeout <> 0) ->
  wp (mb_recv_loop m self timeout delta sf) recvd (lock1 k).
Proof.
  intros Hs Hz. unfold mb_recv_loop, mb. do 2 wp_step. simpl. unfold recvd, amb_recv. simpl. case_bool.
  - specialize (Hz E). destruct (Z.eqb_spec timeout 0); [done|]. rewrite Hs by done. destruct (Hcall Hz) as [C1 C2 C3 C4].
    eapply wp_mono; [by apply wait_turn_wp|]. intros r k' (-> & Hk' & S). split; [done|].
    destruct (mb_abs_slept (LSusp (OMailBox m)) _ _ _ _ _ m _ _ I S) as [Hm Hl]. rewrite Hm. split; [done|].
    split; [|split; [done|by eapply mb_frame_slept]].
    unfold mb_abs. rewrite Hm, !Hl by done.
    assert (Hnil : mb_msgs (k_mb k m) = []) by (unfold mb_msgs; by rewrite E).
    rewrite Hnil. by repeat case_decide.
  - wp_step. eapply wp_mono; [by apply mb_get_wp|]. intros r k' (Hk' & g & v & -> & Ha & Hv & W).
    wp_step. split; [done|]. destruct (mb_abs_woke (LSender (OMailBox m)) g m k k' Hk I W) as [Hm Habs]. rewrite Hm, Habs.
    destruct (mb_remove_ok _ _ Hok E Ha) as [Hok' (v' & Hmsgs & Hv')].
    replace v' with v in * by congruence. split; [done|].
    split; [|split; [intros _ _; by eapply served_woke|eapply mb_frame_woke; [apply Ha|exact W]]].
    rewrite Hmsgs. destruct Ha as (_ & -> & _). by repeat case_decide.
Qed.

Hypothesis (Hty : typed k (OMailBox m) RT_Object_Class_MailBox).

Lemma mb_send_begin_wp v : wp (_rt_mb_send_wait_begin m v timeout sf) (sent v) k.
Proof.
  unfold _rt_mb_send_wait_begin, mb, rt_thread_self. wp_step. apply assert_type_wp; [done|]. wp_step.
  eapply scheduler_checked_wp; [exact Hcall|]. do 3 wp_step. apply spin_lock_wp. do 2 wp_step. simpl. case_bool.
  - wp_step. apply unlock_plain_wp; [done|]. intros k' Hk' U. wp_step. unfold sent.
    destruct (mb_abs_unlocked m k k' U) as [-> ->]. split; [done|]. split; [done|].
    split; [|split; [done|by apply mb_frame_unlocked]]. unfold amb_send. simpl. rewrite mb_full by done. zbool. by rewrite H, H0, Z.eqb_refl.
  - apply mb_send_loop_wp; [by eapply caller_is_current|]. intros E1 E2. by rewrite E1, E2, Z.eqb_refl in E.
Qed.

Lemma mb_recv_begin_wp : wp (_rt_mb_recv_begin m timeout sf) recvd k.
Proof.
  unfold _rt_mb_recv_begin, mb, rt_thread_self. wp_step. apply assert_type_wp; [done|]. wp_step.
  eapply scheduler_checked_wp; [exact Hcall|]. do 3 wp_step. apply spin_lock_wp. do 2 wp_step. simpl. case_bool.
  - wp_step. apply unlock_plain_wp; [done|]. intros k' Hk' U. wp_step. unfold recvd.
    destruct (mb_abs_unlocked m k k' U) as [-> ->]. split; [done|]. split; [done|].
    split; [|split; [by intros v ?|by apply mb_frame_unlocked]].
    unfold amb_recv. simpl. zbool. unfold mb_msgs. rewrite H, H0. done.
  - apply mb_recv_loop_wp; [by eapply caller_is_current|]. intros E1 E2. by rewrite E1, E2 in E.
Qed.
End send.

(** [rt_mb_send_wait] implements the send of a bounded queue: with room the
    message goes to the end, the call returns [RT_EOK] and the first waiting
    receiver becomes runnable with error [RT_EOK]; on a full mailbox a zero timeout
    gives [-RT_EFULL] and changes nothing, any other timeout queues the sender and
    leaves it asleep.  The ring indices stay consistent and the kernel invariant
    is kept. *)
Lemma rt_mb_send_refines k m t v timeout sf :
  kinv k -> can_sched k -> mb_ok (k_mb k m) -> (timeout <> 0 -> callable k t) ->
  ipc_flag_ok (mb_flag (k_mb k m)) = true -> timeout < tick_half ->
  typed k (OMailBox m) RT_Object_Class_MailBox ->
  wp (_rt_mb_send_wait_begin m v timeout sf) (fun r k' => kinv k' /\ mb_ok (k_mb k' m) /\
    (finished r, mb_abs m k') =
      amb_send (enqueue (mb_flag (k_mb k m)) (fun x => t_cur_prio (k_thr k x)) t) timeout v
        (mb_abs m k) /\
    (r = Done RT_EOK -> served (LSusp (OMailBox m)) k k')) k.
Proof.
  intros. eapply wp_mono; [by apply (mb_send_begin_wp k m t)|]. intros r k' (? & ? & ? & ? & _). auto.
Qed.

(** [rt_mb_recv] implements the receive of a bounded queue: the oldest message
    is returned and removed and the first waiting sender becomes runnable; on an
    empty mailbox a zero timeout gives [-RT_ETIMEOUT], any other timeout queues the
    receiver and leaves it asleep. *)
Lemma rt_mb_recv_refines k m t timeout sf :
  kinv k -> can_sched k -> mb_ok (k_mb k m) -> (timeout <> 0 -> callable k t) ->
  ipc_flag_ok (mb_flag (k_mb k m)) = true -> timeout < tick_half ->
  typed k (OMailBox m) RT_Object_Class_MailBox ->
  wp (_rt_mb_recv_begin m timeout sf) (fun r k' => kinv k' /\ mb_ok (k_mb k' m) /\
    (finished r, mb_abs m k') =
      amb_recv (enqueue (mb_flag (k_mb k m)) (fun x => t_cur_prio (k_thr k x)) t) timeout
        (mb_abs m k) /\
    (forall v, r = Done (RT_EOK, v) -> served (LSender (OMailBox m)) k k')) k.
Proof.
  intros. eapply wp_mono; [by apply (mb_recv_begin_wp k m t)|]. intros r k' (? & ? & ? & ? & _). auto.
Qed.

(** [rt_mb_urgent] puts its message in front of all others, wakes a receiver,
    and fails with [-RT_EFULL] on a full mailbox. *)
Lemma rt_mb_urgent_refines k m v :
  kinv k -> can_sched k -> typed k (OMailBox m) RT_Object_Class_MailBox -> mb_ok (k_mb k m) ->
  wp (rt_mb_urgent m v) (fun r k' => kinv k' /\ mb_ok (k_mb k' m) /\
    (r, mb_abs m k') = amb_urgent v (mb_abs m k) /\
    (r = RT_EOK -> served (LSusp (OMailBox m)) k k')) k.
Proof.
  intros Hk Hc Hty Hok. eapply wp_mono; [by apply mb_urgent_wp|]. intros r k' [Hk' H].
  split; [done|]. unfold amb_urgent. simpl. rewrite mb_full by done.
  destruct (Z.eqb_spec (mb_entry (k_mb k m)) (mb_size (k_mb k m))) as [E|E].
  - destruct H as [-> U]. by destruct (mb_abs_unlocked m k k' U) as [-> ->].
  - destruct H as (-> & g & Ha & W).
    destruct (mb_abs_woke (LSusp (OMailBox m)) g m k k' Hk I W) as [-> ->].
    destruct (mb_prepend_ok v _ _ Hok E Ha) as [Hok' ->]. split; [done|].
    split; [|intros _; by eapply served_woke]. destruct Ha as (_ & _ & -> & _). by repeat case_decide.
Qed.

(** ** A history of calls *)

Inductive mb_op := Send (v : Z) | Recv.

(** Non-blocking calls one after the other: the messages accepted and received. *)
Fixpoint mb_run (m : oid) (ops : list mb_op) : K (list Z * list Z) :=
  match ops with
  | [] => mret ([], [])
  | Send v :: ops =>
      r ← rt_mb_send m v;
      '(ins, outs) ← mb_run m ops;
      mret (match r with Done z => if z =? RT_EOK then v :: ins else ins | _ => ins end, outs)
  | Recv :: ops =>
      r ← rt_mb_recv m 0;
      '(ins, outs) ← mb_run m ops;
      mret (ins, match r with Done (_, Some v) => v :: outs | _ => outs end)
  end.

Lemma mb_run_wp m ops : forall k,
  kinv k -> can_sched k -> mb_ok (k_mb k m) -> ipc_flag_ok (mb_flag (k_mb k m)) = true ->
  typed k (OMailBox m) RT_Object_Class_MailBox ->
  wp (mb_run m ops) (fun '(ins, outs) k' => mb_ok (k_mb k' m) /\
    mb_msgs (k_mb k m) ++ ins = outs ++ mb_msgs (k_mb k' m)) k.
Proof.
  induction ops as [|[v|] ops IH]; intros k Hk Hc Hok Hf Hty; cbn [mb_run].
  { wp_step. by rewrite app_nil_r. }
  - wp_step. eapply wp_mono; [by apply (mb_send_begin_wp k m 1 0)|].
    intros r k1 (Hk1 & Hok1 & Ha & _ & [F1 F2 F3]). wp_step.
    eapply wp_mono; [apply IH; [done|by apply F1|done|by rewrite F3|unfold typed; by rewrite F2]|].
    intros [ins outs] k' [Hok' E]. wp_step. split; [done|]. revert Ha. unfold amb_send. simpl.
    case_bool_decide; intros [= Hr _ Hm _ _]; rewrite Hm in E; destruct r; try done; injection Hr as ->.
    + done.
    + rewrite <- E. simpl. by rewrite <- app_assoc.
  - wp_step. eapply wp_mono; [by apply (mb_recv_begin_wp k m 1 0)|].
    intros r k1 (Hk1 & Hok1 & Ha & _ & [F1 F2 F3]). wp_step.
    eapply wp_mono; [apply IH; [done|by apply F1|done|by rewrite F3|unfold typed; by rewrite F2]|].
    intros [ins outs] k' [Hok' E]. wp_step. split; [done|]. revert Ha. unfold amb_recv. simpl.
    destruct (mb_msgs (k_mb k m)) as [|x q] eqn:Eq; intros [= Hr _ Hm _ _]; rewrite Hm, ?Eq in E;
      destruct r as [[]|]; try done; injection Hr as -> ->; [done|].
    simpl in *. by rewrite E.
Qed.

(** C19: over any sequence of non-blocking sends and receives, with threads waiting
    or not, the mailbox is first-in first-out and loses nothing: the messages that
    were in it followed by those accepted are the messages received followed by
    those still in it. *)
Theorem mb_fifo m ops k :
  kinv k -> can_sched k -> mb_ok (k_mb k m) -> ipc_flag_ok (mb_flag (k_mb k m)) = true ->
  typed k (OMailBox m) RT_Object_Class_MailBox ->
  exists ins outs k', mb_run m ops k = Some ((ins, outs), k') /\
    mb_msgs (k_mb k m) ++ ins = outs ++ mb_msgs (k_mb k' m).
Proof.
  intros. assert (W : wp (mb_run m ops) (fun '(ins, outs) k' => mb_ok (k_mb k' m) /\
    mb_msgs (k_mb k m) ++ ins = outs ++ mb_msgs (k_mb k' m)) k) by (by apply mb_run_wp).
  apply wp_exists in W as ([ins outs] & k' & E & _ & Hm). eauto 6.
Qed.

(** The sample state with a mailbox of three messages, two of them in use around
    the end of the array. *)
Definition kmail : kernel :=
  set_k_mb (fupd 1%positive (mk_mailbox 0 [11; 22; 33] 3 2 1 2) (k_mb kdemo)) kdemo.

Lemma kmail_ok : kinv kmail /\ mb_ok (k_mb kmail 1%positive).
Proof. split; [apply kinv_set_mb, kdemo_inv|]. split; simpl; done || lia. Qed.

Lemma callable_set_mb g k t : callable k t -> callable (set_k_mb g k) t.
Proof. intros [A [] C D]. by split. Qed.

Lemma can_sched_set_mb g k : can_sched k -> can_sched (set_k_mb g k).
Proof. done. Qed.

Lemma kmail_callable : callable kmail 1.
Proof. apply callable_set_mb, kdemo_callable. Qed.

Lemma kmail_can_sched : can_sched kmail.
Proof. apply can_sched_set_mb, kdemo_can_sched. Qed.

Lemma rt_mb_send_refines_witness :
  wp (_rt_mb_send_wait_begin 1 44 5 RT_UNINTERRUPTIBLE) (fun r k' => kinv k' /\
    mb_ok (k_mb k' 1%positive) /\
    (finished r, mb_abs 1 k') = (Some RT_EOK, mk_amb 3 [33; 11; 44] [] []) /\
    (r = Done RT_EOK -> served (LSusp (OMailBox 1)) kmail k')) kmail.
Proof.
  by apply (rt_mb_send_refines kmail 1 1 44 5 RT_UNINTERRUPTIBLE (proj1 kmail_ok) kmail_can_sched
    (proj2 kmail_ok) (fun _ => kmail_callable)).
Defined.

Lemma rt_mb_recv_refines_witness :
  wp (_rt_mb_recv_begin 1 5 RT_UNINTERRUPTIBLE) (fun r k' => kinv k' /\ mb_ok (k_mb k' 1%positive) /\
    (finished r, mb_abs 1 k') = (Some (RT_EOK, Some 33), mk_amb 3 [11] [] []) /\
    (forall v, r = Done (RT_EOK, v) -> served (LSender (OMailBox 1)) kmail k')) kmail.
Proof.
  by apply (rt_mb_recv_refines kmail 1 1 5 RT_UNINTERRUPTIBLE (proj1 kmail_ok) kmail_can_sched
    (proj2 kmail_ok) (fun _ => kmail_callable)).
Defined.

Lemma rt_mb_urgent_refines_witness :
  wp (rt_mb_urgent 1 44) (fun r k' => kinv k' /\ mb_ok (k_mb k' 1%positive) /\
    (r, mb_abs 1 k') = (RT_EOK, mk_amb 3 [44; 33; 11] [] []) /\
    (r = RT_EOK -> served (LSusp (OMailBox 1)) kmail k')) kmail.
Proof.
  by apply (rt_mb_urgent_refines kmail 1 44 (proj1 kmail_ok) kmail_can_sched eq_refl (proj2 kmail_ok)).
Defined.

Lemma mb_fifo_witness : exists ins outs k',
  mb_run 1 [Recv; Send 7; Send 8; Send 9; Recv] kmail = Some ((ins, outs), k') /\
    [33; 11] ++ ins = outs ++ mb_msgs (k_mb k' 1%positive).
Proof.
  by apply (mb_fifo 1 [Recv; Send 7; Send 8; Send 9; Recv] kmail (proj1 kmail_ok) kmail_can_sched
    (proj2 kmail_ok)).
Defined.
