(* ===== verification/MsgQueue.v ===== *)
(** Message queues, src/ipc.c: fixed slots linked in a queue and a free list, with
    waiting senders and receivers.  A send reserves a slot, copies the message with
    the lock released and then links the slot; a receive unlinks a slot, copies it
    out with the lock released and then gives it back. *)
From S2P Require Import Prelude KState SchedUp Object TimerCore SchedComm SuspList Sem Timer Thread Demo SemTake IpcWait.
#[local] Open Scope Z_scope.

Definition RT_MQ_ENTRY_MAX : Z := 65535.

(** [sizeof(struct rt_mq_message)]: a pointer and a 32-bit length. *)
Definition sizeof_mq_message : Z := 8.

Definition mq (m : oid) : K rt_messagequeue := gets (fun k => k_mq k m).

(** * The slots *)

Definition upd_msg (i : nat) (f : rt_mq_message -> rt_mq_message) (r : rt_messagequeue)
    : rt_messagequeue := set_mq_pool (fupd i (f (mq_pool r i)) (mq_pool r)) r.

(** The loop of [rt_mq_init] and [rt_mq_create] that chains the free slots. *)
Fixpoint mq_chain_free (temp count : nat) (r : rt_messagequeue) : rt_messagequeue :=
  match count with
  | O => r
  | S count =>
      mq_chain_free (S temp) count
        (set_mq_free (Some temp) (upd_msg temp (set_msg_next (mq_free r)) r))
  end.

Definition mq_reset_slots (r : rt_messagequeue) : rt_messagequeue :=
  set_mq_entry 0 (mq_chain_free 0 (Z.to_nat (mq_max_msgs r))
    (set_mq_free None (set_mq_tail None (set_mq_head None r)))).

(** [mq->msg_queue_free = msg->next] *)
Definition mq_reserve (msg : nat) (r : rt_messagequeue) : rt_messagequeue :=
  set_mq_free (msg_next (mq_pool r msg)) r.

(** [rt_memcpy] into the message's bytes. *)
Definition copy_into (data buffer : list Z) : list Z := buffer ++ drop (length buffer) data.

(** The message is filled in: the length, the bytes and, for a send, no successor. *)
Definition mq_fill (msg : nat) (buffer : list Z) (r : rt_messagequeue) : rt_messagequeue :=
  upd_msg msg (fun ms => set_msg_data (copy_into (msg_data ms) buffer)
    (set_msg_length (Z.of_nat (length buffer)) ms)) r.
Definition mq_no_next (msg : nat) (r : rt_messagequeue) : rt_messagequeue :=
  upd_msg msg (set_msg_next None) r.

(** Linking at the end of the queue. *)
Definition mq_append (msg : nat) (r : rt_messagequeue) : rt_messagequeue :=
  let r := match mq_tail r with Some last => upd_msg last (set_msg_next (Some msg)) r | None => r end in
  let r := set_mq_tail (Some msg) r in
  match mq_head r with None => set_mq_head (Some msg) r | Some _ => r end.

(** Linking at the front. *)
Definition mq_push (msg : nat) (r : rt_messagequeue) : rt_messagequeue :=
  let r := upd_msg msg (set_msg_next (mq_head r)) r in
  let r := set_mq_head (Some msg) r in
  match mq_tail r with None => set_mq_tail (Some msg) r | Some _ => r end.

(** Unlinking the first message, and giving a slot back. *)
Definition mq_unlink (msg : nat) (r : rt_messagequeue) : rt_messagequeue :=
  let r := set_mq_head (msg_next (mq_pool r msg)) r in
  if decide (mq_tail r = Some msg) then set_mq_tail None r else r.
Definition mq_give_back (msg : nat) (r : rt_messagequeue) : rt_messagequeue :=
  set_mq_free (Some msg) (upd_msg msg (set_msg_next (mq_free r)) r).

(** [mq->entry ++] under its guard; [None]: the counter would overflow. *)
Definition mq_count (r : rt_messagequeue) : option rt_messagequeue :=
  if mq_entry r <? RT_MQ_ENTRY_MAX then Some (set_mq_entry (u16 (mq_entry r + 1)) r) else None.
Definition mq_uncount (r : rt_messagequeue) : rt_messagequeue :=
  if 0 <? mq_entry r then set_mq_entry (mq_entry r - 1) r else r.

(** * Initialisation, removal, control *)

Definition rt_mq_init (m : oid) (name : list Z) (pool : nat -> rt_mq_message)
    (msg_size pool_size flag : Z) : K Z :=
  RT_ASSERT (ipc_flag_ok flag);;
  rt_object_init (OMsgQueue m) RT_Object_Class_MessageQueue name;;
  upd_mq m (set_mq_flag flag);;
  _ipc_object_init (LSusp (OMsgQueue m));;
  let msg_align_size := RT_ALIGN msg_size RT_ALIGN_SIZE in
  upd_mq m (fun r => set_mq_max_msgs (u16 (pool_size / (u32 (msg_align_size + sizeof_mq_message))))
    (set_mq_msg_size (u16 msg_size) (set_mq_pool pool r)));;
  r ← mq m;
  if mq_max_msgs r =? 0 then mret (- RT_EINVAL) else
  upd_mq m mq_reset_slots;;
  _ipc_object_init (LSender (OMsgQueue m));;
  mret RT_EOK.

Definition rt_mq_detach (m : oid) : K Z :=
  assert_type (OMsgQueue m) RT_Object_Class_MessageQueue;;
  sys ← rt_object_is_systemobject (OMsgQueue m);
  RT_ASSERT sys;;
  rt_spin_lock_irqsave;;
  rt_susp_list_resume_all (LSusp (OMsgQueue m)) RT_ERROR;;
  rt_susp_list_resume_all (LSender (OMsgQueue m)) RT_ERROR;;
  rt_spin_unlock_irqrestore;;
  rt_object_detach (OMsgQueue m);;
  mret RT_EOK.

(** [pool] is what [RT_KERNEL_MALLOC] returns for the slots. *)
Definition rt_mq_create (name : list Z) (msg_size max_msgs flag : Z) (memory : option oid)
    (pool : option (nat -> rt_mq_message)) : K (option oid) :=
  RT_ASSERT (ipc_flag_ok flag);;
  RT_DEBUG_NOT_IN_INTERRUPT;;
  o ← rt_object_allocate RT_Object_Class_MessageQueue name (OMsgQueue <$> memory);
  match o, memory with
  | Some _, Some m =>
      upd_mq m (set_mq_flag flag);;
      _ipc_object_init (LSusp (OMsgQueue m));;
      upd_mq m (fun r => set_mq_max_msgs (u16 max_msgs) (set_mq_msg_size (u16 msg_size) r));;
      match pool with
      | None => rt_object_delete (OMsgQueue m);; mret None
      | Some msgs =>
          upd_mq m (set_mq_pool msgs);;
          upd_mq m mq_reset_slots;;
          _ipc_object_init (LSender (OMsgQueue m));;
          mret (Some m)
      end
  | _, _ => mret None
  end.

(** The slots go back to the heap. *)
Definition rt_mq_delete (m : oid) : K Z :=
  assert_type (OMsgQueue m) RT_Object_Class_MessageQueue;;
  sys ← rt_object_is_systemobject (OMsgQueue m);
  RT_ASSERT (negb sys);;
  RT_DEBUG_NOT_IN_INTERRUPT;;
  rt_spin_lock;;
  rt_susp_list_resume_all (LSusp (OMsgQueue m)) RT_ERROR;;
  rt_susp_list_resume_all (LSender (OMsgQueue m)) RT_ERROR;;
  rt_spin_unlock;;
  rt_object_delete (OMsgQueue m);;
  mret RT_EOK.

(** The loop of the reset: every queued message goes to the free list.  [fuel]
    bounds the length of the queue. *)
Fixpoint mq_flush (fuel : nat) (r : rt_messagequeue) : option rt_messagequeue :=
  match mq_head r with
  | None => Some r
  | Some msg =>
      match fuel with
      | O => None
      | S fuel => mq_flush fuel (mq_give_back msg (mq_unlink msg r))
      end
  end.

Definition rt_mq_control (m : oid) (cmd : Z) : K Z :=
  assert_type (OMsgQueue m) RT_Object_Class_MessageQueue;;
  if cmd =? RT_IPC_CMD_RESET then
    rt_spin_lock_irqsave;;
    rt_susp_list_resume_all (LSusp (OMsgQueue m)) RT_ERROR;;
    rt_susp_list_resume_all (LSender (OMsgQueue m)) RT_ERROR;;
    r ← mq m;
    r' ← deref (mq_flush (Z.to_nat (mq_max_msgs r)) r);
    upd_mq m (fun _ => set_mq_entry 0 r');;
    rt_spin_unlock_irqrestore;;
    rt_schedule;;
    mret RT_EOK
  else mret (- RT_ERROR).

(** * Send *)

(** Counting the linked message and waking a receiver. *)
Definition mq_announce (m : oid) : K Z :=
  r ← mq m;
  match mq_count r with
  | Some r' =>
      upd_mq m (fun _ => r');;
      wake_first_unlock (LSusp (OMsgQueue m));;
      mret RT_EOK
  | None => rt_spin_unlock_irqrestore;; mret (- RT_EFULL)
  end.

(** After the waiting loop, with the free slot [msg]. *)
Definition mq_put (m : oid) (msg : nat) (buffer : list Z) : K Z :=
  upd_mq m (mq_reserve msg);;
  rt_spin_unlock_irqrestore;;
  upd_mq m (fun r => mq_fill msg buffer (mq_no_next msg r));;
  rt_spin_lock_irqsave;;
  upd_mq m (mq_append msg);;
  mq_announce m.

Definition mq_send_loop (m : oid) (buffer : list Z) (self : option tid) (timeout tick_delta : Z)
    (sf : suspend_flag) : K (wait Z) :=
  r ← mq m;
  match mq_free r with
  | None =>
      wait_turn self (LSender (OMsgQueue m)) (mq_flag r) sf timeout tick_delta
        (fun _ => rt_spin_unlock_irqrestore;; mret (- RT_EFULL)) (fun ret => ret)
  | Some msg => ret ← mq_put m msg buffer; mret (Done ret)
  end.

(** [buffer] holds the [size] bytes to send. *)
Definition _rt_mq_send_wait_begin (m : oid) (buffer : list Z) (timeout : Z) (sf : suspend_flag)
    : K (wait Z) :=
  assert_type (OMsgQueue m) RT_Object_Class_MessageQueue;;
  let size := Z.of_nat (length buffer) in
  RT_ASSERT (negb (size =? 0));;
  RT_DEBUG_SCHEDULER_AVAILABLE (negb (timeout =? 0));;
  r ← mq m;
  if mq_msg_size r <? size then mret (Done (- RT_ERROR)) else
  thread ← rt_thread_self;
  rt_spin_lock_irqsave;;
  r ← mq m;
  if bool_decide (mq_free r = None) && (timeout =? 0) then
    rt_spin_unlock_irqrestore;; mret (Done (- RT_EFULL))
  else mq_send_loop m buffer thread timeout 0 sf.

Definition _rt_mq_send_wait_end (m : oid) (buffer : list Z) (timeout tick_delta : Z) (thread : tid)
    (sf : suspend_flag) : K (wait Z) :=
  r ← after_wait thread timeout tick_delta;
  match r with
  | inl e => mret (Done e)
  | inr timeout => mq_send_loop m buffer (Some thread) timeout tick_delta sf
  end.

Definition rt_mq_send_wait (m : oid) (buffer : list Z) (timeout : Z) :=
  _rt_mq_send_wait_begin m buffer timeout RT_UNINTERRUPTIBLE.
Definition rt_mq_send_wait_interruptible (m : oid) (buffer : list Z) (timeout : Z) :=
  _rt_mq_send_wait_begin m buffer timeout RT_INTERRUPTIBLE.
Definition rt_mq_send_wait_killable (m : oid) (buffer : list Z) (timeout : Z) :=
  _rt_mq_send_wait_begin m buffer timeout RT_KILLABLE.
Definition rt_mq_send (m : oid) (buffer : list Z) := rt_mq_send_wait m buffer 0.
Definition rt_mq_send_interruptible (m : oid) (buffer : list Z) :=
  rt_mq_send_wait_interruptible m buffer 0.
Definition rt_mq_send_killable (m : oid) (buffer : list Z) := rt_mq_send_wait_killable m buffer 0.

Definition rt_mq_urgent (m : oid) (buffer : list Z) : K Z :=
  assert_type (OMsgQueue m) RT_Object_Class_MessageQueue;;
  let size := Z.of_nat (length buffer) in
  RT_ASSERT (negb (size =? 0));;
  r ← mq m;
  if mq_msg_size r <? size then mret (- RT_ERROR) else
  rt_spin_lock_irqsave;;
  r ← mq m;
  match mq_free r with
  | None => rt_spin_unlock_irqrestore;; mret (- RT_EFULL)
  | Some msg =>
      upd_mq m (mq_reserve msg);;
      rt_spin_unlock_irqrestore;;
      upd_mq m (mq_fill msg buffer);;
      rt_spin_lock_irqsave;;
      upd_mq m (mq_push msg);;
      mq_announce m
  end.

(** * Receive *)

(** After the waiting loop: the received bytes and their number. *)
Definition mq_get (m : oid) (size : Z) : K (Z * option (list Z)) :=
  r ← mq m;
  msg ← deref (mq_head r);
  upd_mq m (fun r => mq_uncount (mq_unlink msg r));;
  rt_spin_unlock_irqrestore;;
  r ← mq m;
  let ms := mq_pool r msg in
  let len := if size <? msg_length ms then size else msg_length ms in
  let bytes := take (Z.to_nat len) (msg_data ms) in
  rt_spin_lock_irqsave;;
  upd_mq m (mq_give_back msg);;
  wake_first_unlock (LSender (OMsgQueue m));;
  mret (len, Some bytes).

Definition mq_recv_loop (m : oid) (size : Z) (self : option tid) (timeout tick_delta : Z)
    (sf : suspend_flag) : K (wait (Z * option (list Z))) :=
  r ← mq m;
  if mq_entry r =? 0 then
    wait_turn self (LSusp (OMsgQueue m)) (mq_flag r) sf timeout tick_delta
      (fun thread => rt_spin_unlock_irqrestore;; upd_thr thread (set_t_error (- RT_ETIMEOUT));;
         mret (- RT_ETIMEOUT, None)) (fun ret => (ret, None))
  else ret ← mq_get m size; mret (Done ret).

Definition _rt_mq_recv_begin (m : oid) (size timeout : Z) (sf : suspend_flag)
    : K (wait (Z * option (list Z))) :=
  assert_type (OMsgQueue m) RT_Object_Class_MessageQueue;;
  RT_ASSERT (negb (size =? 0));;
  RT_DEBUG_SCHEDULER_AVAILABLE (negb (timeout =? 0));;
  thread ← rt_thread_self;
  rt_spin_lock_irqsave;;
  r ← mq m;
  if (mq_entry r =? 0) && (timeout =? 0) then
    rt_spin_unlock_irqrestore;; mret (Done (- RT_ETIMEOUT, None))
  else mq_recv_loop m size thread timeout 0 sf.

Definition _rt_mq_recv_end (m : oid) (size timeout tick_delta : Z) (thread : tid)
    (sf : suspend_flag) : K (wait (Z * option (list Z))) :=
  r ← after_wait thread timeout tick_delta;
  match r with
  | inl e => mret (Done (e, None))
  | inr timeout => mq_recv_loop m size (Some thread) timeout tick_delta sf
  end.

Definition rt_mq_recv (m : oid) (size timeout : Z) :=
  _rt_mq_recv_begin m size timeout RT_UNINTERRUPTIBLE.
Definition rt_mq_recv_interruptible (m : oid) (size timeout : Z) :=
  _rt_mq_recv_begin m size timeout RT_INTERRUPTIBLE.
Definition rt_mq_recv_killable (m : oid) (size timeout : Z) :=
  _rt_mq_recv_begin m size timeout RT_KILLABLE.

(** * The slots of a queue *)

(** The slots reached from [p] through the links. *)
Fixpoint mchain (pool : nat -> rt_mq_message) (p : option nat) (l : list nat) : Prop :=
  match l with
  | [] => p = None
  | i :: l => p = Some i /\ mchain pool (msg_next (pool i)) l
  end.

Lemma mchain_ext pool pool' p l :
  (forall i, i ∈ l -> msg_next (pool' i) = msg_next (pool i)) -> mchain pool p l -> mchain pool' p l.
Proof.
  revert p. induction l as [|i l IH]; intros p H; [done|]. intros [-> Hc]. split; [done|].
  rewrite H by left. apply IH; [|done]. intros; apply H; by right.
Qed.

Lemma mchain_upd pool p l i ms : i ∉ l -> mchain pool p l -> mchain (fupd i ms pool) p l.
Proof. intros Hi. apply mchain_ext. intros j Hj. by rewrite fupd_ne by congruence. Qed.

(** Linking a slot behind the last one. *)
Lemma mchain_snoc pool p l last i :
  NoDup (l ++ [last; i]) -> mchain pool p (l ++ [last]) -> msg_next (pool i) = None ->
  mchain (fupd last (set_msg_next (Some i) (pool last)) pool) p (l ++ [last; i]).
Proof.
  intros Hnd Hc Hi. revert p Hnd Hc. induction l as [|x l IH]; intros p Hnd Hc; simpl in *.
  - destruct Hc as [-> _]. rewrite fupd_eq. split; [done|]. split; [done|].
    apply NoDup_cons in Hnd as [Hne _]. rewrite fupd_ne by set_solver. done.
  - apply NoDup_cons in Hnd as [Hx Hnd]. destruct Hc as [-> Hc]. split; [done|].
    rewrite fupd_ne by set_solver. by apply IH.
Qed.

(** Queue [q], free list [fr] and reserved slots [fl] of a message queue. *)
Record mq_inv (r : rt_messagequeue) (q fr fl : list nat) : Prop := mk_mq_inv {
  mi_queue : mchain (mq_pool r) (mq_head r) q;
  mi_free : mchain (mq_pool r) (mq_free r) fr;
  mi_tail : mq_tail r = last q;
  mi_slots : q ++ fr ++ fl ≡ₚ seq 0 (Z.to_nat (mq_max_msgs r));
  mi_entry : mq_entry r = Z.of_nat (length q);
  mi_max : 0 <= mq_max_msgs r <= RT_MQ_ENTRY_MAX;
  mi_msgs : forall i, i ∈ q -> 0 <= msg_length (mq_pool r i) <= Z.of_nat (length (msg_data (mq_pool r i)))
}.

(** The messages of the queue, oldest first. *)
Definition message (r : rt_messagequeue) (i : nat) : list Z :=
  take (Z.to_nat (msg_length (mq_pool r i))) (msg_data (mq_pool r i)).
Definition mq_msgs (r : rt_messagequeue) (q : list nat) : list (list Z) := map (message r) q.

Lemma mq_inv_nodup r q fr fl : mq_inv r q fr fl -> NoDup (q ++ fr ++ fl).
Proof. intros H. rewrite (mi_slots _ _ _ _ H). apply NoDup_seq. Qed.

Lemma mq_entry_bound r q fr fl :
  mq_inv r q fr fl -> fr ++ fl <> [] -> Z.of_nat (length q) < RT_MQ_ENTRY_MAX.
Proof.
  intros H Hne. pose proof (Permutation_length (mi_slots _ _ _ _ H)) as Hl.
  rewrite length_app, length_seq in Hl. destruct (mi_max _ _ _ _ H).
  destruct (fr ++ fl); simpl in *; [done|lia].
Qed.

(** ** Every atomic section keeps the slots in order *)

Lemma mq_inv_perm r q fr fl fl' : fl ≡ₚ fl' -> mq_inv r q fr fl -> mq_inv r q fr fl'.
Proof. intros Hp [a b c d e f g]. split; [done..| |done|done|done]. by rewrite <- Hp. Qed.

Lemma mq_reserve_inv r q i fr fl :
  mq_inv r q (i :: fr) fl -> mq_inv (mq_reserve i r) q fr (i :: fl).
Proof.
  intros [a b c d e f g]. destruct b as [_ b]. split; [done..| |done|done|done].
  rewrite <- d. simpl. solve_Permutation.
Qed.

(** Writing to a reserved slot. *)
Lemma mq_upd_inv r q fr i fl h :
  mq_inv r q fr (i :: fl) -> mq_inv (upd_msg i h r) q fr (i :: fl) /\
  mq_msgs (upd_msg i h r) q = mq_msgs r q.
Proof.
  intros H. pose proof (mq_inv_nodup _ _ _ _ H) as Hnd. destruct H as [a b c d e f g].
  assert (Hi : (i ∉ q) /\ (i ∉ fr)).
  { apply NoDup_app in Hnd as (_ & Hq & Hnd). apply NoDup_app in Hnd as (_ & Hf & _).
    split; intros Hin; [apply (Hq _ Hin)|apply (Hf _ Hin)]; set_solver. }
  destruct Hi as [Hq Hf]. split; [split; simpl; try done; try by apply mchain_upd|].
  - intros j Hj. rewrite fupd_ne by congruence. by apply g.
  - apply map_ext_in. intros j Hj%list_elem_of_In. unfold message. simpl. by rewrite fupd_ne by congruence.
Qed.

Lemma mq_count_some r (q : list nat) :
  mq_entry r = Z.of_nat (length q) -> Z.of_nat (length q) < RT_MQ_ENTRY_MAX ->
  mq_count r = Some (set_mq_entry (Z.of_nat (length q) + 1) r).
Proof.
  intros He Hb. unfold mq_count, RT_MQ_ENTRY_MAX in *. rewrite He, u16_id by lia.
  by rewrite (proj2 (Z.ltb_lt _ _)) by lia.
Qed.

Definition filled (r : rt_messagequeue) (i : nat) : Prop :=
  0 <= msg_length (mq_pool r i) <= Z.of_nat (length (msg_data (mq_pool r i))).

Lemma message_fill r i buffer : message (mq_fill i buffer r) i = buffer /\ filled (mq_fill i buffer r) i.
Proof.
  unfold message, filled. simpl. rewrite fupd_eq. simpl. unfold copy_into.
  rewrite length_app, Nat2Z.id, take_app_length. split; [done|lia].
Qed.

Lemma mq_append_inv r q fr i fl :
  mq_inv r q fr (i :: fl) -> filled r i -> msg_next (mq_pool r i) = None ->
  exists r', mq_count (mq_append i r) = Some r' /\ mq_inv r' (q ++ [i]) fr fl /\
    mq_msgs r' (q ++ [i]) = mq_msgs r q ++ [message r i].
Proof.
  intros H Hfl Hnx. pose proof (mq_inv_nodup _ _ _ _ H) as Hnd.
  assert (Hb : Z.of_nat (length q) < RT_MQ_ENTRY_MAX)
    by (eapply mq_entry_bound; [exact H|]; by destruct fr).
  destruct H as [a b c d e f g].
  assert (Hperm : (q ++ [i]) ++ fr ++ fl ≡ₚ seq 0 (Z.to_nat (mq_max_msgs r)))
    by (rewrite <- d; solve_Permutation).
  assert (Hnd' : NoDup ((q ++ [i]) ++ fr ++ fl)) by (rewrite Hperm; apply NoDup_seq).
  apply NoDup_app in Hnd' as (Hqi & Hdis & _).
  set (r1 := mq_append i r).
  assert (Hpool : forall j, msg_length (mq_pool r1 j) = msg_length (mq_pool r j) /\
    msg_data (mq_pool r1 j) = msg_data (mq_pool r j)).
  { intros j. unfold r1, mq_append. destruct (mq_tail r) as [x|]; simpl; destruct (mq_head r); simpl;
      try done; (destruct (decide (j = x)) as [->|]; [by rewrite fupd_eq|by rewrite fupd_ne]). }
  assert (Hrest : mq_max_msgs r1 = mq_max_msgs r /\ mq_entry r1 = mq_entry r /\ mq_free r1 = mq_free r /\
    mq_tail r1 = Some i)
    by (unfold r1, mq_append; destruct (mq_tail r); simpl; by destruct (mq_head r)).
  destruct Hrest as (Hm & He & Hf & Ht).
  eexists. split; [apply (mq_count_some r1 q); [congruence|done]|]. split; [split|]; simpl.
  - unfold r1, mq_append. destruct q as [|x q'] using rev_ind.
    + simpl in *. rewrite c. rewrite a. simpl. done.
    + clear IHq'. rewrite last_snoc in c. rewrite c. simpl.
      assert (Hh : mq_head r <> None) by (destruct q'; simpl in a; destruct a as [-> _]; done).
      destruct (mq_head r) as [hd|] eqn:Ehd; [|done]. simpl. rewrite Ehd, <- app_assoc in *.
      apply mchain_snoc; done.
  - rewrite Hf. unfold r1, mq_append. destruct (mq_tail r) as [x|] eqn:Et.
    + assert (Hx : x ∉ fr).
      { intros Hin. eapply (Hdis x); [|apply elem_of_app; by left]. apply elem_of_app. left.
        symmetry in c. by apply last_Some_elem_of in c. }
      simpl. destruct (mq_head r); simpl; by apply mchain_upd.
    + simpl. by destruct (mq_head r).
  - by rewrite Ht, last_snoc.
  - by rewrite Hm.
  - rewrite length_app. simpl. lia.
  - by rewrite Hm.
  - intros j Hj. destruct (Hpool j) as [-> ->].
    apply elem_of_app in Hj as [Hj|Hj]; [by apply g|]. by apply list_elem_of_singleton in Hj as ->.
  - unfold mq_msgs. rewrite map_app. simpl. f_equal; [apply map_ext|f_equal]; [intros j|];
      unfold message; simpl; [destruct (Hpool j) as [-> ->]|destruct (Hpool i) as [-> ->]]; done.
Qed.

Lemma mq_push_inv r q fr i fl :
  mq_inv r q fr (i :: fl) -> filled r i ->
  exists r', mq_count (mq_push i r) = Some r' /\ mq_inv r' (i :: q) fr fl /\
    mq_msgs r' (i :: q) = message r i :: mq_msgs r q.
Proof.
  intros H Hfl.
  assert (Hb : Z.of_nat (length q) < RT_MQ_ENTRY_MAX)
    by (eapply mq_entry_bound; [exact H|]; by destruct fr).
  destruct (mq_upd_inv r q fr i fl (set_msg_next (mq_head r)) H) as [[a b c d e f g] Hms].
  set (r1 := upd_msg i (set_msg_next (mq_head r)) r) in *.
  assert (Hp : mq_push i r = set_mq_tail (Some (default i (mq_tail r))) (set_mq_head (Some i) r1))
    by (unfold r1; by destruct r as [? ? ? ? ? ? [x|] ?]).
  rewrite Hp. eexists. split; [by apply (mq_count_some _ q)|]. split; [split|]; simpl.
  - split; [done|]. by rewrite fupd_eq.
  - done.
  - change (mq_tail r1) with (mq_tail r) in c. rewrite c. destruct q as [|x q' _] using rev_ind; [done|].
    change (i :: q' ++ [x]) with ((i :: q') ++ [x]). by rewrite !last_snoc.
  - etransitivity; [|exact d]. simpl. solve_Permutation.
  - lia.
  - done.
  - intros j [->|Hj]%elem_of_cons; [by rewrite fupd_eq|]. by apply g.
  - rewrite <- Hms. unfold mq_msgs at 1. simpl. f_equal. unfold message. simpl. by rewrite fupd_eq.
Qed.

Lemma mq_unlink_inv r i q fr fl :
  mq_inv r (i :: q) fr fl -> mq_inv (mq_uncount (mq_unlink i r)) q fr (i :: fl) /\
  mq_msgs (mq_uncount (mq_unlink i r)) q = mq_msgs r q.
Proof.
  intros H. pose proof (mq_inv_nodup _ _ _ _ H) as Hnd. destruct H as [a b c d e f g].
  destruct a as [_ a]. simpl in e.
  assert (Hu : mq_uncount (mq_unlink i r) = set_mq_entry (Z.of_nat (length q))
    (set_mq_tail (last q) (set_mq_head (msg_next (mq_pool r i)) r))).
  { unfold mq_uncount, mq_unlink. change (mq_tail (set_mq_head _ r)) with (mq_tail r).
    assert (Hd : mq_tail r = Some i <-> q = []).
    { rewrite c. destruct q as [|x q' _] using rev_ind; [done|].
      change (i :: q' ++ [x]) with ((i :: q') ++ [x]). rewrite last_snoc. split; [|by destruct q'].
      intros [= ->]. simpl in Hnd. apply NoDup_cons in Hnd as [Hn _]. set_solver. }
    case_decide as Hi; simpl; rewrite e, (proj2 (Z.ltb_lt 0 _)) by lia.
    - apply Hd in Hi as ->. done.
    - destruct r. unfold set_mq_entry, set_mq_tail, set_mq_head. simpl in *. f_equal; [lia|].
      rewrite c. destruct q; [by destruct Hi; apply Hd|done]. }
  rewrite Hu. split; [split; simpl; try done|done].
  - etransitivity; [|exact d]. simpl. solve_Permutation.
  - intros j Hj. apply g. by right.
Qed.

Lemma mq_give_back_inv r q fr i fl :
  mq_inv r q fr (i :: fl) -> mq_inv (mq_give_back i r) q (i :: fr) fl /\
  mq_msgs (mq_give_back i r) q = mq_msgs r q.
Proof.
  intros H. destruct (mq_upd_inv r q fr i fl (set_msg_next (mq_free r)) H) as [[a b c d e f g] Hms].
  split; [|exact Hms]. split; [done| |done| |done..].
  - split; [done|]. simpl. by rewrite fupd_eq.
  - etransitivity; [|exact d]. simpl. solve_Permutation.
Qed.

(** The initial chain: all slots are free. *)
Lemma mq_chain_free_spec count : forall temp r fr,
  mchain (mq_pool r) (mq_free r) fr -> (forall i, i ∈ fr -> (i < temp)%nat) ->
  let r' := mq_chain_free temp count r in
  mchain (mq_pool r') (mq_free r') (rev (seq temp count) ++ fr) /\
  mq_head r' = mq_head r /\ mq_tail r' = mq_tail r /\ mq_max_msgs r' = mq_max_msgs r.
Proof.
  induction count as [|count IH]; intros temp r fr Hc Hlt; [done|]. cbn [mq_chain_free].
  set (r1 := set_mq_free _ _). destruct (IH (S temp) r1 (temp :: fr)) as (H1 & H2).
  - simpl. split; [done|]. rewrite fupd_eq. simpl. apply mchain_upd; [|done].
    intros Hin. apply Hlt in Hin. lia.
  - intros i [->|Hi]%elem_of_cons; [lia|]. apply Hlt in Hi. lia.
  - split; [|exact H2]. simpl. by rewrite <- app_assoc.
Qed.

Lemma mq_reset_slots_inv r :
  0 <= mq_max_msgs r <= RT_MQ_ENTRY_MAX ->
  mq_inv (mq_reset_slots r) [] (rev (seq 0 (Z.to_nat (mq_max_msgs r)))) [].
Proof.
  intros Hm. unfold mq_reset_slots. set (r0 := set_mq_free _ _).
  destruct (mq_chain_free_spec (Z.to_nat (mq_max_msgs r)) 0 r0 []) as (H1 & H2 & H3 & H4);
    [done|by intros i ?%elem_of_nil|].
  rewrite app_nil_r in H1. split; simpl; try done.
  - by rewrite H4, app_nil_r, <- Permutation_rev.
  - by rewrite H4.
  - by intros i ?%elem_of_nil.
Qed.

(** The loop does not look at the counter. *)
Lemma mq_flush_entry n fuel : forall r,
  mq_flush fuel (set_mq_entry n r) = set_mq_entry n <$> mq_flush fuel r.
Proof.
  assert (Hstep : forall i r, mq_give_back i (mq_unlink i (set_mq_entry n r)) =
    set_mq_entry n (mq_give_back i (mq_unlink i r))).
  { intros i r. unfold mq_unlink. simpl. by case_decide. }
  induction fuel as [|fuel IH]; intros r; simpl; (destruct (mq_head r); [|done]); [done|].
  by rewrite Hstep, IH.
Qed.

Lemma mq_flush_step i r : mq_give_back i (mq_uncount (mq_unlink i r)) =
  set_mq_entry (mq_entry (mq_uncount (mq_unlink i r))) (mq_give_back i (mq_unlink i r)).
Proof. unfold mq_uncount. by case_bool; destruct (mq_unlink i r). Qed.

(** The reset moves every queued message to the free list and stops. *)
Lemma mq_flush_inv q : forall fuel r fr fl,
  mq_inv r q fr fl -> (length q <= fuel)%nat ->
  exists r', mq_flush fuel r = Some r' /\ mq_inv (set_mq_entry 0 r') [] (rev q ++ fr) fl.
Proof.
  induction q as [|i q IH]; intros fuel r fr fl H Hf.
  - exists r. unfold mq_flush. pose proof (mi_queue _ _ _ _ H) as E. simpl in E.
    destruct fuel; simpl; rewrite E; (split; [done|]); destruct H as [a b c d e f g]; by split.
  - destruct fuel as [|fuel]; simpl in Hf; [lia|]. destruct (mi_queue _ _ _ _ H) as [E _]. simpl. rewrite E.
    destruct (mq_unlink_inv _ _ _ _ _ H) as [H1 _]. destruct (mq_give_back_inv _ _ _ _ _ H1) as [H2 _].
    destruct (IH fuel _ _ _ H2 ltac:(lia)) as (r' & Hr & Hi). rewrite mq_flush_step, mq_flush_entry in Hr.
    destruct (mq_flush fuel (mq_give_back i (mq_unlink i r))) as [r2|]; [|done].
    injection Hr as <-. exists r2. split; [done|]. by rewrite <- app_assoc.
Qed.
