(* ===== verification/MsgQueueSteps.v ===== *)
(** Interleavings of message-queue operations: the atomic sections of concurrent
    senders and receivers (src/ipc.c) as a step relation, and the invariant of all
    reachable states. *)
From stdpp Require Import relations.
From S2P Require Import Prelude KState MsgQueue.
#[local] Open Scope Z_scope.

(** What a thread between two atomic sections holds a slot for: a send or an urgent
    send before and after the copy, or a receive that is copying out. *)
Inductive phase :=
  | Reserved
  | Queued (buffer : list Z)
  | Front (buffer : list Z)
  | Taken (msg : list Z).

(** The queue, the slots held by threads, and the messages sent and not yet
    received, which the code does not store. *)
Record mqs := mk_mqs {
  s_mq : rt_messagequeue;
  s_held : list (nat * phase);
  s_msgs : list (list Z)
}.

(** One atomic section of some thread. *)
Inductive mq_step : mqs -> mqs -> Prop :=
  | st_reserve r h ms i :
      mq_free r = Some i -> mq_step (mk_mqs r h ms) (mk_mqs (mq_reserve i r) ((i, Reserved) :: h) ms)
  | st_copy r h1 h2 ms i buffer :
      mq_step (mk_mqs r (h1 ++ (i, Reserved) :: h2) ms)
        (mk_mqs (mq_fill i buffer (mq_no_next i r)) (h1 ++ (i, Queued buffer) :: h2) ms)
  | st_copy_urgent r h1 h2 ms i buffer :
      mq_step (mk_mqs r (h1 ++ (i, Reserved) :: h2) ms)
        (mk_mqs (mq_fill i buffer r) (h1 ++ (i, Front buffer) :: h2) ms)
  | st_append r r' h1 h2 ms i buffer :
      mq_count (mq_append i r) = Some r' ->
      mq_step (mk_mqs r (h1 ++ (i, Queued buffer) :: h2) ms) (mk_mqs r' (h1 ++ h2) (ms ++ [buffer]))
  | st_push r r' h1 h2 ms i buffer :
      mq_count (mq_push i r) = Some r' ->
      mq_step (mk_mqs r (h1 ++ (i, Front buffer) :: h2) ms) (mk_mqs r' (h1 ++ h2) (buffer :: ms))
  | st_unlink r h msg ms i :
      mq_entry r <> 0 -> mq_head r = Some i ->
      mq_step (mk_mqs r h (msg :: ms))
        (mk_mqs (mq_uncount (mq_unlink i r)) ((i, Taken msg) :: h) ms)
  | st_give_back r h1 h2 ms i msg :
      mq_step (mk_mqs r (h1 ++ (i, Taken msg) :: h2) ms) (mk_mqs (mq_give_back i r) (h1 ++ h2) ms)
  | st_reset r r' h ms :
      mq_flush (Z.to_nat (mq_max_msgs r)) r = Some r' ->
      mq_step (mk_mqs r h ms) (mk_mqs (set_mq_entry 0 r') h []).

(** What a thread may rely on for the slot it holds. *)
Definition held_ok (r : rt_messagequeue) (h : nat * phase) : Prop :=
  match h with
  | (_, Reserved) => True
  | (i, Queued buffer) => message r i = buffer /\ filled r i /\ msg_next (mq_pool r i) = None
  | (i, Front buffer) => message r i = buffer /\ filled r i
  | (i, Taken msg) => message r i = msg
  end.

Definition mqs_inv (s : mqs) : Prop :=
  exists q fr, mq_inv (s_mq s) q fr (map fst (s_held s)) /\ mq_msgs (s_mq s) q = s_msgs s /\
    Forall (held_ok (s_mq s)) (s_held s).

Lemma held_ok_pool r r' h : mq_pool r' h.1 = mq_pool r h.1 -> held_ok r h -> held_ok r' h.
Proof.
  destruct h as [i p]; simpl; intros E; destruct p; unfold message, filled; by rewrite ?E.
Qed.

Lemma held_pool r r' h :
  (forall i, i ∈ map fst h -> mq_pool r' i = mq_pool r i) -> Forall (held_ok r) h -> Forall (held_ok r') h.
Proof.
  intros H. rewrite !Forall_forall. intros Hh x Hx. eapply held_ok_pool; [|by apply Hh].
  apply H. by apply list_elem_of_fmap_2.
Qed.

Lemma held_notin r q fr fl i :
  mq_inv r q fr fl -> i ∈ fl -> (i ∉ q) /\ (i ∉ fr).
Proof.
  intros H Hi. pose proof (mq_inv_nodup _ _ _ _ H) as Hnd.
  apply NoDup_app in Hnd as (_ & Hq & Hnd). apply NoDup_app in Hnd as (_ & Hf & _).
  split; intros Hin; [apply (Hq i Hin)|apply (Hf i Hin)]; [apply elem_of_app; by right|done].
Qed.

Lemma map_fst_split (h1 h2 : list (nat * phase)) i p :
  map fst (h1 ++ (i, p) :: h2) ≡ₚ i :: map fst (h1 ++ h2).
Proof. rewrite !map_app. simpl. symmetry. apply Permutation_middle. Qed.

(** A slot held once is not held again. *)
Lemma held_nodup r q fr (h1 h2 : list (nat * phase)) i p :
  mq_inv r q fr (map fst (h1 ++ (i, p) :: h2)) -> i ∉ map fst (h1 ++ h2).
Proof.
  intros H. pose proof (mq_inv_nodup _ _ _ _ (mq_inv_perm _ _ _ _ _ (map_fst_split h1 h2 i p) H)) as Hnd.
  apply NoDup_app in Hnd as (_ & _ & Hnd). apply NoDup_app in Hnd as (_ & _ & Hnd).
  by apply NoDup_cons in Hnd as [? _].
Qed.

Lemma Forall_split r (h1 h2 : list (nat * phase)) x :
  Forall (held_ok r) (h1 ++ x :: h2) <-> held_ok r x /\ Forall (held_ok r) (h1 ++ h2).
Proof. rewrite !Forall_app, Forall_cons. tauto. Qed.

(** A section that changes the held slot [i] only. *)
Lemma copy_inv r h1 h2 ms i p (f : rt_mq_message -> rt_mq_message) :
  mqs_inv (mk_mqs r (h1 ++ (i, Reserved) :: h2) ms) -> held_ok (upd_msg i f r) (i, p) ->
  mqs_inv (mk_mqs (upd_msg i f r) (h1 ++ (i, p) :: h2) ms).
Proof.
  intros (q & fr & H & Hm & Hh) Hp. simpl in *. pose proof (held_nodup _ _ _ _ _ _ _ H) as Hn.
  destruct (mq_upd_inv r q fr i _ f (mq_inv_perm _ _ _ _ _ (map_fst_split h1 h2 i Reserved) H)) as [H' Hm'].
  exists q, fr. simpl. split; [|split].
  - eapply mq_inv_perm; [|exact H']. symmetry. apply map_fst_split.
  - by rewrite Hm'.
  - apply Forall_split. split; [done|]. apply Forall_split in Hh as [_ Hh].
    eapply held_pool; [|exact Hh]. intros j Hj. simpl. by rewrite fupd_ne by congruence.
Qed.

Lemma append_pool r i j : Some j <> mq_tail r -> mq_pool (mq_append i r) j = mq_pool r j.
Proof.
  intros Hj. unfold mq_append. destruct (mq_tail r) as [x|]; simpl; destruct (mq_head r); simpl;
    rewrite ?fupd_ne by congruence; done.
Qed.

Lemma push_pool r i j : j <> i -> mq_pool (mq_push i r) j = mq_pool r j.
Proof. intros Hj. unfold mq_push. simpl. by destruct (mq_tail r); simpl; rewrite fupd_ne. Qed.

Lemma count_pool r r' : mq_count r = Some r' -> mq_pool r' = mq_pool r.
Proof. unfold mq_count. case_bool; [by intros [= <-]|done]. Qed.

Lemma unlink_pool i r : mq_pool (mq_uncount (mq_unlink i r)) = mq_pool r.
Proof. unfold mq_uncount, mq_unlink. case_decide; simpl; by case_bool. Qed.

Lemma flush_pool q : forall fuel r r' j,
  mchain (mq_pool r) (mq_head r) q -> NoDup q -> mq_flush fuel r = Some r' -> j ∉ q ->
  mq_pool r' j = mq_pool r j.
Proof.
  induction q as [|i q IH]; intros fuel r r' j Hc Hnd Hf Hj.
  - destruct fuel; simpl in *; rewrite Hc in Hf; by injection Hf as <-.
  - destruct Hc as [E Hc]. apply NoDup_cons in Hnd as [Hi Hnd]. apply not_elem_of_cons in Hj as [Hj1 Hj2].
    assert (Hpool : mq_pool (mq_unlink i r) = mq_pool r) by (unfold mq_unlink; by case_decide).
    assert (Hhd : mq_head (mq_unlink i r) = msg_next (mq_pool r i)) by (unfold mq_unlink; by case_decide).
    destruct fuel as [|fuel]; simpl in Hf; rewrite E in Hf; [done|].
    rewrite (IH _ _ _ _) with (2 := Hnd) (3 := Hf) (4 := Hj2).
    + simpl. by rewrite fupd_ne, Hpool.
    + simpl. rewrite Hpool, Hhd. by apply mchain_upd.
Qed.

(** ** Every step keeps the invariant *)

Lemma append_step_inv r r' h1 h2 ms i buffer :
  mq_count (mq_append i r) = Some r' ->
  mqs_inv (mk_mqs r (h1 ++ (i, Queued buffer) :: h2) ms) -> mqs_inv (mk_mqs r' (h1 ++ h2) (ms ++ [buffer])).
Proof.
  intros Hcnt (q & fr & H & Hm & Hh). simpl in *. apply Forall_split in Hh as [(Hb & Hfl & Hnx) Hh].
  apply (mq_inv_perm _ _ _ _ _ (map_fst_split h1 h2 i (Queued buffer))) in H.
  destruct (mq_append_inv r q fr i _ H Hfl Hnx) as (r2 & E & H' & Hm').
  assert (r2 = r') as -> by congruence. exists (q ++ [i]), fr. simpl. split; [done|].
  split; [by rewrite Hm', Hm, Hb|]. eapply held_pool; [|exact Hh]. intros j Hj.
  rewrite (count_pool _ _ Hcnt). apply append_pool. rewrite (mi_tail _ _ _ _ H). intros Hlast.
  destruct (held_notin _ _ _ _ j H) as [Hq _]; [by right|]. apply Hq.
  symmetry in Hlast. by apply last_Some_elem_of in Hlast.
Qed.

Lemma push_step_inv r r' h1 h2 ms i buffer :
  mq_count (mq_push i r) = Some r' ->
  mqs_inv (mk_mqs r (h1 ++ (i, Front buffer) :: h2) ms) -> mqs_inv (mk_mqs r' (h1 ++ h2) (buffer :: ms)).
Proof.
  intros Hcnt (q & fr & H & Hm & Hh). simpl in *. apply Forall_split in Hh as [(Hb & Hfl) Hh].
  pose proof (held_nodup _ _ _ _ _ _ _ H) as Hn.
  apply (mq_inv_perm _ _ _ _ _ (map_fst_split h1 h2 i (Front buffer))) in H.
  destruct (mq_push_inv r q fr i _ H Hfl) as (r2 & E & H' & Hm').
  assert (r2 = r') as -> by congruence. exists (i :: q), fr. cbn [s_mq s_held s_msgs]. split; [done|].
  split; [by rewrite Hm', Hm, Hb|]. eapply held_pool; [|exact Hh]. intros j Hj.
  rewrite (count_pool _ _ Hcnt). apply push_pool. congruence.
Qed.

Lemma give_back_step_inv r h1 h2 ms i msg :
  mqs_inv (mk_mqs r (h1 ++ (i, Taken msg) :: h2) ms) -> mqs_inv (mk_mqs (mq_give_back i r) (h1 ++ h2) ms).
Proof.
  intros (q & fr & H & Hm & Hh). simpl in *. apply Forall_split in Hh as [_ Hh].
  pose proof (held_nodup _ _ _ _ _ _ _ H) as Hn.
  apply (mq_inv_perm _ _ _ _ _ (map_fst_split h1 h2 i (Taken msg))) in H.
  destruct (mq_give_back_inv r q fr i _ H) as [H' Hm']. exists q, (i :: fr). simpl.
  split; [done|]. split; [by rewrite Hm'|]. eapply held_pool; [|exact Hh]. intros j Hj.
  simpl. by rewrite fupd_ne by congruence.
Qed.

Lemma unlink_step_inv r h msg ms i :
  mq_head r = Some i -> mqs_inv (mk_mqs r h (msg :: ms)) ->
  mqs_inv (mk_mqs (mq_uncount (mq_unlink i r)) ((i, Taken msg) :: h) ms).
Proof.
  intros Hhd (q & fr & H & Hm & Hh). simpl in *. destruct q as [|x q]; [done|].
  destruct (mi_queue _ _ _ _ H) as [Hx _]. assert (x = i) as -> by congruence.
  destruct (mq_unlink_inv _ _ _ _ _ H) as [H' Hm']. injection Hm as Hm1 Hm2.
  exists q, fr. simpl. split; [done|]. split; [by rewrite Hm'|].
  apply Forall_cons. split; [simpl; unfold message; rewrite unlink_pool; exact Hm1|].
  eapply held_pool; [|exact Hh]. intros j _. by rewrite unlink_pool.
Qed.

Lemma reset_step_inv r r' h ms :
  mq_flush (Z.to_nat (mq_max_msgs r)) r = Some r' -> mqs_inv (mk_mqs r h ms) ->
  mqs_inv (mk_mqs (set_mq_entry 0 r') h []).
Proof.
  intros Hf (q & fr & H & Hm & Hh). simpl in *.
  pose proof (mq_inv_nodup _ _ _ _ H) as Hnd. apply NoDup_app in Hnd as (Hndq & _ & _).
  assert (Hlen : (length q <= Z.to_nat (mq_max_msgs r))%nat).
  { pose proof (Permutation_length (mi_slots _ _ _ _ H)) as Hl. rewrite length_app, length_seq in Hl. lia. }
  destruct (mq_flush_inv q _ r fr _ H Hlen) as (r2 & E & H'). assert (r2 = r') as -> by congruence.
  exists [], (rev q ++ fr). simpl. split; [done|]. split; [done|]. eapply held_pool; [|exact Hh].
  intros j Hj. simpl. eapply flush_pool; [apply H|done|exact Hf|].
  by destruct (held_notin _ _ _ _ j H Hj).
Qed.

Lemma mq_step_inv s s' : mq_step s s' -> mqs_inv s -> mqs_inv s'.
Proof.
  intros St. destruct St as [r h ms i Hf|r h1 h2 ms i b|r h1 h2 ms i b|r r' h1 h2 ms i b Hc
    |r r' h1 h2 ms i b Hc|r h msg ms i He Hhd|r h1 h2 ms i msg|r r' h ms Hf]; intros Hs.
  - destruct Hs as (q & fr & H & Hm & Hh). destruct fr as [|x fr]; [pose proof (mi_free _ _ _ _ H); simpl in *; congruence|].
    destruct (mi_free _ _ _ _ H) as [Hx _]. simpl in Hx. assert (x = i) as -> by congruence.
    exists q, fr. simpl. split; [by apply mq_reserve_inv|]. split; [done|].
    apply Forall_cons. split; [done|]. by eapply held_pool; [|exact Hh].
  - unfold mq_fill, mq_no_next. destruct (message_fill (mq_no_next i r) i b) as [H1 H2].
    eapply copy_inv; [apply (copy_inv _ _ _ _ _ Reserved); [exact Hs|done]|].
    split; [exact H1|]. split; [exact H2|]. simpl. by rewrite !fupd_eq.
  - apply (copy_inv _ _ _ _ _ (Front b)); [exact Hs|]. apply message_fill.
  - by eapply append_step_inv.
  - by eapply push_step_inv.
  - by apply unlink_step_inv.
  - by eapply give_back_step_inv.
  - by eapply reset_step_inv.
Qed.

Lemma mq_reachable_inv r0 s :
  0 <= mq_max_msgs r0 <= RT_MQ_ENTRY_MAX ->
  rtc mq_step (mk_mqs (mq_reset_slots r0) [] []) s -> mqs_inv s.
Proof.
  intros Hm Hr. assert (Hi : mqs_inv (mk_mqs (mq_reset_slots r0) [] [])).
  { eexists [], _. simpl. split; [by apply mq_reset_slots_inv|]. split; [done|constructor]. }
  clear Hm. induction Hr as [|x y z St _ IH]; [done|]. apply IH. by eapply mq_step_inv.
Qed.

(** C14: in every interleaving of senders, urgent senders, receivers and resets,
    each of whose atomic sections may be separated by those of other threads: the
    queued, free and held slots are always a partition of the pool, the links and
    the counter agree with it, the queue holds exactly the messages sent and not
    yet received, in order (urgent ones first), and a thread copying a message out
    of its slot sees the message it took. *)
Theorem mq_interleavings_safe r0 s :
  0 <= mq_max_msgs r0 <= RT_MQ_ENTRY_MAX ->
  rtc mq_step (mk_mqs (mq_reset_slots r0) [] []) s ->
  exists q fr, mq_inv (s_mq s) q fr (map fst (s_held s)) /\ mq_msgs (s_mq s) q = s_msgs s /\
    forall i msg, (i, Taken msg) ∈ s_held s -> message (s_mq s) i = msg.
Proof.
  intros Hm Hr. destruct (mq_reachable_inv r0 s Hm Hr) as (q & fr & H1 & H2 & H3). exists q, fr. split; [done|]. split; [done|].
  intros i msg Hin. rewrite Forall_forall in H3. exact (H3 _ Hin).
Qed.

(** in every such interleaving no guard of the code stands in the way: the
    counter never overflows when a message is linked, and a receiver that finds the
    counter positive finds a message. *)
Lemma mq_sections_enabled r0 s :
  0 <= mq_max_msgs r0 <= RT_MQ_ENTRY_MAX ->
  rtc mq_step (mk_mqs (mq_reset_slots r0) [] []) s ->
  (forall h1 h2 i buffer, s_held s = h1 ++ (i, Queued buffer) :: h2 ->
     exists r', mq_count (mq_append i (s_mq s)) = Some r') /\
  (mq_entry (s_mq s) <> 0 -> exists i msg ms, mq_head (s_mq s) = Some i /\ s_msgs s = msg :: ms) /\
  exists r', mq_flush (Z.to_nat (mq_max_msgs (s_mq s))) (s_mq s) = Some r'.
Proof.
  intros Hm Hr. destruct (mq_reachable_inv r0 s Hm Hr) as (q & fr & H1 & H2 & H3). split; [|split].
  - intros h1 h2 i b Hh. rewrite Hh in H1, H3. apply Forall_split in H3 as [(Hb & Hf & Hn) _].
    apply (mq_inv_perm _ _ _ _ _ (map_fst_split h1 h2 i (Queued b))) in H1.
    destruct (mq_append_inv _ _ _ _ _ H1 Hf Hn) as (r' & E & _). by exists r'.
  - intros He. rewrite (mi_entry _ _ _ _ H1) in He. destruct q as [|i q]; [done|].
    destruct (mi_queue _ _ _ _ H1) as [E _]. rewrite <- H2. by eexists i, _, _.
  - destruct (mq_flush_inv q (Z.to_nat (mq_max_msgs (s_mq s))) _ _ _ H1) as (r' & E & _); [|by exists r'].
    pose proof (Permutation_length (mi_slots _ _ _ _ H1)) as Hl. rewrite length_app, length_seq in Hl. lia.
Qed.

(** Two senders and a receiver on a queue of two slots: both senders reserve before
    either links, the second one links first, and the receiver takes its message. *)
Definition mq2 : rt_messagequeue := mk_mq 0 (fun _ => msg0) 4 2 0 None None None.
Definition mq2_sends : rt_messagequeue :=
  mq_fill 0 [7; 7] (mq_no_next 0 (mq_reserve 0 (mq_reserve 1 (mq_reset_slots mq2)))).
Definition mq2_linked : rt_messagequeue := default mq2 (mq_count (mq_append 0 mq2_sends)).
Definition mq2_end : mqs :=
  mk_mqs (mq_uncount (mq_unlink 0 mq2_linked)) [(0%nat, Taken [7; 7]); (1%nat, Reserved)] [].

Lemma mq_count_default d r : (mq_entry r <? RT_MQ_ENTRY_MAX) = true -> mq_count r = Some (default d (mq_count r)).
Proof. unfold mq_count. by intros ->. Qed.

Lemma mq2_reachable : rtc mq_step (mk_mqs (mq_reset_slots mq2) [] []) mq2_end.
Proof.
  eapply rtc_l; [by apply (st_reserve _ _ _ 1)|]. eapply rtc_l; [by apply (st_reserve _ _ _ 0)|].
  eapply rtc_l; [apply (st_copy _ [] [(1%nat, Reserved)] _ 0 [7; 7])|].
  eapply rtc_l; [apply (st_append mq2_sends mq2_linked [] [(1%nat, Reserved)] [] 0 [7; 7]);
    apply mq_count_default; vm_compute; reflexivity|].
  eapply rtc_l; [apply (st_unlink mq2_linked [(1%nat, Reserved)] [7; 7] [] 0); vm_compute; done|].
  apply rtc_refl.
Qed.

Lemma mq_interleavings_safe_witness :
  exists q fr, mq_inv (s_mq mq2_end) q fr [0%nat; 1%nat] /\ mq_msgs (s_mq mq2_end) q = [] /\
    forall i msg, (i, Taken msg) ∈ s_held mq2_end -> message (s_mq mq2_end) i = msg.
Proof. apply (mq_interleavings_safe mq2 mq2_end); [done|apply mq2_reachable]. Defined.

Lemma mq_sections_enabled_witness :
  (forall h1 h2 i buffer, s_held mq2_end = h1 ++ (i, Queued buffer) :: h2 ->
     exists r', mq_count (mq_append i (s_mq mq2_end)) = Some r') /\
  (mq_entry (s_mq mq2_end) <> 0 ->
     exists i msg ms, mq_head (s_mq mq2_end) = Some i /\ s_msgs mq2_end = msg :: ms) /\
  exists r', mq_flush 2 (s_mq mq2_end) = Some r'.
Proof. apply (mq_sections_enabled mq2 mq2_end); [done|apply mq2_reachable]. Defined.
