(* ===== verification/MsgQueueProp.v ===== *)
(** Message queues as bounded queues of byte strings: what [rt_mq_send_wait],
    [rt_mq_urgent] and [rt_mq_recv] (src/ipc.c) do to the kernel when no other thread
    runs between their atomic sections (MsgQueueSteps treats the interleavings). *)
From S2P Require Import Prelude KState SchedUp Object TimerCore SchedComm SuspList Sem Timer Thread Demo SemTake IpcWait MsgQueue.
#[local] Open Scope Z_scope.

(** The abstract queue: room for [c_room] more messages. *)
Record amq := mk_amq { c_room : nat; c_msgs : list (list Z); c_receivers : list tid; c_senders : list tid }.

(** The kernel implements the abstract queue, with [fl] slots held by threads that
    are between two sections. *)
Definition mq_abs (m : oid) (fl : list nat) (k : kernel) (a : amq) : Prop :=
  exists q fr, mq_inv (k_mq k m) q fr fl /\ length fr = c_room a /\ mq_msgs (k_mq k m) q = c_msgs a /\
    k_list k (LSusp (OMsgQueue m)) = c_receivers a /\ k_list k (LSender (OMsgQueue m)) = c_senders a.

Definition amq_send (enq : list tid -> list tid) (msg_size timeout : Z) (msg : list Z) (a : amq)
    : option Z * amq :=
  if msg_size <? Z.of_nat (length msg) then (Some (- RT_ERROR), a) else
  match c_room a with
  | S n => (Some RT_EOK, mk_amq n (c_msgs a ++ [msg]) (tail (c_receivers a)) (c_senders a))
  | O => if timeout =? 0 then (Some (- RT_EFULL), a)
         else (None, mk_amq 0 (c_msgs a) (c_receivers a) (enq (c_senders a)))
  end.

Definition amq_urgent (msg_size : Z) (msg : list Z) (a : amq) : Z * amq :=
  if msg_size <? Z.of_nat (length msg) then (- RT_ERROR, a) else
  match c_room a with
  | S n => (RT_EOK, mk_amq n (msg :: c_msgs a) (tail (c_receivers a)) (c_senders a))
  | O => (- RT_EFULL, a)
  end.

(** At most [size] bytes of the oldest message. *)
Definition amq_recv (enq : list tid -> list tid) (size timeout : Z) (a : amq)
    : option (Z * option (list Z)) * amq :=
  match c_msgs a with
  | msg :: rest =>
      let bytes := take (Z.to_nat size) msg in
      (Some (Z.of_nat (length bytes), Some bytes),
       mk_amq (S (c_room a)) rest (c_receivers a) (tail (c_senders a)))
  | [] => if timeout =? 0 then (Some (- RT_ETIMEOUT, None), a)
          else (None, mk_amq (c_room a) [] (enq (c_receivers a)) (c_senders a))
  end.

Lemma upd_mq_wp Q m f k :
  Q tt (set_k_mq (fupd m (f (k_mq k m)) (k_mq k)) k) -> wp (upd_mq m f) Q k.
Proof. done. Qed.

Lemma kinv_set_mq g k : kinv k -> kinv (set_k_mq g k).
Proof. intros Hk. by eapply kinv_ext; [..|apply Hk|exact Hk]. Qed.

(** What a completed operation leaves: the new queue and the wake-up. *)
Record mq_after (m : oid) (l : lid) (r : rt_messagequeue) (k k' : kernel) : Prop := mk_mq_after {
  ma_mq : k_mq k' m = r;
  ma_list : forall l', is_wait l' ->
    k_list k' l' = if decide (l' = l) then tail (k_list k l) else k_list k l';
  ma_served : served l k k'
}.

Lemma mq_after_woke m l g k k1 k' :
  kinv k1 -> unlocked k k1 -> is_wait l -> woke_first l (set_k_mq g k1) k' -> mq_after m l (g m) k k'.
Proof.
  intros Hk1 U Hw W. assert (Hsame : forall l', is_wait l' -> k_list k1 l' = k_list k l').
  { intros l' Hw'. apply (sf_list _ _ (un_frame _ _ U)). by intros p ->. }
  split.
  - by rewrite (f_equal k_mq (woke_first_obj _ _ _ W) : k_mq k' = g).
  - intros l' Hw'. rewrite (woke_first_list l (set_k_mq g k1) k' l' (kinv_set_mq _ _ Hk1) W Hw Hw').
    simpl. by rewrite !Hsame.
  - intros t Ht. apply (woke_first_served _ _ _ W t). simpl. by rewrite Hsame.
Qed.

(** The end of a send: counting and waking. *)
Lemma mq_announce_wp m g k r :
  kinv k -> can_sched k -> mq_count (g m) = Some r ->
  wp (mq_announce m) (fun ret k' => ret = RT_EOK /\ kinv k' /\ exists g', g' m = r /\
    woke_first (LSusp (OMsgQueue m)) (set_k_mq g' k) k') (set_k_mq g (lock1 k)).
Proof.
  intros Hk Hc Hr. unfold mq_announce, mq, upd_mq. do 2 wp_step. simpl. rewrite Hr. do 3 wp_step. simpl.
  set (g' := fupd m r g). change (set_k_mq g' _) with (lock1 (set_k_mq g' k)).
  eapply wp_mono; [apply wake_first_wp; [by apply kinv_set_mq|done|done]|].
  intros _ k' [Hk' W]. wp_step. split; [done|]. split; [done|]. exists g'.
  split; [by unfold g'; rewrite fupd_eq|done].
Qed.

(** Unlock and lock again, with an update of the queue before and after. *)
Lemma mq_relock_wp {A} m g f (prog : K A) Q k :
  kinv k ->
  (forall k1 g', kinv k1 -> unlocked (set_k_mq g k) k1 -> g' m = f (g m) ->
     wp prog Q (set_k_mq g' (lock1 k1))) ->
  wp (rt_spin_unlock_irqrestore;; upd_mq m f;; rt_spin_lock_irqsave;; prog) Q (set_k_mq g (lock1 k)).
Proof.
  intros Hk HQ. wp_step. change (set_k_mq g (lock1 k)) with (lock1 (set_k_mq g k)).
  apply unlock_plain_wp; [by apply kinv_set_mq|]. intros k1 Hk1 U. unfold upd_mq. do 3 wp_step.
  apply spin_lock_wp.
  assert (Hg : k_mq k1 = g) by exact (f_equal k_mq (sf_rest _ _ (un_frame _ _ U))).
  set (g' := fupd m (f (k_mq k1 m)) (k_mq k1)). change (lock1 (set_k_mq g' k1)) with (set_k_mq g' (lock1 k1)).
  apply HQ; [done|done|]. unfold g'. by rewrite fupd_eq, Hg.
Qed.

Lemma mq_put_wp k m i q fr fl buffer :
  kinv k -> can_sched k -> mq_inv (k_mq k m) q (i :: fr) fl ->
  wp (mq_put m i buffer) (fun ret k' => ret = RT_EOK /\ kinv k' /\ exists r,
    mq_inv r (q ++ [i]) fr fl /\ mq_msgs r (q ++ [i]) = mq_msgs (k_mq k m) q ++ [buffer] /\
    mq_after m (LSusp (OMsgQueue m)) r k k') (lock1 k).
Proof.
  intros Hk Hc Hi. unfold mq_put. wp_step. apply upd_mq_wp.
  change (set_k_mq _ (lock1 k)) with (set_k_mq (fupd m (mq_reserve i (k_mq k m)) (k_mq k)) (lock1 k)).
  apply mq_relock_wp; [done|]. intros k1 g1 Hk1 U Hg1. rewrite fupd_eq in Hg1.
  unfold upd_mq. do 2 wp_step. simpl.
  pose proof (mq_reserve_inv _ _ _ _ _ Hi) as H1. set (r1 := mq_reserve i (k_mq k m)) in *.
  destruct (mq_upd_inv _ _ _ _ _ (set_msg_next None) H1) as [H2 M2]. fold (mq_no_next i r1) in H2, M2.
  destruct (mq_upd_inv _ _ _ _ _ (fun ms => set_msg_data (copy_into (msg_data ms) buffer)
    (set_msg_length (Z.of_nat (length buffer)) ms)) H2) as [H3 M3].
  fold (mq_fill i buffer (mq_no_next i r1)) in H3, M3. rewrite <- Hg1 in H3, M3.
  destruct (message_fill (mq_no_next i r1) i buffer) as [Hms Hfl]. rewrite <- Hg1 in Hms, Hfl.
  destruct (mq_append_inv _ _ _ _ _ H3 Hfl) as (r & Hcnt & H4 & M4).
  { rewrite Hg1. simpl. by rewrite !fupd_eq. }
  assert (Hc1 : can_sched k1) by (by eapply unlocked_sched; [exact U|]).
  eapply wp_mono; [apply (mq_announce_wp m _ k1 r); [done|done|by rewrite fupd_eq]|].
  intros ret k' (-> & Hk' & g' & <- & W). split; [done|]. split; [done|]. exists (g' m).
  split; [done|]. split; [by rewrite M4, Hms, M3, M2|].
  destruct (mq_after_woke m (LSusp (OMsgQueue m)) g' _ k1 k' Hk1 U I W) as [A B C]. by split.
Qed.

Lemma mq_push_front_wp k m i q fr fl buffer :
  kinv k -> can_sched k -> mq_inv (k_mq k m) q (i :: fr) fl ->
  wp (upd_mq m (mq_reserve i);; rt_spin_unlock_irqrestore;; upd_mq m (mq_fill i buffer);;
      rt_spin_lock_irqsave;; upd_mq m (mq_push i);; mq_announce m)
    (fun ret k' => ret = RT_EOK /\ kinv k' /\ exists r,
      mq_inv r (i :: q) fr fl /\ mq_msgs r (i :: q) = buffer :: mq_msgs (k_mq k m) q /\
      mq_after m (LSusp (OMsgQueue m)) r k k') (lock1 k).
Proof.
  intros Hk Hc Hi. wp_step. apply upd_mq_wp.
  change (set_k_mq _ (lock1 k)) with (set_k_mq (fupd m (mq_reserve i (k_mq k m)) (k_mq k)) (lock1 k)).
  apply mq_relock_wp; [done|]. intros k1 g1 Hk1 U Hg1. rewrite fupd_eq in Hg1.
  unfold upd_mq. do 2 wp_step. simpl.
  pose proof (mq_reserve_inv _ _ _ _ _ Hi) as H1. set (r1 := mq_reserve i (k_mq k m)) in *.
  destruct (mq_upd_inv _ _ _ _ _ (fun ms => set_msg_data (copy_into (msg_data ms) buffer)
    (set_msg_length (Z.of_nat (length buffer)) ms)) H1) as [H3 M3].
  fold (mq_fill i buffer r1) in H3, M3. rewrite <- Hg1 in H3, M3.
  destruct (message_fill r1 i buffer) as [Hms Hfl]. rewrite <- Hg1 in Hms, Hfl.
  destruct (mq_push_inv _ _ _ _ _ H3 Hfl) as (r & Hcnt & H4 & M4).
  assert (Hc1 : can_sched k1) by (by eapply unlocked_sched; [exact U|]).
  eapply wp_mono; [apply (mq_announce_wp m _ k1 r); [done|done|by rewrite fupd_eq]|].
  intros ret k' (-> & Hk' & g' & <- & W). split; [done|]. split; [done|]. exists (g' m).
  split; [done|]. split; [etransitivity; [exact M4|]; by rewrite Hms, M3|].
  destruct (mq_after_woke m (LSusp (OMsgQueue m)) g' _ k1 k' Hk1 U I W) as [A B C]. by split.
Qed.

Lemma mq_get_wp k m i q fr fl size :
  kinv k -> can_sched k -> mq_inv (k_mq k m) (i :: q) fr fl ->
  let msg := take (Z.to_nat size) (message (k_mq k m) i) in
  0 <= size ->
  wp (mq_get m size) (fun ret k' => ret = (Z.of_nat (length msg), Some msg) /\ kinv k' /\ exists r,
    mq_inv r q (i :: fr) fl /\ mq_msgs r q = mq_msgs (k_mq k m) q /\
    mq_after m (LSender (OMsgQueue m)) r k k') (lock1 k).
Proof.
  intros Hk Hc Hi msg Hsz. unfold mq_get, mq, upd_mq. do 3 wp_step. simpl.
  destruct (mi_queue _ _ _ _ Hi) as [Hh _]. eapply wp_deref; [exact Hh|]. do 3 wp_step. simpl.
  destruct (mq_unlink_inv _ _ _ _ _ Hi) as [H1 M1]. set (r1 := mq_uncount (mq_unlink i (k_mq k m))) in *.
  set (g := fupd m r1 (k_mq k)). change (set_k_mq g _) with (lock1 (set_k_mq g k)).
  apply unlock_plain_wp; [by apply kinv_set_mq|]. intros k1 Hk1 U. do 3 wp_step.
  assert (Hg : k_mq k1 = g) by exact (f_equal k_mq (sf_rest _ _ (un_frame _ _ U))).
  apply spin_lock_wp. do 2 wp_step.
  set (g2 := fupd m (mq_give_back i (k_mq (lock1 k1) m)) (k_mq (lock1 k1))).
  change (set_k_mq g2 _) with (lock1 (set_k_mq g2 k1)). wp_step.
  eapply wp_mono; [apply wake_first_wp; [by apply kinv_set_mq| |done]|].
  { exact (unlocked_sched (set_k_mq g k) k1 U Hc). }
  intros _ k' [Hk' W]. wp_step.
  assert (Hr1 : k_mq k1 m = r1) by (rewrite Hg; unfold g; by rewrite fupd_eq).
  destruct (mq_give_back_inv _ _ _ _ _ H1) as [H2 M2].
  split; [|split; [done|]].
  - rewrite Hr1. assert (Hp : mq_pool r1 i = mq_pool (k_mq k m) i)
      by (unfold r1, mq_uncount, mq_unlink; case_decide; simpl; by case_bool).
    rewrite Hp. pose proof (mi_msgs _ _ _ _ Hi i ltac:(left)) as Hb. unfold msg, message.
    rewrite take_take, length_take. case_bool; repeat f_equal; lia.
  - exists (g2 m). assert (Hg2 : g2 m = mq_give_back i r1) by (unfold g2; rewrite fupd_eq; simpl; by rewrite Hr1).
    rewrite Hg2. split; [done|]. split; [by rewrite M2, M1|]. rewrite <- Hg2.
    destruct (mq_after_woke m (LSender (OMsgQueue m)) g2 _ k1 k' Hk1 U I W) as [A B C]. by split.
Qed.

(** ** The theorems *)

Lemma mq_abs_unlocked m fl k k' a : unlocked k k' -> mq_abs m fl k a -> mq_abs m fl k' a.
Proof.
  intros U. pose proof (un_frame _ _ U) as F.
  assert (Hg : k_mq k' = k_mq k) by exact (f_equal k_mq (sf_rest _ _ F)).
  unfold mq_abs. by rewrite Hg, !(sf_list _ _ F).
Qed.

Lemma mq_abs_slept m fl l flag sf timeout t e k k' a :
  is_wait l -> went_to_sleep l flag sf timeout t (put_error t e k) k' -> mq_abs m fl k a ->
  let f l' := if decide (l' = l) then enqueue flag (fun x => t_cur_prio (k_thr k x)) t (k_list k l)
              else k_list k l' in
  mq_abs m fl k' (mk_amq (c_room a) (c_msgs a) (f (LSusp (OMsgQueue m))) (f (LSender (OMsgQueue m)))).
Proof.
  intros Hw S (q & fr & H1 & H2 & H3 & H4 & H5) f.
  assert (Hm : k_mq k' = k_mq k) by exact (f_equal k_mq (slept_kobj _ _ _ _ _ _ _ S)).
  exists q, fr. rewrite Hm. do 3 (split; [done|]).
  by split; apply (slept_lists l flag sf timeout t e k k').
Qed.

Section calls.
Context (k : kernel) (m : oid) (t : tid) (timeout : Z) (sf : suspend_flag) (fl : list nat) (a : amq).
Hypothesis (Hk : kinv k) (Hc : can_sched k) (Ha : mq_abs m fl k a).
Hypothesis (Hcall : timeout <> 0 -> callable k t).
Hypothesis (Hflag : ipc_flag_ok (mq_flag (k_mq k m)) = true) (Hto : timeout < tick_half).
Hypothesis (Hty : typed k (OMsgQueue m) RT_Object_Class_MessageQueue).

Let enq := enqueue (mq_flag (k_mq k m)) (fun x => t_cur_prio (k_thr k x)) t.

(** A turn of a waiting loop. *)
Lemma mq_wait_wp {A} l (expired : tid -> K A) ret delta self :
  is_wait l -> timeout <> 0 -> self = Some t ->
  wp (wait_turn self l (mq_flag (k_mq k m)) sf timeout delta expired ret)
    (fun r k' => finished r = None /\ kinv k' /\
       mq_abs m fl k' (mk_amq (c_room a) (c_msgs a)
         (if decide (LSusp (OMsgQueue m) = l) then enq (k_list k l) else c_receivers a)
         (if decide (LSender (OMsgQueue m) = l) then enq (k_list k l) else c_senders a))) (lock1 k).
Proof.
  intros Hw Hz ->. destruct (Hcall Hz) as [C1 C2 C3 C4].
  eapply wp_mono; [by apply wait_turn_wp|]. intros r k' (-> & Hk' & S). split; [done|]. split; [done|].
  pose proof (mq_abs_slept m fl l _ _ _ _ _ k k' a Hw S Ha) as R.
  destruct Ha as (q & fr & _ & _ & _ & E1 & E2). by rewrite <- E1, <- E2.
Qed.

Lemma mq_abs_after l r q fr k' room msgs :
  is_wait l -> mq_after m l r k k' -> mq_inv r q fr fl -> length fr = room -> mq_msgs r q = msgs ->
  mq_abs m fl k' (mk_amq room msgs
    (if decide (LSusp (OMsgQueue m) = l) then tail (k_list k l) else c_receivers a)
    (if decide (LSender (OMsgQueue m) = l) then tail (k_list k l) else c_senders a)).
Proof.
  intros Hw [A1 A2 _] Hi Hl Hm. destruct Ha as (_ & _ & _ & _ & _ & <- & <-).
  exists q, fr. rewrite A1. do 3 (split; [done|]). by split; apply A2.
Qed.

Definition mq_sent (buffer : list Z) (r : wait Z) (k' : kernel) : Prop :=
  kinv k' /\ exists a', (finished r, a') = amq_send enq (mq_msg_size (k_mq k m)) timeout buffer a /\
    mq_abs m fl k' a' /\ (r = Done RT_EOK -> served (LSusp (OMsgQueue m)) k k').

Lemma mq_send_loop_wp buffer self delta :
  Z.of_nat (length buffer) <= mq_msg_size (k_mq k m) -> (timeout <> 0 -> self = Some t) ->
  (c_room a = O -> timeout <> 0) ->
  wp (mq_send_loop m buffer self timeout delta sf) (mq_sent buffer) (lock1 k).
Proof.
  intros Hsz Hs Hz. pose proof Ha as (q & fr & H1 & H2 & H3 & H4 & H5).
  unfold mq_send_loop, mq. do 2 wp_step. simpl. unfold mq_sent, amq_send.
  rewrite (proj2 (Z.ltb_ge _ _)) by lia. destruct fr as [|i fr]; simpl in H2; rewrite <- H2.
  - rewrite (mi_free _ _ _ _ H1 : mq_free _ = None). symmetry in H2. specialize (Hz H2).
    eapply wp_mono; [by apply (mq_wait_wp (LSender (OMsgQueue m)) _ _ _ _ I Hz), Hs|].
    intros r k' (Hr & Hk' & Hab). rewrite Hr. split; [done|]. destruct (Z.eqb_spec timeout 0); [done|].
    eexists. split; [reflexivity|]. rewrite H2, H5 in Hab. repeat case_decide; try done.
    split; [done|]. intros ->. done.
  - destruct (mi_free _ _ _ _ H1) as [Hfree _]. rewrite Hfree. wp_step.
    eapply wp_mono; [by apply (mq_put_wp k m i q fr fl)|].
    intros ? k' (-> & Hk' & r & Hi & Hm & Haf). wp_step. split; [done|].
    pose proof (mq_abs_after (LSusp (OMsgQueue m)) r _ _ k' _ _ I Haf Hi eq_refl Hm) as Hab.
    eexists. split; [reflexivity|]. rewrite H3, H4 in Hab. repeat case_decide; try done.
    split; [done|]. intros _. apply Haf.
Qed.

Definition mq_recvd (size : Z) (r : wait (Z * option (list Z))) (k' : kernel) : Prop :=
  kinv k' /\ exists a', (finished r, a') = amq_recv enq size timeout a /\
    mq_abs m fl k' a' /\ (forall n msg, r = Done (n, Some msg) -> served (LSender (OMsgQueue m)) k k').

Lemma mq_recv_loop_wp size self delta :
  0 <= size -> (timeout <> 0 -> self = Some t) -> (c_msgs a = [] -> timeout <> 0) ->
  wp (mq_recv_loop m size self timeout delta sf) (mq_recvd size) (lock1 k).
Proof.
  intros Hsz Hs Hz. pose proof Ha as (q & fr & H1 & H2 & H3 & H4 & H5).
  unfold mq_recv_loop, mq. do 2 wp_step. simpl. unfold mq_recvd, amq_recv.
  rewrite (mi_entry _ _ _ _ H1). destruct q as [|i q]; simpl in H3; rewrite <- H3.
  - symmetry in H3. specialize (Hz H3). simpl.
    eapply wp_mono; [by apply (mq_wait_wp (LSusp (OMsgQueue m)) _ _ _ _ I Hz), Hs|].
    intros r k' (Hr & Hk' & Hab). rewrite Hr. split; [done|]. destruct (Z.eqb_spec timeout 0); [done|].
    eexists. split; [reflexivity|]. rewrite H3, H4 in Hab. repeat case_decide; try done.
    split; [done|]. intros n0 msg ->. done.
  - destruct (Z.eqb_spec (Z.of_nat (length (i :: q))) 0); [simpl in *; lia|]. wp_step.
    eapply wp_mono; [by apply (mq_get_wp k m i q fr fl)|].
    intros ? k' (-> & Hk' & r & Hi & Hm & Haf). wp_step. split; [done|].
    pose proof (mq_abs_after (LSender (OMsgQueue m)) r _ _ k' _ _ I Haf Hi eq_refl Hm) as Hab.
    eexists. split; [reflexivity|]. simpl in Hab. rewrite H2, H5 in Hab. repeat case_decide; try done.
    split; [done|]. intros _ _ _. apply Haf.
Qed.

Lemma mq_room_free : bool_decide (mq_free (k_mq k m) = None) = bool_decide (c_room a = O).
Proof.
  destruct Ha as (q & fr & H1 & H2 & _). pose proof (mi_free _ _ _ _ H1) as Hf.
  destruct fr as [|i fr]; simpl in *; [by rewrite Hf, <- H2|]. destruct Hf as [-> _].
  rewrite <- H2. by rewrite !bool_decide_false.
Qed.

Lemma mq_entry_empty : (mq_entry (k_mq k m) =? 0) = bool_decide (c_msgs a = []).
Proof.
  destruct Ha as (q & fr & H1 & H2 & H3 & _). rewrite (mi_entry _ _ _ _ H1), <- H3.
  by destruct q.
Qed.

Lemma mq_send_begin_wp buffer : buffer <> [] ->
  wp (_rt_mq_send_wait_begin m buffer timeout sf) (mq_sent buffer) k.
Proof.
  intros Hb. unfold _rt_mq_send_wait_begin, mq, rt_thread_self. wp_step. apply assert_type_wp; [done|].
  do 2 wp_step. { by destruct buffer. }
  wp_step. eapply scheduler_checked_wp; [exact Hcall|]. do 2 wp_step. case_bool.
  { wp_step. split; [done|]. exists a. unfold amq_send. by rewrite (proj2 (Z.ltb_lt _ _)) by lia. }
  do 3 wp_step. apply spin_lock_wp. do 2 wp_step. simpl. rewrite mq_room_free. case_bool.
  - apply bool_decide_eq_true in H. wp_step. apply unlock_plain_wp; [done|]. intros k' Hk' U. wp_step.
    split; [done|]. exists a. split; [|split; [by eapply mq_abs_unlocked|done]].
    unfold amq_send. by rewrite (proj2 (Z.ltb_ge _ _)), H, H0 by lia.
  - apply mq_send_loop_wp; [done|by eapply caller_is_current|]. intros E1 E2.
    rewrite bool_decide_true in E0 by done. by rewrite E2 in E0.
Qed.

Lemma mq_recv_begin_wp size : 0 < size ->
  wp (_rt_mq_recv_begin m size timeout sf) (mq_recvd size) k.
Proof.
  intros Hb. unfold _rt_mq_recv_begin, mq, rt_thread_self. wp_step. apply assert_type_wp; [done|].
  do 2 wp_step. { by destruct (Z.eqb_spec size 0); [lia|]. }
  wp_step. eapply scheduler_checked_wp; [exact Hcall|].
  do 3 wp_step. apply spin_lock_wp. do 2 wp_step. simpl. rewrite mq_entry_empty. case_bool.
  - apply bool_decide_eq_true in H. wp_step. apply unlock_plain_wp; [done|]. intros k' Hk' U. wp_step.
    split; [done|]. exists a. split; [|split; [by eapply mq_abs_unlocked|done]].
    unfold amq_recv. by rewrite H, H0.
  - apply mq_recv_loop_wp; [lia|by eapply caller_is_current|]. intros E1 E2.
    rewrite bool_decide_true in E by done. by rewrite E2 in E.
Qed.
End calls.

(** C15: [rt_mq_send_wait] implements the send of a bounded queue of messages: a
    message longer than the slots is refused; with a free slot it is stored byte
    for byte behind the others, [RT_EOK] is returned and the first waiting receiver
    is made runnable; without one, a zero timeout gives [-RT_EFULL] and any other
    timeout puts the sender to sleep in the queue of senders. *)
Theorem rt_mq_send_refines k m t timeout sf fl a buffer :
  kinv k -> can_sched k -> mq_abs m fl k a -> (timeout <> 0 -> callable k t) ->
  ipc_flag_ok (mq_flag (k_mq k m)) = true -> timeout < tick_half ->
  typed k (OMsgQueue m) RT_Object_Class_MessageQueue -> buffer <> [] ->
  wp (_rt_mq_send_wait_begin m buffer timeout sf) (fun r k' => kinv k' /\ exists a',
    (finished r, a') = amq_send (enqueue (mq_flag (k_mq k m)) (fun x => t_cur_prio (k_thr k x)) t)
      (mq_msg_size (k_mq k m)) timeout buffer a /\
    mq_abs m fl k' a' /\ (r = Done RT_EOK -> served (LSusp (OMsgQueue m)) k k')) k.
Proof. intros. by apply (mq_send_begin_wp k m t timeout sf fl a). Qed.

(** [rt_mq_recv] implements the receive: the oldest message is removed and at
    most [size] of its bytes are returned with their number, the slot is free again
    and the first waiting sender is made runnable; on an empty queue a zero timeout
    gives [-RT_ETIMEOUT] and any other timeout puts the receiver to sleep. *)
Lemma rt_mq_recv_refines k m t timeout sf fl a size :
  kinv k -> can_sched k -> mq_abs m fl k a -> (timeout <> 0 -> callable k t) ->
  ipc_flag_ok (mq_flag (k_mq k m)) = true -> timeout < tick_half ->
  typed k (OMsgQueue m) RT_Object_Class_MessageQueue -> 0 < size ->
  wp (_rt_mq_recv_begin m size timeout sf) (fun r k' => kinv k' /\ exists a',
    (finished r, a') = amq_recv (enqueue (mq_flag (k_mq k m)) (fun x => t_cur_prio (k_thr k x)) t)
      size timeout a /\
    mq_abs m fl k' a' /\ (forall n msg, r = Done (n, Some msg) -> served (LSender (OMsgQueue m)) k k')) k.
Proof. intros. by apply (mq_recv_begin_wp k m t timeout sf fl a). Qed.

(** [rt_mq_urgent] implements the send to the front: the message becomes the next
    one to be received and a waiting receiver is made runnable; it is refused when
    it is too long, and with [-RT_EFULL] when no slot is free. *)
Lemma rt_mq_urgent_refines k m fl a buffer :
  kinv k -> can_sched k -> mq_abs m fl k a ->
  typed k (OMsgQueue m) RT_Object_Class_MessageQueue -> buffer <> [] ->
  wp (rt_mq_urgent m buffer) (fun r k' => kinv k' /\ exists a',
    (r, a') = amq_urgent (mq_msg_size (k_mq k m)) buffer a /\
    mq_abs m fl k' a' /\ (r = RT_EOK -> served (LSusp (OMsgQueue m)) k k')) k.
Proof.
  intros Hk Hc Ha Hty Hb. pose proof Ha as (q & fr & H1 & H2 & H3 & H4 & H5).
  unfold rt_mq_urgent, mq, amq_urgent. wp_step. apply assert_type_wp; [done|].
  do 2 wp_step. { by destruct buffer. }
  do 2 wp_step. case_bool.
  { wp_step. split; [done|]. exists a. done. }
  wp_step. apply spin_lock_wp. do 2 wp_step. simpl. destruct fr as [|i fr]; simpl in H2; rewrite <- H2.
  - rewrite (mi_free _ _ _ _ H1 : mq_free _ = None). wp_step. apply unlock_plain_wp; [done|].
    intros k' Hk' U. wp_step. split; [done|]. exists a. split; [done|].
    split; [by eapply mq_abs_unlocked|done].
  - destruct (mi_free _ _ _ _ H1) as [-> _]. eapply wp_mono; [by apply (mq_push_front_wp k m i q fr fl)|].
    intros ? k' (-> & Hk' & r & Hi & Hm & Haf). split; [done|].
    pose proof (mq_abs_after k m fl a Ha (LSusp (OMsgQueue m)) r _ _ k' _ _ I Haf Hi eq_refl Hm) as Hab.
    eexists. split; [reflexivity|]. rewrite H3, H4 in Hab. repeat case_decide; try done.
    split; [done|]. intros _. apply Haf.
Qed.

(** The sample state with a queue of three slots of four bytes, initialised by
    [rt_mq_init]'s loop. *)
Definition kqueue : kernel :=
  set_k_mq (fupd 1%positive (mq_reset_slots (mk_mq 0 (fun _ => msg0) 4 3 0 None None None)) (k_mq kdemo)) kdemo.

Lemma kqueue_inv : kinv kqueue.
Proof. apply kinv_set_mq, kdemo_inv. Qed.

Lemma kqueue_abs : mq_abs 1 [] kqueue (mk_amq 3 [] [] []).
Proof.
  exists [], [2; 1; 0]%nat. split; [|done].
  by apply (mq_reset_slots_inv (mk_mq 0 (fun _ => msg0) 4 3 0 None None None)).
Qed.

Lemma callable_set_mq g k t : callable k t -> callable (set_k_mq g k) t.
Proof. intros [A [] C D]. by split. Qed.

Lemma can_sched_set_mq g k : can_sched k -> can_sched (set_k_mq g k).
Proof. done. Qed.

Lemma kqueue_callable : callable kqueue 1.
Proof. apply callable_set_mq, kdemo_callable. Qed.

Lemma kqueue_can_sched : can_sched kqueue.
Proof. apply can_sched_set_mq, kdemo_can_sched. Qed.

Lemma rt_mq_send_refines_witness :
  wp (_rt_mq_send_wait_begin 1 [5; 6; 7] 9 RT_UNINTERRUPTIBLE) (fun r k' => kinv k' /\ exists a',
    (finished r, a') = (Some RT_EOK, mk_amq 2 [[5; 6; 7]] [] []) /\
    mq_abs 1 [] k' a' /\ (r = Done RT_EOK -> served (LSusp (OMsgQueue 1)) kqueue k')) kqueue.
Proof.
  by apply (rt_mq_send_refines kqueue 1 1 9 RT_UNINTERRUPTIBLE [] (mk_amq 3 [] [] []) [5; 6; 7]
    kqueue_inv kqueue_can_sched kqueue_abs (fun _ => kqueue_callable)).
Defined.

(** The queue after that call. *)
Definition kqueue1 : kernel := run (_rt_mq_send_wait_begin 1 [5; 6; 7] 9 RT_UNINTERRUPTIBLE) kqueue.

Lemma kqueue1_ok : kinv kqueue1 /\ mq_abs 1 [] kqueue1 (mk_amq 2 [[5; 6; 7]] [] []).
Proof.
  destruct (wp_run _ _ _ (mq_send_begin_wp kqueue 1 1 9 RT_UNINTERRUPTIBLE [] (mk_amq 3 [] [] [])
    kqueue_inv kqueue_can_sched kqueue_abs (fun _ => kqueue_callable) eq_refl eq_refl eq_refl
    [5; 6; 7] ltac:(done))) as (r & Hk & a' & E & Ha & _).
  injection E as _ ->. done.
Qed.

Lemma rt_mq_recv_refines_witness :
  wp (_rt_mq_recv_begin 1 2 0 RT_UNINTERRUPTIBLE) (fun r k' => kinv k' /\ exists a',
    (finished r, a') = (Some (2, Some [5; 6]), mk_amq 3 [] [] []) /\
    mq_abs 1 [] k' a' /\
    (forall n msg, r = Done (n, Some msg) -> served (LSender (OMsgQueue 1)) kqueue1 k')) kqueue1.
Proof.
  apply (rt_mq_recv_refines kqueue1 1 1 0 RT_UNINTERRUPTIBLE [] (mk_amq 2 [[5; 6; 7]] [] []) 2
    (proj1 kqueue1_ok)); [left; by eexists|apply kqueue1_ok|done|vm_compute; done..].
Defined.

Lemma rt_mq_urgent_refines_witness :
  wp (rt_mq_urgent 1 [9]) (fun r k' => kinv k' /\ exists a',
    (r, a') = (RT_EOK, mk_amq 1 [[9]; [5; 6; 7]] [] []) /\
    mq_abs 1 [] k' a' /\ (r = RT_EOK -> served (LSusp (OMsgQueue 1)) kqueue1 k')) kqueue1.
Proof.
  apply (rt_mq_urgent_refines kqueue1 1 [] (mk_amq 2 [[5; 6; 7]] [] []) [9]
    (proj1 kqueue1_ok)); [left; by eexists|apply kqueue1_ok|vm_compute; done..].
Defined.
