(* ===== verification/TimerProp.v ===== *)
(** Properties of timers, src/timer.c: the order of the timer list after a start,
    and which timers one check of the list fires. *)
From stdpp Require Import sorting.
From S2P Require Import Prelude KState SchedUp Object TimerCore SchedComm SuspList Sem Timer Thread Demo.
#[local] Open Scope Z_scope.

Definition ticks (k : kernel) (i : timid) : Z := tm_timeout_tick (k_tim k i).

(** * Starting a timer *)

(** [rt_timer_start] of an application timer in the interrupt list. *)
Lemma user_timer_start_wp k i :
  kwf k -> 0 <= k_lock_nest k -> typed k (OTimer i) RT_Object_Class_Timer ->
  let f := tm_flag (k_tim k i) in
  Z.testbit f 3 = false -> Z.testbit f 4 = false ->
  wp (rt_timer_start i) (fun r k' =>
    if Z.testbit f 1 then r = - RT_ERROR /\ unlocked k k'
    else r = RT_EOK /\ exists k1, started false i k k1 /\ unlocked k1 k') k.
Proof.
  intros Hk Hn Hty f H3 H4. unfold rt_timer_start, assert_timer, tim. wp_step.
  apply assert_type_wp; [done|]. do 3 wp_step. rewrite flag_soft, flag_thread. fold f. rewrite H3, H4.
  do 2 wp_step. apply spin_lock_wp. wp_step. destruct (Z.testbit f 1) eqn:H1.
  - unfold _timer_start, tim. do 2 wp_step. simpl. rewrite flag_processing. fold f. rewrite H1. repeat wp_step. simpl.
    repeat wp_step. apply spin_unlock_wp; [by apply kwf_nest|simpl; lia|]. rewrite unlock1_lock1. intros k' U. by wp_step.
  - eapply wp_mono; [by apply _timer_start_wp|]. intros r k1 [-> S]. do 2 wp_step.
    assert (Hsoft : flag_set (tm_flag (k_tim k1 i)) RT_TIMER_FLAG_SOFT_TIMER = false).
    { rewrite flag_soft, (st_tim _ _ _ _ S). simpl. rewrite or_activated, clear_activated by lia.
      simpl. fold f. by rewrite H3. }
    rewrite Hsoft, andb_false_r. do 3 wp_step.
    apply spin_unlock_wp.
    + eapply started_kwf; [exact S|]. by apply kwf_nest.
    + rewrite (started_nest _ _ _ _ S). simpl. lia.
    + intros k' U. wp_step. split; [done|]. exists (unlock1 k1). split; [|done]. by apply started_unlock1.
Qed.

(** [rt_timer_start] puts the timer at its place in the list: it is active and
    expires [init_tick] ticks from now, the list stays in the order of expiry on the
    32-bit circle of ticks, the timer stands behind every timer that expires at the
    same tick or before and in front of those that expire later, and no other timer
    is touched. *)
Lemma rt_timer_start_order k i b :
  kwf k -> 0 <= k_lock_nest k -> typed k (OTimer i) RT_Object_Class_Timer ->
  let tm := k_tim k i in
  Z.testbit (tm_flag tm) 1 = false -> Z.testbit (tm_flag tm) 3 = false ->
  Z.testbit (tm_flag tm) 4 = false ->
  tsorted b (ticks k) (k_hard k) -> dist b (u32 (k_tick k + tm_init_tick tm)) < tick_half ->
  wp (rt_timer_start i) (fun r k' => r = RT_EOK /\ tsorted b (ticks k') (k_hard k') /\
    Z.testbit (tm_flag (k_tim k' i)) 0 = true /\ ticks k' i = u32 (k_tick k + tm_init_tick tm) /\
    (forall j, j <> i -> k_tim k' j = k_tim k j) /\
    exists l1 l2, filter (fun j => j <> i) (k_hard k) = l1 ++ l2 /\ k_hard k' = l1 ++ i :: l2 /\
      Forall (fun j => dist b (ticks k j) <= dist b (ticks k' i)) l1 /\
      Forall (fun j => dist b (ticks k' i) < dist b (ticks k j)) l2) k.
Proof.
  intros Hk Hn Hty tm H1 H3 H4 Hs Hd. eapply wp_mono; [by apply user_timer_start_wp|].
  intros r k'. fold tm. rewrite H1. intros (-> & k1 & S & U). split; [done|].
  pose proof (sf_rest _ _ (un_frame _ _ U)) as E.
  assert (Etim : k_tim k' = k_tim k1) by exact (f_equal k_tim E).
  assert (Ehard : k_hard k' = k_hard k1) by exact (f_equal k_hard E).
  assert (Hself : ticks k' i = u32 (k_tick k + tm_init_tick tm))
    by (unfold ticks; rewrite Etim, (st_tim _ _ _ _ S); done).
  assert (Hoth : forall j, j <> i -> k_tim k' j = k_tim k j)
    by (intros j Hj; rewrite Etim; by apply (st_other _ _ _ _ S)).
  assert (Hsame : forall j, j ∈ filter (fun j => j <> i) (k_hard k) -> ticks k j = ticks k' j).
  { intros j [Hj _]%list_elem_of_filter. unfold ticks. by rewrite Hoth. }
  assert (Hs' : tsorted b (ticks k') (filter (fun j => j <> i) (k_hard k)))
    by (eapply tsorted_ext; [exact Hsame|by apply tsorted_filter]).
  assert (Hl : k_hard k' = timer_insert (ticks k') i (filter (fun j => j <> i) (k_hard k))).
  { rewrite Ehard, (st_hard _ _ _ _ S). apply timer_insert_ext; [|intros j _]; unfold ticks; by rewrite Etim. }
  rewrite <- Hself in Hd. destruct (timer_insert_split b (ticks k') i _ Hs' Hd) as (l1 & l2 & E1 & E2 & F1 & F2).
  rewrite Hl. split; [by apply timer_insert_sorted|]. split.
  { rewrite Etim, (st_tim _ _ _ _ S). simpl. rewrite or_activated by lia. apply orb_true_r. }
  split; [done|]. split; [done|]. exists l1, l2. split; [done|]. split; [done|].
  rewrite Forall_forall in F1, F2. rewrite !Forall_forall. split; intros j Hj.
  - rewrite (Hsame j) by (rewrite E1; apply elem_of_app; by left). by apply F1.
  - rewrite (Hsame j) by (rewrite E1; apply elem_of_app; by right). by apply F2.
Qed.

Lemma kdemo_hard_sorted : tsorted 40 (ticks kdemo) (k_hard kdemo).
Proof. split; [repeat constructor|]. by repeat constructor. Qed.

(** Timer 3 of the sample state, 25 ticks from tick 40: before the timer at 100. *)
Lemma rt_timer_start_order_witness :
  wp (rt_timer_start 3) (fun r k' => r = RT_EOK /\ tsorted 40 (ticks k') (k_hard k') /\
    Z.testbit (tm_flag (k_tim k' 3%positive)) 0 = true /\ ticks k' 3%positive = 65 /\
    (forall j, j <> 3%positive -> k_tim k' j = k_tim kdemo j) /\
    exists l1 l2, [4%positive] = l1 ++ l2 /\ k_hard k' = l1 ++ 3%positive :: l2 /\
      Forall (fun j => dist 40 (ticks kdemo j) <= dist 40 (ticks k' 3%positive)) l1 /\
      Forall (fun j => dist 40 (ticks k' 3%positive) < dist 40 (ticks kdemo j)) l2) kdemo.
Proof.
  by apply (rt_timer_start_order kdemo 3 40 (ki_wf _ kdemo_inv)); [..|apply kdemo_hard_sorted|].
Defined.

(** * Checking the list *)

(** The test of [_timer_check]. *)
Definition expired (now : Z) (tm : rt_timer) : bool := u32 (now - tm_timeout_tick tm) <? tick_half.

(** On a sorted list the expired timers are the first ones. *)
Lemma expired_dist b now tm :
  dist b now < tick_half -> dist b (tm_timeout_tick tm) < tick_half ->
  expired now tm = (dist b (tm_timeout_tick tm) <=? dist b now).
Proof. intros H1 H2. unfold expired. apply (walk_test b now (tm_timeout_tick tm)); done. Qed.

(** ** The two halves of an expiry *)

(** The flags while the timeout function runs. *)
Definition fire_flags (f : Z) : Z :=
  Z.lor (if Z.testbit f 2 then f else flag_clear f RT_TIMER_FLAG_ACTIVATED) RT_TIMER_FLAG_PROCESSING.

Record fire_begun (i : timid) (k k1 : kernel) : Prop := mk_fire_begun {
  fb_hard : k_hard k1 = tim_unlink i (k_hard k);
  fb_tmp : k_htmp k1 = i :: tim_unlink i (k_htmp k);
  fb_tim : k_tim k1 i = set_tm_flag (fire_flags (tm_flag (k_tim k i))) (k_tim k i);
  fb_other : forall j, j <> i -> k_tim k1 j = k_tim k j;
  fb_rest : ktimless k1 = ktimless k
}.

Lemma fire_begin_wp i k : wp (timer_fire_begin false i) (fun _ k1 => fire_begun i k k1) k.
Proof.
  unfold timer_fire_begin, _timer_remove, tim, upd_tim, tmp_push. do 5 wp_step. simpl.
  rewrite flag_periodic. destruct (Z.testbit (tm_flag (k_tim k i)) 2) eqn:E; cbn [negb]; repeat wp_step;
    (split; simpl; rewrite ?fupd_eq; try done; [unfold fire_flags; by rewrite E|]);
    intros j Hj; by rewrite !fupd_ne.
Qed.

(** After the function of a one-shot timer. *)
Record fire_ended (i : timid) (k k' : kernel) : Prop := mk_fire_ended {
  fe_hard : k_hard k' = tim_unlink i (k_hard k);
  fe_tmp : k_htmp k' = tim_unlink i (k_htmp k);
  fe_tim : k_tim k' i = set_tm_flag (flag_clear (tm_flag (k_tim k i)) RT_TIMER_FLAG_PROCESSING) (k_tim k i);
  fe_other : forall j, j <> i -> k_tim k' j = k_tim k j;
  fe_rest : ktimless k' = ktimless k
}.

Lemma fire_end_wp i k :
  k_htmp k <> [] -> Z.testbit (tm_flag (k_tim k i)) 2 = false ->
  wp (timer_fire_end false i) (fun _ k' => fire_ended i k k') k.
Proof.
  intros Ht H2. unfold timer_fire_end, _timer_remove, tim, upd_tim. do 4 wp_step. simpl.
  destruct (k_htmp k) as [|x l] eqn:El; [done|]. simpl. do 4 wp_step. simpl.
  rewrite fupd_eq. simpl. rewrite flag_periodic, clear_processing, H2 by lia. simpl. wp_step.
  split; simpl; rewrite ?fupd_eq, ?El; try done. intros j Hj. by rewrite fupd_ne.
Qed.

(** The kernel is well formed independently of its timers. *)
Lemma kwf_ktimless k k' : ktimless k' = ktimless k -> kwf k -> kwf k'.
Proof.
  intros E. apply kwf_ext.
  - intros t. exact (f_equal (fun x => k_thr x t) E).
  - intros l. exact (f_equal (fun x => k_list x l) E).
  - exact (f_equal k_group E).
  - exact (f_equal k_cur E).
Qed.

Section fired.
(** Timeout functions of the application: they write application memory only, and
    a log of the calls can be read back from it. *)
Context (timeout_call : timeout_func -> K unit).
Context (log : (Z -> Z) -> list Z) (code : timeout_func -> Z).
Hypothesis call_wp : forall f k, wp (timeout_call f)
  (fun _ k' => exists m, k' = set_k_mem m k /\ log m = log (k_mem k) ++ [code f]) k.

Definition one_shot (k : kernel) (i : timid) : Prop := Z.testbit (tm_flag (k_tim k i)) 2 = false.

(** The flags of a fired timer: neither active nor being processed. *)
Definition rest_flags (f : Z) : Z :=
  flag_clear (Z.lor (flag_clear f RT_TIMER_FLAG_ACTIVATED) RT_TIMER_FLAG_PROCESSING)
    RT_TIMER_FLAG_PROCESSING.

(** The timers [fired] have been served and the others not touched. *)
Record checked (fired rest : list timid) (k k' : kernel) : Prop := mk_checked {
  ck_wf : kwf k';
  ck_nest : k_lock_nest k' = k_lock_nest k;
  ck_tick : k_tick k' = k_tick k;
  ck_hard : k_hard k' = rest;
  ck_tmp : k_htmp k' = [];
  ck_log : log (k_mem k') = log (k_mem k) ++ map (fun i => code (tm_func (k_tim k i))) fired;
  ck_fired : forall i, i ∈ fired -> k_tim k' i = set_tm_flag (rest_flags (tm_flag (k_tim k i))) (k_tim k i);
  ck_other : forall i, i ∉ fired -> k_tim k' i = k_tim k i
}.

Lemma list_unlink_timer (i : timid) l : i ∉ l -> tim_unlink i l = l.
Proof.
  intros Hi. unfold tim_unlink. induction l as [|x l IH]; [done|]. apply not_elem_of_cons in Hi as [H1 H2].
  rewrite filter_cons_True by congruence. by rewrite IH.
Qed.

Lemma unlink_head (i : timid) l : i ∉ l -> tim_unlink i (i :: l) = l.
Proof.
  intros Hi. unfold tim_unlink. rewrite filter_cons_False by naive_solver. by apply list_unlink_timer.
Qed.

(** The expiry of one timer at the head of the list. *)
Lemma fire_wp k i rest :
  kwf k -> 1 <= k_lock_nest k -> k_hard k = i :: rest -> i ∉ rest -> k_htmp k = [] -> one_shot k i ->
  wp (timer_fire_begin false i;; rt_spin_unlock_irqrestore;; timeout_call (tm_func (k_tim k i));;
      rt_spin_lock_irqsave;; timer_fire_end false i)
    (fun _ k' => checked [i] rest k k') k.
Proof.
  intros Hk Hn Hl Hi Ht H2. wp_step. eapply wp_mono; [apply fire_begin_wp|]. intros ? k1 B. wp_step.
  pose proof (fb_rest _ _ _ B) as R1.
  assert (N1 : k_lock_nest k1 = k_lock_nest k) by exact (f_equal k_lock_nest R1).
  apply spin_unlock_wp; [by eapply kwf_ktimless|by rewrite N1|]. intros k2 U. wp_step.
  pose proof (sf_rest _ _ (un_frame _ _ U)) as E.
  eapply wp_mono; [apply call_wp|]. intros _ k3 (m & -> & Hm). wp_step. apply spin_lock_wp.
  assert (E2 : k_tim k2 = k_tim k1) by exact (f_equal k_tim E).
  assert (E3 : k_htmp k2 = [i]) by (transitivity (k_htmp k1); [exact (f_equal k_htmp E)|by rewrite (fb_tmp _ _ _ B), Ht]).
  assert (E4 : k_hard k2 = rest) by (transitivity (k_hard k1); [exact (f_equal k_hard E)|
    by rewrite (fb_hard _ _ _ B), Hl, unlink_head]).
  assert (Hfl : Z.testbit (fire_flags (tm_flag (k_tim k i))) 2 = false).
  { unfold fire_flags, one_shot in *. rewrite H2, or_processing, clear_activated, H2 by lia. done. }
  eapply wp_mono; [apply fire_end_wp; simpl; rewrite ?E3, ?E2, ?(fb_tim _ _ _ B); done|].
  intros ? k' [F1 F2 F3 F4 F5]. simpl in *. split.
  - eapply kwf_ktimless; [exact F5|]. eapply kwf_ext; [..|apply (un_wf _ _ U)]; done.
  - rewrite (f_equal k_lock_nest F5 : k_lock_nest k' = k_lock_nest k2 + 1).
    rewrite (f_equal k_lock_nest E : k_lock_nest k2 = k_lock_nest k1 - 1). lia.
  - rewrite (f_equal k_tick F5 : k_tick k' = k_tick k2), (f_equal k_tick E : k_tick k2 = k_tick k1).
    exact (f_equal k_tick R1).
  - rewrite F1, E4. by apply list_unlink_timer.
  - rewrite F2, E3. by apply unlink_head, not_elem_of_nil.
  - rewrite (f_equal k_mem F5 : k_mem k' = m), Hm, (f_equal k_mem E : k_mem k2 = k_mem k1).
    by rewrite (f_equal k_mem R1 : k_mem k1 = k_mem k).
  - intros j ->%list_elem_of_singleton. rewrite F3, E2, (fb_tim _ _ _ B). simpl. unfold fire_flags, one_shot in *.
    by rewrite H2.
  - intros j Hj. rewrite list_elem_of_singleton in Hj. by rewrite F4, E2, (fb_other _ _ _ B).
Qed.

Lemma checked_cons i rest fired rest' k k1 k' :
  i ∉ fired -> checked [i] rest k k1 -> checked fired rest' k1 k' -> checked (i :: fired) rest' k k'.
Proof.
  intros Hi A B. assert (Hsame : forall j, j <> i -> k_tim k1 j = k_tim k j).
  { intros j Hj. apply (ck_other _ _ _ _ A). by rewrite list_elem_of_singleton. }
  split; [apply B|..].
  - by rewrite (ck_nest _ _ _ _ B), (ck_nest _ _ _ _ A).
  - by rewrite (ck_tick _ _ _ _ B), (ck_tick _ _ _ _ A).
  - apply B.
  - apply B.
  - rewrite (ck_log _ _ _ _ B), (ck_log _ _ _ _ A), <- app_assoc. simpl. do 2 f_equal.
    apply map_ext_in. intros j Hj%list_elem_of_In. rewrite Hsame; [done|congruence].
  - intros j [->|Hj]%elem_of_cons.
    + rewrite (ck_other _ _ _ _ B) by done. apply (ck_fired _ _ _ _ A). left.
    + rewrite (ck_fired _ _ _ _ B), Hsame by (done || congruence). done.
  - intros j [H1 H2]%not_elem_of_cons. by rewrite (ck_other _ _ _ _ B), Hsame.
Qed.

(** The head of a sorted list decides for the rest. *)
Lemma not_expired_rest b k now i l :
  tsorted b (ticks k) (i :: l) -> dist b now < tick_half -> expired now (k_tim k i) = false ->
  Forall (fun j => expired now (k_tim k j) = false) (i :: l).
Proof.
  intros [S Wn] Hb He. apply StronglySorted_inv in S as [_ S]. rewrite Forall_forall in *.
  pose proof (Wn i ltac:(left)) as Wi. rewrite (expired_dist b now) in He by done.
  intros j Hj. rewrite (expired_dist b now); [|done|by apply Wn].
  apply elem_of_cons in Hj as [->|Hj]; [done|]. specialize (S j Hj). simpl in S. unfold ticks in *. lia.
Qed.

Ltac fire_bind H :=
  apply wp_bind_inv in H; wp_step; eapply wp_mono; [exact H|]; clear H; intros [] ? H.

Lemma check_loop_wp b now l : forall k fuel,
  kwf k -> 1 <= k_lock_nest k -> k_hard k = l -> k_htmp k = [] -> k_tick k = now -> NoDup l ->
  Forall (one_shot k) l -> tsorted b (ticks k) l -> dist b now < tick_half -> (length l < fuel)%nat ->
  wp (timer_check_loop timeout_call fuel false) (fun _ k' => checked
    (filter (fun i => expired now (k_tim k i) = true) l)
    (filter (fun i => expired now (k_tim k i) = false) l) k k') k.
Proof.
  induction l as [|i l IH]; intros k fuel Hk Hn Hl Ht Hnow Hnd Hone Hs Hb Hf;
    (destruct fuel as [|fuel]; [simpl in Hf; lia|]); cbn [timer_check_loop]; do 2 wp_step; rewrite Hl.
  { wp_step. split; try done; [by rewrite app_nil_r|by intros j ?%elem_of_nil]. }
  unfold tim, rt_tick_get. do 4 wp_step. rewrite Hnow.
  change (u32 _ <? tick_half) with (expired now (k_tim k i)).
  destruct (expired now (k_tim k i)) eqn:He.
  - apply NoDup_cons in Hnd as [Hi Hnd]. apply Forall_cons in Hone as [H1 Hone].
    rewrite filter_cons_True, (filter_cons_False _ i) by congruence.
    pose proof (fire_wp k i l Hk Hn Hl Hi Ht H1) as Hfire.
    do 4 fire_bind Hfire. wp_step. eapply wp_mono; [exact Hfire|]. clear Hfire. intros [] k1 C.
    assert (Hsame : forall j, j ∈ l -> k_tim k1 j = k_tim k j).
    { intros j Hj. apply (ck_other _ _ _ _ C). rewrite list_elem_of_singleton. congruence. }
    eapply wp_mono; [apply (IH k1 fuel); try apply C; try done|].
    + by rewrite (ck_nest _ _ _ _ C).
    + by rewrite (ck_tick _ _ _ _ C).
    + rewrite Forall_forall in *. intros j Hj. unfold one_shot. rewrite Hsame by done. by apply Hone.
    + apply (tsorted_ext b (ticks k)); [intros j Hj; unfold ticks; by rewrite Hsame|]. destruct Hs as [S Wn].
      apply StronglySorted_inv in S as [S _]. apply Forall_cons in Wn as [_ Wn]. by split.
    + simpl in Hf. lia.
    + intros ? k' C'. simpl in C'. eapply checked_cons; [|exact C|].
      * intros [_ Hin]%list_elem_of_filter. done.
      * rewrite (filter_in _ (fun j => expired now (k_tim k1 j) = true)),
          (filter_in (fun j => expired now (k_tim k j) = false) (fun j => expired now (k_tim k1 j) = false));
          [done|intros j Hj; by rewrite Hsame..].
  - wp_step. pose proof (not_expired_rest b k now i l Hs Hb He) as F. rewrite Forall_forall in F.
    rewrite (filter_in _ (fun _ => False)), (filter_all (fun j => expired now (k_tim k j) = false));
      [|done|intros j Hj; by rewrite F].
    assert (Hnil : forall q : list timid, filter (fun _ => False) q = []) by (intros q; by induction q).
    rewrite Hnil. split; try done; [by rewrite app_nil_r|by intros j ?%elem_of_nil].
Qed.
End fired.

(** one call of [_timer_check] fires exactly the timers that have expired, in
    the order of their timeouts, and stops: for one-shot timers in a sorted list,
    with any fuel above their number, each expired timer's function is called once,
    the timer leaves the list inactive, and all other timers stay in the list
    untouched.  The timeout functions are those of an application that write
    application memory. *)
Lemma timer_check_fires (timeout_call : timeout_func -> K unit) (log : (Z -> Z) -> list Z)
    (code : timeout_func -> Z) b k fuel :
  (forall f k, wp (timeout_call f)
     (fun _ k' => exists m, k' = set_k_mem m k /\ log m = log (k_mem k) ++ [code f]) k) ->
  kwf k -> 0 <= k_lock_nest k -> k_htmp k = [] -> NoDup (k_hard k) ->
  Forall (one_shot k) (k_hard k) -> tsorted b (ticks k) (k_hard k) -> dist b (k_tick k) < tick_half ->
  (length (k_hard k) < fuel)%nat ->
  let due := filter (fun i => expired (k_tick k) (k_tim k i) = true) (k_hard k) in
  wp (_timer_check timeout_call fuel false) (fun _ k' =>
    log (k_mem k') = log (k_mem k) ++ map (fun i => code (tm_func (k_tim k i))) due /\
    k_hard k' = filter (fun i => expired (k_tick k) (k_tim k i) = false) (k_hard k) /\
    (forall i, i ∈ due -> Z.testbit (tm_flag (k_tim k' i)) 0 = false /\
       Z.testbit (tm_flag (k_tim k' i)) 1 = false) /\
    (forall i, i ∉ due -> k_tim k' i = k_tim k i) /\ kwf k') k.
Proof.
  intros Hcall Hk Hn Ht Hnd Hone Hs Hb Hf due. unfold _timer_check. wp_step. apply spin_lock_wp. wp_step.
  eapply wp_mono; [apply (check_loop_wp timeout_call log code Hcall b (k_tick k) (k_hard k) (lock1 k)); try done|].
  { by apply kwf_nest. } { simpl. lia. }
  intros ? k1 C. pose proof (ck_nest _ _ _ _ _ _ C) as Hn1. simpl in Hn1.
  apply spin_unlock_wp; [apply C|lia|]. intros k' U. pose proof (sf_rest _ _ (un_frame _ _ U)) as E.
  rewrite (f_equal k_mem E : k_mem k' = k_mem k1), (f_equal k_hard E : k_hard k' = k_hard k1),
    (f_equal k_tim E : k_tim k' = k_tim k1).
  split; [apply C|]. split; [apply C|]. split; [|split; [apply C|apply U]].
  intros i Hi. rewrite (ck_fired _ _ _ _ _ _ C) by done. simpl. unfold rest_flags.
  rewrite !clear_processing, !or_processing, !clear_activated by lia. simpl.
  by rewrite !andb_false_r.
Qed.

(** An application whose timeout functions append their parameter to a list in
    memory: the number of entries at address 0, the entries behind it. *)
Definition demo_code (f : timeout_func) : Z := match f with TF_user _ p => p | TF_thread t => Z.pos t end.
Definition demo_log (m : Z -> Z) : list Z := map (fun n => m (Z.of_nat n)) (seq 1 (Z.to_nat (m 0))).
Definition demo_call (f : timeout_func) : K unit :=
  modify (fun k => let n := Z.of_nat (S (Z.to_nat (k_mem k 0))) in
    set_k_mem (fupd 0 n (fupd n (demo_code f) (k_mem k))) k).

Lemma demo_call_ok f k : wp (demo_call f)
  (fun _ k' => exists m, k' = set_k_mem m k /\ demo_log m = demo_log (k_mem k) ++ [demo_code f]) k.
Proof.
  unfold demo_call. wp_step. eexists. split; [reflexivity|]. unfold demo_log. rewrite fupd_eq, Nat2Z.id.
  rewrite seq_S, map_app. simpl. rewrite fupd_ne by lia. f_equal.
  - apply map_ext_in. intros n [H1 H2]%in_seq. rewrite !fupd_ne by lia. done.
  - by rewrite fupd_eq.
Qed.

(** Timers 3 and 5 have expired at tick 40, timer 7 expires at 50. *)
Definition ktimers : kernel :=
  set_k_tim (fun i => match i with
    | 3%positive => mk_timer 1 10 30 (TF_user 0 33)
    | 5%positive => mk_timer 1 10 40 (TF_user 0 55)
    | _ => mk_timer 1 10 50 (TF_user 0 77)
    end) (set_k_hard [3; 5; 7]%positive kdemo).

Lemma kwf_set_timers f l k : kwf k -> kwf (set_k_tim f (set_k_hard l k)).
Proof. by apply kwf_ext. Qed.

Lemma timer_check_fires_witness :
  wp (_timer_check demo_call 4 false) (fun _ k' => demo_log (k_mem k') = [33; 55] /\
    k_hard k' = [7%positive] /\
    (forall i, i ∈ [3; 5]%positive -> Z.testbit (tm_flag (k_tim k' i)) 0 = false /\
       Z.testbit (tm_flag (k_tim k' i)) 1 = false) /\
    (forall i, i ∉ [3; 5]%positive -> k_tim k' i = k_tim ktimers i) /\ kwf k') ktimers.
Proof.
  apply (timer_check_fires demo_call demo_log demo_code 30 ktimers 4 demo_call_ok
    (kwf_set_timers _ _ _ (ki_wf _ kdemo_inv))); try done.
  - simpl. repeat constructor; set_solver.
  - by repeat constructor.
  - split; [|by repeat constructor]. repeat constructor; done.
  - simpl. lia.
Defined.

(** * A period of zero *)

(** A hypothesis [wp (m ≫= f) Q s] taken one step with what is known of [m]. *)
Lemma wp_bind_known {A B} (m : K A) (f : A -> K B) R Q s :
  wp m R s -> wp (m ≫= f) Q s -> exists a s', R a s' /\ wp (f a) Q s'.
Proof.
  intros HR H. apply wp_bind_inv in H. pose proof (wp_conj _ _ _ _ HR H) as HC.
  apply wp_exists in HC as (a & s' & _ & H1 & H2). eauto.
Qed.

(** Only timer [i] is in the interrupt list: it is periodic and active, its period
    is zero and it has expired. *)
Record zero_period (i : timid) (k : kernel) : Prop := mk_zero_period {
  zp_wf : kwf k;
  zp_nest : 1 <= k_lock_nest k;
  zp_list : k_hard k = [i];
  zp_tmp : k_htmp k = [];
  zp_periodic : Z.testbit (tm_flag (k_tim k i)) 2 = true;
  zp_active : Z.testbit (tm_flag (k_tim k i)) 0 = true;
  zp_period : tm_init_tick (k_tim k i) = 0;
  zp_tick : 0 <= k_tick k < 2 ^ 32;
  zp_due : expired (k_tick k) (k_tim k i) = true
}.

Section zero_period.
Context (timeout_call : timeout_func -> K unit).
Hypothesis call_mem : forall f k, wp (timeout_call f) (fun _ k' => exists m, k' = set_k_mem m k) k.

(** One turn of the loop leads back to the same situation. *)
Lemma zero_period_fire_wp i k :
  zero_period i k ->
  wp (timer_fire_begin false i;; rt_spin_unlock_irqrestore;; timeout_call (tm_func (k_tim k i));;
      rt_spin_lock_irqsave;; timer_fire_end false i) (fun _ k' => zero_period i k') k.
Proof.
  intros [Hk Hn Hl Ht H2 H0 Hp Htk Hd]. unfold timer_fire_begin, _timer_remove, tim, upd_tim, tmp_push.
  do 6 wp_step. simpl. rewrite flag_periodic, H2. cbn [negb]. repeat wp_step. simpl.
  set (k1 := set_k_htmp _ _). assert (Hk1 : kwf k1) by (by eapply kwf_ext; [..|exact Hk]).
  assert (Ehard : k_hard k1 = []) by (simpl; rewrite Hl; by rewrite unlink_head by apply not_elem_of_nil).
  assert (Etmp : k_htmp k1 = [i]) by (simpl; by rewrite Ht).
  set (f1 := Z.lor (tm_flag (k_tim k i)) RT_TIMER_FLAG_PROCESSING).
  assert (Etim : k_tim k1 i = set_tm_flag f1 (k_tim k i)) by (simpl; by rewrite !fupd_eq).
  apply spin_unlock_wp; [done|done|]. intros k2 U. wp_step. pose proof (sf_rest _ _ (un_frame _ _ U)) as E.
  eapply wp_mono; [apply call_mem|]. intros _ k3 (m & ->). wp_step. apply spin_lock_wp.
  assert (E2 : k_tim k2 = k_tim k1) by exact (f_equal k_tim E).
  assert (E3 : k_htmp k2 = k_htmp k1) by exact (f_equal k_htmp E).
  assert (E4 : k_hard k2 = k_hard k1) by exact (f_equal k_hard E).
  assert (E6 : k_lock_nest k2 = k_lock_nest k - 1) by exact (f_equal k_lock_nest E).
  assert (E7 : k_tick k2 = k_tick k) by exact (f_equal k_tick E).
  unfold timer_fire_end, _timer_remove, tim, upd_tim. do 4 wp_step. simpl. rewrite E3, Etmp. simpl.
  do 4 wp_step. simpl. rewrite fupd_eq, E2, Etim. simpl.
  rewrite flag_periodic, flag_activated, !clear_processing by lia. unfold f1.
  rewrite !or_processing, H2, H0 by lia. rewrite !bool_decide_false by lia.
  cbn [orb andb negb]. do 2 wp_step.
  set (k4 := set_k_tim _ _).
  set (f4 := flag_clear (flag_clear f1 RT_TIMER_FLAG_PROCESSING) RT_TIMER_FLAG_ACTIVATED).
  assert (T4 : k_tim k4 i = set_tm_flag f4 (k_tim k i)).
  { unfold k4. cbn -[fupd flag_clear]. by rewrite !fupd_eq. }
  assert (H4 : k_hard k4 = []) by (unfold k4; simpl; by rewrite E4, Ehard).
  assert (P4 : k_htmp k4 = [])
    by (unfold k4; simpl; rewrite E3, Etmp; by rewrite unlink_head by apply not_elem_of_nil).
  assert (B4 : forall j, 0 <= j -> Z.testbit f4 j =
    (Z.testbit (tm_flag (k_tim k i)) j || bool_decide (1 = j)) && negb (bool_decide (1 = j)) &&
      negb (bool_decide (0 = j))).
  { intros j Hj. unfold f4, f1. by rewrite clear_activated, clear_processing, or_processing by done. }
  wp_step. eapply wp_mono; [apply _timer_start_wp; rewrite T4; simpl; rewrite B4 by lia|].
  { by rewrite andb_false_r. }
  intros r k5 [-> S]. wp_step. pose proof (st_rest _ _ _ _ S) as R. pose proof (st_tim _ _ _ _ S) as T5.
  assert (K4 : kwf k4) by (eapply kwf_ext; [..|apply (un_wf _ _ U)]; done).
  assert (E8 : k_tick k5 = k_tick k) by (rewrite <- E7; exact (f_equal k_tick R)).
  split.
  - by eapply started_kwf.
  - rewrite (f_equal k_lock_nest R : k_lock_nest k5 = k_lock_nest k2 + 1). lia.
  - by rewrite (st_hard _ _ _ _ S), H4.
  - by rewrite (st_htmp _ _ _ _ S), P4.
  - rewrite T5, T4. simpl. rewrite or_activated, clear_activated, B4, H2 by lia. done.
  - rewrite T5. simpl. rewrite or_activated by lia. apply orb_true_r.
  - by rewrite T5, T4.
  - by rewrite E8.
  - rewrite T5, T4, E8. unfold expired. simpl. rewrite Hp, Z.add_0_r, E7.
    rewrite (u32_id (k_tick k)), Z.sub_diag by done. done.
Qed.

Lemma zero_period_loop fuel : forall i k,
  zero_period i k -> ~ wp (timer_check_loop timeout_call fuel false) (fun _ _ => True) k.
Proof.
  induction fuel as [|fuel IH]; intros i k Z; cbn [timer_check_loop]; intros H; [exact H|].
  pose proof Z as [Hk Hn Hl Ht H2 H0 Hp Htk Hd].
  eapply (wp_bind_known _ _ (fun l s => l = [i] /\ s = k)) in H as (? & ? & [-> ->] & H);
    [|wp_step; by rewrite Hl].
  unfold rt_tick_get, tim in H.
  eapply (wp_bind_known _ _ (fun l s => l = k_tick k /\ s = k)) in H as (? & ? & [-> ->] & H); [|by wp_step].
  eapply (wp_bind_known _ _ (fun l s => l = k_tim k i /\ s = k)) in H as (? & ? & [-> ->] & H); [|by wp_step].
  unfold expired in Hd. rewrite Hd in H.
  pose proof (zero_period_fire_wp i k Z) as F.
  do 4 (apply wp_bind_inv in F; eapply wp_bind_known in H as ([] & ? & F' & H); [|exact F]; clear F; rename F' into F).
  eapply wp_bind_known in H as ([] & k' & Z' & H); [|exact F]. by apply (IH i k').
Qed.
End zero_period.

(** a periodic timer whose period is zero keeps [_timer_check] in its loop: once
    it has expired, the timer is due again as soon as its function has returned, so
    no number of turns ends the call. *)
Lemma timer_check_zero_period timeout_call i k fuel :
  (forall f k, wp (timeout_call f) (fun _ k' => exists m, k' = set_k_mem m k) k) ->
  zero_period i (lock1 k) ->
  _timer_check timeout_call fuel false k = None.
Proof.
  intros Hcall Z. destruct (_timer_check timeout_call fuel false k) as [[[] k']|] eqn:E; [|done].
  exfalso. assert (H : wp (_timer_check timeout_call fuel false) (fun _ _ => True) k)
    by (unfold wp; by rewrite E).
  unfold _timer_check in H.
  eapply (wp_bind_known _ _ (fun _ s => s = lock1 k)) in H as (? & ? & -> & H); [|done].
  apply wp_bind_inv in H. eapply (zero_period_loop timeout_call Hcall fuel i (lock1 k) Z).
  eapply wp_mono; [exact H|done].
Qed.

Definition kzero : kernel :=
  set_k_tim (fun _ => mk_timer 5 0 40 (TF_user 0 0)) (set_k_hard [3]%positive kdemo).

Lemma timer_check_zero_period_witness : _timer_check demo_call 1000 false kzero = None.
Proof.
  apply (timer_check_zero_period demo_call 3 kzero 1000).
  - intros f k. unfold demo_call. wp_step. by eexists.
  - split; try done. apply kwf_nest, kwf_set_timers, kdemo_inv.
Defined.
