(* ===== verification/RingBuffer.v ===== *)
(** Ring buffers, components/drivers/ipc/ringbuffer.c: a byte queue in a circular
    array whose read and write indices carry a mirror bit that tells full from
    empty, and its refinement of a bounded byte queue. *)
From S2P Require Import Prelude Ring.
#[local] Open Scope Z_scope.

(** [struct rt_ringbuffer]; the two mirror bits are booleans. *)
Record rt_ringbuffer := mk_rb {
  buffer_ptr : list Z;
  read_mirror : bool;
  read_index : Z;
  write_mirror : bool;
  write_index : Z;
  buffer_size : Z
}.

Inductive rt_ringbuffer_state := RT_RINGBUFFER_EMPTY | RT_RINGBUFFER_FULL | RT_RINGBUFFER_HALFFULL.

Definition rt_ringbuffer_status (rb : rt_ringbuffer) : rt_ringbuffer_state :=
  if read_index rb =? write_index rb then
    if eqb (read_mirror rb) (write_mirror rb) then RT_RINGBUFFER_EMPTY else RT_RINGBUFFER_FULL
  else RT_RINGBUFFER_HALFFULL.

Definition rt_ringbuffer_data_len (rb : rt_ringbuffer) : Z :=
  match rt_ringbuffer_status rb with
  | RT_RINGBUFFER_EMPTY => 0
  | RT_RINGBUFFER_FULL => buffer_size rb
  | RT_RINGBUFFER_HALFFULL =>
      let wi := write_index rb in
      let ri := read_index rb in
      if ri <? wi then wi - ri else buffer_size rb - (ri - wi)
  end.

Definition rt_ringbuffer_space_len (rb : rt_ringbuffer) : Z := buffer_size rb - rt_ringbuffer_data_len rb.

Definition rt_ringbuffer_init (pool : list Z) (size : Z) : rt_ringbuffer :=
  mk_rb pool false 0 false 0 (RT_ALIGN_DOWN size RT_ALIGN_SIZE).

Definition rt_ringbuffer_reset (rb : rt_ringbuffer) : rt_ringbuffer :=
  mk_rb (buffer_ptr rb) false 0 false 0 (buffer_size rb).

(** [rb_mem] tells whether the first [rt_malloc] returned memory for the control block,
    [pool] is what the second returned; the result is the new ring buffer or NULL, and
    [None] a failed assertion. *)
Definition rt_ringbuffer_create (size : Z) (rb_mem : bool) (pool : option (list Z)) : option (option rt_ringbuffer) :=
  if 0 <? size then
    let size := RT_ALIGN_DOWN size RT_ALIGN_SIZE in
    if negb rb_mem then Some None
    else match pool with
         | None => Some None
         | Some pool => if 0 <? size then Some (Some (rt_ringbuffer_init pool size)) else None
         end
  else None.

(** [rt_memcpy(&buffer[i], src, n)] and [rt_memcpy(dst, &buffer[i], n)] *)
Definition write_at (buf : list Z) (i : Z) (src : list Z) : list Z := list_inserts (Z.to_nat i) src buf.
Definition read_at (buf : list Z) (i n : Z) : list Z := take (Z.to_nat n) (drop (Z.to_nat i) buf).

(** The bytes [ptr[0 .. length)] go behind the write index, wrapping around once;
    shared by the two put functions. *)
Definition rb_write (rb : rt_ringbuffer) (ptr : list Z) : rt_ringbuffer :=
  let length := Z.of_nat (length ptr) in
  if length <? buffer_size rb - write_index rb then
    mk_rb (write_at (buffer_ptr rb) (write_index rb) ptr) (read_mirror rb) (read_index rb)
      (write_mirror rb) (write_index rb + length) (buffer_size rb)
  else
    let room := buffer_size rb - write_index rb in
    let buf := write_at (buffer_ptr rb) (write_index rb) (take (Z.to_nat room) ptr) in
    let buf := write_at buf 0 (drop (Z.to_nat room) ptr) in
    mk_rb buf (read_mirror rb) (read_index rb) (negb (write_mirror rb)) (length - room) (buffer_size rb).

Definition rt_ringbuffer_put (rb : rt_ringbuffer) (ptr : list Z) : Z * rt_ringbuffer :=
  let size := rt_ringbuffer_space_len rb in
  if size =? 0 then (0, rb) else
  let ptr := if size <? Z.of_nat (length ptr) then take (Z.to_nat size) ptr else ptr in
  (Z.of_nat (length ptr), rb_write rb ptr).

Definition rt_ringbuffer_put_force (rb : rt_ringbuffer) (ptr : list Z) : Z * rt_ringbuffer :=
  let space_length := rt_ringbuffer_space_len rb in
  let ptr := if buffer_size rb <? Z.of_nat (length ptr)
             then drop (Z.to_nat (Z.of_nat (length ptr) - buffer_size rb)) ptr else ptr in
  let length := Z.of_nat (length ptr) in
  let rb' := rb_write rb ptr in
  if length <? buffer_size rb - write_index rb then
    (length, if space_length <? length
             then mk_rb (buffer_ptr rb') (read_mirror rb') (write_index rb') (write_mirror rb')
                    (write_index rb') (buffer_size rb')
             else rb')
  else
    (length, if space_length <? length
             then mk_rb (buffer_ptr rb')
                    (if write_index rb' <=? read_index rb' then negb (read_mirror rb') else read_mirror rb')
                    (write_index rb') (write_mirror rb') (write_index rb') (buffer_size rb')
             else rb').

Definition rt_ringbuffer_get (rb : rt_ringbuffer) (length : Z) : list Z * rt_ringbuffer :=
  let size := rt_ringbuffer_data_len rb in
  if size =? 0 then ([], rb) else
  let length := if size <? length then size else length in
  if length <? buffer_size rb - read_index rb then
    (read_at (buffer_ptr rb) (read_index rb) length,
     mk_rb (buffer_ptr rb) (read_mirror rb) (read_index rb + length) (write_mirror rb) (write_index rb)
       (buffer_size rb))
  else
    let first := buffer_size rb - read_index rb in
    (read_at (buffer_ptr rb) (read_index rb) first ++ read_at (buffer_ptr rb) 0 (length - first),
     mk_rb (buffer_ptr rb) (negb (read_mirror rb)) (length - first) (write_mirror rb) (write_index rb)
       (buffer_size rb)).

(** The linear part of the data, in place: index and size. *)
Definition rt_ringbuffer_peek (rb : rt_ringbuffer) : option Z * Z * rt_ringbuffer :=
  let size := rt_ringbuffer_data_len rb in
  if size =? 0 then (None, 0, rb) else
  let ptr := read_index rb in
  if size <? buffer_size rb - read_index rb then
    (Some ptr, size, mk_rb (buffer_ptr rb) (read_mirror rb) (read_index rb + size) (write_mirror rb)
                       (write_index rb) (buffer_size rb))
  else
    (Some ptr, buffer_size rb - read_index rb,
     mk_rb (buffer_ptr rb) (negb (read_mirror rb)) 0 (write_mirror rb) (write_index rb) (buffer_size rb)).

Definition rt_ringbuffer_putchar (rb : rt_ringbuffer) (ch : Z) : Z * rt_ringbuffer :=
  if rt_ringbuffer_space_len rb =? 0 then (0, rb) else
  let buf := <[Z.to_nat (write_index rb) := ch]> (buffer_ptr rb) in
  (1, if write_index rb =? buffer_size rb - 1
      then mk_rb buf (read_mirror rb) (read_index rb) (negb (write_mirror rb)) 0 (buffer_size rb)
      else mk_rb buf (read_mirror rb) (read_index rb) (write_mirror rb) (write_index rb + 1) (buffer_size rb)).

Definition rt_ringbuffer_putchar_force (rb : rt_ringbuffer) (ch : Z) : Z * rt_ringbuffer :=
  let full := match rt_ringbuffer_status rb with RT_RINGBUFFER_FULL => true | _ => false end in
  let buf := <[Z.to_nat (write_index rb) := ch]> (buffer_ptr rb) in
  (1, if write_index rb =? buffer_size rb - 1
      then mk_rb buf (if full then negb (read_mirror rb) else read_mirror rb)
             (if full then 0 else read_index rb) (negb (write_mirror rb)) 0 (buffer_size rb)
      else mk_rb buf (read_mirror rb) (if full then write_index rb + 1 else read_index rb)
             (write_mirror rb) (write_index rb + 1) (buffer_size rb)).

Definition rt_ringbuffer_getchar (rb : rt_ringbuffer) : option Z * rt_ringbuffer :=
  if rt_ringbuffer_data_len rb =? 0 then (None, rb) else
  (buffer_ptr rb !! Z.to_nat (read_index rb),
   if read_index rb =? buffer_size rb - 1
   then mk_rb (buffer_ptr rb) (negb (read_mirror rb)) 0 (write_mirror rb) (write_index rb) (buffer_size rb)
   else mk_rb (buffer_ptr rb) (read_mirror rb) (read_index rb + 1) (write_mirror rb) (write_index rb)
          (buffer_size rb)).

(** * Refinement of a bounded queue of bytes *)

Record rb_ok (rb : rt_ringbuffer) : Prop := mk_rb_ok {
  ro_size : 0 < buffer_size rb < 2 ^ 31;
  ro_buf : buffer_size rb <= Z.of_nat (length (buffer_ptr rb));
  ro_read : 0 <= read_index rb < buffer_size rb;
  ro_write : 0 <= write_index rb < buffer_size rb;
  ro_mirror : if eqb (read_mirror rb) (write_mirror rb) then read_index rb <= write_index rb
              else write_index rb <= read_index rb
}.

(** The bytes in the buffer, oldest first. *)
Definition rb_data (rb : rt_ringbuffer) : list Z :=
  ring (buffer_size rb) (buffer_ptr rb) (read_index rb) (Z.to_nat (rt_ringbuffer_data_len rb)).

(** The length from the mirrors, and the write index from the length. *)
Lemma data_len_mirror rb : rb_ok rb ->
  rt_ringbuffer_data_len rb = write_index rb - read_index rb +
    (if eqb (read_mirror rb) (write_mirror rb) then 0 else buffer_size rb).
Proof.
  intros [H1 H2 H3 H4 H5]. unfold rt_ringbuffer_data_len, rt_ringbuffer_status.
  destruct (Z.eqb_spec (read_index rb) (write_index rb)), (eqb _ _); try lia; case_bool; lia.
Qed.

Lemma data_len_range rb : rb_ok rb -> 0 <= rt_ringbuffer_data_len rb <= buffer_size rb.
Proof.
  intros H. rewrite data_len_mirror by done. destruct H as [H1 H2 H3 H4 H5]. destruct (eqb _ _); lia.
Qed.

Lemma write_index_mod rb : rb_ok rb ->
  write_index rb = (read_index rb + rt_ringbuffer_data_len rb) mod buffer_size rb.
Proof.
  intros H. rewrite data_len_mirror by done. destruct H as [H1 H2 H3 H4 H5]. destruct (eqb _ _).
  - rewrite Z.mod_small; lia.
  - replace (read_index rb + _) with (write_index rb + 1 * buffer_size rb) by lia.
    rewrite Z.mod_add, Z.mod_small; lia.
Qed.

(** ** Writing *)

(** Where a write of [src] behind [w] puts its bytes, and what it leaves alone. *)
Record wrote (size w : Z) (src buf buf' : list Z) : Prop := mk_wrote {
  wr_len : length buf' = length buf;
  wr_in : forall j, (j < length src)%nat -> ring_at size buf' (w + Z.of_nat j) = src !!! j;
  wr_out : forall x, (forall j, (j < length src)%nat -> x mod size <> (w + Z.of_nat j) mod size) ->
    ring_at size buf' x = ring_at size buf x
}.

Lemma write_linear size w src buf :
  0 <= w < size -> size <= Z.of_nat (length buf) -> Z.of_nat (length src) <= size - w ->
  wrote size w src buf (write_at buf w src).
Proof.
  intros Hw Hb Hs. split.
  - apply length_inserts.
  - intros j Hj. unfold ring_at. rewrite Z.mod_small by lia. unfold write_at.
    rewrite list_lookup_total_inserts by lia. f_equal. lia.
  - intros x Hx. unfold ring_at, write_at. pose proof (Z.mod_pos_bound x size ltac:(lia)).
    destruct (decide (x mod size < w)); [apply list_lookup_total_inserts_lt; lia|].
    destruct (decide (w + Z.of_nat (length src) <= x mod size)); [apply list_lookup_total_inserts_ge; lia|].
    exfalso. apply (Hx (Z.to_nat (x mod size - w))); [lia|].
    replace (w + Z.of_nat _) with (x mod size) by lia. by rewrite Zmod_mod.
Qed.

Lemma write_wrap size w src buf :
  0 <= w < size -> size <= Z.of_nat (length buf) -> size - w <= Z.of_nat (length src) <= size ->
  wrote size w src buf
    (write_at (write_at buf w (take (Z.to_nat (size - w)) src)) 0 (drop (Z.to_nat (size - w)) src)).
Proof.
  intros Hw Hb Hs. set (a := Z.to_nat (size - w)). set (buf1 := write_at buf w (take a src)).
  assert (Hl1 : length buf1 = length buf) by apply length_inserts.
  pose proof (length_take_le src a ltac:(lia)) as Hta. pose proof (length_drop src a) as Hda.
  split.
  - unfold write_at. by rewrite length_inserts.
  - intros j Hj. unfold ring_at. destruct (decide (j < a)%nat).
    + rewrite Z.mod_small by lia. unfold write_at at 1.
      rewrite list_lookup_total_inserts_ge by (simpl; lia). unfold buf1, write_at.
      rewrite list_lookup_total_inserts by lia. rewrite lookup_total_take_lt by lia. f_equal. lia.
    + replace (w + Z.of_nat j) with (w + Z.of_nat j - size + 1 * size) by lia.
      rewrite Z.mod_add, Z.mod_small by lia. unfold write_at at 1.
      rewrite list_lookup_total_inserts by (simpl; lia). rewrite lookup_total_drop. f_equal. simpl. lia.
  - intros x Hx. pose proof (Z.mod_pos_bound x size ltac:(lia)) as Hr. unfold ring_at, write_at at 1.
    assert (Hge : Z.of_nat (length src) - (size - w) <= x mod size).
    { destruct (decide (x mod size < Z.of_nat (length src) - (size - w))); [|lia]. exfalso.
      apply (Hx (Z.to_nat (x mod size + size - w))); [lia|].
      replace (w + Z.of_nat _) with (x mod size + 1 * size) by lia. rewrite Z.mod_add, Zmod_mod by lia. done. }
    assert (Hlt : x mod size < w).
    { destruct (decide (w <= x mod size)); [|lia]. exfalso.
      apply (Hx (Z.to_nat (x mod size - w))); [lia|].
      replace (w + Z.of_nat _) with (x mod size) by lia. by rewrite Zmod_mod. }
    rewrite list_lookup_total_inserts_ge by (simpl; lia). unfold buf1, write_at.
    apply list_lookup_total_inserts_lt. lia.
Qed.

Lemma wrote_mod size w src buf buf' :
  wrote size (w mod size) src buf buf' -> wrote size w src buf buf'.
Proof.
  intros [A B C]. assert (Hm : forall j, (w mod size + j) mod size = (w + j) mod size)
    by (intros; apply Zplus_mod_idemp_l).
  split; [done|..].
  - intros j Hj. rewrite <- (B j Hj). unfold ring_at. by rewrite Hm.
  - intros x Hx. apply C. intros j Hj. rewrite Hm. by apply Hx.
Qed.

(** The contents after a write of at most [size] bytes behind them: the oldest are
    lost when there is no room. *)
Lemma ring_wrote size r d src buf buf' :
  0 < size -> Z.of_nat d <= size -> Z.of_nat (length src) <= size ->
  wrote size (r + Z.of_nat d) src buf buf' ->
  let lost := (d + length src - Z.to_nat size)%nat in
  ring size buf' (r + Z.of_nat lost) (d - lost + length src) = drop lost (ring size buf r d) ++ src.
Proof.
  intros Hs Hd Hn W lost. rewrite ring_app. f_equal.
  - replace (ring size buf r d) with (ring size buf r (lost + (d - lost))) by (f_equal; lia).
    rewrite ring_app, drop_app_length' by (by rewrite ring_length). apply ring_ext. intros i Hi.
    apply (wr_out _ _ _ _ _ W). intros j Hj E.
    replace (r + Z.of_nat lost + Z.of_nat i) with (r + (Z.of_nat lost + Z.of_nat i)) in E by lia.
    replace (r + Z.of_nat d + Z.of_nat j) with (r + (Z.of_nat lost + (Z.of_nat d - Z.of_nat lost + Z.of_nat j))) in E by lia.
    rewrite !Z.add_assoc in E. rewrite <- !(Z.add_assoc (r + Z.of_nat lost)) in E.
    eapply ring_cell_ne; [..|exact E]; lia.
  - replace (r + Z.of_nat lost + Z.of_nat (d - lost)) with (r + Z.of_nat d) by lia.
    apply list_eq_same_length with (length src); [done|by rewrite ring_length|].
    intros j x y Hj Hx Hy. unfold ring in Hx. rewrite list_lookup_fmap, lookup_seq_lt in Hx by done.
    simpl in Hx. injection Hx as <-. rewrite (wr_in _ _ _ _ _ W) by done.
    by apply list_lookup_total_correct.
Qed.

(** The write of both put functions. *)
Lemma rb_write_spec rb src :
  rb_ok rb -> Z.of_nat (length src) <= buffer_size rb ->
  let rb' := rb_write rb src in
  let w := write_index rb + Z.of_nat (length src) in
  wrote (buffer_size rb) (write_index rb) src (buffer_ptr rb) (buffer_ptr rb') /\
  read_mirror rb' = read_mirror rb /\ read_index rb' = read_index rb /\
  buffer_size rb' = buffer_size rb /\
  write_mirror rb' = (if w <? buffer_size rb then write_mirror rb else negb (write_mirror rb)) /\
  write_index rb' = (if w <? buffer_size rb then w else w - buffer_size rb).
Proof.
  intros [H1 H2 H3 H4 H5] Hn. unfold rb_write.
  destruct (Z.ltb_spec (Z.of_nat (length src)) (buffer_size rb - write_index rb));
    destruct (Z.ltb_spec (write_index rb + Z.of_nat (length src)) (buffer_size rb)); try lia; simpl.
  - split; [apply write_linear; lia|done].
  - split; [apply write_wrap; lia|]. do 4 (split; [done|]). lia.
Qed.

(** A write that fits keeps the buffer consistent and appends. *)
Lemma rb_write_fits rb src :
  rb_ok rb -> Z.of_nat (length src) <= rt_ringbuffer_space_len rb ->
  rb_ok (rb_write rb src) /\ rb_data (rb_write rb src) = rb_data rb ++ src /\
  buffer_size (rb_write rb src) = buffer_size rb.
Proof.
  intros Hok Hn. unfold rt_ringbuffer_space_len in Hn. pose proof (data_len_range rb Hok) as Hd.
  destruct (rb_write_spec rb src Hok ltac:(lia)) as (W & E1 & E2 & E3 & E4 & E5).
  set (rb' := rb_write rb src) in *.
  pose proof (data_len_mirror rb Hok) as Hl. pose proof Hok as [H1 H2 H3 H4 H5].
  assert (Hok' : rb_ok rb').
  { split; rewrite ?E1, ?E2, ?E3; try lia.
    - rewrite (wr_len _ _ _ _ _ W). lia.
    - rewrite E5. case_bool; lia.
    - rewrite E4, E5. destruct (Z.ltb_spec (write_index rb + Z.of_nat (length src)) (buffer_size rb));
        destruct (read_mirror rb), (write_mirror rb); simpl in *; lia. }
  assert (Hlen : rt_ringbuffer_data_len rb' = rt_ringbuffer_data_len rb + Z.of_nat (length src)).
  { rewrite (data_len_mirror rb' Hok'), E1, E2, E3, E4, E5, Hl.
    destruct (Z.ltb_spec (write_index rb + Z.of_nat (length src)) (buffer_size rb));
      destruct (read_mirror rb), (write_mirror rb); simpl in *; lia. }
  split; [done|]. split; [|done]. unfold rb_data. rewrite E2, E3, Hlen.
  rewrite (write_index_mod rb Hok) in W.
  assert (W' : wrote (buffer_size rb) (read_index rb + Z.of_nat (Z.to_nat (rt_ringbuffer_data_len rb)))
    src (buffer_ptr rb) (buffer_ptr rb')).
  { rewrite Z2Nat.id by lia. by apply wrote_mod. }
  pose proof (ring_wrote (buffer_size rb) (read_index rb) (Z.to_nat (rt_ringbuffer_data_len rb)) src
    (buffer_ptr rb) (buffer_ptr rb') ltac:(lia) ltac:(lia) ltac:(lia) W') as R. simpl in R.
  replace (Z.to_nat (rt_ringbuffer_data_len rb) + length src - Z.to_nat (buffer_size rb))%nat with O in R by lia.
  rewrite Z.add_0_r, Nat.sub_0_r in R. rewrite drop_0 in R. rewrite <- R. f_equal. lia.
Qed.

(** A write that does not fit: the reader is moved to the write index of a full
    buffer. *)
Lemma rb_write_over rb src rm :
  rb_ok rb -> rt_ringbuffer_space_len rb < Z.of_nat (length src) <= buffer_size rb ->
  let rb1 := rb_write rb src in
  let rb' := mk_rb (buffer_ptr rb1) rm (write_index rb1) (write_mirror rb1) (write_index rb1)
    (buffer_size rb1) in
  rm = negb (write_mirror rb1) ->
  rb_ok rb' /\ buffer_size rb' = buffer_size rb /\
  rb_data rb' = drop (length (rb_data rb) + length src - Z.to_nat (buffer_size rb)) (rb_data rb) ++ src.
Proof.
  intros Hok Hn rb1 rb' Hrm. unfold rt_ringbuffer_space_len in Hn. pose proof (data_len_range rb Hok) as Hd.
  destruct (rb_write_spec rb src Hok ltac:(lia)) as (W & _ & _ & E3 & E4 & E5). fold rb1 in W, E3, E4, E5.
  pose proof Hok as [H1 H2 H3 H4 H5]. set (d := rt_ringbuffer_data_len rb) in *.
  assert (Hwi : 0 <= write_index rb1 < buffer_size rb) by (rewrite E5; case_bool; lia).
  assert (Hok' : rb_ok rb').
  { pose proof (wr_len _ _ _ _ _ W). split; simpl; rewrite ?E3; try lia.
    rewrite Hrm. destruct (write_mirror rb1); simpl; lia. }
  assert (Hlen : rt_ringbuffer_data_len rb' = buffer_size rb).
  { rewrite (data_len_mirror rb' Hok'). simpl. rewrite Hrm, E3. destruct (write_mirror rb1); simpl; lia. }
  split; [done|]. split; [done|]. unfold rb_data at 1 2. rewrite ring_length. fold d.
  rewrite Hlen. simpl. rewrite E3.
  assert (W' : wrote (buffer_size rb) (read_index rb + Z.of_nat (Z.to_nat d)) src (buffer_ptr rb) (buffer_ptr rb1)).
  { rewrite Z2Nat.id by lia. apply wrote_mod. unfold d. by rewrite <- write_index_mod. }
  pose proof (ring_wrote (buffer_size rb) (read_index rb) (Z.to_nat d) src (buffer_ptr rb) (buffer_ptr rb1)
    ltac:(lia) ltac:(lia) ltac:(lia) W') as R. unfold rb_data. fold d. rewrite <- R.
  rewrite <- (ring_mod _ _ (read_index rb + _)).
  replace (Z.to_nat d - (Z.to_nat d + length src - Z.to_nat (buffer_size rb)) + length src)%nat
    with (Z.to_nat (buffer_size rb)) by lia. f_equal.
  pose proof (write_index_mod rb Hok) as Hw. fold d in Hw.
  transitivity ((read_index rb + d + Z.of_nat (length src)) mod buffer_size rb).
  - rewrite <- Zplus_mod_idemp_l, <- Hw, E5. case_bool; [rewrite Z.mod_small; lia|].
    replace (write_index rb + Z.of_nat (length src)) with
      (write_index rb + Z.of_nat (length src) - buffer_size rb + 1 * buffer_size rb) at 2 by lia.
    rewrite Z.mod_add, Z.mod_small; lia.
  - replace (read_index rb + d + Z.of_nat (length src)) with
      (read_index rb + Z.of_nat (Z.to_nat d + length src - Z.to_nat (buffer_size rb)) + 1 * buffer_size rb) by lia.
    by rewrite Z.mod_add by lia.
Qed.

(** ** Reading *)

Lemma read_at_ring size buf r n :
  0 <= r -> 0 <= n -> r + n <= size -> size <= Z.of_nat (length buf) ->
  read_at buf r n = ring size buf r (Z.to_nat n).
Proof.
  intros Hr Hn Hs Hb. unfold read_at. symmetry.
  apply list_eq_same_length with (Z.to_nat n); [rewrite length_take, length_drop; lia|apply ring_length|].
  intros i x y Hi Hx Hy. unfold ring in Hx. rewrite list_lookup_fmap, lookup_seq_lt in Hx by done.
  simpl in Hx. injection Hx as <-. unfold ring_at. rewrite Z.mod_small by lia.
  rewrite lookup_take_lt, lookup_drop in Hy by lia. apply list_lookup_total_correct. rewrite <- Hy. f_equal. lia.
Qed.

(** The reader moves over [n] bytes. *)
Definition rb_skip (rb : rt_ringbuffer) (n : Z) : rt_ringbuffer :=
  let r := read_index rb + n in
  mk_rb (buffer_ptr rb) (if r <? buffer_size rb then read_mirror rb else negb (read_mirror rb))
    (if r <? buffer_size rb then r else r - buffer_size rb) (write_mirror rb) (write_index rb) (buffer_size rb).

Lemma rb_skip_ok rb n :
  rb_ok rb -> 0 <= n <= rt_ringbuffer_data_len rb ->
  rb_ok (rb_skip rb n) /\ rb_data (rb_skip rb n) = drop (Z.to_nat n) (rb_data rb).
Proof.
  intros Hok Hn. pose proof (data_len_range rb Hok) as Hd. pose proof (data_len_mirror rb Hok) as Hl.
  pose proof Hok as [H1 H2 H3 H4 H5].
  assert (Hok' : rb_ok (rb_skip rb n)).
  { unfold rb_skip. split; simpl; try lia; [case_bool; lia|].
    destruct (Z.ltb_spec (read_index rb + n) (buffer_size rb)), (read_mirror rb), (write_mirror rb);
      simpl in *; lia. }
  split; [done|].
  assert (Hlen : rt_ringbuffer_data_len (rb_skip rb n) = rt_ringbuffer_data_len rb - n).
  { rewrite (data_len_mirror _ Hok'), Hl. simpl.
    destruct (Z.ltb_spec (read_index rb + n) (buffer_size rb)), (read_mirror rb), (write_mirror rb);
      simpl in *; lia. }
  unfold rb_data. rewrite Hlen. simpl.
  replace (Z.to_nat (rt_ringbuffer_data_len rb)) with
    (Z.to_nat n + Z.to_nat (rt_ringbuffer_data_len rb - n))%nat by lia.
  rewrite ring_app, drop_app_length' by (by rewrite ring_length). rewrite Z2Nat.id by lia.
  case_bool; [done|]. rewrite <- (ring_mod _ _ (read_index rb + n)), <- (ring_mod _ _ (_ - _)).
  f_equal. replace (read_index rb + n) with (read_index rb + n - buffer_size rb + 1 * buffer_size rb) at 2 by lia.
  by rewrite Z.mod_add by lia.
Qed.

(** ** The operations *)

(** [rt_ringbuffer_put] appends as many bytes as there is room for, in order, and
    returns their number; nothing stored is lost. *)
Lemma rb_put_refines rb ptr :
  rb_ok rb ->
  let '(n, rb') := rt_ringbuffer_put rb ptr in
  rb_ok rb' /\ buffer_size rb' = buffer_size rb /\
  n = Z.min (Z.of_nat (length ptr)) (buffer_size rb - Z.of_nat (length (rb_data rb))) /\
  rb_data rb' = rb_data rb ++ take (Z.to_nat n) ptr.
Proof.
  intros Hok. pose proof (data_len_range rb Hok) as Hd. unfold rt_ringbuffer_put.
  assert (Hl : Z.of_nat (length (rb_data rb)) = rt_ringbuffer_data_len rb)
    by (unfold rb_data; rewrite ring_length; lia).
  rewrite Hl. fold (rt_ringbuffer_space_len rb).
  assert (Hs : 0 <= rt_ringbuffer_space_len rb) by (unfold rt_ringbuffer_space_len; lia).
  destruct (Z.eqb_spec (rt_ringbuffer_space_len rb) 0) as [E|E].
  { split; [done|]. split; [done|]. split; [lia|]. rewrite take_0. by rewrite app_nil_r. }
  destruct (Z.ltb_spec (rt_ringbuffer_space_len rb) (Z.of_nat (length ptr))).
  - assert (Ht : length (take (Z.to_nat (rt_ringbuffer_space_len rb)) ptr) = Z.to_nat (rt_ringbuffer_space_len rb))
      by (rewrite length_take; lia).
    destruct (rb_write_fits rb (take (Z.to_nat (rt_ringbuffer_space_len rb)) ptr) Hok ltac:(lia)) as (A & B & C).
    split; [done|]. split; [done|]. split; [lia|]. rewrite B, Ht. f_equal. by rewrite Nat2Z.id.
  - destruct (rb_write_fits rb ptr Hok ltac:(lia)) as (A & B & C).
    split; [done|]. split; [done|]. split; [lia|]. by rewrite B, Nat2Z.id, firstn_all.
Qed.

(** [rt_ringbuffer_put_force] stores all bytes, or the last ones that fit the
    buffer, and drops exactly as many of the oldest bytes as it needs room. *)
Lemma rb_put_force_refines rb ptr :
  rb_ok rb ->
  let '(n, rb') := rt_ringbuffer_put_force rb ptr in
  rb_ok rb' /\ buffer_size rb' = buffer_size rb /\
  n = Z.min (Z.of_nat (length ptr)) (buffer_size rb) /\
  rb_data rb' = drop (length (rb_data rb ++ ptr) - Z.to_nat (buffer_size rb)) (rb_data rb ++ ptr).
Proof.
  intros Hok. pose proof (data_len_range rb Hok) as Hd. pose proof Hok as [H1 H2 H3 H4 H5].
  assert (Hl : length (rb_data rb) = Z.to_nat (rt_ringbuffer_data_len rb)) by apply ring_length.
  unfold rt_ringbuffer_put_force.
  set (src := if buffer_size rb <? Z.of_nat (length ptr) then _ else ptr).
  assert (Hsrc : Z.of_nat (length src) = Z.min (Z.of_nat (length ptr)) (buffer_size rb) /\
    drop (length (rb_data rb ++ ptr) - Z.to_nat (buffer_size rb)) (rb_data rb ++ ptr) =
    drop (length (rb_data rb) + length src - Z.to_nat (buffer_size rb)) (rb_data rb) ++ src).
  { unfold src. rewrite length_app. destruct (Z.ltb_spec (buffer_size rb) (Z.of_nat (length ptr))).
    - rewrite length_drop. split; [lia|]. rewrite drop_app_ge by lia.
      rewrite (drop_ge (rb_data rb)) by lia. simpl. f_equal. lia.
    - split; [lia|]. rewrite drop_app_le by lia. done. }
  destruct Hsrc as [Hn Hdata]. rewrite Hdata. rewrite <- Hn.
  destruct (Z.ltb_spec (rt_ringbuffer_space_len rb) (Z.of_nat (length src))) as [Hov|Hfit].
  - destruct (rb_write_spec rb src Hok ltac:(lia)) as (W & E1 & E2 & E3 & E4 & E5).
    unfold rt_ringbuffer_space_len in Hov. pose proof (data_len_mirror rb Hok) as Hm.
    case_bool.
    + destruct (rb_write_over rb src (read_mirror (rb_write rb src)) Hok ltac:(unfold rt_ringbuffer_space_len; lia))
        as (A & B & C); [|done].
      rewrite E1, E4. rewrite (proj2 (Z.ltb_lt _ _)) by lia.
      destruct (read_mirror rb), (write_mirror rb); simpl in *; lia || done.
    + destruct (rb_write_over rb src (if write_index (rb_write rb src) <=? read_index (rb_write rb src)
        then negb (read_mirror (rb_write rb src)) else read_mirror (rb_write rb src)) Hok
        ltac:(unfold rt_ringbuffer_space_len; lia)) as (A & B & C); [|done].
      rewrite E1, E2, E4, E5. rewrite (proj2 (Z.ltb_ge _ _)) by lia.
      destruct (Z.leb_spec (write_index rb + Z.of_nat (length src) - buffer_size rb) (read_index rb)),
        (read_mirror rb), (write_mirror rb); simpl in *; lia || done.
  - destruct (rb_write_fits rb src Hok Hfit) as (A & B & C).
    replace (length (rb_data rb) + length src - Z.to_nat (buffer_size rb))%nat with O
      by (unfold rt_ringbuffer_space_len in Hfit; lia).
    rewrite drop_0, <- B. by case_bool.
Qed.

(** [rt_ringbuffer_get] returns the oldest bytes, as many as asked for or as there
    are, and removes exactly those. *)
Lemma rb_get_refines rb n :
  rb_ok rb -> 0 <= n ->
  let '(bytes, rb') := rt_ringbuffer_get rb n in
  rb_ok rb' /\ buffer_size rb' = buffer_size rb /\
  bytes = take (Z.to_nat n) (rb_data rb) /\ rb_data rb' = drop (Z.to_nat n) (rb_data rb).
Proof.
  intros Hok Hn. pose proof (data_len_range rb Hok) as Hd. pose proof Hok as [H1 H2 H3 H4 H5].
  assert (Hl : length (rb_data rb) = Z.to_nat (rt_ringbuffer_data_len rb)) by apply ring_length.
  unfold rt_ringbuffer_get. destruct (Z.eqb_spec (rt_ringbuffer_data_len rb) 0) as [E|E].
  { split; [done|]. split; [done|]. destruct (rb_data rb) eqn:Eq; [|simpl in Hl; lia].
    by rewrite take_nil, drop_nil. }
  set (len := if rt_ringbuffer_data_len rb <? n then rt_ringbuffer_data_len rb else n).
  assert (Hlen : 0 <= len <= rt_ringbuffer_data_len rb) by (unfold len; case_bool; lia).
  assert (Hcut : take (Z.to_nat n) (rb_data rb) = take (Z.to_nat len) (rb_data rb) /\
    drop (Z.to_nat n) (rb_data rb) = drop (Z.to_nat len) (rb_data rb)).
  { unfold len. case_bool; [|done]. split; [rewrite !take_ge by lia|rewrite !drop_ge by lia]; done. }
  destruct Hcut as [-> ->]. destruct (rb_skip_ok rb len Hok Hlen) as [Hok' Hskip]. rewrite <- Hskip.
  assert (Hbytes : take (Z.to_nat len) (rb_data rb) = ring (buffer_size rb) (buffer_ptr rb) (read_index rb) (Z.to_nat len)).
  { unfold rb_data. replace (Z.to_nat (rt_ringbuffer_data_len rb)) with
      (Z.to_nat len + Z.to_nat (rt_ringbuffer_data_len rb - len))%nat by lia.
    rewrite ring_app. apply take_app_length'. by rewrite ring_length. }
  rewrite Hbytes. unfold rb_skip in *. case_bool.
  - rewrite (proj2 (Z.ltb_lt (read_index rb + len) _)) in * by lia. do 2 (split; [done|]).
    split; [|done]. apply read_at_ring; lia.
  - rewrite (proj2 (Z.ltb_ge (read_index rb + len) _)) in * by lia.
    replace (len - (buffer_size rb - read_index rb)) with (read_index rb + len - buffer_size rb) by lia.
    do 2 (split; [done|]). split; [|done].
    replace (Z.to_nat len) with (Z.to_nat (buffer_size rb - read_index rb) +
      Z.to_nat (read_index rb + len - buffer_size rb))%nat by lia.
    rewrite ring_app. f_equal; [apply read_at_ring; lia|].
    rewrite <- (ring_mod _ _ (read_index rb + _)).
    replace (read_index rb + Z.of_nat (Z.to_nat (buffer_size rb - read_index rb))) with (buffer_size rb) by lia.
    rewrite Z_mod_same_full. apply read_at_ring; lia.
Qed.

(** [rt_ringbuffer_peek] hands out, without copying, a contiguous piece of the
    array that holds the oldest bytes, and removes exactly these from the buffer. *)
Lemma rb_peek_refines rb :
  rb_ok rb ->
  let '(ptr, n, rb') := rt_ringbuffer_peek rb in
  rb_ok rb' /\ buffer_ptr rb' = buffer_ptr rb /\ 0 <= n <= rt_ringbuffer_data_len rb /\
  (ptr = None <-> rb_data rb = []) /\
  (forall i, ptr = Some i -> 0 < n /\ read_at (buffer_ptr rb) i n = take (Z.to_nat n) (rb_data rb)) /\
  rb_data rb' = drop (Z.to_nat n) (rb_data rb).
Proof.
  intros Hok. pose proof (data_len_range rb Hok) as Hd. pose proof Hok as [H1 H2 H3 H4 H5].
  assert (Hl : length (rb_data rb) = Z.to_nat (rt_ringbuffer_data_len rb)) by apply ring_length.
  unfold rt_ringbuffer_peek. destruct (Z.eqb_spec (rt_ringbuffer_data_len rb) 0) as [E|E].
  { do 2 (split; [done|]). split; [lia|]. split; [|split; [done|by rewrite drop_0]].
    destruct (rb_data rb); [done|simpl in Hl; lia]. }
  assert (Hne : rb_data rb <> []) by (intros Hnil; rewrite Hnil in Hl; simpl in Hl; lia).
  assert (Hpiece : forall n, 0 < n <= rt_ringbuffer_data_len rb -> read_index rb + n <= buffer_size rb ->
    read_at (buffer_ptr rb) (read_index rb) n = take (Z.to_nat n) (rb_data rb)).
  { intros n Hn Hr. rewrite (read_at_ring (buffer_size rb)) by lia. unfold rb_data.
    replace (Z.to_nat (rt_ringbuffer_data_len rb)) with
      (Z.to_nat n + Z.to_nat (rt_ringbuffer_data_len rb - n))%nat by lia.
    rewrite ring_app. symmetry. apply take_app_length'. by rewrite ring_length. }
  destruct (Z.ltb_spec (rt_ringbuffer_data_len rb) (buffer_size rb - read_index rb)).
  - destruct (rb_skip_ok rb (rt_ringbuffer_data_len rb) Hok ltac:(lia)) as [A B]. revert A B. unfold rb_skip.
    rewrite (proj2 (Z.ltb_lt (read_index rb + _) _)) by lia. intros A B. do 2 (split; [done|]).
    split; [lia|]. split; [done|]. split; [|done]. intros i [= <-]. split; [lia|]. apply Hpiece; lia.
  - destruct (rb_skip_ok rb (buffer_size rb - read_index rb) Hok ltac:(lia)) as [A B]. revert A B. unfold rb_skip.
    rewrite (proj2 (Z.ltb_ge (read_index rb + _) _)) by lia.
    replace (read_index rb + (buffer_size rb - read_index rb) - buffer_size rb) with 0 by lia.
    intros A B. do 2 (split; [done|]).
    split; [lia|]. split; [done|]. split; [|done]. intros i [= <-]. split; [lia|]. apply Hpiece; lia.
Qed.

(** The single-byte functions are the bulk ones at length one:
    [rt_ringbuffer_putchar], [rt_ringbuffer_putchar_force] and [rt_ringbuffer_getchar]
    have the same result and leave the same buffer. *)
Lemma rb_char_equiv rb ch :
  rb_ok rb ->
  rt_ringbuffer_putchar rb ch = rt_ringbuffer_put rb [ch] /\
  rt_ringbuffer_putchar_force rb ch = rt_ringbuffer_put_force rb [ch] /\
  rt_ringbuffer_getchar rb = (head (rt_ringbuffer_get rb 1).1, (rt_ringbuffer_get rb 1).2).
Proof.
  intros Hok. pose proof (data_len_range rb Hok) as Hd. pose proof Hok as [H1 H2 H3 H4 H5].
  split; [|split].
  - unfold rt_ringbuffer_putchar, rt_ringbuffer_put, rb_write, write_at.
    change (Z.of_nat (length [ch])) with 1.
    destruct (Z.eqb_spec (rt_ringbuffer_space_len rb) 0) as [E|E]; [done|].
    rewrite (proj2 (Z.ltb_ge (rt_ringbuffer_space_len rb) 1)) by (unfold rt_ringbuffer_space_len in *; lia).
    change (Z.of_nat (length [ch])) with 1.
    destruct (Z.eqb_spec (write_index rb) (buffer_size rb - 1)) as [->|Ew].
    + rewrite (proj2 (Z.ltb_ge 1 _)) by lia. replace (buffer_size rb - (buffer_size rb - 1)) with 1 by lia. done.
    + rewrite (proj2 (Z.ltb_lt 1 _)) by lia. done.
  - unfold rt_ringbuffer_putchar_force, rt_ringbuffer_put_force, rb_write, write_at.
    rewrite (proj2 (Z.ltb_ge (buffer_size rb) (Z.of_nat (length [ch])))) by (simpl; lia).
    change (Z.of_nat (length [ch])) with 1.
    assert (Hfull : (match rt_ringbuffer_status rb with RT_RINGBUFFER_FULL => true | _ => false end) =
      (rt_ringbuffer_space_len rb <? 1)).
    { unfold rt_ringbuffer_space_len, rt_ringbuffer_data_len.
      destruct (rt_ringbuffer_status rb) eqn:Es; [lia|lia|]. revert Es. unfold rt_ringbuffer_status.
      destruct (Z.eqb_spec (read_index rb) (write_index rb)); [by destruct (eqb _ _)|].
      intros _. case_bool; lia. }
    rewrite Hfull. destruct (Z.eqb_spec (write_index rb) (buffer_size rb - 1)) as [Ew|Ew].
    + rewrite (proj2 (Z.ltb_ge 1 _)) by lia. rewrite Ew.
      replace (buffer_size rb - (buffer_size rb - 1)) with 1 by lia. change (1 - 1) with 0.
      cbn [write_index read_index read_mirror].
      rewrite (proj2 (Z.leb_le 0 (read_index rb))) by lia. by case_bool.
    + rewrite (proj2 (Z.ltb_lt 1 _)) by lia. simpl. by case_bool.
  - unfold rt_ringbuffer_getchar, rt_ringbuffer_get.
    destruct (Z.eqb_spec (rt_ringbuffer_data_len rb) 0) as [E|E]; [done|].
    rewrite (proj2 (Z.ltb_ge (rt_ringbuffer_data_len rb) 1)) by lia. unfold read_at. simpl.
    assert (Hhd : buffer_ptr rb !! Z.to_nat (read_index rb) =
      head (take (Pos.to_nat 1) (drop (Z.to_nat (read_index rb)) (buffer_ptr rb)))).
    { destruct (lookup_lt_is_Some_2 (buffer_ptr rb) (Z.to_nat (read_index rb)) ltac:(lia)) as [x Hx].
      rewrite Hx, (drop_S _ _ _ Hx). done. }
    destruct (Z.eqb_spec (read_index rb) (buffer_size rb - 1)) as [Ew|Ew].
    + rewrite (proj2 (Z.ltb_ge 1 _)) by lia. rewrite Ew in *.
      replace (buffer_size rb - (buffer_size rb - 1)) with 1 by lia. simpl. by rewrite app_nil_r, Hhd.
    + rewrite (proj2 (Z.ltb_lt 1 _)) by lia. simpl. by rewrite Hhd.
Qed.

(** Eight bytes with five stored around the end of the array. *)
Definition rb_demo : rt_ringbuffer := mk_rb [10; 11; 12; 13; 14; 15; 16; 17] false 6 true 3 8.

Lemma rb_demo_ok : rb_ok rb_demo.
Proof. split; simpl; lia. Qed.

Lemma rb_put_refines_witness :
  rb_data rb_demo = [16; 17; 10; 11; 12] /\
  let '(n, rb') := rt_ringbuffer_put rb_demo [1; 2; 3; 4] in
  rb_ok rb' /\ buffer_size rb' = 8 /\ n = 3 /\ rb_data rb' = [16; 17; 10; 11; 12; 1; 2; 3].
Proof. split; [reflexivity|]. apply (rb_put_refines rb_demo [1; 2; 3; 4] rb_demo_ok). Defined.

Lemma rb_put_force_refines_witness :
  let '(n, rb') := rt_ringbuffer_put_force rb_demo [1; 2; 3; 4; 5] in
  rb_ok rb' /\ buffer_size rb' = 8 /\ n = 5 /\ rb_data rb' = [10; 11; 12; 1; 2; 3; 4; 5].
Proof. apply (rb_put_force_refines rb_demo [1; 2; 3; 4; 5] rb_demo_ok). Defined.

Lemma rb_get_refines_witness :
  let '(bytes, rb') := rt_ringbuffer_get rb_demo 4 in
  rb_ok rb' /\ buffer_size rb' = 8 /\ bytes = [16; 17; 10; 11] /\ rb_data rb' = [12].
Proof. by apply (rb_get_refines rb_demo 4 rb_demo_ok). Defined.

Lemma rb_char_equiv_witness :
  rt_ringbuffer_putchar rb_demo 7 = rt_ringbuffer_put rb_demo [7] /\
  rt_ringbuffer_putchar_force rb_demo 7 = rt_ringbuffer_put_force rb_demo [7] /\
  rt_ringbuffer_getchar rb_demo = (head (rt_ringbuffer_get rb_demo 1).1, (rt_ringbuffer_get rb_demo 1).2).
Proof. apply (rb_char_equiv rb_demo 7 rb_demo_ok). Defined.

Lemma rb_peek_refines_witness :
  let '(ptr, n, rb') := rt_ringbuffer_peek rb_demo in
  rb_ok rb' /\ buffer_ptr rb' = buffer_ptr rb_demo /\ 0 <= n <= 5 /\
  (ptr = None <-> rb_data rb_demo = []) /\
  (forall i, ptr = Some i -> 0 < n /\ read_at (buffer_ptr rb_demo) i n = take (Z.to_nat n) (rb_data rb_demo)) /\
  rb_data rb' = [10; 11; 12].
Proof. apply (rb_peek_refines rb_demo rb_demo_ok). Defined.
