(* ===== verification/Tick.v ===== *)
(** The tick interrupt: src/clock.c [rt_tick_increase], src/irq.c, and the timeout
    functions of the kernel, with the wake-up of the threads whose waiting time is
    over. *)
From stdpp Require Import sorting.
From S2P Require Import Prelude KState SchedUp Object TimerCore SchedComm SuspList Sem Timer Thread Demo SemTake TimerProp.
#[local] Open Scope Z_scope.

Definition rt_interrupt_enter : K unit := modify (fun k => set_k_irq_nest (k_irq_nest k + 1) k).
Definition rt_interrupt_leave : K unit := modify (fun k => set_k_irq_nest (k_irq_nest k - 1) k).
Definition rt_interrupt_get_nest : K Z := gets (fun k => u8 (k_irq_nest k)).

Section tick.
(** The timeout functions of the application: function and parameter. *)
Context (user_call : Z -> Z -> K unit).

Definition timeout_call (f : timeout_func) : K unit :=
  match f with
  | TF_thread t => _thread_timeout t
  | TF_user fn parameter => user_call fn parameter
  end.

Definition rt_tick_increase (fuel : nat) : K unit :=
  nest ← rt_interrupt_get_nest;
  RT_ASSERT (0 <? nest);;
  modify (fun k => set_k_tick (u32 (k_tick k + 1)) k);;
  rt_sched_tick_increase;;
  rt_timer_check timeout_call fuel.

(** * Timeouts of waiting threads *)

(** A thread that waits with its timer in the interrupt list. *)
Record sleeper (k : kernel) (t : tid) : Prop := mk_sleeper {
  sl_susp : suspended (k_thr k t);
  sl_typed : typed k (OThread t) RT_Object_Class_Thread;
  sl_shot : one_shot k (thread_timer t);
  sl_func : tm_func (k_tim k (thread_timer t)) = TF_thread t
}.

(** The threads [ts] have been woken by their timers. *)
Record woken (ts : list tid) (rest : list timid) (k k' : kernel) : Prop := mk_woken {
  wn_inv : kinv k';
  wn_nest : k_lock_nest k' = k_lock_nest k;
  wn_tick : k_tick k' = k_tick k;
  wn_type : k_type k' = k_type k;
  wn_hard : k_hard k' = rest;
  wn_tmp : k_htmp k' = [];
  wn_in : forall t, t ∈ ts -> active (k_thr k' t) /\ t_error (k_thr k' t) = - RT_ETIMEOUT;
  wn_other : forall t, t ∉ ts -> th_frame (k_thr k t) (k_thr k' t) /\
    k_tim k' (thread_timer t) = k_tim k (thread_timer t);
  wn_list : forall l, (forall p, l <> LReady p) -> k_list k' l = filter (.∉ ts) (k_list k l)
}.

Lemma kinv_but_unlocked t k k' : kinv_but t k -> unlocked k k' -> kinv_but t k'.
Proof.
  intros [W A N] U. pose proof (un_frame _ _ U) as F. split.
  - apply U.
  - intros x Hx Hs Ht. destruct (th_frame_suspended _ _ (sf_thr _ _ F x) Hs) as [Hs' Ht'].
    unfold typed. rewrite (f_equal k_type (sf_rest _ _ F) : k_type k' = k_type k).
    rewrite (f_equal k_tim (sf_rest _ _ F) : k_tim k' = k_tim k). apply A; [done|done|]. by rewrite <- Ht'.
  - by rewrite (f_equal k_lock_nest (sf_rest _ _ F) : k_lock_nest k' = k_lock_nest k).
Qed.

(** The state after the expiry of one thread timer, from the states between. *)
Lemma woken_one k k1 k2 k3 k' t rest :
  kinv k -> fire_begun (thread_timer t) k k1 -> sched_frame (unlock1 k1) k2 ->
  kinv k3 -> timed_out t k2 k3 ->
  k_htmp k3 = [thread_timer t] -> k_hard k3 = rest -> thread_timer t ∉ rest ->
  fire_ended (thread_timer t) (lock1 k3) k' -> woken [t] rest k k'.
Proof.
  intros Hk B F Hk3 T E3 E4 Hi [F1 F2 F3 F4 F5]. set (i := thread_timer t) in *. simpl in *.
  assert (Hti : forall x, x <> t -> thread_timer x <> i) by (intros x Hx; unfold i, thread_timer; congruence).
  pose proof (fb_rest _ _ _ B) as R1. pose proof (sf_rest _ _ F) as R2. pose proof (to_rest _ _ _ T) as R3.
  assert (Hthr : k_thr k' = k_thr k3) by exact (f_equal k_thr F5).
  assert (Htype : k_type k' = k_type k) by (transitivity (k_type k3); [exact (f_equal k_type F5)|];
    transitivity (k_type k2); [exact (f_equal k_type R3)|]; transitivity (k_type k1);
    [exact (f_equal k_type R2)|exact (f_equal k_type R1)]).
  assert (Htim : forall j, j <> i -> k_tim k' j = k_tim k j).
  { intros j Hj. rewrite F4 by done. rewrite <- (fb_other _ _ _ B j Hj).
    rewrite (f_equal k_tim R3 : k_tim k3 = k_tim k2). by rewrite (f_equal k_tim R2 : k_tim k2 = k_tim k1). }
  assert (Hnest : k_lock_nest k' = k_lock_nest k).
  { rewrite (f_equal k_lock_nest F5 : k_lock_nest k' = k_lock_nest k3 + 1).
    rewrite (f_equal k_lock_nest R3 : k_lock_nest k3 = k_lock_nest k2).
    rewrite (f_equal k_lock_nest R2 : k_lock_nest k2 = k_lock_nest k1 - 1).
    rewrite (f_equal k_lock_nest R1 : k_lock_nest k1 = k_lock_nest k). lia. }
  assert (Hfr : forall x, x <> t -> th_frame (k_thr k x) (k_thr k' x)).
  { intros x Hx. rewrite Hthr. etransitivity; [|by apply (to_other _ _ _ T)].
    rewrite <- (f_equal k_thr R1 : k_thr k1 = k_thr k). apply (sf_thr _ _ F). }
  split; [|done|..|].
  - split; [eapply kwf_ktimless; [exact F5|]; apply kwf_nest, Hk3| |rewrite Hnest; apply Hk].
    intros x Hsx Htx. assert (Hx : x <> t).
    { intros ->. rewrite Hthr in Hsx. by apply (active_not_suspended _ (to_active _ _ _ T)). }
    destruct (th_frame_suspended _ _ (Hfr x Hx) Hsx) as [Hs' Ht']. unfold typed.
    rewrite Htim, Htype by auto. apply (ki_armed _ Hk); [done|]. by rewrite <- Ht'.
  - transitivity (k_tick k3); [exact (f_equal k_tick F5)|]. transitivity (k_tick k2); [exact (f_equal k_tick R3)|].
    transitivity (k_tick k1); [exact (f_equal k_tick R2)|exact (f_equal k_tick R1)].
  - done.
  - rewrite F1, E4. by apply list_unlink_timer.
  - rewrite F2, E3. by apply unlink_head, not_elem_of_nil.
  - intros x ->%list_elem_of_singleton. rewrite Hthr. split; [apply T|]. by rewrite (to_self _ _ _ T).
  - intros x Hx. rewrite list_elem_of_singleton in Hx. split; [by apply Hfr|apply Htim; auto].
  - intros l Hnr. rewrite (f_equal k_list F5 : k_list k' = k_list k3), (to_list _ _ _ T) by done.
    unfold list_unlink. rewrite (sf_list _ _ F) by done. simpl.
    rewrite (f_equal k_list R1 : k_list k1 = k_list k).
    apply list_filter_iff. intros x. by rewrite list_elem_of_singleton.
Qed.

(** The expiry of the first timer of the list, which is a thread's. *)
Lemma wake_wp k t rest :
  kinv k -> 1 <= k_lock_nest k -> k_hard k = thread_timer t :: rest -> thread_timer t ∉ rest ->
  k_htmp k = [] -> sleeper k t ->
  wp (timer_fire_begin false (thread_timer t);; rt_spin_unlock_irqrestore;;
      timeout_call (tm_func (k_tim k (thread_timer t)));;
      rt_spin_lock_irqsave;; timer_fire_end false (thread_timer t))
    (fun _ k' => woken [t] rest k k') k.
Proof.
  intros Hk Hn Hl Hi Htmp [Hs Hty H2 Hf]. set (i := thread_timer t) in *.
  assert (Hti : forall x, x <> t -> thread_timer x <> i) by (intros x Hx; unfold i, thread_timer; congruence).
  wp_step. eapply wp_mono; [apply fire_begin_wp|]. intros ? k1 B. wp_step.
  pose proof (fb_rest _ _ _ B) as R1.
  assert (K1 : k_thr k1 = k_thr k) by exact (f_equal k_thr R1).
  assert (K2 : k_list k1 = k_list k) by exact (f_equal k_list R1).
  assert (K3 : k_lock_nest k1 = k_lock_nest k) by exact (f_equal k_lock_nest R1).
  assert (K4 : k_tick k1 = k_tick k) by exact (f_equal k_tick R1).
  assert (K5 : k_type k1 = k_type k) by exact (f_equal k_type R1).
  assert (Wk1 : kwf k1) by (by eapply kwf_ktimless; [exact R1|apply Hk]).
  assert (Hk1 : kinv_but t (unlock1 k1)).
  { split; [by apply kwf_nest| |simpl; lia]. intros x Hx Hsx Htx. unfold typed. simpl in *.
    rewrite (fb_other _ _ _ B), K5 by auto. rewrite K1 in Hsx, Htx. by apply (ki_armed _ Hk x). }
  apply spin_unlock_wp; [done|by rewrite K3|]. intros k2 U. wp_step.
  rewrite Hf. unfold timeout_call. pose proof (un_frame _ _ U) as F. pose proof (sf_rest _ _ F) as E.
  eapply wp_mono; [apply thread_timeout_wp; [by eapply kinv_but_unlocked|..]|].
  { unfold typed. rewrite (f_equal k_type E : k_type k2 = k_type k1). by rewrite K5. }
  { apply (suspended_frame _ _ t F). simpl. by rewrite K1. }
  intros ? k3 [Hk3 T]. wp_step. apply spin_lock_wp.
  assert (R : krest k3 = krest (unlock1 k1)) by (rewrite (to_rest _ _ _ T); exact E).
  assert (E2 : k_tim k3 = k_tim k1) by exact (f_equal k_tim R).
  assert (E3 : k_htmp k3 = [i]) by (transitivity (k_htmp k1); [exact (f_equal k_htmp R)|
    by rewrite (fb_tmp _ _ _ B), Htmp]).
  assert (E4 : k_hard k3 = rest) by (transitivity (k_hard k1); [exact (f_equal k_hard R)|
    by rewrite (fb_hard _ _ _ B), Hl, unlink_head]).
  eapply wp_mono; [apply fire_end_wp; simpl; rewrite ?E3, ?E2, ?(fb_tim _ _ _ B); [done|]|].
  { simpl. unfold fire_flags, one_shot in *. rewrite H2, or_processing, clear_activated, H2 by lia. done. }
  intros ? k' [F1 F2 F3 F4 F5]. simpl in *. by eapply (woken_one k k1 k2 k3 k' t rest).
Qed.

Lemma woken_nil k : kinv k -> k_htmp k = [] -> woken [] (k_hard k) k k.
Proof.
  intros Hk Ht. split; try done; [by intros t ?%elem_of_nil|]. intros l _. symmetry. apply filter_notin_nil.
Qed.

Lemma woken_cons t ts rest rest' k k1 k' :
  t ∉ ts -> woken [t] rest k k1 -> woken ts rest' k1 k' -> woken (t :: ts) rest' k k'.
Proof.
  intros Ht A B. split; [apply B|..].
  - by rewrite (wn_nest _ _ _ _ B), (wn_nest _ _ _ _ A).
  - by rewrite (wn_tick _ _ _ _ B), (wn_tick _ _ _ _ A).
  - by rewrite (wn_type _ _ _ _ B), (wn_type _ _ _ _ A).
  - apply B.
  - apply B.
  - intros x [->|Hx]%elem_of_cons; [|by apply (wn_in _ _ _ _ B)].
    destruct (wn_in _ _ _ _ A t ltac:(left)) as [Ha He]. destruct (wn_other _ _ _ _ B t Ht) as [F _].
    destruct F as [E S]. split; [|by rewrite E]. unfold active in *. destruct S as [->|[_ ?]]; done.
  - intros x [H1 H2]%not_elem_of_cons. destruct (wn_other _ _ _ _ B x H2) as [F1 T1].
    destruct (wn_other _ _ _ _ A x) as [F2 T2]; [by rewrite list_elem_of_singleton|].
    split; [by etransitivity|congruence].
  - intros l Hl. rewrite (wn_list _ _ _ _ B), (wn_list _ _ _ _ A) by done. rewrite list_filter_filter.
    apply list_filter_iff. intros x. set_solver.
Qed.

(** A thread whose wait is not over keeps waiting for its timer. *)
Lemma sleeper_woken ts rest k k' t : woken ts rest k k' -> t ∉ ts -> sleeper k t -> sleeper k' t.
Proof.
  intros W Ht [Hs Hty H2 Hf]. destruct (wn_other _ _ _ _ W t Ht) as [[E S] T]. split.
  - unfold suspended, active in *. destruct S as [->|[? _]]; [done|stat_lia].
  - unfold typed. by rewrite (wn_type _ _ _ _ W).
  - unfold one_shot. by rewrite T.
  - by rewrite T.
Qed.

Definition due (k : kernel) (t : tid) : bool := expired (k_tick k) (k_tim k (thread_timer t)).

Lemma check_wakes_wp b ts : forall k fuel,
  kinv k -> 1 <= k_lock_nest k -> k_hard k = map thread_timer ts -> k_htmp k = [] -> NoDup ts ->
  Forall (sleeper k) ts -> tsorted b (ticks k) (k_hard k) -> dist b (k_tick k) < tick_half ->
  (length ts < fuel)%nat ->
  wp (timer_check_loop timeout_call fuel false) (fun _ k' => woken (filter (fun t => due k t = true) ts)
    (map thread_timer (filter (fun t => due k t = false) ts)) k k') k.
Proof.
  induction ts as [|t ts IH]; intros k fuel Hk Hn Hl Ht Hnd Hsl Hs Hb Hf;
    (destruct fuel as [|fuel]; [simpl in Hf; lia|]); cbn [timer_check_loop]; do 2 wp_step; rewrite Hl.
  { cbn [map]. wp_step. pose proof (woken_nil k Hk Ht) as W. by rewrite Hl in W. }
  simpl. unfold tim, rt_tick_get. do 4 wp_step. change (u32 _ <? tick_half) with (due k t).
  destruct (due k t) eqn:He.
  - apply NoDup_cons in Hnd as [Hi Hnd]. apply Forall_cons in Hsl as [H1 Hsl].
    rewrite filter_cons_True, (filter_cons_False _ t) by congruence.
    assert (Hi' : thread_timer t ∉ map thread_timer ts).
    { intros (x & E & Hx)%list_elem_of_fmap. unfold thread_timer in E. naive_solver. }
    pose proof (wake_wp k t (map thread_timer ts) Hk Hn Hl Hi' Ht H1) as Hw.
    do 4 (apply wp_bind_inv in Hw; wp_step; eapply wp_mono; [exact Hw|]; clear Hw; intros [] ? Hw).
    wp_step. eapply wp_mono; [exact Hw|]. clear Hw. intros [] k1 C.
    assert (Hout : forall x, x ∈ ts -> x ∉ [t]) by (intros x Hx; rewrite list_elem_of_singleton; congruence).
    assert (Hdue : forall x, x ∈ ts -> due k1 x = due k x).
    { intros x Hx. unfold due. rewrite (wn_tick _ _ _ _ C). by rewrite (proj2 (wn_other _ _ _ _ C x (Hout x Hx))). }
    eapply wp_mono; [apply (IH k1 fuel); [apply C| |apply C|apply C|done|..]|].
    + by rewrite (wn_nest _ _ _ _ C).
    + rewrite Forall_forall in *. intros x Hx. eapply sleeper_woken; [exact C|auto|auto].
    + rewrite (wn_hard _ _ _ _ C). rewrite Hl in Hs. destruct Hs as [S Wn].
      apply StronglySorted_inv in S as [S _]. apply Forall_cons in Wn as [_ Wn].
      apply (tsorted_ext b (ticks k)); [|by split].
      intros j (x & -> & Hx)%list_elem_of_fmap. unfold ticks.
      by rewrite (proj2 (wn_other _ _ _ _ C x (Hout x Hx))).
    + by rewrite (wn_tick _ _ _ _ C).
    + simpl in Hf. lia.
    + intros ? k' C'. simpl in C'. eapply woken_cons; [|exact C|].
      * intros [_ Hin]%list_elem_of_filter. done.
      * rewrite (filter_in _ (fun x => due k1 x = true)),
          (filter_in (fun x => due k x = false) (fun x => due k1 x = false));
          [done|intros x Hx; by rewrite Hdue..].
  - wp_step. rewrite Hl in Hs. pose proof (not_expired_rest b k (k_tick k) _ _ Hs Hb He) as F.
    assert (Hall : forall x, x ∈ t :: ts -> due k x = false).
    { intros x Hx. rewrite Forall_forall in F. apply F. by apply (list_elem_of_fmap_2 thread_timer) in Hx. }
    rewrite (filter_in _ (fun _ => False)), (filter_all (fun x => due k x = false));
      [|done|intros x Hx; by rewrite Hall].
    assert (Hnil : forall q : list tid, filter (fun _ => False) q = []) by (intros q; by induction q).
    rewrite Hnil. pose proof (woken_nil k Hk Ht) as W. by rewrite Hl in W.
Qed.
End tick.

(** C7: the timer interrupt wakes exactly the threads whose waiting time is over.
    In a state where the list of interrupt timers holds the timers of the sleeping
    threads [ts] and nothing else (no timer of the application among them),
    [rt_timer_check], with the kernel's timeout function and any fuel above the
    number of sleepers, makes each thread whose deadline has passed runnable with
    error [-RT_ETIMEOUT].  Each list other than the ready queues loses exactly these
    threads, so that all others keep waiting in their queue and in their order; their
    control blocks and timers are unchanged, and the timer list keeps exactly the
    timers not yet due.  The kernel invariant holds again. *)
Theorem rt_timer_check_wakes user_call b ts k fuel :
  kinv k -> 0 < k_irq_nest k -> k_hard k = map thread_timer ts -> k_htmp k = [] -> NoDup ts ->
  Forall (sleeper k) ts -> tsorted b (ticks k) (k_hard k) -> dist b (k_tick k) < tick_half ->
  (length ts < fuel)%nat ->
  wp (rt_timer_check (timeout_call user_call) fuel) (fun _ k' => kinv k' /\
    (forall t, t ∈ ts -> due k t = true ->
       active (k_thr k' t) /\ t_error (k_thr k' t) = - RT_ETIMEOUT /\
       forall l, (forall p, l <> LReady p) -> t ∉ k_list k' l) /\
    (forall l, (forall p, l <> LReady p) ->
       k_list k' l = filter (fun t => t ∉ filter (fun t => due k t = true) ts) (k_list k l)) /\
    (forall t, t ∉ ts \/ due k t = false ->
       th_frame (k_thr k t) (k_thr k' t) /\ k_tim k' (thread_timer t) = k_tim k (thread_timer t)) /\
    k_hard k' = map thread_timer (filter (fun t => due k t = false) ts)) k.
Proof.
  intros Hk Hirq Hl Ht Hnd Hsl Hs Hb Hf. unfold rt_timer_check, _timer_check. do 4 wp_step; [lia|].
  wp_step. apply spin_lock_wp. wp_step. pose proof (ki_nest _ Hk).
  eapply wp_mono; [apply (check_wakes_wp user_call b ts (lock1 k)); try done|].
  { by apply kinv_lock1. } { simpl. lia. }
  { rewrite Forall_forall in *. intros x Hx. by destruct (Hsl x Hx). }
  intros ? k1 C. simpl in C. pose proof (wn_nest _ _ _ _ C) as Hn1. simpl in Hn1.
  assert (Hk1 : kinv (unlock1 k1)) by (apply kinv_unlock1; [lia|apply C]).
  apply spin_unlock_wp; [apply C|lia|]. intros k' U. pose proof (un_frame _ _ U) as F.
  split; [by eapply kinv_unlocked|].
  assert (Hin : forall t, t ∈ ts -> due k t = true -> t ∈ filter (fun t => due (lock1 k) t = true) ts)
    by (intros; by apply list_elem_of_filter).
  split; [|split; [|split]].
  - intros t Hts Hd. destruct (wn_in _ _ _ _ C t (Hin t Hts Hd)) as [Ha He]. split; [by apply (sf_active F)|].
    destruct (sf_thr _ _ F t) as [E _]. split; [by rewrite E|]. intros l Hnr. rewrite (sf_list _ _ F) by done.
    simpl. rewrite (wn_list _ _ _ _ C) by done. intros [Hout _]%list_elem_of_filter. by apply Hout, Hin.
  - intros l Hnr. rewrite (sf_list _ _ F) by done. exact (wn_list _ _ _ _ C l Hnr).
  - intros t Hd. destruct (wn_other _ _ _ _ C t) as [Fr Tm].
    { intros [Hd' Hts]%list_elem_of_filter. change (due (lock1 k) t) with (due k t) in Hd'.
      destruct Hd; [done|congruence]. }
    split; [etransitivity; [exact Fr|apply (sf_thr _ _ F)]|].
    by rewrite (f_equal k_tim (sf_rest _ _ F) : k_tim k' = k_tim k1).
  - rewrite (f_equal k_hard (sf_rest _ _ F) : k_hard k' = k_hard k1). apply C.
Qed.

(** The sample state in the tick interrupt at tick 100, the deadline of thread 2. *)
Definition klate : kernel := set_k_tick 100 (set_k_irq_nest 1 kdemo).

Lemma kinv_tick_irq n m k : kinv k -> kinv (set_k_tick n (set_k_irq_nest m k)).
Proof. intros Hk. by eapply kinv_ext; [..|apply Hk|exact Hk]. Qed.

Lemma klate_sleeper : sleeper klate 2.
Proof. split; [unfold suspended; vm_compute; discriminate|reflexivity..]. Qed.

Lemma klate_sorted : tsorted 40 (ticks klate) (k_hard klate).
Proof. split; [repeat constructor|]. constructor; [reflexivity|constructor]. Qed.

Lemma rt_timer_check_wakes_witness :
  wp (rt_timer_check (timeout_call (fun _ _ => mret tt)) 2) (fun _ k' => kinv k' /\
    (forall t, t ∈ [2%positive] -> due klate t = true ->
       active (k_thr k' t) /\ t_error (k_thr k' t) = - RT_ETIMEOUT /\
       forall l, (forall p, l <> LReady p) -> t ∉ k_list k' l) /\
    (forall l, (forall p, l <> LReady p) ->
       k_list k' l = filter (fun t => t ∉ filter (fun t => due klate t = true) [2%positive]) (k_list klate l)) /\
    (forall t, t ∉ [2%positive] \/ due klate t = false ->
       th_frame (k_thr klate t) (k_thr k' t) /\ k_tim k' (thread_timer t) = k_tim klate (thread_timer t)) /\
    k_hard k' = []) klate.
Proof.
  apply (rt_timer_check_wakes (fun _ _ => mret tt) 40 [2%positive] klate 2).
  - apply kinv_tick_irq, kdemo_inv.
  - reflexivity.
  - reflexivity.
  - reflexivity.
  - apply NoDup_singleton.
  - constructor; [apply klate_sleeper|constructor].
  - apply klate_sorted.
  - reflexivity.
  - simpl. lia.
Defined.
