(* ===== verification/MemPool.v ===== *)
(** Memory pools, src/mempool.c: fixed-size blocks with a header word each; free
    blocks are chained through their headers, the header of a block in use points to
    its pool.

    The control block of pool [m] has address [mp_ptr m], outside the memory of the
    blocks.  [rt_malloc] and [rt_free] are the heap's: the memory obtained is an
    argument of [rt_mp_create]. *)
From S2P Require Import Prelude KState SchedUp Object TimerCore SchedComm SuspList Sem Timer Thread Demo SemTake IpcWait.
#[local] Open Scope Z_scope.

Definition mp (m : oid) : K rt_mempool := gets (fun k => k_mp k m).

(** Reading and writing a header word. *)
Definition load (a : Z) : K Z := gets (fun k => k_mem k a).
Definition store (a v : Z) : K unit := modify (fun k => set_k_mem (fupd a v (k_mem k)) k).

Definition mp_ptr (m : oid) : Z := Z.neg m.
Definition mp_at (p : Z) : option oid := match p with Z.neg m => Some m | _ => None end.

Definition sizeof_ptr : Z := 4.

(** [rt_set_errno] of src/klibc/kstdio.c; the global [__rt_errno], used in an interrupt
    and before the scheduler starts, is not part of the state. *)
Definition rt_set_errno (error : Z) : K unit :=
  nest ← gets k_irq_nest;
  self ← gets k_cur;
  match self with
  | Some tid => if nest =? 0 then upd_thr tid (set_t_error error) else mret tt
  | None => mret tt
  end.

(** * Initialisation *)

(** The [for] loop that chains the blocks: [n] turns from [offset]. *)
Fixpoint mp_link (n : nat) (offset block_ptr stride : Z) : K unit :=
  match n with
  | O => mret tt
  | S n =>
      store (u32 (block_ptr + offset * stride)) (u32 (block_ptr + (offset + 1) * stride));;
      mp_link n (offset + 1) block_ptr stride
  end.

(** The part [rt_mp_init] and [rt_mp_create] share, once the sizes are set. *)
Definition mp_setup (m : oid) : K unit :=
  upd_mp m (fun r => set_mp_free (mp_total r) r);;
  modify (fun k => set_k_list (fupd (LSusp (OMemPool m)) [] (k_list k)) k);;
  r ← mp m;
  let block_ptr := mp_start r in
  let stride := u32 (mp_block_size r + sizeof_ptr) in
  mp_link (Z.to_nat (mp_total r)) 0 block_ptr stride;;
  store (u32 (block_ptr + (mp_total r - 1) * stride)) 0;;
  upd_mp m (set_mp_block_list block_ptr).

Definition rt_mp_init (m : oid) (name : list Z) (start size block_size : Z) : K Z :=
  RT_ASSERT (negb (start =? 0));;
  RT_ASSERT ((0 <? size) && (0 <? block_size));;
  rt_object_init (OMemPool m) RT_Object_Class_MemPool name;;
  let size := RT_ALIGN_DOWN size RT_ALIGN_SIZE in
  let block_size := RT_ALIGN block_size RT_ALIGN_SIZE in
  upd_mp m (fun r => set_mp_start start (set_mp_size size (set_mp_block_size block_size
    (set_mp_total (size / u32 (block_size + sizeof_ptr)) r))));;
  mp_setup m;;
  mret RT_EOK.

Definition rt_mp_detach (m : oid) : K Z :=
  assert_type (OMemPool m) RT_Object_Class_MemPool;;
  sys ← rt_object_is_systemobject (OMemPool m);
  RT_ASSERT sys;;
  rt_spin_lock_irqsave;;
  rt_susp_list_resume_all (LSusp (OMemPool m)) RT_ERROR;;
  rt_object_detach (OMemPool m);;
  rt_spin_unlock_irqrestore;;
  mret RT_EOK.

(** [memory] is the control block and [blocks] the memory the heap returned. *)
Definition rt_mp_create (name : list Z) (block_count block_size : Z) (memory : option oid) (blocks : Z)
    : K (option oid) :=
  RT_DEBUG_NOT_IN_INTERRUPT;;
  RT_ASSERT ((0 <? block_count) && (0 <? block_size));;
  o ← rt_object_allocate RT_Object_Class_MemPool name (OMemPool <$> memory);
  match o, memory with
  | Some _, Some m =>
      let block_size := RT_ALIGN block_size RT_ALIGN_SIZE in
      upd_mp m (fun r => set_mp_block_size block_size
        (set_mp_size (u32 (u32 (block_size + sizeof_ptr) * block_count)) (set_mp_start blocks r)));;
      if blocks =? 0 then rt_object_delete (OMemPool m);; mret None else
      upd_mp m (set_mp_total block_count);;
      mp_setup m;;
      mret (Some m)
  | _, _ => mret None
  end.

(** [rt_free] of the blocks is the heap's. *)
Definition rt_mp_delete (m : oid) : K Z :=
  RT_DEBUG_NOT_IN_INTERRUPT;;
  assert_type (OMemPool m) RT_Object_Class_MemPool;;
  sys ← rt_object_is_systemobject (OMemPool m);
  RT_ASSERT (negb sys);;
  rt_spin_lock_irqsave;;
  rt_susp_list_resume_all (LSusp (OMemPool m)) RT_ERROR;;
  rt_spin_unlock_irqrestore;;
  rt_object_delete (OMemPool m);;
  mret RT_EOK.

(** * Allocation *)

(** After the waiting loop: the first free block leaves the chain. *)
Definition mp_take (m : oid) : K Z :=
  upd_mp m (fun r => set_mp_free (u32 (mp_free r - 1)) r);;
  r ← mp m;
  let block_ptr := mp_block_list r in
  RT_ASSERT (negb (block_ptr =? 0));;
  next ← load block_ptr;
  upd_mp m (set_mp_block_list next);;
  store block_ptr (mp_ptr m);;
  rt_spin_unlock_irqrestore;;
  mret (u32 (block_ptr + sizeof_ptr)).

(** The waiting loop from its test; 0 is NULL. *)
Definition mp_alloc_loop (m : oid) (self : option tid) (time before_sleep : Z) : K (wait Z) :=
  r ← mp m;
  if mp_free r =? 0 then
    if time =? 0 then
      rt_spin_unlock_irqrestore;;
      rt_set_errno (- RT_ETIMEOUT);;
      mret (Done 0)
    else
      RT_DEBUG_NOT_IN_INTERRUPT;;
      thread ← deref self;
      upd_thr thread (set_t_error RT_EOK);;
      rt_thread_suspend_to_list thread (Some (LSusp (OMemPool m))) RT_IPC_FLAG_FIFO RT_UNINTERRUPTIBLE;;
      now ← rt_tick_get;
      (if 0 <? time then arm_timeout thread time else mret tt);;
      rt_spin_unlock_irqrestore;;
      mret (Asleep time (if 0 <? time then now else before_sleep))
  else block ← mp_take m; mret (Done block).

Definition rt_mp_alloc_begin (m : oid) (time : Z) : K (wait Z) :=
  thread ← rt_thread_self;
  rt_spin_lock_irqsave;;
  mp_alloc_loop m thread time 0.

(** When the caller runs again. *)
Definition rt_mp_alloc_end (m : oid) (thread : tid) (time before_sleep : Z) : K (wait Z) :=
  rt_schedule;;
  th ← thr thread;
  if negb (t_error th =? RT_EOK) then mret (Done 0) else
  now ← rt_tick_get;
  rt_spin_lock_irqsave;;
  mp_alloc_loop m (Some thread) (time_left time before_sleep now) before_sleep.

(** * Release *)

Definition rt_mp_free (block : Z) : K unit :=
  if block =? 0 then mret tt else
  let block_ptr := u32 (block - sizeof_ptr) in
  word ← load block_ptr;
  m ← deref (mp_at word);
  rt_spin_lock_irqsave;;
  upd_mp m (fun r => set_mp_free (u32 (mp_free r + 1)) r);;
  r ← mp m;
  store block_ptr (mp_block_list r);;
  upd_mp m (set_mp_block_list block_ptr);;
  thread ← rt_susp_list_dequeue (LSusp (OMemPool m)) RT_EOK;
  match thread with
  | Some _ => rt_spin_unlock_irqrestore;; rt_schedule
  | None => rt_spin_unlock_irqrestore
  end.

(** * The shape of a pool *)

Definition stride (r : rt_mempool) : Z := mp_block_size r + sizeof_ptr.

(** The header of block number [i]. *)
Definition block_at (r : rt_mempool) (i : Z) : Z := mp_start r + i * stride r.
Definition is_block (r : rt_mempool) (b : Z) : Prop := exists i, 0 <= i < mp_total r /\ b = block_at r i.

(** From pointer [p] the headers lead along [fl] to NULL. *)
Fixpoint fchain (mem : Z -> Z) (p : Z) (fl : list Z) : Prop :=
  match fl with
  | [] => p = 0
  | b :: fl => p = b /\ fchain mem (mem b) fl
  end.

(** The free blocks are [fl], in the order in which they will be handed out; every
    other block points to its pool. *)
Record mp_ok (m : oid) (fl : list Z) (r : rt_mempool) (mem : Z -> Z) : Prop := mk_mp_ok {
  mo_start : 0 < mp_start r;
  mo_end : mp_start r + mp_size r <= 2 ^ 32;
  mo_bs : 0 < mp_block_size r;
  mo_total : 0 <= mp_total r /\ mp_total r * stride r <= mp_size r;
  mo_chain : fchain mem (mp_block_list r) fl;
  mo_nodup : NoDup fl;
  mo_blocks : forall b, b ∈ fl -> is_block r b;
  mo_used : forall b, is_block r b -> b ∉ fl -> mem b = mp_ptr m;
  mo_free : mp_free r = Z.of_nat (length fl)
}.

Definition pool (m : oid) (fl : list Z) (k : kernel) : Prop := mp_ok m fl (k_mp k m) (k_mem k).

Lemma fchain_upd mem a v p fl : a ∉ fl -> fchain mem p fl -> fchain (fupd a v mem) p fl.
Proof.
  revert p. induction fl as [|b fl IH]; intros p; simpl; [done|].
  intros [Ha1 Ha2]%not_elem_of_cons [-> H]. split; [done|]. rewrite fupd_ne by done. auto.
Qed.

(** A block with its header lies inside the memory of the pool. *)
Lemma block_inside m fl r mem b :
  mp_ok m fl r mem -> is_block r b -> mp_start r <= b /\ b + stride r <= mp_start r + mp_size r.
Proof.
  intros [? _ ? [? ?] _ _ _ _ _] (i & Hi & ->). unfold block_at, stride, sizeof_ptr in *. nia.
Qed.

(** Two blocks do not overlap. *)
Lemma blocks_apart r b b' :
  0 < mp_block_size r -> is_block r b -> is_block r b' -> b <> b' ->
  b + stride r <= b' \/ b' + stride r <= b.
Proof.
  intros Hbs (i & Hi & ->) (j & Hj & ->) Hne. unfold block_at in *.
  assert (i <> j) by (intros ->; done). assert (0 < stride r) by (unfold stride, sizeof_ptr; lia).
  destruct (Z.lt_ge_cases i j); [left|right]; nia.
Qed.

Lemma blocks_count m fl r mem : mp_ok m fl r mem -> Z.of_nat (length fl) <= mp_total r.
Proof.
  intros H. assert (Hsub : fl ⊆+ (block_at r <$> seqZ 0 (mp_total r))).
  { apply NoDup_submseteq; [apply H|]. intros b (i & Hi & ->)%(mo_blocks _ _ _ _ H).
    apply list_elem_of_fmap. exists i. split; [done|]. apply elem_of_seqZ. lia. }
  apply submseteq_length in Hsub. rewrite length_fmap, length_seqZ in Hsub.
  pose proof (mo_total _ _ _ _ H). lia.
Qed.

(** Handing out the first free block. *)
Lemma take_ok m b fl r mem :
  mp_ok m (b :: fl) r mem ->
  mp_ok m fl (set_mp_block_list (mem b) (set_mp_free (u32 (mp_free r - 1)) r)) (fupd b (mp_ptr m) mem).
Proof.
  intros H. pose proof (blocks_count _ _ _ _ H) as Hc. destruct H as [H1 H2 H3 H4 [_ H5] H6 H7 H8 H9].
  apply NoDup_cons in H6 as [H6 H6']. unfold stride, sizeof_ptr in H4. split; try done; simpl in *.
  - by apply fchain_upd.
  - intros b' Hb'. apply H7. by right.
  - intros b' Hb' Hn. destruct (decide (b' = b)) as [->|]; [by rewrite fupd_eq|].
    rewrite fupd_ne by done. apply H8; [done|]. set_solver.
  - rewrite H9, u32_id; [lia|]. nia.
Qed.

(** Taking a block back. *)
Lemma put_ok m b fl r mem :
  mp_ok m fl r mem -> is_block r b -> b ∉ fl ->
  mp_ok m (b :: fl) (set_mp_block_list b (set_mp_free (u32 (mp_free r + 1)) r))
    (fupd b (mp_block_list r) mem).
Proof.
  intros H Hb Hn.
  assert (G : mp_ok m (b :: fl) (set_mp_block_list b (set_mp_free (mp_free r + 1) r))
    (fupd b (mp_block_list r) mem)).
  { destruct H as [H1 H2 H3 H4 H5 H6 H7 H8 H9]. split; try done; simpl in *.
    - split; [done|]. rewrite fupd_eq. by apply fchain_upd.
    - by apply NoDup_cons.
    - intros b' [->|Hb']%elem_of_cons; [done|by apply H7].
    - intros b' Hb' [Hne Hn']%not_elem_of_cons. rewrite fupd_ne by done. by apply H8.
    - lia. }
  pose proof (blocks_count _ _ _ _ G) as Hc. destruct (mo_total _ _ _ _ H) as [_ Ht].
  pose proof (mo_end _ _ _ _ H). pose proof (mo_start _ _ _ _ H). pose proof (mo_bs _ _ _ _ H).
  simpl in Hc. unfold stride, sizeof_ptr in Ht. rewrite u32_id; [exact G|].
  rewrite (mo_free _ _ _ _ H). nia.
Qed.

(** * Operations on the kernel *)


(** The kernel with the control block and one header word of a pool replaced. *)
Definition put_pool (m : oid) (r : rt_mempool) (mem : Z -> Z) (k : kernel) : kernel :=
  set_k_mem mem (set_k_mp (fupd m r (k_mp k)) k).

Lemma kinv_put_pool m r mem k : kinv k -> kinv (put_pool m r mem k).
Proof. intros Hk. by eapply kinv_ext; [..|apply Hk|exact Hk]. Qed.

Lemma kobj_mp k k' : kobj k' = kobj k -> k_mp k' = k_mp k /\ k_mem k' = k_mem k.
Proof. intros H. split; [exact (f_equal k_mp H)|exact (f_equal k_mem H)]. Qed.

Lemma pool_obj m fl k k' : kobj k' = kobj k -> pool m fl k -> pool m fl k'.
Proof. intros [H1 H2]%kobj_mp. unfold pool. by rewrite H1, H2. Qed.

Lemma pool_put m fl r mem k k' :
  kobj k' = kobj (put_pool m r mem k) -> mp_ok m fl r mem -> pool m fl k'.
Proof. intros [H1 H2]%kobj_mp. unfold pool. rewrite H1, H2. simpl. by rewrite fupd_eq. Qed.

(** The caller's wait, with the result of the suspension ignored. *)
Lemma ignore_suspend_wp k t l flag sf timeout (prog : Z -> K (wait Z)) R :
  kinv k -> 1 <= k_lock_nest k -> running k t -> thread_ok k t -> wait_ok l flag -> timeout < tick_half ->
  (forall k', kinv k' -> blocked l flag (suspend_state sf) (0 <? timeout) t k k' ->
     deadline t timeout k k' -> wp (prog (k_tick k)) R k') ->
  wp (rt_thread_suspend_to_list t l flag sf;; now ← rt_tick_get;
      (if 0 <? timeout then arm_timeout t timeout else mret tt);; prog now) R k.
Proof.
  intros Hk Hn Hrun Htk Hl Hto HP. wp_step.
  pose proof (block_on_wp k t l flag sf timeout Hk Hn Hrun Htk Hl Hto) as H.
  apply wp_bind_inv in H. pose proof (suspend_wp k t l flag sf Hk Hn Hrun Htk Hl) as Hs.
  eapply wp_mono; [exact (wp_conj _ _ _ _ H Hs)|]. clear H Hs. intros r k1 [H (-> & _ & B & _)].
  change (RT_EOK =? RT_EOK) with true in H. cbn [negb] in H. unfold rt_tick_get. do 3 wp_step.
  rewrite (f_equal k_tick (bl_obj _ _ _ _ _ _ _ B) : k_tick k1 = k_tick k).
  apply wp_bind_inv in H. eapply wp_mono; [exact H|]. clear H. intros [] k2 H.
  destruct H as (_ & Hk2 & B2 & D2). by apply HP.
Qed.

(** * Allocation *)

Lemma mp_take_wp k m b fl :
  kinv k -> pool m (b :: fl) k ->
  wp (mp_take m) (fun p k' => p = b + sizeof_ptr /\ kinv k' /\ pool m fl k' /\
    (forall l, is_wait l -> k_list k' l = k_list k l) /\
    forall a, a <> b -> k_mem k' a = k_mem k a) (lock1 k).
Proof.
  intros Hk H. pose proof (take_ok _ _ _ _ _ H) as H'. pose proof (mo_chain _ _ _ _ H) as [Eb _].
  destruct (block_inside _ _ _ _ b H (mo_blocks _ _ _ _ H b ltac:(left))) as [Hb1 Hb2].
  pose proof (mo_start _ _ _ _ H). pose proof (mo_end _ _ _ _ H). pose proof (mo_bs _ _ _ _ H).
  unfold stride, sizeof_ptr in Hb2.
  unfold mp_take, mp, load, store, upd_mp. do 4 wp_step. simpl. rewrite fupd_eq. simpl. rewrite Eb.
  wp_step. wp_step; [by apply negb_true_iff, Z.eqb_neq; lia|]. do 6 wp_step.
  match goal with |- wp _ _ ?s => set (s' := s) end.
  assert (Es : s' = lock1 (set_k_mem (fupd b (mp_ptr m) (k_mem k)) (set_k_mp (k_mp s') k))) by done.
  rewrite Es. wp_step. apply unlock_plain_wp.
  { eapply kinv_ext; [..|apply Hk|exact Hk]; done. }
  intros k' Hk' U. wp_step. rewrite u32_id by (unfold sizeof_ptr; lia). split; [done|]. split; [done|].
  pose proof (kobj_sched _ _ (sf_rest _ _ (un_frame _ _ U))) as [E1 E2]%kobj_mp.
  split; [|split].
  - unfold pool. rewrite E1, E2. unfold s'. simpl. by rewrite !fupd_eq.
  - intros l Hw. rewrite (sf_list _ _ (un_frame _ _ U)) by (by intros p ->). done.
  - intros a Ha. rewrite E2. simpl. by rewrite fupd_ne.
Qed.

(** [rt_set_errno] changes the error number of the running thread at most. *)
Lemma set_errno_wp e k :
  kinv k -> wp (rt_set_errno e) (fun _ k' => kinv k' /\ k_list k' = k_list k /\ kobj k' = kobj k) k.
Proof.
  intros Hk. unfold rt_set_errno, upd_thr. do 4 wp_step. destruct (k_cur k) as [t|]; [|by wp_step].
  case_bool; wp_step; [|done]. split; [by apply (kinv_put_error t e)|done].
Qed.

(** [rt_mp_alloc].  With a free block it returns the address behind the header of
    the first one, which leaves the free list, and writes no other header.  Without,
    a zero timeout gives NULL and changes no pool and no queue; any other timeout
    leaves the caller suspended at the end of the pool's queue, its locals being the
    timeout and, when it is positive, the current tick. *)
Lemma rt_mp_alloc_spec k t m fl time :
  kinv k -> pool m fl k -> (time <> 0 -> callable k t) -> time < tick_half ->
  let l := LSusp (OMemPool m) in
  wp (rt_mp_alloc_begin m time) (fun r k' => kinv k' /\
    match fl with
    | b :: fl' => r = Done (b + sizeof_ptr) /\ pool m fl' k' /\ k_list k' l = k_list k l /\
        forall a, a <> b -> k_mem k' a = k_mem k a
    | [] => pool m [] k' /\ k_mem k' = k_mem k /\
        if time =? 0 then r = Done 0 /\ k_list k' l = k_list k l
        else r = Asleep time (if 0 <? time then k_tick k else 0) /\
             suspended (k_thr k' t) /\ k_list k' l = k_list k l ++ [t]
    end) k.
Proof.
  intros Hk H Hcall Hto l. pose proof (ki_nest _ Hk) as Hn.
  unfold rt_mp_alloc_begin, mp_alloc_loop, mp, rt_thread_self. do 3 wp_step. apply spin_lock_wp. do 2 wp_step.
  simpl. rewrite (mo_free _ _ _ _ H). destruct fl as [|b fl]; simpl.
  2:{ wp_step. eapply wp_mono; [by apply mp_take_wp|]. intros p k' (-> & Hk' & H' & Hl & Hm).
      wp_step. split; [done|]. split; [done|]. split; [done|]. split; [by apply Hl|done]. }
  case_bool.
  - wp_step. apply unlock_plain_wp; [done|]. intros k1 Hk1 U. wp_step.
    eapply wp_mono; [by apply set_errno_wp|]. intros _ k' (Hk' & Hl & Ho). wp_step. split; [done|].
    assert (Ho' : kobj k' = kobj k) by (rewrite Ho; apply kobj_sched, U).
    split; [by eapply pool_obj|]. split; [by apply kobj_mp|]. split; [done|].
    rewrite Hl. by apply (sf_list _ _ (un_frame _ _ U)).
  - destruct (Hcall E) as [Hrun Htk _ Hirq]. unfold RT_DEBUG_NOT_IN_INTERRUPT, upd_thr. do 3 wp_step.
    wp_step; [simpl; by rewrite Hirq|]. wp_step. eapply wp_deref; [apply Hrun|]. do 2 wp_step.
    set (ke := put_error t RT_EOK k). change (set_k_thr _ (lock1 k)) with (lock1 ke).
    assert (Hke : kinv ke) by (by apply kinv_put_error).
    assert (Hr : running ke t) by (by apply (running_put_thr t t (set_t_error RT_EOK))).
    eapply ignore_suspend_wp; [by apply kinv_lock1|simpl; lia|done|by destruct Htk|done|done|].
    intros k1 Hk1 B D. assert (Hn1 : k_lock_nest k1 = k_lock_nest k + 1)
      by exact (kobj_nest _ _ (bl_obj _ _ _ _ _ _ _ B)).
    wp_step. apply spin_unlock_wp; [apply Hk1|lia|]. intros k' U. wp_step.
    assert (S : went_to_sleep l RT_IPC_FLAG_FIFO RT_UNINTERRUPTIBLE time t ke k').
    { exists (unlock1 k1). split; [by apply blocked_unlock1|done]. }
    pose proof (slept_kobj _ _ _ _ _ _ _ S) as Ho.
    split; [eapply kinv_unlocked; [|exact U]; apply kinv_unlock1; [lia|done]|].
    split; [by eapply pool_obj|]. split; [exact (proj2 (kobj_mp _ _ Ho))|].
    split; [done|]. split; [by apply (slept_self _ _ _ _ _ _ _ S)|].
    exact (slept_list l _ _ _ _ _ _ I S).
Qed.

(** * Release *)

(** [rt_mp_free] of a block in use puts it in front of the free list, writes no
    other header, and resumes the first thread that waits for the pool. *)
Lemma rt_mp_free_spec k m fl b :
  kinv k -> can_sched k -> pool m fl k -> is_block (k_mp k m) b -> b ∉ fl ->
  let l := LSusp (OMemPool m) in
  wp (rt_mp_free (b + sizeof_ptr)) (fun _ k' => kinv k' /\ pool m (b :: fl) k' /\
    served l k k' /\ k_list k' l = tail (k_list k l) /\
    forall a, a <> b -> k_mem k' a = k_mem k a) k.
Proof.
  intros Hk Hc H Hb Hn l. pose proof (put_ok _ _ _ _ _ H Hb Hn) as H'.
  destruct (block_inside _ _ _ _ b H Hb) as [Hb1 Hb2]. pose proof (mo_start _ _ _ _ H).
  pose proof (mo_end _ _ _ _ H). pose proof (mo_bs _ _ _ _ H). unfold stride, sizeof_ptr in Hb2.
  unfold rt_mp_free, load, store, upd_mp, mp. rewrite (proj2 (Z.eqb_neq _ _)) by (unfold sizeof_ptr; lia).
  rewrite Z.add_simpl_r, u32_id by lia. do 2 wp_step. rewrite (mo_used _ _ _ _ H b Hb Hn). wp_step.
  eapply wp_deref; [done|]. wp_step. apply spin_lock_wp. do 8 wp_step. simpl. rewrite fupd_eq. simpl.
  match goal with |- wp _ _ ?s => set (s' := s) end.
  set (k1 := set_k_mem (k_mem s') (set_k_mp (k_mp s') k)).
  change s' with (lock1 k1). assert (Hk1 : kinv k1) by (by eapply kinv_ext; [..|apply Hk|exact Hk]).
  assert (W1 : forall k', woke_first l k1 k' -> pool m (b :: fl) k' /\ served l k k' /\
    k_list k' l = tail (k_list k l) /\ forall a, a <> b -> k_mem k' a = k_mem k a).
  { intros k' W. pose proof (woke_first_obj _ _ _ W) as [E1 E2]%kobj_mp. split; [|split; [|split]].
    - unfold pool. rewrite E1, E2. unfold k1, s'. simpl. by rewrite !fupd_eq.
    - exact (woke_first_served l k1 k' W).
    - rewrite (woke_first_list l k1 k' l Hk1 W I I). by rewrite decide_True.
    - intros a Ha. rewrite E2. unfold k1, s'. simpl. by rewrite fupd_ne. }
  wp_step. eapply wp_mono; [apply dequeue_wp; [by apply kinv_lock1|done]|]. fold l.
  change (k_list (lock1 k1) l) with (k_list k1 l). unfold woke in W1. intros r k2 (Hk2 & Hr).
  destruct (k_list k1 l) as [|t q]; destruct Hr as [-> Hr].
  - subst k2. apply unlock_plain_wp; [done|]. intros k' Hk' U. split; [done|]. by apply W1.
  - wp_step. eapply wp_mono; [by apply (wake_unlock_wp RT_EOK t k1)|]. intros _ k3 [Hk3 R3].
    eapply wp_mono; [by apply (wake_sched_wp RT_EOK t k1)|]. intros _ k' [Hk' R]. split; [done|]. by apply W1.
Qed.

(** * Initialisation *)

Lemma mp_link_wp n o p st k :
  0 < p -> 0 < st -> 0 <= o -> p + (o + Z.of_nat n) * st <= 2 ^ 32 -> st * 1 < 2 ^ 32 ->
  wp (mp_link n o p st) (fun _ k' => k' = set_k_mem (k_mem k') k /\
    (forall i, o <= i < o + Z.of_nat n -> k_mem k' (p + i * st) = u32 (p + (i + 1) * st)) /\
    forall a, (forall i, o <= i < o + Z.of_nat n -> a <> p + i * st) -> k_mem k' a = k_mem k a) k.
Proof.
  intros Hp Hst. revert o k. induction n as [|n IH]; intros o k Ho Hend Hst2; cbn [mp_link].
  - wp_step. split; [by destruct k|]. split; [lia|done].
  - unfold store. do 2 wp_step. rewrite u32_id by nia.
    eapply wp_mono; [apply IH; [lia|nia|done]|]. intros _ k' (E & H1 & H2). split; [by rewrite E|].
    split.
    + intros i Hi. destruct (decide (i = o)) as [->|]; [|apply H1; lia].
      rewrite H2; [simpl; by rewrite fupd_eq|]. intros j Hj. nia.
    + intros a Ha. rewrite H2; [simpl; rewrite fupd_ne; [done|apply Ha; lia]|]. intros i Hi. apply Ha. lia.
Qed.

Lemma fchain_blocks mem r n i :
  (forall j, i <= j < i + Z.of_nat n -> mem (block_at r j) =
     if decide (j + 1 = i + Z.of_nat n) then 0 else block_at r (j + 1)) ->
  (0 < n)%nat -> fchain mem (block_at r i) (block_at r <$> seqZ i (Z.of_nat n)).
Proof.
  revert i. induction n as [|n IH]; intros i Hm Hn; [lia|].
  rewrite seqZ_cons by lia. rewrite fmap_cons. split; [done|].
  replace (Z.pred (Z.of_nat (S n))) with (Z.of_nat n) by lia. rewrite Hm by lia.
  destruct n as [|n].
  - by rewrite decide_True by lia.
  - rewrite decide_False by lia. replace (Z.succ i) with (i + 1) by lia. apply IH; [|lia].
    intros j Hj. rewrite Hm by lia. replace (i + 1 + Z.of_nat (S n)) with (i + Z.of_nat (S (S n))) by lia. done.
Qed.

Lemma kinv_upd_pool_type m ty k : kinv k -> kinv (set_k_type (fupd (OMemPool m) ty (k_type k)) k).
Proof.
  intros [W A N]. split; [by eapply kwf_ext; [..|exact W]| |done].
  intros t Hs Ht. unfold typed. simpl. rewrite fupd_ne by done. by apply A.
Qed.

(** What [rt_object_init] of a memory pool leaves. *)
Lemma init_object_wp k m name :
  kinv k -> OMemPool m ∉ k_objs k RT_Object_Class_MemPool ->
  wp (rt_object_init (OMemPool m) RT_Object_Class_MemPool name) (fun _ k' => kinv k' /\
    typed k' (OMemPool m) RT_Object_Class_MemPool /\ k_list k' (LSusp (OMemPool m)) = k_list k (LSusp (OMemPool m))) k.
Proof.
  intros Hk Hn. unfold rt_object_init, set_type, set_name, objs_push. wp_step. eapply wp_deref; [reflexivity|].
  wp_step. apply spin_lock_wp. do 3 wp_step.
  wp_step. { apply forallb_forall. intros o Ho%list_elem_of_In. apply bool_decide_eq_true. by intros ->. }
  wp_step. apply unlock_plain_wp; [done|]. intros k1 Hk1 U1. do 4 wp_step.
  set (k2 := set_k_type _ k1).
  assert (Hk2 : kinv k2) by (by apply kinv_upd_pool_type).
  wp_step. apply spin_lock_wp. do 2 wp_step. set (k3 := set_k_name _ k2).
  match goal with |- wp _ _ ?s => set (s' := s) end.
  change s' with (lock1 (set_k_objs (k_objs s') k3)). apply unlock_plain_wp.
  { eapply kinv_ext; [..|apply Hk2|exact Hk2]; done. }
  intros k' Hk' U. pose proof (un_frame _ _ U) as F. split; [done|]. split.
  - unfold typed. rewrite (f_equal k_type (sf_rest _ _ F) : k_type k' = k_type k3). simpl. by rewrite fupd_eq.
  - rewrite (sf_list _ _ F) by done. simpl. by rewrite (sf_list _ _ (un_frame _ _ U1)).
Qed.

(** Setting up the chain of blocks. *)
Lemma mp_setup_wp k m :
  let r := k_mp k m in
  kinv k -> 0 < mp_start r -> mp_start r + mp_size r <= 2 ^ 32 -> 0 < mp_block_size r ->
  0 < mp_total r -> mp_total r * stride r <= mp_size r -> k_list k (LSusp (OMemPool m)) = [] ->
  wp (mp_setup m) (fun _ k' => kinv k' /\ k_type k' = k_type k /\
    k_mp k' m = set_mp_block_list (mp_start r) (set_mp_free (mp_total r) r) /\
    pool m (block_at r <$> seqZ 0 (mp_total r)) k') k.
Proof.
  intros r Hk Hs He Hb Ht Hts Hl. assert (Hst : 0 < stride r) by (unfold stride, sizeof_ptr; lia).
  unfold mp_setup, upd_mp, mp, store. do 6 wp_step. simpl. rewrite fupd_eq. simpl. fold r.
  assert (Hst32 : stride r < 2 ^ 32) by nia. change (mp_block_size r + sizeof_ptr) with (stride r).
  rewrite (u32_id (stride r)) by lia. wp_step. eapply wp_mono; [apply mp_link_wp; [done|done|lia|nia|lia]|].
  intros _ k1 (E1 & Hin & Hout). do 2 wp_step. wp_step.
  match goal with |- kinv ?s /\ _ => set (k' := s) end.
  assert (Hthr : k_thr k' = k_thr k) by (unfold k'; simpl; by rewrite E1).
  assert (Hll : forall l, k_list k' l = k_list k l).
  { intros l. unfold k'. simpl. rewrite E1. simpl.
    destruct (decide (l = LSusp (OMemPool m))) as [->|]; [by rewrite fupd_eq, Hl|by rewrite fupd_ne]. }
  assert (Hmp : k_mp k' m = set_mp_block_list (mp_start r) (set_mp_free (mp_total r) r)).
  { unfold k'. simpl. rewrite fupd_eq, E1. simpl. by rewrite fupd_eq. }
  split; [|split; [unfold k'; simpl; by rewrite E1|split; [done|]]].
  - eapply kinv_ext; [..|exact Hk]; try (by rewrite Hthr); try done; unfold k'; simpl; rewrite E1; try done. apply Hk.
  - unfold pool. rewrite Hmp.
    assert (Hmem : forall j, 0 <= j < mp_total r -> k_mem k' (block_at r j) =
      if decide (j + 1 = mp_total r) then 0 else block_at r (j + 1)).
    { intros j Hj. unfold k', block_at. simpl. rewrite (u32_id (mp_start r + _)) by nia.
      case_decide; [replace j with (mp_total r - 1) by lia; by rewrite fupd_eq|].
      rewrite fupd_ne by nia. rewrite Hin by lia. rewrite u32_id; [done|].
      assert ((j + 1) * stride r + stride r <= mp_total r * stride r) by nia. nia. }
    clearbody k'. split; simpl; try done; [split; [lia|exact Hts]| | | | |].
    + replace (mp_start r) with (block_at r 0) by (unfold block_at; lia).
      replace (mp_total r) with (Z.of_nat (Z.to_nat (mp_total r))) by lia.
      apply fchain_blocks; [|lia]. intros j Hj. rewrite Hmem by lia.
      by replace (0 + Z.of_nat (Z.to_nat (mp_total r))) with (mp_total r) by lia.
    + apply NoDup_fmap_2; [|apply NoDup_seqZ]. intros i j. unfold block_at. nia.
    + intros b (i & -> & Hi%elem_of_seqZ)%list_elem_of_fmap. exists i. split; [simpl; lia|done].
    + intros b (i & Hi & ->) Hn. exfalso. apply Hn, list_elem_of_fmap. exists i.
      split; [done|]. apply elem_of_seqZ. simpl in Hi. lia.
    + rewrite length_fmap, length_seqZ. lia.
Qed.

(** C13: [rt_mp_init] builds a pool: with memory for at least one block, all blocks,
    [size] divided by block and header rounded down, are free in the order of their
    addresses, the block size is rounded up to a multiple of 8, and the object has the
    class of memory pools. *)
Theorem rt_mp_init_spec k m name start size block_size :
  kinv k -> k_list k (LSusp (OMemPool m)) = [] -> OMemPool m ∉ k_objs k RT_Object_Class_MemPool ->
  0 < start -> start + size <= 2 ^ 32 -> 0 < block_size ->
  RT_ALIGN block_size RT_ALIGN_SIZE + sizeof_ptr <= RT_ALIGN_DOWN size RT_ALIGN_SIZE ->
  block_size < 2 ^ 32 - 8 ->
  wp (rt_mp_init m name start size block_size) (fun r k' => r = RT_EOK /\ kinv k' /\
    typed k' (OMemPool m) RT_Object_Class_MemPool /\
    let p := k_mp k' m in
    mp_start p = start /\ block_size <= mp_block_size p < block_size + 8 /\ mp_block_size p mod 8 = 0 /\
    mp_total p = RT_ALIGN_DOWN size RT_ALIGN_SIZE / stride p /\ 0 < mp_total p /\
    pool m (block_at p <$> seqZ 0 (mp_total p)) k') k.
Proof.
  intros Hk Hl Ho Hs He Hb Hfit Hb32. unfold RT_ALIGN_SIZE in *. rewrite RT_ALIGN_DOWN_8 in *.
  destruct (RT_ALIGN_8_bounds block_size ltac:(lia)) as [Hba Hbm].
  pose proof (Z.mod_pos_bound size 8 ltac:(lia)). unfold sizeof_ptr in Hfit.
  unfold rt_mp_init, upd_mp. wp_step. wp_step; [by apply negb_true_iff, Z.eqb_neq; lia|].
  wp_step. wp_step; [apply andb_true_iff; split; apply Z.ltb_lt; lia|].
  wp_step. eapply wp_mono; [by apply init_object_wp|]. intros _ k1 (Hk1 & Hty & Hl1). do 2 wp_step.
  unfold RT_ALIGN_SIZE. rewrite RT_ALIGN_DOWN_8, u32_id by (unfold sizeof_ptr; lia).
  set (bs := RT_ALIGN block_size 8) in *. set (sz := size - size mod 8) in *.
  set (r := set_mp_start _ _). set (k2 := set_k_mp _ k1).
  assert (Er : k_mp k2 m = r) by (simpl; by rewrite fupd_eq).
  assert (Htot : 0 < sz / (bs + sizeof_ptr)) by (apply Z.div_str_pos; unfold sizeof_ptr; lia).
  assert (Hmul : sz / (bs + sizeof_ptr) * (bs + sizeof_ptr) <= sz)
    by (rewrite Z.mul_comm; apply Z.mul_div_le; unfold sizeof_ptr; lia).
  wp_step. eapply wp_mono; [apply (mp_setup_wp k2 m); rewrite ?Er; try done|].
  - by eapply kinv_ext; [..|apply Hk1|exact Hk1].
  - simpl. lia.
  - simpl. lia.
  - simpl. by rewrite Hl1.
  - rewrite Er. intros _ k' (Hk' & Hty' & Emp & Hp). wp_step. split; [done|]. split; [done|].
    split; [unfold typed; by rewrite Hty'|]. rewrite Emp. simpl. split; [done|]. split; [lia|]. by split.
Qed.

(** a block handed out by a pool lies inside the memory of the pool, behind its
    own header, and overlaps neither header nor contents of any other block, in use
    or free. *)
Lemma mp_alloc_apart k m fl :
  kinv k -> pool m fl k ->
  let r := k_mp k m in
  wp (rt_mp_alloc_begin m 0) (fun w _ => forall p, w = Done p -> p <> 0 ->
    mp_start r + sizeof_ptr <= p /\ p + mp_block_size r <= mp_start r + mp_size r /\
    is_block r (p - sizeof_ptr) /\
    forall b, is_block r b -> b <> p - sizeof_ptr -> b + stride r <= p - sizeof_ptr \/ p + mp_block_size r <= b) k.
Proof.
  intros Hk H r. subst r. unfold rt_mp_alloc_begin, mp_alloc_loop, mp, rt_thread_self.
  do 3 wp_step. apply spin_lock_wp. do 2 wp_step. simpl.
  destruct fl as [|b fl]; rewrite (mo_free _ _ _ _ H); simpl.
  - wp_step. apply unlock_plain_wp; [done|]. intros k1 Hk1 _. wp_step.
    eapply wp_mono; [by apply set_errno_wp|]. intros _ k' _. wp_step. by intros p [= <-].
  - wp_step. eapply wp_mono; [by eapply mp_take_wp|]. intros p k' (-> & _). wp_step. intros p [= <-] _.
    rewrite Z.add_simpl_r. assert (Hb : is_block (k_mp k m) b) by (apply (mo_blocks _ _ _ _ H); left).
    destruct (block_inside _ _ _ _ b H Hb). pose proof (mo_bs _ _ _ _ H).
    unfold stride, sizeof_ptr in *. split; [lia|]. split; [lia|]. split; [done|].
    intros b' Hb' Hne. pose proof (blocks_apart (k_mp k m) b' b ltac:(done) Hb' Hb Hne).
    unfold stride, sizeof_ptr in *. lia.
Qed.

(** * A concrete pool *)

(** Three blocks of 16 bytes at address 1000; the block at 1020 is in use. *)
Definition kpool : kernel :=
  put_pool 1 (mk_mp 1000 64 16 1000 3 2)
    (fun a => if a =? 1000 then 1040 else if a =? 1020 then mp_ptr 1 else 0) kdemo.

Lemma kpool_ok : pool 1 [1000; 1040] kpool.
Proof.
  split; try done.
  - apply NoDup_cons. split; [by intros ?%list_elem_of_singleton|apply NoDup_singleton].
  - intros b [->| ->%list_elem_of_singleton]%elem_of_cons; [exists 0|exists 2]; simpl; done.
  - intros b (i & Hi & ->) Hn. simpl in Hi. assert (i = 0 \/ i = 1 \/ i = 2) as [->|[->| ->]] by lia; [|done|];
      (exfalso; apply Hn); [left|right; left].
Qed.

Lemma kpool_inv : kinv kpool.
Proof. apply kinv_put_pool, kdemo_inv. Qed.

Lemma rt_mp_alloc_spec_witness :
  wp (rt_mp_alloc_begin 1 0) (fun r k' => kinv k' /\ r = Done 1004 /\ pool 1 [1040] k' /\
    k_list k' (LSusp (OMemPool 1)) = k_list kpool (LSusp (OMemPool 1)) /\
    forall a, a <> 1000 -> k_mem k' a = k_mem kpool a) kpool.
Proof. apply (rt_mp_alloc_spec kpool 1 1 [1000; 1040] 0 kpool_inv kpool_ok); done. Defined.

Lemma rt_mp_free_spec_witness :
  wp (rt_mp_free 1024) (fun _ k' => kinv k' /\ pool 1 [1020; 1000; 1040] k' /\
    served (LSusp (OMemPool 1)) kpool k' /\
    k_list k' (LSusp (OMemPool 1)) = tail (k_list kpool (LSusp (OMemPool 1))) /\
    forall a, a <> 1020 -> k_mem k' a = k_mem kpool a) kpool.
Proof.
  apply (rt_mp_free_spec kpool 1 [1000; 1040] 1020 kpool_inv).
  - left. by eexists.
  - apply kpool_ok.
  - exists 1. done.
  - rewrite !elem_of_cons, elem_of_nil. lia.
Defined.

Lemma rt_mp_init_spec_witness :
  wp (rt_mp_init 1 [112] 1000 100 12) (fun r k' => r = RT_EOK /\ kinv k' /\
    typed k' (OMemPool 1) RT_Object_Class_MemPool /\
    let p := k_mp k' 1%positive in
    mp_start p = 1000 /\ 12 <= mp_block_size p < 12 + 8 /\ mp_block_size p mod 8 = 0 /\
    mp_total p = RT_ALIGN_DOWN 100 RT_ALIGN_SIZE / stride p /\ 0 < mp_total p /\
    pool 1 (block_at p <$> seqZ 0 (mp_total p)) k') kdemo.
Proof.
  apply (rt_mp_init_spec kdemo 1 [112] 1000 100 12 kdemo_inv); try done.
  intros H. by apply elem_of_nil in H.
Defined.

Lemma mp_alloc_apart_witness :
  wp (rt_mp_alloc_begin 1 0) (fun w _ => forall p, w = Done p -> p <> 0 ->
    1004 <= p /\ p + 16 <= 1064 /\ is_block (k_mp kpool 1%positive) (p - sizeof_ptr) /\
    forall b, is_block (k_mp kpool 1%positive) b -> b <> p - sizeof_ptr ->
      b + stride (k_mp kpool 1%positive) <= p - sizeof_ptr \/ p + 16 <= b) kpool.
Proof. apply (mp_alloc_apart kpool 1 [1000; 1040] kpool_inv kpool_ok). Defined.
