(* ===== verification/SList.v ===== *)
(** Singly linked lists, include/rtservice.h: the pointer operations on [rt_slist_t] and the
    lists they stand for.  The nodes are of any type; a head is a node that no list
    contains. *)
From S2P Require Import Prelude.
#[local] Open Scope Z_scope.

Section slist.
Context {A : Type} `{EqDecision A}.
Implicit Types (l n x y : A) (xs : list A).

(** [struct rt_slist_node] of every node: its [next] pointer. *)
Definition snodes : Type := A -> option A.
Implicit Types h : snodes.

Definition rt_slist_init l h : snodes := fupd l None h.

Definition rt_slist_insert l n h : snodes := fupd l (Some n) (fupd n (h l) h).

(** [while (node->next) node = node->next;]. *)
Fixpoint slist_last_loop (fuel : nat) node h : option A :=
  match fuel with
  | O => None
  | S fuel => match h node with Some y => slist_last_loop fuel y h | None => Some node end
  end.

(** [while (node->next && node->next != n) node = node->next;]. *)
Fixpoint slist_find_loop (fuel : nat) node n h : option A :=
  match fuel with
  | O => None
  | S fuel =>
    match h node with
    | Some y => if decide (y <> n) then slist_find_loop fuel y n h else Some node
    | None => Some node
    end
  end.

Fixpoint slist_len_loop (fuel : nat) (list : option A) (len : Z) h : option Z :=
  match fuel with
  | O => None
  | S fuel => match list with Some y => slist_len_loop fuel (h y) (u32 (len + 1)) h | None => Some len end
  end.

Definition rt_slist_append (fuel : nat) l n h : option snodes :=
  node ← slist_last_loop fuel l h;
  Some (fupd n None (fupd node (Some n) h)).

Definition rt_slist_len (fuel : nat) l h : option Z := slist_len_loop fuel (h l) 0 h.

Definition rt_slist_remove (fuel : nat) l n h : option snodes :=
  node ← slist_find_loop fuel l n h;
  Some (match h node with Some y => fupd node (h y) h | None => h end).

Definition rt_slist_first l h : option A := h l.
Definition rt_slist_next n h : option A := h n.
Definition rt_slist_tail (fuel : nat) l h : option A := slist_last_loop fuel l h.
Definition rt_slist_isempty l h : bool := bool_decide (h l = None).

(** * Shape *)

(** From [x] the pointers lead along [xs] and end with NULL. *)
Fixpoint chain h x xs : Prop :=
  match xs with [] => h x = None | y :: xs => h x = Some y /\ chain h y xs end.

Definition slist h l xs : Prop := NoDup (l :: xs) /\ chain h l xs.

Lemma chain_frame h h' x xs : (forall y, y ∈ x :: xs -> h' y = h y) -> chain h x xs -> chain h' x xs.
Proof.
  revert x. induction xs as [|y xs IH]; intros x He; simpl; rewrite (He x) by left; [done|].
  intros [-> Hc]. split; [done|]. apply IH; [|done]. intros z Hz. apply He. by right.
Qed.

Lemma chain_fupd h n v x xs : n ∉ x :: xs -> chain h x xs -> chain (fupd n v h) x xs.
Proof. intros Hn. apply chain_frame. intros y Hy. apply fupd_ne. by intros ->. Qed.

Lemma slist_frame h h' l xs : (forall y, y ∈ l :: xs -> h' y = h y) -> slist h l xs -> slist h' l xs.
Proof. intros He [Hn Hc]. split; [done|]. by apply (chain_frame h). Qed.

Lemma slist_init h l : slist (rt_slist_init l h) l [].
Proof. split; [apply NoDup_singleton|]. simpl. apply fupd_eq. Qed.

Lemma slist_first h l xs : slist h l xs -> rt_slist_first l h = head xs.
Proof. intros [_ H]. destruct xs; [done|]. by destruct H. Qed.

Lemma slist_isempty h l xs : slist h l xs -> rt_slist_isempty l h = bool_decide (xs = []).
Proof. intros H%slist_first. unfold rt_slist_isempty. unfold rt_slist_first in H. rewrite H. by destruct xs. Qed.

Lemma slist_next h l xs y ys : slist h l (xs ++ y :: ys) -> rt_slist_next y h = head ys.
Proof.
  intros [_ H]. revert l H. induction xs as [|z xs IH]; intros l [_ H]; [|by apply (IH z)].
  destruct ys; [done|]. by destruct H.
Qed.

Lemma slist_insert h l xs n : slist h l xs -> n ∉ l :: xs -> slist (rt_slist_insert l n h) l (n :: xs).
Proof.
  intros [Hnd Hc] [Hnl Hn]%not_elem_of_cons. apply NoDup_cons in Hnd as [Hl Hnd]. split.
  { apply NoDup_cons. split; [by apply not_elem_of_cons|]. by apply NoDup_cons. }
  unfold rt_slist_insert. simpl. rewrite fupd_eq. split; [done|].
  apply chain_fupd; [by apply not_elem_of_cons|].
  destruct xs as [|y xs]; simpl in *; rewrite fupd_eq; [done|]. destruct Hc as [-> Hc]. split; [done|].
  by apply chain_fupd.
Qed.

Lemma slist_len_loop_eq h xs : forall x fuel len, chain h x xs -> (length xs < fuel)%nat ->
  slist_len_loop fuel (h x) len h = Some (if decide (xs = []) then len else u32 (len + Z.of_nat (length xs))).
Proof.
  induction xs as [|y xs IH]; intros x fuel len Hc Hf; (destruct fuel as [|fuel]; [simpl in *; lia|]); simpl in Hc.
  - by rewrite Hc.
  - destruct Hc as [-> Hc]. cbn [slist_len_loop]. rewrite (IH y) by (done || simpl in Hf; lia).
    rewrite (decide_False (P := y :: xs = [])) by done. f_equal. case_decide; subst; [done|].
    unfold u32, uwrap. rewrite Zplus_mod_idemp_l. f_equal. simpl. lia.
Qed.

Lemma default_last_in x xs : default x (last xs) ∈ x :: xs.
Proof.
  destruct (last xs) as [w|] eqn:Ew; simpl; [|left]. right. apply last_Some in Ew as [l' ->]. set_solver.
Qed.

Lemma default_last_cons x y xs : default x (last (y :: xs)) = default y (last xs).
Proof. rewrite last_cons. by destruct (last xs). Qed.

Lemma slist_last_loop_eq h xs : forall x fuel, chain h x xs -> (length xs < fuel)%nat ->
  slist_last_loop fuel x h = Some (default x (last xs)).
Proof.
  induction xs as [|y xs IH]; intros x fuel Hc Hf; (destruct fuel as [|fuel]; [simpl in *; lia|]); simpl in Hc.
  - cbn. by rewrite Hc.
  - destruct Hc as [E Hc]. cbn [slist_last_loop]. rewrite E, default_last_cons. apply IH; [done|simpl in Hf; lia].
Qed.

(** The loop that looks for [n] stops in front of it, or at the end. *)
Lemma slist_find_loop_eq h n xs ys : forall x fuel, n ∉ xs -> chain h x (xs ++ n :: ys) ->
  (length xs < fuel)%nat -> slist_find_loop fuel x n h = Some (default x (last xs)).
Proof.
  induction xs as [|y xs IH]; intros x fuel Hn Hc Hf; (destruct fuel as [|fuel]; [simpl in *; lia|]).
  - destruct Hc as [E _]. cbn. rewrite E. by rewrite decide_False by naive_solver.
  - destruct Hc as [E Hc]. apply not_elem_of_cons in Hn as [Hy Hn]. cbn [slist_find_loop]. rewrite E.
    rewrite decide_True, default_last_cons by done. apply IH; [done..|simpl in Hf; lia].
Qed.

Lemma slist_find_loop_none h n xs : forall x fuel, n ∉ xs -> chain h x xs ->
  (length xs < fuel)%nat -> slist_find_loop fuel x n h = Some (default x (last xs)).
Proof.
  induction xs as [|y xs IH]; intros x fuel Hn Hc Hf; (destruct fuel as [|fuel]; [simpl in *; lia|]); simpl in Hc.
  - cbn. by rewrite Hc.
  - destruct Hc as [E Hc]. apply not_elem_of_cons in Hn as [Hy Hn]. cbn [slist_find_loop]. rewrite E.
    rewrite decide_True, default_last_cons by done. apply IH; [done..|simpl in Hf; lia].
Qed.

Lemma chain_last h x xs : chain h x xs -> h (default x (last xs)) = None.
Proof.
  revert x. induction xs as [|y xs IH]; intros x Hc; [done|]. rewrite default_last_cons. by apply IH, Hc.
Qed.

(** The last node gets a successor. *)
Lemma chain_append h x xs n : NoDup (x :: xs) -> n ∉ x :: xs -> chain h x xs ->
  chain (fupd n None (fupd (default x (last xs)) (Some n) h)) x (xs ++ [n]).
Proof.
  revert x. induction xs as [|y xs IH]; intros x Hnd Hn Hc.
  - simpl. rewrite fupd_ne by set_solver. by rewrite !fupd_eq.
  - apply NoDup_cons in Hnd as [Hx Hnd]. rewrite default_last_cons. cbn [app chain]. destruct Hc as [E Hc]. split.
    + pose proof (default_last_in y xs). rewrite !fupd_ne by set_solver. done.
    + apply IH; [done|set_solver|done].
Qed.

(** A node in the middle is bridged. *)
Lemma chain_bridge h x xs n ys : NoDup (x :: xs ++ n :: ys) -> chain h x (xs ++ n :: ys) ->
  chain (fupd (default x (last xs)) (h n) h) x (xs ++ ys).
Proof.
  revert x. induction xs as [|y xs IH]; intros x Hnd Hc.
  - simpl in *. destruct Hc as [_ Hc]. apply NoDup_cons in Hnd as [Hx Hnd].
    destruct ys as [|y ys]; simpl in *; rewrite fupd_eq; [done|]. destruct Hc as [-> Hc]. split; [done|].
    apply chain_fupd; [set_solver|done].
  - simpl in Hnd, Hc. apply NoDup_cons in Hnd as [Hx Hnd]. destruct Hc as [E Hc].
    rewrite default_last_cons. cbn [app chain]. split.
    + pose proof (default_last_in y xs). rewrite fupd_ne by set_solver. done.
    + by apply IH.
Qed.

Lemma slist_before h l xs n ys : slist h l (xs ++ n :: ys) -> h (default l (last xs)) = Some n.
Proof.
  intros [_ Hc]. revert l Hc. induction xs as [|y xs IH]; intros l Hc; [by destruct Hc|].
  rewrite default_last_cons. apply IH, Hc.
Qed.

Lemma slist_append h l xs n fuel : slist h l xs -> n ∉ l :: xs -> (length xs < fuel)%nat ->
  exists h', rt_slist_append fuel l n h = Some h' /\ slist h' l (xs ++ [n]).
Proof.
  intros [Hnd Hc] Hn Hf. unfold rt_slist_append. rewrite (slist_last_loop_eq h xs) by done. eexists. split; [done|].
  split; [|by apply chain_append]. change (l :: xs ++ [n]) with ((l :: xs) ++ [n]).
  apply NoDup_app. split; [done|]. split; [set_solver|apply NoDup_singleton].
Qed.

Lemma slist_remove_in h l xs n ys fuel : slist h l (xs ++ n :: ys) -> (length (xs ++ n :: ys) < fuel)%nat ->
  exists h', rt_slist_remove fuel l n h = Some h' /\ slist h' l (xs ++ ys).
Proof.
  intros H Hf. pose proof H as [Hnd Hc]. rewrite length_app in Hf. unfold rt_slist_remove.
  assert (Hn : n ∉ xs) by (rewrite NoDup_cons, NoDup_app in Hnd; set_solver).
  rewrite (slist_find_loop_eq h n xs ys) by (done || lia). cbn [mbind option_bind].
  rewrite (slist_before h l xs n ys) by done. eexists. split; [done|]. split; [|by apply chain_bridge].
  apply NoDup_cons in Hnd as [Hl Hnd]. apply NoDup_app in Hnd as (H1 & H2 & H3).
  apply NoDup_cons in H3 as [H4 H5]. apply NoDup_cons. split; [set_solver|]. apply NoDup_app. set_solver.
Qed.

Lemma slist_remove_out h l xs n fuel : slist h l xs -> n ∉ xs -> (length xs < fuel)%nat ->
  rt_slist_remove fuel l n h = Some h.
Proof.
  intros [Hnd Hc] Hn Hf. unfold rt_slist_remove. rewrite (slist_find_loop_none h n xs) by done.
  cbn [mbind option_bind]. by rewrite (chain_last h l xs).
Qed.
End slist.
Arguments snodes A : clear implicits.

(** The pointer operations of [rt_slist_t] implement lists: insertion at the head and at
    the tail, removal of a node (nothing for a node that is not in the list), length modulo
    2^32, first, next, tail and the test for emptiness; every loop ends within one turn more
    than the list is long. *)
Lemma rt_slist_refines {A : Type} `{EqDecision A} (h : snodes A) (l n : A) (xs : list A) (fuel : nat) :
  slist h l xs -> (length xs < fuel)%nat ->
  rt_slist_first l h = head xs /\ rt_slist_isempty l h = bool_decide (xs = []) /\
  rt_slist_tail fuel l h = Some (default l (last xs)) /\
  rt_slist_len fuel l h = Some (u32 (Z.of_nat (length xs))) /\
  (forall x, exists h', rt_slist_remove fuel l x h = Some h' /\ slist h' l (filter (fun y => y <> x) xs)) /\
  (n ∉ l :: xs -> slist (rt_slist_insert l n h) l (n :: xs) /\
    exists h', rt_slist_append fuel l n h = Some h' /\ slist h' l (xs ++ [n])).
Proof.
  intros H Hf. split_and!; [by apply slist_first|by apply slist_isempty|by apply slist_last_loop_eq, Hf; apply H|..].
  - unfold rt_slist_len. rewrite (slist_len_loop_eq h xs) by (done || apply H). by destruct xs.
  - intros x. assert (Hnd : NoDup xs) by (destruct H as [[_ ?]%NoDup_cons _]; done).
    destruct (decide (x ∈ xs)) as [(l1 & l2 & ->)%list_elem_of_split|Hx].
    + destruct (slist_remove_in h l l1 x l2 fuel H Hf) as (h' & E & H'). exists h'. split; [done|].
      apply NoDup_app in Hnd as (_ & H1 & H2%NoDup_cons).
      rewrite filter_app, filter_cons_False by naive_solver. rewrite !filter_all; [done|set_solver..].
    + exists h. rewrite (slist_remove_out h l xs) by done. split; [done|]. rewrite filter_all; [done|set_solver].
  - intros Hn. split; [by apply slist_insert|by apply slist_append].
Qed.

Definition three_nodes : snodes nat := fun n => if decide (n < 3)%nat then Some (S n) else None.

Lemma rt_slist_refines_witness :
  rt_slist_first 0%nat three_nodes = Some 1%nat /\ rt_slist_isempty 0%nat three_nodes = bool_decide ([1; 2; 3]%nat = []) /\
  rt_slist_tail 4 0%nat three_nodes = Some 3%nat /\ rt_slist_len 4 0%nat three_nodes = Some 3 /\
  (forall x, exists h', rt_slist_remove 4 0%nat x three_nodes = Some h' /\
    slist h' 0%nat (filter (fun y => y <> x) [1; 2; 3]%nat)) /\
  (5%nat ∉ [0; 1; 2; 3]%nat -> slist (rt_slist_insert 0%nat 5%nat three_nodes) 0%nat [5; 1; 2; 3]%nat /\
    exists h', rt_slist_append 4 0%nat 5%nat three_nodes = Some h' /\ slist h' 0%nat [1; 2; 3; 5]%nat).
Proof.
  apply (rt_slist_refines three_nodes 0%nat 5%nat [1; 2; 3]%nat 4).
  - split; [by apply (bool_decide_unpack _); vm_compute|by repeat split].
  - simpl. lia.
Defined.
