(* ===== verification/RingBlk.v ===== *)
(** Ring block buffers, components/drivers/ipc/ringblk_buf.c: blocks of one buffer that are
    allocated in a circle, filled, taken and freed.  The blocks in use are in one singly
    linked list with a tail pointer, the others in a second one. *)
From S2P Require Import Prelude SList.
#[local] Open Scope Z_scope.

(** * State *)

Inductive rbb_status := RT_RBB_BLK_UNUSED | RT_RBB_BLK_INITED | RT_RBB_BLK_PUT | RT_RBB_BLK_GET.
#[global] Instance rbb_status_eq_dec : EqDecision rbb_status.
Proof. solve_decision. Defined.

(** The list nodes: the heads [rbb->blk_list] and [rbb->free_list], and the node of the
    block with the index [i] in [rbb->blk_set]. *)
Inductive rbb_node := BlkList | FreeList | Blk (i : nat).
#[global] Instance rbb_node_eq_dec : EqDecision rbb_node.
Proof. solve_decision. Defined.

(** [struct rt_rbb] with the fields of its blocks. *)
Record rbb := mk_rbb {
  rbb_buf : Z; rbb_size : Z; blk_max_num : nat;
  rbb_links : snodes rbb_node; rbb_tail : rbb_node;
  b_status : nat -> rbb_status; b_size : nat -> Z; b_buf : nat -> Z }.

(** [struct rt_rbb_blk_queue]. *)
Record rbb_queue := mk_queue { q_blocks : nat; q_num : Z }.

Definition set_links h s := mk_rbb (rbb_buf s) (rbb_size s) (blk_max_num s) h (rbb_tail s) (b_status s) (b_size s) (b_buf s).
Definition set_rbb_tail n s := mk_rbb (rbb_buf s) (rbb_size s) (blk_max_num s) (rbb_links s) n (b_status s) (b_size s) (b_buf s).
Definition set_b_status b v s :=
  mk_rbb (rbb_buf s) (rbb_size s) (blk_max_num s) (rbb_links s) (rbb_tail s) (fupd b v (b_status s)) (b_size s) (b_buf s).
Definition set_b_size b z s :=
  mk_rbb (rbb_buf s) (rbb_size s) (blk_max_num s) (rbb_links s) (rbb_tail s) (b_status s) (fupd b z (b_size s)) (b_buf s).
Definition set_b_buf b z s :=
  mk_rbb (rbb_buf s) (rbb_size s) (blk_max_num s) (rbb_links s) (rbb_tail s) (b_status s) (b_size s) (fupd b z (b_buf s)).

(** [rt_slist_entry(node, struct rt_rbb_blk, list)]; a head is no block. *)
Definition blk_entry (n : rbb_node) : option nat := match n with Blk i => Some i | _ => None end.

(** No list has more nodes than there are blocks. *)
Definition rbb_fuel s : nat := S (S (blk_max_num s)).

(** * Operations *)

Fixpoint rbb_init_loop (fuel i : nat) s : rbb :=
  match fuel with
  | O => s
  | S fuel =>
    let s := set_b_status i RT_RBB_BLK_UNUSED s in
    let s := set_links (rt_slist_init (Blk i) (rbb_links s)) s in
    let s := set_links (rt_slist_insert FreeList (Blk i) (rbb_links s)) s in
    rbb_init_loop fuel (S i) s
  end.

(** [rt_rbb_init] over whatever memory the structures held. *)
Definition rt_rbb_init (buf buf_size : Z) (max : nat) s : rbb :=
  let s := mk_rbb buf buf_size max (rbb_links s) BlkList (b_status s) (b_size s) (b_buf s) in
  let s := set_links (rt_slist_init BlkList (rbb_links s)) s in
  let s := set_links (rt_slist_init FreeList (rbb_links s)) s in
  rbb_init_loop max 0 s.

(** [rt_rbb_create]: the results of the three calls of [rt_malloc]; [mem] is what the
    structures hold at first. *)
Definition rt_rbb_create (rbb_mem : bool) (buf : option Z) (blk_mem : bool) (buf_size : Z) (max : nat)
    (mem : rbb) : option rbb :=
  if rbb_mem then
    match buf with
    | None => None
    | Some buf => if blk_mem then Some (rt_rbb_init buf buf_size max mem) else None
    end
  else None.

Definition find_empty_blk_in_set : M rbb (option nat) :=
  s ← get;
  if rt_slist_isempty FreeList (rbb_links s) then mret None
  else
    n ← deref (rt_slist_first FreeList (rbb_links s));
    blk ← deref (blk_entry n);
    h ← deref (rt_slist_remove (rbb_fuel s) FreeList n (rbb_links s));
    modify (set_links h);;
    RT_ASSERT (bool_decide (b_status s blk = RT_RBB_BLK_UNUSED));;
    mret (Some blk).

Definition list_append (n : rbb_node) : M rbb unit :=
  modify (fun s => set_links (fupd (rbb_tail s) (Some n) (rbb_links s)) s);;
  modify (fun s => set_links (fupd n None (rbb_links s)) s);;
  modify (set_rbb_tail n).

Definition list_remove (n : rbb_node) : M rbb unit :=
  s ← get;
  node ← deref (slist_find_loop (rbb_fuel s) BlkList n (rbb_links s));
  match rbb_links s node with
  | Some y =>
    modify (fun s => set_links (fupd node (rbb_links s y) (rbb_links s)) s);;
    modify (fun s => set_links (fupd n None (rbb_links s)) s);;
    (if decide (rbb_tail s = n) then modify (set_rbb_tail node) else mret tt)
  | None => mret tt
  end.

(** The four writes that put a new block behind the tail. *)
Definition place_blk (blk : nat) (buf size : Z) : M rbb (option nat) :=
  list_append (Blk blk);;
  modify (set_b_status blk RT_RBB_BLK_INITED);;
  modify (set_b_buf blk buf);;
  modify (set_b_size blk (Z.land size (2 ^ 24 - 1)));;
  mret (Some blk).

Definition rt_rbb_blk_alloc (size : Z) : M rbb (option nat) :=
  RT_ASSERT (size <? 2 ^ 24);;
  new_rbb ← find_empty_blk_in_set;
  match new_rbb with
  | None => mret None
  | Some new =>
    s ← get;
    if rt_slist_isempty BlkList (rbb_links s) then place_blk new (rbb_buf s) size
    else
      first ← deref (rt_slist_first BlkList (rbb_links s));
      head ← deref (blk_entry first);
      tail ← deref (blk_entry (rbb_tail s));
      let behind := u32 (b_buf s tail + b_size s tail) in
      if b_buf s head <=? b_buf s tail then
        let empty1 := u32 (u32 (rbb_buf s + rbb_size s) - behind) in
        let empty2 := u32 (b_buf s head - rbb_buf s) in
        if size <=? empty1 then place_blk new behind size
        else if size <=? empty2 then place_blk new (rbb_buf s) size
        else mret None
      else
        let empty1 := u32 (b_buf s head - behind) in
        if size <=? empty1 then place_blk new behind size
        else mret None
  end.

Definition rt_rbb_blk_put (block : nat) : M rbb unit :=
  s ← get;
  RT_ASSERT (bool_decide (b_status s block = RT_RBB_BLK_INITED));;
  modify (set_b_status block RT_RBB_BLK_PUT).

Fixpoint blk_get_loop (fuel : nat) (node : option rbb_node) s : option (option nat) :=
  match fuel with
  | O => None
  | S fuel =>
    match node with
    | None => Some None
    | Some n =>
      block ← blk_entry n;
      if decide (b_status s block = RT_RBB_BLK_PUT) then Some (Some block)
      else blk_get_loop fuel (rt_slist_next n (rbb_links s)) s
    end
  end.

Definition rt_rbb_blk_get : M rbb (option nat) :=
  s ← get;
  if rt_slist_isempty BlkList (rbb_links s) then mret None
  else
    found ← deref (blk_get_loop (rbb_fuel s) (rt_slist_first BlkList (rbb_links s)) s);
    match found with
    | Some block => modify (set_b_status block RT_RBB_BLK_GET);; mret (Some block)
    | None => mret None
    end.

Definition rt_rbb_blk_size (block : nat) s : Z := b_size s block.
Definition rt_rbb_blk_buf (block : nat) s : Z := b_buf s block.
Definition rt_rbb_get_buf_size s : Z := rbb_size s.

Definition rt_rbb_blk_free (block : nat) : M rbb unit :=
  s ← get;
  RT_ASSERT (bool_decide (b_status s block <> RT_RBB_BLK_UNUSED));;
  list_remove (Blk block);;
  modify (set_b_status block RT_RBB_BLK_UNUSED);;
  modify (fun s => set_links (rt_slist_insert FreeList (Blk block) (rbb_links s)) s).

(** * Queues of blocks *)

Section queue.
(** What reading [next] through a NULL pointer gives: [None] stops the processor. *)
Context (null_next : option (option rbb_node)).

Definition slist_next_null (node : option rbb_node) s : option (option rbb_node) :=
  match node with Some n => Some (rt_slist_next n (rbb_links s)) | None => null_next end.

(** The loop of [rt_rbb_blk_queue_get]; [blk_queue] is what the caller's structure holds. *)
Fixpoint queue_get_loop (fuel : nat) (node tmp : option rbb_node) (last_block : option nat)
    (queue_data_len total : Z) (blk_queue : rbb_queue) : M rbb (Z * rbb_queue) :=
  match fuel with
  | O => fun _ => None
  | S fuel =>
    match node with
    | None => mret (total, blk_queue)
    | Some n =>
      block ← deref (blk_entry n);
      s ← get;
      let next last_block total blk_queue :=
        s ← get;
        tmp' ← deref (slist_next_null tmp s);
        queue_get_loop fuel tmp tmp' last_block queue_data_len total blk_queue in
      let take blk_queue :=
        modify (set_b_status block RT_RBB_BLK_GET);;
        next (Some block) (u32 (total + b_size s block))
          (mk_queue (q_blocks blk_queue) (u32 (q_num blk_queue + 1))) in
      match last_block with
      | None =>
        if decide (b_status s block = RT_RBB_BLK_PUT) then take (mk_queue block 0)
        else next None total blk_queue
      | Some last =>
        if negb (bool_decide (b_status s block = RT_RBB_BLK_PUT)) || (b_buf s block <? b_buf s last)
           || (queue_data_len <? u32 (total + b_size s block))
        then mret (total, blk_queue)
        else take blk_queue
      end
    end
  end.

Definition rt_rbb_blk_queue_get (queue_data_len : Z) (blk_queue : rbb_queue) : M rbb (Z * rbb_queue) :=
  s ← get;
  if rt_slist_isempty BlkList (rbb_links s) then mret (0, blk_queue)
  else
    let node := rt_slist_first BlkList (rbb_links s) in
    let tmp := match node with Some n => rt_slist_next n (rbb_links s) | None => None end in
    queue_get_loop (rbb_fuel s) node tmp None queue_data_len 0 blk_queue.
End queue.

(** The block whose node is behind that of [block]. *)
Definition next_blk (block : nat) s : option nat := n ← rbb_links s (Blk block); blk_entry n.

Fixpoint queue_len_loop (n : nat) (blk : option nat) (total : Z) s : option Z :=
  match n with
  | O => Some total
  | S n => b ← blk; queue_len_loop n (next_blk b s) (u32 (total + b_size s b)) s
  end.

Definition rt_rbb_blk_queue_len (blk_queue : rbb_queue) s : option Z :=
  queue_len_loop (Z.to_nat (q_num blk_queue)) (Some (q_blocks blk_queue)) 0 s.

Definition rt_rbb_blk_queue_buf (blk_queue : rbb_queue) s : Z := b_buf s (q_blocks blk_queue).

Fixpoint queue_free_loop (n : nat) (blk : option nat) : M rbb unit :=
  match n with
  | O => mret tt
  | S n =>
    b ← deref blk;
    s ← get;
    let next := next_blk b s in
    rt_rbb_blk_free b;;
    queue_free_loop n next
  end.

Definition rt_rbb_blk_queue_free (blk_queue : rbb_queue) : M rbb unit :=
  queue_free_loop (Z.to_nat (q_num blk_queue)) (Some (q_blocks blk_queue)).

Fixpoint next_queue_len_loop (fuel : nat) (node : option rbb_node) (last_block : option nat) (data_len : Z) s
    : option Z :=
  match fuel with
  | O => None
  | S fuel =>
    match node with
    | None => Some data_len
    | Some n =>
      block ← blk_entry n;
      let next := rt_slist_next n (rbb_links s) in
      let take := next_queue_len_loop fuel next (Some block) (u32 (data_len + b_size s block)) s in
      match last_block with
      | None =>
        if decide (b_status s block <> RT_RBB_BLK_PUT) then next_queue_len_loop fuel next None data_len s
        else take
      | Some last =>
        if negb (bool_decide (b_status s block = RT_RBB_BLK_PUT)) || (b_buf s block <? b_buf s last)
        then Some data_len else take
      end
    end
  end.

Definition rt_rbb_next_blk_queue_len s : option Z :=
  if rt_slist_isempty BlkList (rbb_links s) then Some 0
  else next_queue_len_loop (rbb_fuel s) (rt_slist_first BlkList (rbb_links s)) None 0 s.
