(* ===== verification/RingBlkProp.v ===== *)
(** Ring block buffers: the blocks in use lie apart from each other in the buffer, in the
    order of their allocation along the circle; what allocation, taking and freeing do to
    them. *)
From S2P Require Import Prelude SList RingBlk.
#[local] Open Scope Z_scope.

(** * The layout *)

(** Blocks one behind the other between two addresses. *)
Fixpoint asc (s : rbb) (lo hi : Z) (L : list nat) : Prop :=
  match L with
  | [] => lo <= hi
  | b :: L => lo <= b_buf s b /\ 1 <= b_size s b /\ asc s (b_buf s b + b_size s b) hi L
  end.

Definition rbb_end (s : rbb) : Z := rbb_buf s + rbb_size s.

(** From the first block [a] to the end of the buffer, and then from its start to [a]. *)
Definition laid (s : rbb) (L : list nat) : Prop :=
  L = [] \/ exists a A B, L = a :: A ++ B /\ asc s (b_buf s a) (rbb_end s) (a :: A) /\
    asc s (rbb_buf s) (b_buf s a) B.

Definition same_layout (s s' : rbb) (L : list nat) : Prop :=
  rbb_buf s' = rbb_buf s /\ rbb_size s' = rbb_size s /\
  forall b, b ∈ L -> b_buf s' b = b_buf s b /\ b_size s' b = b_size s b.

Lemma asc_frame s s' L lo hi : (forall b, b ∈ L -> b_buf s' b = b_buf s b /\ b_size s' b = b_size s b) ->
  asc s lo hi L -> asc s' lo hi L.
Proof.
  revert lo. induction L as [|b L IH]; intros lo Hs; [done|]. simpl.
  destruct (Hs b ltac:(left)) as [-> ->]. intros (? & ? & ?). split_and!; [done..|].
  apply IH; [|done]. intros c Hc. apply Hs. by right.
Qed.

Lemma laid_frame s s' L : same_layout s s' L -> laid s L -> laid s' L.
Proof.
  intros (Hb & He & Hs) [->|(a & A & B & -> & H1 & H2)]; [by left|]. right. exists a, A, B. split; [done|].
  unfold rbb_end. rewrite Hb, He. destruct (Hs a ltac:(left)) as [-> _].
  split; (eapply asc_frame; [|done]); intros b Hb'; apply Hs; set_solver.
Qed.

Lemma asc_le s L lo hi : asc s lo hi L -> lo <= hi.
Proof. revert lo. induction L as [|b L IH]; intros lo; simpl; [done|]. intros (? & ? & ?%IH). lia. Qed.

Lemma asc_widen s L lo hi lo' hi' : lo' <= lo -> hi <= hi' -> asc s lo hi L -> asc s lo' hi' L.
Proof.
  revert lo lo'. induction L as [|b L IH]; intros lo lo' H1 H2; simpl; [lia|].
  intros (? & ? & H). split_and!; [lia|done|]. by eapply IH, H.
Qed.

Lemma asc_app s L1 L2 lo hi : asc s lo hi (L1 ++ L2) <-> exists m, asc s lo m L1 /\ asc s m hi L2.
Proof.
  revert lo. induction L1 as [|b L1 IH]; intros lo; simpl.
  - split; [intros H; by exists lo|]. intros (m & Hm & H). by eapply asc_widen, H.
  - rewrite IH. naive_solver.
Qed.

Lemma asc_snoc s L b lo hi : asc s lo hi (L ++ [b]) <->
  asc s lo (b_buf s b) L /\ 1 <= b_size s b /\ b_buf s b + b_size s b <= hi.
Proof.
  rewrite asc_app. simpl. split; [|naive_solver lia].
  intros (m & H & ? & ? & ?). split_and!; [by eapply asc_widen, H|done|done].
Qed.

Lemma asc_member s L b lo hi : asc s lo hi L -> b ∈ L ->
  lo <= b_buf s b /\ 1 <= b_size s b /\ b_buf s b + b_size s b <= hi.
Proof.
  intros H (l1 & l2 & ->)%list_elem_of_split. apply asc_app in H as (m & H1%asc_le & H2).
  simpl in H2. destruct H2 as (? & ? & ?%asc_le). lia.
Qed.

Lemma asc_remove s L1 b L2 lo hi : asc s lo hi (L1 ++ b :: L2) -> asc s lo hi (L1 ++ L2).
Proof.
  intros (m & H1 & H2)%asc_app. apply asc_app. exists m. split; [done|]. simpl in H2.
  destruct H2 as (? & ? & H2). eapply asc_widen, H2; lia.
Qed.

(** Two blocks one behind the other do not share an address. *)
Definition apart (s : rbb) (b c : nat) : Prop :=
  b_buf s b + b_size s b <= b_buf s c \/ b_buf s c + b_size s c <= b_buf s b.

Lemma asc_apart s L1 b L2 c lo hi : asc s lo hi (L1 ++ b :: L2) -> c ∈ L1 ++ L2 -> apart s b c.
Proof.
  intros (m & H1 & H2)%asc_app Hc. simpl in H2. destruct H2 as (? & ? & H2). unfold apart.
  apply elem_of_app in Hc as [Hc|Hc]; [pose proof (asc_member _ _ _ _ _ H1 Hc)|pose proof (asc_member _ _ _ _ _ H2 Hc)]; lia.
Qed.

Lemma laid_apart s L b c : laid s L -> b ∈ L -> c ∈ L -> b <> c -> apart s b c.
Proof.
  intros [->|(a & A & B & -> & H1 & H2)] Hb Hc Hne; [by apply not_elem_of_nil in Hb|].
  rewrite app_comm_cons in Hb, Hc. apply elem_of_app in Hb as [Hb|Hb], Hc as [Hc|Hc].
  - apply list_elem_of_split in Hb as (l1 & l2 & E). rewrite E in *. apply (asc_apart s l1 b l2 c _ _ H1). set_solver.
  - pose proof (asc_member _ _ _ _ _ H1 Hb). pose proof (asc_member _ _ _ _ _ H2 Hc). unfold apart. lia.
  - pose proof (asc_member _ _ _ _ _ H2 Hb). pose proof (asc_member _ _ _ _ _ H1 Hc). unfold apart. lia.
  - apply list_elem_of_split in Hb as (l1 & l2 & ->). apply (asc_apart s l1 b l2 c _ _ H2). set_solver.
Qed.

Lemma laid_inside s L b : laid s L -> b ∈ L ->
  rbb_buf s <= b_buf s b /\ 1 <= b_size s b /\ b_buf s b + b_size s b <= rbb_end s.
Proof.
  intros [->|(a & A & B & -> & H1 & H2)] Hb; [by apply not_elem_of_nil in Hb|].
  pose proof (asc_le _ _ _ _ H2). pose proof (asc_le _ _ _ _ H1).
  rewrite app_comm_cons in Hb. apply elem_of_app in Hb as [Hb|Hb].
  - pose proof (asc_member _ _ _ _ _ H1 Hb). lia.
  - pose proof (asc_member _ _ _ _ _ H2 Hb). lia.
Qed.

(** Removing a block keeps the layout of the others. *)
Lemma laid_remove s L1 b L2 : laid s (L1 ++ b :: L2) -> laid s (L1 ++ L2).
Proof.
  intros [E|(a & A & B & E & H1 & H2)]; [by destruct L1|].
  destruct L1 as [|a' L1]; [injection E as -> ->|injection E as -> E]; simpl.
  - destruct A as [|a' A]; simpl in H1.
    + destruct B as [|a' B]; [by left|]. right. exists a', B, []. rewrite app_nil_r. split; [done|].
      simpl in H2. destruct H2 as (H3 & H4 & H5). split; [|done].
      eapply (asc_widen s (a' :: B) (b_buf s a') (b_buf s a)); [lia|destruct H1 as (? & ? & ?); lia|].
      simpl. split_and!; [lia|done|done].
    + right. exists a', A, B. destruct H1 as (_ & H3 & H4 & H5 & H6). split; [done|]. split; [split_and!; [lia|done|done]|].
      eapply asc_widen, H2; lia.
  - right. exists a. apply app_eq_app in E as [l [[-> ->]|[-> E]]].
    + exists A, (l ++ L2). rewrite <- app_assoc. split; [done|]. split; [done|]. by apply (asc_remove s l b).
    + destruct l as [|b' l]; simplify_eq/=.
      * exists L1, L2. rewrite app_nil_r in H1. split; [done|]. split; [done|]. by apply (asc_remove s [] b).
      * exists (L1 ++ l), B. rewrite <- app_assoc. split; [done|]. split; [|done]. destruct H1 as (? & ? & H1).
        split_and!; [done|done|]. by apply (asc_remove s L1 b').
Qed.

(** Where the last block lies says whether the blocks have come back to the start. *)
Lemma laid_inv s a L t : laid s (a :: L) -> last (a :: L) = Some t ->
  b_buf s a <= b_buf s t /\ asc s (b_buf s a) (rbb_end s) (a :: L) /\ rbb_buf s <= b_buf s a \/
  b_buf s t < b_buf s a /\ exists A B, L = A ++ B ++ [t] /\ asc s (b_buf s a) (rbb_end s) (a :: A) /\
    asc s (rbb_buf s) (b_buf s a) (B ++ [t]).
Proof.
  intros [|(a' & A & B & [= <- ->] & H1 & H2)] Ht; [done|].
  destruct B as [|t' B _] using rev_ind.
  - left. rewrite app_nil_r in *. split; [|split; [done|by apply asc_le in H2]].
    apply last_Some in Ht as [l E]. rewrite E in H1. apply asc_snoc in H1 as (?%asc_le & _). done.
  - right. rewrite app_comm_cons, app_assoc, last_snoc in Ht. injection Ht as ->.
    pose proof H2 as (_ & ? & ?)%asc_snoc. split; [lia|]. exists A, B. done.
Qed.

(** * The invariant *)

Definition blks (L : list nat) : list rbb_node := Blk <$> L.

(** The blocks [L] are in use, in this order, and the blocks [F] are free. *)
Record rbb_ok (s : rbb) (L F : list nat) : Prop := mk_rbb_ok {
  ok_buf : 0 <= rbb_buf s /\ 0 <= rbb_size s /\ rbb_end s < 2 ^ 32;
  ok_used : slist (rbb_links s) BlkList (blks L);
  ok_free : slist (rbb_links s) FreeList (blks F);
  ok_tail : rbb_tail s = default BlkList (last (blks L));
  ok_nodup : NoDup (L ++ F);
  ok_max : (length (L ++ F) <= blk_max_num s)%nat;
  ok_in_use : forall b, b ∈ L -> b_status s b <> RT_RBB_BLK_UNUSED;
  ok_unused : forall b, b ∈ F -> b_status s b = RT_RBB_BLK_UNUSED;
  ok_laid : laid s L }.

(** The new block [b] of [sz] bytes at [a]. *)
Definition placed (s : rbb) (b : nat) (a sz : Z) : rbb := set_b_size b sz (set_b_buf b a s).

(** Everything but the lists, the tail and the fields of the block [b] is as before. *)
Definition only_block (s s' : rbb) (b : nat) : Prop :=
  rbb_buf s' = rbb_buf s /\ rbb_size s' = rbb_size s /\ blk_max_num s' = blk_max_num s /\
  forall c, c <> b -> b_status s' c = b_status s c /\ b_size s' c = b_size s c /\ b_buf s' c = b_buf s c.

Lemma in_blks b L : Blk b ∈ blks L <-> b ∈ L.
Proof. unfold blks. rewrite list_elem_of_fmap. naive_solver. Qed.

Lemma blks_app L M : blks (L ++ M) = blks L ++ blks M.
Proof. apply fmap_app. Qed.

Lemma last_blks L : last (blks L) = Blk <$> last L.
Proof. unfold blks. by rewrite fmap_last. Qed.

(** ** Taking a free block *)

Lemma find_empty_none s L : rbb_ok s L [] -> wp find_empty_blk_in_set (fun r s' => r = None /\ s' = s) s.
Proof.
  intros []. unfold find_empty_blk_in_set. wp_step. wp_step. rewrite (slist_isempty _ _ _ ok_free0).
  by apply wp_ret.
Qed.

Lemma find_empty_some s L b F : rbb_ok s L (b :: F) ->
  wp find_empty_blk_in_set (fun r s' => r = Some b /\ rbb_ok s' L F /\ only_block s s' b /\
    b_status s' b = RT_RBB_BLK_UNUSED /\ (length L < blk_max_num s)%nat) s.
Proof.
  intros []. unfold find_empty_blk_in_set. wp_step. wp_step. rewrite (slist_isempty _ _ _ ok_free0).
  rewrite bool_decide_eq_false_2 by done. wp_step. rewrite (slist_first _ _ _ ok_free0). wp_step; [done|].
  wp_step. wp_step; [done|]. wp_step.
  rewrite !length_app in ok_max0. simpl in ok_max0.
  destruct (slist_remove_in (rbb_links s) FreeList [] (Blk b) (blks F) (rbb_fuel s)) as (h & E & Hh); [done|..].
  { unfold rbb_fuel, blks. simpl. rewrite length_fmap. lia. }
  wp_step; [exact E|]. do 3 wp_step. wp_step; [apply bool_decide_eq_true_2, ok_unused0; left|]. wp_step.
  split; [done|]. apply NoDup_app in ok_nodup0 as (N1 & N2 & [N3 N4]%NoDup_cons).
  split; [|split; [done|split; [apply ok_unused0; left|simpl in *; lia]]].
  unfold rt_slist_remove in E. cbn in E. rewrite (slist_first _ _ _ ok_free0 : rbb_links s FreeList = _) in E.
  cbn in E. rewrite decide_False in E by naive_solver. cbn in E.
  rewrite (slist_first _ _ _ ok_free0 : rbb_links s FreeList = _) in E. injection E as <-.
  split; simpl; try done.
  - apply (slist_frame (rbb_links s)); [|done]. intros y Hy. apply fupd_ne. intros ->.
    apply elem_of_cons in Hy as [|Hy]; [done|]. by apply list_elem_of_fmap in Hy as (? & ? & _).
  - apply NoDup_app. split; [done|]. split; [|done]. intros x Hx Hx'. apply (N2 x Hx). by right.
  - rewrite length_app. lia.
  - intros c Hc. apply ok_unused0. by right.
  - by apply (laid_frame s).
Qed.

(** ** Putting a block behind the last *)

Lemma laid_placed s s' b a sz L : rbb_buf s' = rbb_buf s -> rbb_size s' = rbb_size s ->
  (forall c, c ∈ L -> c <> b -> b_buf s' c = b_buf s c /\ b_size s' c = b_size s c) ->
  b_buf s' b = a -> b_size s' b = sz -> laid (placed s b a sz) L -> laid s' L.
Proof.
  intros E1 E2 E3 E4 E5. apply laid_frame. split; [done|]. split; [done|]. intros c Hc. simpl.
  destruct (decide (c = b)) as [->|Hne]; [by rewrite !fupd_eq|]. rewrite !fupd_ne by done. by apply E3.
Qed.

Lemma place_blk_wp s L F b a sz : rbb_ok s L F -> b ∉ L ++ F -> (length (L ++ F) < blk_max_num s)%nat ->
  0 <= sz < 2 ^ 24 -> laid (placed s b a sz) (L ++ [b]) ->
  wp (place_blk b a sz) (fun r s' => r = Some b /\ rbb_ok s' (L ++ [b]) F /\ only_block s s' b /\
    b_status s' b = RT_RBB_BLK_INITED /\ b_buf s' b = a /\ b_size s' b = sz) s.
Proof.
  intros [] Hb Hlen Hsz Hl. unfold place_blk, list_append. repeat wp_step. simpl.
  assert (Hmask : Z.land sz (2 ^ 24 - 1) = sz).
  { change (2 ^ 24 - 1) with (Z.ones 24). rewrite Z.land_ones by lia. by apply Z.mod_small. }
  rewrite Hmask, !fupd_eq. apply not_elem_of_app in Hb as [HbL HbF].
  split; [done|]. split; [|split; [|done]].
  2: { split_and!; try done. intros c Hc. simpl. by rewrite !fupd_ne. }
  pose proof ok_used0 as [Hnd Hc]. rewrite ok_tail0. split; simpl.
  - done.
  - rewrite blks_app. split; [|apply chain_append; [done|by rewrite elem_of_cons, in_blks; naive_solver|done]].
    change (BlkList :: blks L ++ blks [b]) with ((BlkList :: blks L) ++ [Blk b]). apply NoDup_app.
    split; [done|]. split; [|apply NoDup_singleton]. intros x Hx ->%list_elem_of_singleton.
    by apply elem_of_cons in Hx as [|?%in_blks].
  - apply (slist_frame (rbb_links s)); [|done]. intros y Hy.
    assert (Hy' : y <> Blk b) by (intros ->; by apply elem_of_cons in Hy as [|?%in_blks]).
    rewrite (fupd_ne _ _ _ _ Hy'). apply fupd_ne. intros ->. rewrite last_blks in Hy.
    destruct (last L) as [t|] eqn:Et; simpl in Hy; apply elem_of_cons in Hy as [|Hy]; try done.
    + apply in_blks in Hy. apply last_Some in Et as [L' ->]. apply NoDup_app in ok_nodup0 as (_ & H & _).
      apply (H t); set_solver.
    + by apply list_elem_of_fmap in Hy as (? & ? & _).
  - by rewrite last_blks, last_snoc.
  - apply NoDup_app in ok_nodup0 as (N1 & N2 & N3). rewrite <- app_assoc. apply NoDup_app.
    split; [done|]. split; [set_solver|]. by apply NoDup_cons.
  - rewrite !length_app in *. simpl. lia.
  - intros c Hc'. destruct (decide (c = b)) as [->|]; [by rewrite fupd_eq|]. rewrite fupd_ne by done.
    apply ok_in_use0. set_solver.
  - intros c Hc'. rewrite fupd_ne by set_solver. by apply ok_unused0.
  - apply (laid_placed s _ b a sz); simpl; try done; [|by rewrite fupd_eq..].
    intros c _ Hne. by rewrite !fupd_ne.
Qed.

(** ** Where a new block can go *)

Lemma placed_frame s b a sz lo hi L : b ∉ L -> asc (placed s b a sz) lo hi L <-> asc s lo hi L.
Proof.
  intros Hb. split; apply asc_frame; intros c Hc; simpl; rewrite !fupd_ne by set_solver; done.
Qed.

Lemma placed_snoc s b a sz lo hi L : b ∉ L ->
  asc (placed s b a sz) lo hi (L ++ [b]) <-> asc s lo a L /\ 1 <= sz /\ a + sz <= hi.
Proof. intros Hb. rewrite asc_snoc. simpl. rewrite !fupd_eq. by rewrite placed_frame. Qed.

(** Tight bound of a list of blocks. *)
Lemma asc_tight s L t lo hi a : asc s lo hi (L ++ [t]) ->
  (asc s lo a (L ++ [t]) <-> b_buf s t + b_size s t <= a).
Proof. rewrite !asc_snoc. naive_solver. Qed.

(** The places that keep the order: behind the last block or, when no block has come back to
    the start of the buffer yet, in front of the first. *)
Lemma laid_snoc s a0 L t b a sz : laid s (a0 :: L) -> last (a0 :: L) = Some t -> b ∉ a0 :: L -> 1 <= sz ->
  laid (placed s b a sz) ((a0 :: L) ++ [b]) <->
  b_buf s t + b_size s t <= a /\ a + sz <= (if b_buf s a0 <=? b_buf s t then rbb_end s else b_buf s a0) \/
  b_buf s a0 <= b_buf s t /\ rbb_buf s <= a /\ a + sz <= b_buf s a0.
Proof.
  intros Hl Ht Hb Hsz. pose proof Ht as [l El]%last_Some.
  assert (Hba : b_buf (placed s b a sz) a0 = b_buf s a0) by (simpl; apply fupd_ne; set_solver).
  destruct (laid_inv s a0 L t Hl Ht) as [(Hle & H1 & H2)|(Hlt & A & B & -> & H1 & H2)].
  - rewrite (proj2 (Z.leb_le _ _) Hle). rewrite El in H1. split.
    + intros [|(a0' & A' & B' & [= <- E] & H3 & H4)]; [done|]. rewrite Hba in H3, H4.
      destruct B' as [|b' B' _] using rev_ind; [rewrite app_nil_r in E|rewrite app_assoc in E; apply app_inj_2 in E as [-> [= <-]]; [|done]].
      * subst A'. rewrite app_comm_cons in H3. apply placed_snoc in H3 as (H5 & _ & H6); [|done].
        left. rewrite El in H5. apply (asc_tight s l t _ _ a H1) in H5. done.
      * destruct B' as [|b' B' _] using rev_ind.
        -- simpl in H4. rewrite !fupd_eq in H4. right. lia.
        -- exfalso. rewrite app_assoc, app_comm_cons in Ht. rewrite last_snoc in Ht. injection Ht as ->.
           apply placed_snoc in H4 as (H5 & _ & H6); [|set_solver]. apply asc_snoc in H5 as (_ & H7 & H8).
           rewrite El in Hb. lia.
    + intros [[H3 H4]|(_ & H3 & H4)]; right.
      * exists a0, (L ++ [b]), []. rewrite app_nil_r. split; [done|]. rewrite Hba.
        split; [|simpl; lia]. rewrite app_comm_cons. apply placed_snoc; [done|]. split; [|done].
        rewrite El. by apply (asc_tight s l t _ _ a H1).
      * exists a0, L, [b]. split; [done|]. rewrite Hba. split; [by apply placed_frame; [done|rewrite El]|].
        simpl. rewrite !fupd_eq. lia.
  - rewrite (proj2 (Z.leb_gt _ _) Hlt). split.
    + intros [|(a0' & A' & B' & [= <- E] & H3 & H4)]; [done|]. rewrite Hba in H3, H4. left.
      destruct B' as [|b' B' _] using rev_ind; [rewrite app_nil_r in E|rewrite (app_assoc A' B') in E; apply app_inj_2 in E as [E [= <-]]; [|done]].
      * subst A'. exfalso. rewrite app_comm_cons in H3. apply placed_snoc in H3 as (H5 & _ & H6); [|done].
        rewrite app_assoc, app_comm_cons in H5. apply asc_snoc in H5 as (H5%asc_le & _). lia.
      * destruct B' as [|b' B' _] using rev_ind.
        -- rewrite app_nil_r in E. subst A'. exfalso. apply placed_frame in H3; [|done].
           rewrite app_assoc, app_comm_cons in H3. apply asc_snoc in H3 as (H5%asc_le & _). lia.
        -- rewrite !app_assoc in E. apply app_inj_2 in E as [E [= <-]]; [|done].
           apply placed_snoc in H4 as (H5 & _ & H6); [|rewrite app_assoc, E in Hb; set_solver]. apply asc_snoc in H5 as (_ & H7 & H8). lia.
    + intros [[H3 H4]|(? & _)]; [|lia]. right. exists a0, A, ((B ++ [t]) ++ [b]).
      rewrite app_comm_cons, <- !app_assoc. split; [done|]. rewrite Hba. split; [apply placed_frame; [set_solver|done]|].
      rewrite app_assoc. apply placed_snoc; [set_solver|]. split; [|done]. by apply (asc_tight s B t _ _ a H2).
Qed.

(** * The operations *)

(** ** Allocation *)

Lemma no_last_blk (a0 : nat) L : exists t, last (a0 :: L) = Some t.
Proof. destruct (last (a0 :: L)) eqn:E; [by eexists|]. by apply last_None in E. Qed.

Definition allocated (s : rbb) (L F : list nat) (b : nat) (sz : Z) (s' : rbb) : Prop :=
  rbb_ok s' (L ++ [b]) F /\ only_block s s' b /\ b_status s' b = RT_RBB_BLK_INITED /\ b_size s' b = sz.

(** Allocation takes the first free block; when there is no room the block is lost.  The
    size is not compared with that of the buffer when no block is in the list. *)
Lemma alloc_wp s L F sz : rbb_ok s L F -> 1 <= sz < 2 ^ 24 -> (L = [] -> sz <= rbb_size s) ->
  wp (rt_rbb_blk_alloc sz) (fun r s' =>
    match F with
    | [] => r = None /\ s' = s
    | b :: F =>
      r = Some b /\ allocated s L F b sz s' \/
      r = None /\ rbb_ok s' L F /\ only_block s s' b /\ b_status s' b = RT_RBB_BLK_UNUSED /\
      forall a, ~ laid (placed s b a sz) (L ++ [b])
    end) s.
Proof.
  intros Hok Hsz Hbig. unfold rt_rbb_blk_alloc. wp_step. wp_step; [apply Z.ltb_lt; lia|]. wp_step.
  destruct F as [|b F].
  { eapply wp_mono; [by apply (find_empty_none s L)|]. cbv beta. intros _ s' [-> ->]. by apply wp_ret. }
  assert (Hb : b ∉ L ++ F).
  { destruct Hok as [_ _ _ _ N _ _ _ _]. apply NoDup_app in N as (_ & H & [H' _]%NoDup_cons). set_solver. }
  eapply wp_mono; [by apply (find_empty_some s L b F)|]. cbv beta. intros _ s1 (-> & Hok1 & Hob & Hsb & Hlen).
  pose proof Hob as (E1 & E2 & E3 & E4). wp_step. wp_step.
  assert (Hlen1 : (length (L ++ F) < blk_max_num s1)%nat).
  { rewrite E3. destruct Hok as [_ _ _ _ _ Hmax _ _ _]. rewrite length_app in *. simpl in Hmax. lia. }
  assert (Hp : forall a lo, laid (placed s1 b a sz) lo <-> laid (placed s b a sz) lo).
  { intros a lo. split; apply laid_frame; (split; [done|]); (split; [done|]); intros c _; simpl;
      destruct (decide (c = b)) as [->|Hne]; rewrite ?fupd_eq, ?fupd_ne by done; try done;
      by destruct (E4 c Hne) as (_ & -> & ->). }
  assert (Hput : forall a, laid (placed s1 b a sz) (L ++ [b]) -> wp (place_blk b a sz) (fun r s' =>
    r = Some b /\ allocated s L F b sz s' \/
    r = None /\ rbb_ok s' L F /\ only_block s s' b /\ b_status s' b = RT_RBB_BLK_UNUSED /\
      forall a, ~ laid (placed s b a sz) (L ++ [b])) s1).
  { intros a Ha. eapply wp_mono; [apply (place_blk_wp s1 L F b a sz); try done; lia|]. cbv beta.
    intros r s' (-> & H1 & (F1 & F2 & F3 & F4) & H3 & H4 & H5). left. split; [done|]. split; [done|]. split; [|done].
    split_and!; [congruence..|]. intros c Hc. destruct (F4 c Hc) as (-> & -> & ->). by apply E4. }
  pose proof Hok1 as [(B0 & B1 & B2) Hu _ Ht _ _ _ _ Hl]. rewrite (slist_isempty _ _ _ Hu).
  destruct L as [|a0 L].
  { rewrite bool_decide_eq_true_2 by done. apply Hput. right. exists b, [], []. split; [done|]. simpl.
    unfold rbb_end in *. simpl. rewrite !fupd_eq. specialize (Hbig eq_refl). lia. }
  rewrite bool_decide_eq_false_2 by done. wp_step. rewrite (slist_first _ _ _ Hu). wp_step; [done|].
  wp_step. wp_step; [done|]. wp_step. destruct (no_last_blk a0 L) as [t Hlast].
  rewrite Ht, last_blks, Hlast. wp_step; [done|].
  assert (Hbn : b ∉ a0 :: L) by set_solver.
  pose proof (fun a => laid_snoc s1 a0 L t b a sz Hl Hlast Hbn ltac:(lia)) as Hsn.
  assert (Htin : t ∈ a0 :: L) by (apply last_Some in Hlast as [l ->]; set_solver).
  pose proof (laid_inside _ _ _ Hl Htin) as (T1 & T2 & T3).
  pose proof (laid_inside s1 _ a0 Hl ltac:(left)) as (A1 & A2 & A3). unfold rbb_end in *.
  assert (Hno : (forall a, ~ laid (placed s1 b a sz) ((a0 :: L) ++ [b])) ->
    (None : option nat) = Some b /\ allocated s (a0 :: L) F b sz s1 \/
    (None : option nat) = None /\ rbb_ok s1 (a0 :: L) F /\ only_block s s1 b /\ b_status s1 b = RT_RBB_BLK_UNUSED /\
      forall a, ~ laid (placed s b a sz) ((a0 :: L) ++ [b])).
  { intros H. right. do 4 (split; [done|]). intros a. rewrite <- Hp. apply H. }
  rewrite (u32_id (b_buf s1 t + _)), (u32_id (rbb_buf s1 + _)) by lia.
  revert Hsn. destruct (b_buf s1 a0 <=? b_buf s1 t) eqn:Ecmp; intros Hsn; zbool.
  - rewrite !u32_id by lia. case_bool; [apply Hput, Hsn; left; lia|]. case_bool; [apply Hput, Hsn; right; lia|].
    apply wp_ret, Hno. intros a H. apply Hsn in H. lia.
  - assert (Hw : b_buf s1 t + b_size s1 t <= b_buf s1 a0).
    { destruct (laid_inv s1 a0 L t Hl Hlast) as [(? & _)|(_ & A & B & -> & _ & H)]; [lia|].
      by apply asc_snoc in H as (_ & _ & H). }
    rewrite u32_id by lia.
    case_bool; [apply Hput, Hsn; left; lia|]. apply wp_ret, Hno. intros a H. apply Hsn in H. lia.
Qed.

Lemma alloc_none_wp s L sz : rbb_ok s L [] -> 1 <= sz < 2 ^ 24 ->
  wp (rt_rbb_blk_alloc sz) (fun r s' => r = None /\ s' = s) s.
Proof.
  intros Hok Hsz. unfold rt_rbb_blk_alloc. wp_step. wp_step; [apply Z.ltb_lt; lia|]. wp_step.
  eapply wp_mono; [by apply (find_empty_none s L)|]. cbv beta. intros _ s' [-> ->]. by apply wp_ret.
Qed.

(** With no block in the list the first free block is put at the start of the buffer,
    whatever the size. *)
Lemma alloc_empty_wp s b F sz : rbb_ok s [] (b :: F) -> 1 <= sz < 2 ^ 24 ->
  wp (rt_rbb_blk_alloc sz) (fun r s' => r = Some b /\ b_buf s' b = rbb_buf s /\ b_size s' b = sz) s.
Proof.
  intros Hok Hsz. unfold rt_rbb_blk_alloc. wp_step. wp_step; [apply Z.ltb_lt; lia|]. wp_step.
  eapply wp_mono; [by apply (find_empty_some s [] b F)|]. cbv beta. intros _ s1 (-> & Hok1 & (E1 & _) & _).
  do 2 wp_step. rewrite (slist_isempty _ _ _ (ok_used _ _ _ Hok1)), bool_decide_eq_true_2 by done.
  unfold place_blk, list_append. repeat wp_step. simpl. rewrite !fupd_eq, E1. split; [done|]. split; [done|].
  change (2 ^ 24 - 1) with (Z.ones 24). rewrite Z.land_ones by lia. by apply Z.mod_small; lia.
Qed.

(** ** Filling and taking one block *)

Lemma set_status_ok s L F b v : rbb_ok s L F -> b ∈ L -> v <> RT_RBB_BLK_UNUSED -> rbb_ok (set_b_status b v s) L F.
Proof.
  intros [] Hb Hv. split; try done.
  - intros c Hc. simpl. destruct (decide (c = b)) as [->|]; [by rewrite fupd_eq|]. rewrite fupd_ne by done. auto.
  - intros c Hc. simpl. rewrite fupd_ne; [auto|]. intros ->. apply NoDup_app in ok_nodup0 as (_ & H & _). by apply (H b).
  - by apply (laid_frame s).
Qed.

Lemma blk_put_wp s L F b : rbb_ok s L F -> b ∈ L -> b_status s b = RT_RBB_BLK_INITED ->
  wp (rt_rbb_blk_put b) (fun _ s' => s' = set_b_status b RT_RBB_BLK_PUT s /\ rbb_ok s' L F) s.
Proof.
  intros Hok Hb Hs. unfold rt_rbb_blk_put. do 3 wp_step. wp_step; [by apply bool_decide_eq_true_2|]. wp_step.
  split; [done|]. by apply set_status_ok.
Qed.

Lemma blk_get_loop_eq s xs : forall x fuel, chain (rbb_links s) x (blks xs) -> (length xs < fuel)%nat ->
  blk_get_loop fuel (rbb_links s x) s = Some (head (filter (fun b => b_status s b = RT_RBB_BLK_PUT) xs)).
Proof.
  induction xs as [|b xs IH]; intros x fuel Hc Hf; (destruct fuel as [|fuel]; [simpl in *; lia|]); simpl in Hc.
  - by rewrite Hc.
  - destruct Hc as [-> Hc]. cbn [blk_get_loop blk_entry mbind option_bind]. case_decide as Hs.
    + by rewrite filter_cons_True.
    + rewrite filter_cons_False by done. apply IH; [done|simpl in Hf; lia].
Qed.

Lemma length_used s L F : rbb_ok s L F -> (length L < rbb_fuel s)%nat.
Proof. intros []. rewrite length_app in *. unfold rbb_fuel. lia. Qed.

(** The first filled block in the order of allocation is taken. *)
Lemma blk_get_wp s L F : rbb_ok s L F ->
  wp rt_rbb_blk_get (fun r s' =>
    r = head (filter (fun b => b_status s b = RT_RBB_BLK_PUT) L) /\ rbb_ok s' L F /\
    s' = match r with Some b => set_b_status b RT_RBB_BLK_GET s | None => s end) s.
Proof.
  intros Hok. pose proof (length_used _ _ _ Hok). pose proof Hok as []. unfold rt_rbb_blk_get. do 2 wp_step.
  rewrite (slist_isempty _ _ _ ok_used0). destruct L as [|a L]; [by apply wp_ret|].
  rewrite bool_decide_eq_false_2 by done. wp_step. unfold rt_slist_first.
  rewrite (blk_get_loop_eq s (a :: L)) by (done || apply ok_used0). wp_step; [done|].
  destruct (head _) as [b|] eqn:Eh; [|by wp_step]. repeat wp_step. split; [done|]. split; [|done].
  apply set_status_ok; [done| |done]. apply head_Some in Eh as [l' E].
  assert (Hb : b ∈ filter (fun b => b_status s b = RT_RBB_BLK_PUT) (a :: L)) by (rewrite E; left).
  by apply list_elem_of_filter in Hb as [_ ?].
Qed.

(** ** Freeing *)

Lemma blks_not_head L n : n ∈ blks L -> n <> BlkList /\ n <> FreeList.
Proof. intros (? & -> & _)%list_elem_of_fmap. done. Qed.

Lemma list_remove_wp s L1 b L2 F : rbb_ok s (L1 ++ b :: L2) F ->
  wp (list_remove (Blk b)) (fun _ s' => exists h tl, s' = set_rbb_tail tl (set_links h s) /\
    slist h BlkList (blks (L1 ++ L2)) /\ tl = default BlkList (last (blks (L1 ++ L2))) /\
    slist h FreeList (blks F)) s.
Proof.
  intros Hok. pose proof (length_used _ _ _ Hok) as Hlen. destruct Hok. unfold list_remove.
  pose proof ok_used0 as Hu. rewrite blks_app in Hu. change (blks (b :: L2)) with (Blk b :: blks L2) in Hu.
  pose proof Hu as [Hnd Hc]. rewrite length_app in Hlen. simpl in Hlen. do 3 wp_step.
  assert (Hnb : Blk b ∉ blks L1).
  { apply NoDup_cons in Hnd as [_ (_ & H & _)%NoDup_app]. intros Hx. apply (H _ Hx). left. }
  rewrite (slist_find_loop_eq _ (Blk b) (blks L1) (blks L2)); [|done..|unfold blks; rewrite length_fmap; lia].
  wp_step; [done|]. set (p := default BlkList (last (blks L1))). rewrite (slist_before _ _ _ _ _ Hu : rbb_links s p = _).
  do 4 wp_step. cbn [rbb_links set_links]. assert (Hp : p ∈ BlkList :: blks L1) by apply default_last_in.
  assert (HpF : p ∉ FreeList :: blks F).
  { apply NoDup_app in ok_nodup0 as (_ & H & _). intros HF. apply elem_of_cons in Hp as [->|Hp].
    - apply elem_of_cons in HF as [|HF]; [done|]. by apply blks_not_head in HF as [].
    - apply elem_of_cons in HF as [->|HF]; [by apply blks_not_head in Hp as []|].
      apply list_elem_of_fmap in Hp as (c & -> & Hc'). apply in_blks in HF. apply (H c); set_solver. }
  set (h := fupd (Blk b) None (fupd p (rbb_links s (Blk b)) (rbb_links s))).
  assert (Hu' : slist h BlkList (blks (L1 ++ L2))).
  { rewrite blks_app. pose proof (chain_bridge _ _ _ _ _ Hnd Hc) as Hc'. fold p in Hc'.
    assert (P : BlkList :: blks L1 ++ Blk b :: blks L2 ≡ₚ Blk b :: BlkList :: blks L1 ++ blks L2) by solve_Permutation.
    rewrite P in Hnd. apply NoDup_cons in Hnd as [Hni Hnd]. split; [done|by apply chain_fupd]. }
  assert (Hf' : slist h FreeList (blks F)).
  { apply (slist_frame (rbb_links s)); [|done]. intros y Hy. unfold h. rewrite !fupd_ne; [done|by intros ->|].
    intros ->. apply elem_of_cons in Hy as [|Hy%in_blks]; [done|]. apply NoDup_app in ok_nodup0 as (_ & H & _).
    apply (H b); set_solver. }
  simpl. rewrite ok_tail0. destruct L2 as [|c L2 _] using rev_ind.
  - rewrite last_blks, last_snoc. simpl. rewrite decide_True by done. wp_step. exists h, p. rewrite app_nil_r in *. done.
  - rewrite app_comm_cons, app_assoc, last_blks, last_snoc. simpl.
    rewrite decide_False. 2: { intros [= ->]. apply NoDup_app in ok_nodup0 as ([_ [_ [H _]%NoDup_cons]]%NoDup_app & _). set_solver. }
    wp_step. exists h, (Blk c). split; [|split; [done|split; [|done]]].
    + unfold set_rbb_tail, set_links. destruct s; simpl in *. f_equal.
      by rewrite ok_tail0, app_comm_cons, app_assoc, last_blks, last_snoc.
    + by rewrite app_assoc, last_blks, last_snoc.
Qed.

Lemma blk_free_wp s L1 b L2 F : rbb_ok s (L1 ++ b :: L2) F ->
  wp (rt_rbb_blk_free b) (fun _ s' => rbb_ok s' (L1 ++ L2) (b :: F) /\ only_block s s' b) s.
Proof.
  intros Hok. unfold rt_rbb_blk_free. do 3 wp_step.
  wp_step; [apply bool_decide_eq_true_2, (ok_in_use _ _ _ Hok); set_solver|]. wp_step.
  eapply wp_mono; [by apply (list_remove_wp s L1 b L2 F)|]. cbv beta.
  intros _ s' (h & tl & -> & Hu & Htl & Hf). destruct Hok. repeat wp_step.
  split. 2: { split_and!; try done. intros c Hc. simpl. by rewrite fupd_ne. }
  apply NoDup_app in ok_nodup0 as ((N1 & N2 & [N3 N4]%NoDup_cons)%NoDup_app & N5 & N6).
  assert (HF : b ∉ F) by set_solver. split; try done; simpl.
  - apply (slist_frame h); [|done]. intros y Hy. unfold rt_slist_insert. rewrite !fupd_ne; [done|..].
    + intros ->. apply elem_of_cons in Hy as [|Hy%in_blks]; [done|]. set_solver.
    + intros ->. apply elem_of_cons in Hy as [|Hy]; [done|]. by apply blks_not_head in Hy as [].
  - apply slist_insert; [done|]. apply not_elem_of_cons. split; [done|]. by rewrite in_blks.
  - apply NoDup_app. split; [apply NoDup_app; set_solver|]. split; [set_solver|by apply NoDup_cons].
  - rewrite !length_app in *. simpl in *. lia.
  - intros c Hc. rewrite fupd_ne by set_solver. apply ok_in_use0. set_solver.
  - intros c Hc. destruct (decide (c = b)) as [->|]; [by rewrite fupd_eq|]. rewrite fupd_ne by done.
    apply ok_unused0. set_solver.
  - apply (laid_frame s); [done|]. by apply (laid_remove s L1 b).
Qed.

(** ** Taking a queue of blocks *)

(** The filled blocks behind [last] that [rt_rbb_blk_queue_get] takes: until a block is not
    filled, lies in front of [last], or is too large. *)
Fixpoint take_run (s : rbb) (len : Z) (last : nat) (total : Z) (L : list nat) : list nat :=
  match L with
  | [] => []
  | b :: L =>
    if decide (b_status s b = RT_RBB_BLK_PUT /\ b_buf s last <= b_buf s b /\ total + b_size s b <= len)
    then b :: take_run s len b (total + b_size s b) L else []
  end.

(** The run starts with the first filled block, whatever its size. *)
Fixpoint queue_run (s : rbb) (len : Z) (L : list nat) : list nat :=
  match L with
  | [] => []
  | b :: L =>
    if decide (b_status s b = RT_RBB_BLK_PUT) then b :: take_run s len b (b_size s b) L
    else queue_run s len L
  end.

Definition total_size (s : rbb) (L : list nat) : Z := foldr (fun b z => b_size s b + z) 0 L.

(** All blocks of a list become taken. *)
Definition mark (s : rbb) (L : list nat) : rbb := foldl (fun s b => set_b_status b RT_RBB_BLK_GET s) s L.

Lemma asc_total s L lo hi : asc s lo hi L -> 0 <= total_size s L <= hi - lo.
Proof.
  revert lo. induction L as [|b L IH]; intros lo; simpl; [lia|]. intros (? & ? & H%IH). lia.
Qed.

Lemma total_size_app s L M : total_size s (L ++ M) = total_size s L + total_size s M.
Proof. induction L as [|b L IH]; simpl; [done|]. lia. Qed.

Lemma laid_total s L : 0 <= rbb_size s -> laid s L -> 0 <= total_size s L <= rbb_size s.
Proof.
  intros Hs [->|(a & A & B & -> & H1 & H2)]; [simpl; lia|]. rewrite app_comm_cons, total_size_app.
  pose proof (asc_total _ _ _ _ H1). pose proof (asc_total _ _ _ _ H2). unfold rbb_end in *. lia.
Qed.

(** The run does not depend on blocks in front of it. *)
Lemma take_run_status s b v len last total L : b ∉ L ->
  take_run (set_b_status b v s) len last total L = take_run s len last total L.
Proof.
  revert last total. induction L as [|c L IH]; intros last total Hb; [done|]. simpl.
  rewrite fupd_ne by set_solver. case_decide; [|done]. f_equal. apply IH. set_solver.
Qed.

Lemma take_run_prefix s len L : forall last total, take_run s len last total L `prefix_of` L.
Proof.
  induction L as [|b L IH]; intros last total; simpl; [done|]. case_decide; [|apply prefix_nil].
  by apply prefix_cons.
Qed.

Lemma take_run_put s len L : forall last total b, b ∈ take_run s len last total L -> b_status s b = RT_RBB_BLK_PUT.
Proof.
  induction L as [|a L IH]; intros last total b; simpl; [by intros ?%elem_of_nil|]. case_decide as Hd; [|by intros ?%elem_of_nil].
  intros [->|Hb]%elem_of_cons; [apply Hd|by eapply IH].
Qed.

Lemma queue_run_put s len L b : b ∈ queue_run s len L -> b_status s b = RT_RBB_BLK_PUT.
Proof.
  induction L as [|a L IH]; simpl; [by intros ?%elem_of_nil|]. case_decide; [|done].
  intros [->|Hb]%elem_of_cons; [done|by eapply take_run_put].
Qed.

Lemma queue_run_some s len L b : b ∈ L -> b_status s b = RT_RBB_BLK_PUT -> queue_run s len L <> [].
Proof.
  induction L as [|a L IH]; intros Hb Hs; [by apply elem_of_nil in Hb|]. simpl. case_decide; [done|].
  apply elem_of_cons in Hb as [->|Hb]; [done|auto].
Qed.

Lemma queue_run_in s len L b : b ∈ queue_run s len L -> b ∈ L.
Proof.
  induction L as [|a L IH]; [done|]. simpl. case_decide; [|intros; right; auto].
  intros [->|Hb]%elem_of_cons; [left|right]. destruct (take_run_prefix s len L a (b_size s a)) as [k E].
  rewrite E. set_solver.
Qed.

Lemma total_pos s L : (forall b, b ∈ L -> 1 <= b_size s b) -> 0 <= total_size s L.
Proof.
  induction L as [|c L IH]; intros Hpos; simpl; [lia|]. pose proof (Hpos c ltac:(left)).
  specialize (IH ltac:(set_solver)). lia.
Qed.

Lemma mark_ok L F run : forall s, rbb_ok s L F -> (forall b, b ∈ run -> b ∈ L) -> rbb_ok (mark s run) L F.
Proof.
  induction run as [|b run IH]; intros s Hok Hr; [done|]. simpl. apply IH; [|set_solver].
  apply set_status_ok; [done|apply Hr; left|done].
Qed.

Section queue_get.
Context (null_next : option (option rbb_node)) (len : Z).

Definition second (s : rbb) (node : option rbb_node) : option rbb_node :=
  match node with Some n => rbb_links s n | None => None end.

Lemma queue_loop_run L : forall x s total q fuel last, chain (rbb_links s) x (blks L) -> NoDup L ->
  (length L < fuel)%nat -> 0 <= total -> total + total_size s L < 2 ^ 32 -> (forall b, b ∈ L -> 1 <= b_size s b) ->
  let run := take_run s len last total L in
  (null_next <> None \/ (length run < length L)%nat) -> forall tmp, (L <> [] -> tmp = second s (rbb_links s x)) ->
  wp (queue_get_loop null_next fuel (rbb_links s x) tmp (Some last) len total q) (fun r s' =>
    r.1 = total + total_size s run /\ q_blocks r.2 = q_blocks q /\
    (0 <= q_num q < 2 ^ 32 -> q_num r.2 = u32 (q_num q + Z.of_nat (length run))) /\ s' = mark s run) s.
Proof.
  induction L as [|b L IH]; intros x s total q fuel last Hc Hnd Hf H0 Hsz Hpos run Hnull tmp Htmp;
    (destruct fuel as [|fuel]; [simpl in *; lia|]); cbn [chain blks fmap list_fmap] in Hc.
  - rewrite Hc. cbn [queue_get_loop]. apply wp_ret. simpl. split_and!; [lia|done|intros; rewrite u32_id; lia|done].
  - destruct Hc as [E Hc]. rewrite E in *. specialize (Htmp ltac:(done)). simpl in Htmp. cbn [queue_get_loop].
    wp_step. wp_step; [done|]. do 2 wp_step. cbn [total_size foldr] in Hsz. fold (total_size s L) in Hsz.
    pose proof (Hpos b ltac:(left)). apply NoDup_cons in Hnd as [Hb Hnd].
    pose proof (total_pos s L ltac:(set_solver)).
    rewrite u32_id by lia. subst run. cbn [take_run] in *.
    destruct (decide (b_status s b = _ /\ _)) as [(Hs & Hle & Hfit)|Hno].
    + rewrite bool_decide_eq_true_2 by done.
      replace (b_buf s b <? b_buf s last) with false by (symmetry; apply Z.ltb_ge; lia).
      replace (len <? total + b_size s b) with false by (symmetry; apply Z.ltb_ge; lia). simpl.
      do 4 wp_step. set (s1 := set_b_status b RT_RBB_BLK_GET s).
      assert (Hnx : exists tmp', slist_next_null null_next tmp s1 = Some tmp' /\
        (L <> [] -> tmp' = second s1 (rbb_links s1 (Blk b)))).
      { rewrite Htmp. change (rbb_links s1) with (rbb_links s). destruct L as [|c L].
        - simpl in Hc, Hnull. rewrite Hc. destruct null_next as [v|]; [|naive_solver lia]. by exists v.
        - simpl in Hc. destruct Hc as [-> _]. by eexists. }
      destruct Hnx as (tmp' & E' & Htmp'). wp_step. wp_step; [exact E'|].
      rewrite Htmp. change (rbb_links s (Blk b)) with (rbb_links s1 (Blk b)).
      pose proof (take_run_status s b RT_RBB_BLK_GET len b (total + b_size s b) L Hb) as Er. fold s1 in Er.
      eapply wp_mono; [apply (IH (Blk b) s1 (total + b_size s b)); try done|].
      * simpl in Hf. lia.
      * lia.
      * change (total_size s1 L) with (total_size s L). lia.
      * intros c Hc'. apply Hpos. by right.
      * rewrite Er. simpl in Hnull. naive_solver lia.
      * cbv beta. rewrite Er. intros r s' (R1 & R2 & R3 & R4).
        set (run' := take_run s len b (total + b_size s b) L) in *. change (total_size s1 run') with (total_size s run') in R1.
        simpl in R2, R3 |- *. split_and!; [lia|done| |done].
        intros Hq. rewrite R3 by apply u32_range. unfold u32, uwrap. rewrite Zplus_mod_idemp_l. f_equal. lia.
    + assert (Hb1 : (negb (bool_decide (b_status s b = RT_RBB_BLK_PUT)) || (b_buf s b <? b_buf s last)
           || (len <? total + b_size s b))%bool = true).
      { destruct (decide (b_status s b = RT_RBB_BLK_PUT)); [rewrite bool_decide_eq_true_2 by done|by rewrite bool_decide_eq_false_2].
        simpl. apply orb_true_iff. rewrite !Z.ltb_lt. apply not_and_l in Hno as [?|[?|?]%not_and_l]; [done|left; lia|right; lia]. }
      rewrite Hb1. apply wp_ret. simpl. split_and!; [lia|done|intros; rewrite u32_id; lia|done].
Qed.

Lemma queue_loop_skip L : forall x s q fuel, chain (rbb_links s) x (blks L) -> NoDup L ->
  (length L < fuel)%nat -> total_size s L < 2 ^ 32 -> (forall b, b ∈ L -> 1 <= b_size s b) ->
  let run := queue_run s len L in
  (null_next <> None \/ ~ run `suffix_of` L) -> forall tmp, (L <> [] -> tmp = second s (rbb_links s x)) ->
  wp (queue_get_loop null_next fuel (rbb_links s x) tmp None len 0 q) (fun r s' =>
    r.1 = total_size s run /\ s' = mark s run /\
    match run with [] => r.2 = q | b :: _ => r.2 = mk_queue b (u32 (Z.of_nat (length run))) end) s.
Proof.
  induction L as [|b L IH]; intros x s q fuel Hc Hnd Hf Hsz Hpos run Hnull tmp Htmp;
    (destruct fuel as [|fuel]; [simpl in *; lia|]); cbn [chain blks fmap list_fmap] in Hc.
  - rewrite Hc. cbn [queue_get_loop]. by apply wp_ret.
  - destruct Hc as [E Hc]. rewrite E in *. specialize (Htmp ltac:(done)). simpl in Htmp. cbn [queue_get_loop].
    wp_step. wp_step; [done|]. do 2 wp_step. cbn [total_size foldr] in Hsz. fold (total_size s L) in Hsz.
    pose proof (Hpos b ltac:(left)). apply NoDup_cons in Hnd as [Hb Hnd]. subst run. cbn [queue_run] in *.
    assert (Hnx : forall s1, rbb_links s1 = rbb_links s -> (null_next <> None \/ L <> []) -> exists tmp',
        slist_next_null null_next tmp s1 = Some tmp' /\ (L <> [] -> tmp' = second s1 (rbb_links s1 (Blk b)))).
    { intros s1 El Hn. rewrite Htmp. destruct L as [|c L].
      - simpl in Hc. rewrite Hc. destruct null_next as [v|]; [by exists v|naive_solver].
      - simpl in Hc. destruct Hc as [E' _]. rewrite E'. eexists. split; [done|]. intros _.
        rewrite El, E'. simpl. unfold rt_slist_next. by rewrite El. }
    destruct (decide (b_status s b = _)) as [Hs|Hs].
    + do 4 wp_step. set (s1 := set_b_status b RT_RBB_BLK_GET s).
      pose proof (take_run_status s b RT_RBB_BLK_GET len b (b_size s b) L Hb) as Er. fold s1 in Er.
      set (run := take_run s len b (b_size s b) L) in *.
      assert (Hn : null_next <> None \/ (length run < length L)%nat).
      { destruct Hnull as [|Hns]; [by left|]. right. destruct (take_run_prefix s len L b (b_size s b)) as [k Ek]. fold run in Ek.
        destruct k as [|c k]; [|rewrite Ek, length_app; simpl; lia].
        exfalso. apply Hns. rewrite app_nil_r in Ek. exists []. simpl. by f_equal. }
      destruct (Hnx s1 eq_refl) as (tmp' & E' & Htmp').
      { destruct Hn as [|Hn]; [by left|]. right. intros ->. simpl in Hn. lia. }
      wp_step. wp_step; [exact E'|]. rewrite Htmp. change (rbb_links s (Blk b)) with (rbb_links s1 (Blk b)).
      pose proof (total_pos s L ltac:(set_solver)). rewrite u32_id by lia. simpl.
      eapply wp_mono; [apply (queue_loop_run L (Blk b) s1 (b_size s b)); try done|].
      * simpl in Hf. lia.
      * lia.
      * intros c Hc'. apply Hpos. by right.
      * by rewrite Er.
      * cbv beta. rewrite Er. intros r s' (R1 & R2 & R3 & R4). split; [exact R1|]. split; [exact R4|].
        destruct r as [r [q0 q1]]. simpl in *. rewrite R2, R3 by done. f_equal.
        change (u32 (0 + 1)) with 1. f_equal. lia.
    + destruct (Hnx s eq_refl) as (tmp' & E' & Htmp').
      { destruct Hnull as [|Hns]; [by left|]. right. intros ->. apply Hns. apply suffix_nil. }
      do 2 wp_step. wp_step. wp_step; [exact E'|]. rewrite Htmp. apply IH; try done.
      * simpl in Hf. lia.
      * pose proof (Hpos b ltac:(left)). lia.
      * intros c Hc'. apply Hpos. by right.
      * destruct Hnull as [|Hns]; [by left|right]. intros Hs'. apply Hns. by apply suffix_cons_r.
Qed.
End queue_get.

Lemma blk_queue_get_wp null_next s L F len q : rbb_ok s L F ->
  let run := queue_run s len L in (null_next <> None \/ ~ run `suffix_of` L) ->
  wp (rt_rbb_blk_queue_get null_next len q) (fun r s' =>
    r.1 = total_size s run /\ s' = mark s run /\ rbb_ok s' L F /\
    match run with [] => r.2 = q | b :: _ => r.2 = mk_queue b (u32 (Z.of_nat (length run))) end) s.
Proof.
  intros Hok run Hn. pose proof (length_used _ _ _ Hok) as Hlen. pose proof Hok as []. unfold rt_rbb_blk_queue_get.
  do 2 wp_step. rewrite (slist_isempty _ _ _ ok_used0). destruct L as [|a L]; [by apply wp_ret|].
  rewrite bool_decide_eq_false_2 by done. unfold rt_slist_first. pose proof ok_used0 as [_ Hc].
  pose proof (laid_total s (a :: L) ltac:(lia) ok_laid0) as Ht. unfold rbb_end in *.
  eapply wp_mono; [apply (queue_loop_skip null_next len (a :: L) BlkList); try done|].
  - by apply NoDup_app in ok_nodup0 as [? _].
  - lia.
  - intros b Hb. by apply (laid_inside s (a :: L)).
  - cbv beta. intros r s' (R1 & -> & R3). split_and!; try done. apply mark_ok; [done|].
    intros b Hb. by apply (queue_run_in s len (a :: L)).
Qed.
