(* ===== verification/RingBlkUse.v ===== *)
(** Ring block buffers in use: initialisation, queues of blocks from taking to freeing, every
    sequence of calls, and calls that go wrong. *)
From stdpp Require Import relations.
From S2P Require Import Prelude SList RingBlk RingBlkProp.
#[local] Open Scope Z_scope.

(** * Initialisation *)

Lemma rbb_init_loop_ok n : forall i s, rbb_tail s = BlkList -> rbb_links s BlkList = None ->
  slist (rbb_links s) FreeList (blks (reverse (seq 0 i))) -> (forall b, (b < i)%nat -> b_status s b = RT_RBB_BLK_UNUSED) ->
  let s' := rbb_init_loop n i s in
  rbb_buf s' = rbb_buf s /\ rbb_size s' = rbb_size s /\ blk_max_num s' = blk_max_num s /\
  rbb_tail s' = BlkList /\ rbb_links s' BlkList = None /\
  slist (rbb_links s') FreeList (blks (reverse (seq 0 (i + n)))) /\
  (forall b, (b < i + n)%nat -> b_status s' b = RT_RBB_BLK_UNUSED).
Proof.
  induction n as [|n IH]; intros i s Ht Hb Hf Hs; cbn [rbb_init_loop].
  { rewrite Nat.add_0_r. done. }
  set (s1 := set_links _ (set_links _ _)).
  assert (Hni : Blk i ∉ FreeList :: blks (reverse (seq 0 i))).
  { rewrite not_elem_of_cons, in_blks, elem_of_reverse, elem_of_seq. split; [done|lia]. }
  destruct (IH (S i) s1) as (E1 & E2 & E3 & E4 & E5 & E6 & E7).
  - done.
  - simpl. unfold rt_slist_insert, rt_slist_init. by rewrite !fupd_ne.
  - rewrite seq_S, reverse_snoc. change (blks ((0 + i)%nat :: reverse (seq 0 i))) with (Blk i :: blks (reverse (seq 0 i))).
    apply slist_insert; [|done]. apply (slist_frame (rbb_links s)); [|done]. intros y Hy.
    apply fupd_ne. by intros ->.
  - intros b Hb'. simpl. destruct (decide (b = i)) as [->|]; [by rewrite fupd_eq|]. rewrite fupd_ne by done. apply Hs. lia.
  - replace (i + S n)%nat with (S i + n)%nat by lia. done.
Qed.

(** After [rt_rbb_init] every block is free. *)
Lemma rbb_init_ok buf size n s : 0 <= buf -> 0 <= size -> buf + size < 2 ^ 32 ->
  rbb_ok (rt_rbb_init buf size n s) [] (reverse (seq 0 n)) /\
  (forall b, (b < n)%nat -> b_status (rt_rbb_init buf size n s) b = RT_RBB_BLK_UNUSED) /\
  blk_max_num (rt_rbb_init buf size n s) = n /\ rbb_size (rt_rbb_init buf size n s) = size /\
  rbb_buf (rt_rbb_init buf size n s) = buf.
Proof.
  intros H0 H1 H2. unfold rt_rbb_init. set (s1 := set_links _ (set_links _ _)).
  destruct (rbb_init_loop_ok n 0 s1) as (E1 & E2 & E3 & E4 & E5 & E6 & E7); try done.
  { apply slist_init. }
  { lia. }
  simpl in E6, E7. split; [|done]. split.
  - unfold rbb_end. rewrite E1, E2. done.
  - split; [apply NoDup_singleton|done].
  - done.
  - by rewrite E4.
  - rewrite app_nil_l. rewrite reverse_Permutation. apply NoDup_seq.
  - rewrite E3, app_nil_l, length_reverse, length_seq. done.
  - intros b Hb. by apply not_elem_of_nil in Hb.
  - intros b Hb. rewrite elem_of_reverse, elem_of_seq in Hb. apply E7. lia.
  - by left.
Qed.

(** * A queue from taking to freeing *)

Lemma next_blk_eq s L1 b c L2 F : rbb_ok s (L1 ++ b :: c :: L2) F -> next_blk b s = Some c.
Proof.
  intros []. rewrite blks_app in ok_used. unfold next_blk.
  change (blks (b :: c :: L2)) with (Blk b :: Blk c :: blks L2) in ok_used.
  by rewrite (slist_next _ _ _ _ _ ok_used : rbb_links s (Blk b) = _).
Qed.

(** Freeing a queue frees its blocks and no others. *)
Lemma queue_free_wp run : forall L1 b L2 F s, rbb_ok s (L1 ++ (b :: run) ++ L2) F ->
  wp (queue_free_loop (S (length run)) (Some b)) (fun _ s' => rbb_ok s' (L1 ++ L2) (reverse (b :: run) ++ F)) s.
Proof.
  induction run as [|c run IH]; intros L1 b L2 F s Hok; cbn [queue_free_loop length].
  - wp_step. wp_step; [done|]. do 3 wp_step. eapply wp_mono; [by apply (blk_free_wp s L1 b L2 F)|]. cbv beta.
    intros _ s' [Hok' _]. by apply wp_ret.
  - wp_step. wp_step; [done|]. do 3 wp_step. rewrite (next_blk_eq s L1 b c (run ++ L2) F Hok).
    eapply wp_mono; [by apply (blk_free_wp s L1 b ((c :: run) ++ L2) F)|]. cbv beta. intros _ s' [Hok' _].
    eapply wp_mono; [by apply (IH L1 c L2 (b :: F) s')|]. cbv beta. intros _ s2 H2.
    replace (reverse (b :: c :: run) ++ F) with (reverse (c :: run) ++ b :: F); [done|].
    by rewrite (reverse_cons (c :: run)), <- app_assoc.
Qed.

Lemma queue_len_eq run : forall L1 b L2 F s total, rbb_ok s (L1 ++ (b :: run) ++ L2) F -> 0 <= total ->
  total + total_size s (b :: run) < 2 ^ 32 ->
  queue_len_loop (S (length run)) (Some b) total s = Some (total + total_size s (b :: run)).
Proof.
  induction run as [|c run IH]; intros L1 b L2 F s total Hok H0 Hlt;
    (assert (Hb : 1 <= b_size s b) by (apply (laid_inside s _ b (ok_laid _ _ _ Hok)); set_solver)); simpl in Hlt.
  - cbn [queue_len_loop length mbind option_bind]. rewrite u32_id by lia. simpl. f_equal. lia.
  - change (queue_len_loop _ _ _ _) with (queue_len_loop (S (length run)) (next_blk b s) (u32 (total + b_size s b)) s).
    rewrite (next_blk_eq s L1 b c (run ++ L2) F Hok).
    assert (Hr : 0 <= total_size s (c :: run)).
    { apply total_pos. intros d Hd. apply (laid_inside s _ d (ok_laid _ _ _ Hok)). set_solver. }
    simpl in Hr. rewrite (IH (L1 ++ [b]) c L2 F); simpl; rewrite ?u32_id; try lia.
    + f_equal. lia.
    + by rewrite <- app_assoc.
Qed.

(** The length announced by [rt_rbb_next_blk_queue_len] is that of a queue without a limit. *)
Lemma next_queue_len_run s L : forall x fuel last total, chain (rbb_links s) x (blks L) -> (length L < fuel)%nat ->
  0 <= total -> total + total_size s L < 2 ^ 32 -> (forall b, b ∈ L -> 1 <= b_size s b) ->
  next_queue_len_loop fuel (rbb_links s x) (Some last) total s =
    Some (total + total_size s (take_run s (2 ^ 32) last total L)).
Proof.
  induction L as [|b L IH]; intros x fuel last total Hc Hf H0 Hlt Hpos;
    (destruct fuel as [|fuel]; [simpl in *; lia|]); cbn [chain blks fmap list_fmap] in Hc; cbn [next_queue_len_loop].
  - rewrite Hc. simpl. f_equal. lia.
  - destruct Hc as [-> Hc]. cbn [blk_entry mbind option_bind]. simpl in Hlt. pose proof (Hpos b ltac:(left)).
    pose proof (total_pos s L ltac:(set_solver)). cbn [take_run]. case_decide as Hd.
    + destruct Hd as (Hs & Hle & _). rewrite bool_decide_eq_true_2 by done.
      replace (b_buf s b <? b_buf s last) with false by (symmetry; apply Z.ltb_ge; lia). simpl.
      rewrite u32_id by lia. unfold rt_slist_next. rewrite (IH (Blk b)); try done.
      * f_equal. lia.
      * simpl in Hf. lia.
      * lia.
      * lia.
      * set_solver.
    + case_bool; [simpl; f_equal; lia|]. exfalso.
      apply Hd. split_and!; [by eapply bool_decide_eq_true_1|lia|lia].
Qed.

Lemma next_queue_len_eq s L F : rbb_ok s L F ->
  rt_rbb_next_blk_queue_len s = Some (total_size s (queue_run s (2 ^ 32) L)).
Proof.
  intros Hok. pose proof (length_used _ _ _ Hok) as Hlen. destruct Hok. unfold rt_rbb_next_blk_queue_len.
  rewrite (slist_isempty _ _ _ ok_used). unfold rt_slist_first, rbb_end in *. pose proof ok_used as [_ Hc].
  pose proof (laid_total s L ltac:(lia) ok_laid) as Ht.
  assert (Hpos : forall b, b ∈ L -> 1 <= b_size s b) by (intros b Hb; by apply (laid_inside s L)).
  destruct L as [|a L]; [done|]. rewrite bool_decide_eq_false_2 by done.
  assert (G : forall L x fuel, chain (rbb_links s) x (blks L) -> (length L < fuel)%nat -> total_size s L < 2 ^ 32 ->
    (forall b, b ∈ L -> 1 <= b_size s b) ->
    next_queue_len_loop fuel (rbb_links s x) None 0 s = Some (total_size s (queue_run s (2 ^ 32) L))); [|apply G; try done; lia].
  clear. induction L as [|b L IH]; intros x fuel Hc Hf Hlt Hpos; (destruct fuel as [|fuel]; [simpl in *; lia|]);
    cbn [chain blks fmap list_fmap] in Hc; cbn [next_queue_len_loop]; [by rewrite Hc|].
  destruct Hc as [-> Hc]. cbn [blk_entry mbind option_bind queue_run]. simpl in Hlt, Hf. pose proof (Hpos b ltac:(left)).
  pose proof (total_pos s L ltac:(set_solver)). unfold rt_slist_next. destruct (decide (b_status s b = RT_RBB_BLK_PUT)).
  - rewrite decide_False by naive_solver. rewrite u32_id by lia. rewrite (next_queue_len_run s L); try done; try lia. set_solver.
  - rewrite decide_True by done. apply IH; try done; try lia. set_solver.
Qed.

(** * Sequences of calls *)

(** One call with arguments as the interface asks for.  A size has at least one byte; the
    size of a first block, asked for while no block is in the list, is at most that of the
    buffer, which [rt_rbb_blk_alloc] does not check ([first_block_too_large]). *)
Inductive rbb_step (null_next : option (option rbb_node)) (s s' : rbb) : Prop :=
| step_alloc sz r : 1 <= sz < 2 ^ 24 ->
    (rt_slist_isempty BlkList (rbb_links s) = true -> sz <= rbb_size s) -> rt_rbb_blk_alloc sz s = Some (r, s') -> rbb_step null_next s s'
| step_put b r : (b < blk_max_num s)%nat -> b_status s b = RT_RBB_BLK_INITED -> rt_rbb_blk_put b s = Some (r, s') ->
    rbb_step null_next s s'
| step_get r : rt_rbb_blk_get s = Some (r, s') -> rbb_step null_next s s'
| step_free b r : (b < blk_max_num s)%nat -> b_status s b <> RT_RBB_BLK_UNUSED -> rt_rbb_blk_free b s = Some (r, s') ->
    rbb_step null_next s s'
| step_queue len q r : rt_rbb_blk_queue_get null_next len q s = Some (r, s') -> rbb_step null_next s s'.

(** The blocks with a status other than unused are those in the list. *)
Definition rbb_inv (s : rbb) (L F : list nat) : Prop :=
  rbb_ok s L F /\ (forall b, b ∈ F -> (b < blk_max_num s)%nat) /\
  forall b, (b < blk_max_num s)%nat -> b ∈ L <-> b_status s b <> RT_RBB_BLK_UNUSED.

Lemma wp_of {S A} (m : M S A) (Q : A -> S -> Prop) s a s' : m s = Some (a, s') -> wp m Q s -> Q a s'.
Proof. intros E H. by apply (wp_elim m Q s). Qed.

Lemma inv_only_block s s' L F L' F' b : rbb_inv s L F -> rbb_ok s' L' F' -> only_block s s' b ->
  (forall c, c ∈ F' -> c ∈ F \/ c = b) -> (b < blk_max_num s)%nat ->
  (forall c, c <> b -> c ∈ L' <-> c ∈ L) -> (b ∈ L' <-> b_status s' b <> RT_RBB_BLK_UNUSED) -> rbb_inv s' L' F'.
Proof.
  intros (_ & HF & Hi) Hok (_ & _ & Em & Ho) HF' Hb HL HbL. split; [done|]. rewrite Em.
  split; [intros c Hc; destruct (HF' c Hc) as [? | ->]; [by apply HF|done]|]. intros c Hc.
  destruct (decide (c = b)) as [->|Hne]; [done|]. rewrite HL by done. destruct (Ho c Hne) as [-> _]. by apply Hi.
Qed.

Lemma inv_mark run : forall s L F, rbb_inv s L F -> (forall b, b ∈ run -> b ∈ L) -> rbb_inv (mark s run) L F.
Proof.
  induction run as [|b run IH]; intros s L F Hi Hr; [done|]. apply IH; [|set_solver].
  destruct Hi as (Hok & HF & Hi). assert (Hb : b ∈ L) by set_solver. split; [by apply set_status_ok|]. split; [done|].
  intros c Hc. simpl. destruct (decide (c = b)) as [->|]; [by rewrite fupd_eq|]. rewrite fupd_ne by done. by apply Hi.
Qed.

(** A taken block is one of [L], and becomes a marked one. *)
Lemma inv_get s L F r s' : rbb_inv s L F -> rt_rbb_blk_get s = Some (r, s') -> rbb_inv s' L F.
Proof.
  intros Hi E. pose proof Hi as [Hok _]. destruct (wp_of _ _ _ _ _ E (blk_get_wp s L F Hok)) as (Er & _ & ->).
  destruct r as [b|]; [|done]. apply (inv_mark [b]); [done|]. intros c ->%list_elem_of_singleton.
  symmetry in Er. apply head_Some in Er as [l' Ef].
  assert (Hb : b ∈ filter (fun b => b_status s b = RT_RBB_BLK_PUT) L) by (rewrite Ef; left).
  by apply list_elem_of_filter in Hb as [_ ?].
Qed.

Lemma rbb_list_empty s L F : rbb_ok s L F -> rt_slist_isempty BlkList (rbb_links s) = true <-> L = [].
Proof.
  intros Hok. rewrite (slist_isempty _ _ _ (ok_used _ _ _ Hok)), bool_decide_eq_true. by destruct L.
Qed.

(** The run of a queue does not reach an unfilled last block. *)
Lemma run_stops s len L F : rbb_ok s L F ->
  (forall t, rbb_tail s = Blk t -> b_status s t <> RT_RBB_BLK_PUT) -> queue_run s len L <> [] ->
  ~ queue_run s len L `suffix_of` L.
Proof.
  intros Hok Ht Hne [k E].
  destruct (queue_run s len L) as [|r run] eqn:Er; [done|]. clear Hne.
  assert (Hrun : forall b, b ∈ r :: run -> b_status s b = RT_RBB_BLK_PUT) by (rewrite <- Er; intros b; apply queue_run_put).
  destruct (no_last_blk r run) as [t Hl]. apply (Ht t).
  - rewrite (ok_tail _ _ _ Hok), last_blks. replace (last L) with (Some t); [done|].
    rewrite E. by rewrite last_app, Hl.
  - apply Hrun. by apply last_Some_elem_of.
Qed.

(** A call that does not need the NULL pointer gives the same result whatever is behind it. *)
Lemma queue_get_loop_null v len fuel : forall node tmp last total q s r,
  queue_get_loop None fuel node tmp last len total q s = Some r ->
  queue_get_loop (Some v) fuel node tmp last len total q s = Some r.
Proof.
  assert (Hn : forall tmp s t, slist_next_null None tmp s = Some t -> slist_next_null (Some v) tmp s = Some t).
  { intros [n|] s t; [done|]. intros [=]. }
  induction fuel as [|fuel IH]; intros node tmp last total q s r; [done|]. cbn [queue_get_loop].
  destruct node as [n|]; [|done]. destruct (blk_entry n) as [b|]; [|done].
  unfold mbind, M_bind, deref, get, modify. cbn.
  repeat case_match; try done; simplify_eq; intros H';
    repeat match goal with E : slist_next_null None _ _ = Some _ |- _ => apply Hn in E end; try congruence;
    repeat match goal with E1 : slist_next_null ?a ?b ?c = _, E2 : slist_next_null ?a ?b ?c = _ |- _ =>
      rewrite E1 in E2; simplify_eq end; eauto.
Qed.

(** The buffer and the number of blocks stay. *)
Definition same_dims (s s' : rbb) : Prop :=
  blk_max_num s' = blk_max_num s /\ rbb_size s' = rbb_size s /\ rbb_buf s' = rbb_buf s.

Lemma inv_queue null_next s L F len q r s' : rbb_inv s L F ->
  rt_rbb_blk_queue_get null_next len q s = Some (r, s') ->
  rbb_inv s' L F /\ same_dims s s'.
Proof.
  intros Hi E. pose proof Hi as [Hok _].
  assert (G : forall v, rt_rbb_blk_queue_get (Some v) len q s = Some (r, s') ->
    rbb_inv s' L F /\ same_dims s s').
  { intros v E'. destruct (wp_of _ _ _ _ _ E' (blk_queue_get_wp (Some v) s L F len q Hok ltac:(by left))) as (_ & -> & _).
    split; [apply inv_mark; [done|]; intros b; apply queue_run_in|].
    generalize (queue_run s len L) as run. clear. intros run. revert s. induction run as [|b run IH]; intros s; [done|].
    apply (IH (set_b_status b RT_RBB_BLK_GET s)). }
  destruct null_next as [v|]; [by apply (G v)|]. apply (G None). revert E. unfold rt_rbb_blk_queue_get.
  unfold mbind, M_bind, get. cbv beta zeta iota. case_match; [done|]. apply queue_get_loop_null.
Qed.

Lemma inv_step null_next s s' L F : rbb_inv s L F -> rbb_step null_next s s' ->
  same_dims s s' /\ exists L' F', rbb_inv s' L' F'.
Proof.
  intros Hi Hst. pose proof Hi as (Hok & HF & Hiff). destruct Hst as [sz r H1 H2 E|b r H1 H2 E|r E|b r H1 H2 E|len q r E].
  - pose proof (wp_of _ _ _ _ _ E (alloc_wp s L F sz Hok H1 (fun HL => H2 (proj2 (rbb_list_empty s L F Hok) HL)))) as H. cbv beta in H. destruct F as [|b F].
    + destruct H as [_ ->]. split; [done|eauto].
    + assert (Hb : b ∉ L) by (destruct Hok; apply NoDup_app in ok_nodup as (_ & N & _); set_solver).
      destruct H as [(_ & H3 & H4 & H5 & _)|(_ & H3 & H4 & H5 & _)]; pose proof H4 as (E1 & E2 & E3 & _); (split; [done|]).
      * exists (L ++ [b]), F. apply (inv_only_block s s' L (b :: F) _ _ b); try done; [set_solver|set_solver|set_solver|].
        rewrite H5. set_solver.
      * exists L, F. apply (inv_only_block s s' L (b :: F) _ _ b); try done; [set_solver|apply HF; left].
  - assert (Hb : b ∈ L) by (apply Hiff; [done|by rewrite H2]).
    destruct (wp_of _ _ _ _ _ E (blk_put_wp s L F b Hok Hb H2)) as [-> Hok']. split; [done|].
    exists L, F. apply (inv_only_block s _ L F L F b); try done; [|by left|split; [simpl; by rewrite fupd_eq|done]].
    split_and!; try done. intros c Hc. simpl. by rewrite fupd_ne.
  - pose proof (inv_get s L F r s' Hi E). destruct (wp_of _ _ _ _ _ E (blk_get_wp s L F Hok)) as (_ & _ & ->).
    split; [by destruct r|eauto].
  - assert (Hb : b ∈ L) by by apply Hiff. apply list_elem_of_split in Hb as (L1 & L2 & ->).
    destruct (wp_of _ _ _ _ _ E (blk_free_wp s L1 b L2 F Hok)) as [Hok' Ho]. pose proof Ho as (E1 & E2 & E3 & _).
    split; [done|]. exists (L1 ++ L2), (b :: F).
    assert (Hb : b ∉ L1 ++ L2) by (destruct Hok; apply NoDup_app in ok_nodup as ((_ & N1 & [N2 _]%NoDup_cons)%NoDup_app & _); set_solver).
    apply (inv_only_block s s' (L1 ++ b :: L2) F _ _ b); try done; [set_solver|set_solver|].
    split; [done|]. destruct Hok'. rewrite ok_unused; [done|left].
  - destruct (inv_queue null_next s L F len q r s' Hi E) as (? & ?). split; [done|eauto].
Qed.

Lemma inv_init null_next buf size n s0 s : 0 <= buf -> 0 <= size -> buf + size < 2 ^ 32 ->
  rtc (rbb_step null_next) (rt_rbb_init buf size n s0) s ->
  (blk_max_num s = n /\ rbb_size s = size /\ rbb_buf s = buf) /\ exists L F, rbb_inv s L F.
Proof.
  intros H0 H1 H2 Hr. destruct (rbb_init_ok buf size n s0 H0 H1 H2) as (Hok & Hst & Hd).
  assert (Hi : rbb_inv (rt_rbb_init buf size n s0) [] (reverse (seq 0 n))).
  { split; [done|]. destruct Hd as (-> & _ & _). split.
    - intros b. rewrite elem_of_reverse, elem_of_seq. lia.
    - intros b Hb. rewrite (Hst b Hb). split; [by intros ?%not_elem_of_nil|done]. }
  clear Hok Hst.
  assert (G : exists L F, rbb_inv (rt_rbb_init buf size n s0) L F) by eauto. clear Hi. revert Hd G.
  induction Hr as [|s s1 s' Hst Hr IH]; [done|]. intros (D1 & D2 & D3) (L & F & Hi).
  destruct (inv_step null_next s s1 L F Hi Hst) as ((E1 & E2 & E3) & G). apply IH; [split_and!; congruence|done].
Qed.


(** [rt_rbb_blk_alloc] without a free block returns NULL and changes nothing.  Otherwise it
    returns the first free block as the last of the list, with the size asked for, behind the
    previous last block or at the start of the buffer, where it shares no byte with another
    block; NULL is returned only when there is no such place, and the block structure taken for
    the attempt is then in no list. *)
Lemma rbb_alloc_refines (s : rbb) (L F : list nat) (sz : Z) :
  rbb_ok s L F -> 1 <= sz < 2 ^ 24 -> (L = [] -> sz <= rbb_size s) ->
  wp (rt_rbb_blk_alloc sz) (fun r s' =>
    match F with
    | [] => r = None /\ s' = s
    | b :: F =>
      (exists a, laid (placed s b a sz) (L ++ [b])) /\ r = Some b /\ rbb_ok s' (L ++ [b]) F /\ only_block s s' b /\
        b_status s' b = RT_RBB_BLK_INITED /\ b_size s' b = sz /\ rbb_buf s <= b_buf s' b /\
        b_buf s' b + sz <= rbb_buf s + rbb_size s /\
        (forall c, c ∈ L -> b_buf s' b + sz <= b_buf s c \/ b_buf s c + b_size s c <= b_buf s' b) \/
      (forall a, ~ laid (placed s b a sz) (L ++ [b])) /\ r = None /\ rbb_ok s' L F /\ only_block s s' b
    end) s.
Proof.
  intros Hok H1 H2. eapply wp_mono; [by apply (alloc_wp s L F sz)|]. cbv beta. intros r s' H.
  destruct F as [|b F]; [done|]. destruct H as [(-> & Hok' & Ho & Hst & Hsz)|(-> & Hok' & Ho & _ & Hno)]; [left|by right].
  assert (HbL : b ∉ L) by (destruct Hok; apply NoDup_app in ok_nodup as (_ & N & _); set_solver).
  pose proof (ok_laid _ _ _ Hok') as Hl. pose proof Ho as (E1 & E2 & _ & E4).
  split; [exists (b_buf s' b); by apply (laid_frame s'); [|done]; split; [done|split; [done|]];
    intros c Hc; simpl; destruct (decide (c = b)) as [->|Hne]; [rewrite !fupd_eq|rewrite !fupd_ne by done; by destruct (E4 c Hne) as (_ & -> & ->)]|].
  do 5 (split; [done|]). destruct (laid_inside s' _ b Hl ltac:(set_solver)) as (? & ? & ?). unfold rbb_end in *.
  rewrite E1, E2, Hsz in *. split_and!; [lia|lia|]. intros c Hc. assert (Hne : c <> b) by (by intros ->).
  destruct (E4 c Hne) as (_ & <- & <-). rewrite <- Hsz. apply (laid_apart s' (L ++ [b])); set_solver.
Qed.

Lemma mark_size run L : forall s, total_size (mark s run) L = total_size s L.
Proof. induction run as [|b run IH]; intros s; [done|]. simpl. by rewrite IH. Qed.

(** [rt_rbb_blk_queue_get] takes the first filled block of the list and the filled blocks
    behind it as long as the next one lies behind the last in the buffer and the sum of the sizes
    stays within the limit: it marks them as taken, leaves everything else as it is and returns
    the sum of their sizes and a queue with the first of them and their number.  Reading behind
    NULL is needed only when the blocks taken reach the end of the list.  Freeing the queue frees
    exactly these blocks. *)
Lemma rbb_queue_refines (null_next : option (option rbb_node)) (s : rbb) (L1 L2 F : list nat) (b : nat)
    (run : list nat) (len : Z) (q : rbb_queue) :
  rbb_ok s (L1 ++ (b :: run) ++ L2) F -> queue_run s len (L1 ++ (b :: run) ++ L2) = b :: run ->
  null_next <> None \/ L2 <> [] ->
  wp (rt_rbb_blk_queue_get null_next len q) (fun r s' =>
    r = (total_size s (b :: run), mk_queue b (u32 (Z.of_nat (length (b :: run))))) /\ s' = mark s (b :: run) /\
    (Z.of_nat (length (b :: run)) < 2 ^ 32 ->
      rt_rbb_blk_queue_len r.2 s' = Some r.1 /\
      wp (rt_rbb_blk_queue_free r.2) (fun _ s2 => rbb_ok s2 (L1 ++ L2) (reverse (b :: run) ++ F)) s')) s.
Proof.
  intros Hok Hrun Hn. pose proof (blk_queue_get_wp null_next s _ F len q Hok) as H. cbv zeta in H. rewrite Hrun in H.
  eapply wp_mono; [apply H|].
  { destruct Hn as [|Hne]; [by left|right]. intros [k E]. destruct L2 as [|c L2 _] using rev_ind; [done|].
    apply (f_equal last) in E. rewrite !app_assoc, last_snoc, last_app_cons in E. symmetry in E.
    apply last_Some in E as [l E]. destruct Hok. rewrite E in ok_nodup. rewrite !app_assoc in ok_nodup.
    apply NoDup_app in ok_nodup as [N _]. rewrite <- app_assoc in N. apply NoDup_app in N as (_ & N & _).
    apply (N c); set_solver. }
  cbv beta. intros [tot q'] s' (E1 & -> & Hok' & E2). simpl in E1, E2. subst. split; [done|]. split; [done|].
  intros Hlen. unfold rt_rbb_blk_queue_len, rt_rbb_blk_queue_free. cbn [fst snd q_num q_blocks].
  rewrite (u32_id (Z.of_nat _)) by (split; [lia|exact Hlen]). rewrite Nat2Z.id. split.
  - change (length (b :: run)) with (S (length run)). rewrite (queue_len_eq run L1 b L2 F), mark_size; [done|done|lia|].
    rewrite mark_size. destruct Hok. pose proof (laid_total s _ ltac:(lia) ok_laid) as Ht. rewrite !total_size_app in Ht.
    unfold rbb_end in *.
    assert (Hp : forall M, (forall c, c ∈ M -> c ∈ L1 ++ (b :: run) ++ L2) -> 0 <= total_size s M).
    { intros M HM. apply total_pos. intros c Hc. apply (laid_inside s _ c ok_laid), HM, Hc. }
    pose proof (Hp L1 ltac:(set_solver)). pose proof (Hp L2 ltac:(set_solver)). lia.
  - by apply (queue_free_wp run L1 b L2 F).
Qed.

(** * A concrete buffer of 64 bytes with three blocks *)

Definition no_rbb : rbb := mk_rbb 0 0 0 (fun _ => None) BlkList (fun _ => RT_RBB_BLK_UNUSED) (fun _ => 0) (fun _ => 0).
Definition rbb0 : rbb := rt_rbb_init 1000 64 3 no_rbb.
(** Two filled blocks of 16 and 24 bytes. *)
Definition rbb2 : rbb := run (rt_rbb_blk_alloc 16;; rt_rbb_blk_alloc 24;; rt_rbb_blk_put 2;; rt_rbb_blk_put 1) rbb0.

Lemma rbb2_ok : rbb_ok rbb2 [2; 1]%nat [0]%nat.
Proof.
  split.
  - by vm_compute.
  - split; [by apply (bool_decide_unpack _); vm_compute|by repeat split].
  - split; [by apply (bool_decide_unpack _); vm_compute|by repeat split].
  - reflexivity.
  - by apply (bool_decide_unpack _); vm_compute.
  - vm_compute. lia.
  - intros b [->| ->%list_elem_of_singleton]%elem_of_cons; by vm_compute.
  - intros b ->%list_elem_of_singleton. reflexivity.
  - right. exists 2%nat, [1]%nat, []. split; [done|]. vm_compute. intuition discriminate.
Qed.

Lemma rbb_alloc_refines_witness :
  wp (rt_rbb_blk_alloc 24) (fun r s' =>
      (exists a, laid (placed rbb2 0 a 24) [2; 1; 0]%nat) /\ r = Some 0%nat /\ rbb_ok s' [2; 1; 0]%nat [] /\
        only_block rbb2 s' 0 /\
        b_status s' 0%nat = RT_RBB_BLK_INITED /\ b_size s' 0%nat = 24 /\ rbb_buf rbb2 <= b_buf s' 0%nat /\
        b_buf s' 0%nat + 24 <= rbb_buf rbb2 + rbb_size rbb2 /\
        (forall c, c ∈ [2; 1]%nat -> b_buf s' 0%nat + 24 <= b_buf rbb2 c \/ b_buf rbb2 c + b_size rbb2 c <= b_buf s' 0%nat) \/
      (forall a, ~ laid (placed rbb2 0 a 24) [2; 1; 0]%nat) /\ r = None /\ rbb_ok s' [2; 1]%nat [] /\
        only_block rbb2 s' 0) rbb2.
Proof.
  apply (rbb_alloc_refines rbb2 [2; 1]%nat [0]%nat 24).
  - exact rbb2_ok.
  - lia.
  - vm_compute. discriminate.
Defined.

Lemma rbb_queue_refines_witness :
  wp (rt_rbb_blk_queue_get (Some None) 64 (mk_queue 0 0)) (fun r s' =>
    r = (total_size rbb2 [2; 1]%nat, mk_queue 2 (u32 2)) /\ s' = mark rbb2 [2; 1]%nat /\
    (2 < 2 ^ 32 ->
      rt_rbb_blk_queue_len r.2 s' = Some r.1 /\
      wp (rt_rbb_blk_queue_free r.2) (fun _ s2 => rbb_ok s2 [] [1; 2; 0]%nat) s')) rbb2.
Proof.
  apply (rbb_queue_refines (Some None) rbb2 [] [] [0]%nat 2%nat [1]%nat 64 (mk_queue 0 0)).
  - exact rbb2_ok.
  - vm_compute. reflexivity.
  - left. discriminate.
Defined.


(** ** Calls that go wrong *)

(** Every allocation that fails for want of room loses a block structure: after three of them
    nothing can be allocated from the empty buffer. *)
Lemma alloc_failures_leak :
  let s := run (rt_rbb_blk_alloc 40;; rt_rbb_blk_alloc 40;; rt_rbb_blk_alloc 40;; rt_rbb_blk_free 2) rbb0 in
  rbb_links s BlkList = None /\
  match (rt_rbb_blk_alloc 8;; rt_rbb_blk_alloc 8) s with Some (r, _) => r = None | None => False end.
Proof. split; vm_compute; reflexivity. Qed.

(** The first block is not compared with the size of the buffer. *)
Lemma first_block_too_large :
  match rt_rbb_blk_alloc 100 rbb0 with Some (r, s) => r = Some 2%nat /\ b_size s 2%nat = 100 | None => False end.
Proof. vm_compute. split; reflexivity. Qed.

(** Taking all filled blocks reads behind NULL. *)
Lemma queue_get_null : rt_rbb_blk_queue_get None 64 (mk_queue 0 0) rbb2 = None.
Proof. vm_compute. reflexivity. Qed.

(** A block that was freed between two filled ones leaves a hole in the queue: 16 bytes at
    1000 and 8 bytes at 1040 are one queue of 24 bytes at 1000. *)
Lemma queue_has_hole :
  let s := run (rt_rbb_blk_alloc 16;; rt_rbb_blk_alloc 24;; rt_rbb_blk_alloc 8;; rt_rbb_blk_put 1;;
                rt_rbb_blk_get;; rt_rbb_blk_free 1;; rt_rbb_blk_put 2;; rt_rbb_blk_put 0) rbb0 in
  match rt_rbb_blk_queue_get (Some None) 64 (mk_queue 0 0) s with
  | Some (r, s) => r = (24, mk_queue 2 2) /\ b_buf s 2%nat = 1000 /\ b_size s 2%nat = 16 /\ b_buf s 0%nat = 1040
  | None => False
  end.
Proof. vm_compute. repeat split. Qed.

(** The limit is not applied to the first block. *)
Lemma queue_beyond_limit :
  match rt_rbb_blk_queue_get (Some None) 8 (mk_queue 0 0) rbb2 with Some (r, _) => r.1 = 16 | None => False end.
Proof. vm_compute. reflexivity. Qed.
