(* ===== verification/SmallMem.v ===== *)
(** The small-memory allocator, src/mem.c: blocks of one memory region with a header
    ([struct rt_small_mem_item]) each, linked by offsets from [heap_ptr].

    A pointer to a header is modelled by its offset from [heap_ptr]; the addresses that
    cross the interface ([rt_smem_alloc], [rt_smem_free]) are addresses.  Headers and
    the bytes behind them are two maps, [sm_item] by offset and [sm_data] by address. *)
From S2P Require Import Prelude KState Object.
#[local] Open Scope Z_scope.

(** [struct rt_small_mem_item]: the pool with the USED bit, and the offsets of the neighbours. *)
Record small_mem_item := mk_item {
  i_pool : Z;
  i_next : Z;
  i_prev : Z
}.

Definition set_i_pool (v : Z) (r : small_mem_item) : small_mem_item :=
  mk_item v (r.(i_next)) (r.(i_prev)).
Definition set_i_next (v : Z) (r : small_mem_item) : small_mem_item :=
  mk_item (r.(i_pool)) v (r.(i_prev)).
Definition set_i_prev (v : Z) (r : small_mem_item) : small_mem_item :=
  mk_item (r.(i_pool)) (r.(i_next)) v.
(** [struct rt_small_mem] at address [sm_self] ([sm_size] is [mem_size_aligned]), with the headers and the bytes of its memory. *)
Record small_mem := mk_smem {
  sm_self : Z;
  sm_type : Z;
  sm_address : Z;
  sm_total : Z;
  sm_used : Z;
  sm_max : Z;
  sm_heap_ptr : Z;
  sm_heap_end : Z;
  sm_lfree : Z;
  sm_size : Z;
  sm_item : Z -> small_mem_item;
  sm_data : Z -> Z
}.

Definition set_sm_self (v : Z) (r : small_mem) : small_mem :=
  mk_smem v (r.(sm_type)) (r.(sm_address)) (r.(sm_total)) (r.(sm_used)) (r.(sm_max)) (r.(sm_heap_ptr)) (r.(sm_heap_end)) (r.(sm_lfree)) (r.(sm_size)) (r.(sm_item)) (r.(sm_data)).
Definition set_sm_type (v : Z) (r : small_mem) : small_mem :=
  mk_smem (r.(sm_self)) v (r.(sm_address)) (r.(sm_total)) (r.(sm_used)) (r.(sm_max)) (r.(sm_heap_ptr)) (r.(sm_heap_end)) (r.(sm_lfree)) (r.(sm_size)) (r.(sm_item)) (r.(sm_data)).
Definition set_sm_address (v : Z) (r : small_mem) : small_mem :=
  mk_smem (r.(sm_self)) (r.(sm_type)) v (r.(sm_total)) (r.(sm_used)) (r.(sm_max)) (r.(sm_heap_ptr)) (r.(sm_heap_end)) (r.(sm_lfree)) (r.(sm_size)) (r.(sm_item)) (r.(sm_data)).
Definition set_sm_total (v : Z) (r : small_mem) : small_mem :=
  mk_smem (r.(sm_self)) (r.(sm_type)) (r.(sm_address)) v (r.(sm_used)) (r.(sm_max)) (r.(sm_heap_ptr)) (r.(sm_heap_end)) (r.(sm_lfree)) (r.(sm_size)) (r.(sm_item)) (r.(sm_data)).
Definition set_sm_used (v : Z) (r : small_mem) : small_mem :=
  mk_smem (r.(sm_self)) (r.(sm_type)) (r.(sm_address)) (r.(sm_total)) v (r.(sm_max)) (r.(sm_heap_ptr)) (r.(sm_heap_end)) (r.(sm_lfree)) (r.(sm_size)) (r.(sm_item)) (r.(sm_data)).
Definition set_sm_max (v : Z) (r : small_mem) : small_mem :=
  mk_smem (r.(sm_self)) (r.(sm_type)) (r.(sm_address)) (r.(sm_total)) (r.(sm_used)) v (r.(sm_heap_ptr)) (r.(sm_heap_end)) (r.(sm_lfree)) (r.(sm_size)) (r.(sm_item)) (r.(sm_data)).
Definition set_sm_heap_ptr (v : Z) (r : small_mem) : small_mem :=
  mk_smem (r.(sm_self)) (r.(sm_type)) (r.(sm_address)) (r.(sm_total)) (r.(sm_used)) (r.(sm_max)) v (r.(sm_heap_end)) (r.(sm_lfree)) (r.(sm_size)) (r.(sm_item)) (r.(sm_data)).
Definition set_sm_heap_end (v : Z) (r : small_mem) : small_mem :=
  mk_smem (r.(sm_self)) (r.(sm_type)) (r.(sm_address)) (r.(sm_total)) (r.(sm_used)) (r.(sm_max)) (r.(sm_heap_ptr)) v (r.(sm_lfree)) (r.(sm_size)) (r.(sm_item)) (r.(sm_data)).
Definition set_sm_lfree (v : Z) (r : small_mem) : small_mem :=
  mk_smem (r.(sm_self)) (r.(sm_type)) (r.(sm_address)) (r.(sm_total)) (r.(sm_used)) (r.(sm_max)) (r.(sm_heap_ptr)) (r.(sm_heap_end)) v (r.(sm_size)) (r.(sm_item)) (r.(sm_data)).
Definition set_sm_size (v : Z) (r : small_mem) : small_mem :=
  mk_smem (r.(sm_self)) (r.(sm_type)) (r.(sm_address)) (r.(sm_total)) (r.(sm_used)) (r.(sm_max)) (r.(sm_heap_ptr)) (r.(sm_heap_end)) (r.(sm_lfree)) v (r.(sm_item)) (r.(sm_data)).
Definition set_sm_item (v : Z -> small_mem_item) (r : small_mem) : small_mem :=
  mk_smem (r.(sm_self)) (r.(sm_type)) (r.(sm_address)) (r.(sm_total)) (r.(sm_used)) (r.(sm_max)) (r.(sm_heap_ptr)) (r.(sm_heap_end)) (r.(sm_lfree)) (r.(sm_size)) v (r.(sm_data)).
Definition set_sm_data (v : Z -> Z) (r : small_mem) : small_mem :=
  mk_smem (r.(sm_self)) (r.(sm_type)) (r.(sm_address)) (r.(sm_total)) (r.(sm_used)) (r.(sm_max)) (r.(sm_heap_ptr)) (r.(sm_heap_end)) (r.(sm_lfree)) (r.(sm_size)) (r.(sm_item)) v.

Abbreviation H := (M small_mem).

(** Headers by offset. *)
Definition item (p : Z) : H small_mem_item := gets (fun s => sm_item s p).
Definition upd_item (p : Z) (f : small_mem_item -> small_mem_item) : H unit :=
  modify (fun s => set_sm_item (fupd p (f (sm_item s p)) (sm_item s)) s).

Definition RT_Object_Class_Memory : Z := 12.

Definition SIZEOF_STRUCT_MEM : Z := 16.
Definition MIN_SIZE : Z := 12.
Definition MIN_SIZE_ALIGNED : Z := 16.
Definition MEM_MASK : Z := 2 ^ 32 - 2.

Definition MEM_USED (mem : Z) : Z := Z.lor (Z.land mem MEM_MASK) 1.
Definition MEM_FREED (mem : Z) : Z := Z.lor (Z.land mem MEM_MASK) 0.
Definition MEM_ISUSED (i : small_mem_item) : bool := negb (Z.land (i_pool i) (Z.lxor (2 ^ 32 - 1) MEM_MASK) =? 0).
Definition MEM_POOL (i : small_mem_item) : Z := Z.land (i_pool i) MEM_MASK.

Definition plug_holes (mem : Z) : H unit :=
  s ← get;
  RT_ASSERT (0 <=? mem);;
  RT_ASSERT (mem <? sm_heap_end s);;
  im ← item mem;
  let nmem := i_next im in
  inm ← item nmem;
  (if negb (mem =? nmem) && negb (MEM_ISUSED inm) && negb (nmem =? sm_heap_end s) then
     (if sm_lfree s =? nmem then modify (set_sm_lfree mem) else mret tt);;
     upd_item nmem (set_i_pool 0);;
     inm ← item nmem;
     upd_item mem (set_i_next (i_next inm));;
     upd_item (i_next inm) (set_i_prev mem)
   else mret tt);;
  s ← get;
  im ← item mem;
  let pmem := i_prev im in
  ipm ← item pmem;
  if negb (pmem =? mem) && negb (MEM_ISUSED ipm) then
    (if sm_lfree s =? mem then modify (set_sm_lfree pmem) else mret tt);;
    upd_item mem (set_i_pool 0);;
    im ← item mem;
    upd_item pmem (set_i_next (i_next im));;
    upd_item (i_next im) (set_i_prev pmem)
  else mret tt.

(** * Initialisation *)

Definition sizeof_small_mem : Z := 60.

(** The control block is placed at the start of the region; [None] is the error
    return.  [items] and [bytes] are what the memory contained. *)
Definition rt_smem_init (begin_addr size : Z) (items : Z -> small_mem_item) (bytes : Z -> Z)
    : option small_mem :=
  let self := RT_ALIGN begin_addr RT_ALIGN_SIZE in
  let start_addr := u32 (self + sizeof_small_mem) in
  let begin_align := RT_ALIGN start_addr RT_ALIGN_SIZE in
  let end_align := RT_ALIGN_DOWN (u32 (begin_addr + size)) RT_ALIGN_SIZE in
  if (2 * SIZEOF_STRUCT_MEM <? end_align) && (start_addr <=? u32 (end_align - 2 * SIZEOF_STRUCT_MEM)) then
    let mem_size := u32 (end_align - begin_align - 2 * SIZEOF_STRUCT_MEM) in
    let next := u32 (mem_size + SIZEOF_STRUCT_MEM) in
    let items := fupd 0 (mk_item (MEM_FREED self) next 0) items in
    let items := fupd next (mk_item (MEM_USED self) next next) items in
    Some (mk_smem self (Z.lor RT_Object_Class_Memory RT_Object_Class_Static) begin_align mem_size 0 0
            begin_align next 0 mem_size items bytes)
  else None.

(** * Allocation *)

(** The object checks at the start of every call. *)
Definition smem_checked : H unit :=
  s ← get;
  RT_ASSERT (Z.land (sm_type s) (Z.lnot RT_Object_Class_Static) =? RT_Object_Class_Memory);;
  RT_ASSERT (negb (Z.land (sm_type s) RT_Object_Class_Static =? 0)).

Definition account (n : Z) : H unit :=
  modify (fun s => set_sm_used (u32 (sm_used s + n)) s);;
  modify (fun s => if sm_max s <? sm_used s then set_sm_max (sm_used s) s else s).

(** The block at [ptr] was chosen: split it when a further block fits behind. *)
Definition smem_carve (ptr size : Z) : H unit :=
  s ← get;
  mem ← item ptr;
  if u32 (size + SIZEOF_STRUCT_MEM + MIN_SIZE_ALIGNED) <=? u32 (i_next mem - u32 (ptr + SIZEOF_STRUCT_MEM)) then
    let ptr2 := u32 (ptr + SIZEOF_STRUCT_MEM + size) in
    upd_item ptr2 (fun _ => mk_item (MEM_FREED (sm_self s)) (i_next mem) ptr);;
    upd_item ptr (set_i_next ptr2);;
    (if negb (i_next mem =? u32 (sm_size s + SIZEOF_STRUCT_MEM))
     then upd_item (i_next mem) (set_i_prev ptr2) else mret tt);;
    account (size + SIZEOF_STRUCT_MEM)
  else account (i_next mem - ptr).

(** The [while] loop that looks for the next free block. *)
Fixpoint lfree_loop (fuel : nat) : H unit :=
  match fuel with
  | O => fun _ => None
  | S fuel =>
      s ← get;
      mem ← item (sm_lfree s);
      if MEM_ISUSED mem && negb (sm_lfree s =? sm_heap_end s) then
        modify (set_sm_lfree (i_next mem));; lfree_loop fuel
      else mret tt
  end.

(** The first-fit loop from [ptr]; 0 is NULL. *)
Fixpoint smem_alloc_loop (fuel : nat) (ptr size : Z) : H Z :=
  match fuel with
  | O => fun _ => None
  | S fuel' =>
      s ← get;
      if ptr <=? u32 (sm_size s - size) then
        mem ← item ptr;
        if negb (MEM_ISUSED mem) && (size <=? u32 (i_next mem - u32 (ptr + SIZEOF_STRUCT_MEM))) then
          smem_carve ptr size;;
          upd_item ptr (set_i_pool (MEM_USED (sm_self s)));;
          (if ptr =? sm_lfree s then
             lfree_loop fuel;;
             s ← get;
             il ← item (sm_lfree s);
             RT_ASSERT ((sm_lfree s =? sm_heap_end s) || negb (MEM_ISUSED il))
           else mret tt);;
          let mem := u32 (sm_heap_ptr s + ptr) in
          RT_ASSERT (u32 (mem + SIZEOF_STRUCT_MEM + size) <=? u32 (sm_heap_ptr s + sm_heap_end s));;
          RT_ASSERT (u32 (mem + SIZEOF_STRUCT_MEM) mod RT_ALIGN_SIZE =? 0);;
          RT_ASSERT (Z.land mem (RT_ALIGN_SIZE - 1) =? 0);;
          mret (u32 (mem + SIZEOF_STRUCT_MEM))
        else smem_alloc_loop fuel' (i_next mem) size
      else mret 0
  end.

(** One turn per block is enough, and a block has at least 8 bytes. *)
Definition smem_fuel (s : small_mem) : nat := Z.to_nat (sm_size s) + 2.

Definition rt_smem_alloc (size : Z) : H Z :=
  if size =? 0 then mret 0 else
  smem_checked;;
  s ← get;
  let size := RT_ALIGN size RT_ALIGN_SIZE in
  let size := if size <? MIN_SIZE_ALIGNED then MIN_SIZE_ALIGNED else size in
  if sm_size s <? size then mret 0 else
  smem_alloc_loop (smem_fuel s) (sm_lfree s) size.

(** * Release *)

(** The header of a block leads to its heap; the model is of one heap. *)
Definition rt_smem_free (rmem : Z) : H unit :=
  if rmem =? 0 then mret tt else
  RT_ASSERT (Z.land rmem (RT_ALIGN_SIZE - 1) =? 0);;
  s ← get;
  let ptr := u32 (rmem - SIZEOF_STRUCT_MEM - sm_heap_ptr s) in
  mem ← item ptr;
  RT_ASSERT (MEM_POOL mem =? sm_self s);;
  RT_ASSERT (MEM_ISUSED mem);;
  smem_checked;;
  RT_ASSERT ((sm_heap_ptr s <=? rmem) && (rmem <? u32 (sm_heap_ptr s + sm_heap_end s)));;
  nmem ← item (i_next mem);
  RT_ASSERT (MEM_POOL nmem =? sm_self s);;
  upd_item ptr (set_i_pool (MEM_FREED (sm_self s)));;
  (if ptr <? sm_lfree s then modify (set_sm_lfree ptr) else mret tt);;
  modify (fun s => set_sm_used (u32 (sm_used s - (i_next mem - ptr))) s);;
  plug_holes ptr.

(** * Reallocation *)

(** The effect of [rt_memcpy] on two ranges that do not overlap (KString.v). *)
Definition copy_data (dst src n : Z) : H unit :=
  modify (fun s => set_sm_data (fun a => if (dst <=? a) && (a <? dst + n) then sm_data s (src + (a - dst))
                                         else sm_data s a) s).

Definition rt_smem_realloc (rmem newsize : Z) : H Z :=
  smem_checked;;
  s ← get;
  let newsize := RT_ALIGN newsize RT_ALIGN_SIZE in
  if sm_size s <? newsize then mret 0
  else if newsize =? 0 then rt_smem_free rmem;; mret 0
  else if rmem =? 0 then rt_smem_alloc newsize
  else
    RT_ASSERT (Z.land rmem (RT_ALIGN_SIZE - 1) =? 0);;
    RT_ASSERT (sm_heap_ptr s <=? rmem);;
    RT_ASSERT (rmem <? u32 (sm_heap_ptr s + sm_heap_end s));;
    let ptr := u32 (rmem - SIZEOF_STRUCT_MEM - sm_heap_ptr s) in
    mem ← item ptr;
    let size := u32 (i_next mem - ptr - SIZEOF_STRUCT_MEM) in
    if size =? newsize then mret rmem
    else if u32 (newsize + SIZEOF_STRUCT_MEM + MIN_SIZE) <? size then
      modify (fun s => set_sm_used (u32 (sm_used s - (size - newsize))) s);;
      let ptr2 := u32 (ptr + SIZEOF_STRUCT_MEM + newsize) in
      upd_item ptr2 (fun _ => mk_item (MEM_FREED (sm_self s)) (i_next mem) ptr);;
      upd_item ptr (set_i_next ptr2);;
      (if negb (i_next mem =? u32 (sm_size s + SIZEOF_STRUCT_MEM))
       then upd_item (i_next mem) (set_i_prev ptr2) else mret tt);;
      (if ptr2 <? sm_lfree s then modify (set_sm_lfree ptr2) else mret tt);;
      plug_holes ptr2;;
      mret rmem
    else
      nmem ← rt_smem_alloc newsize;
      (if negb (nmem =? 0) then
         copy_data nmem rmem (if size <? newsize then size else newsize);;
         rt_smem_free rmem
       else mret tt);;
      mret nmem.

(** * Removal *)

(** The object leaves the list of its class (Object.v) and gets the type NULL. *)
Definition rt_smem_detach : H Z :=
  smem_checked;;
  modify (set_sm_type 0);;
  mret RT_EOK.
