(* ===== verification/Blocks.v ===== *)
(** A region of memory as a list of blocks, each in use or free, from low addresses
    to high: what the allocators of src/mem.c and src/memheap.c share. *)
From S2P Require Import Prelude.
#[local] Open Scope Z_scope.

(** * Lists of blocks *)

(** A block has a length, header included, and is in use or free. *)
Abbreviation block := (Z * bool)%type.

Fixpoint total (l : list block) : Z := match l with [] => 0 | b :: l => b.1 + total l end.

(** The offset of the first free block, or of the end. *)
Fixpoint first_free (o : Z) (l : list block) : Z :=
  match l with
  | [] => o
  | (n, u) :: l => if u then first_free (o + n) l else o
  end.

(** The bytes in use, headers included. *)
Fixpoint used_sum (l : list block) : Z :=
  match l with [] => 0 | (n, u) :: l => (if u then n else 0) + used_sum l end.

(** Neighbouring free blocks are merged. *)
Fixpoint join (l : list block) : list block :=
  match l with
  | [] => []
  | (n, u) :: l =>
      match join l with
      | (n', false) :: l' => if u then (n, u) :: (n', false) :: l' else (n + n', false) :: l'
      | jl => (n, u) :: jl
      end
  end.

Definition coalesced (l : list block) : Prop := join l = l.

Definition wf (l : list block) : Prop := Forall (fun b => 24 <= b.1 /\ b.1 mod 8 = 0) l.

Lemma wf_app l1 l2 : wf (l1 ++ l2) <-> wf l1 /\ wf l2.
Proof. apply Forall_app. Qed.

Lemma wf_cons n u l : wf ((n, u) :: l) <-> (24 <= n /\ n mod 8 = 0) /\ wf l.
Proof. unfold wf. by rewrite Forall_cons. Qed.

Lemma total_app l1 l2 : total (l1 ++ l2) = total l1 + total l2.
Proof. induction l1 as [|[n u] l1 IH]; simpl; [done|]. rewrite IH. lia. Qed.

Lemma total_nonneg l : wf l -> 0 <= total l.
Proof. induction 1 as [|[n u] l [Hn _] _ IH]; simpl in *; lia. Qed.

Lemma total_mod l : wf l -> total l mod 8 = 0.
Proof. induction 1 as [|[n u] l [_ Hn] _ IH]; simpl in *; [done|]. rewrite Z.add_mod, Hn, IH by lia. done. Qed.

Lemma total_in b l : wf l -> b ∈ l -> b.1 <= total l.
Proof.
  induction 1 as [|[n u] l [Hn _] Hl IH]; [by intros ?%elem_of_nil|]. pose proof (total_nonneg _ Hl).
  simpl in *. intros [->|Hin]%elem_of_cons; simpl; [lia|]. specialize (IH Hin). lia.
Qed.

Lemma first_free_app o l1 l2 :
  first_free o (l1 ++ l2) = if forallb snd l1 then first_free (o + total l1) l2 else first_free o l1.
Proof.
  revert o. induction l1 as [|[n []] l1 IH]; intros o; simpl; [by rewrite Z.add_0_r|by rewrite IH, Z.add_assoc|done].
Qed.

Lemma first_free_range o l : wf l -> o <= first_free o l <= o + total l.
Proof.
  intros H. revert o. induction H as [|[n u] l [Hn _] Hl IH]; intros o; simpl in *; [lia|].
  pose proof (total_nonneg _ Hl). destruct u; [specialize (IH (o + n)); lia|lia].
Qed.

Lemma first_free_lt o l : wf l -> forallb snd l = false -> first_free o l < o + total l.
Proof.
  intros H. revert o. induction H as [|[n u] l [Hn _] Hl IH]; intros o; simpl in *; [done|].
  pose proof (total_nonneg _ Hl). destruct u; [intros Hf; specialize (IH (o + n) Hf); lia|lia].
Qed.

Lemma used_sum_app l1 l2 : used_sum (l1 ++ l2) = used_sum l1 + used_sum l2.
Proof. induction l1 as [|[n u] l1 IH]; simpl; [done|]. rewrite IH. lia. Qed.

Lemma used_sum_range l : wf l -> 0 <= used_sum l <= total l.
Proof. induction 1 as [|[n u] l [Hn _] _ IH]; simpl in *; [lia|]. destruct u; lia. Qed.

(** ** Merging *)

Lemma join_cons_free n n' l : join ((n, false) :: (n', false) :: l) = join ((n + n', false) :: l).
Proof. simpl. destruct (join l) as [|[n'' []] l']; [done..|]. by rewrite Z.add_assoc. Qed.

Lemma join_app l1 l2 l2' : join l2 = join l2' -> join (l1 ++ l2) = join (l1 ++ l2').
Proof. intros H. induction l1 as [|[n u] l1 IH]; simpl; [done|]. by rewrite IH. Qed.

Lemma join_merge l1 n n' l2 : join (l1 ++ (n, false) :: (n', false) :: l2) = join (l1 ++ (n + n', false) :: l2).
Proof. apply join_app, join_cons_free. Qed.

Lemma coalesced_cons b l : coalesced (b :: l) -> coalesced l.
Proof.
  unfold coalesced. destruct b as [n u]. simpl. destruct (join l) as [|[n' []] l'] eqn:E; [by intros [= ->]..|].
  destruct u; [by intros [= ->]|]. intros [= E1 <-]. exfalso.
  assert (G : forall l, (length (join l) <= length l)%nat).
  { clear. induction l as [|[n u] l IH]; simpl; [done|]. destruct (join l) as [|[? []] ?]; simpl in *; try lia.
    destruct u; simpl; lia. }
  specialize (G l'). rewrite E in G. simpl in G. lia.
Qed.

Lemma coalesced_app l1 l2 : coalesced (l1 ++ l2) -> coalesced l2.
Proof. induction l1 as [|b l1 IH]; [done|]. intros H%coalesced_cons. auto. Qed.

(** Two neighbours of a merged list are not both free. *)
Lemma coalesced_next l1 n u l2 n' u' : coalesced (l1 ++ (n, u) :: (n', u') :: l2) -> u = true \/ u' = true.
Proof.
  intros H%coalesced_app. destruct u; [by left|]. destruct u'; [by right|]. exfalso.
  pose proof (coalesced_cons _ _ H) as H2. unfold coalesced in *. cbn [join] in H. cbn [join] in H2. rewrite H2 in H.
  assert (E : length ((n + n', false) :: l2) = length ((n, false) :: (n', false) :: l2)) by (by rewrite H).
  simpl in E. lia.
Qed.

Lemma join_coalesced l : coalesced (join l).
Proof.
  unfold coalesced. induction l as [|[n u] l IH]; [done|]. simpl. destruct (join l) as [|[n' u'] l'] eqn:E; [done|].
  destruct u'; [cbn [join] in *; by rewrite IH|]. destruct u; [cbn [join] in *; by rewrite IH|].
  pose proof (coalesced_cons (n', false) l' IH) as Hl. cbn [join]. rewrite Hl.
  destruct l' as [|[m []] l']; [done..|]. exfalso. by destruct (coalesced_next [] n' false l' m false IH).
Qed.

Lemma join_facts l : wf l ->
  wf (join l) /\ total (join l) = total l /\ used_sum (join l) = used_sum l /\
  forall o, first_free o (join l) = first_free o l.
Proof.
  induction 1 as [|[n u] l [Hn Hm] Hl (W & T & U & F)]; [by split; [constructor|]|]. simpl in *.
  assert (Hu : forall o, first_free o ((n, u) :: join l) = first_free o ((n, u) :: l))
    by (intros o; simpl; by rewrite F).
  assert (Hw : wf ((n, u) :: join l)) by (by constructor).
  destruct (join l) as [|[n' []] l'] eqn:E; [split; [done|]; simpl in *; split; [lia|]; split; [lia|done]..|].
  destruct u; [split; [done|]; simpl in *; split; [lia|]; split; [lia|done]|].
  inversion W as [|? ? [Hn' Hm'] Hl']; subst. simpl in *. split.
  - constructor; [|done]. simpl. split; [lia|]. rewrite Z.add_mod, Hm, Hm' by lia. done.
  - split; [lia|]. split; [lia|done].
Qed.

(** ** Gluing lists of blocks *)

Lemma coalesced_prefix l1 l2 : coalesced (l1 ++ l2) -> coalesced l1.
Proof.
  unfold coalesced. induction l1 as [|[n u] l1 IH]; [done|]. cbn [app]. intros H.
  pose proof (coalesced_cons _ _ H) as H'. specialize (IH H'). cbn [join]. rewrite IH.
  destruct l1 as [|[n' []] l1]; [done..|]. destruct u; [done|].
  by destruct (coalesced_next [] n false (l1 ++ l2) n' false H).
Qed.

Definition ends_free (l : list block) : Prop := exists l' n, l = l' ++ [(n, false)].
Definition starts_free (l : list block) : Prop := exists n l', l = (n, false) :: l'.

Lemma coalesced_glue l1 q r :
  coalesced l1 -> ~ ends_free l1 -> coalesced r -> ~ starts_free r -> coalesced (l1 ++ (q, false) :: r).
Proof.
  intros H1 He Hr Hs. unfold coalesced. induction l1 as [|[m u] l1 IH]; cbn [app join].
  - rewrite Hr. destruct r as [|[n []] r]; [done..|]. exfalso. apply Hs. by exists n, r.
  - rewrite IH; [|by eapply coalesced_cons|intros (l' & n & ->); apply He; by exists ((m, u) :: l'), n].
    destruct l1 as [|[m' []] l1]; cbn [app]; [|done|].
    + destruct u; [done|]. exfalso. apply He. by exists [], m.
    + destruct u; [done|]. by destruct (coalesced_next [] m false l1 m' false H1).
Qed.

Lemma coalesced_used l1 n l2 : coalesced l1 -> coalesced l2 -> coalesced (l1 ++ (n, true) :: l2).
Proof.
  intros H1 H2. unfold coalesced in *. induction l1 as [|[m u] l1 IH]; cbn [app join].
  - rewrite H2. by destruct l2 as [|[? []] ?].
  - rewrite IH by (by eapply coalesced_cons). destruct l1 as [|[m' []] l1]; [done..|]. cbn [app].
    destruct u; [done|]. by destruct (coalesced_next [] m false l1 m' false H1).
Qed.

Lemma starts_free_dec l : starts_free l \/ ~ starts_free l.
Proof. destruct l as [|[n []] l]; [right|right|left]; [by intros (? & ? & ?)..|by exists n, l]. Qed.

Lemma ends_free_dec l : ends_free l \/ ~ ends_free l.
Proof.
  destruct l as [|[n u] l _] using rev_ind; [right; by intros ([|] & ? & ?)|].
  destruct u; [right|left; by exists l, n]. intros (l' & m & [_ ?]%app_inj_tail). done.
Qed.

Lemma coalesced_ends l1 n : coalesced (l1 ++ [(n, false)]) -> ~ ends_free l1.
Proof.
  intros H (l' & m & ->). rewrite <- app_assoc in H. by destruct (coalesced_next _ _ _ _ _ _ H).
Qed.

Lemma coalesced_starts n l : coalesced ((n, false) :: l) -> ~ starts_free l.
Proof. intros H (m & l' & ->). by destruct (coalesced_next [] n false l' m false H). Qed.
