(* ===== verification/SmallMemInv.v ===== *)
(** The heap of src/mem.c as a list of blocks: the invariant, and how a change of a few
    headers changes the list. *)
From S2P Require Import Prelude KState Object SmallMem Blocks.
#[local] Open Scope Z_scope.

(** * Headers *)

Definition even_addr (self : Z) : Prop := 0 < self < 2 ^ 32 /\ self mod 2 = 0.

Lemma mem_mask self : even_addr self -> Z.land self MEM_MASK = self.
Proof.
  intros [Hr He]. change MEM_MASK with (Z.land (Z.ones 32) (Z.lnot (Z.ones 1))).
  rewrite Z.land_assoc, Z.land_ones, Z.mod_small by lia. rewrite <- Z.ldiff_land, Z.ldiff_ones_r by lia.
  rewrite Z.shiftr_div_pow2, Z.shiftl_mul_pow2 by lia. change (2 ^ 1) with 2.
  pose proof (Z.div_mod self 2). lia.
Qed.

Lemma mem_freed self : even_addr self -> MEM_FREED self = self.
Proof. intros H. unfold MEM_FREED. by rewrite mem_mask, Z.lor_0_r. Qed.

Lemma mem_used self : even_addr self -> MEM_USED self = self + 1.
Proof.
  intros H. unfold MEM_USED. rewrite mem_mask by done. rewrite <- Z.add_lor_land.
  assert (E : Z.land self (Z.ones 1) = 0) by (rewrite Z.land_ones by lia; by destruct H).
  change (Z.ones 1) with 1 in E. rewrite E. lia.
Qed.

Lemma isused_odd i : MEM_ISUSED i = negb (i_pool i mod 2 =? 0).
Proof.
  unfold MEM_ISUSED. change (Z.lxor _ _) with (Z.ones 1). by rewrite Z.land_ones by lia.
Qed.

(** The header word of a block of this heap. *)
Definition owner (self : Z) (u : bool) : Z := self + Z.b2z u.

Lemma isused_owner self u n p : even_addr self -> MEM_ISUSED (mk_item (owner self u) n p) = u.
Proof.
  intros [_ He]. rewrite isused_odd. simpl. unfold owner. rewrite Z.add_mod, He by lia. by destruct u.
Qed.

Lemma pool_owner self u i : even_addr self -> i_pool i = owner self u -> MEM_POOL i = self.
Proof.
  intros H E. unfold MEM_POOL. rewrite E. destruct u; unfold owner; simpl.
  - rewrite <- mem_used by done. unfold MEM_USED. rewrite Z.land_lor_distr_l, !(mem_mask self) by done.
    change (Z.land 1 MEM_MASK) with 0. by rewrite Z.lor_0_r.
  - by rewrite Z.add_0_r, mem_mask.
Qed.

(** The blocks [l] are stored from offset [o] on, the first after the block at [p]. *)
Fixpoint chunk (f : Z -> small_mem_item) (self p o : Z) (l : list block) : Prop :=
  match l with
  | [] => True
  | (n, u) :: l => f o = mk_item (owner self u) (o + n) p /\ chunk f self o (o + n) l
  end.

(** The offset of the last block of [l]. *)
Fixpoint last_off (p o : Z) (l : list block) : Z :=
  match l with [] => p | (n, _) :: l => last_off o (o + n) l end.

Lemma chunk_app f self p o l1 l2 :
  chunk f self p o (l1 ++ l2) <->
  chunk f self p o l1 /\ chunk f self (last_off p o l1) (o + total l1) l2.
Proof.
  revert p o. induction l1 as [|[n u] l1 IH]; intros p o; simpl; [rewrite Z.add_0_r; tauto|].
  rewrite IH, <- Z.add_assoc. tauto.
Qed.

Lemma last_off_snoc p o l n u : last_off p o (l ++ [(n, u)]) = o + total l.
Proof.
  revert p o. induction l as [|[m v] l IH]; intros p o; simpl; [lia|]. rewrite IH. lia.
Qed.

Lemma last_off_range o l : wf l -> l <> [] -> o <= last_off o o l < o + total l.
Proof.
  intros H. assert (G : forall p, l <> [] -> o <= last_off p o l < o + total l); [|by apply G].
  revert o. induction H as [|[n u] l [Hn _] Hl IH]; intros o p Hne; [done|]. simpl in *.
  destruct l as [|b l]; [simpl; lia|]. specialize (IH (o + n) o ltac:(done)). simpl in *. lia.
Qed.

(** A chunk does not change with headers outside of it. *)
Lemma chunk_frame f f' self p o l :
  wf l -> (forall a, o <= a < o + total l -> f' a = f a) -> chunk f self p o l -> chunk f' self p o l.
Proof.
  intros H. revert p o. induction H as [|[n u] l [Hn _] Hl IH]; intros p o He; simpl in *; [done|].
  pose proof (total_nonneg _ Hl). intros [E C]. rewrite He by lia. split; [done|].
  apply IH; [|done]. intros a Ha. apply He. lia.
Qed.

(** A chunk with a new predecessor. *)
Lemma chunk_reprev f f' self p p' o l :
  wf l -> (l <> [] -> f' o = set_i_prev p' (f o)) -> (forall a, o < a < o + total l -> f' a = f a) ->
  chunk f self p o l -> chunk f' self p' o l.
Proof.
  intros H Ho Ha. destruct H as [|[n u] l [Hn _] Hl]; [done|]. simpl in *.
  intros [E C]. rewrite Ho, E by done. split; [done|].
  eapply chunk_frame; [done| |exact C]. intros a Hr. apply Ha. lia.
Qed.

(** * The invariant *)

(** Everything but the merging of neighbours. *)
Record heap_pre (l : list block) (s : small_mem) : Prop := mk_heap_pre {
  hp_self : even_addr (sm_self s);
  hp_type : Z.land (sm_type s) (Z.lnot RT_Object_Class_Static) = RT_Object_Class_Memory /\
            Z.land (sm_type s) RT_Object_Class_Static <> 0;
  hp_ptr : 60 <= sm_heap_ptr s /\ sm_heap_ptr s mod 8 = 0 /\ sm_heap_ptr s + sm_heap_end s < 2 ^ 32;
  hp_end : sm_heap_end s = sm_size s + SIZEOF_STRUCT_MEM;
  hp_wf : wf l;
  hp_total : total l = sm_heap_end s;
  hp_chunk : chunk (sm_item s) (sm_self s) 0 0 l;
  hp_last : i_pool (sm_item s (sm_heap_end s)) = owner (sm_self s) true;
  hp_lfree : sm_lfree s = first_free 0 l;
  hp_used : sm_used s = used_sum l /\ sm_used s <= sm_max s
}.

Definition heap_ok (l : list block) (s : small_mem) : Prop := heap_pre l s /\ coalesced l.

(** The header of the block after [l1]. *)
Lemma heap_item l1 n u l2 s :
  heap_pre (l1 ++ (n, u) :: l2) s ->
  sm_item s (total l1) = mk_item (owner (sm_self s) u) (total l1 + n) (last_off 0 0 l1).
Proof. intros H. apply hp_chunk, chunk_app in H as [_ [H _]]. exact H. Qed.

Lemma heap_bounds l1 n u l2 s :
  heap_pre (l1 ++ (n, u) :: l2) s ->
  wf l1 /\ wf l2 /\ 24 <= n /\ 0 <= total l1 /\ 0 <= total l2 /\ total l1 + n + total l2 = sm_heap_end s.
Proof.
  intros H. pose proof (hp_total _ _ H) as Ht. rewrite total_app in Ht. simpl in Ht.
  pose proof (hp_wf _ _ H) as [W1 [[Hn _] W2]%wf_cons]%wf_app.
  pose proof (total_nonneg _ W1). pose proof (total_nonneg _ W2). do 5 (split; [done|]). lia.
Qed.

(** Merging a free block with the free block behind it. *)
Lemma merge_pre l1 a b l2 s f' :
  let o := total l1 in
  heap_pre (l1 ++ (a, false) :: (b, false) :: l2) s ->
  f' o = set_i_next (o + a + b) (sm_item s o) ->
  (l2 <> [] -> f' (o + a + b) = set_i_prev o (sm_item s (o + a + b))) ->
  i_pool (f' (sm_heap_end s)) = i_pool (sm_item s (sm_heap_end s)) ->
  (forall x, x <> o -> x <> o + a -> x <> o + a + b -> f' x = sm_item s x) ->
  heap_pre (l1 ++ (a + b, false) :: l2) (set_sm_item f' s).
Proof.
  intros o H E1 E2 E3 E4. destruct (heap_bounds _ _ _ _ _ H) as (W1 & W2 & Ha & Hp1 & _ & _).
  pose proof W2 as [[Hb Hbm] W2']%wf_cons. pose proof (hp_wf _ _ H) as [_ [[_ Ham] _]%wf_cons]%wf_app.
  destruct H as [S T P En W To C La Lf U]. split; try done; simpl.
  - apply wf_app. split; [done|]. apply wf_cons. split; [|done]. split; [lia|].
    rewrite Z.add_mod, Ham, Hbm by lia. done.
  - rewrite <- To, !total_app. simpl. lia.
  - apply chunk_app in C as (C1 & C2 & C3 & C4). simpl in *. apply chunk_app. split; [|split].
    + eapply chunk_frame; [done| |exact C1]. intros x Hx. apply E4; lia.
    + change (0 + total l1) with o. rewrite E1. change o with (0 + total l1) at 2. rewrite C2. simpl. by rewrite Z.add_assoc.
    + eapply chunk_reprev; [done| | |]; [| |rewrite Z.add_assoc; exact C4].
      * intros Hne. rewrite Z.add_assoc. by apply E2.
      * intros x Hx. apply E4; unfold o; lia.
  - by rewrite E3.
  - rewrite Lf, !first_free_app. simpl. done.
  - rewrite used_sum_app in *. simpl in *. done.
Qed.

(** ** Merging with the neighbours *)

(** The first half of [plug_holes]: the block behind. *)
Lemma plug_next_wp l1 n l2 s Q :
  let o := total l1 in
  heap_pre (l1 ++ (n, false) :: l2) s -> coalesced l2 ->
  (forall f' n' r, heap_pre (l1 ++ (n', false) :: r) (set_sm_item f' s) -> coalesced r -> ~ starts_free r ->
     join (l1 ++ (n, false) :: l2) = join (l1 ++ (n', false) :: r) -> Q tt (set_sm_item f' s)) ->
  wp (im ← item o;
      inm ← item (i_next im);
      if negb (o =? i_next im) && negb (MEM_ISUSED inm) && negb (i_next im =? sm_heap_end s) then
        (if sm_lfree s =? i_next im then modify (set_sm_lfree o) else mret tt);;
        upd_item (i_next im) (set_i_pool 0);;
        inm ← item (i_next im);
        upd_item o (set_i_next (i_next inm));;
        upd_item (i_next inm) (set_i_prev o)
      else mret tt) Q s.
Proof.
  intros o H Hc HQ. unfold item, upd_item. do 4 wp_step. pose proof (heap_item _ _ _ _ _ H) as E0.
  fold o in E0. rewrite E0. simpl.
  destruct (heap_bounds _ _ _ _ _ H) as (W1 & W2 & Hn & Hp1 & Hp2 & Hend).
  destruct (starts_free_dec l2) as [(n2 & l2' & ->)|Hns].
  - assert (H' : heap_pre ((l1 ++ [(n, false)]) ++ (n2, false) :: l2') s) by (by rewrite <- app_assoc).
    pose proof (heap_item _ _ _ _ _ H') as E2. rewrite total_app in E2. simpl in E2. rewrite Z.add_0_r in E2.
    pose proof (heap_bounds _ _ _ _ _ H') as (_ & W2' & Hn2 & _ & Hp2' & Hend2). rewrite total_app in Hend2. simpl in Hend2.
    fold o in E2. rewrite E2, isused_owner by apply H.
    rewrite (proj2 (Z.eqb_neq o _)), (proj2 (Z.eqb_neq (o + n) _)) by (unfold o; lia). simpl.
    rewrite (proj2 (Z.eqb_neq (sm_lfree s) _)).
    2:{ rewrite (hp_lfree _ _ H), first_free_app. simpl.
        pose proof (first_free_range 0 l1 W1). destruct (forallb snd l1); unfold o; lia. }
    do 9 wp_step. simpl. rewrite !fupd_eq, E2. simpl.
    eapply (HQ _ (n + n2) l2'); [|by eapply coalesced_cons|by eapply coalesced_starts|by apply join_merge].
    apply merge_pre; [done| | | |]; simpl; fold o.
    + rewrite fupd_ne by lia. rewrite fupd_eq, fupd_ne by lia. done.
    + intros _. rewrite fupd_eq, !fupd_ne by lia. done.
    + unfold fupd. repeat case_decide; try lia; simpl; congruence.
    + intros x ???. rewrite !fupd_ne by lia. done.
  - assert (Hu : MEM_ISUSED (sm_item s (o + n)) = true).
    { destruct l2 as [|[m u] l2'].
      - simpl in Hend. replace (o + n) with (sm_heap_end s) by (unfold o; lia).
        pose proof (isused_owner (sm_self s) true 0 0 (hp_self _ _ H)) as Hi.
        rewrite isused_odd in *. by rewrite (hp_last _ _ H).
      - assert (H' : heap_pre ((l1 ++ [(n, false)]) ++ (m, u) :: l2') s) by (by rewrite <- app_assoc).
        pose proof (heap_item _ _ _ _ _ H') as E2. rewrite total_app in E2. simpl in E2. rewrite Z.add_0_r in E2.
        unfold o. rewrite E2, isused_owner by apply H. destruct u; [done|]. exfalso. apply Hns. by eexists _, _. }
    rewrite Hu, andb_false_r. simpl. wp_step.
    replace s with (set_sm_item (sm_item s) s) by (by destruct s). apply (HQ _ n l2); try done. by destruct s.
Qed.

Lemma plug_wp l1 n l2 s :
  heap_pre (l1 ++ (n, false) :: l2) s -> coalesced l1 -> coalesced l2 ->
  wp (plug_holes (total l1)) (fun _ s' =>
    heap_ok (join (l1 ++ (n, false) :: l2)) s' /\ exists f', s' = set_sm_item f' s) s.
Proof.
  intros H Hc1 Hc2. destruct (heap_bounds _ _ _ _ _ H) as (W1 & W2 & Hn & Hp1 & Hp2 & Hend).
  unfold plug_holes, item. do 3 wp_step. wp_step; [by apply Z.leb_le|]. wp_step. wp_step; [apply Z.ltb_lt; lia|].
  do 5 wp_step. refine (plug_next_wp l1 n l2 s _ H Hc2 _). clear Hn Hend Hp2.
  intros f n' r H1 Hcr Hsr ->. clear H n l2 W2 Hc2. rename H1 into H, n' into n. set (s1 := set_sm_item f s) in *.
  assert (Es : exists f', s1 = set_sm_item f' s) by (by exists f).
  destruct (heap_bounds _ _ _ _ _ H) as (W1' & W2 & Hn & _ & Hp2 & Hend).
  assert (Hskip : ~ ends_free l1 -> heap_ok (join (l1 ++ (n, false) :: r)) s1).
  { intros He. pose proof (coalesced_glue l1 n r Hc1 He Hcr Hsr) as Hg. unfold heap_ok.
    unfold coalesced in Hg. by rewrite !Hg. }
  pose proof (heap_item _ _ _ _ _ H) as E0. unfold item, upd_item. do 6 wp_step. rewrite E0. simpl.
  destruct l1 as [|[p u] l1 _] using rev_ind.
  { rewrite Z.eqb_refl. simpl. wp_step. split; [|done]. apply Hskip. by intros ([|] & ? & ?). }
  assert (H' : heap_pre (l1 ++ (p, u) :: (n, false) :: r) s1) by (by rewrite <- app_assoc in H).
  pose proof (heap_item _ _ _ _ _ H') as E1.
  destruct (heap_bounds _ _ _ _ _ H') as (W1'' & _ & Hp & Hp1' & _ & _).
  rewrite last_off_snoc, Z.add_0_l, total_app in *. simpl in *. rewrite Z.add_0_r in *.
  rewrite E1, isused_owner by apply H. rewrite (proj2 (Z.eqb_neq (total l1) _)) by lia. simpl.
  destruct u; simpl.
  { wp_step. split; [|done]. apply Hskip. intros (l' & m & [_ ?]%app_inj_tail). done. }
  rewrite (proj2 (Z.eqb_neq (sm_lfree s1) _)).
  2:{ rewrite (hp_lfree _ _ H'), first_free_app. simpl.
      pose proof (first_free_range 0 l1 W1''). destruct (forallb snd l1); lia. }
  do 9 wp_step. simpl. rewrite !fupd_eq, E0. simpl.
  split; [|destruct Es as [f' ->]; by eexists].
  rewrite <- app_assoc. cbn [app]. rewrite join_merge. pose proof (coalesced_ends _ _ Hc1) as He.
  assert (Hg : coalesced (l1 ++ (p + n, false) :: r))
    by (apply coalesced_glue; [by eapply coalesced_prefix|done..]).
  split; [|by unfold coalesced; rewrite !Hg]. unfold coalesced in Hg. rewrite Hg.
  apply (merge_pre l1 p n r s1); [done| | | |]; simpl.
  + rewrite fupd_ne by lia. rewrite fupd_eq, fupd_ne by lia. done.
  + intros _. rewrite fupd_eq, !fupd_ne by lia. done.
  + unfold fupd. repeat case_decide; try lia; simpl; congruence.
  + intros x ???. rewrite !fupd_ne by lia. done.
Qed.

(** * Initialisation *)

Lemma smem_init_ok begin_addr size items bytes :
  0 < begin_addr -> 118 <= size -> begin_addr + size < 2 ^ 32 ->
  exists s, rt_smem_init begin_addr size items bytes = Some s /\
    heap_ok [(sm_size s + SIZEOF_STRUCT_MEM, false)] s /\
    begin_addr + sizeof_small_mem <= sm_heap_ptr s /\
    sm_heap_ptr s + sm_heap_end s + SIZEOF_STRUCT_MEM <= begin_addr + size.
Proof.
  intros Hb Hs He. unfold rt_smem_init, sizeof_small_mem, RT_ALIGN_SIZE, SIZEOF_STRUCT_MEM.
  destruct (RT_ALIGN_8_bounds begin_addr ltac:(lia)) as [B1 B2]. set (self := RT_ALIGN begin_addr 8) in *.
  rewrite (u32_id (self + 60)), (u32_id (begin_addr + size)) by lia.
  destruct (RT_ALIGN_8_bounds (self + 60) ltac:(lia)) as [C1 C2]. set (hp := RT_ALIGN (self + 60) 8) in *.
  rewrite RT_ALIGN_DOWN_8. pose proof (Z.mod_pos_bound (begin_addr + size) 8 ltac:(lia)).
  set (e := begin_addr + size - (begin_addr + size) mod 8).
  assert (Ee : e mod 8 = 0) by (unfold e; Z.to_euclidean_division_equations; lia).
  assert (hp = self + 64) by (Z.to_euclidean_division_equations; lia).
  rewrite (u32_id (e - _)), (u32_id (e - hp - _)), (u32_id (e - hp - _ + _)) by (unfold e; lia).
  rewrite (proj2 (Z.ltb_lt _ _)), (proj2 (Z.leb_le _ _)) by (unfold e; lia). simpl.
  eexists. split; [done|]. simpl. split; [|unfold e; lia]. split; [|done].
  assert (Hev : even_addr self) by (split; [lia|Z.to_euclidean_division_equations; lia]).
  split; simpl; try done; rewrite ?mem_used, ?mem_freed by done.
  - split; [lia|]. split; [done|]. unfold e. lia.
  - apply wf_cons. split; [|constructor]. unfold e in *. split; [lia|]. Z.to_euclidean_division_equations. lia.
  - lia.
  - rewrite fupd_ne, fupd_eq by (unfold e; lia). unfold owner. simpl. split; [|done]. f_equal; lia.
  - by rewrite fupd_eq.
Qed.

(** [rt_smem_init] of a region of at least 118 bytes, wherever it starts, gives a
    heap of one free block that lies inside the region behind the control block. *)
Lemma rt_smem_init_ok begin_addr size items bytes :
  0 < begin_addr -> 118 <= size -> begin_addr + size < 2 ^ 32 ->
  exists s, rt_smem_init begin_addr size items bytes = Some s /\
    heap_ok [(sm_size s + SIZEOF_STRUCT_MEM, false)] s /\
    begin_addr + sizeof_small_mem <= sm_heap_ptr s /\
    sm_heap_ptr s + sm_heap_end s + SIZEOF_STRUCT_MEM <= begin_addr + size.
Proof. apply smem_init_ok. Qed.

Lemma rt_smem_init_ok_witness :
  exists s, rt_smem_init 1000 512 (fun _ => mk_item 0 0 0) (fun _ => 0) = Some s /\
    heap_ok [(sm_size s + SIZEOF_STRUCT_MEM, false)] s /\
    1000 + sizeof_small_mem <= sm_heap_ptr s /\
    sm_heap_ptr s + sm_heap_end s + SIZEOF_STRUCT_MEM <= 1000 + 512.
Proof. apply rt_smem_init_ok; lia. Defined.
