(* ===== verification/SmallMemProp.v ===== *)
(** Allocation and release in the small-memory heap (src/mem.c) as operations on the
    list of blocks: first fit with splitting, and merging of free neighbours. *)
From S2P Require Import Prelude KState Object SmallMem Blocks SmallMemInv.
#[local] Open Scope Z_scope.

(** * The abstract heap *)

(** The size that is searched for. *)
Definition request (size : Z) : Z :=
  if RT_ALIGN size RT_ALIGN_SIZE <? MIN_SIZE_ALIGNED then MIN_SIZE_ALIGNED else RT_ALIGN size RT_ALIGN_SIZE.

(** The first free block with room for [size] bytes behind its header, with the
    blocks before and behind it. *)
Fixpoint first_fit (size : Z) (l : list block) : option (list block * Z * list block) :=
  match l with
  | [] => None
  | (n, u) :: l =>
      if negb u && (size <=? n - SIZEOF_STRUCT_MEM) then Some ([], n, l)
      else match first_fit size l with
           | Some (a, m, b) => Some ((n, u) :: a, m, b)
           | None => None
           end
  end.

(** What becomes of it. *)
Definition carve (size n : Z) : list block :=
  if size + SIZEOF_STRUCT_MEM + MIN_SIZE_ALIGNED <=? n - SIZEOF_STRUCT_MEM
  then [(SIZEOF_STRUCT_MEM + size, true); (n - SIZEOF_STRUCT_MEM - size, false)] else [(n, true)].

(** What no operation changes. *)
Definition same_region (s s' : small_mem) : Prop :=
  sm_self s' = sm_self s /\ sm_heap_ptr s' = sm_heap_ptr s /\ sm_heap_end s' = sm_heap_end s /\
  sm_size s' = sm_size s /\ sm_type s' = sm_type s /\ sm_data s' = sm_data s.

Lemma first_fit_spec size l a n b :
  first_fit size l = Some (a, n, b) -> l = a ++ (n, false) :: b /\ size <= n - SIZEOF_STRUCT_MEM.
Proof.
  revert a. induction l as [|[m u] l IH]; intros a; simpl; [done|].
  destruct (negb u && (size <=? m - SIZEOF_STRUCT_MEM)) eqn:E.
  - intros [= <- <- <-]. apply andb_true_iff in E as [E1 E2]. destruct u; [done|].
    split; [done|]. by apply Z.leb_le.
  - destruct (first_fit size l) as [[[a' n'] b']|]; [|done]. intros [= <- <- <-].
    destruct (IH _ eq_refl) as [-> ?]. done.
Qed.

Lemma first_fit_used size l1 l2 :
  forallb snd l1 = true ->
  first_fit size (l1 ++ l2) =
    match first_fit size l2 with Some (a, n, b) => Some (l1 ++ a, n, b) | None => None end.
Proof.
  induction l1 as [|[m u] l1 IH]; simpl; [by destruct (first_fit size l2) as [[[]]|]|].
  intros [-> H]%andb_true_iff. rewrite IH by done. simpl. by destruct (first_fit size l2) as [[[]]|].
Qed.

Lemma first_fit_none size l :
  wf l -> total l < size + SIZEOF_STRUCT_MEM -> first_fit size l = None.
Proof.
  induction 1 as [|[n u] l [Hn _] Hl IH]; simpl in *; [done|]. intros Ht. pose proof (total_nonneg _ Hl).
  rewrite (proj2 (Z.leb_gt size _)) by lia. rewrite andb_false_r, IH by lia. done.
Qed.

Lemma carve_facts size n :
  16 <= size -> size mod 8 = 0 -> size <= n - SIZEOF_STRUCT_MEM -> n mod 8 = 0 ->
  wf (carve size n) /\ total (carve size n) = n /\ SIZEOF_STRUCT_MEM + size <= n.
Proof.
  unfold carve, SIZEOF_STRUCT_MEM, MIN_SIZE_ALIGNED. intros Hs Hm Hn Hnm. case_bool; simpl.
  - split; [|lia]. apply wf_cons. split; [split; [lia|]|apply wf_cons; split; [split; [lia|]|constructor]].
    + rewrite Z.add_mod, Hm by lia. done.
    + replace (n - 16 - size) with (n - (16 + size)) by lia. rewrite Zminus_mod, Hnm, Z.add_mod, Hm by lia. done.
  - split; [|lia]. apply wf_cons. split; [split; [lia|done]|constructor].
Qed.

(** * Changing one block *)

(** A block becomes used or free. *)
Lemma chunk_mark f f' self a n u u' d :
  wf a -> wf d -> 24 <= n -> chunk f self 0 0 (a ++ (n, u) :: d) ->
  f' (total a) = set_i_pool (owner self u') (f (total a)) -> (forall x, x <> total a -> f' x = f x) ->
  chunk f' self 0 0 (a ++ (n, u') :: d).
Proof.
  intros Wa Wd Hn C E1 E2. pose proof (total_nonneg _ Wa). apply chunk_app in C as (C1 & C2 & C3).
  rewrite Z.add_0_l in *. apply chunk_app. rewrite Z.add_0_l. split; [|split].
  - eapply chunk_frame; [done| |exact C1]. intros x Hx. apply E2. lia.
  - by rewrite E1, C2.
  - eapply chunk_frame; [done| |exact C3]. intros x Hx. apply E2. lia.
Qed.

(** A block is cut in two: the front used, the back free. *)
Lemma chunk_split f f' self a n u m d :
  wf a -> wf d -> 0 < m < n -> chunk f self 0 0 (a ++ (n, u) :: d) ->
  let o := total a in
  f' o = mk_item (owner self true) (o + m) (i_prev (f o)) -> f' (o + m) = mk_item (owner self false) (o + n) o ->
  (d <> [] -> f' (o + n) = set_i_prev (o + m) (f (o + n))) ->
  (forall x, x <> o -> x <> o + m -> x <> o + n -> f' x = f x) ->
  chunk f' self 0 0 (a ++ (m, true) :: (n - m, false) :: d).
Proof.
  intros Wa Wd Hn C o E1 E2 E3 E4. pose proof (total_nonneg _ Wa). apply chunk_app in C as (C1 & C2 & C3).
  rewrite Z.add_0_l in *. fold o in C2, C3. apply chunk_app. rewrite Z.add_0_l. fold o. simpl. split; [|split; [|split]].
  - eapply chunk_frame; [done| |exact C1]. intros x Hx. apply E4; unfold o; lia.
  - by rewrite E1, C2.
  - rewrite E2. f_equal. lia.
  - replace (o + m + (n - m)) with (o + n) by lia. eapply chunk_reprev; [done|exact E3| |exact C3].
    intros x Hx. apply E4; lia.
Qed.

(** * Release *)

Lemma smem_checked_wp l s Q : heap_pre l s -> Q tt s -> wp smem_checked Q s.
Proof.
  intros [_ [T1 T2] _ _ _ _ _ _ _ _] HQ. unfold smem_checked. do 3 wp_step.
  wp_step; [by apply Z.eqb_eq|].
  wp_step; [by apply negb_true_iff, Z.eqb_neq|done].
Qed.

(** The header behind a block belongs to the heap too. *)
Lemma next_owned a n u b s :
  heap_pre (a ++ (n, u) :: b) s -> MEM_POOL (sm_item s (total a + n)) = sm_self s.
Proof.
  intros H. destruct (heap_bounds _ _ _ _ _ H) as (_ & _ & _ & _ & _ & He). destruct b as [|[m v] b].
  - simpl in He. replace (total a + n) with (sm_heap_end s) by lia.
    eapply pool_owner; [apply H|apply (hp_last _ _ H)].
  - assert (H' : heap_pre ((a ++ [(n, u)]) ++ (m, v) :: b) s) by (by rewrite <- app_assoc).
    pose proof (heap_item _ _ _ _ _ H') as E. rewrite total_app in E. simpl in E. rewrite Z.add_0_r in E.
    eapply pool_owner; [apply H|]. by rewrite E.
Qed.

(** The heap after a used block has been marked free, before the merging. *)
Lemma mark_free_pre a n b s :
  heap_pre (a ++ (n, true) :: b) s ->
  heap_pre (a ++ (n, false) :: b)
    (set_sm_used (sm_used s - n) (set_sm_lfree (if total a <? sm_lfree s then total a else sm_lfree s)
      (set_sm_item (fupd (total a) (set_i_pool (owner (sm_self s) false) (sm_item s (total a))) (sm_item s)) s))).
Proof.
  intros H. destruct (heap_bounds _ _ _ _ _ H) as (Wa & Wb & Hn & Hpa & Hpb & He).
  pose proof (hp_wf _ _ H) as [_ [[_ Hm] _]%wf_cons]%wf_app.
  destruct H as [S T P En W To C La Lf [U1 U2]]. split; try done; simpl.
  - apply wf_app. split; [done|]. by apply wf_cons.
  - by rewrite <- To, !total_app.
  - eapply chunk_mark; [done|done|done|exact C|by rewrite fupd_eq|]. intros x Hx. by rewrite fupd_ne.
  - by rewrite fupd_ne by lia.
  - rewrite Lf, !first_free_app, Z.add_0_l. simpl. pose proof (first_free_range (total a + n) b Wb).
    pose proof (first_free_range 0 a Wa). destruct (forallb snd a) eqn:Ea; [case_bool; lia|].
    pose proof (first_free_lt 0 a Wa Ea). case_bool; lia.
  - rewrite used_sum_app in U1 |- *. simpl in *. lia.
Qed.

Lemma smem_free_wp a n b s :
  heap_ok (a ++ (n, true) :: b) s ->
  wp (rt_smem_free (sm_heap_ptr s + total a + SIZEOF_STRUCT_MEM)) (fun _ s' =>
    heap_ok (join (a ++ (n, false) :: b)) s' /\ same_region s s') s.
Proof.
  intros [H Hc]. destruct (heap_bounds _ _ _ _ _ H) as (Wa & Wb & Hn & Hpa & Hpb & He).
  destruct (hp_ptr _ _ H) as (P1 & P2 & P3). pose proof (heap_item _ _ _ _ _ H) as E0.
  pose proof (mark_free_pre _ _ _ _ H) as HF. pose proof (total_mod _ Wa) as Hma.
  unfold rt_smem_free, item, upd_item, SIZEOF_STRUCT_MEM, RT_ALIGN_SIZE.
  rewrite (proj2 (Z.eqb_neq _ _)) by lia. wp_step. wp_step.
  { change (8 - 1) with 7. rewrite land_7. apply Z.eqb_eq. Z.to_euclidean_division_equations. lia. }
  do 2 wp_step. replace (_ - 16 - sm_heap_ptr s) with (total a) by lia. rewrite u32_id by lia.
  do 3 wp_step. rewrite E0. simpl.
  wp_step; [apply Z.eqb_eq; by eapply pool_owner; [apply H|]|].
  wp_step. wp_step; [apply isused_owner, H|]. wp_step. eapply smem_checked_wp; [exact H|].
  wp_step. wp_step; [apply andb_true_iff; rewrite u32_id, Z.leb_le, Z.ltb_lt by lia; lia|].
  do 3 wp_step. wp_step; [by apply Z.eqb_eq; eapply next_owned|]. do 3 wp_step.
  rewrite mem_freed by apply H. set (s1 := set_sm_item _ s).
  apply (wp_mono _ (fun _ s2 => s2 = set_sm_lfree (if total a <? sm_lfree s then total a else sm_lfree s) s1)).
  { case_bool; wp_step; [done|]. by destruct s. }
  intros _ s2 ->. do 2 wp_step. simpl. replace (total a + n - total a) with n by lia.
  assert (Hu : 0 <= sm_used s - n < 2 ^ 32).
  { pose proof (proj1 (hp_used _ _ HF)) as Hu. simpl in Hu. pose proof (used_sum_range _ (hp_wf _ _ HF)) as Hr.
    rewrite <- Hu, (hp_total _ _ HF) in Hr. simpl in Hr. lia. }
  rewrite u32_id by done. unfold s1. rewrite E0. simpl.
  replace (sm_self s) with (owner (sm_self s) false) at 1 by (unfold owner; simpl; lia).
  rewrite E0 in HF. simpl in HF.
  eapply wp_mono; [apply (plug_wp _ _ _ _ HF); [by eapply coalesced_prefix|]|].
  { by eapply coalesced_cons, coalesced_app. }
  intros _ s' [Hok [f' ->]]. split; [done|]. by repeat split.
Qed.

(** * Allocation *)

Lemma lfree_loop_wp fuel l1 l2 x s :
  heap_pre (l1 ++ l2) (set_sm_lfree x s) -> sm_lfree s = total l1 -> (length l2 < fuel)%nat ->
  wp (lfree_loop fuel) (fun _ s' => s' = set_sm_lfree (first_free (total l1) l2) s) s.
Proof.
  revert fuel l1 s. induction l2 as [|[n u] l2 IH]; intros [|fuel] l1 s H Hl Hf; simpl in Hf; try lia.
  - pose proof (hp_total _ _ H) as Ht. rewrite app_nil_r in Ht. simpl in *. unfold item. do 4 wp_step.
    rewrite Hl, Ht, Z.eqb_refl, andb_false_r. wp_step. destruct s; simpl in *; by subst.
  - pose proof (heap_item _ _ _ _ _ H) as E. destruct (heap_bounds _ _ _ _ _ H) as (_ & _ & Hn & _ & Hp & He).
    simpl in *. unfold item. do 4 wp_step. rewrite Hl, E, isused_owner by apply H.
    rewrite (proj2 (Z.eqb_neq _ _)) by lia. rewrite andb_true_r. destruct u; simpl.
    + do 2 wp_step. eapply wp_mono; [apply (IH fuel (l1 ++ [(n, true)]))|].
      * rewrite <- app_assoc. exact H.
      * simpl. rewrite total_app. simpl. lia.
      * lia.
      * intros _ s' ->. rewrite total_app. simpl. by rewrite Z.add_0_r.
    + wp_step. destruct s; simpl in *; by subst.
Qed.

Lemma account_wp m Q s :
  0 <= sm_used s + m < 2 ^ 32 ->
  Q tt (set_sm_max (Z.max (sm_max s) (sm_used s + m)) (set_sm_used (sm_used s + m) s)) -> wp (account m) Q s.
Proof.
  intros Hm HQ. unfold account. do 3 wp_step. simpl. rewrite u32_id by done. destruct s. simpl in *.
  case_bool; [rewrite Z.max_r in HQ by lia|rewrite Z.max_l in HQ by lia]; done.
Qed.

(** The block behind is the end of the heap exactly when no block is left. *)
Lemma at_end a n u b s :
  heap_pre (a ++ (n, u) :: b) s -> (total a + n =? u32 (sm_size s + SIZEOF_STRUCT_MEM)) = is_nil b.
Proof.
  intros H. destruct (heap_bounds _ _ _ _ _ H) as (_ & Wb & Hn & Hpa & Hpb & He).
  destruct (hp_ptr _ _ H) as (P1 & _ & P3). pose proof (hp_end _ _ H) as En. unfold SIZEOF_STRUCT_MEM in *.
  rewrite u32_id by lia. destruct b as [|[m v] b]; simpl in *; [apply Z.eqb_eq; lia|].
  apply wf_cons in Wb as [[? _] Wb]. pose proof (total_nonneg _ Wb). apply Z.eqb_neq. lia.
Qed.

(** The predecessor of the block behind, if there is one. *)
Lemma fix_prev_wp (c : bool) q p s :
  wp (if negb c then upd_item q (set_i_prev p) else mret tt) (fun _ s' => exists f', s' = set_sm_item f' s /\
    (forall x, x <> q -> f' x = sm_item s x) /\
    f' q = if c then sm_item s q else set_i_prev p (sm_item s q)) s.
Proof.
  unfold upd_item. destruct c; simpl; wp_step.
  - exists (sm_item s). split; [by destruct s|done].
  - eexists. split; [done|]. split; [intros x Hx; by rewrite fupd_ne|by rewrite fupd_eq].
Qed.

(** The chosen block is cut and marked; [lfree] is left for later. *)
Lemma carve_wp a n b s size :
  heap_pre (a ++ (n, false) :: b) s -> 16 <= size -> size mod 8 = 0 -> size <= n - SIZEOF_STRUCT_MEM ->
  wp (smem_carve (total a) size;; upd_item (total a) (set_i_pool (MEM_USED (sm_self s)))) (fun _ s2 =>
    sm_lfree s2 = sm_lfree s /\ same_region s s2 /\
    heap_pre (a ++ carve size n ++ b) (set_sm_lfree (first_free 0 (a ++ carve size n ++ b)) s2)) s.
Proof.
  intros H H16 H8 Hfit. destruct (heap_bounds _ _ _ _ _ H) as (Wa & Wb & Hn & Hpa & Hpb & He).
  pose proof (hp_wf _ _ H) as [_ [[_ Hnm] _]%wf_cons]%wf_app.
  destruct (carve_facts size n H16 H8 Hfit Hnm) as (Wc & Tc & Hle).
  pose proof (heap_item _ _ _ _ _ H) as E0. pose proof (at_end _ _ _ _ _ H) as Es.
  pose proof (used_sum_range _ Wa). pose proof (used_sum_range _ Wb).
  destruct H as [S T [P1 [P2 P3]] En W To C La Lf [U1 U2]]. rewrite used_sum_app in U1. simpl in U1.
  unfold smem_carve, item, upd_item, carve, SIZEOF_STRUCT_MEM, MIN_SIZE_ALIGNED in *.
  do 5 wp_step. rewrite E0. simpl. rewrite (u32_id (total a + 16)), (u32_id (size + 16 + 16)), (u32_id (total a + n - _)),
    (u32_id (total a + 16 + size)) by lia.
  replace (total a + n - (total a + 16)) with (n - 16) by lia. rewrite mem_freed, mem_used, Es by done.
  destruct (Z.leb_spec (size + 16 + 16) (n - 16)) as [Hs|Hs]; [do 5 wp_step|].
  - match goal with |- wp _ _ ?st => set (f1 := sm_item st) end.
    assert (E1 : f1 (total a + n) = sm_item s (total a + n)) by (unfold f1; simpl; rewrite !fupd_ne by lia; done).
    eapply wp_mono; [apply fix_prev_wp|].
    intros _ s2 (f2 & -> & F1 & F2). fold f1 in F1, F2. rewrite E1 in F2. apply account_wp; [simpl; lia|]. wp_step. simpl.
    split; [done|]. split; [by repeat split|].
    rewrite F1 by lia.
    assert (E2 : f1 (total a) = mk_item (owner (sm_self s) false) (total a + 16 + size) (last_off 0 0 a)).
    { unfold f1. simpl. rewrite fupd_eq. simpl. rewrite fupd_ne, E0 by lia. done. }
    rewrite E2. simpl. split; try done; simpl.
    + apply wf_app. split; [done|]. by apply (wf_app [_; _]).
    + rewrite total_app. simpl. lia.
    + replace (n - 16 - size) with (n - (16 + size)) by lia.
      eapply chunk_split; [done|done|lia|exact C|..].
      * rewrite fupd_eq, E0. unfold set_i_pool, owner. simpl. by rewrite Z.add_assoc.
      * rewrite fupd_ne, F1 by lia. unfold f1. simpl. rewrite fupd_ne by lia. rewrite Z.add_assoc, fupd_eq.
        unfold owner. simpl. f_equal. lia.
      * intros Hb. rewrite fupd_ne, F2 by lia. rewrite Z.add_assoc. by destruct b.
      * intros x ???. rewrite fupd_ne, F1 by lia. unfold f1. simpl. by rewrite !fupd_ne by lia.
    + rewrite fupd_ne by lia. destruct (decide (sm_heap_end s = total a + n)) as [Ee|].
      * rewrite Ee, F2. replace (is_nil b) with true by (rewrite <- Es, u32_id by lia; symmetry; apply Z.eqb_eq; lia).
        rewrite <- Ee. done.
      * rewrite F1 by done. unfold f1. simpl. rewrite !fupd_ne by lia. done.
    + rewrite used_sum_app. simpl in *. lia.
  - apply account_wp; [lia|]. wp_step. simpl. split; [done|]. split; [by repeat split|].
    replace (total a + n - total a) with n by lia. rewrite E0. simpl. split; try done; simpl.
    + apply wf_app. split; [done|]. by apply (wf_app [_]).
    + rewrite total_app. simpl. lia.
    + eapply chunk_mark; [done|done|done|exact C| |].
      * rewrite fupd_eq, E0. done.
      * intros x Hx. by rewrite fupd_ne.
    + by rewrite fupd_ne by lia.
    + rewrite used_sum_app. simpl in *. lia.
Qed.

(** The block that was found is handed out. *)
Lemma found_wp fuel a n b s size :
  heap_ok (a ++ (n, false) :: b) s -> 16 <= size -> size mod 8 = 0 -> size <= n - SIZEOF_STRUCT_MEM ->
  (length b + 2 < fuel)%nat ->
  wp (smem_carve (total a) size;;
      upd_item (total a) (set_i_pool (MEM_USED (sm_self s)));;
      (if total a =? sm_lfree s then
         lfree_loop fuel;;
         s ← get;
         il ← item (sm_lfree s);
         RT_ASSERT ((sm_lfree s =? sm_heap_end s) || negb (MEM_ISUSED il))
       else mret tt);;
      let mem := u32 (sm_heap_ptr s + total a) in
      RT_ASSERT (u32 (mem + SIZEOF_STRUCT_MEM + size) <=? u32 (sm_heap_ptr s + sm_heap_end s));;
      RT_ASSERT (u32 (mem + SIZEOF_STRUCT_MEM) mod RT_ALIGN_SIZE =? 0);;
      RT_ASSERT (Z.land mem (RT_ALIGN_SIZE - 1) =? 0);;
      mret (u32 (mem + SIZEOF_STRUCT_MEM)))
    (fun r s' => r = sm_heap_ptr s + total a + SIZEOF_STRUCT_MEM /\
       heap_ok (a ++ carve size n ++ b) s' /\ same_region s s') s.
Proof.
  intros [H Hc] H16 H8 Hfit Hfuel. destruct (heap_bounds _ _ _ _ _ H) as (Wa & Wb & Hn & Hpa & Hpb & He).
  destruct (hp_ptr _ _ H) as (P1 & P2 & P3). pose proof (total_mod _ Wa) as Hma.
  pose proof (carve_wp a n b s size H H16 H8 Hfit) as HC. apply wp_bind_inv in HC. wp_step.
  eapply wp_mono; [exact HC|]. clear HC. intros [] s1 HC. wp_step. eapply wp_mono; [exact HC|]. clear HC s1.
  intros _ s1 (Hl1 & Hr & Hp). set (L := a ++ carve size n ++ b) in *.
  assert (HcL : coalesced L).
  { assert (Ha : coalesced a) by (by eapply coalesced_prefix).
    assert (Hb : coalesced ((n, false) :: b)) by (by eapply coalesced_app).
    pose proof (coalesced_cons _ _ Hb) as Hb'. pose proof (coalesced_starts _ _ Hb) as Hs.
    unfold L, carve. case_bool; simpl; apply coalesced_used; try done.
    apply (coalesced_glue []); try done. by intros ([|] & ? & ?). }
  apply wp_bind.
  apply (wp_mono _ (fun _ s2 => heap_pre L s2 /\ same_region s s2)).
  - assert (Hlf : (total a =? sm_lfree s) = forallb snd a).
    { rewrite (hp_lfree _ _ H), first_free_app, Z.add_0_l. simpl. destruct (forallb snd a) eqn:E;
        [apply Z.eqb_refl|]. pose proof (first_free_lt 0 a Wa E). apply Z.eqb_neq. lia. }
    rewrite Hlf. unfold L in Hp at 2. rewrite first_free_app, Z.add_0_l in Hp.
    destruct (forallb snd a) eqn:Ea.
    + wp_step. eapply wp_mono; [apply (lfree_loop_wp fuel a (carve size n ++ b) _ _ Hp)|].
      * rewrite Hl1. symmetry. by apply Z.eqb_eq.
      * rewrite length_app. unfold carve. case_bool; simpl; lia.
      * intros _ s2 ->. set (s2 := set_sm_lfree _ s1) in *. unfold item. do 4 wp_step.
        wp_step; [|split; [done|exact Hr]]. apply orb_true_iff. rewrite (hp_lfree _ _ Hp).
        rewrite <- (hp_total _ _ Hp). clearbody s2 L. clear -Hp.
        destruct (forallb snd L) eqn:E; [left|right].
        -- apply Z.eqb_eq. rewrite <- (app_nil_r L) at 1. by rewrite first_free_app, E, Z.add_0_l.
        -- assert (exists l1 m l2, L = l1 ++ (m, false) :: l2 /\ forallb snd l1 = true) as (l1 & m & l2 & -> & El).
           { clear -E. induction L as [|[m []] L IH]; [done| |by exists [], m, L].
             simpl in E. destruct (IH E) as (l1 & m' & l2 & -> & ?). by exists ((m, true) :: l1), m', l2. }
           rewrite first_free_app, El, Z.add_0_l. simpl. rewrite (heap_item _ _ _ _ _ Hp), isused_owner by apply Hp. done.
    + wp_step. split; [|done]. rewrite (hp_lfree _ _ H), first_free_app, Ea in Hl1. rewrite <- Hl1 in Hp. by destruct s1.
  - intros _ s2 [Hp2 Hr2]. unfold SIZEOF_STRUCT_MEM, RT_ALIGN_SIZE in *. rewrite !(u32_id (sm_heap_ptr s + total a)) by lia.
    wp_step. wp_step; [rewrite !u32_id by lia; apply Z.leb_le; lia|].
    wp_step. wp_step; [rewrite u32_id by lia; apply Z.eqb_eq; Z.to_euclidean_division_equations; lia|].
    wp_step. wp_step; [change (8 - 1) with 7; rewrite land_7; apply Z.eqb_eq; Z.to_euclidean_division_equations; lia|].
    wp_step. rewrite u32_id by lia. split; [done|]. split; [by split|done].
Qed.

(** The search from any point behind which it has not looked yet. *)
Lemma alloc_loop_wp fuel l1 l2 s size :
  heap_ok (l1 ++ l2) s -> 16 <= size <= sm_size s -> size mod 8 = 0 -> (length l2 + 2 < fuel)%nat ->
  wp (smem_alloc_loop fuel (total l1) size) (fun r s' =>
    match first_fit size l2 with
    | Some (a, n, b) => r = sm_heap_ptr s + total (l1 ++ a) + SIZEOF_STRUCT_MEM /\
        heap_ok (l1 ++ a ++ carve size n ++ b) s' /\ same_region s s'
    | None => r = 0 /\ s' = s
    end) s.
Proof.
  revert fuel l1. induction l2 as [|[n u] l2 IH]; intros [|fuel] l1 H Hs H8 Hf; simpl in Hf; try lia;
    pose proof (hp_end _ _ (proj1 H)) as He; unfold SIZEOF_STRUCT_MEM in *;
    destruct (hp_ptr _ _ (proj1 H)) as (P1 & P2 & P3); cbn [smem_alloc_loop]; do 2 wp_step;
    rewrite (u32_id (sm_size s - size)) by lia.
  - pose proof (hp_total _ _ (proj1 H)) as Ht. rewrite app_nil_r in Ht.
    rewrite (proj2 (Z.leb_gt (total l1) _)) by lia. by wp_step.
  - destruct (heap_bounds _ _ _ _ _ (proj1 H)) as (W1 & W2 & Hn & Hp1 & Hp2 & Hend).
    pose proof (hp_wf _ _ (proj1 H)) as [_ W']%wf_app. destruct (Z.leb_spec (total l1) (sm_size s - size)) as [Hle|Hgt].
    2:{ wp_step. rewrite first_fit_none; [done|done|]. simpl. unfold SIZEOF_STRUCT_MEM. lia. }
    unfold item. do 2 wp_step. rewrite (heap_item _ _ _ _ _ (proj1 H)), isused_owner by apply H.
    cbn [i_next]. unfold SIZEOF_STRUCT_MEM.
    rewrite (u32_id (total l1 + 16)), (u32_id (total l1 + n - _)) by lia.
    replace (total l1 + n - (total l1 + 16)) with (n - 16) by lia. cbn [first_fit]. unfold SIZEOF_STRUCT_MEM.
    destruct (negb u && (size <=? n - 16)) eqn:E.
    + apply andb_true_iff in E as [Eu Efit%Z.leb_le]. destruct u; [done|]. rewrite app_nil_r.
      apply found_wp; [done|lia|done|done|lia].
    + assert (Eo : total l1 + n = total (l1 ++ [(n, u)])) by (rewrite total_app; simpl; lia). rewrite Eo.
      eapply wp_mono; [apply IH; [by rewrite <- app_assoc|done|done|lia]|]. intros r s'.
      destruct (first_fit size l2) as [[[a m] b]|]; [|done]. rewrite <- !app_assoc. done.
Qed.

Lemma length_total l : wf l -> 24 * Z.of_nat (length l) <= total l.
Proof. induction 1 as [|[n u] l [Hn _] _ IH]; simpl in *; lia. Qed.

Lemma request_facts size : 16 <= request size /\ request size mod 8 = 0.
Proof.
  unfold request, RT_ALIGN_SIZE, MIN_SIZE_ALIGNED. case_bool; [done|]. split; [lia|].
  unfold RT_ALIGN. change (8 - 1) with 7. rewrite land_lnot_7. Z.to_euclidean_division_equations. lia.
Qed.

Lemma smem_alloc_wp l s size :
  heap_ok l s -> 0 < size < 2 ^ 32 ->
  wp (rt_smem_alloc size) (fun r s' =>
    match first_fit (request size) l with
    | Some (a, n, b) => r = sm_heap_ptr s + total a + SIZEOF_STRUCT_MEM /\
        heap_ok (a ++ carve (request size) n ++ b) s' /\ same_region s s'
    | None => r = 0 /\ s' = s
    end) s.
Proof.
  intros H Hsz. pose proof (hp_end _ _ (proj1 H)) as He. pose proof (hp_total _ _ (proj1 H)) as Ht.
  pose proof (hp_wf _ _ (proj1 H)) as W. unfold rt_smem_alloc.
  rewrite (proj2 (Z.eqb_neq _ _)) by lia. wp_step. eapply smem_checked_wp; [apply H|]. do 2 wp_step.
  change (if RT_ALIGN size RT_ALIGN_SIZE <? MIN_SIZE_ALIGNED then _ else _) with (request size).
  pose proof (request_facts size) as Hr.
  destruct (Z.ltb_spec (sm_size s) (request size)) as [Hlt|Hge].
  { wp_step. rewrite first_fit_none; [done|done|lia]. }
  assert (exists l1 l2, l = l1 ++ l2 /\ forallb snd l1 = true /\ first_free 0 l = total l1) as (l1 & l2 & -> & Hu & Hf).
  { clear. assert (G : forall o, exists l1 l2, l = l1 ++ l2 /\ forallb snd l1 = true /\ first_free o l = o + total l1);
      [|by destruct (G 0) as (l1 & l2 & ? & ? & ?); exists l1, l2].
    induction l as [|[n []] l IH]; intros o; [by exists [], []; simpl; rewrite Z.add_0_r| |].
    - destruct (IH (o + n)) as (l1 & l2 & -> & H1 & H2). exists ((n, true) :: l1), l2. simpl. rewrite H2.
      split; [done|]. split; [done|]. lia.
    - exists [], ((n, false) :: l). simpl. by rewrite Z.add_0_r. }
  rewrite (hp_lfree _ _ (proj1 H)), Hf.
  pose proof (length_total _ W) as Hlen. rewrite length_app in Hlen.
  eapply wp_mono; [apply (alloc_loop_wp _ l1 l2); [done|lia|lia|]|].
  - unfold smem_fuel, SIZEOF_STRUCT_MEM in *. lia.
  - intros r s'. rewrite first_fit_used by done. destruct (first_fit (request size) l2) as [[[a n] b]|]; [|done].
    by rewrite <- app_assoc.
Qed.

(** * The properties *)

(** C8: [rt_smem_alloc] is first-fit allocation on the list of blocks.  The request is
    rounded up to a multiple of 8, at least 16; the first free block with room becomes
    used, cut in two when a further block fits behind; its address behind the header
    is returned and the rest of the heap is as before.  Without such a block the
    result is NULL and the heap unchanged.  Every assertion on the way holds and the
    search ends. *)
Theorem rt_smem_alloc_refines l s size :
  heap_ok l s -> 0 < size < 2 ^ 32 ->
  wp (rt_smem_alloc size) (fun r s' =>
    match first_fit (request size) l with
    | Some (a, n, b) => r = sm_heap_ptr s + total a + SIZEOF_STRUCT_MEM /\
        heap_ok (a ++ carve (request size) n ++ b) s' /\ same_region s s'
    | None => r = 0 /\ s' = s
    end) s.
Proof. apply smem_alloc_wp. Qed.

(** C9: [rt_smem_free] of a block in use makes it free and merges it with free
    neighbours on both sides; all other blocks stay where they are, and the free
    pointer and the accounting are right again. *)
Theorem rt_smem_free_refines a n b s :
  heap_ok (a ++ (n, true) :: b) s ->
  wp (rt_smem_free (sm_heap_ptr s + total a + SIZEOF_STRUCT_MEM)) (fun _ s' =>
    heap_ok (join (a ++ (n, false) :: b)) s' /\ same_region s s') s.
Proof. apply smem_free_wp. Qed.

(** allocating and releasing at once, whether or not the allocation succeeded,
    leaves the same blocks: nothing leaks and no fragment stays behind. *)
Lemma smem_alloc_free_roundtrip l s size :
  heap_ok l s -> 0 < size < 2 ^ 32 ->
  wp (p ← rt_smem_alloc size; rt_smem_free p) (fun _ s' => heap_ok l s' /\ same_region s s') s.
Proof.
  intros H Hs. wp_step. eapply wp_mono; [by apply smem_alloc_wp|]. intros r s'.
  destruct (first_fit (request size) l) as [[[a n] b]|] eqn:E.
  2:{ intros [-> ->]. unfold rt_smem_free. simpl. wp_step. split; [done|by repeat split]. }
  apply first_fit_spec in E as [-> Hfit]. intros (-> & H' & R).
  assert (Hr : exists n' b', a ++ carve (request size) n ++ b = a ++ (n', true) :: b' /\
    join (a ++ (n', false) :: b') = a ++ (n, false) :: b).
  { unfold carve. case_bool; simpl; [|by exists n, b; split; [|apply H]].
    eexists _, _. split; [done|]. rewrite join_merge.
    replace (SIZEOF_STRUCT_MEM + request size + _) with n by lia. apply H. }
  destruct Hr as (n' & b' & E1 & E2). rewrite E1 in H'. pose proof R as (_ & <- & _).
  eapply wp_mono; [by apply smem_free_wp|]. intros _ s2 [H2 R2]. rewrite E2 in H2. split; [done|].
  destruct R as (? & ? & ? & ? & ? & ?), R2 as (? & ? & ? & ? & ? & ?). repeat split; congruence.
Qed.

(** * Reallocation *)

(** The heap after a used block has been cut, before the merging. *)
Lemma shrink_pre a n b s m f' :
  let o := total a in
  heap_pre (a ++ (n, true) :: b) s -> 24 <= m -> 24 <= n - m -> m mod 8 = 0 ->
  f' o = mk_item (owner (sm_self s) true) (o + m) (i_prev (sm_item s o)) ->
  f' (o + m) = mk_item (owner (sm_self s) false) (o + n) o ->
  (b <> [] -> f' (o + n) = set_i_prev (o + m) (sm_item s (o + n))) ->
  i_pool (f' (sm_heap_end s)) = i_pool (sm_item s (sm_heap_end s)) ->
  (forall x, x <> o -> x <> o + m -> x <> o + n -> f' x = sm_item s x) ->
  heap_pre ((a ++ [(m, true)]) ++ (n - m, false) :: b)
    (set_sm_lfree (if o + m <? sm_lfree s then o + m else sm_lfree s)
      (set_sm_item f' (set_sm_used (sm_used s - (n - m)) s))).
Proof.
  intros o H Hm Hnm Hm8 E1 E2 E3 E4 E5. destruct (heap_bounds _ _ _ _ _ H) as (Wa & Wb & Hn & Hpa & Hpb & He).
  pose proof (hp_wf _ _ H) as [_ [[_ Hn8] _]%wf_cons]%wf_app.
  pose proof (used_sum_range _ Wa). pose proof (used_sum_range _ Wb).
  destruct H as [S T P En W To C La Lf [U1 U2]]. rewrite <- app_assoc. split; try done; simpl.
  - apply wf_app. split; [done|]. apply wf_cons. split; [done|]. apply wf_cons. split; [|done]. split; [lia|].
    rewrite Zminus_mod, Hn8, Hm8. done.
  - rewrite <- To, !total_app. simpl. lia.
  - eapply chunk_split; [done|done|lia|exact C|done..].
  - by rewrite E4.
  - rewrite Lf, !first_free_app, Z.add_0_l. simpl. fold o. pose proof (first_free_range (o + n) b Wb).
    pose proof (first_free_range 0 a Wa). destruct (forallb snd a) eqn:Ea; [case_bool; lia|].
    case_bool; unfold o in *; lia.
  - rewrite used_sum_app in U1 |- *. simpl in *. lia.
Qed.

Lemma used_survives a n b a' n' b' c :
  a ++ (n, true) :: b = a' ++ (n', false) :: b' -> total c = n' ->
  exists a2 b2, a' ++ c ++ b' = a2 ++ (n, true) :: b2 /\ total a2 = total a.
Proof.
  intros E Hc. revert a' E. induction a as [|x a IH]; intros [|x' a'] E; simplify_eq/=.
  - exists [], (a' ++ c ++ b'). done.
  - exists (c ++ a), b. rewrite <- app_assoc. by rewrite total_app.
  - destruct (IH a') as (a2 & b2 & -> & Ht); [done|]. exists (x' :: a2), b2. simpl. by rewrite Ht.
Qed.

Lemma u32_small x : 0 <= x < 2 ^ 32 -> u32 x = x.
Proof. apply u32_id. Qed.

(** The block keeps its place and gives its end back. *)
Lemma shrink_wp a n b s new (r : Z) :
  let old := n - SIZEOF_STRUCT_MEM in
  heap_ok (a ++ (n, true) :: b) s -> 8 <= new -> new mod 8 = 0 -> new + 16 + 12 < old ->
  wp (modify (fun s => set_sm_used (u32 (sm_used s - (old - new))) s);;
      let ptr2 := u32 (total a + SIZEOF_STRUCT_MEM + new) in
      upd_item ptr2 (fun _ => mk_item (MEM_FREED (sm_self s)) (total a + n) (total a));;
      upd_item (total a) (set_i_next ptr2);;
      (if negb (total a + n =? u32 (sm_size s + SIZEOF_STRUCT_MEM))
       then upd_item (total a + n) (set_i_prev ptr2) else mret tt);;
      (if ptr2 <? sm_lfree s then modify (set_sm_lfree ptr2) else mret tt);;
      plug_holes ptr2;;
      mret r)
    (fun r' s' => r' = r /\ same_region s s' /\
       heap_ok (join (a ++ (SIZEOF_STRUCT_MEM + new, true) :: (old - new, false) :: b)) s') s.
Proof.
  intros old [H Hc] N3 N2 Hlt. destruct (heap_bounds _ _ _ _ _ H) as (Wa & Wb & Hn & Hpa & Hpb & He).
  pose proof (hp_wf _ _ H) as [_ [[_ Hn8] _]%wf_cons]%wf_app.
  destruct (hp_ptr _ _ H) as (P1 & P2 & P3). pose proof (heap_item _ _ _ _ _ H) as E0.
  unfold SIZEOF_STRUCT_MEM in *.
  pose proof (at_end _ _ _ _ _ H) as Es. unfold SIZEOF_STRUCT_MEM in Es.
  rewrite Es, (u32_id (total a + 16 + new)), mem_freed by (apply H || lia).
  unfold upd_item. do 7 wp_step. match goal with |- wp _ _ ?st => set (s1 := st) end.
  eapply wp_mono; [apply fix_prev_wp|]. intros _ s2 (f2 & -> & F1 & F2).
  assert (E1 : forall x, x <> total a -> x <> total a + 16 + new -> sm_item s1 x = sm_item s x)
    by (intros x ??; unfold s1; simpl; by rewrite !fupd_ne by lia).
  rewrite E1 in F2 by lia.
  assert (HF : heap_pre ((a ++ [(16 + new, true)]) ++ (n - (16 + new), false) :: b)
    (set_sm_lfree (if total a + (16 + new) <? sm_lfree s then total a + (16 + new) else sm_lfree s)
      (set_sm_item f2 (set_sm_used (sm_used s - (n - (16 + new))) s)))).
  { apply shrink_pre; [done|lia|lia|Z.to_euclidean_division_equations; lia|..].
    - rewrite F1, E0 by lia. unfold s1. simpl. rewrite fupd_eq, fupd_ne, E0 by lia.
      unfold set_i_next. simpl. by rewrite Z.add_assoc.
    - rewrite F1 by lia. unfold s1. simpl. rewrite fupd_ne by lia. rewrite Z.add_assoc, fupd_eq.
      unfold owner. simpl. by rewrite Z.add_0_r.
    - intros Hb. rewrite F2, Z.add_assoc. by destruct b.
    - destruct (decide (sm_heap_end s = total a + n)) as [Ee|]; [rewrite Ee, F2; by destruct (is_nil b)|].
      rewrite F1, E1 by lia. done.
    - intros x ???. rewrite F1, E1 by lia. done. }
  assert (Hu : 0 <= sm_used s - (old - new) < 2 ^ 32).
  { pose proof (proj1 (hp_used _ _ HF)) as Hu. simpl in Hu. pose proof (used_sum_range _ (hp_wf _ _ HF)) as Hr.
    rewrite <- Hu, (hp_total _ _ HF) in Hr. simpl in Hr. lia. }
  wp_step.
  apply (wp_mono _ (fun _ s3 => s3 = set_sm_lfree (if total a + (16 + new) <? sm_lfree s
    then total a + (16 + new) else sm_lfree s) (set_sm_item f2 (set_sm_used (sm_used s - (n - (16 + new))) s)))).
  { unfold s1. replace (n - (16 + new)) with (old - new) by lia. rewrite Z.add_assoc.
    case_bool; wp_step; simpl; rewrite u32_id by done; by destruct s. }
  intros _ s3 ->. wp_step. replace (total a + 16 + new) with (total (a ++ [(16 + new, true)]))
    by (rewrite total_app; simpl; lia).
  eapply wp_mono; [apply (plug_wp _ _ _ _ HF)|].
  + apply coalesced_used; [by eapply coalesced_prefix|done].
  + by eapply coalesced_cons, coalesced_app.
  + intros _ s' [Hok [f' ->]]. wp_step. split; [done|]. split; [by repeat split|].
    rewrite <- app_assoc in Hok. simpl in Hok. by replace (old - new) with (n - (16 + new)) by lia.
Qed.

(** The block moves: allocation, copy, release. *)
Lemma move_wp a n b s new :
  let p := sm_heap_ptr s + total a + SIZEOF_STRUCT_MEM in
  let old := n - SIZEOF_STRUCT_MEM in
  heap_ok (a ++ (n, true) :: b) s -> 0 < new < 2 ^ 32 ->
  wp (nmem ← rt_smem_alloc new;
      (if negb (nmem =? 0) then
         copy_data nmem p (if old <? new then old else new);; rt_smem_free p
       else mret tt);;
      mret nmem)
    (fun r s' => match first_fit (request new) (a ++ (n, true) :: b) with
    | None => r = 0 /\ s' = s
    | Some (a', n', b') =>
        r = sm_heap_ptr s + total a' + SIZEOF_STRUCT_MEM /\
        (forall i, 0 <= i < Z.min old new -> sm_data s' (r + i) = sm_data s (p + i)) /\
        exists a2 b2, a' ++ carve (request new) n' ++ b' = a2 ++ (n, true) :: b2 /\ total a2 = total a /\
          heap_ok (join (a2 ++ (n, false) :: b2)) s'
    end) s.
Proof.
  intros p old [H Hc] Hnew. destruct (hp_ptr _ _ H) as (P1 & P2 & P3).
  wp_step. eapply wp_mono; [apply smem_alloc_wp; [by split|lia]|]. intros r s1.
  destruct (first_fit (request new) (a ++ (n, true) :: b)) as [[[a' n'] b']|] eqn:Ef.
  2:{ intros [-> ->]. wp_step. simpl. by do 2 wp_step. }
  intros (-> & H1 & R1). pose proof R1 as (_ & Rp & _ & _ & _ & Rd).
  pose proof (first_fit_spec _ _ _ _ _ Ef) as [El Hfit].
  destruct (used_survives a n b a' n' b' (carve (request new) n') El) as (a2 & b2 & E2 & Ht).
  { pose proof (hp_wf _ _ H) as W. rewrite El in W. apply wf_app in W as [_ [[_ W] _]%wf_cons].
    by apply carve_facts; try apply request_facts. }
  assert (Hpa' : 0 <= total a').
  { pose proof (hp_wf _ _ H) as W. rewrite El in W. by apply wf_app in W as [W%total_nonneg _]. }
  rewrite E2 in H1. unfold SIZEOF_STRUCT_MEM in *. rewrite (proj2 (Z.eqb_neq _ 0)) by lia. simpl. unfold copy_data. do 3 wp_step.
  match goal with |- wp _ _ ?st => set (s2 := st) end.
  assert (H2 : heap_ok (a2 ++ (n, true) :: b2) s2) by (destruct H1 as [[] ?]; by split; [split|]).
  replace p with (sm_heap_ptr s2 + total a2 + 16) by (unfold s2; simpl; rewrite Rp, Ht; done).
  eapply wp_mono; [by apply smem_free_wp|]. intros _ s' [H3 R3]. wp_step. split; [done|]. split; [|by exists a2, b2].
  intros i Hi. destruct R3 as (_ & _ & _ & _ & _ & ->). unfold s2. simpl.
  rewrite (proj2 (Z.leb_le _ _)) by lia. rewrite (proj2 (Z.ltb_lt _ _)).
  + rewrite Rd. f_equal. simpl. lia.
  + destruct (Z.ltb_spec old new); lia.
Qed.

(** [rt_smem_realloc] of a block in use with room for [n - 16] bytes.  A request
    larger than the heap fails; one of the same rounded size changes nothing; a much
    smaller one gives the end of the block back and merges it with a free neighbour;
    otherwise a new block is allocated first fit, as many bytes as both sizes have are
    copied, and the old block is freed, or, without a new block, NULL is returned and
    nothing changes. *)
Lemma rt_smem_realloc_spec a n b s size :
  heap_ok (a ++ (n, true) :: b) s -> 0 < size < 2 ^ 32 - 8 ->
  let p := sm_heap_ptr s + total a + SIZEOF_STRUCT_MEM in
  let new := RT_ALIGN size RT_ALIGN_SIZE in
  let old := n - SIZEOF_STRUCT_MEM in
  wp (rt_smem_realloc p size) (fun r s' =>
    if sm_size s <? new then r = 0 /\ s' = s
    else if old =? new then r = p /\ s' = s
    else if new + SIZEOF_STRUCT_MEM + MIN_SIZE <? old then
      r = p /\ same_region s s' /\
      heap_ok (join (a ++ (SIZEOF_STRUCT_MEM + new, true) :: (old - new, false) :: b)) s'
    else match first_fit (request new) (a ++ (n, true) :: b) with
    | None => r = 0 /\ s' = s
    | Some (a', n', b') =>
        r = sm_heap_ptr s + total a' + SIZEOF_STRUCT_MEM /\
        (forall i, 0 <= i < Z.min old new -> sm_data s' (r + i) = sm_data s (p + i)) /\
        exists a2 b2, a' ++ carve (request new) n' ++ b' = a2 ++ (n, true) :: b2 /\ total a2 = total a /\
          heap_ok (join (a2 ++ (n, false) :: b2)) s'
    end) s.
Proof.
  intros [H Hc] Hsz p new old. destruct (heap_bounds _ _ _ _ _ H) as (Wa & Wb & Hn & Hpa & Hpb & He).
  pose proof (hp_wf _ _ H) as [_ [[_ Hn8] _]%wf_cons]%wf_app. pose proof (total_mod _ Wa) as Ha8.
  destruct (hp_ptr _ _ H) as (P1 & P2 & P3). pose proof (hp_end _ _ H) as En.
  destruct (RT_ALIGN_8_bounds size ltac:(lia)) as [N1 N2]. change (RT_ALIGN size 8) with new in N1, N2.
  assert (N3 : 8 <= new) by (clearbody new; clear -N1 N2 Hsz; Z.to_euclidean_division_equations; lia).
  pose proof (heap_item _ _ _ _ _ H) as E0.
  unfold rt_smem_realloc. fold new. wp_step. eapply smem_checked_wp; [exact H|]. do 2 wp_step.
  unfold SIZEOF_STRUCT_MEM, MIN_SIZE in *. destruct (Z.ltb_spec (sm_size s) new); [by wp_step|].
  rewrite (proj2 (Z.eqb_neq new 0)), (proj2 (Z.eqb_neq p 0)) by lia.
  wp_step. wp_step. { unfold RT_ALIGN_SIZE. change (8 - 1) with 7. rewrite land_7. apply Z.eqb_eq. unfold p.
    Z.to_euclidean_division_equations. lia. }
  wp_step. wp_step; [apply Z.leb_le; lia|]. wp_step.
  wp_step; [rewrite u32_id by lia; apply Z.ltb_lt; lia|]. replace (p - 16 - sm_heap_ptr s) with (total a) by lia.
  rewrite (u32_id (total a)) by lia. unfold item. do 2 wp_step. rewrite E0. cbn [i_next].
  replace (total a + n - total a - 16) with old by lia. rewrite (u32_id old) by lia.
  destruct (Z.eqb_spec old new) as [|Hne]; [by wp_step|].
  rewrite (u32_id (new + 16 + 12)) by lia. destruct (Z.ltb_spec (new + 16 + 12) old) as [Hlt|Hge].
  - by apply shrink_wp.
  - apply move_wp; [by split|lia].
Qed.

(** * A concrete heap *)

(** A region of 512 bytes at address 1000, and the heap after an allocation of 20 bytes. *)
Definition heap_demo : small_mem :=
  match rt_smem_init 1000 512 (fun _ => mk_item 0 0 0) (fun _ => 0) with
  | Some s => s
  | None => mk_smem 0 0 0 0 0 0 0 0 0 0 (fun _ => mk_item 0 0 0) (fun _ => 0)
  end.

Definition heap_demo1 : small_mem := match rt_smem_alloc 20 heap_demo with Some (_, s) => s | None => heap_demo end.

Lemma heap_demo_ok : heap_ok [(432, false)] heap_demo.
Proof.
  destruct (smem_init_ok 1000 512 (fun _ => mk_item 0 0 0) (fun _ => 0)) as (s & E & H & _); try done.
  unfold heap_demo. rewrite E. replace 432 with (sm_size s + SIZEOF_STRUCT_MEM); [done|].
  assert (E' : sm_size <$> rt_smem_init 1000 512 (fun _ => mk_item 0 0 0) (fun _ => 0) = Some 416)
    by (vm_compute; reflexivity).
  rewrite E in E'. by injection E' as ->.
Qed.

Lemma heap_demo1_ok : heap_ok ([] ++ (40, true) :: [(392, false)]) heap_demo1.
Proof.
  pose proof (smem_alloc_wp _ _ 20 heap_demo_ok ltac:(lia)) as H. unfold wp in H. unfold heap_demo1.
  destruct (rt_smem_alloc 20 heap_demo) as [[r s]|]; [|done]. exact (proj1 (proj2 H)).
Qed.

Lemma rt_smem_alloc_refines_witness :
  wp (rt_smem_alloc 20) (fun r s' => r = sm_heap_ptr heap_demo + 0 + 16 /\
    heap_ok ([] ++ [(40, true); (392, false)] ++ []) s' /\ same_region heap_demo s') heap_demo.
Proof. apply (rt_smem_alloc_refines _ _ 20 heap_demo_ok). lia. Defined.

Lemma rt_smem_free_refines_witness :
  wp (rt_smem_free (sm_heap_ptr heap_demo1 + 0 + 16)) (fun _ s' =>
    heap_ok [(432, false)] s' /\ same_region heap_demo1 s') heap_demo1.
Proof. apply (rt_smem_free_refines [] 40 [(392, false)] _ heap_demo1_ok). Defined.

Lemma smem_alloc_free_roundtrip_witness :
  wp (p ← rt_smem_alloc 100; rt_smem_free p) (fun _ s' =>
    heap_ok [(432, false)] s' /\ same_region heap_demo s') heap_demo.
Proof. apply (smem_alloc_free_roundtrip _ _ 100 heap_demo_ok). lia. Defined.

Lemma rt_smem_realloc_spec_witness :
  wp (rt_smem_realloc (sm_heap_ptr heap_demo1 + 0 + 16) 100) (fun r s' =>
    r = sm_heap_ptr heap_demo1 + 40 + 16 /\
    (forall i, 0 <= i < 24 -> sm_data s' (r + i) = sm_data heap_demo1 (sm_heap_ptr heap_demo1 + 0 + 16 + i)) /\
    exists a2 b2, [(40, true)] ++ [(120, true); (272, false)] ++ [] = a2 ++ (40, true) :: b2 /\ total a2 = 0 /\
      heap_ok (join (a2 ++ (40, false) :: b2)) s') heap_demo1.
Proof.
  assert (E : sm_size heap_demo1 = 416) by (vm_compute; reflexivity).
  pose proof (rt_smem_realloc_spec [] 40 [(392, false)] heap_demo1 100 heap_demo1_ok ltac:(lia)) as H.
  cbv zeta in H. rewrite E in H. exact H.
Defined.
