(* ===== verification/MemHeap.v ===== *)
(** The memory-heap allocator, src/memheap.c: blocks of one region with a header
    ([struct rt_memheap_item]) each, in a circular list by address and, while free, in a
    second circular list.

    The fields of the headers are maps from the address of the header: [mh_magic],
    [mh_pool], the pair [next]/[prev] and the pair [next_free]/[prev_free].  The header of
    the free list lies in the control block.  [mh_lock] is the value of the semaphore
    [lock]; when it is zero the caller waits, and [wait] is what happens until it runs
    again: the result of [rt_sem_take] and the heap it then finds.  There is one heap:
    [pool_ptr] of its headers is [mh_self]. *)
From S2P Require Import Prelude KState Object DList.
#[local] Open Scope Z_scope.

(** [struct rt_memheap] at address [mh_self], with the headers and the bytes of its region;
    [mh_errno] is the error number of the caller. *)
Record memheap := mk_memheap {
  mh_self : Z;
  mh_type : Z;
  mh_start : Z;
  mh_pool_size : Z;
  mh_available : Z;
  mh_max_used : Z;
  mh_block_list : Z;
  mh_free_list : Z;
  mh_lock : Z;
  mh_locked : bool;
  mh_errno : Z;
  mh_magic : Z -> Z;
  mh_pool : Z -> Z;
  mh_phys : nodes Z;
  mh_free : nodes Z;
  mh_data : Z -> Z
}.

Definition set_mh_self (v : Z) (r : memheap) : memheap :=
  mk_memheap v (r.(mh_type)) (r.(mh_start)) (r.(mh_pool_size)) (r.(mh_available)) (r.(mh_max_used)) (r.(mh_block_list)) (r.(mh_free_list)) (r.(mh_lock)) (r.(mh_locked)) (r.(mh_errno)) (r.(mh_magic)) (r.(mh_pool)) (r.(mh_phys)) (r.(mh_free)) (r.(mh_data)).
Definition set_mh_type (v : Z) (r : memheap) : memheap :=
  mk_memheap (r.(mh_self)) v (r.(mh_start)) (r.(mh_pool_size)) (r.(mh_available)) (r.(mh_max_used)) (r.(mh_block_list)) (r.(mh_free_list)) (r.(mh_lock)) (r.(mh_locked)) (r.(mh_errno)) (r.(mh_magic)) (r.(mh_pool)) (r.(mh_phys)) (r.(mh_free)) (r.(mh_data)).
Definition set_mh_start (v : Z) (r : memheap) : memheap :=
  mk_memheap (r.(mh_self)) (r.(mh_type)) v (r.(mh_pool_size)) (r.(mh_available)) (r.(mh_max_used)) (r.(mh_block_list)) (r.(mh_free_list)) (r.(mh_lock)) (r.(mh_locked)) (r.(mh_errno)) (r.(mh_magic)) (r.(mh_pool)) (r.(mh_phys)) (r.(mh_free)) (r.(mh_data)).
Definition set_mh_pool_size (v : Z) (r : memheap) : memheap :=
  mk_memheap (r.(mh_self)) (r.(mh_type)) (r.(mh_start)) v (r.(mh_available)) (r.(mh_max_used)) (r.(mh_block_list)) (r.(mh_free_list)) (r.(mh_lock)) (r.(mh_locked)) (r.(mh_errno)) (r.(mh_magic)) (r.(mh_pool)) (r.(mh_phys)) (r.(mh_free)) (r.(mh_data)).
Definition set_mh_available (v : Z) (r : memheap) : memheap :=
  mk_memheap (r.(mh_self)) (r.(mh_type)) (r.(mh_start)) (r.(mh_pool_size)) v (r.(mh_max_used)) (r.(mh_block_list)) (r.(mh_free_list)) (r.(mh_lock)) (r.(mh_locked)) (r.(mh_errno)) (r.(mh_magic)) (r.(mh_pool)) (r.(mh_phys)) (r.(mh_free)) (r.(mh_data)).
Definition set_mh_max_used (v : Z) (r : memheap) : memheap :=
  mk_memheap (r.(mh_self)) (r.(mh_type)) (r.(mh_start)) (r.(mh_pool_size)) (r.(mh_available)) v (r.(mh_block_list)) (r.(mh_free_list)) (r.(mh_lock)) (r.(mh_locked)) (r.(mh_errno)) (r.(mh_magic)) (r.(mh_pool)) (r.(mh_phys)) (r.(mh_free)) (r.(mh_data)).
Definition set_mh_block_list (v : Z) (r : memheap) : memheap :=
  mk_memheap (r.(mh_self)) (r.(mh_type)) (r.(mh_start)) (r.(mh_pool_size)) (r.(mh_available)) (r.(mh_max_used)) v (r.(mh_free_list)) (r.(mh_lock)) (r.(mh_locked)) (r.(mh_errno)) (r.(mh_magic)) (r.(mh_pool)) (r.(mh_phys)) (r.(mh_free)) (r.(mh_data)).
Definition set_mh_free_list (v : Z) (r : memheap) : memheap :=
  mk_memheap (r.(mh_self)) (r.(mh_type)) (r.(mh_start)) (r.(mh_pool_size)) (r.(mh_available)) (r.(mh_max_used)) (r.(mh_block_list)) v (r.(mh_lock)) (r.(mh_locked)) (r.(mh_errno)) (r.(mh_magic)) (r.(mh_pool)) (r.(mh_phys)) (r.(mh_free)) (r.(mh_data)).
Definition set_mh_lock (v : Z) (r : memheap) : memheap :=
  mk_memheap (r.(mh_self)) (r.(mh_type)) (r.(mh_start)) (r.(mh_pool_size)) (r.(mh_available)) (r.(mh_max_used)) (r.(mh_block_list)) (r.(mh_free_list)) v (r.(mh_locked)) (r.(mh_errno)) (r.(mh_magic)) (r.(mh_pool)) (r.(mh_phys)) (r.(mh_free)) (r.(mh_data)).
Definition set_mh_locked (v : bool) (r : memheap) : memheap :=
  mk_memheap (r.(mh_self)) (r.(mh_type)) (r.(mh_start)) (r.(mh_pool_size)) (r.(mh_available)) (r.(mh_max_used)) (r.(mh_block_list)) (r.(mh_free_list)) (r.(mh_lock)) v (r.(mh_errno)) (r.(mh_magic)) (r.(mh_pool)) (r.(mh_phys)) (r.(mh_free)) (r.(mh_data)).
Definition set_mh_errno (v : Z) (r : memheap) : memheap :=
  mk_memheap (r.(mh_self)) (r.(mh_type)) (r.(mh_start)) (r.(mh_pool_size)) (r.(mh_available)) (r.(mh_max_used)) (r.(mh_block_list)) (r.(mh_free_list)) (r.(mh_lock)) (r.(mh_locked)) v (r.(mh_magic)) (r.(mh_pool)) (r.(mh_phys)) (r.(mh_free)) (r.(mh_data)).
Definition set_mh_magic (v : Z -> Z) (r : memheap) : memheap :=
  mk_memheap (r.(mh_self)) (r.(mh_type)) (r.(mh_start)) (r.(mh_pool_size)) (r.(mh_available)) (r.(mh_max_used)) (r.(mh_block_list)) (r.(mh_free_list)) (r.(mh_lock)) (r.(mh_locked)) (r.(mh_errno)) v (r.(mh_pool)) (r.(mh_phys)) (r.(mh_free)) (r.(mh_data)).
Definition set_mh_pool (v : Z -> Z) (r : memheap) : memheap :=
  mk_memheap (r.(mh_self)) (r.(mh_type)) (r.(mh_start)) (r.(mh_pool_size)) (r.(mh_available)) (r.(mh_max_used)) (r.(mh_block_list)) (r.(mh_free_list)) (r.(mh_lock)) (r.(mh_locked)) (r.(mh_errno)) (r.(mh_magic)) v (r.(mh_phys)) (r.(mh_free)) (r.(mh_data)).
Definition set_mh_phys (v : nodes Z) (r : memheap) : memheap :=
  mk_memheap (r.(mh_self)) (r.(mh_type)) (r.(mh_start)) (r.(mh_pool_size)) (r.(mh_available)) (r.(mh_max_used)) (r.(mh_block_list)) (r.(mh_free_list)) (r.(mh_lock)) (r.(mh_locked)) (r.(mh_errno)) (r.(mh_magic)) (r.(mh_pool)) v (r.(mh_free)) (r.(mh_data)).
Definition set_mh_free (v : nodes Z) (r : memheap) : memheap :=
  mk_memheap (r.(mh_self)) (r.(mh_type)) (r.(mh_start)) (r.(mh_pool_size)) (r.(mh_available)) (r.(mh_max_used)) (r.(mh_block_list)) (r.(mh_free_list)) (r.(mh_lock)) (r.(mh_locked)) (r.(mh_errno)) (r.(mh_magic)) (r.(mh_pool)) (r.(mh_phys)) v (r.(mh_data)).
Definition set_mh_data (v : Z -> Z) (r : memheap) : memheap :=
  mk_memheap (r.(mh_self)) (r.(mh_type)) (r.(mh_start)) (r.(mh_pool_size)) (r.(mh_available)) (r.(mh_max_used)) (r.(mh_block_list)) (r.(mh_free_list)) (r.(mh_lock)) (r.(mh_locked)) (r.(mh_errno)) (r.(mh_magic)) (r.(mh_pool)) (r.(mh_phys)) (r.(mh_free)) v.

Abbreviation P := (M memheap).

Definition RT_MEMHEAP_MAGIC : Z := 0x1ea01ea0.
Definition RT_MEMHEAP_MASK : Z := 0xFFFFFFFE.
Definition RT_MEMHEAP_USED : Z := 1.
Definition RT_MEMHEAP_FREED : Z := 0.
Definition RT_MEMHEAP_MINIALLOC : Z := 16.
Definition RT_MEMHEAP_SIZE : Z := 24.
Definition RT_Object_Class_MemHeap : Z := 7.

(** The offset of [free_header] in the control block. *)
Definition free_header : Z := 48.

Definition RT_MEMHEAP_IS_USED (i : Z) : P bool :=
  gets (fun s => negb (Z.land (mh_magic s i) RT_MEMHEAP_USED =? 0)).
Definition MEMITEM_SIZE (item : Z) : P Z := gets (fun s => u32 (next (mh_phys s) item - item - RT_MEMHEAP_SIZE)).

(** Reads and writes of one field of a header. *)
Definition get_next (i : Z) : P Z := gets (fun s => next (mh_phys s) i).
Definition get_prev (i : Z) : P Z := gets (fun s => prev (mh_phys s) i).
Definition get_next_free (i : Z) : P Z := gets (fun s => next (mh_free s) i).
Definition get_prev_free (i : Z) : P Z := gets (fun s => prev (mh_free s) i).
Definition put_next (i v : Z) : P unit := modify (fun s => set_mh_phys (set_next i v (mh_phys s)) s).
Definition put_prev (i v : Z) : P unit := modify (fun s => set_mh_phys (set_prev i v (mh_phys s)) s).
Definition put_next_free (i v : Z) : P unit := modify (fun s => set_mh_free (set_next i v (mh_free s)) s).
Definition put_prev_free (i v : Z) : P unit := modify (fun s => set_mh_free (set_prev i v (mh_free s)) s).
Definition put_magic (i v : Z) : P unit := modify (fun s => set_mh_magic (fupd i v (mh_magic s)) s).
Definition put_pool (i v : Z) : P unit := modify (fun s => set_mh_pool (fupd i v (mh_pool s)) s).

(** [i->next_free->prev_free = i->prev_free; i->prev_free->next_free = i->next_free] *)
Definition unlink_free (i : Z) : P unit :=
  n ← get_next_free i; p ← get_prev_free i; put_prev_free n p;;
  p ← get_prev_free i; n ← get_next_free i; put_next_free p n.

(** The block becomes the first of the free list. *)
Definition push_free (i : Z) : P unit :=
  fl ← gets mh_free_list;
  n ← get_next_free fl; put_next_free i n;;
  put_prev_free i fl;;
  n ← get_next_free fl; put_prev_free n i;;
  put_next_free fl i.

(** The new header [i] behind [x]. *)
Definition insert_next (x i : Z) : P unit :=
  put_prev i x;;
  n ← get_next x; put_next i n;;
  n ← get_next x; put_prev n i;;
  put_next x i.

(** A new header of a free block *)
Definition free_item (i : Z) : P unit :=
  self ← gets mh_self;
  put_magic i (Z.lor RT_MEMHEAP_MAGIC RT_MEMHEAP_FREED);;
  put_pool i self.

Definition _remove_next_ptr (next_ptr : Z) : P unit :=
  n ← get_next_free next_ptr; p ← get_prev_free next_ptr; put_prev_free n p;;
  p ← get_prev_free next_ptr; n ← get_next_free next_ptr; put_next_free p n;;
  n ← get_next next_ptr; p ← get_prev next_ptr; put_prev n p;;
  p ← get_prev next_ptr; n ← get_next next_ptr; put_next p n.

(** [available_size -= n], and the new maximum of [pool_size - available_size] *)
Definition consume (n : Z) : P unit :=
  modify (fun s => set_mh_available (u32 (mh_available s - n)) s);;
  modify (fun s => if mh_max_used s <? u32 (mh_pool_size s - mh_available s)
                   then set_mh_max_used (u32 (mh_pool_size s - mh_available s)) s else s).
Definition give_back (n : Z) : P unit := modify (fun s => set_mh_available (u32 (mh_available s + n)) s).

(** * Initialisation *)

(** [self] is the address of the control block, [mem] its contents and those of the
    region before the call. *)
Definition rt_memheap_init (self start_addr size : Z) (mem : memheap) : option (Z * memheap) :=
  (modify (fun s => set_mh_self self (set_mh_type (Z.lor RT_Object_Class_MemHeap RT_Object_Class_Static) s));;
   modify (set_mh_start start_addr);;
   modify (set_mh_pool_size (RT_ALIGN_DOWN size RT_ALIGN_SIZE));;
   modify (fun s => set_mh_available (u32 (mh_pool_size s - 2 * RT_MEMHEAP_SIZE)) s);;
   modify (fun s => set_mh_max_used (u32 (mh_pool_size s - mh_available s)) s);;
   let item := self + free_header in
   free_item item;;
   put_next item 0;; put_prev item 0;;
   put_next_free item item;; put_prev_free item item;;
   modify (set_mh_free_list item);;
   let item := start_addr in
   free_item item;;
   put_next item 0;; put_prev item 0;;
   put_next_free item item;; put_prev_free item item;;
   avail ← gets mh_available;
   put_next item (u32 (item + avail + RT_MEMHEAP_SIZE));;
   n ← get_next item; put_prev item n;;
   modify (set_mh_block_list item);;
   push_free item;;
   item ← get_next item;
   put_magic item (Z.lor RT_MEMHEAP_MAGIC RT_MEMHEAP_USED);;
   put_pool item self;;
   put_next item start_addr;; put_prev item start_addr;;
   put_prev_free item 0;; put_next_free item 0;;
   modify (set_mh_lock 1);;
   modify (set_mh_locked false);;
   mret RT_EOK) mem.

(** The object checks, and the lock. *)
Definition memheap_checked : P unit :=
  ty ← gets mh_type;
  RT_ASSERT (Z.land ty (Z.lnot RT_Object_Class_Static) =? RT_Object_Class_MemHeap).

Definition rt_memheap_detach : P Z :=
  memheap_checked;;
  ty ← gets mh_type;
  RT_ASSERT (negb (Z.land ty RT_Object_Class_Static =? 0));;
  modify (set_mh_type 0);;
  mret RT_EOK.

Section operations.
Variable wait : memheap -> Z * memheap.

(** [rt_sem_take(&heap->lock, RT_WAITING_FOREVER)] *)
Definition lock_take : P Z :=
  v ← gets mh_lock;
  if 0 <? v then modify (set_mh_lock (v - 1));; mret RT_EOK else fun s => Some (wait s).

(** Take the lock, unless the caller holds it; on failure the error number is set. *)
Definition heap_lock : P bool :=
  locked ← gets mh_locked;
  if (locked : bool) then mret true
  else
    result ← lock_take;
    if negb (result =? RT_EOK) then modify (set_mh_errno result);; mret false else mret true.

(** [rt_sem_release] of the lock by its holder, when no other thread waits for it.  With a
    waiter the count stays and the waiter holds the lock when it runs. *)
Definition heap_unlock : P unit :=
  locked ← gets mh_locked;
  if (locked : bool) then mret tt else modify (fun s => set_mh_lock (u16 (mh_lock s + 1)) s).

(** The walk along the free list: the header and the size it ends with. *)
Fixpoint memheap_search (fuel : nat) (header_ptr free_size size : Z) : P (Z * Z) :=
  fl ← gets mh_free_list;
  if negb (header_ptr =? fl) && (free_size <? size) then
    match fuel with
    | O => deref None
    | S fuel =>
        free_size ← MEMITEM_SIZE header_ptr;
        header_ptr ← (if free_size <? size then get_next_free header_ptr else mret header_ptr);
        memheap_search fuel header_ptr free_size size
    end
  else mret (header_ptr, free_size).

(** The fuel of the walk: more than the headers that fit into the region. *)
Definition search_fuel (s : memheap) : nat := Z.to_nat (mh_pool_size s / RT_MEMHEAP_SIZE) + 2.

(** The block found is cut in two or used as a whole. *)
Definition memheap_carve (header_ptr free_size size : Z) : P unit :=
  (if u32 (size + RT_MEMHEAP_SIZE + RT_MEMHEAP_MINIALLOC) <=? free_size then
     let new_ptr := u32 (header_ptr + size + RT_MEMHEAP_SIZE) in
     free_item new_ptr;;
     insert_next header_ptr new_ptr;;
     unlink_free header_ptr;;
     put_next_free header_ptr 0;; put_prev_free header_ptr 0;;
     push_free new_ptr;;
     consume (size + RT_MEMHEAP_SIZE)
   else
     consume free_size;;
     unlink_free header_ptr;;
     put_next_free header_ptr 0;; put_prev_free header_ptr 0);;
  put_magic header_ptr (Z.lor RT_MEMHEAP_MAGIC RT_MEMHEAP_USED).

Definition rt_memheap_alloc (size : Z) : P Z :=
  memheap_checked;;
  let size := RT_ALIGN size RT_ALIGN_SIZE in
  let size := if size <? RT_MEMHEAP_MINIALLOC then RT_MEMHEAP_MINIALLOC else size in
  avail ← gets mh_available;
  if size <? avail then
    ok ← heap_lock;
    if negb ok then mret 0
    else
      s ← get;
      first ← get_next_free (mh_free_list s);
      '(header_ptr, free_size) ← memheap_search (search_fuel s) first 0 size;
      if size <=? free_size then
        memheap_carve header_ptr free_size size;;
        heap_unlock;;
        mret (u32 (header_ptr + RT_MEMHEAP_SIZE))
      else heap_unlock;; mret 0
  else mret 0.

(** A block that becomes free is merged with a free block before it; the result is the
    header that remains, and whether it has to be put into the free list. *)
Definition merge_left (header_ptr : Z) : P (Z * bool) :=
  p ← get_prev header_ptr;
  pused ← RT_MEMHEAP_IS_USED p;
  if negb pused then
    give_back RT_MEMHEAP_SIZE;;
    p ← get_prev header_ptr; n ← get_next header_ptr; put_next p n;;
    n ← get_next header_ptr; p ← get_prev header_ptr; put_prev n p;;
    p ← get_prev header_ptr;
    mret (p, false)
  else mret (header_ptr, true).

(** It is merged with a free block behind it, which leaves the free list. *)
Definition merge_right (header_ptr : Z) : P unit :=
  n ← get_next header_ptr;
  nused ← RT_MEMHEAP_IS_USED n;
  if negb nused then
    give_back RT_MEMHEAP_SIZE;;
    new_ptr ← get_next header_ptr;
    nn ← get_next new_ptr; put_prev nn header_ptr;;
    nn ← get_next new_ptr; put_next header_ptr nn;;
    unlink_free new_ptr
  else mret tt.

(** It becomes the first of the free list. *)
Definition insert_header_free (header_ptr : Z) : P unit :=
  fl ← gets mh_free_list;
  n ← get_next_free fl;
  put_next_free header_ptr n;;
  p ← get_prev_free n; put_prev_free header_ptr p;;
  p ← get_prev_free n; put_next_free p header_ptr;;
  put_prev_free n header_ptr.

(** What [rt_memheap_free] does under the lock. *)
Definition free_body (header_ptr : Z) : P unit :=
  put_magic header_ptr (Z.lor RT_MEMHEAP_MAGIC RT_MEMHEAP_FREED);;
  n ← MEMITEM_SIZE header_ptr; give_back n;;
  '(header_ptr, insert_header) ← merge_left header_ptr;
  merge_right header_ptr;;
  if (insert_header : bool) then insert_header_free header_ptr else mret tt.

Definition rt_memheap_free (ptr : Z) : P unit :=
  if ptr =? 0 then mret tt
  else
    let header_ptr := u32 (ptr - RT_MEMHEAP_SIZE) in
    magic ← gets (fun s => mh_magic s header_ptr);
    n ← get_next header_ptr;
    nmagic ← gets (fun s => mh_magic s n);
    RT_ASSERT (magic =? Z.lor RT_MEMHEAP_MAGIC RT_MEMHEAP_USED);;
    RT_ASSERT (Z.land nmagic RT_MEMHEAP_MASK =? RT_MEMHEAP_MAGIC);;
    heap ← gets (fun s => mh_pool s header_ptr);
    RT_ASSERT (negb (heap =? 0));;
    memheap_checked;;
    ok ← heap_lock;
    if negb ok then mret tt
    else
      free_body header_ptr;;
      heap_unlock.

(** The effect of [rt_memcpy] on two ranges that do not overlap (KString.v). *)
Definition heap_copy (dst src n : Z) : P unit :=
  modify (fun s => set_mh_data (fun a => if (dst <=? a) && (a <? dst + n) then mh_data s (src + (a - dst))
                                         else mh_data s a) s).

(** A block is made smaller: the end of it becomes free, together with a free block
    behind it. *)
Definition shrink_body (header_ptr newsize : Z) : P unit :=
  let new_ptr := u32 (header_ptr + newsize + RT_MEMHEAP_SIZE) in
  free_item new_ptr;;
  insert_next header_ptr new_ptr;;
  free_ptr ← get_next new_ptr;
  fused ← RT_MEMHEAP_IS_USED free_ptr;
  (if negb fused then
     n ← MEMITEM_SIZE free_ptr;
     modify (fun s => set_mh_available (u32 (mh_available s - n)) s);;
     nn ← get_next free_ptr; put_prev nn new_ptr;;
     nn ← get_next free_ptr; put_next new_ptr nn;;
     unlink_free free_ptr
   else mret tt);;
  push_free new_ptr;;
  n ← MEMITEM_SIZE new_ptr; give_back n.

Definition memheap_shrink (ptr header_ptr newsize : Z) : P Z :=
  ok ← heap_lock;
  if negb ok then mret 0
  else shrink_body header_ptr newsize;; heap_unlock;; mret ptr.

(** The part that makes a block larger in place, into the free block behind it, when that
    leaves a free block; the result says whether it was extended. *)
Definition memheap_extend (ptr header_ptr oldsize newsize : Z) : P bool :=
  next_ptr ← get_next header_ptr;
  RT_ASSERT (header_ptr <? next_ptr);;
  used ← RT_MEMHEAP_IS_USED next_ptr;
  if negb used then
    n ← MEMITEM_SIZE next_ptr;
    let nextsize := i32 n in
    RT_ASSERT (0 <? next_ptr);;
    if u32 (newsize + RT_MEMHEAP_MINIALLOC) <? u32 (nextsize + oldsize) then
      consume (newsize - oldsize);;
      _remove_next_ptr next_ptr;;
      let next_ptr := u32 (ptr + newsize) in
      free_item next_ptr;;
      insert_next header_ptr next_ptr;;
      push_free next_ptr;;
      mret true
    else mret false
  else mret false.

Definition rt_memheap_realloc (ptr newsize : Z) : P Z :=
  memheap_checked;;
  if newsize =? 0 then rt_memheap_free ptr;; mret 0
  else
    let newsize := RT_ALIGN newsize RT_ALIGN_SIZE in
    let newsize := if newsize <? RT_MEMHEAP_MINIALLOC then RT_MEMHEAP_MINIALLOC else newsize in
    if ptr =? 0 then rt_memheap_alloc newsize
    else
      let header_ptr := u32 (ptr - RT_MEMHEAP_SIZE) in
      oldsize ← MEMITEM_SIZE header_ptr;
      if oldsize <? newsize then
        ok ← heap_lock;
        if negb ok then mret 0
        else
          extended ← memheap_extend ptr header_ptr oldsize newsize;
          heap_unlock;;
          if (extended : bool) then mret ptr
          else
            new_ptr ← rt_memheap_alloc newsize;
            (if negb (new_ptr =? 0) then
               heap_copy new_ptr ptr (if oldsize <? newsize then oldsize else newsize);;
               rt_memheap_free ptr
             else mret tt);;
            mret new_ptr
      else if oldsize <=? u32 (newsize + RT_MEMHEAP_SIZE + RT_MEMHEAP_MINIALLOC) then mret ptr
      else memheap_shrink ptr header_ptr newsize.
End operations.
