(* ===== verification/MemHeapInv.v ===== *)
(** The memory heap of src/memheap.c: its invariant, and what the steps of the operations
    do to the lists of headers. *)
From S2P Require Import Prelude KState Object DList MemHeap Blocks.
#[local] Open Scope Z_scope.

(** * Blocks and addresses *)

(** The addresses of the headers of the blocks from address [o] on, and of the free ones. *)
Fixpoint addrs (o : Z) (l : list block) : list Z :=
  match l with [] => [] | (n, _) :: l => o :: addrs (o + n) l end.

Fixpoint free_addrs (o : Z) (l : list block) : list Z :=
  match l with
  | [] => []
  | (n, u) :: l => if u then free_addrs (o + n) l else o :: free_addrs (o + n) l
  end.

(** The bytes in free blocks, without headers. *)
Fixpoint free_sum (l : list block) : Z :=
  match l with [] => 0 | (n, u) :: l => (if u then 0 else n - RT_MEMHEAP_SIZE) + free_sum l end.

Definition tag (u : bool) : Z :=
  Z.lor RT_MEMHEAP_MAGIC (if u then RT_MEMHEAP_USED else RT_MEMHEAP_FREED).

(** The magic numbers and pool pointers of the headers. *)
Fixpoint tags (mg pl : Z -> Z) (self o : Z) (l : list block) : Prop :=
  match l with
  | [] => True
  | (n, u) :: l => (mg o = tag u /\ pl o = self) /\ tags mg pl self (o + n) l
  end.

Lemma addrs_app o l1 l2 : addrs o (l1 ++ l2) = addrs o l1 ++ addrs (o + total l1) l2.
Proof.
  revert o. induction l1 as [|[n u] l1 IH]; intros o; simpl; [by rewrite Z.add_0_r|]. rewrite IH. do 3 f_equal. lia.
Qed.

Lemma free_addrs_app o l1 l2 : free_addrs o (l1 ++ l2) = free_addrs o l1 ++ free_addrs (o + total l1) l2.
Proof.
  revert o. induction l1 as [|[n []] l1 IH]; intros o; simpl; [by rewrite Z.add_0_r|..]; rewrite IH, Z.add_assoc; done.
Qed.

Lemma free_sum_app l1 l2 : free_sum (l1 ++ l2) = free_sum l1 + free_sum l2.
Proof. induction l1 as [|[n u] l1 IH]; simpl; [done|]. rewrite IH. lia. Qed.

Lemma free_sum_range l : wf l -> 0 <= free_sum l <= total l.
Proof. unfold RT_MEMHEAP_SIZE. induction 1 as [|[n u] l [Hn _] _ IH]; simpl in *; [lia|]. unfold RT_MEMHEAP_SIZE. destruct u; lia. Qed.

Lemma tags_app mg pl self o l1 l2 :
  tags mg pl self o (l1 ++ l2) <-> tags mg pl self o l1 /\ tags mg pl self (o + total l1) l2.
Proof.
  revert o. induction l1 as [|[n u] l1 IH]; intros o; simpl; [rewrite Z.add_0_r; tauto|].
  rewrite IH, Z.add_assoc. tauto.
Qed.

Lemma tags_frame mg pl mg' pl' self o l :
  wf l -> (forall a, o <= a < o + total l -> mg' a = mg a /\ pl' a = pl a) ->
  tags mg pl self o l -> tags mg' pl' self o l.
Proof.
  intros Hw. revert o. induction Hw as [|[n u] l [Hn _] Hl IH]; intros o He; simpl in *; [done|].
  pose proof (total_nonneg _ Hl). destruct (He o ltac:(lia)) as [-> ->]. intros [? ?]. split; [done|].
  apply IH; [|done]. intros a Ha. apply He. lia.
Qed.

Lemma addrs_range o l a : wf l -> a ∈ addrs o l -> o <= a < o + total l.
Proof.
  intros Hw. revert o. induction Hw as [|[n u] l [Hn _] Hl IH]; intros o; simpl in *; [by intros ?%elem_of_nil|].
  pose proof (total_nonneg _ Hl). intros [->|Hin]%elem_of_cons; [lia|]. apply IH in Hin. lia.
Qed.

Lemma free_addrs_sub o l a : a ∈ free_addrs o l -> a ∈ addrs o l.
Proof.
  revert o. induction l as [|[n []] l IH]; intros o; simpl; [done|..]; intros H; [right; auto|].
  apply elem_of_cons in H as [->|H]; [left|right; auto].
Qed.

Lemma free_addrs_NoDup o l : wf l -> NoDup (free_addrs o l).
Proof.
  intros Hw. revert o. induction Hw as [|[n []] l [Hn _] Hl IH]; intros o; simpl; [constructor|done|].
  constructor; [|done]. intros Hin%free_addrs_sub%addrs_range; [|done]. simpl in *. lia.
Qed.

(** A free address is that of a free block. *)
Lemma free_addrs_split o l a : a ∈ free_addrs o l -> exists l1 n l2, l = l1 ++ (n, false) :: l2 /\ a = o + total l1.
Proof.
  revert o. induction l as [|[n u] l IH]; intros o; simpl; [by intros ?%elem_of_nil|].
  assert (G : a ∈ free_addrs (o + n) l -> exists l1 m l2, (n, u) :: l = l1 ++ (m, false) :: l2 /\ a = o + total l1).
  { intros (l1 & m & l2 & -> & ->)%IH. exists ((n, u) :: l1), m, l2. split; [done|]. simpl. lia. }
  destruct u; [done|]. intros [->|H]%elem_of_cons; [|auto]. exists [], n, l. split; [done|]. simpl. lia.
Qed.

Lemma addrs_length o l : wf l -> 24 * Z.of_nat (length (addrs o l)) <= total l.
Proof.
  intros Hw. revert o. induction Hw as [|[n u] l [Hn _] _ IH]; intros o; simpl in *; [lia|]. specialize (IH (o + n)). lia.
Qed.

(** * The invariant *)

Record heap_rep (l : list block) (fl : list Z) (s : memheap) : Prop := {
  hr_wf : wf l;
  hr_start : 0 < mh_start s /\ mh_start s + total l + RT_MEMHEAP_SIZE < 2 ^ 32;
  hr_size : mh_pool_size s = total l + RT_MEMHEAP_SIZE;
  hr_type : mh_type s = Z.lor RT_Object_Class_MemHeap RT_Object_Class_Static;
  hr_self : mh_self s <> 0;
  hr_header : ~ mh_start s <= mh_free_list s <= mh_start s + total l;
  hr_phys : dlist (mh_phys s) (mh_start s + total l) (addrs (mh_start s) l);
  hr_tags : tags (mh_magic s) (mh_pool s) (mh_self s) (mh_start s) l;
  hr_end : mh_magic s (mh_start s + total l) = tag true;
  hr_free : dlist (mh_free s) (mh_free_list s) fl;
  hr_avail : mh_available s = free_sum l
}.

(** The free list holds exactly the free blocks, and no two of these are neighbours. *)
Definition heap_inv (l : list block) (fl : list Z) (s : memheap) : Prop :=
  heap_rep l fl s /\ fl ≡ₚ free_addrs (mh_start s) l /\ coalesced l.

(** The lock is free, or the caller holds it. *)
Definition lock_ok (s : memheap) : Prop := mh_locked s = true \/ mh_lock s = 1.

(** What no operation changes. *)
Definition same_heap (s s' : memheap) : Prop :=
  mh_self s' = mh_self s /\ mh_type s' = mh_type s /\ mh_start s' = mh_start s /\
  mh_pool_size s' = mh_pool_size s /\ mh_free_list s' = mh_free_list s /\
  mh_locked s' = mh_locked s /\ mh_lock s' = mh_lock s /\ mh_data s' = mh_data s.

(** ** Neighbours *)

Section neighbours.
Context (h : nodes Z) (o : Z) (l1 : list block) (n : Z) (u : bool) (l2 : list block).
Let l : list block := l1 ++ (n, u) :: l2.
Hypothesis Hd : dlist h (o + total l) (addrs o l).

Lemma neighbour_next : next h (o + total l1) = o + total l1 + n /\ prev h (o + total l1 + n) = o + total l1.
Proof using Hd.
  destruct Hd as [_ Hl]. unfold l in Hl. rewrite addrs_app, total_app, <- app_assoc in Hl. cbn [addrs total app fst] in Hl.
  apply links_app in Hl as [_ Hl]. destruct l2 as [|[m w] l3]; cbn [addrs app links] in Hl.
  - destruct Hl as (E1 & E2 & _). simpl in E1, E2. rewrite Z.add_0_r, Z.add_assoc in E1, E2. done.
  - destruct Hl as (E1 & E2 & _). done.
Qed.

Lemma neighbour_prev_last l1' m w : l1 = l1' ++ [(m, w)] -> prev h (o + total l1) = o + total l1'.
Proof using Hd.
  intros ->. destruct Hd as [_ Hl]. unfold l in Hl. rewrite <- app_assoc, addrs_app, <- app_assoc in Hl.
  cbn [addrs app] in Hl. apply links_app in Hl as [_ Hl]. destruct Hl as (E1 & E2 & _).
  rewrite total_app. simpl. by rewrite Z.add_0_r, Z.add_assoc.
Qed.

Lemma neighbour_prev_first : l1 = [] -> prev h o = o + total l.
Proof using Hd.
  intros ->. destruct Hd as [_ Hl]. unfold l in *. cbn [app addrs total] in *. by destruct Hl as (_ & E & _).
Qed.
End neighbours.

(** ** Headers that come and go *)

Lemma addrs_split o l1 n u l2 k v w :
  addrs o (l1 ++ (k, v) :: (n - k, w) :: l2) = addrs o l1 ++ (o + total l1) :: (o + total l1 + k) :: addrs (o + total l1 + n) l2 /\
  addrs o (l1 ++ (n, u) :: l2) = addrs o l1 ++ (o + total l1) :: addrs (o + total l1 + n) l2.
Proof. rewrite !addrs_app. cbn [addrs]. split; [|done]. do 4 f_equal. lia. Qed.

(** A new header inside a block *)
Lemma phys_split h o l1 n u l2 k v w :
  wf (l1 ++ (n, u) :: l2) -> 0 < k < n ->
  dlist h (o + total (l1 ++ (n, u) :: l2)) (addrs o (l1 ++ (n, u) :: l2)) ->
  dlist (rt_list_insert_after (o + total l1) (o + total l1 + k) h) (o + total (l1 ++ (n, u) :: l2))
    (addrs o (l1 ++ (k, v) :: (n - k, w) :: l2)).
Proof.
  intros Hw Hk. destruct (addrs_split o l1 n u l2 k v w) as [-> E]. rewrite E.
  apply wf_app in Hw as [W1 [[Hn _] W2]%wf_cons].
  intros H. apply insert_mid_dlist; [done|]. rewrite total_app. cbn [total fst].
  pose proof (total_nonneg _ W1). pose proof (total_nonneg _ W2).
  rewrite not_elem_of_cons, not_elem_of_app, not_elem_of_cons. split_and!; [lia| |lia|].
  - intros Hin%addrs_range; [lia|done].
  - intros Hin%addrs_range; [lia|done].
Qed.

(** A header removed: two blocks become one. *)
Lemma phys_merge h o l1 n1 u1 n2 u2 l2 u E :
  dlist h E (addrs o (l1 ++ (n1, u1) :: (n2, u2) :: l2)) ->
  dlist (unlink (o + total l1 + n1) h) E (addrs o (l1 ++ (n1 + n2, u) :: l2)).
Proof.
  rewrite !addrs_app. cbn [addrs]. intros H.
  change (addrs o l1 ++ o + total l1 :: o + total l1 + n1 :: addrs (o + total l1 + n1 + n2) l2)
    with (addrs o l1 ++ [o + total l1] ++ o + total l1 + n1 :: addrs (o + total l1 + n1 + n2) l2) in H.
  rewrite app_assoc in H. apply unlink_dlist in H. rewrite <- app_assoc in H.
  by rewrite Z.add_assoc.
Qed.

(** * The steps *)

Lemma same_heap_refl s : same_heap s s.
Proof. by repeat split. Qed.

Section steps.
Implicit Types s : memheap.

Lemma unlink_free_wp i Q s :
  Q tt (set_mh_free (unlink i (mh_free s)) s) -> wp (unlink_free i) Q s.
Proof. intros HQ. unfold unlink_free, get_next_free, get_prev_free, put_prev_free, put_next_free. by repeat wp_step. Qed.

Lemma push_free_dlist (h : nodes Z) fl i l :
  dlist h fl l -> i ∉ fl :: l ->
  dlist (set_next fl i (set_prev (next (set_prev i fl (set_next i (next h fl) h)) fl) i
    (set_prev i fl (set_next i (next h fl) h)))) fl (i :: l).
Proof.
  intros H Hi. eapply dlist_ext; [by apply (insert_after_dlist h fl l i)|].
  assert (next h fl <> i) by (destruct (dlist_next _ _ _ H) as [Hn _]; set_solver).
  apply not_elem_of_cons in Hi as [Hi _].
  unfold rt_list_insert_after. split; intros z; ptr.
Qed.

Lemma push_free_wp fh i l Q s :
  mh_free_list s = fh -> dlist (mh_free s) (fh) l -> i ∉ fh :: l ->
  (forall h, dlist h (fh) (i :: l) -> Q tt (set_mh_free h s)) -> wp (push_free i) Q s.
Proof.
  intros <- H Hi HQ. unfold push_free, get_next_free, put_next_free, put_prev_free. repeat wp_step.
  apply HQ. by apply push_free_dlist.
Qed.

Lemma unlink_free_list_wp fh i l1 l2 Q s :
  dlist (mh_free s) (fh) (l1 ++ i :: l2) ->
  (forall h, dlist h (fh) (l1 ++ l2) -> Q tt (set_mh_free h s)) -> wp (unlink_free i) Q s.
Proof.
  intros H HQ. apply unlink_free_wp, HQ. by apply unlink_dlist.
Qed.

Lemma insert_next_same (h : nodes Z) x i :
  x <> i -> next h x <> i ->
  same_nodes (rt_list_insert_after x i h)
    (set_next x i (set_prev (next (set_next i (next (set_prev i x h) x) (set_prev i x h)) x) i
       (set_next i (next (set_prev i x h) x) (set_prev i x h)))).
Proof. intros H1 H2. unfold rt_list_insert_after. split; intros z; ptr. Qed.

Lemma insert_next_wp o x y l1 n u l2 k v w Q s :
  let l := l1 ++ (n, u) :: l2 in
  wf l -> 0 < k < n -> x = o + total l1 -> y = x + k -> dlist (mh_phys s) (o + total l) (addrs o l) ->
  (forall h, dlist h (o + total l) (addrs o (l1 ++ (k, v) :: (n - k, w) :: l2)) -> Q tt (set_mh_phys h s)) ->
  wp (insert_next x y) Q s.
Proof.
  intros l Hw Hk -> -> Hd HQ. destruct (neighbour_next _ _ _ _ _ _ Hd) as [En _].
  unfold insert_next, get_next, put_next, put_prev. repeat wp_step. apply HQ.
  eapply dlist_ext; [by apply (phys_split (mh_phys s) _ l1 n u l2 k v w)|].
  apply insert_next_same; rewrite ?En; lia.
Qed.

Lemma put_free_null_wp fh i l Q s :
  dlist (mh_free s) (fh) l -> i ∉ fh :: l ->
  (forall h, dlist h (fh) l -> Q tt (set_mh_free h s)) ->
  wp (put_next_free i 0;; put_prev_free i 0) Q s.
Proof.
  intros H Hi HQ. unfold put_next_free, put_prev_free. repeat wp_step. apply HQ. simpl.
  apply dlist_not_in; [|done]. by apply dlist_not_in.
Qed.

Lemma put_free_null_then_wp fh i l (m : P unit) Q s :
  dlist (mh_free s) (fh) l -> i ∉ fh :: l ->
  (forall h, dlist h (fh) l -> wp m Q (set_mh_free h s)) ->
  wp (put_next_free i 0;; put_prev_free i 0;; m) Q s.
Proof.
  intros H Hi HQ. unfold put_next_free, put_prev_free. do 4 wp_step. apply HQ. simpl.
  apply dlist_not_in; [|done]. by apply dlist_not_in.
Qed.

Lemma free_item_wp i Q s :
  Q tt (set_mh_pool (fupd i (mh_self s) (mh_pool s)) (set_mh_magic (fupd i (tag false) (mh_magic s)) s)) ->
  wp (free_item i) Q s.
Proof. intros HQ. unfold free_item, put_magic, put_pool. by repeat wp_step. Qed.

Lemma consume_wp d Q s : 0 <= d <= mh_available s -> mh_available s < 2 ^ 32 ->
  (forall m, Q tt (set_mh_max_used m (set_mh_available (mh_available s - d) s))) -> wp (consume d) Q s.
Proof.
  intros Hd Ha HQ. unfold consume. repeat wp_step. rewrite u32_id by (simpl in *; lia).
  case_match; [apply HQ|]. specialize (HQ (mh_max_used s)). by destruct s.
Qed.

Lemma give_back_wp d Q s : 0 <= mh_available s + d < 2 ^ 32 ->
  Q tt (set_mh_available (mh_available s + d) s) -> wp (give_back d) Q s.
Proof. intros Hd HQ. unfold give_back. wp_step. by rewrite u32_id. Qed.

(** ** The lock *)

(** The heap while the caller holds the lock. *)
Definition held s : memheap := if mh_locked s then s else set_mh_lock 0 s.

Lemma heap_lock_wp wait Q s : lock_ok s -> Q true (held s) -> wp (heap_lock wait) Q s.
Proof.
  intros Hl HQ. unfold heap_lock, lock_take, held in *. wp_step. wp_step. destruct (mh_locked s) eqn:E; [by wp_step|].
  destruct Hl as [?|El]; [congruence|]. do 3 wp_step. rewrite El. simpl. by repeat wp_step.
Qed.

Lemma heap_unlock_wp Q s : lock_ok s -> forall s1, mh_locked s1 = mh_locked s -> mh_lock s1 = mh_lock (held s) ->
  Q tt (set_mh_lock (mh_lock s) s1) -> wp heap_unlock Q s1.
Proof.
  intros Hl s1 E1 E2 HQ. unfold heap_unlock, held in *. wp_step. wp_step. rewrite E1.
  destruct (mh_locked s) eqn:E.
  - wp_step. rewrite <- E2 in HQ. by destruct s1.
  - destruct Hl as [?|El]; [congruence|]. wp_step. rewrite E2. simpl. by rewrite El in HQ.
Qed.

Lemma heap_rep_lock l fl s v : heap_rep l fl s -> heap_rep l fl (set_mh_lock v s).
Proof. by intros []; constructor. Qed.

Lemma heap_rep_held l fl s : heap_rep l fl s -> heap_rep l fl (held s).
Proof. intros H. unfold held. case_match; [done|by apply heap_rep_lock]. Qed.

Lemma held_start s : mh_start (held s) = mh_start s.
Proof. unfold held. by case_match. Qed.

Lemma held_release s : set_mh_lock (mh_lock s) (held s) = s.
Proof. unfold held. by destruct s as [? ? ? ? ? ? ? ? ? []]. Qed.

(** What is done under the lock leaves everything else as it is. *)
Lemma held_same s s1 : same_heap (held s) s1 ->
  mh_locked s1 = mh_locked s /\ mh_lock s1 = mh_lock (held s) /\ same_heap s (set_mh_lock (mh_lock s) s1).
Proof.
  intros (E1 & E2 & E3 & E4 & E5 & E6 & E7 & E8). rewrite E7. unfold same_heap. simpl.
  rewrite E1, E2, E3, E4, E5, E6, E8. unfold held. by case_match.
Qed.

(** ** Magic numbers *)

Lemma tags_update mg pl mg' pl' self o l1 mid0 l2 mid :
  wf (l1 ++ mid0 ++ l2) -> tags mg pl self o (l1 ++ mid0 ++ l2) ->
  total mid = total mid0 -> tags mg' pl' self (o + total l1) mid ->
  (forall a, ~ o + total l1 <= a < o + total l1 + total mid0 -> mg' a = mg a /\ pl' a = pl a) ->
  tags mg' pl' self o (l1 ++ mid ++ l2).
Proof.
  intros [W1 [Wm W2]%wf_app]%wf_app [T1 [_ T2]%tags_app]%tags_app Em Tm He. pose proof (total_nonneg _ Wm).
  rewrite !tags_app. split_and!; [|done|].
  - eapply tags_frame; [done| |exact T1]. intros a Ha. apply He. lia.
  - rewrite Em. eapply tags_frame; [done| |exact T2]. intros a Ha. apply He. lia.
Qed.

(** A step that replaces some blocks by others over the same bytes. *)
Lemma heap_rep_update l1 mid0 mid l2 fl fl' s s' :
  heap_rep (l1 ++ mid0 ++ l2) fl s -> wf mid -> total mid = total mid0 ->
  (mh_self s' = mh_self s /\ mh_type s' = mh_type s /\ mh_start s' = mh_start s /\
   mh_pool_size s' = mh_pool_size s /\ mh_free_list s' = mh_free_list s) ->
  dlist (mh_phys s') (mh_start s + total (l1 ++ mid0 ++ l2)) (addrs (mh_start s) (l1 ++ mid ++ l2)) ->
  tags (mh_magic s') (mh_pool s') (mh_self s) (mh_start s + total l1) mid ->
  (forall a, ~ mh_start s + total l1 <= a < mh_start s + total l1 + total mid0 ->
     mh_magic s' a = mh_magic s a /\ mh_pool s' a = mh_pool s a) ->
  dlist (mh_free s') (mh_free_list s) fl' ->
  mh_available s' = mh_available s - free_sum mid0 + free_sum mid ->
  heap_rep (l1 ++ mid ++ l2) fl' s'.
Proof.
  intros [] Wm Et (E1 & E2 & E3 & E4 & E5) Hp Ht Hm Hf Ha.
  assert (El : total (l1 ++ mid ++ l2) = total (l1 ++ mid0 ++ l2)) by (rewrite !total_app; lia).
  pose proof hr_wf0 as [W1 [Wm0 W2]%wf_app]%wf_app. pose proof (total_nonneg _ W2).
  constructor; rewrite ?E1, ?E2, ?E3, ?E4, ?E5, ?El; try done.
  - rewrite !wf_app. done.
  - by eapply tags_update.
  - destruct (Hm (mh_start s + total (l1 ++ mid0 ++ l2))) as [-> _]; [rewrite !total_app; lia|done].
  - rewrite Ha, hr_avail0, !free_sum_app. lia.
Qed.
End steps.
