(* ===== verification/MemHeapInit.v ===== *)
(** The memory heap of src/memheap.c: a heap after [rt_memheap_init]. *)
From S2P Require Import Prelude KState Object DList MemHeap Blocks MemHeapInv.
#[local] Open Scope Z_scope.

(** The state right after initialisation of a region of [sz] bytes, as far as it matters. *)
Definition fresh_heap (self start_addr sz : Z) (mem s' : memheap) : Prop :=
  heap_inv [(sz - RT_MEMHEAP_SIZE, false)] [start_addr] s' /\ mh_lock s' = 1 /\ mh_locked s' = false /\
  mh_self s' = self /\ mh_start s' = start_addr /\ mh_data s' = mh_data mem.

Section init.
Context (self start_addr size : Z).
Let sz : Z := size - size mod 8.
Hypothesis Hself : self <> 0.
Hypothesis Hstart : 0 < start_addr.
Hypothesis Hsize : 0 <= size < 2 ^ 32 /\ 2 * RT_MEMHEAP_SIZE <= sz.
Hypothesis Hend : start_addr + sz < 2 ^ 32.
Hypothesis Hheader : ~ start_addr <= self + free_header <= start_addr + sz - RT_MEMHEAP_SIZE.

Lemma memheap_init_wp mem :
  wp (rt_memheap_init self start_addr size) (fun r s' => r = RT_EOK /\ fresh_heap self start_addr sz mem s') mem.
Proof using All.
  set (hd := self + free_header) in *. set (e := start_addr + (sz - 24)). unfold RT_MEMHEAP_SIZE, RT_ALIGN_SIZE in *.
  assert (N : e <> start_addr /\ hd <> start_addr /\ hd <> e) by lia.
  remember (fun r s' => r = RT_EOK /\ fresh_heap self start_addr sz mem s') as Q eqn:EQ.
  unfold wp. destruct mem as [m1 m2 m3 m4 m5 m6 m7 m8 m9 m10 m11 mg pl ph fr dat].
  lazy -[fupd RT_ALIGN_DOWN u32 Z.lor Z.add Z.sub Z.mul free_header RT_MEMHEAP_MAGIC RT_MEMHEAP_SIZE RT_ALIGN_SIZE Z.ltb RT_EOK].
  unfold RT_MEMHEAP_SIZE, RT_ALIGN_SIZE. rewrite RT_ALIGN_DOWN_8. fold sz hd.
  rewrite (u32_id (sz - 2 * 24)), (u32_id (start_addr + (sz - 2 * 24) + 24)) by lia.
  replace (start_addr + (sz - 2 * 24) + 24) with e by (unfold e; lia).
  repeat first [rewrite fupd_eq|rewrite fupd_ne by lia].
  rewrite EQ. split; [done|]. split; [|done]. split; [|done].
  assert (Hm : sz mod 8 = 0) by (unfold sz; Z.to_euclidean_division_equations; lia).
  constructor; cbn [total fst addrs free_sum tags mh_start mh_pool_size mh_type mh_self mh_free_list mh_phys mh_magic
    mh_pool mh_free mh_available]; unfold RT_MEMHEAP_SIZE in *; rewrite ?Z.add_0_r; fold e.
  - repeat constructor; simpl; Z.to_euclidean_division_equations; lia.
  - lia.
  - lia.
  - done.
  - done.
  - lia.
  - split; [constructor; [set_solver by lia|apply NoDup_singleton]|]. simpl.
    split_and!; try done; repeat first [rewrite fupd_eq|rewrite fupd_ne by lia]; done.
  - split; [|done]. split; repeat first [rewrite fupd_eq|rewrite fupd_ne by lia]; done.
  - by rewrite fupd_eq.
  - split; [constructor; [set_solver by lia|apply NoDup_singleton]|]. simpl.
    split_and!; try done; repeat first [rewrite fupd_eq|rewrite fupd_ne by lia]; done.
  - lia.
Qed.
End init.

(** [rt_memheap_init] of a region that holds two headers and does not contain the header
    of the free list makes one free block of the region, less the header at its end; the
    lock is free and the bytes are unchanged. *)
Lemma rt_memheap_init_ok self start_addr size mem :
  let sz := size - size mod 8 in
  self <> 0 -> 0 < start_addr -> 0 <= size < 2 ^ 32 /\ 2 * RT_MEMHEAP_SIZE <= sz -> start_addr + sz < 2 ^ 32 ->
  ~ start_addr <= self + free_header <= start_addr + sz - RT_MEMHEAP_SIZE ->
  wp (rt_memheap_init self start_addr size) (fun r s' => r = RT_EOK /\ fresh_heap self start_addr sz mem s') mem.
Proof. intros. by apply memheap_init_wp. Qed.

(** * An example heap *)

(** Memory before initialisation *)
Definition no_heap : memheap :=
  mk_memheap 0 0 0 0 0 0 0 0 0 false 0 (fun _ => 0) (fun _ => 0) (mk_nodes (fun _ => 0) (fun _ => 0))
    (mk_nodes (fun _ => 0) (fun _ => 0)) (fun a => a).

Definition run_heap {A} (m : M memheap A) (s : memheap) : memheap := match m s with Some (_, s') => s' | None => s end.

Definition demo_heap : memheap := run_heap (rt_memheap_init 1000 4096 1024) no_heap.

Lemma run_heap_wp {A} (m : M memheap A) Q s : wp m Q s -> exists a, Q a (run_heap m s).
Proof. unfold wp, run_heap. destruct (m s) as [[a s']|]; [by exists a|done]. Qed.

Lemma demo_heap_fresh : fresh_heap 1000 4096 1024 no_heap demo_heap.
Proof.
  destruct (run_heap_wp (rt_memheap_init 1000 4096 1024) (fun r s' => r = RT_EOK /\ fresh_heap 1000 4096 1024 no_heap s') no_heap)
    as (a & _ & H); [|exact H].
  apply (memheap_init_wp 1000 4096 1024); unfold RT_MEMHEAP_SIZE, free_header; (done || simpl; lia).
Qed.

Lemma rt_memheap_init_ok_witness :
  wp (rt_memheap_init 1000 4096 1024) (fun r s' => r = RT_EOK /\ fresh_heap 1000 4096 1024 no_heap s') no_heap.
Proof. apply (rt_memheap_init_ok 1000 4096 1024 no_heap); unfold RT_MEMHEAP_SIZE, free_header; (done || simpl; lia). Defined.

Lemma demo_heap_inv : heap_inv [(1000, false)] [4096] demo_heap.
Proof. apply demo_heap_fresh. Qed.

Lemma demo_heap_lock : lock_ok demo_heap.
Proof. right. apply demo_heap_fresh. Qed.

Lemma demo_heap_start : mh_start demo_heap = 4096.
Proof. apply demo_heap_fresh. Qed.
