(* ===== verification/MemHeapProp.v ===== *)
(** The memory heap of src/memheap.c: allocation and release implement the operations on
    lists of blocks. *)
From S2P Require Import Prelude KState Object DList MemHeap Blocks MemHeapInv MemHeapInit.
#[local] Open Scope Z_scope.

(** The room in the block at address [a]. *)
Fixpoint room_at (o : Z) (l : list block) (a : Z) : Z :=
  match l with
  | [] => 0
  | (n, _) :: l => if a =? o then n - RT_MEMHEAP_SIZE else room_at (o + n) l a
  end.

(** The first block of the free list with enough room. *)
Definition first_fit (o : Z) (l : list block) (size : Z) (fl : list Z) : option Z :=
  List.find (fun a => size <=? room_at o l a) fl.

(** The size a request is rounded to. *)
Definition heap_request (size : Z) : Z :=
  let size := RT_ALIGN size RT_ALIGN_SIZE in
  if size <? RT_MEMHEAP_MINIALLOC then RT_MEMHEAP_MINIALLOC else size.

(** A block of [n] bytes that serves a request is cut in two when the rest can hold a
    block. *)
Definition splits (size n : Z) : bool := size + RT_MEMHEAP_SIZE + RT_MEMHEAP_MINIALLOC <=? n - RT_MEMHEAP_SIZE.
Definition heap_carve (size n : Z) : list block :=
  if splits size n then [(size + RT_MEMHEAP_SIZE, true); (n - (size + RT_MEMHEAP_SIZE), false)] else [(n, true)].

Lemma room_at_split o l1 n u l2 : wf (l1 ++ (n, u) :: l2) ->
  room_at o (l1 ++ (n, u) :: l2) (o + total l1) = n - RT_MEMHEAP_SIZE.
Proof.
  intros [Hw _]%wf_app. revert o. induction Hw as [|[m w] l1 [Hm _] Hl1 IH]; intros o; cbn [app room_at total].
  - by rewrite Z.add_0_r, Z.eqb_refl.
  - pose proof (total_nonneg _ Hl1). simpl in *. rewrite (proj2 (Z.eqb_neq _ _)) by lia. by rewrite <- (IH (o + m)), Z.add_assoc.
Qed.

Lemma dlist_next_mid (h : nodes Z) x l1 y l2 : dlist h x (l1 ++ y :: l2) -> next h y = hd x l2.
Proof.
  intros [_ H]. rewrite <- app_assoc in H. cbn [app] in H. apply links_app in H as [_ H].
  destruct l2; simpl in *; naive_solver.
Qed.

Lemma dlist_next_head (h : nodes Z) x l : dlist h x l -> next h x = hd x l.
Proof. intros [_ H]. destruct l; simpl in *; naive_solver. Qed.

Lemma heap_request_bounds size : 0 <= size < 2 ^ 32 - 8 ->
  16 <= heap_request size /\ heap_request size mod 8 = 0 /\ size <= heap_request size /\ heap_request size < 2 ^ 32.
Proof.
  intros Hs. unfold heap_request, RT_MEMHEAP_MINIALLOC, RT_ALIGN_SIZE. destruct (RT_ALIGN_8_bounds size Hs) as [H1 H2].
  case_bool; Z.to_euclidean_division_equations; lia.
Qed.

Section search.
Context (l : list block) (fl : list Z) (s : memheap).
Hypothesis Hr : heap_rep l fl s.
Hypothesis Hfl : forall a, a ∈ fl -> a ∈ free_addrs (mh_start s) l.

Lemma item_size l1 n u l2 : l = l1 ++ (n, u) :: l2 ->
  u32 (next (mh_phys s) (mh_start s + total l1) - (mh_start s + total l1) - RT_MEMHEAP_SIZE) = n - RT_MEMHEAP_SIZE.
Proof using Hr.
  intros El. pose proof (hr_phys _ _ _ Hr) as Hp. pose proof (hr_wf _ _ _ Hr) as Hw.
  pose proof (hr_start _ _ _ Hr) as Hs. rewrite El in Hp, Hw, Hs.
  destruct (neighbour_next _ _ _ _ _ _ Hp) as [-> _].
  apply wf_app in Hw as [W1 [[Hn _] W2]%wf_cons]. rewrite total_app in Hs. cbn [total fst] in Hs.
  pose proof (total_nonneg _ W1). pose proof (total_nonneg _ W2). unfold RT_MEMHEAP_SIZE in *. rewrite u32_id; lia.
Qed.

Lemma search_wp f1 f2 fs size fuel Q :
  fl = f1 ++ f2 -> fs < size -> (length f2 < fuel)%nat ->
  match first_fit (mh_start s) l size f2 with
  | None => forall fs', fs' < size -> Q (mh_free_list s, fs') s
  | Some a => Q (a, room_at (mh_start s) l a) s
  end -> wp (memheap_search fuel (hd (mh_free_list s) f2) fs size) Q s.
Proof using Hr Hfl.
  revert f1 fs fuel. induction f2 as [|a f2 IH]; intros f1 fs fuel E Hfs Hf HQ; cbn [hd].
  { destruct fuel; cbn [memheap_search]; (wp_step; wp_step; rewrite Z.eqb_refl; simpl; wp_step; by apply HQ). }
  assert (Ha : a ∈ free_addrs (mh_start s) l) by (apply Hfl; rewrite E; set_solver).
  pose proof (hr_wf _ _ _ Hr) as Hw. pose proof (hr_header _ _ _ Hr) as Hh.
  pose proof (addrs_range _ _ _ Hw (free_addrs_sub _ _ _ Ha)) as Hra.
  destruct (free_addrs_split _ _ _ Ha) as (l1 & n & l2 & El & Ea).
  assert (Es : u32 (next (mh_phys s) a - a - RT_MEMHEAP_SIZE) = room_at (mh_start s) l a).
  { rewrite Ea, (item_size _ _ _ _ El), El, room_at_split; [done|by rewrite <- El]. }
  destruct fuel as [|fuel]; [simpl in Hf; lia|]. cbn [memheap_search]. wp_step. wp_step.
  rewrite (proj2 (Z.eqb_neq a _)), (proj2 (Z.ltb_lt fs size)) by lia. simpl.
  unfold MEMITEM_SIZE. wp_step. wp_step. rewrite Es. unfold first_fit in HQ. cbn [List.find] in HQ.
  destruct (Z.leb_spec size (room_at (mh_start s) l a)) as [Hle|Hgt].
  - rewrite (proj2 (Z.ltb_ge _ _)) by lia. do 2 wp_step.
    destruct fuel; cbn [memheap_search]; (wp_step; wp_step; rewrite (proj2 (Z.ltb_ge _ size)), andb_false_r by lia; by wp_step).
  - rewrite (proj2 (Z.ltb_lt _ _)) by lia. unfold get_next_free. wp_step. wp_step.
    pose proof (hr_free _ _ _ Hr) as Hd. rewrite E in Hd. rewrite (dlist_next_mid _ _ _ _ _ Hd).
    apply (IH (f1 ++ [a])); [by rewrite <- app_assoc|lia|simpl in Hf; lia|done].
Qed.
End search.

(** * Allocation *)

Section carve.
Context (la : list block) (n : Z) (lb : list block) (f1 f2 : list Z) (size : Z) (s : memheap).
Let x : Z := mh_start s + total la.
Let l : list block := la ++ (n, false) :: lb.
Hypothesis Hr : heap_rep l (f1 ++ x :: f2) s.
Hypothesis Hfl : forall a, a ∈ f1 ++ f2 -> a ∈ addrs (mh_start s) l.
Hypothesis Hsize : 16 <= size /\ size mod 8 = 0 /\ size <= n - RT_MEMHEAP_SIZE.

Lemma carve_bounds : wf la /\ wf lb /\ 24 <= n /\ n mod 8 = 0 /\ 0 <= total la /\ 0 <= total lb /\
  total l = total la + n + total lb /\ 0 < mh_start s /\ mh_start s + total l + RT_MEMHEAP_SIZE < 2 ^ 32.
Proof using Hr.
  clear Hsize. pose proof (hr_wf _ _ _ Hr) as Hw. pose proof (hr_start _ _ _ Hr) as [H1 H2].
  unfold l in *. apply wf_app in Hw as [W1 [[Hn Hm] W2]%wf_cons]. rewrite total_app in *. cbn [total fst] in *.
  pose proof (total_nonneg _ W1). pose proof (total_nonneg _ W2). split_and!; try done; lia.
Qed.

(** An address inside the block that is found is not the header of a block. *)
Lemma inside_fresh k : 0 < k < n -> x + k ∉ mh_free_list s :: f1 ++ f2.
Proof using Hr Hfl.
  intros Hk. destruct carve_bounds as (W1 & W2 & B). pose proof (hr_header _ _ _ Hr).
  apply not_elem_of_cons. split; [unfold x; lia|]. intros Hin%Hfl. revert Hin. unfold l. rewrite addrs_app. cbn [addrs].
  rewrite elem_of_app, elem_of_cons. unfold x in *. intros [Hin%addrs_range|[?|Hin%addrs_range]]; (done || lia).
Qed.

Lemma avail_room : 0 <= n - RT_MEMHEAP_SIZE <= mh_available s /\ mh_available s < 2 ^ 32 /\
  mh_available s = free_sum la + (n - RT_MEMHEAP_SIZE) + free_sum lb.
Proof using Hr.
  destruct carve_bounds as (W1 & W2 & B). pose proof (hr_avail _ _ _ Hr) as E. unfold l in E.
  rewrite free_sum_app in E. cbn [free_sum] in E. pose proof (free_sum_range _ W1). pose proof (free_sum_range _ W2).
  unfold RT_MEMHEAP_SIZE in *. lia.
Qed.

Lemma header_gone : x ∉ mh_free_list s :: f1 ++ f2.
Proof using Hr.
  clear Hsize Hfl. destruct (hr_free _ _ _ Hr) as [Hnd _]. rewrite (Permutation_app_comm f1 (x :: f2)) in Hnd.
  apply NoDup_cons in Hnd as [Hnd1 Hnd]. apply NoDup_cons in Hnd as [Hnd2 _].
  rewrite (Permutation_app_comm f1 f2). apply not_elem_of_cons. split; [intros E; apply Hnd1; rewrite E; left|done].
Qed.

Lemma carve_split_wp Q :
  splits size n = true ->
  (forall s', heap_rep (la ++ heap_carve size n ++ lb) ((x + size + RT_MEMHEAP_SIZE) :: f1 ++ f2) s' ->
    same_heap s s' -> Q tt s') ->
  wp (memheap_carve x (n - RT_MEMHEAP_SIZE) size) Q s.
Proof using Hr Hfl Hsize.
  intros Hsp HQ. pose proof carve_bounds as (W1 & W2 & Hn & Hn8 & T1 & T2 & Tl & S1 & S2).
  pose proof avail_room as (A1 & A2 & A3). pose proof inside_fresh as Hfresh. pose proof Hr as [].
  unfold heap_carve in HQ. rewrite Hsp in HQ. unfold splits in Hsp. apply Z.leb_le in Hsp.
  unfold RT_MEMHEAP_SIZE, RT_MEMHEAP_MINIALLOC in *. set (k := size + 24) in *.
  unfold memheap_carve, RT_MEMHEAP_SIZE, RT_MEMHEAP_MINIALLOC. rewrite (u32_id (size + 24 + 16)) by lia.
  rewrite (proj2 (Z.leb_le _ _)) by lia. rewrite (u32_id (x + size + 24)) by (unfold x; lia).
  replace (x + size + 24) with (x + k) in * by lia.
  wp_step. wp_step. apply free_item_wp.
  wp_step. apply (insert_next_wp (mh_start s) x (x + k) la n false lb k true false); [done|lia|done|done|exact hr_phys|].
  intros h1 H1.
  wp_step. apply (unlink_free_list_wp (mh_free_list s) _ f1 f2); [exact hr_free|]. intros h2 H2.
  apply (put_free_null_then_wp (mh_free_list s) x (f1 ++ f2)); [done|exact header_gone|]. intros h3 H3.
  wp_step. apply (push_free_wp (mh_free_list s) (x + k) (f1 ++ f2)); [done|done|apply Hfresh; lia|]. intros h4 H4.
  apply consume_wp; [simpl; lia|done|]. intros mx. unfold put_magic. wp_step. apply HQ; [|by repeat split].
  assert (N : forall a, a <> x /\ a <> x + k -> fupd x (tag true) (fupd (x + k) (tag false) (mh_magic s)) a = mh_magic s a /\
    fupd (x + k) (mh_self s) (mh_pool s) a = mh_pool s a) by (intros a [? ?]; by rewrite !fupd_ne).
  apply (heap_rep_update la [(n, false)] [(k, true); (n - k, false)] lb (f1 ++ x :: f2) _ s); simpl.
  - exact Hr.
  - repeat constructor; simpl; Z.to_euclidean_division_equations; lia.
  - lia.
  - done.
  - exact H1.
  - fold x. pose proof hr_tags as [_ [[_ T] _]]%tags_app. fold x in T. unfold fupd. repeat case_decide; try lia. done.
  - fold x. intros a Ha. apply N. lia.
  - exact H4.
  - unfold RT_MEMHEAP_SIZE. lia.
Qed.



Lemma carve_whole_wp Q :
  splits size n = false ->
  (forall s', heap_rep (la ++ heap_carve size n ++ lb) (f1 ++ f2) s' -> same_heap s s' -> Q tt s') ->
  wp (memheap_carve x (n - RT_MEMHEAP_SIZE) size) Q s.
Proof using Hr Hsize.
  intros Hsp HQ. pose proof carve_bounds as (W1 & W2 & Hn & Hn8 & T1 & T2 & Tl & S1 & S2).
  pose proof avail_room as (A1 & A2 & A3). pose proof Hr as [].
  unfold heap_carve in HQ. rewrite Hsp in HQ. unfold splits in Hsp. apply Z.leb_gt in Hsp.
  unfold RT_MEMHEAP_SIZE, RT_MEMHEAP_MINIALLOC in *.
  unfold memheap_carve, RT_MEMHEAP_SIZE, RT_MEMHEAP_MINIALLOC. rewrite (u32_id (size + 24 + 16)) by lia.
  rewrite (proj2 (Z.leb_gt _ _)) by lia.
  wp_step. wp_step. apply consume_wp; [simpl; lia|done|]. intros mx.
  wp_step. apply (unlink_free_list_wp (mh_free_list s) _ f1 f2); [exact hr_free|]. intros h2 H2.
  apply (put_free_null_wp (mh_free_list s) x (f1 ++ f2)); [done|exact header_gone|]. intros h3 H3.
  unfold put_magic. wp_step. apply HQ; [|by repeat split].
  apply (heap_rep_update la [(n, false)] [(n, true)] lb (f1 ++ x :: f2) _ s); simpl.
  - exact Hr.
  - by repeat constructor.
  - done.
  - done.
  - unfold l in hr_phys. rewrite !addrs_app in *. exact hr_phys.
  - fold x. pose proof hr_tags as [_ [[_ T] _]]%tags_app. fold x in T. by rewrite fupd_eq.
  - fold x. intros a Ha. by rewrite fupd_ne by lia.
  - exact H3.
  - unfold RT_MEMHEAP_SIZE. lia.
Qed.

Lemma heap_carve_wp Q :
  (forall s', heap_rep (la ++ heap_carve size n ++ lb)
       ((if splits size n then [x + size + RT_MEMHEAP_SIZE] else []) ++ f1 ++ f2) s' -> same_heap s s' -> Q tt s') ->
  wp (memheap_carve x (n - RT_MEMHEAP_SIZE) size) Q s.
Proof using Hr Hfl Hsize.
  destruct (splits size n) eqn:E; intros HQ; [by apply carve_split_wp|by apply carve_whole_wp].
Qed.
End carve.

(** What is left of the free blocks and of their merging. *)
Lemma heap_carve_free o la n lb size :
  free_addrs o (la ++ heap_carve size n ++ lb) ≡ₚ
    (if splits size n then [o + total la + size + RT_MEMHEAP_SIZE] else []) ++ free_addrs o la ++ free_addrs (o + total la + n) lb.
Proof.
  unfold heap_carve. destruct (splits size n); rewrite !free_addrs_app; cbn [free_addrs app total fst]; rewrite ?Z.add_0_r.
  - rewrite Zplus_minus, Z.add_assoc. by rewrite <- Permutation_middle.
  - done.
Qed.

Lemma heap_carve_coalesced la n lb size :
  coalesced (la ++ (n, false) :: lb) -> coalesced (la ++ heap_carve size n ++ lb).
Proof.
  intros Hc. pose proof (coalesced_prefix _ _ Hc) as H1. pose proof (coalesced_app _ _ Hc) as H2.
  pose proof (coalesced_starts _ _ H2) as Hs. apply coalesced_cons in H2.
  unfold heap_carve. destruct (splits size n); cbn [app].
  - apply coalesced_used; [done|]. apply (coalesced_glue []); [done| |done|done].
    intros (l' & m & E). by destruct l'.
  - by apply coalesced_used.
Qed.

Lemma checked_wp l fl s Q : heap_rep l fl s -> Q tt s -> wp memheap_checked Q s.
Proof. intros Hr HQ. unfold memheap_checked. do 2 wp_step. rewrite (hr_type _ _ _ Hr). by wp_step. Qed.

Lemma search_fuel_enough l fl s : heap_inv l fl s -> (length fl < search_fuel s)%nat.
Proof.
  intros (Hr & Hp & _). pose proof (hr_wf _ _ _ Hr) as Hw. pose proof (addrs_length (mh_start s) l Hw) as Hl.
  assert (Hle : (length fl <= length (addrs (mh_start s) l))%nat).
  { rewrite (Permutation_length Hp). clear. generalize (mh_start s). induction l as [|[n []] l IH]; intros o; simpl;
      [lia|..]; specialize (IH (o + n)); lia. }
  unfold search_fuel. rewrite (hr_size _ _ _ Hr). unfold RT_MEMHEAP_SIZE.
  assert (Z.of_nat (length (addrs (mh_start s) l)) <= (total l + 24) / 24) by (apply Z.div_le_lower_bound; lia). lia.
Qed.

Lemma first_fit_split o l size fl x :
  wf l -> fl ≡ₚ free_addrs o l -> first_fit o l size fl = Some x ->
  exists la n lb f1 f2, l = la ++ (n, false) :: lb /\ x = o + total la /\ fl = f1 ++ x :: f2 /\
    size <= n - RT_MEMHEAP_SIZE /\ room_at o l x = n - RT_MEMHEAP_SIZE.
Proof.
  intros Hw Hp Hf. unfold first_fit in Hf. apply List.find_some in Hf as [Hin Hle]. apply Z.leb_le in Hle.
  apply list_elem_of_In in Hin. destruct (list_elem_of_split _ _ Hin) as (f1 & f2 & Ef).
  rewrite Hp in Hin. destruct (free_addrs_split _ _ _ Hin) as (la & n & lb & El & Ex).
  exists la, n, lb, f1, f2. assert (Er : room_at o l x = n - RT_MEMHEAP_SIZE) by (rewrite El, Ex; apply room_at_split; by rewrite <- El).
  split_and!; try done. lia.
Qed.

(** The free list behind an allocation. *)
Lemma heap_carve_inv la n lb f1 f2 size s s' :
  let x := mh_start s + total la in
  heap_inv (la ++ (n, false) :: lb) (f1 ++ x :: f2) s -> mh_start s' = mh_start s ->
  let fl' := (if splits size n then [x + size + RT_MEMHEAP_SIZE] else []) ++ f1 ++ f2 in
  heap_rep (la ++ heap_carve size n ++ lb) fl' s' -> heap_inv (la ++ heap_carve size n ++ lb) fl' s'.
Proof.
  intros x (Hr & Hp & Hc) Es fl' Hr'. split; [done|]. split; [|by apply heap_carve_coalesced].
  rewrite Es, heap_carve_free. unfold fl'. apply Permutation_app_head.
  rewrite free_addrs_app in Hp. cbn [free_addrs] in Hp. fold x in Hp.
  rewrite <- !Permutation_middle in Hp. by apply Permutation_cons_inv in Hp.
Qed.

Lemma memheap_alloc_wp wait l fl s size :
  heap_inv l fl s -> lock_ok s -> 0 <= size < 2 ^ 32 - 8 ->
  let req := heap_request size in
  wp (rt_memheap_alloc wait size) (fun r s' =>
    match (if req <? free_sum l then first_fit (mh_start s) l req fl else None) with
    | None => r = 0 /\ s' = s
    | Some x => exists la n lb f1 f2,
        l = la ++ (n, false) :: lb /\ x = mh_start s + total la /\ fl = f1 ++ x :: f2 /\
        req + RT_MEMHEAP_SIZE <= n /\ r = x + RT_MEMHEAP_SIZE /\
        heap_inv (la ++ heap_carve req n ++ lb)
          ((if splits req n then [x + req + RT_MEMHEAP_SIZE] else []) ++ f1 ++ f2) s' /\
        same_heap s s'
    end) s.
Proof.
  intros Hi Hl Hs req. pose proof Hi as (Hr & Hp & Hc). pose proof (heap_request_bounds size Hs) as (Q1 & Q2 & Q3 & Q4).
  unfold rt_memheap_alloc. wp_step. eapply checked_wp; [exact Hr|]. fold (heap_request size). fold req in Q1, Q2, Q3, Q4 |- *.
  wp_step. wp_step. rewrite (hr_avail _ _ _ Hr). destruct (Z.ltb_spec req (free_sum l)) as [Hav|]; [|by wp_step].
  wp_step. apply heap_lock_wp; [done|]. simpl. wp_step. wp_step.
  assert (Hi1 : heap_inv l fl (held s)) by (split_and!; rewrite ?held_start; by try apply heap_rep_held).
  pose proof Hi1 as (Hr1 & Hp1 & _). pose proof (search_fuel_enough _ _ _ Hi1) as Hfuel.
  unfold get_next_free. wp_step. wp_step. rewrite (dlist_next_head _ _ _ (hr_free _ _ _ Hr1)).
  wp_step. apply (search_wp l fl (held s) Hr1 ltac:(by intros a; rewrite Hp1) [] fl); [done|lia|done|].
  rewrite held_start. destruct (first_fit (mh_start s) l req fl) as [x|] eqn:Ef.
  - destruct (first_fit_split _ _ _ _ _ (hr_wf _ _ _ Hr) Hp Ef) as (la & n & lb & f1 & f2 & -> & Ex & -> & Hle & ->).
    rewrite (proj2 (Z.leb_le _ _)) by done. rewrite Ex, <- (held_start s) in *. wp_step.
    apply (heap_carve_wp la n lb f1 f2); [done| |split_and!; lia|].
    + intros a Ha. apply free_addrs_sub. rewrite <- Hp1. set_solver.
    + intros s' Hr' Hsame. destruct (held_same _ _ Hsame) as (L1 & L2 & Hsame').
      wp_step. apply (heap_unlock_wp _ s); [done..|]. wp_step. exists la, n, lb, f1, f2.
      destruct (hr_start _ _ _ Hr1) as [S1 S2]. pose proof (hr_wf _ _ _ Hr1) as [W1 W2]%wf_app.
      pose proof (total_nonneg _ W1). pose proof (total_nonneg _ W2). rewrite total_app in S2.
      split_and!; try done; [lia|apply u32_id; unfold RT_MEMHEAP_SIZE in *; lia|].
      eapply heap_carve_inv; [exact Hi1| |by apply heap_rep_lock].
      destruct Hsame as (_ & _ & E & _). simpl. done.
  - intros fs' Hfs. rewrite (proj2 (Z.leb_gt _ _)) by lia. wp_step.
    apply (heap_unlock_wp _ s); [done|unfold held; by case_match|done|]. wp_step. by rewrite held_release.
Qed.

(** C10: [rt_memheap_alloc] with a free lock implements allocation on a list of blocks: a
    request that is smaller than the free space is served from the first block of the free
    list with enough room, which is cut when the rest can hold a block; otherwise NULL is
    returned and nothing changes.  The lock is free again afterwards. *)
Theorem rt_memheap_alloc_refines wait l fl s size :
  heap_inv l fl s -> lock_ok s -> 0 <= size < 2 ^ 32 - 8 ->
  let req := heap_request size in
  wp (rt_memheap_alloc wait size) (fun r s' =>
    match (if req <? free_sum l then first_fit (mh_start s) l req fl else None) with
    | None => r = 0 /\ s' = s
    | Some x => exists la n lb f1 f2,
        l = la ++ (n, false) :: lb /\ x = mh_start s + total la /\ fl = f1 ++ x :: f2 /\
        req + RT_MEMHEAP_SIZE <= n /\ r = x + RT_MEMHEAP_SIZE /\
        heap_inv (la ++ heap_carve req n ++ lb)
          ((if splits req n then [x + req + RT_MEMHEAP_SIZE] else []) ++ f1 ++ f2) s' /\
        same_heap s s'
    end) s.
Proof. apply memheap_alloc_wp. Qed.

Lemma rt_memheap_alloc_refines_witness :
  let req := heap_request 100 in
  wp (rt_memheap_alloc (fun s => (0, s)) 100) (fun r s' =>
    match (if req <? free_sum [(1000, false)] then first_fit (mh_start demo_heap) [(1000, false)] req [4096] else None) with
    | None => r = 0 /\ s' = demo_heap
    | Some x => exists la n lb f1 f2,
        [(1000, false)] = la ++ (n, false) :: lb /\ x = mh_start demo_heap + total la /\ [4096] = f1 ++ x :: f2 /\
        req + RT_MEMHEAP_SIZE <= n /\ r = x + RT_MEMHEAP_SIZE /\
        heap_inv (la ++ heap_carve req n ++ lb)
          ((if splits req n then [x + req + RT_MEMHEAP_SIZE] else []) ++ f1 ++ f2) s' /\
        same_heap demo_heap s'
    end) demo_heap.
Proof. exact (rt_memheap_alloc_refines _ _ _ _ 100 demo_heap_inv demo_heap_lock ltac:(lia)). Defined.

(** The example heap with one block in use. *)
Definition demo_heap_used : memheap := run_heap (rt_memheap_alloc (fun s => (0, s)) 100) demo_heap.

Lemma demo_alloc_wp :
  wp (rt_memheap_alloc (fun s => (0, s)) 100) (fun _ s' =>
    heap_inv [(128, true); (872, false)] [4224] s' /\ same_heap demo_heap s') demo_heap.
Proof.
  pose proof (memheap_alloc_wp (fun s => (0, s)) _ _ _ 100 demo_heap_inv demo_heap_lock ltac:(lia)) as H.
  cbv zeta in H. eapply wp_mono; [exact H|]. clear H. cbv beta. intros p s'. rewrite demo_heap_start. change (heap_request 100) with 104.
  change (if 104 <? _ then _ else _) with (Some 4096).
  intros (la & n & lb & f1 & f2 & El & _ & Ef & _ & _ & Hi & Hs). split; [|done].
  destruct la as [|? la]; [|by destruct la]. injection El as <- <-. destruct f1 as [|? f1]; [|by destruct f1].
  injection Ef as <-. exact Hi.
Qed.

Lemma demo_heap_used_inv :
  heap_inv [(128, true); (872, false)] [4224] demo_heap_used /\ same_heap demo_heap demo_heap_used.
Proof. destruct (run_heap_wp _ _ _ demo_alloc_wp) as [_ H]. exact H. Qed.
