(* ===== verification/MemHeapFree.v ===== *)
(** The memory heap of src/memheap.c: release of a block and merging with its free
    neighbours. *)
From S2P Require Import Prelude KState Object DList MemHeap Blocks MemHeapInv MemHeapInit MemHeapProp.
#[local] Open Scope Z_scope.

(** ** Magic numbers of neighbours *)

Lemma tag_used u : negb (Z.land (tag u) RT_MEMHEAP_USED =? 0) = u.
Proof. by destruct u. Qed.

Lemma is_used_wp i u Q (s : memheap) : mh_magic s i = tag u -> Q u s -> wp (RT_MEMHEAP_IS_USED i) Q s.
Proof. intros E HQ. unfold RT_MEMHEAP_IS_USED. wp_step. rewrite E. by rewrite tag_used. Qed.

Section rep.
Context (s : memheap) (fl : list Z).

Lemma rep_magic l1 n u l2 : heap_rep (l1 ++ (n, u) :: l2) fl s -> mh_magic s (mh_start s + total l1) = tag u.
Proof. intros H. pose proof (hr_tags _ _ _ H) as [_ T]%tags_app. by destruct T as [[? _] _]. Qed.

Lemma rep_pool l1 n u l2 : heap_rep (l1 ++ (n, u) :: l2) fl s -> mh_pool s (mh_start s + total l1) = mh_self s.
Proof. intros H. pose proof (hr_tags _ _ _ H) as [_ T]%tags_app. by destruct T as [[_ ?] _]. Qed.

(** The header behind the blocks [l1]: that of the next block, or the end. *)
Lemma rep_magic_next l1 l2 : heap_rep (l1 ++ l2) fl s ->
  mh_magic s (mh_start s + total l1) = tag (match l2 with (_, u) :: _ => u | [] => true end).
Proof.
  intros H. destruct l2 as [|[n u] l2]; [|by eapply rep_magic].
  rewrite app_nil_r in H. apply (hr_end _ _ _ H).
Qed.

Lemma rep_bounds l1 n u l2 : heap_rep (l1 ++ (n, u) :: l2) fl s ->
  0 <= total l1 /\ 0 <= total l2 /\ 24 <= n /\ n mod 8 = 0 /\ 0 < mh_start s /\
  mh_start s + total l1 + n + total l2 + RT_MEMHEAP_SIZE < 2 ^ 32.
Proof.
  intros H. pose proof (hr_wf _ _ _ H) as [W1 [[Hn Hm] W2]%wf_cons]%wf_app. pose proof (hr_start _ _ _ H) as [S1 S2].
  rewrite total_app in S2. cbn [total fst] in S2. pose proof (total_nonneg _ W1). pose proof (total_nonneg _ W2).
  split_and!; lia.
Qed.

(** The header before a block is in use when no free block ends there. *)
Lemma rep_magic_prev l1 n u l2 : heap_rep (l1 ++ (n, u) :: l2) fl s -> ~ ends_free l1 ->
  mh_magic s (prev (mh_phys s) (mh_start s + total l1)) = tag true.
Proof.
  intros H Hne. pose proof (hr_phys _ _ _ H) as Hd. destruct l1 as [|[p w] l1' _] using rev_ind.
  - simpl. rewrite Z.add_0_r. rewrite (neighbour_prev_first _ _ _ _ _ _ Hd eq_refl). apply (hr_end _ _ _ H).
  - rewrite (neighbour_prev_last _ _ _ _ _ _ Hd _ _ _ eq_refl). rewrite <- app_assoc in H. apply rep_magic in H.
    rewrite H. destruct w; [done|]. destruct Hne. by exists l1', p.
Qed.
End rep.

(** A header that is still to be put into the free list is not in it. *)
Lemma header_fresh l1 n l2 fl (s : memheap) :
  heap_rep (l1 ++ (n, false) :: l2) fl s ->
  mh_start s + total l1 :: fl ≡ₚ free_addrs (mh_start s) (l1 ++ (n, false) :: l2) ->
  mh_start s + total l1 ∉ mh_free_list s :: fl.
Proof.
  intros Hr Hp. destruct (rep_bounds _ _ _ _ _ _ Hr) as (B1 & B2 & B3 & _). apply not_elem_of_cons. split.
  - intros E. apply (hr_header _ _ _ Hr). rewrite <- E, total_app. cbn [total fst]. lia.
  - pose proof (free_addrs_NoDup (mh_start s) _ (hr_wf _ _ _ Hr)) as Hnd. rewrite <- Hp in Hnd.
    by apply NoDup_cons in Hnd as [? _].
Qed.

Lemma heap_rep_free l fl fl' (s : memheap) h :
  heap_rep l fl s -> dlist h (mh_free_list s) fl' -> heap_rep l fl' (set_mh_free h s).
Proof. by intros [] Hd; constructor. Qed.

(** ** Writes *)

(** A header unlinked from the list by address, in the two orders the code uses. *)
Lemma unlink_same (h : nodes Z) x :
  next h x <> x -> prev h x <> x ->
  same_nodes (unlink x h)
    (set_prev (next (set_next (prev h x) (next h x) h) x) (prev (set_next (prev h x) (next h x) h) x)
      (set_next (prev h x) (next h x) h)).
Proof. intros H1 H2. unfold unlink. split; intros z; ptr. Qed.

Lemma insert_free_dlist (h : nodes Z) fl i l :
  dlist h fl l -> i ∉ fl :: l ->
  let n := next h fl in
  let h1 := set_next i n h in
  let h2 := set_prev i (prev h1 n) h1 in
  let h3 := set_next (prev h2 n) i h2 in
  dlist (set_prev n i h3) fl (i :: l).
Proof.
  intros H Hi. eapply dlist_ext; [by apply (insert_after_dlist h fl l i)|].
  assert (next h fl <> i) by (destruct (dlist_next _ _ _ H) as [Hn _]; set_solver).
  assert (prev h (next h fl) = fl) by (destruct H as [_ Hl]; destruct l; destruct Hl as (E1 & E2 & _); by rewrite E1).
  apply not_elem_of_cons in Hi as [Hi _].
  unfold rt_list_insert_after. split; intros z; ptr.
Qed.

(** [header_ptr->next_free = n; ...] with [n] the first of the free list. *)
Lemma insert_free_wp fh i l Q (s : memheap) :
  mh_free_list s = fh -> dlist (mh_free s) fh l -> i ∉ fh :: l ->
  (forall h, dlist h fh (i :: l) -> Q tt (set_mh_free h s)) ->
  wp (insert_header_free i) Q s.
Proof.
  intros <- H Hi HQ. unfold insert_header_free, get_next_free, put_next_free, get_prev_free, put_prev_free. repeat wp_step.
  apply HQ. by apply insert_free_dlist.
Qed.

(** * Merging with the block on the right *)

Section right.
Context (a : list block) (m : Z) (lb : list block) (fl pend : list Z) (s : memheap).
Let h : Z := mh_start s + total a.
Hypothesis Hr : heap_rep (a ++ (m, false) :: lb) fl s.
Hypothesis Hpend : pend ++ fl ≡ₚ free_addrs (mh_start s) (a ++ (m, false) :: lb).
Hypothesis Hsub : forall z, z ∈ pend -> z = h.
Hypothesis Hlb : coalesced lb.

Lemma merge_right_wp Q :
  (forall m' lb' fl' s', join (a ++ (m', false) :: lb') = join (a ++ (m, false) :: lb) ->
     coalesced lb' -> ~ starts_free lb' -> heap_rep (a ++ (m', false) :: lb') fl' s' ->
     pend ++ fl' ≡ₚ free_addrs (mh_start s) (a ++ (m', false) :: lb') -> same_heap s s' -> Q tt s') ->
  wp (merge_right h) Q s.
Proof using Hr Hpend Hsub Hlb.
  intros HQ. destruct (rep_bounds _ _ _ _ _ _ Hr) as (B1 & B2 & B3 & B4 & B5 & B6).
  destruct (neighbour_next _ _ _ _ _ _ (hr_phys _ _ _ Hr)) as [En Ep]. fold h in En, Ep.
  unfold merge_right, get_next. wp_step. wp_step. rewrite En. wp_step.
  assert (Em : mh_magic s (h + m) = tag (match lb with (_, u) :: _ => u | [] => true end)).
  { pose proof Hr as Hr'. change ((m, false) :: lb) with ([(m, false)] ++ lb) in Hr'. rewrite app_assoc in Hr'.
    apply rep_magic_next in Hr'. rewrite <- Hr', total_app. simpl. f_equal. unfold h. lia. }
  eapply is_used_wp; [exact Em|]. destruct lb as [|[q []] lb']; simpl.
  - wp_step. apply (HQ m [] fl); try done. by intros (? & ? & ?).
  - wp_step. apply (HQ m ((q, true) :: lb') fl); try done. by intros (? & ? & ?).
  - assert (Hz : h + m ∈ fl).
    { assert (Hin : h + m ∈ pend ++ fl).
      { rewrite Hpend, free_addrs_app. cbn [free_addrs]. unfold h. set_solver. }
      apply elem_of_app in Hin as [Hin%Hsub|?]; [lia|done]. }
    destruct (list_elem_of_split _ _ Hz) as (f1 & f2 & Ef).
    pose proof Hr as Hr2. change ((m, false) :: (q, false) :: lb') with ([(m, false)] ++ (q, false) :: lb') in Hr2.
    rewrite app_assoc in Hr2. destruct (rep_bounds _ _ _ _ _ _ Hr2) as (_ & C2 & C3 & C4 & _).
    destruct (neighbour_next _ _ _ _ _ _ (hr_phys _ _ _ Hr2)) as [En2 _].
    rewrite total_app in En2. cbn [total fst] in En2. rewrite Z.add_0_r, Z.add_assoc in En2. fold h in En2.
    pose proof (hr_avail _ _ _ Hr) as Ha. pose proof (free_sum_range _ (hr_wf _ _ _ Hr)) as Hfs.
    pose proof (hr_start _ _ _ Hr) as [S1 S2]. unfold RT_MEMHEAP_SIZE in *.
    wp_step. apply give_back_wp; [lia|]. unfold put_prev, put_next. repeat wp_step. simpl. rewrite En.
    apply (unlink_free_list_wp (mh_free_list s) _ f1 f2); [simpl; rewrite <- Ef; apply (hr_free _ _ _ Hr)|].
    intros h2 H2. apply (HQ (m + q) lb' (f1 ++ f2)).
    + symmetry. apply join_merge.
    + by eapply coalesced_cons.
    + by eapply coalesced_starts.
    + apply (heap_rep_update a [(m, false); (q, false)] [(m + q, false)] lb' fl _ s); simpl.
      * exact Hr.
      * repeat constructor; simpl; Z.to_euclidean_division_equations; lia.
      * lia.
      * done.
      * pose proof (phys_merge _ _ _ _ _ _ _ _ false _ (hr_phys _ _ _ Hr)) as Hm. fold h in Hm.
        unfold unlink in Hm. rewrite En2, Ep in Hm.
        assert (Epp : prev (set_prev (h + m + q) h (mh_phys s)) (h + m) = h) by (simpl; rewrite fupd_ne by lia; done).
        rewrite Epp in Hm. simpl in Hm. rewrite En2 in Hm.
        rewrite En2. exact Hm.
      * pose proof (rep_magic _ _ _ _ _ _ Hr) as T1. pose proof (rep_pool _ _ _ _ _ _ Hr) as T2. done.
      * done.
      * exact H2.
      * unfold RT_MEMHEAP_SIZE. lia.
    + rewrite Ef, free_addrs_app in Hpend. rewrite free_addrs_app. cbn [free_addrs] in *. fold h in Hpend |- *.
      rewrite Z.add_assoc. apply (Permutation_cons_inv (a := h + m)).
      etrans; [|etrans; [exact Hpend|]]; solve_Permutation.
    + repeat split.
Qed.
End right.

(** * Merging with the block on the left *)

Section left.
Context (la : list block) (n : Z) (lb : list block) (fl : list Z) (s : memheap).
Let x : Z := mh_start s + total la.
Hypothesis Hr : heap_rep (la ++ (n, false) :: lb) fl s.
Hypothesis Hp : x :: fl ≡ₚ free_addrs (mh_start s) (la ++ (n, false) :: lb).
Hypothesis Hla : coalesced la.

Lemma merge_left_wp Q :
  (forall a m (flag : bool) s', let h := mh_start s + total a in
     join (a ++ (m, false) :: lb) = join (la ++ (n, false) :: lb) ->
     coalesced a -> ~ ends_free a -> heap_rep (a ++ (m, false) :: lb) fl s' ->
     (if flag then [h] else []) ++ fl ≡ₚ free_addrs (mh_start s) (a ++ (m, false) :: lb) ->
     same_heap s s' -> Q (h, flag) s') ->
  wp (merge_left x) Q s.
Proof using Hr Hp Hla.
  intros HQ. destruct (rep_bounds _ _ _ _ _ _ Hr) as (B1 & B2 & B3 & B4 & B5 & B6).
  destruct (neighbour_next _ _ _ _ _ _ (hr_phys _ _ _ Hr)) as [En Ep]. fold x in En, Ep.
  unfold merge_left, get_prev. wp_step. wp_step. wp_step.
  destruct (ends_free_dec la) as [(la' & p & E)|Hne].
  - pose proof Hr as Hr2. rewrite E, <- app_assoc in Hr2. cbn [app] in Hr2.
    destruct (rep_bounds _ _ _ _ _ _ Hr2) as (C1 & _ & C3 & C4 & _).
    pose proof (neighbour_prev_last _ _ _ _ _ _ (hr_phys _ _ _ Hr) _ _ _ E) as El. fold x in El.
    assert (Ex : x = mh_start s + total la' + p) by (unfold x; rewrite E, total_app; simpl; lia).
    rewrite El. eapply is_used_wp; [by apply (rep_magic _ _ _ _ _ _ Hr2)|]. simpl.
    pose proof (hr_avail _ _ _ Hr) as Ha. pose proof (free_sum_range _ (hr_wf _ _ _ Hr)) as Hfs.
    pose proof (hr_start _ _ _ Hr) as [S1 S2]. unfold RT_MEMHEAP_SIZE in *.
    wp_step. apply give_back_wp; [lia|]. unfold get_next, put_prev, put_next. repeat wp_step. simpl.
    assert (Nx : fupd (prev (mh_phys s) x) (next (mh_phys s) x) (next (mh_phys s)) x = x + n)
      by (rewrite fupd_ne by lia; done).
    rewrite Nx, fupd_ne, El by lia. apply (HQ la' (p + n) false).
    + rewrite E, <- app_assoc. symmetry. apply join_merge.
    + rewrite E in Hla. by eapply coalesced_prefix.
    + rewrite E in Hla. by eapply coalesced_ends.
    + apply (heap_rep_update la' [(p, false); (n, false)] [(p + n, false)] lb fl _ s); simpl.
      * exact Hr2.
      * repeat constructor; simpl; Z.to_euclidean_division_equations; lia.
      * lia.
      * done.
      * pose proof (phys_merge _ _ _ _ _ _ _ _ false _ (hr_phys _ _ _ Hr2)) as Hm. rewrite <- Ex in Hm.
        eapply dlist_ext; [exact Hm|]. pose proof (unlink_same (mh_phys s) x) as Hu.
        rewrite El, En in Hu. cbn [next prev set_next] in Hu. rewrite El in Nx. rewrite En in *.
        rewrite Nx, El in Hu. apply Hu; lia.
      * pose proof (rep_magic _ _ _ _ _ _ Hr2). pose proof (rep_pool _ _ _ _ _ _ Hr2). done.
      * done.
      * apply (hr_free _ _ _ Hr).
      * unfold RT_MEMHEAP_SIZE. lia.
    + cbn [app]. rewrite E, <- app_assoc, !free_addrs_app in Hp. rewrite free_addrs_app. cbn [app free_addrs total fst] in *.
      rewrite Z.add_0_r, <- Ex in Hp. rewrite Z.add_assoc, <- Ex. apply (Permutation_cons_inv (a := x)).
      etrans; [exact Hp|]. solve_Permutation.
    + by repeat split.
  - eapply is_used_wp; [by eapply rep_magic_prev|]. simpl. wp_step. by apply (HQ la n true).
Qed.
End left.

(** * Release *)

Lemma same_heap_trans s1 s2 s3 : same_heap s1 s2 -> same_heap s2 s3 -> same_heap s1 s3.
Proof. unfold same_heap. intros (?&?&?&?&?&?&?&?) (?&?&?&?&?&?&?&?). split_and!; congruence. Qed.

Lemma lock_ok_same s s' : lock_ok s -> same_heap s s' -> lock_ok s'.
Proof. intros Hl (_ & _ & _ & _ & _ & E1 & E2 & _). unfold lock_ok. by rewrite E1, E2. Qed.

Lemma free_body_wp la n lb fl s Q :
  let x := mh_start s + total la in
  heap_inv (la ++ (n, true) :: lb) fl s ->
  (forall fl' s', heap_inv (join (la ++ (n, false) :: lb)) fl' s' -> same_heap s s' -> Q tt s') ->
  wp (free_body x) Q s.
Proof.
  intros x (Hr & Hp & Hc) HQ. destruct (rep_bounds _ _ _ _ _ _ Hr) as (B1 & B2 & B3 & B4 & B5 & B6). fold x in B6.
  pose proof (item_size _ _ _ Hr _ _ _ _ eq_refl) as Ei. fold x in Ei.
  pose proof (hr_avail _ _ _ Hr) as Ha. pose proof (free_sum_range _ (hr_wf _ _ _ Hr)) as Hf.
  pose proof (hr_start _ _ _ Hr) as [_ S2]. rewrite total_app in S2, Hf. rewrite free_sum_app in Ha, Hf.
  cbn [total free_sum fst] in *. unfold RT_MEMHEAP_SIZE in *.
  unfold free_body, put_magic, MEMITEM_SIZE. wp_step. wp_step. wp_step. wp_step. simpl.
  unfold RT_MEMHEAP_SIZE. rewrite Ei. wp_step.
  pose proof Hr as [W1 [_ W2]%wf_cons]%hr_wf%wf_app. pose proof (free_sum_range _ W1). pose proof (free_sum_range _ W2).
  apply give_back_wp; [simpl; lia|]. simpl.
  match goal with |- wp _ _ ?s2 => set (s1 := s2) end.
  assert (Hr1 : heap_rep (la ++ (n, false) :: lb) fl s1).
  { apply (heap_rep_update la [(n, true)] [(n, false)] lb fl _ s); simpl; try done.
    - by repeat constructor.
    - pose proof (hr_phys _ _ _ Hr) as Hd. rewrite !addrs_app in *. exact Hd.
    - fold x. rewrite fupd_eq. pose proof (rep_pool _ _ _ _ _ _ Hr). done.
    - fold x. intros a Hout. by rewrite fupd_ne by lia.
    - apply (hr_free _ _ _ Hr).
    - unfold RT_MEMHEAP_SIZE. lia. }
  assert (Hs1 : same_heap s s1) by (by repeat split).
  assert (Hp1 : x :: fl ≡ₚ free_addrs (mh_start s1) (la ++ (n, false) :: lb)).
  { simpl. rewrite Hp, !free_addrs_app. cbn [free_addrs]. fold x. apply Permutation_middle. }
  pose proof (coalesced_cons _ _ (coalesced_app _ _ Hc)) as Clb.
  wp_step. apply (merge_left_wp la n lb fl s1 Hr1 Hp1 (coalesced_prefix _ _ Hc)).
  intros a m flag s2 h Ej Ca Hea Hr2 Hp2 Hs2. cbn beta iota. clearbody s1.
  assert (E2 : mh_start s2 = mh_start s1) by apply Hs2. unfold h in *. rewrite <- E2 in *.
  wp_step. apply (merge_right_wp a m lb fl (if flag then [mh_start s2 + total a] else []) s2 Hr2 Hp2); [|done|].
  { intros z Hz. destruct flag; set_solver. }
  intros m' lb' fl' s3 Ej3 Clb' Hsb' Hr3 Hp3 Hs3.
  assert (Ejoin : join (la ++ (n, false) :: lb) = a ++ (m', false) :: lb').
  { rewrite <- Ej, <- Ej3. by apply coalesced_glue. }
  assert (E3 : mh_start s3 = mh_start s2) by apply Hs3.
  assert (Hss : same_heap s s3) by (eapply same_heap_trans; [|exact Hs3]; by eapply same_heap_trans).
  destruct flag.
  - rewrite <- E3 in *.
    apply (insert_free_wp (mh_free_list s3) _ fl'); [done|apply (hr_free _ _ _ Hr3)|by eapply header_fresh|].
    intros h4 H4. apply (HQ (mh_start s3 + total a :: fl')); [|done]. rewrite Ejoin.
    split; [by eapply heap_rep_free|]. split; [exact Hp3|]. rewrite <- Ejoin. apply join_coalesced.
  - wp_step. apply (HQ fl'); [|done]. rewrite Ejoin. split; [done|]. rewrite E3. split; [done|].
    rewrite <- Ejoin. apply join_coalesced.
Qed.

(** [rt_memheap_free] of a block in use, with a free lock: the state is that of the merged
    blocks, with some free list. *)
Lemma memheap_free_wp wait la n lb fl s :
  heap_inv (la ++ (n, true) :: lb) fl s -> lock_ok s ->
  wp (rt_memheap_free wait (mh_start s + total la + RT_MEMHEAP_SIZE)) (fun _ s' =>
    same_heap s s' /\ exists fl', heap_inv (join (la ++ (n, false) :: lb)) fl' s') s.
Proof.
  intros (Hr & Hp & Hc) Hl. destruct (rep_bounds _ _ _ _ _ _ Hr) as (B1 & B2 & B3 & B4 & B5 & B6).
  destruct (neighbour_next _ _ _ _ _ _ (hr_phys _ _ _ Hr)) as [En _].
  set (x := mh_start s + total la) in *. unfold RT_MEMHEAP_SIZE in *. unfold rt_memheap_free.
  rewrite (proj2 (Z.eqb_neq _ 0)) by (unfold x; lia). unfold RT_MEMHEAP_SIZE.
  replace (u32 (x + 24 - 24)) with x by (rewrite u32_id; unfold x; lia).
  unfold get_next. do 6 wp_step. rewrite En.
  rewrite (rep_magic _ _ _ _ _ _ Hr : mh_magic s x = _).
  assert (Em : mh_magic s (x + n) = tag (match lb with (_, u) :: _ => u | [] => true end)).
  { pose proof Hr as Hr'. change ((n, true) :: lb) with ([(n, true)] ++ lb) in Hr'. rewrite app_assoc in Hr'.
    apply rep_magic_next in Hr'. rewrite <- Hr', total_app. simpl. f_equal. unfold x. lia. }
  rewrite Em. wp_step. wp_step; [done|]. wp_step. wp_step; [by destruct lb as [|[? []] ?]|]. do 2 wp_step.
  rewrite (rep_pool _ _ _ _ _ _ Hr : mh_pool s x = _). wp_step. wp_step.
  { apply negb_true_iff, Z.eqb_neq, (hr_self _ _ _ Hr). }
  wp_step. eapply checked_wp; [exact Hr|]. wp_step. apply heap_lock_wp; [done|]. simpl.
  assert (Hi1 : heap_inv (la ++ (n, true) :: lb) fl (held s))
    by (split_and!; rewrite ?held_start; by try apply heap_rep_held).
  assert (Ex : x = mh_start (held s) + total la) by (by rewrite held_start). rewrite Ex.
  wp_step. apply (free_body_wp la n lb fl _ _ Hi1). intros fl' s' Hi' Hs'.
  destruct (held_same _ _ Hs') as (L1 & L2 & Hsame). apply (heap_unlock_wp _ s); [done..|]. split; [done|].
  exists fl'. destruct Hi' as (? & ? & ?). by split_and!; try apply heap_rep_lock.
Qed.

(** C11: [rt_memheap_free] of a block in use, with a free lock, makes the block free and
    merges it with free neighbours on both sides; the merged block is in the free list, the
    lock is free again, and the bytes are unchanged. *)
Theorem rt_memheap_free_refines wait la n lb fl s :
  heap_inv (la ++ (n, true) :: lb) fl s -> lock_ok s ->
  wp (rt_memheap_free wait (mh_start s + total la + RT_MEMHEAP_SIZE)) (fun _ s' =>
    same_heap s s' /\ exists fl', heap_inv (join (la ++ (n, false) :: lb)) fl' s') s.
Proof. apply memheap_free_wp. Qed.

(** * Allocation and release *)

Lemma heap_carve_join la n lb size :
  coalesced (la ++ (n, false) :: lb) ->
  join (la ++ match heap_carve size n with (k, _) :: r => (k, false) :: r | [] => [] end ++ lb) = la ++ (n, false) :: lb.
Proof.
  intros Hc. unfold heap_carve. destruct (splits size n); cbn [app]; [|done].
  rewrite join_merge, Zplus_minus. done.
Qed.

(** A block that is allocated and released again leaves the heap with the same
    blocks. *)
Lemma memheap_alloc_free_roundtrip wait l fl s size :
  heap_inv l fl s -> lock_ok s -> 0 <= size < 2 ^ 32 - 8 ->
  wp (p ← rt_memheap_alloc wait size; rt_memheap_free wait p) (fun _ s' =>
    same_heap s s' /\ exists fl', heap_inv l fl' s') s.
Proof.
  intros Hi Hl Hs. wp_step. eapply wp_mono; [by apply memheap_alloc_wp|].
  cbv beta zeta. intros p s1. destruct (if _ <? _ then _ else _) as [x|].
  - intros (la & n & lb & f1 & f2 & -> & Ex & -> & Hle & -> & Hi1 & Hs1).
    assert (Hl1 : lock_ok s1) by (by eapply lock_ok_same).
    assert (E : mh_start s1 = mh_start s) by apply Hs1. rewrite Ex, <- E.
    pose proof (heap_carve_join la n lb (heap_request size) (proj2 (proj2 Hi))) as Ej.
    assert (W : forall k r, heap_carve (heap_request size) n = (k, true) :: r ->
      wp (rt_memheap_free wait (mh_start s1 + total la + RT_MEMHEAP_SIZE)) (fun _ s' =>
        same_heap s1 s' /\ exists fl', heap_inv (join (la ++ (k, false) :: r ++ lb)) fl' s') s1).
    { intros k r Er. rewrite Er in Hi1. eapply memheap_free_wp; [exact Hi1|done]. }
    unfold heap_carve in W, Ej. destruct (splits _ n); (eapply wp_mono; [by eapply W|]);
      intros _ s2 (Hs2 & fl' & Hi2); cbn [app] in *; rewrite Ej in Hi2;
      (split; [by eapply same_heap_trans|by exists fl']).
  - intros [-> ->]. unfold rt_memheap_free. simpl. wp_step. split; [apply same_heap_refl|by exists fl].
Qed.

Lemma rt_memheap_free_refines_witness :
  wp (rt_memheap_free (fun s => (0, s)) (mh_start demo_heap_used + 0 + RT_MEMHEAP_SIZE)) (fun _ s' =>
    same_heap demo_heap_used s' /\ exists fl', heap_inv [(1000, false)] fl' s') demo_heap_used.
Proof.
  apply (rt_memheap_free_refines _ [] 128 [(872, false)] [4224]); [apply demo_heap_used_inv|].
  destruct demo_heap_used_inv as [_ Hs]. exact (lock_ok_same _ _ demo_heap_lock Hs).
Defined.

Lemma memheap_alloc_free_roundtrip_witness :
  wp (p ← rt_memheap_alloc (fun s => (0, s)) 100; rt_memheap_free (fun s => (0, s)) p) (fun _ s' =>
    same_heap demo_heap s' /\ exists fl', heap_inv [(1000, false)] fl' s') demo_heap.
Proof. apply (memheap_alloc_free_roundtrip _ _ [4096]); [apply demo_heap_inv|apply demo_heap_lock|lia]. Defined.
