(* ===== verification/MemHeapShrink.v ===== *)
(** The memory heap of src/memheap.c: a block is made smaller in place. *)
From S2P Require Import Prelude KState Object DList MemHeap Blocks MemHeapInv MemHeapInit MemHeapProp MemHeapFree.
#[local] Open Scope Z_scope.

Lemma heap_inv_held l fl s : heap_inv l fl s -> heap_inv l fl (held s).
Proof. intros (H & ? & ?). split_and!; rewrite ?held_start; by try apply heap_rep_held. Qed.

Lemma heap_inv_lock l fl s v : heap_inv l fl s -> heap_inv l fl (set_mh_lock v s).
Proof. intros (H & ? & ?). by split_and!; try apply heap_rep_lock. Qed.

(** The free list does not hold an address inside a block. *)
Lemma free_list_inside la n u lb fl s k :
  heap_inv (la ++ (n, u) :: lb) fl s -> 0 < k < n -> mh_start s + total la + k ∉ mh_free_list s :: fl.
Proof.
  intros (Hr & Hp & _) Hk. pose proof (hr_wf _ _ _ Hr) as [W1 [_ W2]%wf_cons]%wf_app.
  destruct (rep_bounds _ _ _ _ _ _ Hr) as (B1 & B2 & _). pose proof (hr_header _ _ _ Hr) as Hh.
  rewrite total_app in Hh. cbn [total fst] in Hh.
  apply not_elem_of_cons. split; [lia|]. rewrite Hp. intros Hin%free_addrs_sub. revert Hin. rewrite addrs_app. cbn [addrs].
  rewrite elem_of_app, elem_of_cons. intros [Hin%addrs_range|[?|Hin%addrs_range]]; (done || lia).
Qed.

Section shrink.
Context (la : list block) (n : Z) (lb : list block) (fl : list Z) (s : memheap) (size : Z).
Let x : Z := mh_start s + total la.
Let k : Z := size + RT_MEMHEAP_SIZE.
Hypothesis Hi : heap_inv (la ++ (n, true) :: lb) fl s.
Hypothesis Hsize : 16 <= size /\ size mod 8 = 0 /\ size + RT_MEMHEAP_SIZE + RT_MEMHEAP_SIZE <= n.

(** The list by address when the new header is there. *)
Lemma shrink_split_wp (m : P unit) Q :
  (forall h1, dlist h1 (mh_start s + total (la ++ (n, true) :: lb))
       (addrs (mh_start s) (la ++ (k, true) :: (n - k, false) :: lb)) ->
     wp m Q (set_mh_phys h1 (set_mh_pool (fupd (x + k) (mh_self s) (mh_pool s))
               (set_mh_magic (fupd (x + k) (tag false) (mh_magic s)) s)))) ->
  wp (free_item (x + k);; insert_next x (x + k);; m) Q s.
Proof using Hi Hsize.
  intros HQ. destruct Hi as (Hr & _). destruct (rep_bounds _ _ _ _ _ _ Hr) as (B1 & B2 & B3 & B4 & B5 & B6).
  unfold RT_MEMHEAP_SIZE in *. wp_step. apply free_item_wp. wp_step.
  apply (insert_next_wp (mh_start s) x (x + k) la n true lb k true false);
    [apply (hr_wf _ _ _ Hr)|unfold k; lia|done|done|exact (hr_phys _ _ _ Hr)|]. exact HQ.
Qed.

(** A state once the new header is there. *)
Record headed (s2 : memheap) : Prop := {
  hd_same : same_heap s s2;
  hd_magic : mh_magic s2 = fupd (x + k) (tag false) (mh_magic s);
  hd_pool : mh_pool s2 = fupd (x + k) (mh_self s) (mh_pool s)
}.

(** The headers when the new block [(r, false)] has taken the rest of the block and maybe
    the block behind it. *)
Lemma shrink_rep s2 fl' mid r lb' :
  lb = mid ++ lb' -> (mid = [] \/ exists q, mid = [(q, false)]) -> r = n - k + total mid -> headed s2 ->
  dlist (mh_phys s2) (mh_start s + total (la ++ (n, true) :: lb)) (addrs (mh_start s) (la ++ (k, true) :: (r, false) :: lb')) ->
  dlist (mh_free s2) (mh_free_list s) fl' ->
  mh_available s2 = mh_available s - free_sum mid + (r - RT_MEMHEAP_SIZE) ->
  heap_rep (la ++ [(k, true); (r, false)] ++ lb') fl' s2.
Proof using Hi Hsize.
  intros El Hmid Er [Hsame Em Ep] H1 H2 Hav. destruct Hi as (Hr & _).
  destruct (rep_bounds _ _ _ _ _ _ Hr) as (B1 & B2 & B3 & B4 & B5 & B6).
  pose proof (rep_magic _ _ _ _ _ _ Hr) as T1. pose proof (rep_pool _ _ _ _ _ _ Hr) as T2. fold x in T1, T2.
  pose proof Hr as Hr'. rewrite El in Hr'. change ((n, true) :: mid ++ lb') with (((n, true) :: mid) ++ lb') in Hr'.
  pose proof (hr_wf _ _ _ Hr') as [_ [[_ Wm]%wf_cons _]%wf_app]%wf_app. pose proof (total_nonneg _ Wm). pose proof (total_mod _ Wm).
  unfold k, RT_MEMHEAP_SIZE in *.
  apply (heap_rep_update la ((n, true) :: mid) _ lb' fl _ s s2); [exact Hr'|..]; cbn [total free_sum fst].
  - repeat constructor; simpl; Z.to_euclidean_division_equations; lia.
  - lia.
  - by destruct Hsame as (-> & -> & -> & -> & -> & _).
  - rewrite El in H1. exact H1.
  - cbn [tags]. rewrite Em, Ep. fold x. rewrite !fupd_eq, !fupd_ne by lia. done.
  - rewrite Em, Ep. fold x. intros a Ha. by rewrite !fupd_ne by lia.
  - exact H2.
  - unfold RT_MEMHEAP_SIZE. lia.
Qed.

(** The blocks, the free list and the merging when the new block is at the front. *)
Lemma shrink_inv fl0 r lb' s' :
  coalesced lb' -> ~ starts_free lb' ->
  join ((n - k, false) :: lb) = join ((r, false) :: lb') -> total la + k + r = total la + n + (total lb - total lb') ->
  fl0 ≡ₚ free_addrs (mh_start s) la ++ free_addrs (x + k + r) lb' -> mh_start s' = mh_start s ->
  heap_rep (la ++ [(k, true); (r, false)] ++ lb') (x + k :: fl0) s' ->
  heap_inv (join (la ++ (k, true) :: (n - k, false) :: lb)) (x + k :: fl0) s'.
Proof using Hi.
  intros Cl Hs Ej Et Hp Es Hr'. destruct Hi as (_ & _ & Hc). pose proof (coalesced_prefix _ _ Hc) as Ca.
  assert (E : join (la ++ (k, true) :: (n - k, false) :: lb) = la ++ (k, true) :: (r, false) :: lb').
  { transitivity (join (la ++ (k, true) :: (r, false) :: lb')).
    - apply join_app. cbn [join] in *. by rewrite Ej.
    - apply coalesced_used; [done|]. apply (coalesced_glue []); [done| |done|done].
      intros (l0 & m & E0). by destruct l0. }
  rewrite E. split; [done|]. split; [|rewrite <- E; apply join_coalesced].
  rewrite Es, free_addrs_app. cbn [free_addrs]. fold x. rewrite Hp. apply Permutation_middle.
Qed.

(** The neighbours of the new header *)
Lemma shrink_neighbours h1 :
  dlist h1 (mh_start s + total (la ++ (n, true) :: lb)) (addrs (mh_start s) (la ++ (k, true) :: (n - k, false) :: lb)) ->
  next h1 (x + k) = x + n /\ prev h1 (x + n) = x + k /\
  forall q u lb', lb = (q, u) :: lb' -> next h1 (x + n) = x + n + q.
Proof using Type.
  intros H1. assert (Et : forall q lb' u, total (la ++ (k, true) :: (n - k, u) :: lb) = total (la ++ (n, q) :: lb') + total lb - total lb')
    by (intros; rewrite !total_app; simpl; lia).
  assert (Ea : forall o, o + total (la ++ [(k, true)]) = o + total la + k) by (intros; rewrite total_app; simpl; lia).
  pose proof (neighbour_next h1 (mh_start s) (la ++ [(k, true)]) (n - k) false lb) as Hn1.
  rewrite <- app_assoc in Hn1. cbn [app] in Hn1. rewrite (Et true lb), Z.add_simpl_r, Ea in Hn1. fold x in Hn1.
  destruct (Hn1 H1) as [N1 N2]. replace (x + k + (n - k)) with (x + n) in * by lia. split_and!; try done.
  intros q u lb' El.
  pose proof (neighbour_next h1 (mh_start s) (la ++ [(k, true); (n - k, false)]) q u lb') as Hn2.
  rewrite <- app_assoc in Hn2. cbn [app] in Hn2. rewrite <- El, (Et true lb), Z.add_simpl_r in Hn2.
  destruct (Hn2 H1) as [N3 _]. rewrite total_app in N3. cbn [total fst] in N3.
  replace (mh_start s + (total la + (k + (n - k + 0)))) with (x + n) in N3 by (unfold x; lia). done.
Qed.

(** The last steps: the new header goes to the free list, its room is counted. *)
Lemma shrink_last_wp s2 fl0 r Q :
  headed s2 -> next (mh_phys s2) (x + k) = x + k + r -> 24 <= r -> x + k + r < 2 ^ 32 -> 0 < x + k ->
  dlist (mh_free s2) (mh_free_list s) fl0 -> x + k ∉ mh_free_list s :: fl0 ->
  0 <= mh_available s2 -> mh_available s2 + r - RT_MEMHEAP_SIZE < 2 ^ 32 ->
  (forall s3, headed s3 -> dlist (mh_free s3) (mh_free_list s) (x + k :: fl0) -> mh_phys s3 = mh_phys s2 ->
     mh_available s3 = mh_available s2 + (r - RT_MEMHEAP_SIZE) -> Q tt s3) ->
  wp (push_free (x + k);; n ← MEMITEM_SIZE (x + k); give_back n) Q s2.
Proof.
  intros [Hsame Em Ep] En Hr1 Hr2 Hx H2 Hf A1 A2 HQ. unfold RT_MEMHEAP_SIZE in *. wp_step.
  apply (push_free_wp (mh_free_list s) (x + k) fl0); [by apply Hsame|done|done|]. intros h3 H3.
  unfold MEMITEM_SIZE. wp_step. wp_step. simpl. rewrite En. unfold RT_MEMHEAP_SIZE.
  replace (x + k + r - (x + k) - 24) with (r - 24) by lia. rewrite (u32_id (r - 24)) by lia.
  apply give_back_wp; [simpl; lia|]. apply HQ; [by constructor|done..].
Qed.

(** The block behind is free: it leaves both lists. *)
Lemma shrink_unlink_wp s1 q lb' Q :
  lb = (q, false) :: lb' -> headed s1 -> mh_free s1 = mh_free s -> mh_available s1 = mh_available s ->
  dlist (mh_phys s1) (mh_start s + total (la ++ (n, true) :: lb)) (addrs (mh_start s) (la ++ (k, true) :: (n - k, false) :: lb)) ->
  (forall s2 f1 f2, headed s2 -> fl = f1 ++ x + n :: f2 -> dlist (mh_free s2) (mh_free_list s) (f1 ++ f2) ->
     dlist (mh_phys s2) (mh_start s + total (la ++ (n, true) :: lb)) (addrs (mh_start s) (la ++ (k, true) :: (n - k + q, false) :: lb')) ->
     next (mh_phys s2) (x + k) = x + n + q -> mh_available s2 = mh_available s - (q - 24) -> Q tt s2) ->
  wp (n0 ← MEMITEM_SIZE (x + n);
      modify (fun s => set_mh_available (u32 (mh_available s - n0)) s);;
      nn ← gets (fun s => next (mh_phys s) (x + n)); put_prev nn (x + k);;
      nn ← gets (fun s => next (mh_phys s) (x + n)); put_next (x + k) nn;;
      unlink_free (x + n)) Q s1.
Proof using Hi Hsize.
  intros El [Hsame Em Ep] Ef1 Ea1 H1 HQ. pose proof Hi as (Hr & Hp & Hc).
  destruct (rep_bounds _ _ _ _ _ _ Hr) as (B1 & B2 & B3 & B4 & B5 & B6). fold x in B6.
  destruct (shrink_neighbours _ H1) as (N1 & N2 & N3). specialize (N3 _ _ _ El).
  pose proof Hr as [W1 [_ W2]%wf_cons]%hr_wf%wf_app. pose proof (hr_avail _ _ _ Hr) as Ha.
  rewrite free_sum_app in Ha. rewrite El in Ha, W2, B2, B6. apply wf_cons in W2 as [[Hq _] W2].
  pose proof (free_sum_range _ W1). pose proof (free_sum_range _ W2). pose proof (total_nonneg _ W2).
  cbn [free_sum total fst] in *. assert (Hk : 24 < k /\ k + 24 <= n) by (unfold k, RT_MEMHEAP_SIZE in *; lia).
  unfold RT_MEMHEAP_SIZE in *.
  assert (Hz : x + n ∈ fl) by (rewrite Hp, El, free_addrs_app; cbn [free_addrs]; fold x; set_solver).
  destruct (list_elem_of_split _ _ Hz) as (f1 & f2 & Ef).
  unfold MEMITEM_SIZE at 1. wp_step. wp_step. rewrite N3.
  replace (x + n + q - (x + n) - RT_MEMHEAP_SIZE) with (q - 24) by (unfold RT_MEMHEAP_SIZE; lia).
  rewrite (u32_id (q - 24)) by lia. unfold put_prev, put_next. repeat wp_step. simpl. rewrite N3, Ea1.
  rewrite u32_id by lia.
  apply (unlink_free_list_wp (mh_free_list s) _ f1 f2); [simpl; rewrite Ef1, <- Ef; apply (hr_free _ _ _ Hr)|].
  intros h2 Hd2. apply (HQ _ f1 f2); [by constructor|done|done| |simpl; by rewrite fupd_eq|done].
  cbn [mh_phys set_mh_phys set_mh_free].
  pose proof (phys_merge (mh_phys s1) (mh_start s) (la ++ [(k, true)]) (n - k) false q false lb' false) as Hm.
  specialize (Hm (mh_start s + total (la ++ (n, true) :: lb))). rewrite <- !app_assoc in Hm. cbn [app] in Hm.
  rewrite <- El in Hm. specialize (Hm H1). rewrite total_app in Hm. cbn [total fst] in Hm.
  replace (mh_start s + (total la + (k + 0)) + (n - k)) with (x + n) in Hm by (unfold x; lia).
  unfold unlink in Hm. rewrite N3, N2 in Hm.
  assert (E1 : prev (set_prev (x + n + q) (x + k) (mh_phys s1)) (x + n) = x + k) by (simpl; rewrite fupd_ne by lia; done).
  rewrite E1 in Hm. cbn [next set_prev] in Hm. rewrite N3 in Hm. exact Hm.
Qed.

Lemma shrink_merge_wp s1 q lb' Q :
  lb = (q, false) :: lb' -> headed s1 -> mh_free s1 = mh_free s -> mh_available s1 = mh_available s ->
  dlist (mh_phys s1) (mh_start s + total (la ++ (n, true) :: lb)) (addrs (mh_start s) (la ++ (k, true) :: (n - k, false) :: lb)) ->
  (forall fl' s', heap_inv (join (la ++ (k, true) :: (n - k, false) :: lb)) fl' s' -> same_heap s s' -> Q tt s') ->
  wp (n0 ← MEMITEM_SIZE (x + n);
      modify (fun s => set_mh_available (u32 (mh_available s - n0)) s);;
      nn ← gets (fun s => next (mh_phys s) (x + n)); put_prev nn (x + k);;
      nn ← gets (fun s => next (mh_phys s) (x + n)); put_next (x + k) nn;;
      unlink_free (x + n))
    (fun _ => wp (push_free (x + k);; n ← MEMITEM_SIZE (x + k); give_back n) Q) s1.
Proof using Hi Hsize.
  intros El Hh Ef1 Ea1 H1 HQ. pose proof Hi as (Hr & Hp & Hc).
  destruct (rep_bounds _ _ _ _ _ _ Hr) as (B1 & B2 & B3 & B4 & B5 & B6). fold x in B6.
  pose proof (coalesced_cons _ _ (coalesced_app _ _ Hc)) as Hc2. pose proof (hr_avail _ _ _ Hr) as Ha.
  pose proof Hr as [W1 [_ W2]%wf_cons]%hr_wf%wf_app.
  rewrite free_sum_app in Ha. rewrite El in Ha, W2, B2, B6, Hc2. apply wf_cons in W2 as [[Hq _] W2].
  pose proof (free_sum_range _ W1). pose proof (free_sum_range _ W2). pose proof (total_nonneg _ W2).
  cbn [free_sum total fst] in *. assert (Hk : 24 < k /\ k + 24 <= n) by (unfold k, RT_MEMHEAP_SIZE in *; lia).
  pose proof (free_list_inside _ _ _ _ _ _ k Hi ltac:(lia)) as Hfresh. fold x in Hfresh.
  assert (X0 : 0 < x) by (unfold x; lia). unfold RT_MEMHEAP_SIZE in *.
  eapply shrink_unlink_wp; [done..|]. intros s2 f1 f2 Hh2 Ef Hd2 Hp2 En2 Ea2. rewrite Ef in Hfresh.
  apply (shrink_last_wp s2 (f1 ++ f2) (n - k + q)); unfold RT_MEMHEAP_SIZE; try (done || lia); [set_solver|].
  intros s3 Hh3 Hd3 Ep3 Ea3. eapply HQ; [|by apply Hh3].
  apply (shrink_inv (f1 ++ f2) (n - k + q) lb').
  - by eapply coalesced_cons.
  - by eapply coalesced_starts.
  - rewrite El. apply join_cons_free.
  - rewrite El. simpl. lia.
  - rewrite Ef, El, free_addrs_app in Hp. cbn [free_addrs] in Hp. fold x in Hp.
    rewrite <- !Permutation_middle in Hp. apply Permutation_cons_inv in Hp. rewrite Hp.
    by replace (x + k + (n - k + q)) with (x + n + q) by lia.
  - by apply Hh3.
  - apply (shrink_rep s3 _ [(q, false)]); [done|right; by exists q|simpl; lia|done|by rewrite Ep3|done|].
    rewrite Ea3, Ea2. cbn [free_sum]. unfold RT_MEMHEAP_SIZE. lia.
Qed.

Lemma shrink_body_wp Q :
  (forall fl' s', heap_inv (join (la ++ (k, true) :: (n - k, false) :: lb)) fl' s' -> same_heap s s' -> Q tt s') ->
  wp (shrink_body x size) Q s.
Proof using Hi Hsize.
  intros HQ. pose proof Hi as (Hr & Hp & Hc). destruct (rep_bounds _ _ _ _ _ _ Hr) as (B1 & B2 & B3 & B4 & B5 & B6).
  fold x in B6. unfold shrink_body. assert (Hk : 24 < k /\ k + 24 <= n) by (unfold k, RT_MEMHEAP_SIZE in *; lia).
  assert (X0 : 0 < x) by (unfold x; lia).
  replace (u32 (x + size + RT_MEMHEAP_SIZE)) with (x + k) by (unfold k, RT_MEMHEAP_SIZE in *; rewrite u32_id; lia).
  apply shrink_split_wp. intros h1 H1. set (s1 := set_mh_phys _ _).
  assert (Hh : headed s1) by by constructor. assert (Ef1 : mh_free s1 = mh_free s) by done.
  assert (Ea1 : mh_available s1 = mh_available s) by done. change h1 with (mh_phys s1) in H1. clearbody s1. clear h1.
  pose proof (free_list_inside _ _ _ _ _ _ k Hi ltac:(lia)) as Hfresh. fold x in Hfresh.
  destruct (shrink_neighbours _ H1) as (N1 & N2 & N3).
  pose proof (hr_avail _ _ _ Hr) as Ha. pose proof Hr as [W1 [_ W2]%wf_cons]%hr_wf%wf_app.
  pose proof (free_sum_range _ W1). pose proof (free_sum_range _ W2).
  rewrite free_sum_app in Ha. cbn [free_sum] in Ha. unfold RT_MEMHEAP_SIZE in *.
  unfold get_next. wp_step. wp_step. rewrite N1. wp_step.
  assert (Em : mh_magic s1 (x + n) = tag (match lb with (_, u) :: _ => u | [] => true end)).
  { pose proof Hr as Hr'. change ((n, true) :: lb) with ([(n, true)] ++ lb) in Hr'. rewrite app_assoc in Hr'.
    apply rep_magic_next in Hr'. rewrite total_app in Hr'. simpl in Hr'. rewrite Z.add_0_r, Z.add_assoc in Hr'.
    rewrite (hd_magic _ Hh), fupd_ne by lia. exact Hr'. }
  eapply is_used_wp; [exact Em|]. wp_step.
  destruct (starts_free_dec lb) as [(q & lb' & El)|Hns].
  - rewrite El. simpl. eapply shrink_merge_wp; [done..|]. exact HQ.
  - replace (match lb with (_, u) :: _ => u | [] => true end) with true
      by (destruct lb as [|[q []] lb']; [done..|]; destruct Hns; by exists q, lb').
    simpl. wp_step. apply (shrink_last_wp s1 fl (n - k)); unfold RT_MEMHEAP_SIZE; rewrite ?Ef1; try (done || lia); [apply (hr_free _ _ _ Hr)|].
    intros s3 Hh3 Hd3 Ep3 Ea3. eapply HQ; [|by apply Hh3].
    apply (shrink_inv fl (n - k) lb); [by eapply coalesced_cons, coalesced_app|done|done|lia| |by apply Hh3|].
    + rewrite Hp, free_addrs_app. cbn [free_addrs]. fold x. by replace (x + k + (n - k)) with (x + n) by lia.
    + apply (shrink_rep s3 (x + k :: fl) [] (n - k) lb); [done|by left|simpl; lia|done|by rewrite Ep3|done|].
      rewrite Ea3, Ea1. simpl. unfold RT_MEMHEAP_SIZE. lia.
Qed.
End shrink.
