(* ===== verification/MemHeapRealloc.v ===== *)
(** The memory heap of src/memheap.c: reallocation, in place or by moving the block. *)
From S2P Require Import Prelude KState Object DList MemHeap Blocks MemHeapInv MemHeapInit MemHeapProp MemHeapFree MemHeapShrink.
#[local] Open Scope Z_scope.

(** * A block is made larger in place *)

Section extend.
Context (la : list block) (n q : Z) (lb : list block) (fl : list Z) (s : memheap) (size : Z).
Let x : Z := mh_start s + total la.
Let k : Z := size + RT_MEMHEAP_SIZE.
Hypothesis Hi : heap_inv (la ++ (n, true) :: (q, false) :: lb) fl s.
Hypothesis Hsize : size mod 8 = 0 /\ n < k /\ k + RT_MEMHEAP_SIZE < n + q.

(** The free block behind leaves both lists. *)
Lemma remove_next_wp f1 f2 Q s1 :
  fl = f1 ++ x + n :: f2 -> mh_free s1 = mh_free s -> mh_phys s1 = mh_phys s ->
  (forall h1 h2, dlist h1 (mh_start s + total (la ++ (n, true) :: (q, false) :: lb)) (addrs (mh_start s) (la ++ (n + q, true) :: lb)) ->
     dlist h2 (mh_free_list s) (f1 ++ f2) -> Q tt (set_mh_phys h1 (set_mh_free h2 s1))) ->
  wp (_remove_next_ptr (x + n)) Q s1.
Proof using Hi.
  intros Ef E1 E2 HQ. destruct Hi as (Hr & _).
  pose proof (phys_merge _ _ _ _ true _ false _ true _ (hr_phys _ _ _ Hr)) as H1. fold x in H1.
  pose proof (hr_free _ _ _ Hr) as H2. rewrite Ef in H2. apply unlink_dlist in H2.
  unfold _remove_next_ptr, get_next, get_prev, get_next_free, get_prev_free, put_next, put_prev, put_next_free, put_prev_free.
  repeat wp_step. simpl. rewrite E1, E2. by apply HQ.
Qed.

Lemma extend_take_wp Q :
  (forall fl' s', heap_inv (la ++ (k, true) :: (n + q - k, false) :: lb) fl' s' -> same_heap s s' -> Q true s') ->
  wp (consume (size - (n - RT_MEMHEAP_SIZE));; _remove_next_ptr (x + n);; free_item (x + k);; insert_next x (x + k);;
      push_free (x + k);; mret true) Q s.
Proof using Hi Hsize.
  intros HQ. pose proof Hi as (Hr & Hp & Hc). pose proof (rep_bounds _ _ _ _ _ _ Hr) as (B1 & B2 & B3 & B4 & B5 & B6).
  pose proof Hr as [W1 [_ [[Hq Hq8] W2]%wf_cons]%wf_cons]%hr_wf%wf_app. pose proof (hr_avail _ _ _ Hr) as Ha.
  pose proof (free_sum_range _ W1). pose proof (free_sum_range _ W2). pose proof (total_nonneg _ W2).
  rewrite free_sum_app in Ha. cbn [free_sum total fst] in *. unfold RT_MEMHEAP_SIZE in *.
  assert (Hz : x + n ∈ fl) by (rewrite Hp, free_addrs_app; cbn [free_addrs]; fold x; set_solver).
  destruct (list_elem_of_split _ _ Hz) as (f1 & f2 & Ef).
  assert (Hp' : f1 ++ f2 ≡ₚ free_addrs (mh_start s) la ++ free_addrs (x + n + q) lb).
  { rewrite Ef, free_addrs_app in Hp. cbn [free_addrs] in Hp. fold x in Hp.
    rewrite <- !Permutation_middle in Hp. by apply Permutation_cons_inv in Hp. }
  assert (Hfresh : x + k ∉ mh_free_list s :: f1 ++ f2).
  { pose proof (hr_header _ _ _ Hr) as Hh. rewrite total_app in Hh. cbn [total fst] in Hh. apply not_elem_of_cons. split; [lia|].
    rewrite Hp', elem_of_app. intros [Hin%free_addrs_sub%addrs_range|Hin%free_addrs_sub%addrs_range]; (done || lia). }
  wp_step. apply consume_wp; [lia..|]. intros mx. wp_step. apply (remove_next_wp f1 f2); [done..|]. intros h1 h2 Hd1 Hd2.
  wp_step. apply free_item_wp. wp_step.
  replace (total (la ++ (n, true) :: (q, false) :: lb)) with (total (la ++ (n + q, true) :: lb)) in Hd1
    by (rewrite !total_app; simpl; lia).
  apply (insert_next_wp (mh_start s) x (x + k) la (n + q) true lb k true false); [|lia|done|done|exact Hd1|].
  { apply wf_app. split; [done|]. apply wf_cons. split; [|done]. Z.to_euclidean_division_equations; lia. }
  intros h3 Hd3. wp_step. apply (push_free_wp (mh_free_list s) _ (f1 ++ f2)); [done|exact Hd2|done|]. intros h4 Hd4. wp_step.
  apply (HQ (x + k :: f1 ++ f2)); [|by repeat split]. split; [|split].
  - apply (heap_rep_update la [(n, true); (q, false)] [(k, true); (n + q - k, false)] lb fl _ s); simpl.
    + exact Hr.
    + repeat constructor; simpl; Z.to_euclidean_division_equations; lia.
    + lia.
    + done.
    + rewrite total_app in *. cbn [total fst] in *. rewrite <- Z.add_assoc in Hd3. exact Hd3.
    + fold x. pose proof (rep_magic _ _ _ _ _ _ Hr) as T1. pose proof (rep_pool _ _ _ _ _ _ Hr) as T2. fold x in T1, T2.
      rewrite !fupd_eq, !fupd_ne by lia. done.
    + fold x. intros a Ha'. by rewrite !fupd_ne by lia.
    + exact Hd4.
    + unfold RT_MEMHEAP_SIZE. lia.
  - simpl. rewrite Hp', free_addrs_app. cbn [free_addrs]. fold x.
    replace (x + k + (n + q - k)) with (x + n + q) by lia. apply Permutation_middle.
  - pose proof (coalesced_prefix _ _ Hc) as C1. pose proof (coalesced_cons _ _ (coalesced_app _ _ Hc)) as C2.
    apply coalesced_used; [done|]. apply (coalesced_glue []); [done| |by eapply coalesced_cons|by eapply coalesced_starts].
    intros (l0 & m & E0). by destruct l0.
Qed.
End extend.

(** The blocks when the block is made larger in place, if it is. *)
Definition heap_extend (la : list block) (n : Z) (lb : list block) (size : Z) : option (list block) :=
  match lb with
  | (q, false) :: lb' =>
      if size + RT_MEMHEAP_MINIALLOC <? (q - RT_MEMHEAP_SIZE) + (n - RT_MEMHEAP_SIZE)
      then Some (la ++ (size + RT_MEMHEAP_SIZE, true) :: (n + q - (size + RT_MEMHEAP_SIZE), false) :: lb') else None
  | _ => None
  end.

Lemma memheap_extend_wp la n lb fl s size Q :
  let x := mh_start s + total la in
  heap_inv (la ++ (n, true) :: lb) fl s -> size mod 8 = 0 -> n - RT_MEMHEAP_SIZE < size < 2 ^ 32 - RT_MEMHEAP_MINIALLOC ->
  match heap_extend la n lb size with
  | Some l' => forall fl' s', heap_inv l' fl' s' -> same_heap s s' -> Q true s'
  | None => Q false s
  end -> wp (memheap_extend (x + RT_MEMHEAP_SIZE) x (n - RT_MEMHEAP_SIZE) size) Q s.
Proof.
  intros x Hi Hs8 Hs HQ. pose proof Hi as (Hr & Hp & Hc). pose proof (rep_bounds _ _ _ _ _ _ Hr) as (B1 & B2 & B3 & B4 & B5 & B6).
  fold x in B6. destruct (neighbour_next _ _ _ _ _ _ (hr_phys _ _ _ Hr)) as [En _]. fold x in En.
  assert (X0 : 0 < x) by (unfold x; lia). unfold RT_MEMHEAP_SIZE, RT_MEMHEAP_MINIALLOC in Hs.
  unfold memheap_extend, get_next. wp_step. wp_step. rewrite En. wp_step. wp_step; [apply Z.ltb_lt; lia|].
  assert (Em : mh_magic s (x + n) = tag (match lb with (_, u) :: _ => u | [] => true end)).
  { pose proof Hr as Hr'. change ((n, true) :: lb) with ([(n, true)] ++ lb) in Hr'. rewrite app_assoc in Hr'.
    apply rep_magic_next in Hr'. rewrite total_app in Hr'. simpl in Hr'. by rewrite Z.add_0_r, Z.add_assoc in Hr'. }
  wp_step. eapply is_used_wp; [exact Em|].
  destruct lb as [|[q []] lb']; [by simpl; wp_step..|]. simpl. cbn [heap_extend] in HQ.
  pose proof Hr as Hr2. change ((n, true) :: (q, false) :: lb') with ([(n, true)] ++ (q, false) :: lb') in Hr2. rewrite app_assoc in Hr2.
  destruct (rep_bounds _ _ _ _ _ _ Hr2) as (_ & C2 & C3 & _ & _ & C6). rewrite total_app in C6. cbn [total fst] in C6.
  pose proof (item_size _ _ _ Hr2 _ _ _ _ eq_refl) as Ei. rewrite total_app in Ei. cbn [total fst] in Ei.
  replace (mh_start s + (total la + (n + 0))) with (x + n) in Ei by (unfold x; lia).
  unfold RT_MEMHEAP_SIZE in *. unfold MEMITEM_SIZE, RT_MEMHEAP_SIZE, RT_MEMHEAP_MINIALLOC in *. wp_step. wp_step. rewrite Ei.
  wp_step. wp_step; [apply Z.ltb_lt; lia|].
  rewrite (u32_id (size + 16)) by lia.
  replace (u32 (i32 (q - 24) + (n - 24))) with (q - 24 + (n - 24))
    by (unfold i32, u32, uwrap; Z.to_euclidean_division_equations; lia).
  destruct (Z.ltb_spec (size + 16) (q - 24 + (n - 24))); [|by wp_step].
  replace (u32 (x + 24 + size)) with (x + (size + 24)) by (rewrite u32_id; lia).
  apply (extend_take_wp la n q lb' fl s size); [done|unfold RT_MEMHEAP_SIZE; lia|exact HQ].
Qed.

(** * A block that is moved *)

(** The block at address [a] serves a request of [size] bytes; it becomes free. *)
Fixpoint occupy (o : Z) (l : list block) (a size : Z) : list block :=
  match l with
  | [] => []
  | (n, u) :: l => if a =? o then heap_carve size n ++ l else (n, u) :: occupy (o + n) l a size
  end.

Fixpoint release (o : Z) (l : list block) (a : Z) : list block :=
  match l with
  | [] => []
  | (n, u) :: l => if a =? o then (n, false) :: l else (n, u) :: release (o + n) l a
  end.

Lemma occupy_split o l1 n u l2 size : wf l1 ->
  occupy o (l1 ++ (n, u) :: l2) (o + total l1) size = l1 ++ heap_carve size n ++ l2.
Proof.
  intros Hw. revert o. induction Hw as [|[m w] l1 [Hm _] Hl1 IH]; intros o; cbn [app occupy total].
  - by rewrite Z.add_0_r, Z.eqb_refl.
  - pose proof (total_nonneg _ Hl1). simpl in *. rewrite (proj2 (Z.eqb_neq _ _)) by lia. by rewrite Z.add_assoc, IH.
Qed.

Lemma release_split o l1 n u l2 : wf l1 ->
  release o (l1 ++ (n, u) :: l2) (o + total l1) = l1 ++ (n, false) :: l2.
Proof.
  intros Hw. revert o. induction Hw as [|[m w] l1 [Hm _] Hl1 IH]; intros o; cbn [app release total].
  - by rewrite Z.add_0_r, Z.eqb_refl.
  - pose proof (total_nonneg _ Hl1). simpl in *. rewrite (proj2 (Z.eqb_neq _ _)) by lia. by rewrite Z.add_assoc, IH.
Qed.

(** A block in use and a free block of one list are in one of two orders. *)
Lemma two_blocks la n lb la0 m (lb0 : list block) :
  la ++ (n, true) :: lb = la0 ++ (m, false) :: lb0 ->
  (exists c, la = la0 ++ (m, false) :: c /\ lb0 = c ++ (n, true) :: lb) \/
  (exists c, la0 = la ++ (n, true) :: c /\ lb = c ++ (m, false) :: lb0).
Proof.
  intros E. apply app_eq_inv in E as [(c & E1 & E2)|(c & E1 & E2)].
  - destruct c as [|b c]; cbn [app] in E2; [congruence|]. injection E2 as <- ->. left. by exists c.
  - destruct c as [|b c]; cbn [app] in E2; [congruence|]. injection E2 as <- ->. right. by exists c.
Qed.

Lemma total_carve size n : total (heap_carve size n) = n.
Proof. unfold heap_carve. case_match; simpl; lia. Qed.

(** The blocks when the free block [(m, false)] serves the request: the block in use is
    still there, at the same address, and the two do not overlap. *)
Lemma occupy_other la n lb la0 m lb0 size o :
  la ++ (n, true) :: lb = la0 ++ (m, false) :: lb0 -> wf (la ++ (n, true) :: lb) ->
  exists la1 lb1, la0 ++ heap_carve size m ++ lb0 = la1 ++ (n, true) :: lb1 /\ total la1 = total la /\
    (o + total la0 + m <= o + total la \/ o + total la + n <= o + total la0).
Proof.
  intros E Hw. destruct (two_blocks _ _ _ _ _ _ E) as [(c & -> & ->)|(c & -> & ->)].
  - exists (la0 ++ heap_carve size m ++ c), lb. rewrite <- !app_assoc. split; [done|].
    apply wf_app in Hw as [[_ [_ Wc]%wf_cons]%wf_app _]. pose proof (total_nonneg _ Wc).
    rewrite !total_app, total_carve. cbn [total fst]. lia.
  - exists la, (c ++ heap_carve size m ++ lb0). rewrite <- !app_assoc. split; [done|].
    apply wf_app in Hw as [_ [_ [Wc _]%wf_app]%wf_cons]. pose proof (total_nonneg _ Wc).
    rewrite !total_app. cbn [total fst]. lia.
Qed.

Lemma heap_request_id size : 0 <= size < 2 ^ 32 - 64 -> heap_request (heap_request size) = heap_request size.
Proof.
  intros Hs. destruct (heap_request_bounds size ltac:(lia)) as (H1 & H2 & _ & H3).
  assert (H4 : heap_request size < 2 ^ 32 - 40).
  { unfold heap_request, RT_MEMHEAP_MINIALLOC, RT_ALIGN_SIZE. destruct (RT_ALIGN_8_bounds size ltac:(lia)). case_bool; lia. }
  set (r := heap_request size) in *. unfold heap_request, RT_MEMHEAP_MINIALLOC, RT_ALIGN_SIZE. rewrite RT_ALIGN_8 by lia.
  replace (8 * ((r + 7) / 8)) with r by (Z.to_euclidean_division_equations; lia). by rewrite (proj2 (Z.ltb_ge _ _)).
Qed.

(** Everything but the bytes of the region. *)
Definition same_but_data (s s' : memheap) : Prop := same_heap s (set_mh_data (mh_data s) s').

(** Invariants do not depend on the bytes. *)
Lemma heap_inv_data l fl s d : heap_inv l fl s -> heap_inv l fl (set_mh_data d s).
Proof. intros ([] & Hp & Hc). by split_and!. Qed.

(** What it means that the block at [x] was moved to the free block [a]. *)
Definition moved (l : list block) (x n size a p : Z) (s s' : memheap) : Prop :=
  p = a + RT_MEMHEAP_SIZE /\ same_but_data s s' /\
  (p + size <= x \/ x + n <= a) /\
  (forall i, 0 <= i < n - RT_MEMHEAP_SIZE -> mh_data s' (p + i) = mh_data s (x + RT_MEMHEAP_SIZE + i)) /\
  (forall z, ~ p <= z < p + (n - RT_MEMHEAP_SIZE) -> mh_data s' z = mh_data s z) /\
  exists fl', heap_inv (join (release (mh_start s) (occupy (mh_start s) l a size) x)) fl' s'.

Lemma heap_copy_wp dst src n Q (s : memheap) :
  (forall d, (forall i, 0 <= i < n -> d (dst + i) = mh_data s (src + i)) ->
     (forall z, ~ dst <= z < dst + n -> d z = mh_data s z) -> Q tt (set_mh_data d s)) ->
  wp (heap_copy dst src n) Q s.
Proof.
  intros HQ. unfold heap_copy. wp_step. apply HQ.
  - intros i Hi. rewrite (proj2 (Z.leb_le _ _)), (proj2 (Z.ltb_lt _ _)) by lia. simpl. f_equal. lia.
  - intros z Hz. destruct (Z.leb_spec dst z), (Z.ltb_spec z (dst + n)); try done. lia.
Qed.

Lemma realloc_move_wp wait la n lb fl s newsize :
  let l := la ++ (n, true) :: lb in
  let r := heap_request newsize in
  let x := mh_start s + total la in
  heap_inv l fl s -> lock_ok s -> 0 <= newsize < 2 ^ 32 - 64 -> n - RT_MEMHEAP_SIZE < r ->
  wp (new_ptr ← rt_memheap_alloc wait r;
      (if negb (new_ptr =? 0) then
         heap_copy new_ptr (x + RT_MEMHEAP_SIZE) (n - RT_MEMHEAP_SIZE);;
         rt_memheap_free wait (x + RT_MEMHEAP_SIZE)
       else mret tt);;
      mret new_ptr) (fun p s' =>
    match (if r <? free_sum l then first_fit (mh_start s) l r fl else None) with
    | Some a => moved l x n r a p s s'
    | None => p = 0 /\ s' = s
    end) s.
Proof.
  intros l r x Hi Hl Hs Hr. pose proof Hi as (Hrep & _). pose proof (hr_wf _ _ _ Hrep) as Hw.
  pose proof (hr_start _ _ _ Hrep) as [S1 _]. destruct (heap_request_bounds newsize ltac:(lia)) as (R1 & R2 & R3 & R4).
  assert (R5 : r < 2 ^ 32 - 8).
  { unfold r, heap_request, RT_MEMHEAP_MINIALLOC, RT_ALIGN_SIZE in *. destruct (RT_ALIGN_8_bounds newsize ltac:(lia)). case_bool; lia. }
  wp_step. eapply wp_mono; [apply (memheap_alloc_wp wait l fl s r); [done..|fold r in R1; lia]|].
  assert (Er : heap_request r = r) by (apply heap_request_id; lia).
  cbv beta zeta. rewrite Er. intros p s1.
  destruct (if r <? free_sum l then _ else _) as [a|].
  2:{ intros [-> ->]. simpl. by repeat wp_step. }
  intros (la0 & m & lb0 & f1 & f2 & El & Ea & _ & Hm & Ep & Hi1 & Hs1).
  destruct (occupy_other la n lb la0 m lb0 r (mh_start s) El Hw) as (la1 & lb1 & E1 & T1 & Hdis). rewrite E1 in Hi1.
  assert (Est : mh_start s1 = mh_start s) by apply Hs1. assert (Ed : mh_data s1 = mh_data s) by apply Hs1.
  assert (W0 : wf la0) by (fold l in Hw; rewrite El in Hw; by apply wf_app in Hw as [? _]).
  pose proof (total_nonneg _ W0). unfold RT_MEMHEAP_SIZE in *.
  rewrite (proj2 (Z.eqb_neq _ _)) by lia. simpl. wp_step. wp_step.
  apply heap_copy_wp. intros d D1 D2. rewrite Ed in D1, D2.
  apply (heap_inv_data _ _ _ d) in Hi1. assert (Ex : x + 24 = mh_start (set_mh_data d s1) + total la1 + 24) by (simpl; unfold x; lia).
  rewrite Ex. eapply wp_mono; [apply (memheap_free_wp wait la1 n lb1 _ _ Hi1)|].
  { exact (lock_ok_same s s1 Hl Hs1). }
  cbv beta. intros _ s2 (Hs2 & fl' & Hi2). wp_step. unfold moved.
  assert (Ed2 : mh_data s2 = d) by apply Hs2. rewrite Ed2.
  split_and!; try done.
  - destruct Hs1 as (?&?&?&?&?&?&?&?), Hs2 as (?&?&?&?&?&?&?&?). simpl in *. unfold same_but_data, same_heap. simpl. split_and!; congruence.
  - unfold x. lia.
  - exists fl'. rewrite El, Ea, occupy_split, E1 by done. unfold x. rewrite <- T1, release_split; [done|].
    destruct Hi1 as (Hr1 & _). by pose proof (hr_wf _ _ _ Hr1) as [? _]%wf_app.
Qed.

(** * Reallocation *)

Definition heap_shrink (la : list block) (n : Z) (lb : list block) (size : Z) : list block :=
  if n - RT_MEMHEAP_SIZE <=? size + RT_MEMHEAP_SIZE + RT_MEMHEAP_MINIALLOC then la ++ (n, true) :: lb
  else join (la ++ (size + RT_MEMHEAP_SIZE, true) :: (n - (size + RT_MEMHEAP_SIZE), false) :: lb).

(** [rt_memheap_realloc] on lists of blocks, for the block [(n, true)] behind [la]. *)
Definition realloc_spec (la : list block) (n : Z) (lb : list block) (fl : list Z) (newsize : Z) (s : memheap) (p : Z) (s' : memheap) : Prop :=
  let l := la ++ (n, true) :: lb in
  let r := heap_request newsize in
  let x := mh_start s + total la in
  let stays l' := p = x + RT_MEMHEAP_SIZE /\ same_heap s s' /\ exists fl', heap_inv l' fl' s' in
  if r <=? n - RT_MEMHEAP_SIZE then stays (heap_shrink la n lb r)
  else match heap_extend la n lb r with
       | Some l' => stays l'
       | None =>
           match (if r <? free_sum l then first_fit (mh_start s) l r fl else None) with
           | Some a => moved l x n r a p s s'
           | None => p = 0 /\ s' = s
           end
       end.

Lemma memheap_shrink_wp wait la n lb fl s size Q :
  let x := mh_start s + total la in
  heap_inv (la ++ (n, true) :: lb) fl s -> lock_ok s ->
  16 <= size /\ size mod 8 = 0 /\ size + RT_MEMHEAP_SIZE + RT_MEMHEAP_SIZE <= n ->
  (forall s', same_heap s s' ->
     (exists fl', heap_inv (join (la ++ (size + RT_MEMHEAP_SIZE, true) :: (n - (size + RT_MEMHEAP_SIZE), false) :: lb)) fl' s') ->
     Q (x + RT_MEMHEAP_SIZE) s') ->
  wp (memheap_shrink wait (x + RT_MEMHEAP_SIZE) x size) Q s.
Proof.
  intros x Hi Hl Hs HQ. unfold memheap_shrink. wp_step. apply heap_lock_wp; [done|]. simpl.
  assert (Ex : x = mh_start (held s) + total la) by (by rewrite held_start). rewrite Ex at 1.
  wp_step. apply (shrink_body_wp la n lb fl (held s) size (heap_inv_held _ _ _ Hi) Hs). intros fl' s' Hi' Hs'.
  destruct (held_same _ _ Hs') as (L1 & L2 & Hsame). wp_step. apply (heap_unlock_wp _ s); [done..|]. wp_step.
  apply HQ; [done|]. exists fl'. by apply heap_inv_lock.
Qed.

Lemma memheap_realloc_wp wait la n lb fl s newsize :
  heap_inv (la ++ (n, true) :: lb) fl s -> lock_ok s -> 0 < newsize < 2 ^ 32 - 64 ->
  wp (rt_memheap_realloc wait (mh_start s + total la + RT_MEMHEAP_SIZE) newsize)
    (realloc_spec la n lb fl newsize s) s.
Proof.
  intros Hi Hl Hs. pose proof Hi as (Hr & _). destruct (rep_bounds _ _ _ _ _ _ Hr) as (B1 & B2 & B3 & B4 & B5 & B6).
  destruct (heap_request_bounds newsize ltac:(lia)) as (R1 & R2 & R3 & R4).
  assert (R5 : heap_request newsize < 2 ^ 32 - 16).
  { unfold heap_request, RT_MEMHEAP_MINIALLOC, RT_ALIGN_SIZE in *. destruct (RT_ALIGN_8_bounds newsize ltac:(lia)). case_bool; lia. }
  unfold rt_memheap_realloc, realloc_spec. fold (heap_request newsize). set (r := heap_request newsize) in *.
  set (x := mh_start s + total la) in *. pose proof (item_size _ _ _ Hr _ _ _ _ eq_refl : u32 (_ x - x - _) = _) as Ei.
  wp_step. eapply checked_wp; [exact Hr|]. rewrite (proj2 (Z.eqb_neq newsize 0)) by lia.
  unfold RT_MEMHEAP_SIZE, RT_MEMHEAP_MINIALLOC in *. rewrite (proj2 (Z.eqb_neq _ 0)) by (unfold x; lia).
  replace (u32 (x + 24 - 24)) with x by (rewrite u32_id; unfold x; lia).
  unfold MEMITEM_SIZE, RT_MEMHEAP_SIZE. wp_step. wp_step. rewrite Ei.
  destruct (Z.leb_spec r (n - 24)) as [Hle|Hgt].
  - rewrite (proj2 (Z.ltb_ge _ _)) by lia. rewrite (u32_id (r + 24 + 16)) by (unfold x in *; lia).
    unfold heap_shrink, RT_MEMHEAP_SIZE, RT_MEMHEAP_MINIALLOC. destruct (Z.leb_spec (n - 24) (r + 24 + 16)).
    + wp_step. split; [done|]. split; [apply same_heap_refl|by exists fl].
    + apply (memheap_shrink_wp wait la n lb fl); [done..|unfold RT_MEMHEAP_SIZE; lia|]. by intros s' Hsame Hi'.
  - rewrite (proj2 (Z.ltb_lt _ _)) by lia. wp_step. apply heap_lock_wp; [done|]. simpl. wp_step.
    pose proof (heap_inv_held _ _ _ Hi) as Hi1. assert (Ex : x = mh_start (held s) + total la) by (by rewrite held_start).
    rewrite Ex at 1 2. apply (memheap_extend_wp la n lb fl (held s) r); [done..|unfold RT_MEMHEAP_SIZE, RT_MEMHEAP_MINIALLOC; lia|].
    destruct (heap_extend la n lb r) as [l'|].
    + intros fl' s' Hi' Hs'. destruct (held_same _ _ Hs') as (L1 & L2 & Hsame). wp_step.
      apply (heap_unlock_wp _ s); [done..|]. wp_step. split; [done|]. split; [done|]. exists fl'. by apply heap_inv_lock.
    + wp_step. apply (heap_unlock_wp _ s); [done|unfold held; by case_match|done|]. rewrite held_release.
      apply (realloc_move_wp wait la n lb fl s newsize); [done..|lia|unfold RT_MEMHEAP_SIZE; lia].
Qed.

(** C12: [rt_memheap_realloc] of a block in use, with a free lock, implements reallocation on
    lists of blocks.  A smaller request keeps the block and frees its end when that can hold
    a block; a larger one is served in place when the block behind is free and large enough,
    else from the free list: then the bytes of the block are copied to a range that does not
    overlap it, no other byte changes and the old block is freed.  Without a block that is
    large enough NULL is returned and nothing changes. *)
Theorem rt_memheap_realloc_refines wait la n lb fl s newsize :
  heap_inv (la ++ (n, true) :: lb) fl s -> lock_ok s -> 0 < newsize < 2 ^ 32 - 64 ->
  wp (rt_memheap_realloc wait (mh_start s + total la + RT_MEMHEAP_SIZE) newsize)
    (realloc_spec la n lb fl newsize s) s.
Proof. apply memheap_realloc_wp. Qed.

(** The block behind is free: the block grows in place. *)
Lemma rt_memheap_realloc_refines_witness :
  wp (rt_memheap_realloc (fun s => (0, s)) (mh_start demo_heap_used + 0 + RT_MEMHEAP_SIZE) 200)
    (realloc_spec [] 128 [(872, false)] [4224] 200 demo_heap_used) demo_heap_used.
Proof.
  apply (rt_memheap_realloc_refines _ [] 128 [(872, false)] [4224] demo_heap_used 200); [apply demo_heap_used_inv| |lia].
  destruct demo_heap_used_inv as [_ Hs]. exact (lock_ok_same _ _ demo_heap_lock Hs).
Defined.
