(* ===== verification/ByteMem.v ===== *)
(** Byte-addressed memory: the accesses of the routines in src/klibc, strings in memory,
    and the lemmas on ranges of bytes their proofs share.

    An address that is not in the map is not accessible: an access to it stops the
    computation.  Words are four bytes in little-endian order.  A [char] is unsigned, as on
    the Arm targets. *)
From stdpp Require Import gmap.
From S2P Require Import Prelude.
#[local] Open Scope Z_scope.

Abbreviation mem := (gmap Z Z).
Abbreviation B := (M (gmap Z Z)).

(** A loop that has used up its fuel. *)
Definition stuck {A} : B A := deref None.

Definition load (p : Z) : B Z := m ← get; deref (m !! p).
Definition store (p c : Z) : B unit :=
  m ← get;
  RT_ASSERT (bool_decide (is_Some (m !! p)));;
  modify (insert p c).

Definition le_word (b0 b1 b2 b3 : Z) : Z :=
  Z.lor b0 (Z.shiftl (Z.lor b1 (Z.shiftl (Z.lor b2 (Z.shiftl b3 8)) 8)) 8).
Definition word_byte (i w : Z) : Z := u8 (Z.shiftr w (8 * i)).

Definition load_word (p : Z) : B Z :=
  b0 ← load p; b1 ← load (p + 1); b2 ← load (p + 2); b3 ← load (p + 3);
  mret (le_word b0 b1 b2 b3).
Definition store_word (p w : Z) : B unit :=
  store p (word_byte 0 w);; store (p + 1) (word_byte 1 w);;
  store (p + 2) (word_byte 2 w);; store (p + 3) (word_byte 3 w).

(** * Ranges of bytes *)

Definition is_byte (c : Z) : Prop := 0 <= c < 256.

(** The bytes [l] stand at address [p]. *)
Fixpoint bytes_at (m : mem) (p : Z) (l : list Z) : Prop :=
  match l with
  | [] => True
  | c :: l => m !! p = Some c /\ bytes_at m (p + 1) l
  end.

(** [n] bytes from [p] on are accessible. *)
Definition accessible (m : mem) (p : Z) (n : nat) : Prop :=
  forall a, p <= a < p + Z.of_nat n -> is_Some (m !! a).

(** The memory with [l] written at [p]. *)
Fixpoint put_bytes (p : Z) (l : list Z) (m : mem) : mem :=
  match l with
  | [] => m
  | c :: l => put_bytes (p + 1) l (<[p := c]> m)
  end.

(** The string [s] stands at [p], followed by its NUL. *)
Fixpoint cstr (m : mem) (p : Z) (s : list Z) : Prop :=
  match s with
  | [] => m !! p = Some 0
  | c :: s => m !! p = Some c /\ c <> 0 /\ cstr m (p + 1) s
  end.

Section mem.
Implicit Types m : mem.

Lemma load_wp p c Q m : m !! p = Some c -> Q c m -> wp (load p) Q m.
Proof. intros E HQ. unfold load. wp_step. wp_step. by wp_step. Qed.

Lemma store_wp p c Q m : is_Some (m !! p) -> Q tt (<[p := c]> m) -> wp (store p c) Q m.
Proof.
  intros E HQ. unfold store. wp_step. wp_step. wp_step. wp_step; [by apply bool_decide_eq_true|].
  by wp_step.
Qed.

Lemma accessible_head m p n : accessible m p (S n) -> is_Some (m !! p).
Proof. intros H. apply H. lia. Qed.

Lemma accessible_tail m p n : accessible m p (S n) -> accessible m (p + 1) n.
Proof. intros H a Ha. apply H. lia. Qed.

Lemma accessible_le m p n k : accessible m p n -> (k <= n)%nat -> accessible m p k.
Proof. intros H Hk a Ha. apply H. lia. Qed.

Lemma accessible_insert m p n a c : accessible m p n -> accessible (<[a := c]> m) p n.
Proof. intros H x Hx. apply lookup_insert_is_Some'. right. by apply H. Qed.

Lemma bytes_at_insert m p l a c :
  bytes_at m p l -> ~ p <= a < p + Z.of_nat (length l) -> bytes_at (<[a := c]> m) p l.
Proof.
  revert p. induction l as [|b l IH]; intros p; [done|]. simpl. intros [E H] Ha. split.
  - rewrite lookup_insert_ne by lia. done.
  - apply IH; [done|]. simpl in Ha. lia.
Qed.

Lemma bytes_at_accessible m p l : bytes_at m p l -> accessible m p (length l).
Proof.
  revert p. induction l as [|b l IH]; intros p; simpl.
  - intros _ a Ha. simpl in Ha. lia.
  - intros [E H] a Ha. destruct (decide (a = p)) as [->|]; [eauto|]. apply (IH _ H). lia.
Qed.

Lemma bytes_at_lookup m p l :
  bytes_at m p l <-> forall i c, l !! i = Some c -> m !! (p + Z.of_nat i) = Some c.
Proof.
  revert p. induction l as [|b l IH]; intros p; simpl; [done|]. rewrite IH. split.
  - intros [E H] [|i] c Hc; simpl in Hc; [by simplify_eq; rewrite Z.add_0_r|].
    rewrite Nat2Z.inj_succ. rewrite <- (H i c Hc). f_equal. lia.
  - intros H. split; [rewrite <- (H 0%nat b) by done; f_equal; lia|].
    intros i c Hc. rewrite <- (H (S i) c Hc). f_equal. lia.
Qed.

Lemma put_bytes_lookup p l m a :
  put_bytes p l m !! a = if decide (p <= a < p + Z.of_nat (length l)) then l !! Z.to_nat (a - p) else m !! a.
Proof.
  revert p m. induction l as [|c l IH]; intros p m; cbn [put_bytes length].
  - rewrite decide_False by (simpl; lia). done.
  - rewrite IH. destruct (decide (a = p)) as [->|].
    + rewrite decide_False, decide_True by lia. rewrite lookup_insert_eq.
      replace (Z.to_nat (p - p)) with 0%nat by lia. done.
    + destruct (decide (p + 1 <= a < p + 1 + Z.of_nat (length l))).
      * rewrite decide_True by lia. replace (Z.to_nat (a - p)) with (S (Z.to_nat (a - (p + 1)))) by lia. done.
      * rewrite decide_False by lia. by rewrite lookup_insert_ne.
Qed.

Lemma put_bytes_app p l k m :
  put_bytes p (l ++ k) m = put_bytes (p + Z.of_nat (length l)) k (put_bytes p l m).
Proof.
  revert p m. induction l as [|c l IH]; intros p m; cbn [put_bytes app length].
  - f_equal. simpl. lia.
  - rewrite IH. f_equal. lia.
Qed.

Lemma bytes_at_put p l m : bytes_at (put_bytes p l m) p l.
Proof.
  apply bytes_at_lookup. intros i c Hc. pose proof (lookup_lt_Some _ _ _ Hc) as Hi.
  rewrite put_bytes_lookup, decide_True by lia. replace (Z.to_nat (p + Z.of_nat i - p)) with i by lia. done.
Qed.

Lemma bytes_at_put_apart p l q k m :
  bytes_at m q k -> q + Z.of_nat (length k) <= p \/ p + Z.of_nat (length l) <= q ->
  bytes_at (put_bytes p l m) q k.
Proof.
  rewrite !bytes_at_lookup. intros H Hd i c Hc. pose proof (lookup_lt_Some _ _ _ Hc) as Hi.
  rewrite put_bytes_lookup, decide_False by lia. by apply H.
Qed.

Lemma accessible_put p l m q n : accessible m q n -> accessible (put_bytes p l m) q n.
Proof.
  revert p m. induction l as [|c l IH]; intros p m H; [done|]. simpl. by apply IH, accessible_insert.
Qed.

(** * Strings *)

Lemma cstr_bytes m p s : cstr m p s <-> bytes_at m p (s ++ [0]) /\ Forall (fun c => c <> 0) s.
Proof.
  revert p. induction s as [|c s IH]; intros p; simpl; [naive_solver|]. rewrite IH, Forall_cons. naive_solver.
Qed.

Lemma cstr_agree m m' p s :
  cstr m p s -> (forall a, p <= a <= p + Z.of_nat (length s) -> m' !! a = m !! a) -> cstr m' p s.
Proof.
  revert p. induction s as [|c s IH]; intros p; simpl.
  - intros <- H. apply H. lia.
  - intros (E & Hc & Hs) H. split; [rewrite H by lia; done|]. split; [done|].
    apply IH; [done|]. intros a Ha. apply H. lia.
Qed.

Lemma cstr_put_apart p l q s m :
  cstr m q s -> q + Z.of_nat (length s) + 1 <= p \/ p + Z.of_nat (length l) <= q ->
  cstr (put_bytes p l m) q s.
Proof.
  rewrite !cstr_bytes. intros [H Hs] Hd. split; [|done]. apply bytes_at_put_apart; [done|].
  rewrite length_app. simpl. lia.
Qed.

Lemma cstr_insert p c q s m :
  cstr m q s -> ~ q <= p <= q + Z.of_nat (length s) -> cstr (<[p := c]> m) q s.
Proof. intros H Hd. apply (cstr_put_apart p [c]); [done|]. simpl. lia. Qed.

(** A range of accessible bytes has at most as many bytes as the memory: the size of the
    memory is enough fuel for a walk over it. *)
Lemma accessible_size m p n : accessible m p n -> (n <= size m)%nat.
Proof.
  revert m p. induction n as [|n IH]; intros m p H; [lia|].
  destruct (accessible_head _ _ _ H) as [c Hc].
  rewrite <- (insert_delete_id m p c Hc), map_size_insert_None by apply lookup_delete_eq.
  apply le_n_S, (IH _ (p + 1)). intros a Ha. rewrite lookup_delete_ne by lia. apply H. lia.
Qed.

Lemma cstr_size m p s : cstr m p s -> (length s < size m)%nat.
Proof.
  rewrite cstr_bytes. intros [H _]. apply bytes_at_accessible, accessible_size in H.
  rewrite length_app in H. simpl in H. lia.
Qed.

(** * Words *)

Lemma lor_shiftl x y k : 0 <= k -> 0 <= x < 2 ^ k -> Z.lor x (Z.shiftl y k) = x + 2 ^ k * y.
Proof.
  intros Hk Hx. rewrite (Z.mul_comm _ y), <- Z.shiftl_mul_pow2 by done.
  assert (E : Z.land x (Z.shiftl y k) = 0).
  { apply Z.bits_inj'. intros i Hi. rewrite Z.land_spec, Z.bits_0, Z.shiftl_spec by done.
    destruct (Z.lt_ge_cases i k).
    - rewrite (Z.testbit_neg_r y) by lia. apply andb_false_r.
    - rewrite <- (Z.mod_small x (2 ^ k)), Z.mod_pow2_bits_high by lia. done. }
  by rewrite <- Z.lxor_lor, Z.add_nocarry_lxor.
Qed.

Lemma word_byte_le_word b0 b1 b2 b3 :
  is_byte b0 -> is_byte b1 -> is_byte b2 -> is_byte b3 ->
  let w := le_word b0 b1 b2 b3 in
  word_byte 0 w = b0 /\ word_byte 1 w = b1 /\ word_byte 2 w = b2 /\ word_byte 3 w = b3.
Proof.
  intros H0 H1 H2 H3 w. unfold is_byte in *.
  assert (E : w = b0 + 2 ^ 8 * (b1 + 2 ^ 8 * (b2 + 2 ^ 8 * b3))).
  { unfold w, le_word. by rewrite !lor_shiftl by lia. }
  unfold word_byte, u8, uwrap. rewrite !Z.shiftr_div_pow2 by lia. rewrite E. clear E w.
  change (8 * 0) with 0. change (8 * 1) with 8. change (8 * 2) with 16. change (8 * 3) with 24.
  split_and!; Z.to_euclidean_division_equations; lia.
Qed.
End mem.
