(* ===== verification/KString.v ===== *)
(** The memory and string routines of src/klibc/kstring.c, in the variants of the build
    (the kernel's own code, not the tiny one), and what they compute. *)
From stdpp Require Import gmap.
From S2P Require Import Prelude ByteMem.
#[local] Open Scope Z_scope.

Definition i8 (z : Z) : Z := (z + 128) mod 256 - 128.

(** [sizeof(rt_ubase_t)] and [sizeof(long)] *)
Definition LBLOCKSIZE : Z := 4.
Definition BIGBLOCKSIZE : Z := Z.shiftl LBLOCKSIZE 2.

(** * Memory blocks *)

(** [while (count--) *m++ = d] *)
Fixpoint memset_bytes (count : nat) (m d : Z) : B unit :=
  match count with
  | O => mret tt
  | S count => store m d;; memset_bytes count (m + 1) d
  end.

(** The loop that fills four words per turn, and the one that fills one; they return the
    address and the count that are left. *)
Fixpoint memset_big (fuel : nat) (aligned_addr count buffer : Z) : B (Z * Z) :=
  if LBLOCKSIZE * 4 <=? count then
    match fuel with
    | O => stuck
    | S fuel =>
        store_word aligned_addr buffer;;
        store_word (aligned_addr + 4) buffer;;
        store_word (aligned_addr + 8) buffer;;
        store_word (aligned_addr + 12) buffer;;
        memset_big fuel (aligned_addr + 16) (count - 4 * LBLOCKSIZE) buffer
    end
  else mret (aligned_addr, count).

Fixpoint memset_words (fuel : nat) (aligned_addr count buffer : Z) : B (Z * Z) :=
  if LBLOCKSIZE <=? count then
    match fuel with
    | O => stuck
    | S fuel =>
        store_word aligned_addr buffer;;
        memset_words fuel (aligned_addr + 4) (count - LBLOCKSIZE) buffer
    end
  else mret (aligned_addr, count).

Definition rt_memset (s c count : Z) : B Z :=
  let d := Z.land (u32 c) 255 in
  '(m, count) ←
    (if negb (count <? LBLOCKSIZE) && (Z.land s (LBLOCKSIZE - 1) =? 0) then
       let buffer := le_word d d d d in
       '(addr, count) ← memset_big (Z.to_nat count) s count buffer;
       memset_words (Z.to_nat count) addr count buffer
     else mret (s, count));
  memset_bytes (Z.to_nat count) m d;;
  mret s.

(** [while (len--) *dst_ptr++ = *src_ptr++] *)
Fixpoint copy_bytes (len : nat) (dst src : Z) : B unit :=
  match len with
  | O => mret tt
  | S len => c ← load src; store dst c;; copy_bytes len (dst + 1) (src + 1)
  end.

Definition copy_word (dst src : Z) : B unit := w ← load_word src; store_word dst w.

Fixpoint copy_big (fuel : nat) (dst src len : Z) : B (Z * Z * Z) :=
  if BIGBLOCKSIZE <=? len then
    match fuel with
    | O => stuck
    | S fuel =>
        copy_word dst src;;
        copy_word (dst + 4) (src + 4);;
        copy_word (dst + 8) (src + 8);;
        copy_word (dst + 12) (src + 12);;
        copy_big fuel (dst + 16) (src + 16) (len - BIGBLOCKSIZE)
    end
  else mret (dst, src, len).

Fixpoint copy_words (fuel : nat) (dst src len : Z) : B (Z * Z * Z) :=
  if LBLOCKSIZE <=? len then
    match fuel with
    | O => stuck
    | S fuel => copy_word dst src;; copy_words fuel (dst + 4) (src + 4) (len - LBLOCKSIZE)
    end
  else mret (dst, src, len).

Definition rt_memcpy (dst src count : Z) : B Z :=
  '(dst_ptr, src_ptr, len) ←
    (if negb (count <? BIGBLOCKSIZE) &&
        (Z.lor (Z.land src (LBLOCKSIZE - 1)) (Z.land dst (LBLOCKSIZE - 1)) =? 0) then
       '(d, s, len) ← copy_big (Z.to_nat count) dst src count;
       copy_words (Z.to_nat len) d s len
     else mret (dst, src, count));
  copy_bytes (Z.to_nat len) dst_ptr src_ptr;;
  mret dst.

(** [while (n--) *(--tmp) = *(--s)] *)
Fixpoint copy_down (n : nat) (tmp s : Z) : B unit :=
  match n with
  | O => mret tt
  | S n => c ← load (s - 1); store (tmp - 1) c;; copy_down n (tmp - 1) (s - 1)
  end.

Definition rt_memmove (dest src n : Z) : B Z :=
  (if (src <? dest) && (dest <? src + n)
   then copy_down (Z.to_nat n) (dest + n) (src + n)
   else copy_bytes (Z.to_nat n) dest src);;
  mret dest.

Fixpoint memcmp_loop (count : nat) (su1 su2 res : Z) : B Z :=
  match count with
  | O => mret res
  | S count =>
      a ← load su1; b ← load su2;
      let res := a - b in
      if negb (res =? 0) then mret res else memcmp_loop count (su1 + 1) (su2 + 1) res
  end.
Definition rt_memcmp (cs ct count : Z) : B Z := memcmp_loop (Z.to_nat count) cs ct 0.

(** * Strings *)

(** The fuel of a walk over a string: one turn per accessible byte. *)
Definition walk {A} (f : nat -> B A) : B A := m ← get; f (size m).

Fixpoint strlen_loop (fuel : nat) (s sc : Z) : B Z :=
  c ← load sc;
  if negb (c =? 0) then
    match fuel with O => stuck | S fuel => strlen_loop fuel s (sc + 1) end
  else mret (sc - s).
Definition rt_strlen (s : Z) : B Z := walk (fun fuel => strlen_loop fuel s s).

Fixpoint strnlen_loop (fuel : nat) (s sc maxlen : Z) : B Z :=
  c ← load sc;
  if negb (c =? 0) && (u32 (sc - s) <? maxlen) then
    match fuel with O => stuck | S fuel => strnlen_loop fuel s (sc + 1) maxlen end
  else mret (sc - s).
Definition rt_strnlen (s maxlen : Z) : B Z := walk (fun fuel => strnlen_loop fuel s s maxlen).

Fixpoint strstr_loop (fuel : nat) (l1 l2 s1 s2 : Z) : B Z :=
  if l2 <=? l1 then
    match fuel with
    | O => stuck
    | S fuel =>
        r ← rt_memcmp s1 s2 l2;
        if r =? 0 then mret s1 else strstr_loop fuel (l1 - 1) l2 (s1 + 1) s2
    end
  else mret 0.
Definition rt_strstr (s1 s2 : Z) : B Z :=
  l2 ← rt_strlen s2;
  if l2 =? 0 then mret s1
  else
    l1 ← rt_strlen s1;
    strstr_loop (S (Z.to_nat l1)) l1 l2 s1 s2.

(** [ca >= 'A' && ca <= 'Z'] becomes lower case. *)
Definition lower (ca : Z) : Z := if (65 <=? ca) && (ca <=? 90) then ca + (97 - 65) else ca.

Fixpoint strcasecmp_loop (fuel : nat) (a b : Z) : B Z :=
  ca ← load a; cb ← load b;
  let ca := lower (Z.land ca 255) in
  let cb := lower (Z.land cb 255) in
  if (ca =? cb) && negb (ca =? 0) then
    match fuel with O => stuck | S fuel => strcasecmp_loop fuel (a + 1) (b + 1) end
  else mret (ca - cb).
Definition rt_strcasecmp (a b : Z) : B Z := walk (fun fuel => strcasecmp_loop fuel a b).

(** [n] counts the turns that are left. *)
Fixpoint strncpy_loop (n : nat) (d s : Z) : B unit :=
  match n with
  | O => mret tt
  | S n =>
      c ← load s; store d c;;
      if c =? 0 then memset_bytes n (d + 1) 0 else strncpy_loop n (d + 1) (s + 1)
  end.
Definition rt_strncpy (dst src n : Z) : B Z :=
  (if negb (n =? 0) then strncpy_loop (Z.to_nat n) dst src else mret tt);;
  mret dst.

Fixpoint strcpy_loop (fuel : nat) (dst src : Z) : B unit :=
  c ← load src;
  if negb (c =? 0) then
    store dst c;;
    match fuel with O => stuck | S fuel => strcpy_loop fuel (dst + 1) (src + 1) end
  else store dst 0.
Definition rt_strcpy (dst src : Z) : B Z := walk (fun fuel => strcpy_loop fuel dst src);; mret dst.

(** [res] is a [signed char]. *)
Fixpoint strncmp_loop (count : nat) (cs ct res : Z) : B Z :=
  match count with
  | O => mret res
  | S count =>
      a ← load cs; b ← load ct;
      let res := i8 (a - b) in
      if negb (res =? 0) || (a =? 0) then mret res
      else strncmp_loop count (cs + 1) (ct + 1) res
  end.
Definition rt_strncmp (cs ct count : Z) : B Z := strncmp_loop (Z.to_nat count) cs ct 0.

Fixpoint strcmp_loop (fuel : nat) (cs ct : Z) : B Z :=
  a ← load cs; b ← load ct;
  if negb (a =? 0) && (a =? b) then
    match fuel with O => stuck | S fuel => strcmp_loop fuel (cs + 1) (ct + 1) end
  else mret (a - b).
Definition rt_strcmp (cs ct : Z) : B Z := walk (fun fuel => strcmp_loop fuel cs ct).

(** [tmp] is what [rt_malloc(len)] returned, 0 for NULL. *)
Definition rt_strdup (s tmp : Z) : B Z :=
  l ← rt_strlen s;
  let len := l + 1 in
  if tmp =? 0 then mret 0
  else rt_memcpy tmp s len;; mret tmp.

(** * Filling and copying *)

(** The first [k] bytes of [l] have been written at [p]. *)
Definition filled (m0 : mem) (p : Z) (l : list Z) (k : nat) : mem := put_bytes p (take k l) m0.

Section fill.
Context (m0 : mem) (p : Z) (l : list Z).
Hypothesis Hacc : accessible m0 p (length l).

Lemma filled_0 : filled m0 p l 0 = m0.
Proof. done. Qed.

Lemma filled_all k : (length l <= k)%nat -> filled m0 p l k = put_bytes p l m0.
Proof. intros H. unfold filled. by rewrite take_ge. Qed.

Lemma filled_step k c : l !! k = Some c -> <[p + Z.of_nat k := c]> (filled m0 p l k) = filled m0 p l (S k).
Proof.
  intros Hc. pose proof (lookup_lt_Some _ _ _ Hc). unfold filled.
  rewrite (take_S_r _ _ _ Hc), put_bytes_app, length_take_le by lia. done.
Qed.

Lemma store_step k c Q :
  l !! k = Some c -> Q tt (filled m0 p l (S k)) -> wp (store (p + Z.of_nat k) c) Q (filled m0 p l k).
Proof.
  intros Hc HQ. pose proof (lookup_lt_Some _ _ _ Hc). apply store_wp; [|by rewrite filled_step].
  apply (accessible_put _ _ _ p (length l)); [done|lia].
Qed.

Lemma store_word_step k w Q :
  (forall i, (i < 4)%nat -> l !! (k + i)%nat = Some (word_byte (Z.of_nat i) w)) ->
  Q tt (filled m0 p l (k + 4)) -> wp (store_word (p + Z.of_nat k) w) Q (filled m0 p l k).
Proof.
  intros Hw HQ. unfold store_word.
  pose proof (Hw 0%nat ltac:(lia)) as H0. pose proof (Hw 1%nat ltac:(lia)) as H1.
  pose proof (Hw 2%nat ltac:(lia)) as H2. pose proof (Hw 3%nat ltac:(lia)) as H3.
  rewrite Nat.add_0_r in H0. rewrite Nat.add_1_r in H1. rewrite !Nat.add_succ_r, Nat.add_0_r in H2. rewrite !Nat.add_succ_r, Nat.add_0_r in H3.
  wp_step. apply store_step; [done..|].
  replace (p + Z.of_nat k + 1) with (p + Z.of_nat (S k)) by lia.
  wp_step. apply store_step; [done..|].
  replace (p + Z.of_nat k + 2) with (p + Z.of_nat (S (S k))) by lia.
  wp_step. apply store_step; [done..|].
  replace (p + Z.of_nat k + 3) with (p + Z.of_nat (S (S (S k)))) by lia.
  apply store_step; [done..|].
  replace (S (S (S (S k)))) with (k + 4)%nat by lia. done.
Qed.
End fill.

Section memset.
Context (m0 : mem) (p d : Z) (n : nat).
Hypothesis Hacc : accessible m0 p n.
Hypothesis Hd : is_byte d.

Let l : list Z := replicate n d.
Let w : Z := le_word d d d d.

Lemma memset_store k Q : (k < n)%nat ->
  Q tt (filled m0 p l (S k)) -> wp (store (p + Z.of_nat k) d) Q (filled m0 p l k).
Proof.
  intros Hk HQ. apply store_step; [unfold l; by rewrite length_replicate|by apply lookup_replicate_2|done].
Qed.

Lemma memset_store_word k Q : (k + 4 <= n)%nat ->
  Q tt (filled m0 p l (k + 4)) -> wp (store_word (p + Z.of_nat k) w) Q (filled m0 p l k).
Proof.
  intros Hk HQ. apply store_word_step; [unfold l; by rewrite length_replicate| |done].
  intros i Hi. unfold l. rewrite lookup_replicate_2 by lia. f_equal.
  destruct (word_byte_le_word d d d d) as (E0 & E1 & E2 & E3); try done. fold w in E0, E1, E2, E3.
  destruct i as [|[|[|[|i]]]]; [done..|lia].
Qed.

Lemma memset_bytes_wp j k Q : (k + j = n)%nat ->
  Q tt (put_bytes p l m0) -> wp (memset_bytes j (p + Z.of_nat k) d) Q (filled m0 p l k).
Proof.
  revert k. induction j as [|j IH]; intros k Hk HQ; simpl.
  - wp_step. rewrite filled_all; [done|]. unfold l. rewrite length_replicate. lia.
  - wp_step. apply memset_store; [lia|]. replace (p + Z.of_nat k + 1) with (p + Z.of_nat (S k)) by lia.
    apply IH; [lia|done].
Qed.

Lemma memset_big_wp fuel k Q : (k <= n)%nat -> (n - k <= fuel)%nat ->
  (forall k', (k <= k' <= n)%nat -> Q (p + Z.of_nat k', Z.of_nat n - Z.of_nat k') (filled m0 p l k')) ->
  wp (memset_big fuel (p + Z.of_nat k) (Z.of_nat n - Z.of_nat k) w) Q (filled m0 p l k).
Proof.
  revert k. induction fuel as [|fuel IH]; intros k Hk Hf HQ; cbn [memset_big]; change (LBLOCKSIZE * 4) with 16; change (4 * LBLOCKSIZE) with 16;
    (destruct (Z.leb_spec 16 (Z.of_nat n - Z.of_nat k)); [|wp_step; apply HQ; lia]); [lia|].
  assert (E : forall i : nat, p + Z.of_nat k + Z.of_nat i = p + Z.of_nat (k + i)) by lia.
  wp_step. apply memset_store_word; [lia|].
  rewrite (E 4%nat : _ + 4 = _). wp_step. apply memset_store_word; [lia|].
  rewrite (E 8%nat : _ + 8 = _). replace (k + 4 + 4)%nat with (k + 8)%nat by lia.
  wp_step. apply memset_store_word; [lia|].
  rewrite (E 12%nat : _ + 12 = _). replace (k + 8 + 4)%nat with (k + 12)%nat by lia.
  wp_step. apply memset_store_word; [lia|].
  rewrite (E 16%nat : _ + 16 = _). replace (k + 12 + 4)%nat with (k + 16)%nat by lia.
  replace (Z.of_nat n - Z.of_nat k - 16) with (Z.of_nat n - Z.of_nat (k + 16)) by lia.
  apply IH; [lia..|]. intros k' Hk'. apply HQ. lia.
Qed.

Lemma memset_words_wp fuel k Q : (k <= n)%nat -> (n - k <= fuel)%nat ->
  (forall k', (k <= k' <= n)%nat -> Q (p + Z.of_nat k', Z.of_nat n - Z.of_nat k') (filled m0 p l k')) ->
  wp (memset_words fuel (p + Z.of_nat k) (Z.of_nat n - Z.of_nat k) w) Q (filled m0 p l k).
Proof.
  revert k. induction fuel as [|fuel IH]; intros k Hk Hf HQ; cbn [memset_words]; change LBLOCKSIZE with 4;
    (destruct (Z.leb_spec 4 (Z.of_nat n - Z.of_nat k)); [|wp_step; apply HQ; lia]); [lia|].
  wp_step. apply memset_store_word; [lia|].
  replace (p + Z.of_nat k + 4) with (p + Z.of_nat (k + 4)) by lia.
  replace (Z.of_nat n - Z.of_nat k - 4) with (Z.of_nat n - Z.of_nat (k + 4)) by lia.
  apply IH; [lia..|]. intros k' Hk'. apply HQ. lia.
Qed.
End memset.

(** [rt_memset] writes the low byte of its argument to every byte of the range and to
    no other, however the range is aligned. *)
Lemma rt_memset_fills (m : mem) s c n :
  0 <= n -> accessible m s (Z.to_nat n) ->
  wp (rt_memset s c n) (fun r m' => r = s /\ m' = put_bytes s (replicate (Z.to_nat n) (c mod 256)) m) m.
Proof.
  intros Hn Hacc. unfold rt_memset.
  assert (Ed : Z.land (u32 c) 255 = c mod 256).
  { change 255 with (Z.ones 8). rewrite Z.land_ones by lia. unfold u32, uwrap.
    Z.to_euclidean_division_equations. lia. }
  rewrite Ed. set (d := c mod 256). assert (Hd : is_byte d) by (apply Z.mod_pos_bound; lia).
  change m with (filled m s (replicate (Z.to_nat n) d) 0) at 2.
  assert (Hlast : forall k, (k <= Z.to_nat n)%nat ->
    wp (memset_bytes (Z.to_nat (n - Z.of_nat k)) (s + Z.of_nat k) d;; mret s)
      (fun r m' => r = s /\ m' = put_bytes s (replicate (Z.to_nat n) d) m)
      (filled m s (replicate (Z.to_nat n) d) k)).
  { intros k Hk. wp_step. apply memset_bytes_wp; [done|lia|]. by wp_step. }
  pose proof (memset_big_wp m s d (Z.to_nat n) Hacc Hd (Z.to_nat n) 0) as Hbig.
  pose proof (memset_words_wp m s d (Z.to_nat n) Hacc Hd) as Hword.
  rewrite Z2Nat.id in * by done. simpl Z.of_nat in Hbig. rewrite Z.add_0_r, Z.sub_0_r in Hbig.
  wp_step. case_match.
  - wp_step. apply Hbig; [lia..|]. intros k Hk. apply Hword; [lia..|]. intros k' Hk'. apply Hlast. lia.
  - wp_step. specialize (Hlast 0%nat). simpl Z.of_nat in Hlast. rewrite Z.add_0_r, Z.sub_0_r in Hlast.
    apply Hlast. lia.
Qed.

Section copy.
Context (m0 : mem) (dst src : Z) (l : list Z).
Hypothesis Hsrc : bytes_at m0 src l.
Hypothesis Hacc : accessible m0 dst (length l).

Section forward.
Hypothesis Hord : dst <= src \/ src + Z.of_nat (length l) <= dst.

(** The bytes that are still to be copied have not been overwritten. *)
Lemma copy_source k c : l !! k = Some c -> filled m0 dst l k !! (src + Z.of_nat k) = Some c.
Proof using Hord Hsrc.
  intros Hc. pose proof (lookup_lt_Some _ _ _ Hc). unfold filled.
  rewrite put_bytes_lookup, length_take_le, decide_False by lia. by apply (bytes_at_lookup m0 src l).
Qed.

Lemma copy_bytes_wp j k Q : (k + j = length l)%nat ->
  Q tt (put_bytes dst l m0) -> wp (copy_bytes j (dst + Z.of_nat k) (src + Z.of_nat k)) Q (filled m0 dst l k).
Proof using Hord Hsrc Hacc.
  revert k. induction j as [|j IH]; intros k Hk HQ; simpl.
  - wp_step. rewrite filled_all by lia. done.
  - destruct (lookup_lt_is_Some_2 l k ltac:(lia)) as [c Hc].
    wp_step. eapply load_wp; [by apply copy_source|]. wp_step. apply store_step; [done..|].
    replace (dst + Z.of_nat k + 1) with (dst + Z.of_nat (S k)) by lia.
    replace (src + Z.of_nat k + 1) with (src + Z.of_nat (S k)) by lia. apply IH; [lia|done].
Qed.

Hypothesis Hbyte : Forall is_byte l.

Lemma copy_source_word k i c :
  (k + i < length l)%nat -> l !! (k + i)%nat = Some c ->
  filled m0 dst l k !! (src + Z.of_nat k + Z.of_nat i) = Some c.
Proof using Hord Hsrc.
  intros Hi Hc. unfold filled. rewrite put_bytes_lookup, length_take_le, decide_False by lia.
  rewrite <- (proj1 (bytes_at_lookup m0 src l) Hsrc _ _ Hc). f_equal. lia.
Qed.

Lemma copy_word_step k Q : (k + 4 <= length l)%nat ->
  Q tt (filled m0 dst l (k + 4)) ->
  wp (copy_word (dst + Z.of_nat k) (src + Z.of_nat k)) Q (filled m0 dst l k).
Proof using Hord Hsrc Hacc Hbyte.
  intros Hk HQ.
  destruct (lookup_lt_is_Some_2 l (k + 0) ltac:(lia)) as [c0 H0].
  destruct (lookup_lt_is_Some_2 l (k + 1) ltac:(lia)) as [c1 H1].
  destruct (lookup_lt_is_Some_2 l (k + 2) ltac:(lia)) as [c2 H2].
  destruct (lookup_lt_is_Some_2 l (k + 3) ltac:(lia)) as [c3 H3].
  unfold copy_word, load_word. repeat wp_step.
  apply (load_wp _ c0); [rewrite <- (Z.add_0_r (src + Z.of_nat k)); apply (copy_source_word k 0); [lia|done]|].
  wp_step. apply (load_wp _ c1); [apply (copy_source_word k 1); [lia|done]|].
  wp_step. apply (load_wp _ c2); [apply (copy_source_word k 2); [lia|done]|].
  wp_step. apply (load_wp _ c3); [apply (copy_source_word k 3); [lia|done]|].
  wp_step. apply store_word_step; [done| |done].
  rewrite Forall_lookup in Hbyte.
  destruct (word_byte_le_word c0 c1 c2 c3) as (E0 & E1 & E2 & E3); [by eauto..|].
  intros [|[|[|[|i]]]] Hi; [etrans; [eassumption|]; f_equal; symmetry; eassumption..|lia].
Qed.

Lemma copy_words_wp fuel k Q : (k <= length l)%nat -> (length l - k <= fuel)%nat ->
  (forall k', (k <= k' <= length l)%nat ->
    Q (dst + Z.of_nat k', src + Z.of_nat k', Z.of_nat (length l) - Z.of_nat k') (filled m0 dst l k')) ->
  wp (copy_words fuel (dst + Z.of_nat k) (src + Z.of_nat k) (Z.of_nat (length l) - Z.of_nat k)) Q
    (filled m0 dst l k).
Proof using Hord Hsrc Hacc Hbyte.
  revert k. induction fuel as [|fuel IH]; intros k Hk Hf HQ; cbn [copy_words]; change LBLOCKSIZE with 4;
    (destruct (Z.leb_spec 4 (Z.of_nat (length l) - Z.of_nat k)); [|wp_step; apply HQ; lia]); [lia|].
  wp_step. apply copy_word_step; [lia|].
  replace (dst + Z.of_nat k + 4) with (dst + Z.of_nat (k + 4)) by lia.
  replace (src + Z.of_nat k + 4) with (src + Z.of_nat (k + 4)) by lia.
  replace (Z.of_nat (length l) - Z.of_nat k - 4) with (Z.of_nat (length l) - Z.of_nat (k + 4)) by lia.
  apply IH; [lia..|]. intros k' Hk'. apply HQ. lia.
Qed.

Lemma copy_big_wp fuel k Q : (k <= length l)%nat -> (length l - k <= fuel)%nat ->
  (forall k', (k <= k' <= length l)%nat ->
    Q (dst + Z.of_nat k', src + Z.of_nat k', Z.of_nat (length l) - Z.of_nat k') (filled m0 dst l k')) ->
  wp (copy_big fuel (dst + Z.of_nat k) (src + Z.of_nat k) (Z.of_nat (length l) - Z.of_nat k)) Q
    (filled m0 dst l k).
Proof using Hord Hsrc Hacc Hbyte.
  revert k. induction fuel as [|fuel IH]; intros k Hk Hf HQ; cbn [copy_big]; change BIGBLOCKSIZE with 16;
    (destruct (Z.leb_spec 16 (Z.of_nat (length l) - Z.of_nat k)); [|wp_step; apply HQ; lia]); [lia|].
  assert (E4 : forall a, a + Z.of_nat k + 4 = a + Z.of_nat (k + 4)) by lia.
  assert (E8 : forall a, a + Z.of_nat k + 8 = a + Z.of_nat (k + 4 + 4)) by lia.
  assert (E12 : forall a, a + Z.of_nat k + 12 = a + Z.of_nat (k + 4 + 4 + 4)) by lia.
  assert (E16 : forall a, a + Z.of_nat k + 16 = a + Z.of_nat (k + 4 + 4 + 4 + 4)) by lia.
  rewrite !E4, !E8, !E12, !E16.
  replace (Z.of_nat (length l) - Z.of_nat k - 16)
    with (Z.of_nat (length l) - Z.of_nat (k + 4 + 4 + 4 + 4)) by lia.
  wp_step. apply copy_word_step; [lia|].
  wp_step. apply copy_word_step; [lia|].
  wp_step. apply copy_word_step; [lia|].
  wp_step. apply copy_word_step; [lia|].
  apply IH; [lia..|]. intros k' Hk'. apply HQ. lia.
Qed.
End forward.

(** Downwards: the bytes from the [k]-th on have been written. *)
Lemma copy_down_wp k Q : src < dst -> (k <= length l)%nat ->
  Q tt (put_bytes dst l m0) ->
  wp (copy_down k (dst + Z.of_nat k) (src + Z.of_nat k)) Q (put_bytes (dst + Z.of_nat k) (drop k l) m0).
Proof using Hsrc Hacc.
  intros Hlt. induction k as [|k IH]; intros Hk HQ; cbn [copy_down].
  - wp_step. rewrite drop_0. by rewrite Z.add_0_r.
  - destruct (lookup_lt_is_Some_2 l k ltac:(lia)) as [c Hc].
    replace (src + Z.of_nat (S k) - 1) with (src + Z.of_nat k) by lia.
    replace (dst + Z.of_nat (S k) - 1) with (dst + Z.of_nat k) by lia.
    wp_step. eapply load_wp.
    { rewrite put_bytes_lookup, decide_False by lia. by apply (bytes_at_lookup m0 src l). }
    wp_step. apply store_wp; [apply (accessible_put _ _ _ dst (length l)); [done|lia]|].
    replace (insert (dst + Z.of_nat k) c (put_bytes (dst + Z.of_nat (S k)) (drop (S k) l) m0))
      with (put_bytes (dst + Z.of_nat k) (drop k l) m0); [apply IH; [lia|done]|].
    rewrite (drop_S _ _ _ Hc). apply map_eq. intros a. cbn [put_bytes].
    replace (dst + Z.of_nat (S k)) with (dst + Z.of_nat k + 1) by lia.
    destruct (decide (a = dst + Z.of_nat k)) as [->|].
    + rewrite lookup_insert_eq, put_bytes_lookup, decide_False by lia. by rewrite lookup_insert_eq.
    + rewrite lookup_insert_ne, !put_bytes_lookup, lookup_insert_ne by done. done.
Qed.
End copy.

Lemma rt_memcpy_wp (m : mem) dst src l :
  bytes_at m src l -> Forall is_byte l -> accessible m dst (length l) ->
  dst <= src \/ src + Z.of_nat (length l) <= dst ->
  wp (rt_memcpy dst src (Z.of_nat (length l))) (fun r m' => r = dst /\ m' = put_bytes dst l m) m.
Proof.
  intros Hsrc Hb Hacc Hord. unfold rt_memcpy. change m with (filled m dst l 0) at 2.
  assert (Hlast : forall k, (k <= length l)%nat ->
    wp (copy_bytes (Z.to_nat (Z.of_nat (length l) - Z.of_nat k)) (dst + Z.of_nat k) (src + Z.of_nat k);; mret dst)
      (fun r m' => r = dst /\ m' = put_bytes dst l m) (filled m dst l k)).
  { intros k Hk. wp_step. apply copy_bytes_wp; [done..|lia|]. by wp_step. }
  pose proof (copy_big_wp m dst src l Hsrc Hacc Hord Hb (length l) 0) as Hbig.
  pose proof (copy_words_wp m dst src l Hsrc Hacc Hord Hb) as Hword.
  simpl Z.of_nat in Hbig at 1 2 3. rewrite !Z.add_0_r, Z.sub_0_r in Hbig.
  wp_step. rewrite Nat2Z.id. case_match.
  - wp_step. apply Hbig; [lia..|]. intros k Hk. apply Hword; [lia..|]. intros k' Hk'. apply Hlast. lia.
  - wp_step. specialize (Hlast 0%nat). simpl Z.of_nat in Hlast at 2 3 4. rewrite !Z.add_0_r, Z.sub_0_r in Hlast.
    apply Hlast. lia.
Qed.

(** C22: [rt_memcpy] copies the bytes of the source range to the destination and changes
    nothing else, whether it copies words or bytes, when the ranges do not overlap or the
    destination is below the source. *)
Theorem rt_memcpy_copies (m : mem) dst src l :
  bytes_at m src l -> Forall is_byte l -> accessible m dst (length l) ->
  dst <= src \/ src + Z.of_nat (length l) <= dst ->
  wp (rt_memcpy dst src (Z.of_nat (length l))) (fun r m' => r = dst /\ m' = put_bytes dst l m) m.
Proof. apply rt_memcpy_wp. Qed.

(** [rt_memmove] leaves the former bytes of the source range in the destination and
    changes nothing else, also when the ranges overlap. *)
Lemma rt_memmove_copies (m : mem) dst src l :
  bytes_at m src l -> accessible m dst (length l) ->
  wp (rt_memmove dst src (Z.of_nat (length l))) (fun r m' => r = dst /\ m' = put_bytes dst l m) m.
Proof.
  intros Hsrc Hacc. unfold rt_memmove. rewrite Nat2Z.id.
  destruct (Z.ltb_spec src dst); [destruct (Z.ltb_spec dst (src + Z.of_nat (length l)))|]; simpl; wp_step.
  - pose proof (copy_down_wp m dst src l Hsrc Hacc (length l)) as W. rewrite drop_all in W.
    apply W; [done..|]. by wp_step.
  - pose proof (copy_bytes_wp m dst src l Hsrc Hacc ltac:(lia) (length l) 0) as W.
    simpl Z.of_nat in W at 1 2. rewrite !Z.add_0_r in W. apply W; [done|]. by wp_step.
  - pose proof (copy_bytes_wp m dst src l Hsrc Hacc ltac:(lia) (length l) 0) as W.
    simpl Z.of_nat in W at 1 2. rewrite !Z.add_0_r in W. apply W; [done|]. by wp_step.
Qed.

(** * Comparison *)

(** Lexicographic order of byte strings. *)
Fixpoint lex_cmp (l k : list Z) : comparison :=
  match l, k with
  | [], [] => Eq
  | [], _ :: _ => Lt
  | _ :: _, [] => Gt
  | a :: l, b :: k => match a ?= b with Eq => lex_cmp l k | c => c end
  end.

(** The difference at the first place where two strings differ, the NUL included. *)
Fixpoint first_diff (s t : list Z) : Z :=
  match s, t with
  | [], [] => 0
  | [], b :: _ => - b
  | a :: _, [] => a
  | a :: s, b :: t => if a =? b then first_diff s t else a - b
  end.

Definition is_char (c : Z) : Prop := 0 < c < 256.

Lemma lex_cmp_eq l k : lex_cmp l k = Eq <-> l = k.
Proof.
  revert k. induction l as [|a l IH]; intros [|b k]; simpl; [done..|].
  destruct (Z.compare_spec a b) as [->| |]; [rewrite IH; naive_solver|split; [done|intros [=]; lia]..].
Qed.

Lemma first_diff_order s t :
  Forall is_char s -> Forall is_char t -> (first_diff s t ?= 0) = lex_cmp s t.
Proof.
  unfold is_char. revert t. induction s as [|a s IH]; intros [|b t]; simpl; [done|..];
    rewrite ?Forall_cons; [intros _ [? _]; by apply Z.compare_lt_iff; lia|
                           intros [? _] _; by apply Z.compare_gt_iff; lia|].
  intros [? Hs] [? Ht]. destruct (Z.eqb_spec a b) as [->|].
  - rewrite Z.compare_refl. by apply IH.
  - destruct (Z.compare_spec a b); [done|by apply Z.compare_lt_iff; lia|by apply Z.compare_gt_iff; lia].
Qed.

Lemma first_diff_bound c s t : 0 < c ->
  Forall (fun a => 0 < a < c) s -> Forall (fun a => 0 < a < c) t -> - c < first_diff s t < c.
Proof.
  intros Hc. revert t. induction s as [|a s IH]; intros [|b t]; simpl; rewrite ?Forall_cons; [lia|naive_solver lia..|].
  intros [? ?] [? ?]. case_match; [by apply IH|lia].
Qed.

Lemma i8_id z : -128 <= z < 128 -> i8 z = z.
Proof. intros H. unfold i8. rewrite Z.mod_small; lia. Qed.

Lemma i8_0 z : -256 < z < 256 -> i8 z = 0 <-> z = 0.
Proof. intros H. unfold i8. Z.to_euclidean_division_equations. lia. Qed.

Lemma cstr_head m p s : cstr m p s -> m !! p = Some (default 0 (head s)).
Proof. destruct s; simpl; naive_solver. Qed.

Lemma memcmp_wp (m : mem) p q l k Q :
  length l = length k -> bytes_at m p l -> bytes_at m q k ->
  (forall r, (r ?= 0) = lex_cmp l k -> Q r m) -> wp (memcmp_loop (length l) p q 0) Q m.
Proof.
  revert p q k. induction l as [|a l IH]; intros p q [|b k] Hl; simplify_eq/=.
  - intros _ _ HQ. wp_step. by apply HQ.
  - intros [Ha Hp] [Hb Hq] HQ. wp_step. eapply load_wp; [done|]. wp_step. eapply load_wp; [done|].
    destruct (Z.eqb_spec (a - b) 0) as [E|E]; simpl.
    + rewrite E. apply (IH _ _ k); [done..|]. intros r Hr. apply HQ. by rewrite (proj2 (Z.compare_eq_iff a b)) by lia.
    + wp_step. apply HQ.
      destruct (Z.compare_spec a b); [lia|by apply Z.compare_lt_iff; lia|by apply Z.compare_gt_iff; lia].
Qed.

Lemma strcmp_wp (m : mem) p q s t Q fuel :
  cstr m p s -> cstr m q t -> (length s <= fuel)%nat ->
  Q (first_diff s t) m -> wp (strcmp_loop fuel p q) Q m.
Proof.
  revert p q t fuel. induction s as [|a s IH]; intros p q t fuel Hs Ht Hf HQ.
  - destruct fuel; cbn [strcmp_loop];
      (wp_step; eapply load_wp; [exact Hs|]; wp_step; eapply load_wp; [by apply cstr_head|]; simpl; wp_step;
       by destruct t).
  - destruct fuel as [|fuel]; [simpl in Hf; lia|]. cbn [strcmp_loop]. destruct Hs as (Ha & Hnz & Hs).
    wp_step. eapply load_wp; [done|]. wp_step. eapply load_wp; [by apply cstr_head|].
    rewrite (proj2 (Z.eqb_neq a 0)) by done. destruct t as [|b t]; simpl in *.
    + rewrite (proj2 (Z.eqb_neq a 0)) by done. wp_step. by rewrite Z.sub_0_r.
    + destruct (Z.eqb_spec a b); [apply (IH _ _ t); [naive_solver..|lia|done]|by wp_step].
Qed.

Lemma strcasecmp_wp (m : mem) p q s t Q fuel :
  Forall is_char s -> Forall is_char t -> cstr m p s -> cstr m q t -> (length s <= fuel)%nat ->
  Q (first_diff (map lower s) (map lower t)) m -> wp (strcasecmp_loop fuel p q) Q m.
Proof.
  assert (Hlow : forall c, is_char c -> lower (Z.land c 255) = lower c /\ lower c <> 0).
  { intros c Hc. unfold is_char in Hc. change 255 with (Z.ones 8). rewrite Z.land_ones, Z.mod_small by lia.
    unfold lower. case_match; lia. }
  revert p q t fuel. induction s as [|a s IH]; intros p q t fuel Cs Ct Hs Ht Hf HQ.
  - assert (Eb : exists b, m !! q = Some b /\ 0 - lower (Z.land b 255) = first_diff [] (map lower t)).
    { exists (default 0 (head t)). split; [by apply cstr_head|]. destruct t as [|b t]; [done|].
      apply Forall_cons in Ct as [Cb _]. simpl. by rewrite (proj1 (Hlow b Cb)). }
    destruct Eb as (b & Eb & Er). destruct fuel; cbn [strcasecmp_loop];
      (wp_step; eapply load_wp; [exact Hs|]; wp_step; eapply load_wp; [exact Eb|]; change (lower (Z.land 0 255)) with 0;
       rewrite andb_false_r; wp_step; by rewrite Er).
  - destruct fuel as [|fuel]; [simpl in Hf; lia|]. cbn [strcasecmp_loop]. destruct Hs as (Ha & _ & Hs).
    apply Forall_cons in Cs as [Ca Cs]. destruct (Hlow a Ca) as [Ea Na].
    wp_step. eapply load_wp; [done|]. wp_step. eapply load_wp; [by apply cstr_head|].
    rewrite Ea, (proj2 (Z.eqb_neq _ 0) Na), andb_true_r. destruct t as [|b t]; simpl in *.
    + change (lower (Z.land 0 255)) with 0. rewrite (proj2 (Z.eqb_neq _ 0) Na). wp_step. by rewrite Z.sub_0_r.
    + apply Forall_cons in Ct as [Cb Ct]. rewrite (proj1 (Hlow b Cb)).
      destruct (Z.eqb_spec (lower a) (lower b)); [apply (IH _ _ t); [naive_solver..|lia|done]|by wp_step].
Qed.

Lemma strncmp_wp (m : mem) p q s t Q n :
  Forall is_char s -> Forall is_char t -> cstr m p s -> cstr m q t ->
  Q (i8 (first_diff (take n s) (take n t))) m -> wp (strncmp_loop n p q 0) Q m.
Proof.
  revert p q s t. induction n as [|n IH]; intros p q s t Cs Ct Hs Ht HQ; cbn [strncmp_loop].
  { rewrite !take_0 in HQ. by wp_step. }
  wp_step. eapply load_wp; [by apply cstr_head|]. wp_step. eapply load_wp; [by apply cstr_head|].
  destruct s as [|a s].
  - rewrite orb_true_r. wp_step. by destruct t.
  - apply Forall_cons in Cs as [Ca Cs]. destruct Hs as (_ & Hnz & Hs). unfold is_char in Ca.
    destruct t as [|b t]; simpl in *.
    + rewrite Z.sub_0_r. rewrite (proj2 (Z.eqb_neq (i8 a) 0)) by (rewrite i8_0; lia). simpl. by wp_step.
    + apply Forall_cons in Ct as [Cb Ct]. unfold is_char in Cb. destruct Ht as (_ & _ & Ht).
      destruct (Z.eqb_spec a b) as [->|Hne].
      * rewrite Z.sub_diag. simpl. rewrite (proj2 (Z.eqb_neq b 0)) by done. by apply (IH _ _ s t).
      * rewrite (proj2 (Z.eqb_neq (i8 (a - b)) 0)) by (rewrite i8_0; lia). simpl. by wp_step.
Qed.

Lemma lower_char s : Forall is_char s -> Forall is_char (map lower s).
Proof.
  intros H. apply Forall_fmap. eapply Forall_impl; [exact H|]. unfold is_char, lower. simpl.
  intros c Hc. case_match; lia.
Qed.

(** The comparisons of strings.  The sign of [rt_strcmp] is the lexicographic order
    of the strings, that of [rt_strcasecmp] their order with upper case read as lower
    case.  [rt_strncmp] is zero exactly when the first [n] bytes agree; its sign is their
    order when the strings are ASCII (the difference is cut to a signed byte). *)
Lemma string_comparisons (m : mem) p q s t n :
  cstr m p s -> cstr m q t -> Forall is_char s -> Forall is_char t -> 0 <= n ->
  wp (rt_strcmp p q) (fun r m' => m' = m /\ (r ?= 0) = lex_cmp s t) m /\
  wp (rt_strcasecmp p q) (fun r m' => m' = m /\ (r ?= 0) = lex_cmp (map lower s) (map lower t)) m /\
  wp (rt_strncmp p q n) (fun r m' => m' = m /\
    (r = 0 <-> take (Z.to_nat n) s = take (Z.to_nat n) t) /\
    (Forall (fun c => c < 128) s -> Forall (fun c => c < 128) t ->
     (r ?= 0) = lex_cmp (take (Z.to_nat n) s) (take (Z.to_nat n) t))) m.
Proof.
  intros Hp Hq Cs Ct Hn. pose proof (cstr_size _ _ _ Hp) as Hsz.
  split; [|split]; [unfold rt_strcmp, walk|unfold rt_strcasecmp, walk|unfold rt_strncmp].
  - do 2 wp_step. apply (strcmp_wp m p q s t); [done..|lia|]. split; [done|]. by apply first_diff_order.
  - do 2 wp_step. apply (strcasecmp_wp m p q s t); [done..|lia|]. split; [done|].
    by apply first_diff_order; apply lower_char.
  - apply (strncmp_wp m p q s t); [done..|]. split; [done|].
    set (d := first_diff (take (Z.to_nat n) s) (take (Z.to_nat n) t)).
    assert (Ho : (d ?= 0) = lex_cmp (take (Z.to_nat n) s) (take (Z.to_nat n) t))
      by (apply first_diff_order; by apply Forall_take).
    assert (Hb : -256 < d < 256) by (apply (first_diff_bound 256); [lia|by apply Forall_take..]).
    split.
    + rewrite i8_0 by done. by rewrite <- lex_cmp_eq, <- Ho, Z.compare_eq_iff.
    + intros As At. rewrite i8_id; [done|].
      assert (-128 < d < 128); [|lia].
      apply (first_diff_bound 128); [lia|..]; apply Forall_take; rewrite Forall_forall in *;
        unfold is_char in *; naive_solver.
Qed.

(** * Length and search *)

Lemma strlen_wp (m : mem) p q s Q fuel :
  cstr m q s -> (length s <= fuel)%nat -> Q (q - p + Z.of_nat (length s)) m -> wp (strlen_loop fuel p q) Q m.
Proof.
  revert q fuel. induction s as [|c s IH]; intros q fuel Hs Hf HQ.
  - destruct fuel; cbn [strlen_loop]; (wp_step; eapply load_wp; [exact Hs|]; simpl; wp_step;
      by rewrite Z.add_0_r in HQ).
  - destruct fuel as [|fuel]; [simpl in Hf; lia|]. cbn [strlen_loop]. destruct Hs as (Hc & Hnz & Hs).
    wp_step. eapply load_wp; [done|]. rewrite (proj2 (Z.eqb_neq c 0)) by done. simpl.
    apply IH; [done|simpl in Hf; lia|].
    replace (q + 1 - p + Z.of_nat (length s)) with (q - p + Z.of_nat (length (c :: s))) by (simpl; lia). done.
Qed.

Lemma rt_strlen_wp (m : mem) p s Q : cstr m p s -> Q (Z.of_nat (length s)) m -> wp (rt_strlen p) Q m.
Proof.
  intros Hs HQ. unfold rt_strlen, walk. do 2 wp_step. pose proof (cstr_size _ _ _ Hs).
  apply (strlen_wp _ _ _ s); [done|lia|]. by rewrite Z.sub_diag.
Qed.

(** The first place at which [t] occurs in [s]. *)
Fixpoint find_sub (t s : list Z) : option nat :=
  if bool_decide (t `prefix_of` s) then Some 0%nat
  else match s with [] => None | _ :: s => S <$> find_sub t s end.

Lemma find_sub_spec t s :
  match find_sub t s with
  | Some k => t `prefix_of` drop k s /\ forall j, (j < k)%nat -> ~ t `prefix_of` drop j s
  | None => forall j, (j <= length s)%nat -> ~ t `prefix_of` drop j s
  end.
Proof.
  induction s as [|c s IH]; cbn [find_sub]; case_bool_decide as E; try (split; [done|lia]).
  - intros j _. by rewrite drop_nil.
  - destruct (find_sub t s) as [k|]; simpl.
    + destruct IH as [IH1 IH2]. split; [done|]. intros [|j] Hj; [done|]. apply IH2. lia.
    + intros [|j] Hj; [done|]. apply IH. lia.
Qed.

Lemma find_sub_short t s : (length s < length t)%nat -> find_sub t s = None.
Proof.
  induction s as [|c s IH]; cbn [find_sub length]; intros Hl; rewrite bool_decide_false; try done.
  - intros E%prefix_length. simpl in E. lia.
  - by rewrite IH by lia.
  - intros E%prefix_length. simpl in E. lia.
Qed.

Lemma bytes_at_take m p l n : bytes_at m p l -> bytes_at m p (take n l).
Proof. revert p n. induction l as [|c l IH]; intros p [|n]; simpl; naive_solver. Qed.

Lemma strstr_wp (m : mem) p q s t Q fuel :
  cstr m p s -> cstr m q t -> (length s < fuel)%nat ->
  Q (match find_sub t s with Some k => p + Z.of_nat k | None => 0 end) m -> t <> [] ->
  wp (strstr_loop fuel (Z.of_nat (length s)) (Z.of_nat (length t)) p q) Q m.
Proof.
  intros Hs Ht Hf HQ Hne. revert p s Hs Hf HQ. induction fuel as [|fuel IH]; intros p s Hs Hf HQ; [lia|].
  cbn [strstr_loop]. destruct (Z.leb_spec (Z.of_nat (length t)) (Z.of_nat (length s))) as [Hle|Hlt].
  2:{ wp_step. by rewrite find_sub_short in HQ by lia. }
  destruct (proj1 (cstr_bytes _ _ _) Hs) as [Bs _]. destruct (proj1 (cstr_bytes _ _ _) Ht) as [Bt _].
  assert (B1 : bytes_at m p (take (length t) s)).
  { rewrite <- (take_app_le s [0]) by lia. by apply bytes_at_take. }
  assert (B2 : bytes_at m q t) by (rewrite <- (take_app_length t [0]); by apply bytes_at_take).
  wp_step. unfold rt_memcmp. rewrite Nat2Z.id.
  replace (memcmp_loop (length t)) with (memcmp_loop (length (take (length t) s)))
    by (rewrite length_take_le by lia; done).
  apply (memcmp_wp _ _ _ _ t); [rewrite length_take_le by lia; done|done..|]. intros r Hr.
  destruct s as [|c s]; [destruct t; [done|simpl in Hle; lia]|]. cbn [find_sub] in HQ.
  destruct (Z.eqb_spec r 0) as [->|Hr0].
  - symmetry in Hr. apply lex_cmp_eq in Hr. wp_step. rewrite bool_decide_true, Z.add_0_r in HQ; [done|].
    rewrite <- Hr. apply prefix_take.
  - rewrite bool_decide_false in HQ.
    + replace (Z.of_nat (length (c :: s)) - 1) with (Z.of_nat (length s)) by (simpl; lia).
      apply IH; [naive_solver|simpl in Hf; lia|].
      destruct (find_sub t s) as [k|]; simpl in *; [|done].
      replace (p + 1 + Z.of_nat k) with (p + Z.of_nat (S k)) by lia. done.
    + intros [k E]. rewrite E in Hr. rewrite take_app_length in Hr.
      rewrite (proj2 (lex_cmp_eq t t) eq_refl) in Hr. by apply Z.compare_eq_iff in Hr.
Qed.

(** [rt_strstr] returns the address of the first occurrence of the second string in
    the first, and NULL when there is none; the empty string occurs at once. *)
Lemma rt_strstr_first (m : mem) p q s t :
  cstr m p s -> cstr m q t ->
  wp (rt_strstr p q) (fun r m' => m' = m /\
    match find_sub t s with
    | Some k => r = p + Z.of_nat k /\ t `prefix_of` drop k s /\ forall j, (j < k)%nat -> ~ t `prefix_of` drop j s
    | None => r = 0 /\ forall j, (j <= length s)%nat -> ~ t `prefix_of` drop j s
    end) m.
Proof.
  intros Hs Ht. unfold rt_strstr. pose proof (find_sub_spec t s) as Hf.
  wp_step. apply (rt_strlen_wp _ _ t); [done|]. destruct t as [|b t].
  - simpl. wp_step. split; [done|].
    assert (E : find_sub [] s = Some 0%nat) by (destruct s; cbn [find_sub]; by rewrite bool_decide_true by apply prefix_nil).
    rewrite E in *. split; [lia|done].
  - rewrite (proj2 (Z.eqb_neq _ 0)) by (simpl; lia). wp_step. apply (rt_strlen_wp _ _ s); [done|].
    rewrite Nat2Z.id. apply strstr_wp; [done..|lia| |done]. split; [done|]. by destruct (find_sub (b :: t) s).
Qed.

(** * Copies of strings *)

Lemma memset_bytes_put (m : mem) p n d Q :
  accessible m p n -> is_byte d -> Q tt (put_bytes p (replicate n d) m) -> wp (memset_bytes n p d) Q m.
Proof.
  intros Ha Hd HQ. pose proof (memset_bytes_wp m p d n Ha n 0 Q) as W. simpl Z.of_nat in W. rewrite Z.add_0_r in W.
  by apply W.
Qed.

(** [n] bytes: the string, cut off or filled up with NUL. *)
Definition padded (n : nat) (s : list Z) : list Z := take n s ++ replicate (n - length s) 0.

Lemma strncpy_wp (m : mem) d p s n Q :
  cstr m p s -> accessible m d n -> d <= p \/ p + Z.of_nat (length s) + 1 <= d ->
  Q tt (put_bytes d (padded n s) m) -> wp (strncpy_loop n d p) Q m.
Proof.
  revert m d p s. induction n as [|n IH]; intros m d p s Hs Ha Hd HQ; cbn [strncpy_loop].
  { by wp_step. }
  wp_step. eapply load_wp; [by apply cstr_head|]. wp_step.
  apply store_wp; [by eapply accessible_head|]. destruct s as [|c s]; simpl.
  - apply memset_bytes_put; [by apply accessible_insert, accessible_tail|split; lia|done].
  - destruct Hs as (_ & Hnz & Hs). rewrite (proj2 (Z.eqb_neq c 0)) by done. simpl in Hd.
    apply (IH _ _ _ s); [apply cstr_insert; [done|lia]|by apply accessible_insert, accessible_tail|lia|done].
Qed.

Lemma strcpy_wp (m : mem) d p s fuel Q :
  cstr m p s -> accessible m d (S (length s)) -> d <= p \/ p + Z.of_nat (length s) + 1 <= d ->
  (length s <= fuel)%nat -> Q tt (put_bytes d (s ++ [0]) m) -> wp (strcpy_loop fuel d p) Q m.
Proof.
  revert m d p fuel. induction s as [|c s IH]; intros m d p fuel Hs Ha Hd Hf HQ.
  - destruct fuel; cbn [strcpy_loop]; (wp_step; eapply load_wp; [exact Hs|]; simpl;
      apply store_wp; [by eapply accessible_head|done]).
  - destruct fuel as [|fuel]; [simpl in Hf; lia|]. cbn [strcpy_loop]. destruct Hs as (Hc & Hnz & Hs).
    wp_step. eapply load_wp; [done|]. rewrite (proj2 (Z.eqb_neq c 0)) by done. simpl in *. wp_step.
    apply store_wp; [by eapply accessible_head|].
    apply IH; [apply cstr_insert; [done|lia]|by apply accessible_insert, accessible_tail|lia|lia|done].
Qed.

(** The copies of strings.  [rt_strcpy] writes the string with its NUL; [rt_strncpy]
    writes exactly [n] bytes, the string cut off or filled up with NUL, and no terminator
    when the string is too long; neither writes elsewhere.  [rt_strdup] puts the string
    with its NUL into the memory it obtained. *)
Lemma string_copies (m : mem) dst src s n :
  cstr m src s -> 0 <= n -> dst <= src \/ src + Z.of_nat (length s) + 1 <= dst ->
  (accessible m dst (S (length s)) ->
   wp (rt_strcpy dst src) (fun r m' => r = dst /\ m' = put_bytes dst (s ++ [0]) m) m) /\
  (accessible m dst (Z.to_nat n) ->
   wp (rt_strncpy dst src n) (fun r m' => r = dst /\ m' = put_bytes dst (padded (Z.to_nat n) s) m) m) /\
  (accessible m dst (S (length s)) -> Forall is_byte s -> dst <> 0 ->
   wp (rt_strdup src dst) (fun r m' => r = dst /\ m' = put_bytes dst (s ++ [0]) m) m).
Proof.
  intros Hs Hn Hd. pose proof (cstr_size _ _ _ Hs). split; [|split]; intros Ha.
  - unfold rt_strcpy, walk. do 3 wp_step. apply (strcpy_wp _ _ _ s); [done..|lia|]. by wp_step.
  - unfold rt_strncpy. wp_step. destruct (Z.eqb_spec n 0) as [->|]; simpl.
    + by do 2 wp_step.
    + apply (strncpy_wp _ _ _ s); [done..|]. by wp_step.
  - intros Hb Hnz. unfold rt_strdup. wp_step. apply (rt_strlen_wp _ _ s); [done|].
    rewrite (proj2 (Z.eqb_neq dst 0)) by done. destruct (proj1 (cstr_bytes _ _ _) Hs) as [Bs _].
    assert (El : Z.of_nat (length s) + 1 = Z.of_nat (length (s ++ [0]))) by (rewrite length_app; simpl; lia).
    rewrite El. wp_step. eapply wp_mono.
    + apply (rt_memcpy_wp m dst src (s ++ [0])); [done| |rewrite length_app, Nat.add_1_r; done|lia].
      apply Forall_app. split; [done|]. by repeat constructor.
    + intros r m' [_ ->]. by wp_step.
Qed.

(** * Bounded length *)

Lemma strnlen_wp (m : mem) p q l c maxlen Q fuel :
  bytes_at m q l -> Forall (fun c => c <> 0) l -> m !! (q + Z.of_nat (length l)) = Some c ->
  c = 0 \/ q - p + Z.of_nat (length l) = maxlen -> p <= q -> q - p + Z.of_nat (length l) <= maxlen < 2 ^ 32 ->
  (length l <= fuel)%nat -> Q (q - p + Z.of_nat (length l)) m -> wp (strnlen_loop fuel p q maxlen) Q m.
Proof.
  revert q fuel. induction l as [|b l IH]; intros q fuel Hb Hnz Hc Hstop Hpq Hr Hf HQ.
  - rewrite Z.add_0_r in *. assert (E : negb (c =? 0) && (u32 (q - p) <? maxlen) = false).
    { rewrite u32_id by lia. destruct Hstop as [->|<-]; [done|]. by rewrite Z.ltb_irrefl, andb_false_r. }
    destruct fuel; cbn [strnlen_loop]; (wp_step; eapply load_wp; [exact Hc|]; rewrite E; by wp_step).
  - destruct fuel as [|fuel]; [simpl in Hf; lia|]. cbn [strnlen_loop]. destruct Hb as [E Hb].
    apply Forall_cons in Hnz as [Hn Hnz]. cbn [length] in *.
    wp_step. eapply load_wp; [done|]. rewrite (proj2 (Z.eqb_neq b 0)) by done.
    rewrite u32_id, (proj2 (Z.ltb_lt _ _)) by lia. simpl.
    replace (q + Z.of_nat (S (length l))) with (q + 1 + Z.of_nat (length l)) in Hc by lia.
    replace (q - p + Z.of_nat (S (length l))) with (q + 1 - p + Z.of_nat (length l)) in * by lia.
    apply IH; [done..|lia|lia|lia|done].
Qed.

(** [rt_strnlen] of a string is the smaller of its length and the bound. *)
Lemma rt_strnlen_min (m : mem) p s maxlen :
  cstr m p s -> 0 <= maxlen < 2 ^ 32 ->
  wp (rt_strnlen p maxlen) (fun r m' => m' = m /\ r = Z.min (Z.of_nat (length s)) maxlen) m.
Proof.
  intros Hs Hm. pose proof (cstr_size _ _ _ Hs) as Hsz. unfold rt_strnlen, walk. do 2 wp_step.
  destruct (proj1 (cstr_bytes _ _ _) Hs) as [Bs Ns].
  destruct (Z.le_gt_cases (Z.of_nat (length s)) maxlen).
  - apply (strnlen_wp _ _ _ s 0); [|done|..].
    + rewrite <- (take_app_length s [0]). by apply bytes_at_take.
    + apply (proj1 (bytes_at_lookup _ _ _) Bs). by apply list_lookup_middle.
    + by left.
    + done.
    + lia.
    + lia.
    + split; [done|lia].
  - destruct (lookup_lt_is_Some_2 s (Z.to_nat maxlen) ltac:(lia)) as [c Hc].
    assert (El : length (take (Z.to_nat maxlen) s) = Z.to_nat maxlen) by (rewrite length_take_le; lia).
    apply (strnlen_wp _ _ _ (take (Z.to_nat maxlen) s) c); rewrite ?El.
    + rewrite <- (take_app_le s [0]) by lia. by apply bytes_at_take.
    + by apply Forall_take.
    + apply (proj1 (bytes_at_lookup _ _ _) Bs). rewrite lookup_app_l by lia. done.
    + right. lia.
    + done.
    + lia.
    + lia.
    + split; [done|lia].
Qed.

Lemma strnlen_fault (m : mem) p q l maxlen fuel :
  bytes_at m q l -> Forall (fun c => c <> 0) l -> m !! (q + Z.of_nat (length l)) = None ->
  p <= q -> q - p + Z.of_nat (length l) <= maxlen < 2 ^ 32 -> strnlen_loop fuel p q maxlen m = None.
Proof.
  revert q fuel. induction l as [|b l IH]; intros q fuel Hb Hnz Hc Hpq Hr.
  - rewrite Z.add_0_r in Hc. assert (El : load q m = None) by (unfold load, mbind, M_bind, get, deref; by rewrite Hc).
    destruct fuel; cbn [strnlen_loop]; unfold mbind at 1, M_bind at 1; by rewrite El.
  - destruct Hb as [E Hb]. apply Forall_cons in Hnz as [Hn Hnz]. cbn [length] in *.
    replace (q + Z.of_nat (S (length l))) with (q + 1 + Z.of_nat (length l)) in Hc by lia.
    assert (El : load q m = Some (b, m)) by (unfold load, mbind, M_bind, get, deref; by rewrite E).
    destruct fuel as [|fuel]; cbn [strnlen_loop]; unfold mbind at 1, M_bind at 1; rewrite El;
      rewrite (proj2 (Z.eqb_neq b 0)), u32_id, (proj2 (Z.ltb_lt _ _)) by (done || lia); simpl; [done|].
    apply IH; [done..|lia|lia].
Qed.

(** [rt_strnlen] reads one byte more than its bound allows: on a buffer of exactly [n]
    accessible bytes without NUL it reads the byte behind the buffer, an access that
    fails when that byte is not accessible, and returns [n] whatever the byte is. *)
Lemma rt_strnlen_overread (m : mem) p l :
  bytes_at m p l -> Forall (fun c => c <> 0) l -> m !! (p + Z.of_nat (length l)) = None ->
  Z.of_nat (length l) < 2 ^ 32 ->
  rt_strnlen p (Z.of_nat (length l)) m = None /\
  forall c, wp (rt_strnlen p (Z.of_nat (length l))) (fun r _ => r = Z.of_nat (length l))
              (<[p + Z.of_nat (length l) := c]> m).
Proof.
  intros Hb Hnz Hno Hl. split.
  - unfold rt_strnlen, walk, mbind, M_bind, get. pose proof (accessible_size _ _ _ (bytes_at_accessible _ _ _ Hb)).
    apply (strnlen_fault m p p l); [done..|lia].
  - intros c. unfold rt_strnlen, walk. do 2 wp_step.
    pose proof (accessible_size _ _ _ (bytes_at_accessible _ _ _ Hb)) as Hsz.
    apply (strnlen_wp _ p p l c); [apply bytes_at_insert; [done|lia]|done|by rewrite lookup_insert_eq|right; lia|done|lia| |lia].
    rewrite map_size_insert_None by done. lia.
Qed.

(** * Examples *)

(** Two strings, [alpha] at 100 and [Alp] at 110, and a free area from 112 on. *)
Definition str_demo : mem :=
  put_bytes 100 ([97; 108; 112; 104; 97; 0; 1; 2; 3; 4] ++ [65; 108; 112; 0] ++ replicate 50 7) ∅.

Lemma str_demo_accessible p n : 100 <= p -> p + Z.of_nat n <= 164 -> accessible str_demo p n.
Proof.
  intros Hp Hn a Ha. apply (bytes_at_accessible _ _ _ (bytes_at_put 100 _ ∅)). simpl. lia.
Qed.

Lemma rt_memset_fills_witness :
  wp (rt_memset 120 511 39) (fun r m' => r = 120 /\ m' = put_bytes 120 (replicate 39 255) str_demo) str_demo.
Proof. apply (rt_memset_fills str_demo 120 511 39); [lia|apply str_demo_accessible; simpl; lia]. Defined.

Lemma rt_memcpy_copies_witness :
  wp (rt_memcpy 124 100 22) (fun r m' => r = 124 /\ m' = put_bytes 124
    ([97; 108; 112; 104; 97; 0; 1; 2; 3; 4; 65; 108; 112; 0] ++ replicate 8 7) str_demo) str_demo.
Proof.
  apply (rt_memcpy_copies str_demo 124 100 ([97; 108; 112; 104; 97; 0; 1; 2; 3; 4; 65; 108; 112; 0] ++ replicate 8 7));
    [done|repeat constructor; lia|apply str_demo_accessible; simpl; lia|simpl; lia].
Defined.

Lemma rt_memmove_copies_witness :
  wp (rt_memmove 102 100 4) (fun r m' => r = 102 /\ m' = put_bytes 102 [97; 108; 112; 104] str_demo) str_demo.
Proof.
  apply (rt_memmove_copies str_demo 102 100 [97; 108; 112; 104]); [done|apply str_demo_accessible; simpl; lia].
Defined.

Lemma string_comparisons_witness :
  wp (rt_strcmp 100 110) (fun r m' => m' = str_demo /\ (r ?= 0) = Gt) str_demo /\
  wp (rt_strcasecmp 100 110) (fun r m' => m' = str_demo /\ (r ?= 0) = Gt) str_demo /\
  wp (rt_strncmp 100 110 3) (fun r m' => m' = str_demo /\ (r = 0 <-> [97; 108; 112] = [65; 108; 112]) /\
    (Forall (fun c => c < 128) [97; 108; 112; 104; 97] -> Forall (fun c => c < 128) [65; 108; 112] -> (r ?= 0) = Gt))
    str_demo.
Proof.
  apply (string_comparisons str_demo 100 110 [97; 108; 112; 104; 97] [65; 108; 112] 3);
    [done|done|repeat constructor; lia|repeat constructor; lia|lia].
Defined.

Lemma rt_strstr_first_witness :
  wp (rt_strstr 100 111) (fun r m' => m' = str_demo /\
    (r = 100 + 1 /\ [108; 112] `prefix_of` [108; 112; 104; 97] /\
     forall j, (j < 1)%nat -> ~ [108; 112] `prefix_of` drop j [97; 108; 112; 104; 97])) str_demo.
Proof. apply (rt_strstr_first str_demo 100 111 [97; 108; 112; 104; 97] [108; 112]); done. Defined.

Lemma string_copies_witness :
  wp (rt_strcpy 130 100) (fun r m' => r = 130 /\ m' = put_bytes 130 [97; 108; 112; 104; 97; 0] str_demo) str_demo /\
  wp (rt_strncpy 130 100 7)
    (fun r m' => r = 130 /\ m' = put_bytes 130 [97; 108; 112; 104; 97; 0; 0] str_demo) str_demo /\
  wp (rt_strdup 100 130) (fun r m' => r = 130 /\ m' = put_bytes 130 [97; 108; 112; 104; 97; 0] str_demo) str_demo.
Proof.
  destruct (string_copies str_demo 130 100 [97; 108; 112; 104; 97] 7) as (H1 & H2 & H3); [done|lia|simpl; lia|].
  split; [apply H1|split; [apply H2|apply H3]]; try (apply str_demo_accessible; simpl; lia);
    [repeat constructor; lia|lia].
Defined.

Lemma rt_strnlen_overread_witness :
  rt_strnlen 150 14 str_demo = None /\
  forall c, wp (rt_strnlen 150 14) (fun r _ => r = 14) (<[164 := c]> str_demo).
Proof.
  apply (rt_strnlen_overread str_demo 150 (replicate 14 7));
    [vm_compute; intuition|repeat constructor; lia|reflexivity|simpl; lia].
Defined.
