(* ===== verification/KPrintf.v ===== *)
(** Formatted output: [print_number], [rt_vsnprintf] and its callers of
    src/klibc/kstdio.c, in the variant of the build (no [long long]).

    Output goes to memory (ByteMem.v), one byte at a time and only below [end]; the format
    and the strings of [%s] are read from memory.  A variable argument list is the list of
    its values; taking an argument that is not there stops the computation.  The [int]
    arithmetic on field widths and precisions is that of [Z]: it does not reach the limits
    of the type unless a width or precision itself does. *)
From stdpp Require Import gmap.
From S2P Require Import Prelude ByteMem.
#[local] Open Scope Z_scope.

Definition i16 (z : Z) : Z := (z + 2 ^ 15) mod 2 ^ 16 - 2 ^ 15.
Definition as_i8 (z : Z) : Z := (z + 2 ^ 7) mod 2 ^ 8 - 2 ^ 7.

Definition ISDIGIT (c : Z) : bool := u32 (c - 48) <? 10.

(** The remainder, and the quotient left in [*n]. *)
Definition divide (n base : Z) : Z * Z := (n mod base, n / base).

Fixpoint skip_atoi (fuel : nat) (i s : Z) : B (Z * Z) :=
  c ← load s;
  if ISDIGIT c then
    match fuel with O => stuck | S fuel => skip_atoi fuel (i32 (i * 10 + c - 48)) (s + 1) end
  else mret (i, s).

Definition ZEROPAD : Z := Z.shiftl 1 0.
Definition SIGN : Z := Z.shiftl 1 1.
Definition PLUS : Z := Z.shiftl 1 2.
Definition SPACE : Z := Z.shiftl 1 3.
Definition LEFT : Z := Z.shiftl 1 4.
Definition SPECIAL : Z := Z.shiftl 1 5.
Definition LARGE : Z := Z.shiftl 1 6.

(** [flags & f] as a condition *)
Definition has (flags f : Z) : bool := negb (Z.land flags f =? 0).

(** [if (str < end) *str = c; ++ str] *)
Definition put (str end_ c : Z) : B Z :=
  (if str <? end_ then store str c else mret tt);;
  mret (str + 1).

(** [n] times the same character *)
Fixpoint put_n (n : nat) (str end_ c : Z) : B Z :=
  match n with
  | O => mret str
  | S n => str ← put str end_ c; put_n n str end_ c
  end.

Fixpoint put_list (l : list Z) (str end_ : Z) : B Z :=
  match l with
  | [] => mret str
  | c :: l => str ← put str end_ c; put_list l str end_
  end.

(** [while (size-- > 0) put c]: the new position, and the value [size] has then. *)
Definition pad (size str end_ c : Z) : B (Z * Z) :=
  str ← put_n (Z.to_nat size) str end_ c;
  mret (str, Z.min size 0 - 1).

(** [small_digits[d]] and [large_digits[d]] *)
Definition digit_char (large : bool) (d : Z) : Z :=
  if d <? 10 then 48 + d else (if large then 65 else 97) + (d - 10).

(** The digits of a number that is not zero, the last one first, as they are stored in
    [tmp]; [room] is the number of elements of [tmp] that are free. *)
Fixpoint tmp_digits (room : nat) (num base : Z) (large : bool) : B (list Z) :=
  if num =? 0 then mret []
  else match room with
       | O => stuck
       | S room =>
           let '(d, num) := divide num base in
           l ← tmp_digits room num base large;
           mret (digit_char large d :: l)
       end.

(** The sign character, 0 for none, and the number without it. *)
Definition number_sign (num qualifier type : Z) : Z * Z :=
  if has type SIGN then
    let '(sign, num) :=
      if qualifier =? 104 then
        (if i16 num <? 0 then (45, u16 (- num)) else (0, num))
      else
        (if i32 num <? 0 then (45, u32 (- num)) else (0, num)) in
    if sign =? 45 then (sign, num)
    else if has type PLUS then (43, num)
    else if has type SPACE then (32, num)
    else (sign, num)
  else (0, num).

Definition print_number (buf end_ num base qualifier s precision type : Z) : B Z :=
  let precision_bak := precision in
  let size := s in
  let type := if has type LEFT then Z.land type (Z.lnot ZEROPAD) else type in
  let c := if has type ZEROPAD then 48 else 32 in
  let '(sign, num) := number_sign num qualifier type in
  let size :=
    if has type SPECIAL then
      if (base =? 2) || (base =? 16) then size - 2
      else if base =? 8 then size - 1
      else size
    else size in
  tmp ← (if num =? 0 then mret [48] else tmp_digits 32 num base (has type LARGE));
  let i := Z.of_nat (length tmp) in
  let precision := if precision <? i then i else precision in
  let size := size - precision in
  '(buf, size) ←
    (if negb (has type (Z.lor ZEROPAD LEFT)) then
       let size := if negb (sign =? 0) && (0 <? size) then size - 1 else size in
       pad size buf end_ 32
     else mret (buf, size));
  '(buf, size) ←
    (if negb (sign =? 0) then buf ← put buf end_ sign; mret (buf, size - 1)
     else mret (buf, size));
  buf ←
    (if has type SPECIAL then
       if base =? 2 then buf ← put buf end_ 48; put buf end_ 98
       else if base =? 8 then put buf end_ 48
       else if base =? 16 then buf ← put buf end_ 48; put buf end_ (if has type LARGE then 88 else 120)
       else mret buf
     else mret buf);
  '(buf, size) ← (if negb (has type LEFT) then pad size buf end_ c else mret (buf, size));
  buf ← put_n (Z.to_nat (precision - i)) buf end_ 48;
  buf ← (if negb (precision_bak =? 0) then put_list (rev tmp) buf end_ else mret buf);
  '(buf, _) ← pad size buf end_ 32;
  mret buf.

(** * The format *)

(** [va_arg] *)
Definition va_arg (args : list Z) : B (Z * list Z) :=
  match args with a :: args => mret (a, args) | [] => stuck end.

(** The flag a character stands for. *)
Definition flag_of (c : Z) : Z :=
  if c =? 45 then LEFT
  else if c =? 43 then PLUS
  else if c =? 32 then SPACE
  else if c =? 35 then SPECIAL
  else if c =? 48 then ZEROPAD
  else 0.

Fixpoint get_flags (fuel : nat) (fmt flags : Z) : B (Z * Z) :=
  let fmt := fmt + 1 in
  c ← load fmt;
  let f := flag_of c in
  if f =? 0 then mret (fmt, flags)
  else match fuel with O => stuck | S fuel => get_flags fuel fmt (Z.lor flags f) end.

Definition get_width (fuel : nat) (fmt flags : Z) (args : list Z) : B (Z * Z * Z * list Z) :=
  c ← load fmt;
  if ISDIGIT c then
    '(w, fmt) ← skip_atoi fuel 0 fmt;
    mret (fmt, w, flags, args)
  else if c =? 42 then
    '(a, args) ← va_arg args;
    let w := i32 a in
    if w <? 0 then mret (fmt + 1, i32 (- w), Z.lor flags LEFT, args)
    else mret (fmt + 1, w, flags, args)
  else mret (fmt, -1, flags, args).

Definition get_precision (fuel : nat) (fmt : Z) (args : list Z) : B (Z * Z * list Z) :=
  c ← load fmt;
  if c =? 46 then
    let fmt := fmt + 1 in
    c ← load fmt;
    '(fmt, p, args) ←
      (if ISDIGIT c then '(p, fmt) ← skip_atoi fuel 0 fmt; mret (fmt, p, args)
       else if c =? 42 then '(a, args) ← va_arg args; mret (fmt + 1, i32 a, args)
       else mret (fmt, -1, args));
    mret (fmt, (if p <? 0 then 0 else p), args)
  else mret (fmt, -1, args).

(** [h], [l] or [z]; [hh] becomes [H]. *)
Definition get_qualifier (fmt : Z) : B (Z * Z) :=
  c ← load fmt;
  if (c =? 104) || (c =? 108) || (c =? 122) then
    d ← load (fmt + 1);
    if (c =? 104) && (d =? 104) then mret (fmt + 2, 72) else mret (fmt + 1, c)
  else mret (fmt, 0).

Definition print_char (str end_ c flags field_width : Z) : B Z :=
  '(str, field_width) ←
    (if negb (has flags LEFT) then
       str ← put_n (Z.to_nat (field_width - 1)) str end_ 32;
       mret (str, Z.min (field_width - 1) 0)
     else mret (str, field_width));
  str ← put str end_ c;
  put_n (Z.to_nat (field_width - 1)) str end_ 32.

(** [s[i]], where NULL stands for the constant string [(NULL)] *)
Definition null_str : list Z := [40; 78; 85; 76; 76; 41; 0].
Definition char_at (s i : Z) : B Z :=
  if s =? 0 then deref (null_str !! Z.to_nat i) else load (s + i).

Fixpoint field_len (fuel : nat) (s len field_width : Z) : B Z :=
  if negb (len =? field_width) then
    c ← char_at s len;
    if negb (c =? 0) then
      match fuel with O => stuck | S fuel => field_len fuel s (len + 1) field_width end
    else mret len
  else mret len.

Fixpoint put_string (n : nat) (s i str end_ : Z) : B Z :=
  match n with
  | O => mret str
  | S n =>
      (if str <? end_ then c ← char_at s i; store str c else mret tt);;
      put_string n s (i + 1) (str + 1) end_
  end.

Definition print_string (fuel : nat) (str end_ s flags field_width precision : Z) : B Z :=
  len ← field_len fuel s 0 field_width;
  let len := if (0 <? precision) && (precision <? len) then precision else len in
  '(str, field_width) ←
    (if negb (has flags LEFT) then
       str ← put_n (Z.to_nat (field_width - len)) str end_ 32;
       mret (str, Z.min field_width len - 1)
     else mret (str, field_width));
  str ← put_string (Z.to_nat len) s 0 str end_;
  put_n (Z.to_nat (field_width - len)) str end_ 32.

(** The argument of an integer conversion, converted to [unsigned long].  The qualifier
    [L] is not recognised in this configuration. *)
Definition number_arg (a qualifier flags : Z) : Z :=
  if qualifier =? 108 then u32 a
  else if qualifier =? 72 then u32 (as_i8 a)
  else if qualifier =? 104 then (if has flags SIGN then u32 (i16 (u16 a)) else u16 a)
  else u32 a.

(** One conversion: [fmt] is at its letter.  The result is the new [fmt] (still at the
    last character used), position and arguments. *)
Definition conversion (fuel : nat) (fmt str end_ : Z) (args : list Z) (flags field_width precision qualifier : Z)
    : B (Z * Z * list Z) :=
  c ← load fmt;
  let integer base flags :=
    '(a, args) ← va_arg args;
    str ← print_number str end_ (number_arg a qualifier flags) base qualifier field_width precision flags;
    mret (fmt, str, args) in
  let other args :=
    str ← put str end_ 37;
    if negb (c =? 0) then str ← put str end_ c; mret (fmt, str, args)
    else mret (fmt - 1, str, args) in
  if c =? 99 then
    (* the character is fetched after the padding, which does not depend on it *)
    '(a, args) ← va_arg args;
    str ← print_char str end_ (u8 a) flags field_width;
    mret (fmt, str, args)
  else if c =? 115 then
    '(s, args) ← va_arg args;
    str ← print_string fuel str end_ s flags field_width precision;
    mret (fmt, str, args)
  else if c =? 112 then
    let '(field_width, flags) :=
      if field_width =? -1 then (Z.shiftl 4 1 + 2, Z.lor (Z.lor flags SPECIAL) ZEROPAD)
      else (field_width, flags) in
    '(a, args) ← va_arg args;
    str ← print_number str end_ (u32 a) 16 qualifier field_width precision flags;
    mret (fmt, str, args)
  else if c =? 37 then str ← put str end_ 37; mret (fmt, str, args)
  else if c =? 98 then integer 2 flags
  else if c =? 111 then integer 8 flags
  else if c =? 88 then integer 16 (Z.lor flags LARGE)
  else if c =? 120 then integer 16 flags
  else if (c =? 100) || (c =? 105) then integer 10 (Z.lor flags SIGN)
  else if c =? 117 then integer 10 flags
  else if existsb (Z.eqb c) [101; 69; 71; 103; 102; 70] then
    '(_, args) ← va_arg args; other args
  else other args.

(** [top] is the fuel of the loops inside a conversion, which walk over the format, over a
    string in memory or over the constant for NULL. *)
Fixpoint format_loop (fuel top : nat) (fmt str end_ : Z) (args : list Z) : B Z :=
  c ← load fmt;
  if c =? 0 then mret str
  else match fuel with
  | O => stuck
  | S fuel =>
      if negb (c =? 37) then
        str ← put str end_ c;
        format_loop fuel top (fmt + 1) str end_ args
      else
        '(fmt, flags) ← get_flags top fmt 0;
        '(fmt, field_width, flags, args) ← get_width top fmt flags args;
        '(fmt, precision, args) ← get_precision top fmt args;
        '(fmt, qualifier) ← get_qualifier fmt;
        '(fmt, str, args) ← conversion top fmt str end_ args flags field_width precision qualifier;
        format_loop fuel top (fmt + 1) str end_ args
  end.

Definition rt_vsnprintf (buf size fmt : Z) (args : list Z) : B Z :=
  let end_ := u32 (buf + size) in
  let '(end_, size) := if end_ <? buf then (2 ^ 32 - 1, u32 (2 ^ 32 - 1 - buf)) else (end_, size) in
  m ← get;
  str ← format_loop (base.size m) (length null_str + base.size m) fmt buf end_ args;
  (if 0 <? size then
     if str <? end_ then store str 0 else store (end_ - 1) 0
   else mret tt);;
  mret (str - buf).

Definition rt_snprintf (buf size fmt : Z) (args : list Z) : B Z := rt_vsnprintf buf size fmt args.
Definition rt_vsprintf (buf fmt : Z) (args : list Z) : B Z := rt_vsnprintf buf (2 ^ 32 - 1) fmt args.
Definition rt_sprintf (buf fmt : Z) (args : list Z) : B Z := rt_vsprintf buf fmt args.
