(* ===== verification/KPrintfProp.v ===== *)
(** Formatted output: what [rt_vsnprintf] writes.

    The text of a format is a function of the format and its arguments ([render]); the
    code writes it, cut off at the size of the buffer. *)
From stdpp Require Import gmap.
From S2P Require Import Prelude ByteMem KPrintf.
#[local] Open Scope Z_scope.

(** * The text of a field *)

(** The digits of a number, the last one first. *)
Fixpoint ldigits (n : nat) (num base : Z) : list Z :=
  match n with
  | O => []
  | S n => if num =? 0 then [] else num mod base :: ldigits n (num / base) base
  end.

Definition digits (large : bool) (num base : Z) : list Z :=
  if num =? 0 then [48] else rev (map (digit_char large) (ldigits 32 num base)).

Definition spaces (n : Z) : list Z := replicate (Z.to_nat n) 32.
Definition zeros (n : Z) : list Z := replicate (Z.to_nat n) 48.

Definition prefix (base : Z) (large : bool) : list Z :=
  if base =? 2 then [48; 98]
  else if base =? 8 then [48]
  else if base =? 16 then [48; if large then 88 else 120]
  else [].

(** The text of a number: its sign, prefix and digits, filled up to the precision with
    zeros and to the width with spaces on the left, zeros behind the prefix, or spaces on
    the right.  A precision of zero leaves out the digits but reserves their room. *)
Definition number_text (num base qualifier width precision flags : Z) : list Z :=
  let '(sign, num) := number_sign num qualifier flags in
  let sg := if sign =? 0 then [] else [sign] in
  let pre := if has flags SPECIAL then prefix base (has flags LARGE) else [] in
  let ds := digits (has flags LARGE) num base in
  let prec := Z.max (Z.of_nat (length ds)) precision in
  let body := zeros (prec - Z.of_nat (length ds)) ++ (if precision =? 0 then [] else ds) in
  let room := width - Z.of_nat (length pre) - prec - Z.of_nat (length sg) in
  if has flags LEFT then sg ++ pre ++ body ++ spaces room
  else if has flags ZEROPAD then sg ++ pre ++ zeros room ++ body
  else spaces room ++ sg ++ pre ++ body.

Definition char_text (c flags width : Z) : list Z :=
  if has flags LEFT then c :: spaces (width - 1) else spaces (width - 1) ++ [c].

(** A string is cut off at the width and at a positive precision. *)
Definition string_text (s : list Z) (flags width precision : Z) : list Z :=
  let s := if width <? 0 then s else take (Z.to_nat width) s in
  let s := if 0 <? precision then take (Z.to_nat precision) s else s in
  let sp := spaces (width - Z.of_nat (length s)) in
  if has flags LEFT then s ++ sp else sp ++ s.

(** * Digits *)

Lemma ldigits_value n num base :
  2 <= base -> 0 <= num < base ^ Z.of_nat n ->
  foldr (fun d acc => d + base * acc) 0 (ldigits n num base) = num.
Proof.
  intros Hb. revert num. induction n as [|n IH]; intros num Hn; [simpl in *; lia|].
  cbn [ldigits]. destruct (Z.eqb_spec num 0) as [->|]; [done|]. cbn [foldr].
  rewrite Nat2Z.inj_succ, Z.pow_succ_r in Hn by lia. rewrite IH.
  - pose proof (Z.div_mod num base). lia.
  - split; [apply Z.div_pos; lia|]. apply Z.div_lt_upper_bound; lia.
Qed.

Lemma ldigits_range n num base : 2 <= base -> Forall (fun d => 0 <= d < base) (ldigits n num base).
Proof.
  intros Hb. revert num. induction n as [|n IH]; intros num; cbn [ldigits]; [done|].
  case_match; constructor; [apply Z.mod_pos_bound; lia|done].
Qed.

Lemma tmp_digits_wp room num base large Q (m : mem) :
  2 <= base -> 0 <= num < base ^ Z.of_nat room ->
  Q (map (digit_char large) (ldigits room num base)) m -> wp (tmp_digits room num base large) Q m.
Proof.
  intros Hb. revert num Q. induction room as [|room IH]; intros num Q Hn HQ; cbn [tmp_digits ldigits] in *.
  - assert (num = 0) as -> by (simpl in Hn; lia). simpl. by wp_step.
  - destruct (Z.eqb_spec num 0); [by wp_step|]. simpl. wp_step. apply IH; [|by wp_step].
    rewrite Nat2Z.inj_succ, Z.pow_succ_r in Hn by lia.
    split; [apply Z.div_pos; lia|]. apply Z.div_lt_upper_bound; lia.
Qed.

(** * Flags *)

Lemma has_bit t k : 0 <= k -> has t (Z.shiftl 1 k) = Z.testbit t k.
Proof.
  intros Hk. unfold has. rewrite Z.shiftl_1_l. destruct (Z.eqb_spec (Z.land t (2 ^ k)) 0) as [E|E].
  - apply (f_equal (fun z => Z.testbit z k)) in E. rewrite Z.land_spec, Z.bits_0, Z.pow2_bits_true in E by done.
    by rewrite andb_true_r in E.
  - destruct (Z.testbit t k) eqn:Et; [done|]. exfalso. apply E, Z.bits_inj'. intros n Hn.
    rewrite Z.land_spec, Z.bits_0, Z.pow2_bits_eqb by done. destruct (Z.eqb_spec k n) as [->|]; [by rewrite Et|apply andb_false_r].
Qed.

Lemma has_lor t a b : has t (Z.lor a b) = has t a || has t b.
Proof.
  unfold has. rewrite Z.land_lor_distr_r, <- negb_andb. f_equal. apply eq_bool_prop_intro.
  rewrite andb_True, !Is_true_true, !Z.eqb_eq. apply Z.lor_eq_0_iff.
Qed.

(** The flags without [ZEROPAD]. *)
Lemma has_cleared t k : 0 <= k ->
  has (Z.land t (Z.lnot ZEROPAD)) (Z.shiftl 1 k) = has t (Z.shiftl 1 k) && negb (k =? 0).
Proof.
  intros Hk. rewrite !has_bit, Z.land_spec, Z.lnot_spec by done. by destruct k.
Qed.

Lemma number_sign_cleared num q t : number_sign num q (Z.land t (Z.lnot ZEROPAD)) = number_sign num q t.
Proof.
  unfold number_sign, SIGN, PLUS, SPACE. rewrite !has_cleared by lia. by rewrite !andb_true_r.
Qed.

Lemma number_sign_range num q t sign num' :
  0 <= num < 2 ^ 32 -> number_sign num q t = (sign, num') -> 0 <= num' < 2 ^ 32.
Proof.
  intros Hn. pose proof (u16_range (- num)). pose proof (u32_range (- num)). unfold number_sign.
  repeat case_match; naive_solver lia.
Qed.

(** * Output into a buffer *)

Section output.
Context (m0 : mem) (lo hi : Z).
Hypothesis Hwin : accessible m0 lo (Z.to_nat (hi - lo)).

(** The memory and the position when [o] has been output. *)
Definition st (o : list Z) : mem := put_bytes lo (take (Z.to_nat (hi - lo)) o) m0.
Definition pos (o : list Z) : Z := lo + Z.of_nat (length o).

Lemma put_wp o c Q : Q (pos (o ++ [c])) (st (o ++ [c])) -> wp (put (pos o) hi c) Q (st o).
Proof using Hwin.
  intros HQ. unfold put. wp_step.
  assert (Ep : pos (o ++ [c]) = pos o + 1) by (unfold pos; rewrite length_app; simpl; lia).
  rewrite Ep in HQ. destruct (Z.ltb_spec (pos o) hi) as [Hlt|Hge]; unfold pos in *.
  - apply store_wp; [apply (accessible_put _ _ _ _ _ Hwin); lia|]. wp_step. unfold st in *.
    rewrite (take_ge o) by lia. rewrite take_ge, put_bytes_app in HQ by (rewrite length_app; simpl; lia). done.
  - wp_step. wp_step. unfold st in *. rewrite take_app_le in HQ by lia. done.
Qed.

Lemma put_n_wp n o c Q :
  Q (pos (o ++ replicate n c)) (st (o ++ replicate n c)) -> wp (put_n n (pos o) hi c) Q (st o).
Proof using Hwin.
  revert o. induction n as [|n IH]; intros o HQ; simpl.
  - wp_step. by rewrite app_nil_r in HQ.
  - wp_step. apply put_wp, IH. by rewrite <- app_assoc.
Qed.

Lemma put_list_wp l o Q : Q (pos (o ++ l)) (st (o ++ l)) -> wp (put_list l (pos o) hi) Q (st o).
Proof using Hwin.
  revert o. induction l as [|c l IH]; intros o HQ; simpl.
  - wp_step. by rewrite app_nil_r in HQ.
  - wp_step. apply put_wp, IH. by rewrite <- app_assoc.
Qed.

Lemma pad_wp size o c Q :
  let o' := o ++ replicate (Z.to_nat size) c in
  Q (pos o', Z.min size 0 - 1) (st o') -> wp (pad size (pos o) hi c) Q (st o).
Proof using Hwin. intros o' HQ. unfold pad. wp_step. apply put_n_wp. by wp_step. Qed.

Lemma prefix_wp t base o Q :
  let pre := if has t SPECIAL then prefix base (has t LARGE) else [] in
  Q (pos (o ++ pre)) (st (o ++ pre)) ->
  wp (if has t SPECIAL then
        if base =? 2 then buf ← put (pos o) hi 48; put buf hi 98
        else if base =? 8 then put (pos o) hi 48
        else if base =? 16 then buf ← put (pos o) hi 48; put buf hi (if has t LARGE then 88 else 120)
        else mret (pos o)
      else mret (pos o)) Q (st o).
Proof using Hwin.
  intros pre HQ. subst pre. unfold prefix in HQ. destruct (has t SPECIAL); [|wp_step; by rewrite app_nil_r in HQ].
  repeat case_match; try (wp_step; by rewrite app_nil_r in HQ); [wp_step|apply put_wp; exact HQ|wp_step..];
    (apply put_wp, put_wp; by rewrite <- app_assoc).
Qed.

Lemma tmp_wp num base large o Q :
  2 <= base -> 0 <= num < 2 ^ 32 -> (forall tmp, rev tmp = digits large num base -> Q tmp (st o)) ->
  wp (if num =? 0 then mret [48] else tmp_digits 32 num base large) Q (st o).
Proof.
  intros Hb Hn HQ. unfold digits in HQ. destruct (num =? 0); [wp_step; by apply HQ|].
  apply tmp_digits_wp; [done| |by apply HQ]. split; [lia|].
  eapply Z.lt_le_trans; [apply Hn|]. by apply Z.pow_le_mono_l.
Qed.

(** What [print_number] does after the spaces on the left. *)
Lemma number_tail_wp sign size (left : bool) c t base tmp precision prec o Q :
  let sg := if sign =? 0 then [] else [sign] in
  let room := size - Z.of_nat (length sg) in
  let pre := if has t SPECIAL then prefix base (has t LARGE) else [] in
  let body := zeros (prec - Z.of_nat (length tmp)) ++ (if precision =? 0 then [] else rev tmp) in
  let out := sg ++ pre ++ (if left then body ++ spaces room else replicate (Z.to_nat room) c ++ body) in
  Q (pos (o ++ out)) (st (o ++ out)) ->
  wp ('(buf, size) ←
        (if negb (sign =? 0) then buf ← put (pos o) hi sign; mret (buf, size - 1) else mret (pos o, size));
      buf ←
        (if has t SPECIAL then
           if base =? 2 then buf ← put buf hi 48; put buf hi 98
           else if base =? 8 then put buf hi 48
           else if base =? 16 then buf ← put buf hi 48; put buf hi (if has t LARGE then 88 else 120)
           else mret buf
         else mret buf);
      '(buf, size) ← (if negb left then pad size buf hi c else mret (buf, size));
      buf ← put_n (Z.to_nat (prec - Z.of_nat (length tmp))) buf hi 48;
      buf ← (if negb (precision =? 0) then put_list (rev tmp) buf hi else mret buf);
      '(buf, _) ← pad size buf hi 32;
      mret buf) Q (st o).
Proof using Hwin.
  intros sg room pre body out HQ.
  assert (Hsign : forall R, R (pos (o ++ sg), room) (st (o ++ sg)) ->
    wp (if negb (sign =? 0) then buf ← put (pos o) hi sign; mret (buf, size - 1) else mret (pos o, size)) R (st o)).
  { intros R HR. unfold room, sg in HR. destruct (sign =? 0); simpl.
    - wp_step. rewrite app_nil_r in HR. simpl in HR. by rewrite Z.sub_0_r in HR.
    - wp_step. apply put_wp. by wp_step. }
  assert (Hdig : forall o R, R (pos (o ++ (if precision =? 0 then [] else rev tmp)))
      (st (o ++ (if precision =? 0 then [] else rev tmp))) ->
    wp (if negb (precision =? 0) then put_list (rev tmp) (pos o) hi else mret (pos o)) R (st o)).
  { intros o1 R HR. destruct (precision =? 0); simpl; [wp_step; by rewrite app_nil_r in HR|by apply put_list_wp]. }
  wp_step. apply Hsign. cbn beta iota. wp_step. apply prefix_wp. fold pre. destruct left; simpl negb; cbn iota.
  - do 2 wp_step. cbn beta iota. wp_step. apply put_n_wp. wp_step. apply Hdig. wp_step. apply pad_wp. wp_step.
    unfold out, body, zeros, spaces in HQ. rewrite <- !app_assoc in *. done.
  - wp_step. apply pad_wp. cbn beta iota. wp_step. apply put_n_wp. wp_step. apply Hdig. wp_step. apply pad_wp. wp_step.
    replace (Z.to_nat (Z.min room 0 - 1)) with 0%nat by lia. cbn [replicate]. rewrite app_nil_r.
    unfold out, body, zeros in HQ. rewrite <- !app_assoc in *. done.
Qed.

Lemma print_number_wp num base q width precision t o Q :
  2 <= base -> 0 <= num < 2 ^ 32 ->
  let o' := o ++ number_text num base q width precision t in
  Q (pos o') (st o') -> wp (print_number (pos o) hi num base q width precision t) Q (st o).
Proof using Hwin.
  intros Hb Hn o' HQ. subst o'. unfold number_text in HQ. unfold print_number.
  set (t' := if has t LEFT then Z.land t (Z.lnot ZEROPAD) else t).
  assert (F : has t' SPECIAL = has t SPECIAL /\ has t' LARGE = has t LARGE /\ has t' LEFT = has t LEFT /\
    has t' ZEROPAD = has t ZEROPAD && negb (has t LEFT) /\ number_sign num q t' = number_sign num q t).
  { unfold t'. destruct (has t LEFT) eqn:E; [|by rewrite E, andb_true_r].
    unfold SPECIAL, LARGE, LEFT in *. rewrite number_sign_cleared, !has_cleared, E by lia.
    unfold ZEROPAD at 2. rewrite has_cleared by lia. by rewrite !andb_true_r, !andb_false_r. }
  destruct F as (F1 & F2 & F3 & F4 & F5). rewrite has_lor, F1, F2, F3, F4, F5. clearbody t'. clear F1 F2 F3 F4 F5 t'.
  destruct (number_sign num q t) as [sign num'] eqn:Es.
  pose proof (number_sign_range _ _ _ _ _ Hn Es) as Hn'.
  wp_step. apply tmp_wp; [done..|]. intros tmp Et. rewrite <- Et in HQ.
  set (pre := if has t SPECIAL then prefix base (has t LARGE) else []) in *.
  set (i := Z.of_nat (length tmp)). rewrite length_rev in HQ. fold i in HQ.
  replace (if precision <? i then i else precision) with (Z.max i precision) by (case_bool; lia).
  set (prec := Z.max i precision) in *.
  replace (if has t SPECIAL then if (base =? 2) || (base =? 16) then width - 2 else if base =? 8 then width - 1 else width else width)
    with (width - Z.of_nat (length pre))
    by (unfold pre, prefix; destruct (has t SPECIAL); repeat case_bool; simpl; lia).
  set (size := width - Z.of_nat (length pre) - prec) in *.
  destruct (has t LEFT); [|destruct (has t ZEROPAD)]; simpl.
  - rewrite andb_false_r. simpl. do 2 wp_step. cbn beta iota. apply (number_tail_wp sign size true 32 t base tmp precision prec).
    fold pre i. rewrite <- !app_assoc in *. done.
  - do 2 wp_step. cbn beta iota. apply (number_tail_wp sign size false 48 t base tmp precision prec). fold pre i. done.
  - wp_step. apply pad_wp. cbn beta iota.
    apply (number_tail_wp sign _ false 32 t base tmp precision prec). fold pre i.
    set (sg := if sign =? 0 then [] else [sign]) in *.
    assert (Er : Z.to_nat (if negb (sign =? 0) && (0 <? size) then size - 1 else size) =
                 Z.to_nat (size - Z.of_nat (length sg))).
    { unfold sg. destruct (sign =? 0); simpl; [lia|]. case_bool; lia. }
    match goal with |- context [replicate (Z.to_nat (Z.min ?x 0 - 1 - ?y)) _] =>
      replace (Z.to_nat (Z.min x 0 - 1 - y)) with 0%nat by lia end.
    rewrite Er. unfold spaces in HQ. cbn [replicate]. rewrite <- !app_assoc in *. done.
Qed.

Lemma print_char_wp c t width o Q :
  let o' := o ++ char_text c t width in
  Q (pos o') (st o') -> wp (print_char (pos o) hi c t width) Q (st o).
Proof using Hwin.
  intros o' HQ. subst o'. unfold char_text, spaces in HQ. unfold print_char. wp_step.
  destruct (has t LEFT); simpl.
  - wp_step. cbn beta iota. wp_step. apply put_wp, put_n_wp. by rewrite <- app_assoc.
  - wp_step. apply put_n_wp. wp_step. cbn beta iota. wp_step. apply put_wp, put_n_wp.
    replace (Z.to_nat (Z.min (width - 1) 0 - 1)) with 0%nat by lia. cbn [replicate].
    rewrite app_nil_r, <- app_assoc. done.
Qed.

(** ** Strings *)

Hypothesis Hlohi : lo <= hi.

(** The [n] bytes at [p] are not in the buffer. *)
Definition apart (p : Z) (n : nat) : Prop := p + Z.of_nat n <= lo \/ hi <= p.

Lemma st_cstr o p s : cstr m0 p s -> apart p (S (length s)) -> cstr (st o) p s.
Proof using Hlohi.
  intros H Ha. apply cstr_put_apart; [done|]. unfold apart in Ha. rewrite length_take. lia.
Qed.

Definition null_text : list Z := [40; 78; 85; 76; 76; 41].

(** The string an argument of [%s] points to. *)
Definition str_at (a : Z) (s : list Z) : Prop :=
  (a = 0 /\ s = null_text) \/ (a <> 0 /\ cstr m0 a s /\ apart a (S (length s))).

Lemma str_at_nonzero a s : str_at a s -> Forall (fun c => c <> 0) s.
Proof. intros [[_ ->]|(_ & H & _)]; [by repeat constructor|by apply cstr_bytes in H as [_ ?]]. Qed.

Lemma char_at_wp a s k c o Q :
  str_at a s -> (s ++ [0]) !! k = Some c -> Q c (st o) -> wp (char_at a (Z.of_nat k)) Q (st o).
Proof using Hlohi.
  intros [[-> ->]|(Hnz & H & Ha)] Hk HQ; unfold char_at.
  - simpl. rewrite Nat2Z.id. by wp_step.
  - rewrite (proj2 (Z.eqb_neq a 0)) by done. apply (st_cstr o) in H; [|done]. apply cstr_bytes in H as [H _].
    apply (load_wp _ c); [by apply (proj1 (bytes_at_lookup _ _ _) H)|done].
Qed.

Definition cut (width : Z) (s : list Z) : list Z := if width <? 0 then s else take (Z.to_nat width) s.

Lemma cut_length width s : length (cut width s) =
  if width <? 0 then length s else Nat.min (Z.to_nat width) (length s).
Proof. unfold cut. case_match; [done|apply length_take]. Qed.

Lemma field_len_wp a s width k fuel o Q :
  str_at a s -> (k <= length (cut width s))%nat -> (length s - k <= fuel)%nat ->
  Q (Z.of_nat (length (cut width s))) (st o) -> wp (field_len fuel a (Z.of_nat k) width) Q (st o).
Proof using Hlohi.
  intros Hs. pose proof (str_at_nonzero _ _ Hs) as Hnz. rewrite cut_length. revert k.
  induction fuel as [|fuel IH]; intros k Hk Hf HQ; cbn [field_len];
    (destruct (Z.eqb_spec (Z.of_nat k) width) as [E|E]; simpl;
     [wp_step; rewrite (proj2 (Z.ltb_ge width 0)) in * by lia;
      replace (Nat.min (Z.to_nat width) (length s)) with k in HQ by lia; done|]).
  - assert (Ek : k = length s) by (destruct (width <? 0); lia).
    wp_step. eapply char_at_wp; [done|by apply list_lookup_middle|]. simpl. wp_step.
    replace (if width <? 0 then length s else Nat.min (Z.to_nat width) (length s)) with k in HQ; [done|].
    destruct (width <? 0); lia.
  - destruct (decide (k < length s)%nat) as [Hlt|Hge].
    + destruct (lookup_lt_is_Some_2 s k Hlt) as [c Hc].
      wp_step. eapply char_at_wp; [done|by rewrite lookup_app_l|].
      rewrite (proj2 (Z.eqb_neq c 0)) by (rewrite Forall_lookup in Hnz; eauto). simpl.
      replace (Z.of_nat k + 1) with (Z.of_nat (S k)) by lia. apply IH; [|lia|done].
      destruct (Z.ltb_spec width 0); lia.
    + assert (Ek : k = length s) by (destruct (width <? 0); lia).
      wp_step. eapply char_at_wp; [done|by apply list_lookup_middle|]. simpl. wp_step.
      replace (if width <? 0 then length s else Nat.min (Z.to_nat width) (length s)) with k in HQ; [done|].
      destruct (width <? 0); lia.
Qed.

Lemma put_string_wp n a s k o Q :
  str_at a s -> (k + n <= length s)%nat ->
  Q (pos (o ++ take n (drop k s))) (st (o ++ take n (drop k s))) ->
  wp (put_string n a (Z.of_nat k) (pos o) hi) Q (st o).
Proof using Hwin Hlohi.
  intros Hs. revert k o. induction n as [|n IH]; intros k o Hk HQ; cbn [put_string].
  { wp_step. by rewrite app_nil_r in HQ. }
  destruct (lookup_lt_is_Some_2 s k ltac:(lia)) as [c Hc].
  rewrite (drop_S _ _ _ Hc) in HQ. cbn [take] in HQ.
  assert (Hput : wp (if pos o <? hi then store (pos o) c else mret tt) (fun _ m => m = st (o ++ [c])) (st o)).
  { pose proof (put_wp o c (fun _ m => m = st (o ++ [c])) eq_refl) as W. unfold put in W. by apply wp_bind_inv in W. }
  wp_step. eapply wp_mono with (Q := fun _ m => m = st (o ++ [c])).
  - destruct (pos o <? hi); [|done]. wp_step. eapply char_at_wp; [done| |exact Hput]. rewrite lookup_app_l by lia. done.
  - intros _ m ->. replace (Z.of_nat k + 1) with (Z.of_nat (S k)) by lia.
    replace (pos o + 1) with (pos (o ++ [c])) by (unfold pos; rewrite length_app; simpl; lia).
    apply IH; [lia|]. by rewrite <- app_assoc.
Qed.

Lemma print_string_wp a s fuel t width precision o Q :
  str_at a s -> (length s <= fuel)%nat ->
  let o' := o ++ string_text s t width precision in
  Q (pos o') (st o') -> wp (print_string fuel (pos o) hi a t width precision) Q (st o).
Proof using Hwin Hlohi.
  intros Hs Hf o' HQ. subst o'. unfold string_text in HQ. fold (cut width s) in HQ. unfold print_string.
  wp_step. apply (field_len_wp a s width 0); [done|lia|lia|].
  set (s1 := cut width s) in *. set (s2 := if 0 <? precision then take (Z.to_nat precision) s1 else s1) in *.
  assert (El : (if (0 <? precision) && (precision <? Z.of_nat (length s1)) then precision else Z.of_nat (length s1))
               = Z.of_nat (length s2)).
  { unfold s2. destruct (Z.ltb_spec 0 precision); simpl; [|done].
    rewrite length_take. destruct (Z.ltb_spec precision (Z.of_nat (length s1))); lia. }
  rewrite El.
  assert (E2 : s2 = take (length s2) (drop 0 s) /\ (0 + length s2 <= length s)%nat).
  { assert (P : s2 `prefix_of` s).
    { unfold s2, s1, cut. destruct (width <? 0), (0 <? precision); rewrite ?take_take; (done || apply prefix_take). }
    clearbody s2. clear -P. destruct P as [r ->]. rewrite drop_0, take_app_length, length_app. split; [done|lia]. }
  destruct E2 as [E2 Hl2]. wp_step. rewrite Nat2Z.id. destruct (has t LEFT); simpl.
  - wp_step. cbn beta iota. wp_step. apply (put_string_wp _ a s 0); [done..|]. rewrite <- E2. apply put_n_wp.
    by rewrite <- app_assoc.
  - wp_step. apply put_n_wp. wp_step. cbn beta iota. wp_step. apply (put_string_wp _ a s 0); [done..|].
    rewrite <- E2. apply put_n_wp.
    replace (Z.to_nat (Z.min width (Z.of_nat (length s2)) - 1 - Z.of_nat (length s2))) with 0%nat by lia.
    cbn [replicate]. rewrite app_nil_r, <- app_assoc. done.
Qed.
End output.
