(* ===== verification/Format.v ===== *)
(** The text of a format string, and [rt_vsnprintf] as its bounded output.

    [render] reads a format as a list of characters and yields the whole text of the
    directives with their arguments; the theorems say that the code writes this text, cut
    off at the buffer, and returns its length. *)
From stdpp Require Import gmap.
From S2P Require Import Prelude ByteMem KPrintf KPrintfProp.
#[local] Open Scope Z_scope.

(** Arguments: numbers (also characters, pointers and, unread, floating-point values) and
    strings, of which NULL is one. *)
Inductive arg :=
| ANum (z : Z)
| AStr (s : option (list Z)).

Definition take_num (vals : list arg) : option (Z * list arg) :=
  match vals with ANum z :: vals => Some (z, vals) | _ => None end.
Definition take_str (vals : list arg) : option (list Z * list arg) :=
  match vals with AStr s :: vals => Some (default null_text s, vals) | _ => None end.

Definition hd0 (f : list Z) : Z := default 0 (head f).

(** * Directives: flags, width, precision and length modifier *)

Fixpoint p_flags (f : list Z) (flags : Z) : list Z * Z :=
  match f with
  | c :: f' => if flag_of c =? 0 then (f, flags) else p_flags f' (Z.lor flags (flag_of c))
  | [] => (f, flags)
  end.

Fixpoint p_atoi (i : Z) (f : list Z) : Z * list Z :=
  match f with
  | c :: f' => if ISDIGIT c then p_atoi (i32 (i * 10 + c - 48)) f' else (i, f)
  | [] => (i, f)
  end.

Definition p_width (f : list Z) (flags : Z) (vals : list arg) : option (list Z * Z * Z * list arg) :=
  if ISDIGIT (hd0 f) then let '(w, f) := p_atoi 0 f in Some (f, w, flags, vals)
  else if hd0 f =? 42 then
    '(a, vals) ← take_num vals;
    if i32 a <? 0 then Some (tail f, i32 (- i32 a), Z.lor flags LEFT, vals) else Some (tail f, i32 a, flags, vals)
  else Some (f, -1, flags, vals).

Definition p_precision (f : list Z) (vals : list arg) : option (list Z * Z * list arg) :=
  if hd0 f =? 46 then
    let f := tail f in
    if ISDIGIT (hd0 f) then let '(p, f) := p_atoi 0 f in Some (f, Z.max p 0, vals)
    else if hd0 f =? 42 then '(a, vals) ← take_num vals; Some (tail f, Z.max (i32 a) 0, vals)
    else Some (f, 0, vals)
  else Some (f, -1, vals).

Definition p_qualifier (f : list Z) : list Z * Z :=
  match f with
  | c :: f' =>
      if (c =? 104) || (c =? 108) || (c =? 122) then
        if (c =? 104) && (hd0 f' =? 104) then (tail f', 72) else (f', c)
      else (f, 0)
  | [] => (f, 0)
  end.

(** * The text of a directive *)

Definition conv_text (c flags width precision qualifier : Z) (vals : list arg) : option (list Z * list arg) :=
  let integer base flags :=
    '(a, vals) ← take_num vals;
    Some (number_text (number_arg a qualifier flags) base qualifier width precision flags, vals) in
  let other := 37 :: (if c =? 0 then [] else [c]) in
  if c =? 99 then '(a, vals) ← take_num vals; Some (char_text (u8 a) flags width, vals)
  else if c =? 115 then '(s, vals) ← take_str vals; Some (string_text s flags width precision, vals)
  else if c =? 112 then
    '(a, vals) ← take_num vals;
    Some (if width =? -1 then number_text (u32 a) 16 qualifier 10 precision (Z.lor (Z.lor flags SPECIAL) ZEROPAD)
          else number_text (u32 a) 16 qualifier width precision flags, vals)
  else if c =? 37 then Some ([37], vals)
  else if c =? 98 then integer 2 flags
  else if c =? 111 then integer 8 flags
  else if c =? 88 then integer 16 (Z.lor flags LARGE)
  else if c =? 120 then integer 16 flags
  else if (c =? 100) || (c =? 105) then integer 10 (Z.lor flags SIGN)
  else if c =? 117 then integer 10 flags
  else if existsb (Z.eqb c) [101; 69; 71; 103; 102; 70] then '(_, vals) ← take_num vals; Some (other, vals)
  else Some (other, vals).

(** The text of a format; [None] when an argument is missing or of the wrong kind.  [n]
    bounds the number of directives and characters. *)
Fixpoint render (n : nat) (f : list Z) (vals : list arg) : option (list Z) :=
  match n, f with
  | _, [] => Some []
  | O, _ => None
  | S n, c :: f =>
      if negb (c =? 37) then cons c <$> render n f vals
      else
        let '(f, flags) := p_flags f 0 in
        '(f, width, flags, vals) ← p_width f flags vals;
        '(f, precision, vals) ← p_precision f vals;
        let '(f, qualifier) := p_qualifier f in
        '(out, vals) ← conv_text (hd0 f) flags width precision qualifier vals;
        app out <$> render n (tail f) vals
  end.

(** * Reading the format from memory *)

Section parse.
Context (m : mem).

(** [p] is at the rest [f] of a string that starts at [e.1] or before and whose NUL is at
    [e.2]. *)
Definition at_rest (e : Z * Z) (p : Z) (f : list Z) : Prop :=
  cstr m p f /\ p + Z.of_nat (length f) = e.2 /\ e.1 <= p.

Lemma at_head e p f Q : at_rest e p f -> Q (hd0 f) m -> wp (load p) Q m.
Proof. intros [H _] HQ. apply (load_wp _ (hd0 f)); [|done]. unfold hd0. destruct f; simpl in *; naive_solver. Qed.

Lemma at_tail e p f : at_rest e p f -> hd0 f <> 0 -> at_rest e (p + 1) (tail f).
Proof. intros [H E] Hh. destruct f as [|c f]; [done|]. cbn [length tail cstr] in *. split; [naive_solver|lia]. Qed.

Lemma get_flags_wp e p f flags fuel Q :
  at_rest e (p + 1) f -> (length f <= fuel)%nat ->
  (forall p', at_rest e p' (p_flags f flags).1 -> Q (p', (p_flags f flags).2) m) ->
  wp (get_flags fuel p flags) Q m.
Proof.
  revert p flags fuel. induction f as [|c f IH]; intros p flags fuel Ha Hf HQ.
  - destruct fuel; cbn [get_flags]; (wp_step; eapply at_head; [exact Ha|]; cbv zeta; change (flag_of (hd0 []) =? 0) with true;
      cbn iota; wp_step; by apply HQ).
  - destruct fuel as [|fuel]; [simpl in Hf; lia|]. cbn [get_flags].
    wp_step. eapply at_head; [exact Ha|]. cbn [p_flags] in *. cbv zeta. change (hd0 (c :: f)) with c.
    destruct (Z.eqb_spec (flag_of c) 0) as [E|E]; [wp_step; by apply HQ|].
    apply IH; [|simpl in Hf; lia|done]. apply (at_tail _ _ (c :: f)); [done|]. unfold hd0. simpl. by intros ->.
Qed.

Lemma skip_atoi_wp e p f i fuel Q :
  at_rest e p f -> (length f <= fuel)%nat ->
  (forall p', at_rest e p' (p_atoi i f).2 -> Q ((p_atoi i f).1, p') m) -> wp (skip_atoi fuel i p) Q m.
Proof.
  revert p i fuel. induction f as [|c f IH]; intros p i fuel Ha Hf HQ.
  - destruct fuel; cbn [skip_atoi]; (wp_step; eapply at_head; [exact Ha|]; change (ISDIGIT (hd0 [])) with false;
      cbn iota; wp_step; by apply HQ).
  - destruct fuel as [|fuel]; [simpl in Hf; lia|]. cbn [skip_atoi].
    wp_step. eapply at_head; [exact Ha|]. cbn [p_atoi] in *. change (hd0 (c :: f)) with c.
    destruct (ISDIGIT c) eqn:E; [|wp_step; by apply HQ].
    apply IH; [|simpl in Hf; lia|done]. apply (at_tail _ _ (c :: f)); [done|]. unfold hd0. simpl. by intros ->.
Qed.

Lemma get_qualifier_wp e p f Q :
  at_rest e p f -> (forall p', at_rest e p' (p_qualifier f).1 -> Q (p', (p_qualifier f).2) m) ->
  wp (get_qualifier p) Q m.
Proof.
  intros Ha HQ. unfold get_qualifier. wp_step. eapply at_head; [done|]. destruct f as [|c f].
  { change (hd0 []) with 0. simpl. wp_step. by apply HQ. }
  change (hd0 (c :: f)) with c. cbn [p_qualifier] in HQ.
  destruct ((c =? 104) || (c =? 108) || (c =? 122)) eqn:E.
  - assert (Ha' : at_rest e (p + 1) f) by (apply (at_tail _ _ (c :: f)); [done|]; unfold hd0; simpl; by intros ->).
    wp_step. eapply at_head; [done|].
    destruct ((c =? 104) && (hd0 f =? 104)) eqn:E2; wp_step; apply HQ; [|done].
    replace (p + 2) with (p + 1 + 1) by lia. apply at_tail; [done|]. intros E0. rewrite E0 in E2. by destruct (c =? 104).
  - wp_step. by apply HQ.
Qed.
End parse.

(** * The output of a format *)

Lemma number_arg_range a q flags : 0 <= number_arg a q flags < 2 ^ 32.
Proof.
  unfold number_arg. pose proof (u32_range a). pose proof (u16_range a). pose proof (u32_range (as_i8 a)).
  pose proof (u32_range (i16 (u16 a))). repeat case_match; lia.
Qed.

Section format.
Context (m0 : mem) (lo hi : Z) (top : nat).
Hypothesis Hwin : accessible m0 lo (Z.to_nat (hi - lo)).
Hypothesis Hlohi : lo <= hi.
Hypothesis Htop : (length null_str + size m0 <= top)%nat.

(** The value in the argument list that stands for an argument. *)
Definition arg_ok (v : arg) (a : Z) : Prop :=
  match v with
  | ANum z => a = z
  | AStr None => a = 0
  | AStr (Some s) => a <> 0 /\ cstr m0 a s /\ apart lo hi a (S (length s))
  end.

Abbreviation args_ok := (Forall2 arg_ok).

Lemma take_num_wp vals args a vals' Q (m : mem) :
  take_num vals = Some (a, vals') -> args_ok vals args ->
  (forall args', args_ok vals' args' -> Q (a, args') m) -> wp (va_arg args) Q m.
Proof.
  intros E H HQ. destruct vals as [|[z|] vals]; simplify_eq/=. inversion H; simplify_eq/=. wp_step. by apply HQ.
Qed.

Lemma take_str_wp vals args s vals' Q (m : mem) :
  take_str vals = Some (s, vals') -> args_ok vals args ->
  (forall a args', str_at m0 lo hi a s -> args_ok vals' args' -> Q (a, args') m) -> wp (va_arg args) Q m.
Proof.
  intros E H HQ. destruct vals as [|[z|o] vals]; simplify_eq/=.
  inversion H as [|? a ? args' Ha]; simplify_eq/=. wp_step. apply HQ; [|done]. destruct o; simpl in *; [by right|by left].
Qed.

Lemma get_width_wp e p f flags vals args f' w flags' vals' Q (m : mem) :
  at_rest m e p f -> (length f <= top)%nat -> p_width f flags vals = Some (f', w, flags', vals') ->
  args_ok vals args ->
  (forall p' args', at_rest m e p' f' -> args_ok vals' args' -> Q (p', w, flags', args') m) ->
  wp (get_width top p flags args) Q m.
Proof.
  intros Ha Hf Hp Hargs HQ. unfold get_width, p_width in *. wp_step. eapply at_head; [exact Ha|].
  destruct (ISDIGIT (hd0 f)).
  - wp_step. eapply skip_atoi_wp; [exact Ha|done|]. intros p' Hp'.
    destruct (p_atoi 0 f) as [i fr]. simplify_eq/=. wp_step. by apply HQ.
  - destruct (Z.eqb_spec (hd0 f) 42) as [E|]; [|wp_step; simplify_eq; by apply HQ].
    assert (Ht : at_rest m e (p + 1) (tail f)) by (apply at_tail; [done|by rewrite E]).
    destruct (take_num vals) as [[a vs]|] eqn:Ev; [|done]. simpl in Hp.
    wp_step. eapply take_num_wp; [done..|]. intros args' Hargs'. cbn beta iota.
    destruct (i32 a <? 0); wp_step; simplify_eq; by apply HQ.
Qed.

Lemma get_precision_wp e p f vals args f' w vals' Q (m : mem) :
  at_rest m e p f -> (length f <= top)%nat -> p_precision f vals = Some (f', w, vals') ->
  args_ok vals args ->
  (forall p' args', at_rest m e p' f' -> args_ok vals' args' -> Q (p', w, args') m) ->
  wp (get_precision top p args) Q m.
Proof.
  assert (Emax : forall z, (if z <? 0 then 0 else z) = Z.max z 0) by (intros z; destruct (Z.ltb_spec z 0); lia).
  intros Ha Hf Hp Hargs HQ. unfold get_precision, p_precision in *. wp_step. eapply at_head; [exact Ha|].
  destruct (Z.eqb_spec (hd0 f) 46) as [E|]; [|wp_step; simplify_eq; by apply HQ].
  assert (Ht : at_rest m e (p + 1) (tail f)) by (apply at_tail; [done|by rewrite E]).
  assert (Hl : (length (tail f) <= top)%nat) by (destruct f; simpl in *; lia).
  wp_step. eapply at_head; [exact Ht|]. wp_step. destruct (ISDIGIT (hd0 (tail f))).
  - wp_step. eapply skip_atoi_wp; [exact Ht|done|]. intros p' Hp'.
    destruct (p_atoi 0 (tail f)) as [i fr]. simplify_eq/=. do 2 wp_step. rewrite Emax. by apply HQ.
  - destruct (Z.eqb_spec (hd0 (tail f)) 42) as [E2|]; [|do 2 wp_step; simplify_eq; by apply HQ].
    assert (Ht2 : at_rest m e (p + 1 + 1) (tail (tail f))) by (apply at_tail; [done|by rewrite E2]).
    destruct (take_num vals) as [[a vs]|] eqn:Ev; [|done]. simpl in Hp.
    wp_step. eapply take_num_wp; [done..|]. intros args' Hargs'. cbn beta iota. do 2 wp_step.
    rewrite Emax. simplify_eq. by apply HQ.
Qed.

Lemma str_at_top a s : str_at m0 lo hi a s -> (length s <= top)%nat.
Proof using Htop.
  unfold null_str in Htop. simpl in Htop. intros [[_ ->]|(_ & H & _)]; [simpl; lia|].
  apply cstr_size in H. lia.
Qed.

Lemma integer_wp base fl args vals width precision q (p : Z) out vals' o Q :
  2 <= base -> args_ok vals args ->
  ('(a, vals) ← take_num vals;
   Some (number_text (number_arg a q fl) base q width precision fl, vals)) = Some (out, vals') ->
  (forall args', args_ok vals' args' -> Q (p, pos lo (o ++ out), args') (st m0 lo hi (o ++ out))) ->
  wp ('(a, args) ← va_arg args;
      str ← print_number (pos lo o) hi (number_arg a q fl) base q width precision fl;
      mret (p, str, args)) Q (st m0 lo hi o).
Proof using Hwin.
  intros Hb Hargs Et HQ. destruct (take_num vals) as [[a vs]|] eqn:Ev; [|done]. simplify_eq/=.
  wp_step. eapply take_num_wp; [done..|]. intros args' Hargs'. cbn beta iota. wp_step.
  apply print_number_wp; [done..|apply number_arg_range|]. wp_step. by apply HQ.
Qed.

Lemma other_wp c p (args' : list Z) o Q :
  let out := 37 :: (if c =? 0 then [] else [c]) in
  Q (if c =? 0 then p - 1 else p, pos lo (o ++ out), args') (st m0 lo hi (o ++ out)) ->
  wp (str ← put (pos lo o) hi 37;
      if negb (c =? 0) then str ← put str hi c; mret (p, str, args') else mret (p - 1, str, args'))
    Q (st m0 lo hi o).
Proof using Hwin.
  intros out HQ. subst out. wp_step. apply put_wp; [done|]. destruct (c =? 0); simpl; [by wp_step|].
  wp_step. apply put_wp; [done|]. wp_step. by rewrite <- app_assoc.
Qed.

(** The rest of the format behind a conversion: [fmt] stands on its last character. *)
Lemma conversion_wp e p f args vals flags width precision q out vals' o Q :
  at_rest (st m0 lo hi o) e p f -> args_ok vals args ->
  conv_text (hd0 f) flags width precision q vals = Some (out, vals') ->
  (forall p' args', args_ok vals' args' -> at_rest (st m0 lo hi o) e (p' + 1) (tail f) ->
    Q (p', pos lo (o ++ out), args') (st m0 lo hi (o ++ out))) ->
  wp (conversion top p (pos lo o) hi args flags width precision q) Q (st m0 lo hi o).
Proof using Hwin Hlohi Htop.
  intros Ha Hargs Ht HQ. unfold conversion, conv_text in *. wp_step. eapply at_head; [exact Ha|].
  set (c := hd0 f) in *.
  assert (Hp : c <> 0 -> at_rest (st m0 lo hi o) e (p + 1) (tail f)) by (by apply at_tail).
  assert (Hp0 : c = 0 -> at_rest (st m0 lo hi o) e (p - 1 + 1) (tail f)).
  { unfold c. rewrite Z.sub_add. destruct f as [|b f]; [done|]. destruct Ha as ((_ & ? & _) & _). done. }
  assert (Hint : forall base fl, 2 <= base -> c <> 0 ->
    ('(a, vals) ← take_num vals;
     Some (number_text (number_arg a q fl) base q width precision fl, vals)) = Some (out, vals') ->
    wp ('(a, args) ← va_arg args;
        str ← print_number (pos lo o) hi (number_arg a q fl) base q width precision fl;
        mret (p, str, args)) Q (st m0 lo hi o)).
  { intros base fl Hb Hc Et. eapply integer_wp; [done..|]. auto. }
  clearbody c.
  destruct (Z.eqb_spec c 99) as [Ec|_].
  { assert (Hc : c <> 0) by lia. destruct (take_num vals) as [[a vs]|] eqn:Ev; [|done]. simplify_eq/=. wp_step.
    eapply take_num_wp; [done..|]. intros args' Hargs'. cbn beta iota. wp_step. apply print_char_wp; [done|].
    wp_step. by apply HQ; auto. }
  destruct (Z.eqb_spec c 115) as [Ec|_].
  { assert (Hc : c <> 0) by lia. destruct (take_str vals) as [[s vs]|] eqn:Ev; [|done]. simplify_eq/=. wp_step.
    eapply take_str_wp; [done..|]. intros a args' Hs Hargs'. cbn beta iota. wp_step.
    eapply print_string_wp; [done..|by eapply str_at_top|]. wp_step. by apply HQ; auto. }
  destruct (Z.eqb_spec c 112) as [Ec|_].
  { assert (Hc : c <> 0) by lia. destruct (take_num vals) as [[a vs]|] eqn:Ev; [|done]. simplify_eq/=.
    destruct (width =? -1); wp_step; (eapply take_num_wp; [done..|]); intros args' Hargs'; cbn beta iota; wp_step;
      (apply print_number_wp; [done|lia|apply u32_range|]); wp_step; by apply HQ; auto. }
  destruct (Z.eqb_spec c 37) as [Ec|_].
  { assert (Hc : c <> 0) by lia. simplify_eq/=. wp_step. apply put_wp; [done|]. wp_step. by apply HQ; auto. }
  destruct (Z.eqb_spec c 98) as [Ec|_]; [apply Hint; [done|lia|done]|].
  destruct (Z.eqb_spec c 111) as [Ec|_]; [apply Hint; [done|lia|done]|].
  destruct (Z.eqb_spec c 88) as [Ec|_]; [apply Hint; [done|lia|done]|].
  destruct (Z.eqb_spec c 120) as [Ec|_]; [apply Hint; [done|lia|done]|].
  destruct ((c =? 100) || (c =? 105)) eqn:Ed.
  { apply Hint; [done| |done]. by intros ->. }
  destruct (Z.eqb_spec c 117) as [Ec|_]; [apply Hint; [done|lia|done]|].
  destruct (existsb _ _).
  - destruct (take_num vals) as [[a vs]|] eqn:Ev; [|done]. simplify_eq/=. wp_step.
    eapply take_num_wp; [done..|]. intros args' Hargs'. apply other_wp. destruct (Z.eqb_spec c 0); by apply HQ; auto.
  - simplify_eq/=. apply other_wp. destruct (Z.eqb_spec c 0); by apply HQ; auto.
Qed.

(** The format does not lie in the buffer, so that output leaves it as it is. *)
Lemma at_rest_st e p f o o' :
  e.2 < lo \/ hi <= e.1 -> at_rest (st m0 lo hi o) e p f -> at_rest (st m0 lo hi o') e p f.
Proof using Hlohi.
  clear Htop Hwin. intros Ho (H & E & Hp). split; [|done]. eapply cstr_agree; [exact H|]. intros a Ha. unfold st.
  rewrite !put_bytes_lookup, !length_take, !decide_False by lia. done.
Qed.

Lemma format_loop_wp n e p f args vals out fuel o Q :
  e.2 < lo \/ hi <= e.1 -> at_rest (st m0 lo hi o) e p f -> args_ok vals args ->
  (length f <= fuel)%nat -> e.2 - e.1 < Z.of_nat top -> render n f vals = Some out ->
  Q (pos lo (o ++ out)) (st m0 lo hi (o ++ out)) ->
  wp (format_loop fuel top p (pos lo o) hi args) Q (st m0 lo hi o).
Proof using Hwin Hlohi Htop.
  intros He. revert p f args vals out fuel o.
  induction n as [|n IH]; intros p f args vals out fuel o Ha Hargs Hf Ht Hr HQ;
    (destruct f as [|c f];
     [assert (out = []) as -> by (simpl in Hr; congruence); rewrite app_nil_r in HQ;
      destruct fuel; cbn [format_loop]; (wp_step; eapply at_head; [exact Ha|]; simpl; by wp_step)|]); [done|].
  destruct fuel as [|fuel]; [simpl in Hf; lia|]. cbn [format_loop render] in *.
  assert (Hlen : forall p' f', at_rest (st m0 lo hi o) (p + 1, e.2) p' f' -> (length f' <= top)%nat).
  { intros ?? (_ & ? & ?). destruct Ha as (_ & _ & ?). simpl in *. lia. }
  assert (Hc0 : c <> 0) by (by destruct Ha as ((_ & ? & _) & _)).
  assert (Ha1 : at_rest (st m0 lo hi o) (p + 1, e.2) (p + 1) f).
  { destruct (at_tail _ _ _ _ Ha Hc0) as (? & ? & _). split_and!; [done..|simpl; lia]. }
  assert (Hback : forall p' f', at_rest (st m0 lo hi o) (p + 1, e.2) p' f' ->
    at_rest (st m0 lo hi o) e p' f' /\ (length f' <= length f)%nat).
  { intros p' f' (? & ? & ?). destruct Ha as (_ & E & ?). simpl in *. split; [split_and!|]; [done|done|lia|lia]. }
  wp_step. eapply at_head; [exact Ha|]. change (hd0 (c :: f)) with c.
  rewrite (proj2 (Z.eqb_neq c 0)) by done. destruct (negb (c =? 37)).
  - destruct (render n f vals) as [out'|] eqn:Er; simplify_eq/=. wp_step. apply put_wp; [done|].
    eapply IH; [eapply at_rest_st; [done|by apply Hback]|done|simpl in Hf; lia|done|done|]. by rewrite <- app_assoc.
  - wp_step. eapply get_flags_wp; [exact Ha1|by eapply Hlen|]. intros p1 H1.
    destruct (p_flags f 0) as [f1 flags1] eqn:E1. cbn [fst snd] in H1. cbn beta iota.
    destruct (p_width f1 flags1 vals) as [[[[f2 width] flags2] vals2]|] eqn:E2; [|done]. simpl in Hr.
    wp_step. eapply get_width_wp; [exact H1|by eapply Hlen|done..|]. intros p2 args2 H2 Hargs2. cbn beta iota.
    destruct (p_precision f2 vals2) as [[[f3 precision] vals3]|] eqn:E3; [|done]. simpl in Hr.
    wp_step. eapply get_precision_wp; [exact H2|by eapply Hlen|done..|]. intros p3 args3 H3 Hargs3. cbn beta iota.
    wp_step. eapply get_qualifier_wp; [exact H3|]. intros p4 H4.
    destruct (p_qualifier f3) as [f4 q] eqn:E4. cbn [fst snd] in H4. cbn beta iota.
    destruct (conv_text (hd0 f4) flags2 width precision q vals3) as [[t vals4]|] eqn:E5; [|done]. simpl in Hr.
    destruct (render n (tail f4) vals4) as [out'|] eqn:Er; simplify_eq/=.
    wp_step. eapply conversion_wp; [exact H4|done..|]. intros p5 args5 Hargs5 H5. cbn beta iota.
    destruct (Hback _ _ H5) as [H6 Hl6].
    eapply IH; [by eapply at_rest_st|done|simpl in Hf; lia|done|done|by rewrite <- app_assoc].
Qed.
End format.

(** The NUL that ends the output, after [o] went to a buffer of [size] bytes. *)
Lemma terminate_wp (m : mem) buf size o Q :
  0 < size -> accessible m buf (Z.to_nat size) ->
  Q tt (put_bytes buf (take (Z.to_nat (size - 1)) o ++ [0]) m) ->
  wp (if pos buf o <? buf + size then store (pos buf o) 0 else store (buf + size - 1) 0) Q (st m buf (buf + size) o).
Proof.
  intros Hs Hacc HQ. unfold st, pos. replace (buf + size - buf) with size by lia.
  destruct (Z.ltb_spec (buf + Z.of_nat (length o)) (buf + size)).
  - apply store_wp; [apply (accessible_put _ _ _ _ _ Hacc); lia|]. rewrite take_ge in HQ by lia.
    rewrite put_bytes_app in HQ. rewrite take_ge by lia. done.
  - apply store_wp; [apply (accessible_put _ _ _ _ _ Hacc); lia|].
    replace (insert (buf + size - 1) 0 (put_bytes buf (take (Z.to_nat size) o) m))
      with (put_bytes buf (take (Z.to_nat (size - 1)) o ++ [0]) m); [done|].
    rewrite put_bytes_app, length_take_le by lia. cbn [put_bytes].
    replace (buf + Z.of_nat (Z.to_nat (size - 1))) with (buf + size - 1) by lia.
    apply map_eq. intros a. destruct (decide (a = buf + size - 1)) as [->|]; [by rewrite !lookup_insert_eq|].
    rewrite !lookup_insert_ne, !put_bytes_lookup, !length_take_le by lia. repeat case_decide; try lia; [|done].
    rewrite !lookup_take_lt by lia. done.
Qed.

(** C21: [rt_vsnprintf] writes the text of the format and its arguments, cut off to leave
    room for the NUL at the end of the buffer, and writes nothing outside the buffer; with
    a size of zero it writes nothing.  It returns the length of the whole text, also
    when the text was cut off, like the C library's function; the comment of the function
    ("The number of characters actually written to buffer") holds only for a text that
    fits. *)
Theorem rt_vsnprintf_refines (m : mem) buf size fmt f args vals out :
  0 <= buf -> 0 <= size -> buf + size < 2 ^ 32 -> accessible m buf (Z.to_nat size) ->
  cstr m fmt f -> fmt + Z.of_nat (length f) < buf \/ buf + size <= fmt ->
  Forall2 (arg_ok m buf (buf + size)) vals args ->
  render (length f) f vals = Some out ->
  wp (rt_vsnprintf buf size fmt args) (fun r m' =>
    r = Z.of_nat (length out) /\
    m' = if size =? 0 then m else put_bytes buf (take (Z.to_nat (size - 1)) out ++ [0]) m) m.
Proof.
  intros Hb Hs Hbs Hacc Hf Hap Hargs Hr. unfold rt_vsnprintf.
  rewrite u32_id, (proj2 (Z.ltb_ge _ _)) by lia. do 3 wp_step. pose proof (cstr_size _ _ _ Hf) as Hsz.
  assert (Hw : accessible m buf (Z.to_nat (buf + size - buf))) by (by replace (buf + size - buf) with size by lia).
  assert (E0 : st m buf (buf + size) [] = m) by (unfold st; by rewrite take_nil).
  rewrite <- E0 at 3. replace buf with (pos buf []) at 1 by (unfold pos; simpl; lia).
  apply (format_loop_wp m buf (buf + size) _ Hw ltac:(lia) (le_n _) (length f) (fmt, fmt + Z.of_nat (length f))
    fmt f args vals out);
    [done| |done|lia|simpl; lia|done|].
  { rewrite E0. split_and!; [done..|simpl; lia]. }
  cbn [app]. wp_step. destruct (Z.eqb_spec size 0) as [->|Hne].
  - simpl. do 2 wp_step. split; [unfold pos; lia|]. unfold st. replace (buf + 0 - buf) with 0 by lia. done.
  - rewrite (proj2 (Z.ltb_lt 0 size)) by lia. apply terminate_wp; [lia|done|]. wp_step. split; [unfold pos; lia|done].
Qed.

(** * Decimal numbers *)

Lemma ldigits_length n num base k : 2 <= base -> 0 <= num < base ^ Z.of_nat k -> (length (ldigits n num base) <= k)%nat.
Proof.
  intros Hb. revert num k. induction n as [|n IH]; intros num k Hn; cbn [ldigits]; [simpl; lia|].
  destruct (Z.eqb_spec num 0); [simpl; lia|]. destruct k as [|k]; [simpl in Hn; lia|]. simpl.
  rewrite Nat2Z.inj_succ, Z.pow_succ_r in Hn by lia. apply le_n_S, IH.
  split; [apply Z.div_pos; lia|]. apply Z.div_lt_upper_bound; lia.
Qed.

Lemma ISDIGIT_char large d : 0 <= d < 10 -> ISDIGIT (digit_char large d) = true /\ digit_char large d = 48 + d.
Proof.
  intros Hd. unfold digit_char. rewrite (proj2 (Z.ltb_lt d 10)) by lia. split; [|done].
  unfold ISDIGIT. rewrite u32_id by lia. apply Z.ltb_lt. lia.
Qed.

Lemma p_atoi_snoc i l c : Forall (fun c => ISDIGIT c = true) l -> ISDIGIT c = true ->
  p_atoi i (l ++ [c]) = (i32 ((p_atoi i l).1 * 10 + c - 48), []).
Proof.
  intros Hl Hc. revert i. induction Hl as [|b l Hb _ IH]; intros i; simpl; [by rewrite Hc|]. by rewrite Hb, IH.
Qed.

Lemma p_atoi_ldigits large n num :
  0 <= num < 2 ^ 31 -> num < 10 ^ Z.of_nat n ->
  p_atoi 0 (rev (map (digit_char large) (ldigits n num 10))) = (num, []).
Proof.
  revert num. induction n as [|n IH]; intros num Hn Hp; cbn [ldigits]; [simpl in *; f_equal; lia|].
  destruct (Z.eqb_spec num 0) as [->|]; [done|]. cbn [map rev].
  pose proof (Z.mod_pos_bound num 10 ltac:(lia)) as Hd. destruct (ISDIGIT_char large _ Hd) as [H1 H2].
  rewrite p_atoi_snoc; [|apply Forall_rev, Forall_fmap|done].
  - rewrite IH, H2.
    + f_equal. cbn [fst]. rewrite i32_id; pose proof (Z.div_mod num 10); lia.
    + split; [apply Z.div_pos; lia|]. apply Z.div_lt_upper_bound; lia.
    + rewrite Nat2Z.inj_succ, Z.pow_succ_r in Hp by lia. apply Z.div_lt_upper_bound; lia.
  - eapply Forall_impl; [by apply ldigits_range|]. intros d Hd'. by apply ISDIGIT_char.
Qed.

Lemma digits_text num : 0 <= num < 2 ^ 32 -> number_text num 10 0 (-1) (-1) 0 = digits false num 10.
Proof.
  intros Hn. unfold number_text. change (number_sign num 0 0) with (0, num). cbn iota beta zeta.
  change (has 0 SPECIAL) with false. change (has 0 LARGE) with false. change (has 0 LEFT) with false.
  change (has 0 ZEROPAD) with false. cbn iota. cbn [length app Z.eqb].
  generalize (digits false num 10). intros ds. unfold spaces, zeros.
  rewrite (Z.max_l (Z.of_nat (length ds)) (-1)), Z.sub_diag by lia.
  assert (E : Z.to_nat (-1 - Z.of_nat 0 - Z.of_nat (length ds) - Z.of_nat 0) = 0%nat) by lia. by rewrite E.
Qed.

(** The decimal text of a number that fits an [int] is read back as this number. *)
Lemma digits_atoi num : 0 <= num < 2 ^ 31 -> p_atoi 0 (digits false num 10) = (num, []).
Proof.
  intros Hn. unfold digits. destruct (Z.eqb_spec num 0) as [->|]; [done|].
  apply p_atoi_ldigits; [done|]. eapply Z.lt_le_trans; [apply Hn|]. by apply Z.leb_le.
Qed.

Lemma digits_length num : 0 <= num < 2 ^ 31 -> (length (digits false num 10) <= 10)%nat.
Proof.
  intros Hn. unfold digits. case_match; [simpl; lia|]. rewrite length_rev, length_map.
  apply ldigits_length; [lia|]. split; [lia|]. eapply Z.lt_le_trans; [apply Hn|]. by apply Z.leb_le.
Qed.

Lemma digits_nonzero num : 0 <= num -> Forall (fun c => c <> 0) (digits false num 10).
Proof.
  intros Hn. unfold digits. case_match; [by repeat constructor|].
  apply Forall_rev, Forall_fmap. eapply Forall_impl; [by apply ldigits_range|].
  intros d Hd. cbv beta in *. destruct (ISDIGIT_char false d Hd) as [_ E]. unfold compose. rewrite E. lia.
Qed.

(** A number below [2^31] that [print_number] writes in base 10 is read back by
    [skip_atoi], whatever was in the buffer of 11 bytes. *)
Lemma number_roundtrip (m : mem) buf num :
  0 <= num < 2 ^ 31 -> accessible m buf 11 ->
  wp (e ← print_number buf (buf + 10) num 10 0 (-1) (-1) 0;
      store e 0;;
      skip_atoi 11 0 buf) (fun r _ => r.1 = num) m.
Proof.
  intros Hn Hacc. pose proof (digits_length num Hn) as Hl. pose proof (digits_nonzero num ltac:(lia)) as Hz.
  assert (Hw : accessible m buf (Z.to_nat (buf + 10 - buf))).
  { replace (buf + 10 - buf) with 10 by lia. eapply accessible_le; [exact Hacc|]. simpl. lia. }
  assert (E0 : st m buf (buf + 10) [] = m) by (unfold st; by rewrite take_nil).
  rewrite <- E0. replace buf with (pos buf []) at 1 by (unfold pos; simpl; lia).
  wp_step. apply print_number_wp; [done|lia|lia|]. rewrite digits_text by lia. cbn [app].
  assert (Es : st m buf (buf + 10) (digits false num 10) = put_bytes buf (digits false num 10) m).
  { unfold st. rewrite take_ge by lia. done. }
  rewrite Es. wp_step. unfold pos. apply store_wp; [apply (accessible_put _ _ _ _ _ Hacc); lia|].
  pose proof (put_bytes_app buf (digits false num 10) [0] m) as Ep. cbn [put_bytes] in Ep. rewrite <- Ep.
  eapply skip_atoi_wp with (e := (buf, buf + Z.of_nat (length (digits false num 10)))) (f := digits false num 10).
  - split; [|simpl; lia]. apply cstr_bytes. split; [apply bytes_at_put|done].
  - lia.
  - intros p' _. by rewrite digits_atoi.
Qed.

(** * Examples *)

(** A buffer of 16 bytes at 1024, the format [%5d|%s] at 2048 and the string [hello] at 3072. *)
Definition fmt_demo : list Z := [37; 53; 100; 124; 37; 115].
Definition hello : list Z := [104; 101; 108; 108; 111].
Definition printf_demo : mem :=
  put_bytes 1024 (replicate 16 7) (put_bytes 2048 (fmt_demo ++ [0]) (put_bytes 3072 (hello ++ [0]) ∅)).

Example render_demo : render 6 fmt_demo [ANum 42; AStr (Some hello)] = Some ([32; 32; 32; 52; 50; 124] ++ hello).
Proof. reflexivity. Qed.

(** A field width cuts a string off; a precision of zero drops the digits; [hh] extends
    the sign of an unsigned number. *)
Example render_width : render 3 [37; 51; 115] [AStr (Some hello)] = Some [104; 101; 108].
Proof. reflexivity. Qed.
Example render_precision : render 4 [37; 46; 48; 100] [ANum 5] = Some [].
Proof. reflexivity. Qed.
Example render_hh : render 4 [37; 104; 104; 120] [ANum 255] = Some (replicate 8 102).
Proof. reflexivity. Qed.

Lemma rt_vsnprintf_refines_witness :
  wp (rt_vsnprintf 1024 8 2048 [42; 3072]) (fun r m' =>
    r = 11 /\ m' = put_bytes 1024 [32; 32; 32; 52; 50; 124; 104; 0] printf_demo) printf_demo.
Proof.
  apply (rt_vsnprintf_refines printf_demo 1024 8 2048 fmt_demo [42; 3072] [ANum 42; AStr (Some hello)]
    ([32; 32; 32; 52; 50; 124] ++ hello)); [lia|lia|lia|..].
  - apply (accessible_le _ _ (length (replicate 16 7))); [|simpl; lia].
    apply bytes_at_accessible, bytes_at_put.
  - by vm_compute.
  - right. lia.
  - constructor; [done|constructor; [|constructor]]. split; [lia|split; [by vm_compute|right; simpl; lia]].
  - reflexivity.
Defined.

Lemma number_roundtrip_witness :
  wp (e ← print_number 1024 1034 90210 10 0 (-1) (-1) 0; store e 0;; skip_atoi 11 0 1024)
    (fun r _ => r.1 = 90210) printf_demo.
Proof.
  apply (number_roundtrip printf_demo 1024 90210); [lia|].
  apply (accessible_le _ _ (length (replicate 16 7))); [|simpl; lia].
  apply bytes_at_accessible, bytes_at_put.
Defined.
