(* ===== verification/Condvar.v ===== *)
(** Condition variables, components/drivers/ipc/condvar.c: a wait queue, the mutex its waiters
    gave up, and their number.  A wait is in three parts: up to the switch that puts the caller
    to sleep, from there to the mutex, and the end of the wait for the mutex. *)
From S2P Require Import Prelude KState SchedUp Object TimerCore SchedComm SuspList Sem Timer Thread Demo SemTake IpcWait Completion WaitQueue Mutex MutexInv MutexTake MutexRel.
#[local] Open Scope Z_scope.

Definition EBUSY : Z := 16.
Definition RT_WAITING_FOREVER : Z := -1.
(** As an [rt_tick_t]. *)
Definition TICK_FOREVER : Z := u32 RT_WAITING_FOREVER.

Definition condvar (c : oid) : K rt_condvar := gets (fun k => d_cond (k_dev k) c).

Definition CV_ASSERT_LOCKED (c : oid) : K unit :=
  cv ← condvar c;
  match cv_mutex cv with
  | None => mret tt
  | Some m => mx ← mutex m; self ← rt_thread_self; RT_ASSERT (bool_decide (mtx_owner mx = self))
  end.

Definition rt_condvar_init (c : oid) : K unit :=
  cv ← condvar c;
  rt_wqueue_init (cv_event cv);;
  upd_cond c (set_cv_waiters 0);;
  upd_cond c (set_cv_mutex None).

Definition rt_condvar_detach (c : oid) : K unit := mret tt.

Definition _waitq_inqueue (q n : oid) (timeout : Z) (sf : suspend_flag) : K Z :=
  wn ← wnode n;
  let tcb := wn_thread wn in
  r ← wqueue q;
  if negb (wq_flag r =? RT_WQ_FLAG_WAKEUP) then
    ret ← rt_thread_suspend_with_flag tcb sf;
    if ret =? RT_EOK then
      rt_wqueue_add q n;;
      (if negb (timeout =? TICK_FOREVER) then arm_timeout tcb timeout else mret tt);;
      mret ret
    else mret ret
  else mret RT_EOK.

(** Where a wait is: returned, at the switch, or waiting for the mutex with its result. *)
Inductive cv_wait := CvDone (rc : Z) | CvSwitched | CvMutex (rc : Z).

(** From the removal of the node to the second unlock. *)
Definition condvar_leave (c n m : oid) : K unit :=
  rt_wqueue_remove n;;
  rt_spin_lock;;
  cv ← condvar c;
  upd_cond c (set_cv_waiters (i32 (cv_waiters cv - 1)));;
  (if cv_waiters cv =? 1 then
     RT_ASSERT (bool_decide (cv_mutex cv = Some m));;
     upd_cond c (set_cv_mutex None)
   else mret tt);;
  rt_spin_unlock.

(** The mutex is taken again. *)
Definition condvar_reacquire (fuel : nat) (m : oid) (rc : Z) : K cv_wait :=
  acq_mtx_succ ← rt_mutex_take fuel m RT_WAITING_FOREVER;
  match acq_mtx_succ with
  | Some err => RT_ASSERT (err =? 0);; mret (CvDone rc)
  | None => mret (CvMutex rc)
  end.

(** Up to the first unlock: may the caller wait with this mutex?  [n] is the address of the
    node on the stack of the caller. *)
Definition condvar_claim (c n m : oid) : K bool :=
  self ← rt_thread_self;
  thread ← deref self;
  cv ← condvar c;
  list_remove_node n;; (* rt_list_init of the node *)
  upd_wnode n (fun _ => mk_wnode thread (Some (cv_event cv)) 0);;
  RT_DEBUG_SCHEDULER_AVAILABLE true;;
  CV_ASSERT_LOCKED c;;
  rt_spin_lock;;
  cv ← condvar c;
  let waiting_mtx := cv_mutex cv in
  (if bool_decide (waiting_mtx = None) then upd_cond c (set_cv_mutex (Some m)) else mret tt);;
  rt_spin_unlock;;
  mret (bool_decide (waiting_mtx = None \/ waiting_mtx = Some m)).

(** From there to the end of the critical section: asleep, and the mutex is given up. *)
Definition condvar_sleep (c n m : oid) (sf : suspend_flag) (timeout : Z) : K Z :=
  cv ← condvar c;
  upd_cond c (fun cv => set_cv_waiters (i32 (cv_waiters cv + 1)) cv);;
  rt_enter_critical;;
  rc ← _waitq_inqueue (cv_event cv) n timeout (match sf with RT_INTERRUPTIBLE => RT_INTERRUPTIBLE | _ => RT_KILLABLE end);
  acq_mtx_succ ← rt_mutex_release m;
  RT_ASSERT (acq_mtx_succ =? 0);;
  rt_exit_critical;;
  mret rc.

(** An unlock switches to a more urgent thread if there is one; the parts above are what runs
    between two switches. *)
Definition rt_condvar_timedwait_begin (fuel : nat) (c n m : oid) (sf : suspend_flag) (timeout : Z) : K cv_wait :=
  claimed ← condvar_claim c n m;
  if (claimed : bool) then
    rc ← condvar_sleep c n m sf timeout;
    if rc =? RT_EOK then mret CvSwitched else condvar_leave c n m;; condvar_reacquire fuel m rc
  else mret (CvDone (- EBUSY)).

(** When the thread runs again. *)
Definition rt_condvar_timedwait_end (fuel : nat) (c n m : oid) (thread : tid) : K cv_wait :=
  rt_schedule;;
  th ← thr thread;
  let rc := t_error th in
  condvar_leave c n m;;
  condvar_reacquire fuel m (if 0 <? rc then - rc else rc).

(** When it runs again after waiting for the mutex. *)
Definition rt_condvar_timedwait_last (fuel : nat) (m : oid) (thread : tid) (rc : Z) : K Z :=
  acq_mtx_succ ← _rt_mutex_take_end fuel m thread;
  RT_ASSERT (acq_mtx_succ =? 0);;
  mret rc.

Definition rt_condvar_signal (c : oid) : K Z :=
  CV_ASSERT_LOCKED c;;
  cv ← condvar c;
  (if 0 <? cv_waiters cv then rt_wqueue_wakeup __wqueue_default_wake (cv_event cv) 0 else mret tt);;
  upd_wqueue (cv_event cv) (set_wq_flag 0);;
  mret 0.

Definition rt_condvar_broadcast (c : oid) : K Z :=
  CV_ASSERT_LOCKED c;;
  cv ← condvar c;
  (if 0 <? cv_waiters cv then rt_wqueue_wakeup_all __wqueue_default_wake (cv_event cv) 0 else mret tt);;
  upd_wqueue (cv_event cv) (set_wq_flag 0);;
  mret 0.

(** * Falling asleep *)

(** A thread that waits for nothing is suspended. *)
Lemma minv_suspend k k1 t s b :
  minv k -> blocked None 0 s b t k k1 -> t_pending (k_thr k t) = None -> minv k1.
Proof.
  intros [i1 i2 i3 i4 i5 i6 i7 i8 i9 i10 i11 i12] B Hp.
  assert (Ho : forall x, cur k1 x = cur k x /\ t_pending (k_thr k1 x) = t_pending (k_thr k x) /\ t_init_prio (k_thr k1 x) = t_init_prio (k_thr k x)).
  { intros x. destruct (decide (x = t)) as [->|Hx]; [by rewrite (bl_self _ _ _ _ _ _ _ B)|by rewrite (bl_other _ _ _ _ _ _ _ B)]. }
  assert (Hc : forall x, cur k1 x = cur k x) by apply Ho.
  assert (Hw : forall m, waiters k1 m = waiters k m) by (intros m; by rewrite (bl_list _ _ _ _ _ _ _ B)).
  pose proof (bl_obj _ _ _ _ _ _ _ B) as O.
  assert (Em : k_mutex k1 = k_mutex k) by exact (f_equal k_mutex O).
  assert (Et : k_taken k1 = k_taken k) by exact (f_equal k_taken O).
  split.
  - intros m w. rewrite Hw, (proj1 (proj2 (Ho w))). apply i1.
  - intros m w Hs. rewrite Hw, (proj1 (proj2 (Ho w))). intros Hm. destruct (decide (w = t)) as [->|Hne]; [congruence|].
    rewrite (bl_other _ _ _ _ _ _ _ B) in Hs by done. by apply i2.
  - intros m. rewrite Hw. eapply prio_sorted_ext; [|apply i3]. intros; by rewrite Hc.
  - intros m w. rewrite Hw, Em, Hc. apply i4.
  - intros m o. rewrite Em, Hc. apply i5.
  - intros m o. rewrite Em, Et. apply i6.
  - intros m. rewrite Hw, Em. apply i7.
  - intros m. rewrite Em. apply i8.
  - intros m. rewrite Em. apply i9.
  - intros m. rewrite Em. apply i10.
  - intros x. rewrite (proj2 (proj2 (Ho x))). apply i11.
  - intros m w. unfold typed. rewrite (proj1 (proj2 (Ho w))), (kobj_type _ _ O). apply i12.
Qed.

(** A timeout a timer can hold, or none. *)
Definition timeout_ok (timeout : Z) : Prop := timeout = TICK_FOREVER \/ timeout < tick_half.

(** The caller is in the queue. *)
Definition queued_dev (q n : oid) (d : devices) : devices :=
  let d := set_d_wnode (fupd n (set_wn_queue (Some q) (d_wnode d n)) (d_wnode d)) d in
  set_d_wqueue (fupd q (set_wq_nodes (wq_nodes (d_wqueue d q) ++ [n]) (d_wqueue d q)) (d_wqueue d)) d.

Lemma wqueue_add_locked_wp q n k :
  kinv k -> 1 <= k_lock_nest k ->
  wp (rt_wqueue_add q n) (fun _ k' => k' = set_k_dev (queued_dev q n (k_dev k)) k) k.
Proof.
  intros Hk Hn. unfold rt_wqueue_add, upd_wnode, node_push_back, upd_wqueue. wp_step. apply spin_lock_wp. do 4 wp_step.
  match goal with |- wp _ _ ?s => change s with (lock1 (set_k_dev (queued_dev q n (k_dev k)) k)) end.
  apply unlock_plain_wp; [by apply kinv_set_dev|]. intros k' _ U. apply (un_same _ _ U). right. simpl. lia.
Qed.

(** Suspension, the queue and the timer, under the lock. *)
Lemma inqueue_wp q n timeout sf k t :
  kinv k -> minv k -> running k t -> thread_ok k t -> 1 <= k_lock_nest k -> t_pending (k_thr k t) = None ->
  node_thread n k = t -> wq_flag (wqueue_of q k) <> RT_WQ_FLAG_WAKEUP -> timeout_ok timeout ->
  wp (_waitq_inqueue q n timeout sf) (fun r k' => r = RT_EOK /\ kinv k' /\ minv k' /\
    suspended (k_thr k' t) /\ t_ttmr (k_thr k' t) = negb (timeout =? TICK_FOREVER) /\
    k_cur k' = Some t /\ (forall m, waiters k' m = waiters k m) /\
    kobj k' = kobj (set_k_dev (queued_dev q n (k_dev k)) k)) k.
Proof.
  intros Hk I Hrun Htk Hn Hp Hnt Hf Hto. unfold _waitq_inqueue, wnode, wqueue. do 4 wp_step. fold (node_thread n k) (wqueue_of q k). rewrite Hnt.
  rewrite (proj2 (Z.eqb_neq _ _) Hf). cbn [negb]. unfold rt_thread_suspend_with_flag. wp_step.
  eapply wp_mono; [by apply (suspend_wp k t None 0 sf)|]. intros r k1 (-> & Hk1 & B & Ht1).
  change (RT_EOK =? RT_EOK) with true. cbn iota. pose proof (bl_obj _ _ _ _ _ _ _ B) as O.
  assert (Hn1 : k_lock_nest k1 = k_lock_nest k) by exact (kobj_nest _ _ O).
  wp_step. eapply wp_mono; [apply wqueue_add_locked_wp; [done|lia]|]. intros [] k2 ->. rewrite (dev_kobj _ _ O).
  set (k2 := set_k_dev _ k1). assert (Hk2 : kinv k2) by by apply kinv_set_dev.
  assert (I2 : minv k2) by (eapply minv_ext; [..|exact (minv_suspend _ _ _ _ _ I B Hp)]; done).
  assert (Hs2 : suspended (k_thr k2 t)).
  { simpl. rewrite (bl_self _ _ _ _ _ _ _ B). pose proof (suspend_state_range sf). unfold suspended.
    change (tstat (set_t_ttmr _ ?th)) with (tstat th). rewrite tstat_with_stat by lia. unfold RT_THREAD_SUSPEND_MASK. lia. }
  assert (Hw2 : forall m, waiters k2 m = waiters k m) by (intros m; simpl; by rewrite (bl_list _ _ _ _ _ _ _ B)).
  assert (O2 : kobj k2 = kobj (set_k_dev (queued_dev q n (k_dev k)) k)) by exact (f_equal (set_k_dev (queued_dev q n (k_dev k))) O).
  assert (Hc2 : k_cur k2 = Some t) by (simpl; rewrite (bl_cur _ _ _ _ _ _ _ B); apply Hrun).
  destruct (Z.eqb_spec timeout TICK_FOREVER) as [Hfor|Hfor]; cbn [negb].
  - do 3 wp_step. do 4 (split; [done|]). split; [|done]. simpl. by rewrite (bl_self _ _ _ _ _ _ _ B).
  - wp_step. eapply wp_mono; [apply arm_inv_wp; [done|simpl; lia|by destruct Ht1|by destruct Hto]|].
    intros _ k3 (Hk3 & Hl3 & Hm3 & Hn3 & Hst3 & I3 & O3 & Hc3 & Htt3). wp_step. do 2 (split; [done|]). split; [by apply I3|].
    split; [unfold suspended; rewrite (proj2 (Hst3 t)); exact Hs2|]. split; [done|]. split; [by rewrite Hc3|].
    split; [intros m; by rewrite Hl3|]. by rewrite O3.
Qed.

(** The mutex [m] is free or belongs to its first waiter, who runs. *)
Definition given_up (m : oid) (ws : list tid) (k' : kernel) : Prop :=
  match ws with
  | [] => mtx_owner (k_mutex k' m) = None
  | w :: q => held m w 1 k' /\ waiters k' m = q /\ active (k_thr k' w) /\ t_pending (k_thr k' w) = None
  end.

Definition cond_of (c : oid) (k : kernel) : rt_condvar := d_cond (k_dev k) c.

(** The caller of a wait owns the mutex of the condition variable once. *)
Record can_wait (c n m : oid) (t : tid) (k : kernel) : Prop := mk_can_wait {
  cw_mutex : cv_mutex (cond_of c k) = Some m;
  cw_count : 0 <= cv_waiters (cond_of c k) < 2 ^ 31 - 1;
  cw_flag : wq_flag (wqueue_of (cv_event (cond_of c k)) k) <> RT_WQ_FLAG_WAKEUP;
  cw_node : node_thread n k = t;
  cw_held : held m t 1 k;
  cw_typed : typed k (OMutex m) RT_Object_Class_Mutex;
  cw_pending : t_pending (k_thr k t) = None }.

(** C17: the caller of [rt_condvar_timedwait] is put to sleep and gives up the mutex in one
    step.  In the critical section it is suspended, added to the queue and counted, its timer
    is started unless it waits for ever, and the mutex passes to the first thread waiting for
    it or becomes free; no assertion fails, and the kernel and priority-inheritance
    invariants are kept although a sleeping thread returns its priority. *)
Theorem condvar_sleep_releases c n m t sf timeout k :
  kinv k -> minv k -> callable k t -> can_wait c n m t k -> timeout_ok timeout ->
  wp (condvar_sleep c n m sf timeout) (fun rc k' => rc = RT_EOK /\ kinv k' /\ minv k' /\
    suspended (k_thr k' t) /\ t_ttmr (k_thr k' t) = negb (timeout =? TICK_FOREVER) /\
    let q := cv_event (cond_of c k) in
    wqueue_of q k' = set_wq_nodes (wq_nodes (wqueue_of q k) ++ [n]) (wqueue_of q k) /\
    node_thread n k' = t /\ cond_of c k' = set_cv_waiters (cv_waiters (cond_of c k) + 1) (cond_of c k) /\
    given_up m (waiters k m) k') k.
Proof.
  intros Hk I [[Hcur Hrun] Htk Hnest Hirq] [W1 W2 W3 W4 [W5 W5'] W6 W7] Hto. pose proof (ki_nest _ Hk) as Hn.
  unfold condvar_sleep, condvar, upd_cond. do 4 wp_step. apply enter_critical_wp. fold (cond_of c k).
  match goal with |- wp _ _ (lock1 ?s) => set (k1 := s) end.
  assert (Hk1 : kinv (lock1 k1)) by (by apply kinv_lock1, kinv_set_dev).
  assert (I1 : minv (lock1 k1)) by (eapply minv_ext; [..|exact I]; done).
  wp_step. eapply wp_mono.
  { apply (inqueue_wp _ n timeout _ (lock1 k1) t); try done; [by destruct Htk|simpl; lia]. }
  intros rc k2 (-> & Hk2 & I2 & Hs2 & Htt2 & Hc2 & Hw2 & O2).
  assert (Hnw : forall m', t ∉ waiters k2 m').
  { intros m'. rewrite Hw2. intros Hin. assert (suspended (k_thr k t)) by (eapply waiting_suspended; [done| |exact Hin]; done).
    unfold suspended in *. stat_lia. }
  assert (Em2 : k_mutex k2 = k_mutex k) by exact (f_equal k_mutex O2).
  assert (En2 : k_lock_nest k2 = k_lock_nest k + 1) by exact (f_equal k_lock_nest O2).
  wp_step. eapply wp_mono; [apply (mutex_release_wp k2 t m); auto|].
  { by rewrite (f_equal k_irq_nest O2 : k_irq_nest k2 = k_irq_nest k). }
  { unfold typed. by rewrite (kobj_type _ _ O2). }
  { rewrite Em2, W5'. done. }
  intros r k3 (Hk3 & I3 & (Ed3 & En3 & Ec3 & [S3 T3]) & Hr). rewrite Em2, W5, decide_True in Hr by done. rewrite W5' in Hr.
  destruct Hr as (-> & k4 & P & Hw4 & _). do 2 wp_step; [done|]. wp_step.
  eapply wp_mono; [apply unlock_minv_wp; [done|done|lia]|]. intros [] k5 (Hk5 & I5 & U). pose proof (un_frame _ _ U) as F.
  assert (Ed : k_dev k5 = queued_dev (cv_event (cond_of c k)) n (k_dev k1)).
  { rewrite (dev_kobj _ _ (kobj_sched _ _ (sf_rest _ _ F))). simpl. by rewrite Ed3, (dev_kobj _ _ O2). }
  wp_step. do 3 (split; [done|]). split; [apply (unlocked_tstat _ _ _ U); auto|].
  split; [rewrite (sf_ttmr F); simpl; by rewrite T3|]. cbv zeta. split.
  { unfold wqueue_of. rewrite Ed. simpl. by rewrite fupd_eq. }
  split; [unfold node_thread; rewrite Ed; simpl; rewrite fupd_eq; exact W4|]. split.
  { unfold cond_of. rewrite Ed. simpl. rewrite fupd_eq. fold (cond_of c k). by rewrite i32_id by lia. }
  assert (P5 : passed_on m k4 k5) by (eapply passed_on_sched; [exact F|by apply passed_on_unlock1]).
  unfold passed_on in P5. rewrite Hw4, Hw2 in P5. unfold given_up. simpl in P5. destruct (waiters k m); [done|tauto].
Qed.

(** * Waking *)

(** The calling thread may signal: it owns the mutex of the waiters, if there are any. *)
Record can_signal (c : oid) (k : kernel) : Prop := mk_can_signal {
  cs_sched : can_sched k;
  cs_locked : forall m, cv_mutex (cond_of c k) = Some m -> mtx_owner (k_mutex k m) = k_cur k;
  cs_typed : forall n, n ∈ wq_nodes (wqueue_of (cv_event (cond_of c k)) k) -> typed k (OThread (node_thread n k)) RT_Object_Class_Thread }.

Lemma assert_locked_wp c k Q :
  can_signal c k -> Q tt k -> wp (CV_ASSERT_LOCKED c) Q k.
Proof.
  intros [_ H _] HQ. unfold CV_ASSERT_LOCKED, condvar, mutex, rt_thread_self. do 2 wp_step. fold (cond_of c k).
  destruct (cv_mutex (cond_of c k)) as [m|]; [|by wp_step]. do 4 wp_step. apply wp_assert; [|done].
  apply bool_decide_eq_true. by apply H.
Qed.

(** The thread a signal serves: that of the first node whose thread still sleeps. *)
Definition signalled (c : oid) (k : kernel) : option oid :=
  if 0 <? cv_waiters (cond_of c k) then served_node (fun _ _ => true) (wq_nodes (wqueue_of (cv_event (cond_of c k)) k)) 0 k else None.

(** C18: [rt_condvar_signal] by the owner of the mutex serves the first waiter that still
    sleeps: it becomes runnable with error [RT_EOK] and its node leaves the queue, all other
    threads stay as they were, and the wake-up is not remembered for a later wait.  Without
    waiters nothing happens. *)
Theorem condvar_signal_serves c k :
  kinv k -> can_signal c k ->
  wp (rt_condvar_signal c) (fun r k' => r = 0 /\ kinv k' /\ cond_of c k' = cond_of c k /\
    let q := cv_event (cond_of c k) in
    wqueue_of q k' = mk_wqueue RT_WQ_FLAG_CLEAN
      (match signalled c k with Some n => filter (.≠ n) (wq_nodes (wqueue_of q k)) | None => wq_nodes (wqueue_of q k) end) /\
    (forall n, signalled c k = Some n -> active (k_thr k' (node_thread n k)) /\ t_error (k_thr k' (node_thread n k)) = RT_EOK) /\
    (forall x, (forall n, signalled c k = Some n -> node_thread n k <> x) -> asleep k' x = asleep k x)) k.
Proof.
  intros Hk Hs. unfold rt_condvar_signal, condvar, upd_wqueue, signalled. wp_step. apply assert_locked_wp; [done|]. do 3 wp_step. fold (cond_of c k).
  destruct (0 <? cv_waiters (cond_of c k)).
  - eapply wp_mono; [apply (wakeup_wp __wqueue_default_wake (fun _ _ => true)); [apply default_wake_ok|done|apply Hs..]|].
    intros [] k1 (Hk1 & _ & _ & Ec & Ew & W1 & W2). do 3 wp_step. split; [done|]. split; [by apply kinv_set_dev|].
    split; [unfold cond_of; simpl; by rewrite Ec|]. cbv zeta. split.
    { unfold wqueue_of in *. simpl. by rewrite fupd_eq, Ew. }
    split; [intros n En; apply W1; by rewrite En|]. intros x Hx. simpl. apply W2. destruct (served_node _ _ _ _) as [n|]; [|done].
    intros [= E]. by apply (Hx n).
  - do 4 wp_step. split; [done|]. split; [by apply kinv_set_dev|]. split; [done|]. cbv zeta. split; [|done].
    unfold wqueue_of. simpl. by rewrite fupd_eq.
Qed.

(** [rt_condvar_broadcast] leaves none of the waiters asleep. *)
Lemma condvar_broadcast_wakes c k :
  kinv k -> can_signal c k ->
  wp (rt_condvar_broadcast c) (fun r k' => r = 0 /\ kinv k' /\
    (0 < cv_waiters (cond_of c k) -> forall n, n ∈ wq_nodes (wqueue_of (cv_event (cond_of c k)) k) -> asleep k' (node_thread n k) = false)) k.
Proof.
  intros Hk Hs. unfold rt_condvar_broadcast, condvar, upd_wqueue. wp_step. apply assert_locked_wp; [done|]. do 3 wp_step. fold (cond_of c k).
  case_bool.
  - eapply wp_mono; [apply (rt_wqueue_wakeup_all_spec __wqueue_default_wake (fun _ _ => true)); [apply default_wake_ok|done|apply Hs..]|].
    intros [] k1 (Hk1 & _ & A). do 3 wp_step. split; [done|]. split; [by apply kinv_set_dev|]. intros _ n Hn. apply A.
    unfold ready_threads. apply list_elem_of_In, (in_map (fun n => node_thread n k)), list_elem_of_In, list_elem_of_filter. done.
  - do 4 wp_step. split; [done|]. split; [by apply kinv_set_dev|]. lia.
Qed.

(** * Leaving *)

(** The node is gone, the caller is not counted any more, and the last one frees the
    condition variable for another mutex. *)
Lemma condvar_leave_wp c n m k :
  kinv k -> can_sched k -> wn_queue (d_wnode (k_dev k) n) <> None -> 0 < cv_waiters (cond_of c k) < 2 ^ 31 -> cv_mutex (cond_of c k) = Some m ->
  wp (condvar_leave c n m) (fun _ k' => kinv k' /\ can_sched k' /\ k_mutex k' = k_mutex k /\
    wqueue_of (cv_event (cond_of c k)) k' = node_unlink n (wqueue_of (cv_event (cond_of c k)) k) /\
    cond_of c k' = mk_condvar (cv_waiters (cond_of c k) - 1) (if cv_waiters (cond_of c k) =? 1 then None else Some m) (cv_event (cond_of c k))) k.
Proof.
  intros Hk Hc Hq Hcnt Hm. unfold condvar_leave, rt_wqueue_remove, wnode, list_remove_node, condvar, upd_cond. do 4 wp_step.
  apply wp_assert; [by apply bool_decide_eq_true|]. wp_step. apply spin_lock_wp. do 2 wp_step.
  match goal with |- wp _ _ (set_k_dev ?x _) => set (d := x) end. change (set_k_dev d _) with (lock1 (set_k_dev d k)).
  apply unlock_plain_wp; [by apply kinv_set_dev|]. intros k1 Hk1 U1. pose proof (un_frame _ _ U1) as F1.
  assert (Ed : k_dev k1 = d) by exact (dev_kobj _ _ (kobj_sched _ _ (sf_rest _ _ F1))).
  wp_step. apply spin_lock_wp. do 4 wp_step. change (k_dev (lock1 k1)) with (k_dev k1). rewrite Ed. change (d_cond d c) with (cond_of c k).
  set (q := cv_event (cond_of c k)). wp_step.
  match goal with |- wp _ _ (set_k_dev ?x _) => set (d2 := x) end. change (set_k_dev d2 _) with (lock1 (set_k_dev d2 k1)).
  assert (E2 : d_cond d2 c = set_cv_waiters (cv_waiters (cond_of c k) - 1) (cond_of c k)) by (unfold d2; simpl; by rewrite fupd_eq, i32_id by lia).
  assert (Hfin : forall d3, d_cond d3 c = mk_condvar (cv_waiters (cond_of c k) - 1) (if cv_waiters (cond_of c k) =? 1 then None else Some m) q ->
    d_wqueue d3 = d_wqueue d -> wp rt_spin_unlock (fun _ k' => kinv k' /\ can_sched k' /\ k_mutex k' = k_mutex k /\
      wqueue_of q k' = node_unlink n (wqueue_of q k) /\
      cond_of c k' = mk_condvar (cv_waiters (cond_of c k) - 1) (if cv_waiters (cond_of c k) =? 1 then None else Some m) q) (lock1 (set_k_dev d3 k1))).
  { intros d3 E3 Ew3. apply unlock_plain_wp; [by apply kinv_set_dev|]. intros k4 Hk4 U4. pose proof (un_frame _ _ U4) as F4.
    pose proof (dev_kobj _ _ (kobj_sched _ _ (sf_rest _ _ F4))) as Ed4. simpl in Ed4. split; [done|].
    split; [eapply unlocked_sched; [exact U4|]; by eapply (unlocked_sched _ k1 U1)|].
    split; [rewrite (sf_mutex F4); simpl; by rewrite (sf_mutex F1)|].
    unfold wqueue_of, cond_of. rewrite Ed4, Ew3. split; [done|exact E3]. }
  case_bool.
  - do 2 wp_step.
    { change (bool_decide (cv_mutex (cond_of c k) = Some m) = true). by apply bool_decide_eq_true. }
    wp_step. change (k_dev (lock1 (set_k_dev d2 k1))) with d2.
    match goal with |- wp _ _ (set_k_dev ?x _) => apply (Hfin x) end.
    + cbn [d_cond set_d_cond]. rewrite fupd_eq, E2, E. done.
    + done.
  - wp_step. apply (Hfin d2); [|done]. rewrite E2. unfold set_cv_waiters. by rewrite Hm.
Qed.

(** * The start of a wait *)

(** Another mutex is refused while there are waiters; else the condition variable is bound to
    the mutex and the node belongs to the caller. *)
Lemma condvar_claim_wp c n m t k :
  kinv k -> callable k t -> can_signal c k ->
  wp (condvar_claim c n m) (fun claimed k' => kinv k' /\ can_sched k' /\ k_mutex k' = k_mutex k /\
    claimed = bool_decide (cv_mutex (cond_of c k) = None \/ cv_mutex (cond_of c k) = Some m) /\
    cond_of c k' = (if claimed then set_cv_mutex (Some m) (cond_of c k) else cond_of c k) /\
    d_wnode (k_dev k') n = mk_wnode t (Some (cv_event (cond_of c k))) 0 /\
    wqueue_of (cv_event (cond_of c k)) k' = node_unlink n (wqueue_of (cv_event (cond_of c k)) k)) k.
Proof.
  intros Hk C [Hcs Hl _]. unfold condvar_claim, condvar, list_remove_node, upd_wnode, upd_cond, rt_thread_self. do 3 wp_step.
  eapply wp_deref; [apply C|]. do 4 wp_step. fold (cond_of c k). do 2 wp_step.
  match goal with |- wp _ _ (set_k_dev ?x _) => set (d := x) end. change (set_k_dev d _) with (set_k_dev d k).
  assert (Hcal : callable (set_k_dev d k) t) by (destruct C as [C1 [] C3 C4]; by split).
  wp_step. eapply scheduler_available_wp; [exact Hcal|]. wp_step.
  unfold CV_ASSERT_LOCKED, condvar, mutex, rt_thread_self. do 2 wp_step. change (d_cond (k_dev (set_k_dev d k)) c) with (cond_of c k).
  assert (Hfin : forall d', d_wnode d' n = mk_wnode t (Some (cv_event (cond_of c k))) 0 -> d_wqueue d' = d_wqueue d ->
    d_cond d' c = (if bool_decide (cv_mutex (cond_of c k) = None \/ cv_mutex (cond_of c k) = Some m) then set_cv_mutex (Some m) (cond_of c k) else cond_of c k) ->
    wp (rt_spin_unlock;; mret (bool_decide (cv_mutex (cond_of c k) = None \/ cv_mutex (cond_of c k) = Some m)))
      (fun claimed k' => kinv k' /\ can_sched k' /\ k_mutex k' = k_mutex k /\
        claimed = bool_decide (cv_mutex (cond_of c k) = None \/ cv_mutex (cond_of c k) = Some m) /\
        cond_of c k' = (if claimed then set_cv_mutex (Some m) (cond_of c k) else cond_of c k) /\
        d_wnode (k_dev k') n = mk_wnode t (Some (cv_event (cond_of c k))) 0 /\
        wqueue_of (cv_event (cond_of c k)) k' = node_unlink n (wqueue_of (cv_event (cond_of c k)) k)) (lock1 (set_k_dev d' k))).
  { intros d' E1 E2 E3. wp_step. apply unlock_plain_wp; [by apply kinv_set_dev|]. intros k' Hk' U. pose proof (un_frame _ _ U) as F.
    assert (Ed : k_dev k' = d') by exact (dev_kobj _ _ (kobj_sched _ _ (sf_rest _ _ F))).
    wp_step. split; [done|]. split; [by eapply (unlocked_sched _ k' U)|]. split; [exact (sf_mutex F)|]. split; [done|].
    unfold cond_of at 1, wqueue_of. rewrite Ed, E3, E1, E2. done. }
  assert (Ed1 : d_wnode d n = mk_wnode t (Some (cv_event (cond_of c k))) 0) by (unfold d; simpl; by rewrite fupd_eq).
  assert (Hrest : wp (rt_spin_lock;; cv ← gets (fun k => d_cond (k_dev k) c);
      (if bool_decide (cv_mutex cv = None) then modify (fun k => set_k_dev (set_d_cond (fupd c (set_cv_mutex (Some m) (d_cond (k_dev k) c)) (d_cond (k_dev k))) (k_dev k)) k) else mret tt);;
      rt_spin_unlock;; mret (bool_decide (cv_mutex cv = None \/ cv_mutex cv = Some m)))
      (fun claimed k' => kinv k' /\ can_sched k' /\ k_mutex k' = k_mutex k /\
        claimed = bool_decide (cv_mutex (cond_of c k) = None \/ cv_mutex (cond_of c k) = Some m) /\
        cond_of c k' = (if claimed then set_cv_mutex (Some m) (cond_of c k) else cond_of c k) /\
        d_wnode (k_dev k') n = mk_wnode t (Some (cv_event (cond_of c k))) 0 /\
        wqueue_of (cv_event (cond_of c k)) k' = node_unlink n (wqueue_of (cv_event (cond_of c k)) k)) (set_k_dev d k)).
  { wp_step. apply spin_lock_wp. do 3 wp_step. change (d_cond (k_dev (lock1 (set_k_dev d k))) c) with (cond_of c k).
    destruct (cv_mutex (cond_of c k)) as [m0|] eqn:Em.
    - rewrite (bool_decide_false (Some m0 = None)) by done. wp_step. apply (Hfin d); [done|done|].
      change (d_cond d c) with (cond_of c k). destruct (decide (m0 = m)) as [->|Hne]; [rewrite bool_decide_true by auto|rewrite bool_decide_false by naive_solver; done].
      destruct (cond_of c k) as [w mm e]. simpl in Em. by subst mm.
    - rewrite (bool_decide_true (None = None)) by done. wp_step.
      match goal with |- wp _ _ (set_k_dev ?x _) => apply (Hfin x) end; [done|done|].
      cbn [d_cond set_d_cond]. rewrite fupd_eq. rewrite bool_decide_true by auto. done. }
  destruct (cv_mutex (cond_of c k)) as [m0|] eqn:Em; [|wp_step; exact Hrest]. do 4 wp_step.
  apply wp_assert; [apply bool_decide_eq_true; by apply Hl|]. exact Hrest.
Qed.

(** * A thread that waits, and one that signals *)

(** Thread 1 runs and owns mutex 2, for which thread 4 waits.  Condition variable 4 has nobody
    in its queue 5; in the queue 1 of condition variable 3 are nodes of the running thread 1
    and the sleeping thread 2. *)
Definition kcond : kernel :=
  set_k_dev (set_d_cond (fun c => if decide (c = 3%positive) then mk_condvar 2 (Some 2%positive) 1 else mk_condvar 0 (Some 2%positive) 5)
    (set_d_wqueue (fun q => if decide (q = 1%positive) then mk_wqueue 0 [1; 2]%positive else mk_wqueue 0 [])
      (set_d_wnode (fun n => if decide (n = 9%positive) then mk_wnode 1 (Some 5%positive) 0 else mk_wnode n (Some 1%positive) 0) (k_dev kdemo)))) kdemo.

Lemma kcond_inv : kinv kcond /\ minv kcond /\ callable kcond 1.
Proof.
  split; [apply kinv_set_dev, kdemo_inv|]. split; [eapply minv_ext; [..|exact kdemo_minv]; done|].
  destruct kdemo_callable as [A [] C D]. by split.
Qed.

Lemma condvar_sleep_releases_witness :
  wp (condvar_sleep 4 9 2 RT_KILLABLE 100) (fun rc k' => rc = RT_EOK /\ kinv k' /\ minv k' /\
    suspended (k_thr k' 1%positive) /\ t_ttmr (k_thr k' 1%positive) = true /\
    wqueue_of 5 k' = mk_wqueue 0 [9%positive] /\
    node_thread 9 k' = 1%positive /\ cond_of 4 k' = mk_condvar 1 (Some 2%positive) 5 /\
    given_up 2 [4%positive] k') kcond.
Proof.
  destruct kcond_inv as (H1 & H2 & H3). eapply wp_mono.
  - apply (condvar_sleep_releases 4 9 2 1 RT_KILLABLE 100 kcond H1 H2 H3); [by split|by right].
  - intros rc k' (E1 & E2 & E3 & E4 & E5 & E6 & E7 & E8 & E9). do 4 (split; [done|]). split; [exact E5|].
    split; [exact E6|]. split; [exact E7|]. split; [exact E8|exact E9].
Defined.

Lemma condvar_signal_serves_witness :
  wp (rt_condvar_signal 3) (fun r k' => r = 0 /\ kinv k' /\ cond_of 3 k' = mk_condvar 2 (Some 2%positive) 1 /\
    wqueue_of 1 k' = mk_wqueue RT_WQ_FLAG_CLEAN [1%positive] /\
    (forall n, Some 2%positive = Some n -> active (k_thr k' n) /\ t_error (k_thr k' n) = RT_EOK) /\
    (forall x, (forall n, Some 2%positive = Some n -> n <> x) -> asleep k' x = asleep kcond x)) kcond.
Proof.
  eapply wp_mono.
  - apply (condvar_signal_serves 3 kcond (proj1 kcond_inv)). split; [left; by eexists|by intros m [= <-]|done].
  - intros r k' (E1 & E2 & E3 & E4 & E5 & E6). do 2 (split; [done|]). split; [exact E3|]. split; [exact E4|]. split.
    + intros n [= <-]. exact (E5 2%positive eq_refl).
    + intros x Hx. apply E6. intros n En. change (Some 2%positive = Some n) in En. injection En as <-. exact (Hx 2%positive eq_refl).
Defined.

(** A waiter whose timer has fired, but which has not run yet, is still in the queue.  A signal
    clears its error and serves the next one: the wait that timed out ends with [RT_EOK], too.
    Here thread 1 is such a thread. *)
Lemma signal_clears_timeout :
  (fun r => (r.1, t_error (k_thr r.2 1%positive))) <$> rt_condvar_signal 3 (put_error 1 (- RT_ETIMEOUT) kcond) = Some (0, RT_EOK).
Proof. vm_compute. reflexivity. Qed.
