(* ===== verification/Avl.v ===== *)
(** AVL trees, components/utilities/libadt/avl: avl.h and avl.c.  The nodes are of any
    type with decidable equality; [None] is the NULL pointer ([AVL_ROOT]) and reading
    through it fails. *)
From S2P Require Import Prelude.
#[local] Open Scope Z_scope.

(** * Nodes and pointers *)

(** The fields of [struct util_avl_struct] of every node, and [struct util_avl_root]. *)
Record avl (A : Type) := mk_avl {
  avl_left : A -> option A; avl_right : A -> option A; parent : A -> option A;
  height : A -> Z; root_node : option A }.
Arguments mk_avl {A} avl_left avl_right parent height root_node.
Arguments avl_left {A} a _.
Arguments avl_right {A} a _.
Arguments parent {A} a _.
Arguments height {A} a _.
Arguments root_node {A} a.

(** [struct util_avl_struct **]: the address of a child field or of [root_node]. *)
Inductive place (A : Type) := AtRoot | AtLeft (p : A) | AtRight (p : A).
Arguments AtRoot {A}.
Arguments AtLeft {A} p.
Arguments AtRight {A} p.

Section avl.
Context {A : Type} `{EqDecision A}.
Implicit Types (n axis lchild rchild new : A) (p v : option A) (h : avl A) (pl : place A).

Definition set_left n v h : avl A :=
  mk_avl (fupd n v (avl_left h)) (avl_right h) (parent h) (height h) (root_node h).
Definition set_right n v h : avl A :=
  mk_avl (avl_left h) (fupd n v (avl_right h)) (parent h) (height h) (root_node h).
Definition set_parent n v h : avl A :=
  mk_avl (avl_left h) (avl_right h) (fupd n v (parent h)) (height h) (root_node h).
Definition set_height n (z : Z) h : avl A :=
  mk_avl (avl_left h) (avl_right h) (parent h) (fupd n z (height h)) (root_node h).
Definition set_root v h : avl A :=
  mk_avl (avl_left h) (avl_right h) (parent h) (height h) v.

(** [*nodeplace] read and written. *)
Definition read_place pl h : option A :=
  match pl with AtRoot => root_node h | AtLeft n => avl_left h n | AtRight n => avl_right h n end.
Definition write_place pl v h : avl A :=
  match pl with AtRoot => set_root v h | AtLeft n => set_left n v h | AtRight n => set_right n v h end.

(** [if (p != NULL) p->parent = v]. *)
Definition set_parent_of p v h : avl A :=
  match p with Some n => set_parent n v h | None => h end.

Definition HEIGHT_OF h p : Z := match p with Some n => height h n | None => 0 end.

(** [IS_LCHILD] and [NODE_PLACE] of a node with the parent [q]. *)
Definition IS_LCHILD n (q : A) h : bool := bool_decide (avl_left h q = Some n).
Definition NODE_PLACE n (q : A) h : place A := if IS_LCHILD n q h then AtLeft q else AtRight q.

(** [node->parent ? NODE_PLACE(node) : &root->root_node]. *)
Definition nodeplace_of n h : place A :=
  match parent h n with Some q => NODE_PLACE n q h | None => AtRoot end.

(** * Rotations *)

Definition rotate_right axis lchild (lrchild : option A) pl (lrheight : Z) h : avl A :=
  let h := set_left axis lrchild h in
  let h := set_right lchild (Some axis) h in
  let h := set_height axis (u32 (lrheight + 1)) h in
  let h := set_height lchild (u32 (height h axis + 1)) h in
  let h := set_parent lchild (parent h axis) h in
  let h := set_parent axis (Some lchild) h in
  let h := write_place pl (Some lchild) h in
  set_parent_of lrchild (Some axis) h.

Definition midmount_right axis lchild (lrchild : A) pl (lrheight : Z) h : avl A :=
  let h := set_right lchild (avl_left h lrchild) h in
  let h := set_left axis (avl_right h lrchild) h in
  let h := set_left lrchild (Some lchild) h in
  let h := set_right lrchild (Some axis) h in
  let h := set_height lrchild (height h lchild) h in
  let h := set_height lchild lrheight h in
  let h := set_height axis lrheight h in
  let h := set_parent lrchild (parent h axis) h in
  let h := set_parent lchild (Some lrchild) h in
  let h := set_parent axis (Some lrchild) h in
  let h := set_parent_of (avl_right h lchild) (Some lchild) h in
  let h := set_parent_of (avl_left h axis) (Some axis) h in
  write_place pl (Some lrchild) h.

Definition rotate_left axis rchild (rlchild : option A) pl (rlheight : Z) h : avl A :=
  let h := set_right axis rlchild h in
  let h := set_left rchild (Some axis) h in
  let h := set_height axis (u32 (rlheight + 1)) h in
  let h := set_height rchild (u32 (height h axis + 1)) h in
  let h := set_parent rchild (parent h axis) h in
  let h := set_parent axis (Some rchild) h in
  let h := write_place pl (Some rchild) h in
  set_parent_of rlchild (Some axis) h.

Definition midmount_left axis rchild (rlchild : A) pl (rlheight : Z) h : avl A :=
  let h := set_left rchild (avl_right h rlchild) h in
  let h := set_right axis (avl_left h rlchild) h in
  let h := set_right rlchild (Some rchild) h in
  let h := set_left rlchild (Some axis) h in
  let h := set_height rlchild (height h rchild) h in
  let h := set_height rchild rlheight h in
  let h := set_height axis rlheight h in
  let h := set_parent rlchild (parent h axis) h in
  let h := set_parent rchild (Some rlchild) h in
  let h := set_parent axis (Some rlchild) h in
  let h := set_parent_of (avl_left h rchild) (Some rchild) h in
  let h := set_parent_of (avl_right h axis) (Some axis) h in
  write_place pl (Some rlchild) h.

(** * util_avl_rebalance *)

(** One round of the loop: the next [axis], or [None] when the loop ends, by [break] or
    because [axis] is NULL. *)
Definition rebalance_round axis : M (avl A) (option A) :=
  h ← get;
  let lchild := avl_left h axis in
  let rchild := avl_right h axis in
  let nodeplace := nodeplace_of axis h in
  let lheight := i32 (HEIGHT_OF h lchild) in
  let rheight := i32 (HEIGHT_OF h rchild) in
  if i32 (rheight + 1) <? lheight then
    lchild ← deref lchild;
    let lrchild := avl_right h lchild in
    let lrheight := HEIGHT_OF h lrchild in
    if lrheight <=? HEIGHT_OF h (avl_left h lchild) then
      modify (rotate_right axis lchild lrchild nodeplace lrheight);;
      gets (fun h => parent h lchild)
    else
      lrchild ← deref lrchild;
      modify (midmount_right axis lchild lrchild nodeplace lrheight);;
      gets (fun h => parent h lrchild)
  else if i32 (lheight + 1) <? rheight then
    rchild ← deref rchild;
    let rlchild := avl_left h rchild in
    let rlheight := HEIGHT_OF h rlchild in
    if rlheight <=? HEIGHT_OF h (avl_right h rchild) then
      modify (rotate_left axis rchild rlchild nodeplace rlheight);;
      gets (fun h => parent h rchild)
    else
      rlchild ← deref rlchild;
      modify (midmount_left axis rchild rlchild nodeplace rlheight);;
      gets (fun h => parent h rlchild)
  else
    let new_height := i32 ((if lheight <? rheight then rheight else lheight) + 1) in
    if u32 new_height =? height h axis then mret None
    else
      modify (set_height axis (u32 new_height));;
      gets (fun h => parent h axis).

Fixpoint rebalance_loop (fuel : nat) axis : M (avl A) unit :=
  match fuel with
  | O => fun _ => None
  | S fuel =>
    next ← rebalance_round axis;
    match next with
    | Some axis => rebalance_loop fuel axis
    | None => mret tt
    end
  end.

Definition util_avl_rebalance (fuel : nat) (node : option A) : M (avl A) unit :=
  match node with Some axis => rebalance_loop fuel axis | None => mret tt end.

(** * util_avl_remove *)

(** [while (successor->avl_left != NULL)]: [sparent] and [successor] at its end. *)
Fixpoint successor_loop (fuel : nat) (sparent successor : A) h : option (A * A) :=
  match fuel with
  | O => None
  | S fuel =>
    match avl_left h successor with
    | Some s => successor_loop fuel successor s h
    | None => Some (sparent, successor)
    end
  end.

(** The pointer writes of the three cases of the deletion. *)
Definition unlink_leaf (node : A) pl h : avl A :=
  let h := write_place pl (avl_left h node) h in
  set_parent_of (avl_left h node) (parent h node) h.

Definition unlink_rchild (node rchild : A) pl h : avl A :=
  let h := write_place pl (Some rchild) h in
  let h := set_left rchild (avl_left h node) h in
  let h := set_parent_of (avl_left h rchild) (Some rchild) h in
  set_parent rchild (parent h node) h.

Definition unlink_successor (node sparent successor : A) pl : M (avl A) unit :=
  modify (write_place pl (Some successor));;
  modify (fun h => set_left sparent (avl_right h successor) h);;
  modify (fun h => set_left successor (avl_left h node) h);;
  modify (fun h => set_right successor (avl_right h node) h);;
  modify (fun h => set_parent_of (avl_left h successor) (Some successor) h);;
  r ← gets (fun h => avl_right h successor);
  r ← deref r;
  modify (set_parent r (Some successor));;
  modify (fun h => set_parent_of (avl_left h sparent) (Some sparent) h);;
  modify (fun h => set_parent successor (parent h node) h).

Definition util_avl_remove (fuel : nat) (node : A) : M (avl A) unit :=
  h ← get;
  match root_node h with
  | None => mret tt
  | Some _ =>
    let nodeplace := nodeplace_of node h in
    node' ← match avl_right h node with
            | None =>
              modify (unlink_leaf node nodeplace);;
              gets (fun h => parent h node)
            | Some rchild =>
              match avl_left h rchild with
              | None =>
                modify (unlink_rchild node rchild nodeplace);;
                util_avl_rebalance fuel (Some rchild);;
                gets (fun h => parent h rchild)
              | Some successor =>
                s ← deref (successor_loop fuel rchild successor h);
                unlink_successor node s.1 s.2 nodeplace;;
                util_avl_rebalance fuel (Some s.1);;
                mret (Some s.2)
              end
            end;
    util_avl_rebalance fuel node'
  end.

(** * avl.h *)

Definition util_avl_link new p pl h : avl A :=
  let h := set_left new None h in
  let h := set_right new None h in
  let h := set_parent new p h in
  let h := set_height new 1 h in
  write_place pl (Some new) h.

(** [while (n->avl_left) n = n->avl_left;] and its mirror. *)
Fixpoint leftmost (fuel : nat) n h : option A :=
  match fuel with
  | O => None
  | S fuel => match avl_left h n with Some n => leftmost fuel n h | None => Some n end
  end.

Fixpoint rightmost (fuel : nat) n h : option A :=
  match fuel with
  | O => None
  | S fuel => match avl_right h n with Some n => rightmost fuel n h | None => Some n end
  end.

(** The loop of [util_avl_next] that leaves right subtrees, and its mirror. *)
Fixpoint climb_from_right (fuel : nat) n h : option (option A) :=
  match fuel with
  | O => None
  | S fuel =>
    match parent h n with
    | None => Some None
    | Some q => if decide (avl_right h q = Some n) then climb_from_right fuel q h else Some (Some q)
    end
  end.

Fixpoint climb_from_left (fuel : nat) n h : option (option A) :=
  match fuel with
  | O => None
  | S fuel =>
    match parent h n with
    | None => Some None
    | Some q => if decide (avl_left h q = Some n) then climb_from_left fuel q h else Some (Some q)
    end
  end.

Definition util_avl_next (fuel : nat) p h : option (option A) :=
  match p with
  | None => Some None
  | Some n =>
    match avl_right h n with
    | Some r => Some <$> leftmost fuel r h
    | None => climb_from_right fuel n h
    end
  end.

Definition util_avl_prev (fuel : nat) p h : option (option A) :=
  match p with
  | None => Some None
  | Some n =>
    match avl_left h n with
    | Some l => Some <$> rightmost fuel l h
    | None => climb_from_left fuel n h
    end
  end.

Definition util_avl_first (fuel : nat) h : option (option A) :=
  match root_node h with Some n => Some <$> leftmost fuel n h | None => Some None end.

Definition util_avl_last (fuel : nat) h : option (option A) :=
  match root_node h with Some n => Some <$> rightmost fuel n h | None => Some None end.
End avl.
