(* ===== verification/AvlTree.v ===== *)
(** Height-balanced trees as values: the functional counterpart of the rebalancing of
    components/utilities/libadt/avl/avl.c, and that it restores the balance wherever one
    subtree has changed its height by at most one. *)
From S2P Require Import Prelude.
#[local] Open Scope Z_scope.

(** * Trees, with the height stored in every node *)

Inductive tree (A : Type) := E | T (l : tree A) (x : A) (h : Z) (r : tree A).
Arguments E {A}.
Arguments T {A} l x h r.

(** A tree with a hole: the path from the hole to the root. *)
Inductive frame (A : Type) :=
  | LF (x : A) (h : Z) (r : tree A)  (** the hole is the left child of [x] *)
  | RF (l : tree A) (x : A) (h : Z).
Arguments LF {A} x h r.
Arguments RF {A} l x h.

Section tree.
Context {A : Type}.
Implicit Types (t l r : tree A) (x : A) (f : frame A) (c : list (frame A)).

Definition ptr t : option A := match t with E => None | T _ x _ _ => Some x end.
Definition ht t : Z := match t with E => 0 | T _ _ h _ => h end.

Fixpoint elems t : list A :=
  match t with E => [] | T l x _ r => elems l ++ x :: elems r end.

(** The node of a frame, and the tree made by filling its hole. *)
Definition fnode f : A := match f with LF x _ _ => x | RF _ x _ => x end.
Definition fill f t : tree A :=
  match f with LF x h r => T t x h r | RF l x h => T l x h t end.
Definition plug c t : tree A := foldl (fun t f => fill f t) t c.

(** The elements left and right of the hole. *)
Fixpoint before c : list A :=
  match c with
  | [] => []
  | LF _ _ _ :: c => before c
  | RF l x _ :: c => before c ++ elems l ++ [x]
  end.
Fixpoint after c : list A :=
  match c with
  | [] => []
  | LF x _ r :: c => x :: elems r ++ after c
  | RF _ _ _ :: c => after c
  end.

(** * Balance *)

Fixpoint balanced t : Prop :=
  match t with
  | E => True
  | T l _ h r => balanced l /\ balanced r /\ h = 1 + Z.max (ht l) (ht r) /\ -1 <= ht l - ht r <= 1
  end.

(** [f] is balanced around a hole of height [a]; [fheight] is its height then. *)
Definition fsib f : tree A := match f with LF _ _ r => r | RF l _ _ => l end.
Definition fht f : Z := match f with LF _ h _ => h | RF _ _ h => h end.
Definition fok f (a : Z) : Prop :=
  balanced (fsib f) /\ fht f = 1 + Z.max a (ht (fsib f)) /\ -1 <= a - ht (fsib f) <= 1.

Fixpoint cok c (a : Z) : Prop :=
  match c with [] => True | f :: c => fok f a /\ cok c (fht f) end.

(** The same without the stored heights: the hole had the height [a]. *)
Fixpoint cfit c (a : Z) : Prop :=
  match c with
  | [] => True
  | f :: c => balanced (fsib f) /\ -1 <= a - ht (fsib f) <= 1 /\ cfit c (1 + Z.max a (ht (fsib f)))
  end.

(** * One round of the rebalancing *)

Definition rot_right l x r : tree A :=
  match l with
  | T ll y _ lr => T ll y (ht lr + 1 + 1) (T lr x (ht lr + 1) r)
  | E => E
  end.
Definition mid_right l x r : tree A :=
  match l with
  | T ll y hy (T a z hz b) => T (T ll y hz a) z hy (T b x hz r)
  | _ => E
  end.
Definition rot_left l x r : tree A :=
  match r with
  | T rl y _ rr => T (T l x (ht rl + 1) rl) y (ht rl + 1 + 1) rr
  | E => E
  end.
Definition mid_left l x r : tree A :=
  match r with
  | T (T a z hz b) y hy rr => T (T l x hz a) z hy (T b y hz rr)
  | _ => E
  end.

Definition lht t : Z := match t with T l _ _ _ => ht l | E => 0 end.
Definition rht t : Z := match t with T _ _ _ r => ht r | E => 0 end.

(** The tree that replaces [T l x h r], and whether the loop goes on to its parent. *)
Definition fix_node t : tree A * bool :=
  match t with
  | E => (E, false)
  | T l x h r =>
    if ht r + 1 <? ht l then
      (if rht l <=? lht l then rot_right l x r else mid_right l x r, true)
    else if ht l + 1 <? ht r then
      (if lht r <=? rht r then rot_left l x r else mid_left l x r, true)
    else
      let h' := 1 + Z.max (ht l) (ht r) in
      if h' =? h then (t, false) else (T l x h' r, true)
  end.

(** The loop of [util_avl_rebalance] started at the node of the first frame; the part of
    the path it has used, and whether it stopped before the end. *)
Fixpoint climb t c : tree A * bool :=
  match c with
  | [] => (t, true)
  | f :: c =>
    let '(t, go) := fix_node (fill f t) in
    if go then climb t c else (plug c t, false)
  end.

Definition rebalanced t c : tree A := (climb t c).1.
End tree.

(** * What the rebalancing does to a tree *)

Section props.
Context {A : Type}.
Implicit Types (t l r : tree A) (x : A) (f : frame A) (c : list (frame A)).

Lemma balanced_ht t : balanced t -> 0 <= ht t.
Proof.
  induction t as [|l IHl x h r IHr]; simpl; [done|]. intros (Hl & Hr & -> & _).
  specialize (IHl Hl). specialize (IHr Hr). lia.
Qed.

Lemma balanced_pos l x h r : balanced (T l x h r) -> 1 <= h.
Proof.
  intros (Hl & Hr & -> & _). pose proof (balanced_ht l Hl). pose proof (balanced_ht r Hr). lia.
Qed.

Lemma elems_fill f t : elems (fill f t) = before [f] ++ elems t ++ after [f].
Proof. destruct f; simpl; [by rewrite app_nil_r|]. by rewrite app_nil_r, <- app_assoc. Qed.

Lemma elems_plug c t : elems (plug c t) = before c ++ elems t ++ after c.
Proof.
  revert t. induction c as [|f c IH]; intros t; simpl; [by rewrite app_nil_r|].
  fold (plug c (fill f t)). rewrite IH, elems_fill. destruct f; simpl; by list_simplifier.
Qed.

Lemma plug_app c1 c2 t : plug (c1 ++ c2) t = plug c2 (plug c1 t).
Proof. apply foldl_app. Qed.

(** The height of a filled path, when the hole has the height [a]. *)
Definition ctop c (a : Z) : Z := foldl (fun _ f => fht f) a c.

Lemma fill_balanced f t : balanced (fill f t) <-> balanced t /\ fok f (ht t).
Proof. destruct f; unfold fok; simpl; intuition lia. Qed.

Lemma ht_fill f t : ht (fill f t) = fht f.
Proof. by destruct f. Qed.

Lemma plug_balanced c t : balanced (plug c t) <-> balanced t /\ cok c (ht t).
Proof.
  revert t. induction c as [|f c IH]; intros t; simpl; [tauto|].
  fold (plug c (fill f t)). rewrite IH, fill_balanced, ht_fill. tauto.
Qed.

Lemma ht_plug c t : ht (plug c t) = ctop c (ht t).
Proof.
  revert t. induction c as [|f c IH]; intros t; simpl; [done|].
  fold (plug c (fill f t)). by rewrite IH, ht_fill.
Qed.

(** One round keeps the elements; with children that differ by at most two in height, it
    gives a balanced tree that is at most one lower than the node's proper height. *)
Lemma fix_node_spec l x h r : balanced l -> balanced r -> -2 <= ht l - ht r <= 2 ->
  let '(t, go) := fix_node (T l x h r) in
  balanced t /\ elems t = elems l ++ x :: elems r /\
  Z.max (ht l) (ht r) <= ht t <= 1 + Z.max (ht l) (ht r) /\
  (-1 <= ht l - ht r <= 1 -> ht t = 1 + Z.max (ht l) (ht r)) /\
  (go = false -> t = T l x h r).
Proof.
  intros Hl Hr Hd. pose proof (balanced_ht l Hl) as Pl. pose proof (balanced_ht r Hr) as Pr.
  simpl. repeat case_match; simplify_eq; try (simpl; repeat split; try done; lia).
  - destruct l as [|ll y hy lr]; simpl in *; [lia|]. destruct Hl as (Hll & Hlr & -> & Hly).
    repeat split; try done; list_simplifier; auto; lia.
  - destruct l as [|ll y hy [|a z hz b]]; simpl in *; [lia|lia|].
    destruct Hl as (Hll & (Ha & Hb & -> & Hz) & -> & Hly).
    pose proof (balanced_ht a Ha). pose proof (balanced_ht b Hb).
    repeat split; try done; list_simplifier; auto; lia.
  - destruct r as [|rl y hy rr]; simpl in *; [lia|]. destruct Hr as (Hrl & Hrr & -> & Hry).
    repeat split; try done; list_simplifier; auto; lia.
  - destruct r as [|[|a z hz b] y hy rr]; simpl in *; [lia|lia|].
    destruct Hr as ((Ha & Hb & -> & Hz) & Hrr & -> & Hry).
    pose proof (balanced_ht a Ha). pose proof (balanced_ht b Hb).
    repeat split; try done; list_simplifier; auto; lia.
Qed.

(** The children of a frame's node around [t]. *)
Lemma fill_cases f t : exists l x h r, fill f t = T l x h r /\ h = fht f /\
  ((l = t /\ r = fsib f) \/ (l = fsib f /\ r = t)).
Proof. destruct f; simpl; eauto 10. Qed.

Lemma cok_cfit c a : cok c a -> cfit c a.
Proof.
  revert a. induction c as [|f c IH]; intros a; simpl; [done|].
  intros [(Hs & Hf & Hd) Hc]. rewrite <- Hf. auto.
Qed.

(** One round around a hole of a path, whose height has changed by at most one. *)
Lemma fix_fill f c t a : cfit (f :: c) a -> balanced t -> -1 <= ht t - a <= 1 ->
  exists l x h r, fill f t = T l x h r /\ h = fht f /\ x = fnode f /\
    balanced l /\ balanced r /\ -2 <= ht l - ht r <= 2 /\
    Z.max (ht l) (ht r) = Z.max (ht t) (ht (fsib f)) /\
    -1 <= ht (fix_node (fill f t)).1 - (1 + Z.max a (ht (fsib f))) <= 1.
Proof.
  intros (Hs & Hd & _) Ht Ha.
  assert (Hlr : exists l x h r, fill f t = T l x h r /\ h = fht f /\ x = fnode f /\
    ((l = t /\ r = fsib f) \/ (l = fsib f /\ r = t))) by (destruct f; simpl; eauto 10).
  destruct Hlr as (l & x & h & r & Ef & Eh & Ex & Hlr). exists l, x, h, r.
  assert (H : balanced l /\ balanced r /\ -2 <= ht l - ht r <= 2).
  { destruct Hlr as [[-> ->]|[-> ->]]; (split; [done|]; split; [done|]); lia. }
  destruct H as (Hl & Hr & Hlr2). pose proof (fix_node_spec l x h r Hl Hr Hlr2) as Hfix.
  rewrite Ef. destruct (fix_node (T l x h r)) as [t' go]. destruct Hfix as (_ & _ & M & N & _).
  split_and!; try done; simpl; destruct Hlr as [[-> ->]|[-> ->]]; lia.
Qed.

(** A subtree that has changed its height by at most one is mended on the way up. *)
Lemma climb_spec c t a : cok c a -> balanced t -> -1 <= ht t - a <= 1 ->
  let '(t', go) := climb t c in
  balanced t' /\ elems t' = elems (plug c t) /\ -1 <= ht t' - ctop c a <= 1 /\
  (go = false -> ht t' = ctop c a).
Proof.
  revert t a. induction c as [|f c IH]; intros t a Hc Ht Ha; simpl; [done|].
  destruct Hc as [Hf Hc]. destruct (fill_cases f t) as (l & x & h & r & Ef & -> & Hlr).
  assert (Hlr' : balanced l /\ balanced r /\ -2 <= ht l - ht r <= 2).
  { destruct Hf as (Hs & _ & Hd). destruct Hlr as [[-> ->]|[-> ->]]; (split; [done|]; split; [done|]); lia. }
  destruct Hlr' as (Hl & Hr & Hd). pose proof (fix_node_spec l x (fht f) r Hl Hr Hd) as Hfix.
  fold (plug c (fill f t)). rewrite Ef.
  destruct (fix_node (T l x (fht f) r)) as [t1 go]. destruct Hfix as (B1 & E1 & M1 & N1 & S1).
  assert (Hh : fht f = 1 + Z.max a (ht (fsib f))) by (destruct Hf as (_ & ? & _); lia).
  destruct go.
  - assert (H1 : -1 <= ht t1 - fht f <= 1).
    { destruct Hf as (_ & Hfh & Hfd). destruct Hlr as [[-> ->]|[-> ->]]; lia. }
    pose proof (IH t1 (fht f) Hc B1 H1) as IH1. destruct (climb t1 c) as [t' go'].
    destruct IH1 as (B & El & Hn & Hg). repeat split; try done; try lia.
    rewrite El, !elems_plug, E1. simpl. by list_simplifier.
  - rewrite (S1 eq_refl) in *. simpl in *.
    rewrite ht_plug. simpl.
    split; [by apply plug_balanced|]. repeat split; lia.
Qed.

Lemma climb_app c1 c2 t : climb t (c1 ++ c2) =
  let '(t', go) := climb t c1 in if go then climb t' c2 else (plug c2 t', false).
Proof.
  revert t. induction c1 as [|f c1 IH]; intros t; simpl; [done|].
  destruct (fix_node (fill f t)) as [t' []]; [apply IH|by rewrite plug_app].
Qed.

(** The first frame may hold any height, if the loop does not stop there by mistake. *)
Lemma climb_stale f c t a : balanced (fsib f) -> -1 <= a - ht (fsib f) <= 1 ->
  cok c (1 + Z.max a (ht (fsib f))) -> balanced t -> -1 <= ht t - a <= 1 ->
  (fht f = 1 + Z.max (ht t) (ht (fsib f)) -> fht f = 1 + Z.max a (ht (fsib f))) ->
  balanced (climb t (f :: c)).1 /\ elems (climb t (f :: c)).1 = elems (plug (f :: c) t).
Proof.
  intros Hs Hd Hc Ht Ha Hst.
  assert (Hfit : cfit (f :: c) a) by (split; [done|split; [done|by apply cok_cfit]]).
  destruct (fix_fill f c t a Hfit Ht Ha) as (l & x & h & r & Ef & -> & _ & Bl & Br & Hlr & Hm & Hn).
  pose proof (fix_node_spec l x (fht f) r Bl Br Hlr) as Hfix.
  cbn [climb plug foldl]. fold (plug c (fill f t)). rewrite Ef in *.
  destruct (fix_node (T l x (fht f) r)) as [t' go]. destruct Hfix as (B & El & M & N & Hg). simpl in Hn.
  destruct go.
  - pose proof (climb_spec c t' _ Hc B Hn) as H. destruct (climb t' c) as [t2 g2].
    destruct H as (B2 & E2 & _). split; [done|]. simpl. rewrite E2, !elems_plug, El. done.
  - rewrite (Hg eq_refl) in *. split; [|done]. apply plug_balanced. split; [done|].
    simpl. simpl in B. rewrite Hst; [done|]. lia.
Qed.

Lemma ctop_low c a : cok c a -> 0 <= a -> a + Z.of_nat (length c) <= ctop c a.
Proof.
  revert a. induction c as [|f c IH]; intros a Hc Ha; [simpl; lia|].
  destruct Hc as [(Hs & Hf & Hd) Hc]. pose proof (balanced_ht _ Hs).
  assert (Ha' : 0 <= fht f) by lia. pose proof (IH (fht f) Hc Ha'). simpl. fold (ctop c (fht f)). lia.
Qed.

Lemma cfit_app c1 c2 a : cok c1 a -> cfit c2 (ctop c1 a) -> cfit (c1 ++ c2) a.
Proof.
  revert a. induction c1 as [|f c1 IH]; intros a; simpl; [done|].
  intros [(Hs & Hf & Hd) Hc] H2. rewrite <- Hf. auto.
Qed.

(** Nothing to do in a balanced tree. *)
Lemma fix_node_id l x h r : balanced (T l x h r) -> fix_node (T l x h r) = (T l x h r, false).
Proof. simpl. intros (_ & _ & -> & Hd). repeat case_match; simplify_eq; try done; lia. Qed.

Lemma climb_id f c t : balanced (plug (f :: c) t) -> climb t (f :: c) = (plug (f :: c) t, false).
Proof.
  intros Hb. simpl. simpl in Hb. fold (plug c (fill f t)) in *. apply plug_balanced in Hb as [Hb _].
  destruct (fill_cases f t) as (l & x & h & r & Ef & _). rewrite Ef in *. by rewrite fix_node_id.
Qed.

Lemma half_step (z : Z) : z / 2 = Z.succ ((z - 2) / 2).
Proof. Z.to_euclidean_division_equations. lia. Qed.

(** A balanced tree of height [h] has at least [2 ^ (h / 2) - 1] nodes. *)
Lemma balanced_size t : balanced t -> 2 ^ (ht t / 2) <= Z.of_nat (length (elems t)) + 1.
Proof.
  induction t as [|l IHl x h r IHr]; intros Hb; [done|].
  pose proof (balanced_pos l x h r Hb) as Hp. simpl in Hb |- *. destruct Hb as (Hl & Hr & Hh & Hd).
  specialize (IHl Hl). specialize (IHr Hr). rewrite length_app. simpl.
  pose proof (balanced_ht l Hl). pose proof (balanced_ht r Hr).
  destruct (decide (h <= 1)) as [Hs|Hs]; [replace h with 1 by lia; change (2 ^ (1 / 2)) with 1; lia|].
  assert (Hlow : forall s, h - 2 <= s -> 2 ^ ((h - 2) / 2) <= 2 ^ (s / 2)).
  { intros s Hs'. apply Z.pow_le_mono_r; [lia|]. by apply Z.div_le_mono. }
  pose proof (Hlow (ht l) ltac:(lia)). pose proof (Hlow (ht r) ltac:(lia)).
  rewrite (half_step h).
  rewrite Z.pow_succ_r by (apply Z.div_pos; lia). lia.
Qed.

(** Heights stay far from the limits of [int] on a 32-bit machine. *)
Lemma balanced_small t : balanced t -> Z.of_nat (length (elems t)) < 2 ^ 32 -> ht t < 66.
Proof.
  intros Hb Hn. pose proof (balanced_size t Hb) as Hs. pose proof (balanced_ht t Hb) as Hp.
  destruct (decide (ht t < 66)) as [|Hh]; [done|exfalso].
  assert (2 ^ 33 <= 2 ^ (ht t / 2)); [|lia].
  apply Z.pow_le_mono_r; [lia|]. apply Z.div_le_lower_bound; lia.
Qed.
End props.
