(* ===== verification/AvlRep.v ===== *)
(** AVL trees in memory: which node fields represent which tree, and that
    [util_avl_rebalance] does to the represented tree what [climb] does.  The fields of a
    subtree with the place it hangs at are described apart from the path above it. *)
From S2P Require Import Prelude Avl AvlTree.
#[local] Open Scope Z_scope.

(** * Representation *)

Section rep.
Context {A : Type} `{EqDecision A}.
Implicit Types (h : avl A) (t l r : tree A) (x y z : A) (f : frame A) (c : list (frame A)).

(** The nodes of [t], whose root has the parent [par]. *)
Fixpoint rep h (par : option A) t : Prop :=
  match t with
  | E => True
  | T l x hx r =>
    parent h x = par /\ height h x = hx /\ avl_left h x = ptr l /\ avl_right h x = ptr r /\
    rep h (Some x) l /\ rep h (Some x) r
  end.

(** The parent of what hangs in the hole of [c], when [top] is above [c]. *)
Definition cpar c (top : option A) : option A :=
  match c with f :: _ => Some (fnode f) | [] => top end.

(** The node of [f] when [p] hangs in its hole. *)
Definition frep h (par : option A) f (p : option A) : Prop :=
  match f with
  | LF x hx r =>
    parent h x = par /\ height h x = hx /\ avl_left h x = p /\ avl_right h x = ptr r /\ rep h (Some x) r
  | RF l x hx =>
    parent h x = par /\ height h x = hx /\ avl_left h x = ptr l /\ avl_right h x = p /\ rep h (Some x) l
  end.

(** The nodes of the path [c] under the parent [top], with [p] in the hole. *)
Fixpoint crep h (top : option A) c (p : option A) : Prop :=
  match c with
  | [] => True
  | f :: c => frep h (cpar c top) f p /\ crep h top c (Some (fnode f))
  end.

(** The pointer to the whole, when [p] hangs in the hole. *)
Definition tptr c (p : option A) : option A := foldl (fun _ f => Some (fnode f)) p c.

(** [root] represents [t]. *)
Definition represents h t : Prop := root_node h = ptr t /\ rep h None t /\ NoDup (elems t).

(** The same seen from the hole of [c], which holds [t]. *)
Definition focus h c t : Prop :=
  root_node h = tptr c (ptr t) /\ crep h None c (ptr t) /\ rep h (cpar c None) t.

Lemma ptr_fill f t : ptr (fill f t) = Some (fnode f).
Proof. by destruct f. Qed.

Lemma rep_fill h par f t : rep h par (fill f t) <-> frep h par f (ptr t) /\ rep h (Some (fnode f)) t.
Proof. destruct f; simpl; tauto. Qed.

Lemma rep_plug h top c t :
  rep h top (plug c t) <-> crep h top c (ptr t) /\ rep h (cpar c top) t.
Proof.
  revert t. induction c as [|f c IH]; intros t; simpl; [tauto|].
  fold (plug c (fill f t)). rewrite IH, rep_fill, ptr_fill. tauto.
Qed.

Lemma ptr_plug c t : ptr (plug c t) = tptr c (ptr t).
Proof.
  revert t. induction c as [|f c IH]; intros t; simpl; [done|].
  fold (plug c (fill f t)). by rewrite IH, ptr_fill.
Qed.

Lemma focus_plug h c t : NoDup (elems (plug c t)) -> represents h (plug c t) <-> focus h c t.
Proof. intros Hnd. unfold represents, focus. rewrite rep_plug, ptr_plug. tauto. Qed.

(** The nodes of a path. *)
Fixpoint cnodes c : list A :=
  match c with [] => [] | f :: c => fnode f :: elems (fsib f) ++ cnodes c end.

Lemma elems_plug_perm c t : elems (plug c t) ≡ₚ elems t ++ cnodes c.
Proof.
  revert t. induction c as [|f c IH]; intros t; simpl; [by rewrite app_nil_r|].
  fold (plug c (fill f t)). rewrite IH. destruct f; simpl; solve_Permutation.
Qed.

(** * Facts about distinct nodes *)

Lemma ptr_elem t z : ptr t = Some z -> z ∈ elems t.
Proof. destruct t; simpl; [done|]. intros [= ->]. apply elem_of_app. right. left. Qed.

Lemma rep_root_parent h par t z : rep h par t -> ptr t = Some z -> parent h z = par.
Proof. destruct t; simpl; [done|]. by intros (? & _) [= ->]. Qed.

Lemma elem_node l x hx r z : z ∈ elems (T l x hx r) <-> z ∈ elems l \/ z = x \/ z ∈ elems r.
Proof. simpl. by rewrite elem_of_app, elem_of_cons. Qed.

Lemma fnode_in f c : fnode f ∈ cnodes (f :: c).
Proof. left. Qed.
End rep.

(** Take the distinctness of concatenated lists apart, down to their atoms. *)
Ltac apart_lists :=
  repeat match goal with
  | H : NoDup (_ ++ _) |- _ => apply NoDup_app in H as (? & ? & ?)
  | H : NoDup (_ :: _) |- _ => apply NoDup_cons in H as [? ?]
  | H : forall z, z ∈ ?a ++ ?b -> z ∉ ?d |- _ =>
    assert (forall z, z ∈ a -> z ∉ d) by (intros ? ?; apply H; apply elem_of_app; by left);
    assert (forall z, z ∈ b -> z ∉ d) by (intros ? ?; apply H; apply elem_of_app; by right); clear H
  | H : forall z, z ∈ ?x :: ?b -> z ∉ ?d |- _ =>
    assert (x ∉ d) by (apply H; left);
    assert (forall z, z ∈ b -> z ∉ d) by (intros ? ?; apply H; by right); clear H
  | H : forall z, z ∈ ?a -> z ∉ ?b ++ ?d |- _ =>
    assert (forall z, z ∈ a -> z ∉ b) by (let K := fresh in intros ? K ?; apply (H _ K); apply elem_of_app; by left);
    assert (forall z, z ∈ a -> z ∉ d) by (let K := fresh in intros ? K ?; apply (H _ K); apply elem_of_app; by right); clear H
  | H : forall z, z ∈ ?a -> z ∉ ?x :: ?d |- _ =>
    assert (x ∉ a) by (let K := fresh in intros K; apply (H _ K); left);
    assert (forall z, z ∈ a -> z ∉ d) by (let K := fresh in intros ? K ?; apply (H _ K); by right); clear H
  | H : ?x ∉ _ ++ _ |- _ => apply not_elem_of_app in H as [? ?]
  | H : ?x ∉ _ :: _ |- _ => apply not_elem_of_cons in H as [? ?]
  end.

(** Two of the nodes at hand are the same and may not be. *)
Ltac clash :=
  exfalso;
  repeat match goal with
  | H : ptr _ = Some _ |- _ => apply ptr_elem in H
  | H : Some _ = Some _ |- _ => injection H as H
  end; subst;
  first [contradiction | congruence
        | match goal with H : forall z, z ∈ ?a -> z ∉ ?b, H1 : ?z ∈ ?a, H2 : ?z ∈ ?b |- _ => exact (H z H1 H2) end ].

#[global] Instance place_eq_dec {A} `{EqDecision A} : EqDecision (place A).
Proof. solve_decision. Defined.

(** * Moving a description to another memory *)

Section move.
Context {A : Type} `{EqDecision A}.
Implicit Types (h : avl A) (t l r : tree A) (x y z : A) (f : frame A) (c : list (frame A)).

(** All of a node's fields but its parent are the same. *)
Definition same_node h h' z : Prop :=
  avl_left h' z = avl_left h z /\ avl_right h' z = avl_right h z /\ height h' z = height h z.

Lemma rep_move h h' par par' t :
  NoDup (elems t) -> (forall z, z ∈ elems t -> same_node h h' z) ->
  (forall z, z ∈ elems t -> parent h' z = if decide (ptr t = Some z) then par' else parent h z) ->
  rep h par t -> rep h' par' t.
Proof.
  revert par par'. induction t as [|l IHl x hx r IHr]; intros par par'; simpl; [done|].
  intros Hnd Hsame Hpar (Ep & Eh & El & Er & Rl & Rr).
  assert (Hin : forall z, z ∈ elems l \/ z = x \/ z ∈ elems r -> z ∈ elems l ++ x :: elems r).
  { intros z. by rewrite elem_of_app, elem_of_cons. }
  destruct (Hsame x) as (Sl & Sr & Sh); [auto|]. rewrite Sl, Sr, Sh. apart_lists.
  rewrite Hpar, decide_True by auto.
  split_and!; try done; [eapply (IHl (Some x))|eapply (IHr (Some x))]; try done; intros z Hz.
  1, 3: apply Hsame; auto.
  all: rewrite Hpar, (decide_False (P := Some x = Some z)) by first [solve [auto] | intros ?; clash]; case_decide; [|done].
  - by eapply (rep_root_parent h _ l).
  - by eapply (rep_root_parent h _ r).
Qed.

(** The place of the hole of a path. *)
Definition place_of c : place A :=
  match c with [] => AtRoot | LF x _ _ :: _ => AtLeft x | RF _ x _ :: _ => AtRight x end.

Lemma place_of_left c z : place_of c = AtLeft z -> z ∈ cnodes c.
Proof. destruct c as [|[] c]; simpl; try done. intros [= ->]. left. Qed.
Lemma place_of_right c z : place_of c = AtRight z -> z ∈ cnodes c.
Proof. destruct c as [|[] c]; simpl; try done. intros [= ->]. left. Qed.

Lemma rep_same h h' par t :
  (forall z, z ∈ elems t -> same_node h h' z /\ parent h' z = parent h z) ->
  rep h par t -> rep h' par t.
Proof.
  revert par. induction t as [|l IHl x hx r IHr]; intros par; [done|]. intros Hs.
  assert (Hin : forall z, z ∈ elems l \/ z = x \/ z ∈ elems r -> same_node h h' z /\ parent h' z = parent h z).
  { intros z Hz. apply Hs. by apply elem_node. }
  simpl. destruct (Hin x) as ((-> & -> & ->) & ->); [auto|].
  intros (? & ? & ? & ? & ? & ?). split_and!; try done; [apply IHl|apply IHr]; auto.
Qed.

(** Only the hole of the path changes. *)
Definition only_hole c (p : option A) h h' z : Prop :=
  avl_left h' z = (if decide (place_of c = AtLeft z) then p else avl_left h z) /\
  avl_right h' z = (if decide (place_of c = AtRight z) then p else avl_right h z) /\
  height h' z = height h z /\ parent h' z = parent h z.

Lemma crep_same h h' top c p :
  (forall z, z ∈ cnodes c -> same_node h h' z /\ parent h' z = parent h z) ->
  crep h top c p -> crep h' top c p.
Proof.
  revert p. induction c as [|f c IH]; intros p; [done|]. simpl. intros Hs [Hf Hc].
  split; [|apply IH; [|done]; intros z Hz; apply Hs; right; apply elem_of_app; by right].
  destruct (Hs (fnode f)) as ((El & Er & Eh) & Ep); [left|].
  destruct f as [x hx r|l x hx]; simpl in *; rewrite El, Er, Eh, Ep;
    destruct Hf as (? & ? & ? & ? & ?); split_and!; try done; apply (rep_same h); try done;
    intros z Hz; apply Hs; right; apply elem_of_app; by left.
Qed.

Lemma crep_hole h h' top c p p' : NoDup (cnodes c) ->
  (forall z, z ∈ cnodes c -> only_hole c p' h h' z) -> crep h top c p -> crep h' top c p'.
Proof.
  destruct c as [|f c]; [done|]. intros Hnd Hs [Hf Hc]. simpl in Hnd. apart_lists.
  assert (Hin : forall z, z = fnode f \/ z ∈ elems (fsib f) \/ z ∈ cnodes c -> only_hole (f :: c) p' h h' z).
  { intros z Hz. apply Hs. simpl. by rewrite elem_of_cons, elem_of_app. }
  assert (Hout : forall z, z <> fnode f -> only_hole (f :: c) p' h h' z ->
    same_node h h' z /\ parent h' z = parent h z).
  { intros z Hz (Hl & Hr & Hh & Hp). destruct f; simpl in *; rewrite ?decide_False in Hl by congruence; rewrite ?decide_False in Hr by congruence; done. }
  split.
  - destruct (Hin (fnode f)) as (Hl & Hr & Hh & Hp); [auto|].
    destruct f as [x hx r|l x hx]; simpl in *; rewrite Hl, Hr, Hh, Hp;
      rewrite (decide_True (P := _ x = _ x)) by done;
      destruct Hf as (? & ? & ? & ? & ?); split_and!; try done;
      apply (rep_same h); try done; intros z Hz; apply Hout; auto; intros ->; contradiction.
  - apply (crep_same h); [|done]. intros z Hz. apply Hout; auto. intros ->. contradiction.
Qed.

(** Only the parent of the path's top node changes. *)
Lemma crep_top h h' top top' c p : NoDup (cnodes c) ->
  (forall z, z ∈ cnodes c -> same_node h h' z /\
    parent h' z = if decide (tptr c None = Some z) then top' else parent h z) ->
  crep h top c p -> crep h' top' c p.
Proof.
  revert p. induction c as [|f c IH]; intros p; [done|]. cbn [cnodes crep].
  intros Hnd Hs [Hf Hc]. apply NoDup_cons in Hnd as [Hfn Hnd].
  assert (Htop : forall z, z ∈ elems (fsib f) \/ z = fnode f -> c <> [] ->
    tptr (f :: c) None <> Some z).
  { intros z Hz Hne E. destruct c as [|g c]; [done|]. assert (z ∈ cnodes (g :: c)).
    { clear -E. simpl in E |- *. revert g E. induction c as [|g' c IH]; intros g E; simpl in *.
      - simplify_eq. left.
      - right. apply elem_of_app. right. by apply IH. }
    rewrite not_elem_of_app in Hfn. apply NoDup_app in Hnd as (_ & Hd & _).
    destruct Hz as [Hz| ->]; [by apply (Hd z)|tauto]. }
  split.
  - destruct (Hs (fnode f)) as ((El & Er & Eh) & Ep); [left|].
    assert (Ep' : parent h' (fnode f) = cpar c top').
    { rewrite Ep. destruct c as [|g c]; simpl; [by rewrite decide_True|].
      rewrite decide_False by (apply Htop; auto). destruct f; by destruct Hf as (? & _). }
    assert (Hsib : forall z, z ∈ elems (fsib f) -> same_node h h' z /\ parent h' z = parent h z).
    { intros z Hz. destruct (Hs z) as [? E]; [right; apply elem_of_app; by left|]. split; [done|].
      rewrite E. apply decide_False. destruct c as [|g c]; [|by apply Htop; auto].
      simpl. intros [= <-]. apply Hfn, elem_of_app. by left. }
    destruct f as [x hx r|l x hx]; simpl in *; rewrite El, Er, Eh, Ep';
      destruct Hf as (? & ? & ? & ? & ?); split_and!; try done; by apply (rep_same h).
  - apply IH; [by apply NoDup_app in Hnd as (_ & _ & ?)| |done].
    intros z Hz. destruct (Hs z) as [? E]; [right; apply elem_of_app; by right|]. split; [done|].
    rewrite E. destruct c; [by apply elem_of_nil in Hz|done].
Qed.

(** * The fields after a write *)

Lemma place_left pl v h z :
  avl_left (write_place pl v h) z = if decide (pl = AtLeft z) then v else avl_left h z.
Proof. destruct pl; simpl; unfold fupd; repeat case_decide; congruence. Qed.
Lemma place_right pl v h z :
  avl_right (write_place pl v h) z = if decide (pl = AtRight z) then v else avl_right h z.
Proof. destruct pl; simpl; unfold fupd; repeat case_decide; congruence. Qed.
Lemma place_parent pl v h : parent (write_place pl v h) = parent h.
Proof. by destruct pl. Qed.
Lemma place_height pl v h : height (write_place pl v h) = height h.
Proof. by destruct pl. Qed.
Lemma place_root pl v h :
  root_node (write_place pl v h) = match pl with AtRoot => v | _ => root_node h end.
Proof. by destruct pl. Qed.

Lemma spo_left p v h : avl_left (set_parent_of p v h) = avl_left h.
Proof. by destruct p. Qed.
Lemma spo_right p v h : avl_right (set_parent_of p v h) = avl_right h.
Proof. by destruct p. Qed.
Lemma spo_height p v h : height (set_parent_of p v h) = height h.
Proof. by destruct p. Qed.
Lemma spo_root p v h : root_node (set_parent_of p v h) = root_node h.
Proof. by destruct p. Qed.
Lemma spo_parent p v h z :
  parent (set_parent_of p v h) z = if decide (p = Some z) then v else parent h z.
Proof. destruct p; simpl; unfold fupd; repeat case_decide; congruence. Qed.

Lemma tptr_place c p p' h : root_node h = tptr c p ->
  match place_of c with AtRoot => p' | _ => root_node h end = tptr c p'.
Proof. by destruct c as [|[] c]. Qed.
End move.

Create Rewrite HintDb avl.
#[export] Hint Rewrite @place_left @place_right @place_parent @place_height @place_root
  @spo_left @spo_right @spo_height @spo_root @spo_parent : avl.

(** The value of a field after writes whose targets are known to be distinct. *)
Ltac fields :=
  repeat (simpl; autorewrite with avl; unfold fupd);
  repeat match goal with
  | H : avl_left ?h ?z = ptr _ |- context [avl_left ?h ?z] => rewrite H
  | H : avl_right ?h ?z = ptr _ |- context [avl_right ?h ?z] => rewrite H
  | _ => case_decide
  end;
  repeat match goal with
  | H : place_of _ = AtLeft _ |- _ => apply place_of_left in H
  | H : place_of _ = AtRight _ |- _ => apply place_of_right in H
  end; try done; try clash.

(** A subtree that keeps its place, and one that gets a new parent. *)
Ltac kept h :=
  apply (rep_same h); [intros ? ?; unfold same_node; split_and!; solve [fields]|assumption].
Ltac moved h :=
  eapply (rep_move h); [assumption|intros ? ?; unfold same_node; split_and!; solve [fields]
                       |intros ? ?; solve [fields]|eassumption].
