(* ===== verification/AvlRebalance.v ===== *)
(** [util_avl_rebalance] on memory that represents a tree: each rotation is the one of
    the functional trees, and the loop is [climb]. *)
From S2P Require Import Prelude Avl AvlTree AvlRep.
#[local] Open Scope Z_scope.

Section rebalance.
Context {A : Type} `{EqDecision A}.
Implicit Types (h : avl A) (t l r : tree A) (x y z : A) (f : frame A) (c : list (frame A)).

(** Replacing what hangs in the hole of a path. *)
Lemma focus_replace h h' c t t' :
  focus h c t -> NoDup (cnodes c) ->
  root_node h' = match place_of c with AtRoot => ptr t' | _ => root_node h end ->
  (forall z, z ∈ cnodes c -> only_hole c (ptr t') h h' z) ->
  rep h' (cpar c None) t' -> focus h' c t'.
Proof.
  intros (Hroot & Hc & Ht) Hnd Hr Hh Ht'. split_and!; [|by eapply crep_hole|done].
  rewrite Hr. by eapply tptr_place.
Qed.

(** A subtree was replaced by writes near it: the fields of the new one, the path around
    it, and the subtrees below it. *)
Ltac replaced h op :=
  eapply focus_replace; [eassumption|assumption|unfold op; fields
    |intros ? ?; unfold only_hole, op; split_and!; fields
    |cbn [rep ptr]; unfold op; split_and!; try fields;
     try first [kept h | moved h | rewrite (u32_id (ht _ + 1)) by lia; rewrite ?u32_id by lia; lia]].

Lemma rotate_right_focus h c ll y hy lr x hx r :
  focus h c (T (T ll y hy lr) x hx r) ->
  NoDup (elems (T (T ll y hy lr) x hx r) ++ cnodes c) -> 0 <= ht lr < 2 ^ 31 ->
  focus (rotate_right x y (ptr lr) (place_of c) (ht lr) h) c (rot_right (T ll y hy lr) x r).
Proof.
  intros Hf Hnd Hlr. pose proof Hf as (_ & _ & Hrep). simpl in Hnd, Hrep.
  destruct Hrep as (Px & Hx & Lx & Rx & (Py & Hy & Ly & Ry & Rll & Rlr) & Rr).
  apart_lists. unfold rot_right. replaced h @rotate_right.
Qed.

Lemma rotate_left_focus h c l x hx rl y hy rr :
  focus h c (T l x hx (T rl y hy rr)) ->
  NoDup (elems (T l x hx (T rl y hy rr)) ++ cnodes c) -> 0 <= ht rl < 2 ^ 31 ->
  focus (rotate_left x y (ptr rl) (place_of c) (ht rl) h) c (rot_left l x (T rl y hy rr)).
Proof.
  intros Hf Hnd Hrl. pose proof Hf as (_ & _ & Hrep). simpl in Hnd, Hrep.
  destruct Hrep as (Px & Hx & Lx & Rx & Rl & (Py & Hy & Ly & Ry & Rrl & Rrr)).
  apart_lists. unfold rot_left. replaced h @rotate_left.
Qed.

Lemma midmount_right_focus h c ll y hy a z hz b x hx r :
  focus h c (T (T ll y hy (T a z hz b)) x hx r) ->
  NoDup (elems (T (T ll y hy (T a z hz b)) x hx r) ++ cnodes c) ->
  focus (midmount_right x y z (place_of c) hz h) c (mid_right (T ll y hy (T a z hz b)) x r).
Proof.
  intros Hf Hnd. pose proof Hf as (_ & _ & Hrep). simpl in Hnd, Hrep.
  destruct Hrep as (Px & Hx & Lx & Rx & (Py & Hy & Ly & Ry & Rll & (Pz & Hz & Lz & Rz & Ra & Rb)) & Rr).
  apart_lists. unfold mid_right. replaced h @midmount_right.
Qed.

Lemma midmount_left_focus h c l x hx a z hz b y hy rr :
  focus h c (T l x hx (T (T a z hz b) y hy rr)) ->
  NoDup (elems (T l x hx (T (T a z hz b) y hy rr)) ++ cnodes c) ->
  focus (midmount_left x y z (place_of c) hz h) c (mid_left l x (T (T a z hz b) y hy rr)).
Proof.
  intros Hf Hnd. pose proof Hf as (_ & _ & Hrep). simpl in Hnd, Hrep.
  destruct Hrep as (Px & Hx & Lx & Rx & Rl & (Py & Hy & Ly & Ry & (Pz & Hz & Lz & Rz & Ra & Rb) & Rrr)).
  apart_lists. unfold mid_left. replaced h @midmount_left.
Qed.

Lemma set_height_focus h c l x hx r v :
  focus h c (T l x hx r) -> NoDup (elems (T l x hx r) ++ cnodes c) ->
  focus (set_height x v h) c (T l x v r).
Proof.
  intros (Hroot & Hc & Hrep) Hnd. simpl in Hnd, Hrep. destruct Hrep as (Px & Hx & Lx & Rx & Rl & Rr).
  apart_lists. split_and!; [done|..].
  - apply (crep_same h); [|done]. intros z Hz. unfold same_node. split_and!; fields.
  - cbn [rep]. split_and!; try fields; kept h.
Qed.

Lemma nodeplace_focus h c l x hx r :
  focus h c (T l x hx r) -> NoDup (elems (T l x hx r) ++ cnodes c) -> nodeplace_of x h = place_of c.
Proof.
  intros (Hroot & Hc & Hrep) Hnd. unfold nodeplace_of. destruct Hrep as (-> & _).
  destruct c as [|[q hq rq|lq q hq] c]; simpl; [done|..]; unfold NODE_PLACE, IS_LCHILD;
    destruct Hc as [(_ & _ & Hl & _) _]; rewrite Hl; simpl.
  - by rewrite bool_decide_true.
  - rewrite bool_decide_false; [done|]. simpl in Hnd. apart_lists. intros ?. clash.
Qed.

Lemma HEIGHT_OF_ptr h par t : rep h par t -> HEIGHT_OF h (ptr t) = ht t.
Proof. destruct t; simpl; [done|]. by intros (_ & -> & _). Qed.

(** The end of a round that has rotated: [H] describes the new subtree. *)
Ltac rotated H :=
  do 3 wp_step; split; [exact H|];
  let K := fresh in pose proof H as K; destruct K as (_ & _ & (K & _)); exact K.

(** One round of the loop. *)
Lemma rebalance_round_wp h c l x hx r :
  focus h c (T l x hx r) -> NoDup (elems (T l x hx r) ++ cnodes c) ->
  balanced l -> balanced r -> ht l < 2 ^ 30 -> ht r < 2 ^ 30 ->
  wp (rebalance_round x) (fun next h' =>
    let '(t', go) := fix_node (T l x hx r) in
    focus h' c t' /\ next = if (go : bool) then cpar c None else None) h.
Proof.
  intros Hf Hnd Bl Br Sl Sr. pose proof (balanced_ht l Bl) as Pl. pose proof (balanced_ht r Br) as Pr.
  pose proof Hf as (_ & _ & (Px & Hx & Lx & Rx & Rl & Rr)).
  unfold rebalance_round. do 2 wp_step. cbv zeta.
  rewrite (nodeplace_focus h c l x hx r), Lx, Rx, (HEIGHT_OF_ptr h (Some x) l), (HEIGHT_OF_ptr h (Some x) r) by done.
  rewrite !(i32_id (ht _)), !(i32_id (ht _ + 1)) by lia. cbn [fix_node].
  destruct (Z.ltb_spec (ht r + 1) (ht l)) as [Hd|Hd].
  { destruct l as [|ll y hy lr]; [simpl in *; lia|]. simpl in Bl. destruct Bl as (Bll & Blr & Hh & Hb).
    pose proof (balanced_ht _ Bll). pose proof (balanced_ht _ Blr). simpl in Sl.
    destruct Rl as (Py & Hy & Ly & Ry & Rll & Rlr).
    wp_step. wp_step; [done|]. cbv zeta. rewrite Ly, Ry, !(HEIGHT_OF_ptr h (Some y)) by done.
    cbn [lht rht]. destruct (Z.leb_spec (ht lr) (ht ll)).
    - rotated (rotate_right_focus h c ll y hy lr x hx r Hf Hnd ltac:(lia)).
    - destruct lr as [|a z hz b]; [simpl in *; lia|]. wp_step. wp_step; [done|].
      rotated (midmount_right_focus h c ll y hy a z hz b x hx r Hf Hnd). }
  destruct (Z.ltb_spec (ht l + 1) (ht r)) as [Hd'|Hd'].
  { destruct r as [|rl y hy rr]; [simpl in *; lia|]. simpl in Br. destruct Br as (Brl & Brr & Hh & Hb).
    pose proof (balanced_ht _ Brl). pose proof (balanced_ht _ Brr). simpl in Sr.
    destruct Rr as (Py & Hy & Ly & Ry & Rrl & Rrr).
    wp_step. wp_step; [done|]. cbv zeta. rewrite Ly, Ry, !(HEIGHT_OF_ptr h (Some y)) by done.
    cbn [lht rht]. destruct (Z.leb_spec (ht rl) (ht rr)).
    - rotated (rotate_left_focus h c l x hx rl y hy rr Hf Hnd ltac:(lia)).
    - destruct rl as [|a z hz b]; [simpl in *; lia|]. wp_step. wp_step; [done|].
      rotated (midmount_left_focus h c l x hx a z hz b y hy rr Hf Hnd). }
  replace (if ht l <? ht r then ht r else ht l) with (Z.max (ht l) (ht r)) by (case_bool; lia).
  rewrite i32_id, u32_id, Hx by (rewrite ?i32_id; lia). rewrite (Z.add_comm _ 1).
  destruct (Z.eqb_spec (1 + Z.max (ht l) (ht r)) hx).
  - by wp_step.
  - do 3 wp_step. split; [by apply (set_height_focus h c l x hx r)|done].
Qed.
End rebalance.
