(* ===== verification/AvlProp.v ===== *)
(** What the operations of components/utilities/libadt/avl promise: linking a node and
    rebalancing, and removing a node, keep a balanced tree and change its sequence of
    nodes by that node; the iteration functions follow that sequence. *)
From S2P Require Import Prelude Avl AvlTree AvlRep AvlRebalance.
#[local] Open Scope Z_scope.

Section prop.
Context {A : Type} `{EqDecision A}.
Implicit Types (h : avl A) (t l r : tree A) (x y z : A) (f : frame A) (c : list (frame A)).

(** As many nodes as a 32-bit machine can address, at most. *)
Definition fits t : Prop := Z.of_nat (length (elems t)) < 2 ^ 32.

(** Fuel for all the loops over a tree: more than its height. *)
Definition AVL_FUEL : nat := 66.

Lemma avl_fuel t : balanced t -> fits t -> ht t < Z.of_nat AVL_FUEL.
Proof. apply balanced_small. Qed.

Lemma fits_plug_small c t : fits (plug c t) -> balanced t -> ht t < 2 ^ 30.
Proof.
  unfold fits. intros Hs Hb. rewrite elems_plug, !length_app in Hs.
  pose proof (balanced_small t Hb). lia.
Qed.

Lemma fits_fill_small f c t : fits (plug (f :: c) t) -> balanced (fsib f) -> ht (fsib f) < 2 ^ 30.
Proof.
  unfold fits. intros Hs Hb. rewrite elems_plug in Hs.
  assert (Z.of_nat (length (elems (fsib f))) < 2 ^ 32).
  { destruct f; simpl in *; rewrite ?length_app in Hs; simpl in Hs; rewrite ?length_app in Hs; lia. }
  pose proof (balanced_small _ Hb). lia.
Qed.

Lemma focus_fill h f c t : focus h c (fill f t) <-> focus h (f :: c) t.
Proof. unfold focus. simpl. rewrite rep_fill, ptr_fill. tauto. Qed.

Lemma nodup_plug c t : NoDup (elems (plug c t)) -> NoDup (elems t ++ cnodes c).
Proof. by rewrite elems_plug_perm. Qed.

(** One round around a changed hole. *)
Lemma rebalance_round_fill h f c t a :
  focus h (f :: c) t -> NoDup (elems (plug (f :: c) t)) -> fits (plug (f :: c) t) ->
  cfit (f :: c) a -> balanced t -> -1 <= ht t - a <= 1 ->
  wp (rebalance_round (fnode f)) (fun next h' =>
    focus h' c (fix_node (fill f t)).1 /\
    next = if (fix_node (fill f t)).2 then cpar c None else None) h.
Proof.
  intros Hf Hnd Hs Hc Ht Ha. pose proof (fits_plug_small _ _ Hs Ht).
  pose proof (fits_fill_small _ _ _ Hs (proj1 Hc)).
  destruct (fix_fill f c t a Hc Ht Ha) as (l & x & hx & r & Ef & _ & <- & Bl & Br & _ & Hm & _).
  apply focus_fill in Hf. simpl in Hnd. fold (plug c (fill f t)) in Hnd. rewrite Ef in *.
  eapply wp_mono; [apply (rebalance_round_wp h c l x hx r Hf); try done; [by apply nodup_plug|lia..]|].
  intros next h'. cbv beta. by destruct (fix_node (T l x hx r)).
Qed.

Lemma fix_node_fill f c t a : cfit (f :: c) a -> balanced t -> -1 <= ht t - a <= 1 ->
  let t' := (fix_node (fill f t)).1 in
  balanced t' /\ elems t' = elems (fill f t) /\ -1 <= ht t' - (1 + Z.max a (ht (fsib f))) <= 1.
Proof.
  intros Hc Ht Ha.
  destruct (fix_fill f c t a Hc Ht Ha) as (l & x & hx & r & Ef & _ & _ & Bl & Br & Hd & _ & Hn).
  rewrite Ef in *. pose proof (fix_node_spec l x hx r Bl Br Hd) as Hfix.
  destruct (fix_node (T l x hx r)) as [t' go]. by destruct Hfix as (? & ? & _).
Qed.

Lemma elems_plug_congr c t t' : elems t = elems t' -> elems (plug c t) = elems (plug c t').
Proof. intros E. by rewrite !elems_plug, E. Qed.

(** The loop of [util_avl_rebalance], started above a change in the hole of [c]. *)
Lemma rebalance_climb c : forall f t h a fuel,
  focus h (f :: c) t -> NoDup (elems (plug (f :: c) t)) -> fits (plug (f :: c) t) ->
  cfit (f :: c) a -> balanced t -> -1 <= ht t - a <= 1 -> (length c < fuel)%nat ->
  wp (rebalance_loop fuel (fnode f)) (fun _ h' => represents h' (climb t (f :: c)).1) h.
Proof.
  induction c as [|g c IH]; intros f t h a fuel Hf Hnd Hs Hc Ht Ha Hfuel;
    (destruct fuel as [|fuel]; [lia|]); cbn [rebalance_loop];
    wp_step; (eapply wp_mono; [by eapply rebalance_round_fill|]);
    intros next h' (Hf' & ->); pose proof (fix_node_fill _ _ _ _ Hc Ht Ha) as (B & E & Hn);
    cbn [climb]; destruct (fix_node (fill f t)) as [t' go]; cbn [fst snd] in *.
  - assert (represents h' t') by (apply (focus_plug h' [] t'); simpl; [by rewrite E|done]).
    destruct go; by apply wp_ret.
  - assert (E' : elems (plug (g :: c) t') = elems (plug (f :: g :: c) t)) by exact (elems_plug_congr (g :: c) t' (fill f t) E).
    unfold fits in *. rewrite <- E' in Hnd, Hs. destruct go.
    + eapply IH; try done; [apply Hc|simpl in Hfuel; lia].
    + wp_step. by apply focus_plug.
Qed.

(** Rebalancing anywhere in a balanced tree does nothing. *)
Lemma elem_plug t x : x ∈ elems t -> exists c l hx r, t = plug c (T l x hx r).
Proof.
  induction t as [|l IHl y hy r IHr]; simpl; [by intros ?%elem_of_nil|].
  rewrite elem_of_app, elem_of_cons. intros [Hx|[->|Hx]].
  - destruct (IHl Hx) as (c & l' & hx & r' & ->). exists (c ++ [LF y hy r]), l', hx, r'. by rewrite plug_app.
  - by exists [], l, hy, r.
  - destruct (IHr Hx) as (c & l' & hx & r' & ->). exists (c ++ [RF l y hy]), l', hx, r'. by rewrite plug_app.
Qed.

Lemma rebalance_balanced h t p fuel :
  represents h t -> balanced t -> fits t -> (forall x, p = Some x -> x ∈ elems t) -> (0 < fuel)%nat ->
  wp (util_avl_rebalance fuel p) (fun _ h' => represents h' t) h.
Proof.
  intros Hr Hb Hs Hp Hfuel. destruct p as [x|]; [|by apply wp_ret]. cbn [util_avl_rebalance].
  destruct (elem_plug t x) as (c & l & hx & r & ->); [auto|]. pose proof Hr as (_ & _ & Hnd).
  apply focus_plug in Hr; [|done]. apply plug_balanced in Hb as [Hb Hc].
  destruct fuel as [|fuel]; [lia|]. cbn [rebalance_loop]. wp_step.
  pose proof (fits_plug_small c (T l x hx r) Hs Hb) as Hh. pose proof Hb as (Bl & Br & Eh & _).
  pose proof (balanced_ht l Bl). pose proof (balanced_ht r Br). simpl in Hh.
  eapply wp_mono; [eapply rebalance_round_wp; try done; [by apply nodup_plug|lia..]|].
  intros next h'. cbv beta. rewrite fix_node_id by done. intros [Hf' ->]. apply wp_ret. by apply focus_plug.
Qed.

(** What all changes below the hole of a path of a balanced tree come to. *)
Lemma rebalance_up h c t a fuel :
  focus h c t -> NoDup (elems (plug c t)) -> fits (plug c t) -> cok c a -> balanced t ->
  -1 <= ht t - a <= 1 -> (length c < fuel)%nat ->
  wp (util_avl_rebalance fuel (cpar c None)) (fun _ h' => exists t',
    represents h' t' /\ balanced t' /\ elems t' = elems (plug c t)) h.
Proof.
  intros Hf Hnd Hs Hc Ht Ha Hfuel. pose proof (climb_spec c t a Hc Ht Ha) as Hcl.
  destruct c as [|f c]; [apply wp_ret; exists t; split; [by apply (focus_plug h [] t)|done]|].
  cbn [cpar util_avl_rebalance]. eapply wp_mono; [apply (rebalance_climb c f t h a); try done|].
  - by apply cok_cfit.
  - simpl in Hfuel. lia.
  - intros ? h' Hr. exists (climb t (f :: c)).1. split; [done|].
    destruct (climb t (f :: c)) as [t' go]. by destruct Hcl as (? & ? & _).
Qed.

(** * Linking a node *)

Lemma link_focus h c x : focus h c E -> NoDup (cnodes c) -> x ∉ cnodes c ->
  focus (util_avl_link x (cpar c None) (place_of c) h) c (T E x 1 E).
Proof.
  intros Hf Hnd Hx. eapply focus_replace; [exact Hf|done|..].
  - unfold util_avl_link. fields.
  - intros z Hz. unfold only_hole, util_avl_link. split_and!; fields.
  - cbn [rep ptr]. unfold util_avl_link. split_and!; fields.
Qed.

Lemma path_length c t : balanced (plug c t) -> Z.of_nat (length c) <= ht (plug c t).
Proof.
  intros Hb. rewrite ht_plug. apply plug_balanced in Hb as [Hb Hc].
  pose proof (balanced_ht t Hb). pose proof (ctop_low c (ht t) Hc). lia.
Qed.

Lemma link_rebalance_wp h c x fuel :
  represents h (plug c E) -> balanced (plug c E) -> x ∉ elems (plug c E) ->
  Z.of_nat (length (elems (plug c E))) + 1 < 2 ^ 32 -> ht (plug c E) < Z.of_nat fuel ->
  wp (modify (util_avl_link x (cpar c None) (place_of c));; util_avl_rebalance fuel (cpar c None))
    (fun _ h' => exists t, represents h' t /\ balanced t /\ elems t = before c ++ x :: after c) h.
Proof.
  intros Hr Hb Hx Hs Hfuel. pose proof Hr as (_ & _ & Hnd). pose proof (path_length c E Hb).
  apply focus_plug in Hr; [|done]. rewrite elems_plug_perm in Hnd, Hx.
  assert (Hp : elems (plug c (T E x 1 E)) ≡ₚ x :: elems (plug c E)) by (rewrite !elems_plug_perm; simpl; done).
  do 2 wp_step. eapply wp_mono.
  - apply rebalance_up with (t := T E x 1 E) (a := 0).
    + by apply link_focus.
    + rewrite Hp, elems_plug_perm. by constructor.
    + unfold fits. rewrite Hp. simpl. lia.
    + by apply plug_balanced in Hb as [_ Hb].
    + simpl. lia.
    + simpl. lia.
    + lia.
  - intros _ h' (t & ? & ? & E). exists t. by rewrite E, elems_plug.
Qed.

(** * Removing a node *)

(** A path that only goes left. *)
Definition left_path c : Prop := Forall (fun f => match f with LF _ _ _ => True | RF _ _ _ => False end) c.

Lemma left_path_before c : left_path c -> before c = [].
Proof. induction 1 as [|[] c ? ? IH]; simpl; tauto. Qed.

(** The leftmost node of a subtree: the path to it, and that the loops find it. *)
Lemma leftmost_spec t : forall h par n sp fuel,
  rep h par t -> ptr t = Some n -> balanced t -> ht t < Z.of_nat fuel ->
  exists c s hs sr sp', t = plug c (T E s hs sr) /\ left_path c /\
    leftmost fuel n h = Some s /\ cpar c (Some sp) = Some sp' /\
    successor_loop fuel sp n h = Some (sp', s).
Proof.
  induction t as [|l IHl x hx r _]; intros h par n sp fuel; [done|].
  cbn [ptr rep]. intros (_ & _ & Hl & _ & Rl & _) [= <-] Hb Hfuel.
  pose proof (balanced_pos _ _ _ _ Hb) as Hp. cbn [ht] in Hfuel. destruct fuel as [|fuel]; [lia|].
  cbn [leftmost successor_loop]. rewrite Hl. destruct l as [|ll y hy lr].
  - exists [], x, hx, r, sp. repeat split; try done. by constructor.
  - cbn [ptr]. destruct Hb as (Bl & Br & Hh & _).
    assert (Hf : ht (T ll y hy lr) < Z.of_nat fuel) by (pose proof (balanced_ht r Br); simpl in *; lia).
    destruct (IHl h (Some x) y x fuel Rl eq_refl Bl Hf) as (c & s & hs & sr & sp' & -> & Hc & E1 & E2 & E3).
    exists (c ++ [LF x hx r]), s, hs, sr, sp'. rewrite plug_app. split_and!; try done.
    + apply Forall_app. by repeat constructor.
    + by destruct c.
Qed.

Lemma unlink_leaf_focus h c l x hx :
  focus h c (T l x hx E) -> NoDup (elems (T l x hx E) ++ cnodes c) ->
  focus (unlink_leaf x (place_of c) h) c l /\ parent (unlink_leaf x (place_of c) h) x = cpar c None.
Proof.
  intros Hf Hnd. pose proof Hf as (_ & _ & (Px & Hx & Lx & Rx & Rl & _)). simpl in Hnd. apart_lists.
  split; [|unfold unlink_leaf; fields]. eapply focus_replace; [exact Hf|done|..].
  - unfold unlink_leaf. fields.
  - intros z Hz. unfold only_hole, unlink_leaf. split_and!; fields.
  - unfold unlink_leaf. moved h.
Qed.

Lemma unlink_rchild_focus h c l x hx y hy rr :
  focus h c (T l x hx (T E y hy rr)) -> NoDup (elems (T l x hx (T E y hy rr)) ++ cnodes c) ->
  focus (unlink_rchild x y (place_of c) h) c (T l y hy rr).
Proof.
  intros Hf Hnd. pose proof Hf as (_ & _ & (Px & Hx & Lx & Rx & Rl & (Py & Hy & Ly & Ry & _ & Rrr))).
  simpl in Hnd. apart_lists. eapply focus_replace; [exact Hf|done|..].
  - unfold unlink_rchild. fields.
  - intros z Hz. unfold only_hole, unlink_rchild. split_and!; fields.
  - cbn [rep ptr]. unfold unlink_rchild. split_and!; try fields; first [kept h|moved h].
Qed.

Lemma focus_app h c1 c2 t : focus h c2 (plug c1 t) <-> focus h (c1 ++ c2) t.
Proof.
  revert t. induction c1 as [|f c1 IH]; intros t; [done|]. simpl. fold (plug c1 (fill f t)).
  by rewrite IH, focus_fill.
Qed.

Lemma tptr_in c p z : c <> [] -> tptr c p = Some z -> z ∈ cnodes c.
Proof.
  revert p. induction c as [|f c IH]; intros p Hne; [done|]. simpl. fold (tptr c (Some (fnode f))).
  destruct c as [|g c]; [intros [= ->]; left|].
  intros E. right. apply elem_of_app. right. by eapply IH.
Qed.

Lemma tptr_some c p p' : c <> [] -> tptr c p = tptr c p'.
Proof. by destruct c. Qed.

Lemma unlink_successor_wp h c l x hx cp s hs sr sp :
  focus h c (T l x hx (plug cp (T E s hs sr))) ->
  NoDup (elems (T l x hx (plug cp (T E s hs sr))) ++ cnodes c) -> place_of cp = AtLeft sp ->
  wp (unlink_successor x sp s (place_of c)) (fun _ h' => focus h' (cp ++ RF l s hs :: c) sr) h.
Proof.
  intros Hf Hnd Hsp. pose proof Hf as (_ & _ & (Px & Hx & Lx & Rx & Rl & Rr)).
  apply rep_plug in Rr as [Hcp (Ps & Hs & Ls & Rs & _ & Rsr)].
  assert (Hne : cp <> []) by (by destruct cp).
  assert (Hrc : exists rc, tptr cp None = Some rc).
  { destruct cp as [|f cp]; [done|]. simpl. clear. revert f. induction cp; simpl; eauto. }
  destruct Hrc as [rc Hrc]. rewrite ptr_plug, (tptr_some cp _ None), Hrc in Rx by done.
  pose proof (tptr_in _ _ _ Hne Hrc) as Hrcin. pose proof (place_of_left _ _ Hsp) as Hspin.
  assert (Hnd' : NoDup (elems l ++ x :: (s :: elems sr ++ cnodes cp) ++ cnodes c)).
  { simpl in Hnd. by rewrite <- app_assoc, <- app_comm_cons, elems_plug_perm in Hnd. }
  assert (Hcp1 : crep (write_place (place_of cp) (ptr sr) h) (Some x) cp (ptr sr)).
  { eapply (crep_hole h); [|intros z Hz; unfold only_hole; by autorewrite with avl|exact Hcp].
    apart_lists. done. }
  assert (Hcpar : forall top, cpar cp top = Some sp) by (intros top; destruct cp as [|[] cp]; naive_solver).
  rewrite Hsp in Hcp1. clear Hnd Hcp Hsp. apart_lists. unfold unlink_successor.
  repeat wp_step; [instantiate (1 := rc); fields|].
  apply focus_app, focus_fill. cbn [fill].
  eapply focus_replace; [exact Hf|done|fields| |].
  - intros z Hz. unfold only_hole. cbn [ptr]. split_and!; fields.
  - cbn [rep]. rewrite ptr_plug, (tptr_some cp _ None), Hrc by done.
    do 4 (split; [fields|]). split; [moved h|].
    apply rep_plug. rewrite Hcpar. split.
    + eapply crep_top; [done| |exact Hcp1]. rewrite Hrc. intros z Hz. unfold same_node. split_and!; fields.
    + moved h.
Qed.

Lemma represents_parent h t x : represents h t -> x ∈ elems t ->
  forall y, parent h x = Some y -> y ∈ elems t.
Proof.
  intros Hr Hx y Hy. destruct (elem_plug t x Hx) as (c & l & hx & r & ->).
  pose proof Hr as (_ & _ & Hnd). apply focus_plug in Hr as (_ & _ & (Px & _)); [|done].
  rewrite elems_plug_perm. apply elem_of_app. right. destruct c as [|f c]; simpl in *; [congruence|].
  rewrite Px in Hy. simplify_eq. left.
Qed.

(** Rebalancing from [x], whose height may be stale, and then once more from its parent. *)
Lemma rebalance_twice h c l x hx r a fuel :
  focus h c (T l x hx r) -> NoDup (elems (plug c (T l x hx r))) -> fits (plug c (T l x hx r)) ->
  balanced l -> balanced r -> -1 <= a - ht l <= 1 -> -1 <= ht r - a <= 1 ->
  cok c (1 + Z.max a (ht l)) -> (length c < fuel)%nat ->
  wp (util_avl_rebalance fuel (Some x);; node ← gets (fun h => parent h x); util_avl_rebalance fuel node)
    (fun _ h' => exists t', represents h' t' /\ balanced t' /\ elems t' = elems (plug c (T l x hx r))) h.
Proof.
  intros Hf Hnd Hs Bl Br Hal Har Hc Hfuel. apply (focus_fill h (RF l x hx)) in Hf.
  assert (Hfit : cfit (RF l x hx :: c) a) by (split; [done|split; [simpl; lia|by apply cok_cfit]]).
  wp_step. cbn [util_avl_rebalance].
  eapply wp_mono; [by apply (rebalance_climb c (RF l x hx) r h a)|]. cbv beta. intros _ h1 Hr.
  wp_step. apply wp_gets. pose proof (fix_node_fill _ _ _ _ Hfit Br Har) as (B & El & Hn).
  cbn [climb fill] in *. pose proof (fix_node_spec l x hx r Bl Br ltac:(lia)) as Hfix.
  destruct (fix_node (T l x hx r)) as [t' go]. cbn [fst fsib] in *. destruct Hfix as (_ & _ & M & N & Hg).
  pose proof (elems_plug_congr c t' (T l x hx r) El) as Eall. destruct go.
  - pose proof (climb_spec c t' _ Hc B Hn) as Hcl. destruct (climb t' c) as [w g]. cbn [fst] in Hr.
    destruct Hcl as (Bw & Ew & _). rewrite Eall in Ew. eapply wp_mono.
    + apply (rebalance_balanced h1 w); try done; [unfold fits; by rewrite Ew| |lia].
      apply (represents_parent h1 w x); [done|]. rewrite Ew, elems_plug. simpl. set_solver.
    + cbv beta. intros _ h2 Hr2. exists w. done.
  - rewrite (Hg eq_refl) in *. cbn [fst] in Hr. apply focus_plug in Hr; [|done].
    pose proof Hr as (_ & _ & (-> & _)). by eapply rebalance_up.
Qed.

(** Rebalancing below the node [s] that replaces the removed one, whose height is that of
    its former place, and then from [s] itself. *)
Lemma rebalance_below h c cp l s hs sr sp fuel :
  focus h (cp ++ RF l s hs :: c) sr -> NoDup (elems (plug (cp ++ RF l s hs :: c) sr)) ->
  fits (plug (cp ++ RF l s hs :: c) sr) -> cpar cp None = Some sp ->
  balanced l -> balanced sr -> cok cp hs -> -1 <= ht sr - hs <= 1 -> hs < ctop cp hs ->
  -1 <= ctop cp hs - ht l <= 1 -> cok c (1 + Z.max (ctop cp hs) (ht l)) ->
  (length (cp ++ RF l s hs :: c) < fuel)%nat ->
  wp (util_avl_rebalance fuel (Some sp);; util_avl_rebalance fuel (Some s))
    (fun _ h' => exists t', represents h' t' /\ balanced t' /\
      elems t' = elems (plug (cp ++ RF l s hs :: c) sr)) h.
Proof.
  intros Hf Hnd Hs Hsp Bl Br Hcp Hd Hlow Hl Hc Hfuel. destruct cp as [|f cp]; [done|].
  injection Hsp as <-. rewrite length_app in Hfuel. simpl in Hfuel.
  pose proof (climb_spec (f :: cp) sr hs Hcp Br Hd) as Hcl.
  assert (Hfit : cfit ((f :: cp) ++ RF l s hs :: c) hs).
  { apply cfit_app; [done|]. split; [done|]. split; [done|]. by apply cok_cfit. }
  wp_step. cbn [util_avl_rebalance]. eapply wp_mono.
  { apply (rebalance_climb (cp ++ RF l s hs :: c) f sr h hs); try done. rewrite length_app. simpl. lia. }
  cbv beta. intros _ h1 Hr. change (f :: cp ++ RF l s hs :: c) with ((f :: cp) ++ RF l s hs :: c) in Hr.
  rewrite climb_app in Hr. rewrite plug_app in *.
  set (r0 := plug (f :: cp) sr) in *. destruct (climb sr (f :: cp)) as [r' g1].
  destruct Hcl as (B & El & Hn & Hg). set (a := ctop (f :: cp) hs) in *.
  pose proof (elems_plug_congr (RF l s hs :: c) r' r0 El) as Eall.
  pose proof (climb_stale (RF l s hs) c r' a Bl Hl Hc B Hn) as Hst. cbn [fht fsib] in Hst.
  destruct g1; cbn [fst] in Hr.
  - destruct Hst as [Bw Ew]; [lia|]. rewrite Eall in Ew. eapply wp_mono.
    + apply (rebalance_balanced h1 (climb r' (RF l s hs :: c)).1 (Some s)); [exact Hr|done|unfold fits; by rewrite Ew| |lia].
      intros y [= <-]. rewrite Ew, elems_plug. simpl. set_solver.
    + cbv beta. intros _ h2 Hr2. by eexists.
  - destruct Hst as [Bw Ew]; [rewrite Hg by done; lia|]. rewrite Eall in Ew.
    unfold fits in Hs. rewrite <- Eall in Hnd, Hs. apply focus_plug in Hr; [|done].
    eapply wp_mono.
    + apply (rebalance_climb c (RF l s hs) r' h1 a); try done; [|lia].
      split; [done|]. split; [done|]. by apply cok_cfit.
    + cbv beta. intros _ h2 Hr2. by eexists.
Qed.

Lemma elems_without c l x hx r :
  elems (plug c (T l x hx r)) ≡ₚ x :: before c ++ (elems l ++ elems r) ++ after c.
Proof. rewrite elems_plug. simpl. solve_Permutation. Qed.

Lemma unlinked c l x hx r t :
  NoDup (elems (plug c (T l x hx r))) -> fits (plug c (T l x hx r)) -> elems t = elems l ++ elems r ->
  NoDup (elems (plug c t)) /\ fits (plug c t).
Proof.
  unfold fits. rewrite !elems_without, elems_plug. intros [_ Hnd]%NoDup_cons Hs ->.
  simpl in Hs. split; [done|lia].
Qed.

(** * The three cases of the removal, after the choice of [nodeplace] *)

Record removable h c l x hx r (fuel : nat) : Prop := {
  rm_focus : focus h c (T l x hx r);
  rm_nodup : NoDup (elems (plug c (T l x hx r)));
  rm_fits : fits (plug c (T l x hx r));
  rm_balanced : balanced (plug c (T l x hx r));
  rm_fuel : ht (plug c (T l x hx r)) < Z.of_nat fuel }.

Definition removed c l r h : Prop := exists t,
  represents h t /\ balanced t /\ elems t = before c ++ (elems l ++ elems r) ++ after c.

Lemma removable_facts h c l x hx r fuel : removable h c l x hx r fuel ->
  balanced l /\ balanced r /\ hx = 1 + Z.max (ht l) (ht r) /\
  -1 <= ht l - ht r <= 1 /\ cok c hx /\ (length c < fuel)%nat.
Proof.
  intros [_ _ _ Hb Hfuel]. pose proof (path_length c _ Hb) as Hlen.
  apply plug_balanced in Hb as [(Bl & Br & Hhx & Hd) Hc]. split_and!; try done; lia.
Qed.

Lemma remove_leaf_wp h c l x hx fuel : removable h c l x hx E fuel ->
  wp (util_avl_rebalance fuel (parent (unlink_leaf x (place_of c) h) x)) (fun _ => removed c l E)
    (unlink_leaf x (place_of c) h).
Proof.
  intros Hrm. destruct (removable_facts _ _ _ _ _ _ _ Hrm) as (Bl & Br & Hhx & Hd & Hc & Hfl).
  destruct Hrm as [Hf Hnd Hs Hb Hfuel].
  destruct (unlink_leaf_focus h c l x hx Hf) as [Hf' ->]; [by apply nodup_plug|].
  destruct (unlinked c l x hx E l Hnd Hs) as [Hnd' Hs']; [by rewrite app_nil_r|].
  pose proof (balanced_ht l Bl). simpl in Hhx, Hd.
  eapply wp_mono; [apply (rebalance_up _ c l hx); try done; lia|].
  cbv beta. intros _ h' (t & ? & ? & El). exists t. by rewrite El, elems_plug, app_nil_r.
Qed.

Lemma remove_rchild_wp h c l x hx y hy rr fuel : removable h c l x hx (T E y hy rr) fuel ->
  wp (util_avl_rebalance fuel (Some y);; node ← gets (fun h => parent h y); util_avl_rebalance fuel node)
    (fun _ => removed c l (T E y hy rr)) (unlink_rchild x y (place_of c) h).
Proof.
  intros Hrm. destruct (removable_facts _ _ _ _ _ _ _ Hrm) as (Bl & (_ & Brr & Hy & Hdy) & Hhx & Hd & Hc & Hfl).
  destruct Hrm as [Hf Hnd Hs Hb Hfuel]. simpl in Hy, Hdy, Hhx, Hd. pose proof (balanced_ht rr Brr).
  pose proof (unlink_rchild_focus h c l x hx y hy rr Hf (nodup_plug _ _ Hnd)) as Hf'.
  destruct (unlinked c l x hx (T E y hy rr) (T l y hy rr) Hnd Hs) as [Hnd' Hs']; [done|].
  eapply wp_mono; [apply (rebalance_twice _ c l y hy rr hy); try done; [lia|lia|]|].
  - by rewrite (Z.max_comm hy), <- Hhx.
  - cbv beta. intros _ h' (t & ? & ? & El). exists t. by rewrite El, elems_plug.
Qed.

Lemma remove_successor_wp h c l x hx cp s hs sr sp fuel :
  removable h c l x hx (plug cp (T E s hs sr)) fuel -> left_path cp -> cpar cp None = Some sp ->
  wp (unlink_successor x sp s (place_of c);; util_avl_rebalance fuel (Some sp);; util_avl_rebalance fuel (Some s))
    (fun _ => removed c l (plug cp (T E s hs sr))) h.
Proof.
  intros Hrm Hleft Hsp. destruct (removable_facts _ _ _ _ _ _ _ Hrm) as (Bl & Br & Hhx & Hd & Hc & Hfl).
  destruct Hrm as [Hf Hnd Hs Hb Hfuel].
  pose proof Br as Br'. rewrite ht_plug in *. apply plug_balanced in Br' as [(_ & Bsr & Hhs & Hds) Hcp].
  assert (Hpl : place_of cp = AtLeft sp).
  { destruct Hleft as [|[] ? ?]; simpl in *; try done. by injection Hsp as ->. }
  wp_step. eapply wp_mono; [apply (unlink_successor_wp h c l x hx cp s hs sr sp Hf (nodup_plug _ _ Hnd) Hpl)|].
  cbv beta. intros _ h1 Hf1.
  assert (Hel : elems (plug (cp ++ RF l s hs :: c) sr) = before c ++ (elems l ++ elems (plug cp (T E s hs sr))) ++ after c).
  { rewrite plug_app, !elems_plug. simpl. rewrite (left_path_before cp) by done. by list_simplifier. }
  cbn [ht] in *. pose proof (balanced_ht _ Bsr). pose proof (ctop_low cp hs Hcp ltac:(simpl in *; lia)) as Hlow.
  assert (length cp <> O) by (by destruct cp).
  destruct (unlinked c l x hx (plug cp (T E s hs sr)) (T l s hs (plug cp sr)) Hnd Hs) as [Hnd' Hs'].
  { simpl. rewrite !elems_plug, (left_path_before cp) by done. done. }
  pose proof (ctop_low c hx Hc ltac:(lia)). rewrite plug_app in Hel.
  eapply wp_mono; [apply (rebalance_below h1 c cp l s hs sr sp); rewrite ?plug_app; try done; try lia|].
  - by rewrite Z.max_comm, <- Hhx.
  - rewrite length_app. simpl. lia.
  - cbv beta. intros _ h2 (t & ? & ? & El). exists t. by rewrite El, plug_app.
Qed.

(** [util_avl_remove] of any node of a balanced tree. *)
Lemma util_avl_remove_wp h c l x hx r fuel :
  represents h (plug c (T l x hx r)) -> balanced (plug c (T l x hx r)) ->
  fits (plug c (T l x hx r)) -> ht (plug c (T l x hx r)) < Z.of_nat fuel ->
  wp (util_avl_remove fuel x) (fun _ => removed c l r) h.
Proof.
  intros Hr Hb Hs Hfuel. pose proof Hr as (Hroot & _ & Hnd). pose proof Hr as Hf.
  apply focus_plug in Hf; [|done]. pose proof (nodup_plug _ _ Hnd) as Hnd'.
  assert (Hrm : removable h c l x hx r fuel) by done.
  pose proof (removable_facts _ _ _ _ _ _ _ Hrm) as (Bl & Br & Hhx & Hd & Hc & Hfl).
  pose proof Hf as (_ & _ & (Px & Hx & Lx & Rx & Rl & Rr)).
  assert (Hne : exists z, root_node h = Some z).
  { rewrite Hroot, ptr_plug. clear. simpl ptr. generalize (x). induction c; simpl; eauto. }
  destruct Hne as [z Hz]. unfold util_avl_remove. do 2 wp_step. rewrite Hz, Rx.
  rewrite (nodeplace_focus h c l x hx r) by done. wp_step.
  destruct r as [|rl y hy rr]; cbn [ptr]; [do 3 wp_step; by apply remove_leaf_wp in Hrm|].
  destruct Rr as (_ & _ & Ly & _ & Rrl & _). rewrite Ly. destruct rl as [|sl s0 hs0 sr0]; cbn [ptr].
  - apply remove_rchild_wp, wp_bind_inv in Hrm. do 3 wp_step.
    eapply wp_mono; [exact Hrm|]. cbv beta. intros _ h' Hk. by apply wp_bind_inv in Hk.
  - destruct Br as (Brl & Brr & Hhy & _). rewrite ht_plug in Hfuel.
    assert (Hfu : ht (T sl s0 hs0 sr0) < Z.of_nat fuel).
    { pose proof (balanced_ht _ Brl). pose proof (balanced_ht _ Brr). pose proof (balanced_ht _ Bl).
      pose proof (ctop_low c hx Hc). simpl in *. lia. }
    destruct (leftmost_spec _ h _ s0 y fuel Rrl eq_refl Brl Hfu) as (cp & s & hs & sr & sp & Es & Hleft & _ & Hsp & Hl).
    rewrite Hl. wp_step. wp_step; [done|]. cbn [fst snd].
    assert (Es' : T (T sl s0 hs0 sr0) y hy rr = plug (cp ++ [LF y hy rr]) (T E s hs sr)) by (by rewrite Es, plug_app).
    rewrite Es' in Hrm |- *. apply (remove_successor_wp _ _ _ _ _ _ _ _ _ sp) in Hrm.
    + apply wp_bind_inv in Hrm. wp_step. eapply wp_mono; [exact Hrm|]. cbv beta. intros _ h1 Hk.
      apply wp_bind_inv in Hk. wp_step. eapply wp_mono; [exact Hk|]. cbv beta. intros _ h2 Hk2. by wp_step.
    + apply Forall_app. split; [done|by repeat constructor].
    + destruct cp; simpl in *; congruence.
Qed.

(** * Iteration *)

Lemma leftmost_head t h par n fuel : rep h par t -> ptr t = Some n -> balanced t -> ht t < Z.of_nat fuel ->
  leftmost fuel n h = head (elems t).
Proof.
  intros Hr Hn Hb Hf. destruct (leftmost_spec t h par n n fuel Hr Hn Hb Hf)
    as (c & s & hs & sr & sp & -> & Hleft & -> & _).
  by rewrite elems_plug, (left_path_before c).
Qed.

Lemma rightmost_last t : forall h par n fuel,
  rep h par t -> ptr t = Some n -> balanced t -> ht t < Z.of_nat fuel -> rightmost fuel n h = last (elems t).
Proof.
  induction t as [|l _ x hx r IHr]; intros h par n fuel; [done|].
  cbn [ptr rep]. intros (_ & _ & _ & Hr & _ & Rr) [= <-] Hb Hfuel.
  pose proof (balanced_pos _ _ _ _ Hb) as Hp. cbn [ht] in Hfuel. destruct fuel as [|fuel]; [lia|].
  cbn [rightmost elems]. rewrite Hr. destruct r as [|rl y hy rr]; [simpl; by rewrite last_snoc|].
  cbn [ptr]. destruct Hb as (Bl & Br & Hh & _). rewrite (IHr h (Some x) y fuel Rr eq_refl Br).
  - rewrite last_app, last_cons. cbn [elems]. rewrite last_app, last_cons. by destruct (last (elems rr)).
  - pose proof (balanced_ht l Bl). simpl in *. lia.
Qed.

(** Leaving right subtrees from the hole of a path ends at the node after it. *)
Lemma climb_from_right_after c : forall h n fuel, crep h None c (Some n) -> parent h n = cpar c None ->
  NoDup (cnodes c) -> n ∉ cnodes c -> (length c < fuel)%nat ->
  climb_from_right fuel n h = Some (head (after c)).
Proof.
  induction c as [|f c IH]; intros h n fuel Hc Hp Hnd Hn Hfuel; (destruct fuel as [|fuel]; [simpl in *; lia|]);
    cbn [climb_from_right]; rewrite Hp; [done|]. destruct Hc as [Hf Hc]. simpl in Hnd, Hn, Hfuel.
  destruct f as [q hq r|l q hq]; destruct Hf as (Hq & _ & Hl & Hr & _); cbn [cpar fnode fsib] in *; rewrite Hr.
  - rewrite decide_False; [done|]. apart_lists. intros ?. clash.
  - rewrite decide_True by done. apart_lists. apply IH; try done. lia.
Qed.

Lemma climb_from_left_before c : forall h n fuel, crep h None c (Some n) -> parent h n = cpar c None ->
  NoDup (cnodes c) -> n ∉ cnodes c -> (length c < fuel)%nat ->
  climb_from_left fuel n h = Some (last (before c)).
Proof.
  induction c as [|f c IH]; intros h n fuel Hc Hp Hnd Hn Hfuel; (destruct fuel as [|fuel]; [simpl in *; lia|]);
    cbn [climb_from_left]; rewrite Hp; [done|]. destruct Hc as [Hf Hc]. simpl in Hnd, Hn, Hfuel.
  destruct f as [q hq r|l q hq]; destruct Hf as (Hq & _ & Hl & Hr & _); cbn [cpar fnode fsib] in *; rewrite Hl.
  - rewrite decide_True by done. apart_lists. apply IH; try done. lia.
  - rewrite decide_False; [cbn [before]; by rewrite app_assoc, last_snoc|]. apart_lists. intros ?. clash.
Qed.

Lemma util_avl_first_eq h t fuel : represents h t -> balanced t -> ht t < Z.of_nat fuel ->
  util_avl_first fuel h = Some (head (elems t)).
Proof.
  intros (Hroot & Hr & _) Hb Hf. unfold util_avl_first. rewrite Hroot.
  destruct (ptr t) as [n|] eqn:Hn; [|by destruct t].
  rewrite (leftmost_head t h None n fuel) by done. destruct t as [|l x hx r]; [done|].
  simpl. by destruct (elems l).
Qed.

Lemma util_avl_last_eq h t fuel : represents h t -> balanced t -> ht t < Z.of_nat fuel ->
  util_avl_last fuel h = Some (last (elems t)).
Proof.
  intros (Hroot & Hr & _) Hb Hf. unfold util_avl_last. rewrite Hroot.
  destruct (ptr t) as [n|] eqn:Hn; [|by destruct t].
  rewrite (rightmost_last t h None n fuel) by done. destruct t as [|l x hx r]; [done|].
  cbn [elems]. rewrite last_app, last_cons. by destruct (last (elems r)).
Qed.

Lemma avl_next_wp h c l x hx r fuel :
  represents h (plug c (T l x hx r)) -> balanced (plug c (T l x hx r)) ->
  ht (plug c (T l x hx r)) < Z.of_nat fuel ->
  util_avl_next fuel (Some x) h = Some (head (elems r ++ after c)).
Proof.
  intros Hrep Hb Hfuel. pose proof Hrep as (_ & _ & Hnd). pose proof (path_length c _ Hb).
  apply focus_plug in Hrep as (_ & Hc & (Hp & _ & _ & Hr & _ & Rr)); [|done].
  pose proof (nodup_plug _ _ Hnd) as Hnd'. simpl in Hnd'. unfold util_avl_next. rewrite Hr.
  destruct r as [|rl y hy rr]; cbn [ptr].
  - apart_lists. rewrite climb_from_right_after with (c := c); try done. lia.
  - apply plug_balanced in Hb as [Hb' Hcok]. pose proof Hb' as (Bl & Br & Hh & _).
    rewrite (leftmost_head _ h (Some x) y fuel Rr); try done; [simpl; by destruct (elems rl)|].
    rewrite ht_plug in Hfuel. pose proof (balanced_ht _ Br). pose proof (balanced_ht _ Bl).
    pose proof (ctop_low c hx Hcok ltac:(lia)). simpl in *. lia.
Qed.

Lemma avl_prev_wp h c l x hx r fuel :
  represents h (plug c (T l x hx r)) -> balanced (plug c (T l x hx r)) ->
  ht (plug c (T l x hx r)) < Z.of_nat fuel ->
  util_avl_prev fuel (Some x) h = Some (last (before c ++ elems l)).
Proof.
  intros Hrep Hb Hfuel. pose proof Hrep as (_ & _ & Hnd). pose proof (path_length c _ Hb).
  apply focus_plug in Hrep as (_ & Hc & (Hp & _ & Hl & _ & Rl & _)); [|done].
  pose proof (nodup_plug _ _ Hnd) as Hnd'. simpl in Hnd'. unfold util_avl_prev. rewrite Hl.
  destruct l as [|ll y hy lr]; cbn [ptr].
  - simpl in Hnd'. apart_lists. rewrite climb_from_left_before with (c := c); try done; [by rewrite app_nil_r|lia].
  - apply plug_balanced in Hb as [Hb' Hcok]. pose proof Hb' as (Bl & Br & Hh & _).
    rewrite (rightmost_last _ h (Some x) y fuel Rl); try done.
    + cbn [elems]. rewrite !last_app, last_cons. by destruct (last (elems lr)).
    + rewrite ht_plug in Hfuel. pose proof (balanced_ht _ Br). pose proof (balanced_ht _ Bl).
      pose proof (ctop_low c hx Hcok ltac:(lia)). simpl in *. lia.
Qed.

Lemma elems_split c l x hx r i : NoDup (elems (plug c (T l x hx r))) ->
  elems (plug c (T l x hx r)) !! i = Some x -> i = length (before c ++ elems l).
Proof.
  intros Hnd Hi. eapply NoDup_lookup; [exact Hnd|exact Hi|].
  rewrite elems_plug. simpl. rewrite <- app_assoc, app_assoc. by apply list_lookup_middle.
Qed.

(** The neighbours of the [i]-th node. *)
Lemma util_avl_next_prev h t fuel i x :
  represents h t -> balanced t -> ht t < Z.of_nat fuel -> elems t !! i = Some x ->
  util_avl_next fuel (Some x) h = Some (elems t !! S i) /\
  util_avl_prev fuel (Some x) h = Some (match i with O => None | S j => elems t !! j end).
Proof.
  intros Hr Hb Hf Hi. destruct (elem_plug t x) as (c & l & hx & r & ->); [by eapply list_elem_of_lookup_2|].
  rewrite (avl_next_wp h c l x hx r), (avl_prev_wp h c l x hx r) by done.
  pose proof Hr as (_ & _ & Hnd). pose proof (elems_split c l x hx r i Hnd Hi) as Ei.
  assert (Es : elems (plug c (T l x hx r)) = (before c ++ elems l) ++ x :: elems r ++ after c).
  { rewrite elems_plug. simpl. by list_simplifier. }
  rewrite Es. clear -Ei. set (b := before c ++ elems l) in *. clearbody b. subst i.
  set (a := elems r ++ after c). clearbody a. split; f_equal.
  - rewrite lookup_app_r by lia. replace (S (length b) - length b)%nat with 1%nat by lia. by destruct a.
  - rewrite last_lookup. destruct (length b) as [|j] eqn:E; simpl.
    + by destruct b.
    + rewrite lookup_app_l by lia. done.
Qed.
End prop.

(** * The two operations on whole trees *)

Section theorems.
Context {A : Type} `{EqDecision A}.
Implicit Types (h : avl A) (t : tree A) (x : A) (c : list (frame A)).

(** C26: Linking a node at an empty place of a balanced tree ([util_avl_link]) and
    rebalancing from its parent ([util_avl_rebalance]) ends, and the memory then represents
    a balanced tree whose nodes from left to right are the old ones with the new one at
    that place; parent pointers and stored heights are right throughout. *)
Theorem avl_insert_balances h c x :
  represents h (plug c E) -> balanced (plug c E) -> x ∉ elems (plug c E) ->
  Z.of_nat (length (elems (plug c E))) + 1 < 2 ^ 32 ->
  wp (modify (util_avl_link x (cpar c None) (place_of c));; util_avl_rebalance AVL_FUEL (cpar c None))
    (fun _ h' => exists t, represents h' t /\ balanced t /\ elems t = before c ++ x :: after c) h.
Proof.
  intros Hr Hb Hx Hn. apply link_rebalance_wp; try done. apply avl_fuel; [done|]. unfold fits. lia.
Qed.

(** C27: [util_avl_remove] of any node of a balanced tree ends, through each of its three
    cases and its one or two rebalancings, and the memory then represents a balanced tree
    with the same nodes in the same order without the removed one. *)
Theorem avl_remove_balances h t x :
  represents h t -> balanced t -> fits t -> x ∈ elems t ->
  wp (util_avl_remove AVL_FUEL x) (fun _ h' => exists t' l1 l2,
    represents h' t' /\ balanced t' /\ elems t = l1 ++ x :: l2 /\ elems t' = l1 ++ l2) h.
Proof.
  intros Hr Hb Hs Hx. destruct (elem_plug t x Hx) as (c & l & hx & r & ->).
  eapply wp_mono; [apply (util_avl_remove_wp h c l x hx r AVL_FUEL); try done; by apply avl_fuel|].
  cbv beta. intros _ h' (t' & ? & ? & El). exists t', (before c ++ elems l), (elems r ++ after c).
  rewrite elems_plug, El. simpl. split_and!; try done; by list_simplifier.
Qed.
End theorems.

(** Nodes 1 to 4, 2 at the root, 3 to the right of it, 4 to the right of 3. *)
Definition some_tree : tree nat :=
  T (T E 1%nat 1 E) 2%nat 3 (T E 3%nat 2 (T E 4%nat 1 E)).
Definition some_memory : avl nat :=
  mk_avl (fun n => if decide (n = 2%nat) then Some 1%nat else None)
    (fun n => if decide (n = 2%nat) then Some 3%nat else if decide (n = 3%nat) then Some 4%nat else None)
    (fun n => if decide (n = 1%nat) then Some 2%nat else if decide (n = 3%nat) then Some 2%nat
              else if decide (n = 4%nat) then Some 3%nat else None)
    (fun n => if decide (n = 2%nat) then 3 else if decide (n = 3%nat) then 2 else 1)
    (Some 2%nat).

Lemma some_tree_ok : represents some_memory some_tree /\ balanced some_tree.
Proof.
  split; [split; [done|split]|]; [repeat split| |simpl; lia].
  simpl. repeat constructor; set_solver.
Qed.

(** A fifth node behind the fourth makes the third one rotate. *)
Lemma avl_insert_balances_witness :
  let c := [RF E 4%nat 1; RF E 3%nat 2; RF (T E 1%nat 1 E) 2%nat 3] in
  wp (modify (util_avl_link 5%nat (cpar c None) (place_of c));; util_avl_rebalance AVL_FUEL (cpar c None))
    (fun _ h' => exists t, represents h' t /\ balanced t /\ elems t = before c ++ 5%nat :: after c) some_memory.
Proof.
  intros c. apply (avl_insert_balances some_memory c 5%nat).
  - apply some_tree_ok.
  - apply some_tree_ok.
  - simpl. set_solver.
  - simpl. lia.
Defined.

(** Removing the first node makes the root rotate. *)
Lemma avl_remove_balances_witness :
  wp (util_avl_remove AVL_FUEL 1%nat) (fun _ h' => exists t' l1 l2,
    represents h' t' /\ balanced t' /\ elems some_tree = l1 ++ 1%nat :: l2 /\ elems t' = l1 ++ l2) some_memory.
Proof.
  apply (avl_remove_balances some_memory some_tree 1%nat).
  - apply some_tree_ok.
  - apply some_tree_ok.
  - unfold fits. simpl. lia.
  - simpl. set_solver.
Defined.
