(* ===== verification/Aspace.v ===== *)
(** The tree of virtual-address regions of components/mm: avl_adpt.c on top of the AVL
    trees, with the regions of mm_aspace.h.  The tree holds the regions in the order of
    their addresses; searching, inserting and removing are shown to do what a sorted list
    of regions that do not overlap does. *)
From stdpp Require Import sorting.
From S2P Require Import Prelude Avl AvlTree AvlRep AvlRebalance AvlProp.
#[local] Open Scope Z_scope.

(** * Regions and address spaces *)

(** [struct rt_varea] of every region ([Ob] are memory objects) and [struct rt_aspace];
    the embedded [node] of a region is the region's node in [tree]. *)
Record aspace (V Ob : Type) := mk_aspace {
  tree : avl V;
  v_start : V -> Z; v_size : V -> Z; v_offset : V -> Z; v_attr : V -> Z; v_flag : V -> Z;
  v_obj : V -> option Ob;
  as_start : Z; as_size : Z }.
Arguments mk_aspace {V Ob}.
Arguments tree {V Ob} a.
Arguments v_start {V Ob} a _.
Arguments v_size {V Ob} a _.
Arguments v_offset {V Ob} a _.
Arguments v_attr {V Ob} a _.
Arguments v_flag {V Ob} a _.
Arguments v_obj {V Ob} a _.
Arguments as_start {V Ob} a.
Arguments as_size {V Ob} a.

(** [struct _mm_range]: both ends inclusive. *)
Record mm_range := mk_range { r_start : Z; r_end : Z }.

Definition compare_overlap (as_ ae bs be : Z) : Z :=
  if be <? as_ then 1 else if ae <? bs then -1 else 0.

Definition compare_exceed (as_ ae bs be : Z) : Z :=
  if bs <? as_ then 1 else if as_ <? bs then -1 else 0.

Definition PTRDIFF_MAX : Z := 2 ^ 31 - 1.

Section aspace.
Context {V Ob : Type} `{EqDecision V}.
Implicit Types (s : aspace V Ob) (h : avl V) (x v : V) (range : mm_range).

Definition set_tree h s : aspace V Ob :=
  mk_aspace h (v_start s) (v_size s) (v_offset s) (v_attr s) (v_flag s) (v_obj s) (as_start s) (as_size s).

(** Run an operation on the tree. *)
Definition on_tree (m : M (avl V) unit) : M (aspace V Ob) unit :=
  fun s => match m (tree s) with Some (a, h) => Some (a, set_tree h s) | None => None end.

(** The last address of a region, [varea->start + varea->size - 1] as [char] pointers. *)
Definition v_end s x : Z := u32 (v_start s x + v_size s x - 1).

(** * avl_adpt.c *)

Definition _aspace_bst_init s : Z * aspace V Ob :=
  (RT_EOK, set_tree (set_root None (tree s)) s).

Fixpoint search_loop (fuel : nat) (node : option V) range (compare : Z -> Z -> Z -> Z -> Z) s
    : option (option V) :=
  match fuel with
  | O => None
  | S fuel =>
    match node with
    | None => Some None
    | Some varea =>
      let cmp := compare (r_start range) (r_end range) (v_start s varea) (v_end s varea) in
      if cmp <? 0 then search_loop fuel (avl_left (tree s) varea) range compare s
      else if 0 <? cmp then search_loop fuel (avl_right (tree s) varea) range compare s
      else Some (Some varea)
    end
  end.

Definition search range compare s : option (option V) :=
  search_loop AVL_FUEL (root_node (tree s)) range compare s.

Definition _aspace_bst_search (key : Z) s : option (option V) :=
  search (mk_range key key) compare_overlap s.

Definition _aspace_bst_search_overlap range s : option (option V) :=
  search range compare_overlap s.

Fixpoint search_exceed_loop (fuel : nat) (node : option V) (start : Z) (closest : option V)
    (min_off : Z) s : option (option V) :=
  match fuel with
  | O => None
  | S fuel =>
    match node with
    | None => Some closest
    | Some varea =>
      let va_s := v_start s varea in
      let cmp := compare_exceed start start va_s va_s in
      if cmp <? 0 then
        let off := i32 (va_s - start) in
        let found := if off <? min_off then (off, Some varea) else (min_off, closest) in
        search_exceed_loop fuel (avl_left (tree s) varea) start found.2 found.1 s
      else if 0 <? cmp then
        search_exceed_loop fuel (avl_right (tree s) varea) start closest min_off s
      else Some (Some varea)
    end
  end.

Definition _aspace_bst_search_exceed (start : Z) s : option (option V) :=
  search_exceed_loop AVL_FUEL (root_node (tree s)) start None PTRDIFF_MAX s.

(** The loop of [_aspace_bst_insert]: [current] and [next] at its end, or [None] at a
    region with the same start. *)
Fixpoint insert_loop (fuel : nat) (key : Z) (current : option V) (next : place V) s
    : option (option (option V * place V)) :=
  match fuel with
  | O => None
  | S fuel =>
    match read_place next (tree s) with
    | None => Some (Some (current, next))
    | Some current =>
      if key <? v_start s current then insert_loop fuel key (Some current) (AtLeft current) s
      else if v_start s current <? key then insert_loop fuel key (Some current) (AtRight current) s
      else Some None
    end
  end.

Definition _aspace_bst_insert x : M (aspace V Ob) unit :=
  s ← get;
  found ← deref (insert_loop AVL_FUEL (v_start s x) None AtRoot s);
  match found with
  | None => mret tt
  | Some (current, next) =>
    on_tree (modify (util_avl_link x current next);; util_avl_rebalance AVL_FUEL current)
  end.

Definition _aspace_bst_remove x : M (aspace V Ob) unit := on_tree (util_avl_remove AVL_FUEL x).

Definition ASPACE_VAREA_NEXT x s : option (option V) := util_avl_next AVL_FUEL (Some x) (tree s).
Definition ASPACE_VAREA_PREV x s : option (option V) := util_avl_prev AVL_FUEL (Some x) (tree s).
Definition ASPACE_VAREA_FIRST s : option (option V) := util_avl_first AVL_FUEL (tree s).
Definition ASPACE_VAREA_LAST s : option (option V) := util_avl_last AVL_FUEL (tree s).
End aspace.

(** * What the tree holds *)

Section props.
Context {V Ob : Type} `{EqDecision V}.
Implicit Types (s : aspace V Ob) (h : avl V) (x v : V) (range : mm_range) (t : AvlTree.tree V) (l : list V).

(** The tree is balanced and has the regions [l] from left to right. *)
Definition holds s l : Prop :=
  Z.of_nat (length l) < 2 ^ 32 /\
  exists t, represents (tree s) t /\ balanced t /\ elems t = l.

(** In the order of their starts, and further without overlap, inside 32 bits. *)
Definition start_lt s (a b : V) : Prop := v_start s a < v_start s b.
Definition below s (a b : V) : Prop := v_start s a + v_size s a <= v_start s b.
Definition region_ok s x : Prop :=
  0 <= v_start s x /\ 1 <= v_size s x /\ v_start s x + v_size s x <= 2 ^ 32.
Definition regions_ok s l : Prop := Forall (region_ok s) l /\ StronglySorted (below s) l.

Definition overlaps s range x : Prop :=
  v_start s x <= r_end range /\ r_start range < v_start s x + v_size s x.

Lemma StronglySorted_split {A} (R : A -> A -> Prop) (l1 l2 : list A) (x : A) :
  StronglySorted R (l1 ++ x :: l2) <->
  StronglySorted R l1 /\ StronglySorted R l2 /\ Forall (fun y => R y x) l1 /\ Forall (R x) l2 /\
  (forall y z, y ∈ l1 -> z ∈ l2 -> R y z).
Proof.
  rewrite StronglySorted_app, StronglySorted_cons, !Forall_forall.
  split; [|intros (? & ? & ? & ? & ?); split_and!; try done; intros y z Hy [->|Hz]%elem_of_cons; auto].
  intros (Hc & ? & ? & ?). split_and!; try done; intros; apply Hc; try done; [left|by right].
Qed.

Lemma v_end_ok s x : region_ok s x -> v_end s x = v_start s x + v_size s x - 1.
Proof. unfold region_ok, v_end. intros. apply u32_id. lia. Qed.

Lemma regions_node s l1 x l2 : regions_ok s (l1 ++ x :: l2) ->
  regions_ok s l1 /\ regions_ok s l2 /\ region_ok s x /\
  (forall y, y ∈ l1 -> below s y x /\ region_ok s y) /\ (forall y, y ∈ l2 -> below s x y /\ region_ok s y).
Proof.
  intros [Hf Hs]. apply Forall_app in Hf as [F1 [Fx F2]%Forall_cons].
  apply StronglySorted_split in Hs as (S1 & S2 & L1 & L2 & _).
  rewrite !Forall_forall in *. unfold regions_ok. rewrite !Forall_forall.
  split_and!; try done; intros y Hy; split; auto.
Qed.

Lemma holds_facts s l : holds s l -> exists t, root_node (tree s) = ptr t /\ rep (tree s) None t /\
  balanced t /\ ht t < Z.of_nat AVL_FUEL /\ NoDup l /\ elems t = l.
Proof.
  intros (Hn & t & (Hroot & Hrep & Hnd) & Hb & <-). exists t. split_and!; try done. by apply avl_fuel.
Qed.

(** The left and the right subtree of a node that is reached with some fuel. *)
Lemma subtree_fuel (l : AvlTree.tree V) x hx r fuel : balanced (T l x hx r) -> ht (T l x hx r) < Z.of_nat (S fuel) ->
  (0 < fuel)%nat /\ balanced l /\ balanced r /\ ht l < Z.of_nat fuel /\ ht r < Z.of_nat fuel.
Proof.
  intros Hb Hf. pose proof (balanced_pos _ _ _ _ Hb). simpl in Hf. destruct Hb as (Bl & Br & Hh & _).
  pose proof (balanced_ht l Bl). pose proof (balanced_ht r Br). split_and!; try done; lia.
Qed.

Lemma compare_overlap_cases a b c d :
  (compare_overlap a b c d = 1 /\ d < a) \/ (compare_overlap a b c d = -1 /\ b < c) \/
  (compare_overlap a b c d = 0 /\ a <= d /\ c <= b).
Proof. unfold compare_overlap. repeat case_bool; lia. Qed.

Lemma search_loop_overlap s range t : forall par fuel,
  rep (tree s) par t -> balanced t -> ht t < Z.of_nat fuel -> regions_ok s (elems t) ->
  exists r, search_loop fuel (ptr t) range compare_overlap s = Some r /\
    match r with
    | Some v => v ∈ elems t /\ overlaps s range v
    | None => forall v, v ∈ elems t -> ~ overlaps s range v
    end.
Proof.
  induction t as [|l IHl x hx r IHr]; intros par fuel Hrep Hb Hf Hok; (destruct fuel as [|fuel]; [pose proof (balanced_ht _ Hb); lia|]).
  { exists None. split; [done|]. intros v []%elem_of_nil. }
  destruct (subtree_fuel _ _ _ _ _ Hb Hf) as (_ & Bl & Br & Hfl & Hfr).
  destruct Hrep as (_ & _ & Hl & Hr & Rl & Rr). cbn [elems] in Hok.
  destruct (regions_node _ _ _ _ Hok) as (Okl & Okr & Okx & Hleft & Hright).
  cbn [ptr search_loop]. rewrite Hl, Hr, v_end_ok by done.
  assert (Hin : forall v, v ∈ elems (T l x hx r) <-> v ∈ elems l \/ v = x \/ v ∈ elems r) by apply elem_node.
  unfold overlaps, below, region_ok in *.
  destruct (compare_overlap_cases (r_start range) (r_end range) (v_start s x) (v_start s x + v_size s x - 1))
    as [[-> Hc]|[[-> Hc]|[-> Hc]]]; simpl.
  - destruct (IHr (Some x) fuel Rr Br Hfr Okr) as (v & -> & Hv). exists v. split; [done|].
    destruct v as [v|]; [rewrite Hin; naive_solver|]. intros v [Hv'|[->|Hv']]%Hin; [|lia|by apply Hv].
    destruct (Hleft v Hv'). lia.
  - destruct (IHl (Some x) fuel Rl Bl Hfl Okl) as (v & -> & Hv). exists v. split; [done|].
    destruct v as [v|]; [rewrite Hin; naive_solver|]. intros v [Hv'|[->|Hv']]%Hin; [by apply Hv|lia|].
    destruct (Hright v Hv'). lia.
  - exists (Some x). split; [done|]. rewrite Hin. split; [auto|lia].
Qed.

Lemma search_overlap_spec s l range : holds s l -> regions_ok s l ->
  exists r, _aspace_bst_search_overlap range s = Some r /\
    match r with
    | Some v => v ∈ l /\ overlaps s range v
    | None => forall v, v ∈ l -> ~ overlaps s range v
    end.
Proof.
  intros Hh Hok. destruct (holds_facts s l Hh) as (t & Hroot & Hrep & Hb & Hf & _ & <-).
  unfold _aspace_bst_search_overlap, search. rewrite Hroot. by apply (search_loop_overlap s range t None).
Qed.

Lemma bst_search_overlap key s : _aspace_bst_search key s = _aspace_bst_search_overlap (mk_range key key) s.
Proof. unfold _aspace_bst_search, _aspace_bst_search_overlap. reflexivity. Qed.

Definition starts_sorted s l : Prop := StronglySorted (start_lt s) l.

Lemma regions_starts s l : regions_ok s l -> starts_sorted s l.
Proof.
  induction l as [|x l IH]; [constructor|].
  intros [[Hx Hl]%Forall_cons [Hb Hs]%StronglySorted_cons]. apply StronglySorted_cons.
  rewrite !Forall_forall in *. split; [|apply IH; split; [by apply Forall_forall|done]].
  intros y Hy. unfold below, start_lt, region_ok in *. pose proof (Hb y Hy). lia.
Qed.

(** * Searching the next region *)

Definition exceeds s (start : Z) x : Prop := start <= v_start s x.
#[global] Instance exceeds_dec s start x : Decision (exceeds s start x).
Proof. unfold exceeds. apply _. Defined.

Definition first_exceeding s (start : Z) l : option V := head (filter (exceeds s start) l).

Lemma filter_no {A} (P : A -> Prop) `{!forall y, Decision (P y)} (l : list A) :
  (forall y, y ∈ l -> ~ P y) -> filter P l = [].
Proof.
  induction l as [|y l IH]; intros Hp; [done|]. rewrite filter_cons_False by (apply Hp; left).
  apply IH. intros z Hz. apply Hp. by right.
Qed.

Lemma first_exceeding_app s start l1 x l2 : starts_sorted s (l1 ++ x :: l2) ->
  first_exceeding s start (l1 ++ x :: l2) =
    if decide (v_start s x < start) then first_exceeding s start l2
    else match first_exceeding s start l1 with Some y => Some y | None => Some x end.
Proof.
  intros Hs. apply StronglySorted_split in Hs as (_ & _ & L1 & _ & _).
  unfold first_exceeding. rewrite filter_app, filter_cons.
  destruct (decide (v_start s x < start));
    [rewrite decide_False by (unfold exceeds; lia)|rewrite decide_True by (unfold exceeds; lia)].
  - rewrite (filter_no _ l1); [done|].
    rewrite Forall_forall in L1. intros y Hy. specialize (L1 y Hy). unfold exceeds, start_lt in *. lia.
  - by destruct (filter (exceeds s start) l1).
Qed.

(** The distances that [ptrdiff_t] can hold. *)
Definition near s (start : Z) x : Prop := v_start s x - start < PTRDIFF_MAX.

(** The best region so far and its distance. *)
Definition closest_ok s (start : Z) (closest : option V) (min_off : Z) : Prop :=
  match closest with
  | None => min_off = PTRDIFF_MAX
  | Some y => min_off = v_start s y - start
  end.

Lemma search_exceed_loop_spec s start t : forall par fuel closest min_off,
  rep (tree s) par t -> balanced t -> ht t < Z.of_nat fuel -> starts_sorted s (elems t) ->
  (forall x, x ∈ elems t -> near s start x) -> closest_ok s start closest min_off ->
  (forall x y, x ∈ elems t -> closest = Some y -> v_start s x < v_start s y) ->
  search_exceed_loop fuel (ptr t) start closest min_off s =
    Some (match first_exceeding s start (elems t) with Some y => Some y | None => closest end).
Proof.
  induction t as [|l IHl x hx r IHr]; intros par fuel closest min_off Hrep Hb Hf Hs Hn Hc Hlt;
    (destruct fuel as [|fuel]; [pose proof (balanced_ht _ Hb); lia|]); [done|].
  destruct (subtree_fuel _ _ _ _ _ Hb Hf) as (_ & Bl & Br & Hfl & Hfr).
  destruct Hrep as (_ & _ & Hl & Hr & Rl & Rr). cbn [elems] in Hs |- *.
  assert (Hin : forall v, v ∈ elems l \/ v = x \/ v ∈ elems r -> v ∈ elems (T l x hx r)) by (intros v; by rewrite elem_node).
  rewrite first_exceeding_app by done. pose proof Hs as Hs'. apply StronglySorted_split in Hs' as (Sl & Sr & L1 & L2 & _).
  rewrite Forall_forall in L1. pose proof (Hn x ltac:(auto)) as Hnx. unfold near, PTRDIFF_MAX in Hnx.
  cbn [ptr search_exceed_loop]. rewrite Hl, Hr. unfold compare_exceed.
  destruct (Z.ltb_spec (v_start s x) start).
  { simpl. rewrite decide_True by done. apply (IHr (Some x)); auto. }
  rewrite decide_False by lia. destruct (Z.ltb_spec start (v_start s x)); simpl.
  - rewrite i32_id by lia.
    replace (v_start s x - start <? min_off) with true; simpl.
    + rewrite (IHl (Some x)); try done; auto; [by destruct (first_exceeding s start (elems l))|].
      intros y z Hy [= <-]. by apply L1.
    + symmetry. apply Z.ltb_lt. destruct closest as [y|]; simpl in Hc; subst; [|unfold PTRDIFF_MAX; lia].
      pose proof (Hlt x y ltac:(auto) eq_refl). lia.
  - replace (first_exceeding s start (elems l)) with (@None V); [done|]. unfold first_exceeding.
    rewrite filter_no; [done|]. intros y Hy. pose proof (L1 y Hy). unfold exceeds, start_lt in *. lia.
Qed.

Lemma search_exceed_spec s l start : holds s l -> starts_sorted s l ->
  (forall x, x ∈ l -> near s start x) ->
  _aspace_bst_search_exceed start s = Some (first_exceeding s start l).
Proof.
  intros Hh Hs Hn. destruct (holds_facts s l Hh) as (t & Hroot & Hrep & Hb & Hf & _ & <-).
  unfold _aspace_bst_search_exceed. rewrite Hroot.
  rewrite (search_exceed_loop_spec s start t None) by done. by destruct (first_exceeding s start (elems t)).
Qed.

(** * Inserting and removing *)

Lemma on_tree_wp (m : M (avl V) unit) (Q : unit -> aspace V Ob -> Prop) s :
  wp m (fun a h => Q a (set_tree h s)) (tree s) -> wp (on_tree m) Q s.
Proof. unfold wp, on_tree. by destruct (m (tree s)) as [[a h]|]. Qed.

Lemma read_place_focus h c t : focus h c t -> read_place (place_of c) h = ptr t.
Proof.
  intros (Hroot & Hc & _). destruct c as [|[x hx r|l x hx] c]; simpl in *; [done|..]; by destruct Hc as [(_ & _ & ? & ? & _) _].
Qed.

(** The loop walks to a free place between the smaller and the larger starts. *)
Lemma insert_loop_spec s key t : forall c fuel,
  focus (tree s) c t -> balanced t -> ht t < Z.of_nat fuel -> starts_sorted s (elems t) ->
  (exists y, y ∈ elems t /\ v_start s y = key /\
    insert_loop fuel key (cpar c None) (place_of c) s = Some None) \/
  (exists c' l1 l2, insert_loop fuel key (cpar c None) (place_of c) s = Some (Some (cpar c' None, place_of c')) /\
    plug c' E = plug c t /\ elems t = l1 ++ l2 /\ before c' = before c ++ l1 /\ after c' = l2 ++ after c /\
    Forall (fun y => v_start s y < key) l1 /\ Forall (fun y => key < v_start s y) l2).
Proof.
  induction t as [|l IHl x hx r IHr]; intros c fuel Hfo Hb Hf Hs;
    (destruct fuel as [|fuel]; [pose proof (balanced_ht _ Hb); lia|]);
    cbn [insert_loop]; rewrite (read_place_focus _ _ _ Hfo); cbn [ptr].
  { right. exists c, [], []. rewrite (app_nil_r (before c)). split_and!; done. }
  destruct (subtree_fuel _ _ _ _ _ Hb Hf) as (_ & Bl & Br & Hfl & Hfr).
  cbn [elems] in Hs. apply StronglySorted_split in Hs as (Sl & Sr & L1 & L2 & _).
  unfold start_lt in L1, L2. rewrite Forall_forall in L1, L2.
  destruct (Z.ltb_spec key (v_start s x)); [|destruct (Z.ltb_spec (v_start s x) key)].
  - pose proof (IHl (LF x hx r :: c) fuel) as IH. cbn [cpar place_of fnode] in IH.
    destruct IH as [(y & Hy & E & ->)|(c' & l1 & l2 & -> & Ep & El & Eb & Ea & F1 & F2)];
      try done; [by apply focus_fill|left; exists y; split; [apply elem_node; auto|done]|].
    right. exists c', l1, (l2 ++ x :: elems r). cbn [elems]. rewrite El, Ea. cbn [after].
    split_and!; try done; [by rewrite <- app_assoc|by list_simplifier|].
    apply Forall_app. split; [done|]. constructor; [done|]. apply Forall_forall. intros y Hy. specialize (L2 y Hy). lia.
  - pose proof (IHr (RF l x hx :: c) fuel) as IH. cbn [cpar place_of fnode] in IH.
    destruct IH as [(y & Hy & E & ->)|(c' & l1 & l2 & -> & Ep & El & Eb & Ea & F1 & F2)];
      try done; [by apply focus_fill|left; exists y; split; [apply elem_node; auto|done]|].
    right. exists c', (elems l ++ x :: l1), l2. cbn [elems]. rewrite El, Eb. cbn [before].
    split_and!; try done; [by list_simplifier|by list_simplifier|].
    apply Forall_app. split; [apply Forall_forall; intros y Hy; specialize (L1 y Hy); lia|]. by constructor.
  - left. exists x. split; [apply elem_node; auto|]. split; [lia|done].
Qed.

Lemma bst_insert_wp s l x : holds s l -> starts_sorted s l -> x ∉ l -> Z.of_nat (length l) + 1 < 2 ^ 32 ->
  wp (_aspace_bst_insert x) (fun _ s' =>
    (exists y, y ∈ l /\ v_start s y = v_start s x /\ s' = s) \/
    (exists l1 l2, l = l1 ++ l2 /\ Forall (fun y => v_start s y < v_start s x) l1 /\
      Forall (fun y => v_start s x < v_start s y) l2 /\
      s' = set_tree (tree s') s /\ holds s' (l1 ++ x :: l2))) s.
Proof.
  intros (Hn & t & Hr & Hb & <-) Hs Hx Hn'. unfold _aspace_bst_insert. do 2 wp_step.
  pose proof (avl_fuel t Hb Hn) as Hf. pose proof Hr as (_ & _ & Hnd).
  destruct (insert_loop_spec s (v_start s x) t [] AVL_FUEL) as
    [(y & Hy & E & Hl)|(c & l1 & l2 & Hl & Ep & El & Eb & Ea & F1 & F2)]; try done; [by apply (focus_plug _ [])|..];
    cbn [cpar place_of] in Hl; rewrite Hl; wp_step; (wp_step; [done|]); [by apply wp_ret; left; exists y|].
  cbn [plug foldl before after] in *. rewrite app_nil_r in Ea.
  apply on_tree_wp. eapply wp_mono; [apply (link_rebalance_wp (tree s) c x AVL_FUEL); rewrite Ep; done|].
  cbv beta. intros _ h' (t' & Hr' & Hb' & El'). right. exists l1, l2. split_and!; try done.
  split; [rewrite El in Hn'; rewrite length_app in *; simpl; lia|].
  exists t'. simpl. by rewrite El', Ea, Eb.
Qed.

Lemma middle_unique (a b l1 l2 : list V) x :
  a ++ x :: b = l1 ++ x :: l2 -> NoDup (a ++ x :: b) -> a = l1 /\ b = l2.
Proof.
  intros E Hnd. assert (length a = length l1).
  { eapply NoDup_lookup; [exact Hnd|by apply list_lookup_middle|]. rewrite E. by apply list_lookup_middle. }
  apply app_inj_1 in E as [-> [= ->]]; done.
Qed.

Lemma bst_remove_wp s l1 x l2 : holds s (l1 ++ x :: l2) ->
  wp (_aspace_bst_remove x) (fun _ s' => s' = set_tree (tree s') s /\ holds s' (l1 ++ l2)) s.
Proof.
  intros (Hn & t & Hr & Hb & El). unfold _aspace_bst_remove. apply on_tree_wp.
  assert (Hx : x ∈ elems t) by (rewrite El; apply elem_of_app; right; left).
  destruct (elem_plug t x Hx) as (c & l & hx & r & ->). pose proof Hr as (_ & _ & Hnd).
  assert (Hs : fits (plug c (T l x hx r))) by (unfold fits; by rewrite El).
  eapply wp_mono; [apply (util_avl_remove_wp (tree s) c l x hx r AVL_FUEL); try done; by apply avl_fuel|].
  cbv beta. intros _ h' (t' & Hr' & Hb' & El'). split; [done|].
  split; [rewrite !length_app in *; simpl in Hn; lia|]. exists t'. split_and!; try done. rewrite El'.
  rewrite elems_plug in El. simpl in El.
  destruct (middle_unique (before c ++ elems l) (elems r ++ after c) l1 l2 x) as [<- <-].
  - rewrite <- El. by list_simplifier.
  - rewrite elems_plug in Hnd. simpl in Hnd. by list_simplifier.
  - by list_simplifier.
Qed.

(** * Walking *)

Lemma varea_next_prev s l i x : holds s l -> l !! i = Some x ->
  ASPACE_VAREA_NEXT x s = Some (l !! S i) /\
  ASPACE_VAREA_PREV x s = Some (match i with O => None | S j => l !! j end).
Proof.
  intros (Hn & t & Hr & Hb & <-) Hi. apply util_avl_next_prev; try done. by apply avl_fuel.
Qed.

Lemma varea_next s l1 x l2 : holds s (l1 ++ x :: l2) -> ASPACE_VAREA_NEXT x s = Some (head l2).
Proof.
  intros Hh. destruct (varea_next_prev s _ (length l1) x Hh) as [-> _]; [by apply list_lookup_middle|].
  f_equal. rewrite lookup_app_r by lia. replace (S (length l1) - length l1)%nat with 1%nat by lia.
  by destruct l2.
Qed.

Lemma varea_first_last s l : holds s l ->
  ASPACE_VAREA_FIRST s = Some (head l) /\ ASPACE_VAREA_LAST s = Some (last l).
Proof.
  intros (Hn & t & Hr & Hb & <-). pose proof (avl_fuel t Hb Hn) as Hf.
  unfold ASPACE_VAREA_FIRST, ASPACE_VAREA_LAST. by rewrite (util_avl_first_eq _ t), (util_avl_last_eq _ t).
Qed.
End props.

(** A space with the region 1 from 8192 to 20480, for examples. *)
Definition one_space : aspace nat nat :=
  mk_aspace (mk_avl (fun _ => None) (fun _ => None) (fun _ => None) (fun _ => 1) (Some 1%nat))
    (fun n => if decide (n = 1%nat) then 8192 else 0) (fun n => if decide (n = 1%nat) then 12288 else 0)
    (fun _ => 0) (fun _ => 0) (fun _ => 0) (fun n => if decide (n = 1%nat) then Some 1%nat else None)
    4096 (2 ^ 20).

Lemma one_space_ok : holds one_space [1%nat] /\ regions_ok one_space [1%nat].
Proof.
  split.
  - split; [simpl; lia|]. exists (T E 1%nat 1 E). split_and!; [|simpl; lia|done]. split; [done|]. split; [done|].
    simpl. apply NoDup_singleton.
  - split; [|by repeat constructor]. apply Forall_singleton. unfold region_ok. simpl. lia.
Qed.
