(* ===== verification/AspaceFind.v ===== *)
(** Choosing the address of a new region, components/mm/mm_aspace.c: [_find_free] and the
    searches it is made of, with the flags of mm_flag.h.  Addresses are 32 bits and
    [RT_NULL] is 0.  In spaces of less than 2 GiB, with an alignment that all regions
    have, the search finds a free address exactly when there is one. *)
From stdpp Require Import sorting.
From S2P Require Import Prelude Avl AvlTree AvlRep AvlRebalance AvlProp Aspace.
#[local] Open Scope Z_scope.

(** * Flags *)

Definition _MMF_CNTL_SHIFT : Z := 7.
Definition _DEF_FLAG (index : Z) : Z := Z.shiftl 1 (_MMF_CNTL_SHIFT + index).
Definition _MMF_ALIGN_MASK : Z := 127.
Definition MMF_MAP_FIXED : Z := _DEF_FLAG 2.
Definition MMF_PREFETCH : Z := _DEF_FLAG 3.
Definition MMF_STATIC_ALLOC : Z := _DEF_FLAG 6.
Definition MMF_REQUEST_ALIGN : Z := _DEF_FLAG 9.
Definition MMF_GET_ALIGN (src : Z) : Z := Z.land src _MMF_ALIGN_MASK.

(** [flags & f] as a condition. *)
Definition has_flag (flags f : Z) : bool := negb (Z.land flags f =? 0).

Section find.
Context {V Ob : Type} `{EqDecision V}.
Implicit Types (s : aspace V Ob) (x v : V) (limit : mm_range) (l : list V).

Definition _lower (a b : Z) : Z := if a <? b then a else b.

Definition _align (va align_mask : Z) : Z := Z.land (u32 (va + u32 (Z.lnot align_mask))) align_mask.

(** The loop of [_ascending_search] from the region [varea]. *)
Fixpoint _ascending_search (fuel : nat) (varea : option V) (req_size align_mask : Z) limit s : option Z :=
  match fuel with
  | O => None
  | S fuel =>
    match varea with
    | None => Some 0
    | Some v =>
      if v_start s v <? r_end limit then
        let candidate := _align (u32 (v_start s v + v_size s v)) align_mask in
        if (r_end limit <? candidate) || (u32 (r_end limit - candidate + 1) <? req_size) then Some 0
        else
          nx_va ← ASPACE_VAREA_NEXT v s;
          match nx_va with
          | Some nx =>
            let gap_size := u32 (_lower (r_end limit) (u32 (v_start s nx - 1)) - candidate + 1) in
            if req_size <=? gap_size then Some candidate
            else _ascending_search fuel (Some nx) req_size align_mask limit s
          | None => Some candidate
          end
      else Some 0
    end
  end.

Definition _find_head_and_asc_search (fuel : nat) (req_size align_mask : Z) limit s : option Z :=
  varea ← _aspace_bst_search_exceed (r_start limit) s;
  match varea with
  | Some v =>
    let candidate := _align (r_start limit) align_mask in
    let gap_size := u32 (v_start s v - candidate) in
    if req_size <=? gap_size then
      former ← _aspace_bst_search (r_start limit) s;
      match former with
      | Some f =>
        let candidate := _align (u32 (v_start s f + v_size s f)) align_mask in
        let gap_size := u32 (v_start s v - candidate) in
        if req_size <=? gap_size then Some candidate
        else _ascending_search fuel (Some v) req_size align_mask limit s
      | None => Some candidate
      end
    else _ascending_search fuel (Some v) req_size align_mask limit s
  | None =>
    let candidate := _align (r_start limit) align_mask in
    let gap_size := u32 (r_end limit - candidate + 1) in
    Some (if req_size <=? gap_size then candidate else 0)
  end.

(** [align_mask] as [_find_free] computes it: [1 << n] is an [int]. *)
Definition align_mask_of (flags : Z) : Z :=
  if has_flag flags MMF_REQUEST_ALIGN then u32 (Z.lnot (i32 (Z.shiftl 1 (MMF_GET_ALIGN flags)) - 1))
  else u32 (Z.lnot 0).

Definition _find_free (fuel : nat) (prefer req_size limit_start limit_size flags : Z) s : option Z :=
  let limit := mk_range limit_start (u32 (limit_start + limit_size - 1)) in
  let align_mask := align_mask_of flags in
  if negb (prefer =? 0) then
    let prefer := _align prefer align_mask in
    let range := mk_range prefer (u32 (prefer + req_size - 1)) in
    varea ← _aspace_bst_search_overlap range s;
    match varea with
    | None => Some prefer
    | Some v =>
      if has_flag flags MMF_MAP_FIXED then Some 0
      else
        va ← _ascending_search fuel (Some v) req_size align_mask limit s;
        if va =? 0 then
          let limit := mk_range (r_start limit) (u32 (v_start s v - 1)) in
          _find_head_and_asc_search fuel req_size align_mask limit s
        else Some va
    end
  else _find_head_and_asc_search fuel req_size align_mask limit s.

(** * What is free *)

(** [req] bytes at [a], inside [lo, hi] and apart from all regions. *)
Definition room s l (lo hi req a : Z) : Prop :=
  lo <= a /\ a + req <= hi + 1 /\
  forall x, x ∈ l -> a + req <= v_start s x \/ v_start s x + v_size s x <= a.

(** The alignments that a mask stands for. *)
Definition mask_of (k : Z) : Z := 2 ^ 32 - 2 ^ k.

Lemma land_mask k z : 0 <= k <= 31 -> 0 <= z < 2 ^ 32 -> Z.land z (mask_of k) = z - z mod 2 ^ k.
Proof.
  intros Hk Hz. transitivity (Z.ldiff z (Z.ones k)).
  - replace (mask_of k) with (Z.shiftl (Z.ones (32 - k)) k).
    + apply Z.bits_inj'. intros i Hi. rewrite Z.land_spec, Z.ldiff_spec, Z.shiftl_spec, !Z.testbit_ones by lia.
      destruct (Z.leb_spec 0 (i - k)), (Z.ltb_spec (i - k) (32 - k)), (Z.leb_spec 0 i), (Z.ltb_spec i k);
        simpl; rewrite ?andb_true_r, ?andb_false_r; try done; try lia.
      symmetry. apply Z.bits_above_log2; [lia|]. destruct (decide (z = 0)) as [->|]; [simpl; lia|].
      assert (Z.log2 z < 32) by (apply Z.log2_lt_pow2; lia). lia.
    + unfold mask_of. rewrite Z.shiftl_mul_pow2, Z.ones_equiv, Z.mul_pred_l, <- Z.pow_add_r by lia.
      by replace (32 - k + k) with 32 by lia.
  - rewrite Z.ldiff_ones_r, Z.shiftl_mul_pow2, Z.shiftr_div_pow2 by lia.
    pose proof (Z.div_mod z (2 ^ k)). lia.
Qed.

Lemma pow_le_31 k : 0 <= k <= 31 -> 1 <= 2 ^ k <= 2 ^ 31.
Proof.
  intros. split; [change 1 with (2 ^ 0)|]; apply Z.pow_le_mono_r; lia.
Qed.

Lemma align_id k a : 0 <= k <= 31 -> 0 <= a < 2 ^ 32 -> (2 ^ k | a) -> _align a (mask_of k) = a.
Proof.
  intros Hk Ha [q ->]. pose proof (pow_le_31 k Hk) as Hp. unfold _align, mask_of at 1.
  replace (u32 (Z.lnot (2 ^ 32 - 2 ^ k))) with (2 ^ k - 1).
  - assert (E32 : 2 ^ 32 = 2 ^ (32 - k) * 2 ^ k) by (rewrite <- Z.pow_add_r by lia; f_equal; lia).
    assert (q + 1 <= 2 ^ (32 - k)) by nia.
    rewrite u32_id by nia. rewrite land_mask by nia.
    replace (q * 2 ^ k + (2 ^ k - 1)) with ((2 ^ k - 1) + q * 2 ^ k) by lia.
    rewrite Z.mod_add, Z.mod_small by lia. lia.
  - unfold u32, uwrap. replace (Z.lnot (2 ^ 32 - 2 ^ k)) with (2 ^ k - 1 + -1 * 2 ^ 32) by (unfold Z.lnot; lia).
    rewrite Z.mod_add, Z.mod_small by lia. lia.
Qed.

Lemma align_mask_of_no_request flags : has_flag flags MMF_REQUEST_ALIGN = false -> align_mask_of flags = mask_of 0.
Proof. unfold align_mask_of. by intros ->. Qed.

Lemma align_mask_of_request flags : has_flag flags MMF_REQUEST_ALIGN = true -> MMF_GET_ALIGN flags <= 30 ->
  align_mask_of flags = mask_of (MMF_GET_ALIGN flags).
Proof.
  unfold align_mask_of. intros -> Hk.
  assert (H0 : 0 <= MMF_GET_ALIGN flags) by (unfold MMF_GET_ALIGN; apply Z.land_nonneg; right; done).
  set (k := MMF_GET_ALIGN flags) in *. clearbody k. pose proof (pow_le_31 k ltac:(lia)).
  assert (2 ^ k <= 2 ^ 30) by (apply Z.pow_le_mono_r; lia).
  rewrite Z.shiftl_1_l, i32_id by lia. unfold u32, uwrap, mask_of.
  replace (Z.lnot (2 ^ k - 1)) with (2 ^ 32 - 2 ^ k + -1 * 2 ^ 32) by (unfold Z.lnot; lia).
  rewrite Z.mod_add, Z.mod_small by lia. lia.
Qed.

(** * The search among regions that have an alignment, at least that of the mask *)

Section aligned.
Context (s : aspace V Ob) (l : list V) (m k req : Z) (Hm : 0 <= m <= k).
Context (Hh : holds s l) (Hok : regions_ok s l) (Hk : 0 <= k <= 31) (Hreq : 1 <= req < 2 ^ 32).
Context (Hal : forall x, x ∈ l -> (2 ^ k | v_start s x) /\ (2 ^ k | v_size s x)).

Lemma align_k a : 0 <= a < 2 ^ 32 -> (2 ^ k | a) -> _align a (mask_of m) = a.
Proof using Hk Hm.
  intros Ha Hd. apply align_id; [lia|done|]. etransitivity; [|exact Hd].
  exists (2 ^ (k - m)). rewrite <- Z.pow_add_r by lia. f_equal. lia.
Qed.

(** The result [r] of a search from [from] on: 0 is failure. *)
Definition found (lo hi from r : Z) : Prop :=
  if decide (r = 0) then forall a, (2 ^ k | a) -> a <> 0 -> from <= a -> ~ room s l lo hi req a
  else (2 ^ k | r) /\ from <= r /\ room s l lo hi req r.

Lemma no_room lo hi from : hi < from + req - 1 -> found lo hi from 0.
Proof using Hreq. intros Hr. unfold found. rewrite decide_True by done. intros a _ _ Ha (_ & Hhi & _). lia. Qed.

(** The aligned end of a region, when it is an address. *)
Lemma candidate_eq x : x ∈ l -> v_start s x + v_size s x < 2 ^ 32 ->
  _align (u32 (v_start s x + v_size s x)) (mask_of m) = v_start s x + v_size s x.
Proof using Hok Hk Hal Hm.
  intros Hx He. destruct Hok as [Hf _]. rewrite Forall_forall in Hf. destruct (Hf x Hx) as (? & ? & ?).
  rewrite u32_id by lia. apply align_k; [lia|]. destruct (Hal x Hx). by apply Z.divide_add_r.
Qed.

Lemma room_behind l1 x l2 lo hi : l = l1 ++ x :: l2 -> lo <= v_start s x ->
  v_start s x + v_size s x + req <= hi + 1 ->
  (forall y, head l2 = Some y -> v_start s x + v_size s x + req <= v_start s y) ->
  room s l lo hi req (v_start s x + v_size s x).
Proof using Hok.
  intros El Hlo Hhi Hnext. pose proof Hok as Hok'. rewrite El in Hok'.
  destruct (regions_node _ _ _ _ Hok') as (_ & Ok2 & Okx & Hleft & Hright). unfold region_ok, below in *.
  split; [lia|]. split; [lia|]. intros y Hy. rewrite El in Hy.
  apply elem_of_app in Hy as [Hy|[->|Hy]%elem_of_cons]; [destruct (Hleft y Hy); lia|lia|left].
  destruct l2 as [|n l2]; [by apply elem_of_nil in Hy|]. specialize (Hnext n eq_refl).
  apply elem_of_cons in Hy as [->|Hy]; [done|].
  destruct (regions_node s [] n l2 Ok2) as (_ & _ & Okn & _ & Hr). destruct (Hr y Hy). unfold below, region_ok in *. lia.
Qed.

Lemma ascending_spec l2 : forall l1 v lo hi fuel, l = l1 ++ v :: l2 ->
  (forall x, x ∈ l -> lo <= v_start s x) -> 0 <= lo -> hi < 2 ^ 32 -> (length l2 < fuel)%nat ->
  exists r, _ascending_search fuel (Some v) req (mask_of m) (mk_range lo hi) s = Some r /\
    found lo hi (v_start s v + v_size s v) r.
Proof using Hh Hok Hk Hreq Hal Hm.
  induction l2 as [|n l2 IH]; intros l1 v lo hi fuel El Hlo Hlo0 Hhi Hfuel;
    (destruct fuel as [|fuel]; [simpl in *; lia|]); cbn [_ascending_search r_end];
    assert (Hv : v ∈ l) by (rewrite El; apply elem_of_app; right; left);
    pose proof Hok as Hok'; rewrite El in Hok'; pose proof (Hlo v Hv);
    destruct (regions_node _ _ _ _ Hok') as (_ & Ok2 & Okv & _ & Hright); unfold region_ok in Okv;
    pose proof Hh as Hh'; rewrite El in Hh'; apply varea_next in Hh'; rewrite Hh'; cbn [head mbind option_bind];
    (destruct (Z.ltb_spec (v_start s v) hi); [|exists 0; split; [done|apply no_room; lia]]).
  - destruct (decide (v_start s v + v_size s v < 2 ^ 32)) as [He|He].
    + rewrite candidate_eq by done.
      destruct ((hi <? _) || _) eqn:Hc; [exists 0; split; [done|apply no_room]|].
      * apply orb_true_iff in Hc as [Hc|Hc]; zbool; [lia|]. destruct (decide (hi < v_start s v + v_size s v)); [lia|].
        rewrite u32_id in Hc by lia. lia.
      * apply orb_false_iff in Hc as [E1 E2]. zbool. rewrite u32_id in E2 by lia.
        eexists. split; [done|]. unfold found. rewrite decide_False by lia. destruct (Hal v Hv).
        split; [by apply Z.divide_add_r|]. split; [lia|]. eapply (room_behind l1 v []); try done; lia.
    + replace (v_start s v + v_size s v) with (2 ^ 32) by lia. change (u32 (2 ^ 32)) with 0.
      rewrite align_k by (try apply Z.divide_0_r; lia). case_bool; exists 0; (split; [done|apply no_room; lia]).
  - assert (Hn : n ∈ l) by (rewrite El; apply elem_of_app; right; right; left).
    destruct (Hright n ltac:(left)) as [Hb Okn]. unfold below, region_ok in *.
    rewrite candidate_eq by (done || lia).
    destruct ((hi <? _) || _) eqn:Hc; [exists 0; split; [done|apply no_room]|].
    + apply orb_true_iff in Hc as [Hc|Hc]; zbool; [lia|]. destruct (decide (hi < v_start s v + v_size s v)); [lia|].
      rewrite u32_id in Hc by lia. lia.
    + apply orb_false_iff in Hc as [E1 E2]. zbool. rewrite u32_id in E2 by lia.
      unfold _lower. rewrite (u32_id (v_start s n - 1)) by lia.
      replace (if hi <? v_start s n - 1 then hi else v_start s n - 1) with (Z.min hi (v_start s n - 1)) by (case_bool; lia).
      rewrite u32_id by lia. case_bool.
      * eexists. split; [done|]. unfold found. rewrite decide_False by lia. destruct (Hal v Hv).
        split; [by apply Z.divide_add_r|]. split; [lia|]. eapply (room_behind l1 v (n :: l2)); try done; try lia.
        intros y [= <-]. lia.
      * destruct (IH (l1 ++ [v]) n lo hi fuel) as (r & -> & Hr); try done; [by rewrite El, <- app_assoc|simpl in Hfuel; lia|].
        exists r. split; [done|]. unfold found in *. case_decide.
        -- intros a Ha Ha0 Hfrom Hroom. destruct (decide (v_start s n + v_size s n <= a)) as [|Hlt]; [by apply (Hr a)|].
           destruct Hroom as (_ & Hhi' & Hfree). destruct (Hfree n Hn); lia.
        -- destruct Hr as (? & ? & ?). split_and!; try done. lia.
Qed.

Lemma first_exceeding_all lo : (forall x, x ∈ l -> lo <= v_start s x) -> first_exceeding s lo l = head l.
Proof. intros Hlo. unfold first_exceeding. by rewrite filter_all. Qed.

Lemma head_some {A} (b : list A) y : head b = Some y -> exists b', b = y :: b'.
Proof. destruct b as [|z b]; [done|]. intros [= ->]. by exists b. Qed.

Lemma find_head_spec lo hi fuel : (forall x, x ∈ l -> lo <= v_start s x /\ near s lo x) ->
  (2 ^ k | lo) -> 0 < lo < 2 ^ 32 -> lo <= hi + 1 -> hi < 2 ^ 32 ->
  (forall v, head l = Some v -> v_start s v <= hi + 1) -> (length l < fuel)%nat ->
  exists r, _find_head_and_asc_search fuel req (mask_of m) (mk_range lo hi) s = Some r /\ found lo hi lo r.
Proof using Hh Hok Hk Hreq Hal Hm.
  intros Hlo Hlok Hlo0 Hlohi Hhi Hhead Hfuel. unfold _find_head_and_asc_search. cbn [r_start r_end].
  rewrite (search_exceed_spec s l lo Hh); [|by apply regions_starts|intros x Hx; by apply Hlo].
  rewrite first_exceeding_all by (intros x Hx; by apply Hlo). cbn [mbind option_bind].
  destruct (head l) as [v|] eqn:Ehd.
  - destruct (head_some l v Ehd) as [l2 El]. assert (Hv : v ∈ l) by (rewrite El; left).
    destruct (Hlo v Hv) as [Hlov _]. specialize (Hhead v eq_refl).
    pose proof Hok as Hok'. rewrite El in Hok'. destruct (regions_node s [] v l2 Hok') as (_ & _ & Okv & _ & Hright).
    unfold region_ok in Okv. rewrite align_k by (done || lia).
    rewrite u32_id by lia. destruct (Z.leb_spec req (v_start s v - lo)) as [Hgap|Hgap].
    + destruct (search_overlap_spec s l (mk_range lo lo) Hh Hok) as (former & Ef & Hf).
      rewrite bst_search_overlap, Ef. cbn [mbind option_bind].
      assert (Hall : forall x, x ∈ l -> v_start s v <= v_start s x).
      { intros x Hx. rewrite El in Hx. apply elem_of_cons in Hx as [->|Hx]; [lia|].
        destruct (Hright x Hx). unfold below in *. lia. }
      destruct former as [f|]; [exfalso; destruct Hf as [Hfl [Hov _]]; simpl in Hov; specialize (Hall f Hfl); lia|].
      exists lo. split; [done|]. unfold found. rewrite decide_False by lia. split_and!; try done.
      split; [lia|]. split; [lia|]. intros x Hx. left. specialize (Hall x Hx). lia.
    + destruct (ascending_spec l2 [] v lo hi fuel El) as (r & -> & Hr); try lia;
        [intros x Hx; by apply Hlo|rewrite El in Hfuel; simpl in Hfuel; lia|].
      exists r. split; [done|]. unfold found in *. case_decide; [|destruct Hr as (? & ? & ?); split_and!; try done; lia].
      intros a Ha Ha0 Hfrom Hroom. destruct (decide (v_start s v + v_size s v <= a)) as [|Hlt]; [by apply (Hr a)|].
      destruct Hroom as (_ & Hhi' & Hfree). destruct (Hfree v Hv); lia.
  - assert (Hnil : forall x, x ∉ l) by (destruct l; [intros x; apply not_elem_of_nil|done]).
    rewrite align_k by (done || lia). eexists. split; [done|].
    rewrite u32_id by lia. destruct (Z.leb_spec req (hi - lo + 1)).
    + unfold found. rewrite decide_False by lia. split_and!; try done.
      split; [lia|]. split; [lia|]. intros x Hx. by destruct (Hnil x).
    + apply no_room. lia.
Qed.

(** The search behind the region [v], and then from the start of the space up to [v]. *)
Lemma overlapped_search_spec lo hi v fuel : v ∈ l -> (forall x, x ∈ l -> lo <= v_start s x /\ near s lo x) ->
  (2 ^ k | lo) -> 0 < lo -> lo <= hi -> hi < 2 ^ 32 -> v_start s v <= hi + 1 -> (length l < fuel)%nat ->
  exists r, (va ← _ascending_search fuel (Some v) req (mask_of m) (mk_range lo hi) s;
      if va =? 0 then
        let limit := mk_range (r_start (mk_range lo hi)) (u32 (v_start s v - 1)) in
        _find_head_and_asc_search fuel req (mask_of m) limit s
      else Some va) = Some r /\ found lo hi lo r.
Proof using Hh Hok Hk Hreq Hal Hm.
  intros Hv Hlo Hlok Hlo0 Hlohi Hhi Hvhi Hfuel. destruct (list_elem_of_split l v Hv) as (l1 & l2 & El).
  pose proof Hok as Hok'. rewrite El in Hok'.
  destruct (regions_node _ _ _ _ Hok') as (_ & _ & Okv & Hleft & _). unfold region_ok in Okv. destruct (Hlo v Hv) as [Hlov _].
  destruct (ascending_spec l2 l1 v lo hi fuel El) as (r & -> & Hr); try lia; [intros x Hx; by apply Hlo| |].
  { rewrite El, length_app in Hfuel. simpl in Hfuel. lia. }
  cbn [mbind option_bind]. cbv zeta. cbn [r_start]. destruct (Z.eqb_spec r 0) as [->|Hr0].
  - rewrite u32_id by lia.
    destruct (find_head_spec lo (v_start s v - 1) fuel) as (r2 & -> & Hr2); try done; try lia.
    + intros y Hy. rewrite El in Hy. destruct l1 as [|y' l1]; [injection Hy as <-; lia|].
      injection Hy as ->. destruct (Hleft y ltac:(left)). unfold below, region_ok in *. lia.
    + exists r2. split; [done|]. unfold found in *. rewrite decide_True in Hr by done. case_decide.
      * intros a Ha Ha0 Hla Hroom. pose proof Hroom as (_ & Hhi' & Hfree). destruct (Hfree v Hv) as [Hlt|Hge].
        -- apply (Hr2 a Ha Ha0 Hla). split; [done|]. split; [lia|done].
        -- by apply (Hr a Ha Ha0 Hge).
      * destruct Hr2 as (? & ? & (? & Hhi2 & ?)). split_and!; try done. split; [done|]. split; [lia|done].
  - exists r. split; [done|]. unfold found in *. case_decide; [done|]. destruct Hr as (? & ? & ?). split_and!; try done. lia.
Qed.

(** A space of less than 2 GiB that holds all the regions. *)
Lemma find_free_spec prefer limit_start limit_size flags fuel :
  align_mask_of flags = mask_of m -> 0 < limit_start -> 1 <= limit_size < PTRDIFF_MAX ->
  limit_start + limit_size <= 2 ^ 32 -> (2 ^ k | limit_start) -> (2 ^ k | prefer) ->
  (forall x, x ∈ l -> limit_start <= v_start s x /\ v_start s x + v_size s x <= limit_start + limit_size) ->
  (prefer <> 0 -> limit_start <= prefer /\ prefer + req <= limit_start + limit_size) ->
  (length l < fuel)%nat ->
  exists r, _find_free fuel prefer req limit_start limit_size flags s = Some r /\
    let hi := limit_start + limit_size - 1 in
    if decide (r = 0) then
      if decide (prefer <> 0 /\ has_flag flags MMF_MAP_FIXED) then ~ room s l limit_start hi req prefer
      else forall a, (2 ^ k | a) -> ~ room s l limit_start hi req a
    else (2 ^ k | r) /\ room s l limit_start hi req r /\
      (prefer <> 0 -> room s l limit_start hi req prefer -> r = prefer).
Proof using Hh Hok Hk Hreq Hal Hm.
  intros Hmask Hls Hsz Hlim Hlsk Hpk Hin Hpref Hfuel. unfold _find_free. rewrite Hmask, (u32_id (limit_start + _ - 1)) by lia.
  set (hi := limit_start + limit_size - 1). assert (Hnear : forall x, x ∈ l -> limit_start <= v_start s x /\ near s limit_start x).
  { intros x Hx. destruct (Hin x Hx). pose proof Hok as [Hf _]. rewrite Forall_forall in Hf. destruct (Hf x Hx) as (_ & ? & _).
    unfold near. lia. }
  destruct (Z.eqb_spec prefer 0) as [->|Hp0]; cbn [negb].
  - destruct (find_head_spec limit_start hi fuel) as (r & -> & Hr); try done; try lia.
    + intros v Hv. destruct (head_some l v Hv) as [l2 El]. destruct (Hin v) as [? ?]; [rewrite El; left|].
      pose proof Hok as [Hf _]. rewrite Forall_forall in Hf. destruct (Hf v) as (_ & ? & _); [rewrite El; left|]. lia.
    + exists r. split; [done|]. cbv zeta. unfold found in Hr. case_decide.
      * rewrite decide_False by tauto. intros a Ha Hroom. apply (Hr a Ha); [|by destruct Hroom|done].
        destruct Hroom. lia.
      * destruct Hr as (? & ? & ?). split_and!; done.
  - destruct (Hpref Hp0) as [Hpl Hph]. rewrite align_k by (done || lia). rewrite (u32_id (prefer + req - 1)) by lia.
    destruct (search_overlap_spec s l (mk_range prefer (prefer + req - 1)) Hh Hok) as (v & -> & Hv).
    cbn [mbind option_bind]. destruct v as [v|].
    + destruct Hv as [Hv Hov]. assert (Hnoroom : ~ room s l limit_start hi req prefer).
      { intros (_ & _ & Hfree). unfold overlaps in Hov. simpl in Hov. destruct (Hfree v Hv); lia. }
      destruct (has_flag flags MMF_MAP_FIXED) eqn:Hfix.
      { exists 0. split; [done|]. by rewrite decide_True, decide_True by done. }
      assert (v_start s v <= hi + 1).
      { destruct (Hin v Hv). pose proof Hok as [Hf _]. rewrite Forall_forall in Hf. destruct (Hf v Hv) as (_ & ? & _). lia. }
      destruct (overlapped_search_spec limit_start hi v fuel) as (r & Er & Hr); try done; try lia.
      exists r. split; [exact Er|]. unfold found in Hr. case_decide.
      * rewrite decide_False by naive_solver. intros a Ha Hroom. apply (Hr a Ha); [destruct Hroom; lia|by destruct Hroom|done].
      * destruct Hr as (? & _ & ?). split_and!; done.
    + exists prefer. split; [done|]. rewrite decide_False by done. split_and!; try done.
      split; [lia|]. split; [lia|]. intros x Hx. specialize (Hv x Hx). unfold overlaps in Hv. simpl in Hv. lia.
Qed.
End aligned.
End find.


