(* ===== verification/AspaceUnmap.v ===== *)
(** Removing mappings, components/mm/mm_aspace.c: shrinking and splitting a region,
    removing the part of a region that lies in a range, and [_unmap_range_locked].  The
    callbacks of the memory objects are parameters that return an error code; what they and
    the MMU do to pages is outside the model.  A region maps each of its pages to a page of
    its object; unmapping a range removes exactly the pages in the range. *)
From stdpp Require Import sorting.
From S2P Require Import Prelude Avl AvlTree AvlRep AvlRebalance AvlProp Aspace AspaceFind.
#[local] Open Scope Z_scope.

Definition RT_ENOENT : Z := 11.
Definition RT_ENOSPC : Z := 12.
Definition RT_EPERM : Z := 13.

Definition MM_PAGE_SHIFT : Z := 12.
Definition ARCH_PAGE_SIZE : Z := 4096.
Definition ARCH_PAGE_MASK : Z := ARCH_PAGE_SIZE - 1.
Definition MM_PA_TO_OFF (pa : Z) : Z := Z.shiftr pa MM_PAGE_SHIFT.

(** [struct rt_mm_va_hint]. *)
Record mm_va_hint := mk_hint {
  limit_start : Z; limit_range_size : Z; prefer : Z; map_size : Z; h_flags : Z }.

(** [struct rt_mm_fault_res]. *)
Record fault_res := mk_res { res_vaddr : Z; res_size : Z; res_status : Z }.

(** The callbacks of [struct rt_mem_obj] that decide about regions, over spaces [S] and
    regions [V]; [None] is a NULL pointer. *)
Record mem_obj_ops (S V : Type) := mk_ops {
  hint_free : option (mm_va_hint -> mm_va_hint);
  on_page_fault : option (S -> V -> Z -> Z -> fault_res);
  on_varea_shrink : option (S -> V -> Z -> Z -> Z);
  on_varea_expand : option (S -> V -> Z -> Z -> Z);
  on_varea_split : option (S -> V -> Z -> Z -> V -> Z);
  on_varea_merge : option (S -> V -> V -> Z) }.
Arguments mk_ops {S V}.
Arguments hint_free {S V} m.
Arguments on_page_fault {S V} m.
Arguments on_varea_shrink {S V} m.
Arguments on_varea_expand {S V} m.
Arguments on_varea_split {S V} m.
Arguments on_varea_merge {S V} m.

Section unmap.
Context {V Ob : Type} `{EqDecision V}.
Implicit Types (s : aspace V Ob) (x v existed subset : V) (range : mm_range) (l : list V).

(** What the memory objects do, and [rt_malloc(sizeof(struct rt_varea))]. *)
Context (ops : Ob -> mem_obj_ops (aspace V Ob) V) (varea_malloc : aspace V Ob -> option V).

Definition set_start x (z : Z) s : aspace V Ob :=
  mk_aspace (tree s) (fupd x z (v_start s)) (v_size s) (v_offset s) (v_attr s) (v_flag s) (v_obj s)
    (as_start s) (as_size s).
Definition set_size x (z : Z) s : aspace V Ob :=
  mk_aspace (tree s) (v_start s) (fupd x z (v_size s)) (v_offset s) (v_attr s) (v_flag s) (v_obj s)
    (as_start s) (as_size s).
Definition set_offset x (z : Z) s : aspace V Ob :=
  mk_aspace (tree s) (v_start s) (v_size s) (fupd x z (v_offset s)) (v_attr s) (v_flag s) (v_obj s)
    (as_start s) (as_size s).
Definition set_attr x (z : Z) s : aspace V Ob :=
  mk_aspace (tree s) (v_start s) (v_size s) (v_offset s) (fupd x z (v_attr s)) (v_flag s) (v_obj s)
    (as_start s) (as_size s).
Definition set_flag x (z : Z) s : aspace V Ob :=
  mk_aspace (tree s) (v_start s) (v_size s) (v_offset s) (v_attr s) (fupd x z (v_flag s)) (v_obj s)
    (as_start s) (as_size s).
Definition set_obj x (o : option Ob) s : aspace V Ob :=
  mk_aspace (tree s) (v_start s) (v_size s) (v_offset s) (v_attr s) (v_flag s) (fupd x o (v_obj s))
    (as_start s) (as_size s).

(** A callback of the region's memory object, if there is one. *)
Definition callback {F} (field : mem_obj_ops (aspace V Ob) V -> option F) x s : option F :=
  match v_obj s x with Some o => field (ops o) | None => None end.

Definition _varea_create (start size : Z) : M (aspace V Ob) (option V) :=
  varea ← gets varea_malloc;
  match varea with
  | Some x => modify (set_start x start);; modify (set_size x size);; mret (Some x)
  | None => mret None
  end.

(** The end of [_expand_varea] and [_shrink_varea]: new size, start and offset. *)
Definition move_varea x (new_va size : Z) : M (aspace V Ob) unit :=
  old_va ← gets (fun s => v_start s x);
  modify (set_size x size);;
  if decide (old_va <> new_va) then
    modify (set_start x new_va);;
    modify (fun s => set_offset x
      (u32 (v_offset s x + Z.shiftr (i32 (i32 new_va - i32 old_va)) MM_PAGE_SHIFT)) s);;
    _aspace_bst_remove x;;
    _aspace_bst_insert x
  else mret tt.

Definition _shrink_varea x (new_va size : Z) : M (aspace V Ob) Z :=
  error ← gets (fun s => match callback on_varea_shrink x s with
                        | Some f => f s x new_va size
                        | None => - RT_EPERM
                        end);
  if decide (error = RT_EOK) then move_varea x new_va size;; mret error else mret error.

Definition _expand_varea x (new_va size : Z) : M (aspace V Ob) Z :=
  error ← gets (fun s => match callback on_varea_expand x s with
                        | Some f => f s x new_va size
                        | None => - RT_EPERM
                        end);
  if decide (error = RT_EOK) then move_varea x new_va size;; mret error else mret error.

Definition _split_varea existed (ex_end unmap_start unmap_end unmap_len : Z) : M (aspace V Ob) Z :=
  split ← gets (callback on_varea_split existed);
  match split with
  | Some f =>
    let subset_start := unmap_end in
    let subset_size := u32 (ex_end - subset_start) in
    subset ← _varea_create subset_start subset_size;
    match subset with
    | Some subset =>
      rela_offset ← gets (fun s => MM_PA_TO_OFF (u32 (subset_start - v_start s existed)));
      modify (fun s => set_attr subset (v_attr s existed) s);;
      modify (fun s => set_obj subset (v_obj s existed) s);;
      modify (fun s => set_flag subset (Z.land (v_flag s existed) (u32 (Z.lnot MMF_STATIC_ALLOC))) s);;
      modify (fun s => set_offset subset (u32 (v_offset s existed + rela_offset)) s);;
      error ← gets (fun s => f s existed unmap_start unmap_len subset);
      if decide (error = RT_EOK) then
        modify (fun s => set_size existed (u32 (unmap_start - v_start s existed)) s);;
        _aspace_bst_insert subset;;
        mret error
      else mret error
    | None => mret (- RT_ENOMEM)
    end
  | None => mret (- RT_EPERM)
  end.

(** The MMU calls and [on_varea_close] concern pages only. *)
Definition _varea_uninstall_locked x : M (aspace V Ob) unit := _aspace_bst_remove x.

Definition _remove_overlapped_varea existed (unmap_start unmap_len : Z) : M (aspace V Ob) Z :=
  s ← get;
  let ex_start := v_start s existed in
  let ex_end := u32 (ex_start + v_size s existed) in
  let unmap_end := u32 (unmap_start + unmap_len) in
  if ex_start <? unmap_start then
    if unmap_end <? ex_end then _split_varea existed ex_end unmap_start unmap_end unmap_len
    else _shrink_varea existed ex_start (u32 (unmap_start - ex_start))
  else if unmap_end <? ex_end then _shrink_varea existed unmap_end (u32 (ex_end - unmap_end))
  else _varea_uninstall_locked existed;; mret RT_EOK.

Fixpoint unmap_range_loop (fuel : nat) (existed : option V) (error : Z) range (addr length : Z)
    : M (aspace V Ob) Z :=
  match fuel with
  | O => fun _ => None
  | S fuel =>
    match existed with
    | None => mret error
    | Some x =>
      error ← _remove_overlapped_varea x addr length;
      if decide (error = RT_EOK) then
        s ← get;
        existed ← deref (_aspace_bst_search_overlap range s);
        unmap_range_loop fuel existed error range addr length
      else mret error
    end
  end.

Definition _unmap_range_locked (fuel : nat) (addr length : Z) : M (aspace V Ob) Z :=
  let range := mk_range addr (u32 (addr + length - 1)) in
  s ← get;
  existed ← deref (_aspace_bst_search_overlap range s);
  unmap_range_loop fuel existed RT_EOK range addr length.

Definition _aspace_unmap (addr : Z) : M (aspace V Ob) Z :=
  s ← get;
  varea ← deref (_aspace_bst_search addr s);
  match varea with
  | None => mret (- RT_ENOENT)
  | Some x => _varea_uninstall_locked x;; mret RT_EOK
  end.
End unmap.

(** * What a space maps *)

Section maps.
Context {V Ob : Type} `{EqDecision V}.
Implicit Types (s : aspace V Ob) (x y v existed subset : V) (range : mm_range) (l : list V).

(** The address [p] in the region [x], and what is behind it: the object, the attributes and
    the page of the object. *)
Definition inside s x (p : Z) : Prop := v_start s x <= p < v_start s x + v_size s x.
Definition backing s x (p : Z) : option Ob * Z * Z :=
  (v_obj s x, v_attr s x, u32 (v_offset s x + (p - v_start s x) / ARCH_PAGE_SIZE)).
Definition maps s l (p : Z) (b : option Ob * Z * Z) : Prop :=
  exists x, x ∈ l /\ inside s x p /\ b = backing s x p.

(** Regions of whole pages, none of which reaches the top of the address space or has
    2 GiB or more. *)
Definition paged s x : Prop :=
  (ARCH_PAGE_SIZE | v_start s x) /\ (ARCH_PAGE_SIZE | v_size s x) /\
  v_start s x + v_size s x < 2 ^ 32 /\ v_size s x < 2 ^ 31.
Definition space_ok s l : Prop := holds s l /\ regions_ok s l /\ forall x, x ∈ l -> paged s x.

(** Outside of the range the mappings stay, and inside none is added. *)
Definition only_loses (lo len : Z) s l s' l' : Prop :=
  (forall p b, maps s' l' p b -> maps s l p b) /\
  (forall p b, ~ (lo <= p < lo + len) -> maps s l p b -> maps s' l' p b).

Lemma only_loses_refl lo len s l : only_loses lo len s l s l.
Proof. by split. Qed.

Lemma only_loses_trans lo len s1 l1 s2 l2 s3 l3 :
  only_loses lo len s1 l1 s2 l2 -> only_loses lo len s2 l2 s3 l3 -> only_loses lo len s1 l1 s3 l3.
Proof. unfold only_loses. naive_solver. Qed.

(** Two spaces agree on a region. *)
Definition agree s s' y : Prop :=
  v_start s' y = v_start s y /\ v_size s' y = v_size s y /\ v_offset s' y = v_offset s y /\
  v_attr s' y = v_attr s y /\ v_obj s' y = v_obj s y.

Lemma agree_region s s' y : agree s s' y -> (region_ok s y -> region_ok s' y) /\ (paged s y -> paged s' y) /\
  (forall p, inside s' y p <-> inside s y p) /\ (forall p, backing s' y p = backing s y p).
Proof.
  unfold agree, region_ok, paged, inside, backing. intros (-> & -> & -> & -> & ->). done.
Qed.

(** Regions around a place, apart from whatever is put there between two bounds. *)
Lemma regions_around s s' l1 l2 x (m : list V) : regions_ok s (l1 ++ x :: l2) ->
  (forall y, y ∈ l1 ++ l2 -> agree s s' y) -> regions_ok s' m ->
  (forall y, y ∈ m -> v_start s x <= v_start s' y /\ v_start s' y + v_size s' y <= v_start s x + v_size s x) ->
  regions_ok s' (l1 ++ m ++ l2).
Proof.
  intros Hok Hag [Fm Sm] Hm. destruct (regions_node _ _ _ _ Hok) as ([F1 S1] & [F2 S2] & _ & H1 & H2).
  assert (Hb : forall y z, y ∈ l1 ++ l2 -> z ∈ l1 ++ l2 -> below s y z -> below s' y z).
  { intros y z Hy Hz. unfold below. destruct (Hag y Hy) as (-> & -> & _). by destruct (Hag z Hz) as (-> & _). }
  assert (Hr : forall l', (forall y, y ∈ l' -> y ∈ l1 ++ l2) -> Forall (region_ok s) l' -> Forall (region_ok s') l').
  { intros l' Hin. rewrite !Forall_forall. intros Hf y Hy. apply (agree_region s s' y); auto. }
  assert (Hs : forall l', (forall y, y ∈ l' -> y ∈ l1 ++ l2) -> StronglySorted (below s) l' -> StronglySorted (below s') l').
  { intros l' Hin. induction l' as [|y l' IH]; [constructor|]. rewrite !StronglySorted_cons, !Forall_forall.
    intros [Hf Hs]. split; [intros z Hz; apply Hb; try apply Hin; [left|by right|by apply Hf]|].
    apply IH; [|done]. intros z Hz. apply Hin. by right. }
  assert (I1 : forall y, y ∈ l1 -> y ∈ l1 ++ l2) by (intros; apply elem_of_app; by left).
  assert (I2 : forall y, y ∈ l2 -> y ∈ l1 ++ l2) by (intros; apply elem_of_app; by right).
  split; [rewrite !Forall_app; auto|]. rewrite !StronglySorted_app. unfold below in *.
  split; [|split; [by apply Hs|split; [|split; [done|by apply Hs]]]].
  - intros y z Hy Hz. destruct (H1 y Hy) as [Hyx _]. destruct (Hag y (I1 y Hy)) as (-> & -> & _).
    apply elem_of_app in Hz as [Hz|Hz]; [destruct (Hm z Hz); lia|].
    destruct (H2 z Hz) as [Hxz _]. destruct (Hag z (I2 z Hz)) as (-> & _).
    destruct (regions_node _ _ _ _ Hok) as (_ & _ & Okx & _). unfold region_ok in Okx. lia.
  - intros y z Hy Hz. destruct (Hm y Hy). destruct (H2 z Hz) as [Hxz _]. destruct (Hag z (I2 z Hz)) as (-> & _). lia.
Qed.

(** The mappings when the region [x] is replaced by the regions [m]. *)
Lemma maps_around lo len s s' l1 l2 x (m : list V) :
  (forall y, y ∈ l1 ++ l2 -> agree s s' y) ->
  (forall y p, y ∈ m -> inside s' y p -> inside s x p /\ backing s' y p = backing s x p) ->
  (forall p, ~ (lo <= p < lo + len) -> inside s x p -> exists y, y ∈ m /\ inside s' y p) ->
  only_loses lo len s (l1 ++ x :: l2) s' (l1 ++ m ++ l2).
Proof.
  intros Hag Hin Hout. split.
  - intros p b (y & Hy & Hp & ->).
    assert (Hy' : y ∈ l1 ++ l2 \/ y ∈ m) by (rewrite !elem_of_app in *; tauto). destruct Hy' as [Hy'|Hy'].
    + destruct (agree_region s s' y (Hag y Hy')) as (_ & _ & Hi & Hb). exists y. rewrite Hb, <- Hi.
      split; [|done]. rewrite elem_of_app, elem_of_cons in *. tauto.
    + destruct (Hin y p Hy' Hp) as [Hi ->]. exists x. split; [|done]. apply elem_of_app. right. left.
  - intros p b Hp (y & Hy & Hi & ->). rewrite elem_of_app, elem_of_cons in Hy.
    destruct (decide (y = x)) as [->|].
    + destruct (Hout p Hp Hi) as (z & Hz & Hzp). exists z. destruct (Hin z p Hz Hzp) as [_ ->].
      split; [|done]. rewrite !elem_of_app. tauto.
    + assert (Hy' : y ∈ l1 ++ l2) by (rewrite elem_of_app; tauto).
      destruct (agree_region s s' y (Hag y Hy')) as (_ & _ & Hi' & Hb). exists y. rewrite Hb, Hi'.
      split; [|done]. rewrite !elem_of_app. tauto.
Qed.
End maps.

(** * Moving a region's ends *)

Section move.
Context {V Ob : Type} `{EqDecision V}.
Implicit Types (s : aspace V Ob) (x y : V) (l : list V).

(** [s'] is [s] with other ends of [x], except for its tree. *)
Record moved_to x (new_va size : Z) s s' : Prop := {
  mv_start y : v_start s' y = if decide (y = x) then new_va else v_start s y;
  mv_size y : v_size s' y = if decide (y = x) then size else v_size s y;
  mv_offset y : v_offset s' y =
    if decide (y = x /\ v_start s x <> new_va)
    then u32 (v_offset s x + Z.shiftr (i32 (i32 new_va - i32 (v_start s x))) MM_PAGE_SHIFT)
    else v_offset s y;
  mv_attr : v_attr s' = v_attr s;
  mv_obj : v_obj s' = v_obj s }.

Lemma insert_position (f : V -> Z) key (a b a' b' : list V) : a ++ b = a' ++ b' ->
  Forall (fun y => f y < key) a -> Forall (fun y => key < f y) b ->
  Forall (fun y => f y < key) a' -> Forall (fun y => key < f y) b' -> a = a' /\ b = b'.
Proof.
  revert a'. induction a as [|y a IH]; intros [|y' a'] Eq Ha Hb Ha' Hb'; simpl in Eq.
  - done.
  - subst b. apply Forall_cons in Hb as [? _]. apply Forall_cons in Ha' as [? _]. lia.
  - subst b'. apply Forall_cons in Ha as [? _]. apply Forall_cons in Hb' as [? _]. lia.
  - injection Eq as -> Eq. apply Forall_cons in Ha as [_ Ha]. apply Forall_cons in Ha' as [_ Ha'].
    by destruct (IH a' Eq Ha Hb Ha' Hb') as [-> ->].
Qed.

Lemma starts_sorted_eq s s' l : (forall y, y ∈ l -> v_start s' y = v_start s y) ->
  starts_sorted s l -> starts_sorted s' l.
Proof.
  unfold starts_sorted, start_lt. induction l as [|y l IH]; intros Hst Hs; [constructor|].
  apply StronglySorted_cons in Hs as [Hf Hs]. apply StronglySorted_cons. rewrite !Forall_forall in *. split.
  - intros z Hz. rewrite !Hst by (by left || by right). by apply Hf.
  - apply IH; [|done]. intros z Hz. apply Hst. by right.
Qed.

Lemma holds_fresh s l1 x l2 : holds s (l1 ++ x :: l2) -> x ∉ l1 ++ l2.
Proof.
  intros (_ & t & (_ & _ & Hnd) & _ & El). rewrite El in Hnd. apply NoDup_app in Hnd as (_ & Hd & [Hx _]%NoDup_cons).
  intros [Hx1|Hx2]%elem_of_app; [|done]. apply (Hd x Hx1). left.
Qed.

Lemma move_varea_wp s l1 x l2 (new_va size : Z) :
  holds s (l1 ++ x :: l2) -> starts_sorted s (l1 ++ l2) ->
  Forall (fun y => v_start s y < new_va) l1 -> Forall (fun y => new_va < v_start s y) l2 ->
  wp (move_varea x new_va size) (fun _ s' => holds s' (l1 ++ x :: l2) /\ moved_to x new_va size s s') s.
Proof.
  intros Hh Hs F1 F2. unfold move_varea. wp_step. wp_step. wp_step. apply wp_modify.
  destruct (decide (v_start s x = new_va)) as [E|E].
  { rewrite decide_False by tauto. wp_step. split; [exact Hh|].
    split; simpl; intros; unfold fupd; repeat case_decide; naive_solver. }
  rewrite decide_True by done. wp_step. wp_step. wp_step. wp_step. wp_step. set (s1 := set_offset x _ _).
  assert (Hh1 : holds s1 (l1 ++ x :: l2)) by exact Hh.
  eapply wp_mono; [apply (bst_remove_wp s1 l1 x l2 Hh1)|]. cbv beta. intros _ s2 [E2 Hh2].
  pose proof (holds_fresh s l1 x l2 Hh) as Hnx.
  assert (Hst : forall y, y ∈ l1 ++ l2 -> v_start s2 y = v_start s y).
  { intros y Hy. rewrite E2. simpl. unfold fupd. rewrite decide_False; [done|]. intros ->. contradiction. }
  assert (Hsx : v_start s2 x = new_va) by (rewrite E2; simpl; by rewrite fupd_eq).
  assert (Hs2 : starts_sorted s2 (l1 ++ l2)) by (by apply (starts_sorted_eq s)).
  assert (Hn : Z.of_nat (length (l1 ++ l2)) + 1 < 2 ^ 32).
  { destruct Hh as (Hn & _). rewrite length_app in *. simpl in Hn. lia. }
  eapply wp_mono; [by apply (bst_insert_wp s2 (l1 ++ l2) x)|]. cbv beta.
  assert (F1' : Forall (fun y => v_start s2 y < new_va) l1).
  { rewrite Forall_forall in *. intros y Hy. rewrite Hst; [auto|]. apply elem_of_app. by left. }
  assert (F2' : Forall (fun y => new_va < v_start s2 y) l2).
  { rewrite Forall_forall in *. intros y Hy. rewrite Hst; [auto|]. apply elem_of_app. by right. }
  rewrite Hsx. intros _ s3 [(y & Hy & Ey & _)|(a & b & Eab & Fa & Fb & E3 & Hh3)].
  - exfalso. rewrite Forall_forall in F1', F2'.
    apply elem_of_app in Hy as [Hy|Hy]; [specialize (F1' y Hy)|specialize (F2' y Hy)]; lia.
  - destruct (insert_position (v_start s2) new_va l1 l2 a b Eab F1' F2' Fa Fb) as [<- <-]. split; [done|].
    rewrite E3, E2. split; simpl; intros; unfold fupd; repeat case_decide; naive_solver.
Qed.
End move.

(** * Shrinking and splitting *)

Section shrink.
Context {V Ob : Type} `{EqDecision V}.
Implicit Types (s : aspace V Ob) (x y : V) (l : list V).
Context (ops : Ob -> mem_obj_ops (aspace V Ob) V).

Lemma i32_sub a b : - 2 ^ 31 <= a - b < 2 ^ 31 -> i32 (i32 a - i32 b) = a - b.
Proof. unfold i32. intros. Z.to_euclidean_division_equations. lia. Qed.

Lemma u32_add_idemp_l a b : u32 (u32 a + b) = u32 (a + b).
Proof. apply Z.add_mod_idemp_l. lia. Qed.

(** Both ends may move by whole pages: what is behind an address stays. *)
Lemma moved_backing x new_va size s s' p : moved_to x new_va size s s' ->
  (ARCH_PAGE_SIZE | new_va - v_start s x) -> - 2 ^ 31 <= new_va - v_start s x < 2 ^ 31 ->
  backing s' x p = backing s x p.
Proof.
  intros [Hst _ Hoff Hat Hob] [q Hq] Hr. unfold backing. rewrite Hat, Hob, Hst, Hoff, (decide_True (P := x = x)) by done.
  f_equal. destruct (decide (v_start s x = new_va)) as [Heq|Hne].
  - rewrite decide_False by tauto. by rewrite Heq.
  - rewrite decide_True by done.
    rewrite i32_sub, u32_add_idemp_l, Z.shiftr_div_pow2 by (try done; unfold MM_PAGE_SHIFT; lia). f_equal.
    change (2 ^ MM_PAGE_SHIFT) with ARCH_PAGE_SIZE. rewrite Hq, Z.div_mul by done.
    replace (p - v_start s x) with (p - new_va + q * ARCH_PAGE_SIZE) by lia. rewrite Z.div_add by done. lia.
Qed.

Lemma moved_agree x new_va size s s' y : moved_to x new_va size s s' -> y <> x -> agree s s' y.
Proof.
  intros [Hst Hsz Hoff Hat Hob] Hy. unfold agree. rewrite Hat, Hob, Hst, Hsz, Hoff.
  by rewrite !decide_False by naive_solver.
Qed.

(** The region [x] keeps the part from [nv] on of [sz] bytes. *)
Record part s x (nv sz : Z) : Prop := {
  pt_low : v_start s x <= nv; pt_high : nv + sz <= v_start s x + v_size s x; pt_pos : 1 <= sz;
  pt_start : (ARCH_PAGE_SIZE | nv); pt_size : (ARCH_PAGE_SIZE | sz) }.

Lemma moved_part_ok lo len s s' l1 x l2 nv sz :
  space_ok s (l1 ++ x :: l2) -> part s x nv sz -> holds s' (l1 ++ x :: l2) -> moved_to x nv sz s s' ->
  (forall p, ~ (lo <= p < lo + len) -> inside s x p -> nv <= p < nv + sz) ->
  space_ok s' (l1 ++ x :: l2) /\ only_loses lo len s (l1 ++ x :: l2) s' (l1 ++ x :: l2).
Proof.
  intros (Hh & Hok & Hpg) [Hlo Hhi Hpos Ha Hb] Hh' Hm Hkeep.
  pose proof (holds_fresh s l1 x l2 Hh) as Hnx.
  assert (Hag : forall y, y ∈ l1 ++ l2 -> agree s s' y).
  { intros y Hy. eapply moved_agree; [exact Hm|]. intros ->. contradiction. }
  destruct (regions_node _ _ _ _ Hok) as (_ & _ & Okx & _). unfold region_ok in Okx.
  assert (Hx : x ∈ l1 ++ x :: l2) by (apply elem_of_app; right; left).
  destruct (Hpg x Hx) as (Px1 & Px2 & Px3 & Px4).
  pose proof (mv_start _ _ _ _ _ Hm x) as Est. pose proof (mv_size _ _ _ _ _ Hm x) as Esz.
  rewrite decide_True in Est, Esz by done.
  split; [split; [done|split]|].
  - change (l1 ++ x :: l2) with (l1 ++ [x] ++ l2). apply (regions_around s s' l1 l2 x [x]); try done.
    + split; [|by repeat constructor]. constructor; [|done]. unfold region_ok. rewrite Est, Esz. lia.
    + intros y ->%list_elem_of_singleton. rewrite Est, Esz. lia.
  - intros y Hy. destruct (decide (y = x)) as [->|Hne]; [unfold paged; rewrite Est, Esz; split_and!; try done; lia|].
    apply (agree_region s s' y); [|by apply Hpg]. apply Hag. rewrite elem_of_app, elem_of_cons in *. tauto.
  - change (l1 ++ x :: l2) with (l1 ++ [x] ++ l2) at 2. apply maps_around; [done|..].
    + intros y p ->%list_elem_of_singleton. unfold inside. rewrite Est, Esz. intros Hp. split; [lia|].
      eapply moved_backing; [exact Hm|by apply Z.divide_sub_r|lia].
    + intros p Hp Hi. exists x. split; [left|]. unfold inside. rewrite Est, Esz. by apply Hkeep.
Qed.

(** The region's memory object lets it shrink. *)
Definition can_shrink s x : Prop := exists f, callback ops on_varea_shrink x s = Some f /\
  forall s x nv sz, f s x nv sz = RT_EOK.

Lemma shrink_varea_wp lo len s l1 x l2 nv sz :
  space_ok s (l1 ++ x :: l2) -> part s x nv sz ->
  (forall p, ~ (lo <= p < lo + len) -> inside s x p -> nv <= p < nv + sz) ->
  wp (_shrink_varea ops x nv sz) (fun e s' =>
    (e <> RT_EOK /\ s' = s /\ ~ can_shrink s x) \/
    (e = RT_EOK /\ moved_to x nv sz s s' /\ space_ok s' (l1 ++ x :: l2) /\
     only_loses lo len s (l1 ++ x :: l2) s' (l1 ++ x :: l2))) s.
Proof.
  intros Hsp Hpt Hkeep. pose proof Hsp as (Hh & Hok & _). pose proof Hpt as [Hlo Hhi Hpos _ _].
  destruct (regions_node _ _ _ _ Hok) as ([F1 _] & [F2 _] & _ & Hl & Hr).
  unfold _shrink_varea. wp_step. wp_step. case_decide as He; [|wp_step; left; split_and!; try done; intros (f & E & Hf); rewrite E, Hf in He; done]. wp_step.
  eapply wp_mono; [apply (move_varea_wp s l1 x l2 nv sz Hh)|].
  - pose proof (regions_starts s _ Hok) as Hs. apply StronglySorted_split in Hs as (S1 & S2 & _ & _ & S3).
    by apply StronglySorted_app.
  - apply Forall_forall. intros y Hy. destruct (Hl y Hy) as [Hb Hry]. unfold below, region_ok in *. lia.
  - apply Forall_forall. intros y Hy. destruct (Hr y Hy) as [Hb _]. unfold below in *. lia.
  - cbv beta. intros _ s' [Hh' Hm]. wp_step. right.
    destruct (moved_part_ok lo len s s' l1 x l2 nv sz) as [? ?]; try done.
Qed.
End shrink.
