(* ===== verification/AspaceUnmapProp.v ===== *)
(** [_unmap_range_locked] of components/mm/mm_aspace.c: the loop removes every mapping in
    the range and no other, region by region, and stops early only when a callback or the
    allocation fails. *)
From stdpp Require Import sorting.
From S2P Require Import Prelude Avl AvlTree AvlRep AvlRebalance AvlProp Aspace AspaceFind AspaceUnmap.
#[local] Open Scope Z_scope.

Section unmap.
Context {V Ob : Type} `{EqDecision V}.
Implicit Types (s : aspace V Ob) (x y existed subset : V) (range : mm_range) (l : list V).

(** * Counting the regions that overlap a range *)

#[global] Instance overlaps_dec s range x : Decision (overlaps s range x).
Proof. unfold overlaps. apply _. Defined.

Definition hits s range l : nat := length (filter (overlaps s range) l).

Lemma hits_app s range l1 l2 : hits s range (l1 ++ l2) = (hits s range l1 + hits s range l2)%nat.
Proof. unfold hits. by rewrite filter_app, length_app. Qed.

Lemma hits_single s range x : hits s range [x] = if decide (overlaps s range x) then 1%nat else 0%nat.
Proof. unfold hits. rewrite filter_cons. by case_decide. Qed.

Lemma hits_le s range l : (hits s range l <= length l)%nat.
Proof. apply length_filter. Qed.

Lemma hits_agree s s' range l : (forall y, y ∈ l -> agree s s' y) -> hits s' range l = hits s range l.
Proof.
  intros Hag. unfold hits. f_equal. apply filter_in. intros y Hy. unfold overlaps.
  by destruct (Hag y Hy) as (-> & -> & _).
Qed.

(** * Spaces that agree on the regions *)

Lemma agree_regions s s' l : (forall y, y ∈ l -> agree s s' y) -> regions_ok s l -> regions_ok s' l.
Proof.
  intros Hag [Hf Hs]. split.
  - rewrite !Forall_forall in *. intros y Hy. apply (agree_region s s' y); auto.
  - clear -Hs Hag. induction l as [|y l IH]; [constructor|]. apply StronglySorted_cons in Hs as [Hf Hs].
    apply StronglySorted_cons. rewrite !Forall_forall in *. split.
    + intros z Hz. unfold below. destruct (Hag y ltac:(left)) as (-> & -> & _).
      destruct (Hag z ltac:(by right)) as (-> & _). by apply Hf.
    + apply IH; [|done]. intros z Hz. apply Hag. by right.
Qed.

Lemma agree_space lo len s s' l : (forall y, y ∈ l -> agree s s' y) -> holds s' l -> space_ok s l ->
  space_ok s' l /\ only_loses lo len s l s' l.
Proof.
  intros Hag Hh' (Hh & Hok & Hpg). split; [split; [done|split]|split].
  - by apply (agree_regions s).
  - intros y Hy. apply (agree_region s s' y); auto.
  - intros p b (y & Hy & Hp & ->). destruct (agree_region s s' y (Hag y Hy)) as (_ & _ & Hi & Hb).
    exists y. by rewrite Hb, <- Hi.
  - intros p b _ (y & Hy & Hp & ->). destruct (agree_region s s' y (Hag y Hy)) as (_ & _ & Hi & Hb).
    exists y. by rewrite Hb, Hi.
Qed.

Lemma page_size_low z : 1 <= z -> (ARCH_PAGE_SIZE | z) -> ARCH_PAGE_SIZE <= z.
Proof. intros Hz Hd. apply Z.divide_pos_le; [lia|done]. Qed.

Lemma space_length s l : space_ok s l -> Z.of_nat (length l) <= 2 ^ 20.
Proof.
  intros (_ & [Hf Hs] & Hpg).
  assert (H : forall a, (forall y, y ∈ l -> a <= v_start s y) -> l <> [] ->
    a + ARCH_PAGE_SIZE * Z.of_nat (length l) <= 2 ^ 32).
  { induction l as [|x l IH]; intros a Ha Hne; [done|]. apply Forall_cons in Hf as [(Hx0 & Hx1 & Hx2) Hf].
    apply StronglySorted_cons in Hs as [Hb Hs]. rewrite Forall_forall in Hb.
    pose proof (Ha x ltac:(left)). destruct (Hpg x ltac:(left)) as (_ & Hd & _).
    pose proof (page_size_low _ Hx1 Hd). destruct l as [|y l]; [simpl; lia|].
    assert (E : v_start s x + v_size s x + ARCH_PAGE_SIZE * Z.of_nat (length (y :: l)) <= 2 ^ 32).
    { apply IH; try done. intros z Hz. apply Hpg. by right. }
    change (length (x :: y :: l)) with (S (length (y :: l))). lia. }
  destruct l as [|x l]; [simpl; lia|]. rewrite Forall_forall in Hf.
  pose proof (H 0 ltac:(intros y Hy; by destruct (Hf y Hy)) ltac:(done)). unfold ARCH_PAGE_SIZE in *. lia.
Qed.

(** * One region *)

Section step.
Context (lo len : Z) (Hlo : 0 <= lo) (Hlen : 1 <= len) (Hhi : lo + len < 2 ^ 32)
  (Plo : (ARCH_PAGE_SIZE | lo)) (Plen : (ARCH_PAGE_SIZE | len)).

Definition unmap_range : mm_range := mk_range lo (lo + len - 1).

(** What every step promises; [good] is what it needs to succeed. *)
Definition progress (good : Prop) s l (e : Z) s' : Prop := (good -> e = RT_EOK) /\ exists l',
  space_ok s' l' /\ only_loses lo len s l s' l' /\
  (e = RT_EOK -> (hits s' unmap_range l' < hits s unmap_range l)%nat).

Lemma hits_middle s l1 x (m : list V) l2 s' : x ∉ l1 ++ l2 -> overlaps s unmap_range x ->
  (forall y, y ∈ l1 ++ l2 -> agree s s' y) -> (forall y, y ∈ m -> ~ overlaps s' unmap_range y) ->
  (hits s' unmap_range (l1 ++ m ++ l2) < hits s unmap_range (l1 ++ x :: l2))%nat.
Proof.
  intros Hx Hov Hag Hm. change (x :: l2) with ([x] ++ l2). rewrite !hits_app, hits_single, decide_True by done.
  rewrite (hits_agree s s' _ l1), (hits_agree s s' _ l2) by (intros y Hy; apply Hag, elem_of_app; tauto).
  unfold hits at 2. rewrite filter_no by done. simpl. lia.
Qed.

Lemma uninstall_step s l1 x l2 : space_ok s (l1 ++ x :: l2) -> overlaps s unmap_range x ->
  (forall p, inside s x p -> lo <= p < lo + len) ->
  wp (_varea_uninstall_locked x;; mret RT_EOK) (progress True s (l1 ++ x :: l2)) s.
Proof using Hlo Hlen Hhi.
  intros (Hh & Hok & Hpg) Hov Hin. wp_step. pose proof (holds_fresh s l1 x l2 Hh) as Hnx.
  eapply wp_mono; [by apply bst_remove_wp|]. cbv beta. intros _ s' [E Hh']. wp_step.
  assert (Hag : forall y, y ∈ l1 ++ l2 -> agree s s' y) by (rewrite E; done).
  split; [done|]. exists (l1 ++ [] ++ l2). split; [split; [done|split]|split].
  - apply (regions_around s s' l1 l2 x []); try done; [by split; constructor|]. intros y []%elem_of_nil.
  - intros y Hy. apply (agree_region s s' y); [by apply Hag|]. apply Hpg. rewrite elem_of_app, elem_of_cons.
    simpl in Hy. rewrite elem_of_app in Hy. tauto.
  - apply maps_around; [done|intros y p []%elem_of_nil|]. intros p Hp Hi. by destruct (Hp (Hin p Hi)).
  - intros _. apply hits_middle; try done. intros y []%elem_of_nil.
Qed.

Context (ops : Ob -> mem_obj_ops (aspace V Ob) V).

Lemma shrink_step s l1 x l2 nv sz : space_ok s (l1 ++ x :: l2) -> overlaps s unmap_range x ->
  part s x nv sz -> (forall p, ~ (lo <= p < lo + len) -> inside s x p -> nv <= p < nv + sz) ->
  nv + sz <= lo \/ lo + len <= nv ->
  wp (_shrink_varea ops x nv sz) (progress (can_shrink ops s x) s (l1 ++ x :: l2)) s.
Proof using Hlo Hlen Hhi.
  intros Hsp Hov Hpt Hkeep Hout. pose proof Hsp as (Hh & _).
  eapply wp_mono; [by apply (shrink_varea_wp ops lo len s l1 x l2 nv sz)|]. cbv beta.
  intros e s' [(He & -> & Hc)|(He & Hm & Hsp' & Hol)].
  - split; [done|]. exists (l1 ++ x :: l2). split; [done|]. split; [apply only_loses_refl|done].
  - split; [done|]. exists (l1 ++ [x] ++ l2). split; [done|]. split; [done|]. intros _.
    pose proof (holds_fresh s l1 x l2 Hh) as Hnx.
    apply hits_middle; try done; [intros y Hy; eapply moved_agree; [exact Hm|]; intros ->; contradiction|].
    intros y ->%list_elem_of_singleton. unfold overlaps, unmap_range. simpl.
    rewrite (mv_start _ _ _ _ _ Hm), (mv_size _ _ _ _ _ Hm), !decide_True by done. lia.
Qed.

Lemma progress_stay good s l e : space_ok s l -> e <> RT_EOK -> ~ good -> progress good s l e s.
Proof using Type. intros Hs He Hg. split; [done|]. exists l. split; [done|]. split; [apply only_loses_refl|done]. Qed.

(** The space [s2] is [s] with [x] cut at [lo] and the rest behind the range in [y]. *)
Definition cut x y s s2 : Prop :=
  (forall z, z <> x -> z <> y -> agree s s2 z) /\
  v_start s2 x = v_start s x /\ v_size s2 x = lo - v_start s x /\
  v_start s2 y = lo + len /\ v_size s2 y = v_start s x + v_size s x - (lo + len) /\
  (forall p, inside s2 x p -> backing s2 x p = backing s x p) /\
  (forall p, inside s2 y p -> backing s2 y p = backing s x p).

Lemma cut_ok s s2 l1 x y l2 : space_ok s (l1 ++ x :: l2) -> y ∉ l1 ++ x :: l2 -> cut x y s s2 ->
  v_start s x < lo -> lo + len < v_start s x + v_size s x -> holds s2 (l1 ++ x :: y :: l2) ->
  progress True s (l1 ++ x :: l2) RT_EOK s2.
Proof using EqDecision0 Hlo Hlen Hhi Plo Plen.
  intros (Hh & Hok & Hpg) Hy (Hag & Sx & Zx & Sy & Zy & Bx & By) Hl Hr Hh2.
  pose proof (holds_fresh s l1 x l2 Hh) as Hnx.
  assert (Hag' : forall z, z ∈ l1 ++ l2 -> agree s s2 z).
  { intros z Hz. apply Hag; [intros ->; contradiction|intros ->; apply Hy].
    rewrite elem_of_app, elem_of_cons in *. tauto. }
  destruct (regions_node _ _ _ _ Hok) as (_ & _ & (Ox1 & Ox2 & Ox3) & _).
  destruct (Hpg x) as (Px1 & Px2 & Px3 & Px4); [apply elem_of_app; right; left|].
  assert (Hm : forall z, z ∈ [x; y] -> z = x \/ z = y) by set_solver.
  change (l1 ++ x :: y :: l2) with (l1 ++ [x; y] ++ l2) in Hh2. split; [done|]. exists (l1 ++ [x; y] ++ l2).
  split; [split; [done|split]|split].
  - apply (regions_around s s2 l1 l2 x [x; y]); try done.
    + unfold regions_ok, region_ok, below. split.
      * apply Forall_cons. split; [lia|]. apply Forall_singleton. lia.
      * apply StronglySorted_cons. split; [apply Forall_singleton; lia|]. by repeat constructor.
    + intros z [->| ->]%Hm; lia.
  - intros z Hz. assert (Hz' : z ∈ l1 ++ l2 \/ z ∈ [x; y]) by (rewrite !elem_of_app in *; tauto).
    destruct Hz' as [Hz'|[->| ->]%Hm].
    + apply (agree_region s s2 z); [by apply Hag'|]. apply Hpg. rewrite elem_of_app, elem_of_cons in *. tauto.
    + unfold paged. rewrite Sx, Zx. split_and!; try done; try lia. by apply Z.divide_sub_r.
    + unfold paged. rewrite Sy, Zy. split_and!; try lia; [by apply Z.divide_add_r|].
      apply Z.divide_sub_r; by apply Z.divide_add_r.
  - apply maps_around; [done|..].
    + intros z p [->| ->]%Hm Hp; (split; [|auto]); unfold inside in *; lia.
    + intros p Hp Hi. unfold inside in *. destruct (decide (p < lo)); [exists x|exists y]; (split; [set_solver|]); lia.
  - intros _. apply hits_middle; try done; [unfold overlaps, unmap_range; simpl; lia|].
    intros z [->| ->]%Hm; unfold overlaps, unmap_range; simpl; lia.
Qed.

Context (varea_malloc : aspace V Ob -> option V).
Context (varea_fresh : forall s l y, space_ok s l -> varea_malloc s = Some y -> y ∉ l).

(** The page behind an address of the part that was split off. *)
Lemma subset_page off a b p : (ARCH_PAGE_SIZE | b - a) -> 0 <= b - a < 2 ^ 32 ->
  u32 (u32 (off + MM_PA_TO_OFF (u32 (b - a))) + (p - b) / ARCH_PAGE_SIZE) = u32 (off + (p - a) / ARCH_PAGE_SIZE).
Proof using Type.
  intros [q Hq] Hr. rewrite u32_add_idemp_l, (u32_id (b - a)) by done. unfold MM_PA_TO_OFF.
  rewrite Z.shiftr_div_pow2 by (unfold MM_PAGE_SHIFT; lia). change (2 ^ MM_PAGE_SHIFT) with ARCH_PAGE_SIZE.
  rewrite Hq, Z.div_mul by done. replace (p - a) with (p - b + q * ARCH_PAGE_SIZE) by lia.
  rewrite Z.div_add by done. f_equal. lia.
Qed.

(** Inserting the region that was split off. *)
Lemma insert_cut s s2 l1 x y l2 : space_ok s (l1 ++ x :: l2) -> y ∉ l1 ++ x :: l2 -> holds s2 (l1 ++ x :: l2) ->
  cut x y s s2 -> v_start s x < lo -> lo + len < v_start s x + v_size s x ->
  wp (_aspace_bst_insert y) (fun _ s3 => progress True s (l1 ++ x :: l2) RT_EOK s3) s2.
Proof using EqDecision0 Hlo Hlen Hhi Plo Plen.
  intros Hsp Hy Hh2 Hcut Hl Hr. pose proof Hsp as (Hh & Hok & _). pose proof Hcut as (Hag & Sx & _ & Sy & _).
  assert (Hst : forall z, z ∈ l1 ++ x :: l2 -> v_start s2 z = v_start s z).
  { intros z Hz. destruct (decide (z = x)) as [->|]; [done|]. apply Hag; [done|]. intros ->. contradiction. }
  destruct (regions_node _ _ _ _ Hok) as (_ & _ & _ & H1 & H2).
  eapply wp_mono; [apply (bst_insert_wp s2 (l1 ++ x :: l2) y Hh2); try done|].
  - apply (starts_sorted_eq s); [done|]. by apply regions_starts.
  - pose proof (space_length s _ Hsp). lia.
  - cbv beta. rewrite Sy.
    assert (F1 : Forall (fun z => v_start s2 z < lo + len) (l1 ++ [x])).
    { apply Forall_app. split; [|apply Forall_singleton; lia]. apply Forall_forall. intros z Hz.
      rewrite Hst by (apply elem_of_app; by left). destruct (H1 z Hz). unfold below, region_ok in *. lia. }
    assert (F2 : Forall (fun z => lo + len < v_start s2 z) l2).
    { apply Forall_forall. intros z Hz. rewrite Hst by (apply elem_of_app; right; by right).
      destruct (H2 z Hz). unfold below in *. lia. }
    intros _ s3 [(z & Hz & Ez & _)|(a & b & Eab & Fa & Fb & E3 & Hh3)].
    + exfalso. change (x :: l2) with ([x] ++ l2) in Hz. rewrite app_assoc in Hz. rewrite Forall_forall in F1, F2.
      apply elem_of_app in Hz as [Hz|Hz]; [specialize (F1 z Hz)|specialize (F2 z Hz)]; lia.
    + change (x :: l2) with ([x] ++ l2) in Eab. rewrite app_assoc in Eab.
      destruct (insert_position (v_start s2) (lo + len) (l1 ++ [x]) l2 a b) as [<- <-]; try done.
      rewrite <- app_assoc in Hh3. simpl in Hh3. apply (cut_ok s s3 l1 x y l2); try done. rewrite E3. exact Hcut.
Qed.

(** The region's memory object lets it be split, and there is memory for the other part. *)
Definition can_split s x : Prop := (exists f, callback ops on_varea_split x s = Some f /\
  forall s x lo len y, f s x lo len y = RT_EOK) /\ is_Some (varea_malloc s).

Lemma split_step s l1 x l2 : space_ok s (l1 ++ x :: l2) ->
  v_start s x < lo -> lo + len < v_start s x + v_size s x ->
  wp (_split_varea ops varea_malloc x (v_start s x + v_size s x) lo (lo + len) len)
    (progress (can_split s x) s (l1 ++ x :: l2)) s.
Proof.
  intros Hsp Hl Hr. pose proof Hsp as (Hh & Hok & Hpg).
  assert (Hxin : x ∈ l1 ++ x :: l2) by (apply elem_of_app; right; left).
  destruct (regions_node _ _ _ _ Hok) as (_ & _ & (Ox1 & Ox2 & Ox3) & _). destruct (Hpg x Hxin) as (Px1 & Px2 & Px3 & Px4).
  unfold _split_varea. wp_step. wp_step. destruct (callback _ _ x s) as [f|] eqn:Ef;
    [|wp_step; apply progress_stay; try done; intros [(f & Ef' & _) _]; congruence].
  cbv zeta. wp_step. unfold _varea_create. wp_step. wp_step.
  destruct (varea_malloc s) as [y|] eqn:Ey; [|wp_step; wp_step; apply progress_stay; try done; intros [_ [y Ey']]; congruence].
  pose proof (varea_fresh s _ y Hsp Ey) as Hy. repeat wp_step. set (s1 := set_offset y _ _).
  assert (Hyx : y <> x) by (intros ->; contradiction).
  assert (Hag1 : forall z, z <> y -> agree s s1 z).
  { intros z Hz. unfold agree, s1. simpl. by rewrite !fupd_ne by done. }
  assert (Hy1 : v_start s1 y = lo + len /\ v_size s1 y = v_start s x + v_size s x - (lo + len) /\
    v_attr s1 y = v_attr s x /\ v_obj s1 y = v_obj s x /\
    v_offset s1 y = u32 (v_offset s x + MM_PA_TO_OFF (u32 (lo + len - v_start s x)))).
  { unfold s1. simpl. rewrite !fupd_eq, !fupd_ne, u32_id by (done || lia). done. }
  assert (Hh1 : holds s1 (l1 ++ x :: l2)) by exact Hh.
  clearbody s1. destruct Hy1 as (Ys & Yz & Ya & Yo & Yf). case_decide as He.
  - repeat wp_step. eapply wp_mono; [apply (insert_cut s _ l1 x y l2 Hsp Hy)|].
    + exact Hh1.
    + destruct (Hag1 x ltac:(done)) as (Xs & _ & Xf & Xa & Xo). unfold cut, inside, backing. simpl.
      rewrite !fupd_eq, !(fupd_ne _ y) by done. rewrite Xs, Xf, Xa, Xo, Ys, Yz, Ya, Yo, Yf, u32_id by lia.
      split_and!; try done.
      * intros z Hzx Hzy. unfold agree. simpl. rewrite fupd_ne by done. by apply Hag1.
      * intros p _. rewrite subset_page; [done| |lia]. apply Z.divide_sub_r; [by apply Z.divide_add_r|done].
    + done.
    + done.
    + cbv beta. intros _ s3 [_ Hp]. wp_step. rewrite He. done.
  - wp_step. destruct (agree_space lo len s s1 (l1 ++ x :: l2)) as [Hs1 Ho1]; try done.
    { intros z Hz. apply Hag1. intros ->. contradiction. }
    split; [intros [(f' & Ef' & Hf') _]; rewrite Ef in Ef'; injection Ef' as <-; by rewrite Hf' in He|].
    exists (l1 ++ x :: l2). done.
Qed.

Lemma progress_mono (g g' : Prop) (m : M (aspace V Ob) Z) s0 l s : (g -> g') ->
  wp m (progress g' s0 l) s -> wp m (progress g s0 l) s.
Proof using Type.
  intros Hg Hw. eapply wp_mono; [exact Hw|]. intros e s' [He Hp]. split; [auto|done].
Qed.

Lemma remove_overlapped_wp s l1 x l2 : space_ok s (l1 ++ x :: l2) -> overlaps s unmap_range x ->
  wp (_remove_overlapped_varea ops varea_malloc x lo len)
    (progress (can_shrink ops s x /\ can_split s x) s (l1 ++ x :: l2)) s.
Proof.
  intros Hsp [Hov1 Hov2]. pose proof Hsp as (Hh & Hok & Hpg). simpl in Hov1, Hov2.
  destruct (regions_node _ _ _ _ Hok) as (_ & _ & (Ox1 & Ox2 & Ox3) & _).
  destruct (Hpg x ltac:(apply elem_of_app; right; left)) as (Px1 & Px2 & Px3 & Px4).
  unfold _remove_overlapped_varea. do 2 wp_step. cbv zeta.
  rewrite !(u32_id (v_start s x + v_size s x)), (u32_id (lo + len)) by lia.
  destruct (Z.ltb_spec (v_start s x) lo), (Z.ltb_spec (lo + len) (v_start s x + v_size s x)).
  - apply (progress_mono _ (can_split s x)); [tauto|]. by apply split_step.
  - apply (progress_mono _ (can_shrink ops s x)); [tauto|]. rewrite u32_id by lia.
    apply shrink_step; try done; [|intros p Hp Hi; unfold inside in Hi; lia|lia].
    split; try done; try lia. by apply Z.divide_sub_r.
  - apply (progress_mono _ (can_shrink ops s x)); [tauto|]. rewrite u32_id by lia.
    apply shrink_step; try done; [|intros p Hp Hi; unfold inside in Hi; lia|lia].
    split; try lia; [by apply Z.divide_add_r|]. apply Z.divide_sub_r; by apply Z.divide_add_r.
  - apply (progress_mono _ True); [done|]. apply uninstall_step; try done. intros p Hp. unfold inside in Hp. lia.
Qed.

(** Memory objects that let their regions be cut, and memory for the parts. *)
Definition obliging : Prop := (forall s l, space_ok s l -> is_Some (varea_malloc s)) /\ forall o,
  (exists f, on_varea_shrink (ops o) = Some f /\ forall s x nv sz, f s x nv sz = RT_EOK) /\
  (exists f, on_varea_split (ops o) = Some f /\ forall s x lo len y, f s x lo len y = RT_EOK).

(** Behind every mapped address is a memory object. *)
Definition backed s l : Prop := forall p b, maps s l p b -> is_Some b.1.1.

Lemma obliging_good s l x : obliging -> space_ok s l -> backed s l -> x ∈ l -> region_ok s x -> can_shrink ops s x /\ can_split s x.
Proof using Type.
  intros [Hm Ho] Hsp Hb Hx (H0 & H1 & _). specialize (Hm s l Hsp). destruct (Hb (v_start s x) (backing s x (v_start s x))) as [o Eo].
  { exists x. split; [done|]. unfold inside. split; [lia|done]. }
  simpl in Eo. destruct (Ho o) as [Hs1 Hs2]. unfold can_shrink, can_split, callback. rewrite Eo. auto.
Qed.

(** What the whole removal promises. *)
Definition unmapped s l (e : Z) s' : Prop := (obliging -> backed s l -> e = RT_EOK) /\ exists l',
  space_ok s' l' /\ only_loses lo len s l s' l' /\
  (e = RT_EOK -> forall p b, lo <= p < lo + len -> ~ maps s' l' p b).

Lemma unmap_range_loop_wp fuel : forall s l,
  space_ok s l -> (hits s unmap_range l < fuel)%nat ->
  wp (existed ← deref (_aspace_bst_search_overlap unmap_range s);
      unmap_range_loop ops varea_malloc fuel existed RT_EOK unmap_range lo len) (unmapped s l) s.
Proof.
  induction fuel as [|fuel IH]; intros s l Hsp Hf; [lia|]. pose proof Hsp as (Hh & Hok & Hpg).
  destruct (search_overlap_spec s l unmap_range Hh Hok) as (r & Er & Hr). rewrite Er.
  wp_step. wp_step; [done|]. destruct r as [x|]; cbn [unmap_range_loop].
  - destruct Hr as [Hx Hov]. destruct (list_elem_of_split l x Hx) as (l1 & l2 & ->). wp_step.
    eapply wp_mono; [by apply remove_overlapped_wp|]. cbv beta. intros e s' [Hgood (l' & Hsp' & Hol & Hhit)].
    case_decide as He.
    + wp_step. wp_step. rewrite He. eapply wp_mono; [apply (IH s' l' Hsp'); specialize (Hhit He); lia|].
      cbv beta. intros e' s2 [Hg2 (l2' & Hsp2 & Hol2 & Hend)]. split.
      * intros Hob Hb. apply Hg2; [done|]. intros p b Hp. by apply (Hb p), Hol.
      * exists l2'. split; [done|]. split; [|done]. by eapply only_loses_trans.
    + wp_step. split; [|by exists l']. intros Hob Hb. apply Hgood.
      destruct (regions_node _ _ _ _ Hok) as (_ & _ & Okx & _). by apply (obliging_good s (l1 ++ x :: l2)).
  - wp_step. split; [done|]. exists l. split; [done|]. split; [apply only_loses_refl|].
    intros _ p b Hp (x & Hx & Hi & _). apply (Hr x Hx). unfold overlaps, inside, unmap_range in *. simpl. lia.
Qed.

Lemma unmap_range_wp s l fuel : space_ok s l -> (length l < fuel)%nat ->
  wp (_unmap_range_locked ops varea_malloc fuel lo len) (unmapped s l) s.
Proof.
  intros Hsp Hf. unfold _unmap_range_locked. rewrite u32_id by lia. wp_step. wp_step.
  apply unmap_range_loop_wp; [done|]. pose proof (hits_le s unmap_range l). lia.
Qed.
End step.
End unmap.

(** C29: [_unmap_range_locked] on a range of whole pages ends with every region well formed;
    no address outside of the range loses what is mapped there and none gains anything, through
    all the shrinking and splitting; when it returns [RT_EOK] nothing in the range is mapped,
    and it does so whenever the callbacks and the allocation succeed. *)
Theorem unmap_range_refines {V Ob : Type} `{EqDecision V} (ops : Ob -> mem_obj_ops (aspace V Ob) V)
    (varea_malloc : aspace V Ob -> option V) (s : aspace V Ob) (l : list V) (lo len : Z) (fuel : nat) :
  (forall s l y, space_ok s l -> varea_malloc s = Some y -> y ∉ l) ->
  0 <= lo -> 1 <= len -> lo + len < 2 ^ 32 -> (ARCH_PAGE_SIZE | lo) -> (ARCH_PAGE_SIZE | len) ->
  space_ok s l -> (length l < fuel)%nat ->
  wp (_unmap_range_locked ops varea_malloc fuel lo len) (fun e s' =>
    (obliging ops varea_malloc -> backed s l -> e = RT_EOK) /\ exists l', space_ok s' l' /\
    (forall p b, maps s' l' p b -> maps s l p b) /\
    (forall p b, ~ (lo <= p < lo + len) -> maps s l p b -> maps s' l' p b) /\
    (e = RT_EOK -> forall p b, lo <= p < lo + len -> ~ maps s' l' p b)) s.
Proof.
  intros Hfr H0 H1 H2 P1 P2 Hsp Hf. eapply wp_mono; [by apply (unmap_range_wp lo len) with (l := l)|].
  cbv beta. intros e s' (Hg & l' & Hsp' & [Ho1 Ho2] & He). split; [done|]. by exists l'.
Qed.

(** [rt_malloc] as a number above those of all nodes in the tree. *)
Fixpoint reach (fuel : nat) (p : option nat) (h : avl nat) : list nat :=
  match fuel, p with
  | S fuel, Some n => n :: reach fuel (avl_left h n) h ++ reach fuel (avl_right h n) h
  | _, _ => []
  end.
Definition unused (s : aspace nat nat) : option nat :=
  Some (S (foldr Nat.max 0%nat (reach AVL_FUEL (root_node (tree s)) (tree s)))).

Lemma reach_elems h t : forall par fuel x, rep h par t -> balanced t -> ht t < Z.of_nat fuel ->
  x ∈ elems t -> x ∈ reach fuel (ptr t) h.
Proof.
  induction t as [|l IHl n hn r IHr]; intros par fuel x Hr Hb Hf Hx; [by apply elem_of_nil in Hx|].
  destruct fuel as [|fuel]; [pose proof (balanced_ht _ Hb); lia|].
  destruct (subtree_fuel _ _ _ _ _ Hb Hf) as (_ & Bl & Br & Hfl & Hfr).
  destruct Hr as (_ & _ & El & Er & Rl & Rr). cbn [ptr reach]. rewrite El, Er.
  apply elem_node in Hx as [Hx|[->|Hx]]; [right|left|right]; apply elem_of_app; [left|right]; eauto.
Qed.

Lemma max_above (l : list nat) x : x ∈ l -> (x <= foldr Nat.max 0 l)%nat.
Proof. induction 1; simpl; lia. Qed.

Lemma unused_fresh s l y : space_ok s l -> unused s = Some y -> y ∉ l.
Proof.
  intros (Hh & _ & _) Hu Hy. unfold unused in Hu. apply (inj Some) in Hu. subst y.
  destruct (holds_facts s l Hh) as (t & Hroot & Hrep & Hb & Hf & _ & <-).
  apply (reach_elems _ _ _ _ _ Hrep Hb Hf), max_above in Hy. rewrite Hroot in Hy. lia.
Qed.

Lemma one_space_paged : space_ok one_space [1%nat].
Proof.
  split; [apply one_space_ok|split; [apply one_space_ok|]]. intros x ->%list_elem_of_singleton.
  unfold paged. simpl. split_and!; [by exists 2|by exists 3|lia|lia].
Qed.

(** All callbacks succeed. *)
Definition kind_ops (o : nat) : mem_obj_ops (aspace nat nat) nat :=
  mk_ops None None (Some (fun _ _ _ _ => RT_EOK)) (Some (fun _ _ _ _ => RT_EOK))
    (Some (fun _ _ _ _ _ => RT_EOK)) (Some (fun _ _ _ => RT_EOK)).

(** The middle page of the region is unmapped. *)
Lemma unmap_range_refines_witness :
  wp (_unmap_range_locked kind_ops unused 2 12288 4096) (fun e s' =>
    (obliging kind_ops unused -> backed one_space [1%nat] -> e = RT_EOK) /\ exists l', space_ok s' l' /\
    (forall p b, maps s' l' p b -> maps one_space [1%nat] p b) /\
    (forall p b, ~ (12288 <= p < 12288 + 4096) -> maps one_space [1%nat] p b -> maps s' l' p b) /\
    (e = RT_EOK -> forall p b, 12288 <= p < 12288 + 4096 -> ~ maps s' l' p b)) one_space.
Proof.
  apply (unmap_range_refines kind_ops unused one_space [1%nat] 12288 4096 2).
  - exact unused_fresh.
  - lia.
  - lia.
  - lia.
  - by exists 3.
  - by exists 1.
  - exact one_space_paged.
  - simpl. lia.
Defined.
