(* ===== verification/AspaceMap.v ===== *)
(** Creating mappings, components/mm/mm_aspace.c: expanding a neighbour, merging regions,
    inserting a new one, [_varea_install], [_mm_aspace_map] with its prefetch, and the
    checks of [rt_aspace_map], [rt_aspace_unmap] and [rt_aspace_unmap_range]; the
    callbacks of the memory object [rt_mm_dummy_mapper] of mm_object.c. *)
From stdpp Require Import sorting.
From S2P Require Import Prelude Avl AvlTree AvlRep AvlRebalance AvlProp Aspace AspaceFind AspaceUnmap.
#[local] Open Scope Z_scope.

Definition RT_ENOSYS : Z := 6.

(** [struct _mapping_property]. *)
Record mapping_property (Ob : Type) := mk_prop {
  p_attr : Z; p_flags : Z; p_offset : Z; p_mem_obj : option Ob }.
Arguments mk_prop {Ob}.
Arguments p_attr {Ob} m.
Arguments p_flags {Ob} m.
Arguments p_offset {Ob} m.
Arguments p_mem_obj {Ob} m.

Definition MM_FAULT_STATUS_OK : Z := 0.
Definition MM_FAULT_STATUS_OK_MAPPED : Z := 1.
Definition MM_FAULT_STATUS_UNRECOVERABLE : Z := 4.

Section map.
Context {V Ob : Type} `{EqDecision V, EqDecision Ob}.
Implicit Types (s : aspace V Ob) (x y operand neighbour : V) (range : mm_range) (l : list V)
  (prop : mapping_property Ob) (hint : mm_va_hint).

Context (ops : Ob -> mem_obj_ops (aspace V Ob) V) (varea_malloc : aspace V Ob -> option V).
(** [rt_hw_mmu_map] of an address, a physical address and a size: whether it succeeds. *)
Context (mmu_map : aspace V Ob -> Z -> Z -> Z -> bool) (pv_offset : Z).
(** What the uninitialised variable [again] of [_merge_surrounding] holds at first. *)
Context (garbage : Z).

(** * Neighbours *)

Definition _contiguous_offset neighbour (map_size : Z) prop s : bool :=
  let n_off := v_offset s neighbour in
  let map_off := p_offset prop in
  if n_off <? map_off then u32 (n_off + Z.shiftr (v_size s neighbour) MM_PAGE_SHIFT) =? map_off
  else u32 (map_off + Z.shiftr map_size MM_PAGE_SHIFT) =? n_off.

Definition _compatible neighbour (map_size : Z) prop s : bool :=
  (p_attr prop =? v_attr s neighbour) && (p_flags prop =? v_flag s neighbour) &&
  bool_decide (p_mem_obj prop = v_obj s neighbour) && _contiguous_offset neighbour map_size prop s.

Definition _migrate_and_release_varea (to from : V) (on_merge : aspace V Ob -> V -> V -> Z)
    : M (aspace V Ob) Z :=
  error ← gets (fun s => on_merge s to from);
  if decide (error = RT_EOK) then
    _aspace_bst_remove from;;
    modify (fun s => set_size to (u32 (v_size s to + v_size s from)) s);;
    mret error
  else mret error.

(** The region at [addr], if it is compatible. *)
Definition compatible_at (addr size : Z) prop : M (aspace V Ob) (option V) :=
  s ← get;
  neighbour ← deref (_aspace_bst_search addr s);
  mret (match neighbour with
        | Some n => if _compatible n size prop s then Some n else None
        | None => None
        end).

(** The loop of [_merge_surrounding]; [again] keeps its value when a merge fails. *)
Fixpoint merge_loop (fuel : nat) operand (again : Z) prop (on_merge : aspace V Ob -> V -> V -> Z)
    : M (aspace V Ob) V :=
  match fuel with
  | O => fun _ => None
  | S fuel =>
    operand_start ← gets (fun s => v_start s operand);
    operand_size ← gets (fun s => v_size s operand);
    forward ← compatible_at (u32 (operand_start - 1)) operand_size prop;
    r ← match forward with
        | Some neighbour =>
          error ← _migrate_and_release_varea neighbour operand on_merge;
          mret (neighbour, if decide (error = RT_EOK) then 1 else again)
        | None =>
          backward ← compatible_at (u32 (operand_start + operand_size)) operand_size prop;
          match backward with
          | Some neighbour =>
            error ← _migrate_and_release_varea operand neighbour on_merge;
            mret (operand, if decide (error = RT_EOK) then 1 else again)
          | None => mret (operand, 0)
          end
        end;
    if negb (r.2 =? 0) then merge_loop fuel r.1 r.2 prop on_merge else mret r.1
  end.

Definition _merge_surrounding (fuel : nat) operand prop : M (aspace V Ob) V :=
  on_merge ← gets (callback ops on_varea_merge operand);
  match on_merge with
  | Some f => merge_loop fuel operand garbage prop f
  | None => mret operand
  end.

(** The region that now holds the new addresses, when a neighbour could be expanded. *)
Definition _try_expand_and_merge_okay (fuel : nat) (alloc_va : Z) hint prop : M (aspace V Ob) (option V) :=
  let operand_size := map_size hint in
  forward ← compatible_at (u32 (alloc_va - 1)) operand_size prop;
  found ← match forward with
          | Some n => start ← gets (fun s => v_start s n); mret (Some (n, start))
          | None =>
            backward ← compatible_at (u32 (alloc_va + operand_size)) operand_size prop;
            mret (match backward with Some n => Some (n, alloc_va) | None => None end)
          end;
  match found with
  | Some (neighbour, operand_start) =>
    size ← gets (fun s => u32 (operand_size + v_size s neighbour));
    error ← _expand_varea ops neighbour operand_start size;
    if decide (error = RT_EOK) then
      new_region ← _merge_surrounding fuel neighbour prop;
      mret (Some new_region)
    else mret None
  | None => mret None
  end.

(** * Installing *)

(** The error code and [*pvarea]. *)
Definition _insert_new_varea (pvarea : option V) (alloc_va : Z) hint : M (aspace V Ob) (Z * option V) :=
  varea ← match pvarea with
          | None => _varea_create varea_malloc (prefer hint) (map_size hint)
          | Some x => mret (Some x)
          end;
  match varea with
  | Some x => modify (set_start x alloc_va);; _aspace_bst_insert x;; mret (RT_EOK, Some x)
  | None => mret (- RT_ENOMEM, None)
  end.

(** Without the page work of [on_varea_open]. *)
Definition _varea_post_install x prop : M (aspace V Ob) unit :=
  modify (set_attr x (p_attr prop));;
  modify (set_obj x (p_mem_obj prop));;
  modify (set_flag x (p_flags prop));;
  modify (set_offset x (p_offset prop)).

(** The part of [_varea_install] behind the choice of the address: the error code,
    [*pvarea] and, when it is set, [*pva]. *)
Definition install_at (fuel : nat) (pvarea : option V) hint prop (alloc_va err : Z)
    : M (aspace V Ob) (Z * option V * option Z) :=
  expanded ← _try_expand_and_merge_okay fuel alloc_va hint prop;
  r ← match expanded with
      | Some x => mret (err, Some x)
      | None =>
        r ← _insert_new_varea pvarea alloc_va hint;
        match r with
        | (err, Some x) =>
          if decide (err = RT_EOK) then _varea_post_install x prop;; mret r else mret r
        | _ => mret r
        end
      end;
  if decide (r.1 = RT_EOK) then
    RT_ASSERT (bool_decide (is_Some r.2));; mret (r.1, r.2, Some alloc_va)
  else mret (r.1, r.2, None).

Definition _varea_install (fuel : nat) (pvarea : option V) hint prop
    : M (aspace V Ob) (Z * option V * option Z) :=
  r ← if has_flag (h_flags hint) MMF_MAP_FIXED then
        err ← _unmap_range_locked ops varea_malloc fuel (prefer hint) (map_size hint);
        mret (prefer hint, err)
      else
        s ← get;
        va ← deref (_find_free fuel (prefer hint) (map_size hint) (limit_start hint)
                      (limit_range_size hint) (h_flags hint) s);
        mret (va, if va =? 0 then - RT_ENOSPC else RT_EOK);
  if negb (r.1 =? 0) then install_at fuel pvarea hint prop r.1 r.2
  else mret (r.2, pvarea, None).

(** * Prefetching the pages of a new region *)

Definition rt_varea_map_with_msg x (fault_vaddr : Z) (res : fault_res) s : Z :=
  if res_status res =? MM_FAULT_STATUS_OK then
    if u32 (v_start s x + v_size s x) <? u32 (fault_vaddr + res_size res) then - RT_ERROR
    else if mmu_map s fault_vaddr (u32 (res_vaddr res + pv_offset)) (res_size res) then RT_EOK
    else - RT_ERROR
  else if res_status res =? MM_FAULT_STATUS_OK_MAPPED then RT_EOK
  else - RT_ERROR.

Fixpoint prefetch_loop (fuel : nat) x (fault : aspace V Ob -> V -> Z -> Z -> fault_res)
    (vaddr off end_ : Z) s : option Z :=
  match fuel with
  | O => None
  | S fuel =>
    if decide (vaddr <> end_) then
      let res := fault s x off vaddr in
      if negb (rt_varea_map_with_msg x vaddr res s =? 0) then Some (- RT_ENOMEM)
      else if res_status res =? MM_FAULT_STATUS_OK_MAPPED then Some RT_EOK
      else prefetch_loop fuel x fault (u32 (vaddr + res_size res))
             (u32 (off + Z.shiftr (res_size res) 12)) end_ s
    else Some RT_EOK
  end.

(** The assertion in [_do_page_fault] needs the callback at the first page. *)
Definition _do_prefetch (fuel : nat) x (start size : Z) : M (aspace V Ob) Z :=
  let end_ := u32 (start + size) in
  s ← get;
  if decide (start <> end_) then
    fault ← deref (callback ops on_page_fault x s);
    let off := u32 (v_offset s x + Z.shiftr (i32 (start - v_start s x)) 12) in
    deref (prefetch_loop fuel x fault start off end_ s)
  else mret RT_EOK.

(** * The operations *)

(** The error code, [*pvarea] and the new [*addr]. *)
Definition _mm_aspace_map (fuel : nat) (pvarea : option V) (addr length attr flags : Z)
    (mem_obj : Ob) (offset : Z) : M (aspace V Ob) (Z * option V * Z) :=
  s ← get;
  let prop := mk_prop attr flags offset (Some mem_obj) in
  let hint := mk_hint (as_start s) (as_size s) addr length flags in
  let hint := match hint_free (ops mem_obj) with Some f => f hint | None => hint end in
  r ← _varea_install fuel pvarea hint prop;
  let '(err, pvarea, va) := r in
  let addr := match va with Some va => va | None => addr end in
  if decide (err = RT_EOK) then
    if has_flag flags MMF_PREFETCH then
      x ← deref pvarea;
      s ← get;
      err ← _do_prefetch fuel x (v_start s x) (v_size s x);
      if decide (err <> 0) then _varea_uninstall_locked x;; mret (err, pvarea, addr)
      else mret (err, pvarea, addr)
    else mret (err, pvarea, addr)
  else mret (err, pvarea, addr).

Definition _not_in_range (flags start length limit_start limit_size : Z) : bool :=
  if has_flag flags MMF_MAP_FIXED || negb (start =? 0) then
    (u32 (0 - start) <? length) || (start <? limit_start) ||
    (limit_size <? u32 (length + u32 (start - limit_start)))
  else limit_size <? length.

(** [MMF_CREATE(((__MMF_INVALID - 1) << 1) - 1, 1)]; the enumerator [__MMF_INVALID] is one
    above [MMF_REQUEST_ALIGN]. *)
Definition __MMF_INVALID : Z := MMF_REQUEST_ALIGN + 1.
Definition support_ops : Z := Z.lor (Z.shiftl (__MMF_INVALID - 1) 1 - 1) MMF_REQUEST_ALIGN.
Definition _not_support (flags : Z) : bool := negb (Z.land flags (u32 (Z.lnot support_ops)) =? 0).

(** [rt_aspace_map] for valid pointers; [*addr] is 0 after an error. *)
Definition rt_aspace_map (fuel : nat) (addr length attr flags : Z) (mem_obj : Ob) (offset : Z)
    : M (aspace V Ob) (Z * Z) :=
  s ← get;
  if length =? 0 then mret (- RT_EINVAL, 0)
  else if _not_in_range flags addr length (as_start s) (as_size s) then mret (- RT_EINVAL, 0)
  else if _not_support flags then mret (- RT_ENOSYS, 0)
  else
    RT_ASSERT (Z.land length ARCH_PAGE_MASK =? 0);;
    RT_ASSERT (Z.land addr ARCH_PAGE_MASK =? 0);;
    r ← _mm_aspace_map fuel None addr length attr flags mem_obj offset;
    let '(err, _, addr) := r in
    mret (err, if decide (err <> RT_EOK) then 0 else addr).

Definition rt_aspace_unmap (addr : Z) : M (aspace V Ob) Z :=
  s ← get;
  if _not_in_range MMF_MAP_FIXED addr 1 (as_start s) (as_size s) then mret (- RT_EINVAL)
  else _aspace_unmap addr.

Definition rt_aspace_unmap_range (fuel : nat) (addr length : Z) : M (aspace V Ob) Z :=
  s ← get;
  if _not_in_range MMF_MAP_FIXED addr length (as_start s) (as_size s) then mret (- RT_EINVAL)
  else if negb (Z.land addr ARCH_PAGE_MASK =? 0) then mret (- RT_EINVAL)
  else _unmap_range_locked ops varea_malloc fuel addr (RT_ALIGN length ARCH_PAGE_SIZE).

Definition rt_aspace_query (vaddr : Z) s : option (option V) := _aspace_bst_search vaddr s.
End map.

(** * mm_object.c *)

(** [rt_mm_dummy_mapper] when the page allocator gives the page at [page], if any. *)
Definition rt_mm_dummy_mapper {V Ob : Type} (page : option Z) : mem_obj_ops (aspace V Ob) V :=
  mk_ops None
    (Some (fun _ _ _ _ => match page with
                          | Some p => mk_res p ARCH_PAGE_SIZE MM_FAULT_STATUS_OK
                          | None => mk_res 0 0 MM_FAULT_STATUS_UNRECOVERABLE
                          end))
    (Some (fun _ _ _ _ => RT_EOK)) (Some (fun _ _ _ _ => RT_EOK))
    (Some (fun _ _ _ _ _ => RT_EOK)) (Some (fun _ _ _ => RT_EOK)).
