(* ===== verification/AspaceMapProp.v ===== *)
(** [_varea_install] of components/mm/mm_aspace.c, for memory objects whose regions are not
    expanded: a new mapping is added in free space, or replaces what was mapped at a fixed
    address, and nothing else changes. *)
From stdpp Require Import sorting.
From S2P Require Import Prelude Avl AvlTree AvlRep AvlRebalance AvlProp Aspace AspaceFind AspaceUnmap AspaceUnmapProp AspaceMap.
#[local] Open Scope Z_scope.

Section install.
Context {V Ob : Type} `{EqDecision V, EqDecision Ob}.
Implicit Types (s : aspace V Ob) (x y n : V) (l : list V) (prop : mapping_property Ob) (hint : mm_va_hint).
Context (ops : Ob -> mem_obj_ops (aspace V Ob) V) (varea_malloc : aspace V Ob -> option V) (garbage : Z).

(** * A region that is put in free space *)

Record new_region s s' y (va len : Z) prop : Prop := {
  nr_others z : z <> y -> agree s s' z;
  nr_start : v_start s' y = va;
  nr_size : v_size s' y = len;
  nr_offset : v_offset s' y = p_offset prop;
  nr_attr : v_attr s' y = p_attr prop;
  nr_obj : v_obj s' y = p_mem_obj prop }.

(** What a new mapping puts behind [p]. *)
Definition new_backing prop (va p : Z) : option Ob * Z * Z :=
  (p_mem_obj prop, p_attr prop, u32 (p_offset prop + (p - va) / ARCH_PAGE_SIZE)).

(** The mappings of [s'] are those of [s] and the new ones. *)
Definition adds s l (va len : Z) prop s' l' : Prop := forall p b,
  maps s' l' p b <-> maps s l p b \/ (va <= p < va + len /\ b = new_backing prop va p).

Lemma new_region_ok s s' a y b va len prop :
  space_ok s (a ++ b) -> y ∉ a ++ b -> holds s' (a ++ y :: b) -> new_region s s' y va len prop ->
  0 <= va -> 1 <= len < 2 ^ 31 -> va + len < 2 ^ 32 -> (ARCH_PAGE_SIZE | va) -> (ARCH_PAGE_SIZE | len) ->
  (forall z, z ∈ a -> v_start s z + v_size s z <= va) -> (forall z, z ∈ b -> va + len <= v_start s z) ->
  space_ok s' (a ++ y :: b) /\ adds s (a ++ b) va len prop s' (a ++ y :: b).
Proof.
  intros (Hh & Hok & Hpg) Hy Hh' [Hag Ns Nz No Na Nb] Hva Hlen Hhi Pva Plen Ha Hb.
  assert (Hag' : forall z, z ∈ a ++ b -> agree s s' z) by (intros z Hz; apply Hag; intros ->; contradiction).
  assert (Hin : forall z, z ∈ a ++ y :: b <-> z ∈ a ++ b \/ z = y).
  { intros z. rewrite !elem_of_app, elem_of_cons. tauto. }
  destruct (agree_regions s s' (a ++ b) Hag' Hok) as [Hf' Hs']. apply Forall_app in Hf' as [Fa Fb].
  apply StronglySorted_app in Hs' as (Sab & Sa & Sb).
  split; [split; [done|split; [split|]]|].
  - apply Forall_app. split; [done|]. apply Forall_cons. split; [|done]. unfold region_ok. rewrite Ns, Nz. lia.
  - apply StronglySorted_split. unfold below in *. split_and!; try done; apply Forall_forall.
    + intros z Hz. destruct (Hag' z) as (-> & -> & _); [apply elem_of_app; by left|]. rewrite Ns. by apply Ha.
    + intros z Hz. destruct (Hag' z) as (-> & _); [apply elem_of_app; by right|]. rewrite Ns, Nz. by apply Hb.
  - intros z [Hz| ->]%Hin; [apply (agree_region s s' z); auto|]. unfold paged. rewrite Ns, Nz. split_and!; try done; lia.
  - assert (Hnew : forall p, backing s' y p = new_backing prop va p).
    { intros p. unfold backing, new_backing. by rewrite Ns, No, Na, Nb. }
    intros p q. split.
    + intros (z & [Hz| ->]%Hin & Hi & ->).
      * left. destruct (agree_region s s' z (Hag' z Hz)) as (_ & _ & Hi' & Hq). exists z. by rewrite Hq, <- Hi'.
      * right. unfold inside in Hi. rewrite Ns, Nz in Hi. by rewrite Hnew.
    + intros [(z & Hz & Hi & ->)|[Hp ->]].
      * destruct (agree_region s s' z (Hag' z Hz)) as (_ & _ & Hi' & Hq). exists z. rewrite Hq, Hi', Hin. auto.
      * exists y. rewrite Hin, Hnew. unfold inside. rewrite Ns, Nz. auto.
Qed.

(** * No neighbour is expanded *)

Definition plain prop : Prop :=
  match p_mem_obj prop with Some o => on_varea_expand (ops o) = None | None => True end.

Lemma compatible_at_wp s l addr size prop : holds s l -> regions_ok s l ->
  wp (compatible_at addr size prop) (fun r s' => s' = s /\
    forall n, r = Some n -> n ∈ l /\ v_obj s n = p_mem_obj prop) s.
Proof.
  intros Hh Hok. unfold compatible_at. do 2 wp_step.
  destruct (search_overlap_spec s l (mk_range addr addr) Hh Hok) as (r & Er & Hr).
  rewrite bst_search_overlap, Er. wp_step. wp_step; [done|]. wp_step. split; [done|].
  intros n. destruct r as [z|]; [|done]. destruct (_compatible z size prop s) eqn:Hc; [|done].
  intros [= <-]. split; [by apply Hr|]. unfold _compatible in Hc. zbool.
  repeat match goal with H : _ /\ _ |- _ => destruct H end.
  match goal with H : bool_decide _ = true |- _ => by apply bool_decide_eq_true in H end.
Qed.

Lemma expand_plain s n nv sz prop : plain prop -> v_obj s n = p_mem_obj prop ->
  wp (_expand_varea ops n nv sz) (fun e s' => e <> RT_EOK /\ s' = s) s.
Proof.
  intros Hpl Ho. unfold _expand_varea, callback. do 2 wp_step. unfold plain in Hpl. rewrite Ho.
  destruct (p_mem_obj prop) as [o|]; [rewrite Hpl|]; rewrite decide_False by done; by wp_step.
Qed.

Lemma try_expand_plain s l va hint prop fuel : holds s l -> regions_ok s l -> plain prop ->
  wp (_try_expand_and_merge_okay ops garbage fuel va hint prop) (fun r s' => r = None /\ s' = s) s.
Proof.
  intros Hh Hok Hpl. unfold _try_expand_and_merge_okay. cbv zeta. wp_step.
  eapply wp_mono; [by apply (compatible_at_wp s l)|]. cbv beta. intros f s1 [-> Hf]. wp_step.
  apply (wp_mono _ (fun r s' => s' = s /\ forall n st, r = Some (n, st) -> v_obj s n = p_mem_obj prop)).
  - destruct f as [n|].
    + do 3 wp_step. split; [done|]. intros n' st [= <- <-]. by apply Hf.
    + wp_step. eapply wp_mono; [by apply (compatible_at_wp s l)|]. cbv beta. intros g s2 [-> Hg]. wp_step.
      split; [done|]. intros n st. destruct g as [z|]; [|done]. intros [= <- <-]. by apply Hg.
  - intros r s1 [-> Hr]. destruct r as [[n st]|]; [|by wp_step]. do 2 wp_step. wp_step.
    eapply wp_mono; [apply (expand_plain s n st _ prop Hpl); by eapply Hr|]. cbv beta. intros e s2 [He ->].
    rewrite decide_False by done. by wp_step.
Qed.

(** * The new region *)

Context (varea_fresh : forall s l y, space_ok s l -> varea_malloc s = Some y -> y ∉ l).

(** A region that the caller provides is not in the space and has the right size. *)
Definition provided s l (pvarea : option V) hint : Prop :=
  match pvarea with Some y => (y ∉ l) /\ v_size s y = map_size hint | None => True end.

(** The result of adding a mapping at [va]. *)
Definition added s l (va len : Z) prop (r : Z * option V) s' : Prop :=
  (r = (- RT_ENOMEM, None) /\ s' = s /\ varea_malloc s = None) \/
  (exists y l', r = (RT_EOK, Some y) /\ y ∈ l' /\ v_start s' y = va /\ v_size s' y = len /\
    space_ok s' l' /\ adds s l va len prop s' l').

Lemma room_split s l lo hi len va a b : room s l lo hi len va -> regions_ok s l -> 1 <= len -> l = a ++ b ->
  Forall (fun z => v_start s z < va) a -> Forall (fun z => va < v_start s z) b ->
  (forall z, z ∈ a -> v_start s z + v_size s z <= va) /\ (forall z, z ∈ b -> va + len <= v_start s z).
Proof.
  intros (_ & _ & Hfree) [Hf _] Hlen -> Fa Fb. rewrite !Forall_forall in *.
  split; intros z Hz; assert (Hz' : z ∈ a ++ b) by (apply elem_of_app; tauto);
    destruct (Hfree z Hz'), (Hf z Hz') as (_ & ? & _); first [specialize (Fa z Hz)|specialize (Fb z Hz)]; lia.
Qed.

(** Inserting [y] at [va] and filling in its fields; [s1] is [s] but for [y]. *)
Lemma place_wp s s1 l y lo hi va len prop : space_ok s l -> y ∉ l -> (forall z, z <> y -> agree s s1 z) ->
  holds s1 l -> v_size s1 y = len -> room s l lo hi len va -> 0 <= va -> 1 <= len < 2 ^ 31 ->
  va + len < 2 ^ 32 -> (ARCH_PAGE_SIZE | va) -> (ARCH_PAGE_SIZE | len) ->
  wp (modify (set_start y va);; _aspace_bst_insert y;; _varea_post_install y prop)
    (fun _ => added s l va len prop (RT_EOK, Some y)) s1.
Proof.
  intros Hsp Hy Hag Hh1 Hsz Hroom Hva Hlen Hhi Pva Plen. pose proof Hsp as (Hh & Hok & _).
  do 2 wp_step. wp_step. set (s2 := set_start y va s1).
  assert (Hst : forall z, z ∈ l -> v_start s2 z = v_start s z).
  { intros z Hz. unfold s2. simpl. rewrite fupd_ne by (intros ->; contradiction). apply Hag. intros ->. contradiction. }
  eapply wp_mono; [apply (bst_insert_wp s2 l y Hh1)|]; try done.
  { apply (starts_sorted_eq s); [done|]. by apply regions_starts. }
  { pose proof (space_length s l Hsp). lia. }
  assert (Sy : v_start s2 y = va) by (unfold s2; simpl; by rewrite fupd_eq).
  cbv beta. rewrite Sy. intros _ s3 Hcase.
  assert (Hcase' : exists a b, l = a ++ b /\ Forall (fun z => v_start s z < va) a /\
    Forall (fun z => va < v_start s z) b /\ s3 = set_tree (tree s3) s2 /\ holds s3 (a ++ y :: b)).
  { destruct Hcase as [(z & Hz & Ez & _)|(a & b & -> & Fa & Fb & E3 & Hh3)].
    - exfalso. rewrite Hst in Ez by done. destruct Hroom as (_ & _ & Hfree). destruct (Hfree z Hz); [lia|].
      destruct Hok as [Hf _]. rewrite Forall_forall in Hf. destruct (Hf z Hz) as (_ & ? & _). lia.
    - exists a, b. rewrite !Forall_forall in *. split_and!; try done; intros z Hz;
        [specialize (Fa z Hz)|specialize (Fb z Hz)]; rewrite Hst in * by (apply elem_of_app; tauto); done. }
  destruct Hcase' as (a & b & Eab & Fa & Fb & E3 & Hh3).
  destruct (room_split s l lo hi len va a b Hroom Hok ltac:(lia) Eab Fa Fb) as [Ha Hb].
  unfold _varea_post_install. repeat wp_step. set (s4 := set_offset y _ _).
  assert (Hnew : new_region s s4 y va len prop).
  { unfold s4. rewrite E3. split; simpl; rewrite ?fupd_eq; try done. intros z Hz. unfold agree. simpl.
    rewrite !fupd_ne by done. by apply Hag. }
  subst l. destruct (new_region_ok s s4 a y b va len prop) as [Hs4 Ha4]; try done.
  right. exists y, (a ++ y :: b). split_and!; try done; [|apply Hnew|apply Hnew].
  apply elem_of_app. right. left.
Qed.

(** Getting the region and placing it. *)
Lemma insert_wp s l pvarea hint lo hi va prop : space_ok s l -> provided s l pvarea hint ->
  room s l lo hi (map_size hint) va -> 0 <= va -> 1 <= map_size hint < 2 ^ 31 ->
  va + map_size hint < 2 ^ 32 -> (ARCH_PAGE_SIZE | va) -> (ARCH_PAGE_SIZE | map_size hint) ->
  wp (r ← _insert_new_varea varea_malloc pvarea va hint;
      match r with
      | (err, Some x) => if decide (err = RT_EOK) then _varea_post_install x prop;; mret r else mret r
      | _ => mret r
      end) (added s l va (map_size hint) prop) s.
Proof.
  intros Hsp Hpv Hroom Hva Hlen Hhi Pva Plen. pose proof Hsp as (Hh & _).
  assert (Hplace : forall s1 y, y ∉ l -> (forall z, z <> y -> agree s s1 z) -> holds s1 l -> v_size s1 y = map_size hint ->
    wp (modify (set_start y va);; _aspace_bst_insert y;; mret (RT_EOK, Some y)) (fun r s' =>
      wp (match r with
          | (err, Some x) => if decide (err = RT_EOK) then _varea_post_install x prop;; mret r else mret r
          | _ => mret r
          end) (added s l va (map_size hint) prop) s') s1).
  { intros s1 y Hy Hag Hh1 Hz. pose proof (place_wp s s1 l y lo hi va (map_size hint) prop Hsp Hy Hag Hh1 Hz
      Hroom Hva Hlen Hhi Pva Plen) as Hp.
    apply wp_bind_inv in Hp. wp_step. eapply wp_mono; [exact Hp|]. cbv beta. intros _ s2 Hp2.
    apply wp_bind_inv in Hp2. wp_step. eapply wp_mono; [exact Hp2|]. cbv beta. intros _ s3 Hp3. wp_step.
    rewrite decide_True by done. wp_step. eapply wp_mono; [exact Hp3|]. cbv beta. intros _ s4 Hp4. by wp_step. }
  unfold _insert_new_varea. wp_step. wp_step. destruct pvarea as [y|].
  - wp_step. destruct Hpv as [Hy Hz]. by apply Hplace.
  - unfold _varea_create. wp_step. wp_step. destruct (varea_malloc s) as [y|] eqn:Ey.
    + do 5 wp_step. apply Hplace; [by eapply varea_fresh|..].
      * intros z Hz. unfold agree. simpl. by rewrite !fupd_ne.
      * exact Hh.
      * simpl. by rewrite fupd_eq.
    + repeat wp_step. by left.
Qed.

(** The outcome of an installation at [va]. *)
Definition installed s l (va len : Z) prop (r : Z * option V * option Z) s' : Prop :=
  (r = (- RT_ENOMEM, None, None) /\ s' = s /\ varea_malloc s = None) \/
  (exists y l', r = (RT_EOK, Some y, Some va) /\ y ∈ l' /\ v_start s' y = va /\ v_size s' y = len /\
    space_ok s' l' /\ adds s l va len prop s' l').

Lemma install_at_wp s l pvarea hint lo hi va err prop fuel : space_ok s l -> provided s l pvarea hint -> plain prop ->
  room s l lo hi (map_size hint) va -> 0 <= va -> 1 <= map_size hint < 2 ^ 31 ->
  va + map_size hint < 2 ^ 32 -> (ARCH_PAGE_SIZE | va) -> (ARCH_PAGE_SIZE | map_size hint) ->
  wp (install_at ops varea_malloc garbage fuel pvarea hint prop va err) (installed s l va (map_size hint) prop) s.
Proof.
  intros Hsp Hpv Hpl Hroom Hva Hlen Hhi Pva Plen. pose proof Hsp as (Hh & Hok & _).
  unfold install_at. wp_step. eapply wp_mono; [by apply (try_expand_plain s l)|]. cbv beta. intros r s1 [-> ->].
  wp_step. eapply wp_mono; [by apply (insert_wp s l pvarea hint lo hi va prop)|]. cbv beta.
  intros r s2 [(-> & -> & Hnone)|(y & l' & -> & Hy & Sy & Zy & Hs2 & Ha)]; cbn [fst snd].
  - rewrite decide_False by done. wp_step. by left.
  - rewrite decide_True by done. wp_step. wp_step; [by apply bool_decide_eq_true|]. wp_step. right. by exists y, l'.
Qed.

(** * At a free address *)

(** The hint asks for whole pages inside a space of less than 2 GiB that holds all regions;
    everything in it is aligned to [2 ^ k] bytes, which are pages at least and at least the
    alignment [2 ^ m] of the flags. *)
Record placing s l (m k : Z) hint : Prop := {
  pl_mk : 0 <= m <= k; pl_k : 12 <= k <= 31;
  pl_mask : align_mask_of (h_flags hint) = mask_of m;
  pl_size : 1 <= map_size hint < 2 ^ 31; pl_pages : (ARCH_PAGE_SIZE | map_size hint);
  pl_start : 0 < limit_start hint; pl_start_k : (2 ^ k | limit_start hint);
  pl_range : 1 <= limit_range_size hint < PTRDIFF_MAX;
  pl_end : limit_start hint + limit_range_size hint < 2 ^ 32;
  pl_prefer_k : (2 ^ k | prefer hint);
  pl_prefer : prefer hint <> 0 ->
    limit_start hint <= prefer hint /\ prefer hint + map_size hint <= limit_start hint + limit_range_size hint;
  pl_regions x : x ∈ l -> (2 ^ k | v_start s x) /\ (2 ^ k | v_size s x) /\
    limit_start hint <= v_start s x /\ v_start s x + v_size s x <= limit_start hint + limit_range_size hint }.

Definition limit_end hint : Z := limit_start hint + limit_range_size hint - 1.

Lemma page_divides k a : 12 <= k -> (2 ^ k | a) -> (ARCH_PAGE_SIZE | a).
Proof.
  intros Hk Ha. etransitivity; [|exact Ha]. exists (2 ^ (k - 12)).
  change ARCH_PAGE_SIZE with (2 ^ 12). rewrite <- Z.pow_add_r by lia. f_equal. lia.
Qed.

Lemma install_free_wp s l pvarea hint prop m k fuel :
  space_ok s l -> provided s l pvarea hint -> plain prop -> placing s l m k hint ->
  has_flag (h_flags hint) MMF_MAP_FIXED = false -> (length l < fuel)%nat ->
  wp (_varea_install ops varea_malloc garbage fuel pvarea hint prop) (fun r s' =>
    (r = (- RT_ENOSPC, pvarea, None) /\ s' = s /\
     forall a, (2 ^ k | a) -> ~ room s l (limit_start hint) (limit_end hint) (map_size hint) a) \/
    (exists a, room s l (limit_start hint) (limit_end hint) (map_size hint) a /\
     (prefer hint <> 0 -> room s l (limit_start hint) (limit_end hint) (map_size hint) (prefer hint) -> a = prefer hint) /\
     installed s l a (map_size hint) prop r s')) s.
Proof.
  intros Hsp Hpv Hpl [] Hfix Hfuel. pose proof Hsp as (Hh & Hok & _).
  destruct (find_free_spec s l m k (map_size hint) pl_mk0 Hh Hok ltac:(lia) ltac:(lia)
    ltac:(intros x Hx; by destruct (pl_regions0 x Hx) as (? & ? & _)) (prefer hint) (limit_start hint)
    (limit_range_size hint) (h_flags hint) fuel) as (va & Eva & Hva); try done; try lia.
  { intros x Hx. by destruct (pl_regions0 x Hx) as (_ & _ & ?). }
  unfold _varea_install. rewrite Hfix. wp_step. wp_step. wp_step. wp_step. rewrite Eva. wp_step; [done|]. wp_step.
  cbn [fst snd]. cbv zeta in Hva. unfold limit_end. destruct (Z.eqb_spec va 0) as [->|Hne]; cbn [negb].
  - rewrite decide_True in Hva by done. rewrite decide_False in Hva by (rewrite Hfix; tauto). wp_step. by left.
  - rewrite decide_False in Hva by done. destruct Hva as (Hk & Hroom & Hp).
    pose proof Hroom as (Hr1 & Hr2 & _).
    assert (Hin : wp (install_at ops varea_malloc garbage fuel pvarea hint prop va RT_EOK) (installed s l va (map_size hint) prop) s).
    { eapply install_at_wp; try exact Hroom; try done; try lia. apply (page_divides k); [lia|done]. }
    eapply wp_mono; [exact Hin|]. cbv beta. intros r s' Hi. right. by exists va.
Qed.

(** * At a fixed address *)

(** [l'] maps what [l] maps outside of the range. *)
Definition without s l (lo len : Z) s' l' : Prop := forall p b,
  maps s' l' p b <-> maps s l p b /\ ~ (lo <= p < lo + len).

Lemma unmapped_without s l lo len s' l' : only_loses lo len s l s' l' ->
  (forall p b, lo <= p < lo + len -> ~ maps s' l' p b) -> without s l lo len s' l'.
Proof. intros [Ho1 Ho2] He p b. split; [|naive_solver]. intros Hm. split; [by apply Ho1|]. intros Hp. by apply (He p b). Qed.

Lemma unmapped_room s l lo len : 1 <= len -> (forall p b, lo <= p < lo + len -> ~ maps s l p b) ->
  regions_ok s l -> room s l lo (lo + len - 1) len lo.
Proof.
  intros Hlen He [Hf _]. split; [lia|]. split; [lia|]. intros x Hx. rewrite Forall_forall in Hf.
  destruct (Hf x Hx) as (H0 & H1 & _). destruct (decide (lo + len <= v_start s x)); [by left|].
  destruct (decide (v_start s x + v_size s x <= lo)); [by right|]. exfalso.
  apply (He (Z.max lo (v_start s x)) (backing s x (Z.max lo (v_start s x)))); [lia|].
  exists x. split; [done|]. unfold inside. split; [lia|done].
Qed.

(** The new mapping takes the place of all that was in its range; when the range could not
    be cleared nothing is said. *)
Lemma install_fixed_wp s l hint prop fuel :
  space_ok s l -> plain prop -> has_flag (h_flags hint) MMF_MAP_FIXED = true ->
  0 < prefer hint -> 1 <= map_size hint < 2 ^ 31 -> prefer hint + map_size hint < 2 ^ 32 ->
  (ARCH_PAGE_SIZE | prefer hint) -> (ARCH_PAGE_SIZE | map_size hint) -> (length l < fuel)%nat ->
  obliging ops varea_malloc -> backed s l ->
  wp (_varea_install ops varea_malloc garbage fuel None hint prop) (fun r s' => exists y l',
    r = (RT_EOK, Some y, Some (prefer hint)) /\ y ∈ l' /\ v_start s' y = prefer hint /\
    v_size s' y = map_size hint /\ space_ok s' l' /\
    forall p b, maps s' l' p b <->
      (maps s l p b /\ ~ (prefer hint <= p < prefer hint + map_size hint)) \/
      (prefer hint <= p < prefer hint + map_size hint /\ b = new_backing prop (prefer hint) p)) s.
Proof.
  intros Hsp Hpl Hfix Hp0 Hlen Hend Pva Plen Hfuel Hob Hbk. unfold _varea_install. rewrite Hfix.
  wp_step. wp_step. eapply wp_mono.
  { apply (unmap_range_wp (prefer hint) (map_size hint)) with (l := l); try done; lia. }
  cbv beta. intros e s1 [He (l1 & Hs1 & Hol & Hempty)]. specialize (He Hob Hbk). specialize (Hempty He).
  wp_step. cbn [fst snd]. rewrite He. replace (prefer hint =? 0) with false by (symmetry; apply Z.eqb_neq; lia).
  cbn [negb]. pose proof Hs1 as (_ & Hok1 & _).
  assert (Hin : wp (install_at ops varea_malloc garbage fuel None hint prop (prefer hint) RT_EOK)
    (installed s1 l1 (prefer hint) (map_size hint) prop) s1).
  { eapply install_at_wp; try done; [|lia]. apply unmapped_room; try done. lia. }
  pose proof (unmapped_without s l _ _ s1 l1 Hol Hempty) as Hw.
  eapply wp_mono; [exact Hin|]. cbv beta. intros r s2 [(_ & _ & Hn)|(y & l' & -> & Hy & Sy & Zy & Hs2 & Ha)].
  - destruct Hob as [Hm _]. destruct (Hm s1 l1 Hs1) as [z Hz]. congruence.
  - exists y, l'. split_and!; try done. intros p b. by rewrite (Ha p b), (Hw p b).
Qed.

(** * The whole operations *)

Context (mmu_map : aspace V Ob -> Z -> Z -> Z -> bool) (pv_offset : Z).

Lemma land_page_mask a : (ARCH_PAGE_SIZE | a) -> Z.land a ARCH_PAGE_MASK = 0.
Proof.
  intros [q ->]. change ARCH_PAGE_MASK with (Z.ones 12). rewrite Z.land_ones by lia.
  change ARCH_PAGE_SIZE with (2 ^ 12). apply Z.mod_mul. lia.
Qed.

Lemma not_in_range_false flags start length lo size : 0 <= start -> 1 <= length -> 0 <= lo -> lo + size < 2 ^ 32 ->
  (start <> 0 -> lo <= start /\ start + length <= lo + size) -> has_flag flags MMF_MAP_FIXED = false ->
  length <= size -> _not_in_range flags start length lo size = false.
Proof.
  intros Hs Hl Hlo Hend Hin Hfix Hlen. unfold _not_in_range. rewrite Hfix. simpl.
  destruct (Z.eqb_spec start 0) as [->|Hne]; simpl; [apply Z.ltb_ge; lia|]. destruct (Hin Hne) as [H1 H2].
  rewrite (u32_id (start - lo)), (u32_id (length + _)) by lia.
  replace (u32 (0 - start)) with (2 ^ 32 - start).
  - rewrite !orb_false_iff. repeat split; apply Z.ltb_ge; lia.
  - unfold u32, uwrap. replace (0 - start) with (2 ^ 32 - start + -1 * 2 ^ 32) by lia.
    rewrite Z.mod_add, Z.mod_small by lia. lia.
Qed.

Lemma rt_aspace_map_wp s l addr length attr flags mem_obj offset m k fuel :
  space_ok s l -> hint_free (ops mem_obj) = None -> on_varea_expand (ops mem_obj) = None ->
  placing s l m k (mk_hint (as_start s) (as_size s) addr length flags) ->
  has_flag flags MMF_MAP_FIXED = false -> has_flag flags MMF_PREFETCH = false -> _not_support flags = false ->
  0 <= addr -> length <= as_size s -> (List.length l < fuel)%nat ->
  wp (rt_aspace_map ops varea_malloc mmu_map pv_offset garbage fuel addr length attr flags mem_obj offset)
    (fun r s' => let hi := as_start s + as_size s - 1 in
      (r = (- RT_ENOSPC, 0) /\ s' = s /\ forall a, (2 ^ k | a) -> ~ room s l (as_start s) hi length a) \/
      (r = (- RT_ENOMEM, 0) /\ s' = s /\ varea_malloc s = None) \/
      (exists a l', r = (RT_EOK, a) /\ room s l (as_start s) hi length a /\
        (addr <> 0 -> room s l (as_start s) hi length addr -> a = addr) /\ space_ok s' l' /\
        adds s l a length (mk_prop attr flags offset (Some mem_obj)) s' l')) s.
Proof.
  intros Hsp Hhf Hex Hpl Hfix Hpre Hsup Ha Hlen Hfuel. pose proof Hpl as []. simpl in *.
  unfold rt_aspace_map. wp_step. wp_step.
  replace (length =? 0) with false by (symmetry; apply Z.eqb_neq; lia).
  rewrite not_in_range_false, Hsup by (done || lia).
  rewrite (land_page_mask length pl_pages0), (land_page_mask addr) by (apply (page_divides k); [lia|done]).
  wp_step. wp_step; [done|]. wp_step. wp_step; [done|]. wp_step. unfold _mm_aspace_map. wp_step. wp_step.
  rewrite Hhf. cbv zeta. wp_step.
  eapply wp_mono; [eapply (install_free_wp s l None _ _ m k fuel); try done; unfold plain; simpl; by rewrite Hex|].
  cbv beta. simpl. intros r s' [(-> & -> & Hno)|(a & Hroom & Hpref & [(-> & -> & Hmem)|(y & l' & -> & _ & _ & _ & Hs' & Had)])].
  - cbv iota. rewrite decide_False by done. wp_step. cbv iota. wp_step. left. done.
  - cbv iota. rewrite decide_False by done. wp_step. cbv iota. wp_step. right. left. done.
  - cbv iota. rewrite decide_True, Hpre by done. wp_step. cbv iota. wp_step. right. right. exists a, l'. done.
Qed.
End install.


(** C31: [_varea_install] at a fixed address ([MMF_MAP_FIXED]) of whole pages, less than 2 GiB
    that end below 4 GiB, for an object whose regions are not expanded ([plain]), when the
    callbacks for shrinking and splitting and the allocation succeed ([obliging]) and every
    mapping has an object ([backed]): it returns that address, and the space then maps the new
    pages there, and elsewhere exactly what it mapped before. Without these conditions it may
    not: [merge_moves_pages], [expand_wrong_way] and [fixed_ignores_failed_unmap] (AspaceDemo).
    *)
Theorem map_fixed_replaces {V Ob : Type} `{EqDecision V, EqDecision Ob} (ops : Ob -> mem_obj_ops (aspace V Ob) V)
    (varea_malloc : aspace V Ob -> option V) (garbage : Z) (s : aspace V Ob) (l : list V)
    (hint : mm_va_hint) (prop : mapping_property Ob) (fuel : nat) :
  (forall s l y, space_ok s l -> varea_malloc s = Some y -> y ∉ l) ->
  space_ok s l -> plain ops prop -> has_flag (h_flags hint) MMF_MAP_FIXED = true ->
  0 < prefer hint -> 1 <= map_size hint < 2 ^ 31 -> prefer hint + map_size hint < 2 ^ 32 ->
  (ARCH_PAGE_SIZE | prefer hint) -> (ARCH_PAGE_SIZE | map_size hint) -> (length l < fuel)%nat ->
  obliging ops varea_malloc -> backed s l ->
  wp (_varea_install ops varea_malloc garbage fuel None hint prop) (fun r s' => exists y l',
    r = (RT_EOK, Some y, Some (prefer hint)) /\ y ∈ l' /\ v_start s' y = prefer hint /\
    v_size s' y = map_size hint /\ space_ok s' l' /\
    forall p b, maps s' l' p b <->
      (maps s l p b /\ ~ (prefer hint <= p < prefer hint + map_size hint)) \/
      (prefer hint <= p < prefer hint + map_size hint /\ b = new_backing prop (prefer hint) p)) s.
Proof. intros. eapply install_fixed_wp; eassumption. Qed.

(** Callbacks that succeed, except that nothing expands. *)
Definition fixed_ops (o : nat) : mem_obj_ops (aspace nat nat) nat :=
  mk_ops None None (Some (fun _ _ _ _ => RT_EOK)) None (Some (fun _ _ _ _ _ => RT_EOK)) None.

Lemma one_space_placing addr : (ARCH_PAGE_SIZE | addr) -> 4096 <= addr <= 2 ^ 20 ->
  placing one_space [1%nat] 0 12 (mk_hint 4096 (2 ^ 20) addr 4096 0).
Proof.
  intros [q ->] Ha. unfold ARCH_PAGE_SIZE in *. split; simpl; unfold PTRDIFF_MAX; try lia; try done.
  all: try (by exists 1); try (by exists q).
  intros x ->%list_elem_of_singleton. simpl. split_and!; [by exists 2|by exists 3|lia|lia].
Qed.


Lemma map_fixed_replaces_witness :
  let hint := mk_hint 4096 (2 ^ 20) 12288 4096 MMF_MAP_FIXED in
  let prop := mk_prop 0 MMF_MAP_FIXED 3 (Some 7%nat) in
  wp (_varea_install fixed_ops unused 0 2 None hint prop) (fun r s' => exists y l',
    r = (RT_EOK, Some y, Some (prefer hint)) /\ y ∈ l' /\ v_start s' y = prefer hint /\
    v_size s' y = map_size hint /\ space_ok s' l' /\
    forall p b, maps s' l' p b <->
      (maps one_space [1%nat] p b /\ ~ (prefer hint <= p < prefer hint + map_size hint)) \/
      (prefer hint <= p < prefer hint + map_size hint /\ b = new_backing prop (prefer hint) p)) one_space.
Proof.
  intros hint prop. apply (map_fixed_replaces fixed_ops unused 0 one_space [1%nat] hint prop 2).
  - exact unused_fresh.
  - exact one_space_paged.
  - reflexivity.
  - reflexivity.
  - simpl. lia.
  - simpl. lia.
  - simpl. lia.
  - by exists 3.
  - by exists 1.
  - simpl. lia.
  - split; [intros s l _; by eexists|]. intros o. split; eexists; split; try reflexivity; done.
  - intros p b (x & ->%list_elem_of_singleton & _ & ->). simpl. by eexists.
Defined.
