(* ===== verification/AspaceWalk.v ===== *)
(** Walking over all regions of a space, components/mm/mm_aspace.c: [rt_aspace_init],
    [rt_aspace_traversal], [rt_aspace_count_vsz] and [rt_aspace_detach], which removes each
    region after it has read the next one. *)
From stdpp Require Import sorting.
From S2P Require Import Prelude Avl AvlTree AvlRep AvlRebalance AvlProp Aspace AspaceFind AspaceUnmap.
#[local] Open Scope Z_scope.

Section walk.
Context {V Ob : Type} `{EqDecision V}.
Implicit Types (s : aspace V Ob) (x : V) (l : list V).

(** [rt_aspace_init]; [pgtbl] says whether a page table is given, the lock is left out. *)
Definition rt_aspace_init (start length : Z) (pgtbl : bool) s : Z * aspace V Ob :=
  if pgtbl then
    _aspace_bst_init
      (mk_aspace (tree s) (v_start s) (v_size s) (v_offset s) (v_attr s) (v_flag s) (v_obj s) start length)
  else (- RT_EINVAL, s).

(** The loop of [rt_aspace_traversal], for a function that does not change the space. *)
Fixpoint traversal_loop {B : Type} (fuel : nat) (varea : option V) (fn : V -> B -> B) (arg : B) s : option B :=
  match fuel with
  | O => None
  | S fuel =>
    match varea with
    | None => Some arg
    | Some x => next ← ASPACE_VAREA_NEXT x s; traversal_loop fuel next fn (fn x arg) s
    end
  end.

Definition rt_aspace_traversal {B : Type} (fuel : nat) (fn : V -> B -> B) (arg : B) s : option B :=
  varea ← ASPACE_VAREA_FIRST s;
  traversal_loop fuel varea fn arg s.

Definition _count_vsz s x (vsz : Z) : Z := i32 (vsz + v_size s x).

Definition rt_aspace_count_vsz (fuel : nat) s : option Z := rt_aspace_traversal fuel (_count_vsz s) 0 s.

Fixpoint detach_loop (fuel : nat) (varea : option V) : M (aspace V Ob) unit :=
  match fuel with
  | O => fun _ => None
  | S fuel =>
    match varea with
    | None => mret tt
    | Some prev =>
      s ← get;
      varea ← deref (ASPACE_VAREA_NEXT prev s);
      _varea_uninstall_locked prev;;
      detach_loop fuel varea
    end
  end.

Definition rt_aspace_detach (fuel : nat) : M (aspace V Ob) unit :=
  s ← get;
  varea ← deref (ASPACE_VAREA_FIRST s);
  detach_loop fuel varea.

(** * What they do *)

Lemma rt_aspace_init_empty start size s :
  let (e, s') := rt_aspace_init start size true s in
  e = RT_EOK /\ holds s' [] /\ as_start s' = start /\ as_size s' = size.
Proof.
  simpl. split; [done|]. split; [|done]. split; [simpl; lia|].
  exists AvlTree.E. split_and!; [split; [done|split; [done|constructor]]|done|done].
Qed.

Lemma traversal_loop_eq {B : Type} (fn : V -> B -> B) l2 : forall l1 arg s fuel, holds s (l1 ++ l2) ->
  (length l2 < fuel)%nat ->
  traversal_loop fuel (head l2) fn arg s = Some (foldl (fun b x => fn x b) arg l2).
Proof.
  induction l2 as [|x l2 IH]; intros l1 arg s fuel Hh Hf; (destruct fuel as [|fuel]; [simpl in *; lia|]); [done|].
  cbn [traversal_loop head]. rewrite (varea_next s l1 x l2 Hh). cbn [mbind option_bind].
  apply (IH (l1 ++ [x])); [by rewrite <- app_assoc|simpl in Hf; lia].
Qed.

(** The function is applied to every region, in the order of their addresses. *)
Lemma traversal_eq {B : Type} (fn : V -> B -> B) l arg s fuel : holds s l -> (length l < fuel)%nat ->
  rt_aspace_traversal fuel fn arg s = Some (foldl (fun b x => fn x b) arg l).
Proof.
  intros Hh Hf. unfold rt_aspace_traversal. destruct (varea_first_last s l Hh) as [-> _]. cbn [mbind option_bind].
  by apply (traversal_loop_eq fn l []).
Qed.

Definition total_size s l : Z := foldr (fun x z => v_size s x + z) 0 l.

Lemma count_vsz_eq l s fuel : holds s l -> (length l < fuel)%nat ->
  rt_aspace_count_vsz fuel s = Some (i32 (total_size s l)).
Proof.
  intros Hh Hf. unfold rt_aspace_count_vsz. rewrite (traversal_eq _ l) by done. f_equal.
  assert (Hg : forall a, foldl (fun b x => _count_vsz s x b) (i32 a) l = i32 (a + total_size s l)).
  { induction l as [|x l IH] in Hf |- *; intros a; simpl; [by rewrite Z.add_0_r|].
    replace (_count_vsz s x (i32 a)) with (i32 (a + v_size s x)); [rewrite IH by (simpl in Hf; lia); f_equal; lia|].
    unfold _count_vsz, i32. Z.to_euclidean_division_equations. lia. }
  apply (Hg 0).
Qed.

Lemma detach_loop_wp l : forall s fuel, holds s l -> (length l < fuel)%nat ->
  wp (detach_loop fuel (head l)) (fun _ s' => holds s' []) s.
Proof.
  induction l as [|x l IH]; intros s fuel Hh Hf; (destruct fuel as [|fuel]; [simpl in *; lia|]).
  - by apply wp_ret.
  - cbn [detach_loop head]. do 2 wp_step. rewrite (varea_next s [] x l Hh). wp_step. wp_step; [done|]. wp_step.
    eapply wp_mono; [apply (bst_remove_wp s [] x l Hh)|]. cbv beta. intros _ s' [_ Hh'].
    apply IH; [done|simpl in Hf; lia].
Qed.

(** Detaching empties the space. *)
Lemma detach_wp l s fuel : holds s l -> (length l < fuel)%nat ->
  wp (rt_aspace_detach fuel) (fun _ s' => holds s' []) s.
Proof.
  intros Hh Hf. unfold rt_aspace_detach. do 2 wp_step. destruct (varea_first_last s l Hh) as [-> _].
  wp_step. wp_step; [done|]. by apply detach_loop_wp.
Qed.
End walk.
