(* ===== verification/AspaceDemo.v ===== *)
(** The address spaces of components/mm at work on concrete regions: spaces that satisfy the
    assumptions of the theorems, and calls that go wrong. *)
From stdpp Require Import sorting.
From S2P Require Import Prelude Avl AvlTree AvlRep AvlRebalance AvlProp Aspace AspaceFind AspaceUnmap AspaceUnmapProp AspaceMap AspaceMapProp.
#[local] Open Scope Z_scope.

Section demo.

(** Regions are numbers; a region without a size is free for [rt_malloc]. *)
Abbreviation space := (aspace nat nat).

Definition no_space : space :=
  mk_aspace (mk_avl (fun _ => None) (fun _ => None) (fun _ => None) (fun _ => 0) None)
    (fun _ => 0) (fun _ => 0) (fun _ => 0) (fun _ => 0) (fun _ => 0) (fun _ => None) 4096 (3 * 2 ^ 30).

Definition some_malloc (s : space) : option nat := head (filter (fun n => v_size s n = 0) (seq 1 8)).

(** Object 1 is the dummy mapper; object 2 has no callbacks. *)
Definition some_ops (o : nat) : mem_obj_ops space nat :=
  if decide (o = 1%nat) then rt_mm_dummy_mapper (Some 0) else mk_ops None None None None None None.

Definition map_at (addr len flags : Z) (o : nat) (offset : Z) : M space (Z * Z) :=
  rt_aspace_map some_ops some_malloc (fun _ _ _ _ => true) 0 0 10 addr len 0 flags o offset.

(** The page of its object behind an address. *)
Definition page_at (p : Z) (s : space) : option Z :=
  match rt_aspace_query p s with
  | Some (Some x) => Some (u32 (v_offset s x + (p - v_start s x) / ARCH_PAGE_SIZE))
  | _ => None
  end.

Definition after (m : M space (Z * Z)) (p : Z) (s : space) : option (Z * Z * option Z) :=
  match m s with Some (r, s') => Some (r, page_at p s') | None => None end.

Definition two_maps : space :=
  run (map_at 4096 4096 0 1 1;; map_at 12288 4096 0 1 4) no_space.

(** Merging compares with the offset of the request, not of the region it has become part
    of: a mapping between two others moves the page behind the second one. *)
Lemma merge_moves_pages :
  page_at 12288 two_maps = Some 4 /\
  after (map_at 8192 4096 0 1 2) 12288 two_maps = Some (RT_EOK, 8192, Some 3).
Proof. split; vm_compute; reflexivity. Qed.

(** A neighbour behind the new addresses is also taken when its pages come before those of
    the request: page 1 is asked for, and page -1 is mapped. *)
Theorem expand_wrong_way :
  after (map_at 4096 4096 0 1 1) 4096 (run (map_at 8192 4096 0 1 0) no_space) =
    Some (RT_EOK, 4096, Some (2 ^ 32 - 1)).
Proof. vm_compute. reflexivity. Qed.

(** [MMF_MAP_FIXED] over a region that cannot be split succeeds; the region stays. *)
Theorem fixed_ignores_failed_unmap :
  let s := run (map_at 4096 12288 0 2 7) no_space in
  (_unmap_range_locked some_ops some_malloc 10 8192 4096 s = Some (- RT_EPERM, s)) /\
  match map_at 8192 4096 MMF_MAP_FIXED 2 100 s with
  | Some (r, s') => r = (RT_EOK, 8192) /\ v_start s' 1%nat = 4096 /\ v_size s' 1%nat = 12288 /\
      v_start s' 2%nat = 8192 /\ ASPACE_VAREA_NEXT 1%nat s' = Some (Some 2%nat)
  | None => False
  end.
Proof. cbv zeta. split; vm_compute; repeat split. Qed.

(** A region at [addr] of [len] bytes. *)
Definition at_ (addr len : Z) : M space (Z * Z) := map_at addr len 0 2 0.

(** With an alignment above the page size the first candidate can lie behind the start of
    the next region; the gap is then taken for almost 4 GiB, and the new region overlaps. *)
Theorem aligned_search_overlaps :
  match map_at 0 4096 (Z.lor MMF_REQUEST_ALIGN 14) 2 0 (run (at_ 4096 4096;; at_ 12288 20480) no_space) with
  | Some (r, s') => r = (RT_EOK, 16384) /\ v_start s' 2%nat = 12288 /\ v_size s' 2%nat = 20480 /\
      v_start s' 3%nat = 16384 /\ v_size s' 3%nat = 4096
  | None => False
  end.
Proof. vm_compute. repeat split. Qed.

(** A region 2 GiB above the start of the search counts as the nearest one, so that a nearer
    region is not seen, and the new region overlaps it. *)
Theorem far_search_overlaps :
  match map_at 0 8192 0 2 0 (run (at_ (9 * 2 ^ 28) 4096;; at_ 8192 4096) no_space) with
  | Some (r, s') => r = (RT_EOK, 4096) /\ v_start s' 2%nat = 8192 /\ v_size s' 2%nat = 4096 /\
      v_start s' 3%nat = 4096 /\ v_size s' 3%nat = 8192
  | None => False
  end.
Proof. vm_compute. repeat split. Qed.
End demo.
