(* ===== verification/Buddy.v ===== *)
(** The page allocator, components/mm/mm_page.c: page records in one array, free blocks of
    2^n pages in one doubly linked list per order, splitting and merging of buddies, and the
    installation of a region of pages.  Configuration: 32-bit addresses, the leak tracer off,
    after [rt_page_cleanup] ([early_offset] is 0 and [pages_alloc_handler] is
    [_pages_alloc]). *)
From S2P Require Import Prelude AspaceUnmap.
#[local] Open Scope Z_scope.

Definition ARCH_ADDRESS_WIDTH_BITS : Z := 32.
Definition ARCH_PAGE_SHIFT : Z := 12.
Definition PAGE_ANY_AVAILABLE : Z := 1.

(** [page_list_low] and [page_list_high]. *)
Inductive page_list_id := page_list_low | page_list_high.
#[global] Instance page_list_id_eq_dec : EqDecision page_list_id.
Proof. solve_decision. Defined.

(** The fields of every [struct rt_page], by the index of the record behind [page_start], and
    the variables of the file. *)
Record pages := mk_pages {
  pg_next : Z -> option Z; pg_pre : Z -> option Z; pg_bits : Z -> Z; pg_ref : Z -> Z;
  page_list : page_list_id -> Z -> option Z;
  page_nr : Z; high_pages_nr : Z; high_page_configured : bool }.

Definition set_pg_next p v s := mk_pages (fupd p v (pg_next s)) (pg_pre s) (pg_bits s) (pg_ref s) (page_list s) (page_nr s) (high_pages_nr s) (high_page_configured s).
Definition set_pg_pre p v s := mk_pages (pg_next s) (fupd p v (pg_pre s)) (pg_bits s) (pg_ref s) (page_list s) (page_nr s) (high_pages_nr s) (high_page_configured s).
Definition set_pg_bits p v s := mk_pages (pg_next s) (pg_pre s) (fupd p v (pg_bits s)) (pg_ref s) (page_list s) (page_nr s) (high_pages_nr s) (high_page_configured s).
Definition set_pg_ref p v s := mk_pages (pg_next s) (pg_pre s) (pg_bits s) (fupd p v (pg_ref s)) (page_list s) (page_nr s) (high_pages_nr s) (high_page_configured s).
Definition set_page_list l k v s := mk_pages (pg_next s) (pg_pre s) (pg_bits s) (pg_ref s) (fupd l (fupd k v (page_list s l)) (page_list s)) (page_nr s) (high_pages_nr s) (high_page_configured s).
Definition set_page_nr v s := mk_pages (pg_next s) (pg_pre s) (pg_bits s) (pg_ref s) (page_list s) v (high_pages_nr s) (high_page_configured s).
Definition set_high_pages_nr v s := mk_pages (pg_next s) (pg_pre s) (pg_bits s) (pg_ref s) (page_list s) (page_nr s) v (high_page_configured s).
Definition set_high_page_configured v s := mk_pages (pg_next s) (pg_pre s) (pg_bits s) (pg_ref s) (page_list s) (page_nr s) (high_pages_nr s) v.

(** [rt_hw_clz] and [rt_hw_ctz] of a number other than 0. *)
Definition rt_hw_clz (n : Z) : Z := 31 - Z.log2 n.
Fixpoint ctz_pos (p : positive) : Z := match p with xO p => 1 + ctz_pos p | _ => 0 end.
Definition rt_hw_ctz (n : Z) : Z := match n with Zpos p => ctz_pos p | _ => 0 end.

Definition rt_page_bits (size : Z) : Z :=
  let bit := 32 - rt_hw_clz size - 1 in
  let bit := if negb (Z.lxor size (Z.shiftl 1 bit) =? 0) then bit + 1 else bit in
  let bit := bit - ARCH_PAGE_SHIFT in
  if bit <? 0 then 0 else bit.

Definition FLOOR (val align : Z) : Z := Z.land (u32 (val + align - 1)) (u32 (Z.lnot (align - 1))).

Section buddy.
(** [RT_PAGE_MAX_ORDER], [PV_OFFSET], and whether [rt_kmem_v2p] of a page record is not
    NULL. *)
Context (max_order pv_offset : Z) (record_mapped : Z -> bool).

Definition page_to_addr (p : Z) : Z := u32 (Z.shiftl p ARCH_PAGE_SHIFT - pv_offset).
Definition addr_to_page (addr : Z) : Z := Z.shiftr (u32 (addr + pv_offset)) ARCH_PAGE_SHIFT.
Definition shadow_mask : Z := Z.shiftl 1 (max_order + ARCH_PAGE_SHIFT - 1) - 1.

Definition _buddy_get (p size_bits : Z) : Z :=
  addr_to_page (Z.lxor (page_to_addr p) (Z.shiftl 1 (size_bits + ARCH_PAGE_SHIFT))).

(** [page_list[k]], an array of [RT_PAGE_MAX_ORDER] entries. *)
Definition list_at l (k : Z) : M pages (option Z) :=
  s ← get;
  deref (if (0 <=? k) && (k <? max_order) then Some (page_list s l k) else None).

Definition put_list_at l (k : Z) (v : option Z) : M pages unit :=
  if (0 <=? k) && (k <? max_order) then modify (set_page_list l k v) else fun _ => None.

Definition _page_remove l (p size_bits : Z) : M pages unit :=
  s ← get;
  (match pg_pre s p with
   | Some q => modify (fun s => set_pg_next q (pg_next s p) s)
   | None => put_list_at l size_bits (pg_next s p)
   end);;
  s ← get;
  (match pg_next s p with
   | Some q => modify (fun s => set_pg_pre q (pg_pre s p) s)
   | None => mret tt
   end);;
  modify (set_pg_bits p ARCH_ADDRESS_WIDTH_BITS).

Definition _page_insert l (p size_bits : Z) : M pages unit :=
  head ← list_at l size_bits;
  modify (set_pg_next p head);;
  (match head with
   | Some q => modify (set_pg_pre q (Some p))
   | None => mret tt
   end);;
  modify (set_pg_pre p None);;
  put_list_at l size_bits (Some p);;
  modify (set_pg_bits p size_bits).

(** The head of the group of 2^size_bits pages. *)
Definition group_head (p size_bits : Z) : Z := Z.land p (Z.lnot (Z.shiftl 1 size_bits - 1)).

Definition _pages_ref_inc (p size_bits : Z) : M pages unit :=
  modify (fun s => set_pg_ref (group_head p size_bits) (u32 (pg_ref s (group_head p size_bits) + 1)) s).

Definition _pages_ref_get (p size_bits : Z) s : Z := pg_ref s (group_head p size_bits).

(** The loop of [_pages_free]: the page and the level at its end. *)
Fixpoint free_loop (fuel : nat) l (p level : Z) : M pages (Z * Z) :=
  match fuel with
  | O => fun _ => None
  | S fuel =>
    if level <? max_order - 1 then
      let buddy := _buddy_get p level in
      s ← get;
      if pg_bits s buddy =? level then
        _page_remove l buddy level;;
        free_loop fuel l (if p <? buddy then p else buddy) (level + 1)
      else mret (p, level)
    else mret (p, level)
  end.

(** The records are 16 bytes each, and [rt_mpr_size] is 2^20 of them. *)
Definition _pages_free l (p size_bits : Z) : M pages Z :=
  RT_ASSERT (0 <=? p);;
  RT_ASSERT (p <? 2 ^ 20);;
  RT_ASSERT (record_mapped p);;
  s ← get;
  RT_ASSERT (0 <? pg_ref s p);;
  RT_ASSERT (pg_bits s p =? ARCH_ADDRESS_WIDTH_BITS);;
  RT_ASSERT (size_bits <? max_order);;
  modify (set_pg_ref p (pg_ref s p - 1));;
  if negb (pg_ref s p - 1 =? 0) then mret 0
  else
    r ← free_loop (S (Z.to_nat max_order)) l p size_bits;
    _page_insert l r.1 r.2;;
    mret 1.

(** The first level from [level] on with a free block, or [RT_PAGE_MAX_ORDER]. *)
Fixpoint find_level (fuel : nat) l (level : Z) s : Z :=
  match fuel with
  | O => level
  | S fuel =>
    if level <? max_order then
      match page_list s l level with Some _ => level | None => find_level fuel l (level + 1) s end
    else level
  end.

Fixpoint split_loop (fuel : nat) l (p level size_bits : Z) : M pages Z :=
  match fuel with
  | O => fun _ => None
  | S fuel =>
    if size_bits <? level then
      _page_insert l p (level - 1);;
      split_loop fuel l (_buddy_get p (level - 1)) (level - 1) size_bits
    else mret p
  end.

Definition take_page (p : Z) : M pages (option Z) :=
  modify (set_pg_bits p ARCH_ADDRESS_WIDTH_BITS);;
  modify (set_pg_ref p 1);;
  mret (Some p).

Definition _pages_alloc l (size_bits : Z) : M pages (option Z) :=
  head ← list_at l size_bits;
  match head with
  | Some p => _page_remove l p size_bits;; take_page p
  | None =>
    s ← get;
    let level := find_level (Z.to_nat max_order) l (size_bits + 1) s in
    if level =? max_order then mret None
    else
      head ← list_at l level;
      p ← deref head;
      _page_remove l p level;;
      p ← split_loop (S (Z.to_nat max_order)) l p level size_bits;
      take_page p
  end.

(** No 32-bit address is above [UINT32_MAX]. *)
Definition _get_page_list (vaddr : Z) : page_list_id :=
  if 2 ^ 32 - 1 <? u32 (vaddr + pv_offset) then page_list_high else page_list_low.

Definition rt_page_ref_get (addr size_bits : Z) s : Z := _pages_ref_get (addr_to_page addr) size_bits s.
Definition rt_page_ref_inc (addr size_bits : Z) : M pages unit := _pages_ref_inc (addr_to_page addr) size_bits.

Definition _flag_to_page_list (flags : Z) s : page_list_id :=
  if high_page_configured s && negb (Z.land flags PAGE_ANY_AVAILABLE =? 0) then page_list_high else page_list_low.

(** The address, 0 when there is no block. *)
Definition _do_pages_alloc (size_bits flags : Z) : M pages Z :=
  l ← gets (_flag_to_page_list flags);
  p ← _pages_alloc l size_bits;
  p ← (match p with
       | None => if decide (l <> page_list_low) then _pages_alloc page_list_low size_bits else mret None
       | Some p => mret (Some p)
       end);
  mret (match p with Some p => page_to_addr p | None => 0 end).

Definition rt_pages_alloc (size_bits : Z) : M pages Z := _do_pages_alloc size_bits 0.
Definition rt_pages_alloc_ext (size_bits flags : Z) : M pages Z := _do_pages_alloc size_bits flags.

Definition rt_pages_free (addr size_bits : Z) : M pages Z :=
  _pages_free (_get_page_list addr) (addr_to_page addr) size_bits.

(** [while (p) { total_free += (1UL << i); p = p->next; }]. *)
Fixpoint count_loop (fuel : nat) (p : option Z) (i total : Z) s : option Z :=
  match fuel with
  | O => None
  | S fuel =>
    match p with
    | Some p => count_loop fuel (pg_next s p) i (u32 (total + Z.shiftl 1 i)) s
    | None => Some total
    end
  end.

Fixpoint count_levels (fuel : nat) (levels : nat) l (i total : Z) s : option Z :=
  match levels with
  | O => Some total
  | S levels =>
    total ← count_loop fuel (page_list s l i) i total s;
    count_levels fuel levels l (i + 1) total s
  end.

(** [rt_page_get_info]: the numbers of all pages and of the free ones. *)
Definition rt_page_get_info (fuel : nat) s : option (Z * Z) :=
  low ← count_levels fuel (Z.to_nat max_order) page_list_low 0 0 s;
  all ← count_levels fuel (Z.to_nat max_order) page_list_high 0 low s;
  Some (page_nr s, all).

Definition rt_page_high_get_info (fuel : nat) s : option (Z * Z) :=
  free ← count_levels fuel (Z.to_nat max_order) page_list_high 0 0 s;
  Some (high_pages_nr s, free).

(** * Installing pages *)

Fixpoint mark_loop (fuel : nat) (iter tail : Z) s : pages :=
  match fuel with
  | O => s
  | S fuel => if iter <? tail then mark_loop fuel (iter + 1) tail (set_pg_bits iter ARCH_ADDRESS_WIDTH_BITS s) else s
  end.

(** The order of the next block of the region, as a power of 2 bytes. *)
Definition install_bits (start end_ : Z) : Z :=
  let size_bits := ARCH_ADDRESS_WIDTH_BITS - 1 - rt_hw_clz (u32 (end_ - start)) in
  let align_bits := rt_hw_ctz start in
  let size_bits := if align_bits <? size_bits then align_bits else size_bits in
  let max := max_order + ARCH_PAGE_SHIFT - 1 in
  if max <? size_bits then max else size_bits.

Fixpoint install_loop (fuel : nat) (start end_ : Z) : M pages unit :=
  match fuel with
  | O => fun _ => None
  | S fuel =>
    if decide (start <> end_) then
      let size_bits := install_bits start end_ in
      let p := addr_to_page start in
      modify (set_pg_bits p ARCH_ADDRESS_WIDTH_BITS);;
      modify (set_pg_ref p 0);;
      let l := _get_page_list start in
      (if decide (l = page_list_high)
       then modify (fun s => set_high_pages_nr (u32 (high_pages_nr s + Z.shiftl 1 (size_bits - ARCH_PAGE_SHIFT))) s)
       else mret tt);;
      _page_insert l p (size_bits - ARCH_PAGE_SHIFT);;
      install_loop fuel (u32 (start + Z.shiftl 1 size_bits)) end_
    else mret tt
  end.

Definition _install_page (fuel : nat) (start end_ : Z) : M pages unit :=
  let shadow_start := Z.land start (u32 (Z.lnot shadow_mask)) in
  let shadow_end := FLOOR end_ (shadow_mask + 1) in
  (if 2 ^ 32 - 1 <? u32 (shadow_end + pv_offset) then modify (set_high_page_configured true) else mret tt);;
  let head := addr_to_page start in
  let tail := addr_to_page end_ in
  modify (mark_loop fuel (addr_to_page shadow_start) head);;
  modify (mark_loop fuel tail (addr_to_page shadow_end));;
  install_loop fuel start end_.

(** [rt_page_install]; [load_err] is what [_load_mpr_area] returns for the records. *)
Definition rt_page_install (fuel : nat) (load_err : Z) (start end_ : Z) : M pages Z :=
  if negb (end_ =? start) && (Z.land start ARCH_PAGE_MASK =? 0) && (Z.land end_ ARCH_PAGE_MASK =? 0) then
    modify (fun s => set_page_nr (u32 (page_nr s + Z.shiftr (u32 (end_ - start)) ARCH_PAGE_SHIFT)) s);;
    if decide (load_err = RT_EOK) then _install_page fuel start end_;; mret load_err else mret load_err
  else mret (- RT_EINVAL).
End buddy.
