(* ===== verification/BuddyInv.v ===== *)
(** Blocks of the page allocator: a map from the first page of every block to its order and
    status, the tiling of the pages by blocks, splitting and joining blocks, and the linked
    lists of free blocks. *)
From stdpp Require Import gmap.
From S2P Require Import Prelude AspaceUnmap Buddy.
#[local] Open Scope Z_scope.

(** * Buddies *)

Definition buddy_of (p k : Z) : Z := Z.lxor p (2 ^ k).

Lemma lxor_1 m : Z.lxor m 1 = if decide (m mod 2 = 0) then m + 1 else m - 1.
Proof.
  assert (He : forall n, Z.lxor (2 * n) 1 = 2 * n + 1).
  { intros n. rewrite <- Z.add_nocarry_lxor; [done|]. change 1 with (Z.ones 1) at 1. rewrite Z.land_ones by lia.
    change (2 ^ 1) with 2. rewrite Z.mul_comm. apply Z.mod_mul. lia. }
  pose proof (Z.div_mod m 2 ltac:(lia)) as E. pose proof (Z.mod_pos_bound m 2 ltac:(lia)). case_decide as H'.
  - rewrite H', Z.add_0_r in E. rewrite E at 1. rewrite He. lia.
  - assert (H2 : m mod 2 = 1) by lia. rewrite H2 in E. rewrite E at 1. rewrite <- He, Z.lxor_assoc, Z.lxor_nilpotent, Z.lxor_0_r. lia.
Qed.

Lemma lxor_pow2 m k : 0 <= k ->
  Z.lxor (m * 2 ^ k) (2 ^ k) = if decide (m mod 2 = 0) then m * 2 ^ k + 2 ^ k else m * 2 ^ k - 2 ^ k.
Proof.
  intros Hk. replace (2 ^ k) with (Z.shiftl 1 k) at 2 by (rewrite Z.shiftl_mul_pow2; lia).
  rewrite <- Z.shiftl_mul_pow2, <- Z.shiftl_lxor, lxor_1, !Z.shiftl_mul_pow2 by lia. case_decide; lia.
Qed.

(** One of two buddies comes first. *)
Lemma buddy_cases p k : 0 <= k -> (2 ^ k | p) ->
  (2 ^ (k + 1) | p) /\ buddy_of p k = p + 2 ^ k \/ (2 ^ (k + 1) | p - 2 ^ k) /\ buddy_of p k = p - 2 ^ k.
Proof.
  intros Hk [m ->]. unfold buddy_of. rewrite lxor_pow2, Z.pow_add_r, Z.pow_1_r by lia.
  pose proof (Z.div_mod m 2 ltac:(lia)). pose proof (Z.mod_pos_bound m 2 ltac:(lia)).
  case_decide; [left|right]; (split; [exists (m / 2); nia|done]).
Qed.

Lemma buddy_even p k : 0 <= k -> (2 ^ (k + 1) | p) -> buddy_of p k = p + 2 ^ k /\ buddy_of (p + 2 ^ k) k = p.
Proof.
  intros Hk [m ->]. unfold buddy_of. rewrite Z.pow_add_r, Z.pow_1_r by lia.
  replace (m * (2 ^ k * 2)) with ((2 * m) * 2 ^ k) by lia. replace (2 * m * 2 ^ k + 2 ^ k) with ((2 * m + 1) * 2 ^ k) by lia.
  rewrite !lxor_pow2 by done. rewrite decide_True by (rewrite Z.mul_comm; by apply Z.mod_mul).
  rewrite decide_False; [lia|]. rewrite Z.add_comm, Z.mul_comm, Z.mod_add by lia. done.
Qed.

Lemma buddy_invol p k : 0 <= k -> (2 ^ k | p) -> buddy_of (buddy_of p k) k = p.
Proof. intros. unfold buddy_of. by rewrite Z.lxor_assoc, Z.lxor_nilpotent, Z.lxor_0_r. Qed.

Lemma buddy_aligned p k : 0 <= k -> (2 ^ k | p) -> (2 ^ k | buddy_of p k).
Proof.
  intros Hk Hd. destruct (buddy_cases p k Hk Hd) as [[_ ->]|[_ ->]].
  - by apply Z.divide_add_r.
  - by apply Z.divide_sub_r.
Qed.

(** * The map of blocks *)

(** A block is free, used by a number of holders, reserved for ever, or in the hands of the
    running operation. *)
Inductive block_status := Free | Used (refs : Z) | Reserved | Held.
#[global] Instance block_status_eq_dec : EqDecision block_status.
Proof. solve_decision. Defined.

Abbreviation blocks := (gmap Z (Z * block_status)%type).
Implicit Types (B : blocks) (p q k j : Z) (st : block_status).

(** The pages of a block. *)
Definition in_block p k q : Prop := p <= q < p + 2 ^ k.

#[global] Instance in_block_dec p k q : Decision (in_block p k q).
Proof. unfold in_block. apply _. Defined.

(** One block in the place of all blocks in its range. *)
Definition join_block p k st B : blocks := <[p := (k, st)]> (filter (fun x => ~ in_block p k x.1) B).

Lemma lookup_join p k st B q : 0 <= k ->
  join_block p k st B !! q = if decide (q = p) then Some (k, st) else if decide (in_block p k q) then None else B !! q.
Proof.
  intros Hk. unfold join_block. case_decide as Hq; [subst; apply lookup_insert_eq|]. rewrite lookup_insert_ne by done.
  rewrite map_lookup_filter. destruct (B !! q) as [x|] eqn:E; simpl; [|by case_decide].
  case_decide; [rewrite option_guard_False; [done|tauto]|by rewrite option_guard_True].
Qed.

(** ** Alignment *)

Lemma pow_pos k : 0 <= k -> 0 < 2 ^ k.
Proof. intros. by apply Z.pow_pos_nonneg. Qed.

Lemma aligned_below p k j : 0 <= j <= k -> (2 ^ k | p) -> (2 ^ j | p).
Proof. intros H. apply Z.divide_trans. exists (2 ^ (k - j)). rewrite <- Z.pow_add_r by lia. f_equal. lia. Qed.

(** Two aligned blocks are apart or one lies in the other. *)
Lemma aligned_nested p k q j : 0 <= j <= k -> (2 ^ k | p) -> (2 ^ j | q) -> q + 2 ^ j <= p \/ p + 2 ^ k <= q \/
  (p <= q /\ q + 2 ^ j <= p + 2 ^ k).
Proof.
  intros Hjk Hp Hq. pose proof (aligned_below p k j Hjk Hp) as [a Ha]. destruct Hq as [b Hb].
  pose proof (Z.pow_pos_nonneg 2 j ltac:(lia) ltac:(lia)) as Hpos.
  assert (E : 2 ^ k = 2 ^ (k - j) * 2 ^ j) by (rewrite <- Z.pow_add_r by lia; f_equal; lia).
  pose proof (Z.pow_pos_nonneg 2 (k - j) ltac:(lia) ltac:(lia)). subst p q. rewrite E.
  destruct (Z_lt_le_dec b a); [left; nia|]. destruct (Z_lt_le_dec b (a + 2 ^ (k - j))); [right; right; nia|right; left; nia].
Qed.

Section wf.
Context (max : Z) (Hmax : 1 <= max <= 21).

Definition block_ok p k : Prop := 0 <= k < max /\ (2 ^ k | p) /\ 0 <= p /\ p + 2 ^ k <= 2 ^ 20.

(** Blocks are aligned, apart, and cover the largest aligned ranges they touch. *)
Record blocks_wf B : Prop := {
  wf_ok : forall p k st, B !! p = Some (k, st) -> block_ok p k;
  wf_apart : forall p k st q j st', B !! p = Some (k, st) -> B !! q = Some (j, st') -> p <> q ->
    p + 2 ^ k <= q \/ q + 2 ^ j <= p;
  wf_cover : forall p k st q, B !! p = Some (k, st) -> q / 2 ^ (max - 1) = p / 2 ^ (max - 1) ->
    exists p' k' st', B !! p' = Some (k', st') /\ in_block p' k' q }.

(** No two buddies are both free. *)
Definition coalesced B : Prop := forall p k, B !! p = Some (k, Free) -> k < max - 1 ->
  B !! buddy_of p k <> Some (k, Free).

Definition free_page B q : Prop := exists p k, B !! p = Some (k, Free) /\ in_block p k q.

(** A block of order below the largest and its buddy lie in one largest range. *)
Lemma same_range p k q : block_ok p k -> in_block p k q -> q / 2 ^ (max - 1) = p / 2 ^ (max - 1).
Proof.
  intros (Hk & Hd & Hp & _) [H1 H2].
  pose proof (Z.pow_pos_nonneg 2 (max - 1) ltac:(lia) ltac:(lia)) as Hpos.
  set (r := p / 2 ^ (max - 1)). pose proof (Z.div_mod p (2 ^ (max - 1)) ltac:(lia)) as E. fold r in E.
  pose proof (Z.mod_pos_bound p (2 ^ (max - 1)) Hpos) as Hm.
  destruct (aligned_nested (2 ^ (max - 1) * r) (max - 1) p k ltac:(lia)) as [|[|[]]]; try done; try lia.
  { by exists r; lia. }
  symmetry. apply (Z.div_unique_pos q _ r (q - 2 ^ (max - 1) * r)); lia.
Qed.

Lemma buddy_range p k : block_ok p k -> k < max - 1 -> buddy_of p k / 2 ^ (max - 1) = p / 2 ^ (max - 1) /\ 0 <= buddy_of p k.
Proof.
  intros (H0 & Hd & Hp & He) Hk. pose proof (Z.pow_pos_nonneg 2 k ltac:(lia) ltac:(lia)) as Hpos.
  pose proof (Z.pow_pos_nonneg 2 (max - 1) ltac:(lia) ltac:(lia)) as Hpm.
  set (r := p / 2 ^ (max - 1)). pose proof (Z.div_mod p (2 ^ (max - 1)) ltac:(lia)) as E. fold r in E.
  pose proof (Z.mod_pos_bound p (2 ^ (max - 1)) Hpm) as Hm.
  assert (Hr : (2 ^ (max - 1) | 2 ^ (max - 1) * r)) by (exists r; lia). assert (Hr0 : 0 <= r) by (apply Z.div_pos; lia).
  assert (G : forall c, (2 ^ (k + 1) | c) -> c <= p < c + 2 ^ (k + 1) ->
    2 ^ (max - 1) * r <= c /\ c + 2 ^ (k + 1) <= 2 ^ (max - 1) * r + 2 ^ (max - 1)).
  { intros c Hc Hcp. destruct (aligned_nested (2 ^ (max - 1) * r) (max - 1) c (k + 1) ltac:(lia) Hr Hc) as [|[|]]; [lia|lia|done]. }
  assert (E2 : 2 ^ (k + 1) = 2 * 2 ^ k) by (rewrite Z.pow_add_r by lia; lia).
  destruct (buddy_cases p k ltac:(lia) Hd) as [[Hc ->]|[Hc ->]]; destruct (G _ Hc ltac:(lia)).
  - split; [|lia]. symmetry. apply (Z.div_unique_pos _ _ r (p + 2 ^ k - 2 ^ (max - 1) * r)); lia.
  - split; [|nia]. symmetry. apply (Z.div_unique_pos _ _ r (p - 2 ^ k - 2 ^ (max - 1) * r)); lia.
Qed.

(** ** A block is found where its buddy is *)

(** The first page of the buddy is the first page of a block that is not larger. *)
Lemma buddy_block B p k st : blocks_wf B -> B !! p = Some (k, st) -> k < max - 1 ->
  exists j st', B !! buddy_of p k = Some (j, st') /\ j <= k.
Proof.
  intros [Hok Hap Hcov] Hp Hk. pose proof (Hok _ _ _ Hp) as Hbp. pose proof Hbp as ((H0 & _) & Hd & Hp0 & _).
  destruct (buddy_range p k Hbp Hk) as [Hr Hb0].
  destruct (Hcov p k st _ Hp Hr) as (p' & k' & st' & Hp' & Hin).
  pose proof (Hok _ _ _ Hp') as (Hk' & Hd' & _). pose proof (pow_pos k H0) as Hpos. pose proof (pow_pos k' ltac:(lia)) as Hpos'.
  pose proof (buddy_aligned p k H0 Hd) as Hbd. unfold in_block in Hin.
  assert (Hne : buddy_of p k <> p) by (destruct (buddy_cases p k H0 Hd) as [[_ ->]|[_ ->]]; lia).
  destruct (Z_lt_le_dec k k') as [Hlt|Hle].
  - (* A larger block would hold both. *)
    exfalso. destruct (decide (p' = p)) as [->|Hpp]; [rewrite Hp in Hp'; injection Hp' as -> _; lia|].
    assert (Hsame : p' <= p /\ p + 2 ^ k <= p' + 2 ^ k').
    { assert (E2 : 2 ^ (k + 1) = 2 * 2 ^ k) by (rewrite Z.pow_add_r by lia; lia).
      destruct (buddy_cases p k H0 Hd) as [[Hc E]|[Hc E]]; rewrite E in Hin;
        [destruct (aligned_nested p' k' p (k + 1) ltac:(lia) Hd' Hc) as [|[|]]|
         destruct (aligned_nested p' k' (p - 2 ^ k) (k + 1) ltac:(lia) Hd' Hc) as [|[|]]]; lia. }
    destruct (Hap _ _ _ _ _ _ Hp' Hp Hpp); lia.
  - exists k', st'. split; [|done]. replace (buddy_of p k) with p'; [done|].
    destruct (aligned_below (buddy_of p k) k k' ltac:(lia) Hbd) as [a Ha]. destruct Hd' as [b ->]. rewrite Ha in Hin |- *.
    assert (a = b); [|by subst]. nia.
Qed.

(** ** Changing a status, splitting, joining *)

Lemma wf_status B p k st st' : blocks_wf B -> B !! p = Some (k, st) -> blocks_wf (<[p := (k, st')]> B).
Proof.
  intros [Hok Hap Hcov] Hp.
  assert (G : forall q j s1, <[p := (k, st')]> B !! q = Some (j, s1) -> exists s2, B !! q = Some (j, s2)).
  { intros q j s1. destruct (decide (q = p)) as [->|].
    - rewrite lookup_insert_eq. intros [= <- <-]. eauto.
    - rewrite lookup_insert_ne by done. eauto. }
  split.
  - intros q j s1 (s2 & H)%G. eauto.
  - intros q j s1 q' j' s1' (s2 & H)%G (s3 & H')%G. eauto.
  - intros q j s1 x (s2 & H)%G Hx. destruct (Hcov _ _ _ _ H Hx) as (q' & j' & s' & Hq' & Hin).
    destruct (decide (q' = p)) as [->|].
    + rewrite Hp in Hq'. injection Hq' as <- <-. exists p, k, st'. by rewrite lookup_insert_eq.
    + exists q', j', s'. by rewrite lookup_insert_ne.
Qed.

Definition split_block p k st1 st2 B : blocks := <[p := (k, st1)]> (<[p + 2 ^ k := (k, st2)]> B).

Lemma wf_split B p k st st1 st2 : blocks_wf B -> B !! p = Some (k + 1, st) -> 0 <= k ->
  blocks_wf (split_block p k st1 st2 B).
Proof.
  intros [Hok Hap Hcov] Hp Hk. pose proof (Hok _ _ _ Hp) as Hbp. pose proof Hbp as (Hk1 & Hd & Hp0 & He).
  pose proof (pow_pos k Hk) as Hpos. assert (E2 : 2 ^ (k + 1) = 2 * 2 ^ k) by (rewrite Z.pow_add_r by lia; lia).
  pose proof (aligned_below p (k + 1) k ltac:(lia) Hd) as Hd'.
  assert (G : forall q j s1, split_block p k st1 st2 B !! q = Some (j, s1) ->
    (q = p \/ q = p + 2 ^ k) /\ j = k \/ q <> p /\ q <> p + 2 ^ k /\ B !! q = Some (j, s1)).
  { intros q j s1. unfold split_block. destruct (decide (q = p)) as [->|]; [rewrite lookup_insert_eq; intros [= -> _]; auto|].
    rewrite lookup_insert_ne by done. destruct (decide (q = p + 2 ^ k)) as [->|]; [rewrite lookup_insert_eq; intros [= -> _]; auto|].
    rewrite lookup_insert_ne by done. auto. }
  assert (Gap : forall q j s1, q <> p -> B !! q = Some (j, s1) -> q + 2 ^ j <= p \/ p + 2 * 2 ^ k <= q).
  { intros q j s1 Hne Hq. rewrite <- E2. destruct (Hap _ _ _ _ _ _ Hp Hq); auto. }
  assert (Hno : B !! (p + 2 ^ k) = None).
  { destruct (B !! (p + 2 ^ k)) as [[j s1]|] eqn:Hq; [|done]. pose proof (Hok _ _ _ Hq) as ((? & _) & _).
    pose proof (pow_pos j ltac:(lia)). destruct (Gap (p + 2 ^ k) j s1 ltac:(lia) Hq); lia. }
  split.
  - intros q j s1 [[[-> | ->] ->]|(_ & _ & H)]%G; [..|eauto]; (split; [lia|]); (split; [try done|lia]).
    by apply Z.divide_add_r.
  - intros q j s1 q' j' s1' HG HG' Hne. apply G in HG as [[[-> | ->] ->]|(N1 & N2 & H)];
      apply G in HG' as [[[-> | ->] ->]|(N1' & N2' & H')]; try done; try lia;
      repeat match goal with Hq : B !! ?q = Some _, N : ?q <> p |- _ => pose proof (Gap _ _ _ N Hq); clear N end; try lia; eauto.
  - assert (Hnew : forall q, in_block p (k + 1) q -> exists p' k' st', split_block p k st1 st2 B !! p' = Some (k', st') /\ in_block p' k' q).
    { intros q [H1 H2]. unfold split_block. destruct (Z_lt_le_dec q (p + 2 ^ k)).
      - exists p, k, st1. rewrite lookup_insert_eq. split; [done|]. by split.
      - exists (p + 2 ^ k), k, st2. rewrite lookup_insert_ne, lookup_insert_eq by lia. split; [done|]. split; lia. }
    assert (Hold : forall q0 j0 s0 q, B !! q0 = Some (j0, s0) -> q / 2 ^ (max - 1) = q0 / 2 ^ (max - 1) ->
      exists p' k' st', split_block p k st1 st2 B !! p' = Some (k', st') /\ in_block p' k' q).
    { intros q0 j0 s0 q H0 Hq. destruct (Hcov _ _ _ _ H0 Hq) as (p' & k' & st' & Hp' & Hin).
      destruct (decide (p' = p)) as [->|]; [rewrite Hp in Hp'; injection Hp' as <- _; by apply Hnew|].
      exists p', k', st'. unfold split_block. rewrite !lookup_insert_ne; [done|congruence|done]. }
    intros q j s1 x [[Hq ->]|(_ & _ & H)]%G Hx; [|by apply (Hold q j s1 x)].
    apply (Hold p (k + 1) st x Hp). rewrite Hx. apply (same_range p (k + 1) q); [done|]. split; lia.
Qed.

Lemma wf_join B p k st q0 k0 st0 : blocks_wf B -> block_ok p k -> B !! q0 = Some (k0, st0) -> in_block p k q0 ->
  (forall q j s1, B !! q = Some (j, s1) -> q + 2 ^ j <= p \/ p + 2 ^ k <= q \/ j <= k) ->
  blocks_wf (join_block p k st B).
Proof.
  intros [Hok Hap Hcov] Hbp Hq0 Hin0 Hj. pose proof Hbp as (Hk & Hd & Hp0 & He). pose proof (pow_pos k ltac:(lia)) as Hpos.
  assert (Hcase : forall q j s1, B !! q = Some (j, s1) -> q + 2 ^ j <= p \/ p + 2 ^ k <= q \/ p <= q /\ q + 2 ^ j <= p + 2 ^ k).
  { intros q j s1 Hq. destruct (Hj _ _ _ Hq) as [?|[?|Hle]]; [auto..|]. pose proof (Hok _ _ _ Hq) as (? & Hdq & _).
    apply aligned_nested; [lia|done|done]. }
  assert (G : forall q j s1, join_block p k st B !! q = Some (j, s1) ->
    q = p /\ j = k \/ (q + 2 ^ j <= p \/ p + 2 ^ k <= q) /\ B !! q = Some (j, s1)).
  { intros q j s1. rewrite lookup_join by lia. case_decide as E1; [intros [= -> _]; auto|]. case_decide as E2; [done|].
    intros H. right. split; [|done]. unfold in_block in E2. pose proof (Hok _ _ _ H) as ((? & _) & _).
    pose proof (pow_pos j ltac:(lia)). destruct (Hcase _ _ _ H) as [|[|]]; lia. }
  split.
  - intros q j s1 [[-> ->]|[_ H]]%G; [done|eauto].
  - intros q j s1 q' j' s1' HG HG' Hne.
    apply G in HG as [[-> ->]|[H1 H]]; apply G in HG' as [[-> ->]|[H1' H']]; try done; try lia. eauto.
  - assert (Hold : forall q j s1 x, B !! q = Some (j, s1) -> x / 2 ^ (max - 1) = q / 2 ^ (max - 1) ->
      exists p' k' st', join_block p k st B !! p' = Some (k', st') /\ in_block p' k' x).
    { intros q j s1 x Hq Hx. destruct (Hcov _ _ _ _ Hq Hx) as (p' & k' & st' & Hp' & Hin). unfold in_block in *.
      destruct (Hcase _ _ _ Hp') as [?|[?|[? ?]]].
      3: { exists p, k, st. rewrite lookup_join, decide_True by (done || lia). split; [done|lia]. }
      all: pose proof (Hok _ _ _ Hp') as ((? & _) & _); pose proof (pow_pos k' ltac:(lia)).
      all: exists p', k', st'; rewrite lookup_join, decide_False, decide_False by (unfold in_block; lia); done. }
    intros q j s1 x [[-> ->]|[_ H]]%G Hx; [|eauto].
    apply (Hold q0 k0 st0 x Hq0). rewrite Hx. symmetry. by apply (same_range p k).
Qed.

(** ** Free buddies *)

Lemma coalesced_insert B p k st : coalesced B -> 0 <= k -> (2 ^ k | p) ->
  (st = Free -> k < max - 1 -> B !! buddy_of p k <> Some (k, Free)) -> coalesced (<[p := (k, st)]> B).
Proof.
  intros Hc Hk Hd Hst q j Hq Hj Hb. pose proof (pow_pos k Hk).
  assert (Hne : buddy_of p k <> p) by (destruct (buddy_cases p k Hk Hd) as [[_ ->]|[_ ->]]; lia).
  destruct (decide (q = p)) as [->|Hqp].
  - rewrite lookup_insert_eq in Hq. injection Hq as <- ->. rewrite lookup_insert_ne in Hb by done. by apply Hst.
  - rewrite lookup_insert_ne in Hq by done. destruct (decide (buddy_of q j = p)) as [E|Hbp].
    + rewrite E, lookup_insert_eq in Hb. injection Hb as <- ->.
      assert (E' : buddy_of p k = q) by (rewrite <- E; unfold buddy_of; by rewrite Z.lxor_assoc, Z.lxor_nilpotent, Z.lxor_0_r).
      apply Hst; [done|done|]. by rewrite E'.
    + rewrite lookup_insert_ne in Hb by done. by apply (Hc q j).
Qed.

Lemma coalesced_subset B B' : coalesced B -> B' ⊆ B -> coalesced B'.
Proof.
  intros Hc Hs p k Hp Hk Hb. apply (Hc p k); [by apply (lookup_weaken _ _ _ _ Hp)|done|by apply (lookup_weaken _ _ _ _ Hb)].
Qed.

(** With no two free buddies, an aligned range of free pages lies in one free block. *)
Lemma free_range B a n : blocks_wf B -> coalesced B -> forall k, k = Z.of_nat n -> k < max -> (2 ^ k | a) ->
  (forall q, in_block a k q -> free_page B q) -> exists p j, B !! p = Some (j, Free) /\ k <= j /\ p <= a /\ a + 2 ^ k <= p + 2 ^ j.
Proof.
  intros Hwf Hc. revert a. induction n as [|n IH]; intros a k -> Hk Hd Hf.
  - destruct (Hf a) as (p & j & Hp & Hin). { split; [lia|]. simpl. lia. }
    pose proof (wf_ok _ Hwf _ _ _ Hp) as ((? & _) & _). exists p, j. unfold in_block in Hin.
    change (2 ^ Z.of_nat 0) with 1. split; [done|]. lia.
  - set (k := Z.of_nat n) in *. replace (Z.of_nat (S n)) with (k + 1) in * by lia. assert (Hk0 : 0 <= k) by lia.
    assert (E2 : 2 ^ (k + 1) = 2 * 2 ^ k) by (rewrite Z.pow_add_r by lia; lia). pose proof (pow_pos k Hk0) as Hpos.
    pose proof (aligned_below a (k + 1) k ltac:(lia) Hd) as Hd0.
    destruct (IH a k eq_refl ltac:(lia) Hd0) as (p1 & j1 & H1 & L1 & L1' & L1'').
    { intros q Hq. apply Hf. unfold in_block in *. lia. }
    destruct (IH (a + 2 ^ k) k eq_refl ltac:(lia)) as (p2 & j2 & H2 & L2 & L2' & L2'').
    { by apply Z.divide_add_r. }
    { intros q Hq. apply Hf. unfold in_block in *. lia. }
    pose proof (wf_ok _ Hwf _ _ _ H1) as (K1 & D1 & _). pose proof (wf_ok _ Hwf _ _ _ H2) as (K2 & D2 & _).
    destruct (Z_lt_le_dec k j1).
    { exists p1, j1. split; [done|]. split; [lia|].
      destruct (aligned_nested p1 j1 a (k + 1) ltac:(lia) D1 Hd) as [|[|]]; lia. }
    destruct (Z_lt_le_dec k j2).
    { exists p2, j2. split; [done|]. split; [lia|].
      destruct (aligned_nested p2 j2 a (k + 1) ltac:(lia) D2 Hd) as [|[|]]; lia. }
    assert (j1 = k) as -> by lia. assert (j2 = k) as -> by lia. assert (p1 = a) as -> by lia.
    assert (p2 = a + 2 ^ k) as -> by lia. exfalso. apply (Hc a k H1 ltac:(lia)).
    destruct (buddy_even a k Hk0 Hd) as [-> _]. done.
Qed.
End wf.
