(* ===== verification/BuddyRep.v ===== *)
(** The free lists of the page allocator: what the page records say of a map of blocks, and
    what taking a block from its list and putting one on a list does. *)
From stdpp Require Import gmap.
From S2P Require Import Prelude AspaceUnmap Buddy BuddyInv.
#[local] Open Scope Z_scope.

(** * Segments of a doubly linked list *)

Definition hd_or (nxt : option Z) (xs : list Z) : option Z := match xs with [] => nxt | q :: _ => Some q end.
Fixpoint last_or (pre : option Z) (xs : list Z) : option Z := match xs with [] => pre | q :: xs => last_or (Some q) xs end.

Fixpoint seg (s : pages) (pre : option Z) (xs : list Z) (nxt : option Z) : Prop :=
  match xs with
  | [] => True
  | p :: xs => pg_pre s p = pre /\ pg_next s p = hd_or nxt xs /\ seg s (Some p) xs nxt
  end.

Lemma hd_or_app nxt xs ys : hd_or nxt (xs ++ ys) = hd_or (hd_or nxt ys) xs.
Proof. by destruct xs. Qed.

Lemma last_or_snoc pre xs q : last_or pre (xs ++ [q]) = Some q.
Proof. revert pre. induction xs as [|x xs IH]; intros pre; [done|apply IH]. Qed.

Lemma seg_app s pre xs ys nxt : seg s pre (xs ++ ys) nxt <-> seg s pre xs (hd_or nxt ys) /\ seg s (last_or pre xs) ys nxt.
Proof. revert pre. induction xs as [|x xs IH]; intros pre; simpl; [tauto|]. rewrite IH, hd_or_app. tauto. Qed.

Lemma seg_ext s s' pre xs nxt : (forall q, q ∈ xs -> pg_pre s' q = pg_pre s q /\ pg_next s' q = pg_next s q) ->
  seg s pre xs nxt -> seg s' pre xs nxt.
Proof.
  revert pre. induction xs as [|x xs IH]; intros pre Hx; [done|]. simpl. intros (H1 & H2 & H3).
  destruct (Hx x) as [-> ->]; [left|]. split; [done|]. split; [done|]. apply IH; [|done]. intros q ?. apply Hx. by right.
Qed.

Lemma seg_set_next s pre xs q nxt n : q ∉ xs -> seg s pre (xs ++ [q]) nxt -> seg (set_pg_next q n s) pre (xs ++ [q]) n.
Proof.
  rewrite !seg_app. intros Hq (H1 & H2 & _ & _). split; [|split; [done|split; [|done]]].
  - revert H1. apply seg_ext. intros x Hx. simpl. rewrite fupd_ne; [done|]. by intros ->.
  - simpl. by rewrite fupd_eq.
Qed.

Lemma seg_set_pre s pre xs q nxt n : q ∉ xs -> seg s pre (q :: xs) nxt -> seg (set_pg_pre q n s) n (q :: xs) nxt.
Proof.
  intros Hq (_ & H2 & H3). split; [simpl; by rewrite fupd_eq|]. split; [done|].
  revert H3. apply seg_ext. intros x Hx. simpl. rewrite fupd_ne; [done|]. by intros ->.
Qed.

Definition free_list (s : pages) (k : Z) (xs : list Z) : Prop :=
  page_list s page_list_low k = hd_or None xs /\ seg s None xs None.

(** Two maps that differ in blocks held by the running operation only. *)
Definition held_eq (B B' : blocks) : Prop :=
  forall p k st, st <> Held -> B !! p = Some (k, st) <-> B' !! p = Some (k, st).

#[global] Instance held_eq_equiv : Equivalence held_eq.
Proof.
  split; [by intros B p k st|by intros B B' H p k st Hst; symmetry; apply H|].
  intros B B' B'' H H' p k st Hst. rewrite (H _ _ _ Hst). by apply H'.
Qed.

(** * What the records say *)

Section rep.
Context (max : Z) (Hmax : 1 <= max <= 21).

Definition bits_of (st : block_status) (k bits : Z) : Prop :=
  match st with Free => bits = k | Held => True | _ => bits = ARCH_ADDRESS_WIDTH_BITS end.

Record pages_rel (s : pages) (B : blocks) : Prop := {
  rel_lists : forall k, 0 <= k < max -> exists xs, free_list s k xs /\ NoDup xs /\
    forall p, p ∈ xs <-> B !! p = Some (k, Free);
  rel_bits : forall p k st, B !! p = Some (k, st) -> bits_of st k (pg_bits s p);
  rel_refs : forall p k r, B !! p = Some (k, Used r) -> pg_ref s p = r /\ 0 < r < 2 ^ 32;
  rel_high : high_page_configured s = false }.

#[global] Instance pages_rel_proper s : Proper (held_eq ==> iff) (pages_rel s).
Proof.
  enough (forall B B', held_eq B B' -> pages_rel s B -> pages_rel s B') as G.
  { intros B B' H. split; apply G; [done|by symmetry]. }
  intros B B' H [Hl Hb Hr Hh]. split.
  - intros k Hk. destruct (Hl k Hk) as (xs & ? & ? & Hx). exists xs. split; [done|]. split; [done|].
    intros p. rewrite Hx. by apply H.
  - intros p k st Hp. destruct (decide (st = Held)) as [->|]; [done|]. apply (Hb p k st). by apply H.
  - intros p k r Hp. apply (Hr p k r). by apply H.
  - done.
Qed.

(** One block of order [k] changes its status; only list [k] is linked anew. *)
Lemma rel_relink s s' B p k st0 st xs : pages_rel s B -> B !! p = Some (k, st0) ->
  (forall q j, j <> k -> B !! q = Some (j, Free) -> pg_pre s' q = pg_pre s q /\ pg_next s' q = pg_next s q) ->
  (forall j, j <> k -> page_list s' page_list_low j = page_list s page_list_low j) ->
  (forall q, q <> p -> pg_bits s' q = pg_bits s q) -> bits_of st k (pg_bits s' p) ->
  (forall q, q <> p -> pg_ref s' q = pg_ref s q) -> (forall r, st <> Used r) ->
  high_page_configured s' = high_page_configured s ->
  free_list s' k xs -> NoDup xs -> (forall q, q ∈ xs <-> <[p := (k, st)]> B !! q = Some (k, Free)) ->
  pages_rel s' (<[p := (k, st)]> B).
Proof.
  intros [Hl Hb Hr Hh] Hp Hlink Hpl Hbits Hbp Href Hst Hhigh Hfl Hnd Hxs. split.
  - intros j Hj. destruct (decide (j = k)) as [->|Hne]; [by exists xs|].
    destruct (Hl j Hj) as (ys & [Hy1 Hy2] & Hynd & Hys). exists ys. split; [|split; [done|]].
    + split; [by rewrite Hpl|]. revert Hy2. apply seg_ext. intros q Hq. apply (Hlink q j Hne). by apply Hys.
    + intros q. rewrite Hys. destruct (decide (q = p)) as [->|]; [|by rewrite lookup_insert_ne].
      rewrite lookup_insert_eq, Hp. split; congruence.
  - intros q j st' Hq. destruct (decide (q = p)) as [->|].
    + rewrite lookup_insert_eq in Hq. by injection Hq as <- <-.
    + rewrite lookup_insert_ne in Hq by done. rewrite Hbits by done. by apply Hb.
  - intros q j r Hq. destruct (decide (q = p)) as [->|].
    + rewrite lookup_insert_eq in Hq. injection Hq as _ E. by destruct (Hst r).
    + rewrite lookup_insert_ne in Hq by done. rewrite Href by done. by apply (Hr q j).
  - by rewrite Hhigh.
Qed.

(** A block in use changes hands; no list changes. *)
Lemma rel_status s s' B p k st0 st : pages_rel s B -> B !! p = Some (k, st0) -> st0 <> Free -> st <> Free ->
  page_list s' = page_list s -> pg_next s' = pg_next s -> pg_pre s' = pg_pre s -> high_page_configured s' = high_page_configured s ->
  (forall q, q <> p -> pg_bits s' q = pg_bits s q /\ pg_ref s' q = pg_ref s q) -> bits_of st k (pg_bits s' p) ->
  (forall r, st = Used r -> pg_ref s' p = r /\ 0 < r < 2 ^ 32) -> pages_rel s' (<[p := (k, st)]> B).
Proof.
  intros [Hl Hb Hr Hh] Hp Hst0 Hst El En Ep Eh Hq Hbp Hrp. split; [|..|by rewrite Eh].
  - intros j Hj. destruct (Hl j Hj) as (xs & [Hx1 Hx2] & Hnd & Hx). exists xs. split; [split; [by rewrite El|]|split; [done|]].
    + revert Hx2. apply seg_ext. intros q _. by rewrite En, Ep.
    + intros q. rewrite Hx. destruct (decide (q = p)) as [->|]; [|by rewrite lookup_insert_ne].
      rewrite lookup_insert_eq, Hp. split; congruence.
  - intros q j st' Hq'. destruct (decide (q = p)) as [->|Hne]; [rewrite lookup_insert_eq in Hq'; by injection Hq' as <- <-|].
    rewrite lookup_insert_ne in Hq' by done. destruct (Hq q Hne) as [-> _]. by apply Hb.
  - intros q j r Hq'. destruct (decide (q = p)) as [->|Hne]; [rewrite lookup_insert_eq in Hq'; injection Hq' as _ E; by apply Hrp|].
    rewrite lookup_insert_ne in Hq' by done. destruct (Hq q Hne) as [_ ->]. by apply (Hr q j).
Qed.

(** The links of a list after one of its pages is taken out. *)
Definition unlink (p : Z) (k : Z) s : pages :=
  let s' := match pg_pre s p with
            | Some q => set_pg_next q (pg_next s p) s
            | None => set_page_list page_list_low k (pg_next s p) s
            end in
  match pg_next s p with Some q => set_pg_pre q (pg_pre s p) s' | None => s' end.

Lemma unlink_list s k xs p ys : NoDup (xs ++ p :: ys) -> free_list s k (xs ++ p :: ys) -> free_list (unlink p k s) k (xs ++ ys).
Proof.
  intros Hnd [Hh Hs]. apply seg_app in Hs as [Hx (Hpre & Hnext & Hy)]. unfold unlink. rewrite Hpre, Hnext.
  apply NoDup_app in Hnd as (Hndx & Hdj & [Hpy Hndy]%NoDup_cons).
  destruct xs as [|x0 xs0 _] using rev_ind; simpl in *.
  - destruct ys as [|y ys]; simpl; (split; [simpl; by rewrite !fupd_eq|]); [done|].
    change (seg (set_pg_pre y None (set_page_list page_list_low k (Some y) s)) None (y :: ys) None).
    apply seg_set_pre with (Some p); [by apply NoDup_cons in Hndy as [? _]|]. revert Hy. by apply seg_ext.
  - rewrite last_or_snoc. rewrite <- app_assoc in Hh |- *. apply NoDup_app in Hndx as (Hndx0 & Hdx & _).
    assert (Hq : x0 ∉ xs0) by (intros ?; by apply (Hdx x0); [|left]).
    assert (Hw : forall n, seg (set_pg_next x0 n s) None (xs0 ++ [x0]) n) by (intros; by apply seg_set_next with (Some p)).
    assert (Hhead : hd_or None (xs0 ++ [x0] ++ ys) = page_list s page_list_low k) by (rewrite Hh; by destruct xs0).
    destruct ys as [|y ys]; (split; [by simpl in *; rewrite Hhead|]).
    + rewrite app_nil_r. apply Hw.
    + rewrite app_assoc. apply seg_app. split.
      * simpl. generalize (Hw (Some y)). apply seg_ext. intros q Hq'. simpl. rewrite fupd_ne; [done|].
        intros ->. apply (Hdj y Hq'). right. left.
      * rewrite last_or_snoc. apply seg_set_pre with (Some p); [by apply NoDup_cons in Hndy as [? _]|].
        revert Hy. apply seg_ext. intros q Hq'. simpl. rewrite fupd_ne; [done|]. intros ->.
        apply (Hdj x0); [|by right]. apply elem_of_app. right. left.
Qed.

Lemma unlink_links s k xs p ys q : free_list s k (xs ++ p :: ys) -> q ∉ xs ++ p :: ys ->
  pg_pre (unlink p k s) q = pg_pre s q /\ pg_next (unlink p k s) q = pg_next s q.
Proof.
  intros [_ Hs] Hq. apply seg_app in Hs as [_ (Hpre & Hnext & _)]. unfold unlink. rewrite Hpre, Hnext.
  rewrite elem_of_app, elem_of_cons in Hq.
  destruct xs as [|x0 xs0 _] using rev_ind; rewrite ?last_or_snoc;
    destruct ys as [|y ys]; simpl; rewrite ?fupd_ne; try done; intros ->; apply Hq; rewrite ?elem_of_app, ?elem_of_cons; tauto.
Qed.

Lemma unlink_free p k s : high_page_configured (unlink p k s) = high_page_configured s /\ pg_bits (unlink p k s) = pg_bits s /\
  pg_ref (unlink p k s) = pg_ref s /\ forall j, j <> k -> page_list (unlink p k s) page_list_low j = page_list s page_list_low j.
Proof.
  unfold unlink. destruct (pg_pre s p), (pg_next s p); (split; [done|]); (split; [done|]); (split; [done|]); try done;
    intros j Hj; simpl; rewrite fupd_eq, fupd_ne; done.
Qed.

Lemma pages_remove_wp s B p k (Q : unit -> pages -> Prop) : pages_rel s B -> B !! p = Some (k, Free) -> 0 <= k < max ->
  (forall s', pages_rel s' (<[p := (k, Held)]> B) -> pg_bits s' p = ARCH_ADDRESS_WIDTH_BITS -> Q tt s') ->
  wp (_page_remove max page_list_low p k) Q s.
Proof.
  intros Hrel Hp Hk HQ. destruct (rel_lists _ _ Hrel k Hk) as (l & Hfl & Hnd & Hl).
  pose proof (proj2 (Hl p) Hp) as (xs & ys & ->)%list_elem_of_split.
  assert (E : _page_remove max page_list_low p k s = Some (tt, set_pg_bits p ARCH_ADDRESS_WIDTH_BITS (unlink p k s))).
  { unfold _page_remove, unlink, put_list_at. rewrite (proj2 (Z.leb_le 0 k)), (proj2 (Z.ltb_lt k max)) by lia. simpl.
    pose proof Hfl as [_ [_ (Hpre & Hnext & _)]%seg_app]. unfold get, modify, mbind, M_bind, mret, M_ret.
    assert (Hne : pg_pre s p <> Some p).
    { rewrite Hpre. destruct xs as [|x xs _] using rev_ind; [done|]. rewrite last_or_snoc. intros [= ->].
      apply NoDup_app in Hnd as (_ & Hd & _). apply (Hd p); [apply elem_of_app; right|]; by left. }
    destruct (pg_pre s p) as [q|] eqn:Ep; simpl; [rewrite fupd_ne by congruence|].
    all: by destruct (pg_next s p); simpl; rewrite ?Ep. }
  unfold wp. rewrite E. destruct (unlink_free p k s) as (H1 & H2 & H3 & H4).
  apply HQ; [|simpl; by rewrite fupd_eq].
  apply (rel_relink s _ B p k Free Held (xs ++ ys)); simpl; rewrite ?H1, ?H2, ?H3; try done.
  - intros q j Hj Hq. apply (unlink_links s k xs p ys); [done|]. rewrite Hl, Hq. congruence.
  - intros q Hq. by rewrite fupd_ne.
  - apply (unlink_list s k xs p ys) in Hfl as [Hf1 Hf2]; [|done]. split; [done|]. revert Hf2. by apply seg_ext.
  - rewrite <- Permutation_middle in Hnd. by apply NoDup_cons in Hnd as [_ ?].
  - intros q. rewrite <- Permutation_middle in Hnd. apply NoDup_cons in Hnd as [Hn _]. specialize (Hl q).
    rewrite <- Permutation_middle, elem_of_cons in Hl. destruct (decide (q = p)) as [->|Hqp].
    + rewrite lookup_insert_eq. split; [done|congruence].
    + rewrite lookup_insert_ne by done. rewrite <- Hl. tauto.
Qed.

Lemma pages_insert_wp s B p k (Q : unit -> pages -> Prop) : pages_rel s B -> B !! p = Some (k, Held) -> 0 <= k < max ->
  (forall s', pages_rel s' (<[p := (k, Free)]> B) -> Q tt s') -> wp (_page_insert max page_list_low p k) Q s.
Proof.
  intros Hrel Hp Hk HQ. destruct (rel_lists _ _ Hrel k Hk) as (xs & [Hh Hs] & Hnd & Hl).
  assert (Hpx : p ∉ xs) by (rewrite Hl, Hp; congruence).
  assert (E : exists s', _page_insert max page_list_low p k s = Some (tt, s') /\ free_list s' k (p :: xs) /\
    (forall q, q ∉ p :: xs -> pg_pre s' q = pg_pre s q /\ pg_next s' q = pg_next s q) /\
    (forall j, j <> k -> page_list s' page_list_low j = page_list s page_list_low j) /\
    pg_bits s' = fupd p k (pg_bits s) /\ pg_ref s' = pg_ref s /\ high_page_configured s' = high_page_configured s).
  { unfold _page_insert, list_at, put_list_at. rewrite (proj2 (Z.leb_le 0 k)), (proj2 (Z.ltb_lt k max)) by lia. simpl.
    unfold get, modify, mbind, M_bind, mret, M_ret, deref. rewrite Hh.
    destruct xs as [|x xs]; simpl; (eexists; split; [done|]); simpl; rewrite !fupd_eq.
    - split; [by split; simpl; rewrite ?fupd_eq|]. split; [|split; [|done]].
      + intros q Hq. rewrite elem_of_cons in Hq. rewrite !fupd_ne by tauto. done.
      + intros j Hj. by rewrite fupd_ne.
    - rewrite elem_of_cons in Hpx. split; [split; [simpl; by rewrite !fupd_eq|]|split; [|split; [|done]]].
      + change (seg (set_pg_bits p k (set_page_list page_list_low k (Some p) (set_pg_pre p None (set_pg_pre x (Some p)
          (set_pg_next p (Some x) s))))) None (p :: x :: xs) None).
        split; [simpl; by rewrite fupd_eq|]. split; [simpl; by rewrite fupd_eq|].
        apply NoDup_cons in Hnd as [Hx _]. apply (seg_set_pre s None xs x None (Some p)) in Hs; [|done].
        revert Hs. apply seg_ext. intros q Hq. simpl. assert (Hqp : q <> p) by (intros ->; apply Hpx; rewrite elem_of_cons in Hq; tauto).
        rewrite (fupd_ne p q), (fupd_ne p q) by done. done.
      + intros q. rewrite !elem_of_cons. intros Hq. rewrite !fupd_ne by tauto. done.
      + intros j Hj. by rewrite fupd_ne. }
  destruct E as (s' & E & Hfl & Hlink & Hpl & Hbits & Href & Hhigh). unfold wp. rewrite E. apply HQ.
  apply (rel_relink s s' B p k Held Free (p :: xs)); try done; rewrite ?Hbits, ?Href; try done.
  - intros q j Hj Hq. apply Hlink. rewrite elem_of_cons, Hl, Hq. intros [->|]; congruence.
  - intros q Hq. by rewrite fupd_ne.
  - simpl. by rewrite fupd_eq.
  - by apply NoDup_cons.
  - intros q. rewrite elem_of_cons, Hl. destruct (decide (q = p)) as [->|Hqp].
    + rewrite lookup_insert_eq. tauto.
    + rewrite lookup_insert_ne by done. tauto.
Qed.
End rep.
