(* ===== verification/BuddyProp.v ===== *)
(** Taking and giving back blocks of pages: the loops that split and join buddies, and what
    allocation, release and sharing do to the free pages and to the pages in use. *)
From stdpp Require Import gmap.
From S2P Require Import Prelude AspaceUnmap Buddy BuddyInv BuddyRep.
#[local] Open Scope Z_scope.
Implicit Types (B : blocks) (p q k j : Z).

(** The blocks in use: their order and number of holders, by first page. *)
Definition users (B : blocks) : gmap Z (Z * Z) :=
  omap (fun x => match x.2 with Used r => Some (x.1, r) | _ => None end) B.

Lemma lookup_users B q j r : users B !! q = Some (j, r) <-> B !! q = Some (j, Used r).
Proof.
  unfold users. rewrite lookup_omap. destruct (B !! q) as [[j' [|r'| |]]|]; simpl; try done.
  split; congruence.
Qed.

#[global] Instance users_proper : Proper (held_eq ==> eq) users.
Proof.
  intros B B' H. apply map_eq. intros q. apply option_eq. intros [j r]. rewrite !lookup_users. by apply H.
Qed.

#[global] Instance free_page_proper : Proper (held_eq ==> eq ==> iff) free_page.
Proof.
  intros B B' H x _ <-. unfold free_page. split; intros (p & k & Hp & Hin); exists p, k; (split; [by apply H|done]).
Qed.

Lemma users_insert B p k st : (forall r, st <> Used r) -> (forall j r, B !! p <> Some (j, Used r)) ->
  users (<[p := (k, st)]> B) = users B.
Proof.
  intros Hst Hp. apply map_eq. intros q. apply option_eq. intros [j r]. rewrite !lookup_users.
  destruct (decide (q = p)) as [->|]; [|by rewrite lookup_insert_ne]. rewrite lookup_insert_eq. split.
  - intros [= _ E]. by destruct (Hst r).
  - intros E. by destruct (Hp j r).
Qed.

Section props.
Context (max : Z) (Hmax : 1 <= max <= 21).

(** A page is in one block. *)
Lemma block_unique B p k st q j st' x : blocks_wf max B -> B !! p = Some (k, st) -> B !! q = Some (j, st') ->
  in_block p k x -> in_block q j x -> p = q.
Proof.
  intros Hwf Hp Hq Hpx Hqx. destruct (decide (p = q)) as [|Hne]; [done|]. unfold in_block in *.
  destruct (wf_apart _ _ Hwf _ _ _ _ _ _ Hp Hq Hne); lia.
Qed.

Lemma free_page_insert B p k st x : blocks_wf max B -> B !! p = Some (k, st) -> st <> Free ->
  free_page (<[p := (k, Free)]> B) x <-> free_page B x \/ in_block p k x.
Proof.
  intros Hwf Hp Hst. split.
  - intros (q & j & Hq & Hin). destruct (decide (q = p)) as [->|]; [|rewrite lookup_insert_ne in Hq by done; left; by exists q, j].
    rewrite lookup_insert_eq in Hq. injection Hq as <-. by right.
  - intros [(q & j & Hq & Hin)|Hin]; [|exists p, k; by rewrite lookup_insert_eq].
    exists q, j. rewrite lookup_insert_ne; [done|]. congruence.
Qed.

Lemma free_page_delete B p k st x : blocks_wf max B -> B !! p = Some (k, Free) -> st <> Free ->
  free_page (<[p := (k, st)]> B) x <-> free_page B x /\ ~ in_block p k x.
Proof.
  intros Hwf Hp Hst. split.
  - intros (q & j & Hq & Hin). destruct (decide (q = p)) as [->|Hne]; [rewrite lookup_insert_eq in Hq; congruence|].
    rewrite lookup_insert_ne in Hq by done. split; [by exists q, j|]. intros Hin'.
    by destruct Hne, (block_unique B q j Free p k Free x Hwf Hq Hp Hin Hin').
  - intros [(q & j & Hq & Hin) Hn]. exists q, j. rewrite lookup_insert_ne; [done|]. intros <-. apply Hn. congruence.
Qed.

(** ** Splitting a held block *)

Lemma split_absent B p k st : blocks_wf max B -> B !! p = Some (k + 1, st) -> 0 <= k -> B !! (p + 2 ^ k) = None.
Proof.
  intros Hwf Hp Hk. pose proof (pow_pos k Hk). destruct (B !! (p + 2 ^ k)) as [[j s1]|] eqn:Hq; [exfalso|done].
  pose proof (wf_ok _ _ Hwf _ _ _ Hq) as ((? & _) & _). pose proof (pow_pos j ltac:(lia)).
  enough (p = p + 2 ^ k) by lia.
  apply (block_unique B p (k + 1) st (p + 2 ^ k) j s1 (p + 2 ^ k) Hwf Hp Hq); unfold in_block; [rewrite Z.pow_add_r by lia|]; lia.
Qed.

Lemma split_held B p k : blocks_wf max B -> B !! p = Some (k + 1, Held) -> 0 <= k -> held_eq (split_block p k Held Held B) B.
Proof.
  intros Hwf Hp Hk q j st Hst. unfold split_block. destruct (decide (q = p)) as [->|]; [rewrite lookup_insert_eq; split; congruence|].
  rewrite lookup_insert_ne by done. destruct (decide (q = p + 2 ^ k)) as [->|]; [|by rewrite lookup_insert_ne].
  rewrite lookup_insert_eq, (split_absent B p k Held) by done. split; congruence.
Qed.

Definition only_held (p : Z) B : Prop := forall q j, B !! q = Some (j, Held) -> q = p.

(** ** The buddy of the source *)

Context (pv : Z) (Hpv : (2 ^ (max + 11) | pv)).

Lemma u32_pages z : u32 (z * 2 ^ 12) = (z mod 2 ^ 20) * 2 ^ 12.
Proof. unfold u32, uwrap. change (2 ^ 32) with (2 ^ 20 * 2 ^ 12). by rewrite Z.mul_mod_distr_r. Qed.

Lemma page_to_addr_eq m p : pv = m * 2 ^ 12 -> page_to_addr pv p = ((p - m) mod 2 ^ 20) * 2 ^ 12.
Proof.
  intros E. unfold page_to_addr. rewrite Z.shiftl_mul_pow2 by done. change ARCH_PAGE_SHIFT with 12.
  rewrite E, <- Z.mul_sub_distr_r. apply u32_pages.
Qed.

Lemma addr_to_page_eq m a : pv = m * 2 ^ 12 -> addr_to_page pv (a * 2 ^ 12) = (a + m) mod 2 ^ 20.
Proof.
  intros E. unfold addr_to_page. rewrite Z.shiftr_div_pow2 by done. change ARCH_PAGE_SHIFT with 12.
  rewrite E, <- Z.mul_add_distr_r, u32_pages. by apply Z.div_mul.
Qed.

Lemma pv_pages : exists m, pv = m * 2 ^ 12 /\ (2 ^ (max - 1) | m).
Proof.
  destruct Hpv as [m ->]. exists (m * 2 ^ (max - 1)). split; [|by exists m].
  rewrite <- Z.mul_assoc, <- Z.pow_add_r by lia. do 2 f_equal. lia.
Qed.

Lemma addr_page p : 0 <= p < 2 ^ 20 -> addr_to_page pv (page_to_addr pv p) = p.
Proof.
  intros Hp. destruct pv_pages as (m & E & _). rewrite (page_to_addr_eq m), (addr_to_page_eq m) by done.
  rewrite Z.add_mod_idemp_l by done. rewrite Z.sub_add. by apply Z.mod_small.
Qed.

Lemma buddy_get_eq p k : block_ok max p k -> k < max - 1 -> _buddy_get pv p k = buddy_of p k.
Proof.
  intros Hb Hk. pose proof (buddy_range max Hmax p k Hb Hk) as [Hr Hb0]. destruct Hb as ((H0 & _) & Hd & Hp & He).
  destruct pv_pages as (m & E & Hm). pose proof (pow_pos k H0). unfold _buddy_get. rewrite (page_to_addr_eq m) by done.
  change ARCH_PAGE_SHIFT with 12. rewrite Z.shiftl_mul_pow2, Z.mul_1_l, Z.pow_add_r by lia.
  rewrite <- !(Z.shiftl_mul_pow2 _ 12), <- Z.shiftl_lxor, !Z.shiftl_mul_pow2 by lia.
  rewrite (addr_to_page_eq m) by done. fold (buddy_of ((p - m) mod 2 ^ 20) k). set (a := (p - m) mod 2 ^ 20).
  assert (Ha : exists c, a = p + c * 2 ^ (k + 1) /\ (a + m) mod 2 ^ 20 = p /\ 0 <= a).
  { assert (H20 : (2 ^ (k + 1) | 2 ^ 20)) by (exists (2 ^ (20 - (k + 1))); rewrite <- Z.pow_add_r by lia; f_equal; lia).
    assert (Hmk : (2 ^ (k + 1) | m)) by (apply (aligned_below m (max - 1)); [lia|done]).
    unfold a. pose proof (Z.div_mod (p - m) (2 ^ 20) ltac:(done)) as D. destruct H20 as [x Hx], Hmk as [y Hy].
    set (c := (p - m) / 2 ^ 20) in *. assert (x * c * 2 ^ (k + 1) = 2 ^ 20 * c) by (rewrite Hx; ring).
    exists (- y - x * c). split; [rewrite Z.mul_sub_distr_r; lia|]. split; [|by apply Z.mod_pos_bound].
    rewrite Z.add_mod_idemp_l by done. rewrite Z.sub_add. apply Z.mod_small. lia. }
  destruct Ha as (c & Ea & Hpa & Ha0).
  assert (Hrange : 0 <= buddy_of p k < 2 ^ 20).
  { split; [done|]. pose proof (pow_pos (max - 1) ltac:(lia)). set (w := 2 ^ (max - 1)) in *.
    assert (E20 : 2 ^ 20 = 2 ^ (20 - (max - 1)) * w) by (unfold w; rewrite <- Z.pow_add_r by lia; f_equal; lia).
    assert (p / w < 2 ^ (20 - (max - 1))) by (apply Z.div_lt_upper_bound; lia).
    pose proof (Z.div_mod (buddy_of p k) w ltac:(lia)). pose proof (Z.mod_pos_bound (buddy_of p k) w ltac:(lia)). nia. }
  assert (Hdiff : buddy_of a k - a = buddy_of p k - p).
  { rewrite Ea. unfold buddy_of. destruct Hd as [n ->]. rewrite Z.pow_add_r, Z.pow_1_r by lia.
    replace (n * 2 ^ k + c * (2 ^ k * 2)) with ((n + c * 2) * 2 ^ k) by lia. rewrite !lxor_pow2 by lia.
    rewrite Z.mod_add by done. case_decide; lia. }
  replace (buddy_of a k + m) with (a + m + (buddy_of p k - p)) by lia.
  rewrite <- Z.add_mod_idemp_l, Hpa by done. replace (p + (buddy_of p k - p)) with (buddy_of p k) by lia. by apply Z.mod_small.
Qed.

(** ** The search for a block *)

Lemma find_level_spec fuel level s : 0 <= level <= max -> max - level <= Z.of_nat fuel ->
  let r := find_level max fuel page_list_low level s in
  level <= r <= max /\ (forall j, level <= j < r -> page_list s page_list_low j = None) /\
  (r < max -> exists p, page_list s page_list_low r = Some p).
Proof.
  revert level. induction fuel as [|fuel IH]; intros level Hl Hf; simpl; [split; [lia|split; [lia|lia]]|].
  destruct (Z.ltb_spec level max); [|split; [lia|split; lia]].
  destruct (page_list s page_list_low level) eqn:E; [split; [lia|split; [lia|eauto]]|].
  destruct (IH (level + 1)) as (H1 & H2 & H3); [lia|lia|]. split; [lia|]. split; [|done].
  intros j Hj. destruct (decide (j = level)) as [->|]; [done|]. apply H2. lia.
Qed.

Lemma list_empty s B k : pages_rel max s B -> 0 <= k < max -> page_list s page_list_low k = None ->
  forall p, B !! p <> Some (k, Free).
Proof.
  intros Hrel Hk Hn p Hp. destruct (rel_lists _ _ _ Hrel k Hk) as (xs & [Hh _] & _ & Hx). apply Hx in Hp.
  rewrite Hn in Hh. destruct xs; [by apply not_elem_of_nil in Hp|done].
Qed.

Lemma list_head s B k p : pages_rel max s B -> 0 <= k < max -> page_list s page_list_low k = Some p -> B !! p = Some (k, Free).
Proof.
  intros Hrel Hk Hn. destruct (rel_lists _ _ _ Hrel k Hk) as (xs & [Hh _] & _ & Hx). apply Hx.
  rewrite Hn in Hh. destruct xs; [done|]. injection Hh as ->. by left.
Qed.

Lemma list_at_wp k (Q : option Z -> pages -> Prop) s : 0 <= k < max -> Q (page_list s page_list_low k) s ->
  wp (list_at max page_list_low k) Q s.
Proof.
  intros Hk HQ. unfold list_at. do 2 wp_step. eapply wp_deref; [|done].
  by rewrite (proj2 (Z.leb_le 0 k)), (proj2 (Z.ltb_lt k max)) by lia.
Qed.

(** ** Splitting down to the size wanted *)

(** What holds while one block is in the hands of the operation. *)
Record holding s B p k : Prop := {
  hd_rel : pages_rel max s B; hd_wf : blocks_wf max B; hd_coal : coalesced max B;
  hd_held : B !! p = Some (k, Held); hd_only : only_held p B }.

Lemma buddy_split_step s B p k (Q : unit -> pages -> Prop) : holding s B p (k + 1) -> 0 <= k ->
  (forall s' B', holding s' B' (p + 2 ^ k) k -> users B' = users B ->
    (forall x, free_page B' x <-> free_page B x \/ in_block p k x) -> Q tt s') ->
  wp (_page_insert max page_list_low p k) Q s.
Proof.
  intros [Hrel Hwf Hco Hp Hon] Hk HQ. pose proof (wf_ok _ _ Hwf _ _ _ Hp) as (Hk1 & Hd & _). pose proof (pow_pos k Hk).
  pose proof (split_held B p k Hwf Hp Hk) as Heq. set (B1 := split_block p k Held Held B) in *.
  assert (Hp1 : B1 !! p = Some (k, Held)) by apply lookup_insert_eq.
  assert (Hq1 : B1 !! (p + 2 ^ k) = Some (k, Held)) by (unfold B1, split_block; by rewrite lookup_insert_ne, lookup_insert_eq by lia).
  assert (Hwf1 : blocks_wf max B1) by by apply (wf_split max Hmax B p k Held).
  assert (Hdk : (2 ^ k | p)) by (apply (aligned_below p (k + 1)); [lia|done]).
  destruct (buddy_even p k Hk Hd) as [Hb1 Hb2].
  assert (Hco1 : coalesced max B1).
  { apply coalesced_insert; [|done..]. apply coalesced_insert; [done|done| |done]. by apply Z.divide_add_r. }
  apply (pages_insert_wp max Hmax s B1); [by rewrite Heq|done|lia|].
  intros s' Hrel'. apply (HQ s' (<[p := (k, Free)]> B1)).
  - split; [done|by apply (wf_status _ _ _ _ Held)| | |].
    + apply coalesced_insert; [done..|]. intros _ _. rewrite Hb1, Hq1. done.
    + by rewrite lookup_insert_ne by lia.
    + intros q j Hq. destruct (decide (q = p)) as [->|]; [by rewrite lookup_insert_eq in Hq|].
      unfold B1, split_block in Hq. rewrite !lookup_insert_ne in Hq by done.
      destruct (decide (q = p + 2 ^ k)); [done|]. rewrite lookup_insert_ne in Hq by done. by apply Hon in Hq.
  - rewrite users_insert; [by rewrite Heq|done|by rewrite Hp1].
  - intros x. rewrite (free_page_insert B1 p k Held) by done. by rewrite Heq.
Qed.

(** The page the loop ends with, its block of the size wanted, and the rest free. *)
Lemma split_loop_wp fuel s B p level k : (Z.to_nat (level - k) < fuel)%nat -> 0 <= k <= level -> holding s B p level ->
  wp (split_loop max pv fuel page_list_low p level k) (fun q s' => exists B', holding s' B' q k /\ users B' = users B /\
    (forall x, in_block q k x -> in_block p level x) /\
    (forall x, free_page B' x <-> free_page B x \/ in_block p level x /\ ~ in_block q k x)) s.
Proof.
  revert s B p level. induction fuel as [|fuel IH]; intros s B p level Hf Hk Hh; [lia|]. simpl.
  destruct (Z.ltb_spec k level) as [Hlt|].
  2: { assert (level = k) as -> by lia. wp_step. exists B. split; [done|]. split; [done|]. split; [done|]. tauto. }
  replace level with ((level - 1) + 1) in Hh |- * by lia. set (j := level - 1) in *.
  replace (j + 1 - 1) with j by lia. pose proof (pow_pos j ltac:(lia)) as Hpos.
  pose proof (wf_ok _ _ (hd_wf _ _ _ _ Hh) _ _ _ (hd_held _ _ _ _ Hh)) as (Hj & Hd & Hp0 & He).
  assert (E2 : 2 ^ (j + 1) = 2 * 2 ^ j) by (rewrite Z.pow_add_r by lia; lia).
  wp_step. apply (buddy_split_step s B p j); [done|lia|]. intros s1 B1 Hh1 Hu1 Hf1.
  rewrite buddy_get_eq; [|split; [lia|]; split; [by apply (aligned_below p (j + 1)); [lia|]|lia]|lia].
  destruct (buddy_even p j ltac:(lia) Hd) as [-> _].
  eapply wp_mono; [apply (IH s1 B1 (p + 2 ^ j) j); [lia|lia|done]|].
  intros q s2 (B2 & Hh2 & Hu2 & Hsub & Hf2). exists B2. split; [done|]. split; [congruence|]. unfold in_block in *. split.
  - intros x Hx%Hsub. lia.
  - intros x. rewrite Hf2, Hf1. split.
    + intros [[?|?]|[? ?]]; [auto|..]; right; (split; [lia|]); [|done]. intros Hx. apply Hsub in Hx. lia.
    + intros [?|[Hx ?]]; [auto|]. destruct (Z_lt_le_dec x (p + 2 ^ j)); [left; right; lia|right; split; [lia|done]].
Qed.

(** ** Joining free buddies *)

Lemma join_step s B p k (Q : unit -> pages -> Prop) b : holding s B p k -> k < max - 1 -> b = buddy_of p k ->
  B !! b = Some (k, Free) ->
  (forall s' B', holding s' B' (Z.min p b) (k + 1) -> users B' = users B ->
    (forall x, free_page B' x \/ in_block (Z.min p b) (k + 1) x <-> free_page B x \/ in_block p k x) -> Q tt s') ->
  wp (_page_remove max page_list_low b k) Q s.
Proof.
  intros [Hrel Hwf Hco Hp Hon] Hk Eb Hb HQ. pose proof (wf_ok _ _ Hwf _ _ _ Hp) as (Hk1 & Hd & Hp0 & He).
  pose proof (wf_ok _ _ Hwf _ _ _ Hb) as (_ & Hdb & Hb0 & Heb). pose proof (pow_pos k ltac:(lia)) as Hpos.
  assert (E2 : 2 ^ (k + 1) = 2 * 2 ^ k) by (rewrite Z.pow_add_r by lia; lia).
  set (m := Z.min p b) in *.
  assert (Hm : (2 ^ (k + 1) | m) /\ (m = p /\ b = p + 2 ^ k \/ m = b /\ p = b + 2 ^ k)).
  { destruct (buddy_cases p k ltac:(lia) Hd) as [[? E]|[? E]]; rewrite E in Eb; unfold m.
    - rewrite Z.min_l by lia. auto.
    - rewrite Z.min_r by lia. subst b. split; [done|]. right. lia. }
  destruct Hm as [Hdm Hm].
  apply (pages_remove_wp max Hmax s B); [done|done|lia|]. intros s1 Hrel1 _. set (B1 := <[b := (k, Held)]> B) in *.
  assert (Hwf1 : blocks_wf max B1) by by apply (wf_status _ _ _ _ Free).
  assert (Hb1 : B1 !! b = Some (k, Held)) by apply lookup_insert_eq.
  assert (Hp1 : B1 !! p = Some (k, Held)) by (unfold B1; rewrite lookup_insert_ne; [done|lia]).
  assert (Hrest : forall q j st, q <> p -> q <> b -> B1 !! q = Some (j, st) -> q + 2 ^ j <= m \/ m + 2 ^ (k + 1) <= q).
  { intros q j st Hqp Hqb Hq. pose proof (wf_ok _ _ Hwf1 _ _ _ Hq) as ((? & _) & _). pose proof (pow_pos j ltac:(lia)).
    pose proof (wf_apart _ _ Hwf1 _ _ _ _ _ _ Hq Hp1 Hqp). pose proof (wf_apart _ _ Hwf1 _ _ _ _ _ _ Hq Hb1 Hqb). lia. }
  set (B2 := join_block m (k + 1) Held B1).
  assert (Heq : held_eq B2 B1).
  { intros q j st Hst. unfold B2. rewrite lookup_join by lia. case_decide as Hqm.
    - split; [congruence|]. destruct Hm as [[Em _]|[Em _]]; rewrite Hqm, Em, ?Hp1, ?Hb1; congruence.
    - case_decide as Hin; [|done]. split; [done|]. intros Hq. exfalso. unfold in_block in Hin.
      destruct (decide (q = p)) as [->|Hqp]; [congruence|]. destruct (decide (q = b)) as [->|Hqb]; [congruence|].
      pose proof (wf_ok _ _ Hwf1 _ _ _ Hq) as ((? & _) & _). pose proof (pow_pos j ltac:(lia)).
      destruct (Hrest _ _ _ Hqp Hqb Hq); lia. }
  apply (HQ s1 B2).
  - split; [by rewrite Heq| | | |].
    + apply (wf_join max Hmax B1 m (k + 1) Held p k Held); [done| |done|unfold in_block; lia|].
      { split; [lia|]. split; [done|]. lia. }
      intros q j st Hq. destruct (decide (q = p)) as [->|]; [right; right; rewrite Hp1 in Hq; injection Hq as <-; lia|].
      destruct (decide (q = b)) as [->|]; [right; right; rewrite Hb1 in Hq; injection Hq as <-; lia|].
      destruct (Hrest _ _ _ n n0 Hq); auto.
    + unfold B2, join_block. apply coalesced_insert; [|lia|done|done]. apply (coalesced_subset max B1).
      * by apply coalesced_insert; [..|lia|done|].
      * apply map_filter_subseteq.
    + unfold B2. rewrite lookup_join, decide_True by (done || lia). done.
    + intros q j Hq. unfold B2 in Hq. rewrite lookup_join in Hq by lia. case_decide; [done|].
      case_decide as Hin; [done|]. exfalso. unfold B1 in Hq. destruct (decide (q = b)) as [->|].
      * apply Hin. unfold in_block. lia.
      * rewrite lookup_insert_ne in Hq by done. apply Hon in Hq as ->. apply Hin. unfold in_block. lia.
  - rewrite Heq. apply users_insert; [done|]. rewrite Hb. congruence.
  - intros x. rewrite Heq. unfold B1. rewrite (free_page_delete B b k Held) by done.
    assert (Hs : in_block m (k + 1) x <-> in_block p k x \/ in_block b k x) by (unfold in_block; lia).
    assert (Hfb : in_block b k x -> free_page B x) by (intros; by exists b, k).
    rewrite Hs. destruct (decide (in_block b k x)); tauto.
Qed.

(** A record with the order of the block held is its free buddy. *)
Lemma buddy_bits s B p k : holding s B p k -> k < max - 1 ->
  pg_bits s (buddy_of p k) = k <-> B !! buddy_of p k = Some (k, Free).
Proof.
  intros [Hrel Hwf Hco Hp Hon] Hk. pose proof (wf_ok _ _ Hwf _ _ _ Hp) as (Hk0 & Hd & _). pose proof (pow_pos k ltac:(lia)).
  split; [|intros Hb; exact (rel_bits _ _ _ Hrel _ _ _ Hb)].
  intros Hbits. destruct (buddy_block max Hmax B p k Held Hwf Hp Hk) as (j & st & Hb & Hj).
  pose proof (rel_bits _ _ _ Hrel _ _ _ Hb) as Hst. destruct st; simpl in Hst.
  - rewrite Hb. congruence.
  - unfold ARCH_ADDRESS_WIDTH_BITS in Hst. lia.
  - unfold ARCH_ADDRESS_WIDTH_BITS in Hst. lia.
  - apply Hon in Hb. destruct (buddy_cases p k ltac:(lia) Hd) as [[_ E]|[_ E]]; lia.
Qed.

Lemma free_loop_wp fuel s B p k : (Z.to_nat (max - k) < fuel)%nat -> holding s B p k ->
  wp (free_loop max pv fuel page_list_low p k) (fun r s' => exists B', holding s' B' r.1 r.2 /\ users B' = users B /\
    (r.2 < max - 1 -> B' !! buddy_of r.1 r.2 <> Some (r.2, Free)) /\
    (forall x, free_page B' x \/ in_block r.1 r.2 x <-> free_page B x \/ in_block p k x)) s.
Proof.
  revert s B p k. induction fuel as [|fuel IH]; intros s B p k Hf Hh; [lia|]. simpl.
  pose proof (wf_ok _ _ (hd_wf _ _ _ _ Hh) _ _ _ (hd_held _ _ _ _ Hh)) as Hok.
  destruct (Z.ltb_spec k (max - 1)) as [Hlt|].
  2: { wp_step. exists B. split; [done|]. split; [done|]. split; [simpl; lia|done]. }
  rewrite buddy_get_eq by done. do 2 wp_step. pose proof (buddy_bits s B p k Hh Hlt) as Hbb.
  destruct (Z.eqb_spec (pg_bits s (buddy_of p k)) k) as [Hb|Hb].
  2: { wp_step. exists B. split; [done|]. split; [done|]. split; [|done]. intros _. simpl. tauto. }
  wp_step. apply (join_step s B p k _ (buddy_of p k) Hh Hlt eq_refl); [tauto|]. intros s1 B1 Hh1 Hu1 Hf1.
  replace (if p <? buddy_of p k then p else buddy_of p k) with (Z.min p (buddy_of p k)) by (destruct (Z.ltb_spec p (buddy_of p k)); lia).
  destruct Hok as (Hk & _). eapply wp_mono; [apply (IH s1 B1); [lia|done]|].
  intros r s2 (B2 & Hh2 & Hu2 & Hc2 & Hf2). exists B2. split; [done|]. split; [congruence|]. split; [done|].
  intros x. by rewrite Hf2, Hf1.
Qed.

(** ** The operations *)

(** The state of the allocator: pages that can be taken, and blocks in use. *)
Record page_spec := mk_page_spec { ps_free : Z -> Prop; ps_used : gmap Z (Z * Z) }.

(** The records stand for a map of blocks with nothing held and no two free buddies. *)
Definition pages_state s B : Prop :=
  pages_rel max s B /\ blocks_wf max B /\ coalesced max B /\ forall q j, B !! q <> Some (j, Held).

Definition page_repr s (A : page_spec) : Prop :=
  exists B, pages_state s B /\ (forall x, ps_free A x <-> free_page B x) /\ ps_used A = users B.

Lemma state_hold s s' B p k st : pages_state s B -> B !! p = Some (k, st) -> pages_rel max s' (<[p := (k, Held)]> B) ->
  holding s' (<[p := (k, Held)]> B) p k.
Proof.
  intros (_ & Hwf & Hco & Hnh) Hp Hrel. pose proof (wf_ok _ _ Hwf _ _ _ Hp) as (? & ? & _).
  split; [done|by apply (wf_status _ _ _ _ st)| |apply lookup_insert_eq|].
  - by apply coalesced_insert; [done|lia|..].
  - intros q j Hq. destruct (decide (q = p)); [done|]. rewrite lookup_insert_ne in Hq by done. by destruct (Hnh q j).
Qed.

Lemma hold_state s s' B p k st : holding s B p k -> st <> Held -> pages_rel max s' (<[p := (k, st)]> B) ->
  (st = Free -> k < max - 1 -> B !! buddy_of p k <> Some (k, Free)) -> pages_state s' (<[p := (k, st)]> B).
Proof.
  intros [Hrel Hwf Hco Hp Hon] Hst Hrel' Hb. pose proof (wf_ok _ _ Hwf _ _ _ Hp) as (? & ? & _).
  split; [done|]. split; [by apply (wf_status _ _ _ _ Held)|]. split; [by apply coalesced_insert; [done|lia|..]|].
  intros q j Hq. destruct (decide (q = p)) as [->|]; [by rewrite lookup_insert_eq in Hq; congruence|].
  rewrite lookup_insert_ne in Hq by done. by apply Hon in Hq.
Qed.

(** A held block is handed out with one holder. *)
Lemma take_page_wp s B p k (Q : option Z -> pages -> Prop) : holding s B p k ->
  (forall s', pages_state s' (<[p := (k, Used 1)]> B) -> Q (Some p) s') -> wp (take_page p) Q s.
Proof.
  intros Hh HQ. unfold take_page. do 4 wp_step. wp_step. apply HQ. apply (hold_state s _ B p k (Used 1)); [done|done| |done].
  apply (rel_status max s _ B p k Held (Used 1)); simpl; try done; [apply Hh..| |by rewrite fupd_eq|].
  - intros q Hq. by rewrite !fupd_ne.
  - intros r [= <-]. by rewrite fupd_eq.
Qed.

Lemma users_take B p k r : users (<[p := (k, Used r)]> B) = <[p := (k, r)]> (users B).
Proof. unfold users. by rewrite omap_insert. Qed.

Lemma free_page_same B p k st st' x : B !! p = Some (k, st) -> st <> Free -> st' <> Free ->
  free_page (<[p := (k, st')]> B) x <-> free_page B x.
Proof.
  intros Hp Hst Hst'. split; intros (q & j & Hq & Hin); exists q, j; (split; [|done]); (destruct (decide (q = p)) as [->|Hne]).
  - rewrite lookup_insert_eq in Hq. congruence.
  - by rewrite lookup_insert_ne in Hq.
  - congruence.
  - by rewrite lookup_insert_ne.
Qed.
End props.
