(* ===== verification/BuddyInstall.v ===== *)
(** Installing a region of pages: the pages around it up to the next largest ranges are marked,
    and the region is cut into aligned blocks that go on the free lists. *)
From stdpp Require Import gmap list.
From S2P Require Import Prelude AspaceUnmap Buddy BuddyInv BuddyRep BuddyProp.
#[local] Open Scope Z_scope.
Implicit Types (B : blocks) (p q k j : Z).

(** * Bits *)

Lemma ctz_div x : 0 < x -> 0 <= rt_hw_ctz x /\ (2 ^ rt_hw_ctz x | x).
Proof.
  destruct x as [|p|p]; [done| |done]. intros _. simpl. induction p as [p IH|p IH|].
  - simpl. split; [lia|]. exists (Zpos p~1). simpl. lia.
  - simpl. destruct IH as [H [d Hd]]. split; [lia|]. exists d.
    rewrite Z.pow_add_r, Z.pow_1_r by lia. replace (Z.pos p~0) with (2 * Z.pos p) by lia. rewrite Hd at 1. ring.
  - split; [simpl; lia|]. by exists 1.
Qed.

Lemma ctz_max x j : 0 < x -> 0 <= j -> (2 ^ j | x) -> j <= rt_hw_ctz x.
Proof.
  destruct x as [|p|p]; [done| |done]. intros _. simpl. revert j. induction p as [p IH|p IH|]; intros j Hj [d Hd]; simpl.
  - destruct (decide (j = 0)) as [->|]; [done|]. exfalso. replace j with (j - 1 + 1) in Hd by lia.
    rewrite Z.pow_add_r, Z.pow_1_r in Hd by lia. lia.
  - destruct (decide (j = 0)) as [->|]; [pose proof (ctz_div (Z.pos p) ltac:(lia)); simpl in *; lia|].
    enough (j - 1 <= ctz_pos p) by lia. apply IH; [lia|]. exists d. replace j with (j - 1 + 1) in Hd by lia.
    rewrite Z.pow_add_r, Z.pow_1_r in Hd by lia. lia.
  - destruct (decide (j = 0)) as [->|]; [done|]. exfalso. replace j with (j - 1 + 1) in Hd by lia.
    rewrite Z.pow_add_r, Z.pow_1_r in Hd by lia. lia.
Qed.

(** Rounding an address down to a multiple of 2^n. *)
Lemma land_down x n : 0 <= x < 2 ^ 32 -> 0 <= n <= 32 -> Z.land x (u32 (Z.lnot (2 ^ n - 1))) = x - x mod 2 ^ n.
Proof.
  intros Hx Hn. unfold u32, uwrap. rewrite <- !Z.land_ones by lia.
  assert (E : 2 ^ n - 1 = Z.ones n) by (rewrite Z.ones_equiv; lia). rewrite E.
  rewrite (Z.land_comm (Z.lnot _)), Z.land_assoc, Z.land_ones, (Z.mod_small x (2 ^ 32)) by lia.
  rewrite <- Z.ldiff_land, Z.ldiff_ones_r, Z.shiftl_mul_pow2, Z.shiftr_div_pow2, Z.land_ones by lia.
  pose proof (Z.div_mod x (2 ^ n)). lia.
Qed.

(** * Single pages *)

Definition fill (xs : list Z) (st : block_status) B : blocks := foldr (fun x => <[x := (0, st)]>) B xs.

Lemma lookup_fill xs st B q : fill xs st B !! q = if decide (q ∈ xs) then Some (0, st) else B !! q.
Proof.
  induction xs as [|x xs IH]; [by rewrite decide_False by apply not_elem_of_nil|]. unfold fill in *. simpl foldr.
  destruct (decide (q = x)) as [->|Hne]; [by rewrite lookup_insert_eq, decide_True by left|].
  rewrite lookup_insert_ne, IH by done. apply decide_ext. rewrite elem_of_cons. tauto.
Qed.

Section install.
Context (max : Z) (Hmax : 1 <= max <= 21).

Definition range_size : Z := 2 ^ (max - 1).

Lemma range_pos : 0 < range_size.
Proof. apply Z.pow_pos_nonneg; lia. Qed.

(** A region of pages, and the largest ranges it touches. *)
Context (m a b : Z).
Definition low_end : Z := a - a mod range_size.
Definition high_end : Z := b + (- b) mod range_size.

Lemma ends : low_end <= a /\ b <= high_end /\ (range_size | low_end) /\ (range_size | high_end).
Proof.
  pose proof range_pos. unfold low_end, high_end. pose proof (Z.mod_pos_bound a range_size). pose proof (Z.mod_pos_bound (- b) range_size).
  split; [lia|]. split; [lia|]. split.
  - exists (a / range_size). pose proof (Z.div_mod a range_size). lia.
  - exists (- (- b / range_size)). pose proof (Z.div_mod (- b) range_size). lia.
Qed.

(** No block is in the ranges yet. *)
Definition untouched B : Prop := forall p k st x, B !! p = Some (k, st) -> in_block p k x -> ~ low_end <= x < high_end.

(** The blocks when the pages of the region are in the hands of the operation. *)
Definition claimed B : blocks :=
  fill (seqZ low_end (a - low_end)) Reserved (fill (seqZ b (high_end - b)) Reserved (fill (seqZ a (b - a)) Held B)).

Lemma lookup_claimed B q : a <= b -> claimed B !! q =
  if decide (low_end <= q < high_end) then Some (0, if decide (a <= q < b) then Held else Reserved) else B !! q.
Proof.
  intros Hab. destruct ends as (H1 & H2 & _). unfold claimed. rewrite !lookup_fill.
  repeat case_decide; try done; rewrite ?elem_of_seqZ in *; lia.
Qed.

Lemma same_range_iff p q : p / range_size = q / range_size -> low_end <= q < high_end -> low_end <= p < high_end.
Proof.
  destruct ends as (_ & _ & [u Hu] & [v Hv]). pose proof range_pos. rewrite Hu, Hv. intros E [? ?].
  assert (u <= q / range_size) by (apply Z.div_le_lower_bound; lia).
  assert (q / range_size < v) by (apply Z.div_lt_upper_bound; lia).
  pose proof (Z.div_mod p range_size). pose proof (Z.mod_pos_bound p range_size). nia.
Qed.

Lemma claimed_wf B : blocks_wf max B -> untouched B -> a < b -> 0 <= low_end -> high_end <= 2 ^ 20 -> blocks_wf max (claimed B).
Proof.
  intros [Hok Hap Hcov] Hun Hab H0 H20.
  assert (Hu : forall q k st, B !! q = Some (k, st) -> q + 2 ^ k <= low_end \/ high_end <= q).
  { intros q k st Hq. pose proof (Hok _ _ _ Hq) as ((Hk & _) & _). pose proof (pow_pos k Hk).
    destruct (Z_le_gt_dec high_end q); [auto|]. destruct (Z_le_gt_dec (q + 2 ^ k) low_end); [auto|exfalso].
    apply (Hun q k st (Z.max q low_end) Hq); [unfold in_block; lia|]. destruct ends. lia. }
  split.
  - intros p k st. rewrite lookup_claimed by lia. case_decide; [|apply Hok]. intros [= <- _]. unfold block_ok.
    change (2 ^ 0) with 1. split; [lia|]. split; [apply Z.divide_1_l|lia].
  - intros p k st q j st' Hp Hq Hne. rewrite lookup_claimed in Hp, Hq by lia.
    destruct (decide (low_end <= p < high_end)), (decide (low_end <= q < high_end)); simplify_eq; change (2 ^ 0) with 1; eauto.
    + lia.
    + apply Hu in Hq. lia.
    + apply Hu in Hp. lia.
  - intros p k st q. rewrite lookup_claimed by lia. case_decide as Hp; intros Hpk Hq.
    + pose proof (same_range_iff q p Hq Hp). exists q, 0, (if decide (a <= q < b) then Held else Reserved).
      rewrite lookup_claimed, decide_True by lia. split; [done|]. unfold in_block. change (2 ^ 0) with 1. lia.
    + destruct (Hcov _ _ _ _ Hpk Hq) as (p' & k' & st' & Hp' & Hin). exists p', k', st'.
      split; [|done]. rewrite lookup_claimed by lia. rewrite decide_False; [done|]. intros ?. pose proof (Hok _ _ _ Hp') as ((? & _) & _). pose proof (pow_pos k' ltac:(lia)).
      apply Hu in Hp'. lia.
Qed.

Lemma claimed_coalesced B : coalesced max B -> a < b -> coalesced max (claimed B).
Proof.
  intros Hco Hab p k Hp Hk Hb. rewrite lookup_claimed in Hp, Hb by lia.
  repeat case_decide; try congruence. by apply (Hco p k).
Qed.

Lemma claimed_users B : untouched B -> blocks_wf max B -> a < b -> users (claimed B) = users B.
Proof.
  intros Hun Hwf Hab. apply map_eq. intros q. apply option_eq. intros [j r]. rewrite !lookup_users, lookup_claimed by lia.
  repeat case_decide; (split; [congruence|]); try done; intros Hq; exfalso;
    apply (Hun _ _ _ q Hq); [|done| |done]; pose proof (wf_ok _ _ Hwf _ _ _ Hq) as ((? & _) & _);
    pose proof (pow_pos j ltac:(lia)); unfold in_block; lia.
Qed.

Lemma claimed_free B x : untouched B -> blocks_wf max B -> a < b -> free_page (claimed B) x <-> free_page B x.
Proof.
  intros Hun Hwf Hab. split; intros (q & j & Hq & Hin); exists q, j; (split; [|done]); rewrite lookup_claimed in * by lia.
  - repeat case_decide; congruence.
  - rewrite decide_False; [done|]. apply (Hun _ _ _ q Hq). pose proof (wf_ok _ _ Hwf _ _ _ Hq) as ((? & _) & _).
    pose proof (pow_pos j ltac:(lia)). unfold in_block. lia.
Qed.

(** [mark_loop] writes the orders of the pages it passes. *)
Lemma mark_loop_spec fuel i t s : t - i <= Z.of_nat fuel -> let s' := mark_loop fuel i t s in
  page_list s' = page_list s /\ pg_next s' = pg_next s /\ pg_pre s' = pg_pre s /\ pg_ref s' = pg_ref s /\
  high_page_configured s' = high_page_configured s /\
  forall x, pg_bits s' x = if decide (i <= x < t) then ARCH_ADDRESS_WIDTH_BITS else pg_bits s x.
Proof.
  revert i s. induction fuel as [|fuel IH]; intros i s Hf; simpl.
  - repeat (split; [done|]). intros x. rewrite decide_False by lia. done.
  - destruct (Z.ltb_spec i t); [|repeat (split; [done|]); intros x; by rewrite decide_False by lia].
    destruct (IH (i + 1) (set_pg_bits i ARCH_ADDRESS_WIDTH_BITS s)) as (-> & -> & -> & -> & -> & Hb); [lia|].
    repeat (split; [done|]). intros x. rewrite Hb. simpl. destruct (decide (x = i)) as [->|].
    + rewrite fupd_eq, decide_False, decide_True by lia. done.
    + rewrite fupd_ne by done. apply decide_ext. lia.
Qed.

Lemma claimed_rel s s' B : pages_rel max s B -> untouched B -> blocks_wf max B -> a < b ->
  page_list s' = page_list s -> pg_next s' = pg_next s -> pg_pre s' = pg_pre s -> pg_ref s' = pg_ref s ->
  high_page_configured s' = high_page_configured s ->
  (forall x, pg_bits s' x = if decide (low_end <= x < a \/ b <= x < high_end) then ARCH_ADDRESS_WIDTH_BITS else pg_bits s x) ->
  pages_rel max s' (claimed B).
Proof.
  intros [Hl Hb Hr Hh] Hun Hwf Hab El En Ep Er Eh Hbits. split; [|..|by rewrite Eh].
  - intros k Hk. destruct (Hl k Hk) as (xs & [Hx1 Hx2] & Hnd & Hx). exists xs. split; [split; [by rewrite El|]|split; [done|]].
    + revert Hx2. apply seg_ext. intros q _. by rewrite En, Ep.
    + intros q. rewrite Hx, lookup_claimed by lia. case_decide; [|done].
      split; [|repeat case_decide; congruence]. intros Hq. exfalso. apply (Hun _ _ _ q Hq); [|done].
      pose proof (pow_pos k ltac:(lia)). unfold in_block. lia.
  - intros p k st. rewrite lookup_claimed by lia. case_decide; [|intros Hp; rewrite Hbits, decide_False; [by apply Hb|]; pose proof ends; lia].
    intros [= <- <-]. case_decide; [done|]. simpl. rewrite Hbits, decide_True; [done|lia].
  - intros p k r. rewrite lookup_claimed by lia. rewrite Er. case_decide; [case_decide; done|]. apply Hr.
Qed.

(** * Cutting the region into blocks *)

(** The pages from [c] on are still to be put on the lists. *)
Record filling (B0 : blocks) (c : Z) s B : Prop := {
  fl_rel : pages_rel max s B; fl_wf : blocks_wf max B; fl_coal : coalesced max B;
  fl_held : forall x, c <= x < b -> B !! x = Some (0, Held);
  fl_only : forall x j, B !! x = Some (j, Held) -> c <= x < b;
  fl_big : forall q k, B !! q = Some (k, Free) -> low_end <= q < high_end ->
    q < c /\ (k = max - 1 \/ ~ (2 ^ (k + 1) | q) \/ b - q < 2 ^ (k + 1));
  fl_users : users B = users B0;
  fl_free : forall x, free_page B x <-> free_page B0 x \/ a <= x < c }.

(** A block as large as alignment and the rest of the region allow. *)
Definition next_block (c k : Z) : Prop :=
  0 <= k < max /\ (2 ^ k | c) /\ c + 2 ^ k <= b /\ (k = max - 1 \/ ~ (2 ^ (k + 1) | c) \/ b - c < 2 ^ (k + 1)).

Lemma fill_step B0 c k s B (Q : unit -> pages -> Prop) : filling B0 c s B -> a <= c < b -> next_block c k ->
  (forall s' B', filling B0 (c + 2 ^ k) s' B' -> Q tt s') -> wp (_page_insert max page_list_low c k) Q s.
Proof.
  intros [Hrel Hwf Hco Hhe Hon Hbig Hu Hf] Hc (Hk & Hd & Hcb & Hnext) HQ. pose proof (pow_pos k ltac:(lia)) as Hpos.
  pose proof (Hhe c ltac:(lia)) as Hbc. set (B1 := join_block c k Held B).
  assert (Hin : forall q, in_block c k q -> B !! q = Some (0, Held)) by (intros q [? ?]; apply Hhe; lia).
  assert (Heq : held_eq B1 B).
  { intros q j st Hst. unfold B1. rewrite lookup_join by lia. case_decide as Hq; [subst; rewrite Hbc; split; congruence|].
    case_decide as Hq2; [|done]. rewrite (Hin q Hq2). split; congruence. }
  assert (Hok : block_ok max c k).
  { pose proof (wf_ok _ _ Hwf _ _ _ Hbc) as (_ & _ & ? & _). pose proof (wf_ok _ _ Hwf _ _ _ (Hhe (c + 2 ^ k - 1) ltac:(lia))) as (_ & _ & _ & E).
    change (2 ^ 0) with 1 in E. split; [done|]. split; [done|]. lia. }
  assert (Hwf1 : blocks_wf max B1).
  { apply (wf_join max Hmax B c k Held c 0 Held Hwf Hok Hbc); [unfold in_block; lia|]. intros q j st Hq.
    destruct (Z_le_gt_dec j k); [auto|]. pose proof (wf_ok _ _ Hwf _ _ _ Hq) as (Hj & Hdq & _).
    assert (Hqc : q <> c) by (intros ->; rewrite Hbc in Hq; injection Hq; lia).
    pose proof (wf_apart _ _ Hwf _ _ _ _ _ _ Hq Hbc Hqc) as Hap. change (2 ^ 0) with 1 in Hap.
    destruct (aligned_nested q j c k ltac:(lia) Hdq Hd) as [|[|]]; lia. }
  assert (Hc1 : B1 !! c = Some (k, Held)) by apply lookup_insert_eq.
  assert (Hco1 : coalesced max B1).
  { unfold B1, join_block. apply coalesced_insert; [|lia|done|done]. apply (coalesced_subset max B); [done|apply map_filter_subseteq]. }
  assert (Hfree1 : forall q j, B1 !! q = Some (j, Free) <-> B !! q = Some (j, Free)) by (intros; by apply Heq).
  apply (pages_insert_wp max Hmax s B1); [by rewrite Heq|done|done|]. intros s' Hrel'.
  apply (HQ s' (<[c := (k, Free)]> B1)). split; [done|by apply (wf_status _ _ _ _ Held)|..].
  - apply coalesced_insert; [done|lia|done|]. intros _ Hk1 Hb. rewrite Hfree1 in Hb.
    destruct (buddy_range max Hmax c k Hok Hk1) as [Hr _]. pose proof ends as (? & ? & _).
    assert (Hrange : low_end <= buddy_of c k < high_end) by (apply (same_range_iff _ c Hr); lia).
    assert (E2 : 2 ^ (k + 1) = 2 * 2 ^ k) by (rewrite Z.pow_add_r by lia; lia).
    destruct (buddy_cases c k ltac:(lia) Hd) as [[Hdc E]|[Hdc E]]; rewrite E in *.
    + destruct (Hbig _ _ Hb Hrange) as [? _]. lia.
    + destruct (Hbig _ _ Hb Hrange) as [_ [|[|]]]; [lia|done|lia].
  - intros x Hx. rewrite lookup_insert_ne by lia. unfold B1. rewrite lookup_join, !decide_False by (unfold in_block; lia). apply Hhe. lia.
  - intros x j. destruct (decide (x = c)) as [->|]; [by rewrite lookup_insert_eq|]. rewrite lookup_insert_ne by done.
    unfold B1. rewrite lookup_join, decide_False by (done || lia). case_decide as Hx; [done|]. intros Hj%Hon. unfold in_block in Hx. lia.
  - intros q j. destruct (decide (q = c)) as [->|]; [rewrite lookup_insert_eq; intros [= <-] _; split; [lia|done]|].
    rewrite lookup_insert_ne, Hfree1 by done. intros Hq Hr. destruct (Hbig _ _ Hq Hr). split; [lia|done].
  - rewrite users_insert; [by rewrite Heq|done|]. rewrite Hc1. congruence.
  - intros x. rewrite (free_page_insert max B1 c k Held) by done. rewrite Heq, Hf.
    assert (a <= x < c + 2 ^ k <-> a <= x < c \/ in_block c k x) as -> by (unfold in_block; lia). tauto.
Qed.

(** ** The order of the next block *)

Lemma install_bits_spec A N : 0 < A -> 0 < N -> A + N < 2 ^ 20 -> exists k,
  install_bits max (A * 2 ^ 12) ((A + N) * 2 ^ 12) = k + 12 /\ 0 <= k < max /\ (2 ^ k | A) /\ 2 ^ k <= N /\
  (k = max - 1 \/ ~ (2 ^ (k + 1) | A) \/ N < 2 ^ (k + 1)).
Proof.
  intros HA HN Hs. set (g := Z.log2 N). set (c := rt_hw_ctz (A * 2 ^ 12) - 12).
  destruct (ctz_div (A * 2 ^ 12)) as [Hc0 Hcd]; [lia|].
  assert (Hc : 0 <= c) by (pose proof (ctz_max (A * 2 ^ 12) 12 ltac:(lia) ltac:(lia) ltac:(by exists A)); lia).
  assert (Hca : (2 ^ c | A)).
  { replace (rt_hw_ctz (A * 2 ^ 12)) with (c + 12) in Hcd by lia. rewrite Z.pow_add_r in Hcd by lia.
    by apply Z.mul_divide_cancel_r in Hcd. }
  assert (Hcm : ~ (2 ^ (c + 1) | A)).
  { intros [x Hx]. pose proof (ctz_max (A * 2 ^ 12) (c + 13) ltac:(lia) ltac:(lia)) as Hm.
    assert (c + 13 <= rt_hw_ctz (A * 2 ^ 12)); [|lia]. apply Hm. exists x. rewrite Hx.
    replace (c + 13) with (c + 1 + 12) by lia. rewrite (Z.pow_add_r 2 (c + 1)) by lia. ring. }
  pose proof (Z.log2_spec N HN) as [Hg1 Hg2]. fold g in Hg1, Hg2. assert (Hg0 : 0 <= g) by apply Z.log2_nonneg.
  assert (Elog : Z.log2 (u32 ((A + N) * 2 ^ 12 - A * 2 ^ 12)) = g + 12).
  { rewrite u32_id by lia. replace ((A + N) * 2 ^ 12 - A * 2 ^ 12) with (N * 2 ^ 12) by lia. rewrite Z.log2_mul_pow2 by lia. fold g. lia. }
  exists (Z.min (Z.min c g) (max - 1)). unfold install_bits, rt_hw_clz. rewrite Elog.
  replace (rt_hw_ctz (A * 2 ^ 12)) with (c + 12) by lia. change ARCH_ADDRESS_WIDTH_BITS with 32. change ARCH_PAGE_SHIFT with 12.
  replace (32 - 1 - (31 - (g + 12))) with (g + 12) by lia.
  set (k := Z.min (Z.min c g) (max - 1)). assert (Hk : 0 <= k <= c /\ k <= g) by lia.
  split; [unfold k; destruct (Z.ltb_spec (c + 12) (g + 12)); cbv zeta; case_bool; lia|]. split; [lia|].
  split; [by apply (aligned_below A c); [lia|]|]. split; [etrans; [by apply (Z.pow_le_mono_r 2 k g); lia|done]|].
  assert (k = max - 1 \/ k = c \/ k = g) as [|[-> | ->]] by lia; [auto|auto|]. right. right. by rewrite <- Z.add_1_r in Hg2.
Qed.

(** ** The region as a whole *)

Context (pv : Z) (Hpv : pv = m * 2 ^ 12) (Hm : (range_size | m)).
Context (Hregion : 0 <= low_end /\ m < a < b /\ high_end < 2 ^ 20 /\ high_end - m < 2 ^ 20).

Lemma low_addr c : m <= c -> c - m < 2 ^ 20 -> page_to_addr pv c = (c - m) * 2 ^ 12.
Proof. intros H1 H2. rewrite (page_to_addr_eq pv m) by done. by rewrite Z.mod_small by lia. Qed.

Lemma install_loop_wp fuel B0 c s B : (Z.to_nat (b - c) < fuel)%nat -> a <= c <= b -> filling B0 c s B ->
  wp (install_loop max pv fuel (page_to_addr pv c) (page_to_addr pv b)) (fun _ s' => exists B', filling B0 b s' B') s.
Proof.
  pose proof ends as (He1 & He2 & _).
  revert c s B. induction fuel as [|fuel IH]; intros c s B Hf Hc Hfl; [lia|]. simpl install_loop.
  rewrite !low_addr by lia. case_decide as Hne.
  2: { wp_step. assert (c = b) as -> by lia. by exists B. }
  destruct (install_bits_spec (c - m) (b - c)) as (k & E & Hk & Hd & Hkb & Hnext); [lia..|].
  replace (c - m + (b - c)) with (b - m) in E by lia. rewrite E. rewrite (addr_to_page_eq pv m) by done.
  change ARCH_PAGE_SHIFT with 12. replace (k + 12 - 12) with k by lia. replace (c - m + m) with c by lia. rewrite (Z.mod_small c) by lia.
  pose proof (pow_pos k ltac:(lia)) as Hpos.
  assert (Hmk : forall j, 0 <= j <= max - 1 -> (2 ^ j | c - m) <-> (2 ^ j | c)).
  { intros j Hj. assert (Hjm : (2 ^ j | m)) by (by apply (aligned_below m (max - 1)); [lia|]). split; intros Hx.
    - replace c with (c - m + m) by lia. by apply Z.divide_add_r.
    - by apply Z.divide_sub_r. }
  do 2 wp_step. do 2 wp_step. unfold _get_page_list. pose proof (u32_range ((c - m) * 2 ^ 12 + pv)).
  rewrite (proj2 (Z.ltb_ge (2 ^ 32 - 1) _)) by lia. rewrite decide_False by done. do 2 wp_step.
  wp_step. apply (fill_step B0 c k _ B).
  - destruct Hfl as [Hrel Hwf Hco Hhe Hon Hbig Hu Hfr]. split; try done. pose proof (Hhe c ltac:(lia)) as Hbc.
    rewrite <- (insert_id B c (0, Held) Hbc). apply (rel_status max s _ B c 0 Held Held); try done.
    intros q Hq. simpl. by rewrite !fupd_ne.
  - lia.
  - split; [done|]. split; [by apply Hmk; [lia|]|]. split; [lia|]. destruct Hnext as [?|[Hn|Hn]]; [auto|..|right; right; lia].
    destruct (decide (k = max - 1)); [auto|]. right. left. rewrite <- Hmk by lia. done.
  - intros s' B' Hfl'. replace (u32 ((c - m) * 2 ^ 12 + Z.shiftl 1 (k + 12))) with (page_to_addr pv (c + 2 ^ k)).
    + rewrite <- low_addr by lia. apply (IH _ _ B'); [lia|lia|done].
    + rewrite low_addr by lia. rewrite Z.shiftl_1_l, Z.pow_add_r by lia. rewrite u32_id; lia.
Qed.

Lemma region_low : m <= low_end.
Proof.
  pose proof ends as (_ & _ & [u Hu] & _). pose proof range_pos as Hr. destruct Hm as [y Hy].
  assert (a - low_end < range_size) by (unfold low_end; pose proof (Z.mod_pos_bound a range_size Hr); lia).
  assert (y <= u); nia.
Qed.

Lemma range_bytes : 2 ^ (max + 11) = range_size * 2 ^ 12.
Proof. unfold range_size. rewrite <- Z.pow_add_r by lia. f_equal. lia. Qed.

Lemma shadow_low : Z.land (page_to_addr pv a) (u32 (Z.lnot (shadow_mask max))) = page_to_addr pv low_end.
Proof.
  pose proof ends as (He1 & He2 & [u Hu] & _). pose proof range_pos as Hr. destruct Hm as [y Hy].
  pose proof region_low as Hlow.
  rewrite !low_addr by lia. unfold shadow_mask. change ARCH_PAGE_SHIFT with 12. rewrite Z.shiftl_1_l.
  replace (max + 12 - 1) with (max + 11) by lia. rewrite land_down, range_bytes by lia.
  rewrite Z.mul_mod_distr_r by lia. rewrite <- Z.mul_sub_distr_r. f_equal.
  assert (E : (a - m) mod range_size = a mod range_size); [|unfold low_end; lia].
  rewrite Hy, <- Z.add_opp_r, <- Z.mul_opp_l. apply Z.mod_add. lia.
Qed.

Lemma shadow_high : FLOOR (page_to_addr pv b) (shadow_mask max + 1) = page_to_addr pv high_end.
Proof.
  pose proof ends as (He1 & He2 & _ & [v Hv]). pose proof range_pos as Hr. destruct Hm as [y Hy].
  assert (Hgap : high_end - b < range_size) by (unfold high_end; pose proof (Z.mod_pos_bound (- b) range_size); lia).
  assert (Htop : high_end - m + range_size <= 2 ^ 20).
  { assert (E20 : 2 ^ 20 = 2 ^ (20 - (max - 1)) * range_size) by (unfold range_size; rewrite <- Z.pow_add_r by lia; f_equal; lia).
    assert (v - y < 2 ^ (20 - (max - 1))) by nia. nia. }
  rewrite !low_addr by lia. unfold FLOOR, shadow_mask. change ARCH_PAGE_SHIFT with 12. rewrite Z.shiftl_1_l.
  replace (max + 12 - 1) with (max + 11) by lia. pose proof range_bytes as Eb. replace (2 ^ (max + 11) - 1 + 1) with (2 ^ (max + 11)) by lia.
  assert (Hx : 0 <= (b - m) * 2 ^ 12 + 2 ^ (max + 11) - 1 < 2 ^ 32) by (rewrite Eb; lia).
  rewrite u32_id by exact Hx. rewrite land_down by (exact Hx || lia). rewrite Eb.
  rewrite <- (Z.mod_unique_pos _ _ ((high_end - m) / range_size) ((b - high_end) * 2 ^ 12 + range_size * 2 ^ 12 - 1)); [lia|lia|].
  assert (E : high_end - m = (v - y) * range_size) by lia. rewrite E, Z.div_mul by lia. lia.
Qed.

Lemma install_wp fuel s0 s B : pages_state max s0 B -> untouched B -> high_end - low_end < Z.of_nat fuel ->
  page_list s = page_list s0 -> pg_next s = pg_next s0 -> pg_pre s = pg_pre s0 -> pg_ref s = pg_ref s0 ->
  high_page_configured s = high_page_configured s0 -> pg_bits s = pg_bits s0 ->
  wp (_install_page max pv fuel (page_to_addr pv a) (page_to_addr pv b)) (fun _ s' => exists B', pages_state max s' B' /\
    users B' = users B /\ forall x, free_page B' x <-> free_page B x \/ a <= x < b) s.
Proof.
  intros (Hrel & Hwf & Hco & Hnh) Hun Hfuel El En Ep Er Eh Ebits. pose proof ends as (He1 & He2 & [u Hu] & _).
  pose proof region_low as Hlow.
  unfold _install_page. rewrite shadow_low, shadow_high.
  rewrite (proj2 (Z.ltb_ge (2 ^ 32 - 1) _)) by (pose proof (u32_range (page_to_addr pv high_end + pv)); lia).
  assert (Hp : forall c, m <= c <= high_end -> 0 <= c < 2 ^ 20 -> addr_to_page pv (page_to_addr pv c) = c).
  { intros c Hc Hc'. rewrite low_addr, (addr_to_page_eq pv m) by (done || lia). rewrite Z.sub_add. by apply Z.mod_small. }
  rewrite !Hp by lia. do 2 wp_step. do 2 wp_step. do 2 wp_step.
  destruct (mark_loop_spec fuel low_end a s ltac:(lia)) as (L1 & N1 & P1 & R1 & H1 & B1). set (s1 := mark_loop fuel low_end a s) in *.
  destruct (mark_loop_spec fuel b high_end s1 ltac:(lia)) as (L2 & N2 & P2 & R2 & H2 & B2). set (s2 := mark_loop fuel b high_end s1) in *.
  eapply wp_mono; [apply (install_loop_wp fuel B a s2 (claimed B)); [lia|lia|]|].
  - split; [|apply claimed_wf; done || lia|apply claimed_coalesced; done || lia|..].
    + apply (claimed_rel s0); try congruence; try lia; try done. intros x. rewrite B2, B1, Ebits.
      repeat case_decide; try done; lia.
    + intros x Hx. rewrite lookup_claimed, !decide_True by lia. done.
    + intros x j. rewrite lookup_claimed by lia. repeat case_decide; try done. intros Hx. by destruct (Hnh x j).
    + intros q k. rewrite lookup_claimed by lia. repeat case_decide; done.
    + apply claimed_users; done || lia.
    + intros x. rewrite claimed_free by (done || lia). assert (~ a <= x < a) by lia. tauto.
  - intros _ s' (B' & [Hrel' Hwf' Hco' _ Hon' _ Hu' Hf']). exists B'. split; [|by split].
    split; [done|]. split; [done|]. split; [done|]. intros q j Hq. apply Hon' in Hq. lia.
Qed.
End install.
