(* ===== verification/BuddyUse.v ===== *)
(** The page allocator as its clients see it: a set of free pages and a map of the blocks in
    use, which allocation, release and sharing change as specified; blocks in use never
    overlap; the order computed for a size. *)
From stdpp Require Import gmap relations.
From S2P Require Import Prelude AspaceUnmap Buddy BuddyInv BuddyRep BuddyProp BuddyInstall.
#[local] Open Scope Z_scope.
Implicit Types (B : blocks) (p q k j : Z).

(** * What the operations do *)

Lemma group_head_block p k x : 0 <= k -> (2 ^ k | p) -> in_block p k x -> group_head x k = p.
Proof.
  intros Hk [m ->] [H1 H2]. unfold group_head. rewrite Z.shiftl_1_l. pose proof (pow_pos k Hk).
  assert (E : 2 ^ k - 1 = Z.ones k) by (rewrite Z.ones_equiv; lia). rewrite E.
  rewrite <- Z.ldiff_land, Z.ldiff_ones_r, Z.shiftl_mul_pow2, Z.shiftr_div_pow2 by done. f_equal.
  symmetry. apply (Z.div_unique_pos x (2 ^ k) m (x - m * 2 ^ k)); lia.
Qed.

Section ops.
Context (max : Z) (Hmax : 1 <= max <= 21) (pv : Z) (Hpv : (2 ^ (max + 11) | pv)).
Implicit Types A : page_spec.

(** A block is taken from the free pages. *)
Record spec_take A p k A' : Prop := {
  st_align : (2 ^ k | p);
  st_range : 0 <= p /\ p + 2 ^ k <= 2 ^ 20;
  st_were : forall x, in_block p k x -> ps_free A x;
  st_free : forall x, ps_free A' x <-> ps_free A x /\ ~ in_block p k x;
  st_used : ps_used A' = <[p := (k, 1)]> (ps_used A) }.

(** A block goes back to the free pages. *)
Record spec_give A p k A' : Prop := {
  sg_free : forall x, ps_free A' x <-> ps_free A x \/ in_block p k x;
  sg_used : ps_used A' = delete p (ps_used A) }.

(** No aligned range of 2^k pages is free. *)
Definition spec_full A k : Prop := forall a, (2 ^ k | a) -> ~ forall x, in_block a k x -> ps_free A x.

Lemma taken s B p j k q B1 : pages_state max s B -> B !! p = Some (j, Free) -> k <= j -> 0 <= k -> (2 ^ k | q) ->
  (forall x, in_block q k x -> in_block p j x) -> users B1 = users B -> B1 !! q = Some (k, Held) ->
  (forall x, free_page B1 x <-> free_page B x /\ ~ in_block q k x) -> forall A, (forall x, ps_free A x <-> free_page B x) ->
  ps_used A = users B -> spec_take A q k (mk_page_spec (free_page (<[q := (k, Used 1)]> B1)) (users (<[q := (k, Used 1)]> B1))).
Proof.
  intros (Hrel & Hwf & Hco & Hnh) Hp Hj Hk Hd Hsub Hu Hq Hf A HA HA'.
  pose proof (wf_ok _ _ Hwf _ _ _ Hp) as (? & _ & Hp0 & He). pose proof (pow_pos k Hk).
  assert (H1 : in_block p j q) by (apply Hsub; unfold in_block; lia).
  assert (H2 : in_block p j (q + 2 ^ k - 1)) by (apply Hsub; unfold in_block; lia). unfold in_block in H1, H2.
  split; simpl; [done|lia|..].
  - intros x Hx. apply HA. exists p, j. auto.
  - intros x. rewrite (free_page_same B1 q k Held (Used 1)) by done. by rewrite Hf, HA.
  - by rewrite users_take, Hu, HA'.
Qed.

Lemma pages_alloc_wp s A k : page_repr max s A -> 0 <= k < max ->
  wp (_pages_alloc max pv page_list_low k) (fun o s' =>
    match o with
    | Some p => exists A', spec_take A p k A' /\ page_repr max s' A'
    | None => s' = s /\ spec_full A k
    end) s.
Proof.
  intros (B & Hst & HA & HA') Hk. pose proof Hst as (Hrel & Hwf & Hco & Hnh). unfold _pages_alloc. wp_step.
  apply list_at_wp; [done|]. destruct (page_list s page_list_low k) as [p|] eqn:E.
  - pose proof (list_head max s B k p Hrel Hk E) as Hp. pose proof (wf_ok _ _ Hwf _ _ _ Hp) as (_ & Hd & _).
    wp_step. apply (pages_remove_wp max Hmax s B); [done..|]. intros s1 Hrel1 _.
    pose proof (state_hold max s s1 B p k Free Hst Hp Hrel1) as Hh.
    eapply (take_page_wp max); [exact Hh|]. intros s2 Hs2. eexists. split.
    + eapply (taken s B p k k p (<[p := (k, Held)]> B) Hst Hp); try (done || lia).
      * by apply users_insert; [done|rewrite Hp; congruence].
      * apply lookup_insert_eq.
      * intros x. by apply (free_page_delete max).
    + by eexists; split; [exact Hs2|].
  - do 2 wp_step. destruct (find_level_spec max (Z.to_nat max) (k + 1) s ltac:(lia) ltac:(lia)) as (Hl & Hno & Hyes).
    set (level := find_level max (Z.to_nat max) page_list_low (k + 1) s) in *.
    destruct (Z.eqb_spec level max) as [El|El].
    + wp_step. split; [done|]. intros a Hd Hf.
      destruct (free_range max B a (Z.to_nat k) Hwf Hco k) as (p & j & Hp & Hj & _); [lia|lia|done|intros; apply HA; auto|].
      pose proof (wf_ok _ _ Hwf _ _ _ Hp) as (Hj' & _). apply (list_empty max s B j Hrel Hj') in Hp; [done|].
      destruct (decide (j = k)) as [->|]; [done|]. apply Hno. lia.
    + destruct Hyes as [p E2]; [lia|]. assert (Hlm : 0 <= level < max) by lia.
      pose proof (list_head max s B level p Hrel Hlm E2) as Hp.
      wp_step. apply list_at_wp; [done|]. wp_step. eapply wp_deref; [done|].
      wp_step. apply (pages_remove_wp max Hmax s B); [done..|]. intros s1 Hrel1 _.
      pose proof (state_hold max s s1 B p level Free Hst Hp Hrel1) as Hh.
      wp_step. eapply wp_mono; [eapply (split_loop_wp max Hmax pv Hpv); [..|exact Hh]; lia|].
      intros q s2 (B2 & Hh2 & Hu2 & Hsub & Hf2). eapply (take_page_wp max); [exact Hh2|]. intros s3 Hs3.
      pose proof (wf_ok _ _ (hd_wf _ _ _ _ _ Hh2) _ _ _ (hd_held _ _ _ _ _ Hh2)) as (_ & Hd & _).
      eexists. split; [eapply (taken s B p level k q B2 Hst Hp); try (done || lia)|by eexists; split; [exact Hs3|]].
      * rewrite Hu2. by apply users_insert; [done|rewrite Hp; congruence].
      * by apply (hd_held _ _ _ _ _ Hh2).
      * intros x. rewrite Hf2, (free_page_delete max B p level Held) by done.
        assert (in_block p level x -> free_page B x) by (intros; by exists p, level).
        pose proof (Hsub x). destruct (decide (in_block p level x)); tauto.
Qed.

Lemma do_pages_alloc_wp s A k flags : page_repr max s A -> 0 <= k < max ->
  wp (_do_pages_alloc max pv k flags) (fun addr s' =>
    (exists p A', addr = page_to_addr pv p /\ spec_take A p k A' /\ page_repr max s' A') \/
    addr = 0 /\ s' = s /\ spec_full A k) s.
Proof.
  intros Hr Hk. unfold _do_pages_alloc. do 2 wp_step.
  assert (El : _flag_to_page_list flags s = page_list_low).
  { destruct Hr as (B & (Hrel & _) & _). unfold _flag_to_page_list. by rewrite (rel_high _ _ _ Hrel). }
  rewrite El. wp_step. eapply wp_mono; [by apply (pages_alloc_wp s A k)|]. cbv beta.
  intros [p|] s' H; wp_step; [|rewrite decide_False by tauto]; do 2 wp_step.
  - destruct H as (A' & ? & ?). left. eauto.
  - right. tauto.
Qed.

(** ** Holders *)

(** The number of holders of a block changes, and nothing else. *)
Lemma set_ref_repr s A p k r r' : page_repr max s A -> ps_used A !! p = Some (k, r) -> 0 < r' < 2 ^ 32 ->
  page_repr max (set_pg_ref p r' s) (mk_page_spec (ps_free A) (<[p := (k, r')]> (ps_used A))).
Proof.
  intros (B & (Hrel & Hwf & Hco & Hnh) & HA & HA') Hp Hr'. rewrite HA', lookup_users in Hp.
  pose proof (wf_ok _ _ Hwf _ _ _ Hp) as (Hk & Hd & _).
  exists (<[p := (k, Used r')]> B). split; [split; [|split; [by apply (wf_status _ _ _ _ (Used r))|split]]|split]; simpl.
  - apply (rel_status max s _ B p k (Used r) (Used r')); simpl; try done; [| |].
    + intros q Hq. by rewrite fupd_ne.
    + by apply (rel_bits _ _ _ Hrel _ _ _ Hp).
    + intros r2 [= <-]. by rewrite fupd_eq.
  - by apply coalesced_insert; [done|lia|..].
  - intros q j Hq. destruct (decide (q = p)) as [->|]; [by rewrite lookup_insert_eq in Hq|].
    rewrite lookup_insert_ne in Hq by done. by apply (Hnh q j).
  - intros x. rewrite (free_page_same B p k (Used r) (Used r')) by done. apply HA.
  - by rewrite users_take, HA'.
Qed.

(** What the record of a block in use says. *)
Lemma used_block s A p k r : page_repr max s A -> ps_used A !! p = Some (k, r) ->
  block_ok max p k /\ pg_ref s p = r /\ 0 < r < 2 ^ 32 /\ pg_bits s p = ARCH_ADDRESS_WIDTH_BITS.
Proof.
  intros (B & (Hrel & Hwf & _) & _ & HA') Hp. rewrite HA', lookup_users in Hp.
  split; [by apply (wf_ok _ _ Hwf _ _ _ Hp)|]. destruct (rel_refs _ _ _ Hrel _ _ _ Hp) as [? ?].
  split; [done|]. split; [done|]. by apply (rel_bits _ _ _ Hrel _ _ _ Hp).
Qed.

Lemma users_delete B p k st : (forall r, st <> Used r) -> users (<[p := (k, st)]> B) = delete p (users B).
Proof.
  intros Hst. apply map_eq. intros q. apply option_eq. intros [j r]. rewrite lookup_users.
  destruct (decide (q = p)) as [->|].
  - rewrite lookup_insert_eq, lookup_delete_eq. split; [|done]. intros [= _ E]. by destruct (Hst r).
  - rewrite lookup_insert_ne, lookup_delete_ne by done. by rewrite lookup_users.
Qed.

(** The last holder leaves: the block is joined with its free buddies. *)
Lemma give_wp s A p k (Q : Z -> pages -> Prop) : page_repr max s A -> ps_used A !! p = Some (k, 1) ->
  (forall s' A', spec_give A p k A' -> page_repr max s' A' -> Q 1 s') ->
  wp (r ← free_loop max pv (S (Z.to_nat max)) page_list_low p k; _page_insert max page_list_low r.1 r.2;; mret 1) Q (set_pg_ref p 0 s).
Proof.
  intros (B & Hst & HA & HA') Hp HQ. pose proof Hst as (Hrel & Hwf & Hco & Hnh). rewrite HA', lookup_users in Hp.
  assert (Hh : holding max (set_pg_ref p 0 s) (<[p := (k, Held)]> B) p k).
  { apply (state_hold max s _ B p k (Used 1)); [done..|]. apply (rel_status max s _ B p k (Used 1) Held); try done.
    intros q Hq. simpl. by rewrite fupd_ne. }
  wp_step. eapply wp_mono; [eapply (free_loop_wp max Hmax pv Hpv); [|exact Hh]|].
  { pose proof (wf_ok _ _ Hwf _ _ _ Hp) as (? & _). lia. }
  intros [q j] s1 (B1 & Hh1 & Hu1 & Hc1 & Hf1). simpl in *. pose proof (hd_held _ _ _ _ _ Hh1) as Hq.
  pose proof (wf_ok _ _ (hd_wf _ _ _ _ _ Hh1) _ _ _ Hq) as (Hj & _).
  wp_step. apply (pages_insert_wp max Hmax s1 B1); [apply Hh1|done|done|]. intros s2 Hrel2. wp_step.
  eapply (HQ s2 (mk_page_spec (free_page (<[q := (j, Free)]> B1)) (users (<[q := (j, Free)]> B1)))).
  - split; simpl.
    + intros x. rewrite (free_page_insert max B1 q j Held) by (done || apply Hh1). rewrite Hf1, HA.
      by rewrite (free_page_same B p k (Used 1) Held).
    + rewrite users_insert by (done || rewrite Hq; congruence). by rewrite Hu1, users_delete, HA' by done.
  - eexists. split; [|done]. apply (hold_state max s1 s2 B1 q j Free); auto.
Qed.

(** ** Sequences of requests *)

Context (record_mapped : Z -> bool).

(** What the clients hold: the order and the number of holders of each of their blocks, by the
    address they were given. *)
Inductive pages_step : pages * gmap Z (Z * Z) -> pages * gmap Z (Z * Z) -> Prop :=
  | ps_alloc s s' U k flags addr : 0 <= k < max -> rt_pages_alloc_ext max pv k flags s = Some (addr, s') ->
      pages_step (s, U) (s', if decide (addr = 0) then U else <[addr := (k, 1)]> U)
  | ps_share s s' U addr k r : U !! addr = Some (k, r) -> r + 1 < 2 ^ 32 ->
      rt_page_ref_inc pv addr k s = Some (tt, s') -> pages_step (s, U) (s', <[addr := (k, r + 1)]> U)
  | ps_free_ s s' U addr k r n : U !! addr = Some (k, r) -> rt_pages_free max pv record_mapped addr k s = Some (n, s') ->
      pages_step (s, U) (s', if decide (n = 1) then delete addr U else <[addr := (k, r - 1)]> U).

Lemma get_page_list_low a : _get_page_list pv a = page_list_low.
Proof. unfold _get_page_list. case_bool; [|done]. pose proof (u32_range (a + pv)). lia. Qed.

Lemma free_wp s A p k r : page_repr max s A -> ps_used A !! p = Some (k, r) -> record_mapped p = true ->
  wp (rt_pages_free max pv record_mapped (page_to_addr pv p) k) (fun n s' => exists A', page_repr max s' A' /\
    (r = 1 /\ n = 1 /\ spec_give A p k A' \/
     1 < r /\ n = 0 /\ A' = mk_page_spec (ps_free A) (<[p := (k, r - 1)]> (ps_used A)))) s.
Proof.
  intros Hr Hp Hm. destruct (used_block s A p k r Hr Hp) as ((Hk & Hd & Hp0 & He) & Href & Hr0 & Hb). pose proof (pow_pos k ltac:(lia)).
  unfold rt_pages_free. rewrite get_page_list_low, (addr_page max Hmax pv Hpv) by lia. unfold _pages_free.
  do 2 wp_step; [by apply Z.leb_le|]. do 2 wp_step; [apply Z.ltb_lt; lia|]. do 2 wp_step; [done|]. do 2 wp_step.
  do 2 wp_step; [apply Z.ltb_lt; lia|]. do 2 wp_step; [by apply Z.eqb_eq|]. do 2 wp_step; [apply Z.ltb_lt; lia|].
  do 2 wp_step. rewrite Href. destruct (Z.eqb_spec (r - 1) 0) as [E|E]; simpl.
  - assert (r = 1) as -> by lia. apply (give_wp s A p k); [done|done|]. eauto 10.
  - wp_step. eexists. split; [apply (set_ref_repr s A p k r (r - 1)); [done|done|lia]|]. right. split; [lia|done].
Qed.

Lemma ref_inc_wp s A p k r x : page_repr max s A -> ps_used A !! p = Some (k, r) -> r + 1 < 2 ^ 32 -> in_block p k x ->
  wp (rt_page_ref_inc pv (page_to_addr pv x) k)
    (fun _ s' => page_repr max s' (mk_page_spec (ps_free A) (<[p := (k, r + 1)]> (ps_used A)))) s.
Proof.
  intros Hr Hp Hlt Hx. destruct (used_block s A p k r Hr Hp) as ((Hk & Hd & Hp0 & He) & Href & Hr0 & Hb). unfold in_block in Hx.
  unfold rt_page_ref_inc, _pages_ref_inc. rewrite (addr_page max Hmax pv Hpv) by lia.
  rewrite (group_head_block p k x) by (done || lia). wp_step. rewrite Href, u32_id by lia.
  by apply (set_ref_repr s A p k r (r + 1)); [..|lia].
Qed.

Lemma used_apart s A p k r q j r' x : page_repr max s A -> ps_used A !! p = Some (k, r) -> ps_used A !! q = Some (j, r') ->
  in_block p k x -> in_block q j x -> p = q.
Proof.
  intros (B & (_ & Hwf & _) & _ & HA') Hp Hq. rewrite HA', !lookup_users in *. by apply (block_unique max B p k _ q j _ x Hwf Hp Hq).
Qed.

Lemma used_not_free s A p k r x : page_repr max s A -> ps_used A !! p = Some (k, r) -> in_block p k x -> ~ ps_free A x.
Proof.
  intros (B & (_ & Hwf & _) & HA & HA') Hp Hin (q & j & Hq & Hin')%HA. rewrite HA', lookup_users in Hp.
  pose proof (block_unique max B p k _ q j _ x Hwf Hp Hq Hin Hin') as ->. congruence.
Qed.

(** What the clients hold is in use, and was free at first. *)
Definition clients (A0 A : page_spec) (U : gmap Z (Z * Z)) : Prop :=
  (forall y, ps_free A y -> ps_free A0 y) /\
  forall addr k r, U !! addr = Some (k, r) -> exists p, addr = page_to_addr pv p /\ ps_used A !! p = Some (k, r) /\
    forall y, in_block p k y -> ps_free A0 y.

(** The clients' blocks after one block of theirs is given a new entry, or none. *)
Lemma clients_insert A0 A A' U p k r : clients A0 A U -> ps_used A' = <[p := (k, r)]> (ps_used A) ->
  (forall y, ps_free A' y -> ps_free A0 y) -> (forall y, in_block p k y -> ps_free A0 y) ->
  clients A0 A' (<[page_to_addr pv p := (k, r)]> U).
Proof.
  intros [_ HU] Hu Hf Hp. split; [done|]. intros addr j r'. destruct (decide (addr = page_to_addr pv p)) as [->|Hne].
  - rewrite lookup_insert_eq. intros [= <- <-]. exists p. by rewrite Hu, lookup_insert_eq.
  - rewrite lookup_insert_ne by done. intros (q & -> & Hq & Hin)%HU. exists q.
    rewrite Hu, lookup_insert_ne by congruence. done.
Qed.

Lemma clients_delete A0 A A' U p : clients A0 A U -> ps_used A' = delete p (ps_used A) ->
  (forall y, ps_free A' y -> ps_free A0 y) -> clients A0 A' (delete (page_to_addr pv p) U).
Proof.
  intros [_ HU] Hu Hf. split; [done|]. intros addr j r'. destruct (decide (addr = page_to_addr pv p)) as [->|Hne]; [by rewrite lookup_delete_eq|].
  rewrite lookup_delete_ne by done. intros (q & -> & Hq & Hin)%HU. exists q. rewrite Hu, lookup_delete_ne by congruence. done.
Qed.

Lemma free_mapped addr k s x : rt_pages_free max pv record_mapped addr k s = Some x -> record_mapped (addr_to_page pv addr) = true.
Proof.
  unfold rt_pages_free, _pages_free, mbind, M_bind, RT_ASSERT. set (p := addr_to_page pv addr).
  destruct (record_mapped p); [done|]. by destruct (0 <=? p), (p <? 2 ^ 20).
Qed.

Lemma clients_step A0 A x y : page_repr max x.1 A -> clients A0 A x.2 -> pages_step x y ->
  exists A', page_repr max y.1 A' /\ clients A0 A' y.2.
Proof.
  intros Hr Hc Hst. pose proof Hc as [Hc1 Hc2]. destruct Hst as [s s' U k flags addr Hk E|s s' U addr k r HU Hlt E|s s' U addr k r n HU E]; simpl in *.
  - pose proof (wp_elim _ _ _ _ _ (do_pages_alloc_wp s A k flags Hr Hk) E) as [(p & A' & -> & [Hd Hp Hwere Hf Hu] & Hr')|(-> & -> & _)].
    + exists A'. split; [done|]. assert (forall z, ps_free A' z -> ps_free A0 z) by (intros z [? _]%Hf; auto).
      case_decide; [|by apply (clients_insert A0 A); auto]. split; [done|]. intros a j r (q & -> & Hq & Hin)%Hc2. exists q.
      rewrite Hu, lookup_insert_ne; [done|]. intros <-. pose proof (used_block s A p j r Hr Hq) as ((Hj & _) & _).
      pose proof (pow_pos j ltac:(lia)). pose proof (pow_pos k ltac:(lia)).
      apply (used_not_free s A p j r p Hr Hq); [|apply Hwere]; unfold in_block; lia.
    + exists A. by rewrite decide_True.
  - destruct (Hc2 _ _ _ HU) as (p & -> & Hp & Hin). destruct (used_block s A p k r Hr Hp) as ((Hk & _) & _).
    pose proof (pow_pos k ltac:(lia)). assert (Hpp : in_block p k p) by (unfold in_block; lia).
    pose proof (wp_elim _ _ _ _ _ (ref_inc_wp s A p k r p Hr Hp Hlt Hpp) E) as Hr'.
    eexists. split; [exact Hr'|]. by apply (clients_insert A0 A).
  - destruct (Hc2 _ _ _ HU) as (p & -> & Hp & Hin). pose proof (free_mapped _ _ _ _ E) as Hm.
    destruct (used_block s A p k r Hr Hp) as ((Hk & _ & Hp0 & He) & _). pose proof (pow_pos k ltac:(lia)).
    rewrite (addr_page max Hmax pv Hpv) in Hm by lia.
    pose proof (wp_elim _ _ _ _ _ (free_wp s A p k r Hr Hp Hm) E) as (A' & Hr' & [(-> & -> & [Hf Hu])|(Hlt & -> & ->)]).
    + exists A'. split; [done|]. simpl. apply (clients_delete A0 A); [done|done|]. intros z [?|?]%Hf; auto.
    + eexists. split; [exact Hr'|]. by apply (clients_insert A0 A).
Qed.
End ops.

(** * The properties *)

(** C33: A request for 2^k pages is answered with the address of 2^k aligned pages that were
    free; they are in use with one holder, and all other pages are as before.  The answer is
    NULL only when no aligned range of 2^k free pages exists, and then nothing changed. *)
Theorem pages_alloc_refines max pv s A k flags : 1 <= max <= 21 -> (2 ^ (max + 11) | pv) -> page_repr max s A -> 0 <= k < max ->
  wp (rt_pages_alloc_ext max pv k flags) (fun addr s' =>
    (exists p A', addr = page_to_addr pv p /\ spec_take A p k A' /\ page_repr max s' A') \/
    addr = 0 /\ s' = s /\ spec_full A k) s.
Proof. intros Hmax Hpv Hr Hk. exact (do_pages_alloc_wp max Hmax pv Hpv s A k flags Hr Hk). Qed.

(** C34: A holder can be added with the address of any page of a block in use, and the number of
    holders can be read the same way.  A release with more than one holder takes one away; the
    last one makes exactly the pages of the block free, joined with their free buddies. *)
Theorem pages_free_refines max pv record_mapped s A p k r x : 1 <= max <= 21 -> (2 ^ (max + 11) | pv) -> page_repr max s A ->
  ps_used A !! p = Some (k, r) -> record_mapped p = true -> in_block p k x ->
  rt_page_ref_get pv (page_to_addr pv x) k s = r /\
  (r + 1 < 2 ^ 32 -> wp (rt_page_ref_inc pv (page_to_addr pv x) k)
    (fun _ s' => page_repr max s' (mk_page_spec (ps_free A) (<[p := (k, r + 1)]> (ps_used A)))) s) /\
  wp (rt_pages_free max pv record_mapped (page_to_addr pv p) k) (fun n s' => exists A', page_repr max s' A' /\
    (r = 1 /\ n = 1 /\ spec_give A p k A' \/
     1 < r /\ n = 0 /\ A' = mk_page_spec (ps_free A) (<[p := (k, r - 1)]> (ps_used A)))) s.
Proof.
  intros Hmax Hpv Hr Hp Hm Hx. pose proof (used_block max s A p k r Hr Hp) as ((Hk & Hd & Hp0 & He) & Href & _). split; [|split].
  - unfold rt_page_ref_get, _pages_ref_get. unfold in_block in Hx. rewrite (addr_page max Hmax pv Hpv) by lia.
    by rewrite (group_head_block p k x) by (done || lia).
  - intros Hlt. by apply (ref_inc_wp max Hmax pv Hpv).
  - by apply (free_wp max Hmax pv Hpv).
Qed.

(** C35: However the clients request, share and release blocks, the blocks they hold at any
    time are aligned, have no page in common, and consist of pages that were free at first. *)
Theorem page_blocks_apart max pv record_mapped s0 A0 s U : 1 <= max <= 21 -> (2 ^ (max + 11) | pv) -> page_repr max s0 A0 ->
  rtc (pages_step max pv record_mapped) (s0, ∅) (s, U) ->
  (forall addr k r, U !! addr = Some (k, r) -> let p := addr_to_page pv addr in
    addr = page_to_addr pv p /\ (2 ^ k | p) /\ 0 < r /\ forall x, in_block p k x -> ps_free A0 x) /\
  forall addr addr' k r k' r' x, U !! addr = Some (k, r) -> U !! addr' = Some (k', r') -> addr <> addr' ->
    ~ (in_block (addr_to_page pv addr) k x /\ in_block (addr_to_page pv addr') k' x).
Proof.
  intros Hmax Hpv Hr Hsteps.
  assert (G : exists A, page_repr max s A /\ clients pv A0 A U).
  { assert (G0 : exists A, page_repr max (s0, (∅ : gmap Z (Z * Z))).1 A /\ clients pv A0 A (s0, (∅ : gmap Z (Z * Z))).2).
    { exists A0. split; [done|]. split; [done|]. intros addr k r E. simpl in E. by rewrite lookup_empty in E. }
    change s with (s, U).1. change U with (s, U).2 at 2. induction Hsteps as [|x y z Hxy _ IH]; [done|].
    destruct G0 as (A & HA & Hc). apply IH. by apply (clients_step max Hmax pv Hpv record_mapped A0 A x y). }
  destruct G as (A & HA & _ & HU).
  assert (Ha : forall addr k r, U !! addr = Some (k, r) -> exists p, addr_to_page pv addr = p /\ addr = page_to_addr pv p /\
    ps_used A !! p = Some (k, r) /\ (2 ^ k | p) /\ 0 < r /\ forall y, in_block p k y -> ps_free A0 y).
  { intros addr k r (p & -> & Hp & Hin)%HU. destruct (used_block max s A p k r HA Hp) as ((Hk & ? & ? & ?) & _ & ? & _).
    pose proof (pow_pos k ltac:(lia)). exists p. rewrite (addr_page max Hmax pv Hpv) by lia. split_and!; auto; lia. }
  split.
  - intros addr k r (p & Ep & -> & Hp & Hd & Hr0 & Hin)%Ha. cbv zeta. by rewrite Ep.
  - intros addr addr' k r k' r' x (p & Ep & -> & Hp & _)%Ha (q & Eq & -> & Hq & _)%Ha Hne [H1 H2]. rewrite Ep in H1. rewrite Eq in H2.
    apply Hne. f_equal. by apply (used_apart max s A p k r q k' r' x).
Qed.

(** C36: [rt_page_install] of a region of whole pages below 4 GiB, where PV_OFFSET is a
    multiple of the largest block and the mapping of the page records succeeds, when the
    allocator has no block yet in the ranges of the largest order that the region touches
    ([untouched]), makes exactly its pages free, with no two free buddies; no page outside
    becomes free, and the blocks in use stay. Inside these ranges the region may start and end
    at any page; mm_page.h asks for a size that is a multiple of the largest block, which rules
    out that two regions share a range. When they do, the free blocks of the first are marked
    as not free (line 719), and the theorem says nothing. *)
Theorem rt_page_install_refines max pv m a b fuel s B : 1 <= max <= 21 -> pv = m * 2 ^ 12 -> (2 ^ (max - 1) | m) ->
  0 <= low_end max a -> m < a < b -> high_end max b < 2 ^ 20 -> high_end max b - m < 2 ^ 20 ->
  pages_state max s B -> untouched max a b B -> high_end max b - low_end max a < Z.of_nat fuel ->
  wp (rt_page_install max pv fuel RT_EOK (page_to_addr pv a) (page_to_addr pv b)) (fun err s' => err = RT_EOK /\
    exists B', pages_state max s' B' /\ users B' = users B /\ forall x, free_page B' x <-> free_page B x \/ a <= x < b) s.
Proof.
  intros Hmax Hpv Hm H0 Hab H1 H2 Hst Hun Hfuel. pose proof (ends max Hmax a b) as (He1 & He2 & _).
  assert (Hland : forall z, Z.land (z * 2 ^ 12) ARCH_PAGE_MASK = 0).
  { intros z. change ARCH_PAGE_MASK with (Z.ones 12). rewrite Z.land_ones by lia. by apply Z.mod_mul. }
  assert (Hne : page_to_addr pv b <> page_to_addr pv a).
  { rewrite !(low_addr m pv Hpv) by (done || lia). lia. }
  unfold rt_page_install. rewrite (proj2 (Z.eqb_neq _ _) Hne). rewrite !(page_to_addr_eq pv m), !Hland by done.
  rewrite <- !(page_to_addr_eq pv m) by done. simpl. do 2 wp_step. wp_step.
  eapply wp_mono; [by apply (install_wp max Hmax m a b pv Hpv Hm ltac:(lia) fuel s _ B)|].
  intros u s' H. wp_step. done.
Qed.

(** C39: [rt_page_bits] gives the smallest order that holds a number of bytes, for every
    32-bit number other than 0. *)
Theorem rt_page_bits_least size : 0 < size < 2 ^ 32 -> let k := rt_page_bits size in
  0 <= k <= 20 /\ size <= 2 ^ (k + 12) /\ (k = 0 \/ 2 ^ (k + 11) < size).
Proof.
  intros Hs. cbv zeta. unfold rt_page_bits, rt_hw_clz. change ARCH_PAGE_SHIFT with 12.
  replace (32 - (31 - Z.log2 size) - 1) with (Z.log2 size) by lia. set (g := Z.log2 size).
  pose proof (Z.log2_spec size ltac:(lia)) as [Hg1 Hg2]. fold g in Hg1, Hg2. rewrite <- Z.add_1_r in Hg2.
  assert (Hg : 0 <= g <= 31).
  { split; [apply Z.log2_nonneg|]. enough (g < 32) by lia. apply Z.log2_lt_pow2; lia. }
  rewrite Z.shiftl_1_l. assert (Hx : Z.lxor size (2 ^ g) = 0 <-> size = 2 ^ g) by apply Z.lxor_eq_0_iff.
  assert (Hlow : forall j, j < 12 -> 2 ^ j <= 2 ^ 12).
  { intros j Hj. destruct (Z_lt_le_dec j 0); [by rewrite Z.pow_neg_r|]. apply Z.pow_le_mono_r; lia. }
  destruct (Z.eqb_spec (Z.lxor size (2 ^ g)) 0) as [E|E]; simpl negb; cbv iota zeta.
  - apply Hx in E. destruct (Z.ltb_spec (g - 12) 0).
    + change (0 + 12) with 12. pose proof (Hlow g ltac:(lia)). lia.
    + replace (g - 12 + 12) with g by lia. replace (g - 12 + 11) with (g - 1) by lia.
      assert (2 ^ g = 2 * 2 ^ (g - 1)) by (rewrite <- Z.pow_succ_r by lia; f_equal; lia). pose proof (pow_pos (g - 1)). lia.
  - assert (size <> 2 ^ g) by tauto. destruct (Z.ltb_spec (g + 1 - 12) 0).
    + change (0 + 12) with 12. pose proof (Hlow (g + 1) ltac:(lia)). lia.
    + replace (g + 1 - 12 + 12) with (g + 1) by lia. replace (g + 1 - 12 + 11) with g by lia. lia.
Qed.

(** * One block of 1024 pages, the first of them page 1024 *)

Definition no_pages : pages := mk_pages (fun _ => None) (fun _ => None) (fun _ => 0) (fun _ => 0) (fun _ _ => None) 0 0 false.
Definition free_pages : pages := set_page_list page_list_low 10 (Some 1024) (set_pg_bits 1024 10 no_pages).
Definition used_pages : pages := set_pg_ref 1024 1 (set_pg_bits 1024 ARCH_ADDRESS_WIDTH_BITS no_pages).

Lemma no_pages_state : pages_state 11 no_pages ∅.
Proof.
  split; [|split; [|split; [by intros p k Hp|by intros q j]]].
  - split; try by intros. intros k Hk. exists []. split; [done|]. split; [constructor|]. intros p. split; [|done].
    intros Hp. by apply not_elem_of_nil in Hp.
  - split; by intros.
Qed.

Lemma one_block_wf st : st <> Held -> blocks_wf 11 {[1024 := (10, st)]} /\ coalesced 11 {[1024 := (10, st)]} /\
  forall q j, ({[1024 := (10, st)]} : blocks) !! q <> Some (j, Held).
Proof.
  intros Hst. split; [split|split].
  - intros p k st' [<- [= <- <-]]%lookup_singleton_Some. split; [done|]. split; [by exists 1|done].
  - intros p k st' q j st'' [<- _]%lookup_singleton_Some [<- _]%lookup_singleton_Some. done.
  - intros p k st' q [<- [= <- <-]]%lookup_singleton_Some Hq. exists 1024, 10, st. split; [apply lookup_singleton_eq|].
    unfold in_block. change (11 - 1) with 10 in Hq. change (1024 / 2 ^ 10) with 1 in Hq. Z.to_euclidean_division_equations. lia.
  - intros p k [<- [= <- _]]%lookup_singleton_Some. done.
  - intros q j [_ [= _ E]]%lookup_singleton_Some. done.
Qed.

Lemma free_pages_repr : page_repr 11 free_pages (mk_page_spec (fun x => 1024 <= x < 2048) ∅).
Proof.
  exists {[1024 := (10, Free)]}. split; [|split].
  - split; [|by apply one_block_wf]. split.
    + intros k Hk. destruct (decide (k = 10)) as [->|Hne].
      * exists [1024]. split; [done|]. split; [apply NoDup_singleton|]. intros p.
        rewrite list_elem_of_singleton, lookup_singleton_Some. naive_solver.
      * exists []. split; [split; [|done]|]; [unfold free_pages; simpl; rewrite fupd_eq, fupd_ne; done|].
        split; [constructor|]. intros p. rewrite lookup_singleton_Some. split; [intros H; by apply not_elem_of_nil in H|naive_solver].
    + by intros p k st [<- [= <- <-]]%lookup_singleton_Some.
    + by intros p k r [_ [=]]%lookup_singleton_Some.
    + done.
  - intros x. simpl. split.
    + intros Hx. by exists 1024, 10.
    + by intros (p & k & [<- [= <-]]%lookup_singleton_Some & ?).
  - apply map_eq. intros q. apply option_eq. intros [j r]. rewrite lookup_users, lookup_singleton_Some. simpl. rewrite lookup_empty. naive_solver.
Qed.

Lemma used_pages_repr : page_repr 11 used_pages (mk_page_spec (fun _ => False) {[1024 := (10, 1)]}).
Proof.
  exists {[1024 := (10, Used 1)]}. split; [|split].
  - split; [|by apply one_block_wf]. split.
    + intros k Hk. exists []. split; [done|]. split; [constructor|]. intros p. rewrite lookup_singleton_Some.
      split; [intros H; by apply not_elem_of_nil in H|naive_solver].
    + by intros p k st [<- [= <- <-]]%lookup_singleton_Some.
    + by intros p k r [<- [= <- <-]]%lookup_singleton_Some.
    + done.
  - intros x. simpl. split; [done|]. by intros (p & k & [_ [=]]%lookup_singleton_Some & _).
  - apply map_eq. intros q. apply option_eq. intros [j r]. rewrite lookup_users. simpl. rewrite !lookup_singleton_Some. naive_solver.
Qed.

Lemma pages_alloc_refines_witness : wp (rt_pages_alloc_ext 11 0 3 0) (fun addr s' =>
  (exists p A', addr = page_to_addr 0 p /\ spec_take (mk_page_spec (fun x => 1024 <= x < 2048) ∅) p 3 A' /\ page_repr 11 s' A') \/
  addr = 0 /\ s' = free_pages /\ spec_full (mk_page_spec (fun x => 1024 <= x < 2048) ∅) 3) free_pages.
Proof. apply (pages_alloc_refines 11 0); [lia|apply Z.divide_0_r|exact free_pages_repr|lia]. Defined.

Lemma pages_free_refines_witness : rt_page_ref_get 0 (page_to_addr 0 1030) 10 used_pages = 1.
Proof.
  assert (Hu : ps_used (mk_page_spec (fun _ => False) {[1024 := (10, 1)]}) !! 1024 = Some (10, 1)) by apply lookup_singleton_eq.
  assert (Hin : in_block 1024 10 1030) by (unfold in_block; change (2 ^ 10) with 1024; lia).
  exact (proj1 (pages_free_refines 11 0 (fun _ => true) used_pages _ 1024 10 1 1030 ltac:(lia) (Z.divide_0_r _) used_pages_repr Hu eq_refl Hin)).
Defined.

Lemma run_eq {A} (m : M pages A) s a : fst <$> m s = Some a -> m s = Some (a, run m s).
Proof. unfold run. destruct (m s) as [[a' s']|]; simpl; congruence. Qed.

Lemma two_page_blocks : exists s1 s2, rt_pages_alloc_ext 11 0 3 0 free_pages = Some (8355840, s1) /\
  rt_pages_alloc_ext 11 0 3 0 s1 = Some (8323072, s2).
Proof.
  exists (run (rt_pages_alloc_ext 11 0 3 0) free_pages), (run (rt_pages_alloc_ext 11 0 3 0) (run (rt_pages_alloc_ext 11 0 3 0) free_pages)).
  split; apply run_eq; vm_compute; reflexivity.
Qed.

(** Two blocks of 8 pages are taken out of the block of 1024. *)
Lemma page_blocks_apart_witness : exists s U, rtc (pages_step 11 0 (fun _ => true)) (free_pages, ∅) (s, U) /\
  U !! 8355840 = Some (3, 1) /\ U !! 8323072 = Some (3, 1) /\
  ~ (in_block (addr_to_page 0 8355840) 3 2040 /\ in_block (addr_to_page 0 8323072) 3 2040).
Proof.
  destruct two_page_blocks as (s1 & s2 & E1 & E2).
  set (U := <[8323072 := (3, 1)]> (<[8355840 := (3, 1)]> (∅ : gmap Z (Z * Z)))).
  assert (Hs : rtc (pages_step 11 0 (fun _ => true)) (free_pages, ∅) (s2, U)).
  { eapply rtc_l; [exact (ps_alloc 11 0 _ free_pages s1 ∅ 3 0 8355840 ltac:(lia) E1)|].
    apply rtc_once. exact (ps_alloc 11 0 _ s1 s2 _ 3 0 8323072 ltac:(lia) E2). }
  assert (U1 : U !! 8355840 = Some (3, 1)) by (unfold U; by rewrite lookup_insert_ne, lookup_insert_eq).
  assert (U2 : U !! 8323072 = Some (3, 1)) by (unfold U; by rewrite lookup_insert_eq).
  exists s2, U. split; [exact Hs|]. split; [exact U1|]. split; [exact U2|].
  exact (proj2 (page_blocks_apart 11 0 _ _ _ s2 U ltac:(lia) (Z.divide_0_r _) free_pages_repr Hs) _ _ _ _ _ _ _ U1 U2 ltac:(done)).
Defined.

Lemma rt_page_install_refines_witness : wp (rt_page_install 11 0 (Z.to_nat 2000) RT_EOK (page_to_addr 0 1024) (page_to_addr 0 1027))
  (fun err s' => err = RT_EOK /\ exists B', pages_state 11 s' B' /\ users B' = users ∅ /\
    forall x, free_page B' x <-> free_page ∅ x \/ 1024 <= x < 1027) no_pages.
Proof.
  apply (rt_page_install_refines 11 0 0 1024 1027); try done; [by exists 0|exact no_pages_state].
Defined.

Lemma rt_page_bits_least_witness : rt_page_bits 5000 = 1 /\ 5000 <= 2 ^ (rt_page_bits 5000 + 12).
Proof. split; [reflexivity|]. apply (rt_page_bits_least 5000). lia. Defined.
