(* ===== verification/MemBlock.v ===== *)
(** The memory blocks of start-up, components/mm/mm_memblock.c: regions of physical memory and
    of reserved memory in two singly linked lists, and the regions that are left for the page
    allocator.  The records of all regions are in one array. *)
From S2P Require Import Prelude SList AspaceUnmap Buddy.
#[local] Open Scope Z_scope.

Definition MEMBLOCK_NONE : Z := 0.
Definition PHYS_ADDR_MAX : Z := 2 ^ 32 - 1.

(** [mmblk_memory] and [mmblk_reserved]. *)
Inductive mb_id := Memory | ReservedMemory.
#[global] Instance mb_id_eq_dec : EqDecision mb_id.
Proof. solve_decision. Defined.

(** List nodes: the heads, and the node of the record with index [i] in [_regions]. *)
Inductive mb_node := Head (l : mb_id) | Reg (i : nat).
#[global] Instance mb_node_eq_dec : EqDecision mb_node.
Proof. solve_decision. Defined.

(** [struct rt_mmblk_reg] of every node.  A head has no record; what the fields of one are for
    a head is what memory in front of it holds. *)
Record memblock := mk_memblock {
  mb_links : snodes mb_node; mb_start : mb_node -> Z; mb_end : mb_node -> Z; mb_flags : mb_node -> Z;
  mb_alloc : nat -> bool; hint_idx : nat }.

Definition set_mb_links h s := mk_memblock h (mb_start s) (mb_end s) (mb_flags s) (mb_alloc s) (hint_idx s).
Definition set_mb_reg n a b f s := mk_memblock (mb_links s) (fupd n a (mb_start s)) (fupd n b (mb_end s)) (fupd n f (mb_flags s)) (mb_alloc s) (hint_idx s).
Definition set_mb_end n b s := mk_memblock (mb_links s) (mb_start s) (fupd n b (mb_end s)) (mb_flags s) (mb_alloc s) (hint_idx s).
Definition set_mb_flags n f s := mk_memblock (mb_links s) (mb_start s) (mb_end s) (fupd n f (mb_flags s)) (mb_alloc s) (hint_idx s).
Definition set_mb_alloc i b s := mk_memblock (mb_links s) (mb_start s) (mb_end s) (mb_flags s) (fupd i b (mb_alloc s)) (hint_idx s).
Definition set_hint_idx i s := mk_memblock (mb_links s) (mb_start s) (mb_end s) (mb_flags s) (mb_alloc s) i.

Section memblock.
(** [RT_INIT_MEMORY_REGIONS]. *)
Context (max_regions : nat).

Definition _next_region (prev : option mb_node) s : option mb_node :=
  prev ← prev; mb_links s prev.

(** The first free record of index [i], [i + 1], ... of [n] records. *)
Fixpoint find_free_reg (n i : nat) s : option nat :=
  match n with
  | O => None
  | S n => if mb_alloc s i then find_free_reg n (S i) s else Some i
  end.

Definition take_memreg (prev : mb_node) (i : nat) : M memblock (option mb_node) :=
  modify (fun s => set_mb_links (rt_slist_insert prev (Reg i) (mb_links s)) s);;
  modify (set_mb_alloc i true);;
  modify (set_hint_idx (S i));;
  mret (Some (Reg i)).

Definition _alloc_memreg (prev : mb_node) : M memblock (option mb_node) :=
  s ← get;
  match find_free_reg (max_regions - hint_idx s) (hint_idx s) s with
  | Some i => take_memreg prev i
  | None =>
    match find_free_reg (hint_idx s) 0 s with
    | Some i => take_memreg prev i
    | None => mret None
    end
  end.

Definition reg_index (n : mb_node) : option nat := match n with Reg i => Some i | Head _ => None end.

Definition _free_memreg (prev : mb_node) : M memblock unit :=
  s ← get;
  next ← deref (_next_region (Some prev) s);
  i ← deref (reg_index next);
  modify (set_mb_alloc i false);;
  s ← get;
  h ← deref (rt_slist_remove (S (S max_regions)) prev next (mb_links s));
  modify (set_mb_links h).

Definition _reg_insert_after (prev : mb_node) (start end_ flags : Z) : M memblock Z :=
  new_reg ← _alloc_memreg prev;
  match new_reg with
  | None => mret (- RT_ENOMEM)
  | Some n => modify (set_mb_reg n start end_ flags);; mret RT_EOK
  end.

(** The search for a place: [None] for an overlap, else the node to insert behind. *)
Fixpoint place_loop (fuel : nat) (reg : mb_node) (start end_ : Z) s : option (option mb_node) :=
  match fuel with
  | O => None
  | S fuel =>
    match _next_region (Some reg) s with
    | None => Some (Some reg)
    | Some reg_next =>
      if end_ <=? mb_start s reg_next then Some (Some reg)
      else if mb_end s reg_next <=? start then place_loop fuel reg_next start end_ s
      else Some None
    end
  end.

Definition _memblock_add_range (l : mb_id) (start end_ flag : Z) : M memblock Z :=
  if end_ <=? start then mret (- RT_EINVAL)
  else
    s ← get;
    reg ← deref (place_loop (S max_regions) (Head l) start end_ s);
    match reg with
    | None => mret (- RT_EINVAL)
    | Some reg => _reg_insert_after reg start end_ flag
    end.

Definition rt_memblock_add_memory (start end_ flags : Z) : M memblock Z := _memblock_add_range Memory start end_ flags.
Definition rt_memblock_reserve_memory (start end_ flags : Z) : M memblock Z := _memblock_add_range ReservedMemory start end_ flags.

(** The loop of [_memblock_separate_range]: the error, [*start_reg] and [*end_reg]. *)
Fixpoint separate_loop (fuel : nat) (reg : option mb_node) (start end_ : Z) (start_reg end_reg : option mb_node)
    : M memblock (Z * option mb_node * option mb_node) :=
  match fuel with
  | O => fun _ => None
  | S fuel =>
    match reg with
    | None => mret (RT_EOK, start_reg, end_reg)
    | Some reg =>
      s ← get;
      let rend := mb_end s reg in
      if end_ <=? mb_start s reg then mret (RT_EOK, start_reg, end_reg)
      else if rend <=? start then separate_loop fuel (_next_region (Some reg) s) start end_ start_reg end_reg
      else if mb_start s reg <? start then
        err ← _reg_insert_after reg start rend (mb_flags s reg);
        if decide (err <> RT_EOK) then mret (err, start_reg, end_reg)
        else
          modify (set_mb_end reg start);;
          s ← get;
          let start_reg := _next_region (Some reg) s in
          separate_loop fuel (_next_region (Some reg) s) start end_ start_reg (_next_region start_reg s)
      else if end_ <? rend then
        err ← _reg_insert_after reg end_ rend (mb_flags s reg);
        if decide (err <> RT_EOK) then mret (err, start_reg, end_reg)
        else
          modify (set_mb_end reg end_);;
          s ← get;
          mret (err, start_reg, _next_region (Some reg) s)
      else
        let start_reg := match end_reg with None => Some reg | Some _ => start_reg end in
        separate_loop fuel (_next_region (Some reg) s) start end_ start_reg (_next_region (Some reg) s)
    end
  end.

Definition _memblock_separate_range (l : mb_id) (start end_ : Z) : M memblock (Z * option mb_node * option mb_node) :=
  s ← get;
  separate_loop (S (S (2 * max_regions))) (mb_links s (Head l)) start end_ None None.

Fixpoint set_flag_loop (fuel : nat) (iter end_reg : option mb_node) (flags : Z) : M memblock unit :=
  match fuel with
  | O => fun _ => None
  | S fuel =>
    if decide (iter = end_reg) then mret tt
    else
      n ← deref iter;
      modify (fun s => set_mb_flags n (Z.lor (mb_flags s n) flags) s);;
      s ← get;
      set_flag_loop fuel (_next_region iter s) end_reg flags
  end.

Definition _memblock_set_flag (start_reg end_reg : option mb_node) (flags : Z) : M memblock unit :=
  match start_reg with
  | None => mret tt
  | Some _ => set_flag_loop (S (S max_regions)) start_reg end_reg flags
  end.

(** The inner loop of [_next_free_region]: the reserved region at its end and, when it ended
    with [return], the gap behind it. *)
Fixpoint gap_loop (fuel : nat) (r : option mb_node) (m_start m_end : Z) s : option (option mb_node * option (Z * Z)) :=
  match fuel with
  | O => None
  | S fuel =>
    match r with
    | None => Some (None, None)
    | Some n =>
      let r_start := if decide (n = Head ReservedMemory) then 0 else mb_end s n in
      let r_end := match _next_region r s with Some nx => mb_start s nx | None => PHYS_ADDR_MAX end in
      if r_start =? r_end then gap_loop fuel (_next_region r s) m_start m_end s
      else if m_end <=? r_start then Some (r, None)
      else if m_start <? r_end then Some (r, Some (r_start, r_end))
      else gap_loop fuel (_next_region r s) m_start m_end s
    end
  end.

(** [_next_free_region]: the two cursors, and the region found unless all were. *)
Fixpoint next_free_loop (fuel : nat) (m r : option mb_node) (flags : Z) s : option (option mb_node * option mb_node * option (Z * Z)) :=
  match fuel with
  | O => None
  | S fuel =>
    match m with
    | None => Some (Some (Head Memory), r, None)
    | Some n =>
      if decide (mb_flags s n <> flags) then next_free_loop fuel (_next_region m s) r flags s
      else
        let m_start := mb_start s n in
        let m_end := mb_end s n in
        '(r, gap) ← gap_loop (S (S max_regions)) r m_start m_end s;
        match gap with
        | Some (r_start, r_end) =>
          let out := (Z.max m_start r_start, Z.min m_end r_end) in
          if m_end <=? r_end then Some (_next_region m s, r, Some out) else Some (m, _next_region r s, Some out)
        | None => next_free_loop fuel (_next_region m s) r flags s
        end
    end
  end.

Definition _next_free_region (m r : option mb_node) (flags : Z) s := next_free_loop (S (S (S max_regions))) m r flags s.

(** The regions [for_each_free_region] goes through.  The first cursor is the head itself,
    which is where the field [next] of the head is. *)
Fixpoint free_region_loop (fuel : nat) (m r : option mb_node) (flags : Z) s : option (list (Z * Z)) :=
  match fuel with
  | O => None
  | S fuel =>
    '(m, r, out) ← _next_free_region m r flags s;
    if decide (m = Some (Head Memory)) then Some []
    else
      out ← out;
      rest ← free_region_loop fuel m r flags s;
      Some (out :: rest)
  end.

Definition free_regions (flags : Z) s : option (list (Z * Z)) :=
  free_region_loop (S (S (S (2 * max_regions)))) (Some (Head Memory)) (Some (Head ReservedMemory)) flags s.

Fixpoint merge_inner (fuel : nat) (reg : mb_node) : M memblock unit :=
  match fuel with
  | O => fun _ => None
  | S fuel =>
    s ← get;
    match _next_region (Some reg) s with
    | Some nx =>
      if (mb_flags s reg =? mb_flags s nx) && (mb_end s reg =? mb_start s nx) then
        modify (set_mb_end reg (mb_end s nx));;
        _free_memreg reg;;
        merge_inner fuel reg
      else mret tt
    | None => mret tt
    end
  end.

Fixpoint merge_outer (fuel : nat) (reg : option mb_node) : M memblock unit :=
  match fuel with
  | O => fun _ => None
  | S fuel =>
    match reg with
    | None => mret tt
    | Some n =>
      merge_inner (S max_regions) n;;
      s ← get;
      merge_outer fuel (_next_region reg s)
    end
  end.

Definition _memblock_merge_memory : M memblock unit :=
  s ← get;
  merge_outer (S max_regions) (mb_links s (Head Memory)).

(** ** The end of the start-up *)

Context (max_order pv_offset : Z) (install_fuel : nat) (load_err : Z * Z -> Z).

Fixpoint install_regions (l : list (Z * Z)) : M pages unit :=
  match l with
  | [] => mret tt
  | (start, end_) :: l =>
    rt_page_install max_order pv_offset install_fuel (load_err (start, end_)) (u32 (start - pv_offset)) (u32 (end_ - pv_offset));;
    install_regions l
  end.

Definition _memblock_free_all s : M pages unit :=
  l ← deref (free_regions MEMBLOCK_NONE s);
  install_regions l.

Fixpoint mark_reserved (fuel : nat) (reg : option mb_node) : M memblock unit :=
  match fuel with
  | O => fun _ => None
  | S fuel =>
    match reg with
    | None => mret tt
    | Some n =>
      s ← get;
      (if decide (mb_flags s n <> MEMBLOCK_NONE) then
         '(err, start_reg, end_reg) ← _memblock_separate_range Memory (mb_start s n) (mb_end s n);
         RT_ASSERT (err =? RT_EOK);;
         s ← get;
         _memblock_set_flag start_reg end_reg (mb_flags s n)
       else mret tt);;
      s ← get;
      mark_reserved fuel (_next_region reg s)
    end
  end.

(** [rt_memblock_setup_memory_environment]: the final block lists and the run of the page
    allocator. *)
Definition rt_memblock_setup_memory_environment (s : memblock) (p : pages) : option (memblock * pages) :=
  '(_, s) ← (_memblock_merge_memory;; s ← get; mark_reserved (S max_regions) (mb_links s (Head ReservedMemory))) s;
  '(_, p) ← _memblock_free_all s p;
  Some (s, p).
End memblock.
