(* ===== verification/MemBlockProp.v ===== *)
(** The two lists of regions as lists of indexes with their bounds and flags: taking records,
    inserting, removing, and what the regions say of an address. *)
From S2P Require Import Prelude SList AspaceUnmap Buddy MemBlock.
#[local] Open Scope Z_scope.

(** * Insertion and removal behind any node *)

Section nodes.
Context {A : Type} `{EqDecision A}.
Implicit Types (l n : A) (xs ys : list A) (h : snodes A).

Lemma chain_insert_after h l xs ys n : NoDup (l :: xs ++ ys) -> n ∉ l :: xs ++ ys -> chain h l (xs ++ ys) ->
  chain (rt_slist_insert (default l (last xs)) n h) l (xs ++ n :: ys).
Proof.
  revert l. induction xs as [|x xs IH]; intros l Hnd Hn Hc.
  - by apply (slist_insert h l ys n).
  - rewrite default_last_cons. cbn [app chain] in *. destruct Hc as [E Hc]. apply NoDup_cons in Hnd as [Hl Hnd].
    pose proof (default_last_in x xs). split; [|apply IH; [done|set_solver|done]].
    unfold rt_slist_insert. rewrite !fupd_ne by set_solver. done.
Qed.

Lemma slist_insert_after h l xs ys n : slist h l (xs ++ ys) -> n ∉ l :: xs ++ ys ->
  slist (rt_slist_insert (default l (last xs)) n h) l (xs ++ n :: ys).
Proof.
  intros [Hnd Hc] Hn. split; [|by apply chain_insert_after]. rewrite app_comm_cons, <- Permutation_middle.
  apply NoDup_cons. split; [set_solver|done].
Qed.

Lemma slist_remove_after h l xs p ys fuel : slist h l (xs ++ p :: ys) ->
  rt_slist_remove (S fuel) (default l (last xs)) p h = Some (fupd (default l (last xs)) (h p) h) /\
  slist (fupd (default l (last xs)) (h p) h) l (xs ++ ys).
Proof.
  intros H. pose proof H as [Hnd Hc]. split.
  - unfold rt_slist_remove. simpl. rewrite (slist_before h l xs p ys H). rewrite decide_False by tauto. cbn [mbind option_bind].
    by rewrite (slist_before h l xs p ys H).
  - split; [|by apply chain_bridge]. rewrite app_comm_cons in Hnd |- *. rewrite <- Permutation_middle in Hnd.
    by apply NoDup_cons in Hnd as [_ ?].
Qed.

Lemma slist_after h l xs ys : slist h l (xs ++ ys) -> h (default l (last xs)) = head ys.
Proof.
  intros [_ Hc]. revert l Hc. induction xs as [|x xs IH]; intros l Hc; [by destruct ys; simpl in *; [|destruct Hc]|].
  rewrite default_last_cons. apply IH, Hc.
Qed.
End nodes.

(** * Regions *)

Abbreviation region := (Z * Z * Z)%type.
Implicit Types (a b f x : Z) (regs : list region).

(** Regions that are not empty, in order, apart, and end below 2^32. *)
Fixpoint sorted_from (lo : Z) regs : Prop :=
  match regs with [] => True | (a, b, _) :: regs => lo <= a /\ a < b <= PHYS_ADDR_MAX /\ sorted_from b regs end.

(** An address is in a region with the flags [f]. *)
Definition mapped regs x f : Prop := exists a b, (a, b, f) ∈ regs /\ a <= x < b.

Lemma sorted_weaken lo lo' regs : lo' <= lo -> sorted_from lo regs -> sorted_from lo' regs.
Proof. destruct regs as [|[[a b] f] regs]; [done|]. simpl. intros ? (? & ? & ?). split; [lia|done]. Qed.

Lemma sorted_in lo regs a b f : sorted_from lo regs -> (a, b, f) ∈ regs -> lo <= a /\ a < b <= PHYS_ADDR_MAX.
Proof.
  revert lo. induction regs as [|[[a' b'] f'] regs IH]; intros lo Hs Hin; [by apply not_elem_of_nil in Hin|].
  destruct Hs as (H1 & H2 & H3). apply elem_of_cons in Hin as [[= -> -> ->]|Hin]; [done|].
  destruct (IH _ H3 Hin). lia.
Qed.

Lemma sorted_app lo r1 r2 : sorted_from lo (r1 ++ r2) <-> sorted_from lo r1 /\ sorted_from lo r2 /\
  (forall a b f a' b' f', (a, b, f) ∈ r1 -> (a', b', f') ∈ r2 -> b <= a').
Proof.
  revert lo. induction r1 as [|[[a b] f] r1 IH]; intros lo; simpl.
  - split; [intros H; split; [done|]; split; [done|]; intros; by apply not_elem_of_nil in H0|tauto].
  - rewrite IH. split.
    + intros (H1 & H2 & H3 & H4 & H5). split; [done|]. split; [apply (sorted_weaken b); [lia|done]|].
      intros a1 b1 f1 a2 b2 f2 [[= -> -> ->]|Hin]%elem_of_cons Hin2; [by destruct (sorted_in _ _ _ _ _ H4 Hin2)|by eapply H5].
    + intros ((H1 & H2 & H3) & H4 & H5). split; [done|]. split; [done|]. split; [done|]. split.
      * destruct r2 as [|[[a2 b2] f2] r2]; [done|]. simpl in *. split; [|tauto]. apply (H5 a b f a2 b2 f2); left.
      * intros. eapply H5; [by right|done].
Qed.

Lemma mapped_app r1 r2 x f : mapped (r1 ++ r2) x f <-> mapped r1 x f \/ mapped r2 x f.
Proof. unfold mapped. setoid_rewrite elem_of_app. naive_solver. Qed.

Lemma mapped_cons a b g regs x f : mapped ((a, b, g) :: regs) x f <-> a <= x < b /\ f = g \/ mapped regs x f.
Proof. unfold mapped. setoid_rewrite elem_of_cons. naive_solver. Qed.

Lemma mapped_nil x f : ~ mapped [] x f.
Proof. intros (a & b & H & _). by apply not_elem_of_nil in H. Qed.

(** * The state *)

Definition reg_of (s : memblock) (i : nat) : region := (mb_start s (Reg i), mb_end s (Reg i), mb_flags s (Reg i)).

Section shape.
Context (max : nat).
Implicit Types (s : memblock) (lst : mb_id -> list nat) (l : mb_id) (i : nat).

Record mb_shape s lst : Prop := {
  ms_list : forall l, slist (mb_links s) (Head l) (Reg <$> lst l);
  ms_apart : forall l l' i, i ∈ lst l -> i ∈ lst l' -> l = l';
  ms_alloc : forall i, (i < max)%nat -> mb_alloc s i = true <-> exists l, i ∈ lst l;
  ms_bound : forall l i, i ∈ lst l -> (i < max)%nat;
  ms_hint : (hint_idx s <= max)%nat }.

(** The node in front of what follows [xs]. *)
Definition node_at l (xs : list nat) : mb_node := default (Head l) (last (Reg <$> xs)).

Lemma node_at_snoc l xs i : node_at l (xs ++ [i]) = Reg i.
Proof. unfold node_at. rewrite fmap_app. change (Reg <$> [i]) with [Reg i]. by rewrite last_snoc. Qed.

Lemma next_at s lst l xs ys : mb_shape s lst -> lst l = xs ++ ys -> _next_region (Some (node_at l xs)) s = head (Reg <$> ys).
Proof.
  intros H E. pose proof (ms_list _ _ H l) as Hl. rewrite E, fmap_app in Hl. by apply slist_after in Hl.
Qed.

Lemma shape_nodup s lst l : mb_shape s lst -> NoDup (lst l).
Proof. intros H. destruct (ms_list _ _ H l) as [[_ Hnd]%NoDup_cons _]. by apply NoDup_fmap_1 in Hnd. Qed.

Lemma shape_length s lst l : mb_shape s lst -> (length (lst l) <= max)%nat.
Proof.
  intros H. rewrite <- (length_seq max 0). apply submseteq_length, NoDup_submseteq; [by apply (shape_nodup s)|].
  intros i Hi. apply elem_of_seq. pose proof (ms_bound _ _ H l i Hi). lia.
Qed.

Lemma find_free_reg_spec n i s : match find_free_reg n i s with
  | Some j => (i <= j < i + n)%nat /\ mb_alloc s j = false
  | None => forall j, (i <= j < i + n)%nat -> mb_alloc s j = true
  end.
Proof.
  revert i. induction n as [|n IH]; intros i; simpl; [intros; lia|]. destruct (mb_alloc s i) eqn:E; [|split; [lia|done]].
  specialize (IH (S i)). destruct (find_free_reg n (S i) s); [split; [lia|tauto]|].
  intros j Hj. destruct (decide (j = i)) as [->|]; [done|]. apply IH. lia.
Qed.

(** The same regions in the same places, with other flags, bounds or spare records. *)
Lemma shape_same s s' lst : mb_shape s lst -> mb_links s' = mb_links s -> mb_alloc s' = mb_alloc s -> hint_idx s' = hint_idx s -> mb_shape s' lst.
Proof. intros [H1 H2 H3 H4 H5] El Ea Eh. split; rewrite ?El, ?Ea, ?Eh; done. Qed.

(** Only the fields of one record differ. *)
Definition same_but (n : mb_node) s s' : Prop := forall m, m <> n -> mb_start s' m = mb_start s m /\ mb_end s' m = mb_end s m /\ mb_flags s' m = mb_flags s m.

Lemma same_but_regs j s s' (il : list nat) : same_but (Reg j) s s' -> j ∉ il -> reg_of s' <$> il = reg_of s <$> il.
Proof.
  intros H Hj. apply list_fmap_ext. intros k i Hi%list_elem_of_lookup_2. unfold reg_of.
  destruct (H (Reg i)) as (-> & -> & ->); [|done]. intros [= ->]. done.
Qed.

(** The node behind which a region is inserted is not in the other list. *)
Lemma node_at_other s lst l l' xs ys : mb_shape s lst -> lst l = xs ++ ys -> l' <> l -> node_at l xs ∉ Head l' :: (Reg <$> lst l').
Proof.
  intros H E Hne. destruct xs as [|i xs _] using rev_ind.
  - intros [[= ->]|(i & ? & _)%list_elem_of_fmap]%elem_of_cons; done.
  - rewrite node_at_snoc. intros [?|(i' & [= <-] & Hi)%list_elem_of_fmap]%elem_of_cons; [done|].
    apply Hne, (ms_apart _ _ H l' l i Hi). rewrite E. apply elem_of_app. left. apply elem_of_app. right. by left.
Qed.

(** A free record is linked behind a node. *)
Lemma shape_insert s s' lst l xs ys j : mb_shape s lst -> lst l = xs ++ ys -> (j < max)%nat -> (forall l', j ∉ lst l') ->
  mb_links s' = rt_slist_insert (node_at l xs) (Reg j) (mb_links s) -> mb_alloc s' = fupd j true (mb_alloc s) -> hint_idx s' = S j ->
  mb_shape s' (fupd l (xs ++ j :: ys) lst).
Proof.
  intros H E Hj Hnew El Ea Eh. split.
  - intros l'. rewrite El. destruct (decide (l' = l)) as [->|Hne].
    + rewrite fupd_eq, fmap_app, fmap_cons. apply slist_insert_after.
      * rewrite <- fmap_app, <- E. apply (ms_list _ _ H).
      * rewrite <- fmap_app, <- E, elem_of_cons, list_elem_of_fmap. intros [?|(i & [= <-] & Hi)]; [done|]. by destruct (Hnew l).
    + rewrite fupd_ne by done. apply (slist_frame (mb_links s)); [|apply (ms_list _ _ H)].
      intros n Hn. unfold rt_slist_insert. rewrite !fupd_ne; [done|..].
      * intros ->. apply elem_of_cons in Hn as [?|(i & [= <-] & Hi)%list_elem_of_fmap]; [done|]. by destruct (Hnew l').
      * intros ->. by apply (node_at_other s lst l l' xs ys) in Hn.
  - intros l1 l2 i. destruct (decide (l1 = l)) as [->|], (decide (l2 = l)) as [->|]; rewrite ?fupd_eq, ?(fupd_ne l) by done; try done.
    + rewrite elem_of_app, elem_of_cons. intros [|[->|]] H2; [|by destruct (Hnew l2)|]; apply (ms_apart _ _ H l l2 i); rewrite ?E, ?elem_of_app; auto.
    + rewrite elem_of_app, elem_of_cons. intros H1 [|[->|]]; [|by destruct (Hnew l1)|]; apply (ms_apart _ _ H l1 l i); rewrite ?E, ?elem_of_app; auto.
    + apply (ms_apart _ _ H).
  - intros i Hi. rewrite Ea. destruct (decide (i = j)) as [->|Hij].
    + rewrite fupd_eq. split; [|done]. intros _. exists l. rewrite fupd_eq, elem_of_app, elem_of_cons. auto.
    + rewrite fupd_ne by done. rewrite (ms_alloc _ _ H) by done. split; intros [l' Hl']; exists l'; (destruct (decide (l' = l)) as [->|]);
        rewrite ?fupd_eq, ?(fupd_ne l) in * by done; try done; rewrite ?E, ?elem_of_app, ?elem_of_cons in *; tauto.
  - intros l' i. destruct (decide (l' = l)) as [->|]; rewrite ?fupd_eq, ?(fupd_ne l) by done; [|apply (ms_bound _ _ H)].
    rewrite elem_of_app, elem_of_cons. intros [|[->|]]; try done; apply (ms_bound _ _ H l); rewrite E, elem_of_app; auto.
  - lia.
Qed.

Lemma insert_after_wp s lst l xs ys a b f (Q : Z -> memblock -> Prop) : mb_shape s lst -> lst l = xs ++ ys ->
  ((forall i, (i < max)%nat -> exists l, i ∈ lst l) -> Q (- RT_ENOMEM) s) ->
  (forall j s', (forall l, j ∉ lst l) -> mb_shape s' (fupd l (xs ++ j :: ys) lst) -> same_but (Reg j) s s' -> reg_of s' j = (a, b, f) -> Q RT_EOK s') ->
  wp (_reg_insert_after max (node_at l xs) a b f) Q s.
Proof.
  intros H E Hfull HQ. unfold _reg_insert_after. wp_step. unfold _alloc_memreg. do 2 wp_step.
  assert (Htake : forall j, (j < max)%nat -> mb_alloc s j = false -> wp (take_memreg (node_at l xs) j)
    (fun r => wp (match r with None => mret (- RT_ENOMEM) | Some n => modify (set_mb_reg n a b f);; mret RT_EOK end) Q) s).
  { intros j Hj Hal. assert (Hnew : forall l', j ∉ lst l') by (intros l' Hin; assert (mb_alloc s j = true) by (apply (ms_alloc _ _ H); eauto); congruence).
    unfold take_memreg. repeat wp_step. apply (HQ j); [done|by apply (shape_insert s _ lst l xs ys j)|..].
    - intros n Hn. simpl. by rewrite !fupd_ne.
    - unfold reg_of. simpl. by rewrite !fupd_eq. }
  pose proof (ms_hint _ _ H) as Hh.
  pose proof (find_free_reg_spec (max - hint_idx s) (hint_idx s) s) as H1. destruct (find_free_reg (max - hint_idx s) (hint_idx s) s) as [j|].
  { apply Htake; [lia|tauto]. }
  pose proof (find_free_reg_spec (hint_idx s) 0 s) as H2. destruct (find_free_reg (hint_idx s) 0 s) as [j|].
  { apply Htake; [lia|tauto]. }
  do 2 wp_step. apply Hfull. intros i Hi. apply (ms_alloc _ _ H); [done|]. destruct (decide (i < hint_idx s)%nat); [apply H2|apply H1]; lia.
Qed.

(** The record behind a node is taken out and is free again. *)
Lemma free_memreg_wp s lst l xs j ys (Q : unit -> memblock -> Prop) : mb_shape s lst -> lst l = xs ++ j :: ys ->
  (forall s', mb_shape s' (fupd l (xs ++ ys) lst) -> mb_start s' = mb_start s -> mb_end s' = mb_end s -> mb_flags s' = mb_flags s -> Q tt s') ->
  wp (_free_memreg max (node_at l xs)) Q s.
Proof.
  intros H E HQ. unfold _free_memreg. do 2 wp_step. wp_step. eapply wp_deref; [by apply (next_at s lst l xs (j :: ys))|].
  wp_step. eapply wp_deref; [done|]. do 2 wp_step. do 2 wp_step. wp_step.
  pose proof (ms_list _ _ H l) as Hl. rewrite E, fmap_app, fmap_cons in Hl.
  destruct (slist_remove_after (mb_links s) (Head l) (Reg <$> xs) (Reg j) (Reg <$> ys) (S max) Hl) as [E1 H1].
  eapply wp_deref; [exact E1|]. wp_step. apply HQ; [|done..].
  pose proof (shape_nodup s lst l H) as Hnd. rewrite E in Hnd. rewrite <- Permutation_middle in Hnd. apply NoDup_cons in Hnd as [Hj Hnd].
  assert (Hsub : forall l' i, i ∈ fupd l (xs ++ ys) lst l' <-> i ∈ lst l' /\ i <> j).
  { intros l' i. destruct (decide (l' = l)) as [->|Hne].
    - rewrite fupd_eq, E, elem_of_app, elem_of_app, elem_of_cons. split; [|tauto].
      intros Hi. split; [tauto|]. intros ->. by apply Hj, elem_of_app.
    - rewrite fupd_ne by done. split; [|tauto]. intros Hi. split; [done|]. intros ->.
      apply Hne, (ms_apart _ _ H l' l j Hi). rewrite E, elem_of_app, elem_of_cons. auto. }
  split; simpl.
  - intros l'. destruct (decide (l' = l)) as [->|Hne]; [by rewrite fupd_eq, fmap_app|]. rewrite fupd_ne by done.
    apply (slist_frame (mb_links s)); [|apply (ms_list _ _ H)]. intros n Hn. rewrite fupd_ne; [done|]. intros ->.
    by apply (node_at_other s lst l l' xs (j :: ys)) in Hn.
  - intros l1 l2 i [? _]%Hsub [? _]%Hsub. by apply (ms_apart _ _ H l1 l2 i).
  - intros i Hi. setoid_rewrite Hsub. destruct (decide (i = j)) as [->|Hij]; [rewrite fupd_eq; naive_solver|].
    rewrite fupd_ne by done. rewrite (ms_alloc _ _ H) by done. naive_solver.
  - intros l' i [? _]%Hsub. by apply (ms_bound _ _ H l').
  - apply (ms_hint _ _ H).
Qed.
End shape.
