(* ===== verification/MemBlockUse.v ===== *)
(** What the calls of start-up do to the regions: adding one, merging neighbours, flagging a
    reserved range, and going through the memory that is left. *)
From S2P Require Import Prelude SList AspaceUnmap Buddy MemBlock MemBlockProp.
#[local] Open Scope Z_scope.

Section use.
Context (max : nat).
Implicit Types (s : memblock) (lst : mb_id -> list nat) (l : mb_id) (a b f x : Z) (rs : list region).

Definition regs s lst l : list region := reg_of s <$> lst l.

Record mb_ok s lst : Prop := { mo_shape : mb_shape max s lst; mo_sorted : forall l, sorted_from 0 (regs s lst l) }.

(** ** Adding a region *)

Lemma place_loop_spec fuel s lst l xs ys a b : mb_shape max s lst -> lst l = xs ++ ys -> (length ys < fuel)%nat -> a < b ->
  sorted_from 0 (regs s lst l) -> (forall a' b' f, (a', b', f) ∈ reg_of s <$> xs -> b' <= a) ->
  exists r, place_loop fuel (node_at l xs) a b s = Some r /\
  match r with
  | None => exists a' b' f, (a', b', f) ∈ regs s lst l /\ a' < b /\ a < b'
  | Some n => exists y1 y2, ys = y1 ++ y2 /\ n = node_at l (xs ++ y1) /\
      (forall a' b' f, (a', b', f) ∈ reg_of s <$> (xs ++ y1) -> b' <= a) /\ (forall a' b' f, (a', b', f) ∈ reg_of s <$> y2 -> b <= a')
  end.
Proof.
  intros H. revert xs ys. induction fuel as [|fuel IH]; intros xs ys E Hf Hab Hs Hxs; [lia|]. cbn [place_loop].
  rewrite (next_at max s lst l xs ys) by done. destruct ys as [|i ys]; simpl.
  { eexists. split; [done|]. exists [], []. rewrite (app_nil_r xs). split; [done|]. split; [done|]. split; [done|].
    intros a' b' f' Hin. by apply not_elem_of_nil in Hin. }
  assert (Hs2 : sorted_from 0 (reg_of s <$> i :: ys)) by (unfold regs in Hs; rewrite E, fmap_app in Hs; by apply sorted_app in Hs as (_ & ? & _)).
  rewrite fmap_cons in Hs2. destruct Hs2 as (_ & Hi & Hs2).
  destruct (Z.leb_spec b (mb_start s (Reg i))).
  { eexists. split; [done|]. exists [], (i :: ys). rewrite (app_nil_r xs). split; [done|]. split; [done|]. split; [done|].
    intros a' b' f' [E'|Hin]%elem_of_cons; [injection E' as -> -> ->; done|]. destruct (sorted_in _ _ _ _ _ Hs2 Hin). lia. }
  destruct (Z.leb_spec (mb_end s (Reg i)) a).
  - destruct (IH (xs ++ [i]) ys) as (r & Er & Hr); [by rewrite <- app_assoc|simpl in *; lia|done|done|..].
    { intros a' b' f' Hin. rewrite fmap_app in Hin. apply elem_of_app in Hin as [Hin|[E'|Hin]%elem_of_cons];
        [by eapply Hxs|by injection E' as -> -> ->|by apply not_elem_of_nil in Hin]. }
    rewrite node_at_snoc in Er. exists r. split; [done|]. destruct r as [n|]; [|done].
    destruct Hr as (y1 & y2 & -> & -> & Hy1 & Hy2). exists (i :: y1), y2. rewrite <- app_assoc in *. done.
  - exists None. split; [done|]. exists (mb_start s (Reg i)), (mb_end s (Reg i)), (mb_flags s (Reg i)).
    split; [|lia]. unfold regs. rewrite E, fmap_app, elem_of_app. right. by left.
Qed.

Definition overlap rs a b : Prop := exists a' b' f, (a', b', f) ∈ rs /\ a' < b /\ a < b'.

Lemma add_range_wp s lst l a b f : mb_ok s lst -> 0 <= a -> b <= PHYS_ADDR_MAX ->
  wp (_memblock_add_range max l a b f) (fun err s' =>
    err = - RT_EINVAL /\ s' = s /\ (b <= a \/ overlap (regs s lst l) a b) \/
    err = - RT_ENOMEM /\ s' = s /\ (forall i, (i < max)%nat -> exists l, i ∈ lst l) \/
    err = RT_EOK /\ a < b /\ ~ overlap (regs s lst l) a b /\ exists lst', mb_ok s' lst' /\
      regs s' lst' l ≡ₚ (a, b, f) :: regs s lst l /\ forall l', l' <> l -> regs s' lst' l' = regs s lst l') s.
Proof.
  intros [H Hs] Ha Hb. unfold _memblock_add_range. destruct (Z.leb_spec b a) as [|Hab]; [wp_step; auto|].
  destruct (place_loop_spec (S max) s lst l [] (lst l) a b) as (r & Er & Hr); [done|done|pose proof (shape_length max s lst l H); lia|done|done|..].
  { intros a' b' f' Hin. by apply not_elem_of_nil in Hin. }
  change (node_at l []) with (Head l) in Er. do 2 wp_step. wp_step. eapply wp_deref; [exact Er|].
  destruct r as [n|]; [|wp_step; left; auto].
  destruct Hr as (y1 & y2 & E & -> & H1 & H2). simpl in H1.
  apply (insert_after_wp max s lst l y1 y2); [done|done|right; left; auto|].
  intros j s' Hj Hsh Hsame Hreg. right. right. split; [done|]. split; [done|].
  assert (Hsame' : forall ys : list nat, (forall i, i ∈ ys -> exists l, i ∈ lst l) -> reg_of s' <$> ys = reg_of s <$> ys).
  { intros ys Hys. apply same_but_regs with j; [done|]. intros Hin. destruct (Hys _ Hin) as [l' Hl']. by apply (Hj l'). }
  assert (Hy : forall i, i ∈ y1 \/ i ∈ y2 -> exists l, i ∈ lst l) by (intros; exists l; by rewrite E, elem_of_app).
  assert (Enew : regs s' (fupd l (y1 ++ j :: y2) lst) l = (reg_of s <$> y1) ++ (a, b, f) :: (reg_of s <$> y2)).
  { unfold regs. rewrite fupd_eq, fmap_app, fmap_cons, Hreg, !Hsame' by naive_solver. done. }
  assert (Eold : regs s lst l = (reg_of s <$> y1) ++ (reg_of s <$> y2)) by (unfold regs; by rewrite E, fmap_app).
  pose proof (Hs l) as Hsl. rewrite Eold in Hsl. apply sorted_app in Hsl as (S1 & S2 & S3). split.
  { rewrite Eold. intros (a' & b' & f' & [Hin|Hin]%elem_of_app & ? & ?); [apply H1 in Hin|apply H2 in Hin]; lia. }
  eexists. split; [split; [exact Hsh|]|split].
  - intros l'. destruct (decide (l' = l)) as [->|Hne]; [|unfold regs; rewrite fupd_ne, Hsame' by (done || eauto); apply Hs].
    rewrite Enew. apply sorted_app. split; [done|]. split.
    + simpl. split; [lia|]. split; [lia|]. destruct (reg_of s <$> y2) as [|[[a2 b2] f2] r2]; [done|]. simpl in *.
      split; [apply (H2 a2 b2 f2); by left|tauto].
    + intros a1 b1 f1 a2 b2 f2 Hin1 [E2|Hin2]%elem_of_cons; [injection E2 as -> -> ->; by eapply H1|by eapply S3].
  - rewrite Enew, Eold. by rewrite <- Permutation_middle.
  - intros l' Hne. unfold regs. rewrite fupd_ne by done. apply Hsame'. eauto.
Qed.

(** ** Merging neighbours *)

(** No two neighbours touch and have the same flags. *)
Definition parted rs : Prop := forall r1 a b f c r2, rs <> r1 ++ (a, b, f) :: (b, c, f) :: r2.

Lemma parted_short rs : (length rs <= 1)%nat -> parted rs.
Proof. intros Hl r1 a b f c r2 ->. rewrite length_app in Hl. simpl in Hl. lia. Qed.

Lemma parted_snoc rs a b f c d g : parted (rs ++ [(a, b, f)]) -> ~ (f = g /\ b = c) -> parted (rs ++ [(a, b, f); (c, d, g)]).
Proof.
  intros Hp Hn r1 a' b' f' c' r2. destruct r2 as [|z r2 _] using rev_ind; intros E.
  - change [(a, b, f); (c, d, g)] with ([(a, b, f)] ++ [(c, d, g)]) in E.
    change ((a', b', f') :: [(b', c', f')]) with ([(a', b', f')] ++ [(b', c', f')]) in E. rewrite !app_assoc in E.
    apply app_inj_tail in E as [E E2]. apply app_inj_tail in E as [_ E1]. apply Hn. naive_solver.
  - change [(a, b, f); (c, d, g)] with ([(a, b, f)] ++ [(c, d, g)]) in E. rewrite app_assoc in E.
    replace (r1 ++ (a', b', f') :: (b', c', f') :: r2 ++ [z]) with ((r1 ++ (a', b', f') :: (b', c', f') :: r2) ++ [z]) in E by (by rewrite <- app_assoc).
    apply app_inj_tail in E as [E _]. by apply Hp in E.
Qed.

(** The end of the last region does not matter. *)
Lemma parted_last rs a b b' f : parted (rs ++ [(a, b, f)]) -> parted (rs ++ [(a, b', f)]).
Proof.
  intros Hp r1 a1 b1 f1 c1 r2 E. destruct r2 as [|z r2 _] using rev_ind.
  - change ((a1, b1, f1) :: [(b1, c1, f1)]) with ([(a1, b1, f1)] ++ [(b1, c1, f1)]) in E. rewrite app_assoc in E.
    apply app_inj_tail in E as [-> [= -> -> ->]]. apply (Hp r1 a1 b1 f1 b []). by rewrite <- app_assoc.
  - replace (r1 ++ (a1, b1, f1) :: (b1, c1, f1) :: r2 ++ [z]) with ((r1 ++ (a1, b1, f1) :: (b1, c1, f1) :: r2) ++ [z]) in E by (by rewrite <- app_assoc).
    apply app_inj_tail in E as [-> _]. apply (Hp r1 a1 b1 f1 c1 (r2 ++ [(a, b, f)])). by rewrite <- app_assoc.
Qed.

Lemma join_sorted lo r1 a e f e2 r2 : sorted_from lo (r1 ++ (a, e, f) :: (e, e2, f) :: r2) -> sorted_from lo (r1 ++ (a, e2, f) :: r2).
Proof.
  rewrite !sorted_app. intros (H1 & H2 & H3). split; [done|]. simpl in *. split; [intuition lia|].
  intros a1 b1 f1 a2 b2 f2 Hin1 [E|Hin2]%elem_of_cons; [injection E as -> -> ->; apply (H3 a1 b1 f1 a e f Hin1); left|].
  apply (H3 a1 b1 f1 a2 b2 f2 Hin1). right. by right.
Qed.

Lemma join_mapped r1 a e f e2 r2 x g : a < e < e2 ->
  mapped (r1 ++ (a, e2, f) :: r2) x g <-> mapped (r1 ++ (a, e, f) :: (e, e2, f) :: r2) x g.
Proof.
  intros He. rewrite !mapped_app, !mapped_cons.
  assert (a <= x < e2 <-> a <= x < e \/ e <= x < e2) as -> by lia. tauto.
Qed.

(** What stays when records behind [i] are merged into it. *)
Record merged s lst s' lst' (xs : list nat) i (ys' : list nat) : Prop := {
  mg_ok : mb_ok s' lst'; mg_list : lst' Memory = xs ++ i :: ys';
  mg_other : forall l, l <> Memory -> regs s' lst' l = regs s lst l;
  mg_before : reg_of s' <$> xs = reg_of s <$> xs;
  mg_first : mb_start s' (Reg i) = mb_start s (Reg i) /\ mb_flags s' (Reg i) = mb_flags s (Reg i);
  mg_mapped : forall x f, mapped (regs s' lst' Memory) x f <-> mapped (regs s lst Memory) x f }.

Lemma merge_step s lst xs i j ys (Q : unit -> memblock -> Prop) : mb_ok s lst -> lst Memory = xs ++ i :: j :: ys ->
  mb_flags s (Reg i) = mb_flags s (Reg j) -> mb_end s (Reg i) = mb_start s (Reg j) ->
  (forall s' lst', merged s lst s' lst' xs i ys -> Q tt s') ->
  wp (modify (set_mb_end (Reg i) (mb_end s (Reg j)));; _free_memreg max (Reg i)) Q s.
Proof.
  intros [Hsh Hs] E Ef Ee HQ. do 2 wp_step. rewrite <- (node_at_snoc Memory xs i).
  apply (free_memreg_wp max _ lst Memory (xs ++ [i]) j ys); [by apply (shape_same _ s)|by rewrite <- app_assoc|].
  intros s' Hsh' Hst He Hfl. rewrite <- app_assoc in Hsh'. simpl in Hst, He, Hfl. rewrite node_at_snoc in He.
  pose proof (shape_nodup max s lst Memory Hsh) as Hnd. rewrite E in Hnd. apply NoDup_app in Hnd as (Hnd1 & Hnd2 & Hnd3).
  apply NoDup_cons in Hnd3 as [Hi3 Hnd3].
  assert (Hsame : forall zs : list nat, i ∉ zs -> reg_of s' <$> zs = reg_of s <$> zs).
  { intros zs Hz. apply list_fmap_ext. intros k z Hk%list_elem_of_lookup_2. unfold reg_of. rewrite Hst, He, Hfl.
    rewrite fupd_ne; [done|]. intros [= ->]. done. }
  assert (Hxs : i ∉ xs) by (intros Hin; apply (Hnd2 i Hin); by left). assert (Hys : i ∉ ys) by (intros Hin; apply Hi3; by right).
  assert (Ei : reg_of s' i = (mb_start s (Reg i), mb_end s (Reg j), mb_flags s (Reg i))) by (unfold reg_of; by rewrite Hst, He, Hfl, fupd_eq).
  set (lst' := fupd Memory (xs ++ i :: ys) lst) in *.
  assert (Enew : regs s' lst' Memory = (reg_of s <$> xs) ++ (mb_start s (Reg i), mb_end s (Reg j), mb_flags s (Reg i)) :: (reg_of s <$> ys)).
  { unfold regs, lst'. rewrite fupd_eq, fmap_app, fmap_cons, Ei, !Hsame by done. done. }
  assert (Eold : regs s lst Memory = (reg_of s <$> xs) ++ (mb_start s (Reg i), mb_end s (Reg i), mb_flags s (Reg i)) ::
    (mb_end s (Reg i), mb_end s (Reg j), mb_flags s (Reg i)) :: (reg_of s <$> ys)).
  { unfold regs. rewrite E, fmap_app, !fmap_cons. unfold reg_of at 2 3. by rewrite Ef, Ee. }
  assert (Hoth : forall l, l <> Memory -> regs s' lst' l = regs s lst l).
  { intros l Hl. unfold regs, lst'. rewrite fupd_ne by done. apply Hsame. intros Hin.
    apply Hl, (ms_apart _ _ _ Hsh l Memory i Hin). rewrite E, elem_of_app, elem_of_cons. auto. }
  pose proof (Hs Memory) as HsM. rewrite Eold in HsM.
  apply (HQ s' lst'). split; [split; [done|]|unfold lst'; by rewrite fupd_eq|done|by apply Hsame|by rewrite Hst, Hfl|].
  - intros l. destruct (decide (l = Memory)) as [->|Hl]; [|rewrite Hoth by done; apply Hs].
    rewrite Enew. by apply join_sorted in HsM.
  - intros x g. rewrite Enew, Eold. apply join_mapped. apply sorted_app in HsM as (_ & (_ & ? & _ & ? & _) & _). lia.
Qed.

Lemma merge_inner_wp fuel s lst xs i ys : mb_ok s lst -> lst Memory = xs ++ i :: ys -> (length ys < fuel)%nat ->
  wp (merge_inner max fuel (Reg i)) (fun _ s' => exists lst' ys', merged s lst s' lst' xs i ys' /\ (length ys' <= length ys)%nat /\
    match ys' with [] => True | j :: _ => ~ (mb_flags s' (Reg i) = mb_flags s' (Reg j) /\ mb_end s' (Reg i) = mb_start s' (Reg j)) end) s.
Proof.
  revert s lst ys. induction fuel as [|fuel IH]; intros s lst ys Hok E Hf; [lia|]. cbn [merge_inner]. do 2 wp_step.
  rewrite <- (node_at_snoc Memory xs i), (next_at max s lst Memory (xs ++ [i]) ys); [|apply Hok|by rewrite <- app_assoc].
  rewrite node_at_snoc. destruct ys as [|j ys]; simpl.
  { wp_step. exists lst, []. split; [|done]. by split. }
  destruct (Z.eqb_spec (mb_flags s (Reg i)) (mb_flags s (Reg j))) as [E1|E1];
    [destruct (Z.eqb_spec (mb_end s (Reg i)) (mb_start s (Reg j))) as [E2|E2]|]; simpl.
  2, 3: wp_step; exists lst, (j :: ys); (split; [by split|]); split; [done|tauto].
  pose proof (merge_step s lst xs i j ys (fun _ s' => exists lst', merged s lst s' lst' xs i ys) Hok E E1 E2 (fun s' lst' Hm => ex_intro _ lst' Hm)) as G0.
  apply wp_bind_inv in G0. apply wp_bind. eapply wp_mono; [exact G0|]. cbv beta.
  { intros _ s1 G. apply wp_bind. eapply wp_mono; [exact G|]. cbv beta. intros _ s2 (lst2 & [O2 L2 T2 B2 [F2 G2] M2]).
    eapply wp_mono; [apply (IH s2 lst2 ys O2 L2); simpl in Hf; lia|]. cbv beta.
    intros _ s3 (lst3 & ys3 & [O3 L3 T3 B3 [F3 G3] M3] & Hlen & Hlast). exists lst3, ys3. split; [|split; [lia|done]].
    split; [done|done|intros; by rewrite T3, T2|congruence|split; congruence|intros; by rewrite M3, M2]. }
Qed.

(** The regions passed by the walk are parted, also from the next one. *)
Lemma merge_outer_wp fuel s lst xs ys : mb_ok s lst -> lst Memory = xs ++ ys -> (length ys < fuel)%nat ->
  parted (reg_of s <$> (xs ++ take 1 ys)) ->
  wp (merge_outer max fuel (_next_region (Some (node_at Memory xs)) s)) (fun _ s' => exists lst', mb_ok s' lst' /\
    (forall l, l <> Memory -> regs s' lst' l = regs s lst l) /\ parted (regs s' lst' Memory) /\
    forall x f, mapped (regs s' lst' Memory) x f <-> mapped (regs s lst Memory) x f) s.
Proof.
  revert s lst xs ys. induction fuel as [|fuel IH]; intros s lst xs ys Hok E Hf Hp; [lia|]. cbn [merge_outer].
  rewrite (next_at max s lst Memory xs ys) by (done || apply Hok). destruct ys as [|i ys]; cbn [fmap list_fmap head].
  { wp_step. exists lst. split; [done|]. split; [done|]. split; [|done]. unfold regs. by rewrite E. }
  wp_step. assert (Hl : (length ys <= max)%nat).
  { pose proof (shape_length max s lst Memory (mo_shape _ _ Hok)) as Hl. rewrite E, length_app in Hl. simpl in Hl. lia. }
  eapply wp_mono; [apply (merge_inner_wp (S max) s lst xs i ys Hok E); lia|]. cbv beta.
  intros _ s1 (lst1 & ys1 & [O1 L1 T1 B1 [F1 G1] M1] & Hlen & Hlast). do 2 wp_step.
  rewrite <- (node_at_snoc Memory xs i).
  eapply wp_mono; [apply (IH s1 lst1 (xs ++ [i]) ys1 O1); [by rewrite <- app_assoc|simpl in Hf; lia|]|]; cbv beta.
  - assert (Hp1 : parted ((reg_of s1 <$> xs) ++ [reg_of s1 i])).
    { rewrite B1. unfold reg_of at 2. rewrite F1, G1. apply (parted_last _ _ (mb_end s (Reg i))).
      rewrite fmap_app in Hp. exact Hp. }
    rewrite !fmap_app, <- app_assoc. destruct ys1 as [|j ys1]; simpl; [done|]. by apply parted_snoc.
  - cbv beta. intros _ s2 (lst2 & O2 & T2 & P2 & M2). exists lst2. split; [done|]. split; [intros; by rewrite T2, T1|].
    split; [done|]. intros. by rewrite M2, M1.
Qed.

Lemma merge_memory_wp s lst : mb_ok s lst -> wp (_memblock_merge_memory max) (fun _ s' => exists lst', mb_ok s' lst' /\
    (forall l, l <> Memory -> regs s' lst' l = regs s lst l) /\ parted (regs s' lst' Memory) /\
    forall x f, mapped (regs s' lst' Memory) x f <-> mapped (regs s lst Memory) x f) s.
Proof.
  intros Hok. unfold _memblock_merge_memory. do 2 wp_step.
  pose proof (shape_length max s lst Memory (mo_shape _ _ Hok)).
  apply (merge_outer_wp (S max) s lst [] (lst Memory)); [done|done|lia|].
  apply parted_short. rewrite length_fmap. cbn [app]. rewrite length_take. lia.
Qed.

(** ** Cutting regions at the ends of a range *)

(** The same addresses with the same flags, and the other list as it was. *)
Record same_map s lst s' lst' : Prop := {
  sm_ok : mb_ok s' lst'; sm_other : forall l, l <> Memory -> lst' l = lst l /\ regs s' lst' l = regs s lst l;
  sm_mapped : forall x f, mapped (regs s' lst' Memory) x f <-> mapped (regs s lst Memory) x f }.

Lemma same_map_trans s lst s1 lst1 s2 lst2 : same_map s lst s1 lst1 -> same_map s1 lst1 s2 lst2 -> same_map s lst s2 lst2.
Proof.
  intros [O1 T1 M1] [O2 T2 M2]. split; [done| |intros; by rewrite M2, M1].
  intros l Hl. destruct (T1 l Hl), (T2 l Hl). split; congruence.
Qed.

(** Every record is in a list. *)
Definition exhausted lst : Prop := forall i, (i < max)%nat -> exists l, i ∈ lst l.

Lemma split_reg_wp s lst xs i ys c p e f (Q : Z -> memblock -> Prop) : mb_ok s lst -> lst Memory = xs ++ i :: ys ->
  reg_of s i = (c, e, f) -> c < p < e -> (exhausted lst -> Q (- RT_ENOMEM) s) ->
  (forall s' j lst', let s2 := set_mb_end (Reg i) p s' in same_map s lst s2 lst' -> lst' Memory = xs ++ i :: j :: ys ->
    reg_of s2 i = (c, p, f) -> reg_of s2 j = (p, e, f) -> reg_of s2 <$> xs = reg_of s <$> xs -> reg_of s2 <$> ys = reg_of s <$> ys -> Q RT_EOK s') ->
  wp (_reg_insert_after max (Reg i) p e f) Q s.
Proof.
  intros [Hsh Hs] E Hr Hp Hfail HQ. rewrite <- (node_at_snoc Memory xs i).
  apply (insert_after_wp max s lst Memory (xs ++ [i]) ys); [done|by rewrite <- app_assoc|exact Hfail|].
  intros j s' Hj Hsh' Hsame Hrj. rewrite <- app_assoc in Hsh'. set (lst' := fupd Memory (xs ++ [i] ++ j :: ys) lst) in *.
  set (s2 := set_mb_end (Reg i) p s').
  pose proof (shape_nodup max s lst Memory Hsh) as Hnd. rewrite E in Hnd. apply NoDup_app in Hnd as (_ & Hnd2 & Hnd3).
  apply NoDup_cons in Hnd3 as [Hi3 _].
  assert (Hij : i <> j) by (intros ->; apply (Hj Memory); rewrite E, elem_of_app, elem_of_cons; auto).
  assert (Hz : forall zs : list nat, i ∉ zs -> (forall z, z ∈ zs -> exists l, z ∈ lst l) -> reg_of s2 <$> zs = reg_of s <$> zs).
  { intros zs Hi Hzs. transitivity (reg_of s' <$> zs).
    - apply list_fmap_ext. intros k z Hk%list_elem_of_lookup_2. unfold reg_of, s2. simpl. rewrite fupd_ne; [done|]. intros [= ->]. done.
    - apply same_but_regs with j; [done|]. intros Hin. destruct (Hzs _ Hin) as [l Hl]. by apply (Hj l). }
  assert (Hlst : forall z, z ∈ xs \/ z ∈ ys -> exists l, z ∈ lst l) by (intros; exists Memory; rewrite E, elem_of_app, elem_of_cons; tauto).
  assert (Hxs : reg_of s2 <$> xs = reg_of s <$> xs) by (apply Hz; [intros Hin; apply (Hnd2 i Hin); by left|auto]).
  assert (Hys : reg_of s2 <$> ys = reg_of s <$> ys) by (apply Hz; auto).
  assert (Hi2 : reg_of s2 i = (c, p, f)).
  { unfold reg_of, s2. simpl. rewrite fupd_eq. destruct (Hsame (Reg i)) as (-> & _ & ->); [congruence|]. unfold reg_of in Hr. congruence. }
  assert (Hj2 : reg_of s2 j = (p, e, f)) by (rewrite <- Hrj; unfold reg_of, s2; simpl; rewrite fupd_ne; [done|congruence]).
  assert (Hoth : forall l, l <> Memory -> regs s2 lst' l = regs s lst l).
  { intros l Hl. unfold regs, lst'. rewrite fupd_ne by done. apply Hz; [|eauto]. intros Hin.
    apply Hl, (ms_apart _ _ _ Hsh l Memory i Hin). rewrite E, elem_of_app, elem_of_cons. auto. }
  assert (Enew : regs s2 lst' Memory = (reg_of s <$> xs) ++ (c, p, f) :: (p, e, f) :: (reg_of s <$> ys)).
  { unfold regs, lst'. rewrite fupd_eq, fmap_app. cbn [app]. rewrite !fmap_cons, Hi2, Hj2, Hxs, Hys. done. }
  assert (Eold : regs s lst Memory = (reg_of s <$> xs) ++ (c, e, f) :: (reg_of s <$> ys)) by (unfold regs; by rewrite E, fmap_app, fmap_cons, Hr).
  pose proof (Hs Memory) as HsM. rewrite Eold in HsM.
  apply (HQ s' j lst'); try done. fold s2. split; [split|..].
  - by apply (shape_same max s').
  - intros l. destruct (decide (l = Memory)) as [->|Hl]; [|rewrite Hoth by done; apply Hs]. rewrite Enew.
    apply sorted_app in HsM as (H1 & (H2 & H3 & H4) & H5). apply sorted_app. split; [done|]. split; [simpl; intuition lia|].
    intros a1 b1 f1 a2 b2 f2 Hin1 Hin2. pose proof (H5 a1 b1 f1 c e f Hin1 ltac:(left)).
    apply elem_of_cons in Hin2 as [E2|[E2|Hin2]%elem_of_cons]; [injection E2 as -> -> ->; lia..|].
    apply (H5 a1 b1 f1 a2 b2 f2 Hin1). by right.
  - intros l Hl. split; [unfold lst'; by rewrite fupd_ne|by apply Hoth].
  - intros x g. rewrite Enew, Eold. symmetry. by apply join_mapped.
Qed.

Definition below a rs : Prop := Forall (fun r => r.1.2 <= a) rs.
Definition inside a b rs : Prop := Forall (fun r => a <= r.1.1 /\ r.1.2 <= b) rs.
Definition above b rs : Prop := Forall (fun r => b <= r.1.1) rs.

Lemma sorted_above lo rs b : sorted_from lo rs -> b <= lo -> above b rs.
Proof.
  intros Hs Hb. apply Forall_forall. intros [[a1 b1] f1] Hin. destruct (sorted_in _ _ _ _ _ Hs Hin). simpl. lia.
Qed.

(** The regions from [i0] on that lie inside the range are between the two results. *)
Definition cut_from s a b (pre : list nat) (i0 : nat) (sr er : option mb_node) lst : Prop :=
  sr = Some (Reg i0) /\ exists mid post, lst Memory = pre ++ (i0 :: mid) ++ post /\ below a (reg_of s <$> pre) /\
    inside a b (reg_of s <$> i0 :: mid) /\ above b (reg_of s <$> post) /\ er = head (Reg <$> post).

Lemma separate_rest fuel s lst a b pre i0 mid ys : mb_ok s lst -> lst Memory = pre ++ (i0 :: mid) ++ ys -> (length ys < fuel)%nat ->
  below a (reg_of s <$> pre) -> inside a b (reg_of s <$> i0 :: mid) ->
  wp (separate_loop max fuel (head (Reg <$> ys)) a b (Some (Reg i0)) (head (Reg <$> ys))) (fun r s' => exists lst', same_map s lst s' lst' /\
    (r.1.1 = - RT_ENOMEM /\ exhausted lst' \/ r.1.1 = RT_EOK /\ cut_from s' a b pre i0 r.1.2 r.2 lst')) s.
Proof.
  revert s lst mid ys. induction fuel as [|fuel IH]; intros s lst mid ys Hok E Hf Hpre Hmid; [lia|]. cbn [separate_loop].
  assert (Hrefl : same_map s lst s lst) by by split.
  destruct ys as [|i ys]; cbn [fmap list_fmap head].
  { wp_step. exists lst. split; [done|]. right. split; [done|]. split; [done|]. exists mid, []. split_and!; try done. constructor. }
  do 2 wp_step. pose proof (mo_sorted _ _ Hok Memory) as Hs. unfold regs in Hs. rewrite E, !fmap_app in Hs.
  apply sorted_app in Hs as (_ & Hs & _). apply sorted_app in Hs as (Hs0 & Hs & Hs1). rewrite fmap_cons in Hs. destruct Hs as (_ & Hi & Hs).
  assert (Ha : a <= mb_start s (Reg i)).
  { specialize (Hs1 (mb_start s (Reg i0)) (mb_end s (Reg i0)) (mb_flags s (Reg i0)) (mb_start s (Reg i)) (mb_end s (Reg i)) (mb_flags s (Reg i)) ltac:(left) ltac:(left)).
    apply Forall_cons in Hmid as [[? ?] _]. destruct Hs0 as (_ & ? & _). simpl in *. lia. }
  assert (E' : lst Memory = (pre ++ i0 :: mid) ++ i :: ys) by (by rewrite <- app_assoc).
  destruct (Z.leb_spec b (mb_start s (Reg i))).
  { wp_step. exists lst. split; [done|]. right. split; [done|]. split; [done|]. exists mid, (i :: ys). split_and!; try done.
    rewrite fmap_cons. apply Forall_cons. split; [done|]. by apply (sorted_above (mb_end s (Reg i))); [|lia]. }
  rewrite (proj2 (Z.leb_gt _ _)), (proj2 (Z.ltb_ge _ _)) by lia. destruct (Z.ltb_spec b (mb_end s (Reg i))).
  - wp_step. apply (split_reg_wp s lst (pre ++ i0 :: mid) i ys (mb_start s (Reg i)) b (mb_end s (Reg i)) (mb_flags s (Reg i))); [done|done|done|lia|..].
    { intros Hex. rewrite decide_True by done. wp_step. exists lst. split; [done|]. by left. }
    intros s1 k lst' s2 Hsm E2 Hri Hrk Hrpre Hrys. rewrite decide_False by tauto. do 2 wp_step. do 2 wp_step. wp_step. fold s2.
    exists lst'. split; [done|]. right. split; [done|]. split; [done|]. exists (mid ++ [i]), (k :: ys). rewrite fmap_app in Hrpre.
    rewrite fmap_app in Hrpre. apply app_inj_1 in Hrpre as [Hrpre Hrmid]; [|by rewrite !length_fmap].
    split_and!.
    + rewrite E2, <- app_assoc. simpl. by rewrite <- app_assoc.
    + by rewrite Hrpre.
    + rewrite app_comm_cons, fmap_app, Hrmid. apply Forall_app. split; [done|]. apply Forall_singleton. rewrite Hri. simpl. lia.
    + rewrite fmap_cons, Hrk, Hrys. apply Forall_cons. split; [simpl; lia|]. by apply (sorted_above (mb_end s (Reg i))); [|lia].
    + rewrite <- (node_at_snoc Memory (pre ++ i0 :: mid) i). rewrite (next_at max s2 lst' Memory _ (k :: ys)); [done|apply Hsm|].
      by rewrite E2, <- !app_assoc.
  - rewrite <- (node_at_snoc Memory (pre ++ i0 :: mid) i), (next_at max s lst Memory _ ys); [|apply Hok|by rewrite E', <- !app_assoc].
    apply (IH s lst (mid ++ [i]) ys); [done| |simpl in Hf; lia|done|].
    + rewrite E. simpl. by rewrite <- app_assoc.
    + rewrite app_comm_cons, fmap_app. apply Forall_app. split; [done|]. apply Forall_singleton. simpl. lia.
Qed.

(** The first region that starts inside the range is the first result. *)
Lemma separate_at fuel s lst a b pre i0 ys sr er : mb_ok s lst -> lst Memory = pre ++ i0 :: ys -> (length ys < fuel)%nat ->
  below a (reg_of s <$> pre) -> a <= mb_start s (Reg i0) < b ->
  sr = Some (Reg i0) \/ mb_end s (Reg i0) <= b /\ er = None ->
  wp (separate_loop max (S fuel) (Some (Reg i0)) a b sr er) (fun r s' => exists lst', same_map s lst s' lst' /\
    (r.1.1 = - RT_ENOMEM /\ exhausted lst' \/ r.1.1 = RT_EOK /\ cut_from s' a b pre i0 r.1.2 r.2 lst')) s.
Proof.
  intros Hok E Hf Hpre Hc Hsr. cbn [separate_loop]. do 2 wp_step.
  pose proof (mo_sorted _ _ Hok Memory) as Hs. unfold regs in Hs. rewrite E, fmap_app, fmap_cons in Hs.
  apply sorted_app in Hs as (_ & (_ & Hi & Hs) & _).
  assert (Hrefl : same_map s lst s lst) by by split.
  rewrite (proj2 (Z.leb_gt _ _)), (proj2 (Z.leb_gt _ _)), (proj2 (Z.ltb_ge _ _)) by lia. destruct (Z.ltb_spec b (mb_end s (Reg i0))).
  - destruct Hsr as [->|[? _]]; [|lia]. wp_step.
    apply (split_reg_wp s lst pre i0 ys (mb_start s (Reg i0)) b (mb_end s (Reg i0)) (mb_flags s (Reg i0))); [done|done|done|lia|..].
    { intros Hex. rewrite decide_True by done. wp_step. exists lst. split; [done|]. by left. }
    intros s1 k lst' s2 Hsm E2 Hri Hrk Hrpre Hrys. rewrite decide_False by tauto. do 2 wp_step. do 2 wp_step. wp_step. fold s2.
    exists lst'. split; [done|]. right. split; [done|]. split; [done|]. exists [], (k :: ys). split_and!.
    + by rewrite E2.
    + by rewrite Hrpre.
    + apply Forall_singleton. rewrite Hri. simpl. lia.
    + rewrite fmap_cons, Hrk, Hrys. apply Forall_cons. split; [simpl; lia|]. by apply (sorted_above (mb_end s (Reg i0))); [|lia].
    + rewrite <- (node_at_snoc Memory pre i0). rewrite (next_at max s2 lst' Memory _ (k :: ys)); [done|apply Hsm|by rewrite E2, <- app_assoc].
  - assert (E1 : match er with Some _ => sr | None => Some (Reg i0) end = Some (Reg i0)) by (destruct Hsr as [->|[_ ->]]; [by destruct er|done]).
    rewrite E1. rewrite <- (node_at_snoc Memory pre i0) at 1 3. rewrite !(next_at max s lst Memory _ ys); [|apply Hok|by rewrite E, <- app_assoc].
    apply (separate_rest fuel s lst a b pre i0 []); [done|done|done|done|]. apply Forall_singleton. simpl. lia.
Qed.

(** The first region that reaches into the range starts inside it and reaches over its end. *)
Definition missed rs a b : Prop := exists c e f, (c, e, f) ∈ rs /\ a <= c < b /\ b < e /\
  forall c' e' f', (c', e', f') ∈ rs -> a < e' -> c <= c'.

Lemma separate_first fuel s lst a b pre ys : mb_ok s lst -> lst Memory = pre ++ ys -> (S (length ys) < fuel)%nat -> a < b ->
  below a (reg_of s <$> pre) ->
  wp (separate_loop max fuel (head (Reg <$> ys)) a b None None) (fun r s' => exists lst', same_map s lst s' lst' /\
    (r.1.1 = - RT_ENOMEM /\ exhausted lst' \/ r.1.1 = RT_EOK /\
      ((~ missed (regs s lst Memory) a b /\ exists pre i0, cut_from s' a b pre i0 r.1.2 r.2 lst') \/
       r.1.2 = None /\ (missed (regs s lst Memory) a b \/ ~ overlap (regs s lst Memory) a b)))) s.
Proof.
  revert s lst pre ys. induction fuel as [|fuel IH]; intros s lst pre ys Hok E Hf Hab Hpre; [lia|].
  assert (Hrefl : same_map s lst s lst) by by split.
  assert (Eregs : regs s lst Memory = (reg_of s <$> pre) ++ (reg_of s <$> ys)) by (unfold regs; by rewrite E, fmap_app).
  assert (Hlow : forall c e f, (c, e, f) ∈ reg_of s <$> pre -> e <= a) by (intros c e f Hin; by apply (proj1 (Forall_forall _ _) Hpre _ Hin)).
  destruct ys as [|i ys]; cbn [fmap list_fmap head].
  { cbn [separate_loop]. wp_step. exists lst. split; [done|]. right. split; [done|]. right. split; [done|]. right.
    rewrite Eregs, app_nil_r. intros (c & e & f & Hin%Hlow & ? & ?). lia. }
  pose proof (mo_sorted _ _ Hok Memory) as Hs. rewrite Eregs, fmap_cons in Hs. apply sorted_app in Hs as (_ & (_ & Hi & Hs) & Hord).
  assert (Hlater : forall c e f, (c, e, f) ∈ reg_of s <$> ys -> mb_end s (Reg i) <= c /\ c < e).
  { intros c e f Hin. destruct (sorted_in _ _ _ _ _ Hs Hin). lia. }
  assert (Hall : forall c e f, (c, e, f) ∈ regs s lst Memory -> e <= a \/ (c, e, f) = reg_of s i \/ mb_end s (Reg i) <= c /\ c < e).
  { intros c e f. rewrite Eregs, elem_of_app, fmap_cons, elem_of_cons. intros [H|[H|H]]; [left; eauto|auto|right; right; eauto]. }
  assert (Hini : reg_of s i ∈ regs s lst Memory) by (rewrite Eregs, elem_of_app, fmap_cons; right; by left).
  cbn [separate_loop]. do 2 wp_step. destruct (Z.leb_spec b (mb_start s (Reg i))).
  { wp_step. exists lst. split; [done|]. right. split; [done|]. right. split; [done|]. right.
    intros (c & e & f & [?|[[= -> -> ->]|?]]%Hall & ? & ?); lia. }
  destruct (Z.leb_spec (mb_end s (Reg i)) a).
  { rewrite <- (node_at_snoc Memory pre i), (next_at max s lst Memory _ ys); [|apply Hok|by rewrite E, <- app_assoc].
    apply (IH s lst (pre ++ [i]) ys); [done|by rewrite <- app_assoc|simpl in Hf; lia|done|].
    rewrite fmap_app. apply Forall_app. split; [done|]. by apply Forall_singleton. }
  destruct (Z.ltb_spec (mb_start s (Reg i)) a).
  - wp_step. assert (Hnm : ~ missed (regs s lst Memory) a b).
    { intros (c & e & f & _ & ? & _ & Hmin). specialize (Hmin _ _ _ Hini). lia. }
    apply (split_reg_wp s lst pre i ys (mb_start s (Reg i)) a (mb_end s (Reg i)) (mb_flags s (Reg i))); [done|done|done|lia|..].
    { intros Hex. rewrite decide_True by done. wp_step. exists lst. split; [done|]. by left. }
    intros s1 k lst' s2 Hsm E2 Hri Hrk Hrpre Hrys. rewrite decide_False by tauto. do 2 wp_step. do 2 wp_step. fold s2.
    assert (En : _next_region (Some (Reg i)) s2 = Some (Reg k)).
    { rewrite <- (node_at_snoc Memory pre i). rewrite (next_at max s2 lst' Memory _ (k :: ys)); [done|apply Hsm|by rewrite E2, <- app_assoc]. }
    rewrite En. destruct fuel as [|fuel]; [simpl in Hf; lia|].
    assert (Hrk' : mb_start s2 (Reg k) = a) by (unfold reg_of in Hrk; congruence).
    eapply wp_mono; [apply (separate_at fuel s2 lst' a b (pre ++ [i]) k ys); [apply Hsm|by rewrite E2, <- app_assoc|simpl in Hf; lia| |lia|by left]|].
    { rewrite fmap_app, Hrpre. apply Forall_app. split; [done|]. apply Forall_singleton. rewrite Hri. simpl. lia. }
    cbv beta. intros r s3 (lst3 & Hsm3 & Hr). exists lst3. split; [by apply (same_map_trans _ _ s2 lst')|].
    destruct Hr as [?|[? Hcut]]; [by left|]. right. split; [done|]. left. eauto.
  - destruct (Z.ltb_spec b (mb_end s (Reg i))).
    + wp_step. assert (Hm : missed (regs s lst Memory) a b).
      { exists (mb_start s (Reg i)), (mb_end s (Reg i)), (mb_flags s (Reg i)). split; [done|]. split; [lia|]. split; [lia|].
        intros c e f [?|[[= -> -> ->]|?]]%Hall ?; lia. }
      apply (split_reg_wp s lst pre i ys (mb_start s (Reg i)) b (mb_end s (Reg i)) (mb_flags s (Reg i))); [done|done|done|lia|..].
      { intros Hex. rewrite decide_True by done. wp_step. exists lst. split; [done|]. by left. }
      intros s1 k lst' s2 Hsm E2 Hri Hrk Hrpre Hrys. rewrite decide_False by tauto. do 2 wp_step. do 2 wp_step. wp_step. fold s2.
      exists lst'. split; [done|]. right. split; [done|]. right. split; [done|]. by left.
    + assert (Hnm : ~ missed (regs s lst Memory) a b).
      { intros (c & e & f & Hin & ? & ? & Hmin). specialize (Hmin _ _ _ Hini). apply Hall in Hin as [?|[[= -> -> ->]|?]]; lia. }
      assert (En : _next_region (Some (Reg i)) s = head (Reg <$> ys)).
      { rewrite <- (node_at_snoc Memory pre i). apply (next_at max s lst); [apply Hok|by rewrite E, <- app_assoc]. }
      rewrite En. eapply wp_mono; [apply (separate_rest fuel s lst a b pre i []); [done|done|simpl in Hf; lia|done|]|].
      { apply Forall_singleton. simpl. lia. }
      cbv beta. intros r s' (lst' & Hsm & Hr). exists lst'. split; [done|]. destruct Hr as [?|[? Hcut]]; [by left|].
      right. split; [done|]. left. eauto.
Qed.

(** ** Flagging what was cut out *)

Lemma set_flag_wp fuel s lst pre mid post F : mb_shape max s lst -> lst Memory = pre ++ mid ++ post -> (length mid < fuel)%nat ->
  wp (set_flag_loop fuel (head (Reg <$> mid ++ post)) (head (Reg <$> post)) F) (fun _ s' => mb_shape max s' lst /\
    (forall i, i ∉ mid -> reg_of s' i = reg_of s i) /\
    forall i, i ∈ mid -> reg_of s' i = (mb_start s (Reg i), mb_end s (Reg i), Z.lor (mb_flags s (Reg i)) F)) s.
Proof.
  revert s pre mid. induction fuel as [|fuel IH]; intros s pre mid H E Hf; [lia|]. cbn [set_flag_loop].
  destruct mid as [|i mid]; simpl app.
  { rewrite decide_True by done. wp_step. split; [done|]. split; [done|]. intros i Hi. by apply not_elem_of_nil in Hi. }
  pose proof (shape_nodup max s lst Memory H) as Hnd. rewrite E in Hnd. apply NoDup_app in Hnd as (_ & _ & Hnd).
  cbn [app] in Hnd. apply NoDup_cons in Hnd as [Hi Hnd]. rewrite elem_of_app in Hi.
  rewrite decide_False.
  2: { destruct post as [|p post]; [done|]. intros [= ->]. apply Hi. right. by left. }
  wp_step. eapply wp_deref; [done|]. do 2 wp_step. do 2 wp_step. set (s1 := set_mb_flags _ _ s).
  assert (H1 : mb_shape max s1 lst) by by apply (shape_same max s).
  assert (En : _next_region (head (Reg <$> i :: mid ++ post)) s1 = head (Reg <$> mid ++ post)).
  { cbn [fmap list_fmap head]. rewrite <- (node_at_snoc Memory pre i). apply (next_at max s1 lst); [done|]. by rewrite E, <- app_assoc. }
  rewrite En. eapply wp_mono; [apply (IH s1 (pre ++ [i]) mid); [done|by rewrite E, <- app_assoc|simpl in Hf; lia]|].
  cbv beta. intros _ s2 (H2 & Hout & Hin). split; [done|]. split.
  - intros j Hj. rewrite elem_of_cons in Hj. rewrite Hout by tauto. unfold reg_of, s1. simpl. rewrite fupd_ne; [done|]. intros [= ->]. tauto.
  - intros j [->|Hj]%elem_of_cons.
    + rewrite Hout by tauto. unfold reg_of, s1. simpl. by rewrite fupd_eq.
    + rewrite (Hin j Hj). unfold s1. simpl. rewrite fupd_ne; [done|]. intros [= ->]. tauto.
Qed.

(** The flags are set exactly inside the range. *)
Lemma flagged_mapped r1 r2 r3 r2' a b F : below a r1 -> inside a b r2 -> above b r3 ->
  r2' = (fun r => (r.1.1, r.1.2, Z.lor r.2 F)) <$> r2 -> forall x f',
  mapped (r1 ++ r2' ++ r3) x f' <-> exists f, mapped (r1 ++ r2 ++ r3) x f /\ f' = if decide (a <= x < b) then Z.lor f F else f.
Proof.
  intros H1 H2 H3 -> x f'. setoid_rewrite mapped_app. setoid_rewrite mapped_app.
  assert (A1 : forall f, mapped r1 x f -> ~ a <= x < b) by (intros f (c & e & Hin & ?); apply (proj1 (Forall_forall _ _) H1) in Hin; simpl in Hin; lia).
  assert (A2 : forall f, mapped r2 x f -> a <= x < b) by (intros f (c & e & Hin & ?); apply (proj1 (Forall_forall _ _) H2) in Hin; simpl in Hin; lia).
  assert (A3 : forall f, mapped r3 x f -> ~ a <= x < b) by (intros f (c & e & Hin & ?); apply (proj1 (Forall_forall _ _) H3) in Hin; simpl in Hin; lia).
  assert (M2 : mapped ((fun r => (r.1.1, r.1.2, Z.lor r.2 F)) <$> r2) x f' <-> exists f, mapped r2 x f /\ f' = Z.lor f F).
  { split.
    - intros (c & e & ([[c' e'] f] & [= -> -> ->] & Hin)%list_elem_of_fmap & Hx). exists f. split; [by exists c', e'|done].
    - intros (f & (c & e & Hin & Hx) & ->). exists c, e. split; [|done]. apply list_elem_of_fmap. by exists (c, e, f). }
  rewrite M2. split.
  - intros [Hm|[(f & Hm & ->)|Hm]]; eexists; (split; [eauto|]); [rewrite decide_False|rewrite decide_True|rewrite decide_False]; eauto.
  - intros (f & [Hm|[Hm|Hm]] & ->); [rewrite decide_False by eauto|rewrite decide_True by eauto|rewrite decide_False by eauto]; eauto.
Qed.

Lemma flagged_sorted lo r1 r2 r3 F : sorted_from lo (r1 ++ r2 ++ r3) -> sorted_from lo (r1 ++ ((fun r => (r.1.1, r.1.2, Z.lor r.2 F)) <$> r2) ++ r3).
Proof.
  revert lo. induction r1 as [|[[a b] f] r1 IH]; intros lo; simpl.
  - revert lo. induction r2 as [|[[a b] f] r2 IH2]; intros lo; simpl; [done|]. intros (? & ? & ?). split; [done|]. split; [done|]. by apply IH2.
  - intros (? & ? & ?). split; [done|]. split; [done|]. by apply IH.
Qed.

(** One reserved range: the memory inside gets its flags, except when it is missed. *)
Lemma flag_range_wp s lst a b F : mb_ok s lst -> a < b ->
  wp (_memblock_separate_range max Memory a b) (fun r s1 =>
    r.1.1 = - RT_ENOMEM /\ (exists lst', same_map s lst s1 lst' /\ exhausted lst') \/
    r.1.1 = RT_EOK /\ wp (_memblock_set_flag max r.1.2 r.2 F) (fun _ s' => exists lst', mb_ok s' lst' /\
      (forall l, l <> Memory -> lst' l = lst l /\ regs s' lst' l = regs s lst l) /\
      (missed (regs s lst Memory) a b -> forall x f, mapped (regs s' lst' Memory) x f <-> mapped (regs s lst Memory) x f) /\
      (~ missed (regs s lst Memory) a b -> forall x f', mapped (regs s' lst' Memory) x f' <->
        exists f, mapped (regs s lst Memory) x f /\ f' = if decide (a <= x < b) then Z.lor f F else f)) s1) s.
Proof.
  intros Hok Hab. unfold _memblock_separate_range. do 2 wp_step.
  assert (E0 : mb_links s (Head Memory) = head (Reg <$> lst Memory)) by (apply (next_at max s lst Memory []); [apply Hok|done]).
  pose proof (shape_length max s lst Memory (mo_shape _ _ Hok)) as Hlen. rewrite E0.
  eapply wp_mono; [apply (separate_first _ s lst a b [] (lst Memory)); [done|done|lia|done|constructor]|]. cbv beta.
  intros r s1 (lst1 & Hsm & [[Hr Hex]|[Hr Hcut]]); [left; eauto|]. destruct Hsm as [O1 T1 M1]. right. split; [done|].
  assert (Hnone : r.1.2 = None -> missed (regs s lst Memory) a b \/ ~ overlap (regs s lst Memory) a b ->
    wp (_memblock_set_flag max r.1.2 r.2 F) (fun _ s' => exists lst', mb_ok s' lst' /\
      (forall l, l <> Memory -> lst' l = lst l /\ regs s' lst' l = regs s lst l) /\
      (missed (regs s lst Memory) a b -> forall x f, mapped (regs s' lst' Memory) x f <-> mapped (regs s lst Memory) x f) /\
      (~ missed (regs s lst Memory) a b -> forall x f', mapped (regs s' lst' Memory) x f' <->
        exists f, mapped (regs s lst Memory) x f /\ f' = if decide (a <= x < b) then Z.lor f F else f)) s1).
  { intros -> Hmo. simpl. wp_step. exists lst1. split; [done|]. split; [done|]. split; [done|]. intros Hnm x f'. rewrite M1.
    destruct Hmo as [?|Hno]; [done|]. assert (Hx : forall f, mapped (regs s lst Memory) x f -> ~ a <= x < b).
    { intros f (c & e & Hin & ?) ?. apply Hno. exists c, e, f. split; [done|]. lia. }
    split; [intros Hm; exists f'; rewrite decide_False; eauto|]. intros (f & Hm & ->). rewrite decide_False by eauto. done. }
  destruct Hcut as [(Hnm & pre & i0 & Esr & mid & post & El & Hb & Hi & Hab' & Eer)|[Hsr Hmo]]; [|by apply Hnone].
  rewrite Esr, Eer. unfold _memblock_set_flag. pose proof (shape_length max s1 lst1 Memory (mo_shape _ _ O1)) as Hlen1. rewrite El, !length_app in Hlen1.
  eapply wp_mono; [apply (set_flag_wp (S (S max)) s1 lst1 pre (i0 :: mid) post F); [apply O1|done|lia]|]. cbv beta.
  intros _ s2 (H2 & Hout & Hin). pose proof (shape_nodup max s1 lst1 Memory (mo_shape _ _ O1)) as Hnd. rewrite El in Hnd.
  apply NoDup_app in Hnd as (_ & Hd1 & Hnd). apply NoDup_app in Hnd as (_ & Hd2 & _).
  assert (Hsame : forall zs : list nat, (forall z, z ∈ zs -> z ∉ i0 :: mid) -> reg_of s2 <$> zs = reg_of s1 <$> zs).
  { intros zs Hz. apply list_fmap_ext. intros k z Hk%list_elem_of_lookup_2. apply Hout. auto. }
  assert (Epre : reg_of s2 <$> pre = reg_of s1 <$> pre) by (apply Hsame; intros z Hz Hm; apply (Hd1 z Hz), elem_of_app; auto).
  assert (Epost : reg_of s2 <$> post = reg_of s1 <$> post) by (apply Hsame; intros z Hz Hm; by apply (Hd2 z)).
  assert (Emid : reg_of s2 <$> i0 :: mid = (fun r => (r.1.1, r.1.2, Z.lor r.2 F)) <$> (reg_of s1 <$> i0 :: mid)).
  { rewrite <- list_fmap_compose. apply list_fmap_ext. intros k z Hk%list_elem_of_lookup_2. by rewrite (Hin z Hk). }
  assert (Enew : regs s2 lst1 Memory = (reg_of s1 <$> pre) ++ ((fun r => (r.1.1, r.1.2, Z.lor r.2 F)) <$> (reg_of s1 <$> i0 :: mid)) ++ (reg_of s1 <$> post)).
  { unfold regs. by rewrite El, !fmap_app, Epre, Epost, Emid. }
  assert (Eold : regs s1 lst1 Memory = (reg_of s1 <$> pre) ++ (reg_of s1 <$> i0 :: mid) ++ (reg_of s1 <$> post)) by (unfold regs; by rewrite El, !fmap_app).
  assert (Hoth : forall l, l <> Memory -> regs s2 lst1 l = regs s1 lst1 l).
  { intros l Hl. apply Hsame. intros z Hz Hm. apply Hl, (ms_apart _ _ _ (mo_shape _ _ O1) l Memory z Hz). rewrite El, !elem_of_app. auto. }
  exists lst1. split; [split; [done|]|split; [|split; [done|]]].
  - intros l. destruct (decide (l = Memory)) as [->|Hl]; [|rewrite Hoth by done; apply O1]. rewrite Enew. apply flagged_sorted.
    rewrite <- Eold. apply O1.
  - intros l Hl. destruct (T1 l Hl) as [-> <-]. split; [done|by apply Hoth].
  - intros _ x f'. rewrite Enew. rewrite (flagged_mapped _ _ _ _ a b F Hb Hi Hab' eq_refl). rewrite <- Eold. by setoid_rewrite M1.
Qed.
End use.
