(* ===== verification/MemBlockFree.v ===== *)
(** The memory that is left for the page allocator: the cursors of [_next_free_region] over the
    memory and the reserved regions, the contracts of the start-up calls, and concrete blocks. *)
From S2P Require Import Prelude SList AspaceUnmap Buddy MemBlock MemBlockProp MemBlockUse.
#[local] Open Scope Z_scope.

Section free.
Context (max : nat).
Implicit Types (s : memblock) (lst : mb_id -> list nat) (xs ys mem : list nat).

Definition reserved s lst x : Prop := exists f, mapped (regs s lst ReservedMemory) x f.

(** The gap behind the regions [xs] begins here, and the one in front of [ys] ends here. *)
Definition glow s xs : Z := match last xs with Some i => mb_end s (Reg i) | None => 0 end.
Definition ghigh s ys : Z := match ys with i :: _ => mb_start s (Reg i) | [] => PHYS_ADDR_MAX end.

(** The cursor over the reserved regions: the regions passed, or the end. *)
Definition rcur (o : option (list nat)) : option mb_node := node_at ReservedMemory <$> o.
Definition low s (o : option (list nat)) : Z := match o with Some xs => glow s xs | None => PHYS_ADDR_MAX end.

Lemma glow_node s xs : (if decide (node_at ReservedMemory xs = Head ReservedMemory) then 0 else mb_end s (node_at ReservedMemory xs)) = glow s xs.
Proof.
  unfold glow. destruct xs as [|i xs _] using rev_ind; [done|]. rewrite node_at_snoc, last_snoc. by rewrite decide_False.
Qed.

Lemma glow_snoc s xs i : glow s (xs ++ [i]) = mb_end s (Reg i).
Proof. unfold glow. by rewrite last_snoc. Qed.

(** A gap holds no reserved address. *)
Lemma gap_free s lst xs ys x : sorted_from 0 (regs s lst ReservedMemory) -> lst ReservedMemory = xs ++ ys ->
  glow s xs <= x < ghigh s ys -> ~ reserved s lst x.
Proof.
  intros Hs E Hx (f & a & b & Hin & Hab). unfold regs in *. rewrite E, fmap_app in Hs, Hin.
  apply sorted_app in Hs as (H1 & H2 & H3). apply elem_of_app in Hin as [Hin|Hin].
  - destruct xs as [|i xs _] using rev_ind; [by apply not_elem_of_nil in Hin|]. rewrite glow_snoc in Hx.
    rewrite fmap_app in Hin, H1. apply sorted_app in H1 as (_ & (_ & Hi & _) & H4). apply elem_of_app in Hin as [Hin|[E1|Hin]%elem_of_cons].
    + pose proof (H4 a b f (mb_start s (Reg i)) (mb_end s (Reg i)) (mb_flags s (Reg i)) Hin ltac:(left)). lia.
    + injection E1 as -> -> ->. lia.
    + by apply not_elem_of_nil in Hin.
  - destruct ys as [|i ys]; [by apply not_elem_of_nil in Hin|]. simpl in Hx. rewrite fmap_cons in H2, Hin. destruct H2 as (_ & Hi & H2).
    apply elem_of_cons in Hin as [E1|Hin]; [injection E1 as -> -> ->; lia|]. destruct (sorted_in _ _ _ _ _ H2 Hin). lia.
Qed.

Lemma gap_order s lst xs ys : sorted_from 0 (regs s lst ReservedMemory) -> lst ReservedMemory = xs ++ ys -> glow s xs <= ghigh s ys.
Proof.
  intros Hs E. unfold regs in Hs. rewrite E, fmap_app in Hs. apply sorted_app in Hs as (H1 & H2 & H3).
  assert (Hl : 0 <= glow s xs <= PHYS_ADDR_MAX /\ forall i ys', ys = i :: ys' -> glow s xs <= mb_start s (Reg i)).
  { destruct xs as [|i xs _] using rev_ind.
    - split; [done|]. intros j ys' ->. destruct H2 as (? & _). done.
    - rewrite glow_snoc. assert (Hi : reg_of s i ∈ reg_of s <$> xs ++ [i]) by (rewrite fmap_app, elem_of_app; right; by left).
      destruct (sorted_in _ _ _ _ _ H1 Hi) as [? ?]. split; [lia|]. intros j ys' ->. apply (H3 (mb_start s (Reg i)) (mb_end s (Reg i)) (mb_flags s (Reg i)) (mb_start s (Reg j)) (mb_end s (Reg j)) (mb_flags s (Reg j)) Hi). left. }
  destruct ys as [|i ys]; simpl; [lia|]. by apply (proj2 Hl i ys).
Qed.

Lemma glow_pos s lst xs ys : sorted_from 0 (regs s lst ReservedMemory) -> lst ReservedMemory = xs ++ ys -> 0 <= glow s xs.
Proof.
  intros Hs E. unfold regs in Hs. rewrite E, fmap_app in Hs. apply sorted_app in Hs as (H1 & _).
  destruct xs as [|i xs _] using rev_ind; [done|]. rewrite glow_snoc.
  assert (Hi : reg_of s i ∈ reg_of s <$> xs ++ [i]) by (rewrite fmap_app, elem_of_app; right; by left).
  destruct (sorted_in _ _ _ _ _ H1 Hi). lia.
Qed.

(** ** The inner loop *)

(** The cursor [o] is at most behind [xs], and what lies between and is not before [ms] is
    reserved. *)
Record passed s lst ms xs o : Prop := {
  pa_le : glow s xs <= low s o;
  pa_res : forall x, ms <= x -> glow s xs <= x < low s o -> reserved s lst x;
  pa_at : forall xs', o = Some xs' -> exists ys', lst ReservedMemory = xs' ++ ys' /\ (length xs <= length xs')%nat }.

Lemma gap_loop_spec fuel s lst xs ys ms me : mb_ok max s lst -> lst ReservedMemory = xs ++ ys -> (S (length ys) < fuel)%nat -> me <= PHYS_ADDR_MAX ->
  exists o res, gap_loop fuel (rcur (Some xs)) ms me s = Some (rcur o, res) /\ passed s lst ms xs o /\
  match res with
  | None => me <= low s o
  | Some (gs, ge) => exists xs' ys', o = Some xs' /\ lst ReservedMemory = xs' ++ ys' /\ gs = glow s xs' /\ ge = ghigh s ys' /\ gs < ge /\ gs < me /\ ms < ge
  end.
Proof.
  intros Hok. revert xs ys. induction fuel as [|fuel IH]; intros xs ys E Hf Hme; [lia|].
  assert (Hnext : _next_region (rcur (Some xs)) s = head (Reg <$> ys)) by (apply (next_at max s lst); [apply Hok|done]).
  assert (Hnow : passed s lst ms xs (Some xs)) by (split; [simpl; lia|simpl; lia|intros xs' [= <-]; by exists ys]).
  cbn [gap_loop rcur fmap option_fmap option_map]. rewrite glow_node.
  assert (Ehigh : match _next_region (rcur (Some xs)) s with Some nx => mb_start s nx | None => PHYS_ADDR_MAX end = ghigh s ys).
  { rewrite Hnext. by destruct ys. }
  cbn [rcur fmap option_fmap option_map] in Ehigh, Hnext. rewrite Ehigh, Hnext.
  pose proof (mo_sorted _ _ _ Hok ReservedMemory) as Hs. pose proof (gap_order s lst xs ys Hs E) as Hxs.
  assert (Hskip : glow s xs = ghigh s ys \/ ghigh s ys <= ms -> exists o res, gap_loop fuel (head (Reg <$> ys)) ms me s = Some (rcur o, res) /\ passed s lst ms xs o /\
    match res with
    | None => me <= low s o
    | Some (gs, ge) => exists xs' ys', o = Some xs' /\ lst ReservedMemory = xs' ++ ys' /\ gs = glow s xs' /\ ge = ghigh s ys' /\ gs < ge /\ gs < me /\ ms < ge
    end).
  { intros Hgap. destruct ys as [|i ys].
    - destruct fuel as [|fuel]; [simpl in Hf; lia|]. exists None, None. split; [done|]. simpl in *. split; [|lia].
      split; [done|intros x ? ?; simpl in *; exfalso; lia|done].
    - destruct (IH (xs ++ [i]) ys) as (o & res & Eo & [P1 P2 P3] & Hres); [by rewrite <- app_assoc|simpl in Hf; lia|done|].
      cbn [rcur fmap option_fmap option_map] in Eo. rewrite node_at_snoc in Eo. exists o, res. split; [done|]. split; [|done].
      rewrite glow_snoc in P1, P2. simpl in Hgap, Hxs.
      assert (Hi : reg_of s i ∈ regs s lst ReservedMemory) by (unfold regs; rewrite E, fmap_app, elem_of_app; right; by left).
      destruct (sorted_in _ _ _ _ _ Hs Hi) as [_ Hi2]. split; [lia| |].
      + intros x Hx Hx2. destruct (Z_lt_le_dec x (mb_end s (Reg i))); [|apply P2; lia].
        exists (mb_flags s (Reg i)), (mb_start s (Reg i)), (mb_end s (Reg i)). split; [done|]. lia.
      + intros xs' Ex. destruct (P3 xs' Ex) as (ys' & E' & Hl). exists ys'. rewrite length_app in Hl. split; [done|lia]. }
  destruct (Z.eqb_spec (glow s xs) (ghigh s ys)); [apply Hskip; auto|].
  destruct (Z.leb_spec me (glow s xs)).
  { exists (Some xs), None. split; [done|]. split; [done|]. done. }
  destruct (Z.ltb_spec ms (ghigh s ys)); [|apply Hskip; auto].
  exists (Some xs), (Some (glow s xs, ghigh s ys)). split; [done|]. split; [done|]. exists xs, ys. split_and!; try done. lia.
Qed.

(** ** The next region *)

(** What is left to find: in a region of [mem] with the flags, not reserved, and not before
    the cursor over the reserved regions. *)
Definition remaining s lst (flags : Z) mem o x : Prop := mapped (reg_of s <$> mem) x flags /\ ~ reserved s lst x /\ low s o <= x.

Definition gaps_left lst (o : option (list nat)) : nat := match o with Some xs => length (lst ReservedMemory) - length xs | None => 0 end.

(** The cursor is inside the list of the reserved regions. *)
Definition at_reserved lst (o : option (list nat)) : Prop := forall xs, o = Some xs -> exists ys, lst ReservedMemory = xs ++ ys.

Lemma low_bound s lst o : mb_ok max s lst -> at_reserved lst o -> low s o <= PHYS_ADDR_MAX.
Proof.
  intros Hok Ho. destruct o as [xs|]; [|simpl; lia]. destruct (Ho xs eq_refl) as (ys & E). simpl.
  pose proof (mo_sorted _ _ _ Hok ReservedMemory) as Hs. unfold regs in Hs. rewrite E, fmap_app in Hs. apply sorted_app in Hs as (H1 & _).
  destruct xs as [|i xs _] using rev_ind; [done|]. rewrite glow_snoc.
  assert (Hi : reg_of s i ∈ reg_of s <$> xs ++ [i]) by (rewrite fmap_app, elem_of_app; right; by left).
  destruct (sorted_in _ _ _ _ _ H1 Hi) as [? ?]. lia.
Qed.

(** The cursor of the gap search from any place, the end included. *)
Lemma gap_from s lst o ms me : mb_ok max s lst -> at_reserved lst o -> me <= PHYS_ADDR_MAX ->
  exists o' res, gap_loop (S (S max)) (rcur o) ms me s = Some (rcur o', res) /\ at_reserved lst o' /\
  (gaps_left lst o' <= gaps_left lst o)%nat /\ low s o <= low s o' /\ (forall x, ms <= x -> low s o <= x < low s o' -> reserved s lst x) /\
  match res with
  | None => me <= low s o'
  | Some (gs, ge) => exists xs' ys', o' = Some xs' /\ lst ReservedMemory = xs' ++ ys' /\ gs = glow s xs' /\ ge = ghigh s ys' /\ gs < ge /\ gs < me /\ ms < ge
  end.
Proof.
  intros Hok Ho Hme. destruct o as [xs|].
  - destruct (Ho xs eq_refl) as (ys & E). pose proof (shape_length max s lst ReservedMemory (mo_shape _ _ _ Hok)) as Hl. rewrite E, length_app in Hl.
    destruct (gap_loop_spec (S (S max)) s lst xs ys ms me Hok E ltac:(lia) Hme) as (o' & res & -> & [P1 P2 P3] & Hres).
    exists o', res. split; [done|]. split; [|split; [|done]].
    + intros xs' Ex. destruct (P3 xs' Ex) as (ys' & ? & _). eauto.
    + unfold gaps_left. destruct o' as [xs'|]; [|lia]. destruct (P3 xs' eq_refl) as (ys' & _ & ?). lia.
  - exists None, None. split; [done|]. split; [done|]. split; [done|]. simpl. split; [lia|]. split; [intros; lia|lia].
Qed.

(** A region that ends at 0 has no gap, wherever it starts: the cursor moves as for an empty
    region at 0. *)
Lemma gap_loop_zero fuel s lst xs ys ms : mb_ok max s lst -> lst ReservedMemory = xs ++ ys ->
  gap_loop fuel (rcur (Some xs)) ms 0 s = gap_loop fuel (rcur (Some xs)) 0 0 s.
Proof.
  intros Hok. revert xs ys. induction fuel as [|fuel IH]; intros xs ys E; [done|].
  cbn [gap_loop rcur fmap option_fmap option_map]. rewrite glow_node.
  pose proof (glow_pos s lst xs ys (mo_sorted _ _ _ Hok ReservedMemory) E) as Hpos.
  rewrite (proj2 (Z.leb_le _ _)) by done. case_match; [|done].
  rewrite (next_at max s lst ReservedMemory xs ys) by (done || apply Hok). destruct ys as [|i ys]; [by destruct fuel|].
  specialize (IH (xs ++ [i]) ys ltac:(by rewrite <- app_assoc)). cbn [rcur fmap option_fmap option_map] in IH.
  by rewrite node_at_snoc in IH.
Qed.

Lemma gap_zero s lst o ms : mb_ok max s lst -> at_reserved lst o ->
  exists o', gap_loop (S (S max)) (rcur o) ms 0 s = Some (rcur o', None) /\ at_reserved lst o' /\
  (gaps_left lst o' <= gaps_left lst o)%nat /\ low s o <= low s o' /\ (forall x, 0 <= x -> low s o <= x < low s o' -> reserved s lst x).
Proof.
  intros Hok Ho. destruct (gap_from s lst o 0 0 Hok Ho ltac:(done)) as (o' & res & E & A & B & C & D & Hres).
  assert (Hno : res = None).
  { destruct res as [[gs ge]|]; [|done]. destruct Hres as (xs' & ys' & -> & E' & -> & _ & _ & ? & _).
    pose proof (glow_pos s lst xs' ys' (mo_sorted _ _ _ Hok ReservedMemory) E'). lia. }
  subst res. exists o'. split; [|done]. destruct o as [xs|]; [|exact E]. destruct (Ho xs eq_refl) as (ys & Exs).
  by rewrite (gap_loop_zero _ s lst xs ys).
Qed.

Lemma mapped_reg s i mem x f : mapped (reg_of s <$> i :: mem) x f <->
  mb_start s (Reg i) <= x < mb_end s (Reg i) /\ f = mb_flags s (Reg i) \/ mapped (reg_of s <$> mem) x f.
Proof. apply mapped_cons. Qed.

(** The regions behind [i] begin behind its end. *)
Lemma behind s i mem x f lo : sorted_from lo (reg_of s <$> i :: mem) -> mapped (reg_of s <$> mem) x f -> mb_end s (Reg i) <= x.
Proof. rewrite fmap_cons. intros (_ & _ & Hs) (a & b & Hin & Hx). destruct (sorted_in _ _ _ _ _ Hs Hin). lia. Qed.

Lemma next_free_spec fuel s lst zs mem o flags : mb_ok max s lst -> lst Memory = zs ++ mem -> (length mem < fuel)%nat -> at_reserved lst o ->
  exists m' o' out, next_free_loop max fuel (head (Reg <$> mem)) (rcur o) flags s = Some (m', rcur o', out) /\
  match out with
  | None => m' = Some (Head Memory) /\ forall x, ~ remaining s lst flags mem o x
  | Some (p, q) => exists zs' mem', lst Memory = zs' ++ mem' /\ m' = head (Reg <$> mem') /\ at_reserved lst o' /\ p < q /\
      (length mem' + gaps_left lst o' < length mem + gaps_left lst o)%nat /\
      (forall x, remaining s lst flags mem o x <-> p <= x < q \/ remaining s lst flags mem' o' x) /\
      (forall x, remaining s lst flags mem' o' x -> q <= x)
  end.
Proof.
  intros Hok. revert zs mem o. induction fuel as [|fuel IH]; intros zs mem o E Hf Ho; [lia|]. cbn [next_free_loop].
  destruct mem as [|i mem]; cbn [fmap list_fmap head].
  { exists (Some (Head Memory)), o, None. split; [done|]. split; [done|]. intros x (Hm & _). by apply mapped_nil in Hm. }
  assert (En : _next_region (Some (Reg i)) s = head (Reg <$> mem)).
  { rewrite <- (node_at_snoc Memory zs i). apply (next_at max s lst); [apply Hok|by rewrite E, <- app_assoc]. }
  pose proof (mo_sorted _ _ _ Hok Memory) as Hs. unfold regs in Hs. rewrite E, fmap_app in Hs. apply sorted_app in Hs as (_ & Hs & _).
  assert (Hi : mb_start s (Reg i) < mb_end s (Reg i) <= PHYS_ADDR_MAX) by (rewrite fmap_cons in Hs; by destruct Hs as (_ & ? & _)).
  assert (E' : lst Memory = (zs ++ [i]) ++ mem) by by rewrite <- app_assoc.
  destruct (decide (mb_flags s (Reg i) <> flags)) as [Hfl|Hfl].
  { rewrite En. destruct (IH (zs ++ [i]) mem o E' ltac:(simpl in Hf; lia) Ho) as (m' & o' & out & -> & Hout). exists m', o', out. split; [done|].
    assert (Hskip : forall x, remaining s lst flags (i :: mem) o x <-> remaining s lst flags mem o x).
    { intros x. unfold remaining. rewrite mapped_reg. naive_solver. }
    destruct out as [[p q]|]; [|destruct Hout; split; [done|]; intros x; rewrite Hskip; eauto].
    destruct Hout as (zs' & mem' & ? & ? & ? & ? & ? & Hx & ?). exists zs', mem'. split_and!; try done; [simpl; lia|]. intros x. by rewrite Hskip, Hx. }
  assert (Hflags : mb_flags s (Reg i) = flags) by (destruct (decide (mb_flags s (Reg i) = flags)); tauto). clear Hfl.
  destruct (gap_from s lst o (mb_start s (Reg i)) (mb_end s (Reg i)) Hok Ho ltac:(lia)) as (o1 & res & -> & Ho1 & Hgl & Hlow & Hres & Hcase).
  cbn [mbind option_bind].
  assert (Hcons : forall o x, remaining s lst flags (i :: mem) o x <-> (mb_start s (Reg i) <= x < mb_end s (Reg i) \/ mapped (reg_of s <$> mem) x flags) /\ ~ reserved s lst x /\ low s o <= x).
  { intros o2 x. unfold remaining. rewrite mapped_reg, Hflags. naive_solver. }
  destruct res as [[gs ge]|].
  2: { rewrite En. destruct (IH (zs ++ [i]) mem o1 E' ltac:(simpl in Hf; lia) Ho1) as (m' & o' & out & -> & Hout). exists m', o', out. split; [done|].
    assert (Hskip : forall x, remaining s lst flags (i :: mem) o x <-> remaining s lst flags mem o1 x).
    { intros x. rewrite Hcons. unfold remaining. split.
      - intros (Hx & Hnr & Hx2). destruct (Z_lt_le_dec x (low s o1)) as [Hlt|Hge].
        + exfalso. apply Hnr, Hres; [|lia]. destruct Hx as [?|Hm]; [lia|]. pose proof (behind _ _ _ _ _ _ Hs Hm). lia.
        + destruct Hx as [?|Hm]; [lia|done].
      - intros (? & ? & ?). split_and!; [auto|done|lia]. }
    destruct out as [[p q]|]; [|destruct Hout; split; [done|]; intros x; rewrite Hskip; eauto].
    destruct Hout as (zs' & mem' & ? & ? & ? & ? & ? & Hx & ?). exists zs', mem'. split_and!; try done; [simpl; lia|]. intros x. by rewrite Hskip, Hx. }
  destruct Hcase as (xs' & ys' & -> & Er & -> & -> & Hg & Hgm & Hmg).
  assert (Hfree : forall x, glow s xs' <= x < ghigh s ys' -> ~ reserved s lst x) by (intros x; apply gap_free; [apply Hok|done]).
  cbn [low] in Hlow, Hres. destruct (Z.leb_spec (mb_end s (Reg i)) (ghigh s ys')).
  - rewrite En. eexists _, (Some xs'), _. split; [done|]. exists (zs ++ [i]), mem. split; [done|]. split; [done|]. split; [done|].
    split; [lia|]. split; [simpl in *; lia|]. split.
    + intros x. rewrite Hcons. unfold remaining. cbn [low]. split.
      * intros (Hx & Hnr & Hx2). assert (glow s xs' <= x).
        { destruct (Z_lt_le_dec x (glow s xs')); [|done]. exfalso. apply Hnr, Hres; [|lia]. destruct Hx as [?|Hm]; [lia|]. pose proof (behind _ _ _ _ _ _ Hs Hm). lia. }
        destruct Hx as [?|Hm]; [left; lia|right; done].
      * intros [Hx|(Hm & Hnr & ?)]; [|split_and!; [auto|done|lia]]. split_and!; [left; lia|apply Hfree; lia|lia].
    + intros x (Hm & _). pose proof (behind _ _ _ _ _ _ Hs Hm). lia.
  - destruct ys' as [|j ys']; [simpl in *; lia|]. cbn [ghigh] in *.
    change (rcur (Some xs')) with (Some (node_at ReservedMemory xs')). rewrite (next_at max s lst ReservedMemory xs' (j :: ys')); [|apply Hok|done].
    eexists _, (Some (xs' ++ [j])), _. split; [cbn [rcur fmap option_fmap option_map]; rewrite node_at_snoc; done|]. exists zs, (i :: mem). split; [done|]. split; [done|].
    assert (Hj : reg_of s j ∈ regs s lst ReservedMemory) by (unfold regs; rewrite Er, fmap_app, elem_of_app; right; by left).
    destruct (sorted_in _ _ _ _ _ (mo_sorted _ _ _ Hok ReservedMemory) Hj) as [_ Hj2].
    split; [intros ? [= <-]; exists ys'; by rewrite <- app_assoc|]. split; [lia|]. split.
    { cbn [gaps_left] in *. rewrite Er, !length_app in *. simpl in *. lia. }
    assert (Hjr : forall x, mb_start s (Reg j) <= x < mb_end s (Reg j) -> reserved s lst x) by (intros x ?; by exists (mb_flags s (Reg j)), (mb_start s (Reg j)), (mb_end s (Reg j))).
    split.
    + intros x. rewrite !Hcons. cbn [low]. rewrite glow_snoc. split.
      * intros (Hx & Hnr & Hx2). assert (mb_start s (Reg i) <= x) by (destruct Hx as [?|Hm]; [lia|]; pose proof (behind _ _ _ _ _ _ Hs Hm); lia).
        assert (glow s xs' <= x) by (destruct (Z_lt_le_dec x (glow s xs')); [|done]; exfalso; apply Hnr, Hres; lia).
        destruct (Z_lt_le_dec x (mb_start s (Reg j))); [left; lia|]. right. split; [done|]. split; [done|].
        destruct (Z_lt_le_dec x (mb_end s (Reg j))); [|done]. exfalso. apply Hnr, Hjr. lia.
      * intros [Hx|(? & ? & ?)]; [|split_and!; [done|done|lia]]. split_and!; [left; lia|apply Hfree; lia|lia].
    + intros x (_ & _ & Hx). cbn [low] in Hx. rewrite glow_snoc in Hx. lia.
Qed.

(** The memory in front of the list head, read as the flags and the end of a region: a region
    with other flags, or one that ends at 0. *)
Definition head_harmless s flags : Prop := mb_flags s (Head Memory) <> flags \/ mb_end s (Head Memory) = 0.

(** The cursor over the memory: in front of [mem], or on the head at the start. *)
Definition at_memory s lst flags (c : option mb_node) mem : Prop :=
  (exists zs, lst Memory = zs ++ mem) /\ (c = head (Reg <$> mem) \/ c = Some (Head Memory) /\ mem = lst Memory /\ head_harmless s flags).

(** The head taken as a region is passed: its flags differ, or the gap search ends at once. *)
Lemma next_free_head fuel s lst o flags : mb_ok max s lst -> at_reserved lst o -> head_harmless s flags ->
  exists o', next_free_loop max (S fuel) (Some (Head Memory)) (rcur o) flags s =
      next_free_loop max fuel (_next_region (Some (Head Memory)) s) (rcur o') flags s /\ at_reserved lst o' /\
    (gaps_left lst o' <= gaps_left lst o)%nat /\
    forall x, remaining s lst flags (lst Memory) o x <-> remaining s lst flags (lst Memory) o' x.
Proof.
  intros Hok Ho Hh. cbn [next_free_loop]. destruct (decide (mb_flags s (Head Memory) <> flags)) as [Hf|Hf]; [by exists o|].
  destruct Hh as [?|He]; [done|]. rewrite He.
  destruct (gap_zero s lst o (mb_start s (Head Memory)) Hok Ho) as (o' & E & Ho' & Hg & Hl & Hr). rewrite E.
  exists o'. split; [done|]. split; [done|]. split; [done|]. intros x. unfold remaining. split.
  - intros (Hm & Hnr & Hx). split; [done|]. split; [done|]. destruct (Z_lt_le_dec x (low s o')); [|done].
    destruct Hm as (a & b & Hin & ?). destruct (sorted_in _ _ _ _ _ (mo_sorted _ _ _ Hok Memory) Hin).
    exfalso. apply Hnr, Hr; lia.
  - intros (? & ? & ?). split; [done|]. split; [done|]. lia.
Qed.

Lemma next_region_spec s lst c mem o flags : mb_ok max s lst -> at_memory s lst flags c mem -> at_reserved lst o ->
  exists m' o' out, _next_free_region max c (rcur o) flags s = Some (m', rcur o', out) /\
  match out with
  | None => m' = Some (Head Memory) /\ forall x, ~ remaining s lst flags mem o x
  | Some (p, q) => exists mem', m' = head (Reg <$> mem') /\ at_memory s lst flags m' mem' /\ at_reserved lst o' /\ p < q /\
      (length mem' + gaps_left lst o' < length mem + gaps_left lst o)%nat /\
      (forall x, remaining s lst flags mem o x <-> p <= x < q \/ remaining s lst flags mem' o' x) /\
      (forall x, remaining s lst flags mem' o' x -> q <= x)
  end.
Proof.
  intros Hok [[zs E] Hc] Ho. pose proof (shape_length max s lst Memory (mo_shape _ _ _ Hok)) as Hl. rewrite E, length_app in Hl.
  assert (Hrun : exists fuel o1, (length mem < fuel)%nat /\ at_reserved lst o1 /\ (gaps_left lst o1 <= gaps_left lst o)%nat /\
    (forall x, remaining s lst flags mem o x <-> remaining s lst flags mem o1 x) /\
    _next_free_region max c (rcur o) flags s = next_free_loop max fuel (head (Reg <$> mem)) (rcur o1) flags s).
  { destruct Hc as [->|(-> & -> & Hfl)]; [exists (S (S (S max))), o; split; [lia|done]|].
    assert (E0 : _next_region (Some (Head Memory)) s = head (Reg <$> lst Memory)) by (by apply (next_at max s lst Memory []); [apply Hok|]).
    destruct (next_free_head (S (S max)) s lst o flags Hok Ho Hfl) as (o1 & E1 & H1 & H2 & H3).
    exists (S (S max)), o1. split; [lia|]. rewrite <- E0. done. }
  destruct Hrun as (fuel & o1 & Hf & Ho1 & Hg1 & Hr1 & ->).
  destruct (next_free_spec fuel s lst zs mem o1 flags Hok E Hf Ho1) as (m' & o' & out & E1 & Hout). exists m', o', out. split; [done|].
  destruct out as [[p q]|]; [|destruct Hout; split; [done|]; intros x; rewrite Hr1; eauto].
  destruct Hout as (zs' & mem' & ? & -> & ? & ? & ? & Hx & ?). exists mem'. split_and!; try done; [split; eauto|lia|].
  intros x. by rewrite Hr1, Hx.
Qed.

Lemma free_loop_spec fuel s lst c mem o flags : mb_ok max s lst -> at_memory s lst flags c mem -> at_reserved lst o ->
  (length mem + gaps_left lst o < fuel)%nat ->
  exists outs, free_region_loop max fuel c (rcur o) flags s = Some outs /\
    (forall x, mapped ((., flags) <$> outs) x flags <-> remaining s lst flags mem o x) /\
    forall lo, (forall x, remaining s lst flags mem o x -> lo <= x) -> sorted_from lo ((., flags) <$> outs).
Proof.
  intros Hok. revert c mem o. induction fuel as [|fuel IH]; intros c mem o Hc Ho Hf; [lia|]. cbn [free_region_loop].
  destruct (next_region_spec s lst c mem o flags Hok Hc Ho) as (m' & o' & out & -> & Hout). cbn [mbind option_bind].
  destruct out as [[p q]|].
  2: { destruct Hout as [-> Hno]. rewrite decide_True by done. exists []. split; [done|]. split; [|done].
    intros x. split; [intros H; by apply mapped_nil in H|intros H; by apply Hno in H]. }
  destruct Hout as (mem' & -> & Hc' & Ho' & Hpq & Hlt & Hx & Hq). rewrite decide_False by (destruct mem'; discriminate). cbn [mbind option_bind].
  destruct (IH (head (Reg <$> mem')) mem' o' Hc' Ho' ltac:(lia)) as (outs & -> & Hm & Hs). cbn [mbind option_bind].
  exists ((p, q) :: outs). split; [done|]. split.
  - intros x. rewrite fmap_cons, mapped_cons, Hx, Hm. naive_solver.
  - intros lo Hlo. rewrite fmap_cons. cbn [sorted_from]. split; [apply Hlo, Hx; left; lia|]. split; [|by apply Hs].
    split; [done|]. assert (Hr : remaining s lst flags mem o (q - 1)) by (apply Hx; left; lia).
    destruct Hr as ((a & b & Hin & Hab) & _). destruct Hc as [[zs E] _].
    assert (Hin' : (a, b, flags) ∈ regs s lst Memory) by (unfold regs; rewrite E, fmap_app, elem_of_app; by right).
    destruct (sorted_in _ _ _ _ _ (mo_sorted _ _ _ Hok Memory) Hin'). lia.
Qed.
End free.

(** * The contracts of the start-up calls *)

(** C37: going through the free regions with given flags ends, and the regions it yields are in
    order, not empty and apart, and hold exactly the addresses that are in a memory region
    with these flags and in no reserved region.  The loop begins with the list head itself,
    taken as a region: it reads the memory in front of the variable as the flags and bounds
    of that region.  The theorem needs [head_harmless]: what is read there are other flags, or
    an end of 0, as in zeroed memory, where the search of a gap ends at once; with
    other contents the head may be yielded as a region ([head_region_yielded]). *)
Theorem free_regions_complement max s lst flags : mb_ok max s lst -> head_harmless s flags ->
  exists outs, free_regions max flags s = Some outs /\ sorted_from 0 ((., flags) <$> outs) /\
    forall x, mapped ((., flags) <$> outs) x flags <-> mapped (regs s lst Memory) x flags /\ ~ reserved s lst x.
Proof.
  intros Hok Hfl. pose proof (shape_length max s lst Memory (mo_shape _ _ _ Hok)). pose proof (shape_length max s lst ReservedMemory (mo_shape _ _ _ Hok)).
  assert (Hlow : forall x, remaining s lst flags (lst Memory) (Some []) x <-> mapped (regs s lst Memory) x flags /\ ~ reserved s lst x).
  { intros x. unfold remaining. split; [tauto|]. intros [Hm ?]. split; [done|]. split; [done|]. destruct Hm as (a & b & Hin & ?).
    destruct (sorted_in _ _ _ _ _ (mo_sorted _ _ _ Hok Memory) Hin). simpl. unfold glow. simpl. lia. }
  destruct (free_loop_spec max (S (S (S (2 * max)))) s lst (Some (Head Memory)) (lst Memory) (Some []) flags) as (outs & E & Hm & Hs); [done|..].
  - split; [by exists []|]. by right.
  - intros xs [= <-]. by eexists.
  - cbn [gaps_left length]. lia.
  - exists outs. split; [exact E|]. split; [|intros x; by rewrite Hm, Hlow]. apply Hs. intros x [(a & b & Hin & ?) _]%Hlow.
    destruct (sorted_in _ _ _ _ _ (mo_sorted _ _ _ Hok Memory) Hin). lia.
Qed.

(** Adding a region of memory or of reserved memory.  An empty range, or one that overlaps
    a region of the same list, is refused and nothing changes; when no record is free nothing
    changes either; else the region is in the list, which stays sorted and apart, and the other
    list is as before. *)
Lemma memblock_add_refines max s lst l a b f : mb_ok max s lst -> 0 <= a -> b <= PHYS_ADDR_MAX ->
  wp (match l with Memory => rt_memblock_add_memory max a b f | ReservedMemory => rt_memblock_reserve_memory max a b f end) (fun err s' =>
    err = - RT_EINVAL /\ s' = s /\ (b <= a \/ overlap (regs s lst l) a b) \/
    err = - RT_ENOMEM /\ s' = s /\ (forall i, (i < max)%nat -> exists l, i ∈ lst l) \/
    err = RT_EOK /\ a < b /\ ~ overlap (regs s lst l) a b /\ exists lst', mb_ok max s' lst' /\
      regs s' lst' l ≡ₚ (a, b, f) :: regs s lst l /\ forall l', l' <> l -> regs s' lst' l' = regs s lst l') s.
Proof. intros Hok Ha Hb. destruct l; by apply add_range_wp. Qed.

(** C38: flagging a reserved range, as the set-up does for every reserved region with flags.
    Cutting the regions of the memory at the bounds of the range fails only when every record
    is in use, with [-RT_ENOMEM]; then each address is still in the memory with the flags it
    had, the lists are well formed and the reserved regions as before.  Otherwise the flags are
    added exactly to the addresses inside the range; no address enters or leaves the memory,
    and the reserved regions stay.  The one exception is a range whose first region starts
    inside it and reaches over its end: nothing is flagged then. *)
Theorem memblock_flag_range max s lst a b F : mb_ok max s lst -> a < b ->
  wp (_memblock_separate_range max Memory a b) (fun r s1 =>
    r.1.1 = - RT_ENOMEM /\ (exists lst', mb_ok max s1 lst' /\ (forall i, (i < max)%nat -> exists l, i ∈ lst' l) /\
      (forall l, l <> Memory -> lst' l = lst l /\ regs s1 lst' l = regs s lst l) /\
      forall x f, mapped (regs s1 lst' Memory) x f <-> mapped (regs s lst Memory) x f) \/
    r.1.1 = RT_EOK /\ wp (_memblock_set_flag max r.1.2 r.2 F) (fun _ s' => exists lst', mb_ok max s' lst' /\
      (forall l, l <> Memory -> lst' l = lst l /\ regs s' lst' l = regs s lst l) /\
      (missed (regs s lst Memory) a b -> forall x f, mapped (regs s' lst' Memory) x f <-> mapped (regs s lst Memory) x f) /\
      (~ missed (regs s lst Memory) a b -> forall x f', mapped (regs s' lst' Memory) x f' <->
        exists f, mapped (regs s lst Memory) x f /\ f' = if decide (a <= x < b) then Z.lor f F else f)) s1) s.
Proof.
  intros Hok Hab. eapply wp_mono; [by apply flag_range_wp|]. cbv beta.
  intros r s1 [[E (lst' & [O T M] & Hex)]|H]; [left; split; [done|]; by exists lst'|by right].
Qed.

(** * Concrete blocks *)

(** One region of memory from 0 to 100, and the reserved regions from 8 to 16 and from 20 to 32;
    zeros in front of the list heads. *)
Definition demo_blocks : memblock := mk_memblock
  (fun n => match n with Head Memory => Some (Reg 0) | Head ReservedMemory => Some (Reg 1) | Reg 1 => Some (Reg 2) | _ => None end)
  (fun n => match n with Reg 1 => 8 | Reg 2 => 20 | _ => 0 end)
  (fun n => match n with Reg 0 => 100 | Reg 1 => 16 | Reg 2 => 32 | _ => 0 end)
  (fun n => match n with Reg 1 | Reg 2 => 2 | _ => MEMBLOCK_NONE end) (fun i => Nat.ltb i 3) 3.

Definition demo_lists (l : mb_id) : list nat := match l with Memory => [0%nat] | ReservedMemory => [1%nat; 2%nat] end.

Lemma demo_blocks_ok : mb_ok 8 demo_blocks demo_lists.
Proof.
  split; [split|].
  - intros []; (split; [apply (bool_decide_unpack _); by vm_compute|done]).
  - intros [] [] i; simpl; set_solver.
  - intros i _. simpl. rewrite Nat.ltb_lt. split.
    + intros Hi. destruct (decide (i = 0%nat)) as [->|]; [exists Memory; set_solver|]. exists ReservedMemory. simpl.
      assert (i = 1 \/ i = 2)%nat as [->| ->] by lia; set_solver.
    + intros [[] Hi]; simpl in Hi; rewrite !elem_of_cons in Hi; (destruct Hi as [?|Hi]; [lia|]); [by apply not_elem_of_nil in Hi|].
      destruct Hi as [?|Hi]; [lia|]. by apply not_elem_of_nil in Hi.
  - intros [] i; simpl; rewrite !elem_of_cons; pose proof (not_elem_of_nil i); intuition lia.
  - simpl. lia.
  - intros []; vm_compute; intuition discriminate.
Qed.

Lemma free_regions_complement_witness : free_regions 8 MEMBLOCK_NONE demo_blocks = Some [(0, 8); (16, 20); (32, 100)] /\
  (mapped (regs demo_blocks demo_lists Memory) 18 MEMBLOCK_NONE /\ ~ reserved demo_blocks demo_lists 18).
Proof.
  assert (E : free_regions 8 MEMBLOCK_NONE demo_blocks = Some [(0, 8); (16, 20); (32, 100)]) by (vm_compute; done).
  split; [exact E|]. destruct (free_regions_complement 8 demo_blocks demo_lists MEMBLOCK_NONE demo_blocks_ok) as (outs & E' & _ & H); [by right|].
  apply H. rewrite E in E'. injection E' as <-. exists 16, 20. split; [apply (bool_decide_unpack _); by vm_compute|lia].
Defined.

(** Other memory in front of the head, flags 0 and bounds that look like a region: one from
    200 to 300 is yielded as free memory although no region of the memory holds it, and the
    gaps before it are lost; with one from 5 to 300 nothing is found. *)
Lemma head_region_yielded :
  free_regions 8 MEMBLOCK_NONE (set_mb_reg (Head Memory) 200 300 MEMBLOCK_NONE demo_blocks) =
    Some [(200, 300); (32, 100)] /\
  free_regions 8 MEMBLOCK_NONE (set_mb_reg (Head Memory) 5 300 MEMBLOCK_NONE demo_blocks) = Some [].
Proof. vm_compute. done. Qed.

Lemma memblock_add_refines_witness : exists s, fst <$> rt_memblock_reserve_memory 8 40 50 2 demo_blocks = Some RT_EOK /\
  snd <$> rt_memblock_reserve_memory 8 40 50 2 demo_blocks = Some s /\
  exists lst, mb_ok 8 s lst /\ regs s lst ReservedMemory ≡ₚ (40, 50, 2) :: regs demo_blocks demo_lists ReservedMemory.
Proof.
  pose proof (memblock_add_refines 8 demo_blocks demo_lists ReservedMemory 40 50 2 demo_blocks_ok ltac:(lia) ltac:(vm_compute; discriminate)) as H.
  unfold wp in H. assert (E : fst <$> rt_memblock_reserve_memory 8 40 50 2 demo_blocks = Some RT_EOK) by (vm_compute; done).
  destruct (rt_memblock_reserve_memory 8 40 50 2 demo_blocks) as [[err s]|]; [|done]. exists s. injection E as ->. split; [done|]. split; [done|].
  destruct H as [(? & _)|[(? & _)|(_ & _ & _ & lst & Hok & Hp & _)]]; [done|done|by exists lst].
Defined.

Lemma memblock_flag_range_witness : exists r s1 s lst,
  _memblock_separate_range 8 Memory 8 16 demo_blocks = Some (r, s1) /\ r.1.1 = RT_EOK /\
  _memblock_set_flag 8 r.1.2 r.2 2 s1 = Some (tt, s) /\
  mb_ok 8 s lst /\ mapped (regs s lst Memory) 10 2 /\ mapped (regs s lst Memory) 50 MEMBLOCK_NONE.
Proof.
  pose proof (memblock_flag_range 8 demo_blocks demo_lists 8 16 2 demo_blocks_ok ltac:(lia)) as H. unfold wp at 1 in H.
  assert (E : (fun r => r.1.1.1) <$> _memblock_separate_range 8 Memory 8 16 demo_blocks = Some RT_EOK) by (vm_compute; done).
  destruct (_memblock_separate_range 8 Memory 8 16 demo_blocks) as [[r s1]|]; [|done]. apply (inj Some) in E.
  destruct H as [[H _]|[Er H]]; [simpl in E, H; by rewrite E in H|]. unfold wp in H.
  destruct (_memblock_set_flag 8 r.1.2 r.2 2 s1) as [[[] s]|] eqn:Ef; [|done].
  destruct H as (lst & Hok & _ & _ & H). exists r, s1, s, lst. split; [done|]. split; [done|]. split; [done|]. split; [done|].
  assert (Hm : forall x, 0 <= x < 100 -> mapped (regs demo_blocks demo_lists Memory) x MEMBLOCK_NONE) by (intros x ?; exists 0, 100; split; [by left|lia]).
  assert (Hnm : ~ missed (regs demo_blocks demo_lists Memory) 8 16).
  { intros (c & e & f & [[= -> -> ->]|Hin]%elem_of_cons & ? & _); [lia|by apply not_elem_of_nil in Hin]. }
  split; apply (H Hnm); exists MEMBLOCK_NONE; (split; [apply Hm; lia|done]).
Defined.

(** Two reserved ranges that touch: the second starts where a region was cut, and stays
    without its flags. *)
Definition touching_blocks : memblock := mk_memblock (mb_links demo_blocks)
  (fun n => match n with Reg 1 => 8 | Reg 2 => 16 | _ => 0 end) (mb_end demo_blocks) (mb_flags demo_blocks) (mb_alloc demo_blocks) 3.

Fixpoint region_list (fuel : nat) (n : option mb_node) (s : memblock) : list region :=
  match fuel, n with
  | S fuel, Some n => (mb_start s n, mb_end s n, mb_flags s n) :: region_list fuel (_next_region (Some n) s) s
  | _, _ => []
  end.

Lemma touching_range_unflagged :
  (fun r => region_list 8 (mb_links r.2 (Head Memory)) r.2) <$> mark_reserved 8 9 (mb_links touching_blocks (Head ReservedMemory)) touching_blocks =
  Some [(0, 8, 0); (8, 16, 2); (16, 32, 0); (32, 100, 0)].
Proof. vm_compute. done. Qed.

Lemma apart_ranges_flagged :
  (fun r => region_list 8 (mb_links r.2 (Head Memory)) r.2) <$> mark_reserved 8 9 (mb_links demo_blocks (Head ReservedMemory)) demo_blocks =
  Some [(0, 8, 0); (8, 16, 2); (16, 20, 0); (20, 32, 2); (32, 100, 0)].
Proof. vm_compute. done. Qed.
