(* ===== verification/Calendar.v ===== *)
(** Calendar time, components/libc/compilers/common/ctime.c: seconds since 1970 as a broken-down
    time and back, the text of a time, and the one-to-one correspondence of seconds and valid
    dates.  [time_t] has 64 bits and cannot overflow here;
    [int] wraps at 32 bits.  [None] as a result is the NULL that goes with [EFAULT]; inside
    [timegm] it is an access outside a table. *)
From Stdlib Require Import String Ascii.
From S2P Require Import Prelude.
#[local] Open Scope Z_scope.

(** [struct tm]. *)
Record tm := mk_tm { tm_sec : Z; tm_min : Z; tm_hour : Z; tm_mday : Z; tm_mon : Z; tm_year : Z; tm_wday : Z; tm_yday : Z; tm_isdst : Z }.

(** Days before each month of a year that is not a leap year. *)
Definition __spm : list Z := [0; 31; 59; 90; 120; 151; 181; 212; 243; 273; 304; 334; 365].
Definition spm (i : Z) : option Z := if i <? 0 then None else __spm !! Z.to_nat i.

Definition __isleap (year : Z) : bool :=
  (Z.rem year 4 =? 0) && (negb (Z.rem year 100 =? 0) || (Z.rem year 400 =? 0)).

(** The loop over the years: the year of a day since 1 January of year [i], and its day. *)
Fixpoint year_loop (fuel : nat) (i work : Z) : option (Z * Z) :=
  match fuel with
  | O => None
  | S fuel =>
    let k := if __isleap i then 366 else 365 in
    if k <=? work then year_loop fuel (i + 1) (work - k) else Some (i, work)
  end.

(** [for (i = 11; i && (__spm[i] > work); --i)]. *)
Fixpoint month_loop (i : nat) (work : Z) : Z :=
  match i with
  | O => 0
  | S i' => if work <? __spm !!! i then month_loop i' work else Z.of_nat i
  end.

Definition gmtime_r (timep : option Z) (r : option tm) : option tm :=
  match timep, r with
  | Some t, Some _ =>
    let work := i32 (Z.rem t (24 * 60 * 60)) in
    let sec := Z.rem work 60 in
    let work := Z.quot work 60 in
    let min := Z.rem work 60 in
    let hour := Z.quot work 60 in
    let work := i32 (Z.quot t (24 * 60 * 60)) in
    let wday := Z.rem (i32 (4 + work)) 7 in
    '(i, work) ← year_loop (S (Z.to_nat work)) 1970 work;
    let year := i - 1900 in
    let yday := work in
    let shift := __isleap i && (58 <? work) in
    let mday := if shift && (work =? 59) then 2 else 1 in
    let work := if shift then work - 1 else work in
    let mon := month_loop 11 work in
    s ← spm mon;
    Some (mk_tm sec min hour (mday + (work - s)) mon year wday yday 0)
  | _, _ => None
  end.

(** The offset [_current_tz_offset_sec] that [rt_tz_set] stores, 0 without
    [RT_LIBC_USING_LIGHT_TZ_DST]. *)
Definition localtime_r (tz : Z) (t : Z) (r : option tm) : option tm := gmtime_r (Some (t + tz)) r.

(** [while (t->tm_mday > __spm[1 + t->tm_mon])]: the day, month and year at its end. *)
Fixpoint mday_loop (fuel : nat) (mday mon year : Z) : option (Z * Z * Z) :=
  match fuel with
  | O => None
  | S fuel =>
    limit ← spm (1 + mon);
    if limit <? mday then
      let mday := if (mon =? 1) && __isleap (i32 (year + 1900)) then mday - 1 else mday in
      before ← spm mon;
      let mday := mday - before in
      let mon := mon + 1 in
      if 11 <? mon then mday_loop fuel mday 0 (i32 (year + 1)) else mday_loop fuel mday mon year
    else Some (mday, mon, year)
  end.

(** The days of the leap years that the first formula counts too many after 2100. *)
Definition century_days (years : Z) : Z :=
  if 131 <=? years then
    let c := Z.quot (years - 131) 100 in
    Z.shiftr c 2 * 3 + 1 + (if Z.land c 3 =? 3 then Z.land c 3 - 1 else Z.land c 3)
  else 0.

(** The normalised time, unless an access failed, and the result. *)
Definition timegm (t : option tm) : option (option tm * Z) :=
  match t with
  | None => Some (None, - 1)
  | Some t =>
    let years := tm_year t - 70 in
    let '(sec, min) := if 60 <? tm_sec t then (Z.rem (tm_sec t) 60, i32 (tm_min t + Z.quot (tm_sec t) 60)) else (tm_sec t, tm_min t) in
    let '(min, hour) := if 60 <=? min then (Z.rem min 60, i32 (tm_hour t + Z.quot min 60)) else (min, tm_hour t) in
    let '(hour, mday) := if 24 <=? hour then (Z.rem hour 24, i32 (tm_mday t + Z.quot hour 24)) else (hour, tm_mday t) in
    let '(mon, year) := if 12 <=? tm_mon t then (Z.rem (tm_mon t) 12, i32 (tm_year t + Z.quot (tm_mon t) 12)) else (tm_mon t, tm_year t) in
    '(mday, mon, year) ← mday_loop (2 * Z.to_nat mday + 2) mday mon year;
    let t := mk_tm sec min hour mday mon year (tm_wday t) (tm_yday t) (tm_isdst t) in
    if year <? 70 then Some (Some t, - 1)
    else
      let day := years * 365 + Z.quot (years + 1) 4 - century_days years in
      before ← spm mon;
      let yday := i32 (before + mday - 1 + (if __isleap (i32 (year + 1900)) && (1 <? mon) then 1 else 0)) in
      let day := day + yday in
      let wday := i32 (Z.rem (day + 4) 7) in
      Some (Some (mk_tm sec min hour mday mon year wday yday (tm_isdst t)), ((day * 24 + hour) * 60 + min) * 60 + sec)
  end.

Definition mktime (tz : Z) (t : option tm) : option (option tm * Z) :=
  '(t, timestamp) ← timegm t;
  Some (t, timestamp - tz).

(** * Text *)

Definition days : list Z := map (fun c => Z.of_nat (Ascii.nat_of_ascii c)) (String.list_ascii_of_string "Sun Mon Tue Wed Thu Fri Sat ").
Definition months : list Z := map (fun c => Z.of_nat (Ascii.nat_of_ascii c)) (String.list_ascii_of_string "Jan Feb Mar Apr May Jun Jul Aug Sep Oct Nov Dec ").

Definition chr (z : Z) : Z := u8 z.
Definition num2str (i : Z) : list Z := [chr (Z.quot i 10 + 48); chr (Z.rem i 10 + 48)].

(** Four characters from the offset [4 * i] on. *)
Definition word (l : list Z) (i : Z) : option (list Z) :=
  if (i <? 0) || (Z.of_nat (length l) <? 4 * i + 4) then None else Some (take 4 (drop (Z.to_nat (4 * i)) l)).

(** The buffer; [None] is also an access outside a table. *)
Definition asctime_r (t : option tm) : option (list Z) :=
  t ← t;
  let valid := negb ((28 <=? i32 (Z.shiftl (tm_wday t) 2)) || (48 <=? i32 (Z.shiftl (tm_mon t) 2))) in
  wday ← word days (if valid then tm_wday t else 0);
  mon ← word months (if valid then tm_mon t else 0);
  let mday := num2str (tm_mday t) in
  let mday := match mday with [48; c] => [32; c] | _ => mday end in
  let year := if valid then i32 (tm_year t + 1900) else 2000 in
  Some (wday ++ mon ++ mday ++ [32] ++ num2str (tm_hour t) ++ [58] ++ num2str (tm_min t) ++ [58] ++ num2str (tm_sec t) ++ [32]
    ++ num2str (Z.quot year 100) ++ num2str (Z.rem year 100) ++ [10; 0]).

Definition ctime_r (tz t : Z) : option (list Z) := asctime_r (localtime_r tz t (Some (mk_tm 0 0 0 0 0 0 0 0 0))).

Example y2001 : ctime_r 0 1000000000 = Some (map (fun c => Z.of_nat (Ascii.nat_of_ascii c)) (String.list_ascii_of_string "Sun Sep  9 01:46:40 2001") ++ [10; 0]).
Proof. vm_compute. reflexivity. Qed.



(** * The calendar *)

Definition year_days (y : Z) : Z := if __isleap y then 366 else 365.

(** Days from 1970 to the beginning of year [1970 + n]. *)
Fixpoint days_before (n : nat) : Z :=
  match n with O => 0 | S n => days_before n + year_days (1970 + Z.of_nat n) end.

Definition month_days (leap : bool) (mon : Z) : Z :=
  match mon with 1 => if leap then 29 else 28 | 3 | 5 | 8 | 10 => 30 | _ => 31 end.

Fixpoint month_start (leap : bool) (mon : nat) : Z :=
  match mon with O => 0 | S mon => month_start leap mon + month_days leap (Z.of_nat mon) end.

(** A date and time of day of the Gregorian calendar, [n] years after 1970. *)
Record valid_tm (n : nat) (t : tm) : Prop := {
  vt_sec : 0 <= tm_sec t < 60; vt_min : 0 <= tm_min t < 60; vt_hour : 0 <= tm_hour t < 24;
  vt_mon : 0 <= tm_mon t < 12; vt_mday : 1 <= tm_mday t <= month_days (__isleap (1970 + Z.of_nat n)) (tm_mon t);
  vt_year : tm_year t = 70 + Z.of_nat n;
  vt_yday : tm_yday t = month_start (__isleap (1970 + Z.of_nat n)) (Z.to_nat (tm_mon t)) + tm_mday t - 1;
  vt_wday : tm_wday t = (days_before n + tm_yday t + 4) mod 7; vt_isdst : tm_isdst t = 0 }.

(** The seconds from 1970 to a date. *)
Definition seconds (n : nat) (t : tm) : Z :=
  ((days_before n + tm_yday t) * 24 + tm_hour t) * 3600 + tm_min t * 60 + tm_sec t.

(** * Years *)

Lemma year_days_pos y : 365 <= year_days y <= 366.
Proof. unfold year_days. case_match; lia. Qed.

Lemma days_before_mono m n : (m <= n)%nat -> 365 * (Z.of_nat n - Z.of_nat m) <= days_before n - days_before m.
Proof. induction 1 as [|n _ IH]; [lia|]. simpl days_before. pose proof (year_days_pos (1970 + Z.of_nat n)). lia. Qed.

(** Every day lies in one year. *)
Lemma day_year d : 0 <= d -> exists n yday, d = days_before n + yday /\ 0 <= yday < year_days (1970 + Z.of_nat n).
Proof.
  revert d. apply natlike_ind; [exists O, 0; done|]. intros d Hd (n & yday & -> & Hy).
  destruct (decide (yday + 1 < year_days (1970 + Z.of_nat n))); [exists n, (yday + 1); lia|].
  exists (S n), 0. simpl days_before. pose proof (year_days_pos (1970 + Z.of_nat (S n))). lia.
Qed.

Lemma year_loop_spec fuel m n yday : (m <= n)%nat -> (n - m < fuel)%nat -> 0 <= yday < year_days (1970 + Z.of_nat n) ->
  year_loop fuel (1970 + Z.of_nat m) (days_before n - days_before m + yday) = Some (1970 + Z.of_nat n, yday).
Proof.
  revert m. induction fuel as [|fuel IH]; intros m Hm Hf Hy; [lia|]. cbn [year_loop].
  fold (year_days (1970 + Z.of_nat m)). destruct (decide (m = n)) as [->|Hne].
  - rewrite (proj2 (Z.leb_gt _ _)) by lia. do 2 f_equal. lia.
  - pose proof (days_before_mono (S m) n ltac:(lia)) as Hmono. simpl days_before in Hmono.
    rewrite (proj2 (Z.leb_le _ _)) by lia.
    replace (1970 + Z.of_nat m + 1) with (1970 + Z.of_nat (S m)) by lia.
    rewrite <- (IH (S m)) by lia. f_equal. simpl. lia.
Qed.

Lemma isleap_mod y : __isleap y = ((y mod 4 =? 0) && (negb (y mod 100 =? 0) || (y mod 400 =? 0))).
Proof.
  assert (G : forall k, 0 < k -> (Z.rem y k =? 0) = (y mod k =? 0)).
  { intros k Hk. apply eq_true_iff_eq. rewrite !Z.eqb_eq, Z.rem_divide, Z.mod_divide by lia. done. }
  unfold __isleap. by rewrite !G.
Qed.

(** The correction after 2100 counts the century years that are not leap years. *)
Lemma century_days_eq y : 0 <= y -> century_days y = (1969 + y) / 100 - (1969 + y) / 100 / 4 - 15.
Proof.
  intros Hy. unfold century_days. rewrite Z.shiftr_div_pow2 by lia. change (2 ^ 2) with 4. cbv zeta.
  assert (El : forall c, Z.land c 3 = c mod 4) by (intros c; change 3 with (Z.ones 2); by rewrite Z.land_ones). rewrite !El.
  destruct (Z.leb_spec 131 y).
  - rewrite Z.quot_div_nonneg by lia. replace (1969 + y) with (y - 131 + 21 * 100) by lia. rewrite Z.div_add by lia.
    set (c := (y - 131) / 100). assert (0 <= c) by (apply Z.div_pos; lia). clearbody c.
    destruct (Z.eqb_spec (c mod 4) 3); Z.to_euclidean_division_equations; lia.
  - Z.to_euclidean_division_equations. lia.
Qed.

Lemma div_succ x k : 0 < k -> (x + 1) / k = x / k + (if (x + 1) mod k =? 0 then 1 else 0).
Proof. intros Hk. destruct (Z.eqb_spec ((x + 1) mod k) 0); Z.to_euclidean_division_equations; nia. Qed.

(** The formula of [timegm] counts the days. *)
Lemma day_formula n : let years := Z.of_nat n in years * 365 + Z.quot (years + 1) 4 - century_days years = days_before n.
Proof.
  cbv zeta. induction n as [|n IH]; [reflexivity|]. simpl days_before. rewrite <- IH. unfold year_days. rewrite isleap_mod.
  rewrite !century_days_eq, !Z.quot_div_nonneg, !Z.div_div by lia. clear IH.
  replace (Z.of_nat (S n)) with (Z.of_nat n + 1) by lia. assert (Hy : 0 <= Z.of_nat n) by lia.
  generalize dependent (Z.of_nat n). intros y Hy. rewrite !Z.add_assoc.
  assert (E4 : forall z, (z + 1) / 4 = (1969 + z) / 4 - 492).
  { intros z. replace (1969 + z) with (z + 1 + 492 * 4) by lia. rewrite Z.div_add by lia. lia. }
  rewrite !E4, !Z.add_assoc. rewrite !(div_succ (1969 + y)) by lia. replace (1969 + y + 1) with (1970 + y) by lia.
  replace (100 * 4) with 400 by done.
  assert (H100 : (1970 + y) mod 400 = 0 -> (1970 + y) mod 100 = 0) by (intros; Z.to_euclidean_division_equations; lia).
  assert (H4 : (1970 + y) mod 100 = 0 -> (1970 + y) mod 4 = 0) by (intros; Z.to_euclidean_division_equations; lia).
  destruct (Z.eqb_spec ((1970 + y) mod 4) 0), (Z.eqb_spec ((1970 + y) mod 100) 0), (Z.eqb_spec ((1970 + y) mod 400) 0); simpl; lia.
Qed.

(** * Months, checked on every day of both kinds of year *)

(** The month and the day of the month [gmtime_r] computes. *)
Definition date_of (leap : bool) (yday : Z) : option (Z * Z) :=
  let shift := leap && (58 <? yday) in
  let mday := if shift && (yday =? 59) then 2 else 1 in
  let work := if shift then yday - 1 else yday in
  let mon := month_loop 11 work in
  s ← spm mon; Some (mon, mday + (work - s)).

Definition yday_of (leap : bool) (mon mday : Z) : Z := month_start leap (Z.to_nat mon) + mday - 1.

Definition date_ok (leap : bool) (yday : Z) : bool :=
  match date_of leap yday with
  | Some (mon, mday) => (0 <=? mon) && (mon <? 12) && (1 <=? mday) && (mday <=? month_days leap mon) && (yday_of leap mon mday =? yday)
  | None => false
  end.

Lemma forall_seqZ (P : Z -> bool) a n x : forallb P (seqZ a n) = true -> a <= x < a + n -> P x = true.
Proof. intros H Hx. rewrite forallb_forall in H. apply H. apply list_elem_of_In. rewrite elem_of_seqZ. lia. Qed.

Lemma date_ok_all (leap : bool) yday : 0 <= yday < (if leap then 366 else 365) -> date_ok leap yday = true.
Proof.
  intros H. assert (Hl : forall l : bool, forallb (date_ok l) (seqZ 0 (if l then 366 else 365)) = true) by (intros []; vm_compute; reflexivity).
  by apply (forall_seqZ _ _ _ yday (Hl leap)).
Qed.

(** What [timegm] reads from its table for a valid date. *)
Definition month_ok (leap : bool) (mon : Z) : bool :=
  match spm mon, spm (1 + mon) with
  | Some s, Some e => (s + (if leap && (1 <? mon) then 1 else 0) =? month_start leap (Z.to_nat mon)) && (month_days leap mon <=? e) &&
      forallb (fun mday => bool_decide (date_of leap (yday_of leap mon mday) = Some (mon, mday))) (seqZ 1 (month_days leap mon))
      && (0 <=? yday_of leap mon 1) && (yday_of leap mon (month_days leap mon) <? (if leap then 366 else 365))
  | _, _ => false
  end.

Lemma month_ok_all leap mon : 0 <= mon < 12 -> month_ok leap mon = true.
Proof.
  intros H. assert (Hl : forall l : bool, forallb (month_ok l) (seqZ 0 12) = true) by (intros []; vm_compute; reflexivity).
  by apply (forall_seqZ _ _ _ mon (Hl leap)).
Qed.

Lemma month_table leap mon mday : 0 <= mon < 12 -> 1 <= mday <= month_days leap mon -> exists s e,
  spm mon = Some s /\ spm (1 + mon) = Some e /\ mday <= e /\ s + mday - 1 + (if leap && (1 <? mon) then 1 else 0) = yday_of leap mon mday /\
  date_of leap (yday_of leap mon mday) = Some (mon, mday) /\ 0 <= yday_of leap mon mday < (if leap then 366 else 365).
Proof.
  intros Hm Hd. pose proof (month_ok_all leap mon Hm) as H. unfold month_ok in H.
  destruct (spm mon) as [s|], (spm (1 + mon)) as [e|]; try done. rewrite !andb_true_iff in H. destruct H as ((((H1 & H2) & H3) & H4) & H5).
  apply Z.eqb_eq in H1. apply Z.leb_le in H2, H4. apply Z.ltb_lt in H5.
  pose proof (forall_seqZ _ _ _ mday H3 ltac:(lia)) as H6. apply bool_decide_eq_true in H6.
  exists s, e. unfold yday_of in *. split_and!; try done; lia.
Qed.

(** * The translations *)

(** Days for which [4 + work] does not overflow. *)
Definition time_limit : Z := (2 ^ 31 - 4) * 86400.

Lemma split_time D h m s : 0 <= D -> 0 <= h < 24 -> 0 <= m < 60 -> 0 <= s < 60 ->
  let x := (D * 24 + h) * 3600 + m * 60 + s in
  Z.quot x 86400 = D /\ Z.rem x 86400 = h * 3600 + m * 60 + s /\ Z.rem (h * 3600 + m * 60 + s) 60 = s /\
  Z.quot (h * 3600 + m * 60 + s) 60 = h * 60 + m /\ Z.rem (h * 60 + m) 60 = m /\ Z.quot (h * 60 + m) 60 = h.
Proof.
  intros HD Hh Hm Hs x. unfold x. rewrite !Z.quot_div_nonneg, !Z.rem_mod_nonneg by lia.
  split_and!; Z.to_euclidean_division_equations; lia.
Qed.

Lemma gmtime_valid n t r : valid_tm n t -> seconds n t < time_limit -> gmtime_r (Some (seconds n t)) (Some r) = Some t.
Proof.
  intros [Hs Hmi Hh Hmo Hmd Hy Hyd Hwd Hds] Hlim. set (leap := __isleap (1970 + Z.of_nat n)) in *.
  destruct (month_table leap (tm_mon t) (tm_mday t) Hmo Hmd) as (sp & e & E1 & _ & _ & _ & Hdate & Hrange).
  fold (yday_of leap (tm_mon t) (tm_mday t)) in Hyd. rewrite <- Hyd in Hdate, Hrange.
  assert (HD0 : 0 <= days_before n) by (pose proof (days_before_mono 0 n ltac:(lia)); simpl in *; lia).
  set (D := days_before n + tm_yday t) in *. unfold seconds in *. fold D in Hlim |- *.
  destruct (split_time D (tm_hour t) (tm_min t) (tm_sec t)) as (Q1 & Q2 & Q3 & Q4 & Q5 & Q6); [lia..|].
  assert (HD : 0 <= D < 2 ^ 31 - 4) by (unfold time_limit in Hlim; lia).
  cbv [gmtime_r]. change (24 * 60 * 60) with 86400. rewrite Q1, Q2, (i32_id D), (i32_id (4 + D)), i32_id by lia. rewrite Q3, Q4, Q5, Q6.
  assert (El : year_loop (S (Z.to_nat D)) 1970 D = Some (1970 + Z.of_nat n, tm_yday t)).
  { pose proof (days_before_mono 0 n ltac:(lia)) as Hb. simpl days_before in Hb.
    pose proof (year_loop_spec (S (Z.to_nat D)) 0 n (tm_yday t)) as G. simpl days_before in G.
    replace (days_before n - 0 + tm_yday t) with D in G by (unfold D; lia). apply G; [lia|lia|].
    unfold year_days. fold leap. done. }
  rewrite El. cbv [mbind option_bind]. fold leap. unfold date_of in Hdate. cbv [mbind option_bind] in Hdate.
  cbv zeta in Hdate |- *. destruct (spm (month_loop _ _)) as [s'|]; [|done].
  apply (inj Some), pair_equal_spec in Hdate as [Emon Emday].
  rewrite Emday, Emon, Z.rem_mod_nonneg by lia. destruct t as [ts tmi th tmd tmo ty tw tyd tds]. simpl in *.
  f_equal. f_equal; try done; [lia|]. rewrite Hwd. f_equal. lia.
Qed.

Lemma timegm_valid n t : valid_tm n t -> seconds n t < time_limit -> timegm (Some t) = Some (Some t, seconds n t).
Proof.
  intros [Hs Hmi Hh Hmo Hmd Hy Hyd Hwd Hds] Hlim. set (leap := __isleap (1970 + Z.of_nat n)) in *.
  destruct (month_table leap (tm_mon t) (tm_mday t) Hmo Hmd) as (sp & e & E1 & E2 & He & Hsum & _ & Hrange).
  fold (yday_of leap (tm_mon t) (tm_mday t)) in Hyd. rewrite <- Hyd in Hsum, Hrange.
  assert (Hn : 0 <= 365 * Z.of_nat n <= days_before n) by (pose proof (days_before_mono 0 n ltac:(lia)); simpl in *; lia).
  assert (Hlim' : days_before n + tm_yday t < 2 ^ 31 - 4) by (unfold seconds, time_limit in Hlim; lia).
  assert (Hyd366 : tm_yday t < 366) by (destruct leap; lia).
  assert (Hleap : __isleap (i32 (tm_year t + 1900)) = leap) by (rewrite i32_id, Hy by lia; unfold leap; f_equal; lia).
  pose proof (day_formula n) as Hday. cbv zeta in Hday.
  cbv [timegm]. rewrite (proj2 (Z.ltb_ge 60 (tm_sec t))), (proj2 (Z.leb_gt 60 (tm_min t))), (proj2 (Z.leb_gt 24 (tm_hour t))), (proj2 (Z.leb_gt 12 (tm_mon t))) by lia.
  assert (El : mday_loop (2 * Z.to_nat (tm_mday t) + 2) (tm_mday t) (tm_mon t) (tm_year t) = Some (tm_mday t, tm_mon t, tm_year t)).
  { replace (2 * Z.to_nat (tm_mday t) + 2)%nat with (S (2 * Z.to_nat (tm_mday t) + 1)) by lia. cbn [mday_loop].
    rewrite E2. cbv [mbind option_bind]. by rewrite (proj2 (Z.ltb_ge e (tm_mday t))) by lia. }
  rewrite El. cbv [mbind option_bind]. rewrite (proj2 (Z.ltb_ge (tm_year t) 70)) by lia. rewrite E1, Hleap, Hsum, (i32_id (tm_yday t)) by lia.
  replace (tm_year t - 70) with (Z.of_nat n) by lia. rewrite Hday, Z.rem_mod_nonneg by lia.
  rewrite i32_id by (pose proof (Z.mod_pos_bound (days_before n + tm_yday t + 4) 7); lia). rewrite <- Hwd.
  destruct t as [ts tmi th tmd tmo ty tw tyd tds]. simpl in *. do 2 f_equal. unfold seconds. simpl. lia.
Qed.

Lemma time_date x : 0 <= x -> exists n t, valid_tm n t /\ seconds n t = x.
Proof.
  intros Hx. pose proof (Z.div_mod x 86400 ltac:(lia)) as E. pose proof (Z.mod_pos_bound x 86400 ltac:(lia)).
  destruct (day_year (x / 86400)) as (n & yday & Ed & Hy); [by apply Z.div_pos|].
  pose proof (date_ok_all (__isleap (1970 + Z.of_nat n)) yday Hy) as Hok. unfold date_ok in Hok.
  destruct (date_of _ yday) as [[mon mday]|]; [|done]. rewrite !andb_true_iff in Hok. destruct Hok as ((((H1 & H2) & H3) & H4) & H5).
  apply Z.leb_le in H1, H3, H4. apply Z.ltb_lt in H2. apply Z.eqb_eq in H5.
  set (w := x mod 86400) in *.
  exists n, (mk_tm (w mod 60) (w / 60 mod 60) (w / 3600) mday mon (70 + Z.of_nat n) ((days_before n + yday + 4) mod 7) yday 0).
  split; [split; simpl; try done; try (Z.to_euclidean_division_equations; lia)|].
  unfold seconds. simpl. rewrite <- Ed. Z.to_euclidean_division_equations. lia.
Qed.

(** C40: The times from 1970 up to [time_limit] and the valid dates are in one-to-one
    correspondence: [gmtime_r] gives a valid date of the Gregorian calendar, with the right
    day of the week and of the year, and [timegm] translates it back without changing it; and
    [timegm] of a valid date is the number of seconds from 1970, from which [gmtime_r] gives
    the same date. *)
Theorem calendar_roundtrip :
  (forall x r, 0 <= x < time_limit -> exists n t, gmtime_r (Some x) (Some r) = Some t /\ valid_tm n t /\ seconds n t = x /\
    timegm (Some t) = Some (Some t, x)) /\
  (forall n t r, valid_tm n t -> seconds n t < time_limit ->
    timegm (Some t) = Some (Some t, seconds n t) /\ gmtime_r (Some (seconds n t)) (Some r) = Some t).
Proof.
  split.
  - intros x r [Hx Hlim]. destruct (time_date x) as (n & t & Ht & Es); [lia|]. exists n, t. subst x.
    split; [by apply gmtime_valid|]. split; [done|]. split; [done|]. by apply timegm_valid.
  - intros n t r Ht Hx. split; [by apply timegm_valid|by apply gmtime_valid].
Qed.

Lemma calendar_roundtrip_witness : exists t, gmtime_r (Some 1000000000) (Some (mk_tm 0 0 0 0 0 0 0 0 0)) = Some t /\
  timegm (Some t) = Some (Some t, 1000000000).
Proof.
  destruct (proj1 calendar_roundtrip 1000000000 (mk_tm 0 0 0 0 0 0 0 0 0)) as (n & t & H1 & _ & _ & H2); [done|].
  exists t. split; [exact H1|exact H2].
Defined.

(** * Dates that are not normal *)

(** 32 January 1970 becomes 4 March: the loop subtracts the days before the month, not the
    days of the month, and leaves the month too high. *)
Lemma january_32 : timegm (Some (mk_tm 0 0 0 32 0 70 0 0 0)) = Some (Some (mk_tm 0 0 0 32 1 70 3 62 0), 62 * 86400) /\
  timegm (Some (mk_tm 0 0 0 1 1 70 0 0 0)) = Some (Some (mk_tm 0 0 0 1 1 70 0 31 0), 31 * 86400).
Proof. split; vm_compute; reflexivity. Qed.

(** A month of 12 moves the year in the structure, but not in the result: January 1971, given
    as month 12 of 1970, is the time of January 1970. *)
Lemma month_12 : timegm (Some (mk_tm 0 0 0 1 12 70 0 0 0)) = Some (Some (mk_tm 0 0 0 1 0 71 4 0 0), 0).
Proof. vm_compute. reflexivity. Qed.

(** A failed [timegm] is not -1 any more after [mktime] in another time zone. *)
Lemma mktime_error : mktime 28800 (Some (mk_tm 0 0 0 1 0 69 0 0 0)) = Some (Some (mk_tm 0 0 0 1 0 69 0 0 0), - 28801).
Proof. vm_compute. reflexivity. Qed.

(** A time before 1970 gets a date with a second of -1 and a day 0. *)
Lemma gmtime_negative : gmtime_r (Some (-86401)) (Some (mk_tm 0 0 0 0 0 0 0 0 0)) = Some (mk_tm (-1) 0 0 0 0 70 3 (-1) 0).
Proof. vm_compute. reflexivity. Qed.
